(* ===== verification/_CoqProject ===== *)
-Q . S2P
Prelude.v
Serialize.v
StrEncodings.v
Doubles.v
Uint256.v
Chain.v
Params.v
Pow.v
BlockTree.v
Activation.v
Digest.v
Hashes.v
Script.v
Interp.v
Tx.v
SigHash.v
Compressor.v
Coins.v
CoinsView.v
Connect.v
Ledger.v
TxCheck.v
Reward.v
Merkle.v
PartialMerkle.v
Standard.v
Base58.v
Bloom.v
Mempool.v
Block.v
BlockFiles.v
Accept.v
Numbers.v
NetAddr.v
Netbase.v
Protocol.v
Messages.v
AddrMan.v
Kernel.v
PoolAccept.v
Orphans.v
Peers.v
Spork.v
Payments.v
Budget.v
