(* ===== verification/Prelude.v ===== *)
(** * Verification library of the Merge node

    The node keeps a tree of blocks, follows the branch with the most work among
    those it can use, and maintains beside it the unspent outputs of that branch, a
    pool of unconfirmed transactions, the tables of peer addresses and the
    connections to its peers. This library translates the core of the C++ program,
    function by function, and proves what each part must guarantee. File names
    below are relative to src/src; a definition has the name of the function,
    method or type it models, and where one C++ function is a loop with a body, the
    loop is a definition of its own with the suffix _loop.

    ** Conventions

    Integers are [Z]; wrap-around is written out ([u32], [u64], [s32], [s64] below)
    wherever the type is narrower than the values that can arise. Bytes are [Z] from
    0 to 255. A uint256 that is computed with is its list of limbs ([Uint256]); one
    that is only stored, compared and hashed is its 32 bytes ([Tx]); [to_bytes] and
    [limbs_of_bytes] go between the two. Code that can refuse returns a [result]
    with the reason or a bool, as in the source; undefined behaviour (null
    pointers, indexes out of range) and failed assertions are values too, so that
    the theorems can say whether they occur. State is passed explicitly. A std::map
    or std::set is a [gmap], a [gset], or a sorted list where the order of iteration
    matters.

    ** Parts and files

    - Ground: this file; [Serialize] (serialize.h, streams.h: formats with their
      laws as type classes); [StrEncodings] and [Numbers] (utilstrencodings,
      utilmoneystr); [Doubles] (double precision); [Uint256] (uint256).
    - Hashes and scripts: [Digest], [Hashes] (crypto, hash.h); [Script] (script.h,
      script.cpp); [Interp] (interpreter.cpp); [SigHash] (signature hashes);
      [Standard] (standard.cpp); [Base58] (base58.cpp).
    - Transactions: [Tx] (primitives/transaction); [TxCheck] (the transaction rules
      of main.cpp); [Compressor], [Coins], [CoinsView] (compressor, coins, txdb);
      [Mempool] (txmempool); [PoolAccept] (AcceptToMemoryPool).
    - Blocks on their own: [Merkle], [PartialMerkle], [Bloom] (primitives/block,
      merkleblock, bloom); [Block] (blocks, CheckBlock, block signatures);
      [Params], [Pow], [Reward] (chainparams, pow, the schedules of main.cpp);
      [Kernel] (the proof-of-stake kernel).
    - The chain: [Chain] (chain.h, chain.cpp: indices, skip list, active chain);
      [BlockTree] (the block index with its candidates); [Activation]
      (ActivateBestChain and what it calls); [Connect], [Ledger] (the coins of a
      block, and their specification); [BlockFiles] (where blocks go on disk);
      [Accept] (from a received block to the new tip).
    - Peers: [NetAddr], [Netbase], [Protocol], [Messages], [AddrMan] (netbase,
      protocol, limitedmap, mruset, net, addrman).
    - What peers send: [Orphans] (orphan transactions and the "tx" message),
      [Peers] (what the node knows of its peers, which blocks it asks of whom).
    - Masternodes: [Spork] (spork, sporkdb, the signed messages of obfuscation.cpp),
      [Payments] (masternode-payments: who is paid with a block), [Budget]
      (masternode-budget: proposals, votes, superblocks), on an interface to the list
      of masternodes, [MasternodeView].
    How they meet: ProcessNewBlock ([Accept]) checks a block ([Block]), links it
    ([BlockTree]), stores it ([BlockFiles]) and activates the best chain
    ([Activation]); connecting a block changes the coins ([Connect], on any
    [CoinsView]) after the inputs were checked ([TxCheck]), whose scripts run in
    [Interp] with the checker of [SigHash]. The interfaces are the type class
    [CoinsView] (a cache is built on any view that keeps its laws and keeps them
    itself), the classes [FormatOk] and [FormatCanonical] for wire formats, the
    class [Admission] (what the handler of "tx" needs of a pool, kept by
    AcceptToMemoryPool), the [Environment] of [Activation] and the [Oracles] of
    [Accept].

    ** What the theorems show

    - The chain. The block tree keeps its invariant under everything the node does
      to it, including the invalidation of blocks; FindMostWorkChain returns the
      best usable block; ActivateBestChain and ProcessNewBlock end and reach it;
      AcceptBlock never crashes. Connecting a block is exactly the change of the set
      of unspent outputs that its transactions describe, and disconnecting it
      restores the coins. The active chain is the path of its tip, and the skip list
      finds the ancestors.
    - Acceptance. CheckTransaction, CheckInputs, CheckBlock, AcceptToMemoryPool and
      the check of block signatures accept exactly what their rules say. CHECKMULTISIG,
      pay-to-script-hash and the signature hashes are characterised, and the
      interpreter stays in its bounds.
    - Stake. The next modifier is determined by the ancestors of a block; the
      modifier of a coin settles; a kernel found by the wallet is accepted.
    - Formats. Transactions, partial Merkle trees, addresses and amounts round
      trip; a Merkle root commits to the transactions; base_uint is arithmetic
      modulo a power of two; rewards and retargets have closed forms.
    - Stores and peers. The coins cache is a map; block files never overlap; the
      memory pool and the address tables stay consistent in every history; messages
      arrive whole and in order whatever the pieces; subnets, address groups and the
      SOCKS 5 handshake do what they stand for.
    - Peer messages. A transaction message leaves the orphan index exact and below
      its bound, and no orphan waits for a transaction that was admitted; the counts
      of blocks in flight are exact in every history, and the blocks asked of a peer
      are the first ones of its branch that the node lacks.
    Every theorem with hypotheses is followed, at the end of its file, by a witness:
    the theorem applied to a concrete state.

    ** Fuel

    Most loops are structural. Where one is not, a [fuel] argument bounds it, and a
    theorem shows that the bound chosen is enough: ActivateBestChain runs in
    (n+1)^2 rounds for n known blocks; FindMostWorkChain in as many rounds as there
    are candidates; the recursive removal of the pool in as many steps as it has
    entries; FindBlockPos in as many as there are files; the loop of
    GetKernelStakeModifier in as many as the chain has blocks; var-ints and script
    numbers have a number of digits fixed by their width. The interpreter consumes
    a byte of script in every step.

    ** Parameters

    Code that is not part of the repository's own text, or that reads the world, is
    an argument: the curve (checking a signature, decompressing a key), Argon2 as
    the hash of a header, the resolver of the operating system, what the socket
    takes, clocks, random numbers, the space on disk, the blocks and transactions
    read from disk, the addresses of objects (which order candidates of equal
    work), the power function of the C library. Hypotheses on them are stated where
    they are used, and the witnesses instantiate them.

    ** Not modelled

    Locks and threads (the sequences of steps of one thread are), logging and
    notifications; the graphical interface, the RPC and REST servers, start-up and
    the tools, which are glue; LevelDB, Berkeley DB and the other third-party code;
    the sockets themselves, DNS seeds and the Tor controller; keys, key stores and
    wallet encryption, which wrap secp256k1, OpenSSL and scrypt; parts whose values
    are floating-point estimates (fee estimation, verification progress).
    Left for a continuation, in this order: the remaining handlers of ProcessMessage,
    the list of masternodes and its synchronisation, SwiftTX, the wallet's coin
    selection, block templates, and LoadBlockIndex with VerifyDB. *)

From Stdlib Require Export ZArith Lia Bool.
From stdpp Require Export base tactics list numbers strings gmap.

#[export] Set Warnings "-clear-no-such-hyp".
#[global] Open Scope Z_scope.

(** ** Machine integers *)

(** A [w]-bit unsigned integer is a [Z] in [[0, 2^w)]; arithmetic wraps. *)
Definition wrap (w z : Z) : Z := z mod 2 ^ w.
(** Two's complement reading of the low [w] bits. *)
Definition swrap (w z : Z) : Z := (z + 2 ^ (w - 1)) mod 2 ^ w - 2 ^ (w - 1).

Abbreviation u8 := (wrap 8).
Abbreviation u16 := (wrap 16).
Abbreviation u32 := (wrap 32).
Abbreviation u64 := (wrap 64).
Abbreviation s32 := (swrap 32).
Abbreviation s64 := (swrap 64).

(** The value range of a [w]-bit unsigned integer. *)
Definition in_uw (w z : Z) : Prop := 0 <= z < 2 ^ w.
(** The value range of a [w]-bit signed integer. *)
Definition in_sw (w z : Z) : Prop := - 2 ^ (w - 1) <= z < 2 ^ (w - 1).

Abbreviation is_byte := (in_uw 8).
Abbreviation is_u32 := (in_uw 32).
Abbreviation is_u64 := (in_uw 64).
Abbreviation is_s32 := (in_sw 32).
Abbreviation is_s64 := (in_sw 64).

(** An array read; the models only use it in range. *)
Definition getz (l : list Z) (i : Z) : Z := nth (Z.to_nat i) l 0.
(** An array write; the models only use it in range. *)
Definition setz (l : list Z) (i x : Z) : list Z := <[Z.to_nat i := x]> l.

(** The bytes of a string literal of the source. *)
Definition str (s : string) : list Z :=
  map (λ c, Z.of_nat (Ascii.nat_of_ascii c)) (String.list_ascii_of_string s).

(** The [n] little-endian bytes of [z]. *)
Fixpoint le_bytes (n : nat) (z : Z) : list Z :=
  match n with
  | O => []
  | S n' => Z.land z 255 :: le_bytes n' (Z.shiftr z 8)
  end.

(** The number a little-endian byte string stands for. *)
Fixpoint le_val (bs : list Z) : Z :=
  match bs with
  | [] => 0
  | b :: r => b + 256 * le_val r
  end.

(** Results of code that can throw: the value, or the exception. *)
Inductive result (E A : Type) : Type :=
| Ok (a : A)
| Throw (e : E).
Arguments Ok {E A} a.
Arguments Throw {E A} e.

Definition rbind {E A B} (r : result E A) (f : A → result E B) : result E B :=
  match r with
  | Ok a => f a
  | Throw e => Throw e
  end.

Declare Scope node_scope.
Delimit Scope node_scope with node.
Notation "'let!' x ':=' r 'in' k" := (rbind r (fun x => k))
  (at level 10, x pattern, r at level 100, k at level 200) : node_scope.

Lemma rbind_Ok {E A B} (r : result E A) (f : A → result E B) y :
  rbind r f = Ok y → ∃ x, r = Ok x ∧ f x = Ok y.
Proof. destruct r; [by eexists|done]. Qed.

(** ** Lemmas on machine integers *)

Create HintDb node.
Create Rewrite HintDb words.

(** Division and modulo by literals become linear facts for [lia]. *)
Ltac divmod_lia := Z.div_mod_to_equations; lia.

Lemma wrap_range w z : 0 <= w → in_uw w (wrap w z).
Proof. intros. unfold in_uw, wrap. apply Z.mod_pos_bound. lia. Qed.

Lemma wrap_small w z : in_uw w z → wrap w z = z.
Proof. intros. unfold wrap. by apply Z.mod_small. Qed.

Lemma wrap_wrap w z : wrap w (wrap w z) = wrap w z.
Proof. unfold wrap. apply Zmod_mod. Qed.

Lemma swrap_range w z : 0 < w → in_sw w (swrap w z).
Proof.
  intros. unfold in_sw, swrap.
  assert (2 ^ w = 2 * 2 ^ (w - 1)) as E
    by (rewrite <- Z.pow_succ_r by lia; f_equal; lia).
  pose proof (Z.mod_pos_bound (z + 2 ^ (w - 1)) (2 ^ w) ltac:(lia)). lia.
Qed.

Lemma swrap_small w z : 0 < w → in_sw w z → swrap w z = z.
Proof.
  intros Hw [? ?]. unfold swrap.
  assert (2 ^ w = 2 * 2 ^ (w - 1)) as E
    by (rewrite <- Z.pow_succ_r by lia; f_equal; lia).
  rewrite Z.mod_small; lia.
Qed.

Lemma swrap_wrap w z : 0 < w → swrap w (wrap w z) = swrap w z.
Proof.
  intros. unfold swrap, wrap. by rewrite Zplus_mod_idemp_l.
Qed.

Lemma wrap_swrap w z : 0 < w → wrap w (swrap w z) = wrap w z.
Proof.
  intros Hw. unfold swrap, wrap. rewrite Zminus_mod_idemp_l. f_equal. lia.
Qed.

Lemma swrap_add_l w a b : 0 < w → swrap w (swrap w a + b) = swrap w (a + b).
Proof.
  intros Hw. unfold swrap.
  replace ((a + 2 ^ (w - 1)) mod 2 ^ w - 2 ^ (w - 1) + b + 2 ^ (w - 1)) with ((a + 2 ^ (w - 1)) mod 2 ^ w + b) by lia.
  rewrite Zplus_mod_idemp_l. do 2 f_equal. lia.
Qed.

Lemma land_ff z : Z.land z 255 = z mod 256.
Proof. apply (Z.land_ones z 8). lia. Qed.

Lemma land_ffffffff z : Z.land z 4294967295 = z mod 2 ^ 32.
Proof. apply (Z.land_ones z 32). lia. Qed.

Lemma shiftr_div z n : 0 <= n → Z.shiftr z n = z / 2 ^ n.
Proof. intros. by apply Z.shiftr_div_pow2. Qed.

Lemma shiftl_mul z n : 0 <= n → Z.shiftl z n = z * 2 ^ n.
Proof. intros. by apply Z.shiftl_mul_pow2. Qed.

Lemma u32_div_mod_range z : 0 <= z < 2 ^ 64 → in_uw 32 (z / 2 ^ 32).
Proof. intros. unfold in_uw. split; [apply Z.div_pos|apply Z.div_lt_upper_bound]; lia. Qed.

(** Bits above the width are zero. *)
Lemma testbit_high w z i : in_uw w z → w <= i → 0 <= w → Z.testbit z i = false.
Proof.
  intros Hz Hi Hw. rewrite <- (wrap_small w z Hz). by apply Z.mod_pow2_bits_high.
Qed.

(** A disjoint [lor] is an addition. *)
Lemma lor_add a b n :
  0 <= n → 0 <= b < 2 ^ n → a mod 2 ^ n = 0 → Z.lor a b = a + b.
Proof.
  intros Hn Hb Ha. rewrite <- Z.lxor_lor; [rewrite <- Z.add_nocarry_lxor; [done|] |];
  apply Z.bits_inj'; intros i Hi; rewrite Z.land_spec, Z.bits_0;
  destruct (decide (i < n)).
  - rewrite <- (Z.mod_pow2_bits_low a n) by lia. by rewrite Ha, Z.bits_0.
  - rewrite (testbit_high n b) by (done || lia). apply andb_false_r.
  - rewrite <- (Z.mod_pow2_bits_low a n) by lia. by rewrite Ha, Z.bits_0.
  - rewrite (testbit_high n b) by (done || lia). apply andb_false_r.
Qed.

#[export] Hint Resolve wrap_range swrap_range : node.
#[export] Hint Rewrite land_ff land_ffffffff wrap_wrap : words.
#[export] Hint Rewrite shiftr_div shiftl_mul using lia : words.

(** ** Little-endian byte strings *)

Lemma length_le_bytes n z : length (le_bytes n z) = n.
Proof. revert z. induction n; intros; simpl; auto. Qed.

Lemma le_bytes_byte n z : Forall is_byte (le_bytes n z).
Proof.
  revert z. induction n as [|n IH]; intros z; simpl; constructor; [|apply IH].
  rewrite land_ff. unfold in_uw. apply Z.mod_pos_bound. lia.
Qed.

Lemma le_val_range bs : Forall is_byte bs → 0 <= le_val bs < 2 ^ (8 * Z.of_nat (length bs)).
Proof.
  induction 1 as [|b r [? ?] _ IH]; cbn [le_val length]; [lia|].
  replace (8 * Z.of_nat (S (length r))) with (8 + 8 * Z.of_nat (length r)) by lia.
  rewrite Z.pow_add_r by lia. lia.
Qed.

Lemma le_val_le_bytes n z : le_val (le_bytes n z) = z mod 2 ^ (8 * Z.of_nat n).
Proof.
  revert z. induction n as [|n IH]; intros z; cbn [le_val le_bytes].
  { by rewrite Z.mod_1_r. }
  rewrite IH, land_ff, shiftr_div by lia.
  replace (8 * Z.of_nat (S n)) with (8 + 8 * Z.of_nat n) by lia.
  rewrite Z.pow_add_r by lia. rewrite (Z.rem_mul_r z (2 ^ 8)) by lia. done.
Qed.

Lemma le_val_le_bytes_small n z :
  0 <= z < 2 ^ (8 * Z.of_nat n) → le_val (le_bytes n z) = z.
Proof. intros. rewrite le_val_le_bytes. by apply Z.mod_small. Qed.

Lemma le_bytes_le_val bs : Forall is_byte bs → le_bytes (length bs) (le_val bs) = bs.
Proof.
  induction 1 as [|b r [? ?] Hr IH]; cbn [le_val le_bytes length]; [done|].
  rewrite land_ff, shiftr_div by lia. f_equal.
  - divmod_lia.
  - replace ((b + 256 * le_val r) / 2 ^ 8) with (le_val r); [done|]. change (2 ^ 8) with 256. divmod_lia.
Qed.

#[export] Hint Resolve le_bytes_byte : node.
#[export] Hint Rewrite length_le_bytes : words.

(** ** Finite checks and bitwise proofs *)

Lemma Zforall_check (n : Z) (f : Z → bool) :
  forallb f (seqZ 0 n) = true → ∀ i, 0 <= i < n → f i = true.
Proof.
  intros H i Hi. rewrite forallb_forall in H. apply H.
  apply list_elem_of_In, elem_of_seqZ. lia.
Qed.

Lemma testbit_wrap w z i :
  0 <= w → 0 <= i → Z.testbit (wrap w z) i = (i <? w) && Z.testbit z i.
Proof.
  intros. unfold wrap. destruct (Z.ltb_spec i w).
  - by rewrite Z.mod_pow2_bits_low.
  - by rewrite Z.mod_pow2_bits_high.
Qed.

(** A number whose bits from [n] on vanish is below [2^n]. *)
Lemma in_uw_bits n z :
  0 <= n → 0 <= z → (∀ i, n <= i → Z.testbit z i = false) → in_uw n z.
Proof.
  intros Hn Hz H. assert (z = wrap n z) as ->; [|by apply wrap_range].
  apply Z.bits_inj'. intros i Hi. rewrite testbit_wrap by lia.
  destruct (Z.ltb_spec i n); [done|]. by apply H.
Qed.

(** Pushes [Z.testbit] to the leaves. *)
Ltac testbits :=
  repeat first
    [ rewrite testbit_wrap by lia | rewrite Z.land_spec | rewrite Z.lor_spec
    | rewrite Z.lxor_spec | rewrite Z.shiftr_spec by lia | rewrite Z.shiftl_spec by lia
    | rewrite Z.lnot_spec by lia ].

(** A goal on bits at closed positions: positions are computed, bits of
    variables at negative positions vanish, bits of literals are computed. *)
Ltac byte_bit_low :=
  repeat match goal with
  | |- context [Z.testbit ?c ?j] =>
      let j' := eval vm_compute in j in
      progress change (Z.testbit c j) with (Z.testbit c j')
  end;
  repeat match goal with
  | |- context [Z.testbit ?x ?j] =>
      first [ rewrite (Z.testbit_neg_r x j) by lia
            | rewrite (testbit_high 8 x j) by (assumption || lia)
            | let b := eval vm_compute in (Z.testbit x j) in
              lazymatch b with
              | true => change (Z.testbit x j) with true
              | false => change (Z.testbit x j) with false
              end ]
  end;
  simpl;
  rewrite ?orb_false_r, ?orb_false_l, ?andb_true_r, ?andb_false_r, ?orb_false_r;
  done.

(** Bits past the width of a byte or of a small literal are false. *)
Ltac bits_vanish :=
  let side := solve [assumption | unfold in_uw; lia | lia] in
  repeat match goal with
  | |- context [Z.testbit ?x ?j] =>
      first [ rewrite (testbit_high 8 x j) by side | rewrite (testbit_high 6 x j) by side
            | rewrite (testbit_high 5 x j) by side | rewrite (testbit_high 4 x j) by side
            | rewrite (testbit_high 3 x j) by side | rewrite (testbit_high 2 x j) by side
            | rewrite (testbit_high 1 x j) by side ]
  end;
  simpl; rewrite ?andb_false_r, ?orb_false_r, ?andb_false_r; done.

(** Equality of two bit expressions over bytes: bits 0 to 7 one by one, the
    higher ones vanish. *)
Ltac byte_bits :=
  let i := fresh "i" in let Hi := fresh "Hi" in
  apply Z.bits_inj'; intros i Hi;
  assert (i = 0 ∨ i = 1 ∨ i = 2 ∨ i = 3 ∨ i = 4 ∨ i = 5 ∨ i = 6 ∨ i = 7 ∨ 8 <= i)
    as Hi' by lia;
  destruct Hi' as [->|[->|[->|[->|[->|[->|[->|[->|Hi']]]]]]]];
  testbits;
  [ byte_bit_low | byte_bit_low | byte_bit_low | byte_bit_low
  | byte_bit_low | byte_bit_low | byte_bit_low | byte_bit_low
  | rewrite ?(proj2 (Z.ltb_ge i 8)) by lia; rewrite ?andb_false_l;
    bits_vanish ].

(** ** Arrays *)

Lemma getz_setz l i j x :
  0 <= i < Z.of_nat (length l) → 0 <= j →
  getz (setz l i x) j = if j =? i then x else getz l j.
Proof.
  intros Hi Hj. unfold getz, setz. rewrite !nth_lookup.
  destruct (Z.eqb_spec j i) as [->|Hne].
  - by rewrite list_lookup_insert_eq by lia.
  - by rewrite list_lookup_insert_ne by lia.
Qed.

Lemma length_setz l i x : length (setz l i x) = length l.
Proof. apply length_insert. Qed.

Lemma getz_replicate n x i : 0 <= i < Z.of_nat n → getz (replicate n x) i = x.
Proof. intros. unfold getz. rewrite nth_lookup, lookup_replicate_2 by lia. done. Qed.

Lemma getz_Forall (P : Z → Prop) l i :
  Forall P l → 0 <= i < Z.of_nat (length l) → P (getz l i).
Proof.
  intros H Hi. unfold getz. rewrite Forall_forall in H. apply H, list_elem_of_In, nth_In. lia.
Qed.

Lemma Forall_getz (P : Z → Prop) l :
  (∀ i, 0 <= i < Z.of_nat (length l) → P (getz l i)) → Forall P l.
Proof.
  intros H. apply Forall_lookup_2. intros i x Hi. pose proof (lookup_lt_Some _ _ _ Hi).
  specialize (H (Z.of_nat i) ltac:(lia)). unfold getz in H.
  by rewrite Nat2Z.id, nth_lookup, Hi in H.
Qed.

(** An invariant of a loop over [0 .. n-1]. *)
Lemma foldl_seqZ_inv {A} (I : Z → A → Prop) (f : A → Z → A) (n : Z) (a : A) :
  0 <= n → I 0 a → (∀ i b, 0 <= i < n → I i b → I (i + 1) (f b i)) →
  I n (foldl f a (seqZ 0 n)).
Proof.
  intros Hn H0 Hs. rewrite <- (Z2Nat.id n) in * by done. clear Hn.
  induction (Z.to_nat n) as [|m IH]; [done|].
  rewrite Nat2Z.inj_succ, <- Z.add_1_r, seqZ_app, foldl_app by lia. cbn [foldl seqZ].
  rewrite Z.add_0_l. apply Hs; [lia|]. apply IH. intros; apply Hs; [lia|done].
Qed.

#[export] Hint Rewrite length_setz : words.

(** A mask with one bit. *)
Lemma land_pow2 x k : 0 <= k → Z.land x (2 ^ k) = if Z.testbit x k then 2 ^ k else 0.
Proof.
  intros Hk. apply Z.bits_inj'. intros i Hi.
  rewrite Z.land_spec, Z.pow2_bits_eqb by lia. destruct (Z.eqb_spec k i) as [->|Hne].
  - destruct (Z.testbit x i); rewrite ?Z.pow2_bits_true, ?Z.bits_0 by lia; done.
  - destruct (Z.testbit x k); rewrite ?Z.pow2_bits_false, ?Z.bits_0, ?andb_false_r by lia; done.
Qed.

(** The top bit of a [k+1]-bit number. *)
Lemma testbit_top x k : 0 <= k → 0 <= x < 2 ^ (k + 1) → Z.testbit x k = (2 ^ k <=? x).
Proof.
  intros Hk Hx. rewrite Z.pow_add_r in Hx by lia. change (2 ^ 1) with 2 in Hx.
  assert (0 < 2 ^ k) by (apply Z.pow_pos_nonneg; lia).
  destruct (Z.leb_spec (2 ^ k) x).
  - apply Z.testbit_true; [done|]. replace (x / 2 ^ k) with 1; [done|].
    apply Z.div_unique with (x - 2 ^ k); lia.
  - apply (testbit_high k); [split|..]; lia.
Qed.

Lemma land_top_zero x k :
  0 <= k → 0 <= x < 2 ^ (k + 1) → (Z.land x (2 ^ k) =? 0) = (x <? 2 ^ k).
Proof.
  intros Hk Hx. rewrite land_pow2, testbit_top by done.
  assert (0 < 2 ^ k) by (apply Z.pow_pos_nonneg; lia).
  destruct (Z.leb_spec (2 ^ k) x), (Z.ltb_spec x (2 ^ k)); try lia; done.
Qed.

(** Disjoint masks. *)
Lemma land_high_zero x m k :
  0 <= k → 0 <= x < 2 ^ k → m mod 2 ^ k = 0 → Z.land x m = 0.
Proof.
  intros Hk Hx Hm. apply Z.bits_inj'. intros i Hi. rewrite Z.land_spec, Z.bits_0.
  destruct (Z.lt_ge_cases i k).
  - rewrite <- (Z.mod_pow2_bits_low m k) by lia. by rewrite Hm, Z.bits_0, andb_false_r.
  - by rewrite (testbit_high k x) by (done || lia).
Qed.

Lemma land_le_r a b : 0 <= b → Z.land a b <= b.
Proof.
  intros Hb. assert (0 <= b - Z.land a b); [|lia].
  rewrite Z.sub_nocarry_ldiff; [apply Z.ldiff_nonneg; by left|].
  apply Z.bits_inj'. intros i Hi. rewrite Z.ldiff_spec, Z.land_spec, Z.bits_0.
  by destruct (Z.testbit a i), (Z.testbit b i).
Qed.
