(* ===== verification/Serialize.v ===== *)
(** * serialize.h and streams.h: the wire and disk formats

    A [format] gathers what the overloads [Serialize], [Unserialize] and
    [GetSerializeSize] do for one type: the bytes written, the reader (on the
    bytes that are left in the stream) and the size. [FormatOk] is the promise a
    format makes to the types built from it: what is written reads back, and
    the size is the number of bytes written. [FormatCanonical] adds that no
    other bytes read back to the same value. *)

From S2P Require Import Prelude.

Local Open Scope node_scope.

(** The [std::ios_base::failure] exceptions. *)
Inductive stream_error := EndOfData | NonCanonicalCompactSize | SizeTooLarge | StringTooLong.

Definition MAX_SIZE : Z := 33554432.

(** ** CDataStream *)

Record CDataStream := mkStream { vch : list Z; nReadPos : nat }.

(** The unread bytes, [begin()] to [end()]. *)
Definition unread (s : CDataStream) : list Z := drop (nReadPos s) (vch s).

Definition stream_size (s : CDataStream) : nat := length (vch s) - nReadPos s.

Definition stream_read (s : CDataStream) (nSize : nat) : result stream_error (list Z * CDataStream) :=
  let nReadPosNext := (nReadPos s + nSize)%nat in
  if (length (vch s) <=? nReadPosNext)%nat
  then if (length (vch s) <? nReadPosNext)%nat then Throw EndOfData
       else Ok (take nSize (drop (nReadPos s) (vch s)), mkStream [] 0)
  else Ok (take nSize (drop (nReadPos s) (vch s)), mkStream (vch s) nReadPosNext).

Definition stream_ignore (s : CDataStream) (nSize : nat) : result stream_error CDataStream :=
  let nReadPosNext := (nReadPos s + nSize)%nat in
  if (length (vch s) <=? nReadPosNext)%nat
  then if (length (vch s) <? nReadPosNext)%nat then Throw EndOfData else Ok (mkStream [] 0)
  else Ok (mkStream (vch s) nReadPosNext).

Definition stream_write (s : CDataStream) (bytes : list Z) : CDataStream :=
  mkStream (vch s ++ bytes) (nReadPos s).

Definition stream_compact (s : CDataStream) : CDataStream := mkStream (drop (nReadPos s) (vch s)) 0.

Definition stream_rewind (s : CDataStream) (n : nat) : CDataStream * bool :=
  if (nReadPos s <? n)%nat then (s, false) else (mkStream (vch s) (nReadPos s - n), true).

(** Reading, on the unread bytes alone. *)
Definition read_bytes (n : nat) (s : list Z) : result stream_error (list Z * list Z) :=
  if (length s <? n)%nat then Throw EndOfData else Ok (take n s, drop n s).

(** ** Formats *)

Record format (A : Type) := mkFormat {
  ser : A → list Z;
  unser : list Z → result stream_error (A * list Z);
  size_of : A → Z;
  dom : A → Prop
}.
Arguments mkFormat {A} &.
Arguments ser {A}.
Arguments unser {A}.
Arguments size_of {A}.
Arguments dom {A}.

(** [w] bytes, little endian, unsigned: WRITEDATA and READDATA on the host. *)
Definition f_uint (w : nat) : format Z :=
  mkFormat (λ z, le_bytes w z)
           (λ s, let! (b, s) := read_bytes w s in Ok (le_val b, s))
           (λ _, Z.of_nat w)
           (in_uw (8 * Z.of_nat w)).

(** Two's complement. *)
Definition f_sint (w : nat) : format Z :=
  mkFormat (λ z, le_bytes w (wrap (8 * Z.of_nat w) z))
           (λ s, let! (b, s) := read_bytes w s in Ok (swrap (8 * Z.of_nat w) (le_val b), s))
           (λ _, Z.of_nat w)
           (in_sw (8 * Z.of_nat w)).

(** One [char]: zero reads as false, the rest as true. *)
Definition f_bool : format bool :=
  mkFormat (λ b : bool, [if b then 1 else 0])
           (λ s, let! (b, s) := read_bytes 1 s in Ok (negb (le_val b =? 0), s))
           (λ _, 1) (λ _, True).

(** CFlatData of [n] bytes. *)
Definition f_flat (n : nat) : format (list Z) :=
  mkFormat (λ b, b) (read_bytes n) (λ b, Z.of_nat (length b))
           (λ b, length b = n ∧ Forall is_byte b).

(** *** Compact sizes *)

Definition GetSizeOfCompactSize (nSize : Z) : Z :=
  if nSize <? 253 then 1
  else if nSize <=? 65535 then 1 + 2
  else if nSize <=? 4294967295 then 1 + 4
  else 1 + 8.

Definition WriteCompactSize (nSize : Z) : list Z :=
  if nSize <? 253 then le_bytes 1 nSize
  else if nSize <=? 65535 then le_bytes 1 253 ++ le_bytes 2 nSize
  else if nSize <=? 4294967295 then le_bytes 1 254 ++ le_bytes 4 nSize
  else le_bytes 1 255 ++ le_bytes 8 nSize.

Definition ReadCompactSize (s : list Z) : result stream_error (Z * list Z) :=
  let! (b, s) := read_bytes 1 s in
  let chSize := le_val b in
  let! (nSizeRet, s) :=
    (if chSize <? 253 then Ok (chSize, s)
     else if chSize =? 253
     then let! (x, s) := read_bytes 2 s in
          if le_val x <? 253 then Throw NonCanonicalCompactSize else Ok (le_val x, s)
     else if chSize =? 254
     then let! (x, s) := read_bytes 4 s in
          if le_val x <? 65536 then Throw NonCanonicalCompactSize else Ok (le_val x, s)
     else let! (x, s) := read_bytes 8 s in
          if le_val x <? 4294967296 then Throw NonCanonicalCompactSize else Ok (le_val x, s)) in
  if MAX_SIZE <? nSizeRet then Throw SizeTooLarge else Ok (nSizeRet, s).

Definition f_compact : format Z :=
  mkFormat WriteCompactSize ReadCompactSize GetSizeOfCompactSize (λ n, 0 <= n <= MAX_SIZE).

(** *** Variable-length integers, for an unsigned type of [w] bits *)

(** The loop [n = (n >> 7) - 1]; [n / 128] bounds its turns. *)
Fixpoint GetSizeOfVarInt_loop (fuel : nat) (n : Z) (nRet : Z) : Z :=
  match fuel with
  | O => nRet
  | S fuel =>
      let nRet := nRet + 1 in
      if n <=? 127 then nRet else GetSizeOfVarInt_loop fuel (Z.shiftr n 7 - 1) nRet
  end.

(** The digits from the last one on: [tmp] in the order it is written. *)
Fixpoint WriteVarInt_loop (fuel : nat) (n : Z) (tmp : list Z) : list Z :=
  match fuel with
  | O => tmp
  | S fuel =>
      let tmp := Z.lor (Z.land n 127) (match tmp with [] => 0 | _ => 128 end) :: tmp in
      if n <=? 127 then tmp else WriteVarInt_loop fuel (Z.shiftr n 7 - 1) tmp
  end.

(** [(sizeof(n) * 8 + 6) / 7], the length of [tmp]. *)
Definition varint_digits (w : Z) : nat := Z.to_nat ((w + 6) / 7).

Definition GetSizeOfVarInt (w n : Z) : Z := GetSizeOfVarInt_loop (varint_digits w) n 0.
Definition WriteVarInt (w n : Z) : list Z := WriteVarInt_loop (varint_digits w) n [].

Fixpoint ReadVarInt_loop (w : Z) (n : Z) (s : list Z) : result stream_error (Z * list Z) :=
  match s with
  | [] => Throw EndOfData
  | chData :: s =>
      let n := wrap w (Z.lor (Z.shiftl n 7) (Z.land chData 127)) in
      if negb (Z.land chData 128 =? 0) then ReadVarInt_loop w (wrap w (n + 1)) s
      else Ok (n, s)
  end.

Definition ReadVarInt (w : Z) (s : list Z) : result stream_error (Z * list Z) := ReadVarInt_loop w 0 s.

Definition f_varint (w : Z) : format Z :=
  mkFormat (WriteVarInt w) (ReadVarInt w) (GetSizeOfVarInt w) (in_uw w).

(** *** Byte vectors, strings and vectors *)

(** [1 + 4999999 / sizeof(T)] for bytes. *)
Definition read_chunk : nat := Z.to_nat (1 + 4999999).

(** The loop that reads a byte vector in blocks. *)
Fixpoint read_blocks (fuel : nat) (nSize i : nat) (v s : list Z) : result stream_error (list Z * list Z) :=
  match fuel with
  | O => Ok (v, s)
  | S fuel =>
      if (i <? nSize)%nat
      then let blk := Nat.min (nSize - i) read_chunk in
           let! (b, s) := read_bytes blk s in
           read_blocks fuel nSize (i + blk) (v ++ b) s
      else Ok (v, s)
  end.

Definition unser_bytes (s : list Z) : result stream_error (list Z * list Z) :=
  let! (nSize, s) := ReadCompactSize s in
  read_blocks (Z.to_nat (nSize / 5000000) + 1) (Z.to_nat nSize) 0 [] s.

Definition f_bytes : format (list Z) :=
  mkFormat (λ v, WriteCompactSize (Z.of_nat (length v)) ++ v)
           unser_bytes
           (λ v, GetSizeOfCompactSize (Z.of_nat (length v)) + Z.of_nat (length v))
           (λ v, Z.of_nat (length v) <= MAX_SIZE ∧ Forall is_byte v).

(** LimitedString. *)
Definition f_limited (limit : Z) : format (list Z) :=
  mkFormat (λ v, WriteCompactSize (Z.of_nat (length v)) ++ v)
           (λ s, let! (size, s) := ReadCompactSize s in
                 if limit <? size then Throw StringTooLong else read_bytes (Z.to_nat size) s)
           (λ v, GetSizeOfCompactSize (Z.of_nat (length v)) + Z.of_nat (length v))
           (λ v, Z.of_nat (length v) <= limit ∧ Z.of_nat (length v) <= MAX_SIZE ∧ Forall is_byte v).

Fixpoint unser_n {A} (f : format A) (n : nat) (s : list Z) : result stream_error (list A * list Z) :=
  match n with
  | O => Ok ([], s)
  | S n => let! (x, s) := unser f s in
           let! (l, s) := unser_n f n s in Ok (x :: l, s)
  end.

(** A vector of other than bytes. *)
Definition f_vector {A} (f : format A) : format (list A) :=
  mkFormat (λ v, WriteCompactSize (Z.of_nat (length v)) ++ concat (map (ser f) v))
           (λ s, let! (nSize, s) := ReadCompactSize s in unser_n f (Z.to_nat nSize) s)
           (λ v, foldl (λ n x, n + size_of f x) (GetSizeOfCompactSize (Z.of_nat (length v))) v)
           (λ v, Z.of_nat (length v) <= MAX_SIZE ∧ Forall (dom f) v).

(** Two fields in a row, [READWRITE(a); READWRITE(b);]. *)
Definition f_pair {A B} (f : format A) (g : format B) : format (A * B) :=
  mkFormat (λ x, ser f x.1 ++ ser g x.2)
           (λ s, let! (a, s) := unser f s in let! (b, s) := unser g s in Ok ((a, b), s))
           (λ x, size_of f x.1 + size_of g x.2)
           (λ x, dom f x.1 ∧ dom g x.2).

(** A struct with the fields of [A]; fields that stay in memory have the value a
    fresh object gives them. *)
Definition f_struct {A B} (f : format A) (fields : B → A) (build : A → B) : format B :=
  mkFormat (λ b, ser f (fields b))
           (λ s, let! (a, s) := unser f s in Ok (build a, s))
           (λ b, size_of f (fields b))
           (λ b, dom f (fields b) ∧ build (fields b) = b).

(** ** The promises *)

Class FormatOk {A} (f : format A) : Prop := {
  fmt_roundtrip : ∀ x rest, dom f x → unser f (ser f x ++ rest) = Ok (x, rest);
  fmt_size : ∀ x, dom f x → size_of f x = Z.of_nat (length (ser f x));
  fmt_bytes : ∀ x, dom f x → Forall is_byte (ser f x)
}.

Class FormatCanonical {A} (f : format A) : Prop :=
  fmt_canonical : ∀ s x rest, Forall is_byte s → unser f s = Ok (x, rest) → s = ser f x ++ rest ∧ dom f x.

(** ** Reading bytes *)

Lemma read_bytes_app n b rest : length b = n → read_bytes n (b ++ rest) = Ok (b, rest).
Proof.
  intros <-. unfold read_bytes. rewrite length_app.
  destruct (Nat.ltb_spec (length b + length rest) (length b)); [lia|].
  by rewrite take_app_length, drop_app_length.
Qed.

Lemma read_bytes_inv n s b r : read_bytes n s = Ok (b, r) → s = b ++ r ∧ length b = n.
Proof.
  unfold read_bytes. destruct (Nat.ltb_spec (length s) n); [done|]. intros [= <- <-].
  rewrite take_drop, length_take. split; [done|lia].
Qed.

(** On a stream whose position is within its buffer, reading is reading the
    unread bytes. *)
Lemma stream_read_unread s n :
  (nReadPos s <= length (vch s))%nat →
  match read_bytes n (unread s) with
  | Ok (b, r) => ∃ s', stream_read s n = Ok (b, s') ∧ unread s' = r ∧ (nReadPos s' <= length (vch s'))%nat
  | Throw e => stream_read s n = Throw e
  end.
Proof.
  intros Hs. unfold read_bytes, stream_read, unread. rewrite length_drop.
  destruct (Nat.ltb_spec (length (vch s) - nReadPos s) n), (Nat.leb_spec (length (vch s)) (nReadPos s + n)),
    (Nat.ltb_spec (length (vch s)) (nReadPos s + n)); try lia; [done|..].
  - eexists. split; [done|]. cbn. rewrite drop_drop, drop_ge by lia. split; [done|lia].
  - eexists. split; [done|]. cbn. rewrite drop_drop. split; [done|lia].
Qed.

Lemma stream_write_unread s b :
  (nReadPos s <= length (vch s))%nat → unread (stream_write s b) = unread s ++ b.
Proof. intros Hs. unfold unread, stream_write. cbn. by rewrite drop_app_le. Qed.

(** Takes a successful reader apart. *)
Ltac unser_inv :=
  repeat match goal with
  | H : rbind ?r _ = Ok _ |- _ => apply rbind_Ok in H as ([? ?] & ? & H)
  | H : read_bytes _ _ = Ok _ |- _ => apply read_bytes_inv in H as [-> ?]
  | H : Ok _ = Ok _ |- _ => injection H as [= <- <-]
  | H : Forall _ (_ ++ _) |- _ => apply Forall_app in H as [? ?]
  | H : Throw _ = Ok _ |- _ => discriminate H
  end.

(** ** Integers *)

#[export] Instance f_uint_ok w : FormatOk (f_uint w).
Proof.
  split; cbn [f_uint unser ser size_of dom].
  - intros x rest Hx. rewrite read_bytes_app by apply length_le_bytes. cbn [rbind].
    by rewrite le_val_le_bytes_small.
  - intros x _. by rewrite length_le_bytes.
  - intros x _. apply le_bytes_byte.
Qed.

#[export] Instance f_uint_canonical w : FormatCanonical (f_uint w).
Proof.
  intros s x rest Hs H. cbn in H. unser_inv.
  match goal with H : Forall is_byte ?b, L : length ?b = w |- _ =>
    pose proof (le_val_range b H); pose proof (le_bytes_le_val b H) as E; rewrite L in * end.
  cbn. rewrite E. split; [done|]. done.
Qed.

#[export] Instance f_sint_ok w : FormatOk (f_sint (S w)).
Proof.
  split; cbn [f_sint unser ser size_of dom].
  - intros x rest Hx. rewrite read_bytes_app by apply length_le_bytes. cbn [rbind].
    rewrite le_val_le_bytes_small by (apply wrap_range; lia).
    by rewrite swrap_wrap, swrap_small by (done || lia).
  - intros x _. by rewrite length_le_bytes.
  - intros x _. apply le_bytes_byte.
Qed.

#[export] Instance f_sint_canonical w : FormatCanonical (f_sint (S w)).
Proof.
  intros s x rest Hs H. cbn [f_sint unser] in H. unser_inv.
  match goal with H : Forall is_byte ?b, L : length ?b = S w |- _ =>
    pose proof (le_val_range b H); pose proof (le_bytes_le_val b H) as E; rewrite L in * end.
  cbn [f_sint ser dom]. rewrite wrap_swrap, wrap_small, E by (done || lia).
  split; [done|]. apply swrap_range. lia.
Qed.

#[export] Instance f_bool_ok : FormatOk f_bool.
Proof.
  split; cbn [f_bool unser ser size_of dom].
  - by intros [|] rest _.
  - by intros [|] _.
  - intros [|] _; (apply Forall_cons_2; [unfold in_uw; lia|constructor]).
Qed.

#[export] Instance f_flat_ok n : FormatOk (f_flat n).
Proof.
  split; cbn [f_flat unser ser size_of dom].
  - intros x rest [Hl _]. by apply read_bytes_app.
  - done.
  - by intros x [_ Hb].
Qed.

#[export] Instance f_flat_canonical n : FormatCanonical (f_flat n).
Proof. intros s x rest Hs H. cbn in *. unser_inv. done. Qed.

(** ** Compact sizes *)

#[export] Instance f_compact_ok : FormatOk f_compact.
Proof.
  split; cbn [f_compact unser ser size_of dom].
  - intros x rest Hx. unfold WriteCompactSize, ReadCompactSize, MAX_SIZE in *.
    destruct (Z.ltb_spec x 253); [|destruct (Z.leb_spec x 65535); [|destruct (Z.leb_spec x 4294967295); [|lia]]];
      rewrite <- ?app_assoc, read_bytes_app by apply length_le_bytes; cbn [rbind];
      rewrite le_val_le_bytes_small by lia.
    + destruct (Z.ltb_spec x 253); [|lia]. cbn [rbind].
      destruct (Z.ltb_spec 33554432 x); [lia|done].
    + cbn [Z.ltb Z.eqb Z.compare Pos.compare Pos.compare_cont Pos.eqb].
      rewrite read_bytes_app by apply length_le_bytes. cbn [rbind].
      rewrite le_val_le_bytes_small by lia. destruct (Z.ltb_spec x 253); [lia|]. cbn [rbind].
      destruct (Z.ltb_spec 33554432 x); [lia|done].
    + cbn [Z.ltb Z.eqb Z.compare Pos.compare Pos.compare_cont Pos.eqb].
      rewrite read_bytes_app by apply length_le_bytes. cbn [rbind].
      rewrite le_val_le_bytes_small by lia. destruct (Z.ltb_spec x 65536); [lia|]. cbn [rbind].
      destruct (Z.ltb_spec 33554432 x); [lia|done].
  - intros x Hx. unfold GetSizeOfCompactSize, WriteCompactSize.
    by repeat case_match; rewrite ?length_app, ?length_le_bytes.
  - intros x Hx. unfold WriteCompactSize.
    repeat case_match; rewrite ?Forall_app; auto using le_bytes_byte.
Qed.

#[export] Instance f_compact_canonical : FormatCanonical f_compact.
Proof.
  intros s x rest Hs H. cbn [f_compact unser ser dom] in *. unfold ReadCompactSize in H.
  apply rbind_Ok in H as ([b s1] & Hb & H). apply read_bytes_inv in Hb as [-> Hb1].
  apply Forall_app in Hs as [Hb Hs1]. apply rbind_Ok in H as ([n s2] & Hn & H).
  pose proof (le_val_range b Hb) as Hbr. pose proof (le_bytes_le_val b Hb) as Hbe. rewrite Hb1 in *.
  destruct (Z.ltb_spec MAX_SIZE n); [done|]. injection H as [= -> ->]. unfold MAX_SIZE in *.
  assert (∀ c, le_val b = c → b = le_bytes 1 c) as Hbc by (intros c <-; done).
  unfold WriteCompactSize.
  destruct (Z.ltb_spec (le_val b) 253).
  { injection Hn as [= <- <-]. destruct (Z.ltb_spec (le_val b) 253); [|lia].
    rewrite Hbe. split; [done|lia]. }
  destruct (Z.eqb_spec (le_val b) 253) as [E|E]; [|destruct (Z.eqb_spec (le_val b) 254) as [E'|E']].
  - apply rbind_Ok in Hn as ([y s3] & Hy & Hn). apply read_bytes_inv in Hy as [-> Hyl].
    apply Forall_app in Hs1 as [Hyb _].
    pose proof (le_val_range y Hyb). pose proof (le_bytes_le_val y Hyb) as Hye. rewrite Hyl in *.
    destruct (Z.ltb_spec (le_val y) 253); [done|]. injection Hn as [= <- <-].
    destruct (Z.ltb_spec (le_val y) 253), (Z.leb_spec (le_val y) 65535); try lia.
    rewrite (Hbc _ E), Hye, <- app_assoc. split; [done|lia].
  - apply rbind_Ok in Hn as ([y s3] & Hy & Hn). apply read_bytes_inv in Hy as [-> Hyl].
    apply Forall_app in Hs1 as [Hyb _].
    pose proof (le_val_range y Hyb). pose proof (le_bytes_le_val y Hyb) as Hye. rewrite Hyl in *.
    destruct (Z.ltb_spec (le_val y) 65536); [done|]. injection Hn as [= <- <-].
    destruct (Z.ltb_spec (le_val y) 253), (Z.leb_spec (le_val y) 65535), (Z.leb_spec (le_val y) 4294967295); try lia.
    rewrite (Hbc _ E'), Hye, <- app_assoc. split; [done|lia].
  - apply rbind_Ok in Hn as ([y s3] & Hy & Hn). apply read_bytes_inv in Hy as [-> Hyl].
    apply Forall_app in Hs1 as [Hyb _]. pose proof (le_val_range y Hyb).
    destruct (Z.ltb_spec (le_val y) 4294967296); [done|]. injection Hn as [= <- <-]. lia.
Qed.

(** ** Variable-length integers *)

Lemma varint_digit n more :
  0 <= n → Z.land (Z.lor (Z.land n 127) (if more : bool then 128 else 0)) 127 = Z.land n 127 ∧
  (Z.land (Z.lor (Z.land n 127) (if more then 128 else 0)) 128 =? 0) = negb more ∧
  is_byte (Z.lor (Z.land n 127) (if more then 128 else 0)).
Proof.
  intros Hn. change 127 with (Z.ones 7). rewrite !(Z.land_ones n) by lia.
  assert (0 <= n mod 2 ^ 7 < 128) as Hm by (apply Z.mod_pos_bound; lia).
  set (m := n mod 2 ^ 7) in *. clearbody m.
  pose proof (Zforall_check 128 (λ m, (Z.land (Z.lor m (if more then 128 else 0)) (Z.ones 7) =? m)
    && Bool.eqb (Z.land (Z.lor m (if more then 128 else 0)) 128 =? 0) (negb more)
    && (0 <=? Z.lor m (if more then 128 else 0)) && (Z.lor m (if more then 128 else 0) <? 256))
    ltac:(destruct more; vm_compute; reflexivity) m Hm) as H.
  cbv beta in H. rewrite !andb_true_iff, Z.eqb_eq, eqb_true_iff in H.
  split_and!; [tauto..|]. unfold in_uw. lia.
Qed.

Lemma varint_split n : 0 <= n → Z.lor (Z.shiftl (Z.shiftr n 7) 7) (Z.land n 127) = n.
Proof.
  intros Hn. change 127 with (Z.ones 7).
  rewrite Z.land_ones, shiftl_mul, shiftr_div by lia.
  rewrite (lor_add _ _ 7) by (try (apply Z.mod_pos_bound; lia); try (apply Z.mod_mul; lia); lia).
  pose proof (Z.div_mod n (2 ^ 7) ltac:(lia)). lia.
Qed.

Lemma WriteVarInt_loop_read w fuel n tmp rest :
  0 <= w → (0 < fuel)%nat → 0 <= n < 128 ^ Z.of_nat fuel → n < 2 ^ w →
  ReadVarInt_loop w 0 (WriteVarInt_loop fuel n tmp ++ rest) =
  match tmp with
  | [] => Ok (n, rest)
  | _ => ReadVarInt_loop w (wrap w (n + 1)) (tmp ++ rest)
  end.
Proof.
  intros Hw. revert n tmp. induction fuel as [|fuel IH]; intros n tmp Hf Hn Hnw; [lia|].
  cbn [WriteVarInt_loop]. set (more := match tmp with [] => false | _ => true end).
  assert ((match tmp with [] => 0 | _ => 128 end) = if more then 128 else 0) as -> by (by destruct tmp).
  destruct (varint_digit n more ltac:(lia)) as (Hd & Hm & _).
  set (d := Z.lor _ _) in *. clearbody d.
  destruct (Z.leb_spec n 127).
  - cbn [app ReadVarInt_loop]. rewrite Hd, Hm, Z.shiftl_0_l, Z.lor_0_l, negb_involutive.
    change 127 with (Z.ones 7). rewrite Z.land_ones, Z.mod_small by lia.
    rewrite (wrap_small w n) by (unfold in_uw; lia). unfold more. by destruct tmp.
  - assert (0 <= Z.shiftr n 7 - 1 < 128 ^ Z.of_nat fuel ∧ Z.shiftr n 7 <= n) as (Hr & Hle).
    { rewrite shiftr_div by lia. change (2 ^ 7) with 128.
      rewrite Nat2Z.inj_succ, Z.pow_succ_r in Hn by lia.
      assert (n / 128 < 128 ^ Z.of_nat fuel) by (apply Z.div_lt_upper_bound; lia).
      split; [split; [|lia]|]; divmod_lia. }
    assert (0 < fuel)%nat by (destruct fuel; [cbn in Hn; lia|lia]).
    rewrite IH by lia. cbn [app ReadVarInt_loop].
    replace (Z.shiftr n 7 - 1 + 1) with (Z.shiftr n 7) by lia.
    rewrite (wrap_small w (Z.shiftr n 7)) by (unfold in_uw; lia).
    rewrite Hd, Hm, varint_split by lia. rewrite (wrap_small w n), negb_involutive by (unfold in_uw; lia).
    unfold more. by destruct tmp.
Qed.

Lemma varint_digits_enough w n : 0 <= w → in_uw w n → n < 128 ^ Z.of_nat (varint_digits w).
Proof.
  intros Hw [_ Hn]. eapply Z.lt_le_trans; [exact Hn|]. unfold varint_digits.
  rewrite Z2Nat.id by (apply Z.div_pos; lia). change 128 with (2 ^ 7).
  rewrite <- Z.pow_mul_r by (try (apply Z.div_pos); lia). apply Z.pow_le_mono_r; [lia|divmod_lia].
Qed.

Lemma GetSizeOfVarInt_loop_spec fuel n tmp r :
  GetSizeOfVarInt_loop fuel n r + Z.of_nat (length tmp) = r + Z.of_nat (length (WriteVarInt_loop fuel n tmp)).
Proof.
  revert n tmp r. induction fuel as [|fuel IH]; intros n tmp r; cbn; [lia|].
  destruct (n <=? 127); [cbn [length]; lia|].
  rewrite <- IH. cbn [length]. specialize (IH (Z.shiftr n 7 - 1) tmp (r + 1)).
  assert (GetSizeOfVarInt_loop fuel (Z.shiftr n 7 - 1) (r + 1) = GetSizeOfVarInt_loop fuel (Z.shiftr n 7 - 1) r + 1) as ->; [|lia].
  clear. generalize (Z.shiftr n 7 - 1). revert r.
  induction fuel as [|fuel IH]; intros r m; cbn; [done|]. destruct (m <=? 127); [done|]. apply IH.
Qed.

Lemma WriteVarInt_bytes fuel n tmp :
  0 <= n → Forall is_byte tmp → Forall is_byte (WriteVarInt_loop fuel n tmp).
Proof.
  revert n tmp. induction fuel as [|fuel IH]; intros n tmp Hn Ht; cbn; [done|].
  assert (is_byte (Z.lor (Z.land n 127) match tmp with [] => 0 | _ => 128 end)) as Hd.
  { destruct tmp; [apply (varint_digit n false)|apply (varint_digit n true)]; lia. }
  destruct (Z.leb_spec n 127); [by apply Forall_cons_2|]. apply IH; [|by apply Forall_cons_2].
  rewrite shiftr_div by lia. change (2 ^ 7) with 128. divmod_lia.
Qed.

Lemma f_varint_ok w : 0 < w → FormatOk (f_varint w).
Proof.
  intros Hw. split; cbn [f_varint unser ser size_of dom]; intros x.
  - intros rest Hx. unfold ReadVarInt, WriteVarInt.
    apply (WriteVarInt_loop_read w _ x []); [lia| |split; [apply Hx|]|apply Hx].
    + unfold varint_digits. assert (0 < (w + 6) / 7) by (apply Z.div_str_pos; lia). lia.
    + apply varint_digits_enough; [lia|done].
  - intros _. unfold GetSizeOfVarInt, WriteVarInt.
    pose proof (GetSizeOfVarInt_loop_spec (varint_digits w) x [] 0) as H. cbn [length] in H. lia.
  - intros [Hx _]. by apply WriteVarInt_bytes.
Qed.

#[export] Instance f_varint32_ok : FormatOk (f_varint 32).
Proof. by apply f_varint_ok. Qed.
#[export] Instance f_varint64_ok : FormatOk (f_varint 64).
Proof. by apply f_varint_ok. Qed.

(** ** Byte vectors *)

Lemma read_chunk_Z : Z.of_nat read_chunk = 5000000.
Proof. unfold read_chunk. rewrite Z2Nat.id by lia. reflexivity. Qed.

#[local] Opaque read_chunk.

(** Reading in blocks is reading at once. *)
Lemma read_blocks_app fuel nSize i v b rest :
  (i + length b = nSize)%nat → Z.of_nat (length b) < Z.of_nat fuel * 5000000 ∨ b = [] →
  read_blocks fuel nSize i v (b ++ rest) = Ok (v ++ b, rest).
Proof.
  pose proof read_chunk_Z as HC. revert i v b. induction fuel as [|fuel IH]; intros i v b Hi Hf.
  { assert (b = []) as -> by (destruct Hf as [Hf| ->]; [lia|done]). cbn. by rewrite app_nil_r. }
  cbn [read_blocks]. destruct (Nat.ltb_spec i nSize).
  2: { assert (b = []) as -> by (destruct b; [done|cbn in Hi; lia]). by rewrite app_nil_r. }
  set (blk := Nat.min (nSize - i) read_chunk).
  assert (blk <= length b)%nat by lia.
  rewrite <- (take_drop blk b), <- app_assoc, read_bytes_app by (rewrite length_take; lia).
  cbn [rbind]. rewrite IH; [by rewrite <- app_assoc, take_drop|rewrite length_drop; lia|].
  rewrite length_drop. destruct (decide (nSize - i <= read_chunk)%nat).
  - right. apply drop_ge. lia.
  - left. destruct Hf as [Hf| ->]; [|cbn in *; lia]. lia.
Qed.

Lemma read_blocks_inv fuel nSize i v s x rest :
  (i = length v)%nat → (i <= nSize)%nat → Z.of_nat (nSize - i) < Z.of_nat fuel * 5000000 ∨ i = nSize →
  read_blocks fuel nSize i v s = Ok (x, rest) →
  ∃ b, s = b ++ rest ∧ x = v ++ b ∧ length x = nSize.
Proof.
  pose proof read_chunk_Z as HC. revert i v s. induction fuel as [|fuel IH]; intros i v s Hi Hle Hf; cbn [read_blocks].
  { intros [= <- <-]. exists []. rewrite app_nil_r. split_and!; [done..|]. destruct Hf; lia. }
  destruct (Nat.ltb_spec i nSize).
  2: { intros [= <- <-]. exists []. rewrite app_nil_r. split_and!; [done..|lia]. }
  set (blk := Nat.min (nSize - i) read_chunk).
  intros ([b s1] & [-> Hb]%read_bytes_inv & Hrec)%rbind_Ok.
  apply IH in Hrec as (b' & -> & -> & Hl); [|rewrite length_app; lia|lia|].
  - exists (b ++ b'). rewrite <- app_assoc in Hl. rewrite <- !app_assoc. split; [reflexivity|]. split; [reflexivity|exact Hl].
  - destruct (decide (nSize - i <= read_chunk)%nat); [right; lia|left; lia].
Qed.

Lemma bytes_fuel n : 0 <= n → n < Z.of_nat (Z.to_nat (n / 5000000) + 1) * 5000000.
Proof.
  intros Hn. pose proof (Z.div_pos n 5000000 ltac:(lia) ltac:(lia)).
  rewrite Nat2Z.inj_add, Z2Nat.id by lia. cbn [Z.of_nat]. divmod_lia.
Qed.

#[export] Instance f_bytes_ok : FormatOk f_bytes.
Proof.
  split; cbn [f_bytes unser ser size_of dom]; intros x.
  - intros rest [Hl Hb]. unfold unser_bytes. rewrite <- app_assoc.
    rewrite (fmt_roundtrip (f := f_compact)) by (unfold f_compact; cbn; lia). cbn [rbind].
    rewrite (read_blocks_app _ _ 0 [] x rest); [done|lia|]. left.
    pose proof (bytes_fuel (Z.of_nat (length x)) ltac:(lia)). lia.
  - intros [Hl Hb]. rewrite (fmt_size (f := f_compact)), length_app by (cbn; lia). cbn. lia.
  - intros [Hl Hb]. apply Forall_app. split; [|done]. apply (fmt_bytes (f := f_compact)). cbn. lia.
Qed.

#[export] Instance f_bytes_canonical : FormatCanonical f_bytes.
Proof.
  intros s x rest Hs H. cbn [f_bytes unser ser dom] in *. unfold unser_bytes in H.
  apply rbind_Ok in H as ([n s1] & Hn & H). apply (fmt_canonical (f := f_compact)) in Hn as [-> Hd]; [|done].
  cbn [f_compact ser dom] in *. apply Forall_app in Hs as [_ Hs].
  apply read_blocks_inv in H as (b & -> & -> & Hl); [|done|lia|].
  - cbn [app] in *. apply Forall_app in Hs as [Hb _]. rewrite Hl, Z2Nat.id by lia.
    rewrite app_assoc. split; [done|]. split; [lia|done].
  - left. pose proof (bytes_fuel n ltac:(lia)). lia.
Qed.

#[export] Instance f_limited_ok limit : FormatOk (f_limited limit).
Proof.
  split; cbn [f_limited unser ser size_of dom]; intros x.
  - intros rest (Hl & Hm & Hb). rewrite <- app_assoc.
    rewrite (fmt_roundtrip (f := f_compact)) by (cbn; lia). cbn [rbind].
    destruct (Z.ltb_spec limit (Z.of_nat (length x))); [lia|]. apply read_bytes_app. lia.
  - intros (Hl & Hm & Hb). rewrite (fmt_size (f := f_compact)), length_app by (cbn; lia). cbn. lia.
  - intros (Hl & Hm & Hb). apply Forall_app. split; [|done]. apply (fmt_bytes (f := f_compact)). cbn. lia.
Qed.

(** ** Composite formats *)

Section composite.
Context {A B : Type} (f : format A) (g : format B) `{!FormatOk f} `{!FormatOk g}.

Lemma unser_n_ser l rest :
  Forall (dom f) l → unser_n f (length l) (concat (map (ser f) l) ++ rest) = Ok (l, rest).
Proof.
  induction 1 as [|x l Hx _ IH]; [done|]. cbn [length unser_n map concat].
  rewrite <- app_assoc, fmt_roundtrip by done. cbn [rbind]. by rewrite IH.
Qed.

Lemma unser_n_inv n s l rest `{!FormatCanonical f} :
  Forall is_byte s → unser_n f n s = Ok (l, rest) →
  s = concat (map (ser f) l) ++ rest ∧ length l = n ∧ Forall (dom f) l.
Proof.
  revert s l. induction n as [|n IH]; intros s l Hs; cbn [unser_n].
  { intros [= <- <-]. by split_and!. }
  intros ([x s1] & [-> Hx]%fmt_canonical & H)%rbind_Ok; [|done].
  apply Forall_app in Hs as [_ Hs].
  apply rbind_Ok in H as ([l' s2] & Hl' & [= <- <-]).
  apply IH in Hl' as (-> & <- & Hd); [|done]. cbn [map concat length].
  rewrite <- app_assoc. split_and!; [done..|by constructor].
Qed.

Lemma foldl_size l n :
  Forall (dom f) l → foldl (λ n x, n + size_of f x) n l = n + Z.of_nat (length (concat (map (ser f) l))).
Proof.
  intros H. revert n. induction H as [|x l Hx _ IH]; intros n; cbn; [lia|].
  rewrite IH, (fmt_size x Hx), length_app. lia.
Qed.

#[export] Instance f_vector_ok : FormatOk (f_vector f).
Proof.
  split; cbn [f_vector unser ser size_of dom]; intros x.
  - intros rest [Hl Hd]. rewrite <- app_assoc.
    rewrite (fmt_roundtrip (f := f_compact)) by (cbn; lia). cbn [rbind].
    rewrite Nat2Z.id. by apply unser_n_ser.
  - intros [Hl Hd]. rewrite foldl_size, (fmt_size (f := f_compact)), length_app by (done || cbn; lia).
    cbn. lia.
  - intros [Hl Hd]. apply Forall_app. split; [apply (fmt_bytes (f := f_compact)); cbn; lia|].
    clear Hl. induction Hd as [|y l Hy _ IH]; cbn [map concat]; [constructor|].
    apply Forall_app. split; [by apply fmt_bytes|done].
Qed.

#[export] Instance f_vector_canonical `{!FormatCanonical f} : FormatCanonical (f_vector f).
Proof.
  intros s x rest Hs H. cbn [f_vector unser ser dom] in *.
  apply rbind_Ok in H as ([n s1] & Hn & H). apply (fmt_canonical (f := f_compact)) in Hn as [-> Hd]; [|done].
  cbn [f_compact ser dom] in *. apply Forall_app in Hs as [_ Hs].
  apply unser_n_inv in H as (-> & Hl & Hx); [|done..]. rewrite Hl, Z2Nat.id by lia.
  rewrite app_assoc. split; [done|]. split; [lia|done].
Qed.

#[export] Instance f_pair_ok : FormatOk (f_pair f g).
Proof.
  split; cbn [f_pair unser ser size_of dom]; intros [a b].
  - intros rest [Ha Hb]. cbn [fst snd] in *. rewrite <- app_assoc, fmt_roundtrip by done.
    cbn [rbind]. by rewrite fmt_roundtrip.
  - intros [Ha Hb]. rewrite !fmt_size, length_app by done. lia.
  - intros [Ha Hb]. apply Forall_app. split; by apply fmt_bytes.
Qed.

#[export] Instance f_pair_canonical `{!FormatCanonical f} `{!FormatCanonical g} : FormatCanonical (f_pair f g).
Proof.
  intros s [a b] rest Hs H. cbn [f_pair unser ser dom] in *.
  apply rbind_Ok in H as ([a' s1] & [-> Ha]%fmt_canonical & H); [|done].
  apply Forall_app in Hs as [_ Hs].
  apply rbind_Ok in H as ([b' s2] & [-> Hb]%fmt_canonical & [= <- <- <-]); [|done].
  rewrite app_assoc. by split.
Qed.

#[export] Instance f_struct_ok {C} (fields : C → A) (build : A → C) : FormatOk (f_struct f fields build).
Proof.
  split; cbn [f_struct unser ser size_of dom]; intros x.
  - intros rest [Hx E]. rewrite fmt_roundtrip by done. cbn [rbind]. by rewrite E.
  - intros [Hx _]. by apply fmt_size.
  - intros [Hx _]. by apply fmt_bytes.
Qed.

Lemma f_struct_canonical `{!FormatCanonical f} {C} (fields : C → A) (build : A → C) :
  (∀ a, fields (build a) = a) → FormatCanonical (f_struct f fields build).
Proof.
  intros Hb s x rest Hs H. cbn [f_struct unser ser dom] in *.
  apply rbind_Ok in H as ([a s1] & [-> Ha]%fmt_canonical & [= <- <-]); [|done]. by rewrite !Hb.
Qed.
End composite.

(** ** Properties *)

(** compact sizes up to MAX_SIZE read back, with the announced length, and
    no other byte string reads as a given size: the reader rejects the longer
    forms and the sizes above MAX_SIZE. *)
Theorem compact_size_is_canonical n s rest :
  0 <= n → Forall is_byte s →
  (n <= MAX_SIZE → ReadCompactSize (WriteCompactSize n ++ rest) = Ok (n, rest)) ∧
  (MAX_SIZE < n < 2 ^ 64 → ReadCompactSize (WriteCompactSize n ++ rest) = Throw SizeTooLarge) ∧
  (n <= MAX_SIZE → GetSizeOfCompactSize n = Z.of_nat (length (WriteCompactSize n))) ∧
  (ReadCompactSize s = Ok (n, rest) → s = WriteCompactSize n ++ rest ∧ n <= MAX_SIZE).
Proof.
  intros Hn Hs. split_and!.
  - intros H. apply (fmt_roundtrip (f := f_compact)). cbn. lia.
  - intros H. unfold WriteCompactSize, ReadCompactSize, MAX_SIZE in *.
    destruct (Z.ltb_spec n 253), (Z.leb_spec n 65535), (Z.leb_spec n 4294967295); try lia;
      rewrite <- app_assoc, read_bytes_app by apply length_le_bytes; cbn [rbind];
      rewrite le_val_le_bytes_small by lia;
      cbn [Z.ltb Z.eqb Z.compare Pos.compare Pos.compare_cont Pos.eqb];
      rewrite read_bytes_app by apply length_le_bytes; cbn [rbind];
      rewrite le_val_le_bytes_small by lia.
    + destruct (Z.ltb_spec n 65536); [lia|]. cbn [rbind]. destruct (Z.ltb_spec 33554432 n); [done|lia].
    + destruct (Z.ltb_spec n 4294967296); [lia|]. cbn [rbind]. destruct (Z.ltb_spec 33554432 n); [done|lia].
  - intros H. apply (fmt_size (f := f_compact)). cbn. lia.
  - intros H. apply (fmt_canonical (f := f_compact)) in H as [E [? ?]]; done.
Qed.

(** variable-length integers of 32 and 64 bits read back, with the
    announced length, but the encoding is not one-to-one on a fixed width: the
    reader wraps around, so the form of [n + 2^32] reads as [n] again. *)
Theorem varint_roundtrip w n rest :
  w = 32 ∨ w = 64 → in_uw w n →
  ReadVarInt w (WriteVarInt w n ++ rest) = Ok (n, rest) ∧
  GetSizeOfVarInt w n = Z.of_nat (length (WriteVarInt w n)) ∧
  ReadVarInt 32 (WriteVarInt 64 (2 ^ 32 + 5) ++ rest) = ReadVarInt 32 (WriteVarInt 32 5 ++ rest) ∧
  WriteVarInt 64 (2 ^ 32 + 5) <> WriteVarInt 32 5.
Proof.
  intros Hw Hn. assert (FormatOk (f_varint w)) as Hok by (apply f_varint_ok; lia). split_and!.
  - by apply (fmt_roundtrip (f := f_varint w)).
  - by apply (fmt_size (f := f_varint w)).
  - reflexivity.
  - by vm_compute.
Qed.

Lemma compact_size_is_canonical_witness :
  (300 <= MAX_SIZE → ReadCompactSize (WriteCompactSize 300 ++ [7]) = Ok (300, [7])) ∧
  (MAX_SIZE < 300 < 2 ^ 64 → ReadCompactSize (WriteCompactSize 300 ++ [7]) = Throw SizeTooLarge) ∧
  (300 <= MAX_SIZE → GetSizeOfCompactSize 300 = Z.of_nat (length (WriteCompactSize 300))) ∧
  (ReadCompactSize [253; 44; 1; 7] = Ok (300, [7]) → [253; 44; 1; 7] = WriteCompactSize 300 ++ [7] ∧ 300 <= MAX_SIZE).
Proof.
  apply (compact_size_is_canonical 300 [253; 44; 1; 7] [7]); [lia|].
  repeat (apply Forall_cons_2; [split; by vm_compute|]). constructor.
Defined.

Lemma varint_roundtrip_witness :
  ReadVarInt 32 (WriteVarInt 32 123456 ++ [7]) = Ok (123456, [7]) ∧
  GetSizeOfVarInt 32 123456 = Z.of_nat (length (WriteVarInt 32 123456)) ∧
  ReadVarInt 32 (WriteVarInt 64 (2 ^ 32 + 5) ++ [7]) = ReadVarInt 32 (WriteVarInt 32 5 ++ [7]) ∧
  WriteVarInt 64 (2 ^ 32 + 5) <> WriteVarInt 32 5.
Proof. apply (varint_roundtrip 32 123456 [7]); [by left|split; by vm_compute]. Defined.
