(* ===== verification/StrEncodings.v ===== *)
(** * utilstrencodings.cpp and utilstrencodings.h: hexadecimal, base 64 and base 32

    Characters and bytes are [Z] in [[0,256)]; a C string is the list of its
    characters without the terminating NUL, and [ch0] reads the NUL past the end.
    The loops with a [mode] switch are folds over their input whose state is
    (mode, left, output so far). *)

From S2P Require Import Prelude.

(** [*p] of a C string. *)
Definition ch0 (p : list Z) : Z := hd 0 p.

(** <cctype> in the "C" locale. *)
Definition isspace (c : Z) : bool := (c =? 32) || ((9 <=? c) && (c <=? 13)).
Definition tolower (c : Z) : Z := if (65 <=? c) && (c <=? 90) then c + 32 else c.

Definition p_util_hexdigit : list Z :=
  replicate 48 (-1) ++ [0; 1; 2; 3; 4; 5; 6; 7; 8; 9] ++ replicate 7 (-1)
  ++ [10; 11; 12; 13; 14; 15] ++ replicate 26 (-1) ++ [10; 11; 12; 13; 14; 15]
  ++ replicate 153 (-1).

Definition HexDigit (c : Z) : Z := getz p_util_hexdigit (u8 c).

Definition IsHex (s : list Z) : bool :=
  forallb (λ c, negb (HexDigit c <? 0)) s
  && (0 <? Z.of_nat (length s)) && (Z.of_nat (length s) mod 2 =? 0).

(** [while (isspace( *psz)) psz++] *)
Fixpoint skip_spaces (psz : list Z) : list Z :=
  match psz with
  | c :: r => if isspace c then skip_spaces r else psz
  | [] => []
  end.

(** The [while (true)] loop; every turn that does not stop consumes two
    characters, so the length of the string is enough fuel. *)
Fixpoint ParseHex_loop (fuel : nat) (psz : list Z) : list Z :=
  match fuel with
  | O => []
  | S fuel =>
      let psz := skip_spaces psz in
      let c := HexDigit (ch0 psz) in
      if c =? -1 then [] else
      let n := u8 (Z.shiftl c 4) in
      let psz := tl psz in
      let c := HexDigit (ch0 psz) in
      if c =? -1 then [] else
      Z.lor n c :: ParseHex_loop fuel (tl psz)
  end.

Definition ParseHex (psz : list Z) : list Z := ParseHex_loop (S (length psz)) psz.

Definition hexmap : list Z := str "0123456789abcdef".

Fixpoint HexStr_loop (first fSpaces : bool) (it : list Z) : list Z :=
  match it with
  | [] => []
  | val :: it =>
      (if fSpaces && negb first then [32] else [])
      ++ [getz hexmap (Z.shiftr val 4); getz hexmap (Z.land val 15)]
      ++ HexStr_loop false fSpaces it
  end.

Definition HexStr (vch : list Z) (fSpaces : bool) : list Z := HexStr_loop true fSpaces vch.

(** ** Base 64 *)

Definition pbase64 : list Z :=
  str "ABCDEFGHIJKLMNOPQRSTUVWXYZabcdefghijklmnopqrstuvwxyz0123456789+/".

Definition EncodeBase64_step (st : Z * Z * list Z) (enc : Z) : Z * Z * list Z :=
  let '(mode, left_, strRet) := st in
  if mode =? 0 then
    (1, Z.shiftl (Z.land enc 3) 4, strRet ++ [getz pbase64 (Z.shiftr enc 2)])
  else if mode =? 1 then
    (2, Z.shiftl (Z.land enc 15) 2, strRet ++ [getz pbase64 (Z.lor left_ (Z.shiftr enc 4))])
  else
    (0, left_, strRet ++ [getz pbase64 (Z.lor left_ (Z.shiftr enc 6)); getz pbase64 (Z.land enc 63)]).

Definition EncodeBase64 (pch : list Z) : list Z :=
  let '(mode, left_, strRet) := foldl EncodeBase64_step (0, 0, []) pch in
  if negb (mode =? 0) then
    strRet ++ [getz pbase64 left_] ++ [61] ++ (if mode =? 1 then [61] else [])
  else strRet.

(** The table has [i] at the code of [pbase64[i]] and -1 elsewhere. *)
Definition decode64_table : list Z :=
  replicate 43 (-1) ++ [62; -1; -1; -1; 63; 52; 53; 54; 55; 56; 57; 58; 59; 60; 61]
  ++ replicate 7 (-1)
  ++ [0; 1; 2; 3; 4; 5; 6; 7; 8; 9; 10; 11; 12; 13; 14; 15; 16; 17; 18; 19; 20; 21;
      22; 23; 24; 25]
  ++ replicate 6 (-1)
  ++ [26; 27; 28; 29; 30; 31; 32; 33; 34; 35; 36; 37; 38; 39; 40; 41; 42; 43; 44; 45;
      46; 47; 48; 49; 50; 51] ++ replicate 133 (-1).

Definition DecodeBase64_step (st : Z * Z * list Z) (dec : Z) : Z * Z * list Z :=
  let '(mode, left_, vchRet) := st in
  if mode =? 0 then (1, dec, vchRet)
  else if mode =? 1 then
    (2, Z.land dec 15, vchRet ++ [u8 (Z.lor (Z.shiftl left_ 2) (Z.shiftr dec 4))])
  else if mode =? 2 then
    (3, Z.land dec 3, vchRet ++ [u8 (Z.lor (Z.shiftl left_ 4) (Z.shiftr dec 2))])
  else (0, left_, vchRet ++ [u8 (Z.lor (Z.shiftl left_ 6) dec)]).

(** [while (1)]: stops at the first character that is no digit (the NUL at
    the latest); the rest of the string is where [p] stands after the loop. *)
Fixpoint DecodeBase64_loop (st : Z * Z * list Z) (p : list Z) : Z * Z * list Z * list Z :=
  match p with
  | [] => (st, [])
  | c :: p' =>
      let dec := getz decode64_table (u8 c) in
      if dec =? -1 then (st, p) else DecodeBase64_loop (DecodeBase64_step st dec) p'
  end.

(** The decoded bytes and the [*pfInvalid] flag. *)
Definition DecodeBase64 (p : list Z) : list Z * bool :=
  let '(mode, left_, vchRet, p) := DecodeBase64_loop (0, 0, []) p in
  let digit (i : nat) := negb (getz decode64_table (u8 (nth i p 0)) =? -1) in
  let not_eq (i : nat) := negb (nth i p 0 =? 61) in
  let pfInvalid :=
    if mode =? 0 then false
    else if mode =? 1 then true
    else if mode =? 2 then negb (left_ =? 0) || not_eq 0%nat || not_eq 1%nat || digit 2%nat
    else negb (left_ =? 0) || not_eq 0%nat || digit 1%nat in
  (vchRet, pfInvalid).

(** ** Base 32 *)

Definition pbase32 : list Z := str "abcdefghijklmnopqrstuvwxyz234567".

Definition EncodeBase32_step (st : Z * Z * list Z) (enc : Z) : Z * Z * list Z :=
  let '(mode, left_, strRet) := st in
  if mode =? 0 then
    (1, Z.shiftl (Z.land enc 7) 2, strRet ++ [getz pbase32 (Z.shiftr enc 3)])
  else if mode =? 1 then
    (2, Z.shiftl (Z.land enc 1) 4,
     strRet ++ [getz pbase32 (Z.lor left_ (Z.shiftr enc 6));
                getz pbase32 (Z.land (Z.shiftr enc 1) 31)])
  else if mode =? 2 then
    (3, Z.shiftl (Z.land enc 15) 1, strRet ++ [getz pbase32 (Z.lor left_ (Z.shiftr enc 4))])
  else if mode =? 3 then
    (4, Z.shiftl (Z.land enc 3) 3,
     strRet ++ [getz pbase32 (Z.lor left_ (Z.shiftr enc 7));
                getz pbase32 (Z.land (Z.shiftr enc 2) 31)])
  else
    (0, left_, strRet ++ [getz pbase32 (Z.lor left_ (Z.shiftr enc 5)); getz pbase32 (Z.land enc 31)]).

Definition nPadding : list Z := [0; 6; 4; 3; 1].

Definition EncodeBase32 (pch : list Z) : list Z :=
  let '(mode, left_, strRet) := foldl EncodeBase32_step (0, 0, []) pch in
  if negb (mode =? 0) then
    strRet ++ [getz pbase32 left_] ++ replicate (Z.to_nat (getz nPadding mode)) 61
  else strRet.

Definition decode32_table : list Z :=
  replicate 50 (-1) ++ [26; 27; 28; 29; 30; 31] ++ replicate 9 (-1)
  ++ [0; 1; 2; 3; 4; 5; 6; 7; 8; 9; 10; 11; 12; 13; 14; 15; 16; 17; 18; 19; 20; 21;
      22; 23; 24; 25]
  ++ replicate 6 (-1)
  ++ [0; 1; 2; 3; 4; 5; 6; 7; 8; 9; 10; 11; 12; 13; 14; 15; 16; 17; 18; 19; 20; 21;
      22; 23; 24; 25] ++ replicate 133 (-1).

Definition DecodeBase32_step (st : Z * Z * list Z) (dec : Z) : Z * Z * list Z :=
  let '(mode, left_, vchRet) := st in
  if mode =? 0 then (1, dec, vchRet)
  else if mode =? 1 then
    (2, Z.land dec 3, vchRet ++ [u8 (Z.lor (Z.shiftl left_ 3) (Z.shiftr dec 2))])
  else if mode =? 2 then (3, Z.lor (Z.shiftl left_ 5) dec, vchRet)
  else if mode =? 3 then
    (4, Z.land dec 15, vchRet ++ [u8 (Z.lor (Z.shiftl left_ 1) (Z.shiftr dec 4))])
  else if mode =? 4 then
    (5, Z.land dec 1, vchRet ++ [u8 (Z.lor (Z.shiftl left_ 4) (Z.shiftr dec 1))])
  else if mode =? 5 then (6, Z.lor (Z.shiftl left_ 5) dec, vchRet)
  else if mode =? 6 then
    (7, Z.land dec 7, vchRet ++ [u8 (Z.lor (Z.shiftl left_ 2) (Z.shiftr dec 3))])
  else (0, left_, vchRet ++ [u8 (Z.lor (Z.shiftl left_ 5) dec)]).

Fixpoint DecodeBase32_loop (st : Z * Z * list Z) (p : list Z) : Z * Z * list Z * list Z :=
  match p with
  | [] => (st, [])
  | c :: p' =>
      let dec := getz decode32_table (u8 c) in
      if dec =? -1 then (st, p) else DecodeBase32_loop (DecodeBase32_step st dec) p'
  end.

Definition DecodeBase32 (p : list Z) : list Z * bool :=
  let '(mode, left_, vchRet, p) := DecodeBase32_loop (0, 0, []) p in
  let digit (i : nat) := negb (getz decode32_table (u8 (nth i p 0)) =? -1) in
  let pads (n : nat) := forallb (λ i, nth i p 0 =? 61) (seq 0 n) in
  let pfInvalid :=
    if mode =? 0 then false
    else if (mode =? 1) || (mode =? 3) || (mode =? 6) then true
    else if mode =? 2 then negb (left_ =? 0) || negb (pads 6%nat) || digit 6%nat
    else if mode =? 4 then negb (left_ =? 0) || negb (pads 4%nat) || digit 4%nat
    else if mode =? 5 then negb (left_ =? 0) || negb (pads 3%nat) || digit 3%nat
    else negb (left_ =? 0) || negb (pads 1%nat) || digit 1%nat in
  (vchRet, pfInvalid).

(** [accumulator] is a [size_t], the elements are bytes. *)
Definition TimingResistantEqual (a b : list Z) : bool :=
  if Z.of_nat (length b) =? 0 then Z.of_nat (length a) =? 0 else
  let accumulator := Z.lxor (Z.of_nat (length a)) (Z.of_nat (length b)) in
  foldl (λ acc i, Z.lor acc (Z.lxor (nth i a 0) (nth (i mod length b)%nat b 0)))
    accumulator (seq 0 (length a)) =? 0.

Definition safeChars : list Z :=
  str "abcdefghijklmnopqrstuvwxyzABCDEFGHIJKLMNOPQRSTUVWXYZ01234567890 .,;_-/:?@()".

Definition SanitizeString (s : list Z) : list Z :=
  filter (λ c, c ∈ safeChars) s.

(** ** Digits and tables *)

Lemma decode64_digit i :
  0 <= i < 64 → getz decode64_table (u8 (getz pbase64 i)) = i.
Proof.
  intros Hi. apply Z.eqb_eq. revert i Hi.
  apply (Zforall_check 64 (λ i, getz decode64_table (u8 (getz pbase64 i)) =? i)).
  by vm_compute.
Qed.

Lemma decode32_digit i :
  0 <= i < 32 → getz decode32_table (u8 (getz pbase32 i)) = i.
Proof.
  intros Hi. apply Z.eqb_eq. revert i Hi.
  apply (Zforall_check 32 (λ i, getz decode32_table (u8 (getz pbase32 i)) =? i)).
  by vm_compute.
Qed.

Lemma hex_digit i : 0 <= i < 16 →
  HexDigit (getz hexmap i) = i ∧ isspace (getz hexmap i) = false.
Proof.
  intros Hi.
  pose proof (Zforall_check 16
    (λ i, (HexDigit (getz hexmap i) =? i) && negb (isspace (getz hexmap i)))
    ltac:(by vm_compute) i Hi) as [?%Z.eqb_eq ?%negb_true_iff]%andb_true_iff.
  done.
Qed.

Ltac bits_nonneg :=
  repeat first [ rewrite Z.lor_nonneg | rewrite Z.land_nonneg
               | rewrite Z.shiftl_nonneg | rewrite Z.shiftr_nonneg ];
  unfold in_uw in *; lia.

(** A digit's range, from its bits. *)
Ltac digit_range :=
  apply in_uw_bits; [lia| bits_nonneg |];
  let i := fresh "i" in let Hi := fresh "Hi" in intros i Hi; testbits; bits_vanish.

(** ** Round trips: the decoder's state follows the encoder's

    After the encoder has read [s], the digits it has produced bring the
    decoder to a state that has output all of [s] but a pending last byte. *)

Lemma DecodeBase64_loop_digits st ds p :
  Forall (in_uw 6) ds →
  DecodeBase64_loop st (map (getz pbase64) ds ++ p) =
  DecodeBase64_loop (foldl DecodeBase64_step st ds) p.
Proof.
  intros H. revert st. induction H as [|d ds Hd _ IH]; intros st; [done|].
  cbn [map app DecodeBase64_loop foldl]. rewrite decode64_digit by done.
  destruct (Z.eqb_spec d (-1)); [unfold in_uw in Hd; lia|]. apply IH.
Qed.

Lemma DecodeBase32_loop_digits st ds p :
  Forall (in_uw 5) ds →
  DecodeBase32_loop st (map (getz pbase32) ds ++ p) =
  DecodeBase32_loop (foldl DecodeBase32_step st ds) p.
Proof.
  intros H. revert st. induction H as [|d ds Hd _ IH]; intros st; [done|].
  cbn [map app DecodeBase32_loop foldl]. rewrite decode32_digit by done.
  destruct (Z.eqb_spec d (-1)); [unfold in_uw in Hd; lia|]. apply IH.
Qed.

(** The encoder's mode and carried bits, the decoder's mode and carried bits,
    and the byte the decoder still owes. *)
Inductive sync64 : Z * Z → Z * Z → list Z → Prop :=
| Sync64_0 l dl : sync64 (0, l) (0, dl) []
| Sync64_1 b : is_byte b →
    sync64 (1, Z.shiftl (Z.land b 3) 4) (1, Z.shiftr b 2) [b]
| Sync64_2 b : is_byte b →
    sync64 (2, Z.shiftl (Z.land b 15) 2) (2, Z.shiftr b 4) [b].

Inductive sync32 : Z * Z → Z * Z → list Z → Prop :=
| Sync32_0 l dl : sync32 (0, l) (0, dl) []
| Sync32_1 b : is_byte b →
    sync32 (1, Z.shiftl (Z.land b 7) 2) (1, Z.shiftr b 3) [b]
| Sync32_2 b : is_byte b →
    sync32 (2, Z.shiftl (Z.land b 1) 4) (3, Z.shiftr b 1) [b]
| Sync32_3 b : is_byte b →
    sync32 (3, Z.shiftl (Z.land b 15) 1) (4, Z.shiftr b 4) [b]
| Sync32_4 b : is_byte b →
    sync32 (4, Z.shiftl (Z.land b 3) 3) (6, Z.shiftr b 2) [b].

(** What a run of the encoder has produced, against the decoder's run over it. *)
Definition synced64 (s : list Z) (enc : Z * Z * list Z) : Prop :=
  let '(mode, l, o) := enc in
  ∃ ds dmode dl out owed,
    o = map (getz pbase64) ds ∧ Forall (in_uw 6) ds ∧
    foldl DecodeBase64_step (0, 0, []) ds = (dmode, dl, out) ∧
    s = out ++ owed ∧ sync64 (mode, l) (dmode, dl) owed.

Definition synced32 (s : list Z) (enc : Z * Z * list Z) : Prop :=
  let '(mode, l, o) := enc in
  ∃ ds dmode dl out owed,
    o = map (getz pbase32) ds ∧ Forall (in_uw 5) ds ∧
    foldl DecodeBase32_step (0, 0, []) ds = (dmode, dl, out) ∧
    s = out ++ owed ∧ sync32 (mode, l) (dmode, dl) owed.

(** One step of the encoder appends the digits [ds']; the decoder's answer is
    computed, and the bit equations are solved bit by bit. *)
Ltac sync_step ds' owed :=
  eexists (_ ++ ds'), _, _, _, owed;
  split_and!;
    [ rewrite map_app; reflexivity
    | apply Forall_app; split; [eassumption|repeat (apply Forall_cons_2; [digit_range|]); apply Forall_nil_2]
    | rewrite foldl_app;
      match goal with H : foldl _ _ _ = _ |- _ => rewrite H end; reflexivity
    | | ].

(** The bytes output by the decoder against the bytes read by the encoder. *)
Ltac out_bytes :=
  rewrite ?app_nil_r, <- ?app_assoc; cbn [app]; apply (f_equal (app _));
  repeat (apply (f_equal2 cons); [first [reflexivity | symmetry; byte_bits]|]);
  reflexivity.

Lemma EncodeBase64_synced s :
  Forall is_byte s → synced64 s (foldl EncodeBase64_step (0, 0, []) s).
Proof.
  induction s as [|b s IH] using rev_ind; intros Hs.
  { exists [], 0, 0, [], []. split_and!; try done. constructor. }
  apply Forall_app in Hs as [Hs Hb]. apply Forall_inv in Hb.
  rewrite foldl_app. cbn [foldl]. specialize (IH Hs).
  destruct (foldl EncodeBase64_step (0, 0, []) s) as [[mode l] o].
  destruct IH as (ds & dmode & dl & out & owed & -> & Hds & Hdec & -> & Hsync).
  inversion Hsync; subst; cbn [EncodeBase64_step Z.eqb Pos.eqb].
  - sync_step [Z.shiftr b 2] [b]; [by rewrite app_nil_r|by constructor].
  - sync_step [Z.lor (Z.shiftl (Z.land b0 3) 4) (Z.shiftr b 4)] [b].
    + out_bytes.
    + replace (Z.land (Z.lor _ _) 15) with (Z.shiftr b 4) by byte_bits. by constructor.
  - sync_step [Z.lor (Z.shiftl (Z.land b0 15) 2) (Z.shiftr b 6); Z.land b 63] (@nil Z).
    + out_bytes.
    + constructor.
Qed.

Lemma EncodeBase32_synced s :
  Forall is_byte s → synced32 s (foldl EncodeBase32_step (0, 0, []) s).
Proof.
  induction s as [|b s IH] using rev_ind; intros Hs.
  { exists [], 0, 0, [], []. split_and!; try done. constructor. }
  apply Forall_app in Hs as [Hs Hb]. apply Forall_inv in Hb.
  rewrite foldl_app. cbn [foldl]. specialize (IH Hs).
  destruct (foldl EncodeBase32_step (0, 0, []) s) as [[mode l] o].
  destruct IH as (ds & dmode & dl & out & owed & -> & Hds & Hdec & -> & Hsync).
  inversion Hsync; subst; cbn [EncodeBase32_step Z.eqb Pos.eqb].
  - sync_step [Z.shiftr b 3] [b]; [by rewrite app_nil_r|by constructor].
  - sync_step [Z.lor (Z.shiftl (Z.land b0 7) 2) (Z.shiftr b 6); Z.land (Z.shiftr b 1) 31] [b].
    + out_bytes.
    + replace (Z.lor (Z.shiftl (Z.land (Z.lor _ _) 3) 5) _) with (Z.shiftr b 1) by byte_bits.
      by constructor.
  - sync_step [Z.lor (Z.shiftl (Z.land b0 1) 4) (Z.shiftr b 4)] [b].
    + out_bytes.
    + replace (Z.land (Z.lor _ _) 15) with (Z.shiftr b 4) by byte_bits. by constructor.
  - sync_step [Z.lor (Z.shiftl (Z.land b0 15) 1) (Z.shiftr b 7); Z.land (Z.shiftr b 2) 31] [b].
    + out_bytes.
    + replace (Z.lor (Z.shiftl (Z.land (Z.lor _ _) 1) 5) _) with (Z.shiftr b 2) by byte_bits.
      by constructor.
  - sync_step [Z.lor (Z.shiftl (Z.land b0 3) 3) (Z.shiftr b 5); Z.land b 31] (@nil Z).
    + out_bytes.
    + constructor.
Qed.

Lemma DecodeBase64_stop st p :
  getz decode64_table (u8 (ch0 p)) = -1 → DecodeBase64_loop st p = (st, p).
Proof. destruct p as [|c p]; simpl; [done|]. intros ->. done. Qed.

Lemma DecodeBase32_stop st p :
  getz decode32_table (u8 (ch0 p)) = -1 → DecodeBase32_loop st p = (st, p).
Proof. destruct p as [|c p]; simpl; [done|]. intros ->. done. Qed.

(** The final partial group: [left] becomes one more digit. *)
Lemma left_digit64 b k m :
  is_byte b → (m = 3 ∧ k = 4) ∨ (m = 15 ∧ k = 2) → in_uw 6 (Z.shiftl (Z.land b m) k).
Proof. intros ? [[-> ->]|[-> ->]]; digit_range. Qed.

Lemma left_digit32 b k m :
  is_byte b →
  (m = 7 ∧ k = 2) ∨ (m = 1 ∧ k = 4) ∨ (m = 15 ∧ k = 1) ∨ (m = 3 ∧ k = 3) →
  in_uw 5 (Z.shiftl (Z.land b m) k).
Proof. intros ? [[-> ->]|[[-> ->]|[[-> ->]|[-> ->]]]]; digit_range. Qed.

(** Decoding all the digits, one last digit, and stopping at the padding. *)
Lemma DecodeBase64_finish ds d p st :
  Forall (in_uw 6) ds → in_uw 6 d → foldl DecodeBase64_step (0, 0, []) ds = st →
  getz decode64_table (u8 (ch0 p)) = -1 →
  DecodeBase64_loop (0, 0, []) (map (getz pbase64) ds ++ [getz pbase64 d] ++ p) =
  (DecodeBase64_step st d, p).
Proof.
  intros Hds Hd <- Hp. rewrite app_assoc.
  change [getz pbase64 d] with (map (getz pbase64) [d]).
  rewrite <- map_app, DecodeBase64_loop_digits, foldl_app by auto using Forall_app_2.
  by rewrite DecodeBase64_stop.
Qed.

Lemma DecodeBase32_finish ds d p st :
  Forall (in_uw 5) ds → in_uw 5 d → foldl DecodeBase32_step (0, 0, []) ds = st →
  getz decode32_table (u8 (ch0 p)) = -1 →
  DecodeBase32_loop (0, 0, []) (map (getz pbase32) ds ++ [getz pbase32 d] ++ p) =
  (DecodeBase32_step st d, p).
Proof.
  intros Hds Hd <- Hp. rewrite app_assoc.
  change [getz pbase32 d] with (map (getz pbase32) [d]).
  rewrite <- map_app, DecodeBase32_loop_digits, foldl_app by auto using Forall_app_2.
  by rewrite DecodeBase32_stop.
Qed.

(** After the last digit the decoder has paid the owed byte and carries no bits. *)
Ltac finish_tail :=
  cbn -[Z.land Z.shiftl Z.shiftr Z.lor getz];
  match goal with |- context [negb (Z.land ?x ?m =? 0)] =>
    replace (Z.land x m) with 0 by (symmetry; byte_bits) end;
  apply (f_equal2 pair); [|by vm_compute];
  apply (f_equal (app _)), (f_equal2 cons); [byte_bits|done].

(** Decoding an encoding gives the bytes back, with nothing flagged. *)
Lemma base64_roundtrip s :
  Forall is_byte s → DecodeBase64 (EncodeBase64 s) = (s, false).
Proof.
  intros Hs. pose proof (EncodeBase64_synced s Hs) as H.
  unfold EncodeBase64, DecodeBase64.
  destruct (foldl EncodeBase64_step (0, 0, []) s) as [[mode l] o].
  destruct H as (ds & dmode & dl & out & owed & -> & Hds & Hdec & -> & Hsync).
  inversion Hsync; subst; cbn [negb Z.eqb Pos.eqb].
  { rewrite <- (app_nil_r (map _ ds)), DecodeBase64_loop_digits by done.
    rewrite Hdec, DecodeBase64_stop by done. cbn. by rewrite app_nil_r. }
  all: erewrite DecodeBase64_finish by (eauto || apply left_digit64; auto).
  all: finish_tail.
Qed.

Lemma base32_roundtrip s :
  Forall is_byte s → DecodeBase32 (EncodeBase32 s) = (s, false).
Proof.
  intros Hs. pose proof (EncodeBase32_synced s Hs) as H.
  unfold EncodeBase32, DecodeBase32.
  destruct (foldl EncodeBase32_step (0, 0, []) s) as [[mode l] o].
  destruct H as (ds & dmode & dl & out & owed & -> & Hds & Hdec & -> & Hsync).
  inversion Hsync; subst; cbn [negb Z.eqb Pos.eqb].
  { rewrite <- (app_nil_r (map _ ds)), DecodeBase32_loop_digits by done.
    rewrite Hdec, DecodeBase32_stop by done. cbn. by rewrite app_nil_r. }
  all: erewrite DecodeBase32_finish by (eauto || apply left_digit32; auto 6).
  all: finish_tail.
Qed.

(** ** Hexadecimal *)

Lemma nibbles b : is_byte b →
  0 <= Z.shiftr b 4 < 16 ∧ 0 <= Z.land b 15 < 16 ∧
  Z.lor (u8 (Z.shiftl (Z.shiftr b 4) 4)) (Z.land b 15) = b.
Proof.
  intros Hb. split_and!; try (apply (in_uw_bits 4); [lia|bits_nonneg|intros i Hi; testbits; bits_vanish]).
  byte_bits.
Qed.

Lemma skip_spaces_id c r : isspace c = false → skip_spaces (c :: r) = c :: r.
Proof. simpl. by intros ->. Qed.

Lemma ParseHex_loop_HexStr n first fSpaces v :
  Forall is_byte v → (length v < n)%nat →
  ParseHex_loop n (HexStr_loop first fSpaces v) = v.
Proof.
  intros Hv. revert n first. induction Hv as [|b v Hb _ IH]; intros [|n] first Hn;
    cbn [length] in Hn; [lia|reflexivity|lia|].
  destruct (nibbles b Hb) as (H1 & H2 & H3).
  destruct (hex_digit _ H1) as [D1 S1], (hex_digit _ H2) as [D2 _].
  cbn [ParseHex_loop HexStr_loop].
  replace (skip_spaces _) with (getz hexmap (Z.shiftr b 4) :: getz hexmap (Z.land b 15)
                                 :: HexStr_loop false fSpaces v).
  2:{ destruct (fSpaces && negb first); cbn [app]; cbn [skip_spaces]; by rewrite S1. }
  cbn [ch0 hd tl]. rewrite D1, D2.
  destruct (Z.eqb_spec (Z.shiftr b 4) (-1)); [lia|].
  destruct (Z.eqb_spec (Z.land b 15) (-1)); [lia|].
  rewrite H3, IH by lia. done.
Qed.

Lemma length_HexStr_loop first fSpaces v :
  (length v <= length (HexStr_loop first fSpaces v))%nat.
Proof.
  revert first. induction v as [|b v IH]; intros first; cbn [HexStr_loop length]; [lia|].
  rewrite length_app. specialize (IH false). cbn [app length]. lia.
Qed.

(** Parsing a dump gives the bytes back, with or without separating spaces. *)
Lemma ParseHex_roundtrip fSpaces v :
  Forall is_byte v → ParseHex (HexStr v fSpaces) = v.
Proof.
  intros Hv. apply ParseHex_loop_HexStr; [done|].
  pose proof (length_HexStr_loop true fSpaces v). unfold HexStr. lia.
Qed.

(** ** Constant-time comparison *)

Lemma lxor_zero_eq a b : Z.lxor a b = 0 → a = b.
Proof. apply Z.lxor_eq. Qed.

Lemma foldl_lor_zero (f : nat → Z) l acc :
  foldl (λ acc i, Z.lor acc (f i)) acc l = 0 ↔ acc = 0 ∧ Forall (λ i, f i = 0) l.
Proof.
  revert acc. induction l as [|i l IH]; intros acc; cbn [foldl].
  { split; [intros ->; by split; [|constructor]|by intros [-> _]]. }
  rewrite IH, Z.lor_eq_0_iff, Forall_cons. tauto.
Qed.

Lemma TimingResistantEqual_iff a b : TimingResistantEqual a b = true ↔ a = b.
Proof.
  unfold TimingResistantEqual. destruct (Z.eqb_spec (Z.of_nat (length b)) 0) as [Hb|Hb].
  { destruct b; [|cbn in Hb; lia]. rewrite Z.eqb_eq. destruct a; cbn; split; (done || lia). }
  rewrite Z.eqb_eq, foldl_lor_zero, Forall_forall. split.
  - intros [Hl%lxor_zero_eq Hf]. apply Nat2Z.inj in Hl.
    apply (nth_ext a b 0 0); [done|]. intros i Hi.
    apply lxor_zero_eq. rewrite <- (Nat.mod_small i (length b)) at 2 by lia.
    apply Hf, elem_of_seq. lia.
  - intros <-. split; [apply Z.lxor_nilpotent|]. intros i Hi%elem_of_seq.
    rewrite Nat.mod_small by lia. apply Z.lxor_nilpotent.
Qed.

(** ** Properties *)

(** the three text encodings of byte strings are lossless: [DecodeBase64]
    and [DecodeBase32] return the bytes that were encoded without raising
    [*pfInvalid], and [ParseHex] reads back a [HexStr] dump with or without
    spaces between the bytes. *)
Theorem text_encodings_roundtrip s fSpaces :
  Forall is_byte s →
  DecodeBase64 (EncodeBase64 s) = (s, false) ∧
  DecodeBase32 (EncodeBase32 s) = (s, false) ∧
  ParseHex (HexStr s fSpaces) = s.
Proof.
  intros Hs. split_and!; [by apply base64_roundtrip|by apply base32_roundtrip|].
  by apply ParseHex_roundtrip.
Qed.

Lemma text_encodings_roundtrip_witness :
  DecodeBase64 (EncodeBase64 (str "Merge coin")) = (str "Merge coin", false) ∧
  DecodeBase32 (EncodeBase32 (str "Merge coin")) = (str "Merge coin", false) ∧
  ParseHex (HexStr (str "Merge coin") true) = str "Merge coin".
Proof.
  apply (text_encodings_roundtrip (str "Merge coin") true).
  repeat (apply Forall_cons_2; [split; [discriminate|reflexivity]|]). apply Forall_nil_2.
Defined.
