(* ===== verification/Doubles.v ===== *)
(** * Double precision arithmetic

    The doubles of the code as [spec_float]s of 53 bits: every operation rounds to
    the nearest, ties to even. A decimal literal is the quotient of two integers
    that are exact, which rounds the same way. *)

From Stdlib Require Export SpecFloat.
From S2P Require Import Prelude.

Definition f64 (z : Z) : spec_float := binary_normalize 53 1024 z 0 false.
Definition f64_mul : spec_float → spec_float → spec_float := SFmul 53 1024.
Definition f64_div : spec_float → spec_float → spec_float := SFdiv 53 1024.
Definition f64_sub : spec_float → spec_float → spec_float := SFsub 53 1024.
Definition f64_add : spec_float → spec_float → spec_float := SFadd 53 1024.

(** The literal [n / d]. *)
Definition f64_lit (n d : Z) : spec_float := f64_div (f64 n) (f64 d).
