(* ===== verification/Uint256.v ===== *)
(** * uint256.h and uint256.cpp: [base_uint<BITS>]

    A [base_uint] is the array [pn] of its 32-bit limbs, least significant
    first, as a list; [WIDTH] is its length. Every loop of the class is
    translated over that array, with 64-bit intermediates cut where the code
    cuts them. [value] reads the array as a number; the lemmas relate every
    operation to arithmetic on [value]. *)

From S2P Require Import Prelude StrEncodings.

(** ** Operations *)

(** [base_uint(uint64_t b)] and [operator=(uint64_t b)]. *)
Definition of_u64 (WIDTH : nat) (b : Z) : list Z :=
  u32 b :: u32 (Z.shiftr b 32) :: replicate (WIDTH - 2) 0.

Definition IsNull (pn : list Z) : bool := forallb (λ x, x =? 0) pn.

Definition op_not (pn : list Z) : list Z := map (λ x, u32 (Z.lnot x)) pn.

(** [while (++pn[i] == 0 && i < WIDTH-1) i++;] *)
Fixpoint op_incr (pn : list Z) : list Z :=
  match pn with
  | [] => []
  | x :: r => let x' := u32 (x + 1) in
              if (x' =? 0) && negb (Z.of_nat (length r) =? 0) then x' :: op_incr r else x' :: r
  end.

(** [while (--pn[i] == (uint32_t)-1 && i < WIDTH - 1) i++;] *)
Fixpoint op_decr (pn : list Z) : list Z :=
  match pn with
  | [] => []
  | x :: r => let x' := u32 (x - 1) in
              if (x' =? 4294967295) && negb (Z.of_nat (length r) =? 0)
              then x' :: op_decr r else x' :: r
  end.

Definition op_neg (pn : list Z) : list Z := op_incr (op_not pn).

Definition op_xor (a b : list Z) : list Z := zip_with Z.lxor a b.
Definition op_and (a b : list Z) : list Z := zip_with Z.land a b.
Definition op_or (a b : list Z) : list Z := zip_with Z.lor a b.

(** The loop of [operator+=], with its 64-bit [n] and [carry]. *)
Fixpoint add_loop (carry : Z) (pn b : list Z) : list Z :=
  match pn, b with
  | x :: pn, y :: b =>
      let n := u64 (carry + x + y) in
      Z.land n 4294967295 :: add_loop (Z.shiftr n 32) pn b
  | _, _ => []
  end.

Definition op_add (a b : list Z) : list Z := add_loop 0 a b.
Definition op_sub (a b : list Z) : list Z := op_add a (op_neg b).

(** [operator<<=]: [k] whole limbs and [shift mod 32] bits. *)
Definition shl_step (a : list Z) (k shift : Z) (pn : list Z) (i : Z) : list Z :=
  let WIDTH := Z.of_nat (length a) in
  let pn := if (i + k + 1 <? WIDTH) && negb (shift =? 0)
            then setz pn (i + k + 1) (Z.lor (getz pn (i + k + 1)) (Z.shiftr (getz a i) (32 - shift)))
            else pn in
  if i + k <? WIDTH
  then setz pn (i + k) (Z.lor (getz pn (i + k)) (u32 (Z.shiftl (getz a i) shift)))
  else pn.

Definition op_shl (a : list Z) (shift : Z) : list Z :=
  foldl (shl_step a (shift / 32) (shift mod 32)) (replicate (length a) 0)
    (seqZ 0 (Z.of_nat (length a))).

(** [operator>>=]. *)
Definition shr_step (a : list Z) (k shift : Z) (pn : list Z) (i : Z) : list Z :=
  let pn := if (0 <=? i - k - 1) && negb (shift =? 0)
            then setz pn (i - k - 1)
                   (Z.lor (getz pn (i - k - 1)) (u32 (Z.shiftl (getz a i) (32 - shift))))
            else pn in
  if 0 <=? i - k
  then setz pn (i - k) (Z.lor (getz pn (i - k)) (Z.shiftr (getz a i) shift))
  else pn.

Definition op_shr (a : list Z) (shift : Z) : list Z :=
  foldl (shr_step a (shift / 32) (shift mod 32)) (replicate (length a) 0)
    (seqZ 0 (Z.of_nat (length a))).

(** The loop of [operator*=(uint32_t b32)]. *)
Fixpoint mul32_loop (carry b32 : Z) (pn : list Z) : list Z :=
  match pn with
  | [] => []
  | x :: pn =>
      let n := u64 (carry + b32 * x) in
      Z.land n 4294967295 :: mul32_loop (Z.shiftr n 32) b32 pn
  end.

(** The caller's argument is converted to [uint32_t]. *)
Definition op_mul32 (pn : list Z) (b32 : Z) : list Z := mul32_loop 0 (u32 b32) pn.

(** The inner loop of [operator*=(const base_uint&)] for one [j]: [pn] starts
    at limb [j] and the loop stops at [i + j = WIDTH], the end of [pn]. *)
Fixpoint mul_row (carry aj : Z) (pn b : list Z) : list Z :=
  match pn, b with
  | x :: pn, y :: b =>
      let n := u64 (carry + x + aj * y) in
      Z.land n 4294967295 :: mul_row (Z.shiftr n 32) aj pn b
  | _, _ => pn
  end.

(** The outer loop, over the limbs [a[j]]; limb [j] is final after row [j]. *)
Fixpoint mul_cols (a pn b : list Z) : list Z :=
  match a with
  | [] => pn
  | aj :: a =>
      match mul_row 0 aj pn b with
      | [] => []
      | x :: pn => x :: mul_cols a pn b
      end
  end.

Definition op_mul (a b : list Z) : list Z := mul_cols a (replicate (length a) 0) b.

(** [CompareTo]: from the top limb down. *)
Fixpoint compare_loop (a b : list Z) : Z :=
  match a, b with
  | x :: a, y :: b => if x <? y then -1 else if y <? x then 1 else compare_loop a b
  | _, _ => 0
  end.

Definition CompareTo (a b : list Z) : Z := compare_loop (rev a) (rev b).

Definition op_lt (a b : list Z) : bool := CompareTo a b <? 0.
Definition op_gt (a b : list Z) : bool := 0 <? CompareTo a b.
Definition op_le (a b : list Z) : bool := CompareTo a b <=? 0.
Definition op_ge (a b : list Z) : bool := 0 <=? CompareTo a b.
(** [memcmp(a.pn, b.pn, sizeof(a.pn)) == 0] *)
Definition op_eq (a b : list Z) : bool := bool_decide (a = b).

(** [EqualTo(uint64_t b)]. *)
Definition EqualTo (pn : list Z) (b : Z) : bool :=
  if existsb (λ x, negb (x =? 0)) (drop 2 pn) then false
  else if negb (getz pn 1 =? Z.shiftr b 32) then false
  else if negb (getz pn 0 =? Z.land b 4294967295) then false
  else true.

(** [bits]: the inner loop over bits 31 to 1 of a limb that is not zero. *)
Fixpoint top_bit (x : Z) (bits : nat) : Z :=
  match bits with
  | O => 1
  | S b => if negb (Z.land x (Z.shiftl 1 (Z.of_nat bits)) =? 0) then Z.of_nat bits + 1
           else top_bit x b
  end.

Fixpoint bits_loop (rpn : list Z) : Z :=
  match rpn with
  | [] => 0
  | x :: r => if negb (x =? 0) then 32 * Z.of_nat (length r) + top_bit x 31 else bits_loop r
  end.

Definition bits (pn : list Z) : Z := bits_loop (rev pn).

(** The [while (shift >= 0)] loop of [operator/=]: quotient and remainder. *)
Fixpoint div_loop (shift : nat) (q num div : list Z) : list Z * list Z :=
  let '(q, num) :=
    if op_ge num div
    then (setz q (Z.of_nat shift / 32)
            (Z.lor (getz q (Z.of_nat shift / 32)) (u32 (Z.shiftl 1 (Z.land (Z.of_nat shift) 31)))),
          op_sub num div)
    else (q, num) in
  let div := op_shr div 1 in
  match shift with
  | O => (q, num)
  | S shift => div_loop shift q num div
  end.

(** [uint_error("Division by zero")] *)
Inductive uint_error := DivisionByZero | WrongSizeVector.

Definition op_div (a b : list Z) : result uint_error (list Z) :=
  let num_bits := bits a in
  let div_bits := bits b in
  let zero := of_u64 (length a) 0 in
  if div_bits =? 0 then Throw DivisionByZero
  else if num_bits <? div_bits then Ok zero
  else
    let shift := num_bits - div_bits in
    Ok (fst (div_loop (Z.to_nat shift) zero a (op_shl b shift))).

(** [base_uint(const std::vector<unsigned char>&)]: [memcpy] on a little-endian machine. *)
Fixpoint limbs_of_bytes (n : nat) (bs : list Z) : list Z :=
  match n with
  | O => []
  | S n => le_val (take 4 bs) :: limbs_of_bytes n (drop 4 bs)
  end.

Definition of_vector (WIDTH : nat) (vch : list Z) : result uint_error (list Z) :=
  if negb (Z.of_nat (length vch) =? 4 * Z.of_nat WIDTH) then Throw WrongSizeVector
  else Ok (limbs_of_bytes WIDTH vch).

(** [begin()..end()]: the bytes of [pn] in memory. *)
Definition to_bytes (pn : list Z) : list Z := concat (map (le_bytes 4) pn).

Definition GetHex (pn : list Z) : list Z := HexStr (rev (to_bytes pn)) false.

(** The digits of a C string up to the first character that is none. *)
Fixpoint hex_prefix (psz : list Z) : list Z :=
  match psz with
  | [] => []
  | c :: r => if HexDigit c =? -1 then [] else c :: hex_prefix r
  end.

(** [while (psz >= pbegin && p1 < pend)], the digits taken from the last one;
    [n] is [pend - p1]. *)
Fixpoint SetHex_loop (n : nat) (digits : list Z) : list Z :=
  match n, digits with
  | S n, d0 :: d1 :: r =>
      Z.lor (HexDigit d0) (u8 (Z.shiftl (HexDigit d1) 4)) :: SetHex_loop n r
  | S n, [d0] => HexDigit d0 :: replicate n 0
  | n, _ => replicate n 0
  end.

Definition SetHex (WIDTH : nat) (psz : list Z) : list Z :=
  let psz := skip_spaces psz in
  let psz := if (ch0 psz =? 48) && (tolower (ch0 (tl psz)) =? 120) then tl (tl psz) else psz in
  limbs_of_bytes WIDTH (SetHex_loop (4 * WIDTH) (rev (hex_prefix psz))).

Definition Get64 (pn : list Z) (n : Z) : Z :=
  Z.lor (getz pn (2 * n)) (u64 (Z.shiftl (getz pn (2 * n + 1)) 32)).

Definition GetLow64 (pn : list Z) : Z := Get64 pn 0.

(** ** uint256 *)

Abbreviation uint256 := (of_u64 8).

(** The new value with [*pfNegative] and [*pfOverflow]. *)
Definition SetCompact (nCompact : Z) : list Z * bool * bool :=
  let nSize := Z.shiftr nCompact 24 in
  let nWord := Z.land nCompact 8388607 in
  let '(this, nWord) :=
    if nSize <=? 3
    then let nWord := Z.shiftr nWord (8 * (3 - nSize)) in (uint256 nWord, nWord)
    else (op_shl (uint256 nWord) (8 * (nSize - 3)), nWord) in
  let pfNegative := negb (nWord =? 0) && negb (Z.land nCompact 8388608 =? 0) in
  let pfOverflow := negb (nWord =? 0) &&
    ((34 <? nSize) || ((255 <? nWord) && (33 <? nSize)) || ((65535 <? nWord) && (32 <? nSize))) in
  (this, pfNegative, pfOverflow).

(** [None] when one of the two assertions fails. *)
Definition GetCompact (pn : list Z) (fNegative : bool) : option Z :=
  let nSize := (bits pn + 7) / 8 in
  let nCompact :=
    if nSize <=? 3 then u32 (u64 (Z.shiftl (GetLow64 pn) (8 * (3 - nSize))))
    else u32 (GetLow64 (op_shr pn (8 * (nSize - 3)))) in
  let '(nCompact, nSize) :=
    if negb (Z.land nCompact 8388608 =? 0) then (Z.shiftr nCompact 8, nSize + 1)
    else (nCompact, nSize) in
  if negb (Z.land nCompact (u32 (Z.lnot 8388607)) =? 0) then None
  else if negb (nSize <? 256) then None
  else
    let nCompact := Z.lor nCompact (u32 (Z.shiftl nSize 24)) in
    Some (Z.lor nCompact
      (if fNegative && negb (Z.land nCompact 8388607 =? 0) then 8388608 else 0)).

(** [HashMix] and [HashFinal] of lookup3, then [GetHash] with a salt. *)
Definition rotl32 (x n : Z) : Z := Z.lor (u32 (Z.shiftl x n)) (Z.shiftr x (32 - n)).

Definition HashMix (abc : Z * Z * Z) : Z * Z * Z :=
  let '(a, b, c) := abc in
  let a := u32 (a - c) in let a := Z.lxor a (rotl32 c 4) in let c := u32 (c + b) in
  let b := u32 (b - a) in let b := Z.lxor b (rotl32 a 6) in let a := u32 (a + c) in
  let c := u32 (c - b) in let c := Z.lxor c (rotl32 b 8) in let b := u32 (b + a) in
  let a := u32 (a - c) in let a := Z.lxor a (rotl32 c 16) in let c := u32 (c + b) in
  let b := u32 (b - a) in let b := Z.lxor b (rotl32 a 19) in let a := u32 (a + c) in
  let c := u32 (c - b) in let c := Z.lxor c (rotl32 b 4) in let b := u32 (b + a) in
  (a, b, c).

Definition HashFinal (abc : Z * Z * Z) : Z * Z * Z :=
  let '(a, b, c) := abc in
  let c := Z.lxor c b in let c := u32 (c - rotl32 b 14) in
  let a := Z.lxor a c in let a := u32 (a - rotl32 c 11) in
  let b := Z.lxor b a in let b := u32 (b - rotl32 a 25) in
  let c := Z.lxor c b in let c := u32 (c - rotl32 b 16) in
  let a := Z.lxor a c in let a := u32 (a - rotl32 c 4) in
  let b := Z.lxor b a in let b := u32 (b - rotl32 a 14) in
  let c := Z.lxor c b in let c := u32 (c - rotl32 b 24) in
  (a, b, c).

Definition GetHash (pn salt : list Z) : Z :=
  let init := u32 (3735928559 + Z.shiftl 8 2) in
  let x i := Z.lxor (getz pn i) (getz salt i) in
  let '(a, b, c) := HashMix (u32 (init + x 0), u32 (init + x 1), u32 (init + x 2)) in
  let '(a, b, c) := HashMix (u32 (a + x 3), u32 (b + x 4), u32 (c + x 5)) in
  let '(a, b, c) := HashFinal (u32 (a + x 6), u32 (b + x 7), c) in
  Z.lor (Z.shiftl b 32) c.

(** ** The number an array stands for *)

Fixpoint value (pn : list Z) : Z :=
  match pn with
  | [] => 0
  | x :: r => x + 2 ^ 32 * value r
  end.

(** Every limb is a [uint32_t]. *)
Abbreviation limbs := (Forall (in_uw 32)).

(** The number of bits of the array. *)
Definition BITS (pn : list Z) : Z := 32 * Z.of_nat (length pn).

(** [pn] is an array of [n] limbs that stands for [z]. *)
Record repr (n : nat) (pn : list Z) (z : Z) : Prop := Repr {
  repr_length : length pn = n;
  repr_limbs : limbs pn;
  repr_value : value pn = z
}.

(** The modulus of [n]-limb arithmetic. *)
Abbreviation modulus n := (2 ^ (32 * Z.of_nat n)).

Lemma modulus_S n : modulus (S n) = 2 ^ 32 * modulus n.
Proof. rewrite <- Z.pow_add_r by lia. f_equal. lia. Qed.

Lemma modulus_pos n : 0 < modulus n.
Proof. apply Z.pow_pos_nonneg; lia. Qed.

Lemma value_range pn : limbs pn → 0 <= value pn < modulus (length pn).
Proof.
  induction 1 as [|x r [? ?] _ IH]; cbn [value length]; [cbn; lia|].
  rewrite modulus_S. lia.
Qed.

Lemma repr_range n pn z : repr n pn z → 0 <= z < modulus n.
Proof. intros [<- H <-]. by apply value_range. Qed.

Lemma value_app a b : value (a ++ b) = value a + modulus (length a) * value b.
Proof.
  induction a as [|x a IH]; cbn [value app length]; [cbn; lia|].
  rewrite IH, modulus_S. lia.
Qed.

Lemma value_inj a b : limbs a → limbs b → length a = length b → value a = value b → a = b.
Proof.
  intros Ha. revert b. induction Ha as [|x a [? ?] Ha IH]; intros [|y b] Hb Hl Hv; try done.
  apply Forall_cons in Hb as [[? ?] Hb]. cbn [value length] in *.
  assert (x = y ∧ value a = value b) as [-> Hv'] by lia.
  f_equal. apply IH; auto.
Qed.

Lemma repr_inj n a b z : repr n a z → repr n b z → a = b.
Proof. intros [? ? ?] [? ? ?]. apply value_inj; congruence. Qed.

(** One more limb on a computation modulo [2^(32n)]. *)
Lemma limb_step n r M :
  0 < M → n mod 2 ^ 32 + 2 ^ 32 * ((n / 2 ^ 32 + r) mod M) = (n + 2 ^ 32 * r) mod (2 ^ 32 * M).
Proof.
  intros. rewrite Z.rem_mul_r by lia.
  rewrite (Z.mul_comm (2 ^ 32) r), Z.mod_add, Z.div_add by lia. done.
Qed.

Lemma u32_limb z : in_uw 32 (z mod 2 ^ 32).
Proof. apply Z.mod_pos_bound. lia. Qed.
#[export] Hint Resolve u32_limb : node.

Lemma add_loop_spec c a b :
  0 <= c <= 1 → limbs a → limbs b → length a = length b →
  repr (length a) (add_loop c a b) ((c + value a + value b) mod modulus (length a)).
Proof.
  intros Hc Ha. revert c Hc b.
  induction Ha as [|x a [? ?] Ha IH]; intros c Hc [|y b] Hb Hl; try done.
  { split; [done..|]. cbn. by rewrite Z.mod_1_r. }
  apply Forall_cons in Hb as [[? ?] Hb]. cbn [length] in Hl.
  cbn [add_loop length value]. rewrite wrap_small by (unfold in_uw; lia).
  rewrite land_ffffffff, shiftr_div by lia.
  destruct (IH ((c + x + y) / 2 ^ 32) ltac:(divmod_lia) b Hb ltac:(lia)) as [L R V].
  split; [cbn; lia|by constructor; auto with node|]. cbn [value]. rewrite V, modulus_S.
  rewrite <- !Z.add_assoc, (Z.add_assoc c), limb_step by apply modulus_pos. f_equal. lia.
Qed.

Lemma op_add_repr n a b x y :
  repr n a x → repr n b y → repr n (op_add a b) ((x + y) mod modulus n).
Proof.
  intros [<- Ha <-] [Hl Hb <-].
  apply (add_loop_spec 0); auto; lia.
Qed.

Lemma mul32_loop_spec c b32 a :
  in_uw 32 c → in_uw 32 b32 → limbs a →
  repr (length a) (mul32_loop c b32 a) ((c + b32 * value a) mod modulus (length a)).
Proof.
  intros Hc Hb Ha. revert c Hc. induction Ha as [|x a [? ?] Ha IH]; intros c [? ?].
  { split; [done..|]. cbn. by rewrite Z.mod_1_r. }
  destruct Hb as [? ?]. assert (0 <= b32 * x <= (2 ^ 32 - 1) * (2 ^ 32 - 1)) by nia.
  cbn [mul32_loop length value]. rewrite wrap_small by (unfold in_uw; lia).
  rewrite land_ffffffff, shiftr_div by lia.
  destruct (IH ((c + b32 * x) / 2 ^ 32)) as [L R V].
  { apply u32_div_mod_range. lia. }
  split; [cbn; lia|by constructor; auto with node|]. cbn [value]. rewrite V, modulus_S.
  rewrite limb_step by apply modulus_pos. f_equal. lia.
Qed.

Lemma op_mul32_repr n a x b32 :
  repr n a x → repr n (op_mul32 a b32) ((u32 b32 * x) mod modulus n).
Proof.
  intros [<- Ha <-]. apply (mul32_loop_spec 0); [unfold in_uw; lia|auto with node lia|done].
Qed.

Lemma mul_row_spec c aj a b :
  in_uw 32 c → in_uw 32 aj → limbs a → limbs b → (length a <= length b)%nat →
  repr (length a) (mul_row c aj a b) ((c + value a + aj * value b) mod modulus (length a)).
Proof.
  intros Hc Hj Ha. revert c Hc b.
  induction Ha as [|x a [? ?] Ha IH]; intros c [? ?] [|y b] Hb Hl; cbn [length] in Hl.
  - split; [done..|]. cbn. by rewrite Z.mod_1_r.
  - split; [done..|]. cbn. by rewrite Z.mod_1_r.
  - lia.
  - apply Forall_cons in Hb as [[? ?] Hb]. destruct Hj as [? ?].
    assert (0 <= aj * y <= (2 ^ 32 - 1) * (2 ^ 32 - 1)) by nia.
    cbn [mul_row length value]. rewrite wrap_small by (unfold in_uw; lia).
    rewrite land_ffffffff, shiftr_div by lia.
    destruct (IH ((c + x + aj * y) / 2 ^ 32)) with (b := b) as [L R V]; [|done|lia|].
    { apply u32_div_mod_range. lia. }
    split; [cbn; lia|by constructor; auto with node|]. cbn [value]. rewrite V, modulus_S.
    rewrite <- !Z.add_assoc, (Z.add_assoc x), (Z.add_assoc c), limb_step by apply modulus_pos.
    f_equal. lia.
Qed.

Lemma mul_cols_spec a pn b :
  limbs a → limbs pn → limbs b → length a = length pn → (length pn <= length b)%nat →
  repr (length pn) (mul_cols a pn b) ((value pn + value a * value b) mod modulus (length pn)).
Proof.
  intros Ha. revert pn. induction Ha as [|aj a Hj Ha IH]; intros pn Hpn Hb Hl1 Hl2.
  { destruct pn; [|done]. split; [done..|]. cbn. by rewrite Z.mod_1_r. }
  cbn [mul_cols]. destruct (mul_row_spec 0 aj pn b) as [L R V]; auto; [unfold in_uw; lia|].
  destruct (mul_row 0 aj pn b) as [|x pn']; cbn [length] in *; [lia|].
  apply Forall_cons in R as [[? ?] R].
  destruct (IH pn') as [L' R' V']; auto; [lia..|].
  split; [cbn; lia|by constructor|]. cbn [value] in *.
  rewrite <- L, modulus_S in *. pose proof (modulus_pos (length pn')).
  replace (value pn + (aj + 2 ^ 32 * value a) * value b)
    with (0 + value pn + aj * value b + 2 ^ 32 * (value a * value b)) by lia.
  rewrite <- Z.add_mod_idemp_l, <- V, V' by lia.
  rewrite <- (Z.mod_small x (2 ^ 32)) at 1 by lia.
  replace (value pn' + value a * value b)
    with (x / 2 ^ 32 + (value pn' + value a * value b)) by (rewrite Z.div_small; lia).
  rewrite limb_step by done. f_equal. lia.
Qed.

Lemma value_zeros n : value (replicate n 0) = 0.
Proof. induction n as [|n IH]; cbn [value replicate]; [done|]. rewrite IH. lia. Qed.

Lemma limbs_zeros n : limbs (replicate n 0).
Proof. apply Forall_replicate. unfold in_uw. lia. Qed.
#[export] Hint Resolve limbs_zeros : node.

Lemma zeros_repr n : repr n (replicate n 0) 0.
Proof. split; [apply length_replicate|apply limbs_zeros|apply value_zeros]. Qed.

Lemma op_mul_repr n a b x y :
  repr n a x → repr n b y → repr n (op_mul a b) ((x * y) mod modulus n).
Proof.
  intros [<- Ha <-] [Hl Hb <-]. unfold op_mul.
  pose proof (mul_cols_spec a (replicate (length a) 0) b Ha (limbs_zeros _) Hb) as H.
  rewrite length_replicate, value_zeros in H. apply H; lia.
Qed.

Lemma u32_lnot x : in_uw 32 x → u32 (Z.lnot x) = 2 ^ 32 - 1 - x.
Proof. intros [? ?]. unfold wrap, Z.lnot. divmod_lia. Qed.

Lemma op_not_repr n a x : repr n a x → repr n (op_not a) (modulus n - 1 - x).
Proof.
  intros [<- Ha <-]. induction Ha as [|x a Hx Ha [L R V]]; [done|].
  split; cbn [op_not map length value] in *; [f_equal; done|..].
  - constructor; [apply wrap_range; lia|done].
  - fold (op_not a) in *. rewrite V, u32_lnot, modulus_S by done. lia.
Qed.

Lemma op_incr_repr n a x : repr n a x → repr n (op_incr a) ((x + 1) mod modulus n).
Proof.
  intros [<- Ha <-]. induction Ha as [|x a [? ?] Ha [L R V]].
  { split; [done..|]. cbn. by rewrite Z.mod_1_r. }
  assert (x = 2 ^ 32 - 1 ∨ x < 2 ^ 32 - 1) as [->|Hx] by lia.
  - cbn [op_incr value length]. change (u32 (2 ^ 32 - 1 + 1)) with 0. cbn [Z.eqb andb].
    destruct (Z.eqb_spec (Z.of_nat (length a)) 0) as [E|E]; cbn [negb].
    + destruct a; [|cbn in E; lia]. split; [done| |done]. by repeat constructor.
    + split; [cbn; congruence|constructor; [done|done]|].
      cbn [value]. rewrite V, modulus_S.
      replace (2 ^ 32 - 1 + 2 ^ 32 * value a + 1) with (2 ^ 32 * (value a + 1)) by lia.
      rewrite Z.mul_mod_distr_l by (pose proof (modulus_pos (length a)); lia). lia.
  - cbn [op_incr value length]. rewrite wrap_small by (unfold in_uw; lia).
    destruct (Z.eqb_spec (x + 1) 0); [lia|]. cbn [andb].
    split; [done|constructor; [unfold in_uw; lia|done]|].
    cbn [value]. rewrite Z.mod_small; [lia|]. rewrite modulus_S.
    pose proof (value_range a Ha). lia.
Qed.

Lemma op_decr_repr n a x : repr n a x → repr n (op_decr a) ((x - 1) mod modulus n).
Proof.
  intros [<- Ha <-]. induction Ha as [|x a [? ?] Ha [L R V]].
  { split; [done..|]. cbn. by rewrite Z.mod_1_r. }
  assert (x = 0 ∨ 0 < x) as [->|Hx] by lia.
  - cbn [op_decr value length]. change (u32 (0 - 1)) with 4294967295. cbn [Z.eqb Pos.eqb andb].
    destruct (Z.eqb_spec (Z.of_nat (length a)) 0) as [E|E]; cbn [negb].
    + destruct a; [|cbn in E; lia]. split; [done| |done]. by repeat constructor.
    + split; [cbn; congruence|constructor; [done|done]|].
      cbn [value]. rewrite V, modulus_S. pose proof (modulus_pos (length a)).
      replace (0 + 2 ^ 32 * value a - 1) with (2 ^ 32 - 1 + 2 ^ 32 * (value a - 1)) by lia.
      rewrite <- limb_step by done. by rewrite (Z.mod_small (2 ^ 32 - 1)), Z.div_small by lia.
  - cbn [op_decr value length]. rewrite wrap_small by (unfold in_uw; lia).
    destruct (Z.eqb_spec (x - 1) 4294967295); [lia|]. cbn [andb].
    split; [done|constructor; [unfold in_uw; lia|done]|].
    cbn [value]. rewrite Z.mod_small; [lia|]. rewrite modulus_S.
    pose proof (value_range a Ha). lia.
Qed.

Lemma op_neg_repr n a x : repr n a x → repr n (op_neg a) ((- x) mod modulus n).
Proof.
  intros H%op_not_repr%op_incr_repr. unfold op_neg.
  replace ((- x) mod modulus n) with ((modulus n - 1 - x + 1) mod modulus n); [done|].
  replace (modulus n - 1 - x + 1) with (- x + 1 * modulus n) by lia.
  apply Z.mod_add. pose proof (modulus_pos n). lia.
Qed.

Lemma op_sub_repr n a b x y :
  repr n a x → repr n b y → repr n (op_sub a b) ((x - y) mod modulus n).
Proof.
  intros Ha Hb%op_neg_repr. pose proof (op_add_repr _ _ _ _ _ Ha Hb) as H.
  rewrite Z.add_mod_idemp_r in H by (pose proof (modulus_pos n); lia). exact H.
Qed.

Lemma of_u64_repr n b : (2 <= n)%nat → in_uw 64 b → repr n (of_u64 n b) b.
Proof.
  intros Hn [? ?]. unfold of_u64. split.
  - cbn. rewrite length_replicate. lia.
  - repeat (apply Forall_cons_2; [by apply wrap_range|]). apply limbs_zeros.
  - cbn [value]. rewrite value_zeros, shiftr_div by lia.
    rewrite (wrap_small 32 (b / 2 ^ 32)) by (by apply u32_div_mod_range).
    unfold wrap. divmod_lia.
Qed.

(** *** Comparison *)

Lemma compare_loop_app a a' b b' :
  length a = length b →
  compare_loop (a ++ a') (b ++ b') =
  if compare_loop a b =? 0 then compare_loop a' b' else compare_loop a b.
Proof.
  revert b. induction a as [|x a IH]; intros [|y b] Hl; try done. cbn [app compare_loop].
  destruct (x <? y); [done|]. destruct (y <? x); [done|]. apply IH. cbn in Hl. lia.
Qed.

Lemma CompareTo_repr n a b x y :
  repr n a x → repr n b y → CompareTo a b = Z.sgn (x - y).
Proof.
  intros [<- Ha <-] [Hl Hb <-]. revert b Hl Hb.
  induction Ha as [|x a [? ?] Ha IH]; intros [|y b] Hl Hb; try done.
  apply Forall_cons in Hb as [[? ?] Hb]. cbn [length] in Hl.
  specialize (IH b ltac:(lia) Hb). unfold CompareTo in *. cbn [rev value].
  rewrite compare_loop_app, IH by (rewrite !length_rev; lia). cbn [compare_loop].
  destruct (Z.eqb_spec (Z.sgn (value a - value b)) 0); [|lia].
  assert (value a = value b) by lia.
  destruct (Z.ltb_spec x y); [lia|]. destruct (Z.ltb_spec y x); lia.
Qed.

Lemma compare_ops_repr n a b x y :
  repr n a x → repr n b y →
  op_lt a b = (x <? y) ∧ op_gt a b = (y <? x) ∧ op_le a b = (x <=? y) ∧
  op_ge a b = (y <=? x) ∧ op_eq a b = (x =? y).
Proof.
  intros Ha Hb. unfold op_lt, op_gt, op_le, op_ge, op_eq.
  rewrite (CompareTo_repr _ _ _ _ _ Ha Hb). split_and!; try lia.
  destruct (Z.eqb_spec x y) as [->|Hne].
  - by rewrite bool_decide_eq_true_2 by (by eapply repr_inj).
  - rewrite bool_decide_eq_false_2; [done|]. intros ->. apply Hne.
    by rewrite <- (repr_value _ _ _ Ha), <- (repr_value _ _ _ Hb).
Qed.

Lemma value_zero_iff a : limbs a → value a = 0 ↔ Forall (λ x, x = 0) a.
Proof.
  induction 1 as [|x a [? ?] Ha IH]; cbn [value]; [done|].
  rewrite Forall_cons, <- IH. pose proof (value_range a Ha). lia.
Qed.

Lemma IsNull_repr n a x : repr n a x → IsNull a = (x =? 0).
Proof.
  intros [_ Ha <-]. apply eq_iff_eq_true. unfold IsNull.
  rewrite Z.eqb_eq, value_zero_iff, forallb_forall, Forall_forall by done.
  setoid_rewrite Z.eqb_eq. by setoid_rewrite list_elem_of_In.
Qed.

Lemma EqualTo_repr n a x b :
  (2 <= n)%nat → in_uw 64 b → repr n a x → EqualTo a b = (x =? b).
Proof.
  intros Hn [? ?] [Hl Ha <-]. destruct a as [|x0 [|x1 a]]; cbn in Hl; try lia.
  apply Forall_cons in Ha as [[? ?] Ha]. apply Forall_cons in Ha as [[? ?] Ha].
  pose proof (value_range a Ha). pose proof (value_zero_iff a Ha) as Hz.
  change (EqualTo (x0 :: x1 :: a) b) with
    (if existsb (λ x, negb (x =? 0)) a then false
     else if negb (x1 =? Z.shiftr b 32) then false
     else if negb (x0 =? Z.land b 4294967295) then false else true).
  cbn [value]. rewrite shiftr_div, land_ffffffff by lia.
  destruct (existsb (λ x, negb (x =? 0)) a) eqn:E.
  - apply existsb_exists in E as (z & Hin & Hnz). symmetry. apply Z.eqb_neq. intros E'.
    assert (value a = 0) as Hv by lia. apply Hz in Hv. rewrite Forall_forall in Hv.
    apply list_elem_of_In, Hv in Hin. subst. done.
  - assert (value a = 0) as ->.
    { apply Hz, Forall_forall. intros z Hin%list_elem_of_In.
      destruct (Z.eqb_spec z 0); [done|]. exfalso. apply not_true_iff_false in E. apply E.
      apply existsb_exists. exists z. split; [done|]. by apply negb_true_iff, Z.eqb_neq. }
    destruct (Z.eqb_spec x1 (b / 2 ^ 32)); cbn [negb]; [|symmetry; apply Z.eqb_neq; divmod_lia].
    destruct (Z.eqb_spec x0 (b mod 2 ^ 32)); cbn [negb]; symmetry;
      [apply Z.eqb_eq|apply Z.eqb_neq]; divmod_lia.
Qed.

(** *** Bits *)

Lemma top_bit_spec x m :
  0 < x < 2 ^ (Z.of_nat m + 1) → top_bit x m = Z.log2 x + 1.
Proof.
  induction m as [|m IH]; intros Hx.
  { assert (x = 1) as -> by (cbn in Hx; lia). done. }
  cbn [top_bit]. rewrite shiftl_mul, Z.mul_1_l by lia.
  destruct (Z.eqb_spec (Z.land x (2 ^ Z.of_nat (S m))) 0) as [E|E]; cbn [negb].
  - apply IH. split; [lia|]. destruct (Z.lt_ge_cases x (2 ^ (Z.of_nat m + 1))) as [|Hge]; [done|].
    exfalso. assert (Z.testbit x (Z.of_nat (S m)) = true) as Hb.
    { rewrite Z.testbit_true by lia.
      replace (x / 2 ^ Z.of_nat (S m)) with 1; [done|].
      apply Z.div_unique with (r := x - 2 ^ Z.of_nat (S m)).
      - left. replace (Z.of_nat (S m)) with (Z.of_nat m + 1) by lia.
        replace (Z.of_nat (S m) + 1) with (Z.of_nat m + 1 + 1) in Hx by lia.
        rewrite Z.pow_add_r in Hx at 1 by lia. lia.
      - lia. }
    assert (Z.testbit (Z.land x (2 ^ Z.of_nat (S m))) (Z.of_nat (S m)) = true) as Ht.
    { by rewrite Z.land_spec, Hb, Z.pow2_bits_true by lia. }
    rewrite E, Z.bits_0 in Ht. done.
  - assert (Z.log2 x = Z.of_nat (S m)) as ->; [|done].
    apply Z.log2_unique; [lia|]. split.
    + destruct (Z.lt_ge_cases x (2 ^ Z.of_nat (S m))) as [Hlt|]; [|done].
      exfalso. apply E. apply Z.bits_inj'. intros i Hi.
      rewrite Z.land_spec, Z.bits_0, Z.pow2_bits_eqb by lia.
      destruct (Z.eqb_spec (Z.of_nat (S m)) i) as [<-|]; [|apply andb_false_r].
      rewrite andb_true_r. apply (testbit_high (Z.of_nat (S m))); [split; lia|lia..].
    + replace (Z.succ (Z.of_nat (S m))) with (Z.of_nat (S m) + 1) by lia. lia.
Qed.

Lemma bits_repr n a x : repr n a x → bits a = if x =? 0 then 0 else Z.log2 x + 1.
Proof.
  intros [_ Ha <-]. unfold bits. induction a as [|y a IH] using rev_ind; [done|].
  apply Forall_app in Ha as [Ha Hy]. apply Forall_inv in Hy as [? ?].
  rewrite rev_app_distr, value_app. cbn [rev app bits_loop value].
  rewrite Z.mul_0_r, Z.add_0_r. specialize (IH Ha).
  pose proof (value_range a Ha). pose proof (modulus_pos (length a)) as HM.
  destruct (Z.eqb_spec y 0) as [->|Hy]; cbn [negb].
  { by rewrite Z.mul_0_r, Z.add_0_r. }
  destruct (Z.eqb_spec (value a + modulus (length a) * y) 0); [nia|].
  rewrite length_rev, top_bit_spec by (cbn; lia).
  assert (Z.log2 (value a + modulus (length a) * y) = 32 * Z.of_nat (length a) + Z.log2 y)
    as ->; [|lia].
  pose proof (Z.log2_spec y ltac:(lia)) as [? ?]. pose proof (Z.log2_nonneg y).
  apply Z.log2_unique; [lia|]. rewrite <- Z.add_succ_r, !Z.pow_add_r by lia. nia.
Qed.

Lemma value_testbit a i :
  limbs a → 0 <= i → Z.testbit (value a) i = Z.testbit (getz a (i / 32)) (i mod 32).
Proof.
  intros Ha. revert i. induction Ha as [|x a Hx Ha IH]; intros i Hi.
  { unfold getz. destruct (Z.to_nat _); cbn [value nth]; by rewrite !Z.bits_0. }
  cbn [value]. destruct (Z.lt_ge_cases i 32) as [Hlt|Hge].
  - rewrite Z.div_small, Z.mod_small by lia. change (getz (x :: a) 0) with x.
    rewrite <- (Z.mod_pow2_bits_low _ 32) by lia.
    rewrite (Z.mul_comm (2 ^ 32)), Z.mod_add by lia. by rewrite Z.mod_small by apply Hx.
  - assert (Z.testbit (x + 2 ^ 32 * value a) i = Z.testbit (value a) (i - 32)) as ->.
    { replace (value a) with ((x + 2 ^ 32 * value a) / 2 ^ 32) at 2
        by (destruct Hx; divmod_lia).
      rewrite <- shiftr_div, Z.shiftr_spec by lia. f_equal. lia. }
    rewrite IH by lia. unfold getz.
    replace (i / 32) with (Z.succ ((i - 32) / 32)) by divmod_lia.
    replace (i mod 32) with ((i - 32) mod 32) by divmod_lia.
    rewrite Z2Nat.inj_succ by divmod_lia. done.
Qed.

(** An array is determined by the bits of the number. *)
Lemma repr_of_bits n r z :
  length r = n → limbs r → 0 <= z < modulus n →
  (∀ i, 0 <= i < 32 * Z.of_nat n →
     Z.testbit (getz r (i / 32)) (i mod 32) = Z.testbit z i) →
  repr n r z.
Proof.
  intros <- Hr Hz Hb. split; [done..|]. apply Z.bits_inj'. intros i Hi.
  rewrite value_testbit by done.
  destruct (Z.lt_ge_cases i (32 * Z.of_nat (length r))) as [Hlt|Hge]; [by apply Hb|].
  rewrite (testbit_high (32 * Z.of_nat (length r)) z) by (done || lia).
  unfold getz. rewrite nth_overflow by divmod_lia. apply Z.bits_0.
Qed.

(** What limb [j] of a shift holds once the limbs of [a] up to [m] are done. *)
Definition shl_limb (a : list Z) (k s m j : Z) : Z :=
  Z.lor (if (0 <=? j - k) && (j - k <? m) then u32 (Z.shiftl (getz a (j - k)) s) else 0)
    (if (0 <=? j - k - 1) && (j - k - 1 <? m) && negb (s =? 0)
     then Z.shiftr (getz a (j - k - 1)) (32 - s) else 0).

Definition shr_limb (a : list Z) (k s m j : Z) : Z :=
  Z.lor (if j + k <? m then Z.shiftr (getz a (j + k)) s else 0)
    (if (j + k + 1 <? m) && negb (s =? 0)
     then u32 (Z.shiftl (getz a (j + k + 1)) (32 - s)) else 0).

(** Decides the comparisons of a goal one by one. *)
Ltac zcases :=
  repeat match goal with
  | |- context [?a <? ?b] => destruct (Z.ltb_spec a b)
  | |- context [?a <=? ?b] => destruct (Z.leb_spec a b)
  | |- context [?a =? ?b] => destruct (Z.eqb_spec a b)
  end; cbn [andb orb negb]; try lia.

Lemma shl_loop_limbs a k s :
  0 <= k → 0 <= s < 32 →
  let r := foldl (shl_step a k s) (replicate (length a) 0) (seqZ 0 (Z.of_nat (length a))) in
  length r = length a ∧
  ∀ j, 0 <= j < Z.of_nat (length a) → getz r j = shl_limb a k s (Z.of_nat (length a)) j.
Proof.
  intros Hk Hs.
  apply (foldl_seqZ_inv (λ m r, length r = length a ∧
    ∀ j, 0 <= j < Z.of_nat (length a) → getz r j = shl_limb a k s m j)); [lia|..].
  - split; [apply length_replicate|]. intros j Hj. rewrite getz_replicate by done.
    unfold shl_limb. zcases; done.
  - intros i r Hi [Hl Hr]. unfold shl_step. cbv zeta.
    set (r1 := if _ && _ then _ else r).
    assert (length r1 = length a ∧ ∀ j, 0 <= j < Z.of_nat (length a) →
      getz r1 j = if (j =? i + k + 1) && negb (s =? 0)
                  then Z.lor (getz r j) (Z.shiftr (getz a i) (32 - s)) else getz r j) as [Hl1 Hr1].
    { subst r1. destruct (Z.ltb_spec (i + k + 1) (Z.of_nat (length a)));
        destruct (Z.eqb_spec s 0); cbn [andb negb]; (split; [by rewrite ?length_setz|]);
        intros j Hj; rewrite ?andb_false_r, ?andb_true_r; try done.
      - rewrite getz_setz by lia. destruct (Z.eqb_spec j (i + k + 1)) as [->|]; done.
      - destruct (Z.eqb_spec j (i + k + 1)); [lia|done]. }
    clearbody r1. split; [destruct (_ <? _); by rewrite ?length_setz|]. intros j Hj.
    destruct (Z.ltb_spec (i + k) (Z.of_nat (length a))) as [Hik|Hik].
    + rewrite getz_setz by lia. rewrite !Hr1, !Hr by lia.
      destruct (Z.eqb_spec j (i + k)) as [->|Hne].
      * unfold shl_limb. replace (i + k - k) with i by lia.
        zcases; rewrite ?Z.lor_0_r, ?Z.lor_0_l; first [done | apply Z.lor_comm].
      * destruct (Z.eqb_spec j (i + k + 1)) as [->|Hne'].
        -- unfold shl_limb. replace (i + k + 1 - k - 1) with i by lia.
           zcases; rewrite ?Z.lor_0_r, ?Z.lor_0_l; done.
        -- unfold shl_limb. zcases; done.
    + rewrite Hr1, Hr by lia. unfold shl_limb. zcases; done.
Qed.

Lemma shr_loop_limbs a k s :
  0 <= k → 0 <= s < 32 →
  let r := foldl (shr_step a k s) (replicate (length a) 0) (seqZ 0 (Z.of_nat (length a))) in
  length r = length a ∧
  ∀ j, 0 <= j < Z.of_nat (length a) → getz r j = shr_limb a k s (Z.of_nat (length a)) j.
Proof.
  intros Hk Hs.
  apply (foldl_seqZ_inv (λ m r, length r = length a ∧
    ∀ j, 0 <= j < Z.of_nat (length a) → getz r j = shr_limb a k s m j)); [lia|..].
  - split; [apply length_replicate|]. intros j Hj. rewrite getz_replicate by done.
    unfold shr_limb. zcases; done.
  - intros i r Hi [Hl Hr]. unfold shr_step. cbv zeta.
    set (r1 := if _ && _ then _ else r).
    assert (length r1 = length a ∧ ∀ j, 0 <= j < Z.of_nat (length a) →
      getz r1 j = if (j =? i - k - 1) && negb (s =? 0)
                  then Z.lor (getz r j) (u32 (Z.shiftl (getz a i) (32 - s))) else getz r j)
      as [Hl1 Hr1].
    { subst r1. destruct (Z.leb_spec 0 (i - k - 1));
        destruct (Z.eqb_spec s 0); cbn [andb negb]; (split; [by rewrite ?length_setz|]);
        intros j Hj; rewrite ?andb_false_r, ?andb_true_r; try done.
      - rewrite getz_setz by lia. destruct (Z.eqb_spec j (i - k - 1)) as [->|]; done.
      - destruct (Z.eqb_spec j (i - k - 1)); [lia|done]. }
    clearbody r1. split; [destruct (_ <=? _); by rewrite ?length_setz|]. intros j Hj.
    destruct (Z.leb_spec 0 (i - k)) as [Hik|Hik].
    + rewrite getz_setz by lia. rewrite !Hr1, !Hr by lia.
      destruct (Z.eqb_spec j (i - k)) as [->|Hne].
      * unfold shr_limb. replace (i - k + k) with i by lia.
        zcases; rewrite ?Z.lor_0_r, ?Z.lor_0_l; done.
      * destruct (Z.eqb_spec j (i - k - 1)) as [->|Hne'].
        -- unfold shr_limb. replace (i - k - 1 + k + 1) with i by lia.
           zcases; rewrite ?Z.lor_0_r, ?Z.lor_0_l; done.
        -- unfold shr_limb. zcases; done.
    + rewrite Hr1, Hr by lia. unfold shr_limb. zcases; done.
Qed.

(** The bits of limb arithmetic: [32 j + r] with [0 <= r < 32]. *)
Lemma limb_index i : 0 <= i → i = 32 * (i / 32) + i mod 32 ∧ 0 <= i mod 32 < 32 ∧ 0 <= i / 32.
Proof. intros. divmod_lia. Qed.

Lemma value_testbit_at a q t :
  limbs a → 0 <= q → 0 <= t < 32 → Z.testbit (value a) (32 * q + t) = Z.testbit (getz a q) t.
Proof.
  intros Ha Hq Ht. rewrite value_testbit by (done || lia). f_equal; [f_equal|]; divmod_lia.
Qed.

Lemma shl_limb_range a k s j :
  0 <= s < 32 → limbs a → j < Z.of_nat (length a) → 0 <= k →
  in_uw 32 (shl_limb a k s (Z.of_nat (length a)) j).
Proof.
  intros Hs Ha Hj Hk. unfold shl_limb.
  assert (∀ x, 0 <= x < Z.of_nat (length a) → in_uw 32 (getz a x)) as Hg
    by (intros; by apply (getz_Forall (in_uw 32))).
  apply in_uw_bits; [lia|..].
  - apply Z.lor_nonneg. split; (destruct (_ && _) eqn:E; [|done]).
    + by apply wrap_range.
    + apply Z.shiftr_nonneg, Hg. lia.
  - intros i Hi. rewrite Z.lor_spec. apply orb_false_iff. split;
      (destruct (_ && _) eqn:E; [|apply Z.bits_0]).
    + rewrite testbit_wrap by lia. zcases.
    + rewrite Z.shiftr_spec by lia. apply (testbit_high 32); [apply Hg; lia|lia..].
Qed.

Lemma shr_limb_range a k s j :
  0 <= s < 32 → limbs a → 0 <= j → 0 <= k →
  in_uw 32 (shr_limb a k s (Z.of_nat (length a)) j).
Proof.
  intros Hs Ha Hj Hk. unfold shr_limb.
  assert (∀ x, 0 <= x < Z.of_nat (length a) → in_uw 32 (getz a x)) as Hg
    by (intros; by apply (getz_Forall (in_uw 32))).
  apply in_uw_bits; [lia|..].
  - apply Z.lor_nonneg. split.
    + destruct (_ <? _) eqn:E; [|lia]. apply Z.shiftr_nonneg, Hg. lia.
    + destruct (_ && _); [|lia]. by apply wrap_range.
  - intros i Hi. rewrite Z.lor_spec. apply orb_false_iff. split.
    + destruct (_ <? _) eqn:E; [|apply Z.bits_0].
      rewrite Z.shiftr_spec by lia. apply (testbit_high 32); [apply Hg; lia|lia..].
    + destruct (_ && _); [|apply Z.bits_0]. rewrite testbit_wrap by lia. zcases.
Qed.

Lemma op_shl_repr n a x shift :
  0 <= shift → repr n a x → repr n (op_shl a shift) (Z.shiftl x shift mod modulus n).
Proof.
  intros Hsh [<- Ha <-]. unfold op_shl.
  destruct (limb_index shift Hsh) as (Es & Hs & Hk).
  set (k := shift / 32) in *. set (s := shift mod 32) in *. clearbody k s. subst shift.
  destruct (shl_loop_limbs a k s Hk Hs) as [Hl Hr]. set (r := foldl _ _ _) in *. clearbody r.
  pose proof (modulus_pos (length a)).
  apply repr_of_bits; [done| |by apply Z.mod_pos_bound|].
  { apply Forall_getz. intros i Hi. rewrite Hl in Hi. rewrite Hr by done.
    apply shl_limb_range; (done || lia). }
  intros i Hi. rewrite Z.mod_pow2_bits_low, Z.shiftl_spec by lia.
  destruct (limb_index i ltac:(lia)) as (Ei & Ht & Hj).
  set (j := i / 32) in *. set (t := i mod 32) in *. clearbody j t. subst i.
  rewrite Hr by lia. unfold shl_limb. rewrite Z.lor_spec.
  destruct (Z.le_gt_cases s t) as [Hst|Hst].
  - replace (32 * j + t - (32 * k + s)) with (32 * (j - k) + (t - s)) by lia.
    replace (Z.testbit (if _ && _ && _ then _ else _) t) with false.
    2:{ destruct (_ && _ && _) eqn:E; [|by rewrite Z.bits_0]. rewrite Z.shiftr_spec by lia.
        symmetry. apply (testbit_high 32); [|lia..].
        apply (getz_Forall (in_uw 32)); [done|lia]. }
    rewrite orb_false_r. zcases.
    + rewrite testbit_wrap, Z.shiftl_spec by lia. zcases. by rewrite value_testbit_at by (done || lia).
    + by rewrite Z.bits_0, Z.testbit_neg_r by lia.
  - replace (32 * j + t - (32 * k + s)) with (32 * (j - k - 1) + (t - s + 32)) by lia.
    replace (Z.testbit (if (0 <=? j - k) && _ then _ else _) t) with false.
    2:{ destruct (_ && _); [|by rewrite Z.bits_0]. rewrite testbit_wrap, Z.shiftl_spec by lia.
        by rewrite Z.testbit_neg_r, andb_false_r by lia. }
    rewrite orb_false_l. zcases.
    + rewrite Z.shiftr_spec, value_testbit_at by (done || lia). f_equal. lia.
    + by rewrite Z.bits_0, Z.testbit_neg_r by lia.
Qed.

Lemma op_shr_repr n a x shift :
  0 <= shift → repr n a x → repr n (op_shr a shift) (Z.shiftr x shift).
Proof.
  intros Hsh [<- Ha <-]. unfold op_shr.
  destruct (limb_index shift Hsh) as (Es & Hs & Hk).
  set (k := shift / 32) in *. set (s := shift mod 32) in *. clearbody k s. subst shift.
  destruct (shr_loop_limbs a k s Hk Hs) as [Hl Hr]. set (r := foldl _ _ _) in *. clearbody r.
  pose proof (value_range a Ha) as HV.
  apply repr_of_bits; [done| | |].
  { apply Forall_getz. intros i Hi. rewrite Hl in Hi. rewrite Hr by done.
    apply shr_limb_range; (done || lia). }
  { rewrite shiftr_div by lia. split; [apply Z.div_pos; lia|].
    apply Z.div_lt_upper_bound; [lia|]. assert (0 < 2 ^ (32 * k + s)) by lia. nia. }
  intros i Hi. rewrite Z.shiftr_spec by lia.
  destruct (limb_index i ltac:(lia)) as (Ei & Ht & Hj).
  set (j := i / 32) in *. set (t := i mod 32) in *. clearbody j t. subst i.
  rewrite Hr by lia. unfold shr_limb. rewrite Z.lor_spec.
  assert (∀ x, 0 <= x < Z.of_nat (length a) → in_uw 32 (getz a x)) as Hg
    by (intros; by apply (getz_Forall (in_uw 32))).
  assert (∀ q u, 0 <= q → 0 <= u < 32 → Z.of_nat (length a) <= q →
    Z.testbit (value a) (32 * q + u) = false) as Hout.
  { intros. apply (testbit_high (32 * Z.of_nat (length a))); (done || lia). }
  destruct (Z.le_gt_cases 32 (t + s)) as [Hst|Hst].
  - replace (32 * j + t + (32 * k + s)) with (32 * (j + k + 1) + (t + s - 32)) by lia.
    replace (Z.testbit (if j + k <? _ then _ else _) t) with false.
    2:{ destruct (_ <? _) eqn:E; [|by rewrite Z.bits_0]. rewrite Z.shiftr_spec by lia.
        symmetry. apply (testbit_high 32); [apply Hg; lia|lia..]. }
    rewrite orb_false_l. zcases.
    + rewrite testbit_wrap, Z.shiftl_spec, value_testbit_at by (done || lia). zcases. f_equal. lia.
    + rewrite Z.bits_0, Hout by lia. done.
  - replace (32 * j + t + (32 * k + s)) with (32 * (j + k) + (t + s)) by lia.
    replace (Z.testbit (if _ && _ then _ else _) t) with false.
    2:{ destruct (_ && _) eqn:E; [|by rewrite Z.bits_0].
        rewrite testbit_wrap, Z.shiftl_spec by lia.
        by rewrite Z.testbit_neg_r, andb_false_r by lia. }
    rewrite orb_false_r. zcases.
    + by rewrite Z.shiftr_spec, value_testbit_at by (done || lia).
    + rewrite Z.bits_0, Hout by lia. done.
Qed.

(** *** Division *)

Lemma set_bit_repr n q Q s :
  repr n q Q → 0 <= s < 32 * Z.of_nat n →
  repr n (setz q (s / 32) (Z.lor (getz q (s / 32)) (u32 (Z.shiftl 1 (Z.land s 31)))))
    (Z.lor Q (2 ^ s)).
Proof.
  intros Hq Hs. pose proof (repr_range _ _ _ Hq) as HQ. destruct Hq as [<- Hl <-].
  change 31 with (Z.ones 5). rewrite Z.land_ones by lia. change (2 ^ 5) with 32.
  destruct (limb_index s ltac:(lia)) as (Es & Ht & Hj).
  set (j := s / 32) in *. set (t := s mod 32) in *. clearbody j t.
  assert (u32 (Z.shiftl 1 t) = 2 ^ t) as ->.
  { rewrite shiftl_mul, Z.mul_1_l by lia. apply wrap_small. split; [lia|].
    apply Z.pow_lt_mono_r; lia. }
  assert (in_uw 32 (getz q j)) by (apply (getz_Forall (in_uw 32)); [done|lia]).
  apply repr_of_bits; [by rewrite length_setz| | |].
  - apply Forall_getz. rewrite length_setz. intros i Hi. rewrite getz_setz by lia.
    destruct (Z.eqb_spec i j); [|by apply (getz_Forall (in_uw 32))].
    apply in_uw_bits; [lia|apply Z.lor_nonneg; split; [|lia]; unfold in_uw in *; lia|].
    intros i' Hi'. rewrite Z.lor_spec, (testbit_high 32) by (done || lia).
    rewrite Z.pow2_bits_false by lia. done.
  - apply in_uw_bits; [lia|apply Z.lor_nonneg; lia|].
    intros i Hi. rewrite Z.lor_spec, (testbit_high (32 * Z.of_nat (length q))) by (done || lia).
    rewrite Z.pow2_bits_false by lia. done.
  - intros i Hi. destruct (limb_index i ltac:(lia)) as (Ei & Ht' & Hj').
    rewrite Z.lor_spec, getz_setz, value_testbit by (done || lia).
    set (j' := i / 32) in *. set (t' := i mod 32) in *. clearbody j' t'.
    rewrite Z.pow2_bits_eqb by lia. destruct (Z.eqb_spec j' j) as [->|Hne].
    + rewrite Z.lor_spec, Z.pow2_bits_eqb by lia. f_equal. zcases.
    + zcases. by rewrite orb_false_r.
Qed.

(** One turn of the division loop: it takes off [c] times the divisor. *)
Lemma div_step_repr n (D : Z) (s : Z) q num div Q N :
  0 < D → 0 <= s < 32 * Z.of_nat n →
  repr n q Q → repr n num N → repr n div (D * 2 ^ s) →
  N < D * 2 ^ (s + 1) → Q mod 2 ^ (s + 1) = 0 →
  let st := if op_ge num div
            then (setz q (s / 32) (Z.lor (getz q (s / 32)) (u32 (Z.shiftl 1 (Z.land s 31)))),
                  op_sub num div)
            else (q, num) in
  ∃ c, repr n (fst st) (Q + c * 2 ^ s) ∧ repr n (snd st) (N - c * (D * 2 ^ s)) ∧
       0 <= N - c * (D * 2 ^ s) < D * 2 ^ s.
Proof.
  intros HD Hs Hq Hn Hd HN HQ.
  pose proof (repr_range _ _ _ Hn). pose proof (repr_range _ _ _ Hq).
  assert (0 < 2 ^ s) by (apply Z.pow_pos_nonneg; lia).
  destruct (compare_ops_repr _ _ _ _ _ Hn Hd) as (_ & _ & _ & -> & _).
  assert (Z.lor Q (2 ^ s) = Q + 2 ^ s) as Hor.
  { apply (lor_add _ _ (s + 1)); [lia| |done]. rewrite Z.pow_add_r by lia. lia. }
  rewrite Z.pow_add_r in HN by lia.
  destruct (Z.leb_spec (D * 2 ^ s) N) as [Hge|Hlt]; cbn [fst snd].
  - exists 1. rewrite !Z.mul_1_l, <- Hor. split_and!; [by apply set_bit_repr| |lia|lia].
    pose proof (op_sub_repr _ _ _ _ _ Hn Hd) as Hn'. rewrite Z.mod_small in Hn' by lia. done.
  - exists 0. rewrite !Z.mul_0_l, Z.add_0_r, Z.sub_0_r. split_and!; (done || lia).
Qed.

Lemma div_loop_repr n (D : Z) s q num div Q N :
  0 < D → Z.of_nat s < 32 * Z.of_nat n →
  repr n q Q → repr n num N → repr n div (D * 2 ^ Z.of_nat s) →
  N < D * 2 ^ (Z.of_nat s + 1) → Q mod 2 ^ (Z.of_nat s + 1) = 0 →
  repr n (fst (div_loop s q num div)) (Q + N / D) ∧
  repr n (snd (div_loop s q num div)) (N mod D).
Proof.
  intros HD. revert q num div Q N. induction s as [|s IH]; intros q num div Q N Hs Hq Hn Hd HN HQ;
    cbn [div_loop];
    destruct (div_step_repr n D _ q num div Q N HD (conj (Nat2Z.is_nonneg _) Hs) Hq Hn Hd HN HQ)
      as (c & Hq' & Hn' & HN'); destruct (if op_ge num div then _ else _) as [q' num'];
    cbn [fst snd] in *.
  - change (2 ^ Z.of_nat 0) with 1 in *. rewrite !Z.mul_1_r in *.
    assert (c = N / D) as <- by (apply Z.div_unique with (N - c * D); lia).
    replace (N mod D) with (N - c * D) by (apply Z.mod_unique with c; lia). done.
  - rewrite Nat2Z.inj_succ, <- Z.add_1_r in *.
    set (p := 2 ^ Z.of_nat s) in *. assert (0 < p) by (apply Z.pow_pos_nonneg; lia).
    rewrite !Z.pow_add_r in * by lia. fold p in Hq', Hn', HN', HQ, HN, Hd, IH |- *.
    change (2 ^ 1) with 2 in *.
    apply (op_shr_repr _ _ _ 1) in Hd; [|lia]. rewrite shiftr_div in Hd by lia.
    replace (D * (p * 2) / 2 ^ 1) with (D * p) in Hd by (rewrite Z.mul_assoc, Z.div_mul; lia).
    destruct (IH q' num' (op_shr div 1) (Q + c * (p * 2)) (N - c * (D * (p * 2))))
      as [H1 H2]; [lia|done..|lia| |].
    { rewrite Z.mod_add by lia. apply Z.mod_divide in HQ; [|lia].
      apply Z.mod_divide; [lia|]. destruct HQ as [u ->]. exists (u * 2). lia. }
    replace (N - c * (D * (p * 2))) with (N + - (c * (p * 2)) * D) in H1, H2 by lia.
    rewrite Z.div_add, Z.mod_add in * by lia. split; [|done].
    replace (Q + N / D) with (Q + c * (p * 2) + (N / D + - (c * (p * 2)))) by lia. done.
Qed.

Lemma op_div_zero a b n : repr n b 0 → op_div a b = Throw DivisionByZero.
Proof. intros Hb. unfold op_div. by rewrite (bits_repr _ _ _ Hb). Qed.

Lemma op_div_repr n a b x y :
  (2 <= n)%nat → repr n a x → repr n b y → y <> 0 →
  ∃ q, op_div a b = Ok q ∧ repr n q (x / y).
Proof.
  intros Hn Ha Hb Hy.
  pose proof (repr_range _ _ _ Ha). pose proof (repr_range _ _ _ Hb).
  unfold op_div. rewrite (bits_repr _ _ _ Ha), (bits_repr _ _ _ Hb).
  rewrite (repr_length _ _ _ Ha). pose proof (of_u64_repr n 0 Hn ltac:(unfold in_uw; lia)) as Hz.
  pose proof (Z.log2_nonneg y). pose proof (Z.log2_nonneg x).
  pose proof (Z.log2_spec y ltac:(lia)) as [Hy1 Hy2].
  destruct (Z.eqb_spec y 0); [done|]. destruct (Z.eqb_spec (Z.log2 y + 1) 0); [lia|].
  destruct (Z.ltb_spec (if x =? 0 then 0 else Z.log2 x + 1) (Z.log2 y + 1)) as [Hlt|Hge].
  - exists (of_u64 n 0). split; [done|]. rewrite Z.div_small; [done|]. split; [lia|].
    destruct (Z.eqb_spec x 0); [lia|]. apply Z.log2_lt_cancel. lia.
  - destruct (Z.eqb_spec x 0) as [->|Hx]; [lia|].
    pose proof (Z.log2_spec x ltac:(lia)) as [Hx1 Hx2].
    assert (Z.log2 x < 32 * Z.of_nat n) by (apply Z.log2_lt_pow2; lia).
    replace (Z.log2 x + 1 - (Z.log2 y + 1)) with (Z.log2 x - Z.log2 y) by lia.
    set (s := Z.log2 x - Z.log2 y).
    assert (0 <= s) by lia. eexists. split; [done|].
    assert (2 ^ Z.succ (Z.log2 y) * 2 ^ s = 2 ^ Z.succ (Z.log2 x)) as E1
      by (rewrite <- Z.pow_add_r by lia; f_equal; lia).
    assert (2 ^ Z.log2 y * 2 ^ (s + 1) = 2 ^ Z.succ (Z.log2 x)) as E2
      by (rewrite <- Z.pow_add_r by lia; f_equal; lia).
    assert (2 ^ Z.succ (Z.log2 x) <= modulus n) by (apply Z.pow_le_mono_r; lia).
    assert (0 < 2 ^ s) by (apply Z.pow_pos_nonneg; lia).
    assert (0 < 2 ^ (s + 1)) by (apply Z.pow_pos_nonneg; lia).
    pose proof (op_shl_repr _ _ _ s ltac:(lia) Hb) as Hd.
    rewrite shiftl_mul, Z.mod_small in Hd by nia.
    destruct (div_loop_repr n y (Z.to_nat s) (of_u64 n 0) a (op_shl b s) 0 x)
      as [Hq _]; rewrite ?Z2Nat.id by lia; try done; try lia; nia.
Qed.

(** *** The compact form *)

Lemma getz_cons0 x l : getz (x :: l) 0 = x.
Proof. done. Qed.
Lemma getz_cons1 x y l : getz (x :: y :: l) 1 = y.
Proof. done. Qed.

Lemma GetLow64_repr n a x : (2 <= n)%nat → repr n a x → GetLow64 a = x mod 2 ^ 64.
Proof.
  intros Hn [Hl Ha <-]. destruct a as [|x0 [|x1 a]]; cbn [length] in Hl; try lia.
  apply Forall_cons in Ha as [[? ?] Ha]. apply Forall_cons in Ha as [[? ?] Ha].
  unfold GetLow64, Get64. cbn [Z.mul Z.add].
  rewrite getz_cons0, getz_cons1, shiftl_mul by lia.
  rewrite wrap_small by (unfold in_uw; lia).
  rewrite Z.lor_comm, (lor_add _ _ 32) by (lia || (apply Z.mod_mul; lia)).
  cbn [value]. change (2 ^ 64) with (2 ^ 32 * 2 ^ 32). divmod_lia.
Qed.

(** The number of bits and of bytes of [x]. *)
Definition bitlen (x : Z) : Z := if x =? 0 then 0 else Z.log2 x + 1.
Definition bytelen (x : Z) : Z := (bitlen x + 7) / 8.

Lemma bitlen_range x : 0 <= x → 0 <= bitlen x ∧ x < 2 ^ bitlen x.
Proof.
  intros Hx. unfold bitlen. destruct (Z.eqb_spec x 0) as [->|]; [done|].
  pose proof (Z.log2_nonneg x). pose proof (Z.log2_spec x ltac:(lia)) as [? ?].
  rewrite <- Z.add_1_r in *. lia.
Qed.

Lemma bitlen_le x n : 0 <= n → 0 <= x < 2 ^ n → bitlen x <= n.
Proof.
  intros Hn Hx. unfold bitlen. destruct (Z.eqb_spec x 0); [lia|].
  assert (Z.log2 x < n) by (apply Z.log2_lt_pow2; lia). lia.
Qed.

Lemma bitlen_ge x n : 0 <= n → 2 ^ n <= x → n < bitlen x.
Proof.
  intros Hn Hx. unfold bitlen. assert (0 < 2 ^ n) by (apply Z.pow_pos_nonneg; lia).
  destruct (Z.eqb_spec x 0); [lia|].
  assert (n <= Z.log2 x) by (apply Z.log2_le_pow2; lia). lia.
Qed.

(** The three leading bytes of [x]. *)
Definition mantissa (x : Z) : Z :=
  if bytelen x <=? 3 then x * 2 ^ (8 * (3 - bytelen x)) else x / 2 ^ (8 * (bytelen x - 3)).

Lemma mantissa_range x : 0 <= x → 0 <= mantissa x < 2 ^ 24.
Proof.
  intros Hx. destruct (bitlen_range x Hx) as [? Hb]. unfold mantissa.
  assert (0 <= bytelen x) by (unfold bytelen; divmod_lia).
  assert (x < 2 ^ (8 * bytelen x)) as Hx8.
  { eapply Z.lt_le_trans; [apply Hb|]. apply Z.pow_le_mono_r; [lia|]. unfold bytelen. divmod_lia. }
  destruct (Z.leb_spec (bytelen x) 3).
  - split; [lia|]. replace (2 ^ 24) with (2 ^ (8 * bytelen x) * 2 ^ (8 * (3 - bytelen x))).
    + apply Z.mul_lt_mono_pos_r; [lia|done].
    + rewrite <- Z.pow_add_r by lia. f_equal. lia.
  - split; [apply Z.div_pos; lia|]. apply Z.div_lt_upper_bound; [lia|].
    rewrite <- Z.pow_add_r by lia. replace (8 * (bytelen x - 3) + 24) with (8 * bytelen x) by lia.
    done.
Qed.

(** The mathematical content of [GetCompact]. *)
Definition compact_of (x : Z) : Z :=
  if mantissa x <? 2 ^ 23 then mantissa x + bytelen x * 2 ^ 24
  else mantissa x / 2 ^ 8 + (bytelen x + 1) * 2 ^ 24.

Lemma bytelen_bound n x : 0 <= x < 2 ^ (8 * Z.of_nat n) → 0 <= bytelen x <= Z.of_nat n.
Proof.
  intros Hx. pose proof (bitlen_range x ltac:(lia)).
  pose proof (bitlen_le x (8 * Z.of_nat n) ltac:(lia) Hx). unfold bytelen. divmod_lia.
Qed.

Lemma GetCompact_mantissa a x :
  repr 8 a x →
  (if bytelen x <=? 3 then u32 (u64 (Z.shiftl (GetLow64 a) (8 * (3 - bytelen x))))
   else u32 (GetLow64 (op_shr a (8 * (bytelen x - 3))))) = mantissa x.
Proof.
  intros Ha. pose proof (repr_range _ _ _ Ha) as [Hx _].
  pose proof (mantissa_range x Hx) as HM. unfold mantissa in *.
  assert (0 <= bytelen x) by (pose proof (bitlen_range x Hx); unfold bytelen; divmod_lia).
  destruct (Z.leb_spec (bytelen x) 3).
  - assert (0 < 2 ^ (8 * (3 - bytelen x))) by (apply Z.pow_pos_nonneg; lia).
    rewrite (GetLow64_repr 8 _ x), shiftl_mul by (done || lia).
    rewrite (Z.mod_small x) by nia.
    rewrite (wrap_small 64), wrap_small by (unfold in_uw; lia). done.
  - pose proof (op_shr_repr _ _ _ (8 * (bytelen x - 3)) ltac:(lia) Ha) as Hs.
    rewrite (GetLow64_repr 8 _ _ ltac:(lia) Hs), shiftr_div by lia.
    rewrite (Z.mod_small _ (2 ^ 64)), wrap_small by (unfold in_uw; lia). done.
Qed.

Lemma GetCompact_repr a x : repr 8 a x → GetCompact a false = Some (compact_of x).
Proof.
  intros Ha. pose proof (repr_range _ _ _ Ha) as Hx.
  unfold GetCompact. rewrite (bits_repr _ _ _ Ha). fold (bitlen x). fold (bytelen x).
  rewrite (GetCompact_mantissa a x Ha).
  pose proof (mantissa_range x ltac:(lia)) as HM.
  pose proof (bytelen_bound 32 x Hx) as HB.
  change 8388608 with (2 ^ 23). rewrite land_top_zero by lia. unfold compact_of.
  change (u32 (Z.lnot 8388607)) with 4286578688.
  destruct (Z.ltb_spec (mantissa x) (2 ^ 23)); cbn [negb].
  - rewrite (land_high_zero _ _ 23) by (lia || done). cbn [Z.eqb negb].
    destruct (Z.ltb_spec (bytelen x) 256); [cbn [negb]|lia].
    rewrite shiftl_mul, wrap_small, Z.lor_0_r by (unfold in_uw; lia).
    rewrite Z.lor_comm, (lor_add _ _ 24) by (lia || (apply Z.mod_mul; lia)). f_equal. lia.
  - rewrite shiftr_div by lia.
    rewrite (land_high_zero _ _ 23) by (lia || done || divmod_lia). cbn [Z.eqb negb].
    destruct (Z.ltb_spec (bytelen x + 1) 256); [cbn [negb]|lia].
    rewrite shiftl_mul, wrap_small, Z.lor_0_r by (unfold in_uw; lia).
    rewrite Z.lor_comm, (lor_add _ _ 24) by (lia || (apply Z.mod_mul; lia) || divmod_lia).
    f_equal. lia.
Qed.

(** The number a compact form stands for, not reduced to 256 bits. *)
Definition compact_value (c : Z) : Z :=
  let e := c / 2 ^ 24 in
  let m := c mod 2 ^ 23 in
  if e <=? 3 then m / 2 ^ (8 * (3 - e)) else m * 2 ^ (8 * (e - 3)).

(** Its sign bit counts when the shifted mantissa is not zero. *)
Definition compact_negative (c : Z) : bool :=
  negb (compact_value c =? 0) && Z.testbit c 23.

Lemma mul_pow_ge_iff m e k :
  0 <= m < 2 ^ 23 → 3 < e → 0 <= k → k = 256 - 8 * (e - 3) →
  (2 ^ 256 <= m * 2 ^ (8 * (e - 3)) ↔ 2 ^ k <= m).
Proof.
  intros Hm He Hk ->. replace (2 ^ 256) with (2 ^ (256 - 8 * (e - 3)) * 2 ^ (8 * (e - 3)))
    by (rewrite <- Z.pow_add_r by lia; f_equal; lia).
  assert (0 < 2 ^ (8 * (e - 3))) by (apply Z.pow_pos_nonneg; lia). nia.
Qed.

Lemma overflow_spec m e :
  0 <= m < 2 ^ 23 → 3 < e →
  negb (m =? 0) && ((34 <? e) || ((255 <? m) && (33 <? e)) || ((65535 <? m) && (32 <? e)))
  = (2 ^ 256 <=? m * 2 ^ (8 * (e - 3))).
Proof.
  intros Hm He. apply eq_iff_eq_true. rewrite Z.leb_le.
  destruct (Z.lt_ge_cases 34 e) as [Hbig|Hsmall].
  - replace (2 ^ (8 * (e - 3))) with (2 ^ 256 * 2 ^ (8 * (e - 3) - 256))
      by (rewrite <- Z.pow_add_r by lia; f_equal; lia).
    assert (0 < 2 ^ (8 * (e - 3) - 256)) by (apply Z.pow_pos_nonneg; lia).
    destruct (Z.eqb_spec m 0) as [->|]; cbn [negb andb]; [split; [done|]; lia|].
    destruct (Z.ltb_spec 34 e); [|lia]. split; [intros _|done].
    rewrite (Z.mul_comm (2 ^ 256)), Z.mul_assoc.
    assert (0 < m * 2 ^ (8 * (e - 3) - 256)) by (apply Z.mul_pos_pos; lia). lia.
  - rewrite (mul_pow_ge_iff m e (256 - 8 * (e - 3)) Hm He) by lia.
    assert (e = 34 ∨ e = 33 ∨ e <= 32) as [->|[->|Hle]] by lia.
    + cbn [Z.sub Z.mul]. change (2 ^ (256 - 8 * (34 - 3))) with 256. zcases; split; (done || lia).
    + change (2 ^ (256 - 8 * (33 - 3))) with 65536. zcases; split; (done || lia).
    + assert (2 ^ 24 <= 2 ^ (256 - 8 * (e - 3))) by (apply Z.pow_le_mono_r; lia).
      zcases; split; (done || lia).
Qed.

Lemma SetCompact_repr c :
  is_u32 c →
  ∃ a, SetCompact c = (a, compact_negative c, 2 ^ 256 <=? compact_value c) ∧
       repr 8 a (compact_value c mod 2 ^ 256).
Proof.
  intros [Hc1 Hc2]. unfold SetCompact, compact_negative, compact_value.
  rewrite shiftr_div by lia. change 8388607 with (Z.ones 23). rewrite Z.land_ones by lia.
  set (e := c / 2 ^ 24). set (m := c mod 2 ^ 23).
  assert (0 <= m < 2 ^ 23) by (apply Z.mod_pos_bound; lia).
  assert (0 <= e < 256) by (subst e; split; [apply Z.div_pos|apply Z.div_lt_upper_bound]; lia).
  assert ((Z.land c 8388608 =? 0) = negb (Z.testbit c 23)) as ->.
  { change 8388608 with (2 ^ 23). rewrite land_pow2 by lia. by destruct (Z.testbit c 23). }
  rewrite negb_involutive. destruct (Z.leb_spec e 3).
  - rewrite shiftr_div by lia. assert (0 < 2 ^ (8 * (3 - e))) by (apply Z.pow_pos_nonneg; lia).
    assert (0 <= m / 2 ^ (8 * (3 - e)) < 2 ^ 23).
    { split; [by apply Z.div_pos; lia|]. apply Z.div_lt_upper_bound; nia. }
    eexists. split.
    + apply (f_equal2 pair); [done|]. zcases; rewrite ?andb_false_r; lia.
    + rewrite Z.mod_small by lia. apply of_u64_repr; [lia|unfold in_uw; lia].
  - eexists. split.
    + apply (f_equal2 pair).
      * do 2 f_equal. assert (0 < 2 ^ (8 * (e - 3))) by (apply Z.pow_pos_nonneg; lia).
        destruct (Z.eqb_spec m 0) as [->|]; [done|].
        destruct (Z.eqb_spec (m * 2 ^ (8 * (e - 3))) 0); [nia|done].
      * by apply overflow_spec.
    + rewrite <- shiftl_mul by lia. apply op_shl_repr; [lia|].
      apply of_u64_repr; [lia|unfold in_uw; lia].
Qed.

(** How many low bits [GetCompact] drops. *)
Definition compact_drop (x : Z) : Z :=
  Z.max 0 (if mantissa x <? 2 ^ 23 then 8 * (bytelen x - 3) else 8 * (bytelen x - 2)).

Lemma compact_value_of x n :
  0 <= x < 2 ^ (8 * n) → 0 <= n <= 254 →
  is_u32 (compact_of x) ∧ Z.testbit (compact_of x) 23 = false ∧
  compact_value (compact_of x) = x / 2 ^ compact_drop x * 2 ^ compact_drop x.
Proof.
  intros Hx Hn. pose proof (mantissa_range x ltac:(lia)) as HM.
  pose proof (bytelen_bound (Z.to_nat n) x ltac:(rewrite Z2Nat.id; lia)) as HB.
  rewrite Z2Nat.id in HB by lia.
  assert (∀ m e, 0 <= m < 2 ^ 23 → 0 <= e <= 255 →
    is_u32 (m + e * 2 ^ 24) ∧ Z.testbit (m + e * 2 ^ 24) 23 = false ∧
    (m + e * 2 ^ 24) / 2 ^ 24 = e ∧ (m + e * 2 ^ 24) mod 2 ^ 23 = m) as Hme.
  { intros m e ? ?. split_and!.
    - unfold in_uw. lia.
    - rewrite <- (Z.mod_pow2_bits_low _ 24), Z.mod_add, Z.mod_small by lia.
      apply (testbit_high 23); [done|lia..].
    - rewrite Z.div_add, Z.div_small by lia. lia.
    - replace (e * 2 ^ 24) with (e * 2 * 2 ^ 23) by lia. rewrite Z.mod_add by lia.
      by apply Z.mod_small. }
  unfold compact_of, compact_drop. destruct (Z.ltb_spec (mantissa x) (2 ^ 23)).
  - destruct (Hme (mantissa x) (bytelen x)) as (H1 & H2 & H3 & H4); [lia..|].
    split_and!; [done..|]. unfold compact_value. rewrite H3, H4. unfold mantissa.
    destruct (Z.leb_spec (bytelen x) 3).
    + rewrite Z.div_mul by (apply Z.pow_nonzero; lia). rewrite Z.max_l by lia.
      by rewrite Z.div_1_r, Z.mul_1_r.
    + by rewrite Z.max_r by lia.
  - destruct (Hme (mantissa x / 2 ^ 8) (bytelen x + 1)) as (H1 & H2 & H3 & H4);
      [divmod_lia|lia|].
    split_and!; [done..|]. unfold compact_value. rewrite H3, H4. unfold mantissa.
    destruct (Z.leb_spec (bytelen x) 3).
    + destruct (Z.leb_spec (bytelen x + 1) 3).
      * rewrite Z.max_l, Z.div_1_r, Z.mul_1_r by lia. rewrite Z.div_div by (first [apply Z.pow_nonzero; lia | apply Z.pow_pos_nonneg; lia]).
        rewrite <- Z.pow_add_r by lia.
        replace (8 + 8 * (3 - (bytelen x + 1))) with (8 * (3 - bytelen x)) by lia.
        apply Z.div_mul, Z.pow_nonzero; lia.
      * assert (bytelen x = 3) as -> by lia. by rewrite Z.mul_1_r.
    + destruct (Z.leb_spec (bytelen x + 1) 3); [lia|].
      rewrite Z.max_r, Z.div_div, <- Z.pow_add_r by (lia || apply Z.pow_nonzero; lia).
      do 2 f_equal; f_equal; lia.
Qed.

Lemma compact_drop_bound x : 0 <= x → 0 <= compact_drop x <= Z.max 0 (bitlen x - 16).
Proof.
  intros Hx. destruct (bitlen_range x Hx) as [Hb Hlt].
  unfold compact_drop. split; [lia|]. apply Z.max_le_compat_l.
  destruct (Z.ltb_spec (mantissa x) (2 ^ 23)) as [|Hge]; [unfold bytelen; divmod_lia|].
  assert (8 * bytelen x - 1 < bitlen x); [|lia].
  destruct (Z.le_gt_cases (bytelen x) 0) as [|Hpos]; [lia|].
  apply bitlen_ge; [lia|]. unfold mantissa in Hge. destruct (Z.leb_spec (bytelen x) 3).
  - assert (0 < 2 ^ (8 * (3 - bytelen x))) by (apply Z.pow_pos_nonneg; lia).
    replace (2 ^ 23) with (2 ^ (8 * bytelen x - 1) * 2 ^ (8 * (3 - bytelen x))) in Hge
      by (rewrite <- Z.pow_add_r by lia; f_equal; lia). nia.
  - assert (0 < 2 ^ (8 * (bytelen x - 3))) by (apply Z.pow_pos_nonneg; lia).
    replace (2 ^ (8 * bytelen x - 1)) with (2 ^ 23 * 2 ^ (8 * (bytelen x - 3)))
      by (rewrite <- Z.pow_add_r by lia; f_equal; lia).
    pose proof (Z.mul_div_le x (2 ^ (8 * (bytelen x - 3))) ltac:(lia)). nia.
Qed.

(** *** Bytes and hexadecimal *)

Lemma to_bytes_byte a : Forall is_byte (to_bytes a).
Proof.
  unfold to_bytes. apply Forall_concat, Forall_map, Forall_true. intros; apply le_bytes_byte.
Qed.

Lemma length_to_bytes a : length (to_bytes a) = (4 * length a)%nat.
Proof.
  unfold to_bytes. induction a as [|x a IH]; [done|].
  cbn [map concat length]. rewrite length_app, length_le_bytes, IH. lia.
Qed.

Lemma limbs_of_to_bytes a : limbs a → limbs_of_bytes (length a) (to_bytes a) = a.
Proof.
  unfold to_bytes. induction 1 as [|x a Hx _ IH]; [done|].
  cbn [map concat length limbs_of_bytes].
  rewrite take_app_length', drop_app_length' by (by rewrite length_le_bytes).
  by rewrite le_val_le_bytes_small, IH by done.
Qed.

(** The memory image of an array is the number's little-endian bytes. *)
Lemma le_val_app a b : le_val (a ++ b) = le_val a + 2 ^ (8 * Z.of_nat (length a)) * le_val b.
Proof.
  induction a as [|x a IH]; cbn [app le_val length]; [cbn; lia|].
  rewrite IH. replace (8 * Z.of_nat (S (length a))) with (8 + 8 * Z.of_nat (length a)) by lia.
  rewrite Z.pow_add_r by lia. change (2 ^ 8) with 256. lia.
Qed.

Lemma le_val_to_bytes a : limbs a → le_val (to_bytes a) = value a.
Proof.
  unfold to_bytes. induction 1 as [|x a Hx _ IH]; [done|]. cbn [map concat value].
  rewrite le_val_app, length_le_bytes, le_val_le_bytes_small, IH by done. done.
Qed.

Lemma of_vector_to_bytes n a x : repr n a x → of_vector n (to_bytes a) = Ok a.
Proof.
  intros [<- Ha _]. unfold of_vector. rewrite length_to_bytes, limbs_of_to_bytes by done.
  destruct (Z.eqb_spec (Z.of_nat (4 * length a)) (4 * Z.of_nat (length a))); [done|lia].
Qed.

Definition hex_pair (b : Z) : list Z := [getz hexmap (Z.shiftr b 4); getz hexmap (Z.land b 15)].

Lemma HexStr_pairs first v : HexStr_loop first false v = concat (map hex_pair v).
Proof.
  revert first. induction v as [|b v IH]; intros first; [done|].
  cbn [HexStr_loop andb map concat app]. by rewrite IH.
Qed.

Lemma rev_hex_pairs v :
  rev (concat (map hex_pair (rev v))) = concat (map (λ b, rev (hex_pair b)) v).
Proof.
  induction v as [|b v IH]; [done|].
  cbn [rev map concat]. rewrite map_app, concat_app, rev_app_distr, IH.
  cbn [map concat]. by rewrite app_nil_r.
Qed.

Lemma SetHex_loop_pairs v :
  Forall is_byte v →
  SetHex_loop (length v) (concat (map (λ b, rev (hex_pair b)) v)) = v.
Proof.
  induction 1 as [|b v Hb _ IH]; [done|].
  destruct (nibbles b Hb) as (H1 & H2 & H3).
  destruct (hex_digit _ H1) as [D1 _], (hex_digit _ H2) as [D2 _].
  cbn [length map concat].
  change (rev (hex_pair b)) with [getz hexmap (Z.land b 15); getz hexmap (Z.shiftr b 4)].
  cbn [app SetHex_loop]. rewrite D1, D2, IH, Z.lor_comm, H3. done.
Qed.

Lemma hex_prefix_pairs v :
  Forall is_byte v → hex_prefix (concat (map hex_pair v)) = concat (map hex_pair v).
Proof.
  induction 1 as [|b v Hb _ IH]; [done|].
  destruct (nibbles b Hb) as (H1 & H2 & H3).
  destruct (hex_digit _ H1) as [D1 _], (hex_digit _ H2) as [D2 _].
  cbn [map concat hex_pair app hex_prefix]. rewrite D1, D2, IH.
  destruct (Z.eqb_spec (Z.shiftr b 4) (-1)); [lia|].
  destruct (Z.eqb_spec (Z.land b 15) (-1)); [lia|]. done.
Qed.

(** A hexadecimal digit is no blank, and the second one is no [x]. *)
Lemma hexmap_not_x i : 0 <= i < 16 → (tolower (getz hexmap i) =? 120) = false.
Proof.
  intros Hi. apply negb_true_iff. revert i Hi.
  apply (Zforall_check 16 (λ i, negb (tolower (getz hexmap i) =? 120))). by vm_compute.
Qed.

Lemma SetHex_GetHex n a x : repr n a x → SetHex n (GetHex a) = a.
Proof.
  intros [<- Ha _]. pose proof (to_bytes_byte a) as Hb.
  unfold SetHex, GetHex, HexStr. rewrite HexStr_pairs.
  assert (Forall is_byte (rev (to_bytes a))) as Hr by (by apply Forall_rev).
  set (h := concat (map hex_pair (rev (to_bytes a)))).
  assert (skip_spaces h = h ∧ (ch0 h =? 48) && (tolower (ch0 (tl h)) =? 120) = false) as [-> ->].
  { subst h. destruct Hr as [|b v Hb0 _]; [done|]. destruct (nibbles b Hb0) as (H1 & H2 & _).
    cbn [map concat hex_pair app ch0 hd tl]. rewrite hexmap_not_x, andb_false_r by done.
    split; [|done]. apply skip_spaces_id. by apply hex_digit. }
  subst h. rewrite hex_prefix_pairs, rev_hex_pairs, <- length_to_bytes by done.
  rewrite SetHex_loop_pairs, limbs_of_to_bytes by done. done.
Qed.

(** *** Bitwise operators *)

Lemma op_bitwise_repr (f : Z → Z → Z) (g : bool → bool → bool) n a b x y :
  (∀ u v i, 0 <= i → Z.testbit (f u v) i = g (Z.testbit u i) (Z.testbit v i)) →
  g false false = false → (∀ u v, 0 <= u → 0 <= v → 0 <= f u v) →
  repr n a x → repr n b y → repr n (zip_with f a b) (f x y).
Proof.
  intros Hf Hg Hpos Ha Hb. pose proof (repr_range _ _ _ Ha). pose proof (repr_range _ _ _ Hb).
  destruct Ha as [<- Ha <-], Hb as [Hl Hb <-].
  assert (∀ w u v, 0 <= w → in_uw w u → in_uw w v → in_uw w (f u v)) as Hrange.
  { intros w u v Hw Hu Hv. apply in_uw_bits; [done|apply Hpos; [apply Hu|apply Hv]|].
    intros i Hi. by rewrite Hf, (testbit_high w u), (testbit_high w v) by (done || lia). }
  assert (length (zip_with f a b) = length a) as Hlz by (rewrite length_zip_with; lia).
  assert (∀ j, 0 <= j < Z.of_nat (length a) →
    getz (zip_with f a b) j = f (getz a j) (getz b j)) as Hget.
  { intros j Hj. unfold getz.
    destruct (lookup_lt_is_Some_2 a (Z.to_nat j) ltac:(lia)) as [u Hu].
    destruct (lookup_lt_is_Some_2 b (Z.to_nat j) ltac:(lia)) as [v Hv].
    rewrite !nth_lookup, lookup_zip_with, Hu, Hv. done. }
  apply repr_of_bits; [done| | |].
  - apply Forall_getz. rewrite Hlz. intros j Hj. rewrite Hget by done.
    apply Hrange; [lia|..]; apply (getz_Forall (in_uw 32)); (done || lia).
  - apply Hrange; [lia|done..].
  - intros i Hi. destruct (limb_index i ltac:(lia)) as (? & ? & ?).
    by rewrite Hget, !Hf, !value_testbit by (done || lia).
Qed.

Lemma op_xor_repr n a b x y : repr n a x → repr n b y → repr n (op_xor a b) (Z.lxor x y).
Proof.
  apply (op_bitwise_repr _ xorb); [intros; apply Z.lxor_spec|done|].
  intros. by apply Z.lxor_nonneg.
Qed.

Lemma op_and_repr n a b x y : repr n a x → repr n b y → repr n (op_and a b) (Z.land x y).
Proof.
  apply (op_bitwise_repr _ andb); [intros; apply Z.land_spec|done|].
  intros. apply Z.land_nonneg. by left.
Qed.

Lemma op_or_repr n a b x y : repr n a x → repr n b y → repr n (op_or a b) (Z.lor x y).
Proof.
  apply (op_bitwise_repr _ orb); [intros; apply Z.lor_spec|done|].
  intros. by apply Z.lor_nonneg.
Qed.

(** A decidable form of [repr], for closed arrays. *)
Definition reprb (n : nat) (pn : list Z) (z : Z) : bool :=
  (length pn =? n)%nat && forallb (λ x, (0 <=? x) && (x <? 2 ^ 32)) pn && (value pn =? z).

Lemma reprb_repr n pn z : reprb n pn z = true → repr n pn z.
Proof.
  unfold reprb. rewrite !andb_true_iff, Nat.eqb_eq, forallb_forall, Z.eqb_eq.
  intros [[Hl Hf] Hv]. split; [done| |done]. apply Forall_forall. intros x Hx%list_elem_of_In.
  apply Hf in Hx. unfold in_uw. lia.
Qed.

(** ** Properties *)

(** C35: on arrays of any width of at least two limbs, the operators of
    [base_uint] compute exactly the ring of integers modulo [2^BITS]: sum,
    difference, negation, increments, product by a word and by an array, both
    shifts; and the comparison operators decide the order of the numbers. *)
Theorem base_uint_refines_modular_arithmetic n a b x y :
  repr n a x → repr n b y →
  repr n (op_add a b) ((x + y) mod modulus n) ∧
  repr n (op_sub a b) ((x - y) mod modulus n) ∧
  repr n (op_neg a) ((- x) mod modulus n) ∧
  repr n (op_incr a) ((x + 1) mod modulus n) ∧
  repr n (op_decr a) ((x - 1) mod modulus n) ∧
  repr n (op_mul a b) ((x * y) mod modulus n) ∧
  (∀ k, repr n (op_mul32 a k) ((u32 k * x) mod modulus n)) ∧
  (∀ k, 0 <= k → repr n (op_shl a k) (Z.shiftl x k mod modulus n)) ∧
  (∀ k, 0 <= k → repr n (op_shr a k) (Z.shiftr x k)) ∧
  op_lt a b = (x <? y) ∧ op_gt a b = (y <? x) ∧ op_le a b = (x <=? y) ∧
  op_ge a b = (y <=? x) ∧ op_eq a b = (x =? y).
Proof.
  intros Ha Hb. split_and!;
    eauto using op_add_repr, op_sub_repr, op_neg_repr, op_incr_repr, op_decr_repr,
      op_mul_repr, op_mul32_repr, op_shl_repr, op_shr_repr; by eapply compare_ops_repr.
Qed.

Lemma base_uint_refines_modular_arithmetic_witness :
  repr 8 (op_mul (uint256 (2 ^ 63)) (uint256 6)) ((2 ^ 63 * 6) mod modulus 8).
Proof.
  apply (base_uint_refines_modular_arithmetic 8 (uint256 (2 ^ 63)) (uint256 6));
    apply reprb_repr; vm_compute; reflexivity.
Defined.

(** the shift-and-subtract division of [base_uint] throws exactly on a zero
    divisor and otherwise terminates with the floor of the quotient. *)
Theorem base_uint_division n a b x y :
  (2 <= n)%nat → repr n a x → repr n b y →
  (y = 0 → op_div a b = Throw DivisionByZero) ∧
  (y ≠ 0 → ∃ q, op_div a b = Ok q ∧ repr n q (x / y)).
Proof.
  intros Hn Ha Hb. split; [intros ->; by eapply op_div_zero|]. by apply op_div_repr.
Qed.

Lemma base_uint_division_witness :
  ∃ q, op_div (op_shl (uint256 1) 200) (uint256 3) = Ok q ∧ repr 8 q (2 ^ 200 / 3).
Proof.
  apply (base_uint_division 8 (op_shl (uint256 1) 200) (uint256 3) (2 ^ 200) 3);
    [lia|apply reprb_repr; vm_compute; reflexivity..|lia].
Defined.

(** the compact form. [SetCompact] of any 32-bit word is mantissa times
    [256^(exponent-3)] reduced to 256 bits, with the overflow flag set exactly
    when that loses bits; [GetCompact] never fails its assertions; and
    [SetCompact] of [GetCompact] of a number gives back the number with at most
    its low bits past the 16 leading ones cleared, with neither flag set. *)
Theorem compact_roundtrip pn x :
  repr 8 pn x →
  (∀ c, is_u32 c → ∃ a, SetCompact c = (a, compact_negative c, 2 ^ 256 <=? compact_value c) ∧
        repr 8 a (compact_value c mod 2 ^ 256)) ∧
  ∃ c k a, GetCompact pn false = Some c ∧ is_u32 c ∧ SetCompact c = (a, false, false) ∧
    0 <= k <= Z.max 0 (bitlen x - 16) ∧ repr 8 a (x / 2 ^ k * 2 ^ k).
Proof.
  intros Hx. split; [apply SetCompact_repr|].
  pose proof (repr_range _ _ _ Hx) as Hr.
  destruct (compact_value_of x 32 Hr ltac:(lia)) as (Hc & Hbit & Hv).
  destruct (SetCompact_repr _ Hc) as (a & Ha & Hra).
  pose proof (compact_drop_bound x ltac:(lia)).
  assert (0 < 2 ^ compact_drop x) by (apply Z.pow_pos_nonneg; lia).
  pose proof (Z.mul_div_le x (2 ^ compact_drop x) ltac:(lia)).
  rewrite Hv in Hra, Ha. rewrite Z.mod_small in Hra.
  2:{ change (modulus 8) with (2 ^ 256) in Hr. split; [|lia].
      apply Z.mul_nonneg_nonneg; [apply Z.div_pos|]; lia. }
  exists (compact_of x), (compact_drop x), a. split_and!; try done; try lia.
  - by apply GetCompact_repr.
  - rewrite Ha. unfold compact_negative. rewrite Hbit, andb_false_r. f_equal.
    change (modulus 8) with (2 ^ 256) in Hr. lia.
Qed.

Lemma compact_roundtrip_witness :
  ∃ c k a, GetCompact (op_shr (op_not (uint256 0)) 24) false = Some c ∧ is_u32 c ∧
    SetCompact c = (a, false, false) ∧ 0 <= k <= Z.max 0 (bitlen (2 ^ 232 - 1) - 16) ∧
    repr 8 a ((2 ^ 232 - 1) / 2 ^ k * 2 ^ k).
Proof.
  apply (compact_roundtrip (op_shr (op_not (uint256 0)) 24) (2 ^ 232 - 1)).
  apply reprb_repr; vm_compute; reflexivity.
Defined.

(** reading back what [GetHex] prints, or the bytes of the array in
    memory, gives the same array: both external forms of a hash lose nothing. *)
Theorem base_uint_text_roundtrip n a x :
  repr n a x →
  SetHex n (GetHex a) = a ∧ of_vector n (to_bytes a) = Ok a ∧ le_val (to_bytes a) = x.
Proof.
  intros Ha. split_and!; [by eapply SetHex_GetHex|by eapply of_vector_to_bytes|].
  rewrite le_val_to_bytes by apply Ha. apply Ha.
Qed.

Lemma base_uint_text_roundtrip_witness :
  SetHex 8 (GetHex (uint256 48879)) = uint256 48879 ∧
  of_vector 8 (to_bytes (uint256 48879)) = Ok (uint256 48879) ∧
  le_val (to_bytes (uint256 48879)) = 48879.
Proof.
  apply (base_uint_text_roundtrip 8 (uint256 48879) 48879).
  apply reprb_repr; vm_compute; reflexivity.
Defined.
