(* ===== verification/Chain.v ===== *)
(** * chain.h, chain.cpp and the block-index functions of main.cpp

    A [CBlockIndex] is modelled with the fields that no longer change once
    AddToBlockIndex has linked it: its hash, its header, its height, its flags
    and stake fields, its accumulated work, and its [pprev] and [pskip]
    pointers, followed as subterms. Two pointers are equal when the hashes they
    own are equal ([mapBlockIndex] has one object per hash); the theorems that
    depend on it assume that two indices in play with one hash are the same.
    Dereferencing a null pointer is [Throw NullDereference]. *)

From stdpp Require Import sorting.
From S2P Require Import Prelude StrEncodings Uint256.

#[local] Set Warnings "-register-all".

Inductive CBlockIndex := mkBlockIndex {
  phashBlock : list Z;
  pprev : option CBlockIndex;
  pskip : option CBlockIndex;
  nHeight : Z;
  nChainWork : list Z;
  bnChainTrust : list Z;
  nFlags : Z;
  nStakeModifier : Z;
  nStakeModifierChecksum : Z;
  prevoutStake : list Z * Z;
  nStakeTime : Z;
  hashProofOfStake : list Z;
  nVersion : Z;
  hashMerkleRoot : list Z;
  nTime : Z;
  nBits : Z;
  nNonce : Z
}.

(** What the C++ program does not survive. *)
Inductive ub := NullDereference | OutOfRange | AssertionFailed.

Definition BLOCK_PROOF_OF_STAKE : Z := 1.
Definition BLOCK_STAKE_ENTROPY : Z := 2.
Definition BLOCK_STAKE_MODIFIER : Z := 4.

Definition GetBlockHash (p : CBlockIndex) : list Z := phashBlock p.
Definition GetBlockTime (p : CBlockIndex) : Z := nTime p.
Definition IsProofOfStake (p : CBlockIndex) : bool := negb (Z.land (nFlags p) BLOCK_PROOF_OF_STAKE =? 0).
Definition IsProofOfWork (p : CBlockIndex) : bool := Z.land (nFlags p) BLOCK_PROOF_OF_STAKE =? 0.
Definition GeneratedStakeModifier (p : CBlockIndex) : bool :=
  negb (Z.land (nFlags p) BLOCK_STAKE_MODIFIER =? 0).
Definition GetStakeEntropyBit (p : CBlockIndex) : Z := Z.land (Get64 (phashBlock p) 0) 1.

(** ** Validity levels, on the [nStatus] word *)

Definition BLOCK_VALID_MASK : Z := 7.
Definition BLOCK_FAILED_MASK : Z := Z.lor 32 64.

Definition IsValid (nStatus nUpTo : Z) : bool :=
  if negb (Z.land nStatus BLOCK_FAILED_MASK =? 0) then false
  else nUpTo <=? Z.land nStatus BLOCK_VALID_MASK.

(** The new status, and whether it changed. *)
Definition RaiseValidity (nStatus nUpTo : Z) : Z * bool :=
  if negb (Z.land nStatus BLOCK_FAILED_MASK =? 0) then (nStatus, false)
  else if Z.land nStatus BLOCK_VALID_MASK <? nUpTo
       then (Z.lor (Z.land nStatus (Z.lnot BLOCK_VALID_MASK)) nUpTo, true)
       else (nStatus, false).

(** ** Ancestors: the skip list *)

Definition InvertLowestOne (n : Z) : Z := Z.land n (n - 1).

Definition GetSkipHeight (height : Z) : Z :=
  if height <? 2 then 0
  else if negb (Z.land height 1 =? 0)
       then InvertLowestOne (InvertLowestOne (height - 1)) + 1
       else InvertLowestOne height.

(** The [while (heightWalk > height)] loop. *)
Fixpoint GetAncestor_walk (pindexWalk : CBlockIndex) (heightWalk height : Z)
  : result ub CBlockIndex :=
  if heightWalk <=? height then Ok pindexWalk else
  let heightSkip := GetSkipHeight heightWalk in
  let heightSkipPrev := GetSkipHeight (heightWalk - 1) in
  if (heightSkip =? height)
     || ((height <? heightSkip)
         && negb ((heightSkipPrev <? heightSkip - 2) && (height <=? heightSkipPrev)))
  then match pskip pindexWalk with
       | Some q => GetAncestor_walk q heightSkip height
       | None => Throw NullDereference
       end
  else match pprev pindexWalk with
       | Some q => GetAncestor_walk q (heightWalk - 1) height
       | None => Throw NullDereference
       end.

(** [Ok None] is the NULL result. *)
Definition GetAncestor (this : CBlockIndex) (height : Z) : result ub (option CBlockIndex) :=
  if (nHeight this <? height) || (height <? 0) then Ok None
  else match GetAncestor_walk this (nHeight this) height with
       | Ok p => Ok (Some p)
       | Throw e => Throw e
       end.

(** The new value of [pskip], for an index under [pprev] at [nHeight]. *)
Definition BuildSkip (pprev : option CBlockIndex) (nHeight : Z) : result ub (option CBlockIndex) :=
  match pprev with
  | Some q => GetAncestor q (GetSkipHeight nHeight)
  | None => Ok None
  end.

(** The blocks from [p] down to the genesis block, along [pprev]. *)
Fixpoint ancestry (p : CBlockIndex) : list CBlockIndex :=
  p :: match pprev p with
       | Some q => ancestry q
       | None => []
       end.

(** [pa == pb] for pointers into [mapBlockIndex]. *)
Definition ptr_eq (pa pb : CBlockIndex) : bool := bool_decide (phashBlock pa = phashBlock pb).

(** The [while (pa != pb && pa && pb)] loop and [assert(pa == pb)], on the
    blocks from [pa] and from [pb] down. *)
Fixpoint LastCommonAncestor_loop (a b : list CBlockIndex) : result ub (option CBlockIndex) :=
  match a, b with
  | pa :: a, pb :: b => if ptr_eq pa pb then Ok (Some pa) else LastCommonAncestor_loop a b
  | [], [] => Ok None
  | _, _ => Throw AssertionFailed
  end.

Definition blocks_from (pstart : option CBlockIndex) : list CBlockIndex :=
  match pstart with Some p => ancestry p | None => [] end.

Definition LastCommonAncestor (pa pb : CBlockIndex) : result ub (option CBlockIndex) :=
  let ra := if nHeight pb <? nHeight pa then GetAncestor pa (nHeight pb) else Ok (Some pa) in
  let rb := if nHeight pa <? nHeight pb then GetAncestor pb (nHeight pa) else Ok (Some pb) in
  match ra, rb with
  | Ok pa, Ok pb => LastCommonAncestor_loop (blocks_from pa) (blocks_from pb)
  | Throw e, _ | _, Throw e => Throw e
  end.

(** ** Version and time rules over the last blocks *)

(** The loop over [i], [nFound] and [pstart] of IsSuperMajority. *)
Fixpoint IsSuperMajority_loop (minVersion : Z) (pstart : list CBlockIndex)
    (todo : nat) (nRequired nFound : Z) {struct todo} : Z :=
  match todo, pstart with
  | S todo, p :: rest =>
      if nFound <? nRequired
      then IsSuperMajority_loop minVersion rest todo nRequired
             (if minVersion <=? nVersion p then nFound + 1 else nFound)
      else nFound
  | _, _ => nFound
  end.

(** [nToCheck] is [Params().ToCheckBlockUpgradeMajority()]. *)
Definition IsSuperMajority (nToCheck : Z) (minVersion : Z) (pstart : option CBlockIndex)
    (nRequired : Z) : bool :=
  nRequired <=? IsSuperMajority_loop minVersion (blocks_from pstart) (Z.to_nat nToCheck) nRequired 0.

Definition nMedianTimeSpan : nat := 11.

(** [std::sort] on times, and the middle element. *)
Definition median_time (times : list Z) : Z :=
  getz (merge_sort Z.le times) (Z.of_nat (length times) / 2).

Definition GetMedianTimePast (this : CBlockIndex) : Z :=
  median_time (rev (map GetBlockTime (take nMedianTimeSpan (ancestry this)))).

(** ** CChain *)

Record CChain := mkChain { vChain : list (option CBlockIndex) }.

Definition Height (c : CChain) : Z := Z.of_nat (length (vChain c)) - 1.

(** [operator[]]. *)
Definition chain_at (c : CChain) (nHeight : Z) : option CBlockIndex :=
  if (nHeight <? 0) || (Z.of_nat (length (vChain c)) <=? nHeight) then None
  else nth (Z.to_nat nHeight) (vChain c) None.

Definition Genesis (c : CChain) : option CBlockIndex :=
  if 0 <? Z.of_nat (length (vChain c)) then nth 0 (vChain c) None else None.

(** [operator==], which reads [vChain[-1]] of two empty chains. *)
Definition chain_eq (a b : CChain) : result ub bool :=
  if (length (vChain a) =? length (vChain b))%nat
  then match last (vChain a), last (vChain b) with
       | Some (Some p), Some (Some q) => Ok (ptr_eq p q)
       | Some None, Some None => Ok true
       | Some _, Some _ => Ok false
       | _, _ => Throw OutOfRange
       end
  else Ok false.

(** [Tip(fProofOfStake)]: with the flag, down to the last proof-of-stake block. *)
Fixpoint last_pos (pindex : CBlockIndex) : CBlockIndex :=
  match pprev pindex with
  | Some q => if IsProofOfStake pindex then pindex else last_pos q
  | None => pindex
  end.

Definition Tip (c : CChain) (fProofOfStake : bool) : option CBlockIndex :=
  if Z.of_nat (length (vChain c)) <? 1 then None
  else let pindex := nth (length (vChain c) - 1) (vChain c) None in
       if fProofOfStake then last_pos <$> pindex else pindex.

Definition Contains (c : CChain) (pindex : CBlockIndex) : bool :=
  match chain_at c (nHeight pindex) with
  | Some q => ptr_eq q pindex
  | None => false
  end.

Definition Next (c : CChain) (pindex : CBlockIndex) : option CBlockIndex :=
  if Contains c pindex then chain_at c (nHeight pindex + 1) else None.

(** The [while] loop of SetTip. *)
Fixpoint SetTip_loop (v : list (option CBlockIndex)) (pindex : CBlockIndex)
  : list (option CBlockIndex) :=
  let same := match nth (Z.to_nat (nHeight pindex)) v None with
              | Some q => ptr_eq q pindex
              | None => false
              end in
  if same then v
  else let v := <[Z.to_nat (nHeight pindex) := Some pindex]> v in
       match pprev pindex with
       | Some q => SetTip_loop v q
       | None => v
       end.

Definition SetTip (c : CChain) (pindex : option CBlockIndex) : CChain :=
  match pindex with
  | None => mkChain []
  | Some p =>
      let n := Z.to_nat (nHeight p + 1) in
      mkChain (SetTip_loop (resize n None (vChain c)) p)
  end.

(** FindFork: first down to the chain's height, then along [pprev]. *)
Definition FindFork (c : CChain) (pindex : CBlockIndex) : result ub (option CBlockIndex) :=
  let start := if Height c <? nHeight pindex then GetAncestor pindex (Height c)
               else Ok (Some pindex) in
  match start with
  | Throw e => Throw e
  | Ok p => Ok (head (filter (λ q, Contains c q) (blocks_from p)))
  end.

(** The [while (pindex)] loop of GetLocator; the height goes down at every
    turn, so [nHeight + 1] turns are enough. *)
Fixpoint GetLocator_loop (fuel : nat) (c : CChain) (pindex : CBlockIndex) (nStep : Z)
    (vHave : list (list Z)) : result ub (list (list Z)) :=
  match fuel with
  | O => Ok vHave
  | S fuel =>
      let vHave := vHave ++ [GetBlockHash pindex] in
      if nHeight pindex =? 0 then Ok vHave else
      let height := Z.max (nHeight pindex - nStep) 0 in
      match (if Contains c pindex then Ok (chain_at c height) else GetAncestor pindex height) with
      | Throw e => Throw e
      | Ok None => Ok vHave
      | Ok (Some q) =>
          GetLocator_loop fuel c q
            (if 10 <? Z.of_nat (length vHave) then nStep * 2 else nStep) vHave
      end
  end.

Definition GetLocator (c : CChain) (pindex : option CBlockIndex) : result ub (list (list Z)) :=
  match (match pindex with Some p => Some p | None => Tip c false end) with
  | None => Ok []
  | Some p => GetLocator_loop (Z.to_nat (nHeight p) + 1) c p 1 []
  end.

(** FindForkInGlobalIndex of main.cpp. *)
Fixpoint FindForkInGlobalIndex (mapBlockIndex : gmap (list Z) CBlockIndex) (chain : CChain)
    (vHave : list (list Z)) : option CBlockIndex :=
  match vHave with
  | [] => Genesis chain
  | hash :: vHave =>
      match mapBlockIndex !! hash with
      | Some pindex => if Contains chain pindex then Some pindex
                       else FindForkInGlobalIndex mapBlockIndex chain vHave
      | None => FindForkInGlobalIndex mapBlockIndex chain vHave
      end
  end.

(** IsBlockHashInChain of main.cpp. *)
Definition IsBlockHashInChain (mapBlockIndex : gmap (list Z) CBlockIndex) (chain : CChain)
    (hashBlock : list Z) : bool :=
  if EqualTo hashBlock 0 then false
  else match mapBlockIndex !! hashBlock with
       | Some p => Contains chain p
       | None => false
       end.

(** GetBlockTrust of chain.cpp. *)
Definition GetBlockTrust (p : CBlockIndex) : result uint_error (list Z) :=
  let '(bnTarget, _, _) := SetCompact (nBits p) in
  if op_le bnTarget (uint256 0) then Ok (uint256 0)
  else if IsProofOfStake p
  then op_div (op_shl (uint256 1) 256) (op_add bnTarget (uint256 1))
  else
    match op_div (op_shr (op_not (uint256 0)) 20) (op_add bnTarget (uint256 1)) with
    | Throw e => Throw e
    | Ok bnPoWTrust => Ok (if op_gt bnPoWTrust (uint256 1) then bnPoWTrust else uint256 1)
    end.

(** ** Raising a validity level *)

Lemma RaiseValidity_IsValid nStatus nUpTo level :
  0 <= nUpTo <= 7 →
  IsValid (fst (RaiseValidity nStatus nUpTo)) level
  = (Z.land nStatus BLOCK_FAILED_MASK =? 0) && (level <=? Z.max nUpTo (Z.land nStatus BLOCK_VALID_MASK)).
Proof.
  intros Hn. unfold RaiseValidity, IsValid.
  destruct (Z.eqb_spec (Z.land nStatus BLOCK_FAILED_MASK) 0) as [E|E]; cbn [negb andb].
  2: { cbn [fst]. destruct (Z.eqb_spec (Z.land nStatus BLOCK_FAILED_MASK) 0); [done|done]. }
  assert (Z.land nUpTo BLOCK_FAILED_MASK = 0 ∧ Z.land nUpTo BLOCK_VALID_MASK = nUpTo) as [Hf Hv].
  { assert (nUpTo = 0 ∨ nUpTo = 1 ∨ nUpTo = 2 ∨ nUpTo = 3 ∨ nUpTo = 4 ∨ nUpTo = 5 ∨ nUpTo = 6 ∨ nUpTo = 7)
      as H by lia. by destruct H as [->|[->|[->|[->|[->|[->|[->| ->]]]]]]]. }
  destruct (Z.ltb_spec (Z.land nStatus BLOCK_VALID_MASK) nUpTo); cbn [fst].
  - rewrite !Z.land_lor_distr_l, <- !Z.land_assoc, Hf, Hv.
    change (Z.land (Z.lnot BLOCK_VALID_MASK) BLOCK_FAILED_MASK) with BLOCK_FAILED_MASK.
    change (Z.land (Z.lnot BLOCK_VALID_MASK) BLOCK_VALID_MASK) with 0.
    rewrite E, Z.land_0_r, Z.lor_0_r, Z.lor_0_l. cbn. by rewrite Z.max_l by lia.
  - rewrite E. cbn. by rewrite Z.max_r by lia.
Qed.

(** ** Induction over the block tree *)

Lemma CBlockIndex_tree_ind (P : CBlockIndex → Prop) :
  (∀ p, (∀ q, pprev p = Some q → P q) → (∀ q, pskip p = Some q → P q) → P p) → ∀ p, P p.
Proof.
  intros H. fix IH 1. intros p. apply H; destruct p as [? [q1|] [q2|]]; cbn;
    intros q [= <-]; apply IH.
Qed.

(** The specification of ancestry: the block at height [h] on the way down. *)
Fixpoint ancestor (p : CBlockIndex) (h : Z) : option CBlockIndex :=
  if nHeight p =? h then Some p
  else match pprev p with Some q => ancestor q h | None => None end.

(** What AddToBlockIndex establishes: heights count from the genesis block, and
    [pskip] points to the ancestor GetSkipHeight names. *)
Inductive wf_index : CBlockIndex → Prop :=
| wf_genesis p : pprev p = None → pskip p = None → nHeight p = 0 → wf_index p
| wf_child p q : pprev p = Some q → wf_index q → nHeight p = nHeight q + 1 →
    pskip p = ancestor q (GetSkipHeight (nHeight p)) → wf_index p.

Lemma ancestor_unfold p h :
  ancestor p h = if nHeight p =? h then Some p
                 else match pprev p with Some q => ancestor q h | None => None end.
Proof. by destruct p. Qed.

Lemma ancestry_unfold p :
  ancestry p = p :: match pprev p with Some q => ancestry q | None => [] end.
Proof. by destruct p. Qed.

Lemma GetAncestor_walk_unfold p hw h :
  GetAncestor_walk p hw h =
  if hw <=? h then Ok p else
  if (GetSkipHeight hw =? h)
     || ((h <? GetSkipHeight hw)
         && negb ((GetSkipHeight (hw - 1) <? GetSkipHeight hw - 2) && (h <=? GetSkipHeight (hw - 1))))
  then match pskip p with
       | Some q => GetAncestor_walk q (GetSkipHeight hw) h
       | None => Throw NullDereference
       end
  else match pprev p with
       | Some q => GetAncestor_walk q (hw - 1) h
       | None => Throw NullDereference
       end.
Proof. by destruct p. Qed.

Lemma InvertLowestOne_range n : 0 < n → 0 <= InvertLowestOne n <= n - 1.
Proof.
  intros Hn. unfold InvertLowestOne. split; [apply Z.land_nonneg; lia|].
  apply land_le_r. lia.
Qed.

(** The skip always goes strictly down, and never below the genesis block. *)
Lemma GetSkipHeight_range h : 1 <= h → 0 <= GetSkipHeight h < h.
Proof.
  intros Hh. unfold GetSkipHeight. destruct (Z.ltb_spec h 2); [lia|].
  destruct (Z.land h 1 =? 0); cbn [negb].
  - pose proof (InvertLowestOne_range h ltac:(lia)). lia.
  - pose proof (InvertLowestOne_range (h - 1) ltac:(lia)).
    destruct (Z.eq_dec (InvertLowestOne (h - 1)) 0) as [E|E].
    + rewrite E. change (InvertLowestOne 0) with 0. lia.
    + pose proof (InvertLowestOne_range (InvertLowestOne (h - 1)) ltac:(lia)). lia.
Qed.

Lemma wf_height p : wf_index p → 0 <= nHeight p.
Proof. induction 1; lia. Qed.

Lemma ancestor_exists p h :
  wf_index p → 0 <= h <= nHeight p → ∃ a, ancestor p h = Some a ∧ nHeight a = h ∧ wf_index a.
Proof.
  intros Hp. induction Hp as [p Hprev Hskip Hh|p q Hprev Hq IH Hh Hskip]; intros Hr;
    rewrite ancestor_unfold, Hprev; destruct (Z.eqb_spec (nHeight p) h) as [He|He].
  - exists p. split_and!; [done..|by constructor].
  - lia.
  - exists p. split_and!; [done..|by econstructor].
  - apply IH. lia.
Qed.

Lemma ancestor_height p h a : ancestor p h = Some a → nHeight a = h.
Proof.
  induction p as [p IH _] using CBlockIndex_tree_ind. rewrite ancestor_unfold.
  destruct (Z.eqb_spec (nHeight p) h); [by intros [= <-]|].
  destruct (pprev p) as [q|]; [|done]. by apply IH.
Qed.

Lemma ancestor_self p : ancestor p (nHeight p) = Some p.
Proof. rewrite ancestor_unfold. by rewrite Z.eqb_refl. Qed.

Lemma ancestor_above p h : wf_index p → nHeight p < h → ancestor p h = None.
Proof.
  induction 1 as [p Hprev _ Hh|p q Hprev _ IH Hh _]; intros Hlt;
    rewrite ancestor_unfold, Hprev; destruct (Z.eqb_spec (nHeight p) h); try lia; [done|].
  apply IH. lia.
Qed.

Lemma ancestor_trans p h a i :
  wf_index p → ancestor p h = Some a → i <= h → ancestor p i = ancestor a i.
Proof.
  induction 1 as [p Hprev _ Hh|p q Hprev Hq IH Hh _]; rewrite (ancestor_unfold p h), Hprev;
    destruct (Z.eqb_spec (nHeight p) h) as [He|He]; intros Ha Hi; simplify_eq; try done.
  rewrite ancestor_unfold, Hprev. destruct (Z.eqb_spec (nHeight p) i) as [|]; [|by apply IH].
  assert (nHeight q < h); [lia|]. by rewrite ancestor_above in Ha by (done || lia).
Qed.

Lemma GetAncestor_walk_spec p h :
  wf_index p → 0 <= h <= nHeight p →
  ∃ a, GetAncestor_walk p (nHeight p) h = Ok a ∧ ancestor p h = Some a.
Proof.
  induction p as [p IHprev IHskip] using CBlockIndex_tree_ind. intros Hp Hh.
  rewrite GetAncestor_walk_unfold. destruct (Z.leb_spec (nHeight p) h).
  { exists p. split; [done|]. assert (h = nHeight p) as -> by lia. apply ancestor_self. }
  inversion Hp as [|? q Hprev Hq Hhq Hskip]; subst; [lia|].
  assert (ancestor p h = ancestor q h) as ->.
  { rewrite ancestor_unfold, Hprev. destruct (Z.eqb_spec (nHeight p) h); [lia|done]. }
  pose proof (GetSkipHeight_range (nHeight p) ltac:(lia)) as Hs.
  destruct (_ || _) eqn:E.
  - destruct (ancestor_exists q (GetSkipHeight (nHeight p)) Hq ltac:(lia)) as (s & Hsa & Hsh & Hsw).
    rewrite Hskip, Hsa. rewrite Hskip in IHskip. rewrite <- Hsh.
    destruct (IHskip s Hsa Hsw) as (a & Hw & Ha); [lia|].
    exists a. split; [done|]. rewrite <- Ha. eapply ancestor_trans; [done|exact Hsa|lia].
  - rewrite Hprev. replace (nHeight p - 1) with (nHeight q) by lia. apply IHprev; (done || lia).
Qed.

Lemma GetAncestor_spec p h :
  wf_index p →
  GetAncestor p h = Ok (if (0 <=? h) && (h <=? nHeight p) then ancestor p h else None).
Proof.
  intros Hp. unfold GetAncestor.
  destruct (Z.ltb_spec (nHeight p) h), (Z.ltb_spec h 0), (Z.leb_spec 0 h),
    (Z.leb_spec h (nHeight p)); cbn [orb andb]; try lia; try done.
  destruct (GetAncestor_walk_spec p h Hp ltac:(lia)) as (a & -> & ->). done.
Qed.

(** Linking a block under a well-formed one, as AddToBlockIndex does. *)
Lemma BuildSkip_spec q h :
  wf_index q → h = nHeight q + 1 → BuildSkip (Some q) h = Ok (ancestor q (GetSkipHeight h)).
Proof.
  intros Hq ->. pose proof (wf_height q Hq). pose proof (GetSkipHeight_range (nHeight q + 1) ltac:(lia)).
  unfold BuildSkip. rewrite GetAncestor_spec by done.
  destruct (Z.leb_spec 0 (GetSkipHeight (nHeight q + 1))),
    (Z.leb_spec (GetSkipHeight (nHeight q + 1)) (nHeight q)); try lia. done.
Qed.

(** ** Ancestry as a list *)

Lemma length_ancestry p : wf_index p → Z.of_nat (length (ancestry p)) = nHeight p + 1.
Proof.
  induction 1 as [p Hprev _ Hh|p q Hprev _ IH Hh _]; rewrite ancestry_unfold, Hprev; cbn [length]; lia.
Qed.

Lemma ancestry_self p : p ∈ ancestry p.
Proof. rewrite ancestry_unfold. apply list_elem_of_here. Qed.

Lemma ancestry_prev p q : pprev p = Some q → ancestry q ⊆ ancestry p.
Proof. intros H x Hx. rewrite ancestry_unfold, H. by apply list_elem_of_further. Qed.

Lemma elem_of_ancestry p a : wf_index p → a ∈ ancestry p ↔ ancestor p (nHeight a) = Some a.
Proof.
  induction 1 as [p Hprev _ Hh|p q Hprev Hq IH Hh _]; rewrite ancestry_unfold, ancestor_unfold, Hprev;
    rewrite elem_of_cons.
  - rewrite elem_of_nil. split.
    + intros [->|[]]. by rewrite Z.eqb_refl.
    + destruct (_ =? _); [intros [= ->]; by left|done].
  - rewrite IH. destruct (Z.eqb_spec (nHeight p) (nHeight a)) as [He|He]; split.
    + intros [->|H]; [done|]. by rewrite ancestor_above in H by (done || lia).
    + intros [= ->]. by left.
    + intros [->|H]; done.
    + by right.
Qed.

Lemma ancestry_wf p a : wf_index p → a ∈ ancestry p → wf_index a ∧ 0 <= nHeight a <= nHeight p.
Proof.
  induction 1 as [p Hprev Hs Hh|p q Hprev Hq IH Hh Hs]; rewrite ancestry_unfold, Hprev, elem_of_cons.
  - intros [->|H]; [|set_solver]. split; [by constructor|lia].
  - intros [->|H]; [|destruct (IH H); split; [done|lia]].
    pose proof (wf_height q Hq). split; [by econstructor|lia].
Qed.

Lemma ancestry_lookup p h :
  wf_index p → 0 <= h <= nHeight p → rev (ancestry p) !! Z.to_nat h = ancestor p h.
Proof.
  induction 1 as [p Hprev Hs Hh|p q Hprev Hq IH Hh Hs]; intros Hr;
    rewrite ancestry_unfold, ancestor_unfold, Hprev; cbn [rev].
  - assert (h = 0) as -> by lia. by rewrite Hh.
  - pose proof (length_ancestry q Hq) as HL.
    destruct (Z.eqb_spec (nHeight p) h) as [He|He].
    + rewrite lookup_app_r by (rewrite length_rev; lia). rewrite length_rev.
      replace (Z.to_nat h - length (ancestry q))%nat with 0%nat by lia. done.
    + rewrite lookup_app_l by (rewrite length_rev; lia). apply IH. lia.
Qed.

(** ** The active chain *)

(** The chain whose tip is [t]: the block at every height on the way down. *)
Definition chain_of (t : CBlockIndex) : CChain := mkChain (map Some (rev (ancestry t))).

(** Equal hashes name one object, as in [mapBlockIndex]. *)
Definition one_object (ps : list CBlockIndex) : Prop :=
  ∀ a b, a ∈ ps → b ∈ ps → phashBlock a = phashBlock b → a = b.

Lemma ptr_eq_spec ps a b : one_object ps → a ∈ ps → b ∈ ps → ptr_eq a b = true ↔ a = b.
Proof.
  intros H Ha Hb. unfold ptr_eq. rewrite bool_decide_eq_true. split; [by apply H|by intros ->].
Qed.

Lemma ptr_eq_refl a : ptr_eq a a = true.
Proof. unfold ptr_eq. by rewrite bool_decide_eq_true. Qed.

Lemma length_chain_of t : wf_index t → Z.of_nat (length (vChain (chain_of t))) = nHeight t + 1.
Proof. intros H. cbn. rewrite length_map, length_rev. by apply length_ancestry. Qed.

Lemma Height_chain_of t : wf_index t → Height (chain_of t) = nHeight t.
Proof. intros H. unfold Height. rewrite length_chain_of by done. lia. Qed.

Lemma chain_of_lookup t h :
  wf_index t → 0 <= h <= nHeight t → vChain (chain_of t) !! Z.to_nat h = Some (ancestor t h).
Proof.
  intros Ht Hh. cbn. rewrite list_lookup_fmap, ancestry_lookup by done.
  destruct (ancestor_exists t h Ht Hh) as (a & -> & _). done.
Qed.

Lemma chain_at_of t h :
  wf_index t → chain_at (chain_of t) h = if (0 <=? h) && (h <=? nHeight t) then ancestor t h else None.
Proof.
  intros Ht. unfold chain_at. rewrite length_chain_of by done.
  destruct (Z.ltb_spec h 0), (Z.leb_spec (nHeight t + 1) h), (Z.leb_spec 0 h),
    (Z.leb_spec h (nHeight t)); cbn [orb andb]; try lia; try done.
  by rewrite nth_lookup, chain_of_lookup by (done || lia).
Qed.

Lemma Contains_spec ps t x :
  wf_index t → one_object ps → ancestry t ⊆ ps → x ∈ ps →
  Contains (chain_of t) x = true ↔ x ∈ ancestry t.
Proof.
  intros Ht Hps Hsub Hx. unfold Contains. rewrite chain_at_of, elem_of_ancestry by done.
  destruct ((0 <=? nHeight x) && (nHeight x <=? nHeight t)) eqn:E.
  - destruct (ancestor_exists t (nHeight x) Ht ltac:(lia)) as (a & Ha & Hah & _).
    rewrite Ha. rewrite (ptr_eq_spec ps); [split; [by intros ->|by intros [= ->]]|done|..|done].
    apply Hsub. apply elem_of_ancestry; [done|]. by rewrite Hah.
  - split; [done|]. intros Ha. apply elem_of_ancestry in Ha; [|done].
    apply ancestry_wf in Ha as [_ ?]; [lia|done].
Qed.

(** An array of pointers each of whose entries agrees with what is below it. *)
Definition chain_array (v : list (option CBlockIndex)) : Prop :=
  ∀ j q, v !! j = Some (Some q) →
    wf_index q ∧ nHeight q = Z.of_nat j ∧ ∀ i, (i <= j)%nat → v !! i = Some (ancestor q (Z.of_nat i)).

Lemma SetTip_loop_unfold v p :
  SetTip_loop v p =
  if match nth (Z.to_nat (nHeight p)) v None with Some q => ptr_eq q p | None => false end then v
  else match pprev p with
       | Some q => SetTip_loop (<[Z.to_nat (nHeight p) := Some p]> v) q
       | None => <[Z.to_nat (nHeight p) := Some p]> v
       end.
Proof. by destruct p. Qed.

Lemma SetTip_hit ps v p h :
  one_object ps → (∀ j q, v !! j = Some (Some q) → q ∈ ps) → p ∈ ps →
  match nth h v None with Some q => ptr_eq q p | None => false end = true →
  v !! h = Some (Some p).
Proof.
  intros Hone Hin Hp. rewrite nth_lookup. destruct (v !! h) as [[q|]|] eqn:E; cbn; try done.
  intros H%(ptr_eq_spec ps); [by subst|done|by eapply Hin|done].
Qed.

Lemma SetTip_loop_spec ps p v :
  wf_index p → one_object ps → ancestry p ⊆ ps →
  (∀ j q, v !! j = Some (Some q) → q ∈ ps) →
  (∀ j q, (j <= Z.to_nat (nHeight p))%nat → v !! j = Some (Some q) →
     nHeight q = Z.of_nat j ∧ ∀ i, (i <= j)%nat → v !! i = Some (ancestor q (Z.of_nat i))) →
  (Z.to_nat (nHeight p) < length v)%nat →
  length (SetTip_loop v p) = length v ∧
  ∀ j, SetTip_loop v p !! j =
    if (j <=? Z.to_nat (nHeight p))%nat then Some (ancestor p (Z.of_nat j)) else v !! j.
Proof.
  intros Hp Hone Hsub Hin Hv Hlen. revert v Hin Hv Hlen.
  induction Hp as [p Hprev Hs Hh|p q Hprev Hq IH Hh Hs]; intros v Hin Hv Hlen;
    assert (p ∈ ps) as Hpp by (apply Hsub, ancestry_self);
    rewrite SetTip_loop_unfold, Hprev.
  all: match goal with |- context [if ?b then ?w else _] => destruct b eqn:E end;
    [apply (SetTip_hit ps) in E; [|done..];
     pose proof (proj2 (Hv (Z.to_nat (nHeight p)) p ltac:(lia) E)) as Hi;
     split; [done|]; intros j; destruct (Nat.leb_spec j (Z.to_nat (nHeight p))); [by apply Hi|done]|].
  - rewrite length_insert. split; [done|]. intros j.
    destruct (Nat.leb_spec j (Z.to_nat (nHeight p))).
    + assert (j = Z.to_nat (nHeight p)) as -> by lia. rewrite list_lookup_insert_eq by lia.
      rewrite Z2Nat.id by lia. by rewrite ancestor_self.
    + by rewrite list_lookup_insert_ne by lia.
  - pose proof (wf_height q Hq).
    assert (∀ j, (j <= Z.to_nat (nHeight q))%nat →
      (<[Z.to_nat (nHeight p) := Some p]> v) !! j = v !! j) as Hlow
      by (intros; by rewrite list_lookup_insert_ne by lia).
    destruct (IH ltac:(intros x Hx; by apply Hsub, (ancestry_prev p q Hprev))
      (<[Z.to_nat (nHeight p) := Some p]> v)) as [L R].
    { intros j x Hj. apply list_lookup_insert_Some in Hj as [(_ & [= <-] & _)|[_ Hj]];
        [done|by eapply Hin]. }
    { intros j x Hj Hx. rewrite Hlow in Hx by done. destruct (Hv j x ltac:(lia) Hx) as [? Hi].
      split; [done|]. intros i ?. rewrite Hlow by lia. by apply Hi. }
    { rewrite length_insert. lia. }
    rewrite L, length_insert. split; [done|]. intros j. rewrite R.
    destruct (Nat.leb_spec j (Z.to_nat (nHeight q))), (Nat.leb_spec j (Z.to_nat (nHeight p)));
      try lia.
    + rewrite (ancestor_unfold p), Hprev. destruct (Z.eqb_spec (nHeight p) (Z.of_nat j)); [lia|done].
    + assert (j = Z.to_nat (nHeight p)) as -> by lia.
      rewrite list_lookup_insert_eq, Z2Nat.id by lia. by rewrite ancestor_self.
    + by rewrite list_lookup_insert_ne by lia.
Qed.

(** SetTip reuses what the old chain shares with the new tip. *)
Lemma SetTip_spec ps v p :
  wf_index p → one_object ps → ancestry p ⊆ ps → chain_array v →
  (∀ j q, v !! j = Some (Some q) → q ∈ ps) →
  SetTip (mkChain v) (Some p) = chain_of p.
Proof.
  intros Hp Hone Hsub Hv Hin. pose proof (wf_height p Hp). unfold SetTip. cbn [vChain].
  set (n := Z.to_nat (nHeight p + 1)).
  assert (∀ j q, resize n None v !! j = Some (Some q) → v !! j = Some (Some q) ∧ (j < n)%nat) as Hres.
  { intros j q Hj. destruct (decide (j < n)%nat) as [Hjn|Hjn].
    - split; [|done]. destruct (decide (j < length v)%nat).
      + by rewrite lookup_resize in Hj by lia.
      + by rewrite lookup_resize_new in Hj by lia.
    - by rewrite lookup_resize_old in Hj by lia. }
  destruct (SetTip_loop_spec ps p (resize n None v)) as [L R]; [done..| | | |].
  { intros j q Hj. apply Hres in Hj as [Hj _]. by eapply Hin. }
  { intros j q Hjp [Hj Hjn]%Hres. destruct (Hv j q Hj) as (_ & ? & Hi). split; [done|].
    intros i Hi'. rewrite lookup_resize; [by apply Hi|lia|].
    apply lookup_lt_Some in Hj. lia. }
  { rewrite length_resize. lia. }
  unfold chain_of. f_equal. apply list_eq. intros j. rewrite R.
  destruct (Nat.leb_spec j (Z.to_nat (nHeight p))).
  - rewrite <- (Nat2Z.id j) at 2. pose proof (chain_of_lookup p (Z.of_nat j) Hp ltac:(lia)) as E.
    cbn [vChain chain_of] in E. by rewrite E.
  - pose proof (length_ancestry p Hp).
    rewrite lookup_resize_old by lia.
    symmetry. apply lookup_ge_None. rewrite length_map, length_rev. lia.
Qed.

Lemma chain_array_of t : wf_index t → chain_array (vChain (chain_of t)).
Proof.
  intros Ht j q Hj. pose proof (length_chain_of t Ht).
  pose proof (lookup_lt_Some _ _ _ Hj). rewrite <- (Nat2Z.id j), chain_of_lookup in Hj by (done || lia).
  injection Hj as Ha. destruct (ancestor_exists t (Z.of_nat j) Ht ltac:(lia)) as (a & Ha' & Hh & Hw).
  simplify_eq. split_and!; [done..|]. intros i Hi.
  rewrite <- (Nat2Z.id i), chain_of_lookup by (done || lia). f_equal. rewrite Nat2Z.id.
  eapply ancestor_trans; [done|exact Ha|lia].
Qed.

Lemma chain_of_entries t j q : vChain (chain_of t) !! j = Some (Some q) → q ∈ ancestry t.
Proof.
  cbn. intros (x & [= <-] & Hx)%list_elem_of_lookup_2%list_elem_of_fmap.
  by apply list_elem_of_In, in_rev, list_elem_of_In.
Qed.

(** Paths in a set with one object per hash. *)
Lemma ancestor_in ps p h a :
  wf_index p → ancestry p ⊆ ps → ancestor p h = Some a → a ∈ ps.
Proof.
  intros Hp Hsub Ha. apply Hsub, elem_of_ancestry; [done|].
  by rewrite (ancestor_height _ _ _ Ha).
Qed.

Lemma ancestry_trans p a : wf_index p → a ∈ ancestry p → ancestry a ⊆ ancestry p.
Proof.
  intros Hp Ha x Hx. apply elem_of_ancestry in Ha; [|done].
  pose proof (ancestry_wf p a Hp ltac:(by apply elem_of_ancestry)) as [Hwa _].
  pose proof (ancestry_wf a x Hwa Hx) as [_ Hh].
  apply elem_of_ancestry; [done|]. apply elem_of_ancestry in Hx; [|done].
  rewrite <- Hx. eapply ancestor_trans; [done|exact Ha|lia].
Qed.

(** ** Searching down an ancestry *)

Lemma head_filter {A} (f : A → bool) l :
  head (filter (λ q, f q) l) = None ∧ Forall (λ x, f x = false) l ∨
  ∃ l1 x l2, l = l1 ++ x :: l2 ∧ head (filter (λ q, f q) l) = Some x ∧
    f x = true ∧ Forall (λ x, f x = false) l1.
Proof.
  induction l as [|y l IH]; [by left|]. rewrite filter_cons.
  destruct (decide (f y)) as [Hy|Hy].
  - right. exists [], y, l. split_and!; [done..|by apply Is_true_true|constructor].
  - apply Is_true_false in Hy. destruct IH as [[H1 H2]|(l1 & x & l2 & -> & H1 & H2 & H3)].
    + left. split; [done|by constructor].
    + right. exists (y :: l1), x, l2. split_and!; [done..|by constructor].
Qed.

(** The part of an ancestry above one of its blocks. *)
Lemma ancestry_split p l1 x l2 :
  wf_index p → ancestry p = l1 ++ x :: l2 → Forall (λ y, nHeight x < nHeight y) l1.
Proof.
  intros Hp. revert l1. induction Hp as [p Hprev _ Hh|p q Hprev Hq IH Hh _]; intros l1;
    rewrite ancestry_unfold, Hprev; (destruct l1 as [|y l1]; [constructor|]); cbn; intros [= <- E].
  - by destruct l1.
  - constructor; [|by apply IH]. assert (x ∈ ancestry q) as Hx.
    { rewrite E. apply elem_of_app. right. apply list_elem_of_here. }
    apply ancestry_wf in Hx as [_ ?]; [lia|done].
Qed.

(** The first block of [ancestry p] in the set [f]: none is higher. *)
Lemma head_filter_ancestry p (f : CBlockIndex → bool) :
  wf_index p →
  match head (filter (λ q, f q) (ancestry p)) with
  | Some x => x ∈ ancestry p ∧ f x = true ∧
      ∀ y, y ∈ ancestry p → f y = true → nHeight y <= nHeight x
  | None => ∀ y, y ∈ ancestry p → f y = false
  end.
Proof.
  intros Hp. destruct (head_filter f (ancestry p)) as [[-> H]|(l1 & x & l2 & E & -> & Hx & Hl1)].
  - by rewrite Forall_forall in H.
  - assert (x ∈ ancestry p) as Hin.
    { rewrite E. apply elem_of_app. right. apply list_elem_of_here. }
    split_and!; [done..|]. intros y Hy Hfy.
    assert (y ∉ l1) as Hnot by (intros Hl; rewrite Forall_forall in Hl1; by rewrite (Hl1 y Hl) in Hfy).
    destruct (Z_le_gt_dec (nHeight y) (nHeight x)) as [|Hgt]; [done|exfalso].
    rewrite E in Hy. apply elem_of_app in Hy as [|[->|Hy]%elem_of_cons]; [done|lia|].
    pose proof (ancestry_wf p x Hp Hin) as [Hwx _].
    assert (y ∈ ancestry x) as Hyx; [|apply ancestry_wf in Hyx as [_ ?]; [lia|done]].
    clear Hnot Hl1 Hgt. revert l1 E Hin. induction Hp as [p Hprev _ Hh|p q Hprev Hq IH Hh _]; intros l1;
      rewrite (ancestry_unfold p), Hprev; (destruct l1 as [|z l1]; cbn; intros [= -> E]; intros Hin).
    + subst. by apply elem_of_nil in Hy.
    + by destruct l1.
    + subst. apply (ancestry_prev x q Hprev). done.
    + eapply IH; [exact E|]. rewrite E. apply elem_of_app. right. apply list_elem_of_here.
Qed.

(** ** Fork points *)

(** [r] is the highest block on both ancestries. *)
Definition highest_common (r : option CBlockIndex) (a b : CBlockIndex) : Prop :=
  match r with
  | Some x => x ∈ ancestry a ∧ x ∈ ancestry b ∧
      ∀ y, y ∈ ancestry a → y ∈ ancestry b → nHeight y <= nHeight x
  | None => ∀ y, y ∈ ancestry a → y ∉ ancestry b
  end.

(** Cutting one side at the height of the other keeps the common blocks. *)
Lemma highest_common_cut r a b a' :
  wf_index a → wf_index b → ancestor a (nHeight b) = Some a' →
  highest_common r a' b → highest_common r a b.
Proof.
  intros Ha Hb Hcut. pose proof (ancestor_height _ _ _ Hcut) as Hh.
  assert (a' ∈ ancestry a) as Hin by (apply elem_of_ancestry; congruence).
  assert (∀ y, y ∈ ancestry a → y ∈ ancestry b → y ∈ ancestry a') as Hsame.
  { intros y Hya Hyb. apply ancestry_wf in Hyb as [_ ?]; [|done].
    pose proof (ancestry_wf a a' Ha Hin) as [? _].
    apply elem_of_ancestry; [done|]. apply elem_of_ancestry in Hya; [|done].
    rewrite <- Hya. symmetry. eapply ancestor_trans; [done|exact Hcut|lia]. }
  destruct r as [x|]; cbn.
  - intros (H1 & H2 & H3). split_and!; [by eapply ancestry_trans|done|].
    intros y Hya Hyb. apply H3; [by apply Hsame|done].
  - intros H y Hya Hyb. by eapply H; [apply Hsame|].
Qed.

Lemma highest_common_sym r a b : highest_common r a b → highest_common r b a.
Proof. destruct r as [x|]; cbn; [intros (?&?&?); by eauto|intros H y ? ?; by apply (H y)]. Qed.

(** GetAncestor at a height on the way down. *)
Lemma GetAncestor_cut a h :
  wf_index a → 0 <= h <= nHeight a →
  ∃ a', GetAncestor a h = Ok (Some a') ∧ ancestor a h = Some a' ∧ nHeight a' = h ∧ wf_index a' ∧
        ancestry a' ⊆ ancestry a.
Proof.
  intros Ha Hh. rewrite GetAncestor_spec by done.
  destruct (ancestor_exists a h Ha Hh) as (a' & E & Hh' & Hw). exists a'.
  destruct (Z.leb_spec 0 h), (Z.leb_spec h (nHeight a)); try lia. cbn [andb]. rewrite E.
  split_and!; [done..|]. apply ancestry_trans; [done|]. apply elem_of_ancestry; [done|congruence].
Qed.

Lemma LastCommonAncestor_loop_spec ps a b :
  wf_index a → wf_index b → nHeight a = nHeight b →
  one_object ps → ancestry a ⊆ ps → ancestry b ⊆ ps →
  ∃ r, LastCommonAncestor_loop (ancestry a) (ancestry b) = Ok r ∧ highest_common r a b.
Proof.
  intros Ha. revert b. induction Ha as [a Hpa Hka Hha|a a' Hpa Ha' IH Hha Hka];
    intros b Hb Hh Hone Hsa Hsb;
    pose proof (ptr_eq_spec ps a b Hone ltac:(apply Hsa, ancestry_self) ltac:(apply Hsb, ancestry_self)) as Heq;
    rewrite (ancestry_unfold a), (ancestry_unfold b), Hpa; cbn [LastCommonAncestor_loop];
    destruct (ptr_eq a b) eqn:E.
  1, 3: assert (a = b) as <- by (by apply Heq); exists (Some a); split; [done|]; cbn [highest_common]; split_and!;
    [apply ancestry_self|apply ancestry_self|]; intros y Hy _;
    apply (ancestry_wf a y) in Hy as [_ ?]; [lia|done].
  all: assert (a <> b) as Hne by (intros ->; by rewrite ptr_eq_refl in E).
  - inversion Hb as [? Hpb _ ?|? b' Hpb Hb' Hhb _]; subst; [|pose proof (wf_height _ Hb'); lia].
    exists None. rewrite Hpb. split; [done|]. cbn [highest_common].
    rewrite (ancestry_unfold a), (ancestry_unfold b), Hpa, Hpb. set_solver.
  - inversion Hb as [? Hpb _ ?|? b' Hpb Hb' Hhb _]; subst; [pose proof (wf_height _ Ha'); lia|].
    rewrite Hpb. specialize (IH b' Hb' ltac:(lia) Hone).
    assert (∀ x y, wf_index x → nHeight x < nHeight y → y ∉ ancestry x) as Hhigh
      by (intros x y Hx Hlt Hy; apply ancestry_wf in Hy as [_ ?]; [lia|done]).
    pose proof (Hhigh a' b Ha' ltac:(lia)). pose proof (Hhigh b' a Hb' ltac:(lia)).
    pose proof (ancestry_prev a a' Hpa) as Ha1. pose proof (ancestry_prev b b' Hpb) as Hb1.
    destruct (IH ltac:(set_solver) ltac:(set_solver)) as (r & -> & Hr). clear IH.
    exists r. split; [done|]. destruct r as [x|]; cbn [highest_common] in *;
      rewrite (ancestry_unfold a), (ancestry_unfold b), Hpa, Hpb; clear - Hr Hne H H0; set_solver.
Qed.

(** ** Locators *)

(** [bs] walks down [ancestry p] from [p] to the genesis block. *)
Definition locator_blocks (p : CBlockIndex) (bs : list CBlockIndex) : Prop :=
  head bs = Some p ∧ bs ⊆ ancestry p ∧
  StronglySorted (λ x y, nHeight y < nHeight x) bs ∧
  (∃ g, last bs = Some g ∧ nHeight g = 0).

(** On or off the chain, the next block is the ancestor at the next height. *)
Lemma locator_next ps t p h :
  wf_index t → wf_index p → one_object ps → ancestry t ⊆ ps → ancestry p ⊆ ps → 0 <= h <= nHeight p →
  (if Contains (chain_of t) p then Ok (chain_at (chain_of t) h) else GetAncestor p h)
  = Ok (ancestor p h).
Proof.
  intros Ht Hp Hone Hst Hsp Hh. destruct (Contains (chain_of t) p) eqn:E.
  - apply (Contains_spec ps) in E; [|done..|apply Hsp, ancestry_self].
    pose proof (ancestry_wf t p Ht E) as [_ ?]. rewrite chain_at_of by done.
    destruct (Z.leb_spec 0 h), (Z.leb_spec h (nHeight t)); try lia. cbn [andb]. f_equal.
    apply elem_of_ancestry in E; [|done]. eapply ancestor_trans; [done|exact E|lia].
  - rewrite GetAncestor_spec by done.
    destruct (Z.leb_spec 0 h), (Z.leb_spec h (nHeight p)); try lia. done.
Qed.

Lemma GetLocator_loop_spec ps t p fuel nStep vHave :
  wf_index t → one_object ps → ancestry t ⊆ ps →
  wf_index p → ancestry p ⊆ ps → nHeight p < Z.of_nat fuel → 1 <= nStep →
  ∃ bs, GetLocator_loop fuel (chain_of t) p nStep vHave = Ok (vHave ++ map GetBlockHash bs) ∧
        locator_blocks p bs.
Proof.
  intros Ht Hone Hst. revert p nStep vHave.
  induction fuel as [|fuel IH]; intros p nStep vHave Hp Hsp Hf Hn; pose proof (wf_height p Hp); [lia|].
  cbn [GetLocator_loop]. destruct (Z.eqb_spec (nHeight p) 0) as [H0|H0].
  { exists [p]. split; [done|]. split_and!; [done| |repeat constructor|by exists p].
    intros x Hx. apply list_elem_of_singleton in Hx as ->. apply ancestry_self. }
  set (h := Z.max (nHeight p - nStep) 0). assert (0 <= h < nHeight p) as Hh by lia.
  rewrite (locator_next ps) by (done || lia).
  destruct (GetAncestor_cut p h Hp ltac:(lia)) as (q & _ & Ha & Hqh & Hq & Hsub). rewrite Ha.
  set (vHave' := vHave ++ _). set (nStep' := if 10 <? Z.of_nat (length vHave') then nStep * 2 else nStep).
  destruct (IH q nStep' vHave' Hq ltac:(by etrans)) as (bs & -> & Hhd & Hbs & Hs & g & Hg & Hg0); [lia| |].
  { unfold nStep'. destruct (_ <? _); lia. }
  exists (p :: bs). split.
  { unfold vHave'. cbn [map]. by rewrite <- app_assoc. }
  split_and!.
  - done.
  - intros x [->|Hx]%elem_of_cons; [apply ancestry_self|]. by apply Hsub, Hbs.
  - constructor; [done|]. apply Forall_forall. intros x Hx%Hbs.
    apply ancestry_wf in Hx as [_ ?]; [lia|done].
  - exists g. destruct bs as [|b bs]; [done|]. by rewrite last_cons_cons.
Qed.

(** The first listed block that the other chain has. *)
Lemma FindForkInGlobalIndex_spec (m : gmap (list Z) CBlockIndex) (c : CChain) (bs : list CBlockIndex) :
  (∀ b, b ∈ bs → m !! phashBlock b = Some b) →
  FindForkInGlobalIndex m c (map GetBlockHash bs) =
  match head (filter (λ q, Contains c q) bs) with
  | Some x => Some x
  | None => Genesis c
  end.
Proof.
  intros Hm. induction bs as [|b bs IH]; [done|].
  cbn [map FindForkInGlobalIndex]. unfold GetBlockHash at 1.
  rewrite Hm by apply list_elem_of_here. rewrite filter_cons.
  destruct (decide (Contains c b)) as [Hc|Hc].
  - by rewrite (Is_true_true_1 _ Hc).
  - apply Is_true_false in Hc. rewrite Hc. apply IH.
    intros x Hx. by apply Hm, list_elem_of_further.
Qed.

(** ** Counting rules over the last blocks *)

Definition count_version (minVersion : Z) (l : list CBlockIndex) : Z :=
  Z.of_nat (length (filter (λ p, minVersion <= nVersion p) l)).

(** Stopping at [nRequired] changes no verdict. *)
Lemma IsSuperMajority_loop_spec v l n req found :
  (req <=? IsSuperMajority_loop v l n req found) = (req <=? found + count_version v (take n l)).
Proof.
  unfold count_version. revert l found. induction n as [|n IH]; intros l found; cbn [IsSuperMajority_loop].
  { rewrite take_0, filter_nil. destruct l; by rewrite Z.add_0_r. }
  destruct l as [|p l]; [cbn [take]; by rewrite filter_nil, Z.add_0_r|]. cbn [take]. rewrite filter_cons.
  destruct (Z.ltb_spec found req) as [Hlt|Hge].
  - rewrite IH. destruct (Z.leb_spec v (nVersion p)), (decide (v <= nVersion p)); try lia;
      cbn [length]; f_equal; lia.
  - rewrite !(proj2 (Z.leb_le _ _)) by lia. done.
Qed.

Definition count_ge (m : Z) (l : list Z) : nat := length (filter (λ x, m <= x) l).

Lemma count_ge_perm m l l' : l ≡ₚ l' → count_ge m l = count_ge m l'.
Proof. intros H. unfold count_ge. by rewrite H. Qed.

Lemma count_ge_le m l : (count_ge m l <= length l)%nat.
Proof. apply length_filter. Qed.

(** In a sorted list, an element is at least [m] when enough elements are. *)
Lemma sorted_nth_ge m l k :
  StronglySorted Z.le l → (k < length l)%nat →
  m <= nth k l 0 ↔ (length l - k <= count_ge m l)%nat.
Proof.
  intros Hs. revert k. induction Hs as [|x l Hs IH Hx]; intros k Hk; cbn in Hk; [lia|].
  unfold count_ge. rewrite filter_cons. fold (count_ge m l).
  pose proof (count_ge_le m l).
  destruct (decide (m <= x)) as [Hm|Hm].
  - assert (count_ge m l = length l) as Hall.
    { unfold count_ge. f_equal. clear -Hx Hm. induction Hx as [|y l Hy _ IH]; [done|].
      rewrite filter_cons_True by lia. by rewrite IH. }
    split; [intros _; cbn [length]; unfold count_ge in Hall; lia|intros _].
    destruct k as [|k]; [done|]. cbn in *. rewrite Forall_forall in Hx.
    assert (x <= nth k l 0); [|lia]. apply Hx, list_elem_of_In, nth_In. lia.
  - destruct k as [|k]; cbn [length nth]; [split; [lia|unfold count_ge in *; lia]|].
    rewrite IH by lia. unfold count_ge. split; lia.
Qed.

Lemma median_time_ge m l :
  l <> [] → m <= median_time l ↔ (length l - length l / 2 <= count_ge m l)%nat.
Proof.
  intros Hl. unfold median_time, getz.
  assert (Z.to_nat (Z.of_nat (length l) / 2) = length l / 2)%nat as ->.
  { rewrite <- (Nat2Z.inj_div _ 2), Nat2Z.id. done. }
  rewrite (count_ge_perm m l (merge_sort Z.le l)) by (by rewrite merge_sort_Permutation).
  assert (length l = length (merge_sort Z.le l)) as HL by (by rewrite merge_sort_Permutation).
  rewrite HL. apply sorted_nth_ge; [apply StronglySorted_merge_sort; apply _|].
  rewrite <- HL. apply Nat.div_lt; [|lia]. destruct l; [done|cbn; lia].
Qed.

(** ** The median time past never goes back *)

Lemma median_time_rev l : median_time (rev l) = median_time l.
Proof.
  unfold median_time. rewrite length_rev. f_equal.
  apply (Sorted_unique Z.le); [apply Sorted_merge_sort; apply _..|].
  by rewrite !merge_sort_Permutation, <- Permutation_rev.
Qed.

(** A window that slides over a time above its median. *)
Lemma median_window_step t L :
  L <> [] → median_time (take nMedianTimeSpan L) < t →
  median_time (take nMedianTimeSpan L) <= median_time (take nMedianTimeSpan (t :: L)).
Proof.
  intros HL Ht. change (take nMedianTimeSpan (t :: L)) with (t :: take 10 L).
  set (m := median_time (take nMedianTimeSpan L)) in *.
  assert (take nMedianTimeSpan L <> []) as Hne by (by destruct L).
  pose proof (proj1 (median_time_ge m _ Hne) ltac:(unfold m; lia)) as Hold.
  apply median_time_ge; [done|].
  assert (count_ge m (t :: take 10 L) = S (count_ge m (take 10 L))) as ->.
  { unfold count_ge. rewrite filter_cons_True by lia. done. }
  cbn [length]. clearbody m. unfold nMedianTimeSpan in Hold.
  rewrite length_take in *. destruct (decide (length L <= 10)%nat) as [Hs|Hs].
  - rewrite !take_ge in * by lia. replace (10 `min` length L)%nat with (length L) by lia.
    replace (11 `min` length L)%nat with (length L) in Hold by lia.
    pose proof (Nat.div_mod (length L) 2 ltac:(lia)). pose proof (Nat.div_mod (S (length L)) 2 ltac:(lia)).
    pose proof (Nat.mod_upper_bound (length L) 2 ltac:(lia)).
    pose proof (Nat.mod_upper_bound (S (length L)) 2 ltac:(lia)). lia.
  - replace (10 `min` length L)%nat with 10%nat by lia.
    replace (11 `min` length L)%nat with 11%nat in Hold by lia.
    cbn in Hold. change (S 10 / 2)%nat with 5%nat.
    destruct (lookup_lt_is_Some_2 L 10 ltac:(lia)) as [x Hx].
    rewrite (take_S_r L 10 x Hx) in Hold.
    unfold count_ge in *. rewrite filter_app, length_app in Hold.
    pose proof (length_filter (λ x, m <= x) [x]) as Hone. cbn [length] in Hone. lia.
Qed.

Lemma GetMedianTimePast_step p q :
  pprev p = Some q → GetMedianTimePast q < nTime p → GetMedianTimePast q <= GetMedianTimePast p.
Proof.
  unfold GetMedianTimePast. rewrite !median_time_rev, <- !firstn_map. intros Hp Ht.
  rewrite (ancestry_unfold p), Hp. cbn [map].
  change (take nMedianTimeSpan) with (@firstn Z nMedianTimeSpan) in *.
  apply median_window_step; [|done]. by rewrite ancestry_unfold.
Qed.

(** ** Block trust *)

Lemma compact_value_plus_one c : is_u32 c → (compact_value c mod 2 ^ 256 + 1) mod 2 ^ 256 <> 0.
Proof.
  intros [Hc1 Hc2] E. unfold compact_value in E.
  assert (0 <= c mod 2 ^ 23 < 2 ^ 23) by (apply Z.mod_pos_bound; lia).
  set (m := c mod 2 ^ 23) in *. destruct (Z.leb_spec (c / 2 ^ 24) 3).
  - assert (0 <= m / 2 ^ (8 * (3 - c / 2 ^ 24)) <= m).
    { split; [apply Z.div_pos; [lia|apply Z.pow_pos_nonneg; lia]|apply Z.div_le_upper_bound].
      apply Z.pow_pos_nonneg; lia.
      assert (1 <= 2 ^ (8 * (3 - c / 2 ^ 24))) by (apply (Z.pow_le_mono_r 2 0); lia). nia. }
    rewrite (Z.mod_small (m / _)) in E by lia. rewrite Z.mod_small in E by lia. lia.
  - assert ((m * 2 ^ (8 * (c / 2 ^ 24 - 3))) mod 2 = 0) as Heven.
    { replace (8 * (c / 2 ^ 24 - 3)) with (1 + (8 * (c / 2 ^ 24 - 3) - 1)) by lia.
      rewrite Z.pow_add_r by lia.
      replace (m * (2 ^ 1 * 2 ^ (8 * (c / 2 ^ 24 - 3) - 1)))
        with (m * 2 ^ (8 * (c / 2 ^ 24 - 3) - 1) * 2) by lia. apply Z.mod_mul. lia. }
    rewrite Zplus_mod_idemp_l in E. set (x := m * _) in *. clearbody x.
    apply Z.mod_divide in E as [k Hk]; [|lia].
    assert (x = k * 2 ^ 255 * 2 - 1) as -> by lia. revert Heven. clear. intros H.
    apply Z.mod_divide in H as [j Hj]; lia.
Qed.

Lemma uint256_repr b : is_u64 b → repr 8 (uint256 b) b.
Proof. intros. apply of_u64_repr; [lia|done]. Qed.

(** ** Histories of SetTip *)

Lemma SetTip_from_empty ps p :
  one_object ps → wf_index p → ancestry p ⊆ ps → SetTip (mkChain []) (Some p) = chain_of p.
Proof. intros. apply (SetTip_spec ps); [done..| |]; intros j q Hj; by rewrite lookup_nil in Hj. Qed.

Lemma SetTip_from_chain ps t p :
  one_object ps → wf_index t → ancestry t ⊆ ps → wf_index p → ancestry p ⊆ ps →
  SetTip (chain_of t) (Some p) = chain_of p.
Proof.
  intros Hone Ht Hts Hp Hps. apply (SetTip_spec ps); [done..| |].
  - by apply chain_array_of.
  - intros j q Hj. by apply Hts, (chain_of_entries t j).
Qed.

Lemma SetTip_history ps history :
  one_object ps →
  Forall (λ o, ∀ t, o = Some t → wf_index t ∧ ancestry t ⊆ ps) history →
  foldl SetTip (mkChain []) history = mkChain [] ∨
  ∃ t, wf_index t ∧ ancestry t ⊆ ps ∧ foldl SetTip (mkChain []) history = chain_of t.
Proof.
  intros Hone. induction history as [|o history IH] using rev_ind; [by left|].
  rewrite Forall_app, Forall_singleton, foldl_app. intros [Hh Ho]. cbn [foldl].
  destruct o as [p|]; [|by left]. destruct (Ho p eq_refl) as [Hp Hps].
  right. exists p. split_and!; [done..|]. destruct (IH Hh) as [->|(t & Ht & Hts & ->)].
  - by apply SetTip_from_empty with ps.
  - by apply SetTip_from_chain with ps.
Qed.

Lemma Tip_chain_of t : wf_index t → Tip (chain_of t) false = Some t.
Proof.
  intros Ht. pose proof (wf_height t Ht). pose proof (length_chain_of t Ht) as HL. unfold Tip. rewrite HL.
  destruct (Z.ltb_spec (nHeight t + 1) 1); [lia|].
  replace (length (vChain (chain_of t)) - 1)%nat with (Z.to_nat (nHeight t)) by lia.
  rewrite nth_lookup, chain_of_lookup by (done || lia). by rewrite ancestor_self.
Qed.

Lemma FindFork_loop_spec ps t p :
  one_object ps → wf_index t → ancestry t ⊆ ps → wf_index p → ancestry p ⊆ ps →
  highest_common (head (filter (λ q, Contains (chain_of t) q) (ancestry p))) p t.
Proof.
  intros Hone Ht Hts Hp Hps. pose proof (head_filter_ancestry p (Contains (chain_of t)) Hp) as Hh.
  assert (∀ x, x ∈ ancestry p → Contains (chain_of t) x = true ↔ x ∈ ancestry t) as Hc
    by (intros x Hx; by apply (Contains_spec ps); [..|apply Hps]).
  destruct (head _) as [x|]; cbn.
  - destruct Hh as (Hx & Hcx & Hmax). split_and!; [done|by apply Hc|].
    intros y Hyp Hyt. by apply Hmax, Hc.
  - intros y Hyp Hyt. apply Hc in Hyt; [|done]. by rewrite Hh in Hyt.
Qed.

Lemma FindFork_spec ps t p :
  one_object ps → wf_index t → ancestry t ⊆ ps → wf_index p → ancestry p ⊆ ps →
  ∃ r, FindFork (chain_of t) p = Ok r ∧ highest_common r p t.
Proof.
  intros Hone Ht Hts Hp Hps. pose proof (wf_height t Ht). pose proof (wf_height p Hp).
  unfold FindFork. rewrite Height_chain_of by done.
  destruct (Z.ltb_spec (nHeight t) (nHeight p)).
  - destruct (GetAncestor_cut p (nHeight t) Hp ltac:(lia)) as (a & -> & Ha & Hh & Hw & Hsub).
    eexists. split; [done|]. eapply highest_common_cut; [done..|].
    apply (FindFork_loop_spec ps); [done..|by etrans].
  - eexists. split; [done|]. by apply (FindFork_loop_spec ps).
Qed.

(** Listed downwards, the first block in a set is the highest one in it. *)
Lemma head_filter_sorted (f : CBlockIndex → bool) bs x :
  StronglySorted (λ x y, nHeight y < nHeight x) bs → head (filter (λ q, f q) bs) = Some x →
  x ∈ bs ∧ f x = true ∧ ∀ y, y ∈ bs → f y = true → nHeight y <= nHeight x.
Proof.
  intros Hs. induction Hs as [|b bs Hs IH Hb]; [done|]. rewrite filter_cons.
  destruct (decide (f b)) as [Hf|Hf].
  - intros [= <-]. split_and!; [apply list_elem_of_here|by apply Is_true_true|].
    intros y [->|Hy]%elem_of_cons _; [lia|]. rewrite Forall_forall in Hb. specialize (Hb y Hy). lia.
  - intros (Hx & Hfx & Hmax)%IH. split_and!; [by apply list_elem_of_further|done|].
    intros y [->|Hy]%elem_of_cons Hfy; [|by apply Hmax]. by rewrite Hfy in Hf.
Qed.

Lemma locator_first_common ps ours p bs :
  one_object ps → wf_index ours → ancestry ours ⊆ ps → wf_index p → ancestry p ⊆ ps →
  ancestor p 0 = ancestor ours 0 → locator_blocks p bs →
  ∃ f, head (filter (λ q, Contains (chain_of ours) q) bs) = Some f ∧ f ∈ ancestry ours ∧ f ∈ bs ∧
    (∀ b, b ∈ bs → b ∈ ancestry ours → nHeight b <= nHeight f).
Proof.
  intros Hone Ho Hos Hp Hps H0 (_ & Hsub & Hs & g & Hg & Hg0).
  assert (∀ x, x ∈ bs → Contains (chain_of ours) x = true ↔ x ∈ ancestry ours) as Hc
    by (intros x Hx; by apply (Contains_spec ps); [..|apply Hps, Hsub]).
  assert (g ∈ bs) as Hgb by (by apply last_Some_elem_of).
  assert (g ∈ ancestry ours) as Hgo.
  { pose proof (Hsub g Hgb) as Hgp. apply elem_of_ancestry in Hgp; [|done].
    apply elem_of_ancestry; [done|]. rewrite Hg0 in *. congruence. }
  destruct (head _) as [f|] eqn:E.
  - destruct (head_filter_sorted _ _ _ Hs E) as (Hf & Hcf & Hmax).
    exists f. split_and!; [done|by apply Hc|done|]. intros b Hb Hbo. by apply Hmax, Hc.
  - exfalso. destruct (head_filter (Contains (chain_of ours)) bs) as [[_ Hall]|(? & ? & ? & _ & E' & _)];
      [|congruence]. rewrite Forall_forall in Hall. apply Hc in Hgo; [|done]. by rewrite Hall in Hgo.
Qed.

(** ** Properties *)

(** C28: on a well-formed index GetAncestor, which jumps along the skip list,
    never dereferences a null pointer and finds exactly the block that walking
    [pprev] finds; outside the heights of the ancestry it returns NULL. The skip
    pointer BuildSkip computes for a new block keeps the index well formed. *)
Theorem skip_list_finds_ancestors p :
  wf_index p →
  (∀ h, 0 <= h <= nHeight p →
     ∃ a, GetAncestor p h = Ok (Some a) ∧ ancestor p h = Some a ∧ nHeight a = h ∧ a ∈ ancestry p) ∧
  (∀ h, h < 0 ∨ nHeight p < h → GetAncestor p h = Ok None) ∧
  (∀ b, pprev b = Some p → nHeight b = nHeight p + 1 →
     ∃ s, BuildSkip (pprev b) (nHeight b) = Ok s ∧ (pskip b = s → wf_index b)).
Proof.
  intros Hp. split_and!.
  - intros h Hh. destruct (GetAncestor_cut p h Hp Hh) as (a & ? & ? & ? & ? & Hsub).
    exists a. split_and!; [done..|]. apply Hsub, ancestry_self.
  - intros h Hh. rewrite GetAncestor_spec by done.
    destruct (Z.leb_spec 0 h), (Z.leb_spec h (nHeight p)); (done || lia).
  - intros b Hb Hh. rewrite Hb. eexists. split; [by apply BuildSkip_spec|].
    intros Hs. by eapply wf_child.
Qed.

(** C27: after any sequence of SetTip calls (reorganisations and resets to NULL)
    that ends at [p], the active chain is the path of [p]: its height, its tip,
    the block at every height, and the blocks it contains. *)
Theorem active_chain_is_path_of_tip ps (history : list (option CBlockIndex)) p :
  one_object ps →
  Forall (λ o, ∀ t, o = Some t → wf_index t ∧ ancestry t ⊆ ps) (history ++ [Some p]) →
  let c := foldl SetTip (mkChain []) (history ++ [Some p]) in
  Height c = nHeight p ∧ Tip c false = Some p ∧
  (∀ h, chain_at c h = if (0 <=? h) && (h <=? nHeight p) then ancestor p h else None) ∧
  (∀ x, x ∈ ps → (Contains c x = true ↔ x ∈ ancestry p)) ∧
  (∀ x, x ∈ ancestry p → Next c x = if nHeight x =? nHeight p then None else ancestor p (nHeight x + 1)).
Proof.
  intros Hone. rewrite Forall_app, Forall_singleton. intros [Hhist Hlast] c.
  destruct (Hlast p eq_refl) as [Hp Hsub].
  assert (c = chain_of p) as ->; [|split_and!].
  - unfold c. rewrite foldl_app. cbn [foldl].
    destruct (SetTip_history ps history Hone Hhist) as [->|(t & Ht & Hts & ->)].
    + by apply SetTip_from_empty with ps.
    + by apply SetTip_from_chain with ps.
  - by apply Height_chain_of.
  - by apply Tip_chain_of.
  - intros h. by apply chain_at_of.
  - intros x Hx. by apply (Contains_spec ps).
  - intros x Hx. pose proof (ancestry_wf p x Hp Hx) as [_ ?]. unfold Next.
    rewrite (proj2 (Contains_spec ps p x Hp Hone Hsub (Hsub x Hx))) by done.
    rewrite chain_at_of by done.
    destruct (Z.leb_spec 0 (nHeight x + 1)), (Z.leb_spec (nHeight x + 1) (nHeight p)),
      (Z.eqb_spec (nHeight x) (nHeight p)); (done || lia).
Qed.

(** LastCommonAncestor of two blocks and FindFork against the active chain
    return the highest block on both ancestries, and NULL exactly when they
    share none. *)
Theorem fork_points_are_highest_common ps t p :
  one_object ps → wf_index t → ancestry t ⊆ ps → wf_index p → ancestry p ⊆ ps →
  (∃ r, LastCommonAncestor p t = Ok r ∧ highest_common r p t) ∧
  (∃ r, FindFork (chain_of t) p = Ok r ∧ highest_common r p t).
Proof.
  intros Hone Ht Hts Hp Hps. pose proof (wf_height t Ht). pose proof (wf_height p Hp). split.
  - unfold LastCommonAncestor.
    destruct (Z.ltb_spec (nHeight t) (nHeight p)), (Z.ltb_spec (nHeight p) (nHeight t)); try lia.
    + destruct (GetAncestor_cut p (nHeight t) Hp ltac:(lia)) as (a & -> & Ha & Hh & Hw & Hsub).
      destruct (LastCommonAncestor_loop_spec ps a t) as (r & E & Hr); [done..|by etrans|done|].
      exists r. split; [done|]. by eapply highest_common_cut.
    + destruct (GetAncestor_cut t (nHeight p) Ht ltac:(lia)) as (a & -> & Ha & Hh & Hw & Hsub).
      destruct (LastCommonAncestor_loop_spec ps p a) as (r & E & Hr); [done..|by etrans|].
      exists r. split; [done|]. by apply highest_common_sym, (highest_common_cut _ _ _ a), highest_common_sym.
    + apply (LastCommonAncestor_loop_spec ps); (done || lia).
  - by apply (FindFork_spec ps).
Qed.

(** the locator of a block lists blocks of its own ancestry, strictly
    downwards, from the block itself to the genesis block. A node that knows
    those blocks and has an active chain from the same genesis block answers
    with a block both chains have, the highest listed one that is on its chain. *)
Theorem locator_finds_a_common_block (ps : list CBlockIndex) (m : gmap (list Z) CBlockIndex)
    (ours theirs p : CBlockIndex) :
  one_object ps → wf_index ours → ancestry ours ⊆ ps → wf_index theirs → ancestry theirs ⊆ ps →
  wf_index p → ancestry p ⊆ ps → ancestor p 0 = ancestor ours 0 →
  (∀ b, b ∈ ancestry p → m !! phashBlock b = Some b) →
  ∃ bs f, GetLocator (chain_of theirs) (Some p) = Ok (map GetBlockHash bs) ∧ locator_blocks p bs ∧
    FindForkInGlobalIndex m (chain_of ours) (map GetBlockHash bs) = Some f ∧
    f ∈ ancestry ours ∧ f ∈ bs ∧
    (∀ b, b ∈ bs → b ∈ ancestry ours → nHeight b <= nHeight f).
Proof.
  intros Hone Ho Hos Ht Hts Hp Hps H0 Hm. pose proof (wf_height p Hp).
  destruct (GetLocator_loop_spec ps theirs p (Z.to_nat (nHeight p) + 1) 1 []) as (bs & E & Hl);
    [done..|lia|lia|].
  destruct (locator_first_common ps ours p bs) as (f & Hf & Hfo & Hfb & Hmax); [done..|].
  exists bs, f. split_and!; [done..| |done|done|done].
  rewrite FindForkInGlobalIndex_spec; [by rewrite Hf|].
  intros b Hb. apply Hm. destruct Hl as (_ & Hsub & _). by apply Hsub.
Qed.

(** IsSuperMajority holds exactly when at least [nRequired] of the last
    [nToCheck] blocks up to [pstart] have the version; stopping early changes
    no verdict. *)
Theorem super_majority_counts_versions nToCheck minVersion p nRequired :
  IsSuperMajority nToCheck minVersion (Some p) nRequired
  = (nRequired <=? Z.of_nat (length (filter (λ q, minVersion <= nVersion q)
                                       (take (Z.to_nat nToCheck) (ancestry p))))).
Proof. unfold IsSuperMajority. by rewrite IsSuperMajority_loop_spec. Qed.

(** when every block of a branch is later than the median time past of its
    predecessor, as ContextualCheckBlockHeader demands, the median time past
    never decreases along the branch, shorter windows near the genesis block
    included. *)
Theorem median_time_past_is_monotone p :
  (∀ a q, a ∈ ancestry p → pprev a = Some q → GetMedianTimePast q < GetBlockTime a) →
  ∀ a, a ∈ ancestry p → GetMedianTimePast a <= GetMedianTimePast p.
Proof.
  induction p as [p IH _] using CBlockIndex_tree_ind. intros Ht a.
  rewrite ancestry_unfold, elem_of_cons. intros [->|Ha]; [lia|].
  destruct (pprev p) as [q|] eqn:Hq; [|by apply elem_of_nil in Ha].
  etrans; [apply (IH q eq_refl); [|done]|].
  - intros b c Hb. by apply Ht, (ancestry_prev p q Hq).
  - apply GetMedianTimePast_step; [done|]. by apply Ht; [apply ancestry_self|].
Qed.

(** GetBlockTrust of a proof-of-work block is [max 1 ((2^236-1)/(target+1))];
    of a proof-of-stake block it is always zero, since [uint256(1) << 256] is
    zero and not [2^256]. *)
Theorem block_trust_of_stake_is_zero p :
  is_u32 (nBits p) → compact_value (nBits p) mod 2 ^ 256 <> 0 →
  ∃ a, GetBlockTrust p = Ok a ∧
       repr 8 a (if IsProofOfStake p then 0
                 else Z.max 1 ((2 ^ 236 - 1) / (compact_value (nBits p) mod 2 ^ 256 + 1))).
Proof.
  intros Hb H0. unfold GetBlockTrust.
  destruct (SetCompact_repr (nBits p) Hb) as (T & -> & HT).
  pose proof (compact_value_plus_one (nBits p) Hb) as Hp1.
  set (t := compact_value (nBits p) mod 2 ^ 256) in *. clearbody t.
  pose proof (repr_range _ _ _ HT). assert (modulus 8 = 2 ^ 256) as EM by done. rewrite EM in *.
  destruct (compare_ops_repr _ _ _ _ _ HT (uint256_repr 0 ltac:(done))) as (_ & _ & -> & _).
  destruct (Z.leb_spec t 0); [lia|].
  pose proof (op_add_repr _ _ _ _ _ HT (uint256_repr 1 ltac:(done))) as Hden. rewrite EM in Hden.
  destruct (IsProofOfStake p).
  - pose proof (op_shl_repr _ _ _ 256 ltac:(lia) (uint256_repr 1 ltac:(done))) as Hnum.
    destruct (op_div_repr 8 _ _ _ _ ltac:(lia) Hnum Hden Hp1) as (q & -> & Hq). by exists q.
  - assert (t + 1 < 2 ^ 256) as Hlt.
    { destruct (Z.eq_dec (t + 1) (2 ^ 256)) as [E|]; [|lia]. rewrite E, Z.mod_same in Hp1 by lia. lia. }
    pose proof (op_not_repr _ _ _ (uint256_repr 0 ltac:(done))) as Hnot.
    pose proof (op_shr_repr _ _ _ 20 ltac:(lia) Hnot) as Hnum.
    destruct (op_div_repr 8 _ _ _ _ ltac:(lia) Hnum Hden Hp1) as (q & -> & Hq).
    rewrite Z.mod_small in Hq by lia. change (Z.shiftr (modulus 8 - 1 - 0) 20) with (2 ^ 236 - 1) in Hq.
    destruct (compare_ops_repr _ _ _ _ _ Hq (uint256_repr 1 ltac:(done))) as (_ & -> & _).
    destruct (Z.ltb_spec 1 ((2 ^ 236 - 1) / (t + 1))).
    + exists q. split; [done|]. by rewrite Z.max_r by lia.
    + exists (uint256 1). split; [done|]. rewrite Z.max_l by lia. by apply uint256_repr.
Qed.

(** ** A small block tree, for the witnesses *)

(** A block under [q], linked as AddToBlockIndex does. *)
Definition ex_block (q : option CBlockIndex) (hash version time flags : Z) : CBlockIndex :=
  let h := match q with Some q => nHeight q + 1 | None => 0 end in
  mkBlockIndex (uint256 hash) q
    (match BuildSkip q h with Ok s => s | Throw _ => None end) h
    (uint256 0) (uint256 0) flags 0 0 ([], 0) 0 [] version [] time 453050367 0.

Definition ex0 := ex_block None 100 1 1000 0.
Definition ex1 := ex_block (Some ex0) 101 1 1010 0.
Definition ex2 := ex_block (Some ex1) 102 2 1020 0.
Definition ex3 := ex_block (Some ex2) 103 2 1015 0.
Definition ex4 := ex_block (Some ex3) 104 2 1040 1.
Definition ey3 := ex_block (Some ex2) 203 1 1030 0.
Definition ex_all := [ex0; ex1; ex2; ex3; ex4; ey3].

Lemma ex_block_wf q hash v t f :
  wf_index q → wf_index (ex_block (Some q) hash v t f).
Proof.
  intros Hq. apply (wf_child _ q); [done..|]. unfold ex_block. cbn [pskip nHeight].
  by rewrite (BuildSkip_spec q (nHeight q + 1) Hq eq_refl).
Qed.

Lemma ex_wf : wf_index ex4 ∧ wf_index ey3.
Proof. split; repeat apply ex_block_wf; by apply wf_genesis. Qed.

Lemma NoDup_one_object ps : NoDup (map phashBlock ps) → one_object ps.
Proof.
  intros H a b [i Hi]%list_elem_of_lookup_1 [j Hj]%list_elem_of_lookup_1 E.
  assert (i = j) as ->; [|congruence].
  eapply (NoDup_lookup _ i j (phashBlock a) H); rewrite list_lookup_fmap; [by rewrite Hi|].
  by rewrite Hj, E.
Qed.

Lemma ex_one_object : one_object ex_all.
Proof. apply NoDup_one_object. by apply (bool_decide_unpack _). Qed.

Lemma ex4_path : ancestry ex4 = [ex4; ex3; ex2; ex1; ex0].
Proof. reflexivity. Qed.

Lemma ey3_path : ancestry ey3 = [ey3; ex2; ex1; ex0].
Proof. reflexivity. Qed.

Lemma ex4_sub : ancestry ex4 ⊆ ex_all.
Proof.
  rewrite ex4_path. unfold ex_all. generalize ex0 ex1 ex2 ex3 ex4 ey3. set_solver.
Qed.

Lemma ey3_sub : ancestry ey3 ⊆ ex_all.
Proof.
  rewrite ey3_path. unfold ex_all. generalize ex0 ex1 ex2 ex3 ex4 ey3. set_solver.
Qed.

(** ** Witnesses *)

Lemma skip_list_finds_ancestors_witness :
  (∀ h, 0 <= h <= nHeight ex4 →
     ∃ a, GetAncestor ex4 h = Ok (Some a) ∧ ancestor ex4 h = Some a ∧ nHeight a = h ∧ a ∈ ancestry ex4) ∧
  (∀ h, h < 0 ∨ nHeight ex4 < h → GetAncestor ex4 h = Ok None) ∧
  (∀ b, pprev b = Some ex4 → nHeight b = nHeight ex4 + 1 →
     ∃ s, BuildSkip (pprev b) (nHeight b) = Ok s ∧ (pskip b = s → wf_index b)).
Proof. apply (skip_list_finds_ancestors ex4). apply ex_wf. Defined.

Lemma active_chain_is_path_of_tip_witness :
  let c := foldl SetTip (mkChain []) ([Some ex4; None; Some ex3] ++ [Some ey3]) in
  Height c = nHeight ey3 ∧ Tip c false = Some ey3 ∧
  (∀ h, chain_at c h = if (0 <=? h) && (h <=? nHeight ey3) then ancestor ey3 h else None) ∧
  (∀ x, x ∈ ex_all → (Contains c x = true ↔ x ∈ ancestry ey3)) ∧
  (∀ x, x ∈ ancestry ey3 → Next c x = if nHeight x =? nHeight ey3 then None else ancestor ey3 (nHeight x + 1)).
Proof.
  apply (active_chain_is_path_of_tip ex_all [Some ex4; None; Some ex3] ey3 ex_one_object).
  destruct ex_wf as [H4 Hy]. pose proof ex4_sub as S4. pose proof ey3_sub as Sy.
  repeat apply Forall_cons_2; try apply Forall_nil_2; intros t E; try discriminate E;
    injection E as <-; (split; [|]); try done.
  - by repeat apply ex_block_wf; apply wf_genesis.
  - intros x Hx. apply S4. by apply (ancestry_prev ex4 ex3).
Defined.

Lemma fork_points_are_highest_common_witness :
  (∃ r, LastCommonAncestor ex4 ey3 = Ok r ∧ highest_common r ex4 ey3) ∧
  (∃ r, FindFork (chain_of ey3) ex4 = Ok r ∧ highest_common r ex4 ey3).
Proof.
  apply (fork_points_are_highest_common ex_all ey3 ex4 ex_one_object (proj2 ex_wf) ey3_sub
    (proj1 ex_wf) ex4_sub).
Defined.

Lemma locator_finds_a_common_block_witness :
  ∃ bs f, GetLocator (chain_of ex4) (Some ex4) = Ok (map GetBlockHash bs) ∧ locator_blocks ex4 bs ∧
    FindForkInGlobalIndex (list_to_map (map (λ b, (phashBlock b, b)) ex_all)) (chain_of ey3)
      (map GetBlockHash bs) = Some f ∧
    f ∈ ancestry ey3 ∧ f ∈ bs ∧
    (∀ b, b ∈ bs → b ∈ ancestry ey3 → nHeight b <= nHeight f).
Proof.
  apply (locator_finds_a_common_block ex_all _ ey3 ex4 ex4 ex_one_object (proj2 ex_wf) ey3_sub
    (proj1 ex_wf) ex4_sub (proj1 ex_wf) ex4_sub); [reflexivity|].
  intros b Hb. rewrite ex4_path in Hb. rewrite !elem_of_cons, elem_of_nil in Hb.
  destruct Hb as [->|[->|[->|[->|[->|[]]]]]]; reflexivity.
Defined.

Lemma median_time_past_is_monotone_witness : GetMedianTimePast ex2 <= GetMedianTimePast ex4.
Proof.
  apply (median_time_past_is_monotone ex4).
  - intros a q Ha. rewrite ex4_path, !elem_of_cons, elem_of_nil in Ha.
    destruct Ha as [->|[->|[->|[->|[->|[]]]]]]; intros [= <-]; vm_compute; reflexivity.
  - rewrite ex4_path. generalize ex0 ex1 ex2 ex3 ex4. set_solver.
Defined.

Lemma block_trust_of_stake_is_zero_witness :
  ∃ a, GetBlockTrust ex4 = Ok a ∧
       repr 8 a (if IsProofOfStake ex4 then 0
                 else Z.max 1 ((2 ^ 236 - 1) / (compact_value (nBits ex4) mod 2 ^ 256 + 1))).
Proof.
  apply (block_trust_of_stake_is_zero ex4); [|by vm_compute].
  split; [by vm_compute|by vm_compute].
Defined.
