(* ===== verification/Params.v ===== *)
(** * chainparams.h and chainparams.cpp: the consensus parameters

    The numeric and boolean parameters of the four networks. Network addresses,
    seeds, keys, genesis transactions and checkpoints are not modelled. *)

From S2P Require Import Prelude StrEncodings Uint256.

(** amount.h *)
Definition COIN : Z := 100000000.
Definition CENT : Z := 1000000.

Inductive Network := MAIN | TESTNET | REGTEST | UNITTEST.

Record CChainParams := mkParams {
  networkID : Network;
  bnProofOfWorkLimit : list Z;
  nMaxReorganizationDepth : Z;
  nEnforceBlockUpgradeMajority : Z;
  nRejectBlockOutdatedMajority : Z;
  nToCheckBlockUpgradeMajority : Z;
  nTargetTimespan : Z;
  nTargetSpacing : Z;
  nStakeMinAge : Z;
  nLastPOWBlock : Z;
  nMasternodeCountDrift : Z;
  nMaturity : Z;
  nModifierUpdateBlock : Z;
  nMaxMoneyOut : Z;
  fRequireStandard : bool;
  fAllowMinDifficultyBlocks : bool;
  fSkipProofOfWorkCheck : bool;
  nPoolMaxTransactions : Z;
  nEnforceNewSporkKey : Z;
  nRejectOldSporkKey : Z;
  nStartMasternodePayments : Z;
  nBudget_Fee_Confirmations : Z
}.

Definition CMainParams : CChainParams :=
  mkParams MAIN (op_shr (op_not (uint256 0)) 20) 100 750 950 1000 (10 * 60) (1 * 60) (60 * 60)
    57601 20 25 50 (100000000 * COIN) true false false 3 1554685200 1557277200 (1545670000 + 5400) 6.

(** The constructor of CTestNetParams runs after the one of CMainParams. *)
Definition CTestNetParams : CChainParams :=
  mkParams TESTNET (op_shr (op_not (uint256 0)) 20) 100 750 950 1000 (10 * 60) (1 * 60) (60 * 60)
    300 20 25 50 (100000000 * COIN) true false false 3 1554685200 1557277200 (1596132246 + 5400) 6.

(** And CRegTestParams after CTestNetParams. *)
Definition CRegTestParams : CChainParams :=
  mkParams REGTEST (op_shr (op_not (uint256 0)) 1) 100 750 950 1000 (24 * 60 * 60) (1 * 60) (20 * 60)
    300 20 25 50 (100000000 * COIN) false true false 3 1554685200 1557277200 (1596132246 + 5400) 6.

Definition CUnitTestParams : CChainParams :=
  mkParams UNITTEST (op_shr (op_not (uint256 0)) 20) 100 750 950 1000 (10 * 60) (1 * 60) (60 * 60)
    57601 20 25 50 (100000000 * COIN) true false false 3 1554685200 1557277200 (1545670000 + 5400) 6.

(** [Params(network)]. *)
Definition Params (network : Network) : CChainParams :=
  match network with
  | MAIN => CMainParams
  | TESTNET => CTestNetParams
  | REGTEST => CRegTestParams
  | UNITTEST => CUnitTestParams
  end.
