(* ===== verification/Pow.v ===== *)
(** * pow.cpp: difficulty targets and chain work

    GetNextWorkRequired on the block index of Chain.v: the proof-of-work
    retarget over the last 24 blocks and the proof-of-stake retarget over the
    last spacing. Multiplying by an [int64_t] selects
    [operator*=(uint32_t)], so the factor is truncated to 32 bits; dividing by
    one converts it to [uint64_t]. [uint_error] is the exception of a division
    by zero. *)

From S2P Require Import Prelude StrEncodings Uint256 Chain Params.

Local Open Scope node_scope.

Inductive pow_error := PowNull | PowDivision (e : uint_error) | PowShort.

Definition of_div {A} (r : result uint_error A) : result pow_error A :=
  match r with Ok a => Ok a | Throw e => Throw (PowDivision e) end.

(** The result of GetCompact on a 256-bit number. *)
Definition compact256 (a : list Z) : result pow_error Z :=
  match GetCompact a false with Some c => Ok c | None => Throw PowShort end.

Definition bnTargetLimit : list Z := op_shr (op_not (uint256 0)) 24.

(** The proof-of-stake branch, once the spacing is known. *)
Definition PoSRetarget (params : CChainParams) (nBits nActualSpacing : Z) : result pow_error Z :=
  let nActualSpacing := if nActualSpacing <? 0 then 1 else nActualSpacing in
  let '(bnNew, _, _) := SetCompact nBits in
  let nInterval := Z.quot (nTargetTimespan params) (nTargetSpacing params) in
  let bnNew := op_mul32 bnNew
    (u32 ((nInterval - 1) * nTargetSpacing params + nActualSpacing + nActualSpacing)) in
  let! bnNew := of_div (op_div bnNew (uint256 (u64 ((nInterval + 1) * nTargetSpacing params)))) in
  compact256 (if op_le bnNew (uint256 0) || op_gt bnNew bnTargetLimit then bnTargetLimit else bnNew).

Definition PastBlocksMin : Z := 24.
Definition PastBlocksMax : Z := 24.

(** The variables of the loop over past blocks. *)
Record DGW := mkDGW {
  nActualTimespan : Z;
  LastBlockTime : Z;
  CountBlocks : Z;
  PastDifficultyAverage : list Z;
  PastDifficultyAveragePrev : list Z
}.

(** One turn, on the block [BlockReading]. *)
Definition DGW_step (st : DGW) (BlockReading : CBlockIndex) : result pow_error DGW :=
  let CountBlocks := CountBlocks st + 1 in
  let target := fst (fst (SetCompact (nBits BlockReading))) in
  let! avgs :=
    (if CountBlocks <=? PastBlocksMin
     then let! avg :=
            (if CountBlocks =? 1 then Ok target
             else of_div (op_div (op_add (op_mul32 (PastDifficultyAveragePrev st) (u32 CountBlocks)) target)
                                 (uint256 (u64 (CountBlocks + 1))))) in
          Ok (avg, avg)
     else Ok (PastDifficultyAverage st, PastDifficultyAveragePrev st)) in
  Ok (mkDGW (if 0 <? LastBlockTime st
             then nActualTimespan st + (LastBlockTime st - GetBlockTime BlockReading)
             else nActualTimespan st)
            (GetBlockTime BlockReading) CountBlocks (fst avgs) (snd avgs)).

(** The loop, on the blocks from [pindexLast] down. *)
Fixpoint DGW_loop (i : Z) (st : DGW) (blocks : list CBlockIndex) : result pow_error DGW :=
  match blocks with
  | [] => Ok st
  | BlockReading :: blocks =>
      if nHeight BlockReading <=? 0 then Ok st
      else if (0 <? PastBlocksMax) && (PastBlocksMax <? i) then Ok st
      else let! st := DGW_step st BlockReading in DGW_loop (i + 1) st blocks
  end.

Definition DGW_start : DGW := mkDGW 0 0 0 (uint256 0) (uint256 0).

(** What follows the loop. *)
Definition DGWRetarget (params : CChainParams) (st : DGW) : result pow_error Z :=
  let _nTargetTimespan := CountBlocks st * nTargetSpacing params in
  let t := nActualTimespan st in
  let t := if t <? Z.quot _nTargetTimespan 3 then Z.quot _nTargetTimespan 3 else t in
  let t := if _nTargetTimespan * 3 <? t then _nTargetTimespan * 3 else t in
  let bnNew := op_mul32 (PastDifficultyAverage st) (u32 t) in
  let! bnNew := of_div (op_div bnNew (uint256 (u64 _nTargetTimespan))) in
  compact256 (if op_gt bnNew (bnProofOfWorkLimit params) then bnProofOfWorkLimit params else bnNew).

Definition GetNextWorkRequired (params : CChainParams) (pindexLast : option CBlockIndex)
  : result pow_error Z :=
  match pindexLast with
  | None => compact256 (bnProofOfWorkLimit params)
  | Some p =>
      if (nHeight p =? 0) || (nHeight p <? PastBlocksMin)
      then compact256 (bnProofOfWorkLimit params)
      else if nLastPOWBlock params <? nHeight p
      then let! nActualSpacing :=
             (if nHeight p =? 0 then Ok 0
              else match pprev p with
                   | Some q => Ok (GetBlockTime p - GetBlockTime q)
                   | None => Throw PowNull
                   end) in
           PoSRetarget params (nBits p) nActualSpacing
      else let! st := DGW_loop 1 DGW_start (blocks_from (Some p)) in DGWRetarget params st
  end.

Definition CheckProofOfWork (params : CChainParams) (hash : list Z) (nBits : Z) : bool :=
  if fSkipProofOfWorkCheck params then true
  else let '(bnTarget, fNegative, fOverflow) := SetCompact nBits in
       if fNegative || EqualTo bnTarget 0 || fOverflow || op_gt bnTarget (bnProofOfWorkLimit params)
       then false
       else if op_gt hash bnTarget then false
       else true.

Definition GetBlockProof (block : CBlockIndex) : result pow_error (list Z) :=
  let '(bnTarget, fNegative, fOverflow) := SetCompact (nBits block) in
  if fNegative || fOverflow || EqualTo bnTarget 0 then Ok (uint256 0)
  else let! q := of_div (op_div (op_not bnTarget) (op_add bnTarget (uint256 1))) in
       Ok (op_add q (uint256 1)).

(** ** Targets *)

(** The target a compact number stands for, in 256 bits. *)
Definition target (c : Z) : Z := compact_value c mod 2 ^ 256.

Lemma target_range c : 0 <= target c < 2 ^ 256.
Proof. apply Z.mod_pos_bound. lia. Qed.

Lemma SetCompact_target c :
  is_u32 c →
  ∃ a, SetCompact c = (a, compact_negative c, 2 ^ 256 <=? compact_value c) ∧ repr 8 a (target c).
Proof. apply SetCompact_repr. Qed.

Lemma compact_value_nonneg c : 0 <= c → 0 <= compact_value c.
Proof.
  intros Hc. unfold compact_value. pose proof (Z.mod_pos_bound c (2 ^ 23) ltac:(lia)).
  destruct (_ <=? 3) eqn:E.
  - apply Z.div_pos; [lia|]. apply Z.pow_pos_nonneg; [lia|].
    apply Z.leb_le in E. lia.
  - apply Z.mul_nonneg_nonneg; [lia|]. apply Z.pow_nonneg. lia.
Qed.

Lemma compact256_repr a x : repr 8 a x → compact256 a = Ok (compact_of x).
Proof. intros Ha. unfold compact256. by rewrite (GetCompact_repr a x Ha). Qed.

Lemma bnTargetLimit_repr : repr 8 bnTargetLimit (2 ^ 232 - 1).
Proof. apply reprb_repr. by vm_compute. Qed.

Lemma compact_drop_le x : 0 < x → 2 ^ compact_drop x <= x.
Proof.
  intros Hx. pose proof (compact_drop_bound x ltac:(lia)) as [? Hd].
  pose proof (Z.log2_spec x Hx) as [Hl _]. pose proof (Z.log2_nonneg x).
  etrans; [|exact Hl]. apply Z.pow_le_mono_r; [lia|].
  unfold bitlen in Hd. destruct (Z.eqb_spec x 0); lia.
Qed.

(** A number survives its compact form rounded down, never to zero. *)
Lemma compact_of_value x :
  0 < x < 2 ^ 256 →
  is_u32 (compact_of x) ∧ compact_negative (compact_of x) = false ∧
  0 < compact_value (compact_of x) <= x.
Proof.
  intros Hx. destruct (compact_value_of x 32 ltac:(lia) ltac:(lia)) as (Hu & Hb & Hv).
  split_and!; [done| | |].
  - unfold compact_negative. by rewrite Hb, andb_false_r.
  - rewrite Hv. assert (0 < 2 ^ compact_drop x) by (apply Z.pow_pos_nonneg; unfold compact_drop; lia).
    apply Z.mul_pos_pos; [|done]. apply Z.div_str_pos. split; [lia|].
    apply compact_drop_le. lia.
  - rewrite Hv, Z.mul_comm. apply Z.mul_div_le. apply Z.pow_pos_nonneg; unfold compact_drop; lia.
Qed.

(** ** The proof-of-stake retarget *)

Definition pos_spacing (s : Z) : Z := if s <? 0 then 1 else s.

(** The new target: one step of exponential averaging, kept in [1 .. 2^232-1]. *)
Definition pos_target (T I S s : Z) : Z :=
  let n := T * ((I - 1) * S + 2 * pos_spacing s) / ((I + 1) * S) in
  if (n =? 0) || (2 ^ 232 - 1 <? n) then 2 ^ 232 - 1 else n.

(** The same computation as the machine does it. *)
Definition pos_product (T f : Z) : Z := (u32 f * T) mod 2 ^ 256.

Lemma PoSRetarget_repr params c s :
  is_u32 c →
  let I := Z.quot (nTargetTimespan params) (nTargetSpacing params) in
  0 < (I + 1) * nTargetSpacing params < 2 ^ 64 →
  let n := pos_product (target c) ((I - 1) * nTargetSpacing params + 2 * pos_spacing s)
             / ((I + 1) * nTargetSpacing params) in
  PoSRetarget params c s
  = Ok (compact_of (if (n =? 0) || (2 ^ 232 - 1 <? n) then 2 ^ 232 - 1 else n)).
Proof.
  intros Hc I HS n. unfold PoSRetarget. fold I. fold (pos_spacing s).
  destruct (SetCompact_target c Hc) as (a & -> & Ha).
  set (f := (I - 1) * nTargetSpacing params + pos_spacing s + pos_spacing s).
  pose proof (op_mul32_repr _ _ _ (u32 f) Ha) as Hm. rewrite wrap_wrap in Hm.
  change (modulus 8) with (2 ^ 256) in Hm. rewrite (wrap_small 64) by (unfold in_uw; lia).
  destruct (op_div_repr 8 _ _ _ _ ltac:(lia) Hm (uint256_repr ((I + 1) * nTargetSpacing params) ltac:(unfold in_uw; lia)) ltac:(lia))
    as (q & -> & Hq). cbn [of_div rbind].
  assert ((u32 f * target c) mod 2 ^ 256 / ((I + 1) * nTargetSpacing params) = n) as En.
  { unfold n, pos_product, f. do 4 f_equal. lia. }
  rewrite En in Hq. pose proof (repr_range _ _ _ Hq).
  destruct (compare_ops_repr _ _ _ _ _ Hq (uint256_repr 0 ltac:(done))) as (_ & _ & -> & _).
  destruct (compare_ops_repr _ _ _ _ _ Hq bnTargetLimit_repr) as (_ & -> & _).
  clearbody n. destruct (Z.leb_spec n 0), (Z.eqb_spec n 0); try lia; cbn [orb].
  - apply compact256_repr, bnTargetLimit_repr.
  - destruct (2 ^ 232 - 1 <? n); apply compact256_repr; [apply bnTargetLimit_repr|done].
Qed.

(** ** The proof-of-work retarget *)

(** The running average the loop computes over targets, newest first: the
    first target counts twice. *)
Fixpoint dgw_average (k a : Z) (targets : list Z) : Z :=
  match targets with
  | [] => a
  | T :: targets => dgw_average (k + 1) (if k =? 0 then T else (a * (k + 1) + T) / (k + 2)) targets
  end.

(** A weighted average stays below the common bound. *)
Lemma average_bound a T k M : 0 <= a <= M → 0 <= T <= M → 0 <= k → 0 <= (a * (k + 1) + T) / (k + 2) <= M.
Proof.
  intros Ha HT Hk. split; [apply Z.div_pos; nia|].
  apply Z.div_le_upper_bound; nia.
Qed.

Lemma dgw_average_bound targets k a M :
  0 <= k → 0 <= a <= M → Forall (λ T, 0 <= T <= M) targets → 0 <= dgw_average k a targets <= M.
Proof.
  intros Hk Ha H. revert k a Hk Ha. induction H as [|T targets HT _ IH]; intros k a Hk Ha; [done|].
  cbn [dgw_average]. apply IH; [lia|]. destruct (k =? 0); [done|]. by apply average_bound.
Qed.

(** A state of the loop after [k] blocks. *)
Record dgw_repr (st : DGW) (k a span last : Z) : Prop := {
  dgw_count : CountBlocks st = k;
  dgw_avg : repr 8 (PastDifficultyAverage st) a;
  dgw_prev : repr 8 (PastDifficultyAveragePrev st) a;
  dgw_span : nActualTimespan st = span;
  dgw_last : LastBlockTime st = last
}.

Lemma DGW_step_spec st b k a span last M :
  dgw_repr st k a span last → 0 <= k < 24 → 0 <= a <= M → M * 26 < 2 ^ 256 →
  is_u32 (nBits b) → target (nBits b) <= M →
  ∃ st', DGW_step st b = Ok st' ∧
    dgw_repr st' (k + 1) (if k =? 0 then target (nBits b) else (a * (k + 1) + target (nBits b)) / (k + 2))
      (if 0 <? last then span + (last - nTime b) else span) (nTime b).
Proof.
  intros [Hk Ha Hp Hs Hl] Hk24 HaM HM Hb HT. unfold DGW_step. rewrite Hk, Hs, Hl.
  destruct (SetCompact_target (nBits b) Hb) as (t & -> & Ht). cbn [fst].
  pose proof (target_range (nBits b)). unfold PastBlocksMin.
  destruct (Z.leb_spec (k + 1) 24); [|lia].
  destruct (Z.eqb_spec (k + 1) 1), (Z.eqb_spec k 0); try lia; cbn [rbind].
  { eexists. split; [done|]. by split. }
  rewrite (wrap_small 32) by (unfold in_uw; lia). rewrite (wrap_small 64) by (unfold in_uw; lia).
  pose proof (op_mul32_repr _ _ _ (k + 1) Hp) as Hm.
  rewrite (wrap_small 32) in Hm by (unfold in_uw; lia). change (modulus 8) with (2 ^ 256) in Hm.
  rewrite Z.mod_small in Hm by nia.
  pose proof (op_add_repr _ _ _ _ _ Hm Ht) as Hsum. change (modulus 8) with (2 ^ 256) in Hsum.
  rewrite Z.mod_small in Hsum by nia.
  destruct (op_div_repr 8 _ _ _ _ ltac:(lia) Hsum (uint256_repr (k + 1 + 1) ltac:(unfold in_uw; lia)) ltac:(lia))
    as (q & -> & Hq). cbn [of_div rbind fst snd].
  replace (k + 1 + 1) with (k + 2) in Hq by lia.
  rewrite (Z.mul_comm (k + 1)) in Hq.
  eexists. split; [done|]. by split.
Qed.

(** The loop over the next blocks of a 24-block window, after the first one. *)
Lemma DGW_loop_spec bs rest st k a span last M :
  dgw_repr st k a span last → 1 <= k → k + Z.of_nat (length bs) = 24 → 0 <= a <= M → M * 26 < 2 ^ 256 →
  0 < last →
  Forall (λ b, 0 < nHeight b ∧ 0 < nTime b ∧ is_u32 (nBits b) ∧ target (nBits b) <= M) bs →
  ∃ st', DGW_loop (k + 1) st (bs ++ rest) = Ok st' ∧
    dgw_repr st' 24 (dgw_average k a (map (λ b, target (nBits b)) bs))
      (span + (last - default last (nTime <$> list.last bs))) (default last (nTime <$> list.last bs)).
Proof.
  intros Hst Hk Hlen Ha HM Hlast Hbs. revert st k a span last Hst Hk Hlen Ha Hlast.
  induction Hbs as [|b bs (Hh & Ht & Hb & HT) _ IH]; intros st k a span last Hst Hk Hlen Ha Hlast.
  - cbn in Hlen. cbn [map app dgw_average list.last fmap option_fmap option_map default].
    exists st. replace (span + (last - last)) with span by lia. assert (k = 24) as -> by lia.
    split; [|done]. destruct rest as [|b rest]; [done|]. cbn [DGW_loop].
    destruct (_ <=? 0); done.
  - cbn [app DGW_loop map dgw_average]. cbn [length] in Hlen.
    destruct (Z.leb_spec (nHeight b) 0); [lia|].
    unfold PastBlocksMax. destruct (Z.ltb_spec 24 (k + 1)); [lia|]. cbn [andb Z.ltb Z.compare].
    destruct (DGW_step_spec st b k a span last M Hst) as (st1 & -> & Hst1); [done||lia..|].
    cbn [rbind]. destruct (Z.ltb_spec 0 last); [|lia]. pose proof (target_range (nBits b)).
    destruct (IH st1 (k + 1) _ _ _ Hst1) as (st' & E & Hst'); [lia|lia| |done|].
    { destruct (k =? 0); [lia|]. apply average_bound; lia. }
    exists st'. split; [done|].
    assert (default last (nTime <$> list.last (b :: bs)) = default (nTime b) (nTime <$> list.last bs)) as ->
      by (destruct bs; [done|by rewrite last_cons_cons, last_cons; destruct (list.last bs)]).
    by replace (span + (last - nTime b) + (nTime b - default (nTime b) (nTime <$> list.last bs)))
      with (span + (last - default (nTime b) (nTime <$> list.last bs))) in Hst' by lia.
Qed.

(** The 24 blocks from [p] down. *)
Definition window (p : CBlockIndex) : list CBlockIndex := take 24 (ancestry p).

Lemma ancestry_take_heights p n b :
  wf_index p → b ∈ take n (ancestry p) → nHeight p - Z.of_nat n < nHeight b.
Proof.
  intros Hp. revert n. induction Hp as [p Hprev _ Hh|p q Hprev Hq IH Hh _]; intros n;
    rewrite ancestry_unfold, Hprev; destruct n as [|n]; cbn [take]; rewrite ?elem_of_nil, ?elem_of_cons;
    try done.
  - intros [->|H]; [lia|]. rewrite take_nil in H. by apply elem_of_nil in H.
  - intros [->|H%IH]; lia.
Qed.

Lemma window_spec p :
  wf_index p → 24 <= nHeight p →
  ∃ q bs rest, pprev p = Some q ∧ window p = p :: bs ∧ length bs = 23%nat ∧
    ancestry p = p :: bs ++ rest ∧ Forall (λ b, 0 < nHeight b) (p :: bs) ∧
    list.last bs = ancestor p (nHeight p - 23).
Proof.
  intros Hp Hh. pose proof (length_ancestry p Hp) as HL.
  inversion Hp as [|? q Hprev Hq Hhq _]; subst; [lia|].
  exists q, (take 23 (ancestry q)), (drop 23 (ancestry q)).
  pose proof (length_ancestry q Hq) as HLq.
  assert (length (take 23 (ancestry q)) = 23%nat) as H23 by (rewrite length_take; lia).
  split_and!; [done| |done| | |].
  - unfold window. by rewrite ancestry_unfold, Hprev.
  - by rewrite take_drop, ancestry_unfold, Hprev.
  - apply Forall_forall. intros b Hb.
    assert (b ∈ take 24 (ancestry p)) as Hb' by (by rewrite ancestry_unfold, Hprev).
    apply ancestry_take_heights in Hb'; [lia|done].
  - rewrite last_lookup, H23. cbn [pred]. rewrite lookup_take_lt by lia.
    rewrite ancestor_unfold, Hprev. destruct (Z.eqb_spec (nHeight p) (nHeight p - 23)); [lia|].
    rewrite <- ancestry_lookup by (done || lia). rewrite rev_alt.
    change (rev_append (ancestry q) []) with (reverse (ancestry q)).
    rewrite reverse_lookup by lia. f_equal. lia.
Qed.

Lemma dgw_repr_start : dgw_repr DGW_start 0 0 0 0.
Proof. split; [done|by apply uint256_repr..|done|done]. Qed.

(** The whole loop on a window. *)
Lemma DGW_window p M :
  wf_index p → 24 <= nHeight p → 0 <= M → M * 26 < 2 ^ 256 →
  Forall (λ b, 0 < nTime b ∧ is_u32 (nBits b) ∧ target (nBits b) <= M) (window p) →
  ∃ st b, DGW_loop 1 DGW_start (ancestry p) = Ok st ∧ ancestor p (nHeight p - 23) = Some b ∧
    dgw_repr st 24 (dgw_average 0 0 (map (λ b, target (nBits b)) (window p)))
      (nTime p - nTime b) (nTime b).
Proof.
  intros Hp Hh HM0 HM Hw. destruct (window_spec p Hp Hh) as (q & bs & rest & Hprev & Hwin & Hlen & Hanc & Hpos & Hlast).
  rewrite Hwin in *. rewrite Hanc. apply Forall_cons in Hpos as [Hp0 Hpos].
  apply Forall_cons in Hw as [(Ht & Hb & HT) Hw].
  cbn [DGW_loop]. destruct (Z.leb_spec (nHeight p) 0); [lia|].
  change ((0 <? PastBlocksMax) && (PastBlocksMax <? 1)) with false. cbn iota.
  destruct (DGW_step_spec DGW_start p 0 0 0 0 M dgw_repr_start) as (st1 & -> & Hst1); [done||lia..|].
  cbn [rbind]. pose proof (target_range (nBits p)).
  destruct (DGW_loop_spec bs rest st1 (0 + 1) (target (nBits p)) 0 (nTime p) M Hst1) as (st & E & Hst);
    [lia|lia|lia|lia|lia| |].
  { rewrite Forall_forall in *. intros b Hbb. specialize (Hpos b Hbb). specialize (Hw b Hbb). tauto. }
  destruct (ancestor_exists p (nHeight p - 23) Hp ltac:(lia)) as (b & Ha & _).
  rewrite Ha in Hlast. rewrite Hlast in Hst. cbn in Hst.
  exists st, b. split_and!; [done..|]. cbn [map dgw_average Z.eqb]. by rewrite Z.add_0_l in Hst.
Qed.

(** The final step on a finished loop. *)
Lemma DGWRetarget_repr params st a span last L :
  dgw_repr st 24 a span last → repr 8 (bnProofOfWorkLimit params) L →
  0 < nTargetSpacing params → 72 * nTargetSpacing params < 2 ^ 32 →
  a * (72 * nTargetSpacing params) < 2 ^ 256 →
  DGWRetarget params st
  = Ok (compact_of (Z.min L
      (a * Z.min (72 * nTargetSpacing params) (Z.max (8 * nTargetSpacing params) span)
         / (24 * nTargetSpacing params)))).
Proof.
  intros [Hk Ha _ Hs _] HL HS HS32 Hover. unfold DGWRetarget. rewrite Hk, Hs.
  set (S := nTargetSpacing params) in *.
  assert (Z.quot (24 * S) 3 = 8 * S) as ->.
  { rewrite Z.quot_div_nonneg by lia. symmetry. apply (Z.div_unique _ _ _ 0); lia. }
  set (t := if 24 * S * 3 <? _ then _ else _).
  assert (t = Z.min (72 * S) (Z.max (8 * S) span)) as ->.
  { unfold t. destruct (Z.ltb_spec span (8 * S));
      [destruct (Z.ltb_spec (24 * S * 3) (8 * S))|destruct (Z.ltb_spec (24 * S * 3) span)]; lia. }
  set (t := Z.min _ _). assert (8 * S <= t <= 72 * S) as Ht by lia. clearbody t.
  pose proof (repr_range _ _ _ Ha).
  rewrite (wrap_small 32) by (unfold in_uw; lia). rewrite (wrap_small 64) by (unfold in_uw; lia).
  pose proof (op_mul32_repr _ _ _ t Ha) as Hm. rewrite (wrap_small 32) in Hm by (unfold in_uw; lia).
  change (modulus 8) with (2 ^ 256) in *. rewrite Z.mod_small, Z.mul_comm in Hm by nia.
  destruct (op_div_repr 8 _ _ _ _ ltac:(lia) Hm (uint256_repr (24 * S) ltac:(unfold in_uw; lia)) ltac:(lia))
    as (q & -> & Hq). cbn [of_div rbind].
  destruct (compare_ops_repr _ _ _ _ _ Hq HL) as (_ & -> & _).
  destruct (Z.ltb_spec L (a * t / (24 * S))).
  - rewrite Z.min_l by lia. by apply compact256_repr.
  - rewrite Z.min_r by lia. by apply compact256_repr.
Qed.

Lemma GetBlockProof_spec b :
  is_u32 (nBits b) →
  ∃ w, GetBlockProof b = Ok w ∧
    repr 8 w (if compact_negative (nBits b) || (2 ^ 256 <=? compact_value (nBits b))
                 || (compact_value (nBits b) =? 0)
              then 0 else 2 ^ 256 / (compact_value (nBits b) + 1)).
Proof.
  intros Hb. unfold GetBlockProof. destruct (SetCompact_target _ Hb) as (a & -> & Ha).
  pose proof (compact_value_nonneg (nBits b) ltac:(apply Hb)).
  pose proof (compact_value_plus_one (nBits b) Hb) as Hp1. fold (target (nBits b)) in Hp1.
  rewrite (EqualTo_repr 8 a _ 0 ltac:(lia) ltac:(done) Ha).
  destruct (compact_negative (nBits b)); [by eexists; split; [|by apply uint256_repr]|]. cbn [orb].
  destruct (Z.leb_spec (2 ^ 256) (compact_value (nBits b))); [by eexists; split; [|by apply uint256_repr]|].
  assert (target (nBits b) = compact_value (nBits b)) as Et by (apply Z.mod_small; lia).
  rewrite Et in *. clear Et. cbn [orb].
  destruct (Z.eqb_spec (compact_value (nBits b)) 0); [by eexists; split; [|by apply uint256_repr]|].
  set (T := compact_value (nBits b)) in *. clearbody T.
  assert (T + 1 < 2 ^ 256).
  { destruct (Z.eq_dec (T + 1) (2 ^ 256)) as [E|]; [|lia]. rewrite E, Z.mod_same in Hp1; lia. }
  pose proof (op_not_repr _ _ _ Ha) as Hn.
  pose proof (op_add_repr _ _ _ _ _ Ha (uint256_repr 1 ltac:(done))) as Hd.
  change (modulus 8) with (2 ^ 256) in *. rewrite Z.mod_small in Hd by lia.
  destruct (op_div_repr 8 _ _ _ _ ltac:(lia) Hn Hd ltac:(lia)) as (q & -> & Hq). cbn [of_div rbind].
  eexists. split; [done|]. pose proof (op_add_repr _ _ _ _ _ Hq (uint256_repr 1 ltac:(done))) as Hw.
  change (modulus 8) with (2 ^ 256) in *.
  assert (2 ^ 256 / (T + 1) = (2 ^ 256 - 1 - T) / (T + 1) + 1) as ->.
  { replace (2 ^ 256) with (2 ^ 256 - 1 - T + 1 * (T + 1)) at 1 by lia. apply Z.div_add. lia. }
  rewrite Z.mod_small in Hw; [done|].
  pose proof (Z.div_pos (2 ^ 256 - 1 - T) (T + 1) ltac:(lia) ltac:(lia)).
  assert ((2 ^ 256 - 1 - T) / (T + 1) < 2 ^ 256 - 1); [|lia].
  apply Z.div_lt_upper_bound; lia.
Qed.

(** ** Properties *)

(** CheckProofOfWork accepts a hash exactly when the compact bits stand for
    a positive target that needs no more than 256 bits and is at most the limit
    of the network, and the hash, as a number, is at most that target. *)
Theorem proof_of_work_check params hash h c L :
  fSkipProofOfWorkCheck params = false → repr 8 (bnProofOfWorkLimit params) L →
  repr 8 hash h → is_u32 c →
  CheckProofOfWork params hash c = true ↔
  compact_negative c = false ∧ 0 < compact_value c < 2 ^ 256 ∧ compact_value c <= L ∧
  h <= compact_value c.
Proof.
  intros Hskip HL Hh Hc. unfold CheckProofOfWork. rewrite Hskip.
  destruct (SetCompact_target c Hc) as (a & -> & Ha). pose proof (compact_value_nonneg c ltac:(apply Hc)).
  rewrite (EqualTo_repr 8 a _ 0 ltac:(lia) ltac:(done) Ha).
  destruct (compare_ops_repr _ _ _ _ _ Ha HL) as (_ & -> & _).
  destruct (compare_ops_repr _ _ _ _ _ Hh Ha) as (_ & -> & _).
  destruct (compact_negative c); [by split; [|intros [? _]]|]. cbn [orb].
  destruct (Z.leb_spec (2 ^ 256) (compact_value c)) as [Ho|Ho].
  { rewrite orb_true_r. split; [done|]. intros (_ & ? & _). lia. }
  unfold target. rewrite Z.mod_small by lia. rewrite orb_false_r.
  destruct (Z.eqb_spec (compact_value c) 0), (Z.ltb_spec L (compact_value c)),
    (Z.ltb_spec (compact_value c) h); cbn [orb]; split; intros; (done || lia).
Qed.

(** the work of a block is [2^256 / (target + 1)] rounded down, computed in
    256 bits without overflow; a block whose bits are invalid counts nothing. *)
Theorem block_proof_is_expected_work b :
  is_u32 (nBits b) →
  ∃ w, GetBlockProof b = Ok w ∧
    repr 8 w (if compact_negative (nBits b) || (2 ^ 256 <=? compact_value (nBits b))
                 || (compact_value (nBits b) =? 0)
              then 0 else 2 ^ 256 / (compact_value (nBits b) + 1)).
Proof. exact (GetBlockProof_spec b). Qed.

(** the proof-of-work retarget. On a well-formed index between height 24
    and the last proof-of-work block, the next bits encode the running average
    of the last 24 targets, scaled by the time they took, clamped to a third
    and to three times the intended time, over that time, and cut at the limit;
    no step overflows when the targets respect a limit with room for the
    products. The loop reads exactly the 24 blocks. *)
Theorem work_retarget params p L b :
  wf_index p → 24 <= nHeight p <= nLastPOWBlock params →
  repr 8 (bnProofOfWorkLimit params) L → 0 < nTargetSpacing params →
  72 * nTargetSpacing params < 2 ^ 32 → L * (72 * nTargetSpacing params) < 2 ^ 256 →
  Forall (λ b, 0 < nTime b ∧ is_u32 (nBits b) ∧ target (nBits b) <= L) (window p) →
  ancestor p (nHeight p - 23) = Some b →
  let S := nTargetSpacing params in
  let average := dgw_average 0 0 (map (λ b, target (nBits b)) (window p)) in
  let span := Z.min (72 * S) (Z.max (8 * S) (nTime p - nTime b)) in
  GetNextWorkRequired params (Some p) = Ok (compact_of (Z.min L (average * span / (24 * S)))) ∧
  0 <= average <= L.
Proof.
  intros Hp Hh HL HS HS32 Hover Hw Hb S average span.
  pose proof (repr_range _ _ _ HL).
  destruct (DGW_window p L Hp ltac:(lia) ltac:(lia) ltac:(nia) Hw) as (st & b' & Hloop & Hb' & Hst).
  assert (b' = b) as -> by congruence. fold average in Hst.
  assert (0 <= average <= L) as Hav.
  { apply dgw_average_bound; [lia|lia|]. apply Forall_forall. intros T HT.
    apply list_elem_of_fmap in HT as (x & -> & Hx). rewrite Forall_forall in Hw.
    pose proof (target_range (nBits x)). specialize (Hw x Hx). lia. }
  split; [|done]. unfold GetNextWorkRequired, PastBlocksMin.
  destruct (Z.eqb_spec (nHeight p) 0), (Z.ltb_spec (nHeight p) 24),
    (Z.ltb_spec (nLastPOWBlock params) (nHeight p)); try lia. cbn [orb blocks_from].
  rewrite Hloop. cbn [rbind]. apply (DGWRetarget_repr params st average _ (nTime b) L); (done || nia).
Qed.

(** the proof-of-stake retarget. After the last proof-of-work block the
    next bits depend on the last target and the last spacing only; while the
    256-bit product does not overflow they encode
    [target * ((I-1)*S + 2*spacing) / ((I+1)*S)], where a negative spacing counts
    as one second. Whatever the inputs, they encode a positive target of at
    most [2^232 - 1]. *)
Theorem stake_retarget params p q :
  wf_index p → 24 <= nHeight p → nLastPOWBlock params < nHeight p → pprev p = Some q →
  is_u32 (nBits p) →
  let S := nTargetSpacing params in
  let I := Z.quot (nTargetTimespan params) S in
  0 < (I + 1) * S < 2 ^ 64 →
  (∃ c, GetNextWorkRequired params (Some p) = Ok c ∧ is_u32 c ∧ compact_negative c = false ∧
        0 < compact_value c < 2 ^ 232) ∧
  (let s := nTime p - nTime q in
   let f := (I - 1) * S + 2 * pos_spacing s in
   0 <= f < 2 ^ 32 → target (nBits p) * f < 2 ^ 256 →
   GetNextWorkRequired params (Some p) = Ok (compact_of (pos_target (target (nBits p)) I S s))).
Proof.
  intros Hp Hh Hlast Hprev Hb S I HS.
  assert (GetNextWorkRequired params (Some p) = PoSRetarget params (nBits p) (nTime p - nTime q)) as ->.
  { unfold GetNextWorkRequired, PastBlocksMin. rewrite Hprev.
    destruct (Z.eqb_spec (nHeight p) 0), (Z.ltb_spec (nHeight p) 24),
      (Z.ltb_spec (nLastPOWBlock params) (nHeight p)); (done || lia). }
  rewrite PoSRetarget_repr by done. fold S I. pose proof (target_range (nBits p)). split.
  - eexists. split; [done|]. set (n := pos_product _ _ / _).
    assert (0 <= n) by (apply Z.div_pos; [apply Z.mod_pos_bound|]; lia).
    set (x := if (n =? 0) || (2 ^ 232 - 1 <? n) then 2 ^ 232 - 1 else n). assert (0 < x < 2 ^ 232) as Hx.
    { unfold x. destruct (Z.eqb_spec n 0), (Z.ltb_spec (2 ^ 232 - 1) n); cbn [orb]; lia. }
    destruct (compact_of_value x ltac:(lia)) as (? & ? & ?). split_and!; (done || lia).
  - intros s f Hf Hover. unfold pos_product, pos_target. fold s f.
    rewrite (wrap_small 32) by done. rewrite Z.mod_small by nia. by rewrite (Z.mul_comm f).
Qed.

(** ** Witnesses *)

(** [n] blocks on a genesis block, 50 seconds apart. *)
Fixpoint ex_chain (n : nat) : CBlockIndex :=
  match n with
  | O => ex_block None 100 1 1000 0
  | S n' => ex_block (Some (ex_chain n')) (100 + Z.of_nat n) 1 (1000 + 50 * Z.of_nat n) 0
  end.

Lemma ex_chain_wf n : wf_index (ex_chain n).
Proof. induction n as [|n IH]; [by apply wf_genesis|by apply ex_block_wf]. Qed.

Definition ex_window_ok (L : Z) (b : CBlockIndex) : bool :=
  (0 <? nTime b) && (0 <=? nBits b) && (nBits b <? 2 ^ 32) && (target (nBits b) <=? L).

Lemma ex_window_forall L p :
  forallb (ex_window_ok L) (window p) = true →
  Forall (λ b, 0 < nTime b ∧ is_u32 (nBits b) ∧ target (nBits b) <= L) (window p).
Proof.
  intros H. rewrite forallb_forall in H. apply Forall_forall. intros b Hb%list_elem_of_In.
  apply H in Hb. unfold ex_window_ok in Hb. unfold in_uw. lia.
Qed.

(** The main network with an early switch to proof of stake. *)
Definition ex_params : CChainParams :=
  mkParams MAIN (op_shr (op_not (uint256 0)) 20) 100 750 950 1000 600 60 3600
    24 20 25 50 (100000000 * COIN) true false false 3 0 0 0 6.

Lemma proof_of_work_check_witness :
  CheckProofOfWork CMainParams (uint256 (2 ^ 60)) 453050367 = true ↔
  compact_negative 453050367 = false ∧ 0 < compact_value 453050367 < 2 ^ 256 ∧
  compact_value 453050367 <= 2 ^ 236 - 1 ∧ 2 ^ 60 <= compact_value 453050367.
Proof.
  apply (proof_of_work_check CMainParams (uint256 (2 ^ 60)) (2 ^ 60) 453050367 (2 ^ 236 - 1));
    [done|apply reprb_repr; by vm_compute|apply reprb_repr; by vm_compute|split; by vm_compute].
Defined.

Lemma block_proof_is_expected_work_witness :
  ∃ w, GetBlockProof (ex_chain 1) = Ok w ∧
    repr 8 w (if compact_negative (nBits (ex_chain 1)) || (2 ^ 256 <=? compact_value (nBits (ex_chain 1)))
                 || (compact_value (nBits (ex_chain 1)) =? 0)
              then 0 else 2 ^ 256 / (compact_value (nBits (ex_chain 1)) + 1)).
Proof. apply (block_proof_is_expected_work (ex_chain 1)). split; by vm_compute. Defined.

Lemma work_retarget_witness :
  let average := dgw_average 0 0 (map (λ b, target (nBits b)) (window (ex_chain 25))) in
  let span := Z.min (72 * 60) (Z.max (8 * 60) (nTime (ex_chain 25) - nTime (ex_chain 2))) in
  GetNextWorkRequired CMainParams (Some (ex_chain 25))
  = Ok (compact_of (Z.min (2 ^ 236 - 1) (average * span / (24 * 60)))) ∧
  0 <= average <= 2 ^ 236 - 1.
Proof.
  apply (work_retarget CMainParams (ex_chain 25) (2 ^ 236 - 1) (ex_chain 2));
    [apply ex_chain_wf|split; by vm_compute|apply reprb_repr; by vm_compute
    |by vm_compute|by vm_compute|by vm_compute|apply ex_window_forall; by vm_compute|reflexivity].
Defined.

Lemma stake_retarget_witness :
  (∃ c, GetNextWorkRequired ex_params (Some (ex_chain 25)) = Ok c ∧ is_u32 c ∧
        compact_negative c = false ∧ 0 < compact_value c < 2 ^ 232) ∧
  (let s := nTime (ex_chain 25) - nTime (ex_chain 24) in
   let f := (10 - 1) * 60 + 2 * pos_spacing s in
   0 <= f < 2 ^ 32 → target (nBits (ex_chain 25)) * f < 2 ^ 256 →
   GetNextWorkRequired ex_params (Some (ex_chain 25))
   = Ok (compact_of (pos_target (target (nBits (ex_chain 25))) 10 60 s))).
Proof.
  apply (stake_retarget ex_params (ex_chain 25) (ex_chain 24));
    [apply ex_chain_wf|by vm_compute|by vm_compute|reflexivity|split; by vm_compute|split; by vm_compute].
Defined.

(** The inner hypotheses of [stake_retarget] hold there too. *)
Example stake_retarget_bounds :
  let s := nTime (ex_chain 25) - nTime (ex_chain 24) in
  let f := (10 - 1) * 60 + 2 * pos_spacing s in
  (0 <=? f) && (f <? 2 ^ 32) && (target (nBits (ex_chain 25)) * f <? 2 ^ 256) = true.
Proof. by vm_compute. Qed.
