(* ===== verification/BlockTree.v ===== *)
(** * main.cpp: the block index as it grows, and the candidates for the tip

    The mutable part of the block index. The fields of a CBlockIndex that no
    longer change once AddToBlockIndex has linked it are a [Chain.CBlockIndex];
    the others (file positions, transaction counts, [nStatus], [nSequenceId],
    [pnext]) are an [IndexData] that the state keeps under the block's hash.
    [setBlockIndexCandidates] is a std::set: a list sorted by its comparator,
    which insertion and erasure search with that comparator. The address of an
    object, which breaks ties, is a parameter.

    Left out: logging, the fork warnings and the alert they send, the peers'
    rejection records, and notifications; none of them is read back here. *)

From stdpp Require Import sorting.
From S2P Require Import Prelude Uint256 Chain Pow.

#[local] Set Warnings "-register-all".

(** ** State *)

(** The fields of CBlockIndex that change after it is linked. *)
Record IndexData := mkIndexData {
  nFile : Z;
  nDataPos : Z;
  nUndoPos : Z;
  nTx : Z;
  nChainTx : Z;
  nStatus : Z;
  nSequenceId : Z;
  pnext : option (list Z)
}.

(** CBlockIndex::SetNull, on these fields. *)
Definition null_index : IndexData := mkIndexData 0 0 0 0 0 0 0 None.

Definition set_status (st : Z) (d : IndexData) : IndexData :=
  mkIndexData (nFile d) (nDataPos d) (nUndoPos d) (nTx d) (nChainTx d) st (nSequenceId d) (pnext d).
Definition set_chain_tx (chaintx seq : Z) (d : IndexData) : IndexData :=
  mkIndexData (nFile d) (nDataPos d) (nUndoPos d) (nTx d) chaintx (nStatus d) seq (pnext d).
Definition set_undo_pos (pos : Z) (d : IndexData) : IndexData :=
  mkIndexData (nFile d) (nDataPos d) pos (nTx d) (nChainTx d) (nStatus d) (nSequenceId d) (pnext d).
Definition set_pnext (p : CBlockIndex) (d : IndexData) : IndexData :=
  mkIndexData (nFile d) (nDataPos d) (nUndoPos d) (nTx d) (nChainTx d) (nStatus d) (nSequenceId d)
    (Some (phashBlock p)).

Definition BLOCK_VALID_TREE : Z := 2.
Definition BLOCK_VALID_TRANSACTIONS : Z := 3.
Definition BLOCK_VALID_SCRIPTS : Z := 5.
Definition BLOCK_HAVE_DATA : Z := 8.
Definition BLOCK_HAVE_UNDO : Z := 16.
Definition BLOCK_FAILED_VALID : Z := 32.
Definition BLOCK_FAILED_CHILD : Z := 64.

(** [nStatus & mask], as a condition. *)
Definition has (st mask : Z) : bool := negb (Z.land st mask =? 0).

Record ChainState := mkState {
  mapBlockIndex : gmap (list Z) CBlockIndex;
  index_data : gmap (list Z) IndexData;
  setBlockIndexCandidates : list CBlockIndex;
  mapBlocksUnlinked : list (option (list Z) * CBlockIndex);
  chainActive : CChain;
  pindexBestInvalid : option CBlockIndex;
  pindexBestHeader : option CBlockIndex;
  nBlockSequenceId : Z;
  setDirtyBlockIndex : gset (list Z);
  setStakeSeen : gset ((list Z * Z) * Z)
}.

(** Globals before anything is loaded. *)
Definition initial : ChainState :=
  mkState ∅ ∅ [] [] (mkChain []) None None 1 ∅ ∅.

Definition with_index (s : ChainState) (m : gmap (list Z) CBlockIndex) : ChainState :=
  mkState m (index_data s) (setBlockIndexCandidates s) (mapBlocksUnlinked s) (chainActive s)
    (pindexBestInvalid s) (pindexBestHeader s) (nBlockSequenceId s) (setDirtyBlockIndex s) (setStakeSeen s).
Definition with_data (s : ChainState) (m : gmap (list Z) IndexData) : ChainState :=
  mkState (mapBlockIndex s) m (setBlockIndexCandidates s) (mapBlocksUnlinked s) (chainActive s)
    (pindexBestInvalid s) (pindexBestHeader s) (nBlockSequenceId s) (setDirtyBlockIndex s) (setStakeSeen s).
Definition with_candidates (s : ChainState) (c : list CBlockIndex) : ChainState :=
  mkState (mapBlockIndex s) (index_data s) c (mapBlocksUnlinked s) (chainActive s)
    (pindexBestInvalid s) (pindexBestHeader s) (nBlockSequenceId s) (setDirtyBlockIndex s) (setStakeSeen s).
Definition with_unlinked (s : ChainState) (u : list (option (list Z) * CBlockIndex)) : ChainState :=
  mkState (mapBlockIndex s) (index_data s) (setBlockIndexCandidates s) u (chainActive s)
    (pindexBestInvalid s) (pindexBestHeader s) (nBlockSequenceId s) (setDirtyBlockIndex s) (setStakeSeen s).
Definition with_chain (s : ChainState) (c : CChain) : ChainState :=
  mkState (mapBlockIndex s) (index_data s) (setBlockIndexCandidates s) (mapBlocksUnlinked s) c
    (pindexBestInvalid s) (pindexBestHeader s) (nBlockSequenceId s) (setDirtyBlockIndex s) (setStakeSeen s).
Definition with_best_invalid (s : ChainState) (p : option CBlockIndex) : ChainState :=
  mkState (mapBlockIndex s) (index_data s) (setBlockIndexCandidates s) (mapBlocksUnlinked s) (chainActive s)
    p (pindexBestHeader s) (nBlockSequenceId s) (setDirtyBlockIndex s) (setStakeSeen s).
Definition with_best_header (s : ChainState) (p : option CBlockIndex) : ChainState :=
  mkState (mapBlockIndex s) (index_data s) (setBlockIndexCandidates s) (mapBlocksUnlinked s) (chainActive s)
    (pindexBestInvalid s) p (nBlockSequenceId s) (setDirtyBlockIndex s) (setStakeSeen s).
Definition with_sequence (s : ChainState) (n : Z) : ChainState :=
  mkState (mapBlockIndex s) (index_data s) (setBlockIndexCandidates s) (mapBlocksUnlinked s) (chainActive s)
    (pindexBestInvalid s) (pindexBestHeader s) n (setDirtyBlockIndex s) (setStakeSeen s).
Definition with_dirty (s : ChainState) (p : CBlockIndex) : ChainState :=
  mkState (mapBlockIndex s) (index_data s) (setBlockIndexCandidates s) (mapBlocksUnlinked s) (chainActive s)
    (pindexBestInvalid s) (pindexBestHeader s) (nBlockSequenceId s)
    ({[phashBlock p]} ∪ setDirtyBlockIndex s) (setStakeSeen s).
Definition with_stake_seen (s : ChainState) (k : (list Z * Z) * Z) : ChainState :=
  mkState (mapBlockIndex s) (index_data s) (setBlockIndexCandidates s) (mapBlocksUnlinked s) (chainActive s)
    (pindexBestInvalid s) (pindexBestHeader s) (nBlockSequenceId s) (setDirtyBlockIndex s)
    ({[k]} ∪ setStakeSeen s).

(** The mutable fields of [*p], and an assignment to them. *)
Definition idx (s : ChainState) (p : CBlockIndex) : IndexData := default null_index (index_data s !! phashBlock p).
Definition update_idx (s : ChainState) (p : CBlockIndex) (f : IndexData → IndexData) : ChainState :=
  with_data s (<[phashBlock p := f (idx s p)]> (index_data s)).
Definition status (s : ChainState) (p : CBlockIndex) : Z := nStatus (idx s p).
Definition or_status (s : ChainState) (p : CBlockIndex) (mask : Z) : ChainState :=
  update_idx s p (λ d, set_status (Z.lor (nStatus d) mask) d).

(** What stops an operation without a result: what the C++ program does not
    survive, a thrown uint_error, or a loop bound of this model. *)
Inductive stop := Crash (e : ub) | UintError | OutOfFuel.

(** ** std::set, by its comparator *)

Section StdSet.
Context {A : Type} (lt : A → A → bool).

Fixpoint set_insert (x : A) (l : list A) : list A :=
  match l with
  | [] => [x]
  | y :: r => if lt x y then x :: l else if lt y x then y :: set_insert x r else l
  end.

Definition set_erase (x : A) (l : list A) : list A := filter (λ y, lt x y || lt y x) l.

(** Erasing from [begin()] while the element is less than [x]. *)
Fixpoint erase_below (x : A) (l : list A) : list A :=
  match l with
  | [] => []
  | y :: r => if lt y x then erase_below x r else l
  end.
End StdSet.

Section BlockTree.
(** The address of the object [mapBlockIndex] holds under a hash. *)
Variable address : list Z → Z.

Definition CBlockIndexWorkComparator (s : ChainState) (pa pb : CBlockIndex) : bool :=
  if op_gt (nChainWork pa) (nChainWork pb) then false
  else if op_lt (nChainWork pa) (nChainWork pb) then true
  else if nSequenceId (idx s pa) <? nSequenceId (idx s pb) then false
  else if nSequenceId (idx s pb) <? nSequenceId (idx s pa) then true
  else if address (phashBlock pa) <? address (phashBlock pb) then false
  else if address (phashBlock pb) <? address (phashBlock pa) then true
  else false.

Definition insert_candidate (s : ChainState) (p : CBlockIndex) : ChainState :=
  with_candidates s (set_insert (CBlockIndexWorkComparator s) p (setBlockIndexCandidates s)).
Definition erase_candidate (s : ChainState) (p : CBlockIndex) : ChainState :=
  with_candidates s (set_erase (CBlockIndexWorkComparator s) p (setBlockIndexCandidates s)).

(** ** AddToBlockIndex *)

Record CBlockHeader := mkHeader {
  h_nVersion : Z;
  hashPrevBlock : list Z;
  h_hashMerkleRoot : list Z;
  h_nTime : Z;
  h_nBits : Z;
  h_nNonce : Z
}.

(** What kernel.cpp computes for the new block: ComputeNextStakeModifier,
    GetStakeModifierChecksum, and the entry of [mapProofOfStake]. *)
Record StakeData := mkStakeData {
  k_nStakeModifier : Z;
  k_fGenerated : bool;
  k_checksum : Z;
  k_hashProofOfStake : list Z
}.

(** COutPoint::SetNull *)
Definition null_outpoint : list Z * Z := (uint256 0, 4294967295).

(** The fields CBlockIndex(block) and the linking code give a new index;
    [stake] is [vtx[1].vin[0].prevout] of a proof-of-stake block. *)
Definition new_index (hash : list Z) (block : CBlockHeader) (stake : option (list Z * Z))
    (prev skip : option CBlockIndex) (height : Z) (work trust : list Z) (flags modifier checksum : Z)
    (hashProof : list Z) : CBlockIndex :=
  mkBlockIndex hash prev skip height work trust flags modifier checksum
    (default null_outpoint stake) (if stake is Some _ then h_nTime block else 0) hashProof
    (h_nVersion block) (h_hashMerkleRoot block) (h_nTime block) (h_nBits block) (h_nNonce block).

Definition of_uint {A} (r : result uint_error A) : result stop A :=
  match r with Ok a => Ok a | Throw _ => Throw UintError end.
Definition of_pow {A} (r : result pow_error A) : result stop A :=
  match r with Ok a => Ok a | Throw _ => Throw UintError end.
Definition of_ub {A} (r : result ub A) : result stop A :=
  match r with Ok a => Ok a | Throw e => Throw (Crash e) end.

Local Open Scope node_scope.

(** [flags] after SetStakeEntropyBit(GetStakeEntropyBit()). *)
Definition SetStakeEntropyBit (flags nEntropyBit : Z) : Z :=
  if 1 <? nEntropyBit then flags
  else Z.lor flags (if nEntropyBit =? 0 then 0 else BLOCK_STAKE_ENTROPY).

(** The index of a new block under the one of its predecessor, if known. *)
Definition link_index (s : ChainState) (hash : list Z) (block : CBlockHeader)
    (stake : option (list Z * Z)) (kernel : StakeData) : result stop CBlockIndex :=
  let flags := if stake is Some _ then BLOCK_PROOF_OF_STAKE else 0 in
  let zero := uint256 0 in
  match mapBlockIndex s !! hashPrevBlock block with
  | Some prev =>
      let nHeight := nHeight prev + 1 in
      let! pskip := of_ub (BuildSkip (Some prev) nHeight) in
      let draft := new_index hash block stake (Some prev) pskip nHeight zero zero flags 0 0 zero in
      let! trust := of_uint (GetBlockTrust draft) in
      let! proof := of_pow (GetBlockProof draft) in
      let flags := SetStakeEntropyBit flags (GetStakeEntropyBit draft) in
      let hashProof := if IsProofOfStake draft then k_hashProofOfStake kernel else zero in
      let flags := if k_fGenerated kernel then Z.lor flags BLOCK_STAKE_MODIFIER else flags in
      Ok (new_index hash block stake (Some prev) pskip nHeight (op_add (nChainWork prev) proof)
            (op_add (bnChainTrust prev) trust) flags (k_nStakeModifier kernel) (k_checksum kernel)
            hashProof)
  | None =>
      let draft := new_index hash block stake None None 0 zero zero flags 0 0 zero in
      let! proof := of_pow (GetBlockProof draft) in
      Ok (new_index hash block stake None None 0 (op_add zero proof) zero flags 0 0 zero)
  end.

Definition AddToBlockIndex (s : ChainState) (hash : list Z) (block : CBlockHeader)
    (stake : option (list Z * Z)) (kernel : StakeData) : result stop (ChainState * CBlockIndex) :=
  match mapBlockIndex s !! hash with
  | Some p => Ok (s, p)
  | None =>
      let! p := link_index s hash block stake kernel in
      let s := with_index s (<[hash := p]> (mapBlockIndex s)) in
      let s := if IsProofOfStake p then with_stake_seen s (prevoutStake p, nStakeTime p) else s in
      let s := update_idx s p (λ _, null_index) in
      let s := match pprev p with Some q => update_idx s q (set_pnext p) | None => s end in
      let s := update_idx s p (λ d, set_status (fst (RaiseValidity (nStatus d) BLOCK_VALID_TREE)) d) in
      let s := match pindexBestHeader s with
               | None => with_best_header s (Some p)
               | Some q => if op_lt (nChainWork q) (nChainWork p) then with_best_header s (Some p) else s
               end in
      Ok (with_dirty s p, p)
  end.

(** ** ReceivedBlockTransactions *)

(** [!value_comp()(p, chainActive.Tip())], with a tip or without. *)
Definition as_good_as_tip (s : ChainState) (p : CBlockIndex) : bool :=
  match Tip (chainActive s) false with
  | None => true
  | Some t => negb (CBlockIndexWorkComparator s p t)
  end.

(** The body of the [while (!queue.empty())] loop: the state, and the blocks
    that go to the queue. *)
Definition link_block (s : ChainState) (pindex : CBlockIndex) : ChainState * list CBlockIndex :=
  let before := match pprev pindex with Some q => nChainTx (idx s q) | None => 0 end in
  let s := update_idx s pindex (λ d, set_chain_tx (u32 (before + nTx d)) (nBlockSequenceId s) d) in
  let s := with_sequence s (u32 (nBlockSequenceId s + 1)) in
  let s := if as_good_as_tip s pindex then insert_candidate s pindex else s in
  let waits := λ e : option (list Z) * CBlockIndex, bool_decide (e.1 = Some (phashBlock pindex)) in
  let range := map snd (filter (λ e, waits e) (mapBlocksUnlinked s)) in
  (with_unlinked s (filter (λ e, negb (waits e)) (mapBlocksUnlinked s)), range).

Fixpoint link_queue (fuel : nat) (s : ChainState) (queue : list CBlockIndex) : result stop ChainState :=
  match fuel, queue with
  | _, [] => Ok s
  | O, _ => Throw OutOfFuel
  | S fuel, pindex :: queue =>
      let '(s, range) := link_block s pindex in
      link_queue fuel s (queue ++ range)
  end.

(** [vtx_size], and the position the block was stored at. Every turn but the
    first takes an entry off [mapBlocksUnlinked]. *)
Definition ReceivedBlockTransactions (s : ChainState) (vtx_size : Z) (pindexNew : CBlockIndex)
    (pos : Z * Z) : result stop ChainState :=
  let s := update_idx s pindexNew (λ d,
             mkIndexData (fst pos) (snd pos) 0 (u32 vtx_size) 0
               (fst (RaiseValidity (Z.lor (nStatus d) BLOCK_HAVE_DATA) BLOCK_VALID_TRANSACTIONS))
               (nSequenceId d) (pnext d)) in
  let s := with_dirty s pindexNew in
  match pprev pindexNew with
  | None => link_queue (S (length (mapBlocksUnlinked s))) s [pindexNew]
  | Some q =>
      if negb (nChainTx (idx s q) =? 0)
      then link_queue (S (length (mapBlocksUnlinked s))) s [pindexNew]
      else if IsValid (status s q) BLOCK_VALID_TREE
      then Ok (with_unlinked s (mapBlocksUnlinked s ++ [(Some (phashBlock q), pindexNew)]))
      else Ok s
  end.

(** ** FindMostWorkChain *)

(** The [while (pindexTest && !chainActive.Contains(pindexTest))] loop: the
    first block on the way down that is failed or has no data, with the two
    flags, or [None]. *)
Fixpoint test_path (s : ChainState) (path : list CBlockIndex)
  : result stop (option (CBlockIndex * bool * bool)) :=
  match path with
  | [] => Ok None
  | pindexTest :: path =>
      if Contains (chainActive s) pindexTest then Ok None
      else if (nChainTx (idx s pindexTest) =? 0) && negb (nHeight pindexTest =? 0)
      then Throw (Crash AssertionFailed)
      else
        let fFailedChain := has (status s pindexTest) BLOCK_FAILED_MASK in
        let fMissingData := negb (has (status s pindexTest) BLOCK_HAVE_DATA) in
        if fFailedChain || fMissingData then Ok (Some (pindexTest, fFailedChain, fMissingData))
        else test_path s path
  end.

(** The [while (pindexTest != pindexFailed)] loop. *)
Fixpoint remove_path (s : ChainState) (path : list CBlockIndex) (pindexTest : CBlockIndex)
    (fFailedChain fMissingData : bool) : ChainState :=
  match path with
  | [] => s
  | pindexFailed :: path =>
      if ptr_eq pindexTest pindexFailed then s
      else
        let s := if fFailedChain then or_status s pindexFailed BLOCK_FAILED_CHILD
                 else if fMissingData
                 then with_unlinked s (mapBlocksUnlinked s
                        ++ [(phashBlock <$> pprev pindexFailed, pindexFailed)])
                 else s in
        remove_path (erase_candidate s pindexFailed) path pindexTest fFailedChain fMissingData
  end.

(** [pindexBestInvalid == NULL || p->nChainWork > pindexBestInvalid->nChainWork] *)
Definition note_invalid (s : ChainState) (p : CBlockIndex) : ChainState :=
  match pindexBestInvalid s with
  | None => with_best_invalid s (Some p)
  | Some q => if op_gt (nChainWork p) (nChainWork q) then with_best_invalid s (Some p) else s
  end.

(** The [do ... while (true)] loop; every turn but the last erases an element
    of the set. *)
Fixpoint FindMostWorkChain_loop (fuel : nat) (s : ChainState)
  : result stop (ChainState * option CBlockIndex) :=
  match fuel with
  | O => Throw OutOfFuel
  | S fuel =>
      match last (setBlockIndexCandidates s) with
      | None => Ok (s, None)
      | Some pindexNew =>
          let! bad := test_path s (ancestry pindexNew) in
          match bad with
          | None => Ok (s, Some pindexNew)
          | Some (pindexTest, fFailedChain, fMissingData) =>
              let s := if fFailedChain then note_invalid s pindexNew else s in
              let s := remove_path s (ancestry pindexNew) pindexTest fFailedChain fMissingData in
              FindMostWorkChain_loop fuel (erase_candidate s pindexTest)
          end
      end
  end.

Definition FindMostWorkChain (s : ChainState) : result stop (ChainState * option CBlockIndex) :=
  FindMostWorkChain_loop (S (length (setBlockIndexCandidates s))) s.

Definition PruneBlockIndexCandidates (s : ChainState) : result stop ChainState :=
  match setBlockIndexCandidates s, Tip (chainActive s) false with
  | [], _ => Throw (Crash AssertionFailed)
  | _, None => Throw (Crash NullDereference)
  | c, Some t =>
      match erase_below (CBlockIndexWorkComparator s) t c with
      | [] => Throw (Crash AssertionFailed)
      | c => Ok (with_candidates s c)
      end
  end.

(** ** Tips *)

(** Its log line dereferences the new tip, and nothing else of it is modelled. *)
Definition UpdateTip (s : ChainState) (pindexNew : option CBlockIndex) : result stop ChainState :=
  let s := with_chain s (SetTip (chainActive s) pindexNew) in
  match Tip (chainActive s) false with
  | None => Throw (Crash NullDereference)
  | Some _ => Ok s
  end.

(** Its log line dereferences the tip. *)
Definition InvalidChainFound (s : ChainState) (pindexNew : CBlockIndex) : result stop ChainState :=
  let s := note_invalid s pindexNew in
  match Tip (chainActive s) false with
  | None => Throw (Crash NullDereference)
  | Some _ => Ok s
  end.

Definition InvalidBlockFound (s : ChainState) (pindex : CBlockIndex) (fCorruptionPossible : bool)
  : result stop ChainState :=
  if fCorruptionPossible then Ok s
  else
    let s := or_status s pindex BLOCK_FAILED_VALID in
    let s := erase_candidate (with_dirty s pindex) pindex in
    InvalidChainFound s pindex.

(** [undone] tells whether DisconnectBlock and the writes around it succeed. *)
Definition DisconnectTip (s : ChainState) (undone : bool) : result stop (ChainState * bool) :=
  match Tip (chainActive s) false with
  | None => Throw (Crash AssertionFailed)
  | Some pindexDelete =>
      if undone then let! s := UpdateTip s (pprev pindexDelete) in Ok (s, true)
      else Ok (s, false)
  end.

(** ** InvalidateBlock and ReconsiderBlock *)

(** The [while (chainActive.Contains(pindex))] loop; [undone] are the results
    of the calls of DisconnectTip, one per block of the active chain at most. *)
Fixpoint invalidate_loop (s : ChainState) (pindex : CBlockIndex) (undone : list bool)
  : result stop (ChainState * bool) :=
  if negb (Contains (chainActive s) pindex) then Ok (s, true)
  else
    match Tip (chainActive s) false, undone with
    | None, _ => Throw (Crash NullDereference)
    | _, [] => Throw OutOfFuel
    | Some pindexWalk, ok :: undone =>
        let s := or_status s pindexWalk BLOCK_FAILED_CHILD in
        let s := erase_candidate (with_dirty s pindexWalk) pindexWalk in
        let! r := DisconnectTip s ok in
        let '(s, done) := r in
        if done then invalidate_loop s pindex undone else Ok (s, false)
    end.

(** The objects of [mapBlockIndex], in its order. *)
Definition all_blocks (s : ChainState) : list CBlockIndex := (map_to_list (mapBlockIndex s)).*2.

(** One turn of the loop over [mapBlockIndex] in InvalidateBlock. *)
Definition restore_candidate (t : CBlockIndex) (s : ChainState) (p : CBlockIndex) : ChainState :=
  if IsValid (status s p) BLOCK_VALID_TRANSACTIONS && negb (nChainTx (idx s p) =? 0)
     && negb (CBlockIndexWorkComparator s p t)
  then insert_candidate s p else s.

Definition InvalidateBlock (s : ChainState) (pindex : CBlockIndex) (undone : list bool)
  : result stop (ChainState * bool) :=
  let s := or_status s pindex BLOCK_FAILED_VALID in
  let s := erase_candidate (with_dirty s pindex) pindex in
  let! r := invalidate_loop s pindex undone in
  let '(s, done) := r in
  if negb done then Ok (s, false)
  else
    match Tip (chainActive s) false with
    | None => Throw (Crash NullDereference)
    | Some t =>
        let s := foldl (restore_candidate t) s (all_blocks s) in
        let! s := InvalidChainFound s pindex in
        Ok (s, true)
    end.

Definition clear_failure (s : ChainState) (p : CBlockIndex) : ChainState :=
  with_dirty (update_idx s p (λ d, set_status (Z.land (nStatus d) (Z.lnot BLOCK_FAILED_MASK)) d)) p.

(** One turn of the loop over [mapBlockIndex] in ReconsiderBlock. *)
Definition reconsider_turn (pindex : CBlockIndex) (r : result stop ChainState) (p : CBlockIndex)
  : result stop ChainState :=
  let! s := r in
  if IsValid (status s p) BLOCK_VALID_TRANSACTIONS then Ok s
  else
    let! a := of_ub (GetAncestor p (nHeight pindex)) in
    if bool_decide ((phashBlock <$> a) = Some (phashBlock pindex))
    then
      let s := clear_failure s p in
      let! s :=
        if IsValid (status s p) BLOCK_VALID_TRANSACTIONS && negb (nChainTx (idx s p) =? 0)
        then match Tip (chainActive s) false with
             | None => Throw (Crash NullDereference)
             | Some t => Ok (if CBlockIndexWorkComparator s t p then insert_candidate s p else s)
             end
        else Ok s in
      Ok (if bool_decide ((phashBlock <$> pindexBestInvalid s) = Some (phashBlock p))
          then with_best_invalid s None else s)
    else Ok s.

(** One turn of its loop over the ancestors. *)
Definition clear_ancestor (s : ChainState) (p : CBlockIndex) : ChainState :=
  if has (status s p) BLOCK_FAILED_MASK then clear_failure s p else s.

Definition ReconsiderBlock (s : ChainState) (pindex : CBlockIndex) : result stop ChainState :=
  let! s := foldl (reconsider_turn pindex) (Ok s) (all_blocks s) in
  Ok (foldl clear_ancestor s (ancestry pindex)).
End BlockTree.

Lemma length_filter_split {A} (f : A → bool) l :
  length l = (length (filter (λ x, f x) l) + length (filter (λ x, negb (f x)) l))%nat.
Proof.
  induction l as [|x l IH]; [done|]. rewrite !filter_cons. cbn [length]. rewrite IH.
  repeat case_decide; destruct (f x); cbn in *; (lia || tauto).
Qed.

(** ** std::set over a strict total order *)

Lemma StronglySorted_impl {A} (R R' : relation A) l :
  (∀ x y, x ∈ l → y ∈ l → R x y → R' x y) → StronglySorted R l → StronglySorted R' l.
Proof.
  intros H. induction 1 as [|x l Hs IH Hx]; constructor.
  - apply IH. intros y z Hy Hz. apply H; by right.
  - rewrite Forall_forall in Hx |- *. intros y Hy. apply H; [left|right; done|auto].
Qed.

(** A strict order that is total where [P] holds. *)
Record strict_total {A} (lt : A → A → bool) (P : A → Prop) : Prop := {
  st_irrefl : ∀ x, lt x x = false;
  st_trans : ∀ x y z, P x → P y → P z → lt x y = true → lt y z = true → lt x z = true;
  st_total : ∀ x y, P x → P y → lt x y = false → lt y x = false → x = y
}.
Arguments st_irrefl {A lt P}.
Arguments st_trans {A lt P}.
Arguments st_total {A lt P}.

Section StdSetFacts.
Context {A : Type} (lt : A → A → bool) (P : A → Prop).
Hypothesis Hlt : strict_total lt P.

Abbreviation sorted := (StronglySorted (λ x y, lt x y = true)).

Lemma lt_asym x y : P x → P y → lt x y = true → lt y x = false.
Proof.
  intros Hx Hy H. destruct (lt y x) eqn:E; [|done].
  by rewrite <- (st_irrefl Hlt x), (st_trans Hlt x y x).
Qed.

Lemma not_lt_trans x y z : P x → P y → P z → lt y x = false → lt z y = false → lt z x = false.
Proof.
  intros Hx Hy Hz H1 H2. destruct (lt z x) eqn:E; [|done].
  destruct (lt x y) eqn:E2; [by rewrite (st_trans Hlt z x y) in H2|].
  by rewrite (st_total Hlt x y) in E by done; congruence.
Qed.

Lemma elem_of_set_insert x y l :
  P x → Forall P l → y ∈ set_insert lt x l ↔ y = x ∨ y ∈ l.
Proof.
  intros Hx. induction 1 as [|z l Hz Hl IH]; cbn; [set_solver|].
  destruct (lt x z) eqn:E1; [set_solver|]. destruct (lt z x) eqn:E2; [set_solver|].
  rewrite (st_total Hlt x z) by done. set_solver.
Qed.

Lemma set_insert_sorted x l : P x → Forall P l → sorted l → sorted (set_insert lt x l).
Proof.
  intros Hx Hl. induction 1 as [|z l Hs IH Hz]; cbn; [by repeat constructor|].
  apply Forall_cons in Hl as [Pz Hl].
  destruct (lt x z) eqn:E1.
  - constructor; [by constructor|]. constructor; [done|].
    rewrite Forall_forall in Hz, Hl |- *. intros y Hy. apply (st_trans Hlt x z y); auto.
  - destruct (lt z x) eqn:E2; constructor; auto.
    apply Forall_forall. intros y [->|Hy]%elem_of_set_insert; [done| |done|done].
    by rewrite Forall_forall in Hz; apply Hz.
Qed.

Lemma elem_of_set_erase x y l : P x → Forall P l → y ∈ set_erase lt x l ↔ y ∈ l ∧ y <> x.
Proof.
  intros Hx Hl. unfold set_erase. rewrite list_elem_of_filter. split.
  - intros [H Hy]. split; [done|]. intros ->. by rewrite (st_irrefl Hlt) in H.
  - intros [Hy Hne]. split; [|done]. rewrite Forall_forall in Hl.
    destruct (lt x y) eqn:E1, (lt y x) eqn:E2; try done.
    by destruct Hne; apply (st_total Hlt); auto.
Qed.

Lemma set_erase_sorted (R : relation A) x l : StronglySorted R l → StronglySorted R (set_erase lt x l).
Proof. intros H. unfold set_erase. induction H as [|z l Hs IH Hz]; [constructor|].
  rewrite filter_cons. case_decide; [|done]. constructor; [done|].
  rewrite Forall_forall in Hz |- *. intros y [_ Hy]%list_elem_of_filter. auto.
Qed.

Lemma elem_of_erase_below x y l :
  P x → Forall P l → sorted l → y ∈ erase_below lt x l ↔ y ∈ l ∧ lt y x = false.
Proof.
  intros Hx Hl. induction 1 as [|z l Hs IH Hz]; cbn; [set_solver|].
  apply Forall_cons in Hl as [Pz Hl]. destruct (lt z x) eqn:E.
  - rewrite IH by done. split; [set_solver|]. intros [[->|Hy]%elem_of_cons H]; [congruence|done].
  - split; [|tauto]. intros Hy. split; [done|]. apply elem_of_cons in Hy as [->|Hy]; [done|].
    rewrite Forall_forall in Hz, Hl. apply (not_lt_trans x z y); auto. apply lt_asym; auto.
Qed.

Lemma erase_below_sorted x l : sorted l → sorted (erase_below lt x l).
Proof. induction 1 as [|z l Hs IH Hz]; cbn; [constructor|]. destruct (lt z x); [done|by constructor]. Qed.

Lemma last_is_max l m : Forall P l → sorted l → last l = Some m → ∀ y, y ∈ l → lt m y = false.
Proof.
  intros Hl Hs Hm y Hy. destruct (last_Some l m) as [(l' & E) _]; [done|]. subst.
  apply elem_of_app in Hy as [Hy|Hy%list_elem_of_singleton]; [|subst; apply (st_irrefl Hlt)].
  apply StronglySorted_app_1_elem_of with (x1 := y) (x2 := m) in Hs; [|done|set_solver].
  rewrite Forall_forall in Hl. apply lt_asym; [apply Hl; set_solver..|done].
Qed.

Lemma length_set_erase x l : x ∈ l → (length (set_erase lt x l) < length l)%nat.
Proof.
  intros H. unfold set_erase. induction l as [|z l IH]; [set_solver|].
  rewrite filter_cons. apply elem_of_cons in H as [->|H].
  - case_decide as Hd; [by rewrite (st_irrefl Hlt) in Hd|].
    pose proof (length_filter (λ y, lt z y || lt y z) l) as HL. cbn. unfold filter in *. lia.
  - case_decide; cbn; specialize (IH H); lia.
Qed.

Lemma length_set_erase_le x l : (length (set_erase lt x l) <= length l)%nat.
Proof. unfold set_erase. apply length_filter. Qed.
End StdSetFacts.

(** ** The consistency of the block tree *)

(** [p] is an object of [mapBlockIndex]. *)
Definition known (s : ChainState) (p : CBlockIndex) : Prop := mapBlockIndex s !! phashBlock p = Some p.
(** The number [nChainWork] stands for. *)
Definition work (p : CBlockIndex) : Z := value (nChainWork p).
Definition failed (s : ChainState) (p : CBlockIndex) : bool := has (status s p) BLOCK_FAILED_MASK.
Definition stored (s : ChainState) (p : CBlockIndex) : bool := has (status s p) BLOCK_HAVE_DATA.
Definition chain_tx (s : ChainState) (p : CBlockIndex) : Z := nChainTx (idx s p).
(** The transactions of all blocks up to [p]. *)
Definition total_tx (s : ChainState) (p : CBlockIndex) : Z :=
  foldr (λ a n, nTx (idx s a) + n) 0 (ancestry p).
(** The blocks up to [p] are all stored. *)
Definition linked (s : ChainState) (p : CBlockIndex) : Prop := ∀ a, a ∈ ancestry p → stored s a = true.
(** [p] can be a tip: it is linked, and it does not descend from a failed block. *)
Definition solid (s : ChainState) (p : CBlockIndex) : Prop :=
  chain_tx s p <> 0 ∧ ∀ a, a ∈ ancestry p → failed s a = false.

(** What AddToBlockIndex establishes. *)
Record index_ok (s : ChainState) : Prop := {
  io_hash : ∀ h p, mapBlockIndex s !! h = Some p → phashBlock p = h;
  io_wf : ∀ p, known s p → wf_index p;
  io_work : ∀ p, known s p → repr 8 (nChainWork p) (work p);
  io_prev : ∀ p q, known s p → pprev p = Some q → known s q ∧ work q < work p;
  io_root : ∀ p q, known s p → known s q → pprev p = None → pprev q = None → p = q
}.

(** What ReceivedBlockTransactions maintains: [nChainTx] counts the transactions
    of the blocks stored from the genesis block on, and the blocks stored too
    early wait in [mapBlocksUnlinked]. *)
Record data_ok (s : ChainState) : Prop := {
  do_level : ∀ p, known s p → stored s p = true → BLOCK_VALID_TRANSACTIONS <= Z.land (status s p) BLOCK_VALID_MASK;
  do_tx : ∀ p, known s p → 0 <= nTx (idx s p) ∧ (nTx (idx s p) = 0 ↔ stored s p = false);
  do_bound : ∀ p, known s p → total_tx s p < 2 ^ 32;
  do_linked : ∀ p, known s p → chain_tx s p <> 0 → linked s p;
  do_chain_tx : ∀ p, known s p → linked s p → chain_tx s p = total_tx s p;
  do_sequence : ∀ p, known s p → chain_tx s p = 0 → nSequenceId (idx s p) = 0;
  do_unlinked : ∀ k p, (k, p) ∈ mapBlocksUnlinked s ↔
    known s p ∧ stored s p = true ∧ chain_tx s p = 0 ∧ ∃ q, pprev p = Some q ∧ k = Some (phashBlock q);
  do_nodup : NoDup (mapBlocksUnlinked s)
}.

(** The tip is [t]; the candidates are linked blocks at least as good as [t],
    among them every such block at least as good as [b], which is one of them.
    Between two steps of ActivateBestChain, [b] can be better than [t]: the
    candidates worse than an earlier tip were dropped. *)
Record chain_ok (address : list Z → Z) (s : ChainState) (t b : CBlockIndex) : Prop := {
  co_chain : chainActive s = chain_of t;
  co_tip : known s t ∧ solid s t;
  co_bound : known s b ∧ solid s b ∧ b ∈ setBlockIndexCandidates s;
  co_sorted : StronglySorted (λ x y, CBlockIndexWorkComparator address s x y = true) (setBlockIndexCandidates s);
  co_candidate : ∀ c, c ∈ setBlockIndexCandidates s →
    known s c ∧ chain_tx s c <> 0 ∧ CBlockIndexWorkComparator address s c t = false;
  co_complete : ∀ p, known s p → chain_tx s p <> 0 → failed s p = false →
    CBlockIndexWorkComparator address s p b = false → p ∈ setBlockIndexCandidates s
}.

Record tree_ok (address : list Z → Z) (s : ChainState) (t b : CBlockIndex) : Prop := {
  to_index : index_ok s;
  to_data : data_ok s;
  to_chain : chain_ok address s t b
}.

(** *** The order of the candidates *)

Section Order.
Variable address : list Z → Z.
Hypothesis address_inj : ∀ h h', address h = address h' → h = h'.
Abbreviation cmp := (CBlockIndexWorkComparator address).

Lemma cmp_spec s pa pb :
  repr 8 (nChainWork pa) (work pa) → repr 8 (nChainWork pb) (work pb) →
  cmp s pa pb = true ↔
  work pa < work pb ∨ work pa = work pb ∧
    (nSequenceId (idx s pb) < nSequenceId (idx s pa) ∨ nSequenceId (idx s pb) = nSequenceId (idx s pa) ∧
      address (phashBlock pb) < address (phashBlock pa)).
Proof.
  intros Ha Hb. unfold CBlockIndexWorkComparator.
  destruct (compare_ops_repr _ _ _ _ _ Ha Hb) as (Hlt & Hgt & _). rewrite Hlt, Hgt.
  repeat match goal with |- context [?x <? ?y] => destruct (Z.ltb_spec x y) end;
    split; intros; (done || lia).
Qed.

Lemma cmp_irrefl s p : cmp s p p = false.
Proof.
  assert (∀ l, compare_loop l l = 0) as H
    by (induction l as [|x l IH]; cbn; [done|]; by rewrite Z.ltb_irrefl).
  unfold CBlockIndexWorkComparator, op_gt, op_lt, CompareTo. by rewrite H, !Z.ltb_irrefl.
Qed.

Lemma cmp_trans s x y z : index_ok s → known s x → known s y → known s z →
  cmp s x y = true → cmp s y z = true → cmp s x z = true.
Proof. intros Hi Hx%(io_work _ Hi) Hy%(io_work _ Hi) Hz%(io_work _ Hi). rewrite !cmp_spec by done. lia. Qed.

Lemma cmp_total s x y : index_ok s → known s x → known s y →
  cmp s x y = false → cmp s y x = false → x = y.
Proof.
  intros Hi Hx Hy H1 H2. pose proof (io_work _ Hi _ Hx) as Wx. pose proof (io_work _ Hi _ Hy) as Wy.
  assert (phashBlock x = phashBlock y) as E.
  { apply address_inj. rewrite <- not_true_iff_false in H1, H2. rewrite cmp_spec in H1, H2 by done. lia. }
  unfold known in Hx, Hy. rewrite E in Hx. congruence.
Qed.

(** The order only reads [nSequenceId]. *)
Lemma cmp_ext s s' : (∀ p, nSequenceId (idx s' p) = nSequenceId (idx s p)) → ∀ x y, cmp s' x y = cmp s x y.
Proof. intros H x y. unfold CBlockIndexWorkComparator. by rewrite !H. Qed.

Lemma cmp_work s p q : index_ok s → known s p → known s q → work p < work q → cmp s p q = true.
Proof. intros Hi Hp%(io_work _ Hi) Hq%(io_work _ Hi) H. rewrite cmp_spec by done. lia. Qed.

Lemma cmp_strict s : index_ok s → strict_total (cmp s) (known s).
Proof.
  intros Hi. constructor.
  - apply cmp_irrefl.
  - intros x y z. by apply cmp_trans.
  - intros x y. by apply cmp_total.
Qed.

Lemma cmp_not_trans s x y z : index_ok s → known s x → known s y → known s z →
  cmp s y x = false → cmp s z y = false → cmp s z x = false.
Proof. intros Hi. by apply (not_lt_trans _ _ (cmp_strict s Hi)). Qed.

Lemma cmp_flip s x y : index_ok s → known s x → known s y → cmp s x y = true → cmp s y x = false.
Proof. intros Hi. by apply (lt_asym _ _ (cmp_strict s Hi)). Qed.
End Order.

(** *** Status bits *)

Lemma has_lor st m k : has (Z.lor st m) k = has st k || has m k.
Proof.
  unfold has. rewrite Z.land_lor_distr_l. rewrite <- negb_andb. f_equal.
  destruct (Z.eqb_spec (Z.lor (Z.land st k) (Z.land m k)) 0) as [E|E].
  - apply Z.lor_eq_0_iff in E as [-> ->]. done.
  - symmetry. apply andb_false_iff.
    destruct (Z.eqb_spec (Z.land st k) 0) as [E1|]; [|by left].
    destruct (Z.eqb_spec (Z.land m k) 0) as [E2|]; [|by right].
    by rewrite E1, E2 in E.
Qed.

Lemma level_lor st m : Z.land m BLOCK_VALID_MASK = 0 →
  Z.land (Z.lor st m) BLOCK_VALID_MASK = Z.land st BLOCK_VALID_MASK.
Proof. intros H. by rewrite Z.land_lor_distr_l, H, Z.lor_0_r. Qed.

Lemma level_cases n : 0 <= n <= 7 → n ∈ [0; 1; 2; 3; 4; 5; 6; 7].
Proof. intros. rewrite !elem_of_cons. lia. Qed.

Lemma has_RaiseValidity st n k : 0 <= n <= 7 → k ∈ [8; 16; 32; 64; 96] →
  has (fst (RaiseValidity st n)) k = has st k.
Proof.
  intros Hn Hk. unfold RaiseValidity. destruct (negb _); [done|]. destruct (_ <? _); [|done]. cbn [fst].
  rewrite has_lor. unfold has. rewrite <- Z.land_assoc.
  assert (Z.land (Z.lnot BLOCK_VALID_MASK) k = k ∧ Z.land n k = 0) as [-> ->]; [|by rewrite orb_false_r].
  apply level_cases in Hn. set_unfold. destruct_or?; subst; done.
Qed.

Lemma level_RaiseValidity st n : 0 <= n <= 7 →
  Z.land (fst (RaiseValidity st n)) BLOCK_VALID_MASK
  = if has st BLOCK_FAILED_MASK then Z.land st BLOCK_VALID_MASK else Z.max n (Z.land st BLOCK_VALID_MASK).
Proof.
  intros Hn. unfold RaiseValidity. fold (has st BLOCK_FAILED_MASK).
  destruct (has _ _); [done|]. destruct (Z.ltb_spec (Z.land st BLOCK_VALID_MASK) n); cbn [fst]; [|lia].
  rewrite Z.land_lor_distr_l, <- Z.land_assoc.
  assert (Z.land n BLOCK_VALID_MASK = n) as ->
    by (apply level_cases in Hn; set_unfold; destruct_or?; subst; done).
  change (Z.land (Z.lnot BLOCK_VALID_MASK) BLOCK_VALID_MASK) with 0. rewrite Z.land_0_r, Z.lor_0_l. lia.
Qed.

Lemma has_clear st k : k ∈ [8; 16] → has (Z.land st (Z.lnot BLOCK_FAILED_MASK)) k = has st k.
Proof. intros Hk. unfold has. rewrite <- Z.land_assoc. set_unfold. destruct_or?; subst; done. Qed.

Lemma failed_clear st : has (Z.land st (Z.lnot BLOCK_FAILED_MASK)) BLOCK_FAILED_MASK = false.
Proof.
  unfold has. rewrite <- Z.land_assoc. change (Z.land (Z.lnot BLOCK_FAILED_MASK) BLOCK_FAILED_MASK) with 0.
  by rewrite Z.land_0_r.
Qed.

Lemma level_clear st : Z.land (Z.land st (Z.lnot BLOCK_FAILED_MASK)) BLOCK_VALID_MASK = Z.land st BLOCK_VALID_MASK.
Proof. rewrite <- Z.land_assoc. done. Qed.

Lemma IsValid_spec st n : IsValid st n = negb (has st BLOCK_FAILED_MASK) && (n <=? Z.land st BLOCK_VALID_MASK).
Proof. unfold IsValid, has. by destruct (_ =? 0). Qed.

(** *** Objects and their fields *)

Lemma known_ext s s' p : mapBlockIndex s' = mapBlockIndex s → known s' p ↔ known s p.
Proof. unfold known. by intros ->. Qed.

Lemma index_ok_ext s s' : mapBlockIndex s' = mapBlockIndex s → index_ok s → index_ok s'.
Proof.
  intros E [H1 H2 H3 H4 H5]. unfold known in *. constructor; unfold known; rewrite ?E; auto.
Qed.

Lemma elem_of_all_blocks s p : index_ok s → p ∈ all_blocks s ↔ known s p.
Proof.
  intros Hi. unfold all_blocks, known. rewrite list_elem_of_fmap. split.
  - intros ([h q] & -> & Hq%elem_of_map_to_list). cbn. by rewrite (io_hash _ Hi _ _ Hq).
  - intros H. exists (phashBlock p, p). by rewrite elem_of_map_to_list.
Qed.

Lemma all_blocks_one_object s : index_ok s → one_object (all_blocks s).
Proof.
  intros Hi a b Ha Hb E. apply elem_of_all_blocks in Ha, Hb; try done.
  unfold known in *. rewrite E in Ha. congruence.
Qed.

Lemma known_eq s p q : known s p → known s q → phashBlock p = phashBlock q → p = q.
Proof. unfold known. intros Hp Hq E. rewrite E in Hp. congruence. Qed.

Lemma known_ancestor s p a : index_ok s → known s p → a ∈ ancestry p → known s a ∧ (a = p ∨ work a < work p).
Proof.
  intros Hi Hp. revert Hp. induction p as [p IH _] using CBlockIndex_tree_ind. intros Hp.
  rewrite ancestry_unfold. destruct (pprev p) as [q|] eqn:E.
  - intros [->|Ha]%elem_of_cons; [by auto|]. destruct (io_prev _ Hi p q Hp E) as [Hq Hw].
    destruct (IH q eq_refl Hq Ha) as [? [->|?]]; split; auto; right; lia.
  - intros ->%list_elem_of_singleton. auto.
Qed.

Lemma ancestry_known s p : index_ok s → known s p → ancestry p ⊆ all_blocks s.
Proof. intros Hi Hp a Ha. apply elem_of_all_blocks; [done|]. by eapply known_ancestor. Qed.

Lemma Contains_known s t p : index_ok s → known s t → known s p →
  Contains (chain_of t) p = true ↔ p ∈ ancestry t.
Proof.
  intros Hi Ht Hp. apply (Contains_spec (all_blocks s)).
  - by apply (io_wf _ Hi).
  - by apply all_blocks_one_object.
  - by apply ancestry_known.
  - by apply elem_of_all_blocks.
Qed.

Lemma idx_update_same s p f : idx (update_idx s p f) p = f (idx s p).
Proof. unfold update_idx, idx. cbn. by rewrite lookup_insert_eq. Qed.

Lemma idx_update_ne s p q f : phashBlock q <> phashBlock p → idx (update_idx s p f) q = idx s q.
Proof. intros H. unfold update_idx, idx. cbn. by rewrite lookup_insert_ne by congruence. Qed.

(** A field that the assignment keeps. *)
Lemma idx_update_field {B} (g : IndexData → B) s p f q :
  g (f (idx s p)) = g (idx s p) → g (idx (update_idx s p f) q) = g (idx s q).
Proof.
  intros H. unfold update_idx, idx in *. cbn. destruct (decide (phashBlock p = phashBlock q)) as [<-|Hne].
  - by rewrite lookup_insert_eq.
  - by rewrite lookup_insert_ne.
Qed.

(** *** Steps that keep the stored blocks and their counts *)

Record same_data (s s' : ChainState) : Prop := {
  sd_index : mapBlockIndex s' = mapBlockIndex s;
  sd_unlinked : mapBlocksUnlinked s' = mapBlocksUnlinked s;
  sd_tx : ∀ p, nTx (idx s' p) = nTx (idx s p);
  sd_chain_tx : ∀ p, chain_tx s' p = chain_tx s p;
  sd_sequence : ∀ p, nSequenceId (idx s' p) = nSequenceId (idx s p);
  sd_stored : ∀ p, stored s' p = stored s p;
  sd_level : ∀ p, Z.land (status s p) BLOCK_VALID_MASK <= Z.land (status s' p) BLOCK_VALID_MASK
}.

#[export] Instance same_data_refl : Reflexive same_data.
Proof. constructor; (done || (intros; apply Z.le_refl)). Qed.

#[export] Instance same_data_trans : Transitive same_data.
Proof.
  intros s1 s2 s3 [A1 A2 A3 A4 A5 A6 A7] [B1 B2 B3 B4 B5 B6 B7].
  constructor; try (intros; by rewrite ?B1, ?B2, ?B3, ?B4, ?B5, ?B6, ?A1, ?A2, ?A3, ?A4, ?A5, ?A6).
  intros p. by transitivity (Z.land (status s2 p) BLOCK_VALID_MASK).
Qed.

Lemma same_data_known s s' p : same_data s s' → known s' p ↔ known s p.
Proof. intros H. apply known_ext, H. Qed.

Lemma same_data_linked s s' p : same_data s s' → linked s' p ↔ linked s p.
Proof. intros H. unfold linked. by setoid_rewrite (sd_stored _ _ H). Qed.

Lemma same_data_total s s' p : same_data s s' → total_tx s' p = total_tx s p.
Proof. intros H. unfold total_tx. induction (ancestry p) as [|a l IH]; cbn; [done|]. by rewrite IH, (sd_tx _ _ H). Qed.

Lemma same_data_ok s s' : same_data s s' → data_ok s → data_ok s'.
Proof.
  intros H [D1 D2 D3 D4 D5 D6 D7 D8].
  assert (∀ p, known s' p → known s p) as K by (intros p; by rewrite (same_data_known _ _ _ H)).
  constructor.
  - intros p Hp Hs. rewrite (sd_stored _ _ H) in Hs. pose proof (sd_level _ _ H p).
    specialize (D1 p (K p Hp) Hs). lia.
  - intros p Hp. rewrite (sd_tx _ _ H), (sd_stored _ _ H). auto.
  - intros p Hp. rewrite (same_data_total _ _ _ H). auto.
  - intros p Hp. rewrite (sd_chain_tx _ _ H), (same_data_linked _ _ _ H). auto.
  - intros p Hp. rewrite (sd_chain_tx _ _ H), (same_data_linked _ _ _ H), (same_data_total _ _ _ H). auto.
  - intros p Hp. rewrite (sd_chain_tx _ _ H), (sd_sequence _ _ H). auto.
  - intros k p. rewrite (sd_unlinked _ _ H), (same_data_known _ _ _ H), (sd_stored _ _ H), (sd_chain_tx _ _ H). auto.
  - by rewrite (sd_unlinked _ _ H).
Qed.

(** A new status that keeps the data bit and does not lower the level. *)
Lemma same_data_status s p f :
  (∀ st, has (f st) BLOCK_HAVE_DATA = has st BLOCK_HAVE_DATA ∧
         Z.land st BLOCK_VALID_MASK <= Z.land (f st) BLOCK_VALID_MASK) →
  same_data s (update_idx s p (λ d, set_status (f (nStatus d)) d)).
Proof.
  intros Hf. constructor; try done; intros q; unfold chain_tx, stored, status.
  1-3: by apply idx_update_field.
  1: apply (idx_update_field (λ d, has (nStatus d) BLOCK_HAVE_DATA)), Hf.
  unfold update_idx, idx. cbn. destruct (decide (phashBlock p = phashBlock q)) as [<-|Hne].
  - rewrite lookup_insert_eq. apply Hf.
  - rewrite lookup_insert_ne by done. lia.
Qed.

Lemma same_data_or_status s p m : m ∈ [16; 32; 64] → same_data s (or_status s p m).
Proof.
  intros Hm. apply (same_data_status s p (λ st, Z.lor st m)). intros st. rewrite has_lor, level_lor by (set_unfold; destruct_or?; by subst).
  split; [|lia]. set_unfold; destruct_or?; subst; by rewrite orb_false_r.
Qed.

Lemma status_or_status s p m q :
  status (or_status s p m) q = (if bool_decide (phashBlock p = phashBlock q) then Z.lor (status s q) m else status s q).
Proof.
  unfold status, or_status, update_idx, idx. cbn. case_bool_decide as E.
  - by rewrite <- E, lookup_insert_eq.
  - by rewrite lookup_insert_ne.
Qed.

Lemma failed_or_status s p m q :
  failed (or_status s p m) q = failed s q || bool_decide (phashBlock p = phashBlock q) && has m BLOCK_FAILED_MASK.
Proof.
  unfold failed, status, or_status, update_idx, idx. cbn.
  destruct (decide (phashBlock p = phashBlock q)) as [E|E].
  - rewrite bool_decide_true by done. rewrite <- E, lookup_insert_eq. cbn. apply has_lor.
  - rewrite bool_decide_false, lookup_insert_ne by done. by rewrite orb_false_r.
Qed.

(** *** Removing what a failed block makes unusable *)

(** Failed blocks, and blocks in [X], make their descendants fail, and failed
    candidates go. *)
Record pruned (X : CBlockIndex → Prop) (s s' : ChainState) : Prop := {
  pr_data : same_data s s';
  pr_chain : chainActive s' = chainActive s;
  pr_sorted : ∀ R, StronglySorted R (setBlockIndexCandidates s) → StronglySorted R (setBlockIndexCandidates s');
  pr_cand : ∀ c, c ∈ setBlockIndexCandidates s' → c ∈ setBlockIndexCandidates s;
  pr_out : ∀ c, c ∈ setBlockIndexCandidates s → c ∈ setBlockIndexCandidates s' ∨ failed s' c = true;
  pr_failed : ∀ p, failed s p = true → failed s' p = true;
  pr_new : ∀ p, known s p → failed s' p = true → ∃ a, a ∈ ancestry p ∧ (failed s a = true ∨ X a)
}.

Lemma pruned_dirty X s s' p : pruned X s s' → pruned X s (with_dirty s' p).
Proof. intros [[] ? ? ? ? ? ?]. by constructor; [constructor|..]. Qed.

(** Only blocks under failed blocks fail. *)
Definition no_block : CBlockIndex → Prop := λ _, False.

Lemma pruned_refl X s : pruned X s s.
Proof. constructor; auto; [done|]. intros p _ H. exists p. split; [apply ancestry_self|by left]. Qed.

Lemma pruned_trans X s1 s2 s3 : index_ok s1 → pruned X s1 s2 → pruned X s2 s3 → pruned X s1 s3.
Proof.
  intros Hi [A1 A2 A3 A4 A5 A6 A7] [B1 B2 B3 B4 B5 B6 B7]. constructor; auto.
  - by transitivity s2.
  - congruence.
  - intros c Hc. destruct (A5 c Hc) as [H|H]; auto.
  - intros p Hp (a & Ha & Hfa)%B7; [|by rewrite (same_data_known _ _ _ A1)].
    destruct (known_ancestor _ _ _ Hi Hp Ha) as [Hka _].
    destruct Hfa as [Hfa|Hfa]; [|by exists a; auto].
    destruct (A7 a Hka Hfa) as (x & Hx & Hfx). exists x. split; [|done].
    by apply (ancestry_trans p a (io_wf _ Hi p Hp) Ha).
Qed.

Lemma pruned_mark (X : CBlockIndex → Prop) s p m :
  m ∈ [BLOCK_FAILED_VALID; BLOCK_FAILED_CHILD] → (∃ a, a ∈ ancestry p ∧ (failed s a = true ∨ X a)) →
  known s p → pruned X s (or_status s p m).
Proof.
  intros Hm H Hp. constructor; auto.
  - apply same_data_or_status. unfold BLOCK_FAILED_VALID, BLOCK_FAILED_CHILD in Hm. set_solver.
  - intros q Hq. by rewrite failed_or_status, Hq.
  - intros q Hq. rewrite failed_or_status. destruct (failed s q) eqn:E; cbn.
    + intros _. exists q. split; [apply ancestry_self|by left].
    + intros [E2%bool_decide_eq_true_1 _]%andb_true_iff.
      rewrite <- (known_eq s p q Hp Hq E2). auto.
Qed.

Section Search.
Variable address : list Z → Z.
Hypothesis address_inj : ∀ h h', address h = address h' → h = h'.
Abbreviation cmp := (CBlockIndexWorkComparator address).
Abbreviation sorted s := (StronglySorted (λ x y, cmp s x y = true)).

Lemma elem_of_erase_candidate s p c :
  index_ok s → known s p → Forall (known s) (setBlockIndexCandidates s) →
  c ∈ setBlockIndexCandidates (erase_candidate address s p) ↔ c ∈ setBlockIndexCandidates s ∧ c <> p.
Proof.
  intros Hi Hp Hc. by apply (elem_of_set_erase _ (known s)); [apply cmp_strict|..].
Qed.

Lemma pruned_erase X s p :
  index_ok s → known s p → Forall (known s) (setBlockIndexCandidates s) → failed s p = true →
  pruned X s (erase_candidate address s p).
Proof.
  intros Hi Hp Hc Hf. constructor; auto.
  - constructor; (done || (intros; apply Z.le_refl)).
  - intros R. apply set_erase_sorted.
  - intros c. rewrite elem_of_erase_candidate by done. tauto.
  - intros c H. rewrite elem_of_erase_candidate by done.
    destruct (decide (phashBlock c = phashBlock p)) as [E|E].
    + right. rewrite Forall_forall in Hc. by rewrite (known_eq s c p (Hc c H) Hp E).
    + left. split; [done|]. by intros ->.
  - intros q _ H. exists q. split; [apply ancestry_self|by left].
Qed.

Lemma candidates_known s t b : chain_ok address s t b → Forall (known s) (setBlockIndexCandidates s).
Proof. intros H. apply Forall_forall. intros c Hc. by apply (co_candidate _ _ _ _ H). Qed.

Lemma pruned_candidates_known X s s' :
  pruned X s s' → Forall (known s) (setBlockIndexCandidates s) → Forall (known s') (setBlockIndexCandidates s').
Proof.
  intros H. rewrite !Forall_forall. intros Hc c Hin.
  apply (same_data_known _ _ _ (pr_data _ _ _ H)). by apply Hc, (pr_cand _ _ _ H).
Qed.

Lemma pruned_cmp X s s' x y : pruned X s s' → cmp s' x y = cmp s x y.
Proof. intros H. apply cmp_ext, (sd_sequence _ _ (pr_data _ _ _ H)). Qed.

Lemma pruned_solid X s s' p :
  pruned X s s' → index_ok s → known s p → (∀ a, a ∈ ancestry p → ¬ X a) → solid s p → solid s' p.
Proof.
  intros H Hi Hp HX [Htx Hc]. split; [by rewrite (sd_chain_tx _ _ (pr_data _ _ _ H))|].
  intros a Ha. destruct (failed s' a) eqn:E; [|done].
  destruct (known_ancestor _ _ _ Hi Hp Ha) as [Hka _].
  destruct (pr_new _ _ _ H a Hka E) as (x & Hx & Hfx).
  assert (x ∈ ancestry p) as Hxp by by apply (ancestry_trans p a (io_wf _ Hi p Hp) Ha).
  destruct Hfx as [Hfx|Hfx]; [by rewrite (Hc x) in Hfx|by destruct (HX x)].
Qed.

Lemma pruned_ok X s s' t b :
  pruned X s s' → (∀ a, a ∈ ancestry t → ¬ X a) → (∀ a, a ∈ ancestry b → ¬ X a) →
  tree_ok address s t b → tree_ok address s' t b.
Proof.
  intros H HXt HXb [Hi Hd Hc]. destruct (co_tip _ _ _ _ Hc) as [Ht Hts].
  destruct (co_bound _ _ _ _ Hc) as (Hb & Hbs & Hbc).
  pose proof (pr_data _ _ _ H) as Hs. constructor.
  - apply (index_ok_ext s); [apply Hs|done].
  - by apply (same_data_ok s).
  - constructor.
    + by rewrite (pr_chain _ _ _ H), (co_chain _ _ _ _ Hc).
    + rewrite (same_data_known _ _ _ Hs). eauto using pruned_solid.
    + rewrite (same_data_known _ _ _ Hs). split_and!; [done|by eauto using pruned_solid|].
      destruct (pr_out _ _ _ H b Hbc) as [|Hf]; [done|].
      pose proof (proj2 (pruned_solid _ _ _ _ H Hi Hb HXb Hbs) b (ancestry_self b)). congruence.
    + assert (∀ l, sorted s l → sorted s' l) as Hconv.
      { intros l. apply StronglySorted_impl. intros x y _ _. by rewrite (pruned_cmp _ _ _ _ _ H). }
      apply Hconv, (pr_sorted _ _ _ H), (co_sorted _ _ _ _ Hc).
    + intros c Hin%(pr_cand _ _ _ H). rewrite (same_data_known _ _ _ Hs), (sd_chain_tx _ _ Hs), (pruned_cmp _ _ _ _ _ H).
      by apply (co_candidate _ _ _ _ Hc).
    + intros p. rewrite (same_data_known _ _ _ Hs), (sd_chain_tx _ _ Hs), (pruned_cmp _ _ _ _ _ H).
      intros Hp Htx Hf Hcmp. destruct (failed s p) eqn:E; [by rewrite (pr_failed _ _ _ H) in Hf|].
      destruct (pr_out _ _ _ H p) as [|Hf']; [|done|congruence]. by apply (co_complete _ _ _ _ Hc).
Qed.

(** **** Counting transactions *)

Lemma linked_ancestor s p a : wf_index p → a ∈ ancestry p → linked s p → linked s a.
Proof. intros Hp Ha H x Hx. apply H. by apply (ancestry_trans p a). Qed.

Lemma total_tx_unfold s p :
  total_tx s p = nTx (idx s p) + match pprev p with Some q => total_tx s q | None => 0 end.
Proof. unfold total_tx. rewrite ancestry_unfold. by destruct (pprev p). Qed.

Lemma total_tx_nonneg s p :
  index_ok s → (∀ a, known s a → 0 <= nTx (idx s a)) → known s p → 0 <= total_tx s p.
Proof.
  intros Hi Hd. induction p as [p IH _] using CBlockIndex_tree_ind. intros Hp.
  rewrite total_tx_unfold. specialize (Hd p Hp) as Hnp.
  destruct (pprev p) as [q|] eqn:E; [|lia]. destruct (io_prev _ Hi p q Hp E) as [Hq _].
  specialize (IH q eq_refl Hq). lia.
Qed.

Lemma linked_chain_tx s p : index_ok s → data_ok s → known s p → linked s p → chain_tx s p <> 0.
Proof.
  intros Hi Hd Hp Hl. rewrite (do_chain_tx _ Hd p Hp Hl), total_tx_unfold.
  destruct (do_tx _ Hd p Hp) as [? Htx].
  assert (nTx (idx s p) <> 0) by (rewrite Htx, (Hl p (ancestry_self p)); done).
  destruct (pprev p) as [q|] eqn:E; [|lia]. destruct (io_prev _ Hi p q Hp E) as [Hq _].
  pose proof (total_tx_nonneg s q Hi (λ a Ha, proj1 (do_tx _ Hd a Ha)) Hq). lia.
Qed.

Lemma chain_tx_ancestor s p a :
  index_ok s → data_ok s → known s p → a ∈ ancestry p → chain_tx s p <> 0 → chain_tx s a <> 0.
Proof.
  intros Hi Hd Hp Ha H. destruct (known_ancestor _ _ _ Hi Hp Ha) as [Hk _].
  apply linked_chain_tx; [done..|]. apply (linked_ancestor s p); [by apply (io_wf _ Hi)|done|].
  by apply (do_linked _ Hd).
Qed.

Lemma solid_ancestor s p a :
  index_ok s → data_ok s → known s p → a ∈ ancestry p → solid s p → solid s a.
Proof.
  intros Hi Hd Hp Ha [Htx Hc]. split; [by apply (chain_tx_ancestor s p)|].
  intros x Hx. apply Hc. by apply (ancestry_trans p a (io_wf _ Hi p Hp)).
Qed.

(** **** The search for the candidate to activate *)

Lemma test_path_spec s t b p :
  tree_ok address s t b → known s p → chain_tx s p <> 0 →
  match test_path s (ancestry p) with
  | Ok None => ∀ a, a ∈ ancestry p → failed s a = false
  | Ok (Some (x, ff, fm)) => ff = true ∧ x ∈ ancestry p ∧ failed s x = true
  | Throw _ => False
  end.
Proof.
  intros [Hi Hd Hc]. destruct (co_tip _ _ _ _ Hc) as [Ht [_ Hts]].
  induction p as [p IH _] using CBlockIndex_tree_ind. intros Hp Htx.
  pose proof (Contains_known s t p Hi Ht Hp) as Hcon. rewrite <- (co_chain _ _ _ _ Hc) in Hcon.
  pose proof (ancestry_self p) as Hself. pose proof (do_linked _ Hd p Hp Htx p Hself) as Hst.
  rewrite ancestry_unfold. cbn [test_path].
  destruct (Contains (chainActive s) p).
  { rewrite <- ancestry_unfold. intros a Ha. apply Hts.
    apply (ancestry_trans t p (io_wf _ Hi t Ht)); [by apply Hcon|done]. }
  fold (chain_tx s p). apply Z.eqb_neq in Htx as E0. rewrite E0. cbn [andb].
  fold (failed s p). fold (stored s p). rewrite Hst. cbn [negb]. rewrite orb_false_r.
  destruct (failed s p) eqn:Ef; [split_and!; [done|left|done]|].
  destruct (pprev p) as [q|] eqn:E; cbn [test_path].
  - destruct (io_prev _ Hi p q Hp E) as [Hq _].
    assert (chain_tx s q <> 0) as Hq2
      by (apply (chain_tx_ancestor s p); [done..| |done]; apply (ancestry_prev p q E), ancestry_self).
    specialize (IH q eq_refl Hq Hq2). destruct (test_path s (ancestry q)) as [[[[x ff] fm]|]|]; [| |done].
    + destruct IH as (-> & Hx & Hf). split_and!; [done|by right|done].
    + intros a [->|Ha]%elem_of_cons; auto.
  - by intros a ->%list_elem_of_singleton.
Qed.

Lemma remove_path_pruned X p x fm : ∀ s,
  index_ok s → Forall (known s) (setBlockIndexCandidates s) → known s p → x ∈ ancestry p → failed s x = true →
  pruned X s (remove_path address s (ancestry p) x true fm).
Proof.
  induction p as [p IH _] using CBlockIndex_tree_ind. intros s Hi Hcs Hp Hx Hf.
  assert (x = p ∨ ∃ q, pprev p = Some q ∧ x ∈ ancestry q) as Hcase.
  { rewrite ancestry_unfold in Hx. destruct (pprev p); set_solver. }
  rewrite ancestry_unfold. cbn [remove_path]. destruct (ptr_eq x p) eqn:Epx; [apply pruned_refl|].
  destruct Hcase as [->|(q & E & Hxq)]; [by rewrite ptr_eq_refl in Epx|]. rewrite E.
  destruct (io_prev _ Hi p q Hp E) as [Hq _].
  set (s1 := or_status s p BLOCK_FAILED_CHILD).
  assert (pruned X s s1) as H1 by (apply pruned_mark; [set_solver| |done]; exists x; auto).
  assert (pruned X s1 (erase_candidate address s1 p)) as H2.
  { apply pruned_erase.
    - by apply (index_ok_ext s).
    - done.
    - by apply (pruned_candidates_known X s s1).
    - unfold s1. rewrite failed_or_status, bool_decide_true by done. apply orb_true_r. }
  pose proof (pruned_trans _ _ _ _ Hi H1 H2) as H12.
  apply (pruned_trans _ _ _ _ Hi H12). apply IH; [done|..].
  - by apply (index_ok_ext s).
  - by eapply pruned_candidates_known.
  - done.
  - done.
  - by apply (pr_failed _ _ _ H12).
Qed.

Lemma remove_path_length p x ff fm : ∀ s,
  (length (setBlockIndexCandidates (remove_path address s (ancestry p) x ff fm))
   <= length (setBlockIndexCandidates s))%nat.
Proof.
  induction (ancestry p) as [|y l IH]; intros s; cbn [remove_path]; [done|].
  destruct (ptr_eq x y); [done|]. etransitivity; [apply IH|]. cbn [erase_candidate setBlockIndexCandidates with_candidates].
  etransitivity; [apply length_set_erase_le|]. by destruct ff, fm.
Qed.

Lemma remove_path_shrinks s p x fm :
  index_ok s → known s p → known s x → p ∈ setBlockIndexCandidates s →
  (length (setBlockIndexCandidates (erase_candidate address (remove_path address s (ancestry p) x true fm) x))
   < length (setBlockIndexCandidates s))%nat.
Proof.
  intros Hi Hp Hx Hin. rewrite ancestry_unfold. cbn [remove_path].
  destruct (ptr_eq x p) eqn:Epx.
  - apply (ptr_eq_spec (all_blocks s)) in Epx as ->;
      [|by apply all_blocks_one_object|by apply elem_of_all_blocks..].
    apply (length_set_erase _ (known s)); [by apply cmp_strict|done].
  - cbn [erase_candidate setBlockIndexCandidates with_candidates].
    eapply Nat.le_lt_trans; [apply length_set_erase_le|].
    set (s2 := erase_candidate _ _ _).
    apply Nat.le_lt_trans with (length (setBlockIndexCandidates s2)).
    + destruct (pprev p); [apply remove_path_length|done].
    + apply (length_set_erase _ (known (or_status s p BLOCK_FAILED_CHILD))); [|done].
      apply cmp_strict; [done|]. by apply (index_ok_ext s).
Qed.

Lemma pruned_best_invalid X s o : pruned X s (with_best_invalid s o).
Proof.
  constructor; auto.
  - constructor; (done || (intros; apply Z.le_refl)).
  - intros q _ H. exists q. split; [apply ancestry_self|by left].
Qed.

Lemma note_invalid_pruned X s p : pruned X s (note_invalid s p).
Proof. unfold note_invalid. repeat case_match; apply pruned_refl || apply pruned_best_invalid. Qed.

(** The candidate to activate: the best one left, which is usable. *)
Definition best_candidate (s : ChainState) (m : CBlockIndex) : Prop :=
  m ∈ setBlockIndexCandidates s ∧ solid s m ∧ ∀ c, c ∈ setBlockIndexCandidates s → cmp s m c = false.

Lemma FindMostWorkChain_loop_spec fuel : ∀ s t b,
  tree_ok address s t b → (length (setBlockIndexCandidates s) < fuel)%nat →
  ∃ s' m, FindMostWorkChain_loop address fuel s = Ok (s', Some m) ∧ pruned no_block s s' ∧ best_candidate s' m.
Proof.
  induction fuel as [|fuel IH]; intros s t b Hok Hlen; [lia|].
  pose proof Hok as [Hi Hd Hc]. pose proof (candidates_known _ _ _ Hc) as Hck.
  destruct (co_bound _ _ _ _ Hc) as (_ & _ & Hbc).
  cbn [FindMostWorkChain_loop]. destruct (last (setBlockIndexCandidates s)) as [m|] eqn:El.
  2: { apply last_None in El. rewrite El in Hbc. set_solver. }
  assert (m ∈ setBlockIndexCandidates s) as Hm by (apply last_Some in El as (l' & ->); set_solver).
  destruct (co_candidate _ _ _ _ Hc m Hm) as (Hkm & Hmtx & _).
  pose proof (test_path_spec s t b m Hok Hkm Hmtx) as Htest.
  destruct (test_path s (ancestry m)) as [[[[x ff] fm]|]|]; cbn [rbind]; [| |done].
  - destruct Htest as (-> & Hx & Hf). destruct (known_ancestor _ _ _ Hi Hkm Hx) as [Hkx _].
    set (s1 := note_invalid s m). pose proof (note_invalid_pruned no_block s m : pruned no_block s s1) as H1.
    assert (index_ok s1) as Hi1 by (apply (index_ok_ext s); [apply H1|done]).
    pose proof (same_data_known _ _ m (pr_data _ _ _ H1)) as K1. pose proof (same_data_known _ _ x (pr_data _ _ _ H1)) as K2.
    assert (pruned no_block s1 (remove_path address s1 (ancestry m) x true fm)) as H2.
    { apply remove_path_pruned; [done|by eapply pruned_candidates_known|by apply K1|done|by apply H1]. }
    pose proof (pruned_trans _ _ _ _ Hi H1 H2) as H12. set (s2 := remove_path _ _ _ _ _ _) in *.
    assert (pruned no_block s2 (erase_candidate address s2 x)) as H3.
    { apply pruned_erase.
      - apply (index_ok_ext s); [apply H12|done].
      - by apply (same_data_known _ _ _ (pr_data _ _ _ H12)).
      - by eapply pruned_candidates_known.
      - by apply (pr_failed _ _ _ H12). }
    pose proof (pruned_trans _ _ _ _ Hi H12 H3) as H13.
    destruct (IH _ t b (pruned_ok no_block _ _ _ _ H13 ltac:(auto) ltac:(auto) Hok)) as (s' & m' & -> & H4 & H5).
    { enough (length (setBlockIndexCandidates (erase_candidate address s2 x)) < length (setBlockIndexCandidates s))%nat by lia.
      replace (setBlockIndexCandidates s) with (setBlockIndexCandidates s1) by (subst s1; unfold note_invalid; by repeat case_match).
      apply remove_path_shrinks; [done|by apply K1|by apply K2|].
      subst s1; unfold note_invalid; by repeat case_match. }
    exists s', m'. split_and!; [done|by eapply pruned_trans|done].
  - exists s, m. split_and!; [done|apply pruned_refl|]. split_and!; [done|by split|].
    apply (last_is_max _ (known s)) with (l := setBlockIndexCandidates s); try done.
    + by apply cmp_strict.
    + apply (co_sorted _ _ _ _ Hc).
Qed.

(** **** Moving the tip *)

Lemma retarget s t b t' :
  tree_ok address s t b → known s t' → solid s t' → cmp s b t' = false →
  (∀ c, c ∈ setBlockIndexCandidates s → cmp s c t' = false) →
  tree_ok address (with_chain s (chain_of t')) t' b.
Proof.
  intros [Hi Hd Hc] Ht Hs Hb Hcand. constructor; [by apply (index_ok_ext s)|by apply (same_data_ok s)|].
  destruct (co_bound _ _ _ _ Hc) as (H1 & H2 & H3). constructor; [done|done|done|..].
  - apply (co_sorted _ _ _ _ Hc).
  - intros c Hin. destruct (co_candidate _ _ _ _ Hc c Hin) as (? & ? & _). split_and!; [done..|by apply Hcand].
  - apply (co_complete _ _ _ _ Hc).
Qed.

Lemma lower_tip s t b q :
  tree_ok address s t b → pprev t = Some q → tree_ok address (with_chain s (chain_of q)) q b.
Proof.
  intros Hok E. pose proof Hok as [Hi Hd Hc]. destruct (co_tip _ _ _ _ Hc) as [Ht Hts].
  destruct (io_prev _ Hi t q Ht E) as [Hq Hw].
  assert (∀ c, c ∈ setBlockIndexCandidates s → cmp s c q = false) as H.
  { intros c Hin. destruct (co_candidate _ _ _ _ Hc c Hin) as (Hkc & _ & Hct).
    apply (cmp_not_trans address address_inj s q t c); try done.
    by apply cmp_flip, cmp_work. }
  apply (retarget s t b q Hok Hq); [|apply H, (co_bound _ _ _ _ Hc)|done].
  apply (solid_ancestor s t); try done. apply (ancestry_prev t q E), ancestry_self.
Qed.

Lemma prune_spec s p b :
  index_ok s → chainActive s = chain_of p → known s p → Forall (known s) (setBlockIndexCandidates s) →
  sorted s (setBlockIndexCandidates s) → b ∈ setBlockIndexCandidates s → cmp s b p = false →
  ∃ c, PruneBlockIndexCandidates address s = Ok (with_candidates s c) ∧ sorted s c ∧
    ∀ x, x ∈ c ↔ x ∈ setBlockIndexCandidates s ∧ cmp s x p = false.
Proof.
  intros Hi Hch Hp Hk Hs Hb Hbp. unfold PruneBlockIndexCandidates.
  rewrite Hch, Tip_chain_of by by apply (io_wf _ Hi).
  set (c := erase_below (cmp s) p (setBlockIndexCandidates s)).
  assert (∀ x, x ∈ c ↔ x ∈ setBlockIndexCandidates s ∧ cmp s x p = false) as Hc.
  { intros x. by apply (elem_of_erase_below (cmp s) (known s)); [apply cmp_strict|..]. }
  assert (sorted s c) as Hcs by by apply (erase_below_sorted (cmp s)).
  assert (b ∈ c) as Hbc by by apply Hc.
  destruct (setBlockIndexCandidates s) as [|y l] eqn:El; [set_solver|].
  exists c. split; [|done]. fold c. by destruct c; [set_solver|].
Qed.

(** The next block of the active chain, and the candidates that remain. *)
Lemma advance_tip s t b p :
  tree_ok address s t b → pprev p = Some t → known s p → solid s p →
  ∃ c, PruneBlockIndexCandidates address (with_chain s (chain_of p))
       = Ok (with_candidates (with_chain s (chain_of p)) c) ∧
    tree_ok address (with_candidates (with_chain s (chain_of p)) c) p (if cmp s b p then p else b) ∧
    ∀ x, x ∈ c → x ∈ setBlockIndexCandidates s.
Proof.
  intros Hok E Hp Hsp. pose proof Hok as [Hi Hd Hc]. set (s1 := with_chain s (chain_of p)).
  destruct (co_bound _ _ _ _ Hc) as (Hb & Hbs & Hbc).
  set (b' := if cmp s b p then p else b).
  assert (b' ∈ setBlockIndexCandidates s ∧ cmp s b' p = false ∧ known s b' ∧ solid s b' ∧ cmp s b' b = false)
    as (Hb'c & Hb'p & Hb' & Hb's & Hb'b).
  { unfold b'. destruct (cmp s b p) eqn:Eb; [|by auto using cmp_irrefl].
    pose proof (cmp_flip address address_inj s b p Hi Hb Hp Eb) as Hflip.
    split_and!; [|apply cmp_irrefl|done..].
    apply (co_complete _ _ _ _ Hc); [done|apply Hsp| |done]. by apply Hsp, ancestry_self. }
  destruct (prune_spec s1 p b') as (c & Hpr & Hcs & Hcin);
    [by apply (index_ok_ext s)|done|done|by apply (candidates_known _ _ _ Hc)|apply (co_sorted _ _ _ _ Hc)|done|done|].
  exists c. split; [done|]. split; [|by intros x [? _]%Hcin].
  constructor; [by apply (index_ok_ext s)|by apply (same_data_ok s)|].
  constructor; [done|done| |done|..].
  - split_and!; [done|done|]. by apply Hcin.
  - intros x [Hx Hxp]%Hcin. destruct (co_candidate _ _ _ _ Hc x Hx) as (? & ? & _). done.
  - intros x Hx Htx Hf Hxb. apply Hcin. split.
    + apply (co_complete _ _ _ _ Hc); [done..|]. apply (cmp_not_trans address address_inj s b b' x); done.
    + apply (cmp_not_trans address address_inj s p b' x); done.
Qed.

(** A block, neither of the active chain nor below the bound, fails. *)
Lemma reject_block s t b p m :
  m ∈ [BLOCK_FAILED_VALID; BLOCK_FAILED_CHILD] →
  tree_ok address s t b → known s p → p ∉ ancestry t → p ∉ ancestry b →
  tree_ok address (note_invalid (erase_candidate address (with_dirty (or_status s p m) p) p) p) t b ∧
  pruned (λ a, a = p) s (note_invalid (erase_candidate address (with_dirty (or_status s p m) p) p) p).
Proof.
  intros Hm Hok Hp Ht Hb. pose proof Hok as [Hi Hd Hc].
  assert (pruned (λ a, a = p) s (note_invalid (erase_candidate address (with_dirty (or_status s p m) p) p) p)) as H.
  { set (s1 := or_status s p m).
    assert (pruned (λ a, a = p) s s1) as H1.
    { apply pruned_mark; [done| |done]. exists p. split; [apply ancestry_self|by right]. }
    pose proof (pruned_dirty _ _ _ p H1) as H1'.
    eapply pruned_trans; [done|exact H1'|]. eapply pruned_trans; [by apply (index_ok_ext s)| |apply note_invalid_pruned].
    apply pruned_erase; [by apply (index_ok_ext s)|done| |].
    - eapply pruned_candidates_known; [exact H1'|]. by apply (candidates_known _ _ _ Hc).
    - change (failed s1 p = true). unfold s1. rewrite failed_or_status, bool_decide_true by done.
      set_unfold. destruct Hm as [->|[->|[]]]; apply orb_true_r. }
  split; [|done]. apply (pruned_ok _ s _ t b H); [by intros a Ha ->..|done].
Qed.

(** **** Linking the blocks that waited for their predecessors *)

Lemma update_cases s p f x : known s p → known s x →
  (x = p ∧ idx (update_idx s p f) x = f (idx s p)) ∨ (x <> p ∧ idx (update_idx s p f) x = idx s x).
Proof.
  intros Hp Hx. destruct (decide (phashBlock x = phashBlock p)) as [E|E].
  - left. rewrite (known_eq s x p Hx Hp E). split; [done|apply idx_update_same].
  - right. split; [by intros ->|by apply idx_update_ne].
Qed.

(** [data_ok], but for the stored blocks in [queue], whose predecessors are
    linked and which are not yet. *)
Record linking (s : ChainState) (t b : CBlockIndex) (queue : list CBlockIndex) : Prop := {
  li_index : index_ok s;
  li_level : ∀ p, known s p → stored s p = true → BLOCK_VALID_TRANSACTIONS <= Z.land (status s p) BLOCK_VALID_MASK;
  li_tx : ∀ p, known s p → 0 <= nTx (idx s p) ∧ (nTx (idx s p) = 0 ↔ stored s p = false);
  li_bound : ∀ p, known s p → total_tx s p < 2 ^ 32;
  li_linked : ∀ p, known s p → chain_tx s p <> 0 → linked s p ∧ chain_tx s p = total_tx s p;
  li_sequence : ∀ p, known s p → chain_tx s p = 0 → nSequenceId (idx s p) = 0;
  li_pending : ∀ p, known s p → stored s p = true → chain_tx s p = 0 →
    p ∈ queue ∨ ∃ k, (k, p) ∈ mapBlocksUnlinked s;
  li_unlinked : ∀ k p, (k, p) ∈ mapBlocksUnlinked s →
    known s p ∧ stored s p = true ∧ chain_tx s p = 0 ∧ (p ∉ queue) ∧
    ∃ q, pprev p = Some q ∧ k = Some (phashBlock q) ∧ chain_tx s q = 0;
  li_queue : ∀ p, p ∈ queue → known s p ∧ stored s p = true ∧ chain_tx s p = 0 ∧
    ∀ q, pprev p = Some q → chain_tx s q <> 0;
  li_nodup : NoDup queue ∧ NoDup (mapBlocksUnlinked s);
  li_chain : chain_ok address s t b
}.

Lemma linking_done s t b : linking s t b [] → tree_ok address s t b.
Proof.
  intros L. pose proof (li_index _ _ _ _ L) as Hi. constructor; [done| |by apply (li_chain _ _ _ _ L)].
  assert (∀ p, known s p → linked s p → chain_tx s p <> 0) as Hlinked.
  { induction p as [p IH _] using CBlockIndex_tree_ind. intros Hp Hl E.
    destruct (li_pending _ _ _ _ L p Hp (Hl p (ancestry_self p)) E) as [H|(k & H)]; [set_solver|].
    destruct (li_unlinked _ _ _ _ L k p H) as (_ & _ & _ & _ & q & Eq & _ & Eq0).
    apply (IH q Eq); [apply (io_prev _ Hi p q Hp Eq)| |done].
    apply (linked_ancestor s p); [by apply (io_wf _ Hi)| |done]. apply (ancestry_prev p q Eq), ancestry_self. }
  constructor; try apply L.
  - intros p Hp H. apply (li_linked _ _ _ _ L); auto.
  - intros k p. split.
    + intros H. destruct (li_unlinked _ _ _ _ L k p H) as (? & ? & ? & _ & q & ? & ? & _). eauto 10.
    + intros (Hp & Hs & Htx & q & Eq & ->).
      destruct (li_pending _ _ _ _ L p Hp Hs Htx) as [H|(k & H)]; [set_solver|].
      destruct (li_unlinked _ _ _ _ L k p H) as (_ & _ & _ & _ & q' & ? & ? & _). congruence.
Qed.

(** The count a block gets when its turn comes. *)
Lemma queue_count s t b p queue :
  linking s t b (p :: queue) →
  u32 ((match pprev p with Some q => nChainTx (idx s q) | None => 0 end) + nTx (idx s p)) = total_tx s p ∧
  total_tx s p <> 0 ∧ linked s p.
Proof.
  intros L. pose proof (li_index _ _ _ _ L) as Hi.
  destruct (li_queue _ _ _ _ L p ltac:(left)) as (Hp & Hst & _ & Hprev).
  destruct (li_tx _ _ _ _ L p Hp) as [Hn0 Hn]. pose proof (li_bound _ _ _ _ L p Hp) as Hb.
  assert (nTx (idx s p) <> 0) as Hpos by (rewrite Hn, Hst; done).
  assert ((match pprev p with Some q => nChainTx (idx s q) | None => 0 end) + nTx (idx s p) = total_tx s p
          ∧ total_tx s p <> 0 ∧ linked s p) as (-> & Hnz & Hl).
  { rewrite total_tx_unfold. unfold linked. rewrite ancestry_unfold.
    destruct (pprev p) as [q|] eqn:E.
    - destruct (io_prev _ Hi p q Hp E) as [Hq _]. destruct (li_linked _ _ _ _ L q Hq (Hprev q eq_refl)) as [Hl Eq].
      pose proof (total_tx_nonneg s q Hi (λ a Ha, proj1 (li_tx _ _ _ _ L a Ha)) Hq).
      unfold chain_tx in Eq. split_and!; [lia|lia|]. intros a [->|Ha]%elem_of_cons; [done|by apply Hl].
    - split_and!; [lia|lia|]. by intros a ->%list_elem_of_singleton. }
  split_and!; [|done|done]. apply wrap_small. split; [|done].
  apply (total_tx_nonneg s p Hi (λ a Ha, proj1 (li_tx _ _ _ _ L a Ha)) Hp).
Qed.

(** What a turn does to the fields and the sets. *)
Lemma link_block_fields s t b p queue :
  linking s t b (p :: queue) →
  let s' := fst (link_block address s p) in
  let range := snd (link_block address s p) in
  mapBlockIndex s' = mapBlockIndex s ∧ chainActive s' = chainActive s ∧
  (∀ x, nTx (idx s' x) = nTx (idx s x)) ∧ (∀ x, status s' x = status s x) ∧
  chain_tx s' p = total_tx s p ∧
  (∀ x, known s x → x <> p → idx s' x = idx s x) ∧
  (∀ k x, (k, x) ∈ mapBlocksUnlinked s' ↔ (k, x) ∈ mapBlocksUnlinked s ∧ k <> Some (phashBlock p)) ∧
  (∀ x, x ∈ range ↔ (Some (phashBlock p), x) ∈ mapBlocksUnlinked s) ∧
  NoDup (mapBlocksUnlinked s') ∧ NoDup range ∧
  (length range + length (mapBlocksUnlinked s') = length (mapBlocksUnlinked s))%nat.
Proof.
  intros L. destruct (queue_count s t b p queue L) as (Hcount & _).
  destruct (li_queue _ _ _ _ L p ltac:(left)) as (Hp & _). destruct (li_nodup _ _ _ _ L) as [_ Hnd].
  cbn. unfold link_block. cbn [fst snd].
  set (s1 := with_sequence _ _).
  set (s2 := if as_good_as_tip address s1 p then insert_candidate address s1 p else s1).
  assert (mapBlockIndex s2 = mapBlockIndex s ∧ chainActive s2 = chainActive s ∧ index_data s2 = index_data s1
          ∧ mapBlocksUnlinked s2 = mapBlocksUnlinked s) as (E1 & E2 & E3 & ->)
    by (unfold s2; destruct (as_good_as_tip _ _ _); done).
  set (w := λ e : option (list Z) * CBlockIndex, bool_decide (e.1 = Some (phashBlock p))).
  assert (∀ x, x ∈ map snd (filter (λ e, w e) (mapBlocksUnlinked s)) ↔ (Some (phashBlock p), x) ∈ mapBlocksUnlinked s)
    as Hr.
  { intros x. rewrite list_elem_of_fmap. setoid_rewrite list_elem_of_filter. unfold w. split.
    - intros ([k y] & -> & [Hk%bool_decide_unpack Hin]). cbn in *. by subst.
    - intros H. exists (Some (phashBlock p), x). split_and!; [done|by apply bool_decide_pack|done]. }
  unfold chain_tx, status, idx. cbn [mapBlockIndex chainActive mapBlocksUnlinked with_unlinked index_data].
  rewrite E1, E2, E3. fold (idx s1).
  split_and!; try done.
  - intros x. by apply (idx_update_field nTx).
  - intros x. by apply (idx_update_field nStatus).
  - change (nChainTx (idx s1 p) = total_tx s p). unfold s1. cbn [idx]. rewrite <- Hcount.
    change (idx (with_sequence ?a ?b) p) with (idx a p). by rewrite idx_update_same.
  - intros x Hx Hne. change (idx s1 x = idx s x). apply idx_update_ne. intros E. by apply Hne, (known_eq s).
  - intros k x. rewrite list_elem_of_filter. unfold w. cbn. destruct (bool_decide_reflect (k = Some (phashBlock p))); cbn; tauto.
  - by apply NoDup_filter.
  - apply NoDup_fmap_2_strong; [|by apply NoDup_filter].
    intros [k x] [k' x'] [Hk%bool_decide_unpack _]%list_elem_of_filter [Hk'%bool_decide_unpack _]%list_elem_of_filter E.
    cbn in *. congruence.
  - rewrite length_map. symmetry. apply length_filter_split.
Qed.

Lemma link_block_candidates s t b p queue :
  linking s t b (p :: queue) →
  let s' := fst (link_block address s p) in
  setBlockIndexCandidates s'
  = if cmp s' p t then setBlockIndexCandidates s else set_insert (cmp s') p (setBlockIndexCandidates s).
Proof.
  intros L. pose proof (li_chain _ _ _ _ L) as Hc. destruct (co_tip _ _ _ _ Hc) as [Ht _].
  cbn. unfold link_block. cbn [fst]. set (s1 := with_sequence _ _).
  assert (as_good_as_tip address s1 p = negb (cmp s1 p t)) as ->.
  { unfold as_good_as_tip. change (chainActive s1) with (chainActive s).
    rewrite (co_chain _ _ _ _ Hc), Tip_chain_of; [done|]. by apply (io_wf _ (li_index _ _ _ _ L)). }
  set (c := cmp s1 p t). cbn [setBlockIndexCandidates with_unlinked].
  destruct c eqn:E; cbn [negb]; subst c.
  - change (setBlockIndexCandidates s1 = if cmp s1 p t then setBlockIndexCandidates s else set_insert (cmp s1) p (setBlockIndexCandidates s)).
    by rewrite E.
  - change (set_insert (cmp s1) p (setBlockIndexCandidates s1) = if cmp s1 p t then setBlockIndexCandidates s else set_insert (cmp s1) p (setBlockIndexCandidates s)).
    by rewrite E.
Qed.

Lemma link_block_chain s t b p queue :
  linking s t b (p :: queue) → chain_ok address (fst (link_block address s p)) t b.
Proof.
  intros L. pose proof (li_index _ _ _ _ L) as Hi. pose proof (li_chain _ _ _ _ L) as Hc.
  destruct (link_block_fields s t b p queue L) as (Em & Ec & _ & Est & Ep & Eo & _).
  destruct (queue_count s t b p queue L) as (_ & Hnz & _).
  pose proof (link_block_candidates s t b p queue L) as Hcand. cbn zeta in Hcand.
  set (s' := fst (link_block address s p)) in *.
  destruct (li_queue _ _ _ _ L p ltac:(left)) as (Hp & _ & Hp0 & _).
  assert (index_ok s') as Hi' by by apply (index_ok_ext s).
  assert (∀ x, known s' x ↔ known s x) as K by (intros x; by apply known_ext).
  assert (∀ x, chain_tx s x <> 0 → x <> p) as Hne by (intros x Hx ->; done).
  assert (∀ x, known s x → x <> p → chain_tx s' x = chain_tx s x) as Htx
    by (intros x Hx Hxp; unfold chain_tx; by rewrite Eo).
  assert (∀ x, failed s' x = failed s x) as Hf by (intros x; unfold failed; by rewrite Est).
  assert (∀ x y, known s x → known s y → x <> p → y <> p → cmp s' x y = cmp s x y) as Hcmp.
  { intros x y Hx Hy Hxp Hyp. unfold CBlockIndexWorkComparator. by rewrite !Eo. }
  assert (∀ x, known s x → solid s x → solid s' x) as Hsol.
  { intros x Hx [Hx1 Hx2]. split; [by rewrite Htx by auto|]. intros a Ha. rewrite Hf. auto. }
  destruct (co_tip _ _ _ _ Hc) as [Ht Hts]. destruct (co_bound _ _ _ _ Hc) as (Hb & Hbs & Hbc).
  pose proof (candidates_known _ _ _ Hc) as Hck. rewrite Forall_forall in Hck.
  assert (Forall (known s') (setBlockIndexCandidates s)) as Hck' by (apply Forall_forall; intros x Hx; apply K; auto).
  assert (∀ x, x ∈ setBlockIndexCandidates s' ↔
            x ∈ setBlockIndexCandidates s ∨ x = p ∧ cmp s' p t = false) as Hin.
  { intros x. rewrite Hcand. destruct (cmp s' p t); [naive_solver|].
    by rewrite (elem_of_set_insert (cmp s') (known s') (cmp_strict address address_inj s' Hi') p x _ (proj2 (K p) Hp) Hck'); naive_solver. }
  constructor.
  - by rewrite Ec, (co_chain _ _ _ _ Hc).
  - split; [by apply K|by apply Hsol].
  - split_and!; [by apply K|by apply Hsol|]. apply Hin. by left.
  - assert (sorted s' (setBlockIndexCandidates s)) as Hs.
    { refine (StronglySorted_impl _ _ _ _ (co_sorted _ _ _ _ Hc)). intros x y Hx Hy Hxy.
      destruct (co_candidate _ _ _ _ Hc x Hx) as (? & ? & _).
      destruct (co_candidate _ _ _ _ Hc y Hy) as (? & ? & _). by rewrite Hcmp by auto. }
    rewrite Hcand. destruct (cmp s' p t); [done|].
    by apply (set_insert_sorted (cmp s') (known s')); [apply cmp_strict|apply K|..].
  - intros x [Hx|[-> Hpt]]%Hin; [|split_and!; [by apply K|by rewrite Ep|done]].
    destruct (co_candidate _ _ _ _ Hc x Hx) as (Hxk & Hxt & Hxc).
    split_and!; [by apply K|by rewrite Htx by auto|rewrite Hcmp; auto; apply Hne, Hts].
  - intros x Hx%K Hxt Hxf Hxb. rewrite Hf in Hxf. apply Hin.
    destruct (decide (phashBlock x = phashBlock p)) as [E|E].
    + assert (x = p) as -> by by apply (known_eq s). right. split; [done|].
      apply (cmp_not_trans address address_inj s' t b p); [done|by apply K..| |done].
      rewrite Hcmp; auto; [apply (co_candidate _ _ _ _ Hc b Hbc)|apply Hne, Hbs|apply Hne, Hts].
    + assert (x <> p) as Hxp by (intros ->; done). left. rewrite Htx in Hxt by done.
      apply (co_complete _ _ _ _ Hc); [done..|]. rewrite <- Hcmp; auto. apply Hne, Hbs.
Qed.

Lemma link_block_linking s t b p queue :
  linking s t b (p :: queue) →
  linking (fst (link_block address s p)) t b (queue ++ snd (link_block address s p)).
Proof.
  intros L. pose proof (li_index _ _ _ _ L) as Hi. pose proof (link_block_chain s t b p queue L) as Hchain.
  destruct (queue_count s t b p queue L) as (_ & Hnz & Hlp).
  destruct (li_queue _ _ _ _ L p ltac:(left)) as (Hp & _ & Hp0 & _).
  destruct (li_nodup _ _ _ _ L) as [[Hpq Hqn]%NoDup_cons Hun].
  destruct (link_block_fields s t b p queue L)
    as (Em & Ec & Ent & Est & Ep & Eo & Eu & Er & Hnu & Hnr & _).
  set (s' := fst (link_block address s p)) in *. set (range := snd (link_block address s p)) in *.
  assert (∀ x, known s' x ↔ known s x) as K by (intros x; by apply known_ext).
  assert (∀ x, stored s' x = stored s x) as Hst by (intros x; unfold stored; by rewrite Est).
  assert (∀ x, linked s' x ↔ linked s x) as Hl by (intros x; unfold linked; by setoid_rewrite Hst).
  assert (∀ x, total_tx s' x = total_tx s x) as Htot.
  { intros x. unfold total_tx. induction (ancestry x) as [|a l IH]; cbn [foldr]; [done|]. by rewrite IH, Ent. }
  assert (∀ x, known s x → x = p ∧ chain_tx s' x = total_tx s p ∨ x <> p ∧ chain_tx s' x = chain_tx s x) as Hcase.
  { intros x Hx. destruct (decide (phashBlock x = phashBlock p)) as [E|E].
    - left. by rewrite (known_eq s x p Hx Hp E).
    - right. assert (x <> p) by (by intros ->). split; [done|]. unfold chain_tx. by rewrite Eo. }
  (* the children of [p] leave the map for the queue *)
  assert (∀ x, x ∈ range → known s x ∧ stored s x = true ∧ chain_tx s x = 0 ∧ (x ∉ queue) ∧ x <> p ∧ pprev x = Some p) as Hrange.
  { intros x Hx%Er. destruct (li_unlinked _ _ _ _ L _ x Hx) as (Hkx & H1 & H2 & H3 & q & E & E2 & _).
    destruct (io_prev _ Hi x q Hkx E) as [Hq _]. assert (q = p) as -> by (apply (known_eq s); congruence).
    apply not_elem_of_cons in H3 as [H3 H4]. by split_and!. }
  constructor.
  - by apply (index_ok_ext s).
  - intros x Hx%K. rewrite Hst, Est. by apply L.
  - intros x Hx%K. rewrite Hst, Ent. by apply L.
  - intros x Hx%K. rewrite Htot. by apply L.
  - intros x Hx%K. rewrite Hl, Htot. destruct (Hcase x Hx) as [[-> ->]|[_ ->]]; [done|]. by apply L.
  - intros x Hx%K. destruct (Hcase x Hx) as [[-> ->]|[Hne ->]]; [done|]. rewrite Eo by done. by apply L.
  - intros x Hx%K Hs. rewrite Hst in Hs. destruct (Hcase x Hx) as [[-> ->]|[Hne ->]]; [done|]. intros H0.
    rewrite elem_of_app, Er. setoid_rewrite Eu.
    destruct (li_pending _ _ _ _ L x Hx Hs H0) as [[?|?]%elem_of_cons|(k & H)]; [done|tauto|].
    destruct (decide (k = Some (phashBlock p))) as [->|]; [tauto|eauto].
  - intros k x [Hkx Hk]%Eu. destruct (li_unlinked _ _ _ _ L k x Hkx) as (Hx & H1 & H2 & H3 & q & E & -> & H4).
    destruct (io_prev _ Hi x q Hx E) as [Hq _]. rewrite Hst.
    split_and!; [by apply K|done| |rewrite elem_of_app|].
    + destruct (Hcase x Hx) as [[-> _]|[_ ->]]; [by destruct H3; left|done].
    + intros [Hxq|Hxr]; [by destruct H3; right|]. destruct (Hrange x Hxr) as (_ & _ & _ & _ & _ & E'). congruence.
    + exists q. split_and!; [done..|]. destruct (Hcase q Hq) as [[-> _]|[_ ->]]; done.
  - intros x Hx. rewrite Hst.
    assert (known s x ∧ stored s x = true ∧ chain_tx s x = 0 ∧ x <> p ∧
            ∀ q, pprev x = Some q → q = p ∨ chain_tx s q <> 0) as (Hkx & Hsx & H0 & Hne & Hq).
    { apply elem_of_app in Hx as [Hx|Hx].
      - destruct (li_queue _ _ _ _ L x ltac:(by right)) as (? & ? & ? & ?). split_and!; [done..| |auto]. by intros ->.
      - destruct (Hrange x Hx) as (? & ? & ? & _ & ? & E). split_and!; [done..|]. intros q. rewrite E. intros [= ->]. by left. }
    split_and!; [by apply K|done| |].
    + destruct (Hcase x Hkx) as [[? _]|[_ ->]]; done.
    + intros q E. destruct (io_prev _ Hi x q Hkx E) as [Hkq _].
      destruct (Hcase q Hkq) as [[-> ->]|[? ->]]; [done|]. by destruct (Hq q E).
  - split; [|done]. apply NoDup_app. split_and!; [done| |done].
    intros x Hxq Hxr. by destruct (Hrange x Hxr) as (_ & _ & _ & ? & _).
  - done.
Qed.

Lemma link_queue_spec fuel : ∀ s t b queue,
  linking s t b queue → (length queue + length (mapBlocksUnlinked s) <= fuel)%nat →
  ∃ s', link_queue address fuel s queue = Ok s' ∧ tree_ok address s' t b ∧ mapBlockIndex s' = mapBlockIndex s
    ∧ ∀ x, status s' x = status s x.
Proof.
  induction fuel as [|fuel IH]; intros s t b [|p queue] L Hf; cbn [length] in Hf; try lia.
  - exists s. split_and!; [done|by apply linking_done|done..].
  - exists s. split_and!; [done|by apply linking_done|done..].
  - destruct (link_block_fields s t b p queue L) as (Em & _ & _ & Est & _ & _ & _ & _ & _ & _ & Hlen).
    pose proof (link_block_linking s t b p queue L) as L'.
    cbn [link_queue]. destruct (link_block address s p) as [s1 range]. cbn [fst snd] in *.
    destruct (IH s1 t b (queue ++ range) L') as (s' & E & Hok & Em' & Est'); [rewrite length_app; lia|].
    exists s'. split_and!; [done..|congruence|]. intros x. by rewrite Est', Est.
Qed.

Lemma chain_ok_ext s s' t b :
  mapBlockIndex s' = mapBlockIndex s → chainActive s' = chainActive s →
  setBlockIndexCandidates s' = setBlockIndexCandidates s →
  (∀ x, chain_tx s' x = chain_tx s x) → (∀ x, failed s' x = failed s x) →
  (∀ x, nSequenceId (idx s' x) = nSequenceId (idx s x)) →
  chain_ok address s t b → chain_ok address s' t b.
Proof.
  intros Em Ec Es Htx Hf Hseq H.
  assert (∀ x, known s' x ↔ known s x) as K by (intros x; by apply known_ext).
  assert (∀ x y, cmp s' x y = cmp s x y) as Hcmp by (apply cmp_ext, Hseq).
  assert (∀ x, solid s' x ↔ solid s x) as Hsol.
  { intros x. unfold solid. rewrite Htx. by setoid_rewrite Hf. }
  destruct H as [C1 C2 C3 C4 C5 C6]. constructor; rewrite ?Es.
  - congruence.
  - by rewrite K, Hsol.
  - by rewrite K, Hsol.
  - refine (StronglySorted_impl _ _ _ _ C4). intros x y _ _. by rewrite Hcmp.
  - intros c. rewrite K, Htx, Hcmp. auto.
  - intros p. rewrite K, Htx, Hcmp, Hf. auto.
Qed.

(** **** Storing a block *)

Section Store.
Context (s : ChainState) (t b p : CBlockIndex) (v : Z) (pos : Z * Z).
Hypothesis Hok : tree_ok address s t b.
Hypothesis Hp : known s p.
Hypothesis Hnew : stored s p = false.
Hypothesis Hvalid : failed s p = false.
Hypothesis Hv : 0 < v < 2 ^ 32.
Hypothesis Hroom : ∀ x, known s x → total_tx s x + v < 2 ^ 32.

Let s1 : ChainState :=
  with_dirty (update_idx s p (λ d,
    mkIndexData (fst pos) (snd pos) 0 (u32 v) 0
      (fst (RaiseValidity (Z.lor (nStatus d) BLOCK_HAVE_DATA) BLOCK_VALID_TRANSACTIONS))
      (nSequenceId d) (pnext d))) p.

Lemma store_before : chain_tx s p = 0 ∧ nTx (idx s p) = 0.
Proof using All.
  destruct Hok as [Hi Hd _]. split; [|by apply (do_tx _ Hd)].
  destruct (decide (chain_tx s p = 0)) as [|H]; [done|].
  pose proof (do_linked _ Hd p Hp H p (ancestry_self p)). congruence.
Qed.

Lemma store_fields :
  (∀ x, chain_tx s1 x = chain_tx s x) ∧ (∀ x, failed s1 x = failed s x) ∧
  (∀ x, nSequenceId (idx s1 x) = nSequenceId (idx s x)) ∧
  stored s1 p = true ∧ nTx (idx s1 p) = v ∧ BLOCK_VALID_TRANSACTIONS <= Z.land (status s1 p) BLOCK_VALID_MASK ∧
  ∀ x, known s x → x <> p → idx s1 x = idx s x.
Proof using All.
  destruct store_before as [H0 _]. set (f := λ d, mkIndexData _ _ _ _ _ _ _ _) in s1.
  assert (idx s1 p = f (idx s p)) as E by apply idx_update_same.
  split_and!.
  - intros x. apply (idx_update_field nChainTx). symmetry. apply H0.
  - intros x. apply (idx_update_field (λ d, has (nStatus d) BLOCK_FAILED_MASK)). cbn.
    rewrite has_RaiseValidity, has_lor by (done || set_solver). by rewrite orb_false_r.
  - intros x. by apply (idx_update_field nSequenceId).
  - unfold stored, status. rewrite E. cbn. rewrite has_RaiseValidity, has_lor by (done || set_solver).
    apply orb_true_r.
  - rewrite E. cbn. apply wrap_small. unfold in_uw. lia.
  - unfold status. rewrite E. cbn. rewrite level_RaiseValidity, has_lor by done.
    unfold failed, status in Hvalid. rewrite Hvalid.
    change (has BLOCK_HAVE_DATA BLOCK_FAILED_MASK) with false. apply Z.le_max_l.
  - intros x Hx Hne. apply idx_update_ne. intros E'. by apply Hne, (known_eq s).
Qed.

Lemma store_total x : known s x →
  (p ∉ ancestry x → total_tx s1 x = total_tx s x) ∧ total_tx s1 x <= total_tx s x + v.
Proof using All.
  destruct store_fields as (_ & _ & _ & _ & Hn & _ & Ho). destruct store_before as [_ Hn0].
  pose proof (to_index _ _ _ _ Hok) as Hi.
  induction x as [x IH _] using CBlockIndex_tree_ind. intros Hx.
  rewrite !total_tx_unfold, (ancestry_unfold x).
  destruct (pprev x) as [q|] eqn:E.
  - destruct (io_prev _ Hi x q Hx E) as [Hq Hw]. destruct (IH q eq_refl Hq) as [IH1 IH2].
    destruct (decide (phashBlock x = phashBlock p)) as [Eh|Eh].
    + assert (x = p) as -> by by apply (known_eq s). rewrite Hn, Hn0, IH1; [split; [set_solver|lia]|].
      intros Ha. apply (known_ancestor s) in Ha as [_ [->|?]]; [lia..|done|done].
    + rewrite Ho by (done || by intros ->). split; [|lia]. intros Ha. rewrite IH1; [done|set_solver].
  - destruct (decide (phashBlock x = phashBlock p)) as [Eh|Eh].
    + assert (x = p) as -> by by apply (known_eq s). split; [set_solver|lia].
    + rewrite Ho by (done || by intros ->). split; [done|lia].
Qed.

(** After the block is stored: linked at once, or waiting. *)
Lemma store_linking queue u :
  (∀ k x, (k, x) ∈ u ↔ (k, x) ∈ mapBlocksUnlinked s ∨
     queue = [] ∧ x = p ∧ ∃ q, pprev p = Some q ∧ k = Some (phashBlock q)) →
  NoDup u →
  (queue = [] ∧ (∃ q, pprev p = Some q ∧ chain_tx s q = 0) ∨
   queue = [p] ∧ ∀ q, pprev p = Some q → chain_tx s q <> 0) →
  linking (with_unlinked s1 u) t b queue.
Proof using All.
  intros Hu Hnd Hq. destruct store_before as [Hp0 Hn0].
  destruct store_fields as (Htx & Hf & Hseq & Hst & Hn & Hlev & Ho).
  destruct Hok as [Hi Hd Hc]. set (s2 := with_unlinked s1 u).
  change (∀ x, chain_tx s2 x = chain_tx s x) in Htx. change (∀ x, nSequenceId (idx s2 x) = nSequenceId (idx s x)) in Hseq.
  change (∀ x, known s x → x <> p → idx s2 x = idx s x) in Ho. change (stored s2 p = true) in Hst.
  change (nTx (idx s2 p) = v) in Hn. change (BLOCK_VALID_TRANSACTIONS <= Z.land (status s2 p) BLOCK_VALID_MASK) in Hlev.
  assert (∀ x, known s2 x ↔ known s x) as K by (intros x; by apply known_ext).
  assert (∀ x, known s x → x = p ∨ idx s2 x = idx s x) as Hcase.
  { intros x Hx. destruct (decide (phashBlock x = phashBlock p)); [left; by apply (known_eq s)|].
    right. apply Ho; [done|by intros ->]. }
  assert (∀ x, stored s x = true → known s x → stored s2 x = true) as Hmono.
  { intros x Hs Hx. destruct (Hcase x Hx) as [->|E]; [done|]. unfold stored, status. by rewrite E. }
  assert (∀ q, pprev p = Some q → known s q) as Hprev by (intros q E; by apply (io_prev _ Hi p q)).
  assert (∀ k x, (k, x) ∈ mapBlocksUnlinked s → x <> p ∧ known s x ∧ stored s x = true ∧ chain_tx s x = 0 ∧
            ∃ q, pprev x = Some q ∧ k = Some (phashBlock q) ∧ chain_tx s q = 0) as Hun.
  { intros k x (Hx & Hs & H0 & q & E & ->)%(do_unlinked _ Hd). destruct (io_prev _ Hi x q Hx E) as [Hkq _].
    split_and!; [congruence|done..|]. exists q. split_and!; [done..|].
    destruct (decide (chain_tx s q = 0)) as [|Hne]; [done|]. destruct (linked_chain_tx s x Hi Hd Hx); [|done].
    unfold linked. rewrite ancestry_unfold, E. intros a [->|Ha]%elem_of_cons; [done|]. by apply (do_linked _ Hd q). }
  constructor.
  - by apply (index_ok_ext s).
  - intros x Hx%K Hs. destruct (Hcase x Hx) as [->|E]; [done|]. unfold stored, status in *. rewrite E in *. by apply (do_level _ Hd).
  - intros x Hx%K. destruct (Hcase x Hx) as [->|E]; [rewrite Hn, Hst; split; [lia|split; [lia|done]]|].
    unfold stored, status. rewrite E. by apply (do_tx _ Hd).
  - intros x Hx%K. change (total_tx s2 x) with (total_tx s1 x). pose proof (proj2 (store_total x Hx)). specialize (Hroom x Hx). lia.
  - intros x Hx%K. rewrite Htx. intros H. pose proof (do_linked _ Hd x Hx H) as Hl. split.
    + intros a Ha. destruct (known_ancestor _ _ _ Hi Hx Ha) as [Hka _]. apply Hmono; auto.
    + change (total_tx s2 x) with (total_tx s1 x). rewrite (do_chain_tx _ Hd x Hx Hl). symmetry. apply store_total; [done|].
      intros Ha. specialize (Hl p Ha). congruence.
  - intros x Hx%K. rewrite Htx, Hseq. by apply (do_sequence _ Hd).
  - intros x Hx%K Hs. rewrite Htx. intros H0. cbn [mapBlocksUnlinked s2 with_unlinked]. setoid_rewrite Hu.
    destruct (Hcase x Hx) as [->|E].
    + destruct Hq as [[-> (q & E & _)]|[-> _]]; [|by left; left]. right. exists (Some (phashBlock q)). right. eauto.
    + unfold stored, status in Hs. rewrite E in Hs. right.
      destruct (pprev x) as [q|] eqn:Eq.
      * exists (Some (phashBlock q)). left. apply (do_unlinked _ Hd). eauto 10.
      * destruct (linked_chain_tx s x Hi Hd Hx); [|done]. unfold linked. rewrite ancestry_unfold, Eq.
        by intros a ->%list_elem_of_singleton.
  - intros k x. cbn [mapBlocksUnlinked s2 with_unlinked]. rewrite Hu. setoid_rewrite Htx.
    intros [(Hne & Hx & Hs & H0 & Hex)%Hun|(-> & -> & q & E & ->)].
    + split_and!; [by apply K|by apply Hmono|done| |done]. destruct Hq as [[-> _]|[-> _]]; [by intros ?%elem_of_nil|by intros ->%list_elem_of_singleton].
    + split_and!; [by apply K|done|done|set_solver|]. exists q. split_and!; [done..|].
      destruct Hq as [[_ (q' & E' & ?)]|[? _]]; [congruence|done].
  - intros x Hx. setoid_rewrite Htx. destruct Hq as [[-> _]|[-> Hq]]; [set_solver|].
    apply list_elem_of_singleton in Hx as ->. split_and!; [by apply K|done..].
  - split; [|done]. destruct Hq as [[-> _]|[-> _]]; repeat constructor; set_solver.
  - by apply (chain_ok_ext s).
Qed.
End Store.

Lemma received_spec s t b p v pos :
  tree_ok address s t b → known s p → stored s p = false → failed s p = false → 0 < v < 2 ^ 32 →
  (∀ x, known s x → total_tx s x + v < 2 ^ 32) →
  (∀ q, pprev p = Some q → IsValid (status s q) BLOCK_VALID_TREE = true) →
  ∃ s', ReceivedBlockTransactions address s v p pos = Ok s' ∧ tree_ok address s' t b ∧
    mapBlockIndex s' = mapBlockIndex s ∧ stored s' p = true ∧ (∀ x, failed s' x = failed s x).
Proof.
  intros Hok Hp Hnew Hvalid Hv Hroom Hprev.
  destruct (store_fields s t b p v pos Hok Hp Hnew Hvalid Hv Hroom) as (Htx & Hf & _ & Hst & _).
  pose proof (store_linking s t b p v pos Hok Hp Hnew Hvalid Hv Hroom) as Hlink.
  unfold ReceivedBlockTransactions. set (s1 := with_dirty _ p) in *.
  pose proof (do_nodup _ (to_data _ _ _ _ Hok)) as Hnd.
  assert (∀ q, pprev p = Some q → known s q) as Hkq by (intros q E; by apply (io_prev _ (to_index _ _ _ _ Hok) p q)).
  assert ((∀ q, pprev p = Some q → chain_tx s q <> 0) →
    ∃ s', link_queue address (S (length (mapBlocksUnlinked s1))) s1 [p] = Ok s' ∧ tree_ok address s' t b ∧
      mapBlockIndex s' = mapBlockIndex s ∧ stored s' p = true ∧ (∀ x, failed s' x = failed s x)) as Hnow.
  { intros Hq. destruct (link_queue_spec (S (length (mapBlocksUnlinked s1))) s1 t b [p]) as (s' & -> & Hok' & Em & Es).
    - apply (Hlink [p] (mapBlocksUnlinked s)); [|done|by right]. intros k x. split; [by left|]. by intros [?|[? _]].
    - cbn. lia.
    - exists s'. split_and!; [done..| |].
      + unfold stored. rewrite Es. apply Hst.
      + intros x. unfold failed. rewrite Es. apply Hf. }
  destruct (pprev p) as [q|] eqn:E; [|by apply Hnow].
  fold (chain_tx s1 q). rewrite Htx. destruct (Z.eqb_spec (chain_tx s q) 0) as [E0|E0]; cbn [negb].
  - assert (IsValid (status s1 q) BLOCK_VALID_TREE = true) as ->.
    { destruct (io_prev _ (to_index _ _ _ _ Hok) p q Hp E) as [Hq Hw].
      assert (phashBlock q <> phashBlock p) as Hne.
      { intros Eh. rewrite (known_eq s q p Hq Hp Eh) in Hw. lia. }
      rewrite <- (Hprev q eq_refl). unfold status. f_equal. f_equal. by apply idx_update_ne. }
    eexists. split; [done|]. split_and!; [|done|apply Hst|apply Hf].
    apply linking_done, (Hlink []).
    + intros k x. change (mapBlocksUnlinked s1) with (mapBlocksUnlinked s). rewrite elem_of_app, list_elem_of_singleton.
      split.
      * intros [?|[= -> ->]]; [by left|]. right. eauto.
      * intros [?|(_ & -> & q' & [= <-] & ->)]; auto.
    + change (mapBlocksUnlinked s1) with (mapBlocksUnlinked s). apply NoDup_app. split_and!; [done| |apply NoDup_singleton].
      intros [k x] Hx [= -> ->]%list_elem_of_singleton.
      apply (do_unlinked _ (to_data _ _ _ _ Hok)) in Hx as (_ & ? & _). congruence.
    + left. eauto.
  - apply Hnow. by intros q' [= <-].
Qed.

(** **** Linking a new block *)

(** The expected work of a block, and what CheckProofOfWork grants of it. *)
Definition expected_work (nBits : Z) : Z := 2 ^ 256 / (compact_value nBits + 1).

Definition valid_bits (nBits : Z) : Prop :=
  is_u32 nBits ∧ compact_negative nBits = false ∧ 0 < compact_value nBits < 2 ^ 256.

Lemma expected_work_pos nBits : valid_bits nBits → 0 < expected_work nBits.
Proof. intros (_ & _ & H). unfold expected_work. apply Z.div_str_pos. lia. Qed.

Lemma link_index_spec s hash block stake kernel prev :
  index_ok s → mapBlockIndex s !! hashPrevBlock block = Some prev →
  valid_bits (h_nBits block) → work prev + expected_work (h_nBits block) < 2 ^ 256 →
  ∃ p, link_index s hash block stake kernel = Ok p ∧ phashBlock p = hash ∧ pprev p = Some prev ∧
    wf_index p ∧ repr 8 (nChainWork p) (work p) ∧ work p = work prev + expected_work (h_nBits block).
Proof.
  intros Hi Hprev (Hb & Hneg & Hcv) Hroom.
  assert (known s prev) as Hk by (unfold known; by rewrite (io_hash _ Hi _ _ Hprev)).
  pose proof (io_wf _ Hi _ Hk) as Hwf. pose proof (io_work _ Hi _ Hk) as Hwk.
  unfold link_index. rewrite Hprev, BuildSkip_spec by done. cbn [of_ub rbind].
  set (draft := new_index _ _ _ _ _ _ _ _ _ _ _ _).
  destruct (block_trust_of_stake_is_zero draft) as (tr & -> & _); [done|by cbn; rewrite Z.mod_small; lia|].
  cbn [of_uint rbind]. destruct (GetBlockProof_spec draft Hb) as (w & -> & Hw). cbn [of_pow rbind].
  cbn [nBits draft new_index] in Hw. rewrite Hneg in Hw.
  destruct (Z.leb_spec (2 ^ 256) (compact_value (h_nBits block))); [lia|].
  destruct (Z.eqb_spec (compact_value (h_nBits block)) 0); [lia|]. cbn [orb] in Hw.
  fold (expected_work (h_nBits block)) in Hw.
  pose proof (op_add_repr _ _ _ _ _ Hwk Hw) as Hsum. pose proof (repr_range _ _ _ Hwk).
  pose proof (repr_range _ _ _ Hw). change (modulus 8) with (2 ^ 256) in *. rewrite Z.mod_small in Hsum by lia.
  eexists. split; [done|]. split_and!; [done|done|by eapply wf_child|..]; cbn; unfold work; cbn.
  - by rewrite (repr_value _ _ _ Hsum).
  - by rewrite (repr_value _ _ _ Hsum).
Qed.

(** The fields after a new block is entered: its own, and those of the blocks
    known before. *)
Lemma add_fields s hash block stake kernel p :
  mapBlockIndex s !! hash = None → phashBlock p = hash →
  link_index s hash block stake kernel = Ok p →
  (∀ q, pprev p = Some q → phashBlock q <> hash) →
  ∃ s', AddToBlockIndex s hash block stake kernel = Ok (s', p) ∧
    mapBlockIndex s' = <[hash := p]> (mapBlockIndex s) ∧ chainActive s' = chainActive s ∧
    setBlockIndexCandidates s' = setBlockIndexCandidates s ∧ mapBlocksUnlinked s' = mapBlocksUnlinked s ∧
    status s' p = BLOCK_VALID_TREE ∧ nTx (idx s' p) = 0 ∧ chain_tx s' p = 0 ∧ nSequenceId (idx s' p) = 0 ∧
    ∀ x, phashBlock x <> hash →
      nTx (idx s' x) = nTx (idx s x) ∧ chain_tx s' x = chain_tx s x ∧
      nSequenceId (idx s' x) = nSequenceId (idx s x) ∧ status s' x = status s x.
Proof.
  intros Hnew Hh Hlink Hprev. unfold AddToBlockIndex. rewrite Hnew, Hlink. cbn [rbind].
  set (s0 := with_index s _). set (s1 := if IsProofOfStake p then _ else s0).
  set (s2 := update_idx s1 p _). set (s3 := match pprev p with Some q => _ | None => s2 end).
  set (s4 := update_idx s3 p _). set (s5 := match pindexBestHeader s4 with Some q => _ | None => _ end).
  assert (index_data s1 = index_data s) as D1 by (unfold s1; by destruct (IsProofOfStake p)).
  assert (∀ x, idx s1 x = idx s x) as I1 by (intros x; unfold idx; by rewrite D1).
  assert (idx s2 p = null_index) as I2 by apply idx_update_same.
  assert (∀ x, phashBlock x <> hash → idx s2 x = idx s x) as I2'
    by (intros x Hx; unfold s2; by rewrite idx_update_ne, I1 by congruence).
  assert (∀ B (g : IndexData → B), (∀ d, g (set_pnext p d) = g d) → ∀ x, g (idx s3 x) = g (idx s2 x)) as I3.
  { intros B g Hg x. unfold s3. destruct (pprev p) as [q|]; [|done]. by apply (idx_update_field g). }
  assert (∀ x, idx s5 x = idx s4 x) as I5.
  { intros x. unfold s5. destruct (pindexBestHeader s4); [destruct (op_lt _ _)|]; done. }
  assert (mapBlockIndex s5 = <[hash := p]> (mapBlockIndex s) ∧ chainActive s5 = chainActive s ∧
          setBlockIndexCandidates s5 = setBlockIndexCandidates s ∧ mapBlocksUnlinked s5 = mapBlocksUnlinked s)
    as (M1 & M2 & M3 & M4).
  { unfold s5, s4, s3, s2, s1. destruct (pindexBestHeader _); [destruct (op_lt _ _)|];
      (destruct (pprev p); destruct (IsProofOfStake p); done). }
  exists (with_dirty s5 p). split; [done|]. unfold status, chain_tx.
  change (idx (with_dirty s5 p)) with (idx s5).
  split_and!; [done..| | | | |].
  - rewrite I5. unfold s4. rewrite idx_update_same. cbn.
    rewrite (I3 _ nStatus) by done. by rewrite I2.
  - rewrite I5. unfold s4. rewrite idx_update_same. cbn. rewrite (I3 _ nTx) by done. by rewrite I2.
  - rewrite I5. unfold s4. rewrite idx_update_same. cbn. rewrite (I3 _ nChainTx) by done. by rewrite I2.
  - rewrite I5. unfold s4. rewrite idx_update_same. cbn. rewrite (I3 _ nSequenceId) by done. by rewrite I2.
  - intros x Hx. rewrite !I5. unfold s4. rewrite !idx_update_ne by congruence.
    rewrite (I3 _ nTx), (I3 _ nChainTx), (I3 _ nSequenceId), (I3 _ nStatus) by done. by rewrite I2' by done.
Qed.

Lemma add_spec s t b hash block stake kernel prev :
  tree_ok address s t b → mapBlockIndex s !! hash = None →
  mapBlockIndex s !! hashPrevBlock block = Some prev →
  valid_bits (h_nBits block) → work prev + expected_work (h_nBits block) < 2 ^ 256 →
  ∃ s' p, AddToBlockIndex s hash block stake kernel = Ok (s', p) ∧ tree_ok address s' t b ∧
    known s' p ∧ phashBlock p = hash ∧ pprev p = Some prev ∧
    work p = work prev + expected_work (h_nBits block) ∧ stored s' p = false ∧ failed s' p = false ∧
    (∀ x, known s x → known s' x ∧ status s' x = status s x).
Proof.
  intros [Hi Hd Hc] Hnew Hprev Hbits Hroom.
  assert (known s prev) as Hkp by (unfold known; by rewrite (io_hash _ Hi _ _ Hprev)).
  destruct (link_index_spec s hash block stake kernel prev Hi Hprev Hbits Hroom)
    as (p & Hlink & Hh & Hpp & Hwf & Hrep & Hw).
  assert (∀ x, known s x → phashBlock x <> hash) as Hne.
  { intros x Hx E. unfold known in Hx. rewrite E in Hx. congruence. }
  destruct (add_fields s hash block stake kernel p Hnew Hh Hlink) as
    (s' & Hadd & Em & Ec & Es & Eu & Hst & Hn & Htx & Hseq & Ho).
  { intros q E. rewrite Hpp in E. injection E as <-. by apply Hne. }
  pose proof (expected_work_pos _ Hbits) as Hpos.
  assert (known s' p) as Hp by (unfold known; rewrite Em, Hh; apply lookup_insert_eq).
  assert (∀ x, known s' x ↔ known s x ∨ x = p) as K.
  { intros x. unfold known. rewrite Em. destruct (decide (phashBlock x = hash)) as [E|E].
    - rewrite E, lookup_insert_eq. split; [intros [= ->]; by right|].
      intros [Hx| ->]; [by rewrite Hnew in Hx|done].
    - rewrite lookup_insert_ne by congruence. split; [by left|]. intros [?| ->]; [done|congruence]. }
  assert (∀ x, known s x → stored s' x = stored s x ∧ failed s' x = failed s x) as Hbit.
  { intros x Hx. destruct (Ho x (Hne x Hx)) as (_ & _ & _ & E). unfold stored, failed. by rewrite E. }
  assert (stored s' p = false ∧ failed s' p = false) as [Hsp Hfp] by (unfold stored, failed; by rewrite Hst).
  assert (∀ x, known s x → linked s' x ↔ linked s x) as Hl.
  { intros x Hx. unfold linked. split; intros H a Ha; destruct (known_ancestor _ _ _ Hi Hx Ha) as [Hka _];
      specialize (H a Ha); destruct (Hbit a Hka); congruence. }
  assert (∀ x, known s x → total_tx s' x = total_tx s x) as Htot.
  { induction x as [x IH _] using CBlockIndex_tree_ind. intros Hx. rewrite !total_tx_unfold.
    destruct (Ho x (Hne x Hx)) as (-> & _). destruct (pprev x) as [q|] eqn:E; [|done].
    rewrite (IH q eq_refl); [done|by apply (io_prev _ Hi x q)]. }
  assert (∀ x y, known s x → known s y → cmp s' x y = cmp s x y) as Hcmp.
  { intros x y Hx Hy. unfold CBlockIndexWorkComparator.
    destruct (Ho x (Hne x Hx)) as (_ & _ & -> & _). by destruct (Ho y (Hne y Hy)) as (_ & _ & -> & _). }
  assert (∀ x, known s x → solid s x → solid s' x) as Hsol.
  { intros x Hx [H1 H2]. split; [by destruct (Ho x (Hne x Hx)) as (_ & -> & _)|].
    intros a Ha. destruct (known_ancestor _ _ _ Hi Hx Ha) as [Hka _]. destruct (Hbit a Hka) as [_ ->]. auto. }
  exists s', p. split; [done|]. split; [constructor|split_and!; try done].
  - constructor.
    + intros h x. rewrite Em. destruct (decide (h = hash)) as [->|]; [rewrite lookup_insert_eq; by intros [= ->]|].
      rewrite lookup_insert_ne by done. apply (io_hash _ Hi).
    + intros x [Hx| ->]%K; [by apply (io_wf _ Hi)|done].
    + intros x [Hx| ->]%K; [by apply (io_work _ Hi)|done].
    + intros x q [Hx| ->]%K E; [destruct (io_prev _ Hi x q Hx E); split; [apply K; by left|done]|].
      rewrite Hpp in E. injection E as <-. split; [apply K; by left|lia].
    + intros x y [Hx| ->]%K [Hy| ->]%K; try congruence. by apply (io_root _ Hi).
  - constructor.
    + intros x [Hx| ->]%K; [|congruence]. destruct (Hbit x Hx) as [-> _]. destruct (Ho x (Hne x Hx)) as (_ & _ & _ & ->).
      by apply (do_level _ Hd).
    + intros x [Hx| ->]%K; [|rewrite Hn; split; [lia|done]]. destruct (Hbit x Hx) as [-> _].
      destruct (Ho x (Hne x Hx)) as (-> & _). by apply (do_tx _ Hd).
    + intros x [Hx| ->]%K; [rewrite Htot by done; by apply (do_bound _ Hd)|].
      rewrite total_tx_unfold, Hn, Hpp, Htot by done. by apply (do_bound _ Hd).
    + intros x [Hx| ->]%K; [|congruence]. rewrite Hl by done. destruct (Ho x (Hne x Hx)) as (_ & -> & _). by apply (do_linked _ Hd).
    + intros x [Hx| ->]%K H; [|by rewrite (H p (ancestry_self p)) in Hsp]. rewrite Htot by done. apply Hl in H; [|done].
      destruct (Ho x (Hne x Hx)) as (_ & -> & _). by apply (do_chain_tx _ Hd).
    + intros x [Hx| ->]%K; [|done]. destruct (Ho x (Hne x Hx)) as (_ & -> & -> & _). by apply (do_sequence _ Hd).
    + intros k x. rewrite Eu, (do_unlinked _ Hd). split.
      * intros (Hx & H1 & H2 & H3). split_and!; [apply K; by left|by destruct (Hbit x Hx) as [-> _]| |done].
        by destruct (Ho x (Hne x Hx)) as (_ & -> & _).
      * intros ([Hx| ->]%K & H1 & H2 & H3); [|congruence]. split_and!; [done|by destruct (Hbit x Hx) as [ <- _]| |done].
        by destruct (Ho x (Hne x Hx)) as (_ & <- & _).
    + rewrite Eu. apply Hd.
  - destruct (co_tip _ _ _ _ Hc) as [Ht Hts]. destruct (co_bound _ _ _ _ Hc) as (Hb & Hbs & Hbc).
    pose proof (candidates_known _ _ _ Hc) as Hck. rewrite Forall_forall in Hck.
    constructor; rewrite ?Es.
    + by rewrite Ec, (co_chain _ _ _ _ Hc).
    + split; [apply K; by left|auto].
    + split_and!; [apply K; by left|auto|done].
    + refine (StronglySorted_impl _ _ _ _ (co_sorted _ _ _ _ Hc)). intros x y Hx Hy. by rewrite Hcmp by auto.
    + intros c Hin. destruct (co_candidate _ _ _ _ Hc c Hin) as (Hx & H1 & H2).
      rewrite Hcmp by done. destruct (Ho c (Hne c Hx)) as (_ & -> & _). split_and!; [apply K; by left|done..].
    + intros x [Hx| ->]%K; [|congruence]. rewrite Hcmp by done. destruct (Hbit x Hx) as [_ ->].
      destruct (Ho x (Hne x Hx)) as (_ & -> & _). by apply (co_complete _ _ _ _ Hc).
  - intros x Hx. split; [apply K; by left|]. by destruct (Ho x (Hne x Hx)) as (_ & _ & _ & ->).
Qed.

(** **** Invalidating a block *)

Lemma Tip_known s t : index_ok s → known s t → chainActive s = chain_of t → Tip (chainActive s) false = Some t.
Proof. intros Hi Ht ->. apply Tip_chain_of. by apply (io_wf _ Hi). Qed.

Lemma UpdateTip_known s t q :
  index_ok s → known s t → known s q → chainActive s = chain_of t →
  UpdateTip s (Some q) = Ok (with_chain s (chain_of q)).
Proof.
  intros Hi Ht Hq E. unfold UpdateTip. rewrite E.
  rewrite (SetTip_from_chain (all_blocks s)); [|by apply all_blocks_one_object|..].
  - by rewrite (Tip_known _ q) by (done || by apply (index_ok_ext s)).
  - by apply (io_wf _ Hi).
  - by apply ancestry_known.
  - by apply (io_wf _ Hi).
  - by apply ancestry_known.
Qed.

(** The mark on a block of the chain above [p]. *)
Lemma fail_pruned s p x m :
  m ∈ [BLOCK_FAILED_VALID; BLOCK_FAILED_CHILD] → index_ok s → known s x → p ∈ ancestry x →
  Forall (known s) (setBlockIndexCandidates s) →
  pruned (λ a, a = p) s (erase_candidate address (with_dirty (or_status s x m) x) x).
Proof.
  intros Hm Hi Hx Hp Hck. set (s1 := or_status s x m).
  assert (pruned (λ a, a = p) s s1) as H1 by (apply pruned_mark; [done| |done]; exists p; auto).
  pose proof (pruned_dirty _ _ _ x H1) as H1'.
  eapply pruned_trans; [done|exact H1'|]. apply pruned_erase; [by apply (index_ok_ext s)|done| |].
  - eapply pruned_candidates_known; [exact H1'|done].
  - change (failed s1 x = true). unfold s1. rewrite failed_or_status, bool_decide_true by done.
    set_unfold. destruct Hm as [->|[->|[]]]; apply orb_true_r.
Qed.

(** The loop marks the blocks of the chain of [t] from [p] on, and no other. *)
Definition child_marked (t p x : CBlockIndex) (st st' : Z) : Prop :=
  (x ∈ ancestry t ∧ p ∈ ancestry x ∧ st' = Z.lor st BLOCK_FAILED_CHILD) ∨
  (¬ (x ∈ ancestry t ∧ p ∈ ancestry x) ∧ st' = st).

(** One turn: the tip [t] is marked, and the loop goes on from its predecessor. *)
Lemma child_marked_step s t r p x st :
  index_ok s → known s t → known s x → pprev t = Some r → p ∈ ancestry t →
  child_marked r p x (if bool_decide (phashBlock t = phashBlock x) then Z.lor (status s x) BLOCK_FAILED_CHILD else status s x) st →
  child_marked t p x (status s x) st.
Proof.
  intros Hi Ht Hx Er Hpt. destruct (io_prev _ Hi t r Ht Er) as [Hr Hw]. unfold child_marked. rewrite (ancestry_unfold t), Er.
  case_bool_decide as E.
  - apply (known_eq s t x Ht Hx) in E as <-. intros [(Ha & _)|[_ ->]].
    + apply (known_ancestor s) in Ha as [_ [->|?]]; [lia..|done|done].
    + left. split_and!; [by left|done|done].
  - intros [(H1 & H2 & H3)|[H1 H2]]; [left; split_and!; [by right|done|done]|right; split; [|done]].
    intros [[->|?]%elem_of_cons ?]; [done|]. by apply H1.
Qed.

(** The last turn, at [p] itself. *)
Lemma child_marked_last s p x :
  index_ok s → known s p → known s x →
  child_marked p p x (status s x) (if bool_decide (phashBlock p = phashBlock x) then Z.lor (status s x) BLOCK_FAILED_CHILD else status s x).
Proof.
  intros Hi Hp Hx. unfold child_marked. case_bool_decide as E.
  - apply (known_eq s p x Hp Hx) in E as <-. left. split_and!; [apply ancestry_self..|done].
  - right. split; [|done]. intros [H1 H2]. apply E. f_equal.
    destruct (known_ancestor s p x Hi Hp H1) as [_ [->|?]]; [done|].
    destruct (known_ancestor s x p Hi Hx H2) as [_ [->|?]]; [done|lia].
Qed.

Lemma invalidate_loop_spec p q undone t : ∀ s,
  index_ok s → known s p → known s t → p ∈ ancestry t → pprev p = Some q →
  Forall (known s) (setBlockIndexCandidates s) →
  Forall (λ ok, ok = true) undone → (length (ancestry t) <= length undone)%nat →
  ∃ s', invalidate_loop address (with_chain s (chain_of t)) p undone = Ok (with_chain s' (chain_of q), true) ∧
    pruned (λ a, a = p) s s' ∧ ∀ x, known s x → child_marked t p x (status s x) (status s' x).
Proof.
  revert undone. induction t as [t IH _] using CBlockIndex_tree_ind.
  intros undone s Hi Hp Ht Hpt Eq Hck Hall Hlen.
  destruct (io_prev _ Hi p q Hp Eq) as [Hq Hqw].
  set (st := with_chain s (chain_of t)).
  assert (index_ok st) as Hist by by apply (index_ok_ext s).
  destruct undone as [|ok undone]; [rewrite ancestry_unfold in Hlen; cbn in Hlen; lia|].
  apply Forall_cons in Hall as [-> Hall].
  assert (Contains (chainActive st) p = true) as Hcon by by apply (Contains_known s).
  assert (Tip (chainActive st) false = Some t) as Htip by by apply Tip_known.
  cbn [invalidate_loop]. rewrite Hcon, Htip. cbn [negb].
  pose proof (fail_pruned s p t BLOCK_FAILED_CHILD ltac:(set_solver) Hi Ht Hpt Hck) as Hpr.
  set (s1 := erase_candidate address (with_dirty (or_status s t BLOCK_FAILED_CHILD) t) t) in Hpr.
  change (erase_candidate address (with_dirty (or_status st t BLOCK_FAILED_CHILD) t) t)
    with (with_chain s1 (chain_of t)).
  assert (index_ok s1) as Hi1 by by apply (index_ok_ext s).
  assert (∀ r, pprev t = Some r → DisconnectTip (with_chain s1 (chain_of t)) true
            = Ok (with_chain s1 (chain_of r), true)) as Hdis.
  { intros r Er. unfold DisconnectTip. rewrite (Tip_known _ t) by (done || by apply (index_ok_ext s1)). rewrite Er.
    by rewrite (UpdateTip_known _ t r) by (done || by apply (index_ok_ext s1) || apply (io_prev _ Hi t r Ht Er)). }
  destruct (pprev t) as [r|] eqn:Er.
  2: { assert (p = t) as -> by (rewrite ancestry_unfold, Er in Hpt; by apply list_elem_of_singleton in Hpt). congruence. }
  destruct (io_prev _ Hi t r Ht Er) as [Hr Hrw].
  rewrite (Hdis r eq_refl). cbn [rbind].
  assert (p = t ∨ p ∈ ancestry r) as [->|Hpr'].
  { rewrite ancestry_unfold, Er in Hpt. by apply elem_of_cons in Hpt. }
  - assert (q = r) as <- by congruence. exists s1. split_and!; [|done|].
    2: { intros x Hx. change (status s1 x) with (status (or_status s t BLOCK_FAILED_CHILD) x).
         rewrite status_or_status. by apply child_marked_last. }
    assert (Contains (chainActive (with_chain s1 (chain_of q))) t = false) as E.
    { apply not_true_iff_false. cbn [chainActive with_chain]. rewrite (Contains_known s1) by done.
      intros Ha. apply (known_ancestor s) in Ha as [_ [->|?]]; [lia..|done|done]. }
    destruct undone; cbn [invalidate_loop]; by rewrite E.
  - destruct (IH r eq_refl undone s1) as (s' & -> & Hpr2 & Hmark); try done.
    + by eapply pruned_candidates_known.
    + rewrite ancestry_unfold, Er in Hlen. cbn in Hlen. lia.
    + exists s'. split_and!; [done|by eapply pruned_trans|]. intros x Hx. apply (child_marked_step s t r); try done.
      rewrite <- status_or_status. by apply Hmark.
Qed.

Definition eligible (s : ChainState) (t x : CBlockIndex) : Prop :=
  failed s x = false ∧ BLOCK_VALID_TRANSACTIONS <= Z.land (status s x) BLOCK_VALID_MASK ∧
  chain_tx s x <> 0 ∧ cmp s x t = false.

Lemma restore_spec s t l :
  index_ok s → Forall (known s) l → Forall (known s) (setBlockIndexCandidates s) →
  sorted s (setBlockIndexCandidates s) →
  ∃ c, foldl (restore_candidate address t) s l = with_candidates s c ∧ sorted s c ∧
    ∀ x, x ∈ c ↔ x ∈ setBlockIndexCandidates s ∨ x ∈ l ∧ eligible s t x.
Proof.
  intros Hi Hl Hc Hs. pose proof (cmp_strict address address_inj s Hi) as Hst.
  assert (∀ c, Forall (known s) c → sorted s c →
    ∃ c', foldl (restore_candidate address t) (with_candidates s c) l = with_candidates s c' ∧ sorted s c' ∧
    ∀ x, x ∈ c' ↔ x ∈ c ∨ x ∈ l ∧ eligible s t x) as H.
  { clear Hc Hs. induction Hl as [|y l Hy Hl IH]; intros c Hc Hs; cbn [foldl].
    { exists c. split_and!; [done..|]. set_solver. }
    unfold restore_candidate at 2.
    change (idx (with_candidates s c)) with (idx s). change (cmp (with_candidates s c)) with (cmp s).
    change (status (with_candidates s c)) with (status s).
    assert (eligible s t y ↔ IsValid (status s y) BLOCK_VALID_TRANSACTIONS && negb (nChainTx (idx s y) =? 0)
              && negb (cmp s y t) = true) as He.
    { unfold eligible. rewrite IsValid_spec, !andb_true_iff, !negb_true_iff, Z.leb_le, Z.eqb_neq.
      unfold failed, chain_tx. tauto. }
    destruct (_ && _) eqn:E.
    - change (insert_candidate address (with_candidates s c) y) with (with_candidates s (set_insert (cmp s) y c)).
      assert (∀ z, z ∈ set_insert (cmp s) y c ↔ z = y ∨ z ∈ c) as Hin
        by (intros z; by apply (elem_of_set_insert _ _ Hst)).
      destruct (IH (set_insert (cmp s) y c)) as (c' & -> & Hs' & Hc').
      + apply Forall_forall. intros z [->|Hz]%Hin; [done|]. by rewrite Forall_forall in Hc; apply Hc.
      + by apply (set_insert_sorted _ _ Hst).
      + exists c'. split_and!; [done..|]. intros x. rewrite Hc', Hin, elem_of_cons.
        assert (eligible s t y) by by apply He. naive_solver.
    - destruct (IH c Hc Hs) as (c' & -> & Hs' & Hc'). exists c'. split_and!; [done..|].
      intros x. rewrite Hc', elem_of_cons. assert (¬ eligible s t y) by (rewrite He; congruence). naive_solver. }
  destruct (H _ Hc Hs) as (c & E & Hrest). exists c. split; [|done]. rewrite <- E. by destruct s.
Qed.

(** The state after the loop over the active chain, with tip [q]. *)
Lemma invalidate_finish s t b p s1 q :
  tree_ok address s t b → known s p → pruned (λ a, a = p) s s1 → failed s1 p = true →
  q ∈ ancestry t → p ∉ ancestry q →
  let s2 := foldl (restore_candidate address q) (with_chain s1 (chain_of q)) (all_blocks s1) in
  ∃ s3, InvalidChainFound s2 p = Ok s3 ∧ tree_ok address s3 q q ∧ mapBlockIndex s3 = mapBlockIndex s ∧
    (∀ x, status s3 x = status s1 x).
Proof.
  intros Hok Hp Hpr Hfail Hqt Hpq s2. pose proof Hok as [Hi Hd Hc].
  destruct (co_tip _ _ _ _ Hc) as [Ht Hts]. destruct (known_ancestor _ _ _ Hi Ht Hqt) as [Hq Hqw].
  pose proof (pr_data _ _ _ Hpr) as Hsd. pose proof (candidates_known _ _ _ Hc) as Hck.
  assert (index_ok s1) as Hi1 by (apply (index_ok_ext s); [apply Hsd|done]).
  assert (∀ x, known s1 x ↔ known s x) as K by (intros x; apply (same_data_known _ _ _ Hsd)).
  pose proof (solid_ancestor s t q Hi Hd Ht Hqt Hts) as Hqs.
  assert (solid s1 q) as Hqs1 by (eapply pruned_solid; [exact Hpr|done..| |done]; by intros a Ha ->).
  assert (∀ x y, cmp s1 x y = cmp s x y) as Hcmp by (intros; by apply (pruned_cmp _ _ _ _ _ Hpr)).
  set (sq := with_chain s1 (chain_of q)) in *.
  destruct (restore_spec sq q (all_blocks s1)) as (c & E & Hcs & Hcin).
  { by apply (index_ok_ext s1). }
  { apply Forall_forall. intros x Hx. by apply (elem_of_all_blocks s1) in Hx. }
  { eapply (pruned_candidates_known _ s s1); done. }
  { refine (StronglySorted_impl _ _ _ _ (pr_sorted _ _ _ Hpr _ (co_sorted _ _ _ _ Hc))). intros x y _ _.
    change (cmp sq x y) with (cmp s1 x y). by rewrite Hcmp. }
  assert (∀ x, x ∈ c ↔ x ∈ setBlockIndexCandidates s1 ∨ known s x ∧ eligible s1 q x) as Hin.
  { intros x. rewrite Hcin, elem_of_all_blocks, K by done. done. }
  unfold InvalidChainFound. subst s2. rewrite E. set (s3 := note_invalid (with_candidates sq c) p).
  pose proof (note_invalid_pruned no_block (with_candidates sq c) p : pruned no_block (with_candidates sq c) s3) as Hn.
  assert (chainActive s3 = chain_of q) as Hch by (rewrite (pr_chain _ _ _ Hn); done).
  assert (mapBlockIndex s3 = mapBlockIndex s) as Em by (rewrite (sd_index _ _ (pr_data _ _ _ Hn)); apply Hsd).
  rewrite (Tip_known s3 q) by (done || by apply (index_ok_ext s) || by apply (known_ext s)).
  exists s3. split; [done|]. split_and!; [|done|].
  2: { intros x. unfold s3, note_invalid. by repeat case_match. }
  apply (pruned_ok no_block (with_candidates sq c) s3 q q Hn); [auto..|].
  constructor; [by apply (index_ok_ext s1)|apply (same_data_ok s1); [done|by apply (same_data_ok s)]|].
  constructor.
  - done.
  - split; [by apply K|done].
  - split_and!; [by apply K|done|]. apply Hin. right. split; [done|]. split_and!; [by apply Hqs1, ancestry_self| |apply Hqs1|apply cmp_irrefl].
    assert (known s1 q) as Hq1 by by apply K.
    apply (do_level _ (same_data_ok _ _ Hsd Hd) q Hq1). apply (do_linked _ (same_data_ok _ _ Hsd Hd) q Hq1); [apply Hqs1|apply ancestry_self].
  - done.
  - intros x [Hx|[Hx He]]%Hin.
    + destruct (co_candidate _ _ _ _ Hc x (pr_cand _ _ _ Hpr x Hx)) as (Hkx & H1 & H2).
      split_and!; [by apply K|by rewrite <- (sd_chain_tx _ _ Hsd) in H1|].
      change (cmp s1 x q = false). rewrite Hcmp. apply (cmp_not_trans address address_inj s q t x); try done.
      destruct Hqw as [->|Hqw]; [apply cmp_irrefl|]. by apply cmp_flip, cmp_work.
    + split_and!; [by apply K|apply He|apply He].
  - intros x Hx H1 H2 H3. apply Hin. right. change (known s1 x) in Hx.
    split; [by apply K|]. split_and!; [done| |done|done].
    apply (do_level _ (same_data_ok _ _ Hsd Hd) x Hx). by apply (do_linked _ (same_data_ok _ _ Hsd Hd) x Hx), ancestry_self.
Qed.

(** The tip after InvalidateBlock: the predecessor of the block, if the block
    was in the active chain. *)
Definition tip_below (s : ChainState) (t p q : CBlockIndex) : Prop :=
  if Contains (chainActive s) p then pprev p = Some q else q = t.

(** What InvalidateBlock does to the marks: the block gets its own, the blocks of
    the active chain from it on get that of a descendant, and no other mark moves. *)
Record marked (s s' : ChainState) (t p : CBlockIndex) : Prop := {
  mk_block : has (status s' p) BLOCK_FAILED_VALID = true;
  mk_child : ∀ x, x ∈ ancestry t → p ∈ ancestry x → has (status s' x) BLOCK_FAILED_CHILD = true;
  mk_other : ∀ x, known s x → x <> p → ¬ (x ∈ ancestry t ∧ p ∈ ancestry x) → status s' x = status s x;
  mk_failed : ∀ x, failed s x = true → failed s' x = true
}.

Lemma marked_intro s s1 s2 t p :
  index_ok s → known s p → known s t → s1 = or_status s p BLOCK_FAILED_VALID →
  (∀ x, known s x → child_marked t p x (status s1 x) (status s2 x)) →
  (∀ x, failed s x = true → failed s2 x = true) → marked s s2 t p.
Proof.
  intros Hi Hp Ht -> Hmark Hf. split; [| | |done].
  - destruct (Hmark p Hp) as [(_ & _ & ->)|[_ ->]]; rewrite ?has_lor, status_or_status, bool_decide_true, has_lor by done;
      cbn; by rewrite !orb_true_r.
  - intros x Hx Hpx. destruct (Hmark x) as [(_ & _ & ->)|[[] _]]; [by apply (known_ancestor s t)| |done].
    rewrite has_lor. apply orb_true_r.
  - intros x Hx Hne Hout. destruct (Hmark x Hx) as [(? & ? & _)|[_ ->]]; [by destruct Hout|].
    rewrite status_or_status, bool_decide_false; [done|]. intros E. by apply Hne, (known_eq s).
Qed.

Lemma invalidate_spec s t b p q undone :
  tree_ok address s t b → known s p → tip_below s t p q →
  Forall (λ ok, ok = true) undone → (length (ancestry t) <= length undone)%nat →
  ∃ s', InvalidateBlock address s p undone = Ok (s', true) ∧ tree_ok address s' q q ∧
    mapBlockIndex s' = mapBlockIndex s ∧ marked s s' t p.
Proof.
  intros Hok Hp Hq Hall Hlen. pose proof Hok as [Hi Hd Hc]. destruct (co_tip _ _ _ _ Hc) as [Ht Hts].
  pose proof (candidates_known _ _ _ Hc) as Hck. unfold InvalidateBlock.
  pose proof (fail_pruned s p p BLOCK_FAILED_VALID ltac:(set_solver) Hi Hp (ancestry_self p) Hck) as H1.
  set (s1 := erase_candidate address (with_dirty (or_status s p BLOCK_FAILED_VALID) p) p) in *.
  assert (failed s1 p = true) as Hf1.
  { change (failed (or_status s p BLOCK_FAILED_VALID) p = true). rewrite failed_or_status, bool_decide_true by done. apply orb_true_r. }
  assert (index_ok s1) as Hi1 by by apply (index_ok_ext s).
  assert (Forall (known s1) (setBlockIndexCandidates s1)) as Hck1 by by eapply pruned_candidates_known.
  assert (∃ s2, invalidate_loop address s1 p undone = Ok (with_chain s2 (chain_of q), true) ∧
            pruned (λ a, a = p) s s2 ∧ failed s2 p = true ∧ q ∈ ancestry t ∧ (p ∉ ancestry q) ∧
            (∀ x, known s x → child_marked t p x (status s1 x) (status s2 x))) as (s2 & -> & Hpr & Hf & Hqt & Hpq & Hmark).
  { unfold tip_below in Hq. rewrite (co_chain _ _ _ _ Hc) in Hq.
    destruct (Contains (chain_of t) p) eqn:Econ.
    - apply (Contains_known s) in Econ; [|done..]. destruct (io_prev _ Hi p q Hp Hq) as [Hkq Hw].
      destruct (invalidate_loop_spec p q undone t s1 Hi1 Hp Ht Econ Hq Hck1 Hall Hlen) as (s2 & E & H2 & Hmark).
      exists s2. split_and!; [|by eapply pruned_trans|by apply (pr_failed _ _ _ H2)| | |exact Hmark].
      + rewrite <- E. f_equal. unfold s1. destruct s; cbn in *. by rewrite <- (co_chain _ _ _ _ Hc).
      + apply (ancestry_trans t p (io_wf _ Hi t Ht) Econ). apply (ancestry_prev p q Hq), ancestry_self.
      + intros Ha. apply (known_ancestor s) in Ha as [_ [->|?]]; [lia..|done|done].
    - subst q. assert (p ∉ ancestry t) as Hpt.
      { intros Ha. apply not_true_iff_false in Econ. apply Econ. by apply (Contains_known s). }
      exists s1. split_and!; [|done|done|apply ancestry_self|done|].
      + assert (Contains (chainActive s1) p = false) as E by by rewrite <- Econ, <- (co_chain _ _ _ _ Hc).
        destruct undone; cbn [invalidate_loop]; rewrite E; cbn [negb];
          (do 2 f_equal; unfold s1; rewrite <- (co_chain _ _ _ _ Hc); by destruct s).
      + intros x _. right. split; [|done]. intros [Hx Hpx]. by apply Hpt, (ancestry_trans t x (io_wf _ Hi t Ht) Hx). }
  cbn [rbind negb]. assert (known s q) as Hkq by by eapply known_ancestor.
  rewrite (Tip_known _ q) by (done || (apply (index_ok_ext s); [apply Hpr|done]) || by apply (same_data_known _ _ _ (pr_data _ _ _ Hpr))).
  destruct (invalidate_finish s t b p s2 q Hok Hp Hpr Hf Hqt Hpq) as (s3 & E & Hok3 & Em & Hs3).
  change (all_blocks (with_chain s2 (chain_of q))) with (all_blocks s2). rewrite E. cbn [rbind].
  exists s3. split_and!; [done..|]. apply (marked_intro s (or_status s p BLOCK_FAILED_VALID)); try done.
  - intros x Hx. rewrite Hs3. by apply Hmark.
  - intros x Hx. unfold failed. rewrite Hs3. by apply (pr_failed _ _ _ Hpr).
Qed.

(** **** Reconsidering a block *)

Lemma same_data_clear s p : same_data s (clear_failure s p).
Proof.
  unfold clear_failure. transitivity (update_idx s p (λ d, set_status (Z.land (nStatus d) (Z.lnot BLOCK_FAILED_MASK)) d)).
  - apply (same_data_status s p (λ st, Z.land st (Z.lnot BLOCK_FAILED_MASK))). intros st.
    rewrite has_clear, level_clear by set_solver. split; [done|lia].
  - constructor; (done || (intros; apply Z.le_refl)).
Qed.

Lemma failed_clear_failure s p x :
  failed (clear_failure s p) x = failed s x && negb (bool_decide (phashBlock p = phashBlock x)).
Proof.
  unfold failed, status, clear_failure, update_idx, idx. cbn.
  destruct (decide (phashBlock p = phashBlock x)) as [E|E].
  - rewrite bool_decide_true by done. rewrite <- E, lookup_insert_eq. cbn. by rewrite failed_clear, andb_false_r.
  - rewrite bool_decide_false, lookup_insert_ne by done. by rewrite andb_true_r.
Qed.

Lemma level_clear_failure s p x :
  Z.land (status (clear_failure s p) x) BLOCK_VALID_MASK = Z.land (status s x) BLOCK_VALID_MASK.
Proof.
  unfold status, clear_failure. apply (idx_update_field (λ d, Z.land (nStatus d) BLOCK_VALID_MASK)). apply level_clear.
Qed.

(** [s'] is [s] after the turns for the blocks in [done]. *)
Record reconsidered (p t : CBlockIndex) (s s' : ChainState) (turns : list CBlockIndex) : Prop := {
  re_data : same_data s s';
  re_level : ∀ x, Z.land (status s' x) BLOCK_VALID_MASK = Z.land (status s x) BLOCK_VALID_MASK;
  re_chain : chainActive s' = chainActive s;
  re_sorted : sorted s (setBlockIndexCandidates s');
  re_known : Forall (known s) (setBlockIndexCandidates s');
  re_cleared : ∀ x, known s x → failed s' x = false ↔ failed s x = false ∨ x ∈ turns ∧ p ∈ ancestry x;
  re_old : ∀ x, x ∈ setBlockIndexCandidates s → x ∈ setBlockIndexCandidates s';
  re_new : ∀ x, x ∈ setBlockIndexCandidates s' →
    x ∈ setBlockIndexCandidates s ∨ chain_tx s x <> 0 ∧ cmp s t x = true;
  re_insert : ∀ x, known s x → x ∈ turns → p ∈ ancestry x → failed s x = true → chain_tx s x <> 0 →
    BLOCK_VALID_TRANSACTIONS <= Z.land (status s x) BLOCK_VALID_MASK → cmp s t x = true →
    x ∈ setBlockIndexCandidates s'
}.

Lemma GetAncestor_test s p x :
  index_ok s → known s p → known s x →
  ∃ a, GetAncestor x (nHeight p) = Ok a ∧ ((phashBlock <$> a) = Some (phashBlock p) ↔ p ∈ ancestry x).
Proof.
  intros Hi Hp Hx. pose proof (io_wf _ Hi x Hx) as Wx. rewrite GetAncestor_spec by done.
  eexists. split; [done|]. rewrite elem_of_ancestry by done.
  destruct ((0 <=? nHeight p) && (nHeight p <=? nHeight x)) eqn:E.
  - split; [|by intros ->]. destruct (ancestor x (nHeight p)) as [a|] eqn:Ea; [|done].
    intros [= Eh]. f_equal. apply (known_eq s); [|done..].
    assert (a ∈ ancestry x) as Ha by (apply elem_of_ancestry; [done|]; by rewrite (ancestor_height _ _ _ Ea)).
    by apply (known_ancestor s x a Hi Hx Ha).
  - split; [done|]. intros Ha. assert (p ∈ ancestry x) as Ha' by by apply elem_of_ancestry.
    apply ancestry_wf in Ha' as [_ ?]; [lia|done].
Qed.

Lemma reconsider_skip p t s s' turns x :
  known s x → failed s x = false ∨ p ∉ ancestry x →
  reconsidered p t s s' turns → reconsidered p t s s' (turns ++ [x]).
Proof.
  intros Hx Hskip []. constructor; try done.
  - intros y Hy. rewrite re_cleared0, elem_of_app, list_elem_of_singleton by done.
    split; [tauto|]. intros [?|[[?| ->] ?]]; tauto.
  - intros y Hy. rewrite elem_of_app, list_elem_of_singleton. intros [?| ->]; [by apply re_insert0|].
    intros ? ?. destruct Hskip; [congruence|done].
Qed.

Lemma reconsider_clear p t s s' turns x c o :
  known s x → p ∈ ancestry x → sorted s c → Forall (known s) c →
  (∀ y, y ∈ c ↔ y ∈ setBlockIndexCandidates s' ∨ y = x ∧ chain_tx s x <> 0 ∧
    BLOCK_VALID_TRANSACTIONS <= Z.land (status s x) BLOCK_VALID_MASK ∧ cmp s t x = true) →
  reconsidered p t s s' turns →
  reconsidered p t s (with_best_invalid (with_candidates (clear_failure s' x) c) o) (turns ++ [x]).
Proof.
  intros Hx Hpx Hs Hk Hc R. set (s1 := clear_failure s' x).
  assert (same_data s s1) as Hsd by (transitivity s'; [apply R|apply same_data_clear]).
  assert (∀ y, known s y → failed s1 y = false ↔ failed s' y = false ∨ y = x) as Hf.
  { intros y Hy. unfold s1. rewrite failed_clear_failure, andb_false_iff, negb_false_iff, bool_decide_eq_true.
    split; (intros [H|H]; [by left|right]); [by apply (known_eq s)|by subst]. }
  constructor; try done.
  - transitivity s1; [done|]. constructor; (done || (intros; apply Z.le_refl)).
  - intros y. change (Z.land (status s1 y) BLOCK_VALID_MASK = Z.land (status s y) BLOCK_VALID_MASK).
    unfold s1. rewrite level_clear_failure. apply R.
  - apply R.
  - intros y Hy. change (failed s1 y = false ↔ failed s y = false ∨ y ∈ turns ++ [x] ∧ p ∈ ancestry y).
    rewrite Hf, (re_cleared _ _ _ _ _ R), elem_of_app, list_elem_of_singleton by done.
    split; [|tauto]. intros [?| ->]; tauto.
  - intros y Hy. apply Hc. left. by apply (re_old _ _ _ _ _ R).
  - intros y [Hy|(-> & ? & _ & ?)]%Hc; [by apply (re_new _ _ _ _ _ R)|by right].
  - intros y Hy Hin Hpy Hfy Htx Hl Hcmp. apply Hc.
    apply elem_of_app in Hin as [Hin| ->%list_elem_of_singleton]; [|by right].
    left. by apply (re_insert _ _ _ _ _ R).
Qed.

Lemma reconsider_turn_spec p t s s' turns x :
  index_ok s → known s p → known s t → known s x → x ∉ turns → chainActive s = chain_of t →
  reconsidered p t s s' turns →
  ∃ s'', reconsider_turn address p (Ok s') x = Ok s'' ∧ reconsidered p t s s'' (turns ++ [x]).
Proof.
  intros Hi Hp Ht Hx Hnew Hch R. pose proof (re_data _ _ _ _ _ R) as Hsd.
  assert (failed s' x = failed s x) as Hfx.
  { pose proof (re_cleared _ _ _ _ _ R x Hx) as [H1 H2].
    destruct (failed s' x), (failed s x); try done; [by apply H2; left|].
    by destruct (H1 eq_refl) as [|[? _]]. }
  unfold reconsider_turn. cbn [rbind]. rewrite IsValid_spec. fold (failed s' x).
  rewrite Hfx, (re_level _ _ _ _ _ R).
  destruct (negb (failed s x) && _) eqn:Ev.
  { exists s'. split; [done|]. apply reconsider_skip; [done| |done]. left. by destruct (failed s x). }
  destruct (GetAncestor_test s p x Hi Hp Hx) as (a & -> & Ha). cbn [of_ub rbind].
  destruct (bool_decide_reflect ((phashBlock <$> a) = Some (phashBlock p))) as [Eh|Eh].
  2: { exists s'. split; [done|]. apply reconsider_skip; [done| |done]. right. by rewrite <- Ha. }
  apply Ha in Eh. set (s1 := clear_failure s' x).
  assert (same_data s s1) as Hsd1 by (transitivity s'; [done|apply same_data_clear]).
  assert (∀ u v, cmp s1 u v = cmp s u v) as Hcmp by (apply cmp_ext; intros; by apply (sd_sequence _ _ Hsd1)).
  assert (IsValid (status s1 x) BLOCK_VALID_TRANSACTIONS
          = (BLOCK_VALID_TRANSACTIONS <=? Z.land (status s x) BLOCK_VALID_MASK)) as ->.
  { rewrite IsValid_spec. fold (failed s1 x). unfold s1.
    rewrite failed_clear_failure, bool_decide_true, andb_false_r, level_clear_failure by done.
    by rewrite (re_level _ _ _ _ _ R). }
  fold (chain_tx s1 x). rewrite (sd_chain_tx _ _ Hsd1).
  assert (Tip (chainActive s1) false = Some t) as ->.
  { apply (Tip_known s1 t); [apply (index_ok_ext s); [apply Hsd1|done]|by apply (same_data_known _ _ _ Hsd1)|].
    change (chainActive s1) with (chainActive s'). by rewrite (re_chain _ _ _ _ _ R). }
  rewrite Hcmp. set (ins := ((BLOCK_VALID_TRANSACTIONS <=? Z.land (status s x) BLOCK_VALID_MASK) && negb (chain_tx s x =? 0)) && cmp s t x).
  set (c := if ins then set_insert (cmp s1) x (setBlockIndexCandidates s') else setBlockIndexCandidates s').
  set (s2 := with_candidates s1 c).
  match goal with |- context [rbind ?r _] => assert (r = Ok s2) as -> end.
  { unfold s2, c, ins. destruct (_ && negb _); cbn [andb]; [|done]. by destruct (cmp s t x). }
  cbn [rbind]. exists (with_best_invalid s2 (if bool_decide ((phashBlock <$> pindexBestInvalid s2) = Some (phashBlock x))
                                             then None else pindexBestInvalid s2)).
  split; [by destruct (bool_decide _)|].
  assert (index_ok s1) as Hi1 by (apply (index_ok_ext s); [apply Hsd1|done]).
  pose proof (cmp_strict address address_inj s1 Hi1) as Hst.
  assert (∀ l, Forall (known s) l ↔ Forall (known s1) l) as Hkl.
  { intros l. rewrite !Forall_forall. by setoid_rewrite (same_data_known _ _ _ Hsd1). }
  assert (∀ l, sorted s l ↔ sorted s1 l) as Hsl.
  { intros l. split; apply StronglySorted_impl; intros u v _ _; by rewrite Hcmp. }
  pose proof (proj1 (Hkl _) (re_known _ _ _ _ _ R)) as Hk1.
  pose proof (proj1 (Hsl _) (re_sorted _ _ _ _ _ R)) as Hs1.
  assert (known s1 x) as Hx1 by by apply (same_data_known _ _ _ Hsd1).
  assert (∀ y, y ∈ c ↔ y ∈ setBlockIndexCandidates s' ∨ y = x ∧ ins = true) as Hc.
  { intros y. unfold c. destruct ins; [|intuition congruence].
    rewrite (elem_of_set_insert _ _ Hst) by done. tauto. }
  apply reconsider_clear; [done|done| | | |done].
  - apply Hsl. unfold c. destruct ins; [|done]. by apply (set_insert_sorted _ _ Hst).
  - apply Hkl, Forall_forall. intros y [Hy|[-> _]]%Hc; [by rewrite Forall_forall in Hk1; apply Hk1|done].
  - intros y. rewrite Hc. unfold ins. rewrite !andb_true_iff, negb_true_iff, Z.leb_le, Z.eqb_neq. tauto.
Qed.

Lemma clear_ancestors_spec l : ∀ s,
  same_data s (foldl clear_ancestor s l) ∧ chainActive (foldl clear_ancestor s l) = chainActive s ∧
  setBlockIndexCandidates (foldl clear_ancestor s l) = setBlockIndexCandidates s ∧
  mapBlockIndex (foldl clear_ancestor s l) = mapBlockIndex s ∧
  ∀ x, failed (foldl clear_ancestor s l) x = failed s x && negb (existsb (λ a, ptr_eq a x) l).
Proof.
  induction l as [|a l IH]; intros s; cbn [foldl existsb].
  { split_and!; try done. intros x. by rewrite andb_true_r. }
  destruct (IH (clear_ancestor s a)) as (H1 & H2 & H3 & H4 & H5).
  assert (clear_ancestor s a = s ∧ failed s a = false ∨ clear_ancestor s a = clear_failure s a) as Hc.
  { unfold clear_ancestor. fold (failed s a). destruct (failed s a); auto. }
  split_and!.
  - transitivity (clear_ancestor s a); [|done]. destruct Hc as [[-> _]| ->]; [done|apply same_data_clear].
  - rewrite H2. by destruct Hc as [[-> _]| ->].
  - rewrite H3. by destruct Hc as [[-> _]| ->].
  - rewrite H4. by destruct Hc as [[-> _]| ->].
  - intros x. rewrite H5. destruct Hc as [[-> Ef]| ->].
    + unfold ptr_eq. destruct (bool_decide_reflect (phashBlock a = phashBlock x)) as [E|E]; cbn; [|done].
      assert (failed s x = failed s a) as -> by (unfold failed, status, idx; by rewrite E). by rewrite Ef.
    + rewrite failed_clear_failure. unfold ptr_eq. by destruct (failed s x), (bool_decide _), (existsb _ _).
Qed.

Lemma reconsider_spec s t b p :
  tree_ok address s t b → known s p →
  (∀ a, a ∈ ancestry p → a <> p → failed s a = true → cmp s a b = true) →
  ∃ s', ReconsiderBlock address s p = Ok s' ∧ tree_ok address s' t b ∧ same_data s s' ∧
    ∀ x, known s x → failed s' x = false ↔ failed s x = false ∨ p ∈ ancestry x ∨ x ∈ ancestry p.
Proof.
  intros Hok Hp Hanc. pose proof Hok as [Hi Hd Hc].
  destruct (co_tip _ _ _ _ Hc) as [Ht [Htx Hts]]. destruct (co_bound _ _ _ _ Hc) as (Hb & [Hbx Hbs] & Hbc).
  assert (∃ s1, foldl (reconsider_turn address p) (Ok s) (all_blocks s) = Ok s1 ∧
            reconsidered p t s s1 (all_blocks s)) as (s1 & E1 & R).
  { assert (∀ l turns s', (∀ x, x ∈ l → known s x) → NoDup (turns ++ l) → reconsidered p t s s' turns →
      ∃ s1, foldl (reconsider_turn address p) (Ok s') l = Ok s1 ∧ reconsidered p t s s1 (turns ++ l)) as H.
    { induction l as [|x l IH]; intros turns s' Hl Hnd R; cbn [foldl]; [exists s'; by rewrite app_nil_r|].
      assert (x ∉ turns) as Hxt by (apply NoDup_app in Hnd as (_ & H & _); intros H'; apply (H x H'); by left).
      destruct (reconsider_turn_spec p t s s' turns x Hi Hp Ht (Hl x ltac:(by left)) Hxt (co_chain _ _ _ _ Hc) R)
        as (s'' & -> & R'').
      destruct (IH (turns ++ [x]) s'') as (s1 & E & R1); [set_solver|by rewrite <- app_assoc|done|].
      exists s1. split; [done|]. by rewrite <- app_assoc in R1. }
    apply (H (all_blocks s) []).
    - intros x. by apply elem_of_all_blocks.
    - apply NoDup_fmap_2_strong; [|apply NoDup_map_to_list].
      intros [h x] [h' x'] Hx%elem_of_map_to_list Hx'%elem_of_map_to_list E. cbn in E. subst x'.
      by rewrite <- (io_hash _ Hi _ _ Hx), <- (io_hash _ Hi _ _ Hx').
    - constructor; try done.
      + apply (co_sorted _ _ _ _ Hc).
      + by apply (candidates_known _ _ _ Hc).
      + set_solver.
      + by left.
      + set_solver. }
  unfold ReconsiderBlock. rewrite E1. cbn [rbind].
  destruct (clear_ancestors_spec (ancestry p) s1) as (Hsd2 & Hch2 & Hcand2 & Hmap2 & Hf2).
  set (s2 := foldl clear_ancestor s1 (ancestry p)) in *.
  assert (same_data s s2) as Hsd by (transitivity s1; [apply R|done]).
  assert (∀ x, known s2 x ↔ known s x) as K by (intros x; apply (same_data_known _ _ _ Hsd)).
  assert (∀ u v, cmp s2 u v = cmp s u v) as Hcmp by (apply cmp_ext; intros; by apply (sd_sequence _ _ Hsd)).
  assert (∀ x, known s x → failed s2 x = false ↔ failed s x = false ∨ p ∈ ancestry x ∨ x ∈ ancestry p) as Hf.
  { intros x Hx. rewrite Hf2, andb_false_iff, negb_false_iff, (re_cleared _ _ _ _ _ R), existsb_exists by done.
    setoid_rewrite <- list_elem_of_In. rewrite elem_of_all_blocks by done.
    split; [|intros [?|[?|?]]; [auto|auto|right; exists x; split; [done|apply ptr_eq_refl]]].
    intros [[?|[_ ?]]|(a & Ha & Hax)]; [auto..|]. right. right.
    apply (ptr_eq_spec (all_blocks s)) in Hax as <-; [done|by apply all_blocks_one_object| |by apply elem_of_all_blocks].
    by apply (ancestry_known s p). }
  assert (∀ x, known s x → failed s x = false → failed s2 x = false) as Hmono by (intros x Hx H; apply Hf; auto).
  assert (∀ x, known s x → failed s x = true → cmp s x b = false → cmp s t x = true) as Hbetter.
  { intros x Hx Ef Hxb. destruct (cmp s t x) eqn:Etx; [done|]. exfalso.
    assert (cmp s x t = false) as Hxt.
    { apply (cmp_not_trans address address_inj s t b x); try done. by apply (co_candidate _ _ _ _ Hc b Hbc). }
    pose proof (cmp_total address address_inj s x t Hi Hx Ht Hxt Etx) as ->.
    rewrite Hts in Ef; [done|apply ancestry_self]. }
  exists s2. split; [done|]. split_and!; [|done|done].
  constructor; [apply (index_ok_ext s); [apply Hsd|done]|by apply (same_data_ok s)|].
  constructor; rewrite ?Hcand2.
  - rewrite Hch2, (re_chain _ _ _ _ _ R). apply (co_chain _ _ _ _ Hc).
  - split; [by apply K|]. split; [by rewrite (sd_chain_tx _ _ Hsd)|]. intros a Ha. apply Hmono; [by apply (known_ancestor s t)|auto].
  - split_and!; [by apply K| |by apply (re_old _ _ _ _ _ R)].
    split; [by rewrite (sd_chain_tx _ _ Hsd)|]. intros a Ha. apply Hmono; [by apply (known_ancestor s b)|auto].
  - refine (StronglySorted_impl _ _ _ _ (re_sorted _ _ _ _ _ R)). intros u v _ _. by rewrite Hcmp.
  - intros x Hx. rewrite K, (sd_chain_tx _ _ Hsd), Hcmp.
    destruct (re_new _ _ _ _ _ R x Hx) as [Hold|[Hx1 Hx2]]; [by apply (co_candidate _ _ _ _ Hc)|].
    pose proof (re_known _ _ _ _ _ R) as Hk. rewrite Forall_forall in Hk. split_and!; [auto|done|].
    apply cmp_flip; auto.
  - intros x Hx%K. rewrite (sd_chain_tx _ _ Hsd), Hcmp. intros Hxt Hxf Hxb.
    destruct (failed s x) eqn:Ef.
    2: { apply (re_old _ _ _ _ _ R). by apply (co_complete _ _ _ _ Hc). }
    apply (Hf x Hx) in Hxf as [|[Hpx|Hxp]]; [congruence| |].
    + apply (re_insert _ _ _ _ _ R); [done|by apply elem_of_all_blocks|done..| |].
      * apply (do_level _ Hd x Hx). by apply (do_linked _ Hd x Hx), ancestry_self.
      * by apply Hbetter.
    + destruct (decide (phashBlock x = phashBlock p)) as [E|E].
      * assert (x = p) as -> by by apply (known_eq s).
        apply (re_insert _ _ _ _ _ R); [done|by apply elem_of_all_blocks|apply ancestry_self|done..| |].
        { apply (do_level _ Hd p Hx). by apply (do_linked _ Hd p Hx), ancestry_self. }
        by apply Hbetter.
      * rewrite (Hanc x Hxp) in Hxb; [done|by intros ->|done].
Qed.
End Search.

(** ** A tree of one block *)

(** What InitBlockIndex leaves once the genesis block is connected. *)
Lemma genesis_tree_ok address g d dirty seen inv hdr seq :
  pprev g = None → wf_index g → repr 8 (nChainWork g) (work g) →
  0 < nTx d < 2 ^ 32 → nChainTx d = nTx d →
  has (nStatus d) BLOCK_HAVE_DATA = true → has (nStatus d) BLOCK_FAILED_MASK = false →
  BLOCK_VALID_TRANSACTIONS <= Z.land (nStatus d) BLOCK_VALID_MASK →
  tree_ok address
    (mkState {[phashBlock g := g]} {[phashBlock g := d]} [g] [] (chain_of g) inv hdr seq dirty seen) g g.
Proof.
  intros Hprev Hwf Hrep Htx Hchain Hdata Hfail Hlev. set (s := mkState _ _ _ _ _ _ _ _ _ _).
  assert (∀ p, known s p ↔ p = g) as K.
  { intros p. unfold known. cbn. rewrite lookup_singleton_Some. split; [by intros [_ ->]|by intros ->]. }
  assert (idx s g = d) as Hd by (unfold idx; cbn; by rewrite lookup_singleton_eq).
  assert (stored s g = true ∧ failed s g = false ∧ chain_tx s g = nTx d) as (Hs & Hf & Hc)
    by (unfold stored, failed, chain_tx, status; rewrite Hd; auto).
  assert (ancestry g = [g]) as Ha by by rewrite ancestry_unfold, Hprev.
  assert (total_tx s g = nTx d) as Ht by (unfold total_tx; rewrite Ha; cbn; rewrite Hd; lia).
  assert (linked s g) as Hl by (unfold linked; rewrite Ha; by intros a ->%list_elem_of_singleton).
  assert (solid s g) as Hsol.
  { split; [rewrite Hc; lia|]. rewrite Ha. by intros a ->%list_elem_of_singleton. }
  split; constructor.
  - intros h p. cbn. rewrite lookup_singleton_Some. by intros [<- <-].
  - by intros p ->%K.
  - by intros p ->%K.
  - intros p q ->%K. by rewrite Hprev.
  - by intros p q ->%K ->%K.
  - intros p ->%K _. unfold status. by rewrite Hd.
  - intros p ->%K. rewrite Hd, Hs. split; [lia|]. split; [lia|done].
  - intros p ->%K. rewrite Ht. lia.
  - by intros p ->%K.
  - intros p ->%K _. by rewrite Hc, Ht.
  - intros p ->%K. rewrite Hc. lia.
  - intros k p. cbn. split; [by intros ?%elem_of_nil|]. intros (->%K & _ & H0 & _). rewrite Hc in H0. lia.
  - constructor.
  - done.
  - by rewrite K.
  - rewrite K. split_and!; [done|done|]. cbn. by left.
  - cbn. repeat constructor.
  - cbn. intros c ->%list_elem_of_singleton. rewrite K. split_and!; [done|rewrite Hc; lia|apply cmp_irrefl].
  - intros p ->%K _ _ _. cbn. by left.
Qed.

(** ** Properties *)

(** C13: AddToBlockIndex and ReceivedBlockTransactions keep the block tree
    consistent. A header with valid bits under a known block gets an index of
    one height and its expected work more, and a known one gets the index it
    has. When the data of a block arrives, the loop over the queue ends, the
    block and all blocks that waited for it count their transactions from the
    genesis block on, and every block that can be better than the tip is a
    candidate for it. *)
Theorem block_storage_keeps_tree address s t b :
  (∀ h h', address h = address h' → h = h') → tree_ok address s t b →
  (∀ hash block stake kernel prev,
    mapBlockIndex s !! hash = None → mapBlockIndex s !! hashPrevBlock block = Some prev →
    valid_bits (h_nBits block) → work prev + expected_work (h_nBits block) < 2 ^ 256 →
    ∃ s' p, AddToBlockIndex s hash block stake kernel = Ok (s', p) ∧ tree_ok address s' t b ∧
      known s' p ∧ phashBlock p = hash ∧ pprev p = Some prev ∧
      work p = work prev + expected_work (h_nBits block) ∧ stored s' p = false ∧ failed s' p = false ∧
      (∀ x, known s x → known s' x ∧ status s' x = status s x)) ∧
  (∀ hash block stake kernel p,
    mapBlockIndex s !! hash = Some p → AddToBlockIndex s hash block stake kernel = Ok (s, p)) ∧
  (∀ p v pos,
    known s p → stored s p = false → failed s p = false → 0 < v < 2 ^ 32 →
    (∀ x, known s x → total_tx s x + v < 2 ^ 32) →
    (∀ q, pprev p = Some q → IsValid (status s q) BLOCK_VALID_TREE = true) →
    ∃ s', ReceivedBlockTransactions address s v p pos = Ok s' ∧ tree_ok address s' t b ∧
      mapBlockIndex s' = mapBlockIndex s ∧ stored s' p = true ∧ ∀ x, failed s' x = failed s x).
Proof.
  intros Hinj Hok. split_and!.
  - intros. by apply (add_spec address s t b _ _ _ _ prev).
  - intros hash block stake kernel p E. unfold AddToBlockIndex. by rewrite E.
  - intros. by apply (received_spec address Hinj s t b).
Qed.

(** C14: FindMostWorkChain ends with a block: a candidate whose blocks are all
    stored and none failed, and which is the best of the candidates of that kind -
    and of all known blocks of that kind that are at least as good as the bound
    of the invariant. Its assertion holds, and the invariant of the block tree
    is kept. Of the candidates it removes none that can be used, and all that
    compare as better than the block it returns; it adds none. It takes no
    failure away, and marks as failed only blocks under failed ones. *)
Theorem find_most_work_chain_is_best address s t b :
  (∀ h h', address h = address h' → h = h') → tree_ok address s t b →
  ∃ s' m, FindMostWorkChain address s = Ok (s', Some m) ∧ tree_ok address s' t b ∧ mapBlockIndex s' = mapBlockIndex s ∧
    m ∈ setBlockIndexCandidates s' ∧ linked s' m ∧ (∀ a, a ∈ ancestry m → failed s' a = false) ∧
    (∀ x, known s x → solid s x →
       x ∈ setBlockIndexCandidates s ∨ CBlockIndexWorkComparator address s x b = false →
       CBlockIndexWorkComparator address s m x = false ∧ x ∈ setBlockIndexCandidates s') ∧
    (∀ x, x ∈ setBlockIndexCandidates s' →
       x ∈ setBlockIndexCandidates s ∧ CBlockIndexWorkComparator address s m x = false) ∧
    (∀ x, failed s x = true → failed s' x = true) ∧
    (∀ x, known s x → failed s' x = true → ∃ a, a ∈ ancestry x ∧ failed s a = true).
Proof.
  intros Hinj Hok. pose proof Hok as [Hi _ Hc].
  destruct (FindMostWorkChain_loop_spec address Hinj (S (length (setBlockIndexCandidates s))) s t b Hok)
    as (s' & m & E & Hpr & Hin & [Htx Hm] & Hmax); [lia|].
  assert (tree_ok address s' t b) as Hok' by (apply (pruned_ok address no_block s); auto).
  assert (∀ x, known s x → solid s x → x ∈ setBlockIndexCandidates s → x ∈ setBlockIndexCandidates s') as Hstay.
  { intros x Hx Hsx Hxc. destruct (pr_out _ _ _ Hpr x Hxc) as [|Hf]; [done|].
    pose proof (pruned_solid _ _ _ _ Hpr Hi Hx ltac:(auto) Hsx) as [_ Hs']. by rewrite Hs' in Hf by apply ancestry_self. }
  exists s', m. split_and!; try done.
  - apply Hpr.
  - apply (do_linked _ (to_data _ _ _ _ Hok')); [|done]. by apply (co_candidate _ _ _ _ (to_chain _ _ _ _ Hok')).
  - intros x Hx Hsx Hcase.
    assert (x ∈ setBlockIndexCandidates s) as Hxc.
    { destruct Hcase as [|Hxb]; [done|]. apply (co_complete _ _ _ _ Hc); [done|apply Hsx|by apply Hsx, ancestry_self|done]. }
    split; [|by apply Hstay]. rewrite <- (pruned_cmp address _ _ _ m x Hpr). by apply Hmax, Hstay.
  - intros x Hx. split; [by apply Hpr|]. rewrite <- (pruned_cmp address _ _ _ m x Hpr). by apply Hmax.
  - apply Hpr.
  - intros x Hx Hf. destruct (pr_new _ _ _ Hpr x Hx Hf) as (a & Ha & [|[]]). eauto.
Qed.

(** C26: InvalidateBlock, when the blocks above it can be disconnected, ends with
    the predecessor of the block as the tip if it was in the active chain, and
    every usable block at least as good as the new tip a candidate. It sets
    BLOCK_FAILED_VALID on the block, and BLOCK_FAILED_CHILD on the blocks of the
    active chain from it on; it changes the status of no other block, so the
    descendants on other branches are marked only when FindMostWorkChain meets
    them. ReconsiderBlock clears the failure of the block, of all its
    descendants and of its ancestors, and of nothing else, and keeps the
    invariant if no failed ancestor is better than the bound from which on the
    candidates are complete (reconsider_loses_a_candidate is a run where one is). *)
Theorem invalidation_keeps_tree address s t b p :
  (∀ h h', address h = address h' → h = h') → tree_ok address s t b → known s p →
  (∀ q undone,
    tip_below s t p q → Forall (λ ok, ok = true) undone → (length (ancestry t) <= length undone)%nat →
    ∃ s', InvalidateBlock address s p undone = Ok (s', true) ∧ tree_ok address s' q q ∧
      mapBlockIndex s' = mapBlockIndex s ∧
      has (status s' p) BLOCK_FAILED_VALID = true ∧
      (∀ x, x ∈ ancestry t → p ∈ ancestry x → has (status s' x) BLOCK_FAILED_CHILD = true) ∧
      (∀ x, known s x → x <> p → ¬ (x ∈ ancestry t ∧ p ∈ ancestry x) → status s' x = status s x) ∧
      (∀ x, failed s x = true → failed s' x = true)) ∧
  ((∀ a, a ∈ ancestry p → a <> p → failed s a = true → CBlockIndexWorkComparator address s a b = true) →
    ∃ s', ReconsiderBlock address s p = Ok s' ∧ tree_ok address s' t b ∧ mapBlockIndex s' = mapBlockIndex s ∧
      ∀ x, known s x → failed s' x = false ↔ failed s x = false ∨ p ∈ ancestry x ∨ x ∈ ancestry p).
Proof.
  intros Hinj Hok Hp. split.
  - intros q undone Hq Hall Hlen.
    destruct (invalidate_spec address Hinj s t b p q undone Hok Hp Hq Hall Hlen) as (s' & E & Hok' & Em & []). by exists s'.
  - intros Hanc. destruct (reconsider_spec address Hinj s t b p Hok Hp Hanc) as (s' & E & Hok' & Hsd & Hf).
    exists s'. split_and!; [done|done|apply Hsd|done].
Qed.


Definition ex_address (h : list Z) : Z := Zpos (encode h).

Lemma ex_address_inj h h' : ex_address h = ex_address h' → h = h'.
Proof. unfold ex_address. intros [= E]. by apply encode_inj in E. Qed.

Definition ex_header (prev : Z) : CBlockHeader := mkHeader 3 (uint256 prev) (uint256 0) 1000 545259519 0.
Definition ex_kernel : StakeData := mkStakeData 0 false 0 (uint256 0).

(** A run of operations, for concrete inputs. *)
Definition ok_or {A} (x : A) (r : result stop A) : A := match r with Ok a => a | Throw _ => x end.

Definition ex_add (s : ChainState) (hash prev : Z) : ChainState * CBlockIndex :=
  ok_or (s, mkBlockIndex [] None None 0 [] [] 0 0 0 null_outpoint 0 [] 0 [] 0 0 0)
    (AddToBlockIndex s (uint256 hash) (ex_header prev) None ex_kernel).

Definition ex_g : CBlockIndex := Eval vm_compute in snd (ex_add initial 100 0).
(** The genesis block, stored and connected. *)
Definition ex_base : ChainState := Eval vm_compute in
  let s := ok_or initial (ReceivedBlockTransactions ex_address (fst (ex_add initial 100 0)) 1 ex_g (0, 8)) in
  ok_or initial (UpdateTip s (Some ex_g)).
(** A header on the genesis block, and one on it. *)
Definition ex_a : CBlockIndex := Eval vm_compute in snd (ex_add ex_base 101 100).
Definition ex_tree1 : ChainState := Eval vm_compute in fst (ex_add ex_base 101 100).
Definition ex_p : CBlockIndex := Eval vm_compute in snd (ex_add ex_tree1 102 101).
Definition ex_tree2 : ChainState := Eval vm_compute in fst (ex_add ex_tree1 102 101).
(** The data of both, the second one first. *)
Definition ex_tree3 : ChainState := Eval vm_compute in ok_or initial (ReceivedBlockTransactions ex_address ex_tree2 5 ex_p (0, 500)).
Definition ex_tree4 : ChainState := Eval vm_compute in ok_or initial (ReceivedBlockTransactions ex_address ex_tree3 2 ex_a (0, 300)).


(** The second block waits for the first, then both become candidates. *)
Example ex_out_of_order :
  mapBlocksUnlinked ex_tree3 = [(Some (uint256 101), ex_p)] ∧
  chain_tx ex_tree3 ex_p = 0 ∧ chain_tx ex_tree4 ex_a = 3 ∧ chain_tx ex_tree4 ex_p = 8 ∧
  setBlockIndexCandidates ex_tree4 = [ex_g; ex_a; ex_p] ∧ mapBlocksUnlinked ex_tree4 = [].
Proof. vm_compute. split_and!; reflexivity. Qed.

Lemma ex_g_wf : wf_index ex_g ∧ repr 8 (nChainWork ex_g) (work ex_g).
Proof.
  split; [by apply wf_genesis|]. split; [done| |done].
  repeat (constructor; [split; by vm_compute|]). constructor.
Qed.

Lemma ex_base_eq :
  ex_base = mkState {[phashBlock ex_g := ex_g]} {[phashBlock ex_g := mkIndexData 0 8 0 1 1 11 1 None]} [ex_g] []
    (chain_of ex_g) (pindexBestInvalid ex_base) (pindexBestHeader ex_base) (nBlockSequenceId ex_base)
    (setDirtyBlockIndex ex_base) (setStakeSeen ex_base).
Proof. vm_compute. reflexivity. Qed.

Lemma ex_base_ok : tree_ok ex_address ex_base ex_g ex_g.
Proof.
  destruct ex_g_wf as [Hw Hr]. rewrite ex_base_eq.
  apply genesis_tree_ok; try done; by vm_compute.
Qed.

Lemma ex_bits : valid_bits 545259519.
Proof. split; [by vm_compute|]. split; [done|]. by vm_compute. Qed.

(** The bounds on transaction counts, checked over the blocks of a state. *)
Definition total_tx_below (s : ChainState) (m : Z) : bool := forallb (λ x, total_tx s x <? m) (all_blocks s).

Lemma total_tx_below_spec s m : index_ok s → total_tx_below s m = true → ∀ x, known s x → total_tx s x < m.
Proof.
  intros Hi H x Hx. unfold total_tx_below in H. rewrite forallb_forall in H. apply Z.ltb_lt, H.
  apply list_elem_of_In. by apply elem_of_all_blocks.
Qed.

Lemma ex_tree1_run : AddToBlockIndex ex_base (uint256 101) (ex_header 100) None ex_kernel = Ok (ex_tree1, ex_a).
Proof. vm_compute. reflexivity. Qed.
Lemma ex_tree2_run : AddToBlockIndex ex_tree1 (uint256 102) (ex_header 101) None ex_kernel = Ok (ex_tree2, ex_p).
Proof. vm_compute. reflexivity. Qed.
Lemma ex_tree3_run : ReceivedBlockTransactions ex_address ex_tree2 5 ex_p (0, 500) = Ok ex_tree3.
Proof. vm_compute. reflexivity. Qed.
Lemma ex_tree4_run : ReceivedBlockTransactions ex_address ex_tree3 2 ex_a (0, 300) = Ok ex_tree4.
Proof. vm_compute. reflexivity. Qed.

(** Headers [a] and [p] in turn, then their blocks in the other order. *)
Lemma ex_tree1_ok : tree_ok ex_address ex_tree1 ex_g ex_g ∧ known ex_tree1 ex_a.
Proof.
  destruct (add_spec ex_address ex_base ex_g ex_g (uint256 101) (ex_header 100) None ex_kernel ex_g ex_base_ok)
    as (s' & p & E & Hok & Hk & _); [done|done|apply ex_bits|by vm_compute|].
  rewrite ex_tree1_run in E. injection E as <- <-. by split.
Qed.

Lemma ex_tree2_ok : tree_ok ex_address ex_tree2 ex_g ex_g ∧ known ex_tree2 ex_p.
Proof.
  destruct (add_spec ex_address ex_tree1 ex_g ex_g (uint256 102) (ex_header 101) None ex_kernel ex_a (proj1 ex_tree1_ok))
    as (s' & p & E & Hok & Hk & _); [done|done|apply ex_bits|by vm_compute|].
  rewrite ex_tree2_run in E. injection E as <- <-. by split.
Qed.

Lemma ex_tree3_ok : tree_ok ex_address ex_tree3 ex_g ex_g ∧ known ex_tree3 ex_a.
Proof.
  destruct ex_tree2_ok as [Hok Hk].
  destruct (received_spec ex_address ex_address_inj ex_tree2 ex_g ex_g ex_p 5 (0, 500) Hok Hk) as (s' & E & Hok' & Em & _).
  - by vm_compute.
  - by vm_compute.
  - lia.
  - intros x Hx. pose proof (total_tx_below_spec ex_tree2 100 (to_index _ _ _ _ Hok) ltac:(by vm_compute) x Hx). lia.
  - intros q [= <-]. by vm_compute.
  - rewrite ex_tree3_run in E. injection E as <-. split; [exact Hok'|by vm_compute].
Qed.

Lemma block_storage_keeps_tree_witness :
  (∃ s' p, AddToBlockIndex ex_base (uint256 101) (ex_header 100) None ex_kernel = Ok (s', p) ∧
     tree_ok ex_address s' ex_g ex_g) ∧
  ∃ s', ReceivedBlockTransactions ex_address ex_tree3 2 ex_a (0, 300) = Ok s' ∧ tree_ok ex_address s' ex_g ex_g.
Proof.
  split.
  - destruct (block_storage_keeps_tree ex_address ex_base ex_g ex_g ex_address_inj ex_base_ok) as (H & _).
    destruct (H (uint256 101) (ex_header 100) None ex_kernel ex_g) as (s' & p & E & Hok & _);
      [done|done|apply ex_bits|by vm_compute|]. by exists s', p.
  - destruct ex_tree3_ok as [Hok Hk].
    destruct (block_storage_keeps_tree ex_address ex_tree3 ex_g ex_g ex_address_inj Hok) as (_ & _ & H).
    destruct (H ex_a 2 (0, 300)) as (s' & E & Hok' & _); [done|by vm_compute|by vm_compute|lia| |by intros q [= <-]; vm_compute|].
    + intros x Hx. pose proof (total_tx_below_spec ex_tree3 100 (to_index _ _ _ _ Hok) ltac:(by vm_compute) x Hx). lia.
    + by exists s'.
Defined.

Lemma ex_tree4_ok : tree_ok ex_address ex_tree4 ex_g ex_g.
Proof.
  destruct ex_tree3_ok as [Hok Hk].
  destruct (received_spec ex_address ex_address_inj ex_tree3 ex_g ex_g ex_a 2 (0, 300) Hok Hk) as (s' & E & Hok' & _).
  - by vm_compute.
  - by vm_compute.
  - lia.
  - intros x Hx. pose proof (total_tx_below_spec ex_tree3 100 (to_index _ _ _ _ Hok) ltac:(by vm_compute) x Hx). lia.
  - intros q [= <-]. by vm_compute.
  - rewrite ex_tree4_run in E. injection E as <-. exact Hok'.
Qed.

(** The first block fails, so both candidates above the tip go. *)
Definition ex_tree5 : ChainState := Eval vm_compute in or_status ex_tree4 ex_a BLOCK_FAILED_VALID.

Lemma find_most_work_chain_is_best_witness :
  (∃ s' m, FindMostWorkChain ex_address ex_tree4 = Ok (s', Some m) ∧ m ∈ setBlockIndexCandidates s') ∧
  match FindMostWorkChain ex_address ex_tree4 with Ok (_, Some m) => phashBlock m = uint256 102 | _ => False end ∧
  match FindMostWorkChain ex_address ex_tree5 with
  | Ok (s, Some m) => phashBlock m = uint256 100 ∧ setBlockIndexCandidates s = [ex_g] ∧ failed s ex_p = true
  | _ => False
  end.
Proof.
  split; [|vm_compute; split_and!; reflexivity].
  destruct (find_most_work_chain_is_best ex_address ex_tree4 ex_g ex_g ex_address_inj ex_tree4_ok)
    as (s' & m & E & _ & _ & Hin & _). by exists s', m.
Defined.

Lemma invalidation_keeps_tree_witness :
  ∃ s', InvalidateBlock ex_address ex_tree4 ex_a [true] = Ok (s', true) ∧ tree_ok ex_address s' ex_g ex_g.
Proof.
  destruct (invalidation_keeps_tree ex_address ex_tree4 ex_g ex_g ex_a ex_address_inj ex_tree4_ok) as (H & _); [by vm_compute|].
  destruct (H ex_g [true]) as (s' & E & Hok & _); [by vm_compute|by repeat constructor|by vm_compute; lia|].
  exists s'. split; [exact E|exact Hok].
Defined.

(** A candidate ReconsiderBlock loses: [a] is the tip with a header [p] on it;
    [a] is invalidated, and then [p] reconsidered. The failure of [a] is cleared
    as that of an ancestor, so [a] is a usable block with more work than the
    tip, but it is not a candidate, and the tip stays at the genesis block. *)
Definition ex_lost : ChainState := Eval vm_compute in
  let s := ok_or initial (ReceivedBlockTransactions ex_address ex_tree2 2 ex_a (0, 300)) in
  let s := ok_or initial (UpdateTip s (Some ex_a)) in
  let s := ok_or initial (PruneBlockIndexCandidates ex_address s) in
  let '(s, _) := ok_or (initial, false) (InvalidateBlock ex_address s ex_a [true]) in
  ok_or initial (ReconsiderBlock ex_address s ex_p).

Example reconsider_loses_a_candidate :
  failed ex_lost ex_a = false ∧ chain_tx ex_lost ex_a = 3 ∧
  CBlockIndexWorkComparator ex_address ex_lost ex_g ex_a = true ∧
  setBlockIndexCandidates ex_lost = [ex_g] ∧ Tip (chainActive ex_lost) false = Some ex_g.
Proof. vm_compute. split_and!; reflexivity. Qed.
