(* ===== verification/Activation.v ===== *)
(** * main.cpp: activating the best chain

    ConnectTip, DisconnectTip, ActivateBestChainStep and ActivateBestChain on the
    block tree of [BlockTree]. What ConnectBlock and DisconnectBlock decide of
    the coins, the disk and the consensus rules (modelled in [Connect] and
    [TxCheck]) comes from an [Environment], which can answer every call anew; what
    they do to the block index is here. Left out: the memory pool, the wallets
    and the notifications, which read the chain and do not change it. *)

From S2P Require Import Prelude Uint256 Chain Pow BlockTree.

#[local] Set Warnings "-register-all".

(** What ConnectBlock and the writes around it come to: the block is connected,
    with its undo data at a position; it breaks a rule, with the corruption flag
    of the CValidationState; or a system error stops it, before the index was
    updated or after. *)
Inductive ConnectResult :=
| Connected (nUndoPos : Z)
| Rejected (fCorruptionPossible : bool)
| SystemError (written : option Z).

(** The answers, by the number of calls made so far. *)
Record Environment := mkEnvironment {
  connect : nat → CBlockIndex → ConnectResult;
  disconnect : nat → CBlockIndex → bool;
  flush_periodic : nat → bool
}.

Record ActivationState := mkActivation {
  tree : ChainState;
  calls : nat
}.

(** Where ActivateBestChainStep stands after some blocks. *)
Inductive progress := Continue | Stop | FoundInvalid | Failure.

Section Activation.
Variable address : list Z → Z.
Variable hashGenesisBlock : list Z.
Variable env : Environment.

Local Open Scope node_scope.

(** What ConnectBlock does to the index of a block it accepts. *)
Definition write_undo (s : ChainState) (pindex : CBlockIndex) (nUndoPos : Z) : ChainState :=
  if bool_decide (phashBlock pindex = hashGenesisBlock) then s
  else
    let null := negb (has (status s pindex) BLOCK_HAVE_UNDO) || (nFile (idx s pindex) =? -1) in
    if null || negb (IsValid (status s pindex) BLOCK_VALID_SCRIPTS) then
      let s := if null then or_status (update_idx s pindex (set_undo_pos nUndoPos)) pindex BLOCK_HAVE_UNDO
               else s in
      let s := update_idx s pindex
                 (λ d, set_status (fst (RaiseValidity (nStatus d) BLOCK_VALID_SCRIPTS)) d) in
      with_dirty s pindex
    else s.

(** [pa == pb], for pointers that can be null. *)
Definition same_pointer (pa pb : option CBlockIndex) : bool :=
  match pa, pb with
  | None, None => true
  | Some a, Some b => ptr_eq a b
  | _, _ => false
  end.

Definition ConnectTip (st : ActivationState) (pindexNew : CBlockIndex)
  : result stop (ActivationState * ConnectResult) :=
  let '(mkActivation s n) := st in
  if negb (same_pointer (pprev pindexNew) (Tip (chainActive s) false)) then Throw (Crash AssertionFailed)
  else
    let r := connect env n pindexNew in
    match r with
    | Rejected corrupt =>
        let! s := InvalidBlockFound address s pindexNew corrupt in
        Ok (mkActivation s (S n), r)
    | SystemError w =>
        Ok (mkActivation (match w with Some pos => write_undo s pindexNew pos | None => s end) (S n), r)
    | Connected pos =>
        let! s := UpdateTip (write_undo s pindexNew pos) (Some pindexNew) in
        Ok (mkActivation s (S n), r)
    end.

(** The [while (chainActive.Tip() && chainActive.Tip() != pindexFork)] loop, at
    most once per block of the active chain. *)
Fixpoint disconnect_loop (fuel : nat) (st : ActivationState) (pindexFork : option CBlockIndex)
  : result stop (ActivationState * bool) :=
  match Tip (chainActive (tree st)) false with
  | None => Ok (st, true)
  | Some t =>
      if same_pointer (Some t) pindexFork then Ok (st, true)
      else
        match fuel with
        | O => Throw OutOfFuel
        | S fuel =>
            let! r := DisconnectTip (tree st) (disconnect env (calls st) t) in
            let '(s, ok) := r in
            let st := mkActivation s (S (calls st)) in
            if ok then disconnect_loop fuel st pindexFork else Ok (st, false)
        end
  end.

(** The [while (pindexIter && pindexIter->nHeight != nHeight)] loop, on the
    blocks from [pindexIter] down. *)
Fixpoint until_height (nHeight' : Z) (l : list CBlockIndex) : list CBlockIndex :=
  match l with
  | [] => []
  | p :: l => if nHeight p =? nHeight' then [] else p :: until_height nHeight' l
  end.

(** The BOOST_REVERSE_FOREACH loop; [back] is [vpindexToConnect.back()]. *)
Fixpoint connect_batch (st : ActivationState) (batch : list CBlockIndex) (back : option CBlockIndex)
    (pindexOldTip : option CBlockIndex) : result stop (ActivationState * progress) :=
  match batch with
  | [] => Ok (st, Continue)
  | pindexConnect :: batch =>
      let! r := ConnectTip st pindexConnect in
      let '(st, r) := r in
      match r with
      | Rejected true => Ok (st, FoundInvalid)
      | Rejected false =>
          match back with
          | None => Throw (Crash OutOfRange)
          | Some p =>
              let! s := InvalidChainFound (tree st) p in
              Ok (mkActivation s (calls st), FoundInvalid)
          end
      | SystemError _ => Ok (st, Failure)
      | Connected _ =>
          let! s := PruneBlockIndexCandidates address (tree st) in
          let st := mkActivation s (calls st) in
          match pindexOldTip, Tip (chainActive s) false with
          | None, _ => Ok (st, Stop)
          | _, None => Throw (Crash NullDereference)
          | Some old, Some t =>
              if op_gt (nChainWork t) (nChainWork old) then Ok (st, Stop)
              else connect_batch st batch back pindexOldTip
          end
      end
  end.

(** The [while (fContinue && nHeight != pindexMostWork->nHeight)] loop, 32
    blocks at a time. *)
Fixpoint connect_loop (fuel : nat) (st : ActivationState) (pindexMostWork : CBlockIndex) (nHeight' : Z)
    (pindexOldTip : option CBlockIndex) : result stop (ActivationState * progress) :=
  if nHeight' =? nHeight pindexMostWork then Ok (st, Continue)
  else
    match fuel with
    | O => Throw OutOfFuel
    | S fuel =>
        let nTargetHeight := Z.min (nHeight' + 32) (nHeight pindexMostWork) in
        let! pindexIter := of_ub (GetAncestor pindexMostWork nTargetHeight) in
        let vpindexToConnect := until_height nHeight' (blocks_from pindexIter) in
        let! r := connect_batch st (rev vpindexToConnect) (last vpindexToConnect) pindexOldTip in
        let '(st, r) := r in
        match r with
        | Continue => connect_loop fuel st pindexMostWork nTargetHeight pindexOldTip
        | _ => Ok (st, r)
        end
    end.

Definition ActivateBestChainStep (st : ActivationState) (pindexMostWork : CBlockIndex)
  : result stop (ActivationState * bool) :=
  let c := chainActive (tree st) in
  let pindexOldTip := Tip c false in
  let! pindexFork := of_ub (FindFork c pindexMostWork) in
  let! r := disconnect_loop (length (vChain c)) st pindexFork in
  let '(st, ok) := r in
  if negb ok then Ok (st, false)
  else
    let nHeight' := match pindexFork with Some p => nHeight p | None => -1 end in
    let! r := connect_loop (Z.to_nat (nHeight pindexMostWork - nHeight')) st pindexMostWork nHeight'
                pindexOldTip in
    let '(st, r) := r in
    Ok (st, match r with Failure => false | _ => true end).

(** The [do ... while (pindexMostWork != chainActive.Tip())] loop. *)
Fixpoint ActivateBestChain (fuel : nat) (st : ActivationState) : result stop (ActivationState * bool) :=
  match fuel with
  | O => Throw OutOfFuel
  | S fuel =>
      let! r := FindMostWorkChain address (tree st) in
      let '(s, pindexMostWork) := r in
      let st := mkActivation s (calls st) in
      match pindexMostWork with
      | None => Ok (st, true)
      | Some m =>
          if same_pointer (Some m) (Tip (chainActive s) false) then Ok (st, true)
          else
            let! r := ActivateBestChainStep st m in
            let '(st, ok) := r in
            if negb ok then Ok (st, false)
            else if same_pointer (Some m) (Tip (chainActive (tree st)) false)
            then Ok (mkActivation (tree st) (S (calls st)), flush_periodic env (calls st))
            else ActivateBestChain fuel st
      end
  end.
End Activation.

Lemma length_filter_le {A} (f g : A → bool) l :
  (∀ x, x ∈ l → f x = true → g x = true) →
  (length (filter (λ x, f x) l) <= length (filter (λ x, g x) l))%nat.
Proof.
  induction l as [|x l IH]; intros H; [done|]. rewrite !filter_cons.
  specialize (IH (λ y Hy, H y (list_elem_of_further _ _ _ Hy))).
  specialize (H x (list_elem_of_here _ _)). case_decide as Hf; case_decide as Hg; cbn [length]; try lia.
  destruct Hg. by apply Is_true_true, H, Is_true_true.
Qed.

Lemma length_filter_lt {A} (f g : A → bool) l x :
  (∀ y, y ∈ l → f y = true → g y = true) → x ∈ l → f x = false → g x = true →
  (length (filter (λ x, f x) l) < length (filter (λ x, g x) l))%nat.
Proof.
  intros H Hx Hf Hg. apply list_elem_of_split in Hx as (l1 & l2 & ->).
  pose proof (length_filter_le f g l1 ltac:(set_solver)). pose proof (length_filter_le f g l2 ltac:(set_solver)).
  rewrite !filter_app, !length_app, !filter_cons.
  case_decide as Hfx; [by rewrite Hf in Hfx|]. case_decide as Hgx; [|by rewrite Hg in Hgx]. cbn [length]. lia.
Qed.

(** ** What a call of ConnectTip does to the tree *)

(** A change of the mutable fields that no rule below reads. *)
Lemma pruned_update s p f :
  (∀ d, nTx (f d) = nTx d ∧ nChainTx (f d) = nChainTx d ∧ nSequenceId (f d) = nSequenceId d ∧
        has (nStatus (f d)) BLOCK_HAVE_DATA = has (nStatus d) BLOCK_HAVE_DATA ∧
        has (nStatus (f d)) BLOCK_FAILED_MASK = has (nStatus d) BLOCK_FAILED_MASK ∧
        Z.land (nStatus d) BLOCK_VALID_MASK <= Z.land (nStatus (f d)) BLOCK_VALID_MASK) →
  pruned no_block s (update_idx s p f).
Proof.
  intros Hf.
  assert (∀ x, failed (update_idx s p f) x = failed s x) as Hfail.
  { intros x. apply (idx_update_field (λ d, has (nStatus d) BLOCK_FAILED_MASK)). apply Hf. }
  constructor; auto.
  - constructor; try done; intros x.
    + apply (idx_update_field nTx), Hf.
    + apply (idx_update_field nChainTx), Hf.
    + apply (idx_update_field nSequenceId), Hf.
    + apply (idx_update_field (λ d, has (nStatus d) BLOCK_HAVE_DATA)), Hf.
    + unfold status, update_idx, idx. cbn. destruct (decide (phashBlock p = phashBlock x)) as [E|E].
      * rewrite <- E, lookup_insert_eq. apply Hf.
      * rewrite lookup_insert_ne by done. done.
  - intros x. by rewrite Hfail.
  - intros x _. rewrite Hfail. exists x. split; [apply ancestry_self|by left].
Qed.

Lemma write_undo_pruned genesis s p pos : index_ok s → pruned no_block s (write_undo genesis s p pos).
Proof.
  intros Hi. unfold write_undo. destruct (bool_decide _); [apply pruned_refl|].
  set (null := negb (has _ _) || _). destruct (null || _); [|apply pruned_refl].
  apply pruned_dirty. set (s1 := if null then _ else s).
  assert (pruned no_block s s1) as H1.
  { unfold s1. destruct null; [|apply pruned_refl].
    apply (pruned_trans _ s (update_idx s p (set_undo_pos pos))); [done|by apply pruned_update|].
    apply pruned_update. intros d. cbn. rewrite !has_lor, level_lor by done. split_and!; (done || apply orb_false_r). }
  apply (pruned_trans _ s s1); [done..|]. apply pruned_update. intros d. cbn.
  rewrite !has_RaiseValidity, level_RaiseValidity by (done || set_solver).
  split_and!; try done. case_match; [done|apply Z.le_max_r].
Qed.

(** What no step of the activation changes. *)
Record steps (s s' : ChainState) : Prop := {
  st_index : mapBlockIndex s' = mapBlockIndex s;
  st_sequence : ∀ x, nSequenceId (idx s' x) = nSequenceId (idx s x);
  st_failed : ∀ x, failed s x = true → failed s' x = true;
  st_chain_tx : ∀ x, chain_tx s' x = chain_tx s x;
  st_stored : ∀ x, stored s' x = stored s x;
  st_level : ∀ x, Z.land (status s x) BLOCK_VALID_MASK <= Z.land (status s' x) BLOCK_VALID_MASK;
  st_candidates : ∀ x, x ∈ setBlockIndexCandidates s' → x ∈ setBlockIndexCandidates s
}.

#[export] Instance steps_refl : Reflexive steps.
Proof. constructor; (done || (intros; apply Z.le_refl)). Qed.

#[export] Instance steps_trans : Transitive steps.
Proof.
  intros s1 s2 s3 [A1 A2 A3 A4 A5 A6 A7] [B1 B2 B3 B4 B5 B6 B7]. constructor; auto; [congruence|..]; intros x.
  - by rewrite B2.
  - by rewrite B4.
  - by rewrite B5.
  - by transitivity (Z.land (status s2 x) BLOCK_VALID_MASK).
Qed.

Lemma pruned_steps X s s' : pruned X s s' → steps s s'.
Proof. intros []. destruct pr_data. by constructor. Qed.

Section Progress.
Variable address : list Z → Z.
Hypothesis address_inj : ∀ h h', address h = address h' → h = h'.
Variable genesis : list Z.
Variable env : Environment.
Abbreviation cmp := (CBlockIndexWorkComparator address).

(** A block that was connected once. *)
Definition accepted (p : CBlockIndex) : Prop := ∃ n pos, connect env n p = Connected pos.

(** ConnectBlock does not reject what it accepted, nor suspect the copy. *)
Definition steady : Prop := ∀ n p corrupt, connect env n p = Rejected corrupt → corrupt = false ∧ ¬ accepted p.

(** The blocks up to the tip and the bound were all connected. *)
Definition tried (t b : CBlockIndex) : Prop :=
  ∀ a, a ∈ ancestry t ∨ a ∈ ancestry b → pprev a <> None → accepted a.

Definition newly_failed (s s' : ChainState) : Prop :=
  ∃ x, known s x ∧ failed s x = false ∧ failed s' x = true.

Lemma ConnectTip_spec s n t b p :
  steady → tree_ok address s t b → tried t b → known s p → solid s p → pprev p = Some t →
  ∃ s' r, ConnectTip address genesis env (mkActivation s n) p = Ok (mkActivation s' (S n), r) ∧
    r = connect env n p ∧ steps s s' ∧
    match r with
    | Connected _ => ∃ s0, s' = with_chain s0 (chain_of p) ∧ tree_ok address s0 t b ∧
        ∀ x, known s x → solid s x → solid s0 x
    | Rejected corrupt => corrupt = false ∧ tree_ok address s' t b ∧ (newly_failed s s')
    | SystemError _ => tree_ok address s' t b
    end.
Proof.
  intros Hst Hok Htr Hp Hsp Hpp. pose proof Hok as [Hi Hd Hc]. destruct (co_tip _ _ _ _ Hc) as [Ht Hts].
  assert (∀ pos, tree_ok address (write_undo genesis s p pos) t b ∧ solid (write_undo genesis s p pos) p ∧
            pruned no_block s (write_undo genesis s p pos)) as Hundo.
  { intros pos. pose proof (write_undo_pruned genesis s p pos Hi) as Hpr. split_and!; [|by eapply pruned_solid; eauto|done].
    by apply (pruned_ok address no_block s); auto. }
  unfold ConnectTip. rewrite Hpp. rewrite (Tip_known s t Hi Ht (co_chain _ _ _ _ Hc)). cbn [same_pointer].
  rewrite ptr_eq_refl. cbn [negb].
  destruct (connect env n p) as [pos|corrupt|w] eqn:E.
  - destruct (Hundo pos) as (Hok' & Hsp' & Hpr). set (s0 := write_undo genesis s p pos) in *.
    pose proof Hok' as [Hi' Hd' Hc']. rewrite (UpdateTip_known s0 t p).
    + cbn [rbind]. eexists _, _. split; [done|]. split; [done|].
      pose proof (pruned_steps _ _ _ Hpr) as Hs. split; [by destruct Hs; constructor|].
      exists s0. split_and!; [done..|]. intros x Hx Hsx. eapply pruned_solid; [exact Hpr|done..| |done]. auto.
    + done.
    + apply (co_tip _ _ _ _ Hc').
    + by apply (same_data_known _ _ _ (pr_data _ _ _ Hpr)).
    + apply (co_chain _ _ _ _ Hc').
  - destruct (Hst n p corrupt E) as [-> Hna]. unfold InvalidBlockFound.
    assert ((p ∉ ancestry t) ∧ p ∉ ancestry b) as [Hpt Hpb].
    { split; intros Ha; apply Hna, Htr; auto; congruence. }
    destruct (reject_block address address_inj s t b p BLOCK_FAILED_VALID ltac:(set_solver) Hok Hp Hpt Hpb) as [Hok' Hpr].
    unfold InvalidChainFound. set (s' := note_invalid _ p) in *.
    pose proof (to_chain _ _ _ _ Hok') as Hc'.
    rewrite (Tip_known s' t (to_index _ _ _ _ Hok') (proj1 (co_tip _ _ _ _ Hc')) (co_chain _ _ _ _ Hc')). cbn [rbind].
    eexists _, _. split; [done|]. split; [done|]. split; [by eapply pruned_steps|]. split_and!; [done..|].
    exists p. split_and!; [done|by apply Hsp, ancestry_self|].
    unfold s', note_invalid. set (s1 := erase_candidate _ _ _).
    assert (failed s1 p = true) as Hf.
    { change (failed (or_status s p BLOCK_FAILED_VALID) p = true). rewrite failed_or_status, bool_decide_true by done. apply orb_true_r. }
    by repeat case_match.
  - destruct w as [pos|].
    + destruct (Hundo pos) as (Hok' & _ & Hpr). eexists _, _. split; [done|]. split; [done|].
      split; [by eapply pruned_steps|done].
    + eexists _, _. split; [done|]. split_and!; [done|reflexivity|done].
Qed.

(** Blocks that follow each other, from above [t]. *)
Fixpoint path (t : CBlockIndex) (l : list CBlockIndex) : Prop :=
  match l with
  | [] => True
  | p :: l => pprev p = Some t ∧ path p l
  end.

Definition system_error : Prop := ∃ n p w, connect env n p = SystemError w.

(** What connecting some of the blocks of a path comes to. *)
Definition connected (s : ChainState) (old end_ : CBlockIndex) (r : progress) (s' : ChainState) (t' : CBlockIndex) : Prop :=
  match r with
  | Continue => t' = end_ ∧ ∀ x, known s x → solid s x → solid s' x
  | Stop => work old < work t'
  | FoundInvalid => newly_failed s s'
  | Failure => system_error
  end.

Lemma newly_failed_steps s1 s2 s3 : steps s1 s2 → newly_failed s2 s3 → newly_failed s1 s3.
Proof.
  intros H (x & Hx & H1 & H2). exists x. split_and!; [by apply (known_ext _ _ _ (st_index _ _ H))| |done].
  destruct (failed s1 x) eqn:E; [|done]. by rewrite (st_failed _ _ H x E) in H1.
Qed.

Lemma tried_advance t b p b' :
  tried t b → pprev p = Some t → accepted p → b' = p ∨ b' = b → tried p b'.
Proof.
  intros Htr Hpp Hacc Hb' a Ha Hne.
  assert (a ∈ ancestry p → accepted a) as Hp.
  { rewrite ancestry_unfold, Hpp. intros [->|Hat]%elem_of_cons; [done|]. apply Htr; auto. }
  destruct Ha as [Ha|Ha]; [auto|]. destruct Hb' as [-> | ->]; [auto|]. apply Htr; auto.
Qed.

Lemma note_invalid_spec s t b q :
  tree_ok address s t b →
  InvalidChainFound s q = Ok (note_invalid s q) ∧ tree_ok address (note_invalid s q) t b ∧
  steps s (note_invalid s q) ∧ ∀ x, failed (note_invalid s q) x = failed s x.
Proof.
  intros Hok. pose proof (note_invalid_pruned no_block s q) as Hpr.
  assert (tree_ok address (note_invalid s q) t b) as Hok' by (apply (pruned_ok address no_block s); auto).
  unfold InvalidChainFound. pose proof (to_chain _ _ _ _ Hok') as Hc.
  rewrite (Tip_known _ t (to_index _ _ _ _ Hok') (proj1 (co_tip _ _ _ _ Hc)) (co_chain _ _ _ _ Hc)).
  split_and!; [done|done|by eapply pruned_steps|]. intros x. unfold note_invalid. by repeat case_match.
Qed.

Lemma connect_batch_spec l : ∀ s n t b old back,
  steady → tree_ok address s t b → tried t b → path t l → (∀ p, p ∈ l → known s p ∧ solid s p) →
  known s old → (l <> [] → back <> None) →
  ∃ s' n' r t' b', connect_batch address genesis env (mkActivation s n) l back (Some old)
      = Ok (mkActivation s' n', r) ∧
    tree_ok address s' t' b' ∧ tried t' b' ∧ steps s s' ∧ connected s old (default t (last l)) r s' t'.
Proof.
  induction l as [|p l IH]; intros s n t b old back Hst Hok Htr Hpath Hl Hold Hback; cbn [connect_batch].
  { eexists _, _, _, t, b. split; [done|]. split_and!; [done|done|reflexivity|done]. }
  destruct Hpath as [Hpp Hpath]. destruct (Hl p ltac:(left)) as [Hp Hsp].
  destruct (ConnectTip_spec s n t b p Hst Hok Htr Hp Hsp Hpp) as (s1 & r & -> & Er & Hs1 & Hr). cbn [rbind tree calls].
  destruct r as [pos|corrupt|w].
  - destruct Hr as (s0 & -> & Hok0 & Hsol).
    assert (known s0 p) as Hp0 by by apply (known_ext _ _ _ (st_index _ _ Hs1)).
    destruct (advance_tip address address_inj s0 t b p Hok0 Hpp Hp0 (Hsol p Hp Hsp)) as (c & -> & Hok1 & Hsub). cbn [rbind tree calls].
    set (b1 := if cmp s0 b p then p else b) in *.
    set (s2 := with_candidates (with_chain s0 (chain_of p)) c) in *.
    assert (tried p b1) as Htr1.
    { apply (tried_advance t b); [done|done|by exists n, pos|]. unfold b1. destruct (cmp s0 b p); auto. }
    assert (steps s s2) as Hs2.
    { destruct Hs1 as [E1 E2 E3 E4 E5]. constructor; auto. }
    assert (known s2 old) as Hold2 by by apply (known_ext _ _ _ (st_index _ _ Hs2)).
    pose proof (to_index _ _ _ _ Hok1) as Hi2.
    rewrite (Tip_known s2 p Hi2 (proj1 (co_tip _ _ _ _ (to_chain _ _ _ _ Hok1))) eq_refl).
    destruct (compare_ops_repr _ _ _ _ _ (io_work _ Hi2 p Hp0) (io_work _ Hi2 old Hold2)) as (_ & -> & _).
    destruct (Z.ltb_spec (work old) (work p)).
    + eexists _, _, _, p, b1. split; [done|]. by split_and!.
    + destruct (IH s2 (S n) p b1 old back) as (s' & n' & r & t' & b' & -> & Hok' & Htr' & Hs' & Hr'); try done.
      * intros q Hq. destruct (Hl q ltac:(by right)) as [Hkq Hsq].
        split; [by apply (known_ext _ _ _ (st_index _ _ Hs2))|]. by apply Hsol.
      * by intros _; apply Hback.
      * exists s', n', r, t', b'. split; [done|]. split_and!; [done|done|by transitivity s2|].
        destruct r; cbn in *; [|done|by eapply newly_failed_steps|done].
        destruct Hr' as [-> Hsol']. split; [by destruct (last l) eqn:El; rewrite ?last_cons, ?El|].
        intros x Hx Hsx. apply Hsol'; [by apply (known_ext _ _ _ (st_index _ _ Hs2))|by apply Hsol].
  - destruct Hr as (-> & Hok1 & Hnf). destruct back as [q|]; [|by destruct (Hback ltac:(done))].
    destruct (note_invalid_spec s1 t b q Hok1) as (-> & Hok2 & Hs2 & Hf2). cbn [rbind].
    eexists _, _, _, t, b. split; [done|]. split_and!; [done|done|by transitivity s1|].
    destruct Hnf as (x & Hx & H1 & H2). exists x. by rewrite Hf2.
  - eexists _, _, _, t, b. split; [done|]. split_and!; [done..|]. by exists n, p, w.
Qed.

(** **** The blocks between the fork and the candidate *)

Lemma path_snoc t l a : path t l → pprev a = Some (default t (last l)) → path t (l ++ [a]).
Proof.
  revert t. induction l as [|p l IH]; intros t; cbn; [by auto|].
  intros [Hp Hl] Ha. split; [done|]. apply IH; [done|]. rewrite Ha. f_equal.
  rewrite last_cons. by destruct (last l).
Qed.

Lemma ancestry_between m a t :
  wf_index m → a ∈ ancestry m → t ∈ ancestry m → nHeight t <= nHeight a → t ∈ ancestry a.
Proof.
  intros Hm Ha Ht Hh. destruct (ancestry_wf m a Hm Ha) as [Hwa _]. apply elem_of_ancestry; [done|].
  apply elem_of_ancestry in Ha, Ht; [|done..]. by rewrite <- (ancestor_trans m (nHeight a) a (nHeight t)).
Qed.

Lemma until_height_spec t a :
  wf_index a → t ∈ ancestry a →
  path t (rev (until_height (nHeight t) (ancestry a))) ∧
  default t (last (rev (until_height (nHeight t) (ancestry a)))) = a ∧
  until_height (nHeight t) (ancestry a) ⊆ ancestry a.
Proof.
  intros Ha. revert t. induction a as [a IH _] using CBlockIndex_tree_ind. intros t Ht.
  destruct (ancestry_wf a t Ha Ht) as [Hwt _].
  destruct (Z.eq_dec (nHeight a) (nHeight t)) as [E|E].
  { assert (a = t) as ->.
    { apply elem_of_ancestry in Ht; [|done]. rewrite <- E, ancestor_self in Ht. congruence. }
    rewrite ancestry_unfold. cbn [until_height]. rewrite Z.eqb_refl. cbn. split_and!; [done..|]. set_solver. }
  rewrite ancestry_unfold in Ht |- *. cbn [until_height]. rewrite (proj2 (Z.eqb_neq _ _) E).
  destruct (pprev a) as [r|] eqn:Er; [|apply list_elem_of_singleton in Ht; congruence].
  assert (wf_index r) as Hr by (inversion Ha; congruence).
  apply elem_of_cons in Ht as [->|Ht]; [done|].
  destruct (IH r eq_refl Hr t Ht) as (H1 & H2 & H3). cbn [rev]. split_and!.
  - apply path_snoc; [done|]. by rewrite H2.
  - by rewrite last_snoc.
  - set_solver.
Qed.

Lemma connect_loop_spec fuel : ∀ s n t b m old,
  steady → tree_ok address s t b → tried t b → known s old → known s m → solid s m → t ∈ ancestry m →
  (Z.to_nat (nHeight m - nHeight t) <= fuel)%nat →
  ∃ s' n' r t' b', connect_loop address genesis env fuel (mkActivation s n) m (nHeight t) (Some old)
      = Ok (mkActivation s' n', r) ∧
    tree_ok address s' t' b' ∧ tried t' b' ∧ steps s s' ∧ connected s old m r s' t'.
Proof.
  induction fuel as [|fuel IH]; intros s n t b m old Hst Hok Htr Hold Hm Hsm Htm Hfuel;
    pose proof Hok as [Hi Hd Hc]; pose proof (io_wf _ Hi m Hm) as Wm;
    destruct (ancestry_wf m t Wm Htm) as [Wt [Ht0 Hth]]; cbn [connect_loop];
    destruct (Z.eqb_spec (nHeight t) (nHeight m)) as [E|E]; try lia.
  1-2: assert (t = m) as -> by (apply elem_of_ancestry in Htm; [|done]; rewrite E, ancestor_self in Htm; congruence);
    eexists _, _, _, m, b; split; [done|]; split_and!; [done|done|reflexivity|done].
  set (target := Z.min (nHeight t + 32) (nHeight m)).
  rewrite GetAncestor_spec by done.
  assert ((0 <=? target) && (target <=? nHeight m) = true) as -> by lia.
  destruct (ancestor_exists m target Wm ltac:(lia)) as (a & Ea & Hah & Wa). rewrite Ea. cbn [of_ub rbind blocks_from].
  assert (a ∈ ancestry m) as Ham by (apply elem_of_ancestry; [done|]; by rewrite Hah).
  assert (t ∈ ancestry a) as Hta by (apply (ancestry_between m); [done..|lia]).
  destruct (until_height_spec t a Wa Hta) as (Hpath & Hlast & Hsub).
  set (v := until_height (nHeight t) (ancestry a)) in *.
  destruct (connect_batch_spec (rev v) s n t b old (last v)) as (s1 & n1 & r & t1 & b1 & -> & Hok1 & Htr1 & Hs1 & Hr); try done.
  { intros p Hp. assert (p ∈ ancestry m) as Hpm.
    { apply (ancestry_trans m a Wm Ham), Hsub. by apply list_elem_of_In, in_rev, list_elem_of_In. }
    split; [by apply (known_ancestor s m)|by apply (solid_ancestor s m)]. }
  { intros Hne ->%last_None. done. }
  cbn [rbind]. rewrite Hlast in Hr. destruct r; cbn [connected] in Hr.
  2-4: eexists _, _, _, t1, b1; split; [done|]; split_and!; done.
  destruct Hr as [-> Hsol]. rewrite <- Hah.
  destruct (IH s1 n1 a b1 m old) as (s2 & n2 & r & t2 & b2 & -> & Hok2 & Htr2 & Hs2 & Hr); try done.
  - by apply (known_ext _ _ _ (st_index _ _ Hs1)).
  - by apply (known_ext _ _ _ (st_index _ _ Hs1)).
  - by apply Hsol.
  - lia.
  - eexists _, _, _, t2, b2. split; [done|]. split_and!; [done|done|by transitivity s1|].
    destruct r; cbn in *; [|done|by eapply newly_failed_steps|done].
    destruct Hr as [-> Hsol2]. split; [done|]. intros x Hx Hsx.
    apply Hsol2; [by apply (known_ext _ _ _ (st_index _ _ Hs1))|by apply Hsol].
Qed.

(** **** One step *)

Lemma steps_known s s' x : steps s s' → known s' x ↔ known s x.
Proof. intros H. apply known_ext, H. Qed.

Lemma steps_cmp s s' x y : steps s s' → cmp s' x y = cmp s x y.
Proof. intros H. apply cmp_ext, (st_sequence _ _ H). Qed.

Definition disconnect_error : Prop := ∃ n p, disconnect env n p = false.

Lemma disconnect_loop_spec fuel : ∀ s n t b f,
  tree_ok address s t b → tried t b → f ∈ ancestry t → (length (ancestry t) <= fuel)%nat →
  ∃ s' n' ok t', disconnect_loop env fuel (mkActivation s n) (Some f) = Ok (mkActivation s' n', ok) ∧
    tree_ok address s' t' b ∧ tried t' b ∧ steps s s' ∧ (if ok then t' = f else disconnect_error) ∧
    ∀ x, solid s x → solid s' x.
Proof.
  induction fuel as [|fuel IH]; intros s n t b f Hok Htr Hf Hlen.
  { rewrite ancestry_unfold in Hlen. cbn in Hlen. lia. }
  pose proof Hok as [Hi Hd Hc]. destruct (co_tip _ _ _ _ Hc) as [Ht Hts].
  assert (known s f) as Hkf by by apply (known_ancestor s t).
  pose proof (Tip_known s t Hi Ht (co_chain _ _ _ _ Hc)) as Htip.
  cbn [disconnect_loop tree]. rewrite Htip. cbn [same_pointer].
  destruct (ptr_eq t f) eqn:E.
  { apply (ptr_eq_spec (all_blocks s)) in E as ->; [|by apply all_blocks_one_object|by apply elem_of_all_blocks..].
    eexists _, _, true, f. split; [done|]. split_and!; (done || reflexivity). }
  destruct (pprev t) as [q|] eqn:Eq.
  2: { rewrite ancestry_unfold, Eq in Hf. apply list_elem_of_singleton in Hf as ->. by rewrite ptr_eq_refl in E. }
  assert (f ∈ ancestry q) as Hfq.
  { rewrite ancestry_unfold, Eq in Hf. apply elem_of_cons in Hf as [->|]; [by rewrite ptr_eq_refl in E|done]. }
  unfold DisconnectTip. rewrite Htip, Eq. cbn [calls].
  destruct (disconnect env n t) eqn:Ed.
  - destruct (io_prev _ Hi t q Ht Eq) as [Hq _]. rewrite (UpdateTip_known s t q Hi Ht Hq (co_chain _ _ _ _ Hc)).
    cbn [rbind]. pose proof (lower_tip address address_inj s t b q Hok Eq) as Hok1.
    destruct (IH (with_chain s (chain_of q)) (S n) q b f Hok1) as (s' & n' & ok & t' & -> & H1 & H2 & H3 & H4 & H5); try done.
    + intros a Ha. apply Htr. destruct Ha as [Ha|Ha]; [left|by right]. by apply (ancestry_prev t q Eq).
    + rewrite ancestry_unfold, Eq in Hlen. cbn in Hlen. lia.
    + eexists _, _, ok, t'. split; [done|]. split_and!; [done|done| |done|exact H5].
      transitivity (with_chain s (chain_of q)); [by constructor|done].
  - cbn [rbind]. eexists _, _, false, t. split; [done|]. split_and!; [done|done|reflexivity|by exists n, t|done].
Qed.

Lemma common_ancestor s p q : index_ok s → known s p → known s q → ∃ g, g ∈ ancestry p ∧ g ∈ ancestry q.
Proof.
  intros Hi Hp Hq.
  assert (∀ x, known s x → ∃ g, known s g ∧ g ∈ ancestry x ∧ pprev g = None) as Hroot.
  { induction x as [x IH _] using CBlockIndex_tree_ind. intros Hx. destruct (pprev x) as [r|] eqn:E.
    - destruct (io_prev _ Hi x r Hx E) as [Hr _]. destruct (IH r eq_refl Hr) as (g & ? & Hg & ?).
      exists g. split_and!; [done|by apply (ancestry_prev x r E)|done].
    - exists x. split_and!; [done|apply ancestry_self|done]. }
  destruct (Hroot p Hp) as (g & Hg & Hgp & Hg0), (Hroot q Hq) as (g' & Hg' & Hgq & Hg0').
  exists g. by rewrite (io_root _ Hi g g' Hg Hg' Hg0 Hg0') at 2.
Qed.

Lemma step_spec s n t b m :
  steady → tree_ok address s t b → tried t b → best_candidate address s m → m <> t →
  ∃ s' n' ok t' b', ActivateBestChainStep address genesis env (mkActivation s n) m = Ok (mkActivation s' n', ok) ∧
    tree_ok address s' t' b' ∧ tried t' b' ∧ steps s s' ∧
    (if ok then cmp s t t' = true ∨ newly_failed s s' else system_error ∨ disconnect_error).
Proof.
  intros Hst Hok Htr (Hmc & Hms & Hmax) Hne. pose proof Hok as [Hi Hd Hc].
  destruct (co_tip _ _ _ _ Hc) as [Ht Hts]. destruct (co_bound _ _ _ _ Hc) as (Hb & Hbs & Hbc).
  destruct (co_candidate _ _ _ _ Hc m Hmc) as (Hm & _ & Hmt).
  assert (cmp s t m = true) as Htm.
  { destruct (cmp s t m) eqn:E; [done|]. by destruct Hne; apply (cmp_total address address_inj s). }
  unfold ActivateBestChainStep. cbn [tree]. rewrite (Tip_known s t Hi Ht (co_chain _ _ _ _ Hc)), (co_chain _ _ _ _ Hc).
  destruct (FindFork_spec (all_blocks s) t m) as (r & -> & Hr);
    [by apply all_blocks_one_object|by apply (io_wf _ Hi)|by apply ancestry_known|by apply (io_wf _ Hi)|by apply ancestry_known|].
  cbn [of_ub rbind]. destruct r as [f|].
  2: { destruct (common_ancestor s m t Hi Hm Ht) as (g & Hgm & Hgt). by destruct (Hr g Hgm). }
  destruct Hr as (Hfm & Hft & _).
  destruct (disconnect_loop_spec (length (vChain (chain_of t))) s n t b f Hok Htr Hft)
    as (s1 & n1 & ok & t1 & -> & Hok1 & Htr1 & Hs1 & Hres & Hsol); [cbn; by rewrite length_map, length_rev|].
  cbn [rbind]. destruct ok; cbn [negb].
  2: { eexists _, _, false, t1, b. split; [done|]. split_and!; [done..|by right]. }
  subst t1.
  destruct (connect_loop_spec (Z.to_nat (nHeight m - nHeight f)) s1 n1 f b m t) as
    (s2 & n2 & r & t2 & b2 & -> & Hok2 & Htr2 & Hs2 & Hr); try done.
  { by apply (steps_known _ _ _ Hs1). }
  { by apply (steps_known _ _ _ Hs1). }
  { by apply Hsol. }
  cbn [rbind]. assert (steps s s2) as Hs by by transitivity s1.
  assert (known s t2) as Ht2.
  { apply (steps_known _ _ _ Hs). apply (co_tip _ _ _ _ (to_chain _ _ _ _ Hok2)). }
  exists s2, n2, (match r with Failure => false | _ => true end), t2, b2.
  split; [done|]. split_and!; [done..|]. destruct r; cbn in Hr.
  - destruct Hr as [-> _]. by left.
  - left. by apply cmp_work.
  - right. exact (newly_failed_steps _ _ _ Hs1 Hr).
  - by left.
Qed.

(** **** Termination: either a block fails, or the tip gets better *)

Definition count (f : CBlockIndex → bool) (s : ChainState) : nat := length (filter (λ x, f x) (all_blocks s)).
Definition size_of (s : ChainState) : nat := length (all_blocks s).

Definition measure (s : ChainState) (t : CBlockIndex) : nat :=
  (count (λ x, negb (failed s x)) s * S (size_of s) + count (cmp s t) s)%nat.

Lemma count_le f g s :
  index_ok s → (∀ x, known s x → f x = true → g x = true) → (count f s <= count g s)%nat.
Proof. intros Hi H. apply length_filter_le. intros x Hx. apply H. by apply elem_of_all_blocks. Qed.

Lemma count_lt f g s x :
  index_ok s → (∀ y, known s y → f y = true → g y = true) → known s x → f x = false → g x = true →
  (count f s < count g s)%nat.
Proof.
  intros Hi H Hx. apply (length_filter_lt f g (all_blocks s) x); [|by apply elem_of_all_blocks].
  intros y Hy. apply H. by apply elem_of_all_blocks.
Qed.

Lemma steps_count f s s' : steps s s' → count f s' = count f s ∧ size_of s' = size_of s.
Proof. intros H. unfold count, size_of, all_blocks. by rewrite (st_index _ _ H). Qed.

Lemma measure_decreases s s' t t' :
  index_ok s → steps s s' → known s t → known s t' → cmp s t t' = true ∨ newly_failed s s' →
  (measure s' t' < measure s t)%nat.
Proof.
  intros Hi Hs Ht Ht' Hcase. unfold measure.
  destruct (steps_count (λ x, negb (failed s' x)) s s' Hs) as [-> ->].
  destruct (steps_count (cmp s' t') s s' Hs) as [-> _].
  assert (count (cmp s' t') s = count (cmp s t') s) as ->.
  { apply Nat.le_antisymm; apply count_le; try done; intros x Hx; by rewrite (steps_cmp s s' t' x Hs). }
  assert (count (λ x, negb (failed s' x)) s <= count (λ x, negb (failed s x)) s)%nat as Hf.
  { apply count_le; [done|]. intros x Hx. rewrite !negb_true_iff. intros H.
    destruct (failed s x) eqn:E; [|done]. by rewrite (st_failed _ _ Hs x E) in H. }
  assert (count (cmp s t') s <= size_of s)%nat as Hn by apply length_filter.
  destruct Hcase as [Hlt|(x & Hx & H1 & H2)].
  - assert (count (cmp s t') s < count (cmp s t) s)%nat; [|nia].
    apply (count_lt _ _ s t'); [done| |done|apply cmp_irrefl|done].
    intros y Hy Hty. by apply (cmp_trans address s t t' y).
  - assert (count (λ x, negb (failed s' x)) s < count (λ x, negb (failed s x)) s)%nat; [|nia].
    apply (count_lt _ _ s x); [done| |done|by rewrite H2|by rewrite H1].
    intros y Hy. rewrite !negb_true_iff. intros H.
    destruct (failed s y) eqn:E; [|done]. by rewrite (st_failed _ _ Hs y E) in H.
Qed.

(** **** The whole loop *)

Definition env_error : Prop := system_error ∨ disconnect_error ∨ ∃ n, flush_periodic env n = false.

(** The tip is the best block that can be one. *)
Definition best_tip (s : ChainState) (t : CBlockIndex) : Prop :=
  tree_ok address s t t ∧ ∀ x, known s x → solid s x → cmp s t x = false.

Lemma best_tip_intro s1 s t b :
  tree_ok address s t b → steps s1 s → best_candidate address s1 t → best_tip s t.
Proof.
  intros Hok Hs (Hmc & _ & Hmax). pose proof Hok as [Hi Hd Hc].
  destruct (co_tip _ _ _ _ Hc) as [Ht Hts]. destruct (co_bound _ _ _ _ Hc) as (Hb & _ & Hbc).
  assert (∀ c, c ∈ setBlockIndexCandidates s → cmp s t c = false) as Hmax'.
  { intros c Hin. rewrite (steps_cmp s1 s t c Hs). by apply Hmax, (st_candidates _ _ Hs). }
  assert (b = t) as ->.
  { apply (cmp_total address address_inj s); [done..|by apply (co_candidate _ _ _ _ Hc)|by apply Hmax']. }
  split; [done|]. intros x Hx Hsx. destruct (cmp s t x) eqn:E; [|done].
  rewrite <- E. apply Hmax', (co_complete _ _ _ _ Hc); [done|apply Hsx|by apply Hsx, ancestry_self|].
  by apply cmp_flip.
Qed.

Lemma ActivateBestChain_spec fuel : ∀ s n t b,
  steady → tree_ok address s t b → tried t b → (measure s t < fuel)%nat →
  ∃ s' n' ok t' b', ActivateBestChain address genesis env fuel (mkActivation s n) = Ok (mkActivation s' n', ok) ∧
    tree_ok address s' t' b' ∧ tried t' b' ∧ steps s s' ∧ (if ok then best_tip s' t' else env_error).
Proof.
  induction fuel as [|fuel IH]; intros s n t b Hst Hok Htr Hfuel; [lia|].
  cbn [ActivateBestChain tree calls]. unfold FindMostWorkChain.
  destruct (FindMostWorkChain_loop_spec address address_inj (S (length (setBlockIndexCandidates s))) s t b Hok)
    as (s1 & m & -> & Hpr & Hbest); [lia|]. cbn [rbind calls].
  assert (tree_ok address s1 t b) as Hok1 by (apply (pruned_ok address no_block s); auto).
  pose proof (pruned_steps _ _ _ Hpr) as Hs1. pose proof Hok1 as [Hi1 Hd1 Hc1].
  destruct (co_tip _ _ _ _ Hc1) as [Ht1 _].
  assert (known s1 m) as Hm by apply (co_candidate _ _ _ _ Hc1 m (proj1 Hbest)).
  cbn [tree]. rewrite (Tip_known s1 t Hi1 Ht1 (co_chain _ _ _ _ Hc1)). cbn [same_pointer].
  assert (∀ s' a, mapBlockIndex s' = mapBlockIndex s1 → known s' a → ptr_eq m a = true → a = m) as Hptr.
  { intros s' a Em Ha E. apply (known_ext s1 s' a Em) in Ha.
    symmetry. apply (ptr_eq_spec (all_blocks s1)) in E; [done|by apply all_blocks_one_object|by apply elem_of_all_blocks..]. }
  destruct (ptr_eq m t) eqn:Emt.
  { apply (Hptr s1) in Emt as ->; [|done..]. eexists _, _, true, m, b. split; [done|].
    split_and!; [done..|]. by apply (best_tip_intro s1 s1 m b). }
  destruct (step_spec s1 n t b m Hst Hok1 Htr Hbest) as (s2 & n2 & ok & t2 & b2 & -> & Hok2 & Htr2 & Hs2 & Hr).
  { intros ->. by rewrite ptr_eq_refl in Emt. }
  cbn [rbind]. destruct ok; cbn [negb].
  2: { eexists _, _, false, t2, b2. split; [done|]. split_and!; [done|done|by transitivity s1|]. unfold env_error. tauto. }
  pose proof (to_chain _ _ _ _ Hok2) as Hc2. destruct (co_tip _ _ _ _ Hc2) as [Ht2 _].
  cbn [tree calls]. rewrite (Tip_known s2 t2 (to_index _ _ _ _ Hok2) Ht2 (co_chain _ _ _ _ Hc2)). cbn [same_pointer].
  destruct (ptr_eq m t2) eqn:Em2.
  - apply (Hptr s2) in Em2 as ->; [|by apply (st_index _ _ Hs2)|done].
    eexists _, _, _, m, b2. split; [done|]. split_and!; [done|done|by transitivity s1|].
    destruct (flush_periodic env n2) eqn:Ef; [by apply (best_tip_intro s1 s2 m b2)|]. right. right. by exists n2.
  - destruct (IH s2 n2 t2 b2) as (s3 & n3 & ok & t3 & b3 & -> & H1 & H2 & H3 & H4); try done.
    + assert (known s1 t2) as Ht12 by by apply (steps_known _ _ _ Hs2).
      pose proof (measure_decreases s1 s2 t t2 Hi1 Hs2 Ht1 Ht12 Hr).
      assert (measure s1 t <= measure s t)%nat; [|lia].
      unfold measure. destruct (steps_count (λ x, negb (failed s1 x)) s s1 Hs1) as [-> ->].
      destruct (steps_count (cmp s1 t) s s1 Hs1) as [-> _].
      pose proof (to_index _ _ _ _ Hok) as Hi.
      assert (count (cmp s1 t) s <= count (cmp s t) s)%nat.
      { apply count_le; [done|]. intros x Hx. by rewrite (steps_cmp s s1 t x Hs1). }
      assert (count (λ x, negb (failed s1 x)) s <= count (λ x, negb (failed s x)) s)%nat; [|nia].
      apply count_le; [done|]. intros x Hx. rewrite !negb_true_iff. intros Hf.
      destruct (failed s x) eqn:E; [|done]. by rewrite (st_failed _ _ Hs1 x E) in Hf.
    + eexists _, _, ok, t3, b3. split; [done|]. split_and!; [done|done| |done].
      transitivity s2; [|done]. by transitivity s1.
Qed.

Lemma measure_bound s t : (measure s t < S (size_of s) * S (size_of s))%nat.
Proof.
  unfold measure. pose proof (length_filter (λ x, negb (failed s x)) (all_blocks s)) as H1.
  pose proof (length_filter (λ x, cmp s t x) (all_blocks s)) as H2. unfold count, size_of in *.
  pose proof (Nat.mul_le_mono_r _ _ (S (length (all_blocks s))) H1). lia.
Qed.
End Progress.

(** C6: provided ConnectBlock is steady - it does not reject a block that it
    accepted before, and never suspects the stored copy of a rejected block to be
    corrupted - ActivateBestChain ends, after at most (n+1)^2 rounds for n known
    blocks. Whether it returns true or false, the invariant of the block tree
    holds for the tip it leaves, no block, no data and no failure is lost. When it
    returns true the tip is a best one: no known block whose data is stored up to
    the genesis block, and that has no failed block below it, compares as better
    than the tip. It returns false only if some ConnectBlock met a system error,
    some DisconnectBlock failed, or the coins could not be written. Without the
    proviso on corrupted copies it need not end: corrupted_block_livelock. *)
Theorem activation_reaches_best_chain address genesis env fuel s n t b :
  (∀ h h', address h = address h' → h = h') → steady env → tree_ok address s t b → tried env t b →
  (S (size_of s) * S (size_of s) <= fuel)%nat →
  ∃ s' n' ok t' b', ActivateBestChain address genesis env fuel (mkActivation s n) = Ok (mkActivation s' n', ok) ∧
    tree_ok address s' t' b' ∧ Tip (chainActive s') false = Some t' ∧
    mapBlockIndex s' = mapBlockIndex s ∧ (∀ x, stored s' x = stored s x) ∧
    (∀ x, failed s x = true → failed s' x = true) ∧
    (if ok then
       b' = t' ∧ ∀ x, known s' x → solid s' x → CBlockIndexWorkComparator address s' t' x = false
     else env_error env).
Proof.
  intros Hinj Hst Hok Htr Hfuel.
  destruct (ActivateBestChain_spec address Hinj genesis env fuel s n t b Hst Hok Htr)
    as (s' & n' & ok & t' & b' & E & Hok' & _ & Hs & H).
  { pose proof (measure_bound address s t). lia. }
  assert (∀ b', tree_ok address s' t' b' → Tip (chainActive s') false = Some t') as Htip.
  { intros b0 H0. pose proof (to_chain _ _ _ _ H0) as Hc.
    apply (Tip_known s'); [apply H0|apply (co_tip _ _ _ _ Hc)|apply Hc]. }
  exists s', n', ok, t'. destruct ok.
  - destruct H as [Ht Hbest]. exists t'. split_and!; [exact E|done|by apply (Htip t')|apply Hs|apply Hs|apply Hs|done|done].
  - exists b'. split_and!; [exact E|done|by apply (Htip b')|apply Hs|apply Hs|apply Hs|done].
Qed.

(** ** Concrete runs, on the tree of two blocks over the genesis block *)

Definition ex_env : Environment := mkEnvironment (λ _ _, Connected 40) (λ _ _, true) (λ _, true).

(** Everything is accepted except the second block. *)
Definition ex_picky : Environment :=
  mkEnvironment (λ _ p, if nHeight p =? 2 then Rejected false else Connected 40) (λ _ _, true) (λ _, true).

Lemma ex_picky_steady : steady ex_picky.
Proof.
  intros n p corrupt. cbn. destruct (nHeight p =? 2) eqn:E; [|done]. intros [= <-]. split; [done|].
  intros (n' & pos & H). cbn in H. by rewrite E in H.
Qed.

Lemma ex_tried env : tried env ex_g ex_g.
Proof.
  assert (ancestry ex_g = [ex_g]) as E by reflexivity.
  intros a [H|H]; rewrite E in H; apply list_elem_of_singleton in H as ->; done.
Qed.

Lemma activation_reaches_best_chain_witness :
  (∃ s' n' ok, ActivateBestChain ex_address (phashBlock ex_g) ex_picky 16 (mkActivation ex_tree4 0)
                 = Ok (mkActivation s' n', ok) ∧ ok = true) ∧
  match ActivateBestChain ex_address (phashBlock ex_g) ex_picky 16 (mkActivation ex_tree4 0) with
  | Ok (mkActivation s' n', ok) =>
      ok = true ∧ Tip (chainActive s') false = Some ex_a ∧ failed s' ex_p = true ∧ n' = 2%nat
  | Throw _ => False
  end.
Proof.
  split; [|vm_compute; split_and!; reflexivity].
  destruct (activation_reaches_best_chain ex_address (phashBlock ex_g) ex_picky 16 ex_tree4 0 ex_g ex_g
              ex_address_inj ex_picky_steady ex_tree4_ok (ex_tried ex_picky)) as (s' & n' & ok & t' & b' & E & _ & _ & _ & _ & _ & H).
  { apply Nat.leb_le. by vm_compute. }
  exists s', n', ok. split; [exact E|]. destruct ok; [done|]. exfalso. destruct H as [H|[H|H]].
  - destruct H as (m & p & w & H). cbn in H. by destruct (nHeight p =? 2).
  - by destruct H as (m & p & H).
  - by destruct H as (m & H).
Defined.

(** With every block accepted, the whole chain is connected. *)
Example ex_whole_chain :
  match ActivateBestChain ex_address (phashBlock ex_g) ex_env 16 (mkActivation ex_tree4 0) with
  | Ok (mkActivation s' _, ok) => ok = true ∧ Tip (chainActive s') false = Some ex_p ∧ Height (chainActive s') = 2
  | Throw _ => False
  end.
Proof. vm_compute. split_and!; reflexivity. Qed.

(** A block ConnectBlock rejects with the corruption flag is not marked, stays
    the best candidate, and is tried again: no number of rounds ends the loop. *)
Definition ex_corrupt : Environment := mkEnvironment (λ _ _, Rejected true) (λ _ _, true) (λ _, true).

Lemma corrupted_round : ∀ n,
  FindMostWorkChain ex_address ex_tree4 = Ok (ex_tree4, Some ex_p) ∧
  same_pointer (Some ex_p) (Tip (chainActive ex_tree4) false) = false ∧
  ActivateBestChainStep ex_address (phashBlock ex_g) ex_corrupt (mkActivation ex_tree4 n) ex_p
    = Ok (mkActivation ex_tree4 (S n), true).
Proof. intros n. vm_compute. split_and!; reflexivity. Qed.

Lemma corrupted_block_livelock : ∀ fuel n,
  ActivateBestChain ex_address (phashBlock ex_g) ex_corrupt fuel (mkActivation ex_tree4 n) = Throw OutOfFuel.
Proof.
  induction fuel as [|fuel IH]; intros n; [reflexivity|].
  destruct (corrupted_round n) as (E1 & E2 & E3).
  cbn [ActivateBestChain tree calls]. rewrite E1. cbn [rbind tree calls]. rewrite E2, E3. cbn [rbind negb tree calls].
  rewrite E2. apply IH.
Qed.
