(* ===== verification/Digest.v ===== *)
(** * The streaming interface of crypto/sha1, sha256, sha512 and ripemd160

    The four classes share one [Write] and one [Finalize], which differ in the
    block size, the compression function and the form of the length field. Their
    common text is modelled once, over these; Hashes.v instantiates it. The
    theorem of this file is that any cutting of a message into pieces hashes to
    the Merkle-Damgard digest of the message. *)

From S2P Require Import Prelude.

(** [s], [buf] and [bytes]. *)
Record hasher := mkHasher { hs : list Z; hbuf : list Z; hbytes : Z }.

(** [memcpy(buf + off, data, len)] within the buffer. *)
Definition memcpy (buf : list Z) (off : nat) (data : list Z) : list Z :=
  take off buf ++ data ++ drop (off + length data) buf.

Section digest.
Context (B : nat) (Transform : list Z → list Z → list Z).

(** [while (end >= data + B)]. *)
Fixpoint Write_chunks (fuel : nat) (h : hasher) (data : list Z) : hasher * list Z :=
  match fuel with
  | O => (h, data)
  | S fuel =>
      if (B <=? length data)%nat
      then Write_chunks fuel
             (mkHasher (Transform (hs h) (take B data)) (hbuf h) (u64 (hbytes h + Z.of_nat B)))
             (drop B data)
      else (h, data)
  end.

Definition Write (h : hasher) (data : list Z) : hasher :=
  let bufsize := Z.to_nat (hbytes h mod Z.of_nat B) in
  let '(h, bufsize, data) :=
    (if negb (bufsize =? 0)%nat && (B <=? bufsize + length data)%nat
     then let n := (B - bufsize)%nat in
          let buf := memcpy (hbuf h) bufsize (take n data) in
          (mkHasher (Transform (hs h) buf) buf (u64 (hbytes h + Z.of_nat n)), O, drop n data)
     else (h, bufsize, data)) in
  let '(h, data) := Write_chunks (length data) h data in
  if (0 <? length data)%nat
  then mkHasher (hs h) (memcpy (hbuf h) bufsize data) (u64 (hbytes h + Z.of_nat (length data)))
  else h.

(** The initial state, the length field of [bytes << 3], the offset of the
    padding rule and the output of the words. *)
Context (init : list Z) (sizedesc : Z → list Z) (padoff : Z) (output : list Z → list Z).

Definition pad : list Z := 128 :: replicate (B - 1) 0.

Definition new_hasher (buf : list Z) : hasher := mkHasher init buf 0.

Definition Reset (h : hasher) : hasher := mkHasher init (hbuf h) 0.

(** The object after the padding of Finalize, and the hash it writes. *)
Definition finalized (h : hasher) : hasher :=
  let desc := sizedesc (u64 (Z.shiftl (hbytes h) 3)) in
  let h := Write h (take (Z.to_nat (1 + (padoff - hbytes h mod Z.of_nat B) mod Z.of_nat B)) pad) in
  Write h desc.

Definition Finalize (h : hasher) : list Z := output (hs (finalized h)).

(** ** The digest of a whole message *)

(** [n] blocks. *)
Fixpoint compress (n : nat) (s m : list Z) : list Z :=
  match n with
  | O => s
  | S n => compress n (Transform s (take B m)) (drop B m)
  end.

(** The zeros that bring the padded message to a whole number of blocks. *)
Definition zeros (len : nat) : nat :=
  Z.to_nat ((- Z.of_nat (len + 1 + length (sizedesc 0))) mod Z.of_nat B).

Definition padded (m : list Z) : list Z :=
  m ++ [128] ++ replicate (zeros (length m)) 0 ++ sizedesc (8 * Z.of_nat (length m)).

Definition digest (m : list Z) : list Z :=
  output (compress (length (padded m) / B) init (padded m)).

(** ** Correctness *)

Context (HB : (1 < B)%nat).

Lemma compress_add a b s m : compress (a + b) s m = compress b (compress a s m) (drop (a * B) m).
Proof.
  revert s m. induction a as [|a IH]; intros s m; cbn [Nat.add compress Nat.mul]; [done|].
  by rewrite IH, drop_drop.
Qed.

Lemma compress_app n s m x : (n * B <= length m)%nat → compress n s (m ++ x) = compress n s m.
Proof.
  revert s m. induction n as [|n IH]; intros s m Hn; cbn [compress]; [done|]. cbn in Hn.
  rewrite take_app_le, drop_app_le by lia. apply IH. rewrite length_drop. lia.
Qed.

(** [h] has read [m]. *)
Record reads (h : hasher) (m : list Z) : Prop := {
  reads_buf : length (hbuf h) = B;
  reads_bytes : hbytes h = Z.of_nat (length m);
  reads_state : hs h = compress (length m / B) init m;
  reads_tail : take (length m mod B) (hbuf h) = drop (length m / B * B) m
}.

Lemma divmod_full (m : list Z) n : length m = (n * B)%nat → (length m / B = n)%nat ∧ (length m mod B = 0)%nat.
Proof. intros ->. by rewrite Nat.div_mul, Nat.Div0.mod_mul by lia. Qed.

(** Whole blocks on a block boundary. *)
Lemma Write_chunks_spec fuel h m data :
  reads h m → (length m mod B = 0)%nat → (length data <= fuel)%nat →
  Z.of_nat (length m) + Z.of_nat (length data) < 2 ^ 64 →
  let '(h', rest) := Write_chunks fuel h data in
  ∃ d, data = d ++ rest ∧ reads h' (m ++ d) ∧ (length (m ++ d) mod B = 0)%nat ∧ (length rest < B)%nat.
Proof.
  revert h m data. induction fuel as [|fuel IH]; intros h m data Hr Hm Hf Hlt; cbn [Write_chunks].
  { exists []. destruct data; [|cbn in Hf; lia]. rewrite !app_nil_r. split_and!; (done || cbn; lia). }
  destruct (Nat.leb_spec B (length data)).
  2: { exists []. rewrite !app_nil_r. split_and!; (done || lia). }
  pose proof (Nat.div_mod (length m) B ltac:(lia)) as Hdm.
  set (h1 := mkHasher _ _ _). assert (reads h1 (m ++ take B data)) as Hr1.
  { destruct Hr as [Hb Hy Hs Ht].
    destruct (divmod_full (m ++ take B data) (length m / B + 1)) as [Hd0 Hm0]; [rewrite length_app, length_take; lia|].
    split; unfold h1; cbn [hbuf hbytes hs].
    - done.
    - rewrite Hy, length_app, length_take, wrap_small by (unfold in_uw; lia). lia.
    - rewrite Hd0, compress_add, compress_app by lia. rewrite Hs. cbn [compress].
      rewrite drop_app_ge by lia. replace (length m / B * B - length m)%nat with 0%nat by lia.
      rewrite drop_0, take_idemp. done.
    - rewrite Hd0, Hm0, take_0. rewrite drop_ge; [done|]. rewrite length_app, length_take. lia. }
  destruct (divmod_full (m ++ take B data) (length m / B + 1)) as [_ Hm1]; [rewrite length_app, length_take; lia|].
  specialize (IH h1 (m ++ take B data) (drop B data) Hr1 Hm1 ltac:(rewrite length_drop; lia)
    ltac:(rewrite length_app, length_take, length_drop; lia)).
  destruct (Write_chunks fuel h1 (drop B data)) as [h' rest].
  destruct IH as (d & Hd & Hr' & Hmod & Hrest). exists (take B data ++ d).
  rewrite <- app_assoc, <- Hd, take_drop. rewrite app_assoc. done.
Qed.

Lemma length_memcpy buf off d : (off + length d <= length buf)%nat → length (memcpy buf off d) = length buf.
Proof. intros H. unfold memcpy. rewrite !length_app, length_take, length_drop. lia. Qed.

Lemma take_memcpy buf off d :
  (off + length d <= length buf)%nat → take (off + length d) (memcpy buf off d) = take off buf ++ d.
Proof.
  intros H. unfold memcpy. rewrite app_assoc. apply take_app_length'. rewrite length_app, length_take. lia.
Qed.

(** The last, partial block. *)
Lemma Write_rest_spec h m data :
  reads h m → (length m mod B + length data < B)%nat →
  Z.of_nat (length m) + Z.of_nat (length data) < 2 ^ 64 →
  reads (mkHasher (hs h) (memcpy (hbuf h) (length m mod B) data) (u64 (hbytes h + Z.of_nat (length data))))
    (m ++ data).
Proof.
  intros [Hb Hy Hs Ht] Hlt H64.
  pose proof (Nat.div_mod (length m) B ltac:(lia)) as Hdm.
  assert (length (m ++ data) / B = length m / B ∧
          length (m ++ data) mod B = length m mod B + length data)%nat as [Hd Hm].
  { rewrite length_app. split; symmetry.
    - apply (Nat.div_unique _ _ _ (length m mod B + length data)); lia.
    - apply (Nat.mod_unique _ _ (length m / B)); lia. }
  split; cbn [hbuf hbytes hs].
  - rewrite length_memcpy; lia.
  - rewrite Hy, length_app, wrap_small by (unfold in_uw; lia). lia.
  - rewrite Hd, compress_app by lia. done.
  - rewrite Hd, Hm, take_memcpy, Ht by lia. rewrite drop_app_le by lia. done.
Qed.

Lemma Write_spec h m data :
  reads h m → Z.of_nat (length m) + Z.of_nat (length data) < 2 ^ 64 → reads (Write h data) (m ++ data).
Proof.
  intros Hr H64. unfold Write. pose proof (Nat.div_mod (length m) B ltac:(lia)) as Hdm.
  pose proof (Nat.mod_upper_bound (length m) B ltac:(lia)) as Hub.
  assert (Z.to_nat (hbytes h mod Z.of_nat B) = length m mod B)%nat as ->.
  { rewrite (reads_bytes h m Hr), <- Nat2Z.inj_mod, Nat2Z.id. done. }
  set (r := (length m mod B)%nat) in *.
  destruct (negb (r =? 0)%nat && (B <=? r + length data)%nat) eqn:E.
  - apply andb_true_iff in E as [E1 E2]. apply negb_true_iff, Nat.eqb_neq in E1. apply Nat.leb_le in E2.
    set (n := (B - r)%nat). assert (length (take n data) = n) as Hn by (rewrite length_take; lia).
    set (h1 := mkHasher _ _ _). assert (reads h1 (m ++ take n data)) as Hr1.
    { destruct Hr as [Hb Hy Hs Ht]. fold r in Ht.
      destruct (divmod_full (m ++ take n data) (length m / B + 1)) as [Hd0 Hm0]; [rewrite length_app; lia|].
      assert (memcpy (hbuf h) r (take n data) = drop (length m / B * B) m ++ take n data) as Hbuf.
      { pose proof (take_memcpy (hbuf h) r (take n data) ltac:(lia)) as Htk.
        rewrite take_ge in Htk by (rewrite length_memcpy; lia). by rewrite Htk, Ht. }
      split; unfold h1; cbn [hbuf hbytes hs].
      - rewrite length_memcpy; lia.
      - rewrite Hy, length_app, wrap_small by (unfold in_uw; lia). lia.
      - rewrite Hd0, compress_add, compress_app by lia. rewrite Hs, Hbuf. cbn [compress].
        rewrite drop_app_le by lia. f_equal. symmetry. apply take_ge. rewrite length_app, length_drop. lia.
      - rewrite Hd0, Hm0, take_0. rewrite drop_ge; [done|]. rewrite length_app. lia. }
    destruct (divmod_full (m ++ take n data) (length m / B + 1)) as [_ Hm1]; [rewrite length_app; lia|].
    pose proof (Write_chunks_spec (length (drop n data)) h1 _ (drop n data) Hr1 Hm1 ltac:(lia)
      ltac:(rewrite length_app, length_drop, Hn; lia)) as Hw.
    destruct (Write_chunks _ h1 _) as [h2 rest]. destruct Hw as (d & Hd & Hr2 & Hm2 & Hlr).
    assert (m ++ data = ((m ++ take n data) ++ d) ++ rest) as ->.
    { rewrite <- !app_assoc, <- Hd. by rewrite take_drop. }
    destruct (Nat.ltb_spec 0 (length rest)).
    + rewrite <- Hm2. apply Write_rest_spec; [done|lia|].
      assert (length data = n + length d + length rest)%nat.
      { rewrite <- (take_drop n data), Hd, !length_app. lia. }
      rewrite !length_app. lia.
    + destruct rest; [|cbn in *; lia]. by rewrite app_nil_r.
  - destruct (Nat.eqb_spec r 0) as [E0|E0].
    + rewrite E0 in *. pose proof (Write_chunks_spec (length data) h m data Hr E0 ltac:(lia) H64) as Hw.
      destruct (Write_chunks _ h data) as [h2 rest]. destruct Hw as (d & -> & Hr2 & Hm2 & Hlr).
      rewrite app_assoc. rewrite length_app in H64. destruct (Nat.ltb_spec 0 (length rest)).
      * rewrite <- Hm2. apply Write_rest_spec; [done|lia|]. rewrite !length_app. lia.
      * destruct rest; [|cbn in *; lia]. by rewrite app_nil_r.
    + cbn [negb andb] in E. apply Nat.leb_gt in E.
      assert (Write_chunks (length data) h data = (h, data)) as ->.
      { destruct (length data) eqn:El; [done|]. cbn [Write_chunks].
        destruct (Nat.leb_spec B (length data)); [lia|done]. }
      destruct (Nat.ltb_spec 0 (length data)).
      * apply Write_rest_spec; [done|lia|done].
      * destruct data; [|cbn in *; lia]. by rewrite app_nil_r.
Qed.

Lemma new_hasher_reads buf : length buf = B → reads (new_hasher buf) [].
Proof. intros Hb. split; cbn; rewrite ?Nat.Div0.div_0_l, ?Nat.Div0.mod_0_l; done. Qed.

Lemma writes_spec buf ds :
  length buf = B → Z.of_nat (length (concat ds)) < 2 ^ 64 →
  reads (foldl Write (new_hasher buf) ds) (concat ds).
Proof.
  intros Hb. induction ds as [|d ds IH] using rev_ind; intros Hl; [by apply new_hasher_reads|].
  rewrite foldl_app, concat_app in *. cbn [foldl concat] in *. rewrite app_nil_r, length_app in *.
  apply Write_spec; [apply IH|]; lia.
Qed.

(** The padding rule of the code is the padding of the digest. *)
Context (Hoff : (padoff + 1 + Z.of_nat (length (sizedesc 0))) mod Z.of_nat B = 0)
  (Hdesc : ∀ z, length (sizedesc z) = length (sizedesc 0)).

Lemma pad_bytes_spec len :
  take (Z.to_nat (1 + (padoff - Z.of_nat len mod Z.of_nat B) mod Z.of_nat B)) pad
  = [128] ++ replicate (zeros len) 0.
Proof.
  assert ((padoff - Z.of_nat len mod Z.of_nat B) mod Z.of_nat B = Z.of_nat (zeros len)) as ->.
  { unfold zeros. rewrite Z2Nat.id by (apply Z.mod_pos_bound; lia).
    rewrite Zminus_mod_idemp_r. rewrite !Nat2Z.inj_add.
    replace (- (Z.of_nat len + Z.of_nat 1 + Z.of_nat (length (sizedesc 0))))
      with (padoff - Z.of_nat len - (padoff + 1 + Z.of_nat (length (sizedesc 0)))) by lia.
    rewrite (Zminus_mod (padoff - Z.of_nat len)), Hoff, Z.sub_0_r, Zmod_mod. done. }
  rewrite Z2Nat.inj_add, Nat2Z.id by lia. change (Z.to_nat 1) with 1%nat. cbn [Nat.add take pad app].
  unfold pad. cbn [take]. f_equal. rewrite take_replicate. f_equal.
  assert (zeros len < B)%nat; [|lia]. unfold zeros.
  pose proof (Z.mod_pos_bound (- Z.of_nat (len + 1 + length (sizedesc 0))) (Z.of_nat B) ltac:(lia)). lia.
Qed.

Lemma length_padded m : (length (padded m) mod B = 0)%nat ∧ (length (padded m) <= length m + B + 1 + length (sizedesc 0))%nat.
Proof.
  unfold padded. rewrite !length_app, length_replicate, Hdesc. cbn [length]. unfold zeros.
  set (k := (length m + 1 + length (sizedesc 0))%nat).
  pose proof (Z.mod_pos_bound (- Z.of_nat k) (Z.of_nat B) ltac:(lia)) as Hb. split; [|lia].
  replace (length m + (1 + (Z.to_nat ((- Z.of_nat k) mod Z.of_nat B) + length (sizedesc 0))))%nat
    with (k + Z.to_nat ((- Z.of_nat k) mod Z.of_nat B))%nat by lia.
  apply Nat2Z.inj. rewrite Nat2Z.inj_mod, Nat2Z.inj_add, Z2Nat.id by lia.
  rewrite Zplus_mod_idemp_r, Z.add_opp_diag_r. apply Z.mod_0_l. lia.
Qed.

Lemma finalized_reads h m :
  reads h m → 8 * Z.of_nat (length m) < 2 ^ 64 →
  Z.of_nat (length m + B + 1 + length (sizedesc 0)) < 2 ^ 64 → reads (finalized h) (padded m).
Proof.
  intros Hr H8 H64. unfold finalized.
  rewrite (reads_bytes h m Hr), shiftl_mul, Z.mul_comm, wrap_small, pad_bytes_spec by (unfold in_uw; lia).
  destruct (length_padded m) as [Hmod Hlen].
  assert (padded m = (m ++ [128] ++ replicate (zeros (length m)) 0) ++ sizedesc (8 * Z.of_nat (length m))) as E
    by (unfold padded; by rewrite <- !app_assoc).
  change (2 ^ 3) with 8 in *. rewrite E in *. set (p := [128] ++ replicate (zeros (length m)) 0) in *.
  rewrite !length_app in Hlen.
  pose proof (Write_spec h m p Hr ltac:(lia)) as Hr1.
  apply (Write_spec _ (m ++ p) (sizedesc (8 * Z.of_nat (length m))) Hr1). rewrite length_app. lia.
Qed.

Lemma Finalize_spec h m :
  reads h m → 8 * Z.of_nat (length m) < 2 ^ 64 →
  Z.of_nat (length m + B + 1 + length (sizedesc 0)) < 2 ^ 64 → Finalize h = digest m.
Proof.
  intros Hr H8 H64. unfold Finalize, digest. f_equal. by apply reads_state, finalized_reads.
Qed.
End digest.
