(* ===== verification/Hashes.v ===== *)
(** * crypto/sha256, sha512, sha1, ripemd160 and the hashers of hash.h

    The compression functions, on words as [Z] in their width. The unrolled
    rounds of the code call one [Round] with the registers renamed by one place
    at every call; here the list of registers is rotated instead, and the tables
    of round constants, message words and shifts are those of the calls, in
    order. The message schedule keeps the sixteen words [w0 .. w15] that the
    code updates in place. *)

From S2P Require Import Prelude Digest.

(** ** crypto/common.h *)

Definition be_bytes (n : nat) (z : Z) : list Z := rev (le_bytes n z).
Definition WriteBE32 (x : Z) : list Z := be_bytes 4 x.
Definition WriteBE64 (x : Z) : list Z := be_bytes 8 x.
Definition WriteLE32 (x : Z) : list Z := le_bytes 4 x.
Definition WriteLE64 (x : Z) : list Z := le_bytes 8 x.
Definition bytes_at (chunk : list Z) (off n : Z) : list Z :=
  take (Z.to_nat n) (drop (Z.to_nat off) chunk).
Definition ReadBE32 (chunk : list Z) (off : Z) : Z := le_val (rev (bytes_at chunk off 4)).
Definition ReadBE64 (chunk : list Z) (off : Z) : Z := le_val (rev (bytes_at chunk off 8)).
Definition ReadLE32 (chunk : list Z) (off : Z) : Z := le_val (bytes_at chunk off 4).

(** [(x >> n | x << (w - n))] on [w]-bit words. *)
Definition ror (w x n : Z) : Z := Z.lor (Z.shiftr x n) (wrap w (Z.shiftl x (w - n))).
(** [(x << n) | (x >> (w - n))]. *)
Definition rol (w x n : Z) : Z := Z.lor (wrap w (Z.shiftl x n)) (Z.shiftr x (w - n)).

(** ** SHA-2: the common text of sha256.cpp and sha512.cpp *)

Section sha2.
(** The word width, the number of rounds, the four sigma functions, the round
    constants and the word at an index of a chunk. *)
Context (w : Z) (rounds : Z) (Sigma0 Sigma1 sigma0 sigma1 : Z → Z) (K : list Z)
  (ReadBE : list Z → Z → Z).

Definition Ch (x y z : Z) : Z := Z.lxor z (Z.land x (Z.lxor y z)).
Definition Maj (x y z : Z) : Z := Z.lor (Z.land x y) (Z.land z (Z.lor x y)).

(** One round, with the registers renamed for the next one. *)
Definition Round (regs : list Z) (k m : Z) : list Z :=
  match regs with
  | [a; b; c; d; e; f; g; h] =>
      let t1 := wrap w (h + Sigma1 e + Ch e f g + k + m) in
      let t2 := wrap w (Sigma0 a + Maj a b c) in
      [wrap w (t1 + t2); a; b; c; wrap w (d + t1); e; f; g]
  | _ => regs
  end.

(** The word of round [i], stored in [w_(i mod 16)]. *)
Definition message_word (chunk ws : list Z) (i : Z) : Z :=
  if i <? 16 then ReadBE chunk i
  else wrap w (getz ws (i mod 16) +
         (sigma1 (getz ws ((i + 14) mod 16)) + getz ws ((i + 9) mod 16) + sigma0 (getz ws ((i + 1) mod 16)))).

Definition Transform_step (chunk : list Z) (st : list Z * list Z) (i : Z) : list Z * list Z :=
  let m := message_word chunk (snd st) i in
  (Round (fst st) (getz K i) m, setz (snd st) (i mod 16) m).

Definition Transform2 (s chunk : list Z) : list Z :=
  let regs := fst (foldl (Transform_step chunk) (s, replicate 16 0) (seqZ 0 rounds)) in
  zip_with (λ x y, wrap w (x + y)) s regs.
End sha2.

Module Sha256.
Definition Sigma0 (x : Z) : Z := Z.lxor (Z.lxor (ror 32 x 2) (ror 32 x 13)) (ror 32 x 22).
Definition Sigma1 (x : Z) : Z := Z.lxor (Z.lxor (ror 32 x 6) (ror 32 x 11)) (ror 32 x 25).
Definition sigma0 (x : Z) : Z := Z.lxor (Z.lxor (ror 32 x 7) (ror 32 x 18)) (Z.shiftr x 3).
Definition sigma1 (x : Z) : Z := Z.lxor (Z.lxor (ror 32 x 17) (ror 32 x 19)) (Z.shiftr x 10).

Definition Initialize : list Z :=
  [0x6a09e667; 0xbb67ae85; 0x3c6ef372; 0xa54ff53a; 0x510e527f; 0x9b05688c; 0x1f83d9ab; 0x5be0cd19].

(** The constants of the calls, in decimal. *)
Definition K : list Z :=
  [1116352408; 1899447441; 3049323471; 3921009573; 961987163; 1508970993;
   2453635748; 2870763221; 3624381080; 310598401; 607225278; 1426881987;
   1925078388; 2162078206; 2614888103; 3248222580; 3835390401; 4022224774;
   264347078; 604807628; 770255983; 1249150122; 1555081692; 1996064986;
   2554220882; 2821834349; 2952996808; 3210313671; 3336571891; 3584528711;
   113926993; 338241895; 666307205; 773529912; 1294757372; 1396182291;
   1695183700; 1986661051; 2177026350; 2456956037; 2730485921; 2820302411;
   3259730800; 3345764771; 3516065817; 3600352804; 4094571909; 275423344;
   430227734; 506948616; 659060556; 883997877; 958139571; 1322822218;
   1537002063; 1747873779; 1955562222; 2024104815; 2227730452; 2361852424;
   2428436474; 2756734187; 3204031479; 3329325298].

Definition Transform : list Z → list Z → list Z :=
  Transform2 32 64 Sigma0 Sigma1 sigma0 sigma1 K (λ chunk i, ReadBE32 chunk (4 * i)).

Definition output (s : list Z) : list Z := concat (map WriteBE32 s).

Definition Write : hasher → list Z → hasher := Digest.Write 64 Transform.
Definition Finalize : hasher → list Z := Digest.Finalize 64 Transform WriteBE64 119 output.
Definition finalized : hasher → hasher := Digest.finalized 64 Transform WriteBE64 119.
Definition Reset : hasher → hasher := Digest.Reset Initialize.
(** A new object; [buf] starts uninitialised. *)
Definition CSHA256 (buf : list Z) : hasher := new_hasher Initialize buf.
End Sha256.

Module Sha512.
Definition Sigma0 (x : Z) : Z := Z.lxor (Z.lxor (ror 64 x 28) (ror 64 x 34)) (ror 64 x 39).
Definition Sigma1 (x : Z) : Z := Z.lxor (Z.lxor (ror 64 x 14) (ror 64 x 18)) (ror 64 x 41).
Definition sigma0 (x : Z) : Z := Z.lxor (Z.lxor (ror 64 x 1) (ror 64 x 8)) (Z.shiftr x 7).
Definition sigma1 (x : Z) : Z := Z.lxor (Z.lxor (ror 64 x 19) (ror 64 x 61)) (Z.shiftr x 6).

Definition Initialize : list Z :=
  [0x6a09e667f3bcc908; 0xbb67ae8584caa73b; 0x3c6ef372fe94f82b; 0xa54ff53a5f1d36f1;
   0x510e527fade682d1; 0x9b05688c2b3e6c1f; 0x1f83d9abfb41bd6b; 0x5be0cd19137e2179].

Definition K : list Z :=
  [0x428a2f98d728ae22; 0x7137449123ef65cd; 0xb5c0fbcfec4d3b2f; 0xe9b5dba58189dbbc;
   0x3956c25bf348b538; 0x59f111f1b605d019; 0x923f82a4af194f9b; 0xab1c5ed5da6d8118;
   0xd807aa98a3030242; 0x12835b0145706fbe; 0x243185be4ee4b28c; 0x550c7dc3d5ffb4e2;
   0x72be5d74f27b896f; 0x80deb1fe3b1696b1; 0x9bdc06a725c71235; 0xc19bf174cf692694;
   0xe49b69c19ef14ad2; 0xefbe4786384f25e3; 0x0fc19dc68b8cd5b5; 0x240ca1cc77ac9c65;
   0x2de92c6f592b0275; 0x4a7484aa6ea6e483; 0x5cb0a9dcbd41fbd4; 0x76f988da831153b5;
   0x983e5152ee66dfab; 0xa831c66d2db43210; 0xb00327c898fb213f; 0xbf597fc7beef0ee4;
   0xc6e00bf33da88fc2; 0xd5a79147930aa725; 0x06ca6351e003826f; 0x142929670a0e6e70;
   0x27b70a8546d22ffc; 0x2e1b21385c26c926; 0x4d2c6dfc5ac42aed; 0x53380d139d95b3df;
   0x650a73548baf63de; 0x766a0abb3c77b2a8; 0x81c2c92e47edaee6; 0x92722c851482353b;
   0xa2bfe8a14cf10364; 0xa81a664bbc423001; 0xc24b8b70d0f89791; 0xc76c51a30654be30;
   0xd192e819d6ef5218; 0xd69906245565a910; 0xf40e35855771202a; 0x106aa07032bbd1b8;
   0x19a4c116b8d2d0c8; 0x1e376c085141ab53; 0x2748774cdf8eeb99; 0x34b0bcb5e19b48a8;
   0x391c0cb3c5c95a63; 0x4ed8aa4ae3418acb; 0x5b9cca4f7763e373; 0x682e6ff3d6b2b8a3;
   0x748f82ee5defb2fc; 0x78a5636f43172f60; 0x84c87814a1f0ab72; 0x8cc702081a6439ec;
   0x90befffa23631e28; 0xa4506cebde82bde9; 0xbef9a3f7b2c67915; 0xc67178f2e372532b;
   0xca273eceea26619c; 0xd186b8c721c0c207; 0xeada7dd6cde0eb1e; 0xf57d4f7fee6ed178;
   0x06f067aa72176fba; 0x0a637dc5a2c898a6; 0x113f9804bef90dae; 0x1b710b35131c471b;
   0x28db77f523047d84; 0x32caab7b40c72493; 0x3c9ebe0a15c9bebc; 0x431d67c49c100d4c;
   0x4cc5d4becb3e42b6; 0x597f299cfc657e2a; 0x5fcb6fab3ad6faec; 0x6c44198c4a475817].

Definition Transform : list Z → list Z → list Z :=
  Transform2 64 80 Sigma0 Sigma1 sigma0 sigma1 K (λ chunk i, ReadBE64 chunk (8 * i)).

Definition output (s : list Z) : list Z := concat (map WriteBE64 s).

(** Sixteen bytes, the high eight of them zero. *)
Definition sizedesc (z : Z) : list Z := replicate 8 0 ++ WriteBE64 z.

Definition Write : hasher → list Z → hasher := Digest.Write 128 Transform.
Definition Finalize : hasher → list Z := Digest.Finalize 128 Transform sizedesc 239 output.
Definition Reset : hasher → hasher := Digest.Reset Initialize.
Definition CSHA512 (buf : list Z) : hasher := new_hasher Initialize buf.
End Sha512.

Module Sha1.
Definition f1 (b c d : Z) : Z := Z.lxor d (Z.land b (Z.lxor c d)).
Definition f2 (b c d : Z) : Z := Z.lxor (Z.lxor b c) d.
Definition f3 (b c d : Z) : Z := Z.lor (Z.land b c) (Z.land d (Z.lor b c)).
Definition rol1 (x : Z) : Z := Z.lor (u32 (Z.shiftl x 1)) (Z.shiftr x 31).

Definition Initialize : list Z := [0x67452301; 0xEFCDAB89; 0x98BADCFE; 0x10325476; 0xC3D2E1F0].

Definition Round (f : Z → Z → Z → Z) (k : Z) (regs : list Z) (m : Z) : list Z :=
  match regs with
  | [a; b; c; d; e] =>
      [u32 (e + (Z.lor (u32 (Z.shiftl a 5)) (Z.shiftr a 27) + f b c d + k + m)); a;
       Z.lor (u32 (Z.shiftl b 30)) (Z.shiftr b 2); c; d]
  | _ => regs
  end.

(** The function and constant of round [i]. *)
Definition round_at (i : Z) : (Z → Z → Z → Z) * Z :=
  if i <? 20 then (f1, 0x5A827999) else if i <? 40 then (f2, 0x6ED9EBA1)
  else if i <? 60 then (f3, 0x8F1BBCDC) else (f2, 0xCA62C1D6).

Definition message_word (chunk ws : list Z) (i : Z) : Z :=
  if i <? 16 then ReadBE32 chunk (4 * i)
  else rol1 (Z.lxor (Z.lxor (Z.lxor (getz ws (i mod 16)) (getz ws ((i + 13) mod 16)))
                             (getz ws ((i + 8) mod 16))) (getz ws ((i + 2) mod 16))).

Definition Transform_step (chunk : list Z) (st : list Z * list Z) (i : Z) : list Z * list Z :=
  let m := message_word chunk (snd st) i in
  let '(f, k) := round_at i in
  (Round f k (fst st) m, setz (snd st) (i mod 16) m).

Definition Transform (s chunk : list Z) : list Z :=
  let regs := fst (foldl (Transform_step chunk) (s, replicate 16 0) (seqZ 0 80)) in
  zip_with (λ x y, u32 (x + y)) s regs.

Definition output (s : list Z) : list Z := concat (map WriteBE32 s).

Definition Write : hasher → list Z → hasher := Digest.Write 64 Transform.
Definition Finalize : hasher → list Z := Digest.Finalize 64 Transform WriteBE64 119 output.
Definition CSHA1 (buf : list Z) : hasher := new_hasher Initialize buf.
End Sha1.

Module Ripemd160.
Definition lnot32 (x : Z) : Z := u32 (Z.lnot x).
Definition f1 (x y z : Z) : Z := Z.lxor (Z.lxor x y) z.
Definition f2 (x y z : Z) : Z := Z.lor (Z.land x y) (Z.land (lnot32 x) z).
Definition f3 (x y z : Z) : Z := Z.lxor (Z.lor x (lnot32 y)) z.
Definition f4 (x y z : Z) : Z := Z.lor (Z.land x z) (Z.land y (lnot32 z)).
Definition f5 (x y z : Z) : Z := Z.lxor x (Z.lor y (lnot32 z)).

Definition Initialize : list Z := [0x67452301; 0xEFCDAB89; 0x98BADCFE; 0x10325476; 0xC3D2E1F0].

Definition Round (f : Z → Z → Z → Z) (k : Z) (regs : list Z) (x r : Z) : list Z :=
  match regs with
  | [a; b; c; d; e] => [e; u32 (rol 32 (u32 (a + f b c d + x + k)) r + e); b; rol 32 c 10; d]
  | _ => regs
  end.

(** R11 to R51 and R12 to R52: the function and constant of each group of
    sixteen rounds of the first and of the second line. *)
Definition line1 : list ((Z → Z → Z → Z) * Z) :=
  [(f1, 0); (f2, 0x5A827999); (f3, 0x6ED9EBA1); (f4, 0x8F1BBCDC); (f5, 0xA953FD4E)].
Definition line2 : list ((Z → Z → Z → Z) * Z) :=
  [(f5, 0x50A28BE6); (f4, 0x5C4DD124); (f3, 0x6D703EF3); (f2, 0x7A6D76E9); (f1, 0)].

(** The word and the shift of each round. *)
Definition rounds1 : list (Z * Z) :=
  [(0, 11); (1, 14); (2, 15); (3, 12); (4, 5); (5, 8); (6, 7); (7, 9);
   (8, 11); (9, 13); (10, 14); (11, 15); (12, 6); (13, 7); (14, 9); (15, 8);
   (7, 7); (4, 6); (13, 8); (1, 13); (10, 11); (6, 9); (15, 7); (3, 15);
   (12, 7); (0, 12); (9, 15); (5, 9); (2, 11); (14, 7); (11, 13); (8, 12);
   (3, 11); (10, 13); (14, 6); (4, 7); (9, 14); (15, 9); (8, 13); (1, 15);
   (2, 14); (7, 8); (0, 13); (6, 6); (13, 5); (11, 12); (5, 7); (12, 5);
   (1, 11); (9, 12); (11, 14); (10, 15); (0, 14); (8, 15); (12, 9); (4, 8);
   (13, 9); (3, 14); (7, 5); (15, 6); (14, 8); (5, 6); (6, 5); (2, 12);
   (4, 9); (0, 15); (5, 5); (9, 11); (7, 6); (12, 8); (2, 13); (10, 12);
   (14, 5); (1, 12); (3, 13); (8, 14); (11, 11); (6, 8); (15, 5); (13, 6)].
Definition rounds2 : list (Z * Z) :=
  [(5, 8); (14, 9); (7, 9); (0, 11); (9, 13); (2, 15); (11, 15); (4, 5);
   (13, 7); (6, 7); (15, 8); (8, 11); (1, 14); (10, 14); (3, 12); (12, 6);
   (6, 9); (11, 13); (3, 15); (7, 7); (0, 12); (13, 8); (5, 9); (10, 11);
   (14, 7); (15, 7); (8, 12); (12, 7); (4, 6); (9, 15); (1, 13); (2, 11);
   (15, 9); (5, 7); (1, 15); (3, 11); (7, 8); (14, 6); (6, 6); (9, 14);
   (11, 12); (8, 13); (12, 5); (2, 14); (10, 13); (0, 13); (4, 7); (13, 5);
   (8, 15); (6, 5); (4, 8); (1, 11); (3, 14); (11, 14); (15, 6); (0, 14);
   (5, 6); (12, 9); (2, 12); (13, 9); (9, 12); (7, 5); (10, 15); (14, 8);
   (12, 8); (15, 5); (10, 12); (4, 9); (1, 12); (5, 5); (8, 14); (7, 6);
   (6, 8); (2, 13); (13, 6); (14, 5); (0, 15); (3, 13); (9, 11); (11, 11)].

Definition run_line (groups : list ((Z → Z → Z → Z) * Z)) (rounds : list (Z * Z)) (ws s : list Z) : list Z :=
  snd (foldl (λ st wr, let '(i, regs) := st in
                       let '(f, k) := nth (i / 16)%nat groups (f1, 0) in
                       (S i, Round f k regs (getz ws (fst wr)) (snd wr))) (O, s) rounds).

Definition Transform (s chunk : list Z) : list Z :=
  let ws := map (λ i, ReadLE32 chunk (4 * i)) (seqZ 0 16) in
  match s, run_line line1 rounds1 ws s, run_line line2 rounds2 ws s with
  | [s0; s1; s2; s3; s4], [a1; b1; c1; d1; e1], [a2; b2; c2; d2; e2] =>
      [u32 (s1 + c1 + d2); u32 (s2 + d1 + e2); u32 (s3 + e1 + a2); u32 (s4 + a1 + b2); u32 (s0 + b1 + c2)]
  | _, _, _ => s
  end.

Definition output (s : list Z) : list Z := concat (map WriteLE32 s).

Definition Write : hasher → list Z → hasher := Digest.Write 64 Transform.
Definition Finalize : hasher → list Z := Digest.Finalize 64 Transform WriteLE64 119 output.
Definition CRIPEMD160 (buf : list Z) : hasher := new_hasher Initialize buf.
End Ripemd160.

(** ** Hashing a byte string *)

(** CHash256: twice SHA-256. *)
Definition CHash256_Finalize (sha : hasher) : list Z :=
  let buf := Sha256.Finalize sha in
  Sha256.Finalize (Sha256.Write (Sha256.Reset (Sha256.finalized sha)) buf).

(** CHash160: SHA-256, then RIPEMD-160 with a new object. *)
Definition CHash160_Finalize (sha : hasher) (ripemd_buf : list Z) : list Z :=
  Ripemd160.Finalize (Ripemd160.Write (Ripemd160.CRIPEMD160 ripemd_buf) (Sha256.Finalize sha)).

(** Uninitialised buffers have no influence; the functions below fix them. *)
Definition blank (n : nat) : list Z := replicate n 0.

(** [Hash(pbegin, pend)]. *)
Definition Hash (m : list Z) : list Z :=
  CHash256_Finalize (Sha256.Write (Sha256.CSHA256 (blank 64)) m).

(** [Hash(p1begin, p1end, p2begin, p2end)]. *)
Definition Hash2 (m1 m2 : list Z) : list Z :=
  CHash256_Finalize (Sha256.Write (Sha256.Write (Sha256.CSHA256 (blank 64)) m1) m2).

Definition Hash160 (m : list Z) : list Z :=
  CHash160_Finalize (Sha256.Write (Sha256.CSHA256 (blank 64)) m) (blank 64).

(** ** FIPS 180-4 *)

Section fips.
Context (w : Z) (rounds : Z) (Sigma0 Sigma1 sigma0 sigma1 : Z → Z) (K : list Z)
  (ReadBE : list Z → Z → Z).

Definition fips_Ch (x y z : Z) : Z := Z.lxor (Z.land x y) (Z.land (Z.lnot x) z).
Definition fips_Maj (x y z : Z) : Z := Z.lxor (Z.lxor (Z.land x y) (Z.land x z)) (Z.land y z).

(** The message schedule, [n] words after the first sixteen. *)
Definition fips_schedule (n : Z) (chunk : list Z) : list Z :=
  foldl (λ W i, let t := 16 + i in
                W ++ [wrap w (sigma1 (getz W (t - 2)) + getz W (t - 7)
                              + sigma0 (getz W (t - 15)) + getz W (t - 16))])
        (map (ReadBE chunk) (seqZ 0 16)) (seqZ 0 n).

Definition fips_round (W regs : list Z) (t : Z) : list Z :=
  match regs with
  | [a; b; c; d; e; f; g; h] =>
      let T1 := wrap w (h + Sigma1 e + fips_Ch e f g + getz K t + getz W t) in
      let T2 := wrap w (Sigma0 a + fips_Maj a b c) in
      [wrap w (T1 + T2); a; b; c; wrap w (d + T1); e; f; g]
  | _ => regs
  end.

Definition fips_transform (s chunk : list Z) : list Z :=
  let W := fips_schedule (rounds - 16) chunk in
  zip_with (λ x y, wrap w (x + y)) s (foldl (fips_round W) s (seqZ 0 rounds)).

Lemma Ch_fips x y z : Ch x y z = fips_Ch x y z.
Proof.
  apply Z.bits_inj'. intros i Hi. unfold Ch, fips_Ch.
  rewrite !Z.lxor_spec, !Z.land_spec, Z.lxor_spec, Z.lnot_spec by done.
  by destruct (Z.testbit x i), (Z.testbit y i), (Z.testbit z i).
Qed.

Lemma Maj_fips x y z : Maj x y z = fips_Maj x y z.
Proof.
  apply Z.bits_inj'. intros i Hi. unfold Maj, fips_Maj.
  rewrite !Z.lxor_spec, Z.lor_spec, !Z.land_spec, Z.lor_spec.
  by destruct (Z.testbit x i), (Z.testbit y i), (Z.testbit z i).
Qed.

(** The words of the schedule obey its recurrence. *)
Lemma fips_schedule_spec n chunk :
  0 <= n →
  let W := fips_schedule n chunk in
  Z.of_nat (length W) = 16 + n ∧
  (∀ t, 0 <= t < 16 → getz W t = ReadBE chunk t) ∧
  (∀ t, 16 <= t < 16 + n →
     getz W t = wrap w (sigma1 (getz W (t - 2)) + getz W (t - 7) + sigma0 (getz W (t - 15)) + getz W (t - 16))).
Proof.
  intros Hn. unfold fips_schedule.
  apply (foldl_seqZ_inv (λ n W, Z.of_nat (length W) = 16 + n ∧
    (∀ t, 0 <= t < 16 → getz W t = ReadBE chunk t) ∧
    (∀ t, 16 <= t < 16 + n →
       getz W t = wrap w (sigma1 (getz W (t - 2)) + getz W (t - 7) + sigma0 (getz W (t - 15)) + getz W (t - 16)))));
    [done| |].
  - split_and!; [done| |lia]. intros t Ht. unfold getz. rewrite nth_lookup, list_lookup_fmap.
    rewrite lookup_seqZ_lt by lia. cbn. f_equal. lia.
  - intros i W Hi (HL & H0 & H16).
    assert (∀ t x, 0 <= t < 16 + i → getz (W ++ [x]) t = getz W t) as Happ.
    { intros t x Ht. unfold getz. rewrite !nth_lookup, lookup_app_l by lia. done. }
    split_and!.
    + rewrite length_app. cbn. lia.
    + intros t Ht. rewrite Happ by lia. by apply H0.
    + intros t Ht. destruct (decide (t = 16 + i)) as [->|Hne].
      * rewrite (Happ (16 + i - 2)), (Happ (16 + i - 7)), (Happ (16 + i - 15)), (Happ (16 + i - 16)) by lia.
        unfold getz at 1. rewrite nth_lookup, lookup_app_r by lia.
        by replace (Z.to_nat (16 + i) - length W)%nat with 0%nat by lia.
      * rewrite !Happ by lia. apply H16. lia.
Qed.

Lemma Round_fips regs k m W t :
  k = getz K t → m = getz W t → Round w Sigma0 Sigma1 regs k m = fips_round W regs t.
Proof.
  intros -> ->. unfold Round, fips_round.
  do 8 (destruct regs as [|? regs]; [done|]). destruct regs; [|done]. by rewrite Ch_fips, Maj_fips.
Qed.

(** The sixteen words updated in place are the last sixteen of the schedule. *)
Lemma Transform_fips s chunk :
  16 <= rounds → Transform2 w rounds Sigma0 Sigma1 sigma0 sigma1 K ReadBE s chunk = fips_transform s chunk.
Proof.
  intros Hr. unfold Transform2, fips_transform. f_equal.
  destruct (fips_schedule_spec (rounds - 16) chunk ltac:(lia)) as (_ & H0 & H16).
  set (W := fips_schedule (rounds - 16) chunk) in *. clearbody W.
  apply (foldl_seqZ_inv (λ i st,
    fst st = foldl (fips_round W) s (seqZ 0 i) ∧ length (snd st) = 16%nat ∧
    ∀ t, 0 <= t < i → i - 16 <= t → getz (snd st) (t mod 16) = getz W t)); [lia|by split_and!; [..|lia]|].
  intros i [regs ws] Hi (Hregs & Hlen & Hws). cbn [fst snd] in *. unfold Transform_step. cbn [fst snd].
  set (m := message_word w sigma0 sigma1 ReadBE chunk ws i). assert (m = getz W i) as Hm.
  { unfold m, message_word. destruct (Z.ltb_spec i 16); [by rewrite H0 by lia|].
    rewrite H16 by lia. f_equal.
    replace (i mod 16) with ((i - 16) mod 16) by divmod_lia.
    replace ((i + 14) mod 16) with ((i - 2) mod 16) by divmod_lia.
    replace ((i + 9) mod 16) with ((i - 7) mod 16) by divmod_lia.
    replace ((i + 1) mod 16) with ((i - 15) mod 16) by divmod_lia.
    rewrite !Hws by lia. lia. }
  split_and!.
  - rewrite (Round_fips _ _ _ W i eq_refl Hm), seqZ_app by lia.
    rewrite foldl_app, Hregs. cbn [seqZ]. by rewrite Z.add_0_l.
  - by rewrite length_setz.
  - intros t Ht Hlow. pose proof (Z.mod_pos_bound i 16 ltac:(lia)). pose proof (Z.mod_pos_bound t 16 ltac:(lia)).
    rewrite getz_setz by lia. destruct (Z.eqb_spec (t mod 16) (i mod 16)) as [E|E].
    + assert (t = i) as -> by divmod_lia. done.
    + apply Hws; [|lia]. destruct (decide (t = i)) as [->|]; [done|lia].
Qed.
End fips.

Lemma compress_ext B T T' n s m :
  (∀ s c, T s c = T' s c) → compress B T n s m = compress B T' n s m.
Proof. intros H. revert s m. induction n as [|n IH]; intros s m; cbn; [done|]. by rewrite H, IH. Qed.

(** FIPS 180-4 digests of a message below 2^61 bytes. *)
Definition fips_sha256 (m : list Z) : list Z :=
  digest 64 (fips_transform 32 64 Sha256.Sigma0 Sha256.Sigma1 Sha256.sigma0 Sha256.sigma1 Sha256.K
               (λ chunk i, ReadBE32 chunk (4 * i))) Sha256.Initialize WriteBE64 Sha256.output m.

Definition fips_sha512 (m : list Z) : list Z :=
  digest 128 (fips_transform 64 80 Sha512.Sigma0 Sha512.Sigma1 Sha512.sigma0 Sha512.sigma1 Sha512.K
               (λ chunk i, ReadBE64 chunk (8 * i))) Sha512.Initialize Sha512.sizedesc Sha512.output m.

Definition ripemd160 (m : list Z) : list Z :=
  digest 64 Ripemd160.Transform Ripemd160.Initialize WriteLE64 Ripemd160.output m.

Definition sha1 (m : list Z) : list Z :=
  digest 64 Sha1.Transform Sha1.Initialize WriteBE64 Sha1.output m.

Lemma length_WriteBE64 z : length (WriteBE64 z) = 8%nat.
Proof. unfold WriteBE64, be_bytes. by rewrite length_rev, length_le_bytes. Qed.

Lemma length_WriteLE64 z : length (WriteLE64 z) = 8%nat.
Proof. apply length_le_bytes. Qed.

Lemma length_sizedesc z : length (Sha512.sizedesc z) = 16%nat.
Proof. unfold Sha512.sizedesc. by rewrite length_app, length_replicate, length_WriteBE64. Qed.

(** Pieces of a message below [2^60] bytes, hashed one after the other. *)
Lemma Sha256_pieces buf ds :
  length buf = 64%nat → Z.of_nat (length (concat ds)) < 2 ^ 60 →
  Sha256.Finalize (foldl Sha256.Write (Sha256.CSHA256 buf) ds) = fips_sha256 (concat ds).
Proof.
  intros Hb Hl. unfold Sha256.Finalize, fips_sha256.
  rewrite (Finalize_spec 64 Sha256.Transform Sha256.Initialize WriteBE64 119 Sha256.output
    ltac:(lia) eq_refl ltac:(intros; by rewrite !length_WriteBE64) _ (concat ds)).
  - unfold digest. f_equal. apply compress_ext. intros s c. by apply Transform_fips.
  - apply (writes_spec 64 Sha256.Transform Sha256.Initialize ltac:(lia)); [done|lia].
  - lia.
  - rewrite length_WriteBE64. lia.
Qed.

Lemma Sha512_pieces buf ds :
  length buf = 128%nat → Z.of_nat (length (concat ds)) < 2 ^ 60 →
  Sha512.Finalize (foldl Sha512.Write (Sha512.CSHA512 buf) ds) = fips_sha512 (concat ds).
Proof.
  intros Hb Hl. unfold Sha512.Finalize, fips_sha512.
  rewrite (Finalize_spec 128 Sha512.Transform Sha512.Initialize Sha512.sizedesc 239 Sha512.output
    ltac:(lia) eq_refl ltac:(intros; by rewrite !length_sizedesc) _ (concat ds)).
  - unfold digest. f_equal. apply compress_ext. intros s c. by apply Transform_fips.
  - apply (writes_spec 128 Sha512.Transform Sha512.Initialize ltac:(lia)); [done|lia].
  - lia.
  - rewrite length_sizedesc. lia.
Qed.

Lemma Ripemd160_pieces buf ds :
  length buf = 64%nat → Z.of_nat (length (concat ds)) < 2 ^ 60 →
  Ripemd160.Finalize (foldl Ripemd160.Write (Ripemd160.CRIPEMD160 buf) ds) = ripemd160 (concat ds).
Proof.
  intros Hb Hl. unfold Ripemd160.Finalize, ripemd160.
  apply (Finalize_spec 64 Ripemd160.Transform Ripemd160.Initialize WriteLE64 119 Ripemd160.output);
    [lia|done|intros; by rewrite !length_WriteLE64
    |apply (writes_spec 64 Ripemd160.Transform Ripemd160.Initialize ltac:(lia)); [done|lia]|lia|].
  rewrite length_WriteLE64. lia.
Qed.

Lemma Sha1_pieces buf ds :
  length buf = 64%nat → Z.of_nat (length (concat ds)) < 2 ^ 60 →
  Sha1.Finalize (foldl Sha1.Write (Sha1.CSHA1 buf) ds) = sha1 (concat ds).
Proof.
  intros Hb Hl. unfold Sha1.Finalize, sha1.
  apply (Finalize_spec 64 Sha1.Transform Sha1.Initialize WriteBE64 119 Sha1.output);
    [lia|done|intros; by rewrite !length_WriteBE64
    |apply (writes_spec 64 Sha1.Transform Sha1.Initialize ltac:(lia)); [done|lia]|lia|].
  rewrite length_WriteBE64. lia.
Qed.

Lemma Sha256_reads buf ds :
  length buf = 64%nat → Z.of_nat (length (concat ds)) < 2 ^ 60 →
  length (hbuf (Sha256.finalized (foldl Sha256.Write (Sha256.CSHA256 buf) ds))) = 64%nat.
Proof.
  intros Hb Hl. eapply reads_buf, (finalized_reads 64 Sha256.Transform Sha256.Initialize WriteBE64 119
    ltac:(lia) eq_refl ltac:(intros; by rewrite !length_WriteBE64)).
  - apply (writes_spec 64 Sha256.Transform Sha256.Initialize ltac:(lia) buf ds); [done|lia].
  - lia.
  - rewrite length_WriteBE64. lia.
Qed.

(** Compression keeps the number of state words. *)
Lemma length_compress (k : nat) B T n s m :
  (∀ s c, length s = k → length (T s c) = k) → length s = k → length (compress B T n s m) = k.
Proof. intros HT. revert s m. induction n as [|n IH]; intros s m Hs; cbn; [done|]. apply IH. by apply HT. Qed.

Lemma length_words (W : Z → list Z) (s : list Z) :
  (∀ x, length (W x) = 4%nat) → length (concat (map W s)) = (4 * length s)%nat.
Proof. intros HW. induction s as [|x s IH]; [done|]. cbn [map concat length]. rewrite length_app, HW, IH. lia. Qed.

Lemma length_WriteBE32 z : length (WriteBE32 z) = 4%nat.
Proof. unfold WriteBE32, be_bytes. by rewrite length_rev, length_le_bytes. Qed.

Lemma words_bytes (W : Z → list Z) (s : list Z) :
  (∀ x, Forall is_byte (W x)) → Forall is_byte (concat (map W s)).
Proof. intros HW. induction s as [|x s IH]; cbn [map concat]; [constructor|]. apply Forall_app_2; [apply HW|apply IH]. Qed.

Lemma length_fips_sha256 m : length (fips_sha256 m) = 32%nat.
Proof.
  unfold fips_sha256, digest, Sha256.output. rewrite length_words by apply length_WriteBE32.
  rewrite (length_compress 8); [done| |done]. intros s c Hs. unfold fips_transform. rewrite length_zip_with, Hs.
  assert (∀ l r, length r = 8%nat → length (foldl (fips_round 32 Sha256.Sigma0 Sha256.Sigma1 Sha256.K
    (fips_schedule 32 Sha256.sigma0 Sha256.sigma1 (λ chunk i, ReadBE32 chunk (4 * i)) (64 - 16) c)) r l) = 8%nat) as Hf.
  { intros l. induction l as [|t l IH]; intros r Hr; cbn [foldl]; [done|]. apply IH.
    do 9 (destruct r as [|? r]; try done). }
  by rewrite Hf.
Qed.

Lemma length_ripemd160 m : length (ripemd160 m) = 20%nat.
Proof.
  unfold ripemd160, digest, Ripemd160.output. rewrite length_words by (intros; apply length_le_bytes).
  rewrite (length_compress 5); [done| |done]. intros s c Hs. unfold Ripemd160.Transform. by repeat case_match.
Qed.

Lemma length_sha1 m : length (sha1 m) = 20%nat.
Proof.
  unfold sha1, digest, Sha1.output. rewrite length_words by apply length_WriteBE32.
  rewrite (length_compress 5); [done| |done]. intros s c Hs. unfold Sha1.Transform. rewrite length_zip_with, Hs.
  assert (∀ l r, length (fst r) = 5%nat → length (fst (foldl (Sha1.Transform_step c) r l)) = 5%nat) as Hf.
  { intros l. induction l as [|t l IH]; intros r Hr; cbn [foldl]; [done|]. apply IH.
    unfold Sha1.Transform_step. destruct (Sha1.round_at t). cbn [fst].
    destruct r as [r ?]. cbn [fst] in *. do 6 (destruct r as [|? r]; try done). }
  by rewrite Hf.
Qed.

Lemma fips_sha256_bytes m : Forall is_byte (fips_sha256 m).
Proof. apply words_bytes. intros x. apply Forall_rev, le_bytes_byte. Qed.

Lemma ripemd160_bytes m : Forall is_byte (ripemd160 m).
Proof. apply words_bytes. intros x. apply le_bytes_byte. Qed.

(** Two passes of SHA-256 on pieces. *)
Lemma CHash256_pieces buf ds :
  length buf = 64%nat → Z.of_nat (length (concat ds)) < 2 ^ 60 →
  CHash256_Finalize (foldl Sha256.Write (Sha256.CSHA256 buf) ds) = fips_sha256 (fips_sha256 (concat ds)).
Proof.
  intros Hb Hl. unfold CHash256_Finalize. rewrite Sha256_pieces by done.
  pose proof (Sha256_reads buf ds Hb Hl) as Hbuf. pose proof (length_fips_sha256 (concat ds)) as H32.
  set (h := Sha256.finalized _) in *. set (d := fips_sha256 (concat ds)) in *. clearbody h d.
  rewrite <- (app_nil_r d) at 2. change (d ++ []) with (concat [d]).
  apply (Sha256_pieces (hbuf h) [d]); [done|]. cbn [concat]. rewrite app_nil_r. lia.
Qed.

Lemma CHash160_pieces buf ds bufr :
  length buf = 64%nat → length bufr = 64%nat → Z.of_nat (length (concat ds)) < 2 ^ 60 →
  CHash160_Finalize (foldl Sha256.Write (Sha256.CSHA256 buf) ds) bufr = ripemd160 (fips_sha256 (concat ds)).
Proof.
  intros Hb Hr Hl. unfold CHash160_Finalize. rewrite Sha256_pieces by done.
  pose proof (length_fips_sha256 (concat ds)) as H32. set (d := fips_sha256 (concat ds)) in *. clearbody d.
  rewrite <- (app_nil_r d) at 2. change (d ++ []) with (concat [d]).
  apply (Ripemd160_pieces bufr [d]); [done|]. cbn [concat]. rewrite app_nil_r. lia.
Qed.

(** The functions on whole byte strings. *)
Lemma Hash_spec m : Z.of_nat (length m) < 2 ^ 60 → Hash m = fips_sha256 (fips_sha256 m).
Proof.
  intros. pose proof (CHash256_pieces (blank 64) [m] eq_refl) as E. cbn [concat foldl] in E.
  rewrite app_nil_r in E. by apply E.
Qed.

Lemma Hash160_spec m : Z.of_nat (length m) < 2 ^ 60 → Hash160 m = ripemd160 (fips_sha256 m).
Proof.
  intros. pose proof (CHash160_pieces (blank 64) [m] (blank 64) eq_refl eq_refl) as E. cbn [concat foldl] in E.
  rewrite app_nil_r in E. by apply E.
Qed.

(** ** Test vectors *)

Example sha256_abc :
  firstn 4 (Sha256.Finalize (Sha256.Write (Sha256.CSHA256 (blank 64)) (str "abc"))) = [0xba; 0x78; 0x16; 0xbf].
Proof. vm_compute. reflexivity. Qed.

Example sha512_abc :
  firstn 4 (Sha512.Finalize (Sha512.Write (Sha512.CSHA512 (blank 128)) (str "abc"))) = [0xdd; 0xaf; 0x35; 0xa1].
Proof. vm_compute. reflexivity. Qed.

Example sha1_abc :
  firstn 4 (Sha1.Finalize (Sha1.Write (Sha1.CSHA1 (blank 64)) (str "abc"))) = [0xa9; 0x99; 0x3e; 0x36].
Proof. vm_compute. reflexivity. Qed.

Example ripemd160_abc :
  firstn 4 (Ripemd160.Finalize (Ripemd160.Write (Ripemd160.CRIPEMD160 (blank 64)) (str "abc"))) = [0x8e; 0xb2; 0x08; 0xf7].
Proof. vm_compute. reflexivity. Qed.

(** ** Properties *)

(** however a message below [2^60] bytes is cut into pieces, and whatever
    the buffer of a new object holds, CSHA256 and CSHA512 output the digest
    FIPS 180-4 defines: its padding, its message schedule of 64 or 80 words
    and its round functions. *)
Theorem sha2_streaming_is_fips buf256 buf512 pieces :
  length buf256 = 64%nat → length buf512 = 128%nat → Z.of_nat (length (concat pieces)) < 2 ^ 60 →
  Sha256.Finalize (foldl Sha256.Write (Sha256.CSHA256 buf256) pieces) = fips_sha256 (concat pieces) ∧
  Sha512.Finalize (foldl Sha512.Write (Sha512.CSHA512 buf512) pieces) = fips_sha512 (concat pieces).
Proof. intros H1 H2 Hl. split; [by apply Sha256_pieces|by apply Sha512_pieces]. Qed.

(** the same for CRIPEMD160 and CSHA1 against the iteration of their
    compression function over the padded message; and CHash256 and CHash160 are
    SHA-256 followed by SHA-256 and by RIPEMD-160, whatever the pieces. *)
Theorem bitcoin_hashes buf bufr pieces :
  length buf = 64%nat → length bufr = 64%nat → Z.of_nat (length (concat pieces)) < 2 ^ 60 →
  let m := concat pieces in
  let sha := foldl Sha256.Write (Sha256.CSHA256 buf) pieces in
  Ripemd160.Finalize (foldl Ripemd160.Write (Ripemd160.CRIPEMD160 buf) pieces) = ripemd160 m ∧
  Sha1.Finalize (foldl Sha1.Write (Sha1.CSHA1 buf) pieces) = sha1 m ∧
  CHash256_Finalize sha = fips_sha256 (fips_sha256 m) ∧
  CHash160_Finalize sha bufr = ripemd160 (fips_sha256 m).
Proof.
  intros Hb Hr Hl. split_and!; [by apply Ripemd160_pieces|by apply Sha1_pieces
    |by apply CHash256_pieces|by apply CHash160_pieces].
Qed.

(** ** Witnesses *)

Lemma sha2_streaming_is_fips_witness :
  Sha256.Finalize (foldl Sha256.Write (Sha256.CSHA256 (blank 64)) [str "hello "; str "world"])
  = fips_sha256 (concat [str "hello "; str "world"]) ∧
  Sha512.Finalize (foldl Sha512.Write (Sha512.CSHA512 (blank 128)) [str "hello "; str "world"])
  = fips_sha512 (concat [str "hello "; str "world"]).
Proof. apply (sha2_streaming_is_fips (blank 64) (blank 128) [str "hello "; str "world"]); by vm_compute. Defined.

Lemma bitcoin_hashes_witness :
  let m := concat [str "hello "; str "world"] in
  let sha := foldl Sha256.Write (Sha256.CSHA256 (blank 64)) [str "hello "; str "world"] in
  Ripemd160.Finalize (foldl Ripemd160.Write (Ripemd160.CRIPEMD160 (blank 64)) [str "hello "; str "world"]) = ripemd160 m ∧
  Sha1.Finalize (foldl Sha1.Write (Sha1.CSHA1 (blank 64)) [str "hello "; str "world"]) = sha1 m ∧
  CHash256_Finalize sha = fips_sha256 (fips_sha256 m) ∧
  CHash160_Finalize sha (blank 64) = ripemd160 (fips_sha256 m).
Proof. apply (bitcoin_hashes (blank 64) (blank 64) [str "hello "; str "world"]); by vm_compute. Defined.
