(* ===== verification/Script.v ===== *)
(** * script/script.h and script.cpp: opcodes, script numbers and scripts

    A CScript is its list of bytes, and a [const_iterator] into it is the list of
    bytes from the iterator to the end. An opcode is its byte. *)

From S2P Require Import Prelude.

Local Open Scope node_scope.

(** ** Opcodes *)

Definition OP_0 : Z := 0x00.
Definition OP_FALSE : Z := OP_0.
Definition OP_PUSHDATA1 : Z := 0x4c.
Definition OP_PUSHDATA2 : Z := 0x4d.
Definition OP_PUSHDATA4 : Z := 0x4e.
Definition OP_1NEGATE : Z := 0x4f.
Definition OP_RESERVED : Z := 0x50.
Definition OP_1 : Z := 0x51.
Definition OP_TRUE : Z := OP_1.
Definition OP_2 : Z := 0x52.
Definition OP_3 : Z := 0x53.
Definition OP_4 : Z := 0x54.
Definition OP_5 : Z := 0x55.
Definition OP_6 : Z := 0x56.
Definition OP_7 : Z := 0x57.
Definition OP_8 : Z := 0x58.
Definition OP_9 : Z := 0x59.
Definition OP_10 : Z := 0x5a.
Definition OP_11 : Z := 0x5b.
Definition OP_12 : Z := 0x5c.
Definition OP_13 : Z := 0x5d.
Definition OP_14 : Z := 0x5e.
Definition OP_15 : Z := 0x5f.
Definition OP_16 : Z := 0x60.
Definition OP_NOP : Z := 0x61.
Definition OP_VER : Z := 0x62.
Definition OP_IF : Z := 0x63.
Definition OP_NOTIF : Z := 0x64.
Definition OP_VERIF : Z := 0x65.
Definition OP_VERNOTIF : Z := 0x66.
Definition OP_ELSE : Z := 0x67.
Definition OP_ENDIF : Z := 0x68.
Definition OP_VERIFY : Z := 0x69.
Definition OP_RETURN : Z := 0x6a.
Definition OP_TOALTSTACK : Z := 0x6b.
Definition OP_FROMALTSTACK : Z := 0x6c.
Definition OP_2DROP : Z := 0x6d.
Definition OP_2DUP : Z := 0x6e.
Definition OP_3DUP : Z := 0x6f.
Definition OP_2OVER : Z := 0x70.
Definition OP_2ROT : Z := 0x71.
Definition OP_2SWAP : Z := 0x72.
Definition OP_IFDUP : Z := 0x73.
Definition OP_DEPTH : Z := 0x74.
Definition OP_DROP : Z := 0x75.
Definition OP_DUP : Z := 0x76.
Definition OP_NIP : Z := 0x77.
Definition OP_OVER : Z := 0x78.
Definition OP_PICK : Z := 0x79.
Definition OP_ROLL : Z := 0x7a.
Definition OP_ROT : Z := 0x7b.
Definition OP_SWAP : Z := 0x7c.
Definition OP_TUCK : Z := 0x7d.
Definition OP_CAT : Z := 0x7e.
Definition OP_SUBSTR : Z := 0x7f.
Definition OP_LEFT : Z := 0x80.
Definition OP_RIGHT : Z := 0x81.
Definition OP_SIZE : Z := 0x82.
Definition OP_INVERT : Z := 0x83.
Definition OP_AND : Z := 0x84.
Definition OP_OR : Z := 0x85.
Definition OP_XOR : Z := 0x86.
Definition OP_EQUAL : Z := 0x87.
Definition OP_EQUALVERIFY : Z := 0x88.
Definition OP_RESERVED1 : Z := 0x89.
Definition OP_RESERVED2 : Z := 0x8a.
Definition OP_1ADD : Z := 0x8b.
Definition OP_1SUB : Z := 0x8c.
Definition OP_2MUL : Z := 0x8d.
Definition OP_2DIV : Z := 0x8e.
Definition OP_NEGATE : Z := 0x8f.
Definition OP_ABS : Z := 0x90.
Definition OP_NOT : Z := 0x91.
Definition OP_0NOTEQUAL : Z := 0x92.
Definition OP_ADD : Z := 0x93.
Definition OP_SUB : Z := 0x94.
Definition OP_MUL : Z := 0x95.
Definition OP_DIV : Z := 0x96.
Definition OP_MOD : Z := 0x97.
Definition OP_LSHIFT : Z := 0x98.
Definition OP_RSHIFT : Z := 0x99.
Definition OP_BOOLAND : Z := 0x9a.
Definition OP_BOOLOR : Z := 0x9b.
Definition OP_NUMEQUAL : Z := 0x9c.
Definition OP_NUMEQUALVERIFY : Z := 0x9d.
Definition OP_NUMNOTEQUAL : Z := 0x9e.
Definition OP_LESSTHAN : Z := 0x9f.
Definition OP_GREATERTHAN : Z := 0xa0.
Definition OP_LESSTHANOREQUAL : Z := 0xa1.
Definition OP_GREATERTHANOREQUAL : Z := 0xa2.
Definition OP_MIN : Z := 0xa3.
Definition OP_MAX : Z := 0xa4.
Definition OP_WITHIN : Z := 0xa5.
Definition OP_RIPEMD160 : Z := 0xa6.
Definition OP_SHA1 : Z := 0xa7.
Definition OP_SHA256 : Z := 0xa8.
Definition OP_HASH160 : Z := 0xa9.
Definition OP_HASH256 : Z := 0xaa.
Definition OP_CODESEPARATOR : Z := 0xab.
Definition OP_CHECKSIG : Z := 0xac.
Definition OP_CHECKSIGVERIFY : Z := 0xad.
Definition OP_CHECKMULTISIG : Z := 0xae.
Definition OP_CHECKMULTISIGVERIFY : Z := 0xaf.
Definition OP_NOP1 : Z := 0xb0.
Definition OP_NOP2 : Z := 0xb1.
Definition OP_NOP3 : Z := 0xb2.
Definition OP_NOP4 : Z := 0xb3.
Definition OP_NOP5 : Z := 0xb4.
Definition OP_NOP6 : Z := 0xb5.
Definition OP_NOP7 : Z := 0xb6.
Definition OP_NOP8 : Z := 0xb7.
Definition OP_NOP9 : Z := 0xb8.
Definition OP_NOP10 : Z := 0xb9.
Definition OP_ZEROCOINMINT : Z := 0xc1.
Definition OP_ZEROCOINSPEND : Z := 0xc2.
Definition OP_SMALLINTEGER : Z := 0xfa.
Definition OP_PUBKEYS : Z := 0xfb.
Definition OP_PUBKEYHASH : Z := 0xfd.
Definition OP_PUBKEY : Z := 0xfe.
Definition OP_INVALIDOPCODE : Z := 0xff.

Definition MAX_SCRIPT_ELEMENT_SIZE : Z := 520.

(** ** CScriptNum *)

(** [scriptnum_error]. *)
Inductive scriptnum_error := ScriptNumOverflow | NonMinimalScriptNum.

Definition nMaxNumSize : Z := 4.

(** The loop [while (absvalue)]. *)
Fixpoint serialize_loop (fuel : nat) (absvalue : Z) : list Z :=
  match fuel with
  | O => []
  | S fuel => if absvalue =? 0 then []
              else Z.land absvalue 255 :: serialize_loop fuel (Z.shiftr absvalue 8)
  end.

(** On an [int64_t]: at most eight bytes and a sign byte. *)
Definition scriptnum_serialize (value : Z) : list Z :=
  if value =? 0 then []
  else
    let neg := value <? 0 in
    let absvalue := u64 (if neg then - value else value) in
    let result := serialize_loop 8 absvalue in
    let msb := default 0 (last result) in
    if negb (Z.land msb 128 =? 0) then result ++ [if neg then 128 else 0]
    else if neg then removelast result ++ [Z.lor msb 128]
    else result.

(** The little-endian bytes, with the sign in the top bit of the last one. *)
Definition set_vch (vch : list Z) : Z :=
  match last vch with
  | None => 0
  | Some msb =>
      let result := foldl (λ r '(i, b), Z.lor r (s64 (Z.shiftl b (8 * i)))) 0
                      (zip (seqZ 0 (Z.of_nat (length vch))) vch) in
      if negb (Z.land msb 128 =? 0)
      then - s64 (Z.land (u64 result) (u64 (Z.lnot (u64 (Z.shiftl 128 (8 * (Z.of_nat (length vch) - 1)))))))
      else result
  end.

Definition CScriptNum (vch : list Z) (fRequireMinimal : bool) : result scriptnum_error Z :=
  if nMaxNumSize <? Z.of_nat (length vch) then Throw ScriptNumOverflow
  else
    let msb := default 0 (last vch) in
    if fRequireMinimal && (0 <? Z.of_nat (length vch)) && (Z.land msb 127 =? 0)
       && ((Z.of_nat (length vch) <=? 1) || (Z.land (getz vch (Z.of_nat (length vch) - 2)) 128 =? 0))
    then Throw NonMinimalScriptNum
    else Ok (set_vch vch).

Definition getint (m_value : Z) : Z :=
  if 2147483647 <? m_value then 2147483647
  else if m_value <? -2147483648 then -2147483648
  else m_value.

(** ** Building scripts *)

(** [operator<<(const std::vector<unsigned char>&)]. *)
Definition push_data (script b : list Z) : list Z :=
  let n := Z.of_nat (length b) in
  (if n <? OP_PUSHDATA1 then script ++ [n]
   else if n <=? 255 then script ++ [OP_PUSHDATA1; n]
   else if n <=? 65535 then script ++ [OP_PUSHDATA2] ++ le_bytes 2 n
   else script ++ [OP_PUSHDATA4] ++ le_bytes 4 n) ++ b.

Definition push_opcode (script : list Z) (opcode : Z) : list Z := script ++ [opcode].

(** [push_int64]. *)
Definition push_int64 (script : list Z) (n : Z) : list Z :=
  if (n =? -1) || ((1 <=? n) && (n <=? 16)) then script ++ [u8 (n + (OP_1 - 1))]
  else if n =? 0 then script ++ [OP_0]
  else push_data script (scriptnum_serialize n).

(** ** Reading scripts *)

(** What GetOp2 leaves behind: its result, [opcodeRet], [*pvchRet] and [pc]. *)
Record getop := mkGetOp { op_ok : bool; op_code : Z; op_data : list Z; op_rest : list Z }.

Definition op_fail (pc : list Z) : getop := mkGetOp false OP_INVALIDOPCODE [] pc.

(** The operand of [nSize] bytes at [pc]. *)
Definition get_operand (opcode nSize : Z) (pc : list Z) : getop :=
  if Z.of_nat (length pc) <? nSize then op_fail pc
  else mkGetOp true opcode (take (Z.to_nat nSize) pc) (drop (Z.to_nat nSize) pc).

Definition GetOp2 (pc : list Z) : getop :=
  match pc with
  | [] => op_fail pc
  | opcode :: pc =>
      if opcode <=? OP_PUSHDATA4
      then if opcode <? OP_PUSHDATA1 then get_operand opcode opcode pc
           else if opcode =? OP_PUSHDATA1
           then match pc with
                | n :: pc => get_operand opcode n pc
                | [] => op_fail pc
                end
           else if opcode =? OP_PUSHDATA2
           then if (length pc <? 2)%nat then op_fail pc
                else get_operand opcode (le_val (take 2 pc)) (drop 2 pc)
           else if (length pc <? 4)%nat then op_fail pc
                else get_operand opcode (le_val (take 4 pc)) (drop 4 pc)
      else mkGetOp true opcode [] pc
  end.

(** [DecodeOP_N]; its assertion holds where it is called. *)
Definition DecodeOP_N (opcode : Z) : Z := if opcode =? OP_0 then 0 else opcode - (OP_1 - 1).
Definition EncodeOP_N (n : Z) : Z := if n =? 0 then OP_0 else OP_1 + n - 1.

(** [b] is a prefix of the bytes at [pc]. *)
Definition starts_with (b pc : list Z) : bool := bool_decide (take (length b) pc = b).

(** The inner loop of FindAndDelete: erase [b] at [pc] while it is there. *)
Fixpoint delete_here (fuel : nat) (b pc : list Z) (nFound : Z) : list Z * Z :=
  match fuel with
  | O => (pc, nFound)
  | S fuel => if (length b <=? length pc)%nat && starts_with b pc
              then delete_here fuel b (drop (length b) pc) (nFound + 1)
              else (pc, nFound)
  end.

(** The outer loop, [do ... while (GetOp(pc, opcode))]: [kept] is the script
    before [pc]. *)
Fixpoint FindAndDelete_loop (fuel : nat) (b kept pc : list Z) (nFound : Z) : list Z * Z :=
  match fuel with
  | O => (kept ++ pc, nFound)
  | S fuel =>
      let '(pc, nFound) := delete_here (length pc) b pc nFound in
      let op := GetOp2 pc in
      if op_ok op
      then FindAndDelete_loop fuel b (kept ++ take (length pc - length (op_rest op)) pc) (op_rest op) nFound
      else (kept ++ pc, nFound)
  end.

Definition FindAndDelete (script b : list Z) : list Z * Z :=
  match b with
  | [] => (script, 0)
  | _ => FindAndDelete_loop (length script + 1) b [] script 0
  end.

(** The opcodes of a script, up to the end or the first bad one: every loop
    [while (pc < end() && GetOp(pc, opcode, vch))] walks them. *)
Fixpoint script_ops (fuel : nat) (pc : list Z) : list getop :=
  match fuel, pc with
  | S fuel, _ :: _ => let op := GetOp2 pc in
                      if op_ok op then op :: script_ops fuel (op_rest op) else [op]
  | _, _ => []
  end.

Definition ops_of (pc : list Z) : list getop := script_ops (length pc) pc.

Definition Find (script : list Z) (op : Z) : Z :=
  Z.of_nat (length (filter (λ o, op_ok o ∧ op_code o = op) (ops_of script))).

(** The loop of GetSigOpCount(bool), over [n] and [lastOpcode]. *)
Definition sigop_step (fAccurate : bool) (st : Z * Z) (o : getop) : Z * Z :=
  let '(n, lastOpcode) := st in
  if negb (op_ok o) then st
  else
    let opcode := op_code o in
    (if (opcode =? OP_CHECKSIG) || (opcode =? OP_CHECKSIGVERIFY) then n + 1
     else if (opcode =? OP_CHECKMULTISIG) || (opcode =? OP_CHECKMULTISIGVERIFY)
     then if fAccurate && (OP_1 <=? lastOpcode) && (lastOpcode <=? OP_16)
          then n + DecodeOP_N lastOpcode else n + 20
     else n, opcode).

Definition GetSigOpCount (script : list Z) (fAccurate : bool) : Z :=
  fst (foldl (sigop_step fAccurate) (0, OP_INVALIDOPCODE) (ops_of script)).

Definition IsPayToScriptHash (script : list Z) : bool :=
  (length script =? 23)%nat && (getz script 0 =? OP_HASH160) && (getz script 1 =? 20)
  && (getz script 22 =? OP_EQUAL).

Definition IsZerocoinMint (script : list Z) : bool :=
  match script with op :: _ => op =? OP_ZEROCOINMINT | [] => false end.

Definition IsZerocoinSpend (script : list Z) : bool :=
  match script with op :: _ => op =? OP_ZEROCOINSPEND | [] => false end.

Definition IsUnspendable (script : list Z) : bool :=
  match script with op :: _ => op =? OP_RETURN | [] => false end.

Definition IsPushOnly (pc : list Z) : bool :=
  forallb (λ o, op_ok o && (op_code o <=? OP_16)) (ops_of pc).

(** GetSigOpCount(const CScript&): the last push of the script signature. *)
Definition GetSigOpCount_p2sh (script scriptSig : list Z) : Z :=
  if negb (IsPayToScriptHash script) then GetSigOpCount script true
  else if IsPushOnly scriptSig
       then GetSigOpCount (default [] (op_data <$> last (ops_of scriptSig))) true
       else 0.

(** The loop of IsNormalPaymentScript, which goes on after a failed GetOp. *)
Fixpoint IsNormalPaymentScript_loop (fuel : nat) (pc : list Z) (i : Z) : bool :=
  match fuel, pc with
  | S fuel, _ :: _ =>
      let op := GetOp2 pc in
      let opcode := op_code op in
      if (i =? 0) && negb (opcode =? OP_DUP) then false
      else if (i =? 1) && negb (opcode =? OP_HASH160) then false
      else if (i =? 3) && negb (opcode =? OP_EQUALVERIFY) then false
      else if (i =? 4) && negb (opcode =? OP_CHECKSIG) then false
      else if i =? 5 then false
      else IsNormalPaymentScript_loop fuel (op_rest op) (i + 1)
  | _, _ => true
  end.

Definition IsNormalPaymentScript (script : list Z) : bool :=
  if negb (length script =? 25)%nat then false
  else IsNormalPaymentScript_loop 25 script 0.

(** ** Lemmas on script numbers *)

(** No byte string ends in a superfluous zero digit. *)
Definition canonical_digits (ds : list Z) : Prop := last ds ≠ Some 0.

Lemma le_val_snoc v b : le_val (v ++ [b]) = le_val v + b * 2 ^ (8 * Z.of_nat (length v)).
Proof.
  induction v as [|x v IH]; cbn [le_val app length].
  - change (8 * Z.of_nat 0) with 0. lia.
  - rewrite IH. replace (8 * Z.of_nat (S (length v))) with (8 + 8 * Z.of_nat (length v)) by lia.
    rewrite Z.pow_add_r by lia. lia.
Qed.

Lemma le_val_0 ds : Forall is_byte ds → canonical_digits ds → le_val ds = 0 → ds = [].
Proof.
  intros H. induction H as [|b r [? ?] Hr IH]; [done|]. intros Hc Hv. cbn [le_val] in Hv.
  pose proof (le_val_range r Hr). assert (le_val r = 0 ∧ b = 0) as [E ->] by lia.
  unfold canonical_digits in *. destruct r as [|c r]; [by destruct Hc|].
  discriminate IH; [exact Hc|done].
Qed.

Lemma serialize_loop_le_val fuel ds :
  Forall is_byte ds → canonical_digits ds → (length ds <= fuel)%nat →
  serialize_loop fuel (le_val ds) = ds.
Proof.
  revert ds. induction fuel as [|fuel IH]; intros ds Hd Hc Hl.
  { destruct ds; simpl in *; [done|lia]. }
  cbn [serialize_loop]. destruct (Z.eqb_spec (le_val ds) 0) as [E|E].
  { symmetry. by apply le_val_0. }
  destruct ds as [|b r]; [done|]. inversion Hd as [|?? [? ?] Hr]; subst. cbn [le_val] in *.
  rewrite land_ff, shiftr_div by lia. f_equal; [divmod_lia|].
  replace ((b + 256 * le_val r) / 2 ^ 8) with (le_val r) by (change (2 ^ 8) with 256; divmod_lia).
  apply IH; [done| |simpl in Hl; lia].
  unfold canonical_digits in *. by destruct r.
Qed.

Lemma serialize_loop_spec fuel v :
  0 <= v < 2 ^ (8 * Z.of_nat fuel) →
  Forall is_byte (serialize_loop fuel v) ∧ le_val (serialize_loop fuel v) = v ∧
  canonical_digits (serialize_loop fuel v) ∧ (length (serialize_loop fuel v) <= fuel)%nat.
Proof.
  revert v. induction fuel as [|fuel IH]; intros v Hv; cbn [serialize_loop].
  { assert (v = 0) as -> by (simpl in Hv; lia). done. }
  destruct (Z.eqb_spec v 0) as [->|Hne]; [split_and!; [constructor|done|done|simpl; lia]|].
  replace (8 * Z.of_nat (S fuel)) with (8 + 8 * Z.of_nat fuel) in Hv by lia.
  rewrite Z.pow_add_r in Hv by lia. rewrite land_ff, shiftr_div by lia. change (2 ^ 8) with 256 in *.
  destruct (IH (v / 256)) as (H1 & H2 & H3 & H4); [divmod_lia|]. split_and!.
  - constructor; [|done]. unfold in_uw. divmod_lia.
  - cbn [le_val]. rewrite H2. divmod_lia.
  - unfold canonical_digits in *. destruct (serialize_loop fuel (v / 256)) eqn:E; [|done].
    simpl in *. intros [=]. divmod_lia.
  - cbn [length]. lia.
Qed.

Lemma zip_seqZ_snoc {A} (v : list A) b :
  zip (seqZ 0 (Z.of_nat (length (v ++ [b])))) (v ++ [b])
  = zip (seqZ 0 (Z.of_nat (length v))) v ++ [(Z.of_nat (length v), b)].
Proof.
  rewrite length_app. cbn [length]. rewrite Nat2Z.inj_add, seqZ_app by lia.
  rewrite zip_with_app by (rewrite ?length_seqZ; lia). f_equal.
Qed.

Lemma shift_bound (v : list Z) : (length v <= 7)%nat →
  0 < 2 ^ (8 * Z.of_nat (length v)) ∧ 2 ^ (8 * Z.of_nat (length v)) * 256 <= 2 ^ 64 ∧
  128 * 2 ^ (8 * Z.of_nat (length v)) = 2 ^ (8 * Z.of_nat (length v) + 7).
Proof.
  intros. split_and!; [apply Z.pow_pos_nonneg; lia| |rewrite Z.pow_add_r by lia; lia].
  change 256 with (2 ^ 8). rewrite <- Z.pow_add_r by lia. apply Z.pow_le_mono_r; lia.
Qed.

(** The [lor] of the shifted bytes is the sum, but for the top bit of byte 7. *)
Lemma foldl_shift_or v b :
  Forall is_byte (v ++ [b]) → (length v <= 7)%nat →
  foldl (λ r '(i, b), Z.lor r (s64 (Z.shiftl b (8 * i)))) 0
        (zip (seqZ 0 (Z.of_nat (length (v ++ [b])))) (v ++ [b])) = s64 (le_val (v ++ [b])).
Proof.
  assert (∀ v b P, Forall is_byte (v ++ [b]) → (length v <= 7)%nat → P = le_val v →
    Z.lor P (s64 (Z.shiftl b (8 * Z.of_nat (length v)))) = s64 (le_val (v ++ [b]))) as step.
  { clear. intros v b P [Hv [Hb _]%Forall_cons]%Forall_app Hl ->.
    pose proof (le_val_range v Hv). destruct (shift_bound v Hl) as (? & ? & E).
    rewrite le_val_snoc, shiftl_mul by lia. unfold in_uw in Hb.
    set (q := 2 ^ (8 * Z.of_nat (length v))) in *.
    assert (∃ c, -128 <= c ∧ s64 (b * q) = c * q ∧ s64 (le_val v + b * q) = le_val v + c * q)
      as (c & Hc & -> & ->).
    { destruct (Z.lt_ge_cases (b * q) (2 ^ 63)).
      - exists b. split; [lia|]. split; rewrite swrap_small; unfold in_sw; try nia.
        assert (le_val v + b * q < 2 ^ 63); [|nia].
        assert ((2 ^ 63) mod q = 0) as Hm.
        { unfold q. replace (2 ^ 63) with (2 ^ (63 - 8 * Z.of_nat (length v)) * 2 ^ (8 * Z.of_nat (length v)))
            by (rewrite <- Z.pow_add_r by lia; f_equal; lia). apply Z.mod_mul; lia. }
        apply Z.mod_divide in Hm as [k Hk]; [|lia].
        assert (b < k) by nia. assert ((b + 1) * q <= k * q) by (apply Z.mul_le_mono_nonneg_r; lia). lia.
      - assert (q = 2 ^ 56) as Eq.
        { unfold q. f_equal. assert (length v <> 6 ∧ length v <> 5 ∧ length v <> 4 ∧ length v <> 3
            ∧ length v <> 2 ∧ length v <> 1 ∧ length v <> 0)%nat; [|lia].
          unfold q in *. split_and!; intros Hn; rewrite Hn in *; simpl in *; lia. }
        exists (b - 256). split; [lia|]. unfold swrap. rewrite Eq in *. split.
        + replace (b * 2 ^ 56 + 2 ^ (64 - 1)) with ((b * 2 ^ 56 - 2 ^ 63) + 1 * 2 ^ 64) by lia.
          rewrite Z.mod_add, Z.mod_small by lia. lia.
        + replace (le_val v + b * 2 ^ 56 + 2 ^ (64 - 1)) with ((le_val v + b * 2 ^ 56 - 2 ^ 63) + 1 * 2 ^ 64) by lia.
          rewrite Z.mod_add, Z.mod_small by lia. lia. }
    rewrite Z.lor_comm, (lor_add _ _ (8 * Z.of_nat (length v))); fold q; [lia|lia|lia|].
    by apply Z.mod_mul; lia. }
  revert b. induction v as [|c v IH] using rev_ind; intros b Hv Hl.
  - rewrite zip_seqZ_snoc, foldl_app. cbn [foldl]. by apply step.
  - rewrite zip_seqZ_snoc, foldl_app. cbn [foldl]. apply step; [done|done|].
    apply Forall_app in Hv as [Hv _]. rewrite length_app in Hl. simpl in Hl.
    rewrite IH by (done || lia). rewrite swrap_small; [done|lia|].
    pose proof (le_val_range _ Hv). rewrite length_app in *. simpl in *.
    assert (2 ^ (8 * Z.of_nat (length v + 1)) <= 2 ^ 56) by (apply Z.pow_le_mono_r; lia).
    unfold in_sw. lia.
Qed.

(** Clearing a bit that is set. *)
Lemma land_lnot_pow2 x k : 0 <= k → Z.testbit x k = true → Z.land x (Z.lnot (2 ^ k)) = x - 2 ^ k.
Proof.
  intros Hk Hx. rewrite <- Z.ldiff_land. symmetry. apply Z.sub_nocarry_ldiff.
  apply Z.bits_inj'. intros i Hi. rewrite Z.ldiff_spec, Z.pow2_bits_eqb, Z.bits_0 by lia.
  destruct (Z.eqb_spec k i) as [<-|]; [by rewrite Hx|done].
Qed.

Lemma land_wrap a b : Z.land (u64 a) (u64 b) = u64 (Z.land a b).
Proof.
  apply Z.bits_inj'. intros i Hi. rewrite Z.land_spec, !testbit_wrap, Z.land_spec by lia.
  by destruct (i <? 64), (Z.testbit a i), (Z.testbit b i).
Qed.

Lemma land_128 b : is_byte b → (Z.land b 128 =? 0) = (b <? 128).
Proof. intros [? ?]. apply (land_top_zero b 7); simpl; lia. Qed.

Lemma land_127 b : is_byte b → Z.land b 127 = if b <? 128 then b else b - 128.
Proof.
  intros [? ?]. change 127 with (Z.ones 7). rewrite Z.land_ones by lia. change (2 ^ 7) with 128.
  destruct (Z.ltb_spec b 128); divmod_lia.
Qed.

(** set_vch reads a magnitude and a sign. *)
Lemma set_vch_snoc v b :
  Forall is_byte (v ++ [b]) → (length v <= 7)%nat →
  set_vch (v ++ [b]) = if b <? 128 then le_val (v ++ [b]) else - le_val (v ++ [b - 128]).
Proof.
  intros Hv Hl. unfold set_vch. rewrite last_snoc, foldl_shift_or by done.
  pose proof (le_val_range _ Hv) as Hr. apply Forall_app in Hv as [Hv [Hb _]%Forall_cons].
  rewrite land_128 by done. unfold in_uw in Hb. pose proof (le_val_range v Hv).
  destruct (shift_bound v Hl) as (? & ? & E). rewrite !le_val_snoc in *.
  replace (8 * (Z.of_nat (length (v ++ [b])) - 1)) with (8 * Z.of_nat (length v))
    by (rewrite length_app; simpl; lia).
  set (q := 2 ^ (8 * Z.of_nat (length v))) in *.
  destruct (Z.ltb_spec b 128); simpl negb; cbv iota; [rewrite swrap_small; unfold in_sw; nia|].
  assert (Z.land (u64 (s64 (le_val v + b * q))) (u64 (Z.lnot (u64 (Z.shiftl 128 (8 * Z.of_nat (length v))))))
          = le_val v + (b - 128) * q) as ->; [|f_equal; apply swrap_small; unfold in_sw; nia].
  rewrite shiftl_mul by lia. fold q. rewrite E, wrap_swrap, land_wrap by lia.
  rewrite (wrap_small 64 (2 ^ _)) by (rewrite <- E; unfold in_uw; lia).
  rewrite land_lnot_pow2, <- E; [rewrite wrap_small; unfold in_uw; nia|lia|].
  rewrite testbit_top; [apply Z.leb_le; rewrite <- E; nia|lia|].
  replace (8 * Z.of_nat (length v) + 7 + 1) with (8 + 8 * Z.of_nat (length v)) by lia.
  rewrite Z.pow_add_r by lia. fold q. change (2 ^ 8) with 256. nia.
Qed.

Lemma snoc_cases {A} (l : list A) : l = [] ∨ ∃ w m, l = w ++ [m].
Proof. destruct l as [|w m] using rev_ind; eauto. Qed.

(** The shapes a serialized number has. *)
Lemma scriptnum_serialize_shape n :
  n ≠ 0 → - 2 ^ 63 < n < 2 ^ 63 →
  ∃ v m, Forall is_byte (v ++ [m]) ∧ m ≠ 0 ∧ le_val (v ++ [m]) = Z.abs n ∧ (length v <= if (m <? 128)%Z then 7 else 6)%nat ∧
  scriptnum_serialize n =
    if m <? 128 then v ++ [if n <? 0 then m + 128 else m] else v ++ [m; if n <? 0 then 128 else 0].
Proof.
  intros Hn Hr. unfold scriptnum_serialize. rewrite (proj2 (Z.eqb_neq n 0)) by done.
  replace (if n <? 0 then - n else n) with (Z.abs n) by (destruct (Z.ltb_spec n 0); lia).
  rewrite wrap_small by (unfold in_uw; lia).
  destruct (serialize_loop_spec 8 (Z.abs n)) as (H1 & H2 & H3 & H4); [simpl; lia|].
  destruct (snoc_cases (serialize_loop 8 (Z.abs n))) as [E|(v & m & E)]; rewrite E in *.
  { simpl in H2. lia. }
  rewrite length_app in H4. simpl in H4. unfold canonical_digits in H3. rewrite last_snoc in *.
  assert (is_byte m) as Hm by (by apply Forall_app in H1 as [_ [? _]%Forall_cons]).
  exists v, m. split_and!; [done|congruence|done| |].
  { destruct (Z.ltb_spec m 128); [lia|]. destruct (Nat.eq_dec (length v) 7%nat) as [E7|]; [|lia].
    rewrite le_val_snoc, E7 in H2. apply Forall_app in H1 as [Hv _].
    pose proof (le_val_range v Hv).
    change (8 * Z.of_nat 7) with 56 in H2. nia. }
  cbn [default from_option id]. rewrite land_128 by done.
  destruct (Z.ltb_spec m 128); simpl negb; cbv iota.
  - destruct (n <? 0); [|done]. rewrite removelast_last. do 2 f_equal. unfold in_uw in Hm.
    rewrite Z.lor_comm, (lor_add 128 m 7) by (done || lia). lia.
  - by rewrite <- app_assoc.
Qed.

(** A scriptnum_serialize image is one set_vch inverts. *)
Lemma set_vch_serialize n : - 2 ^ 63 < n < 2 ^ 63 → set_vch (scriptnum_serialize n) = n.
Proof.
  intros Hr. destruct (Z.eq_dec n 0) as [->|Hn]; [done|].
  destruct (scriptnum_serialize_shape n Hn Hr) as (v & m & H1 & H2 & H3 & H4 & ->).
  assert (is_byte m) as Hm by (by apply Forall_app in H1 as [_ [? _]%Forall_cons]).
  assert (Forall is_byte v) as Hv by (by apply Forall_app in H1 as [? _]).
  unfold in_uw in Hm. destruct (Z.ltb_spec m 128).
  - rewrite set_vch_snoc; [|apply Forall_app_2, Forall_singleton; [done|]; destruct (n <? 0); unfold in_uw; lia|done].
    destruct (Z.ltb_spec n 0); [|rewrite (proj2 (Z.ltb_lt _ _)); lia].
    rewrite (proj2 (Z.ltb_ge _ _)) by lia. replace (m + 128 - 128) with m by lia. lia.
  - replace (v ++ [m; if n <? 0 then 128 else 0]) with ((v ++ [m]) ++ [if n <? 0 then 128 else 0])
      by by rewrite <- app_assoc.
    rewrite set_vch_snoc; [|apply Forall_app_2, Forall_singleton; [done|]; destruct (n <? 0); unfold in_uw; lia
                           |rewrite length_app; simpl; lia].
    rewrite !(le_val_snoc (v ++ [m])). destruct (Z.ltb_spec n 0); simpl; lia.
Qed.

(** What the minimality test of CScriptNum accepts. *)
Definition minimal_num (vch : list Z) : bool :=
  match rev vch with
  | [] => true
  | b :: r => negb (Z.land b 127 =? 0)
              || match r with [] => false | c :: _ => negb (Z.land c 128 =? 0) end
  end.

Lemma CScriptNum_minimal vch n :
  CScriptNum vch true = Ok n ↔ (length vch <= 4)%nat ∧ minimal_num vch = true ∧ n = set_vch vch.
Proof.
  unfold CScriptNum, minimal_num. change nMaxNumSize with 4.
  destruct (Z.ltb_spec 4 (Z.of_nat (length vch))); [split; [done|lia]|].
  destruct (snoc_cases vch) as [->|(v & b & ->)]; [split; [intros [= <-]|]; naive_solver lia|].
  rewrite last_snoc, rev_app_distr, length_app in *. cbn [length rev app default from_option id andb] in *.
  rewrite (proj2 (Z.ltb_lt 0 _)) by lia. cbn [andb].
  assert ((Z.of_nat (length v + 1) <=? 1)
          || (Z.land (getz (v ++ [b]) (Z.of_nat (length v + 1) - 2)) 128 =? 0)
          = negb match rev v with [] => false | c :: _ => negb (Z.land c 128 =? 0) end) as ->.
  { destruct (snoc_cases v) as [->|(w & c & ->)]; [done|].
    rewrite rev_app_distr, length_app. cbn [length rev app].
    rewrite (proj2 (Z.leb_gt _ _)), negb_involutive by lia. cbn [orb]. unfold getz.
    replace (Z.to_nat _) with (length w) by lia. rewrite <- app_assoc. simpl.
    by rewrite app_nth2, Nat.sub_diag by lia. }
  destruct (Z.land b 127 =? 0), (rev v) as [|c r]; simpl;
    try destruct (Z.land c 128 =? 0); simpl; split; try done;
    try (intros [= <-]; split_and!; [lia|done|done]); naive_solver.
Qed.

(** The digits of a canonical byte string. *)
Lemma serialize_canonical ds neg :
  Forall is_byte ds → canonical_digits ds → ds ≠ [] → (length ds <= 7)%nat →
  ∃ w m, ds = w ++ [m] ∧
  scriptnum_serialize (if neg : bool then - le_val ds else le_val ds) =
    if m <? 128 then w ++ [if neg then Z.lor m 128 else m] else ds ++ [if neg then 128 else 0].
Proof.
  intros Hd Hc Hne Hl. destruct (snoc_cases ds) as [?|(w & m & E)]; [done|]. exists w, m. split; [done|].
  assert (0 < le_val ds).
  { pose proof (le_val_range ds Hd). destruct (Z.eq_dec (le_val ds) 0); [|lia].
    by apply le_val_0 in Hc. }
  assert (le_val ds < 2 ^ 56).
  { pose proof (le_val_range ds Hd).
    assert (2 ^ (8 * Z.of_nat (length ds)) <= 2 ^ 56) by (apply Z.pow_le_mono_r; lia). lia. }
  unfold scriptnum_serialize. rewrite (proj2 (Z.eqb_neq _ 0)) by (destruct neg; lia).
  replace ((if neg then - le_val ds else le_val ds) <? 0) with neg by (destruct neg; lia).
  replace (if neg then - (if neg then - le_val ds else le_val ds) else if neg then - le_val ds else le_val ds)
    with (le_val ds) by (destruct neg; lia).
  rewrite wrap_small, serialize_loop_le_val by (unfold in_uw; done || lia).
  rewrite E, last_snoc. cbn [default from_option id].
  assert (is_byte m) as Hm by (subst ds; by apply Forall_app in Hd as [_ [? _]%Forall_cons]).
  rewrite land_128 by done. destruct (m <? 128); simpl negb; cbv iota; [|done].
  destruct neg; [by rewrite removelast_last|done].
Qed.

Lemma minimal_is_serialize vch :
  Forall is_byte vch → (length vch <= 4)%nat → minimal_num vch = true →
  scriptnum_serialize (set_vch vch) = vch ∧ - 2 ^ 31 < set_vch vch < 2 ^ 31.
Proof.
  intros Hv Hl Hm. destruct (snoc_cases vch) as [->|(v & b & ->)]; [done|].
  pose proof Hv as [Hv' [Hb _]%Forall_cons]%Forall_app. rewrite length_app in Hl. simpl in Hl.
  rewrite set_vch_snoc by (done || lia). unfold minimal_num in Hm. rewrite rev_app_distr in Hm. cbn in Hm.
  rewrite land_127 in Hm by done. set (c := if b <? 128 then b else b - 128) in *.
  assert (is_byte c ∧ 0 <= c < 128) as [Hc Hc'].
  { unfold in_uw in *. unfold c. destruct (Z.ltb_spec b 128); lia. }
  replace (if b <? 128 then le_val (v ++ [b]) else - le_val (v ++ [b - 128]))
    with (if 128 <=? b then - le_val (v ++ [c]) else le_val (v ++ [c]))
    by (unfold c; destruct (Z.ltb_spec b 128), (Z.leb_spec 128 b); try lia; done).
  assert (0 <= le_val (v ++ [c]) < 2 ^ 31) as Hr.
  { rewrite le_val_snoc. pose proof (le_val_range v Hv').
    assert (0 < 2 ^ (8 * Z.of_nat (length v)) <= 2 ^ 24)
      by (split; [apply Z.pow_pos_nonneg|apply Z.pow_le_mono_r]; lia). nia. }
  split; [|destruct (128 <=? b); lia].
  destruct (Z.eqb_spec c 0) as [E|E]; simpl in Hm.
  - destruct (snoc_cases v) as [->|(w & d & ->)]; [done|]. rewrite rev_app_distr in Hm. cbn in Hm.
    apply Forall_app in Hv' as Hd. destruct Hd as [_ [Hd _]%Forall_cons].
    rewrite land_128 in Hm by done. apply negb_true_iff, Z.ltb_ge in Hm.
    rewrite E, (le_val_snoc (w ++ [d]) 0), Z.mul_0_l, Z.add_0_r.
    destruct (serialize_canonical (w ++ [d]) (128 <=? b)) as (w' & d' & [<- <-]%app_inj_tail & ->);
      [done|unfold canonical_digits; rewrite last_snoc; intros [=]; lia|by destruct w|lia|].
    rewrite (proj2 (Z.ltb_ge _ _)) by lia. do 2 f_equal. unfold c in E.
    unfold in_uw in Hb. destruct (Z.ltb_spec b 128), (Z.leb_spec 128 b); lia.
  - destruct (serialize_canonical (v ++ [c]) (128 <=? b)) as (w' & d' & [<- <-]%app_inj_tail & ->);
      [by apply Forall_app_2, Forall_singleton|unfold canonical_digits; rewrite last_snoc; congruence
      |by destruct v|rewrite length_app; simpl; lia|].
    rewrite (proj2 (Z.ltb_lt _ _)) by lia. do 2 f_equal.
    destruct (Z.leb_spec 128 b).
    + rewrite Z.lor_comm, (lor_add 128 c 7) by (done || lia). unfold c. destruct (Z.ltb_spec b 128); lia.
    + unfold c. destruct (Z.ltb_spec b 128); lia.
Qed.

Lemma serialize_is_minimal n :
  - 2 ^ 31 < n < 2 ^ 31 →
  (length (scriptnum_serialize n) <= 4)%nat ∧ minimal_num (scriptnum_serialize n) = true.
Proof.
  intros Hr. destruct (Z.eq_dec n 0) as [->|Hn]; [split; [simpl; lia|done]|].
  destruct (scriptnum_serialize_shape n Hn ltac:(lia)) as (v & m & H1 & H2 & H3 & H4 & ->).
  pose proof H1 as [Hv [Hm _]%Forall_cons]%Forall_app. rewrite le_val_snoc in H3.
  pose proof (le_val_range v Hv). unfold in_uw in Hm.
  assert ((length v <= 3)%nat ∧ (128 <= m → (length v <= 2)%nat)) as [? ?].
  { assert (∀ k, 0 <= k → 2 ^ k <= Z.abs n → k < 31) as Hk
      by (intros k ??; apply (Z.pow_lt_mono_r_iff 2); lia).
    destruct (shift_bound v) as (? & ? & E); [destruct (m <? 128); lia|].
    split; [|intros].
    - specialize (Hk (8 * Z.of_nat (length v)) ltac:(lia)). nia.
    - specialize (Hk (8 * Z.of_nat (length v) + 7) ltac:(lia)). nia. }
  unfold minimal_num. destruct (Z.ltb_spec m 128); rewrite ?length_app; simpl length; (split; [lia|]).
  - rewrite rev_app_distr. cbn [rev app]. rewrite land_127 by (destruct (n <? 0); unfold in_uw; lia).
    destruct (Z.ltb_spec n 0).
    + rewrite (proj2 (Z.ltb_ge _ _)), (proj2 (Z.eqb_neq _ _)) by lia. done.
    + rewrite (proj2 (Z.ltb_lt _ _)), (proj2 (Z.eqb_neq _ _)) by lia. done.
  - rewrite rev_app_distr. cbn [rev app]. rewrite (land_128 m), (proj2 (Z.ltb_ge m 128)) by (unfold in_uw; lia).
    apply orb_true_r.
Qed.

(** Script numbers: every 64-bit number but the least survives being
    serialized and read back, and with minimal encoding required CScriptNum
    accepts a byte string exactly if it is the serialization of the number it
    returns and that number has 31 bits and a sign, so no number has two
    spellings. *)
Theorem script_numbers_are_minimal :
  (∀ n, - 2 ^ 63 < n < 2 ^ 63 → set_vch (scriptnum_serialize n) = n) ∧
  (∀ vch n, Forall is_byte vch →
     CScriptNum vch true = Ok n ↔ vch = scriptnum_serialize n ∧ - 2 ^ 31 < n < 2 ^ 31).
Proof.
  split; [apply set_vch_serialize|]. intros vch n Hv. rewrite CScriptNum_minimal. split.
  - intros (Hl & Hm & ->). destruct (minimal_is_serialize vch Hv Hl Hm). done.
  - intros [-> Hn]. destruct (serialize_is_minimal n Hn). rewrite set_vch_serialize by lia. done.
Qed.

Lemma script_numbers_are_minimal_witness :
  set_vch (scriptnum_serialize (-128)) = -128 ∧
  CScriptNum [0x80; 0x80] true = Ok (-128).
Proof.
  split.
  - apply (proj1 script_numbers_are_minimal). lia.
  - apply (proj2 script_numbers_are_minimal).
    + repeat constructor; vm_compute; congruence.
    + split; [reflexivity|lia].
Defined.

(** ** Scripts as sequences of operations *)

(** What [operator<<] appends: a byte vector, an opcode or a number. *)
Inductive item := IPush (b : list Z) | IOp (opcode : Z) | INum (n : Z).

#[export] Instance item_eq_dec : EqDecision item.
Proof. solve_decision. Defined.

Definition append_item (script : list Z) (it : item) : list Z :=
  match it with
  | IPush b => push_data script b
  | IOp o => push_opcode script o
  | INum n => push_int64 script n
  end.

Definition build_script (items : list item) : list Z := foldl append_item [] items.

Definition item_ok (it : item) : Prop :=
  match it with
  | IPush b => Z.of_nat (length b) < 2 ^ 32
  | IOp o => OP_PUSHDATA4 < o <= 255
  | INum n => - 2 ^ 63 < n < 2 ^ 63
  end.

(** The opcode and the operand an item is read back as. *)
Definition push_op (b : list Z) : Z * list Z :=
  let n := Z.of_nat (length b) in
  (if n <? 76 then n else if n <=? 255 then OP_PUSHDATA1
   else if n <=? 65535 then OP_PUSHDATA2 else OP_PUSHDATA4, b).

Definition item_op (it : item) : Z * list Z :=
  match it with
  | IPush b => push_op b
  | IOp o => (o, [])
  | INum n => if n =? -1 then (OP_1NEGATE, [])
              else if (1 <=? n) && (n <=? 16) then (EncodeOP_N n, [])
              else push_op (scriptnum_serialize n)
  end.

Definition item_bytes (it : item) : list Z := append_item [] it.
Definition script_bytes (items : list item) : list Z := flat_map item_bytes items.

Lemma append_item_bytes script it : append_item script it = script ++ item_bytes it.
Proof.
  unfold item_bytes. destruct it as [b|o|n]; simpl; unfold push_int64, push_data; repeat case_match;
    simpl; rewrite <- ?app_assoc; done.
Qed.

Lemma build_script_bytes items : build_script items = script_bytes items.
Proof.
  unfold build_script, script_bytes. rewrite <- (app_nil_l (flat_map _ _)). generalize (@nil Z).
  induction items as [|it items IH]; intros s; simpl; [by rewrite app_nil_r|].
  by rewrite IH, append_item_bytes, app_assoc.
Qed.

Lemma get_operand_app opcode b rest :
  get_operand opcode (Z.of_nat (length b)) (b ++ rest) = mkGetOp true opcode b rest.
Proof.
  unfold get_operand. rewrite length_app, (proj2 (Z.ltb_ge _ _)), Nat2Z.id by lia.
  by rewrite take_app_length, drop_app_length.
Qed.

Lemma GetOp2_push b rest :
  Z.of_nat (length b) < 2 ^ 32 →
  GetOp2 (push_data [] b ++ rest) = mkGetOp true (push_op b).1 (push_op b).2 rest.
Proof.
  intros Hb. unfold push_data, push_op. cbn [fst snd].
  set (n := Z.of_nat (length b)) in *.
  change OP_PUSHDATA1 with 76. destruct (Z.ltb_spec n 76); [|destruct (Z.leb_spec n 255)];
    [| |destruct (Z.leb_spec n 65535)]; rewrite <- ?app_assoc; cbn [app].
  - unfold GetOp2. change OP_PUSHDATA4 with 78. change OP_PUSHDATA1 with 76.
    rewrite (proj2 (Z.leb_le n 78)), (proj2 (Z.ltb_lt n 76)) by lia. apply get_operand_app.
  - apply get_operand_app.
  - unfold GetOp2. simpl (_ <=? _). cbv iota. simpl (_ <? 76).
    rewrite length_app, length_le_bytes. simpl (2 + _ <? 2)%nat. cbv iota.
    rewrite take_app_length', drop_app_length' by (by rewrite length_le_bytes).
    rewrite le_val_le_bytes_small by (simpl; lia). apply get_operand_app.
  - unfold GetOp2. simpl (_ <=? _). cbv iota. simpl (_ <? 76).
    change (OP_PUSHDATA4 =? OP_PUSHDATA1) with false. change (OP_PUSHDATA4 =? OP_PUSHDATA2) with false. cbv iota.
    rewrite length_app, length_le_bytes. simpl (4 + _ <? 4)%nat. cbv iota.
    rewrite take_app_length', drop_app_length' by (by rewrite length_le_bytes).
    rewrite le_val_le_bytes_small by (simpl; lia). apply get_operand_app.
Qed.

Lemma GetOp2_opcode o rest : OP_PUSHDATA4 < o → GetOp2 (o :: rest) = mkGetOp true o [] rest.
Proof. intros. unfold GetOp2. by rewrite (proj2 (Z.leb_gt _ _)). Qed.

Lemma length_scriptnum_serialize n :
  - 2 ^ 63 < n < 2 ^ 63 → (length (scriptnum_serialize n) <= 9)%nat.
Proof.
  intros Hn. destruct (Z.eq_dec n 0) as [->|H0]; [simpl; lia|].
  destruct (scriptnum_serialize_shape n H0 Hn) as (v & m & _ & _ & _ & H & ->).
  destruct (m <? 128); rewrite length_app; simpl; lia.
Qed.

Lemma GetOp2_item it rest :
  item_ok it → GetOp2 (item_bytes it ++ rest) = mkGetOp true (item_op it).1 (item_op it).2 rest.
Proof.
  destruct it as [b|o|n]; cbn [item_ok item_op]; intros H.
  - by apply GetOp2_push.
  - apply GetOp2_opcode. apply H.
  - pose proof (length_scriptnum_serialize n H). unfold item_bytes. cbn [append_item].
    unfold push_int64. destruct (Z.eqb_spec n (-1)) as [->|]; [done|]. cbn [orb].
    destruct (Z.leb_spec 1 n), (Z.leb_spec n 16); cbn [andb].
    1: { rewrite wrap_small by (unfold in_uw; change OP_1 with 81; lia). cbn [app fst snd].
         unfold EncodeOP_N. rewrite (proj2 (Z.eqb_neq n 0)) by lia.
         replace (n + (OP_1 - 1)) with (OP_1 + n - 1) by lia. apply GetOp2_opcode.
         change OP_1 with 81. change OP_PUSHDATA4 with 78. lia. }
    all: destruct (Z.eqb_spec n 0) as [->|]; [exact (GetOp2_push [] rest ltac:(simpl; lia))|]; apply GetOp2_push; lia.
Qed.

Lemma item_bytes_ne it : item_bytes it ≠ [].
Proof.
  unfold item_bytes. destruct it; simpl; unfold push_int64, push_data; repeat case_match; done.
Qed.

Lemma length_item_bytes it : (0 < length (item_bytes it))%nat.
Proof. pose proof (item_bytes_ne it). destruct (item_bytes it); simpl; [done|lia]. Qed.

(** A pattern that is one item is at [pc] only if [pc] starts with that item. *)
Lemma starts_with_item p it rest :
  item_ok p → item_ok it →
  (length (item_bytes p) <=? length (item_bytes it ++ rest))%nat && starts_with (item_bytes p) (item_bytes it ++ rest)
  = bool_decide (item_bytes it = item_bytes p).
Proof.
  intros Hp Hi. unfold starts_with. case_bool_decide as E1; case_bool_decide as E2; rewrite ?andb_false_r; try done.
  - rewrite E2. rewrite length_app. rewrite (proj2 (Nat.leb_le _ _)) by lia. done.
  - destruct E2. assert (item_bytes it ++ rest = item_bytes p ++ drop (length (item_bytes p)) (item_bytes it ++ rest)) as E
      by (rewrite <- (take_drop (length (item_bytes p)) (item_bytes it ++ rest)) at 1; by rewrite E1).
    pose proof (GetOp2_item it rest Hi) as G. rewrite E, (GetOp2_item p _ Hp) in G. injection G as _ _ G.
    rewrite G in E. by apply app_inv_tail in E.
  - destruct E1. rewrite E2. by rewrite take_app_length.
Qed.

Lemma delete_here_items fuel p items nFound :
  item_ok p → Forall item_ok items → (length (script_bytes items) <= fuel)%nat →
  ∃ gone rest, items = gone ++ rest ∧ Forall (λ it, item_bytes it = item_bytes p) gone ∧
    (∀ it, head rest = Some it → item_bytes it ≠ item_bytes p) ∧
    delete_here fuel (item_bytes p) (script_bytes items) nFound
    = (script_bytes rest, nFound + Z.of_nat (length gone)).
Proof.
  intros Hp Hi. revert items nFound Hi. induction fuel as [|fuel IH]; intros items nFound Hi Hf.
  { exists [], items. split_and!; [done|done| |simpl; f_equal; lia].
    intros it Hh. destruct items as [|? ?]; [done|]. pose proof (length_item_bytes i).
    unfold script_bytes in Hf. simpl in Hf. rewrite length_app in Hf. lia. }
  destruct items as [|it items]; cbn [delete_here].
  { exists [], []. unfold script_bytes. simpl. pose proof (length_item_bytes p).
    rewrite (proj2 (Nat.leb_gt _ _)) by lia. split_and!; [done|done|done|]. simpl. f_equal. lia. }
  apply Forall_cons in Hi as [Hit Hi]. unfold script_bytes in *. cbn [flat_map] in *.
  rewrite starts_with_item by done. rewrite length_app in Hf. case_bool_decide as E.
  - pose proof (length_item_bytes it). rewrite <- E, drop_app_length.
    destruct (IH items (nFound + 1) Hi ltac:(lia)) as (g & r & -> & Hg & Hr & E'). rewrite <- E in E'.
    exists (it :: g), r. split_and!; [done|constructor; [done|by rewrite E]|by rewrite E|].
    rewrite E'. f_equal. simpl. lia.
  - exists [], (it :: items). split_and!; [done|constructor|by intros ? [= <-]|]. f_equal. simpl. lia.
Qed.

Lemma filter_all_out {A} (P : A → Prop) `{∀ x, Decision (P x)} l : Forall (λ x, ¬ P x) l → filter P l = [].
Proof. induction 1; [done|]. by rewrite filter_cons_False. Qed.

Lemma filter_all_in {A} (P : A → Prop) `{∀ x, Decision (P x)} l : Forall P l → filter P l = l.
Proof. induction 1 as [|x l Hx Hl IH]; [done|]. by rewrite filter_cons_True, IH. Qed.

Lemma FindAndDelete_loop_items fuel p items kept nFound :
  item_ok p → Forall item_ok items → (length (script_bytes items) < fuel)%nat →
  FindAndDelete_loop fuel (item_bytes p) kept (script_bytes items) nFound
  = (kept ++ script_bytes (filter (λ it, item_bytes it ≠ item_bytes p) items),
     nFound + Z.of_nat (length (filter (λ it, item_bytes it = item_bytes p) items))).
Proof.
  intros Hp. revert items kept nFound. induction fuel as [|fuel IH]; intros items kept nFound Hi Hf; [lia|].
  cbn [FindAndDelete_loop].
  destruct (delete_here_items (length (script_bytes items)) p items nFound Hp Hi ltac:(done))
    as (g & r & -> & Hg & Hr & ->).
  apply Forall_app in Hi as [_ Hi]. rewrite !filter_app.
  rewrite (filter_all_out (λ it, item_bytes it ≠ item_bytes p) g) by (eapply Forall_impl; [done|naive_solver]).
  rewrite (filter_all_in _ g) by done. cbn [app].
  destruct r as [|it r].
  { simpl. rewrite app_nil_r. f_equal. rewrite length_app. simpl. lia. }
  specialize (Hr it eq_refl). apply Forall_cons in Hi as [Hit Hi].
  rewrite filter_cons_True, (filter_cons_False _ _ r) by naive_solver.
  unfold script_bytes in *. rewrite flat_map_app, length_app in Hf. cbn [flat_map] in *. rewrite length_app in Hf.
  rewrite GetOp2_item by done. cbn [op_ok op_rest]. pose proof (length_item_bytes it).
  replace (length (item_bytes it ++ flat_map item_bytes r) - length (flat_map item_bytes r))%nat
    with (length (item_bytes it)) by (rewrite length_app; lia).
  rewrite take_app_length, IH by (done || lia). rewrite <- app_assoc, length_app. f_equal. lia.
Qed.

Lemma script_ops_items fuel items :
  Forall item_ok items → (length (script_bytes items) <= fuel)%nat →
  map (λ o, (op_ok o, (op_code o, op_data o))) (script_ops fuel (script_bytes items))
  = map (λ it, (true, item_op it)) items.
Proof.
  revert items. induction fuel as [|fuel IH]; intros items Hi Hf.
  { destruct items as [|it items]; [done|]. pose proof (length_item_bytes it).
    unfold script_bytes in Hf. simpl in Hf. rewrite length_app in Hf. lia. }
  destruct items as [|it items]; [done|]. apply Forall_cons in Hi as [Hit Hi].
  unfold script_bytes in *. cbn [flat_map] in *. rewrite length_app in Hf. pose proof (length_item_bytes it).
  destruct (item_bytes it ++ flat_map item_bytes items) as [|x l] eqn:E.
  { apply (f_equal length) in E. rewrite length_app in E. simpl in E. lia. }
  cbn [script_ops]. rewrite <- E, GetOp2_item by done. cbn [op_ok op_rest map op_code op_data].
  rewrite IH by (done || lia). f_equal. by destruct (item_op it).
Qed.

(** What [operator<<] writes, GetOp reads back: a script built from byte
    vectors (below 2^32 bytes), opcodes above the push range and 64-bit numbers
    is walked as exactly those operations, each with its operand, numbers as
    their small-number opcode or their minimal serialization. *)
Theorem script_reader_inverts_builder items :
  Forall item_ok items →
  map (λ o, (op_ok o, (op_code o, op_data o))) (ops_of (build_script items))
  = map (λ it, (true, item_op it)) items.
Proof. intros Hi. rewrite build_script_bytes. by apply script_ops_items. Qed.

Lemma script_reader_inverts_builder_witness :
  map (λ o, (op_ok o, (op_code o, op_data o)))
    (ops_of (build_script [IOp OP_DUP; IPush (replicate 80 7); INum 16; INum (-1); INum 1000; INum 0]))
  = [(true, (OP_DUP, [])); (true, (OP_PUSHDATA1, replicate 80 7)); (true, (OP_16, []));
     (true, (OP_1NEGATE, [])); (true, (2, [232; 3])); (true, (0, []))].
Proof.
  rewrite script_reader_inverts_builder; [reflexivity|].
  repeat constructor; vm_compute; done.
Defined.

(** FindAndDelete removes from a script exactly the operations that push
    the given bytes in the given way, wherever they stand and however many are
    in a row, counts them, and leaves every other operation (the same bytes
    inside a longer push too) as it is. *)
Theorem find_and_delete_removes_pushes items sig :
  Forall item_ok items → Z.of_nat (length sig) < 2 ^ 32 →
  FindAndDelete (build_script items) (push_data [] sig)
  = (build_script (filter (λ it, item_bytes it ≠ push_data [] sig) items),
     Z.of_nat (length (filter (λ it, item_bytes it = push_data [] sig) items))).
Proof.
  intros Hi Hs. rewrite !build_script_bytes. change (push_data [] sig) with (item_bytes (IPush sig)).
  pose proof (item_bytes_ne (IPush sig)) as Hne. unfold FindAndDelete.
  destruct (item_bytes (IPush sig)) as [|x b] eqn:E; [done|]. rewrite <- E.
  rewrite FindAndDelete_loop_items by (done || lia). done.
Qed.

Lemma find_and_delete_removes_pushes_witness :
  FindAndDelete (build_script [IPush [1; 2]; IPush [1; 2]; IOp OP_DUP; IPush [2; 1; 2]; IPush [1; 2]])
    (push_data [] [1; 2])
  = ([OP_DUP; 3; 2; 1; 2], 3).
Proof.
  rewrite find_and_delete_removes_pushes; [reflexivity| |simpl; lia].
  repeat constructor; vm_compute; done.
Defined.

(** ** Script templates *)

(** The loop of IsNormalPaymentScript does not look at the pushed hash: it
    accepts pay-to-pubkey-hash scripts ... *)
Lemma IsNormalPaymentScript_p2pkh h :
  length h = 20%nat →
  IsNormalPaymentScript
    (build_script [IOp OP_DUP; IOp OP_HASH160; IPush h; IOp OP_EQUALVERIFY; IOp OP_CHECKSIG]) = true.
Proof.
  intros Hh. do 20 (destruct h as [|? h]; [done|]). by destruct h.
Qed.

(** ... but also scripts that are not of that form: three operations, whose
    push swallows the EQUALVERIFY and CHECKSIG. *)
Lemma IsNormalPaymentScript_accepts_short :
  let script := build_script [IOp OP_DUP; IOp OP_HASH160; IPush (replicate 22 0)] in
  IsNormalPaymentScript script = true ∧ length (ops_of script) = 3%nat.
Proof. split; reflexivity. Qed.
