(* ===== verification/Interp.v ===== *)
(** * script/interpreter.cpp: the script interpreter

    The stack is a list with the top first, so [stacktop(-i)] is its entry
    [i - 1]; [vfExec] is a list with its back first. A handler returns the new
    state or the ScriptError it sets; what the source catches with [catch (...)]
    is SCRIPT_ERR_UNKNOWN_ERROR. The signature checker is an argument: the code's
    own one is in the file on signature hashes. *)

From S2P Require Import Prelude Script Digest Hashes.

Local Open Scope node_scope.

Abbreviation valtype := (list Z).

Inductive ScriptError :=
| SCRIPT_ERR_UNKNOWN_ERROR | SCRIPT_ERR_EVAL_FALSE | SCRIPT_ERR_OP_RETURN
| SCRIPT_ERR_SCRIPT_SIZE | SCRIPT_ERR_PUSH_SIZE | SCRIPT_ERR_OP_COUNT | SCRIPT_ERR_STACK_SIZE
| SCRIPT_ERR_SIG_COUNT | SCRIPT_ERR_PUBKEY_COUNT
| SCRIPT_ERR_VERIFY | SCRIPT_ERR_EQUALVERIFY | SCRIPT_ERR_CHECKMULTISIGVERIFY
| SCRIPT_ERR_CHECKSIGVERIFY | SCRIPT_ERR_NUMEQUALVERIFY
| SCRIPT_ERR_BAD_OPCODE | SCRIPT_ERR_DISABLED_OPCODE | SCRIPT_ERR_INVALID_STACK_OPERATION
| SCRIPT_ERR_INVALID_ALTSTACK_OPERATION | SCRIPT_ERR_UNBALANCED_CONDITIONAL
| SCRIPT_ERR_SIG_HASHTYPE | SCRIPT_ERR_SIG_DER | SCRIPT_ERR_MINIMALDATA | SCRIPT_ERR_SIG_PUSHONLY
| SCRIPT_ERR_SIG_HIGH_S | SCRIPT_ERR_SIG_NULLDUMMY | SCRIPT_ERR_PUBKEYTYPE
| SCRIPT_ERR_DISCOURAGE_UPGRADABLE_NOPS.

Definition SIGHASH_ALL : Z := 1.
Definition SIGHASH_NONE : Z := 2.
Definition SIGHASH_SINGLE : Z := 3.
Definition SIGHASH_ANYONECANPAY : Z := 0x80.

Definition SCRIPT_VERIFY_NONE : Z := 0.
Definition SCRIPT_VERIFY_P2SH : Z := 1.
Definition SCRIPT_VERIFY_STRICTENC : Z := 2.
Definition SCRIPT_VERIFY_DERSIG : Z := 4.
Definition SCRIPT_VERIFY_LOW_S : Z := 8.
Definition SCRIPT_VERIFY_NULLDUMMY : Z := 16.
Definition SCRIPT_VERIFY_SIGPUSHONLY : Z := 32.
Definition SCRIPT_VERIFY_MINIMALDATA : Z := 64.
Definition SCRIPT_VERIFY_DISCOURAGE_UPGRADABLE_NOPS : Z := 128.

(** [(flags & f) != 0]. *)
Definition has_flag (flags f : Z) : bool := negb (Z.land flags f =? 0).

(** ** Values and encodings *)

(** The loop over [vch], front to back. *)
Fixpoint CastToBool (vch : valtype) : bool :=
  match vch with
  | [] => false
  | b :: r => if negb (b =? 0)
              then match r with [] => negb (b =? 0x80) | _ => true end
              else CastToBool r
  end.

Definition IsCompressedOrUncompressedPubKey (vchPubKey : valtype) : bool :=
  if (length vchPubKey <? 33)%nat then false
  else if getz vchPubKey 0 =? 0x04 then (length vchPubKey =? 65)%nat
  else if (getz vchPubKey 0 =? 0x02) || (getz vchPubKey 0 =? 0x03) then (length vchPubKey =? 33)%nat
  else false.

Definition IsValidSignatureEncoding (sig : list Z) : bool :=
  let size := Z.of_nat (length sig) in
  let lenR := getz sig 3 in
  let lenS := getz sig (5 + lenR) in
  if size <? 9 then false
  else if 73 <? size then false
  else if negb (getz sig 0 =? 0x30) then false
  else if negb (getz sig 1 =? size - 3) then false
  else if size <=? 5 + lenR then false
  else if negb (lenR + lenS + 7 =? size) then false
  else if negb (getz sig 2 =? 0x02) then false
  else if lenR =? 0 then false
  else if negb (Z.land (getz sig 4) 0x80 =? 0) then false
  else if (1 <? lenR) && (getz sig 4 =? 0) && (Z.land (getz sig 5) 0x80 =? 0) then false
  else if negb (getz sig (lenR + 4) =? 0x02) then false
  else if lenS =? 0 then false
  else if negb (Z.land (getz sig (lenR + 6)) 0x80 =? 0) then false
  else if (1 <? lenS) && (getz sig (lenR + 6) =? 0) && (Z.land (getz sig (lenR + 7)) 0x80 =? 0) then false
  else true.

(** CompareBigEndian of eccryptoverify.cpp: its first two loops. *)
Fixpoint drop_zeros (k : nat) (c : list Z) : option (list Z) :=
  match k, c with
  | S k, b :: c => if negb (b =? 0) then None else drop_zeros k c
  | _, _ => Some c
  end.

(** Its third loop, on strings of one length. *)
Fixpoint compare_bytes (c1 c2 : list Z) : Z :=
  match c1, c2 with
  | a :: c1, b :: c2 => if b <? a then 1 else if a <? b then -1 else compare_bytes c1 c2
  | _, _ => 0
  end.

Definition CompareBigEndian (c1 c2 : list Z) : Z :=
  match drop_zeros (length c1 - length c2) c1 with
  | None => 1
  | Some c1 => match drop_zeros (length c2 - length c1) c2 with
               | None => -1
               | Some c2 => compare_bytes c1 c2
               end
  end.

(** The order of the generator of secp256k1 less one, and half of it. *)
Definition vchMaxModOrder : list Z :=
  be_bytes 32 0xFFFFFFFFFFFFFFFFFFFFFFFFFFFFFFFEBAAEDCE6AF48A03BBFD25E8CD0364140.
Definition vchMaxModHalfOrder : list Z :=
  be_bytes 32 0x7FFFFFFFFFFFFFFFFFFFFFFFFFFFFFFF5D576E7357A4501DDFE92F46681B20A0.

Definition CheckSignatureElement (vch : list Z) (half : bool) : bool :=
  (0 <? CompareBigEndian vch [])
  && (CompareBigEndian vch (if half then vchMaxModHalfOrder else vchMaxModOrder) <=? 0).

(** [None] is success, [Some e] is failure with [serror] set to [e]. *)
Definition IsLowDERSignature (vchSig : valtype) : option ScriptError :=
  if negb (IsValidSignatureEncoding vchSig) then Some SCRIPT_ERR_SIG_DER
  else
    let nLenR := getz vchSig 3 in
    let nLenS := getz vchSig (5 + nLenR) in
    let S := take (Z.to_nat nLenS) (drop (Z.to_nat (6 + nLenR)) vchSig) in
    if negb (CheckSignatureElement S true) then Some SCRIPT_ERR_SIG_HIGH_S else None.

Definition IsDefinedHashtypeSignature (vchSig : valtype) : bool :=
  match last vchSig with
  | None => false
  | Some b => let nHashType := u8 (Z.land b (Z.lnot SIGHASH_ANYONECANPAY)) in
              negb ((nHashType <? SIGHASH_ALL) || (SIGHASH_SINGLE <? nHashType))
  end.

Definition CheckSignatureEncoding (vchSig : valtype) (flags : Z) : option ScriptError :=
  if (length vchSig =? 0)%nat then None
  else if has_flag flags (Z.lor (Z.lor SCRIPT_VERIFY_DERSIG SCRIPT_VERIFY_LOW_S) SCRIPT_VERIFY_STRICTENC)
          && negb (IsValidSignatureEncoding vchSig)
  then Some SCRIPT_ERR_SIG_DER
  else match (if has_flag flags SCRIPT_VERIFY_LOW_S then IsLowDERSignature vchSig else None) with
       | Some e => Some e
       | None => if has_flag flags SCRIPT_VERIFY_STRICTENC && negb (IsDefinedHashtypeSignature vchSig)
                 then Some SCRIPT_ERR_SIG_HASHTYPE else None
       end.

Definition CheckPubKeyEncoding (vchPubKey : valtype) (flags : Z) : option ScriptError :=
  if has_flag flags SCRIPT_VERIFY_STRICTENC && negb (IsCompressedOrUncompressedPubKey vchPubKey)
  then Some SCRIPT_ERR_PUBKEYTYPE else None.

Definition CheckMinimalPush (data : valtype) (opcode : Z) : bool :=
  let size := Z.of_nat (length data) in
  if size =? 0 then opcode =? OP_0
  else if (size =? 1) && (1 <=? getz data 0) && (getz data 0 <=? 16) then opcode =? OP_1 + (getz data 0 - 1)
  else if (size =? 1) && (getz data 0 =? 0x81) then opcode =? OP_1NEGATE
  else if size <=? 75 then opcode =? size
  else if size <=? 255 then opcode =? OP_PUSHDATA1
  else if size <=? 65535 then opcode =? OP_PUSHDATA2
  else true.

(** ** The machine *)

Record eval_state := mkEval {
  stack : list valtype;
  altstack : list valtype;
  vfExec : list bool;
  nOpCount : Z;
  pbegincodehash : list Z
}.

Abbreviation exec := (result ScriptError eval_state).

Definition with_stack (st : eval_state) (s : list valtype) : eval_state :=
  mkEval s (altstack st) (vfExec st) (nOpCount st) (pbegincodehash st).
Definition with_vfExec (st : eval_state) (v : list bool) : eval_state :=
  mkEval (stack st) (altstack st) v (nOpCount st) (pbegincodehash st).
Definition with_nOpCount (st : eval_state) (n : Z) : eval_state :=
  mkEval (stack st) (altstack st) (vfExec st) n (pbegincodehash st).

Definition vchFalse : valtype := [].
Definition vchTrue : valtype := [1].
Definition vchBool (b : bool) : valtype := if b then vchTrue else vchFalse.

(** [fExec]. *)
Definition executing (st : eval_state) : bool := forallb id (vfExec st).

(** [stacktop(-i)], which throws out of range. *)
Definition stacktop (s : list valtype) (i : Z) : result ScriptError valtype :=
  match s !! Z.to_nat (i - 1) with
  | Some v => Ok v
  | None => Throw SCRIPT_ERR_UNKNOWN_ERROR
  end.

Definition stack_error : exec := Throw SCRIPT_ERR_INVALID_STACK_OPERATION.

Section eval.
Variable checker : list Z → list Z → list Z → bool.
Variable flags : Z.

Definition fRequireMinimal : bool := has_flag flags SCRIPT_VERIFY_MINIMALDATA.

(** [CScriptNum(v, fRequireMinimal)]; its exception is caught at the end. *)
Definition num (v : valtype) : result ScriptError Z :=
  match CScriptNum v fRequireMinimal with
  | Ok n => Ok n
  | Throw _ => Throw SCRIPT_ERR_UNKNOWN_ERROR
  end.

(** The push opcodes that have no operand. *)
Definition op_number (opcode : Z) (st : eval_state) : exec :=
  Ok (with_stack st (scriptnum_serialize (opcode - (OP_1 - 1)) :: stack st)).

Definition op_nops (st : eval_state) : exec :=
  if has_flag flags SCRIPT_VERIFY_DISCOURAGE_UPGRADABLE_NOPS
  then Throw SCRIPT_ERR_DISCOURAGE_UPGRADABLE_NOPS
  else Ok st.

Definition op_if (opcode : Z) (st : eval_state) : exec :=
  if executing st
  then match stack st with
       | vch :: s =>
           let fValue := CastToBool vch in
           let fValue := if opcode =? OP_NOTIF then negb fValue else fValue in
           Ok (with_vfExec (with_stack st s) (fValue :: vfExec st))
       | [] => Throw SCRIPT_ERR_UNBALANCED_CONDITIONAL
       end
  else Ok (with_vfExec st (false :: vfExec st)).

Definition op_else (st : eval_state) : exec :=
  match vfExec st with
  | b :: v => Ok (with_vfExec st (negb b :: v))
  | [] => Throw SCRIPT_ERR_UNBALANCED_CONDITIONAL
  end.

Definition op_endif (st : eval_state) : exec :=
  match vfExec st with
  | b :: v => Ok (with_vfExec st v)
  | [] => Throw SCRIPT_ERR_UNBALANCED_CONDITIONAL
  end.

Definition op_verify (st : eval_state) : exec :=
  match stack st with
  | vch :: s => if CastToBool vch then Ok (with_stack st s) else Throw SCRIPT_ERR_VERIFY
  | [] => stack_error
  end.

Definition op_toaltstack (st : eval_state) : exec :=
  match stack st with
  | vch :: s => Ok (mkEval s (vch :: altstack st) (vfExec st) (nOpCount st) (pbegincodehash st))
  | [] => stack_error
  end.

Definition op_fromaltstack (st : eval_state) : exec :=
  match altstack st with
  | vch :: a => Ok (mkEval (vch :: stack st) a (vfExec st) (nOpCount st) (pbegincodehash st))
  | [] => Throw SCRIPT_ERR_INVALID_ALTSTACK_OPERATION
  end.

(** The opcodes that only move entries of the stack; [None] if it is too short. *)
Definition stack_op (opcode : Z) (s : list valtype) : option (list valtype) :=
  if opcode =? OP_2DROP then match s with _ :: _ :: r => Some r | _ => None end
  else if opcode =? OP_2DUP then match s with x2 :: x1 :: r => Some (x2 :: x1 :: x2 :: x1 :: r) | _ => None end
  else if opcode =? OP_3DUP
  then match s with x3 :: x2 :: x1 :: r => Some (x3 :: x2 :: x1 :: x3 :: x2 :: x1 :: r) | _ => None end
  else if opcode =? OP_2OVER
  then match s with x4 :: x3 :: x2 :: x1 :: r => Some (x2 :: x1 :: x4 :: x3 :: x2 :: x1 :: r) | _ => None end
  else if opcode =? OP_2ROT
  then match s with
       | x6 :: x5 :: x4 :: x3 :: x2 :: x1 :: r => Some (x2 :: x1 :: x6 :: x5 :: x4 :: x3 :: r)
       | _ => None
       end
  else if opcode =? OP_2SWAP
  then match s with x4 :: x3 :: x2 :: x1 :: r => Some (x2 :: x1 :: x4 :: x3 :: r) | _ => None end
  else if opcode =? OP_IFDUP
  then match s with x :: r => Some (if CastToBool x then x :: x :: r else x :: r) | _ => None end
  else if opcode =? OP_DEPTH then Some (scriptnum_serialize (Z.of_nat (length s)) :: s)
  else if opcode =? OP_DROP then match s with _ :: r => Some r | _ => None end
  else if opcode =? OP_DUP then match s with x :: r => Some (x :: x :: r) | _ => None end
  else if opcode =? OP_NIP then match s with x2 :: _ :: r => Some (x2 :: r) | _ => None end
  else if opcode =? OP_OVER then match s with x2 :: x1 :: r => Some (x1 :: x2 :: x1 :: r) | _ => None end
  else if opcode =? OP_ROT then match s with x3 :: x2 :: x1 :: r => Some (x1 :: x3 :: x2 :: r) | _ => None end
  else if opcode =? OP_SWAP then match s with x2 :: x1 :: r => Some (x1 :: x2 :: r) | _ => None end
  else if opcode =? OP_TUCK then match s with x2 :: x1 :: r => Some (x2 :: x1 :: x2 :: r) | _ => None end
  else (* OP_SIZE *)
    match s with x :: r => Some (scriptnum_serialize (Z.of_nat (length x)) :: x :: r) | _ => None end.

Definition is_stack_op (opcode : Z) : bool :=
  bool_decide (opcode ∈ [OP_2DROP; OP_2DUP; OP_3DUP; OP_2OVER; OP_2ROT; OP_2SWAP; OP_IFDUP; OP_DEPTH;
    OP_DROP; OP_DUP; OP_NIP; OP_OVER; OP_ROT; OP_SWAP; OP_TUCK; OP_SIZE]).

Definition op_stack (opcode : Z) (st : eval_state) : exec :=
  match stack_op opcode (stack st) with
  | Some s => Ok (with_stack st s)
  | None => stack_error
  end.

Definition op_pick_roll (opcode : Z) (st : eval_state) : exec :=
  match stack st with
  | top :: ((_ :: _) as s) =>
      let! n := num top in
      let n := getint n in
      if (n <? 0) || (Z.of_nat (length s) <=? n) then stack_error
      else
        let! vch := stacktop s (n + 1) in
        Ok (with_stack st (vch :: if opcode =? OP_ROLL then delete (Z.to_nat n) s else s))
  | _ => stack_error
  end.

Definition op_equal (opcode : Z) (st : eval_state) : exec :=
  match stack st with
  | vch2 :: vch1 :: s =>
      let fEqual := bool_decide (vch1 = vch2) in
      if opcode =? OP_EQUALVERIFY
      then if fEqual then Ok (with_stack st s) else Throw SCRIPT_ERR_EQUALVERIFY
      else Ok (with_stack st (vchBool fEqual :: s))
  | _ => stack_error
  end.

Definition unary (opcode bn : Z) : Z :=
  if opcode =? OP_1ADD then bn + 1
  else if opcode =? OP_1SUB then bn - 1
  else if opcode =? OP_NEGATE then - bn
  else if opcode =? OP_ABS then if bn <? 0 then - bn else bn
  else if opcode =? OP_NOT then Z.b2z (bn =? 0)
  else (* OP_0NOTEQUAL *) Z.b2z (negb (bn =? 0)).

Definition op_unary (opcode : Z) (st : eval_state) : exec :=
  match stack st with
  | x :: s => let! bn := num x in Ok (with_stack st (scriptnum_serialize (unary opcode bn) :: s))
  | [] => stack_error
  end.

Definition binary (opcode bn1 bn2 : Z) : Z :=
  if opcode =? OP_ADD then bn1 + bn2
  else if opcode =? OP_SUB then bn1 - bn2
  else if opcode =? OP_BOOLAND then Z.b2z (negb (bn1 =? 0) && negb (bn2 =? 0))
  else if opcode =? OP_BOOLOR then Z.b2z (negb (bn1 =? 0) || negb (bn2 =? 0))
  else if opcode =? OP_NUMEQUAL then Z.b2z (bn1 =? bn2)
  else if opcode =? OP_NUMEQUALVERIFY then Z.b2z (bn1 =? bn2)
  else if opcode =? OP_NUMNOTEQUAL then Z.b2z (negb (bn1 =? bn2))
  else if opcode =? OP_LESSTHAN then Z.b2z (bn1 <? bn2)
  else if opcode =? OP_GREATERTHAN then Z.b2z (bn2 <? bn1)
  else if opcode =? OP_LESSTHANOREQUAL then Z.b2z (bn1 <=? bn2)
  else if opcode =? OP_GREATERTHANOREQUAL then Z.b2z (bn2 <=? bn1)
  else if opcode =? OP_MIN then if bn1 <? bn2 then bn1 else bn2
  else (* OP_MAX *) if bn2 <? bn1 then bn1 else bn2.

Definition op_binary (opcode : Z) (st : eval_state) : exec :=
  match stack st with
  | x2 :: x1 :: s =>
      let! bn1 := num x1 in
      let! bn2 := num x2 in
      let out := scriptnum_serialize (binary opcode bn1 bn2) in
      if opcode =? OP_NUMEQUALVERIFY
      then if CastToBool out then Ok (with_stack st s) else Throw SCRIPT_ERR_NUMEQUALVERIFY
      else Ok (with_stack st (out :: s))
  | _ => stack_error
  end.

Definition op_within (st : eval_state) : exec :=
  match stack st with
  | x3 :: x2 :: x1 :: s =>
      let! bn1 := num x1 in
      let! bn2 := num x2 in
      let! bn3 := num x3 in
      Ok (with_stack st (vchBool ((bn2 <=? bn1) && (bn1 <? bn3)) :: s))
  | _ => stack_error
  end.

Definition hash_op (opcode : Z) (vch : valtype) : valtype :=
  if opcode =? OP_RIPEMD160 then Ripemd160.Finalize (Ripemd160.Write (Ripemd160.CRIPEMD160 (blank 64)) vch)
  else if opcode =? OP_SHA1 then Sha1.Finalize (Sha1.Write (Sha1.CSHA1 (blank 64)) vch)
  else if opcode =? OP_SHA256 then Sha256.Finalize (Sha256.Write (Sha256.CSHA256 (blank 64)) vch)
  else if opcode =? OP_HASH160
  then CHash160_Finalize (Sha256.Write (Sha256.CSHA256 (blank 64)) vch) (blank 64)
  else (* OP_HASH256 *) CHash256_Finalize (Sha256.Write (Sha256.CSHA256 (blank 64)) vch).

Definition op_hash (opcode : Z) (st : eval_state) : exec :=
  match stack st with
  | vch :: s => Ok (with_stack st (hash_op opcode vch :: s))
  | [] => stack_error
  end.

(** Both encoding checks, the first failure counts. *)
Definition check_encodings (vchSig vchPubKey : valtype) : result ScriptError unit :=
  match CheckSignatureEncoding vchSig flags with
  | Some e => Throw e
  | None => match CheckPubKeyEncoding vchPubKey flags with Some e => Throw e | None => Ok () end
  end.

(** [scriptCode.FindAndDelete(CScript(vchSig))]. *)
Definition drop_signature (scriptCode : list Z) (vchSig : valtype) : list Z :=
  (FindAndDelete scriptCode (push_data [] vchSig)).1.

Definition op_checksig (opcode : Z) (st : eval_state) : exec :=
  match stack st with
  | vchPubKey :: vchSig :: s =>
      let scriptCode := drop_signature (pbegincodehash st) vchSig in
      let! _ := check_encodings vchSig vchPubKey in
      let fSuccess := checker vchSig vchPubKey scriptCode in
      if opcode =? OP_CHECKSIGVERIFY
      then if fSuccess then Ok (with_stack st s) else Throw SCRIPT_ERR_CHECKSIGVERIFY
      else Ok (with_stack st (vchBool fSuccess :: s))
  | _ => stack_error
  end.

(** [while (fSuccess && nSigsCount > 0)]: a pass uses up one key, so there are
    at most [nKeysCount] passes. *)
Fixpoint multisig_loop (fuel : nat) (s : list valtype) (scriptCode : list Z)
    (isig ikey nSigsCount nKeysCount : Z) (fSuccess : bool) : result ScriptError bool :=
  match fuel with
  | O => Ok fSuccess
  | S fuel =>
      if fSuccess && (0 <? nSigsCount)
      then
        let! vchSig := stacktop s isig in
        let! vchPubKey := stacktop s ikey in
        let! _ := check_encodings vchSig vchPubKey in
        let fOk := checker vchSig vchPubKey scriptCode in
        let isig := if fOk then isig + 1 else isig in
        let nSigsCount := if fOk then nSigsCount - 1 else nSigsCount in
        multisig_loop fuel s scriptCode isig (ikey + 1) nSigsCount (nKeysCount - 1)
          (if nKeysCount - 1 <? nSigsCount then false else fSuccess)
      else Ok fSuccess
  end.

(** [for (int k = 0; k < nSigsCount; k++)]. *)
Definition drop_signatures (s : list valtype) (isig nSigsCount : Z) (scriptCode : list Z) : list Z :=
  foldl drop_signature scriptCode (take (Z.to_nat nSigsCount) (drop (Z.to_nat (isig - 1)) s)).

Definition op_checkmultisig (opcode : Z) (st : eval_state) : exec :=
  let s := stack st in
  let size := Z.of_nat (length s) in
  if size <? 1 then stack_error
  else
    let! v := stacktop s 1 in
    let! n := num v in
    let nKeysCount := getint n in
    if (nKeysCount <? 0) || (20 <? nKeysCount) then Throw SCRIPT_ERR_PUBKEY_COUNT
    else if 201 <? nOpCount st + nKeysCount then Throw SCRIPT_ERR_OP_COUNT
    else
      let ikey := 2 in
      let i := 2 + nKeysCount in
      if size <? i then stack_error
      else
        let! v := stacktop s i in
        let! n := num v in
        let nSigsCount := getint n in
        if (nSigsCount <? 0) || (nKeysCount <? nSigsCount) then Throw SCRIPT_ERR_SIG_COUNT
        else
          let isig := i + 1 in
          let i := isig + nSigsCount in
          if size <? i then stack_error
          else
            let scriptCode := drop_signatures s isig nSigsCount (pbegincodehash st) in
            let! fSuccess :=
              multisig_loop (Z.to_nat nKeysCount) s scriptCode isig ikey nSigsCount nKeysCount true in
            match drop (Z.to_nat (i - 1)) s with
            | [] => stack_error
            | dummy :: s =>
                if has_flag flags SCRIPT_VERIFY_NULLDUMMY && negb (length dummy =? 0)%nat
                then Throw SCRIPT_ERR_SIG_NULLDUMMY
                else
                  let st := with_nOpCount st (nOpCount st + nKeysCount) in
                  if opcode =? OP_CHECKMULTISIGVERIFY
                  then if fSuccess then Ok (with_stack st s) else Throw SCRIPT_ERR_CHECKMULTISIGVERIFY
                  else Ok (with_stack st (vchBool fSuccess :: s))
            end.

(** [switch (opcode)]; [pc] is the position after the opcode. *)
Definition exec_op (opcode : Z) (pc : list Z) (st : eval_state) : exec :=
  if (opcode =? OP_1NEGATE) || ((OP_1 <=? opcode) && (opcode <=? OP_16)) then op_number opcode st
  else if opcode =? OP_NOP then Ok st
  else if (OP_NOP1 <=? opcode) && (opcode <=? OP_NOP10) then op_nops st
  else if (opcode =? OP_IF) || (opcode =? OP_NOTIF) then op_if opcode st
  else if opcode =? OP_ELSE then op_else st
  else if opcode =? OP_ENDIF then op_endif st
  else if opcode =? OP_VERIFY then op_verify st
  else if opcode =? OP_RETURN then Throw SCRIPT_ERR_OP_RETURN
  else if opcode =? OP_TOALTSTACK then op_toaltstack st
  else if opcode =? OP_FROMALTSTACK then op_fromaltstack st
  else if is_stack_op opcode then op_stack opcode st
  else if (opcode =? OP_PICK) || (opcode =? OP_ROLL) then op_pick_roll opcode st
  else if (opcode =? OP_EQUAL) || (opcode =? OP_EQUALVERIFY) then op_equal opcode st
  else if bool_decide (opcode ∈ [OP_1ADD; OP_1SUB; OP_NEGATE; OP_ABS; OP_NOT; OP_0NOTEQUAL]) then op_unary opcode st
  else if bool_decide (opcode ∈ [OP_ADD; OP_SUB; OP_BOOLAND; OP_BOOLOR; OP_NUMEQUAL; OP_NUMEQUALVERIFY;
            OP_NUMNOTEQUAL; OP_LESSTHAN; OP_GREATERTHAN; OP_LESSTHANOREQUAL; OP_GREATERTHANOREQUAL; OP_MIN; OP_MAX])
  then op_binary opcode st
  else if opcode =? OP_WITHIN then op_within st
  else if bool_decide (opcode ∈ [OP_RIPEMD160; OP_SHA1; OP_SHA256; OP_HASH160; OP_HASH256]) then op_hash opcode st
  else if opcode =? OP_CODESEPARATOR
  then Ok (mkEval (stack st) (altstack st) (vfExec st) (nOpCount st) pc)
  else if (opcode =? OP_CHECKSIG) || (opcode =? OP_CHECKSIGVERIFY) then op_checksig opcode st
  else if (opcode =? OP_CHECKMULTISIG) || (opcode =? OP_CHECKMULTISIGVERIFY) then op_checkmultisig opcode st
  else Throw SCRIPT_ERR_BAD_OPCODE.

Definition disabled (opcode : Z) : bool :=
  bool_decide (opcode ∈ [OP_CAT; OP_SUBSTR; OP_LEFT; OP_RIGHT; OP_INVERT; OP_AND; OP_OR; OP_XOR; OP_2MUL;
    OP_2DIV; OP_MUL; OP_DIV; OP_MOD; OP_LSHIFT; OP_RSHIFT]).

(** One pass of [while (pc < pend)], with what GetOp returned. *)
Definition eval_op (op : getop) (st : eval_state) : result ScriptError (list Z * eval_state) :=
  let fExec := executing st in
  let opcode := op_code op in
  if negb (op_ok op) then Throw SCRIPT_ERR_BAD_OPCODE
  else if MAX_SCRIPT_ELEMENT_SIZE <? Z.of_nat (length (op_data op)) then Throw SCRIPT_ERR_PUSH_SIZE
  else
    let st := if OP_16 <? opcode then with_nOpCount st (nOpCount st + 1) else st in
    if (OP_16 <? opcode) && (201 <? nOpCount st) then Throw SCRIPT_ERR_OP_COUNT
    else if disabled opcode then Throw SCRIPT_ERR_DISABLED_OPCODE
    else
      let! st :=
        (if fExec && (0 <=? opcode) && (opcode <=? OP_PUSHDATA4)
         then if fRequireMinimal && negb (CheckMinimalPush (op_data op) opcode)
              then Throw SCRIPT_ERR_MINIMALDATA
              else Ok (with_stack st (op_data op :: stack st))
         else if fExec || ((OP_IF <=? opcode) && (opcode <=? OP_ENDIF))
         then exec_op opcode (op_rest op) st
         else Ok st) in
      if (1000 <? length (stack st) + length (altstack st))%nat then Throw SCRIPT_ERR_STACK_SIZE
      else Ok (op_rest op, st).

Definition eval_step (pc : list Z) (st : eval_state) : result ScriptError (list Z * eval_state) :=
  eval_op (GetOp2 pc) st.

Fixpoint eval_loop (fuel : nat) (pc : list Z) (st : eval_state) : exec :=
  match pc, fuel with
  | _ :: _, S fuel => let! (pc, st) := eval_step pc st in eval_loop fuel pc st
  | _, _ => Ok st
  end.

(** An opcode is at least a byte, so the loop makes at most [script.size()] passes. *)
Definition EvalScript (s : list valtype) (script : list Z) : result ScriptError (list valtype) :=
  if 10000 <? Z.of_nat (length script) then Throw SCRIPT_ERR_SCRIPT_SIZE
  else
    let! st := eval_loop (length script) script (mkEval s [] [] 0 script) in
    match vfExec st with
    | [] => Ok (stack st)
    | _ => Throw SCRIPT_ERR_UNBALANCED_CONDITIONAL
    end.

(** [stack.empty() || !CastToBool(stack.back())]. *)
Definition stack_is_true (s : list valtype) : bool :=
  match s with
  | v :: _ => CastToBool v
  | [] => false
  end.

Definition VerifyScript (scriptSig scriptPubKey : list Z) : result ScriptError unit :=
  if has_flag flags SCRIPT_VERIFY_SIGPUSHONLY && negb (IsPushOnly scriptSig)
  then Throw SCRIPT_ERR_SIG_PUSHONLY
  else
    let! stackCopy := EvalScript [] scriptSig in
    let! s := EvalScript stackCopy scriptPubKey in
    if negb (stack_is_true s) then Throw SCRIPT_ERR_EVAL_FALSE
    else if has_flag flags SCRIPT_VERIFY_P2SH && IsPayToScriptHash scriptPubKey
    then if negb (IsPushOnly scriptSig) then Throw SCRIPT_ERR_SIG_PUSHONLY
         else match stackCopy with
              | [] => Throw SCRIPT_ERR_UNKNOWN_ERROR (* the assertion; see below *)
              | pubKey2 :: stackCopy =>
                  let! s := EvalScript stackCopy pubKey2 in
                  if negb (stack_is_true s) then Throw SCRIPT_ERR_EVAL_FALSE else Ok ()
              end
    else Ok ().
End eval.

(** ** The loop *)

Lemma GetOp2_progress pc : op_ok (GetOp2 pc) = true → (length (op_rest (GetOp2 pc)) < length pc)%nat.
Proof.
  assert (∀ o n q, (length (op_rest (get_operand o n q)) <= length q)%nat) as G.
  { intros. unfold get_operand. destruct (_ <? _); simpl; [done|]. rewrite length_drop. lia. }
  destruct pc as [|o pc]; [done|]. unfold GetOp2. repeat case_match; intros Hok; try done; simpl length;
    eauto using Nat.le_lt_trans, Nat.lt_succ_diag_r;
    match goal with |- (length (op_rest (get_operand ?a ?b ?c)) < _)%nat => pose proof (G a b c) as G'; revert G' end;
    rewrite ?length_drop; simpl; lia.
Qed.

(** One byte of the script per pass is enough fuel. *)
Section loop.
Variable checker : list Z → list Z → list Z → bool.
Variable flags : Z.

Lemma eval_step_progress pc st pc' st' :
  eval_step checker flags pc st = Ok (pc', st') → (length pc' < length pc)%nat.
Proof.
  unfold eval_step, eval_op. intros H. destruct (op_ok (GetOp2 pc)) eqn:Hok; [|done]. cbn [negb] in H.
  pose proof (GetOp2_progress pc Hok). 
  do 3 (case_match; [done|]). apply rbind_Ok in H as (st1 & _ & H). case_match; [done|]. by injection H as <- <-.
Qed.

Lemma eval_loop_fuel fuel pc st :
  (length pc <= fuel)%nat → eval_loop checker flags fuel pc st = eval_loop checker flags (length pc) pc st.
Proof.
  revert pc st. assert (∀ n fuel pc st, (length pc <= n)%nat → (n <= fuel)%nat →
    eval_loop checker flags fuel pc st = eval_loop checker flags n pc st) as H.
  { intros n. induction n as [|n IH]; intros fuel' pc st Hp Hf.
    { destruct pc; [|simpl in Hp; lia]. by destruct fuel'. }
    destruct fuel' as [|fuel']; [lia|]. destruct pc as [|x pc]; [done|]. cbn [eval_loop].
    destruct (eval_step _ _ (x :: pc) st) as [[pc' st']|] eqn:E; [|done]. cbn [rbind].
    apply eval_step_progress in E. simpl in *. apply IH; lia. }
  intros pc st Hl. by apply H.
Qed.

(** The passes of the loop. *)
Inductive eval_steps : list Z → eval_state → list Z → eval_state → Prop :=
| steps_refl pc st : eval_steps pc st pc st
| steps_step pc st pc1 st1 pc2 st2 :
    eval_steps pc st pc1 st1 → pc1 ≠ [] → eval_step checker flags pc1 st1 = Ok (pc2, st2) →
    eval_steps pc st pc2 st2.

Lemma eval_steps_cons pc st pc1 st1 pc2 st2 :
  pc ≠ [] → eval_step checker flags pc st = Ok (pc1, st1) → eval_steps pc1 st1 pc2 st2 → eval_steps pc st pc2 st2.
Proof.
  intros Hne H1 H2. induction H2 as [pc' st'|? ? ? ? ? ? ? IH ? ?].
  - eapply steps_step; [constructor|done|done].
  - eapply steps_step; [by apply IH|done|done].
Qed.

(** The loop ends in a state it reaches at the end of the script. *)
Lemma eval_loop_steps pc st st' :
  eval_loop checker flags (length pc) pc st = Ok st' → eval_steps pc st [] st'.
Proof.
  remember (length pc) as n eqn:Hn. assert (length pc <= n)%nat as Hl by lia. clear Hn.
  revert pc st Hl. induction n as [|n IH]; intros pc st Hl H.
  { destruct pc; [|simpl in Hl; lia]. injection H as <-. constructor. }
  destruct pc as [|x pc]; [injection H as <-; constructor|]. cbn [eval_loop] in H.
  destruct (eval_step _ _ (x :: pc) st) as [[pc' st1]|] eqn:E; [|done]. cbn [rbind] in H.
  pose proof (eval_step_progress _ _ _ _ E). eapply eval_steps_cons; [done|exact E|].
  apply IH; [simpl in *; lia|done].
Qed.

(** ** Resource bounds *)

Definition small_val (v : valtype) : Prop := (length v <= 520)%nat.

Record eval_inv (script : list Z) (st : eval_state) : Prop := {
  inv_size : (length (stack st) + length (altstack st) <= 1000)%nat;
  inv_stack : Forall small_val (stack st);
  inv_alt : Forall small_val (altstack st);
  inv_ops : Z.of_nat (length (vfExec st)) <= nOpCount st <= 201;
  inv_code : pbegincodehash st `suffix_of` script
}.

(** What every handler keeps: [grow] is the number of conditionals it may open. *)
Record keeps (grow : nat) (pc : list Z) (st st' : eval_state) : Prop := {
  keep_stack : Forall small_val (stack st) → Forall small_val (altstack st) →
               Forall small_val (stack st') ∧ Forall small_val (altstack st');
  keep_ops : nOpCount st <= nOpCount st' ∧ (nOpCount st <= 201 → nOpCount st' <= 201);
  keep_exec : (length (vfExec st') <= length (vfExec st) + grow)%nat;
  keep_code : pbegincodehash st' = pbegincodehash st ∨ pbegincodehash st' = pc
}.

Lemma small_number n : small_val (scriptnum_serialize n).
Proof.
  unfold small_val, scriptnum_serialize.
  assert (∀ k v, (length (serialize_loop k v) <= k)%nat) as H.
  { intros k. induction k as [|k IH]; intros v; simpl; [done|]. case_match; simpl; [lia|]. specialize (IH (Z.shiftr v 8)). lia. }
  case_match; [simpl; lia|]. specialize (H 8%nat (u64 (if n <? 0 then - n else n))).
  destruct (snoc_cases (serialize_loop 8 (u64 (if n <? 0 then - n else n)))) as [E|(w & m & E)]; rewrite E in *.
  - simpl. repeat case_match; simpl; lia.
  - rewrite removelast_last. rewrite length_app in H. simpl in H.
    repeat case_match; rewrite ?length_app; simpl; lia.
Qed.

Lemma small_bool b : small_val (vchBool b).
Proof. destruct b; unfold small_val; simpl; lia. Qed.

Lemma small_hash opcode v : small_val v → small_val (hash_op opcode v).
Proof.
  unfold small_val, hash_op. intros Hv.
  assert (∀ d : list Z, length d = 20%nat ∨ length d = 32%nat → (length d <= 520)%nat) as H by lia.
  assert (Z.of_nat (length (concat [v])) < 2 ^ 60) as Hl by (simpl; rewrite app_nil_r; lia).
  apply H. repeat case_match.
  - left. pose proof (Ripemd160_pieces (blank 64) [v] eq_refl Hl) as E. cbn [foldl] in E. by rewrite E, length_ripemd160.
  - left. pose proof (Sha1_pieces (blank 64) [v] eq_refl Hl) as E. cbn [foldl] in E. by rewrite E, length_sha1.
  - right. pose proof (Sha256_pieces (blank 64) [v] eq_refl Hl) as E. cbn [foldl] in E. by rewrite E, length_fips_sha256.
  - left. pose proof (CHash160_pieces (blank 64) [v] (blank 64) eq_refl eq_refl Hl) as E. cbn [foldl] in E. by rewrite E, length_ripemd160.
  - right. pose proof (CHash256_pieces (blank 64) [v] eq_refl Hl) as E. cbn [foldl] in E. by rewrite E, length_fips_sha256.
Qed.
End loop.
#[export] Hint Resolve small_number small_bool small_hash : node.

Section bounds.
Variable checker : list Z → list Z → list Z → bool.
Variable flags : Z.

(** A handler that changes nothing but the stack. *)
Lemma keeps_stack g pc st s :
  (Forall small_val (stack st) → Forall small_val s) → keeps g pc st (with_stack st s).
Proof. intros H. split; cbn; [by split; [apply H|]|lia|lia|by left]. Qed.

Lemma Forall_stack_op opcode s s' :
  stack_op opcode s = Some s' → Forall small_val s → Forall small_val s'.
Proof.
  unfold stack_op. intros H Hs. repeat case_match; simplify_eq;
    repeat match goal with H : Forall _ (_ :: _) |- _ => apply Forall_cons in H as [? H] end;
    repeat (apply Forall_cons_2; [auto with node|]); auto.
Qed.

(** Takes the success of a handler apart. *)
Ltac ok_inv :=
  repeat match goal with
  | H : rbind _ _ = Ok _ |- _ => apply rbind_Ok in H as (? & ? & H)
  | H : (if ?b then _ else _) = Ok _ |- _ => destruct b eqn:?; try discriminate H
  | H : match ?s with _ => _ end = Ok _ |- _ => destruct s eqn:?; try discriminate H
  | H : Ok _ = Ok _ |- _ => injection H as <-
  end.
Ltac small_stack :=
  intros ?; repeat match goal with
  | E : stack _ = _ |- _ => rewrite E in *; clear E
  end;
  repeat match goal with H : Forall _ (_ :: _) |- _ => apply Forall_cons in H as [? H] end;
  repeat (apply Forall_cons_2; [auto with node|]); auto.

Lemma keeps_pick_roll g pc opcode st st' :
  op_pick_roll flags opcode st = Ok st' → keeps g pc st st'.
Proof.
  unfold op_pick_roll, stack_error. intros H. ok_inv. apply keeps_stack. intros Hs.
  match goal with E : stack st = _ |- _ => rewrite E in Hs end. apply Forall_cons in Hs as [_ Hs].
  match goal with E : stacktop _ _ = Ok ?v |- _ => rename E into Et end. unfold stacktop in Et. ok_inv.
  apply Forall_cons_2; [by eapply Forall_lookup_1|]. case_match; [|done]. by apply Forall_delete.
Qed.

Lemma keeps_checkmultisig g pc opcode st st' :
  op_checkmultisig checker flags opcode st = Ok st' → keeps g pc st st'.
Proof.
  unfold op_checkmultisig, stack_error. intros H. ok_inv;
    repeat match goal with
    | H : (_ || _) = false |- _ => apply orb_false_iff in H as [? ?]
    | H : (_ <? _) = false |- _ => apply Z.ltb_ge in H
    end.
  all: match goal with E : drop _ (stack _) = _ |- _ => rename E into Ed end.
  all: split; cbn; [|lia|lia|by left].
  all: intros Hs Ha; split; [|done]; apply Forall_drop with (n := ltac:(match type of Ed with drop ?n _ = _ => exact n end)) in Hs; rewrite Ed in Hs; rename Hs into Hd.
  all: apply Forall_cons in Hd as [_ Hd]; repeat (apply Forall_cons_2; [auto with node|]); auto.
Qed.

Lemma keeps_refl g pc st : keeps g pc st st.
Proof. split; [done|lia|lia|by left]. Qed.

Lemma exec_op_keeps opcode pc st st' :
  exec_op checker flags opcode pc st = Ok st' → keeps (if OP_16 <? opcode then 1 else 0) pc st st'.
Proof.
  unfold exec_op. intros H.
  repeat match type of H with (if ?b then _ else _) = _ => destruct b eqn:? end; try discriminate H;
    try (by eapply keeps_pick_roll); try (by eapply keeps_checkmultisig);
    unfold op_number, op_nops, op_else, op_endif, op_verify, op_stack, op_equal, op_unary, op_binary,
      op_within, op_hash, op_checksig, stack_error in H; ok_inv;
    try (apply keeps_refl); try (apply keeps_stack; small_stack; fail).
  - unfold op_if in H. assert ((OP_16 <? opcode) = true) as ->.
    { match goal with E : (_ || _) = true |- _ => apply orb_true_iff in E as [->%Z.eqb_eq| ->%Z.eqb_eq] end; done. }
    ok_inv; (split; cbn; [|lia|lia|by left]); intros Hs Ha; (split; [|done]); [|done].
    match goal with E : stack st = _ |- _ => rewrite E in Hs end. by apply Forall_cons in Hs as [_ Hs].
  - split; cbn; [done|lia| |by left]. match goal with E : vfExec st = _ |- _ => rewrite E end. simpl. lia.
  - split; cbn; [done|lia| |by left]. match goal with E : vfExec st = _ |- _ => rewrite E end. simpl. lia.
  - unfold op_toaltstack, stack_error in H. ok_inv. split; cbn; [|lia|lia|by left].
    match goal with E : stack st = _ |- _ => rewrite E end. intros [? ?]%Forall_cons ?. auto.
  - unfold op_fromaltstack in H. ok_inv. split; cbn; [|lia|lia|by left].
    match goal with E : altstack st = _ |- _ => rewrite E end. intros ? [? ?]%Forall_cons. auto.
  - apply keeps_stack. eauto using Forall_stack_op.
  - split; cbn; [done|lia|lia|by right].
Qed.

Lemma GetOp2_suffix pc : op_rest (GetOp2 pc) `suffix_of` pc.
Proof.
  assert (∀ o n q, op_rest (get_operand o n q) `suffix_of` q) as G.
  { intros. unfold get_operand. destruct (_ <? _); simpl; [done|]. apply suffix_drop. }
  destruct pc as [|o pc]; [done|]. unfold GetOp2. repeat case_match; subst; cbn [op_rest op_fail];
    repeat first [apply G | done | apply suffix_cons_r | (etransitivity; [apply G|apply suffix_drop])].
Qed.

(** A pass keeps the bounds. *)
Lemma eval_step_inv script pc st pc' st' :
  pc `suffix_of` script → eval_inv script st → eval_step checker flags pc st = Ok (pc', st') →
  pc' `suffix_of` script ∧ eval_inv script st'.
Proof.
  intros Hpc [Hsz Hs Ha Ho Hc] H. unfold eval_step, eval_op in H. pose proof (GetOp2_suffix pc) as Hsuf.
  set (op := GetOp2 pc) in *. clearbody op. do 2 (case_match; [done|]).
  match goal with E : (MAX_SCRIPT_ELEMENT_SIZE <? _) = false |- _ => apply Z.ltb_ge in E as Hd end.
  change MAX_SCRIPT_ELEMENT_SIZE with 520 in Hd.
  set (st1 := if OP_16 <? op_code op then _ else _) in H.
  destruct ((OP_16 <? op_code op) && (201 <? nOpCount st1)) eqn:Hops; [done|]. case_match; [done|].
  apply rbind_Ok in H as (st2 & Hst2 & H). case_match; [done|]. injection H as <- <-.
  assert (keeps (if OP_16 <? op_code op then 1 else 0) (op_rest op) st1 st2) as [K1 K2 K3 K4].
  { repeat match type of Hst2 with (if ?b then _ else _) = _ => destruct b end; try discriminate Hst2;
      try (by eapply exec_op_keeps); injection Hst2 as <-; try apply keeps_refl;
      apply keeps_stack; intros ?; (apply Forall_cons_2; [unfold small_val; lia|done]). }
  assert (stack st1 = stack st ∧ altstack st1 = altstack st ∧ vfExec st1 = vfExec st ∧
          pbegincodehash st1 = pbegincodehash st ∧
          nOpCount st1 = nOpCount st + (if OP_16 <? op_code op then 1 else 0) ∧ nOpCount st1 <= 201)
    as (E1 & E2 & E3 & E4 & E5 & E6).
  { unfold st1 in *. destruct (OP_16 <? op_code op); cbn in *; split_and!; try done; try lia. }
  rewrite E1, E2 in K1. rewrite E3 in K3. rewrite E4 in K4. destruct (K1 Hs Ha).
  split; [by etransitivity|]. split; [|done|done| |].
  - match goal with E : (1000 <? _)%nat = false |- _ => apply Nat.ltb_ge in E; lia end.
  - destruct (OP_16 <? op_code op); lia.
  - destruct K4 as [->| ->]; [done|]. by etransitivity.
Qed.

Lemma eval_steps_inv script pc st pc' st' :
  eval_steps checker flags pc st pc' st' → pc `suffix_of` script → eval_inv script st →
  pc' `suffix_of` script ∧ eval_inv script st'.
Proof.
  intros H Hpc Hi. induction H as [|? ? ? ? ? ? ? IH ? Hs]; [done|].
  destruct (IH Hpc Hi). by eapply eval_step_inv.
Qed.
End bounds.

(** C29: Running a script is bounded: in every state the loop of EvalScript
    reaches from a stack of at most 1000 entries of at most 520 bytes, both
    stacks together hold at most 1000 entries, no entry is longer than 520
    bytes, at most 201 counted operations were done, and the nesting of
    conditionals is at most the number of operations; the code that signatures
    commit to is always a suffix of the script. *)
Theorem eval_script_resource_bounds checker flags s script pc st :
  (length s <= 1000)%nat → Forall small_val s →
  eval_steps checker flags script (mkEval s [] [] 0 script) pc st →
  (length (stack st) + length (altstack st) <= 1000)%nat ∧
  Forall small_val (stack st) ∧ Forall small_val (altstack st) ∧
  Z.of_nat (length (vfExec st)) <= nOpCount st <= 201 ∧ pbegincodehash st `suffix_of` script.
Proof.
  intros Hl Hs H. apply (eval_steps_inv checker flags script) in H as [_ [? ? ? ? ?]]; [done|done|].
  split; cbn; [lia|done|constructor|lia|done].
Qed.

(** ** Standard scripts *)

Section standard.
Variable checker : list Z → list Z → list Z → bool.
Variable flags : Z.
Abbreviation eval_op := (eval_op checker flags).
Abbreviation eval_loop := (eval_loop checker flags).

Lemma eval_op_rest op st pc' st' : eval_op op st = Ok (pc', st') → pc' = op_rest op.
Proof.
  unfold eval_op. intros H. do 4 (case_match; [done|]). apply rbind_Ok in H as (? & _ & H).
  case_match; [done|]. by injection H as <- <-.
Qed.

(** The passes over a script that is a sequence of items. *)
Definition item_getop (it : item) (rest : list Z) : getop :=
  mkGetOp true (item_op it).1 (item_op it).2 rest.

Lemma eval_loop_items it items st :
  item_ok it →
  eval_loop (length (script_bytes (it :: items))) (script_bytes (it :: items)) st
  = let! (_, st') := eval_op (item_getop it (script_bytes items)) st in
    eval_loop (length (script_bytes items)) (script_bytes items) st'.
Proof.
  intros Hok. change (script_bytes (it :: items)) with (item_bytes it ++ script_bytes items).
  pose proof (length_item_bytes it). rewrite length_app.
  destruct (length (item_bytes it) + length (script_bytes items))%nat as [|fuel] eqn:Hf; [lia|].
  destruct (item_bytes it ++ script_bytes items) as [|x l] eqn:E.
  { apply (f_equal length) in E. rewrite length_app in E. simpl in E. lia. }
  cbn [Interp.eval_loop]. unfold eval_step. rewrite <- E, GetOp2_item by done.
  change (mkGetOp _ _ _ _) with (item_getop it (script_bytes items)).
  destruct (eval_op (item_getop it (script_bytes items)) st) as [[pc' st']|] eqn:Ev; [|done].
  cbn [rbind]. apply eval_op_rest in Ev as ->. apply eval_loop_fuel. simpl. lia.
Qed.

(** What a pass ends with. *)
Definition sized (rest : list Z) (st : eval_state) : result ScriptError (list Z * eval_state) :=
  if (1000 <? length (stack st) + length (altstack st))%nat then Throw SCRIPT_ERR_STACK_SIZE
  else Ok (rest, st).

(** A pass over an opcode that counts, on an executed branch. *)
Lemma eval_op_exec o rest s a n code :
  OP_16 < o → n < 201 → disabled o = false →
  eval_op (item_getop (IOp o) rest) (mkEval s a [] n code)
  = let! st := exec_op checker flags o rest (mkEval s a [] (n + 1) code) in sized rest st.
Proof.
  intros Ho Hn Hd. unfold eval_op, item_getop. cbn [op_ok op_code op_data op_rest item_op fst snd negb length].
  change (MAX_SCRIPT_ELEMENT_SIZE <? Z.of_nat 0) with false. cbv iota.
  rewrite (proj2 (Z.ltb_lt OP_16 o)), Hd by done. cbn [with_nOpCount nOpCount andb].
  rewrite (proj2 (Z.ltb_ge 201 _)) by lia. cbn [executing vfExec forallb andb orb].
  assert ((o <=? OP_PUSHDATA4) = false) as ->; [|by rewrite andb_false_r].
  apply Z.leb_gt. change OP_16 with 96 in Ho. change OP_PUSHDATA4 with 78. lia.
Qed.

(** A pass over a push that is the shortest one. *)
Lemma eval_op_push b rest s a n code :
  (2 <= length b <= 520)%nat →
  eval_op (item_getop (IPush b) rest) (mkEval s a [] n code) = sized rest (mkEval (b :: s) a [] n code).
Proof.
  intros Hb. unfold eval_op, item_getop. cbn [op_ok op_code op_data op_rest item_op fst snd negb].
  change ((push_op b).2) with b. change MAX_SCRIPT_ELEMENT_SIZE with 520. rewrite (proj2 (Z.ltb_ge 520 _)) by lia.
  assert (∃ o, (push_op b).1 = o ∧ 0 <= o <= 78 ∧ CheckMinimalPush b o = true)
    as (o & -> & Ho & Hm).
  { unfold push_op, CheckMinimalPush. cbn [fst snd]. eexists. split; [done|].
    assert (2 <= Z.of_nat (length b) <= 520) as Hz by lia. clear Hb.
    set (n' := Z.of_nat (length b)) in *. clearbody n'. change OP_PUSHDATA1 with 76. change OP_PUSHDATA2 with 77.
    change OP_PUSHDATA4 with 78. rewrite (proj2 (Z.eqb_neq n' 0)), (proj2 (Z.eqb_neq n' 1)) by lia. cbn [andb].
    destruct (Z.ltb_spec n' 76).
    { rewrite (proj2 (Z.leb_le n' 75)), Z.eqb_refl by lia. split; [lia|done]. }
    rewrite (proj2 (Z.leb_gt n' 75)) by lia. destruct (Z.leb_spec n' 255); [done|].
    rewrite (proj2 (Z.leb_le n' 65535)) by lia. done. }
  rewrite (proj2 (Z.ltb_ge OP_16 o)) by (change OP_16 with 96; lia). cbn [andb].
  assert (disabled o = false) as ->.
  { apply bool_decide_eq_false. intros He.
    assert (Forall (λ x, 78 < x) [OP_CAT; OP_SUBSTR; OP_LEFT; OP_RIGHT; OP_INVERT; OP_AND; OP_OR; OP_XOR; OP_2MUL;
      OP_2DIV; OP_MUL; OP_DIV; OP_MOD; OP_LSHIFT; OP_RSHIFT]) as HF by (repeat constructor).
    rewrite Forall_forall in HF. specialize (HF o He). lia. }
  cbn [executing vfExec forallb andb]. change OP_PUSHDATA4 with 78.
  rewrite (proj2 (Z.leb_le 0 o)), (proj2 (Z.leb_le o 78)), Hm, andb_false_r by lia. done.
Qed.

Lemma IsPushOnly_items items :
  Forall item_ok items → IsPushOnly (script_bytes items) = forallb (λ it, (item_op it).1 <=? OP_16) items.
Proof.
  intros Hi. unfold IsPushOnly, ops_of.
  pose proof (script_ops_items (length (script_bytes items)) items Hi ltac:(done)) as E.
  assert (∀ l : list getop, forallb (λ o, op_ok o && (op_code o <=? OP_16)) l
    = forallb (λ p : bool * (Z * list Z), p.1 && (p.2.1 <=? OP_16)) (map (λ o, (op_ok o, (op_code o, op_data o))) l)) as ->.
  { intros l. induction l as [|o l IH]; simpl; [done|]. by rewrite IH. }
  rewrite E. clear. induction items as [|it items IH]; simpl; [done|]. by rewrite IH.
Qed.

Lemma length_push_data b : (length (push_data [] b) <= length b + 5)%nat.
Proof. unfold push_data. repeat case_match; rewrite !length_app; simpl; lia. Qed.

Definition p2pkh (h : list Z) : list Z :=
  build_script [IOp OP_DUP; IOp OP_HASH160; IPush h; IOp OP_EQUALVERIFY; IOp OP_CHECKSIG].
Definition p2sh (h : list Z) : list Z := build_script [IOp OP_HASH160; IPush h; IOp OP_EQUAL].

(** Evaluating the pushes of a script signature. *)
Lemma EvalScript_two_pushes sig pubkey :
  (2 <= length sig <= 520)%nat → (2 <= length pubkey <= 520)%nat →
  EvalScript checker flags [] (build_script [IPush sig; IPush pubkey]) = Ok [pubkey; sig].
Proof.
  intros Hs Hp. rewrite build_script_bytes. unfold EvalScript.
  pose proof (length_push_data sig). pose proof (length_push_data pubkey).
  rewrite (proj2 (Z.ltb_ge 10000 _)).
  2: { unfold script_bytes, item_bytes. cbn [flat_map append_item]. rewrite !length_app. simpl length. lia. }
  rewrite eval_loop_items, eval_op_push by (simpl; lia). cbn [rbind sized stack altstack length Nat.add Nat.ltb Nat.leb].
  rewrite eval_loop_items, eval_op_push by (simpl; lia). done.
Qed.

(** The end of a script. *)
Lemma eval_loop_nil st : eval_loop (length (script_bytes [])) (script_bytes []) st = Ok st.
Proof. done. Qed.

(** The loop over a sequence of items. *)
Definition run (items : list item) (st : eval_state) : exec :=
  eval_loop (length (script_bytes items)) (script_bytes items) st.

Lemma run_exec o items s a n code st :
  OP_PUSHDATA4 < o <= 255 → OP_16 < o → n < 201 → disabled o = false →
  exec_op checker flags o (script_bytes items) (mkEval s a [] (n + 1) code) = Ok st →
  (length (stack st) + length (altstack st) <= 1000)%nat →
  run (IOp o :: items) (mkEval s a [] n code) = run items st.
Proof.
  intros Hok Ho Hn Hd He Hs. unfold run. rewrite eval_loop_items, eval_op_exec by done. rewrite He. cbn [rbind].
  unfold sized. by rewrite (proj2 (Nat.ltb_ge _ _)).
Qed.

Lemma run_exec_error o items s a n code e :
  OP_PUSHDATA4 < o <= 255 → OP_16 < o → n < 201 → disabled o = false →
  exec_op checker flags o (script_bytes items) (mkEval s a [] (n + 1) code) = Throw e →
  run (IOp o :: items) (mkEval s a [] n code) = Throw e.
Proof. intros Hok Ho Hn Hd He. unfold run. rewrite eval_loop_items, eval_op_exec by done. by rewrite He. Qed.

Lemma run_push b items s a n code :
  (2 <= length b <= 520)%nat →
  run (IPush b :: items) (mkEval s a [] n code)
  = if (1000 <=? length s + length a)%nat then Throw SCRIPT_ERR_STACK_SIZE
    else run items (mkEval (b :: s) a [] n code).
Proof.
  intros Hb. unfold run. rewrite eval_loop_items, eval_op_push by (done || simpl; lia). unfold sized.
  cbn [stack altstack length Nat.add]. change (1000 <? S ?k)%nat with (1000 <=? k)%nat. by case_match.
Qed.

Lemma run_nil st : run [] st = Ok st.
Proof. done. Qed.

(** The dispatch of the opcodes the standard scripts use. *)
Lemma exec_DUP pc st : exec_op checker flags OP_DUP pc st = op_stack OP_DUP st.
Proof. reflexivity. Qed.
Lemma exec_HASH160 pc x s a v n code :
  exec_op checker flags OP_HASH160 pc (mkEval (x :: s) a v n code) = Ok (mkEval (Hash160 x :: s) a v n code).
Proof.
  assert (exec_op checker flags OP_HASH160 pc (mkEval (x :: s) a v n code)
          = Ok (mkEval (hash_op OP_HASH160 x :: s) a v n code)) as -> by reflexivity.
  unfold hash_op, Hash160. change (OP_HASH160 =? OP_HASH160) with true.
  change (OP_HASH160 =? OP_RIPEMD160) with false. change (OP_HASH160 =? OP_SHA1) with false.
  change (OP_HASH160 =? OP_SHA256) with false. done.
Qed.
Lemma exec_EQUALVERIFY pc st : exec_op checker flags OP_EQUALVERIFY pc st = op_equal OP_EQUALVERIFY st.
Proof. reflexivity. Qed.
Lemma exec_EQUAL pc st : exec_op checker flags OP_EQUAL pc st = op_equal OP_EQUAL st.
Proof. reflexivity. Qed.
Lemma exec_CHECKSIG pc st : exec_op checker flags OP_CHECKSIG pc st = op_checksig checker flags OP_CHECKSIG st.
Proof. reflexivity. Qed.

Lemma run_p2pkh sig pubkey h code :
  length h = 20%nat →
  run [IOp OP_DUP; IOp OP_HASH160; IPush h; IOp OP_EQUALVERIFY; IOp OP_CHECKSIG] (mkEval [pubkey; sig] [] [] 0 code)
  = if bool_decide (Hash160 pubkey = h)
    then let! _ := check_encodings flags sig pubkey in
         Ok (mkEval [vchBool (checker sig pubkey (drop_signature code sig))] [] [] 4 code)
    else Throw SCRIPT_ERR_EQUALVERIFY.
Proof.
  intros Hh.
  rewrite (run_exec _ _ _ _ _ _ (mkEval [pubkey; pubkey; sig] [] [] 1 code));
    [|done|done|lia|done|by rewrite exec_DUP|simpl; lia].
  rewrite (run_exec _ _ _ _ _ _ (mkEval [Hash160 pubkey; pubkey; sig] [] [] 2 code));
    [|done|done|lia|done|apply exec_HASH160|simpl; lia].
  rewrite run_push by lia. simpl (_ <=? _)%nat. cbv iota. set (d := Hash160 pubkey). clearbody d.
  case_bool_decide as Eh.
  - rewrite (run_exec _ _ _ _ _ _ (mkEval [pubkey; sig] [] [] 3 code)); [|done|done|lia|done| |simpl; lia].
    2: { rewrite exec_EQUALVERIFY. unfold op_equal. cbn [stack]. by rewrite bool_decide_true. }
    destruct (check_encodings flags sig pubkey) as [[]|e] eqn:Ec.
    + rewrite (run_exec _ _ _ _ _ _ (mkEval [vchBool (checker sig pubkey (drop_signature code sig))] [] [] 4 code));
        [done|done|done|lia|done| |simpl; lia].
      rewrite exec_CHECKSIG. unfold op_checksig. cbn [stack]. by rewrite Ec.
    + rewrite (run_exec_error _ _ _ _ _ _ e); [done|done|done|lia|done|].
      rewrite exec_CHECKSIG. unfold op_checksig. cbn [stack]. by rewrite Ec.
  - apply run_exec_error; [done|done|lia|done|].
    rewrite exec_EQUALVERIFY. unfold op_equal. cbn [stack]. by rewrite bool_decide_false.
Qed.

Lemma run_p2sh s h code :
  length h = 20%nat →
  run [IOp OP_HASH160; IPush h; IOp OP_EQUAL] (mkEval s [] [] 0 code)
  = match s with
    | [] => Throw SCRIPT_ERR_INVALID_STACK_OPERATION
    | x :: r => if (1000 <? length s)%nat then Throw SCRIPT_ERR_STACK_SIZE
                else if (1000 <=? length s)%nat then Throw SCRIPT_ERR_STACK_SIZE
                else Ok (mkEval (vchBool (bool_decide (Hash160 x = h)) :: r) [] [] 2 code)
    end.
Proof.
  intros Hh. destruct s as [|x r]; [by apply run_exec_error|].
  destruct (Nat.ltb_spec 1000 (length (x :: r))).
  - unfold run. rewrite eval_loop_items, eval_op_exec by done. rewrite exec_HASH160. cbn [rbind].
    unfold sized. cbn [stack altstack length] in *. by rewrite Nat.add_0_r, (proj2 (Nat.ltb_lt _ _)).
  - rewrite (run_exec _ _ _ _ _ _ (mkEval (Hash160 x :: r) [] [] 1 code));
      [|done|done|lia|done|apply exec_HASH160|simpl in *; lia].
    rewrite run_push by lia. cbn [length] in *. rewrite Nat.add_0_r. destruct (Nat.leb_spec 1000 (S (length r))); [done|].
    set (d := Hash160 x). clearbody d.
    rewrite (run_exec _ _ _ _ _ _ (mkEval (vchBool (bool_decide (d = h)) :: r) [] [] 2 code));
      [done|done|done|lia|done|by rewrite exec_EQUAL|simpl in *; lia].
Qed.

Lemma length_template pre h post :
  length h = 20%nat → Forall (λ it, ∃ o, it = IOp o) (pre ++ post) →
  length (script_bytes (pre ++ [IPush h] ++ post)) = (length (pre ++ post) + 21)%nat.
Proof.
  intros Hh Hf. unfold script_bytes.
  assert (∀ l, Forall (λ it, ∃ o, it = IOp o) l → length (flat_map item_bytes l) = length l) as Hl.
  { intros l Hl. induction Hl as [|it l [o ->] _ IH]; [done|]. simpl. by rewrite IH. }
  apply Forall_app in Hf as [Hf1 Hf2]. rewrite !flat_map_app, !length_app, (Hl pre), (Hl post) by done.
  assert (length (flat_map item_bytes [IPush h]) = 21%nat); [|lia].
  cbn [flat_map]. unfold item_bytes, append_item, push_data. rewrite Hh. simpl. rewrite app_nil_r. lia.
Qed.

Lemma length_p2pkh h : length h = 20%nat → length (p2pkh h) = 25%nat.
Proof.
  intros Hh. unfold p2pkh. rewrite build_script_bytes.
  apply (length_template [IOp OP_DUP; IOp OP_HASH160] h [IOp OP_EQUALVERIFY; IOp OP_CHECKSIG]); [done|].
  repeat constructor; eauto.
Qed.

Lemma length_p2sh h : length h = 20%nat → length (p2sh h) = 23%nat.
Proof.
  intros Hh. unfold p2sh. rewrite build_script_bytes.
  apply (length_template [IOp OP_HASH160] h [IOp OP_EQUAL]); [done|]. repeat constructor; eauto.
Qed.

Lemma p2sh_inj h h' : length h = 20%nat → length h' = 20%nat → p2sh h = p2sh h' → h = h'.
Proof.
  assert (∀ h, length h = 20%nat → p2sh h = ([OP_HASH160; 20] ++ h) ++ [OP_EQUAL]) as E.
  { intros k Hk. unfold p2sh, build_script. cbn [foldl append_item]. unfold push_opcode, push_data. by rewrite Hk. }
  intros Hh Hh' H. rewrite !E in H by done. apply app_inj_tail in H as [H _]. by apply app_inv_head in H.
Qed.

(** IsPayToScriptHash recognises exactly the template. *)
Lemma IsPayToScriptHash_p2sh script :
  IsPayToScriptHash script = true ↔ ∃ h, length h = 20%nat ∧ script = p2sh h.
Proof.
  split.
  - unfold IsPayToScriptHash. rewrite !andb_true_iff, Nat.eqb_eq, !Z.eqb_eq. intros [[[Hl H0] H1] H22].
    do 23 (destruct script as [|? script]; [done|]). destruct script; [|done].
    vm_compute in H0, H1, H22. subst. eexists (_ :: _ :: _ :: _ :: _ :: _ :: _ :: _ :: _ :: _ :: _ :: _ :: _ :: _ :: _ :: _ :: _ :: _ :: _ :: _ :: []).
    split; [done|]. reflexivity.
  - intros (h & Hh & ->). do 20 (destruct h as [|? h]; [done|]). by destruct h.
Qed.

Lemma EvalScript_run s items :
  Z.of_nat (length (script_bytes items)) <= 10000 →
  EvalScript checker flags s (build_script items)
  = let! st := run items (mkEval s [] [] 0 (build_script items)) in
    match vfExec st with [] => Ok (stack st) | _ => Throw SCRIPT_ERR_UNBALANCED_CONDITIONAL end.
Proof. intros Hl. rewrite build_script_bytes. unfold EvalScript, run. by rewrite (proj2 (Z.ltb_ge 10000 _)). Qed.
End standard.

#[local] Opaque Hash160.

(** Spending a pay-to-pubkey-hash output with a signature and a public key:
    VerifyScript fails with EQUALVERIFY unless the key hashes to the output's
    hash, then with the error of the encoding checks the flags ask for, and then
    succeeds exactly if the signature is valid for the key over the output
    script less any push of the signature itself. *)
Theorem p2pkh_verification checker flags sig pubkey h :
  (2 <= length sig <= 520)%nat → (2 <= length pubkey <= 520)%nat → length h = 20%nat →
  VerifyScript checker flags (build_script [IPush sig; IPush pubkey]) (p2pkh h)
  = if bool_decide (Hash160 pubkey = h)
    then let! _ := check_encodings flags sig pubkey in
         if checker sig pubkey (drop_signature (p2pkh h) sig) then Ok () else Throw SCRIPT_ERR_EVAL_FALSE
    else Throw SCRIPT_ERR_EQUALVERIFY.
Proof.
  intros Hs Hp Hh. unfold VerifyScript.
  assert (IsPushOnly (build_script [IPush sig; IPush pubkey]) = true) as ->.
  { rewrite build_script_bytes, IsPushOnly_items by (repeat constructor; simpl; lia).
    cbn [forallb item_op]. unfold push_op. cbn [fst]. unfold OP_16, OP_PUSHDATA1, OP_PUSHDATA2, OP_PUSHDATA4.
    repeat case_match; rewrite !andb_true_iff, !Z.leb_le; lia. }
  rewrite andb_false_r, EvalScript_two_pushes by done. cbn [rbind].
  pose proof (length_p2pkh h Hh) as Hl. unfold p2pkh in Hl at 1. rewrite build_script_bytes in Hl.
  unfold p2pkh at 1. rewrite EvalScript_run, run_p2pkh by (done || lia).
  assert (IsPayToScriptHash (p2pkh h) = false) as ->.
  { unfold IsPayToScriptHash. by rewrite length_p2pkh. }
  rewrite andb_false_r. case_bool_decide; [|done]. destruct (check_encodings flags sig pubkey) as [[]|]; [|done].
  cbn [rbind vfExec stack]. change (build_script [IOp OP_DUP; _; _; _; _]) with (p2pkh h). by destruct (checker _ _ _).
Qed.

(** C20: Spending a pay-to-script-hash output under the P2SH rule: the output
    script is the 23-byte template, and VerifyScript succeeds exactly if the
    script signature evaluates to a non-empty stack of at most 999 entries and
    only pushes, the script on top hashes to the output's hash, and that script
    run on the other entries ends with true on top; the assertion that the
    copied stack is not empty is never reached on an empty stack. *)
Theorem p2sh_verification checker flags scriptSig scriptPubKey :
  has_flag flags SCRIPT_VERIFY_P2SH = true → IsPayToScriptHash scriptPubKey = true →
  VerifyScript checker flags scriptSig scriptPubKey = Ok () ↔
  ∃ redeem s s',
    EvalScript checker flags [] scriptSig = Ok (redeem :: s) ∧ (length s < 999)%nat ∧
    IsPushOnly scriptSig = true ∧ scriptPubKey = p2sh (Hash160 redeem) ∧ length (Hash160 redeem) = 20%nat ∧
    EvalScript checker flags s redeem = Ok s' ∧ stack_is_true s' = true.
Proof.
  intros Hf Hsh. apply IsPayToScriptHash_p2sh in Hsh as Hsh'. destruct Hsh' as (h & Hh & ->).
  unfold VerifyScript. rewrite Hf, Hsh. cbn [andb].
  assert (∀ s, EvalScript checker flags s (p2sh h)
    = match s with
      | [] => Throw SCRIPT_ERR_INVALID_STACK_OPERATION
      | x :: r => if (1000 <=? length s)%nat then Throw SCRIPT_ERR_STACK_SIZE
                  else Ok (vchBool (bool_decide (Hash160 x = h)) :: r)
      end) as Ev.
  { intros s. pose proof (length_p2sh h Hh) as Hl. unfold p2sh in *. rewrite build_script_bytes in Hl.
    rewrite EvalScript_run, run_p2sh by (done || lia). destruct s as [|x r]; [done|].
    destruct (Nat.leb_spec 1000 (length (x :: r))); [by case_match|].
    by rewrite (proj2 (Nat.ltb_ge _ _)) by lia. }
  split.
  - intros H. case_match; [done|]. apply rbind_Ok in H as (sc & Hsc & H). apply rbind_Ok in H as (s1 & Hs1 & H).
    rewrite Ev in Hs1. destruct sc as [|redeem s]; [done|].
    destruct (Nat.leb_spec 1000 (length (redeem :: s))) as [|Hlen]; [done|]. injection Hs1 as <-.
    case_bool_decide as Eh; [|done]. change (stack_is_true (vchBool true :: s)) with true in H. cbn [negb] in H.
    destruct (IsPushOnly scriptSig); [|done]. cbn [negb] in H.
    apply rbind_Ok in H as (s' & Hs' & H). destruct (stack_is_true s') eqn:Ht; [|done].
    exists redeem, s, s'. rewrite Eh. simpl in Hlen. split_and!; try done. lia.
  - intros (redeem & s & s' & Hsc & Hlen & Hp & Heq & Hl & Hs' & Ht). apply p2sh_inj in Heq as ->; [|done|done].
    rewrite Hp, andb_false_r, Hsc. cbn [rbind negb]. rewrite Ev, (proj2 (Nat.leb_gt _ _)) by (simpl; lia).
    cbn [rbind]. rewrite bool_decide_true by done. cbn [vchBool stack_is_true]. simpl negb. cbv iota.
    rewrite Hs'. cbn [rbind]. by rewrite Ht.
Qed.

(** ** Multisignature checks *)

(** The signatures match keys of the list, in order. *)
Definition ordered_match (ok : valtype → valtype → bool) (sigs keys : list valtype) : Prop :=
  ∃ ks, ks `sublist_of` keys ∧ Forall2 (λ s k, ok s k = true) sigs ks.

(** What the loop of CHECKMULTISIG decides: each key is tried once, on the next
    signature. *)
Fixpoint greedy_match (ok : valtype → valtype → bool) (sigs keys : list valtype) : bool :=
  match sigs, keys with
  | [], _ => true
  | _, [] => false
  | s :: ss, k :: ks => if ok s k then greedy_match ok ss ks else greedy_match ok sigs ks
  end.

Lemma greedy_match_ordered ok sigs keys : greedy_match ok sigs keys = true ↔ ordered_match ok sigs keys.
Proof.
  revert sigs. induction keys as [|k keys IH]; intros [|s sigs]; simpl.
  - split; [|done]. intros _. exists []. split; constructor.
  - split; [done|]. intros (ks & Hk & Hf). apply sublist_nil_r in Hk as ->. inversion Hf.
  - split; [|done]. intros _. exists []. split; [apply sublist_nil_l|constructor].
  - destruct (ok s k) eqn:E; rewrite IH; (split; intros (ks & Hk & Hf)).
    + exists (k :: ks). split; by constructor.
    + inversion Hf as [|? k' ? ks' Hs Hf']; subst. exists ks'. split; [|done].
      apply sublist_cons_r in Hk as [Hk|(? & [= -> ->] & Hk)]; [|done].
      etransitivity; [|exact Hk]. by constructor.
    + exists ks. split; [by constructor|done].
    + inversion Hf as [|? k' ? ks' Hs Hf']; subst. exists (k' :: ks'). split; [|done].
      apply sublist_cons_r in Hk as [Hk|(? & [= -> ->] & Hk)]; [done|congruence].
Qed.

Lemma greedy_match_short ok sigs keys : (length keys < length sigs)%nat → greedy_match ok sigs keys = false.
Proof.
  revert sigs. induction keys as [|k keys IH]; intros [|s sigs] Hl; simpl in *; try lia; try done.
  destruct (ok s k); apply IH; simpl; lia.
Qed.

Lemma stacktop_drop (s : list valtype) i x l : 1 <= i → drop (Z.to_nat (i - 1)) s = x :: l → stacktop s i = Ok x.
Proof.
  intros Hi H. unfold stacktop. replace (s !! Z.to_nat (i - 1)) with (Some x); [done|].
  symmetry. rewrite <- (Nat.add_0_r (Z.to_nat (i - 1))), <- lookup_drop, H. done.
Qed.

Lemma drop_next (s : list valtype) i x l :
  1 <= i → drop (Z.to_nat (i - 1)) s = x :: l → drop (Z.to_nat (i + 1 - 1)) s = l.
Proof.
  intros Hi H. replace (Z.to_nat (i + 1 - 1)) with (Z.to_nat (i - 1) + 1)%nat by lia.
  by rewrite <- drop_drop, H.
Qed.

Lemma multisig_loop_greedy checker flags s code isig ikey sigs keys r1 r2 :
  (∀ sig key, sig ∈ sigs → key ∈ keys → check_encodings flags sig key = Ok ()) →
  1 <= isig → 1 <= ikey →
  drop (Z.to_nat (isig - 1)) s = sigs ++ r1 → drop (Z.to_nat (ikey - 1)) s = keys ++ r2 →
  (length sigs <= length keys)%nat →
  multisig_loop checker flags (length keys) s code isig ikey (Z.of_nat (length sigs)) (Z.of_nat (length keys)) true
  = Ok (greedy_match (λ sig key, checker sig key code) sigs keys).
Proof.
  revert isig ikey sigs. induction keys as [|k keys IH]; intros isig ikey sigs He Hi Hk Hs Hkeys Hl.
  { destruct sigs; [done|simpl in Hl; lia]. }
  destruct sigs as [|sig sigs]; [done|]. cbn [length multisig_loop greedy_match].
  rewrite (proj2 (Z.ltb_lt 0 _)) by lia. cbn [andb].
  rewrite (stacktop_drop s isig sig (sigs ++ r1)) by done. cbn [rbind].
  rewrite (stacktop_drop s ikey k (keys ++ r2)) by done. cbn [rbind].
  rewrite He by (constructor || left). cbn [rbind].
  replace (Z.of_nat (S (length keys)) - 1) with (Z.of_nat (length keys)) by lia.
  assert (∀ b, multisig_loop checker flags (length keys) s code b (ikey + 1)
    (Z.of_nat (S (length sigs))) (Z.of_nat (length keys)) false = Ok false) as Hfalse
    by (intros b; by destruct (length keys)).
  pose proof (drop_next s ikey k (keys ++ r2) Hk Hkeys) as Hkeys'.
  destruct (checker sig k code).
  - replace (Z.of_nat (S (length sigs)) - 1) with (Z.of_nat (length sigs)) by lia.
    rewrite (proj2 (Z.ltb_ge _ _)) by (simpl in Hl; lia).
    apply IH; [|lia|lia|by eapply drop_next|done|simpl in Hl; lia].
    intros; apply He; by right.
  - destruct (Z.ltb_spec (Z.of_nat (length keys)) (Z.of_nat (S (length sigs)))) as [H|H].
    + rewrite Hfalse, greedy_match_short by (simpl; lia). done.
    + apply (IH isig (ikey + 1) (sig :: sigs)); [|lia|lia|done|done|simpl; lia].
      intros; apply He; [done|by right].
Qed.

Lemma num_small flags n : 0 <= n <= 20 → num flags (scriptnum_serialize n) = Ok n.
Proof.
  intros Hn. unfold num.
  assert (∀ m b, 0 <= m < 21 → match CScriptNum (scriptnum_serialize m) b with Ok k => k =? m | _ => false end = true) as H.
  { intros m b. revert m. apply Zforall_check. by destruct b. }
  specialize (H n (fRequireMinimal flags) ltac:(lia)).
  destruct (CScriptNum _ _); [|done]. by apply Z.eqb_eq in H as ->.
Qed.

Lemma getint_small n : 0 <= n <= 20 → getint n = n.
Proof. intros. unfold getint. rewrite !(proj2 (Z.ltb_ge _ _)) by lia. done. Qed.

Lemma op_checkmultisig_spec checker flags opcode st keys sigs dummy rest :
  let code := foldl drop_signature (pbegincodehash st) sigs in
  let n := Z.of_nat (length keys) in
  let m := Z.of_nat (length sigs) in
  let b := greedy_match (λ sig key, checker sig key code) sigs keys in
  let st' := with_nOpCount st (nOpCount st + n) in
  stack st = scriptnum_serialize n :: keys ++ scriptnum_serialize m :: sigs ++ dummy :: rest →
  m <= n → n <= 20 → nOpCount st + n <= 201 →
  (∀ sig key, sig ∈ sigs → key ∈ keys → check_encodings flags sig key = Ok ()) →
  (has_flag flags SCRIPT_VERIFY_NULLDUMMY = true → dummy = []) →
  op_checkmultisig checker flags opcode st
  = if opcode =? OP_CHECKMULTISIGVERIFY
    then if b then Ok (with_stack st' rest) else Throw SCRIPT_ERR_CHECKMULTISIGVERIFY
    else Ok (with_stack st' (vchBool b :: rest)).
Proof.
  intros code n m b st' Hst Hmn Hn20 Hops He Hd. unfold op_checkmultisig.
  set (s := stack st) in *.
  assert (Z.of_nat (length s) = 3 + n + m + Z.of_nat (length rest)) as Hlen.
  { rewrite Hst. cbn [length]. rewrite length_app. cbn [length]. rewrite length_app. cbn [length]. lia. }
  assert (drop (Z.to_nat (1 - 1)) s = scriptnum_serialize n :: keys ++ scriptnum_serialize m :: sigs ++ dummy :: rest) as D1
    by exact Hst.
  pose proof (drop_next s 1 _ _ ltac:(lia) D1) as D2. change (1 + 1) with 2 in D2.
  assert (drop (Z.to_nat (2 + n - 1)) s = scriptnum_serialize m :: sigs ++ dummy :: rest) as D3.
  { replace (Z.to_nat (2 + n - 1)) with (Z.to_nat (2 - 1) + length keys)%nat by lia.
    by rewrite <- drop_drop, D2, drop_app_length. }
  pose proof (drop_next s (2 + n) _ _ ltac:(lia) D3) as D4.
  assert (drop (Z.to_nat (2 + n + 1 + m - 1)) s = dummy :: rest) as D5.
  { replace (Z.to_nat (2 + n + 1 + m - 1)) with (Z.to_nat (2 + n + 1 - 1) + length sigs)%nat by lia.
    by rewrite <- drop_drop, D4, drop_app_length. }
  rewrite (proj2 (Z.ltb_ge _ 1)) by lia. rewrite (stacktop_drop s 1 _ _ ltac:(lia) D1). cbn [rbind].
  rewrite num_small by lia. cbn [rbind]. rewrite getint_small by lia.
  rewrite (proj2 (Z.ltb_ge n 0)), (proj2 (Z.ltb_ge 20 n)), (proj2 (Z.ltb_ge 201 _)) by lia. cbn [orb].
  rewrite (proj2 (Z.ltb_ge _ (2 + n))) by lia. rewrite (stacktop_drop s (2 + n) _ _ ltac:(lia) D3). cbn [rbind].
  rewrite num_small by lia. cbn [rbind]. rewrite getint_small by lia.
  rewrite (proj2 (Z.ltb_ge m 0)), (proj2 (Z.ltb_ge n m)) by lia. cbn [orb].
  rewrite (proj2 (Z.ltb_ge _ (2 + n + 1 + m))) by lia.
  unfold drop_signatures. rewrite D4. unfold m at 1 2. rewrite Nat2Z.id, take_app_length. fold code.
  unfold n at 1 3. rewrite Nat2Z.id.
  rewrite (multisig_loop_greedy checker flags s code (2 + n + 1) 2 sigs keys (dummy :: rest)
    (scriptnum_serialize m :: sigs ++ dummy :: rest)) by (done || lia).
  cbn [rbind]. rewrite D5. fold b st'.
  assert (has_flag flags SCRIPT_VERIFY_NULLDUMMY && negb (length dummy =? 0)%nat = false) as ->; [|done].
  destruct (has_flag flags SCRIPT_VERIFY_NULLDUMMY); [by rewrite Hd|done].
Qed.

(** C25: CHECKMULTISIG on a stack with m signatures, m, n keys and n, where the
    encodings pass the checks the flags ask for, leaves true exactly if the
    signatures are valid for some of the keys taken in the same order, else
    false, uses up its arguments and the extra entry below them, and adds n to
    the operation count; the verify form fails instead of leaving false. *)
Theorem checkmultisig_is_ordered_match checker flags st keys sigs dummy rest :
  let code := foldl drop_signature (pbegincodehash st) sigs in
  let n := Z.of_nat (length keys) in
  let m := Z.of_nat (length sigs) in
  stack st = scriptnum_serialize n :: keys ++ scriptnum_serialize m :: sigs ++ dummy :: rest →
  m <= n → n <= 20 → nOpCount st + n <= 201 →
  (∀ sig key, sig ∈ sigs → key ∈ keys → check_encodings flags sig key = Ok ()) →
  (has_flag flags SCRIPT_VERIFY_NULLDUMMY = true → dummy = []) →
  ∃ b, (b = true ↔ ordered_match (λ sig key, checker sig key code) sigs keys) ∧
  op_checkmultisig checker flags OP_CHECKMULTISIG st
    = Ok (with_stack (with_nOpCount st (nOpCount st + n)) (vchBool b :: rest)) ∧
  op_checkmultisig checker flags OP_CHECKMULTISIGVERIFY st
    = if b then Ok (with_stack (with_nOpCount st (nOpCount st + n)) rest)
      else Throw SCRIPT_ERR_CHECKMULTISIGVERIFY.
Proof.
  intros code n m Hst Hmn Hn20 Hops He Hd.
  exists (greedy_match (λ sig key, checker sig key code) sigs keys). split; [apply greedy_match_ordered|].
  pose proof (λ o, op_checkmultisig_spec checker flags o st keys sigs dummy rest Hst Hmn Hn20 Hops He Hd) as H.
  split; [by rewrite (H OP_CHECKMULTISIG)|by rewrite (H OP_CHECKMULTISIGVERIFY)].
Qed.

(** ** Signature encodings *)

(** A DER integer that is positive and has no superfluous leading zero. *)
Definition der_integer (bs : list Z) : Prop :=
  match bs with
  | [] => False
  | [b] => b < 128
  | b :: c :: _ => b < 128 ∧ (b = 0 → 128 <= c)
  end.

(** The one encoding of a pair of integers and a hash type. *)
Definition der_signature (r s : list Z) (hashtype : Z) : list Z :=
  [0x30; Z.of_nat (length r + length s) + 4; 0x02; Z.of_nat (length r)] ++ r
  ++ [0x02; Z.of_nat (length s)] ++ s ++ [hashtype].

(** The number a big-endian byte string stands for. *)
Definition be_val (bs : list Z) : Z := le_val (rev bs).

Lemma getz_app_l (l k : list Z) i : 0 <= i < Z.of_nat (length l) → getz (l ++ k) i = getz l i.
Proof. intros. unfold getz. rewrite app_nth1; [done|lia]. Qed.

Lemma getz_app_r (l k : list Z) i : Z.of_nat (length l) <= i → getz (l ++ k) i = getz k (i - Z.of_nat (length l)).
Proof. intros. unfold getz. rewrite app_nth2 by lia. f_equal. lia. Qed.

Lemma getz_drop (l : list Z) n i : 0 <= i → getz (drop n l) i = getz l (Z.of_nat n + i).
Proof.
  intros. unfold getz. rewrite !nth_lookup, lookup_drop. do 2 f_equal. lia.
Qed.

(** A list cut at a position inside. *)
Lemma cut_at (l : list Z) i :
  0 <= i < Z.of_nat (length l) → l = take (Z.to_nat i) l ++ getz l i :: drop (Z.to_nat (i + 1)) l.
Proof.
  intros Hi. unfold getz. destruct (lookup_lt_is_Some_2 l (Z.to_nat i) ltac:(lia)) as [x Hx].
  rewrite nth_lookup, Hx. cbn [default from_option id]. replace (Z.to_nat (i + 1)) with (S (Z.to_nat i)) by lia.
  symmetry. by apply take_drop_middle.
Qed.

Lemma der_integer_spec (bs : list Z) :
  Forall is_byte bs →
  der_integer bs ↔
  Z.of_nat (length bs) ≠ 0 ∧ Z.land (getz bs 0) 0x80 = 0 ∧
  ¬ (1 < Z.of_nat (length bs) ∧ getz bs 0 = 0 ∧ Z.land (getz bs 1) 0x80 = 0).
Proof.
  intros Hb. destruct Hb as [|b bs Hb Hbs]; [simpl; naive_solver|].
  assert (∀ x, is_byte x → Z.land x 0x80 = 0 ↔ x < 128) as Hl.
  { intros x Hx. rewrite <- Z.eqb_eq, land_128, Z.ltb_lt by done. done. }
  destruct Hbs as [|c bs Hc Hbs]; cbn [der_integer length]; unfold getz; cbn [Z.to_nat nth].
  - rewrite Hl by done. split; [intros; split_and!; [lia|done|lia]|naive_solver].
  - change (Pos.to_nat 1) with 1%nat. cbn [nth]. rewrite !Hl by done. unfold in_uw in *.
    destruct (Z.eq_dec b 0), (Z.lt_ge_cases c 128); split; intros; split_and!; try lia; naive_solver lia.
Qed.

Lemma if_false_true (c e : bool) : (if c then false else e) = true ↔ c = false ∧ e = true.
Proof. destruct c, e; naive_solver. Qed.

(** The test on a string cut where its lengths say. *)
Lemma IsValidSignatureEncoding_cut a b c d x y h (r s : list Z) :
  d = Z.of_nat (length r) → y = Z.of_nat (length s) → Forall is_byte r → Forall is_byte s →
  let sig := [a; b; c; d] ++ r ++ [x; y] ++ s ++ [h] in
  IsValidSignatureEncoding sig = true ↔
  a = 0x30 ∧ b = d + y + 4 ∧ c = 0x02 ∧ x = 0x02 ∧ d + y <= 66 ∧ der_integer r ∧ der_integer s.
Proof.
  intros Hd Hy Hr Hs sig. rewrite !der_integer_spec by done.
  assert (Z.of_nat (length sig) = d + y + 7) as Hlen.
  { unfold sig. rewrite !length_app. simpl. lia. }
  assert (getz sig 3 = d) as E3 by done.
  assert (∀ i, 0 <= i → getz sig (d + 4 + i) = getz ([x; y] ++ s ++ [h]) i) as Et.
  { intros i Hi. unfold sig. rewrite getz_app_r by (simpl; lia). rewrite getz_app_r by (simpl; lia). f_equal. simpl. lia. }
  assert (∀ i, 0 <= i < d → getz sig (4 + i) = getz r i) as Er.
  { intros i Hi. unfold sig. rewrite getz_app_r by (simpl; lia). rewrite getz_app_l by (simpl; lia). f_equal. simpl. lia. }
  assert (∀ i, 0 <= i < y → getz sig (d + 6 + i) = getz s i) as Es.
  { intros i Hi. replace (d + 6 + i) with (d + 4 + (2 + i)) by lia. rewrite Et by lia.
    rewrite getz_app_r by (simpl; lia). rewrite getz_app_l by (simpl; lia). f_equal. simpl. lia. }
  assert (getz sig (5 + d) = y) as E5 by (replace (5 + d) with (d + 4 + 1) by lia; by rewrite Et).
  assert (getz sig (d + 4) = x) as E4 by (replace (d + 4) with (d + 4 + 0) by lia; by rewrite Et).
  unfold IsValidSignatureEncoding. rewrite E3, E5, E4, Hlen.
  change (getz sig 0) with a. change (getz sig 1) with b. change (getz sig 2) with c. clearbody sig.
  assert (d ≠ 0 → getz sig 4 = getz r 0) as R0 by (intros; apply (Er 0); lia).
  assert (1 < d → getz sig 5 = getz r 1) as R1 by (intros; apply (Er 1); lia).
  assert (y ≠ 0 → getz sig (d + 6) = getz s 0) as S0
    by (intros; replace (d + 6) with (d + 6 + 0) by lia; apply Es; lia).
  assert (1 < y → getz sig (d + 7) = getz s 1) as S1
    by (intros; replace (d + 7) with (d + 6 + 1) by lia; apply Es; lia).
  rewrite <- Hd, <- Hy. clear Er Es Et E3 E4 E5 Hlen.
  rewrite !if_false_true.
  rewrite !negb_false_iff, !Z.eqb_eq, !Z.eqb_neq, !Z.ltb_ge, Z.leb_gt.
  rewrite !andb_false_iff, !Z.eqb_neq, !Z.ltb_ge.
  assert (0 <= d ∧ 0 <= y) as [? ?] by lia. clear Hd Hy Hr Hs.
  destruct (Z.eq_dec d 0) as [->|Hd0]; [split; [lia|naive_solver]|].
  destruct (Z.eq_dec y 0) as [->|Hy0]; [split; [lia|naive_solver]|].
  rewrite R0, S0 by done. clear R0 S0.
  destruct (Z.lt_ge_cases 1 d), (Z.lt_ge_cases 1 y); rewrite ?R1, ?S1 by done; clear R1 S1;
    (split; [intros; destruct_and!; split_and!; try lia; try done; naive_solver lia
            |intros; destruct_and!; split_and!; try lia; try done; naive_solver lia]).
Qed.

(** A string the test accepts can be cut. *)
Lemma IsValidSignatureEncoding_shape sig :
  Forall is_byte sig → IsValidSignatureEncoding sig = true →
  ∃ a b c x h (r s : list Z), Forall is_byte r ∧ Forall is_byte s ∧
  sig = [a; b; c; Z.of_nat (length r)] ++ r ++ [x; Z.of_nat (length s)] ++ s ++ [h].
Proof.
  intros Hb H. unfold IsValidSignatureEncoding in H. rewrite !if_false_true, !negb_false_iff in H.
  rewrite !Z.ltb_ge, Z.leb_gt in H. destruct H as (H9 & _ & _ & _ & H5 & Hsz%Z.eqb_eq & _).
  do 4 (destruct sig as [|? sig]; [simpl in *; lia|]). repeat (apply Forall_cons in Hb as [? Hb]).
  change (getz (z :: z0 :: z1 :: z2 :: sig) 3) with z2 in *. cbn [length] in *.
  assert (0 <= z2) by (unfold in_uw in *; lia).
  replace (5 + z2) with (4 + (z2 + 1)) in Hsz by lia.
  change (getz (z :: z0 :: z1 :: z2 :: sig) (4 + (z2 + 1)))
    with (getz ([z; z0; z1; z2] ++ sig) (4 + (z2 + 1))) in Hsz.
  rewrite getz_app_r in Hsz by (simpl; lia). replace (4 + (z2 + 1) - Z.of_nat (length [z; z0; z1; z2])) with (z2 + 1) in Hsz by (simpl; lia).
  set (r := take (Z.to_nat z2) sig). set (t := drop (Z.to_nat z2) sig).
  assert (sig = r ++ t) as E by (symmetry; apply take_drop).
  assert (Z.of_nat (length r) = z2) as Hr by (unfold r; rewrite length_take; lia).
  assert (Z.of_nat (length sig) = z2 + Z.of_nat (length t)) as Ht by (rewrite E at 1; rewrite length_app; lia).
  rewrite E in Hsz at 1. rewrite getz_app_r in Hsz by lia. rewrite E in Hb. apply Forall_app in Hb as [Hbr Hbt].
  clearbody r t. subst sig. rewrite length_app in *.
  do 2 (destruct t as [|? t]; [simpl in *; lia|]). cbn [length] in *. repeat (apply Forall_cons in Hbt as [? Hbt]).
  replace (z2 + 1 - Z.of_nat (length r)) with 1 in Hsz by lia. change (getz (z3 :: z4 :: t) 1) with z4 in Hsz.
  destruct (snoc_cases t) as [->|(s & h & ->)]; [simpl in *; unfold in_uw in *; lia|].
  rewrite length_app in *. apply Forall_app in Hbt as [Hbs _]. cbn [length] in *.
  exists z, z0, z1, z3, h, r, s. split_and!; [done|done|]. rewrite Hr.
  assert (z4 = Z.of_nat (length s)) as -> by lia. done.
Qed.

Lemma be_val_cons b bs : be_val (b :: bs) = b * 2 ^ (8 * Z.of_nat (length bs)) + be_val bs.
Proof. unfold be_val. cbn [rev]. rewrite le_val_snoc, length_rev. lia. Qed.

Lemma be_val_range bs : Forall is_byte bs → 0 <= be_val bs < 2 ^ (8 * Z.of_nat (length bs)).
Proof. intros Hb. unfold be_val. rewrite <- length_rev. apply le_val_range. by apply Forall_rev. Qed.

Lemma compare_bytes_spec c1 c2 :
  length c1 = length c2 → Forall is_byte c1 → Forall is_byte c2 →
  compare_bytes c1 c2 = match be_val c1 ?= be_val c2 with Lt => -1 | Eq => 0 | Gt => 1 end.
Proof.
  intros Hl H1. revert c2 Hl. induction H1 as [|a c1 Ha H1 IH]; intros [|b c2] Hl H2; try done.
  apply Forall_cons in H2 as [Hb H2]. injection Hl as Hl. cbn [compare_bytes]. rewrite !be_val_cons, <- Hl.
  pose proof (be_val_range c1 H1). pose proof (be_val_range c2 H2) as R2. rewrite <- Hl in R2.
  set (q := 2 ^ (8 * Z.of_nat (length c1))) in *.
  destruct (Z.ltb_spec b a); [|destruct (Z.ltb_spec a b)].
  - replace (a * q + be_val c1 ?= b * q + be_val c2) with Gt; [done|]. symmetry. apply Z.compare_gt_iff. nia.
  - replace (a * q + be_val c1 ?= b * q + be_val c2) with Lt; [done|]. symmetry. apply Z.compare_lt_iff. nia.
  - assert (a = b) as -> by lia. rewrite IH by done. by rewrite Z.add_compare_mono_l.
Qed.

Lemma drop_zeros_spec k c :
  Forall is_byte c → (k <= length c)%nat →
  match drop_zeros k c with
  | Some c' => be_val c' = be_val c ∧ length c' = (length c - k)%nat ∧ Forall is_byte c'
  | None => 2 ^ (8 * Z.of_nat (length c - k)) <= be_val c
  end.
Proof.
  revert c. induction k as [|k IH]; intros c Hc Hk; [destruct c; simpl; split_and!; try done; lia|].
  destruct Hc as [|b c Hb Hc]; [simpl in Hk; lia|]. cbn [drop_zeros length]. simpl in Hk.
  pose proof (be_val_range c Hc). rewrite be_val_cons. replace (S (length c) - S k)%nat with (length c - k)%nat by lia.
  destruct (Z.eqb_spec b 0) as [->|Hb0]; cbn [negb].
  - specialize (IH c Hc ltac:(lia)). destruct (drop_zeros k c); by rewrite Z.mul_0_l, Z.add_0_l.
  - assert (2 ^ (8 * Z.of_nat (length c - k)) <= 2 ^ (8 * Z.of_nat (length c))) by (apply Z.pow_le_mono_r; lia).
    unfold in_uw in Hb. nia.
Qed.

Lemma CompareBigEndian_spec c1 c2 :
  Forall is_byte c1 → Forall is_byte c2 →
  CompareBigEndian c1 c2 = match be_val c1 ?= be_val c2 with Lt => -1 | Eq => 0 | Gt => 1 end.
Proof.
  intros H1 H2. unfold CompareBigEndian.
  pose proof (drop_zeros_spec (length c1 - length c2) c1 H1 ltac:(lia)) as D1.
  destruct (drop_zeros _ c1) as [c1'|].
  - destruct D1 as (E1 & L1 & B1). pose proof (drop_zeros_spec (length c2 - length c1') c2 H2 ltac:(lia)) as D2.
    destruct (drop_zeros _ c2) as [c2'|].
    + destruct D2 as (E2 & L2 & B2). rewrite compare_bytes_spec by (done || lia). by rewrite E1, E2.
    + pose proof (be_val_range c1' B1). rewrite E1 in *.
      replace (length c2 - (length c2 - length c1'))%nat with (length c1') in D2 by lia.
      by rewrite (proj2 (Z.compare_lt_iff _ _)) by lia.
  - pose proof (be_val_range c2 H2).
    assert (2 ^ (8 * Z.of_nat (length c2)) <= 2 ^ (8 * Z.of_nat (length c1 - (length c1 - length c2)))).
    { destruct (le_lt_dec (length c1) (length c2)) as [Hle|].
      - replace (length c1 - length c2)%nat with 0%nat in D1 by lia. rewrite Nat.sub_0_r in D1.
        pose proof (be_val_range c1 H1). lia.
      - apply Z.pow_le_mono_r; lia. }
    by rewrite (proj2 (Z.compare_gt_iff _ _)) by lia.
Qed.

Lemma der_signature_iff sig :
  Forall is_byte sig →
  IsValidSignatureEncoding sig = true ↔
  ∃ r s ht, sig = der_signature r s ht ∧ der_integer r ∧ der_integer s ∧ (length r + length s <= 66)%nat.
Proof.
  intros Hb. split.
  - intros H. destruct (IsValidSignatureEncoding_shape sig Hb H) as (a & b & c & x & h & r & s & Hr & Hs & ->).
    apply IsValidSignatureEncoding_cut in H as (-> & -> & -> & -> & Hl & Dr & Ds); try done.
    exists r, s, h. unfold der_signature. split_and!; [|done|done|lia]. repeat f_equal. lia.
  - intros (r & s & h & -> & Dr & Ds & Hl). unfold der_signature in *.
    apply Forall_app in Hb as [_ [Hr [_ [Hs _]%Forall_app]%Forall_app]%Forall_app].
    apply IsValidSignatureEncoding_cut; try done. split_and!; try done; lia.
Qed.

Lemma CheckSignatureElement_half s :
  Forall is_byte s →
  CheckSignatureElement s true = true ↔
  0 < be_val s <= 0x7FFFFFFFFFFFFFFFFFFFFFFFFFFFFFFF5D576E7357A4501DDFE92F46681B20A0.
Proof.
  intros Hs. unfold CheckSignatureElement. rewrite !CompareBigEndian_spec by (done || by repeat constructor).
  change (be_val []) with 0.
  replace (be_val vchMaxModHalfOrder) with 0x7FFFFFFFFFFFFFFFFFFFFFFFFFFFFFFF5D576E7357A4501DDFE92F46681B20A0
    by (vm_compute; reflexivity).
  set (half := 0x7FFFFFFFFFFFFFFFFFFFFFFFFFFFFFFF5D576E7357A4501DDFE92F46681B20A0). clearbody half.
  rewrite andb_true_iff.
  destruct (Z.compare_spec (be_val s) 0), (Z.compare_spec (be_val s) half); simpl; intuition (lia || done).
Qed.

(** Where IsLowDERSignature finds the second integer. *)
Lemma der_signature_S r s ht :
  let sig := der_signature r s ht in
  getz sig 3 = Z.of_nat (length r) ∧ getz sig (5 + Z.of_nat (length r)) = Z.of_nat (length s) ∧
  take (length s) (drop (Z.to_nat (6 + Z.of_nat (length r))) sig) = s.
Proof.
  cbv zeta. unfold der_signature. split_and!; [done| |].
  - rewrite getz_app_r by (simpl; lia). rewrite getz_app_r by (simpl; lia).
    replace (5 + _ - _ - _) with 1 by (simpl; lia). done.
  - rewrite !app_assoc. rewrite <- (app_assoc _ s [ht]).
    rewrite drop_app_length' by (rewrite !length_app; simpl; lia). by rewrite take_app_length.
Qed.

Lemma IsLowDERSignature_der r s ht :
  Forall is_byte (der_signature r s ht) → IsValidSignatureEncoding (der_signature r s ht) = true →
  IsLowDERSignature (der_signature r s ht) = None ↔
  0 < be_val s <= 0x7FFFFFFFFFFFFFFFFFFFFFFFFFFFFFFF5D576E7357A4501DDFE92F46681B20A0.
Proof.
  intros Hb Hv. unfold IsLowDERSignature. rewrite Hv. cbn [negb].
  destruct (der_signature_S r s ht) as (E3 & E5 & ES). rewrite E3, E5, Nat2Z.id, ES.
  unfold der_signature in Hb. apply Forall_app in Hb as [_ [_ [_ [Hs _]%Forall_app]%Forall_app]%Forall_app].
  rewrite <- CheckSignatureElement_half by done. by destruct (CheckSignatureElement s true).
Qed.

(** Signature encodings: IsValidSignatureEncoding accepts exactly the
    strings that are the DER encoding of two positive integers without
    superfluous zeros, in one-byte lengths, with a hash type byte at the end and
    at most 73 bytes; so a pair of integers has one accepted spelling.
    IsLowDERSignature accepts exactly those whose second integer is positive and
    at most half the order of the curve. *)
Theorem signature_encoding_is_strict_der sig :
  Forall is_byte sig →
  (IsValidSignatureEncoding sig = true ↔
   ∃ r s ht, sig = der_signature r s ht ∧ der_integer r ∧ der_integer s ∧ (length sig <= 73)%nat) ∧
  (IsLowDERSignature sig = None ↔
   ∃ r s ht, sig = der_signature r s ht ∧ der_integer r ∧ der_integer s ∧ (length sig <= 73)%nat ∧
   0 < be_val s <= 0x7FFFFFFFFFFFFFFFFFFFFFFFFFFFFFFF5D576E7357A4501DDFE92F46681B20A0).
Proof.
  intros Hb.
  assert (∀ r s ht, length (der_signature r s ht) = (length r + length s + 7)%nat) as Hlen
    by (intros; unfold der_signature; rewrite !length_app; simpl; lia).
  assert (IsValidSignatureEncoding sig = true ↔
    ∃ r s ht, sig = der_signature r s ht ∧ der_integer r ∧ der_integer s ∧ (length sig <= 73)%nat) as Hiff.
  { rewrite der_signature_iff by done. split; intros (r & s & ht & -> & ? & ? & Hl);
      exists r, s, ht; rewrite Hlen in *; split_and!; done || lia. }
  split; [done|]. split.
  - intros H. destruct (IsValidSignatureEncoding sig) eqn:Hv; [|by unfold IsLowDERSignature in H; rewrite Hv in H].
    destruct (proj1 Hiff eq_refl) as (r & s & ht & -> & Hr & Hs & Hl).
    apply IsLowDERSignature_der in H; [|done|done]. by exists r, s, ht.
  - intros (r & s & ht & -> & Hr & Hs & Hl & Hh). apply IsLowDERSignature_der; [done| |done].
    apply Hiff. by exists r, s, ht.
Qed.

(** An output whose script IsUnspendable recognises can never be spent: with
    any script signature, any flags and any signature checker VerifyScript
    fails, so leaving such outputs out of the set of coins is safe. *)
Theorem unspendable_never_verifies checker flags scriptSig scriptPubKey :
  IsUnspendable scriptPubKey = true → VerifyScript checker flags scriptSig scriptPubKey ≠ Ok ().
Proof.
  intros Hu H. unfold VerifyScript in H. case_match; [done|].
  apply rbind_Ok in H as (s & _ & H). apply rbind_Ok in H as (s' & He & _).
  destruct scriptPubKey as [|o script]; [done|]. apply Z.eqb_eq in Hu as ->.
  unfold EvalScript in He. case_match; [done|]. apply rbind_Ok in He as (st & He & _).
  cbn [length eval_loop] in He. unfold eval_step in He. rewrite GetOp2_opcode in He by done.
  change (mkGetOp true OP_RETURN [] script) with (item_getop (IOp OP_RETURN) script) in He.
  rewrite eval_op_exec in He by done. done.
Qed.

(** ** Witnesses *)

Lemma eval_script_resource_bounds_witness :
  (length (stack (mkEval [vchTrue; vchTrue] [] [] 1 [OP_1; OP_DUP])) + 0 <= 1000)%nat.
Proof.
  apply (eval_script_resource_bounds (λ _ _ _, false) 0 [] [OP_1; OP_DUP] []
           (mkEval [vchTrue; vchTrue] [] [] 1 [OP_1; OP_DUP])).
  - simpl. lia.
  - constructor.
  - apply eval_loop_steps. reflexivity.
Defined.

Lemma p2pkh_verification_witness :
  VerifyScript (λ _ _ _, true) SCRIPT_VERIFY_P2SH
    (build_script [IPush (replicate 71 7); IPush (replicate 33 2)]) (p2pkh (Hash160 (replicate 33 2))) = Ok ().
Proof.
  rewrite p2pkh_verification; [|simpl; lia|simpl; lia|vm_compute; reflexivity].
  rewrite bool_decide_true by reflexivity. reflexivity.
Defined.

Lemma p2sh_verification_witness :
  VerifyScript (λ _ _ _, false) SCRIPT_VERIFY_P2SH
    (build_script [IPush [OP_1; OP_DUP]]) (p2sh (Hash160 [OP_1; OP_DUP])) = Ok ().
Proof.
  apply p2sh_verification; [reflexivity|vm_compute; reflexivity|].
  exists [OP_1; OP_DUP], [], [[1]; [1]].
  split_and!; [reflexivity|simpl; lia|reflexivity|reflexivity|vm_compute; reflexivity|reflexivity|reflexivity].
Defined.

Lemma checkmultisig_is_ordered_match_witness :
  let st := mkEval [[2]; [11]; [12]; [1]; [22]; []] [] [] 1 [] in
  ∃ b, (b = true ↔ ordered_match (λ sig key, bool_decide (sig = [22] ∧ key = [12])) [[22]] [[11]; [12]]) ∧
  op_checkmultisig (λ sig key _, bool_decide (sig = [22] ∧ key = [12])) 0 OP_CHECKMULTISIG st
  = Ok (mkEval [vchBool b] [] [] 3 []).
Proof.
  destruct (checkmultisig_is_ordered_match (λ sig key _, bool_decide (sig = [22] ∧ key = [12])) 0
    (mkEval [[2]; [11]; [12]; [1]; [22]; []] [] [] 1 []) [[11]; [12]] [[22]] [] []) as (b & Hb & H & _);
    [reflexivity|simpl; lia|simpl; lia|simpl; lia|intros [|? ?] ? ? ?; reflexivity|reflexivity|].
  exists b. split; [exact Hb|exact H].
Defined.

Lemma signature_encoding_is_strict_der_witness :
  IsValidSignatureEncoding [0x30; 7; 2; 2; 0; 200; 2; 1; 5; 1] = true.
Proof.
  apply (signature_encoding_is_strict_der [0x30; 7; 2; 2; 0; 200; 2; 1; 5; 1]).
  - repeat constructor; vm_compute; done.
  - exists [0; 200], [5], 1. split_and!; simpl; lia || done.
Defined.

Lemma unspendable_never_verifies_witness :
  VerifyScript (λ _ _ _, true) 0 [OP_1] [OP_RETURN; 1; 7] ≠ Ok ().
Proof. apply unspendable_never_verifies. reflexivity. Defined.
