(* ===== verification/Tx.v ===== *)
(** * primitives/transaction.h and .cpp, amount.cpp: transactions

    A uint256 that is only stored, compared and hashed is its 32 bytes in memory.
    The wire formats are built from the combinators of the serialization file. *)

From S2P Require Import Prelude Serialize Script Digest Hashes.

Local Open Scope node_scope.

(** ** Hashes as values *)

Abbreviation hash256 := (list Z).

Definition null_hash : hash256 := replicate 32 0.
Definition hash_IsNull (h : hash256) : bool := forallb (λ b, b =? 0) h.
(** uint256 is little-endian in memory. *)
Definition hash_lt (a b : hash256) : bool := le_val a <? le_val b.

Definition f_hash : format hash256 := f_flat 32.

(** ** COutPoint *)

Record COutPoint := mkOutPoint { out_hash : hash256; out_n : Z }.

#[export] Instance COutPoint_eq_dec : EqDecision COutPoint.
Proof. solve_decision. Defined.

Definition null_outpoint : COutPoint := mkOutPoint null_hash 4294967295.
Definition outpoint_IsNull (o : COutPoint) : bool := hash_IsNull (out_hash o) && (out_n o =? 4294967295).
Definition outpoint_lt (a b : COutPoint) : bool :=
  hash_lt (out_hash a) (out_hash b) || (bool_decide (out_hash a = out_hash b) && (out_n a <? out_n b)).
Definition outpoint_GetHash (o : COutPoint) : hash256 := Hash2 (out_hash o) (le_bytes 4 (out_n o)).

(** FLATDATA of the struct: the hash, then the index. *)
Definition f_outpoint : format COutPoint :=
  f_struct (f_pair f_hash (f_uint 4)) (λ o, (out_hash o, out_n o)) (λ p, mkOutPoint p.1 p.2).

(** ** CTxIn *)

Record CTxIn := mkTxIn { prevout : COutPoint; scriptSig : list Z; nSequence : Z; prevPubKey : list Z }.

#[export] Instance CTxIn_eq_dec : EqDecision CTxIn.
Proof. solve_decision. Defined.

Definition new_txin (o : COutPoint) (sig : list Z) (seq : Z) : CTxIn := mkTxIn o sig seq [].
Definition txin_IsFinal (i : CTxIn) : bool := nSequence i =? 4294967295.
(** [operator==] ignores [prevPubKey]. *)
Definition txin_eq (a b : CTxIn) : bool :=
  bool_decide (prevout a = prevout b) && bool_decide (scriptSig a = scriptSig b) && (nSequence a =? nSequence b).

Definition f_txin : format CTxIn :=
  f_struct (f_pair f_outpoint (f_pair f_bytes (f_uint 4)))
    (λ i, (prevout i, (scriptSig i, nSequence i))) (λ p, new_txin p.1 p.2.1 p.2.2).

(** ** CTxOut *)

Record CTxOut := mkTxOut { nValue : Z; scriptPubKey : list Z; nRounds : Z }.

#[export] Instance CTxOut_eq_dec : EqDecision CTxOut.
Proof. solve_decision. Defined.

Definition new_txout (v : Z) (script : list Z) : CTxOut := mkTxOut v script (-10).
Definition null_txout : CTxOut := new_txout (-1) [].
Definition txout_IsNull (o : CTxOut) : bool := nValue o =? -1.
Definition txout_SetEmpty (o : CTxOut) : CTxOut := mkTxOut 0 [] (nRounds o).
Definition txout_IsEmpty (o : CTxOut) : bool := (nValue o =? 0) && (length (scriptPubKey o) =? 0)%nat.
Definition txout_IsZerocoinMint (o : CTxOut) : bool :=
  negb (length (scriptPubKey o) =? 0)%nat && IsZerocoinMint (scriptPubKey o).

Definition f_txout : format CTxOut :=
  f_struct (f_pair (f_sint 8) f_bytes) (λ o, (nValue o, scriptPubKey o)) (λ p, new_txout p.1 p.2).

Definition txout_GetHash (o : CTxOut) : hash256 := Hash (ser f_txout o).

(** ** CFeeRate *)

(** [nFeePaid * 1000 / nSize]: the product is signed, the division unsigned. *)
Definition CFeeRate (nFeePaid nSize : Z) : Z :=
  if 0 <? nSize then s64 (u64 (s64 (nFeePaid * 1000)) / nSize) else 0.

Definition GetFee (nSatoshisPerK nSize : Z) : Z :=
  let nFee := s64 (u64 (nSatoshisPerK * nSize) / 1000) in
  if (nFee =? 0) && (0 <? nSatoshisPerK) then nSatoshisPerK else nFee.

Definition IsDust (o : CTxOut) (minRelayTxFee : Z) : bool :=
  let nSize := size_of f_txout o + 148 in
  nValue o <? s64 (3 * GetFee minRelayTxFee nSize).

(** ** CMutableTransaction and CTransaction *)

Record CMutableTransaction := mkMutable {
  m_nVersion : Z; m_vin : list CTxIn; m_vout : list CTxOut; m_nLockTime : Z
}.

Definition f_mutable : format CMutableTransaction :=
  f_struct (f_pair (f_sint 4) (f_pair (f_vector f_txin) (f_pair (f_vector f_txout) (f_uint 4))))
    (λ t, (m_nVersion t, (m_vin t, (m_vout t, m_nLockTime t))))
    (λ p, mkMutable p.1 p.2.1 p.2.2.1 p.2.2.2).

Definition mutable_GetHash (t : CMutableTransaction) : hash256 := Hash (ser f_mutable t).

(** [tx_hash] is the cached hash. *)
Record CTransaction := mkTx {
  tx_hash : hash256; nVersion : Z; vin : list CTxIn; vout : list CTxOut; nLockTime : Z
}.

Definition CURRENT_VERSION : Z := 1.

(** The default constructor does not compute the hash. *)
Definition empty_tx : CTransaction := mkTx null_hash CURRENT_VERSION [] [] 0.

Definition to_mutable (t : CTransaction) : CMutableTransaction :=
  mkMutable (nVersion t) (vin t) (vout t) (nLockTime t).

(** CTransaction(const CMutableTransaction&), which calls UpdateHash. *)
Definition of_mutable (t : CMutableTransaction) : CTransaction :=
  mkTx (mutable_GetHash t) (m_nVersion t) (m_vin t) (m_vout t) (m_nLockTime t).

(** The same bytes as the mutable form; reading updates the hash. *)
Definition f_tx : format CTransaction := f_struct f_mutable to_mutable of_mutable.

Definition tx_IsNull (t : CTransaction) : bool := (length (vin t) =? 0)%nat && (length (vout t) =? 0)%nat.

(** The source reads [scriptSig[0]] also of an empty script signature, which is
    out of range; such an input counts as no spend here. *)
Definition tx_IsZerocoinSpend (t : CTransaction) : bool :=
  match vin t with
  | i :: _ => outpoint_IsNull (prevout i)
              && match scriptSig i with op :: _ => op =? OP_ZEROCOINSPEND | [] => false end
  | [] => false
  end.

Definition tx_IsZerocoinMint (t : CTransaction) : bool := existsb (λ o, IsZerocoinMint (scriptPubKey o)) (vout t).
Definition ContainsZerocoins (t : CTransaction) : bool := tx_IsZerocoinSpend t || tx_IsZerocoinMint t.

Definition IsCoinBase (t : CTransaction) : bool :=
  match vin t with
  | [i] => outpoint_IsNull (prevout i) && negb (ContainsZerocoins t)
  | _ => false
  end.

Definition IsCoinStake (t : CTransaction) : bool :=
  match vin t, vout t with
  | i :: _, o :: _ :: _ => negb (outpoint_IsNull (prevout i)) && txout_IsEmpty o
  | _, _ => false
  end.

Definition IsMasternodeReward (o : COutPoint) (t : CTransaction) : bool :=
  if negb (IsCoinStake t) then false
  else (out_n o =? Z.of_nat (length (vout t)) - 1)
       && negb (bool_decide (scriptPubKey <$> vout t !! 1%nat = scriptPubKey <$> vout t !! Z.to_nat (out_n o))).

(** [std::runtime_error] of GetValueOut. *)
Inductive value_error := ValueNegative | ValueWraps.

(** One output; the sum is signed, so the wrap-around the test looks for is
    undefined in C++: here it is two's complement. *)
Definition GetValueOut_step (r : result value_error Z) (o : CTxOut) : result value_error Z :=
  let! nValueOut := r in
  if nValue o <? 0 then Throw ValueNegative
  else if s64 (nValueOut + nValue o) <? nValueOut then Throw ValueWraps
  else Ok (s64 (nValueOut + nValue o)).

Definition GetValueOut (t : CTransaction) : result value_error Z := foldl GetValueOut_step (Ok 0) (vout t).

Definition GetZerocoinMinted (t : CTransaction) : Z :=
  match filter (λ o, IsZerocoinMint (scriptPubKey o) = true) (vout t) with
  | o :: _ => nValue o
  | [] => 0
  end.

Definition UsesUTXO (t : CTransaction) (out : COutPoint) : bool :=
  existsb (λ i, bool_decide (prevout i = out)) (vin t).

Definition GetOutPoints (t : CTransaction) : list COutPoint :=
  map (λ i, mkOutPoint (tx_hash t) i) (seqZ 0 (Z.of_nat (length (vout t)))).

Definition modified_size_step (nTxSize : Z) (i : CTxIn) : Z :=
  let offset := 41 + Z.min 110 (Z.of_nat (length (scriptSig i))) in
  if offset <? nTxSize then nTxSize - offset else nTxSize.

Definition CalculateModifiedSize (t : CTransaction) (nTxSize : Z) : Z :=
  let nTxSize := if nTxSize =? 0 then u32 (size_of f_tx t) else nTxSize in
  foldl modified_size_step nTxSize (vin t).

(** ** The wire format *)

#[local] Opaque Hash.

#[export] Instance f_hash_ok : FormatOk f_hash := _.
#[export] Instance f_hash_canonical : FormatCanonical f_hash := _.
#[export] Instance f_outpoint_ok : FormatOk f_outpoint := _.
#[export] Instance f_outpoint_canonical : FormatCanonical f_outpoint.
Proof. apply f_struct_canonical; [apply _|by intros []]. Qed.
#[export] Instance f_txin_ok : FormatOk f_txin := _.
#[export] Instance f_txin_canonical : FormatCanonical f_txin.
Proof. apply f_struct_canonical; [apply _|by intros [? []]]. Qed.
#[export] Instance f_txout_ok : FormatOk f_txout := _.
#[export] Instance f_txout_canonical : FormatCanonical f_txout.
Proof. apply f_struct_canonical; [apply _|by intros []]. Qed.
#[export] Instance f_mutable_ok : FormatOk f_mutable := _.
#[export] Instance f_mutable_canonical : FormatCanonical f_mutable.
Proof. apply f_struct_canonical; [apply _|by intros [? [? []]]]. Qed.
#[export] Instance f_tx_ok : FormatOk f_tx := _.
#[export] Instance f_tx_canonical : FormatCanonical f_tx.
Proof. apply f_struct_canonical; [apply _|by intros []]. Qed.

(** Everything that fits: what [dom f_tx] says of a transaction. *)
Lemma f_tx_dom t :
  dom f_tx t ↔ dom f_mutable (to_mutable t) ∧ tx_hash t = Hash (ser f_tx t).
Proof.
  cbn [f_tx f_struct dom ser]. split; intros [H1 H2]; split; try done.
  - symmetry. exact (f_equal tx_hash H2).
  - destruct t as [h v i o l]. unfold of_mutable, to_mutable, mutable_GetHash in *.
    cbn [tx_hash m_nVersion m_vin m_vout m_nLockTime nVersion vin vout nLockTime] in *. by rewrite H2.
Qed.

(** C24: The wire format of transactions is canonical: a transaction within the
    size limits reads back from its bytes; whatever bytes are read as a
    transaction are exactly the bytes that transaction is written as, so no
    second spelling exists; the cached hash is the double SHA-256 of those bytes;
    and GetSerializeSize is their number. *)
Theorem tx_wire_format_is_canonical s t rest :
  Forall is_byte s →
  (dom f_tx t → unser f_tx (ser f_tx t ++ rest) = Ok (t, rest)) ∧
  (unser f_tx s = Ok (t, rest) →
   s = ser f_tx t ++ rest ∧ tx_hash t = Hash (ser f_tx t) ∧
   size_of f_tx t = Z.of_nat (length (ser f_tx t)) ∧ dom f_tx t).
Proof.
  intros Hs. split; [apply fmt_roundtrip|].
  intros H. destruct (fmt_canonical _ _ _ Hs H) as [E D]. split; [done|].
  split; [by apply f_tx_dom|]. split; [by apply fmt_size|done].
Qed.

Definition sum_values (l : list CTxOut) : Z := foldr (λ o n, nValue o + n) 0 l.

Lemma foldl_value_throw l e : foldl GetValueOut_step (Throw e) l = Throw e.
Proof. by induction l. Qed.

Lemma sum_values_nonneg l : Forall (λ o, 0 <= nValue o) l → 0 <= sum_values l.
Proof. induction 1; simpl; lia. Qed.

Lemma GetValueOut_loop l n :
  Forall (λ o, is_s64 (nValue o)) l → 0 <= n < 2 ^ 63 →
  foldl GetValueOut_step (Ok n) l
  = match foldl GetValueOut_step (Ok n) l with
    | Ok _ => Ok (n + sum_values l)
    | Throw e => Throw e
    end ∧
  ((∃ v, foldl GetValueOut_step (Ok n) l = Ok v) ↔
   Forall (λ o, 0 <= nValue o) l ∧ n + sum_values l < 2 ^ 63).
Proof.
  intros Hl. revert n. induction Hl as [|o l Ho Hl IH]; intros n Hn; cbn [foldl sum_values foldr].
  { rewrite Z.add_0_r. split; [done|]. split; [split; [constructor|lia]|eauto]. }
  cbn [GetValueOut_step rbind]. unfold in_sw in Ho. simpl (2 ^ (64 - 1)) in Ho. fold (sum_values l).
  destruct (Z.ltb_spec (nValue o) 0).
  { rewrite foldl_value_throw. split; [done|]. rewrite Forall_cons. split; [by intros [? ?]|lia]. }
  destruct (Z.lt_ge_cases (n + nValue o) (2 ^ 63)).
  - rewrite swrap_small by (unfold in_sw; simpl; lia). rewrite (proj2 (Z.ltb_ge _ _)) by lia.
    destruct (IH (n + nValue o) ltac:(lia)) as [E Hiff]. rewrite Forall_cons.
    replace (n + (nValue o + sum_values l)) with (n + nValue o + sum_values l) by lia.
    split; [done|]. rewrite Hiff. naive_solver lia.
  - assert (s64 (n + nValue o) = n + nValue o - 2 ^ 64) as E.
    { unfold swrap. replace (n + nValue o + 2 ^ (64 - 1)) with ((n + nValue o - 2 ^ 63) + 1 * 2 ^ 64) by (simpl; lia).
      rewrite Z.mod_add, Z.mod_small by (simpl in *; lia). simpl. lia. }
    rewrite E, (proj2 (Z.ltb_lt _ _)) by (simpl in *; lia). rewrite foldl_value_throw. split; [done|].
    split; [by intros [? ?]|]. rewrite Forall_cons. intros [[? ?] ?].
    pose proof (sum_values_nonneg l). naive_solver lia.
Qed.

(** GetValueOut returns exactly the mathematical sum of the output values,
    and does so exactly if no value is negative and the sum is below 2^63;
    in every other case it throws, so no overflow goes unnoticed. *)
Theorem value_out_is_checked_sum t v :
  Forall (λ o, is_s64 (nValue o)) (vout t) →
  GetValueOut t = Ok v ↔
  Forall (λ o, 0 <= nValue o) (vout t) ∧ v = sum_values (vout t) ∧ v < 2 ^ 63.
Proof.
  intros Ht. unfold GetValueOut. destruct (GetValueOut_loop (vout t) 0 Ht ltac:(lia)) as [E Hiff].
  rewrite Z.add_0_l in *. split.
  - intros H. destruct (proj1 Hiff (ex_intro _ v H)) as [? ?]. rewrite H in E. injection E as ->. done.
  - intros (Hp & -> & Hv). destruct (proj2 Hiff (conj Hp Hv)) as [w Hw]. rewrite Hw in *. by injection E as ->.
Qed.

(** ** Witnesses *)

Definition ex_tx : CTransaction :=
  of_mutable (mkMutable 1 [new_txin (mkOutPoint (replicate 32 7) 1) [1; 2; 3] 4294967295]
    [new_txout 5000 [OP_DUP]; new_txout 70 [OP_RETURN]] 0).

Lemma tx_wire_format_is_canonical_witness :
  unser f_tx (ser f_tx ex_tx ++ [9]) = Ok (ex_tx, [9]).
Proof.
  apply (tx_wire_format_is_canonical []); [constructor|]. apply f_tx_dom. split; [|reflexivity].
  cbn. unfold in_sw, in_uw, MAX_SIZE. split_and!; repeat constructor; cbn; try lia; done.
Defined.

Lemma value_out_is_checked_sum_witness : GetValueOut ex_tx = Ok 5070.
Proof.
  apply value_out_is_checked_sum; [|split_and!]; repeat constructor; cbn; unfold in_sw; simpl; lia.
Defined.
