(* ===== verification/SigHash.v ===== *)
(** * Signature hashes and the transaction's signature checker

    CTransactionSignatureSerializer, SignatureHash and
    TransactionSignatureChecker of script/interpreter.cpp, and CPubKey of
    pubkey.h. The check of a signature on the curve is an argument. *)

From S2P Require Import Prelude Serialize Script Digest Hashes Interp Tx.

Local Open Scope node_scope.

(** ** CPubKey *)

(** A public key is its [size()] bytes; the invalid key, whose first byte is
    0xFF, has none. *)
Abbreviation CPubKey := (list Z).

Definition GetLen (chHeader : Z) : Z :=
  if (chHeader =? 2) || (chHeader =? 3) then 33
  else if (chHeader =? 4) || (chHeader =? 6) || (chHeader =? 7) then 65
  else 0.

(** [Set(pbegin, pend)]. *)
Definition pubkey_Set (vch : list Z) : CPubKey :=
  let len := match vch with [] => 0 | b :: _ => GetLen b end in
  if negb (len =? 0) && (len =? Z.of_nat (length vch)) then vch else [].

Definition pubkey_IsValid (k : CPubKey) : bool := 0 <? Z.of_nat (length k).
Definition pubkey_IsCompressed (k : CPubKey) : bool := Z.of_nat (length k) =? 33.
Definition pubkey_GetID (k : CPubKey) : list Z := Hash160 k.
Definition pubkey_GetHash (k : CPubKey) : list Z := Hash k.

(** ** CTransactionSignatureSerializer *)

(** The first loop of SerializeScriptCode. *)
Definition nCodeSeparators (scriptCode : list Z) : Z := Find scriptCode OP_CODESEPARATOR.

(** The second loop and the write after it: [itBegin] and [it] are the bytes from
    those iterators on. *)
Fixpoint write_code (fuel : nat) (itBegin it : list Z) : list Z :=
  match fuel with
  | O => []
  | S fuel =>
      let op := GetOp2 it in
      if op_ok op
      then if op_code op =? OP_CODESEPARATOR
           then take (length itBegin - length (op_rest op) - 1) itBegin
                ++ write_code fuel (op_rest op) (op_rest op)
           else write_code fuel itBegin (op_rest op)
      else match itBegin with
           | [] => []
           | _ => take (length itBegin - length (op_rest op)) itBegin
           end
  end.

Definition SerializeScriptCode (scriptCode : list Z) : list Z :=
  WriteCompactSize (Z.of_nat (length scriptCode) - nCodeSeparators scriptCode)
  ++ write_code (length scriptCode + 1) scriptCode scriptCode.

Section serializer.
Variable txTo : CTransaction.
Variable scriptCode : list Z.
Variable nIn : nat.
Variable nHashType : Z.

Definition fAnyoneCanPay : bool := negb (Z.land nHashType SIGHASH_ANYONECANPAY =? 0).
Definition fHashSingle : bool := Z.land nHashType 0x1f =? SIGHASH_SINGLE.
Definition fHashNone : bool := Z.land nHashType 0x1f =? SIGHASH_NONE.

Definition txin_at (i : nat) : CTxIn := nth i (vin txTo) (new_txin null_outpoint [] 0).
Definition txout_at (i : nat) : CTxOut := nth i (vout txTo) null_txout.

Definition SerializeInput (nInput : nat) : list Z :=
  let nInput := if fAnyoneCanPay then nIn else nInput in
  ser f_outpoint (prevout (txin_at nInput))
  ++ (if negb (nInput =? nIn)%nat then ser f_bytes [] else SerializeScriptCode scriptCode)
  ++ (if negb (nInput =? nIn)%nat && (fHashSingle || fHashNone) then ser (f_sint 4) 0
      else ser (f_uint 4) (nSequence (txin_at nInput))).

Definition SerializeOutput (nOutput : nat) : list Z :=
  if fHashSingle && negb (nOutput =? nIn)%nat then ser f_txout null_txout
  else ser f_txout (txout_at nOutput).

Definition Serialize_tx : list Z :=
  let nInputs := if fAnyoneCanPay then 1%nat else length (vin txTo) in
  let nOutputs := if fHashNone then 0%nat else if fHashSingle then (nIn + 1)%nat else length (vout txTo) in
  ser (f_sint 4) (nVersion txTo)
  ++ WriteCompactSize (Z.of_nat nInputs) ++ concat (map SerializeInput (seq 0 nInputs))
  ++ WriteCompactSize (Z.of_nat nOutputs) ++ concat (map SerializeOutput (seq 0 nOutputs))
  ++ ser (f_uint 4) (nLockTime txTo).
End serializer.

(** uint256(1). *)
Definition hash_one : hash256 := 1 :: replicate 31 0.

Definition SignatureHash (scriptCode : list Z) (txTo : CTransaction) (nIn : nat) (nHashType : Z) : hash256 :=
  if (length (vin txTo) <=? nIn)%nat then hash_one
  else if fHashSingle nHashType && (length (vout txTo) <=? nIn)%nat then hash_one
  else Hash (Serialize_tx txTo scriptCode nIn nHashType ++ ser (f_sint 4) nHashType).

(** ** TransactionSignatureChecker *)

Section checker.
(** [CPubKey::Verify] on a valid key: the key, the hash and the DER signature. *)
Variable ecdsa_verify : CPubKey → hash256 → list Z → bool.
Variable txTo : CTransaction.
Variable nIn : nat.

Definition VerifySignature (vchSig : list Z) (pubkey : CPubKey) (sighash : hash256) : bool :=
  if negb (pubkey_IsValid pubkey) then false else ecdsa_verify pubkey sighash vchSig.

Definition CheckSig (vchSigIn vchPubKey scriptCode : list Z) : bool :=
  let pubkey := pubkey_Set vchPubKey in
  if negb (pubkey_IsValid pubkey) then false
  else match last vchSigIn with
       | None => false
       | Some nHashType =>
           let vchSig := removelast vchSigIn in
           let sighash := SignatureHash scriptCode txTo nIn nHashType in
           VerifySignature vchSig pubkey sighash
       end.
End checker.

(** ** The transaction that is signed *)

Section signed.
Variable code : list Z.
Variable t : CTransaction.
Variable nIn : nat.
Variable nHashType : Z.

Definition signed_input (i : nat) (x : CTxIn) : CTxIn :=
  if (i =? nIn)%nat then new_txin (prevout x) code (nSequence x)
  else new_txin (prevout x) []
         (if fHashSingle nHashType || fHashNone nHashType then 0 else nSequence x).

(** A copy of the transaction: the script code in place of the signature of the
    input that is signed, the other signatures blank; with ANYONECANPAY only that
    input; with NONE no outputs and with SINGLE the outputs up to that index, all
    but the last blank, and the sequence numbers of the other inputs zero. *)
Definition signed_tx : CMutableTransaction :=
  let inputs := imap signed_input (vin t) in
  mkMutable (nVersion t)
    (if fAnyoneCanPay nHashType then take 1 (drop nIn inputs) else inputs)
    (if fHashNone nHashType then []
     else if fHashSingle nHashType then replicate nIn null_txout ++ take 1 (drop nIn (vout t))
     else vout t)
    (nLockTime t).
End signed.

(** ** The script code without its separators *)

(** The instructions of a script, each with its opcode and its bytes, up to the
    first that GetOp fails on, and the bytes from that one on. *)
Fixpoint instructions (fuel : nat) (s : list Z) : list (Z * list Z) * list Z :=
  match fuel with
  | O => ([], s)
  | S fuel =>
      let op := GetOp2 s in
      if op_ok op
      then let r := instructions fuel (op_rest op) in
           ((op_code op, take (length s - length (op_rest op)) s) :: fst r, snd r)
      else ([], s)
  end.

Definition is_separator (i : Z * list Z) : bool := fst i =? OP_CODESEPARATOR.
Definition bytes_of (l : list (Z * list Z)) : list Z := concat (map snd l).
Definition kept (l : list (Z * list Z)) : list Z := bytes_of (filter (λ i, negb (is_separator i)) l).

Definition parsed (s : list Z) : list (Z * list Z) := fst (instructions (S (length s)) s).
Definition unparsed (s : list Z) : list Z := snd (instructions (S (length s)) s).
(** What GetOp reads of it before it fails: the opcode, and the length of its
    operand if all of it is there. *)
Definition unparsed_read (s : list Z) : list Z :=
  take (length (unparsed s) - length (op_rest (GetOp2 (unparsed s)))) (unparsed s).
Definition stripped (s : list Z) : list Z := kept (parsed s).

Lemma GetOp2_split s : take (length s - length (op_rest (GetOp2 s))) s ++ op_rest (GetOp2 s) = s.
Proof.
  destruct (GetOp2_suffix s) as [k E]. revert E. generalize (op_rest (GetOp2 s)). intros r ->. rewrite length_app.
  replace (length k + length r - length r)%nat with (length k) by lia. by rewrite take_app_length.
Qed.

(** A separator is one byte. *)
Lemma GetOp2_separator s :
  op_ok (GetOp2 s) = true → op_code (GetOp2 s) = OP_CODESEPARATOR → length s = S (length (op_rest (GetOp2 s))).
Proof.
  assert (∀ o n q, op_code (get_operand o n q) = OP_CODESEPARATOR → op_ok (get_operand o n q) = true → o = OP_CODESEPARATOR) as G
    by (intros o n q; unfold get_operand; by destruct (_ <? _)).
  destruct s as [|o s]; [done|]. unfold GetOp2. destruct (Z.leb_spec o OP_PUSHDATA4) as [Hle|Hgt]; [|done].
  assert (o ≠ OP_CODESEPARATOR) by (change OP_PUSHDATA4 with 78 in Hle; change OP_CODESEPARATOR with 171; lia).
  repeat case_match; intros Hok Hop; try done; by apply G in Hop.
Qed.

Lemma instructions_split fuel : ∀ s, bytes_of (fst (instructions fuel s)) ++ snd (instructions fuel s) = s.
Proof.
  induction fuel as [|fuel IH]; intros s; cbn [instructions]; [done|].
  destruct (op_ok (GetOp2 s)) eqn:E; [|done]. unfold bytes_of. cbn [fst snd map concat]. rewrite <- app_assoc.
  fold (bytes_of (fst (instructions fuel (op_rest (GetOp2 s))))). rewrite IH. apply GetOp2_split.
Qed.

Lemma length_kept l :
  Forall (λ i, is_separator i = true → length (snd i) = 1%nat) l →
  length (bytes_of l) = (length (filter (λ i, is_separator i) l) + length (kept l))%nat.
Proof.
  unfold kept, bytes_of. induction 1 as [|i l Hi _ IH]; [done|]. cbn [map concat]. rewrite length_app, IH, !filter_cons.
  destruct (is_separator i); cbn [negb Is_true map concat length].
  - repeat case_decide; try done. cbn [length]. rewrite (Hi eq_refl). lia.
  - repeat case_decide; try done. cbn [map concat]. rewrite length_app. lia.
Qed.

Lemma separators_one_byte fuel : ∀ s,
  Forall (λ i, is_separator i = true → length (snd i) = 1%nat) (fst (instructions fuel s)).
Proof.
  induction fuel as [|fuel IH]; intros s; cbn [instructions]; [constructor|].
  destruct (op_ok (GetOp2 s)) eqn:E; [|constructor]. constructor; [|apply IH]. cbn [fst snd]. intros Hs%Z.eqb_eq.
  rewrite length_take. pose proof (GetOp2_separator s E Hs). lia.
Qed.

Lemma kept_cons op b l : kept ((op, b) :: l) = (if op =? OP_CODESEPARATOR then [] else b) ++ kept l.
Proof.
  unfold kept. rewrite filter_cons. unfold is_separator in *. cbn [fst].
  case_decide as H; destruct (op =? OP_CODESEPARATOR); cbn in H; tauto || done.
Qed.

(** The second loop writes what is kept, and of the rest what is read. *)
Lemma write_code_spec fuel : ∀ before s,
  (length s < fuel)%nat →
  write_code fuel (before ++ s) s
  = before ++ kept (fst (instructions fuel s))
    ++ take (length (snd (instructions fuel s)) - length (op_rest (GetOp2 (snd (instructions fuel s))))) (snd (instructions fuel s)).
Proof.
  induction fuel as [|fuel IH]; intros before s Hf; [lia|]. cbn [write_code instructions].
  destruct (op_ok (GetOp2 s)) eqn:E; cbn [fst snd].
  - pose proof (GetOp2_progress s E) as Hp. pose proof (GetOp2_split s) as Hsp.
    rewrite kept_cons. destruct (Z.eqb_spec (op_code (GetOp2 s)) OP_CODESEPARATOR) as [Es|Es].
    + pose proof (GetOp2_separator s E Es) as Hl.
      rewrite length_app, Hl. replace (length before + S (length (op_rest (GetOp2 s))) - length (op_rest (GetOp2 s)) - 1)%nat
        with (length before) by lia.
      rewrite take_app_length. f_equal. apply (IH [] (op_rest (GetOp2 s))). lia.
    + rewrite <- Hsp at 1. rewrite app_assoc, IH by lia. by rewrite <- !app_assoc.
  - change (kept []) with (@nil Z). cbn [app]. destruct (GetOp2_suffix s) as [k Ek].
    assert (length (op_rest (GetOp2 s)) <= length s)%nat by (apply (f_equal length) in Ek; rewrite length_app in Ek; lia).
    destruct (before ++ s) as [|x l] eqn:Eb.
    + apply app_eq_nil in Eb as [-> ->]. done.
    + rewrite <- Eb, take_app, firstn_all2 by (rewrite length_app; lia). f_equal. f_equal. rewrite length_app. lia.
Qed.

Lemma nCodeSeparators_spec fuel : ∀ s n, (length s < fuel)%nat → (length s <= n)%nat →
  length (filter (λ o, op_ok o ∧ op_code o = OP_CODESEPARATOR) (script_ops n s))
  = length (filter (λ i, is_separator i) (fst (instructions fuel s))).
Proof.
  induction fuel as [|fuel IH]; intros s n Hf Hn; [lia|]. cbn [instructions]. destruct s as [|x s].
  { by destruct n. }
  destruct n as [|n]; [cbn in Hn; lia|]. cbn [script_ops]. destruct (op_ok (GetOp2 (x :: s))) eqn:E.
  - pose proof (GetOp2_progress _ E) as Hp. cbn [length] in Hp, Hf, Hn. cbn [fst]. rewrite !filter_cons.
    specialize (IH (op_rest (GetOp2 (x :: s))) n ltac:(lia) ltac:(lia)).
    destruct (decide (op_code (GetOp2 (x :: s)) = OP_CODESEPARATOR)) as [Es|Es].
    + rewrite decide_True by (by rewrite E). rewrite decide_True by (unfold is_separator; cbn [fst]; by rewrite Es).
      cbn [length]. by rewrite IH.
    + rewrite decide_False by tauto. rewrite decide_False; [exact IH|].
      unfold is_separator. cbn [fst]. rewrite (proj2 (Z.eqb_neq _ _) Es). by intros [].
  - rewrite filter_cons, decide_False by (rewrite E; by intros []). done.
Qed.

Lemma SerializeScriptCode_spec s :
  SerializeScriptCode s = WriteCompactSize (Z.of_nat (length (stripped s ++ unparsed s))) ++ stripped s ++ unparsed_read s.
Proof.
  unfold SerializeScriptCode. rewrite (Nat.add_1_r (length s)).
  pose proof (write_code_spec (S (length s)) [] s ltac:(lia)) as Hw. cbn [app] in Hw. rewrite Hw. clear Hw. f_equal. f_equal. unfold nCodeSeparators, Find, ops_of. rewrite (nCodeSeparators_spec (S (length s))) by lia.
  fold (parsed s). pose proof (length_kept (parsed s) (separators_one_byte _ s)) as Hk.
  pose proof (instructions_split (S (length s)) s) as Hs. fold (parsed s) (unparsed s) in Hs.
  apply (f_equal length) in Hs. rewrite length_app in *. unfold stripped. lia.
Qed.

(** On a script that was built, these are the items. *)
Definition separator_item (it : item) : Prop := it = IOp OP_CODESEPARATOR.

#[export] Instance separator_item_dec it : Decision (separator_item it).
Proof. unfold separator_item. apply _. Defined.

Definition without_separators (items : list item) : list item := filter (λ it, ¬ separator_item it) items.

Lemma item_op_separator it : item_ok it → (item_op it).1 = OP_CODESEPARATOR ↔ separator_item it.
Proof.
  unfold separator_item. intros Hok. split; [|by intros ->].
  assert (∀ b, (push_op b).1 ≠ OP_CODESEPARATOR) as Hp.
  { intros b. unfold push_op. cbn [fst]. repeat case_match; try done.
    apply Z.ltb_lt in H. change OP_CODESEPARATOR with 171. lia. }
  destruct it as [b|o|n]; cbn [item_op].
  - intros H. by apply Hp in H.
  - cbn [fst]. by intros ->.
  - intros H. repeat case_match; try done; [|by apply Hp in H].
    unfold EncodeOP_N in H. cbn [fst] in H. change OP_1 with 81 in H. change OP_CODESEPARATOR with 171 in H.
    apply andb_true_iff in H1 as [? ?]. case_match; simpl in H; lia.
Qed.

Lemma instructions_items fuel : ∀ items,
  Forall item_ok items → (length (script_bytes items) < fuel)%nat →
  kept (fst (instructions fuel (script_bytes items))) = script_bytes (without_separators items) ∧
  snd (instructions fuel (script_bytes items)) = [].
Proof.
  induction fuel as [|fuel IH]; intros items Hi Hf; [lia|]. destruct items as [|it items]; [done|].
  apply Forall_cons in Hi as [Hit Hi]. change (script_bytes (it :: items)) with (item_bytes it ++ script_bytes items) in *.
  pose proof (length_item_bytes it). rewrite length_app in Hf. destruct (IH items Hi ltac:(lia)) as [H1 H2].
  cbn [instructions]. rewrite GetOp2_item by done. cbn [op_ok op_code op_rest fst snd]. split; [|done].
  rewrite length_app. replace (length (item_bytes it) + length (script_bytes items) - length (script_bytes items))%nat
    with (length (item_bytes it)) by lia. rewrite take_app_length.
  rewrite kept_cons, H1. unfold without_separators. rewrite filter_cons.
  destruct (Z.eqb_spec (item_op it).1 OP_CODESEPARATOR) as [E|E].
  - apply item_op_separator in E; [|done]. by rewrite decide_False by naive_solver.
  - by rewrite decide_True by (intros Hs; by apply E, item_op_separator).
Qed.

Lemma stripped_items items :
  Forall item_ok items →
  stripped (build_script items) = build_script (without_separators items) ∧ unparsed (build_script items) = [].
Proof. intros Hi. rewrite !build_script_bytes. unfold stripped, parsed, unparsed. apply instructions_items; [done|lia]. Qed.

(** ** Equivalence *)

Lemma nth_drop_one {A} (l : list A) i d : (i < length l)%nat → take 1 (drop i l) = [nth i l d].
Proof.
  intros Hi. destruct (lookup_lt_is_Some_2 l i Hi) as [x Hx].
  rewrite (drop_S l x i Hx). simpl. by rewrite nth_lookup, Hx, take_0.
Qed.

Lemma map_seq_nth {A B} (f : nat → B) (g : A → B) (l : list A) d :
  (∀ i, (i < length l)%nat → f i = g (nth i l d)) → map f (seq 0 (length l)) = map g l.
Proof.
  intros H. apply (nth_ext _ _ (f 0%nat) (g d)); [by rewrite !length_map, length_seq|].
  intros n Hn. rewrite length_map, length_seq in Hn. rewrite (map_nth g), (map_nth f), seq_nth by done. by apply H.
Qed.

(** The serialization of the copy, with [field] in place of the script code and its
    length. *)
Section equivalence.
Variable field : list Z.
Variable t : CTransaction.
Variable nIn : nat.
Variable nHashType : Z.

Definition input_bytes (i : nat) (x : CTxIn) : list Z :=
  ser f_outpoint (prevout x) ++ (if (i =? nIn)%nat then field else ser f_bytes [])
  ++ ser (f_uint 4) (if (i =? nIn)%nat then nSequence x
                     else if fHashSingle nHashType || fHashNone nHashType then 0 else nSequence x).

Definition copy_inputs : list (list Z) :=
  let inputs := imap input_bytes (vin t) in if fAnyoneCanPay nHashType then take 1 (drop nIn inputs) else inputs.

Definition copy_outputs : list CTxOut :=
  if fHashNone nHashType then []
  else if fHashSingle nHashType then replicate nIn null_txout ++ take 1 (drop nIn (vout t)) else vout t.

Definition copy_bytes : list Z :=
  ser (f_sint 4) (nVersion t) ++ WriteCompactSize (Z.of_nat (length copy_inputs)) ++ concat copy_inputs
  ++ ser (f_vector f_txout) copy_outputs ++ ser (f_uint 4) (nLockTime t).

Lemma SerializeInput_bytes code i :
  field = SerializeScriptCode code →
  SerializeInput t code nIn nHashType i
  = let j := if fAnyoneCanPay nHashType then nIn else i in input_bytes j (txin_at t j).
Proof.
  intros Hf. unfold SerializeInput. rewrite <- Hf. set (j := if fAnyoneCanPay nHashType then nIn else i). cbv zeta. unfold input_bytes.
  destruct (Nat.eqb_spec j nIn) as [->|]; cbn [negb andb]; [done|].
  by destruct (fHashSingle nHashType || fHashNone nHashType).
Qed.

Lemma inputs_bytes code :
  field = SerializeScriptCode code → (nIn < length (vin t))%nat →
  let nInputs := if fAnyoneCanPay nHashType then 1%nat else length (vin t) in
  nInputs = length copy_inputs ∧ map (SerializeInput t code nIn nHashType) (seq 0 nInputs) = copy_inputs.
Proof.
  intros Hf Hn. unfold copy_inputs. set (inputs := imap input_bytes (vin t)).
  assert (length inputs = length (vin t)) as Hl by apply length_imap.
  assert (∀ i, (i < length inputs)%nat → nth i inputs [] = input_bytes i (txin_at t i)) as Hin.
  { intros i Hi. rewrite Hl in Hi. destruct (lookup_lt_is_Some_2 (vin t) i Hi) as [x Hx].
    unfold txin_at, inputs. rewrite !nth_lookup, list_lookup_imap, Hx. done. }
  destruct (fAnyoneCanPay nHashType) eqn:Ea; cbv zeta.
  - rewrite (nth_drop_one inputs nIn []) by lia. split; [done|]. cbn [seq map].
    by rewrite (SerializeInput_bytes code 0 Hf), Ea, Hin by lia.
  - rewrite <- Hl. split; [done|]. rewrite <- (map_id inputs) at 2. apply map_seq_nth with [].
    intros i Hi. by rewrite (SerializeInput_bytes code i Hf), Ea, Hin by done.
Qed.

Lemma outputs_bytes :
  (fHashSingle nHashType = true → (nIn < length (vout t))%nat) →
  let nOutputs := if fHashNone nHashType then 0%nat
                  else if fHashSingle nHashType then (nIn + 1)%nat else length (vout t) in
  WriteCompactSize (Z.of_nat nOutputs) ++ concat (map (SerializeOutput t nIn nHashType) (seq 0 nOutputs))
  = ser (f_vector f_txout) copy_outputs.
Proof.
  intros Hs. cbn [f_vector ser]. unfold copy_outputs, SerializeOutput.
  destruct (fHashNone nHashType); [done|]. destruct (fHashSingle nHashType) eqn:Es.
  - specialize (Hs eq_refl). rewrite (nth_drop_one (vout t) nIn null_txout) by done.
    set (l := replicate nIn null_txout ++ [nth nIn (vout t) null_txout]).
    assert (length l = nIn + 1)%nat as Hl by (unfold l; rewrite length_app, length_replicate; done).
    rewrite <- Hl. f_equal. f_equal. apply map_seq_nth with null_txout. intros i Hi. unfold l. cbn [andb].
    destruct (Nat.eqb_spec i nIn) as [->|Hne]; cbn [negb].
    + by rewrite app_nth2, length_replicate, Nat.sub_diag by (rewrite length_replicate; lia).
    + rewrite app_nth1 by (rewrite length_replicate; lia).
      by rewrite nth_lookup, lookup_replicate_2 by lia.
  - f_equal. f_equal. by apply map_seq_nth with null_txout.
Qed.

(** The serializer writes the copy, with what it writes for the script code. *)
Lemma Serialize_tx_bytes code :
  field = SerializeScriptCode code → (nIn < length (vin t))%nat →
  (fHashSingle nHashType = true → (nIn < length (vout t))%nat) →
  Serialize_tx t code nIn nHashType = copy_bytes.
Proof.
  intros Hf Hn Hs. unfold Serialize_tx, copy_bytes. destruct (inputs_bytes code Hf Hn) as [E1 E2]. cbv zeta in E1, E2.
  rewrite E2, <- (outputs_bytes Hs), E1. by rewrite <- !app_assoc.
Qed.

(** The format of transactions does so too. *)
Lemma ser_signed_tx code :
  field = ser f_bytes code → ser f_mutable (signed_tx code t nIn nHashType) = copy_bytes.
Proof.
  intros Hf. unfold copy_bytes, copy_inputs.
  assert (imap input_bytes (vin t) = map (ser f_txin) (imap (signed_input code nIn nHashType) (vin t))) as E.
  { apply list_eq. intros i. rewrite list_lookup_imap. rewrite (list_lookup_fmap (ser f_txin)), list_lookup_imap.
    destruct (vin t !! i) as [x|]; [|done]. cbn [option_map fmap option_fmap]. f_equal. unfold input_bytes, signed_input. rewrite Hf.
    by destruct (i =? nIn)%nat. }
  rewrite E, <- fmap_drop, <- fmap_take. cbn [signed_tx f_mutable f_struct f_pair f_vector ser fst snd m_vin].
  rewrite <- !app_assoc. f_equal. destruct (fAnyoneCanPay nHashType); rewrite length_map; rewrite ?app_assoc; reflexivity.
Qed.
End equivalence.

(** The field occurs once: the rest of the copy does not depend on it. *)
Lemma copy_bytes_context t nIn nHashType :
  (nIn < length (vin t))%nat →
  ∃ n before after, (∀ field, length (copy_inputs field t nIn nHashType) = n) ∧
    ∀ field, copy_bytes field t nIn nHashType = before ++ field ++ after.
Proof.
  intros Hn. destruct (lookup_lt_is_Some_2 (vin t) nIn Hn) as [x Hx].
  set (b0 := ser f_outpoint (prevout x)). set (a0 := ser (f_uint 4) (nSequence x)).
  assert (∀ field, input_bytes field nIn nHashType nIn x = b0 ++ field ++ a0) as Hi
    by (intros field; unfold input_bytes; by rewrite Nat.eqb_refl).
  assert (∃ n b a, (∀ field, length (copy_inputs field t nIn nHashType) = n) ∧
    ∀ field, concat (copy_inputs field t nIn nHashType) = b ++ field ++ a) as (n & b & a & Hlen & Hc).
  { assert (∀ field, imap (input_bytes field nIn nHashType) (vin t)
      = imap (input_bytes [] nIn nHashType) (take nIn (vin t)) ++ input_bytes field nIn nHashType nIn x ::
        imap (λ k, input_bytes [] nIn nHashType (S nIn + k)) (drop (S nIn) (vin t))) as Hm.
    { intros field. rewrite <- (take_drop_middle (vin t) nIn x Hx) at 1. rewrite imap_app. cbn [imap].
      assert (length (take nIn (vin t)) = nIn) as El by (rewrite length_take; lia).
      f_equal; [|f_equal].
      - apply imap_ext. intros k y Hk. apply lookup_lt_Some in Hk. unfold input_bytes.
        destruct (Nat.eqb_spec k nIn); [lia|done].
      - by rewrite El, Nat.add_0_r.
      - apply imap_ext. intros k y Hk. unfold compose. rewrite El. unfold input_bytes.
        destruct (Nat.eqb_spec (nIn + S k) nIn), (Nat.eqb_spec (S nIn + k) nIn); (lia || done). }
    unfold copy_inputs. destruct (fAnyoneCanPay nHashType).
    - exists 1%nat, b0, a0. split; intros field; rewrite (Hm field), drop_app_length'; try (rewrite length_imap, length_take; lia); [done|].
      cbn [take concat]. rewrite take_0. cbn [concat]. by rewrite app_nil_r, Hi.
    - exists (length (vin t)), (concat (imap (input_bytes [] nIn nHashType) (take nIn (vin t))) ++ b0),
        (a0 ++ concat (imap (λ k, input_bytes [] nIn nHashType (S nIn + k)) (drop (S nIn) (vin t)))).
      split; intros field; [apply length_imap|]. rewrite (Hm field), concat_app. cbn [concat]. rewrite Hi.
      by rewrite <- !app_assoc. }
  exists n, (ser (f_sint 4) (nVersion t) ++ WriteCompactSize (Z.of_nat n) ++ b),
    (a ++ ser (f_vector f_txout) (copy_outputs t nIn nHashType) ++ ser (f_uint 4) (nLockTime t)). split; [exact Hlen|].
  intros field. unfold copy_bytes. rewrite Hlen, Hc, <- !app_assoc. reflexivity.
Qed.

#[local] Opaque Hash.

(** C30: What a signature commits to, for any script code, hash type and index. An
    index of no input, or SINGLE with no output of that index, gives the hash one.
    Otherwise, if the script code parses to its end, SignatureHash hashes the
    bytes of a copy of the transaction - with the script code less its code
    separators in the signed input, and the other inputs and the outputs as the
    hash type says - followed by the hash type. If it does not, the copy has
    what was parsed, less the separators, and the rest as it stands; and what is
    hashed is the copy without the bytes of that rest that GetOp did not read. A
    script code that was built from items parses, and loses its separator
    items. *)
Theorem signature_hash_of_signed_copy scriptCode t nIn nHashType :
  ((length (vin t) <= nIn)%nat ∨ fHashSingle nHashType = true ∧ (length (vout t) <= nIn)%nat →
   SignatureHash scriptCode t nIn nHashType = hash_one) ∧
  ((nIn < length (vin t))%nat → (fHashSingle nHashType = true → (nIn < length (vout t))%nat) →
   (unparsed scriptCode = [] →
    SignatureHash scriptCode t nIn nHashType
    = Hash (ser f_mutable (signed_tx (stripped scriptCode) t nIn nHashType) ++ le_bytes 4 (wrap 32 nHashType))) ∧
   ∃ before after,
     (∀ code, length code = length (stripped scriptCode ++ unparsed scriptCode) →
        ser f_mutable (signed_tx code t nIn nHashType) = before ++ code ++ after) ∧
     SignatureHash scriptCode t nIn nHashType
     = Hash (before ++ stripped scriptCode ++ unparsed_read scriptCode ++ after ++ le_bytes 4 (wrap 32 nHashType))) ∧
  (∀ items, Forall item_ok items → scriptCode = build_script items →
   stripped scriptCode = build_script (without_separators items) ∧ unparsed scriptCode = []).
Proof.
  split_and!.
  - intros H. unfold SignatureHash. destruct (Nat.leb_spec (length (vin t)) nIn); [done|].
    destruct H as [|[-> H2]]; [lia|]. by rewrite (proj2 (Nat.leb_le _ _) H2).
  - intros Hn Hs. pose proof (SerializeScriptCode_spec scriptCode) as Ec.
    assert (SignatureHash scriptCode t nIn nHashType
            = Hash (copy_bytes (SerializeScriptCode scriptCode) t nIn nHashType ++ le_bytes 4 (wrap 32 nHashType))) as E.
    { unfold SignatureHash. rewrite (proj2 (Nat.leb_gt _ _) Hn). destruct (_ && _) eqn:Eb.
      - apply andb_true_iff in Eb as [Eb1 Eb2%Nat.leb_le]. specialize (Hs Eb1). lia.
      - by rewrite (Serialize_tx_bytes (SerializeScriptCode scriptCode) t nIn nHashType scriptCode). }
    split.
    + intros Hu. unfold unparsed_read in Ec. rewrite Hu, app_nil_r in Ec. cbn [length take Nat.sub] in Ec. rewrite app_nil_r in Ec.
      rewrite E, Ec. by rewrite (ser_signed_tx _ t nIn nHashType (stripped scriptCode) eq_refl).
    + destruct (copy_bytes_context t nIn nHashType Hn) as (n & b & a & _ & Hc).
      exists (b ++ WriteCompactSize (Z.of_nat (length (stripped scriptCode ++ unparsed scriptCode)))), a. split.
      * intros code Hl. rewrite (ser_signed_tx _ t nIn nHashType code eq_refl), Hc. cbn [f_bytes ser].
        rewrite Hl. by rewrite <- !app_assoc.
      * rewrite E, Hc, Ec. by rewrite <- !app_assoc.
  - intros items Hi ->. by apply stripped_items.
Qed.

(** A push of two bytes in the long form, between a separator and another
    instruction: not what a script builder writes. *)
Definition ex_code : list Z := [OP_DUP; OP_CODESEPARATOR; OP_PUSHDATA1; 2; 7; 8].

Lemma signature_hash_of_signed_copy_witness :
  SignatureHash ex_code ex_tx 0 SIGHASH_SINGLE
  = Hash (ser f_mutable (signed_tx [OP_DUP; OP_PUSHDATA1; 2; 7; 8] ex_tx 0 SIGHASH_SINGLE) ++ [3; 0; 0; 0]) ∧
  SignatureHash ex_code ex_tx 7 SIGHASH_SINGLE = hash_one.
Proof.
  destruct (signature_hash_of_signed_copy ex_code ex_tx 0 SIGHASH_SINGLE) as (_ & H & _).
  destruct (signature_hash_of_signed_copy ex_code ex_tx 7 SIGHASH_SINGLE) as (H7 & _ & _).
  split; [|apply H7; left; vm_compute; repeat constructor].
  apply H; [vm_compute; repeat constructor|intros _; vm_compute; repeat constructor|vm_compute; reflexivity].
Defined.

(** The rest of a script code that does not parse is not committed to: the byte 9
    announces nine bytes, and only it is hashed. *)
Example unparsed_tail_is_not_signed :
  unparsed [OP_DUP; 9; 1; 2] = [9; 1; 2] ∧ unparsed_read [OP_DUP; 9; 1; 2] = [9] ∧
  Serialize_tx ex_tx [OP_DUP; 9; 1; 2] 0 SIGHASH_ALL = Serialize_tx ex_tx [OP_DUP; 9; 3; 4] 0 SIGHASH_ALL.
Proof. vm_compute. split_and!; reflexivity. Qed.
