(* ===== verification/Compressor.v ===== *)
(** * compressor.h and compressor.cpp: compact forms of amounts and scripts

    The elliptic-curve library is an argument: [fully_valid] is the check of
    IsFullyValid on a key with a valid header, [ec_decompress] the uncompressed
    form of a key, if it is on the curve. *)

From S2P Require Import Prelude Serialize Script Digest Hashes Interp Tx SigHash.

Local Open Scope node_scope.

(** ** Amounts *)

(** [while (((n % 10) == 0) && e < 9)]: [fuel] is [9 - e]. *)
Fixpoint strip_zeros (fuel : nat) (n e : Z) : Z * Z :=
  match fuel with
  | O => (n, e)
  | S fuel => if n mod 10 =? 0 then strip_zeros fuel (n / 10) (e + 1) else (n, e)
  end.

Definition CompressAmount (n : Z) : Z :=
  if n =? 0 then 0
  else
    let '(n, e) := strip_zeros 9 n 0 in
    if e <? 9
    then let d := n mod 10 in
         let n := n / 10 in
         u64 (1 + (n * 9 + d - 1) * 10 + e)
    else u64 (1 + (n - 1) * 10 + 9).

(** [while (e)]. *)
Fixpoint times_ten (e : nat) (n : Z) : Z :=
  match e with
  | O => n
  | S e => times_ten e (u64 (n * 10))
  end.

Definition DecompressAmount (x : Z) : Z :=
  if x =? 0 then 0
  else
    let x := x - 1 in
    let e := x mod 10 in
    let x := x / 10 in
    let n := if e <? 9
             then let d := x mod 9 + 1 in u64 (x / 9 * 10 + d)
             else u64 (x + 1) in
    times_ten (Z.to_nat e) n.

(** ** Scripts *)

Definition nSpecialScripts : Z := 6.

Definition bytes_of (script : list Z) (first count : nat) : list Z := take count (drop first script).

Definition IsToKeyID (script : list Z) : option (list Z) :=
  if (length script =? 25)%nat && (getz script 0 =? OP_DUP) && (getz script 1 =? OP_HASH160)
     && (getz script 2 =? 20) && (getz script 23 =? OP_EQUALVERIFY) && (getz script 24 =? OP_CHECKSIG)
  then Some (bytes_of script 3 20) else None.

Definition IsToScriptID (script : list Z) : option (list Z) :=
  if (length script =? 23)%nat && (getz script 0 =? OP_HASH160) && (getz script 1 =? 20)
     && (getz script 22 =? OP_EQUAL)
  then Some (bytes_of script 2 20) else None.

Section compressor.
Variable fully_valid : CPubKey → bool.
Variable ec_decompress : CPubKey → option CPubKey.

Definition IsFullyValid (k : CPubKey) : bool := pubkey_IsValid k && fully_valid k.

(** [CPubKey::Decompress]. *)
Definition pubkey_Decompress (k : CPubKey) : option CPubKey :=
  if negb (pubkey_IsValid k) then None else ec_decompress k.

Definition IsToPubKey (script : list Z) : option CPubKey :=
  if (length script =? 35)%nat && (getz script 0 =? 33) && (getz script 34 =? OP_CHECKSIG)
     && ((getz script 1 =? 0x02) || (getz script 1 =? 0x03))
  then Some (pubkey_Set (bytes_of script 1 33))
  else if (length script =? 67)%nat && (getz script 0 =? 65) && (getz script 66 =? OP_CHECKSIG)
          && (getz script 1 =? 0x04)
  then let pubkey := pubkey_Set (bytes_of script 1 65) in
       if IsFullyValid pubkey then Some pubkey else None
  else None.

Definition Compress (script : list Z) : option (list Z) :=
  match IsToKeyID script with
  | Some keyID => Some (0x00 :: keyID)
  | None =>
  match IsToScriptID script with
  | Some scriptID => Some (0x01 :: scriptID)
  | None =>
  match IsToPubKey script with
  | Some pubkey =>
      if (getz pubkey 0 =? 0x02) || (getz pubkey 0 =? 0x03)
      then Some (getz pubkey 0 :: bytes_of pubkey 1 32)
      else if getz pubkey 0 =? 0x04
      then Some (Z.lor 0x04 (Z.land (getz pubkey 64) 0x01) :: bytes_of pubkey 1 32)
      else None
  | None => None
  end end end.

Definition GetSpecialSize (nSize : Z) : Z :=
  if (nSize =? 0) || (nSize =? 1) then 20
  else if (nSize =? 2) || (nSize =? 3) || (nSize =? 4) || (nSize =? 5) then 32
  else 0.

(** [None]: the script is left as it is. *)
Definition Decompress (nSize : Z) (inp : list Z) : option (list Z) :=
  if nSize =? 0x00 then Some ([OP_DUP; OP_HASH160; 20] ++ take 20 inp ++ [OP_EQUALVERIFY; OP_CHECKSIG])
  else if nSize =? 0x01 then Some ([OP_HASH160; 20] ++ take 20 inp ++ [OP_EQUAL])
  else if (nSize =? 0x02) || (nSize =? 0x03) then Some ([33; nSize] ++ take 32 inp ++ [OP_CHECKSIG])
  else if (nSize =? 0x04) || (nSize =? 0x05)
  then let pubkey := pubkey_Set ((nSize - 2) :: take 32 inp) in
       match pubkey_Decompress pubkey with
       | None => None
       | Some pubkey => Some ([65] ++ take 65 pubkey ++ [OP_CHECKSIG])
       end
  else None.

Definition script_GetSerializeSize (script : list Z) : Z :=
  match Compress script with
  | Some compr => Z.of_nat (length compr)
  | None => let nSize := u32 (Z.of_nat (length script) + nSpecialScripts) in
            Z.of_nat (length script) + GetSizeOfVarInt 32 nSize
  end.

Definition script_Serialize (script : list Z) : list Z :=
  match Compress script with
  | Some compr => compr
  | None => let nSize := u32 (Z.of_nat (length script) + nSpecialScripts) in
            WriteVarInt 32 nSize ++ script
  end.

Definition script_Unserialize (script : list Z) (s : list Z) : result stream_error (list Z * list Z) :=
  let! (nSize, s) := ReadVarInt 32 s in
  if nSize <? nSpecialScripts
  then let! (vch, s) := read_bytes (Z.to_nat (GetSpecialSize nSize)) s in
       Ok (default script (Decompress nSize vch), s)
  else read_bytes (Z.to_nat (nSize - nSpecialScripts)) s.

(** A script read into an empty one. *)
Definition f_script : format (list Z) :=
  mkFormat script_Serialize (script_Unserialize []) script_GetSerializeSize
           (λ script, Z.of_nat (length script) < 2 ^ 32 - 6 ∧ Forall is_byte script).

(** CTxOutCompressor: the amount, then the script. *)
Definition f_compressed_txout : format CTxOut :=
  f_struct (f_pair (f_struct (f_varint 64) (λ v, CompressAmount (u64 v)) (λ n, s64 (DecompressAmount n))) f_script)
    (λ o, (nValue o, scriptPubKey o)) (λ p, new_txout p.1 p.2).
End compressor.

(** ** Amounts round trip *)

Lemma strip_zeros_spec k n e :
  0 < n →
  let '(n', e') := strip_zeros k n e in
  0 < n' ∧ e <= e' <= e + Z.of_nat k ∧ n = n' * 10 ^ (e' - e) ∧ (e' < e + Z.of_nat k → n' mod 10 ≠ 0).
Proof.
  revert n e. induction k as [|k IH]; intros n e Hn; cbn [strip_zeros].
  { rewrite Z.sub_diag. split_and!; lia. }
  destruct (Z.eqb_spec (n mod 10) 0) as [E|E]; [|rewrite Z.sub_diag; split_and!; lia].
  specialize (IH (n / 10) (e + 1) ltac:(divmod_lia)).
  destruct (strip_zeros k (n / 10) (e + 1)) as [n' e']. destruct IH as (H1 & H2 & H3 & H4).
  split_and!; [done|lia|lia| |intros; apply H4; lia].
  replace (e' - e) with (1 + (e' - (e + 1))) by lia. rewrite Z.pow_add_r by lia. change (10 ^ 1) with 10. divmod_lia.
Qed.

Lemma times_ten_spec e n : 0 <= n → n * 10 ^ Z.of_nat e < 2 ^ 64 → times_ten e n = n * 10 ^ Z.of_nat e.
Proof.
  revert n. induction e as [|e IH]; intros n Hn Hl; cbn [times_ten]; [lia|].
  rewrite Nat2Z.inj_succ, Z.pow_succ_r in * by lia.
  assert (1 <= 10 ^ Z.of_nat e) by (assert (0 < 10 ^ Z.of_nat e) by (apply Z.pow_pos_nonneg; lia); lia).
  rewrite wrap_small by (unfold in_uw; nia). rewrite IH by nia. lia.
Qed.

(** Without overflow, a compressed amount is below [10 * n + 1]. *)
Lemma DecompressAmount_CompressAmount n :
  0 <= n < 2 ^ 60 → 0 <= CompressAmount n < 2 ^ 64 ∧ DecompressAmount (CompressAmount n) = n.
Proof.
  intros Hn. unfold CompressAmount. destruct (Z.eqb_spec n 0) as [->|H0]; [done|].
  pose proof (strip_zeros_spec 9 n 0 ltac:(lia)) as H. destruct (strip_zeros 9 n 0) as [m e].
  destruct H as (Hm & He & Hne & Hd). rewrite Z.sub_0_r in Hne. change (0 + Z.of_nat 9) with 9 in *.
  assert (1 <= 10 ^ e) by (assert (0 < 10 ^ e) by (apply Z.pow_pos_nonneg; lia); lia).
  assert (m <= n) by nia.
  assert (∀ x, 0 <= x → DecompressAmount (1 + x * 10 + e)
    = times_ten (Z.to_nat e) (if e <? 9 then u64 (x / 9 * 10 + (x mod 9 + 1)) else u64 (x + 1))) as Hback.
  { intros x Hx. unfold DecompressAmount. rewrite (proj2 (Z.eqb_neq _ 0)) by lia.
    replace (1 + x * 10 + e - 1) with (e + x * 10) by lia.
    destruct (Z.eq_dec e 9) as [->|].
    - replace ((9 + x * 10) mod 10) with 9 by divmod_lia. by replace ((9 + x * 10) / 10) with x by divmod_lia.
    - replace ((e + x * 10) mod 10) with e by divmod_lia. by replace ((e + x * 10) / 10) with x by divmod_lia. }
  destruct (Z.ltb_spec e 9) as [He9|He9].
  - specialize (Hd He9). set (q := m / 10). set (d := m mod 10) in *.
    assert (m = 10 * q + d ∧ 1 <= d <= 9 ∧ 0 <= q) as (Em & Hd' & Hq) by (unfold q, d in *; divmod_lia).
    rewrite wrap_small by (unfold in_uw; lia). split; [lia|]. rewrite Hback by lia.
    replace ((q * 9 + d - 1) / 9) with q by divmod_lia. replace ((q * 9 + d - 1) mod 9) with (d - 1) by divmod_lia.
    rewrite wrap_small by (unfold in_uw; lia). replace (q * 10 + (d - 1 + 1)) with m by lia.
    rewrite times_ten_spec; rewrite ?Z2Nat.id by lia; lia.
  - assert (e = 9) as -> by lia. rewrite wrap_small by (unfold in_uw; lia). split; [lia|].
    rewrite Hback by lia. replace (m - 1 + 1) with m by lia. rewrite wrap_small by (unfold in_uw; lia).
    rewrite times_ten_spec; rewrite ?Z2Nat.id by lia; lia.
Qed.

(** ** Scripts round trip *)

Lemma list_eq_getz (l k : list Z) :
  length l = length k → (∀ i, 0 <= i < Z.of_nat (length k) → getz l i = getz k i) → l = k.
Proof.
  intros Hl H. apply (nth_ext _ _ 0 0); [done|]. intros n Hn. specialize (H (Z.of_nat n) ltac:(lia)).
  unfold getz in H. by rewrite Nat2Z.id in H.
Qed.

(** A script that has the fixed bytes of a template around [k] others. *)
Lemma template_cut script pre k post :
  length script = (length pre + k + length post)%nat →
  (∀ i, 0 <= i < Z.of_nat (length pre) → getz script i = getz pre i) →
  (∀ i, 0 <= i < Z.of_nat (length post) → getz script (Z.of_nat (length pre + k) + i) = getz post i) →
  script = pre ++ bytes_of script (length pre) k ++ post ∧ length (bytes_of script (length pre) k) = k.
Proof.
  intros Hl Hpre Hpost. unfold bytes_of. split; [|rewrite length_take, length_drop; lia].
  rewrite <- (take_drop (length pre) script) at 1. f_equal.
  { apply list_eq_getz; [rewrite length_take; lia|]. intros i Hi. rewrite <- Hpre by done.
    unfold getz. rewrite !nth_lookup, lookup_take_lt by lia. done. }
  rewrite <- (take_drop k (drop (length pre) script)) at 1. f_equal. rewrite drop_drop.
  apply list_eq_getz; [rewrite length_drop; lia|]. intros i Hi. rewrite getz_drop by lia. by apply Hpost.
Qed.

Lemma bytes_of_app pre mid post : bytes_of (pre ++ mid ++ post) (length pre) (length mid) = mid.
Proof. unfold bytes_of. by rewrite drop_app_length, take_app_length. Qed.

Lemma bytes_of_byte script p k : Forall is_byte script → Forall is_byte (bytes_of script p k).
Proof. intros. unfold bytes_of. by apply Forall_take, Forall_drop. Qed.

Ltac if_in H T := match type of H with (if ?c then _ else _) = _ => destruct c eqn:T end.
(** Splits the tests of a template. *)
Ltac template_tests H :=
  repeat (apply andb_true_iff in H as [H ?]); apply Nat.eqb_eq in H;
  repeat match goal with E : (_ =? _) = true |- _ => apply Z.eqb_eq in E end.
(** The fixed bytes of a template, one by one. *)
Ltac template_bytes :=
  let i := fresh "i" in let Hi := fresh "Hi" in
  intros i Hi; cbn [length] in Hi;
  first [ assert (i = 0) as -> by lia; assumption
        | assert (i = 0 ∨ i = 1) as [-> | ->] by lia; assumption
        | assert (i = 0 ∨ i = 1 ∨ i = 2) as [-> | [-> | ->]] by lia; assumption ].

Lemma pubkey_Set_33 b rest : b = 2 ∨ b = 3 → length rest = 32%nat → pubkey_Set (b :: rest) = b :: rest.
Proof. intros [-> | ->] Hl; unfold pubkey_Set; cbn [length]; by rewrite Hl. Qed.

Lemma pubkey_Set_65 rest : length rest = 64%nat → pubkey_Set (4 :: rest) = 4 :: rest.
Proof. intros Hl; unfold pubkey_Set; cbn [length]; by rewrite Hl. Qed.

Lemma land_1 x : Z.land x 1 = x mod 2.
Proof. apply (Z.land_ones x 1). lia. Qed.

Section scripts.
Context (fully_valid : CPubKey → bool) (ec_decompress : CPubKey → option CPubKey).
(** What secp256k1 documents: an uncompressed key that is on the curve is what
    decompressing its x coordinate with the parity of y gives. *)
Hypothesis decompress_valid : ∀ x y,
  length x = 32%nat → length y = 32%nat → fully_valid (4 :: x ++ y) = true →
  ec_decompress ((2 + getz y 31 mod 2) :: x) = Some (4 :: x ++ y).

(** The public keys, compressed and not. *)
Lemma Compress_pubkey script pubkey compr :
  Forall is_byte script → IsToPubKey fully_valid script = Some pubkey →
  (if (getz pubkey 0 =? 0x02) || (getz pubkey 0 =? 0x03)
   then Some (getz pubkey 0 :: bytes_of pubkey 1 32)
   else if getz pubkey 0 =? 0x04
   then Some (Z.lor 0x04 (Z.land (getz pubkey 64) 0x01) :: bytes_of pubkey 1 32)
   else None) = Some compr →
  ∃ b rest, compr = b :: rest ∧ 0 <= b < 6 ∧ length rest = Z.to_nat (GetSpecialSize b) ∧
    Decompress ec_decompress b rest = Some script ∧ Forall is_byte compr.
Proof.
  intros Hb HP H. unfold IsToPubKey in HP. if_in HP T.
  - apply andb_true_iff in T as [T Hd]. template_tests T. injection HP as <-.
    destruct (template_cut script [33] 33 [OP_CHECKSIG]) as [E El]; [done|template_bytes|template_bytes|].
    cbn [length] in E, El. set (mid := bytes_of script 1 33) in *. clearbody mid.
    destruct mid as [|b rest]; [done|]. injection El as El.
    assert (b = 2 ∨ b = 3) as Hb23.
    { rewrite E in Hd. change (getz ([33] ++ (b :: rest) ++ [OP_CHECKSIG]) 1) with b in Hd.
      apply orb_true_iff in Hd as [->%Z.eqb_eq| ->%Z.eqb_eq]; auto. }
    rewrite pubkey_Set_33 in H by done. change (getz (b :: rest) 0) with b in H.
    assert (((b =? 2) || (b =? 3)) = true) as Eb by (destruct Hb23 as [-> | ->]; done).
    rewrite Eb in H. injection H as <-. unfold bytes_of. cbn [drop]. rewrite drop_0, take_ge by lia.
    assert (Forall is_byte (b :: rest)) as Hbr.
    { rewrite E in Hb. apply Forall_app in Hb as [_ [Hb _]%Forall_app]. done. }
    exists b, rest. split_and!; [done|lia|lia| | |done].
    + destruct Hb23 as [-> | ->]; rewrite El; reflexivity.
    + rewrite E. destruct Hb23 as [-> | ->]; unfold Decompress; cbn [Z.eqb Pos.eqb orb]; by rewrite take_ge by lia.
  - if_in HP T2; [|done]. template_tests T2.
    destruct (template_cut script [65] 65 [OP_CHECKSIG]) as [E El]; [done|template_bytes|template_bytes|].
    cbn [length] in E, El. set (mid := bytes_of script 1 65) in *. clearbody mid.
    destruct mid as [|b xy]; [done|]. injection El as El.
    assert (b = 4) as -> by (rewrite E in *; done).
    rewrite pubkey_Set_65 in HP by done. unfold IsFullyValid in HP.
    cbv zeta in HP. if_in HP V; [|done]. injection HP as <-. apply andb_true_iff in V as [_ V].
    pose (x := take 32 xy). pose (y := drop 32 xy).
    assert (xy = x ++ y) as Exy by (symmetry; apply take_drop).
    assert (length x = 32 ∧ length y = 32)%nat as [Hx Hy]
      by (unfold x, y; rewrite length_take, length_drop; lia).
    clearbody x y. subst xy. specialize (decompress_valid x y Hx Hy V).
    change (getz (4 :: x ++ y) 0) with 4 in H. cbn [Z.eqb Pos.eqb orb] in H. injection H as <-.
    assert (getz (4 :: x ++ y) 64 = getz y 31) as Eg.
    { change (4 :: x ++ y) with ([4] ++ x ++ y). rewrite app_assoc, getz_app_r by (rewrite length_app; simpl; lia).
      f_equal. rewrite length_app. simpl. lia. }
    rewrite Eg, land_1. unfold bytes_of. cbn [drop]. rewrite drop_0, take_app_length' by done.
    set (p := getz y 31 mod 2) in *. assert (p = 0 ∨ p = 1) as Hp by (unfold p; divmod_lia). clearbody p.
    replace (Z.lor 4 p) with (4 + p) by (destruct Hp as [-> | ->]; done).
    assert (Forall is_byte x) as Hbx.
    { rewrite E in Hb. apply Forall_app in Hb as [_ [Hb _]%Forall_app]. apply Forall_cons in Hb as [_ Hb].
      by apply Forall_app in Hb as [Hb _]. }
    exists (4 + p), x. split_and!; [done|lia|lia| | |].
    + destruct Hp as [-> | ->]; rewrite Hx; reflexivity.
    + rewrite E.
      assert (Decompress ec_decompress (4 + p) x
              = match pubkey_Decompress ec_decompress (pubkey_Set ((2 + p) :: take 32 x)) with
                | None => None
                | Some pubkey => Some ([65] ++ take 65 pubkey ++ [OP_CHECKSIG])
                end) as -> by (destruct Hp as [-> | ->]; reflexivity).
      rewrite (take_ge x), pubkey_Set_33 by lia. unfold pubkey_Decompress, pubkey_IsValid. cbn [length].
      rewrite (proj2 (Z.ltb_lt 0 _)) by lia. cbn [negb]. rewrite decompress_valid.
      rewrite (take_ge (4 :: x ++ y)) by (cbn [length]; rewrite length_app; lia).
      done.
    + constructor; [|done]. unfold in_uw. destruct Hp as [-> | ->]; lia.
Qed.

Lemma Compress_inv script compr :
  Forall is_byte script → Compress fully_valid script = Some compr →
  ∃ b rest, compr = b :: rest ∧ 0 <= b < 6 ∧ length rest = Z.to_nat (GetSpecialSize b) ∧
    Decompress ec_decompress b rest = Some script ∧ Forall is_byte compr.
Proof.
  intros Hb H. unfold Compress in H.
  destruct (IsToKeyID script) as [k|] eqn:EK.
  { injection H as <-. unfold IsToKeyID in EK. case_match eqn:T; [|done]. injection EK as <-. template_tests T.
    destruct (template_cut script [OP_DUP; OP_HASH160; 20] 20 [OP_EQUALVERIFY; OP_CHECKSIG]) as [E El];
      [done|template_bytes|template_bytes|]. cbn [length] in E, El.
    exists 0, (bytes_of script 3 20). split_and!; [done|lia|lia|done| |].
    - unfold Decompress. cbn [Z.eqb]. rewrite take_ge by lia. by rewrite <- E.
    - constructor; [done|by apply bytes_of_byte]. }
  destruct (IsToScriptID script) as [k|] eqn:ES.
  { injection H as <-. unfold IsToScriptID in ES. case_match eqn:T; [|done]. injection ES as <-. template_tests T.
    destruct (template_cut script [OP_HASH160; 20] 20 [OP_EQUAL]) as [E El];
      [done|template_bytes|template_bytes|]. cbn [length] in E, El.
    exists 1, (bytes_of script 2 20). split_and!; [done|lia|lia|done| |].
    - unfold Decompress. cbn [Z.eqb]. rewrite take_ge by lia. by rewrite <- E.
    - constructor; [done|by apply bytes_of_byte]. }
  destruct (IsToPubKey fully_valid script) as [pubkey|] eqn:EP; [|done]. by eapply Compress_pubkey.
Qed.

Lemma ReadVarInt_special b s : 0 <= b < 6 → ReadVarInt 32 (b :: s) = Ok (b, s).
Proof.
  intros Hb. assert (b = 0 ∨ b = 1 ∨ b = 2 ∨ b = 3 ∨ b = 4 ∨ b = 5) as H by lia.
  by destruct H as [-> |[-> |[-> |[-> |[-> | ->]]]]].
Qed.

#[export] Instance f_script_ok : FormatOk (f_script fully_valid ec_decompress).
Proof.
  pose proof (f_varint_ok 32 ltac:(lia)) as Hv.
  split; cbn [f_script unser ser size_of dom]; unfold script_Serialize, script_GetSerializeSize.
  - intros script rest [Hl Hb]. unfold script_Unserialize. destruct (Compress fully_valid script) as [compr|] eqn:E.
    + destruct (Compress_inv script compr Hb E) as (b & r & -> & Hb6 & Hlr & Hd & _). cbn [app].
      rewrite ReadVarInt_special by done. cbn [rbind]. change nSpecialScripts with 6.
      rewrite (proj2 (Z.ltb_lt b 6)), read_bytes_app by (done || lia). cbn [rbind]. by rewrite Hd.
    + change nSpecialScripts with 6. rewrite wrap_small by (unfold in_uw; lia). rewrite <- app_assoc.
      pose proof (fmt_roundtrip (f := f_varint 32) (Z.of_nat (length script) + 6) (script ++ rest)) as Hrt.
      cbn [f_varint unser ser dom] in Hrt. rewrite Hrt by (unfold in_uw; lia). cbn [rbind].
      rewrite (proj2 (Z.ltb_ge _ 6)) by lia. apply read_bytes_app. lia.
  - intros script [Hl Hb]. destruct (Compress fully_valid script) as [compr|] eqn:E; [done|].
    change nSpecialScripts with 6. rewrite wrap_small by (unfold in_uw; lia). rewrite length_app.
    pose proof (fmt_size (f := f_varint 32) (Z.of_nat (length script) + 6)) as Hs. cbn in Hs.
    rewrite Hs by (unfold in_uw; lia). lia.
  - intros script [Hl Hb]. destruct (Compress fully_valid script) as [compr|] eqn:E.
    + by destruct (Compress_inv script compr Hb E) as (? & ? & _ & _ & _ & _ & ?).
    + apply Forall_app_2; [|done]. apply (fmt_bytes (f := f_varint 32)). cbn. by apply wrap_range.
Qed.

#[export] Instance f_compressed_txout_ok : FormatOk (f_compressed_txout fully_valid ec_decompress).
Proof. pose proof (f_varint_ok 64 ltac:(lia)). apply _. Qed.

Lemma compressed_txout_dom o :
  0 <= nValue o < 2 ^ 60 → Z.of_nat (length (scriptPubKey o)) < 2 ^ 32 - 6 → Forall is_byte (scriptPubKey o) →
  nRounds o = -10 → dom (f_compressed_txout fully_valid ec_decompress) o.
Proof.
  intros Hv Hl Hb Hr. destruct (DecompressAmount_CompressAmount (nValue o) Hv) as [Hc Hd].
  cbn [f_compressed_txout f_struct f_pair f_varint f_script dom fst snd].
  rewrite (wrap_small 64 (nValue o)) by (unfold in_uw; lia). rewrite Hd, swrap_small by (unfold in_sw; simpl; lia).
  split_and!; try done. destruct o as [v sc n]. cbn in *. by subst n.
Qed.
End scripts.

(** The compact form the coin database stores outputs in loses nothing: an
    output with an amount below 2^60 and any script reads back from it, with the
    announced size, whatever special case the script falls under; for
    uncompressed keys this uses that the library recovers a valid key from its x
    coordinate and the parity of its y coordinate. *)
Theorem compressed_txout_roundtrip fully_valid ec_decompress o rest :
  (∀ x y, length x = 32%nat → length y = 32%nat → fully_valid (4 :: x ++ y) = true →
     ec_decompress ((2 + getz y 31 mod 2) :: x) = Some (4 :: x ++ y)) →
  0 <= nValue o < 2 ^ 60 → Z.of_nat (length (scriptPubKey o)) < 2 ^ 32 - 6 → Forall is_byte (scriptPubKey o) →
  nRounds o = -10 →
  let f := f_compressed_txout fully_valid ec_decompress in
  unser f (ser f o ++ rest) = Ok (o, rest) ∧ size_of f o = Z.of_nat (length (ser f o)).
Proof.
  intros Hec Hv Hl Hb Hr f.
  pose proof (f_compressed_txout_ok fully_valid ec_decompress Hec) as Hok.
  pose proof (compressed_txout_dom fully_valid ec_decompress o Hv Hl Hb Hr) as Hd.
  split; [by apply fmt_roundtrip|by apply fmt_size].
Qed.

(** A library that knows one key. *)
Definition ex_x : list Z := replicate 32 3.
Definition ex_y : list Z := replicate 31 5 ++ [7].
Definition ex_fully_valid (k : CPubKey) : bool := bool_decide (k = 4 :: ex_x ++ ex_y).
Definition ex_decompress (k : CPubKey) : option CPubKey :=
  if bool_decide (k = 3 :: ex_x) then Some (4 :: ex_x ++ ex_y) else None.

Lemma ex_library_law x y :
  length x = 32%nat → length y = 32%nat → ex_fully_valid (4 :: x ++ y) = true →
  ex_decompress ((2 + getz y 31 mod 2) :: x) = Some (4 :: x ++ y).
Proof.
  intros Hx Hy Hv. apply bool_decide_eq_true in Hv.
  apply (f_equal tail) in Hv. change (x ++ y = ex_x ++ ex_y) in Hv.
  apply app_inj_1 in Hv as [-> ->]; [reflexivity|by rewrite Hx].
Qed.

Lemma compressed_txout_roundtrip_witness :
  let o := new_txout 500000000 (push_opcode (push_data [] (4 :: ex_x ++ ex_y)) OP_CHECKSIG) in
  let f := f_compressed_txout ex_fully_valid ex_decompress in
  unser f (ser f o ++ [9]) = Ok (o, [9]) ∧ length (ser f o) = 34%nat.
Proof.
  split; [|vm_compute; reflexivity].
  apply (compressed_txout_roundtrip ex_fully_valid ex_decompress).
  - exact ex_library_law.
  - simpl. lia.
  - simpl. lia.
  - vm_compute. repeat constructor; done.
  - reflexivity.
Defined.
