(* ===== verification/Coins.v ===== *)
(** * coins.h, coins.cpp and undo.h: the coins of a transaction

    CCoins, spending and its undo data, and their forms in the database. The
    compact form of an output is the format of the compressor file. *)

From S2P Require Import Prelude Serialize Script Digest Hashes Interp Tx SigHash Compressor.

Local Open Scope node_scope.

(** ** CCoins *)

Record CCoins := mkCoins {
  fCoinBase : bool; fCoinStake : bool; c_vout : list CTxOut; c_nHeight : Z; c_nVersion : Z
}.

#[export] Instance CCoins_eq_dec : EqDecision CCoins.
Proof. solve_decision. Defined.

(** The empty constructor, and Clear. *)
Definition empty_coins : CCoins := mkCoins false false [] 0 0.
Definition Clear (_ : CCoins) : CCoins := empty_coins.

Definition with_vout (c : CCoins) (o : list CTxOut) : CCoins :=
  mkCoins (fCoinBase c) (fCoinStake c) o (c_nHeight c) (c_nVersion c).

(** [while (vout.size() > 0 && vout.back().IsNull())], on the reversed vector. *)
Fixpoint pop_nulls (l : list CTxOut) : list CTxOut :=
  match l with
  | o :: r => if txout_IsNull o then pop_nulls r else l
  | [] => []
  end.

Definition clean_vout (l : list CTxOut) : list CTxOut := rev (pop_nulls (rev l)).
Definition Cleanup (c : CCoins) : CCoins := with_vout c (clean_vout (c_vout c)).

Definition ClearUnspendable (c : CCoins) : CCoins :=
  Cleanup (with_vout c (map (λ o, if IsUnspendable (scriptPubKey o) then null_txout else o) (c_vout c))).

Definition FromTx (tx : CTransaction) (nHeightIn : Z) : CCoins :=
  ClearUnspendable (mkCoins (IsCoinBase tx) (IsCoinStake tx) (vout tx) nHeightIn (nVersion tx)).

Definition IsPruned (c : CCoins) : bool := forallb txout_IsNull (c_vout c).

(** [operator==]. *)
Definition coins_eq (a b : CCoins) : bool :=
  if IsPruned a && IsPruned b then true
  else Bool.eqb (fCoinBase a) (fCoinBase b) && Bool.eqb (fCoinStake a) (fCoinStake b)
       && (c_nHeight a =? c_nHeight b) && (c_nVersion a =? c_nVersion b) && bool_decide (c_vout a = c_vout b).

Definition IsAvailable (c : CCoins) (nPos : Z) : bool :=
  match c_vout c !! Z.to_nat nPos with
  | Some o => negb (txout_IsNull o) && negb (IsZerocoinMint (scriptPubKey o))
  | None => false
  end.

(** ** CTxInUndo and Spend *)

Record CTxInUndo := mkUndo {
  u_txout : CTxOut; u_fCoinBase : bool; u_fCoinStake : bool; u_nHeight : Z; u_nVersion : Z
}.

Definition new_undo (o : CTxOut) : CTxInUndo := mkUndo o false false 0 0.

(** [None] is [false]: nothing changed. *)
Definition Spend (c : CCoins) (out : COutPoint) : option (CCoins * CTxInUndo) :=
  match c_vout c !! Z.to_nat (out_n out) with
  | None => None
  | Some o =>
      if txout_IsNull o then None
      else
        let c' := Cleanup (with_vout c (<[Z.to_nat (out_n out) := null_txout]> (c_vout c))) in
        Some (c', if (length (c_vout c') =? 0)%nat
                  then mkUndo o (fCoinBase c) (fCoinStake c) (c_nHeight c) (c_nVersion c)
                  else new_undo o)
  end.

(** ** The form in the database *)

(** [!vout[i].IsNull()], false past the end. *)
Definition avail_at (l : list CTxOut) (i : nat) : bool :=
  match l !! i with Some o => negb (txout_IsNull o) | None => false end.

(** The number of turns of [for (b = 0; 2 + b * 8 < vout.size(); b++)]. *)
Definition mask_turns (l : list CTxOut) : nat := (length l - 2 + 7) / 8.

Definition mask_step (l : list CTxOut) (st : nat * nat) (b : nat) : nat * nat :=
  let '(nLastUsedByte, nNonzeroBytes) := st in
  if existsb (λ i, avail_at l (2 + b * 8 + i)) (seq 0 8) then (b + 1, nNonzeroBytes + 1)%nat else st.

(** [nBytes] and [nNonzeroBytes]. *)
Definition CalcMaskSize (c : CCoins) : nat * nat :=
  foldl (mask_step (c_vout c)) (0, 0)%nat (seq 0 (mask_turns (c_vout c))).

Definition fFirst (c : CCoins) : bool := avail_at (c_vout c) 0.
Definition fSecond (c : CCoins) : bool := avail_at (c_vout c) 1.

(** [nCode] with the factor of the mask code: Serialize has 16. *)
Definition header_code (factor : Z) (c : CCoins) : Z :=
  u32 (factor * (Z.of_nat (CalcMaskSize c).2 - (if fFirst c || fSecond c then 0 else 1))
       + (if fCoinBase c then 1 else 0) + (if fCoinStake c then 2 else 0)
       + (if fFirst c then 4 else 0) + (if fSecond c then 8 else 0)).

(** [chAvail] of byte [b]. *)
Definition mask_byte (l : list CTxOut) (b : nat) : Z :=
  foldl (λ ch i, if avail_at l (2 + b * 8 + i) then Z.lor ch (Z.shiftl 1 (Z.of_nat i)) else ch) 0 (seq 0 8).

(** [VARINT] of an [int], read into an [int]. *)
Definition f_varint_int : format Z := f_struct (f_varint 32) (λ n, n) (λ n, s32 n).

Section coins.
Variable fully_valid : CPubKey → bool.
Variable ec_decompress : CPubKey → option CPubKey.
Abbreviation f_out := (f_compressed_txout fully_valid ec_decompress).

(** GetSerializeSize, whose header code has the factor 8. *)
Definition coins_GetSerializeSize (c : CCoins) : Z :=
  size_of f_varint_int (c_nVersion c) + GetSizeOfVarInt 32 (header_code 8 c)
  + Z.of_nat (CalcMaskSize c).1
  + foldl (λ n o, if txout_IsNull o then n else n + size_of f_out o) 0 (c_vout c)
  + size_of f_varint_int (c_nHeight c).

(** [None] is the failed assertion, for pruned coins. *)
Definition coins_Serialize (c : CCoins) : option (list Z) :=
  let '(nMaskSize, nMaskCode) := CalcMaskSize c in
  if fFirst c || fSecond c || negb (nMaskCode =? 0)%nat
  then Some (ser f_varint_int (c_nVersion c)
             ++ WriteVarInt 32 (header_code 16 c)
             ++ map (mask_byte (c_vout c)) (seq 0 nMaskSize)
             ++ flat_map (λ o, if txout_IsNull o then [] else ser f_out o) (c_vout c)
             ++ ser f_varint_int (c_nHeight c))
  else None.

(** [while (nMaskCode > 0)]: a turn reads a byte. *)
Fixpoint read_mask (nMaskCode : nat) (s : list Z) (vAvail : list bool) {struct s}
    : result stream_error (list bool * list Z) :=
  match nMaskCode with
  | O => Ok (vAvail, s)
  | S k =>
      match s with
      | [] => Throw EndOfData
      | chAvail :: s =>
          let vAvail := vAvail ++ map (λ p, negb (Z.land chAvail (Z.shiftl 1 p) =? 0)) (seqZ 0 8) in
          read_mask (if negb (chAvail =? 0) then k else nMaskCode) s vAvail
      end
  end.

(** The outputs, for every entry of [vAvail]. *)
Fixpoint read_outs (vAvail : list bool) (s : list Z) : result stream_error (list CTxOut * list Z) :=
  match vAvail with
  | [] => Ok ([], s)
  | f :: vAvail =>
      let! (o, s) := (if f : bool then unser f_out s else Ok (null_txout, s)) in
      let! (l, s) := read_outs vAvail s in Ok (o :: l, s)
  end.

Definition coins_Unserialize (s : list Z) : result stream_error (CCoins * list Z) :=
  let! (nVersion, s) := unser f_varint_int s in
  let! (nCode, s) := ReadVarInt 32 s in
  let vAvail := [negb (Z.land nCode 4 =? 0); negb (Z.land nCode 8 =? 0)] in
  let nMaskCode := nCode / 16 + (if negb (Z.land nCode 12 =? 0) then 0 else 1) in
  let! (vAvail, s) := read_mask (Z.to_nat nMaskCode) s vAvail in
  let! (outs, s) := read_outs vAvail s in
  let! (nHeight, s) := unser f_varint_int s in
  Ok (Cleanup (mkCoins (negb (Z.land nCode 1 =? 0)) (negb (Z.land nCode 2 =? 0)) outs nHeight nVersion), s).

(** CTxInUndo in the undo files. *)
Definition undo_code (u : CTxInUndo) : Z :=
  u32 (u_nHeight u * 4 + (if u_fCoinBase u then 2 else 0) + (if u_fCoinStake u then 1 else 0)).

Definition undo_Serialize (u : CTxInUndo) : list Z :=
  WriteVarInt 32 (undo_code u)
  ++ (if 0 <? u_nHeight u then ser f_varint_int (u_nVersion u) else [])
  ++ ser f_out (u_txout u).

Definition undo_Unserialize (s : list Z) : result stream_error (CTxInUndo * list Z) :=
  let! (nCode, s) := ReadVarInt 32 s in
  let nHeight := Z.shiftr nCode 2 in
  let! (nVersion, s) := (if 0 <? nHeight then unser f_varint_int s else Ok (0, s)) in
  let! (o, s) := unser f_out s in
  Ok (mkUndo o (negb (Z.land nCode 2 =? 0)) (negb (Z.land nCode 1 =? 0)) nHeight nVersion, s).
End coins.

(** ** The masks *)

Definition mask_bools (l : list CTxOut) (b : nat) : list bool := map (λ i, avail_at l (2 + b * 8 + i)) (seq 0 8).

Definition byte_bools (ch : Z) : list bool := map (λ p, negb (Z.land ch (Z.shiftl 1 p) =? 0)) (seqZ 0 8).

Lemma mask_byte_spec l b :
  byte_bools (mask_byte l b) = mask_bools l b ∧
  negb (mask_byte l b =? 0) = existsb (λ i, avail_at l (2 + b * 8 + i)) (seq 0 8) ∧ is_byte (mask_byte l b).
Proof.
  unfold mask_byte, mask_bools. cbn [seq foldl map existsb].
  generalize (avail_at l (2 + b * 8 + 0)) (avail_at l (2 + b * 8 + 1)) (avail_at l (2 + b * 8 + 2))
    (avail_at l (2 + b * 8 + 3)) (avail_at l (2 + b * 8 + 4)) (avail_at l (2 + b * 8 + 5))
    (avail_at l (2 + b * 8 + 6)) (avail_at l (2 + b * 8 + 7)).
  intros [] [] [] [] [] [] [] []; split_and!; try reflexivity; unfold in_uw; vm_compute; done.
Qed.

Definition nonzero_bytes (Bs : list Z) : nat := length (filter (λ b, b ≠ 0) Bs).

Lemma read_mask_bytes Bs rest acc :
  (Bs = [] ∨ ∃ b, last Bs = Some b ∧ b ≠ 0) →
  read_mask (nonzero_bytes Bs) (Bs ++ rest) acc = Ok (acc ++ concat (map byte_bools Bs), rest).
Proof.
  revert acc. induction Bs as [|x Bs IH]; intros acc Hl.
  { simpl. rewrite app_nil_r. by destruct rest. }
  destruct Hl as [?|(y & Hy & Hy0)]; [done|].
  assert (∃ k, nonzero_bytes (x :: Bs) = S k ∧ (if negb (x =? 0) then k else S k) = nonzero_bytes Bs) as (k & Ek & Ek').
  { unfold nonzero_bytes. rewrite filter_cons. destruct (decide (x ≠ 0)) as [Hx|Hx].
    - eexists. split; [done|]. by rewrite (proj2 (Z.eqb_neq x 0)).
    - assert (x = 0) as -> by lia. cbn [Z.eqb negb].
      destruct (filter (λ b, b ≠ 0) Bs) as [|z l] eqn:E; [|by eexists].
      exfalso. destruct Bs as [|z Bs]; [naive_solver|].
      assert (y ∈ filter (λ b, b ≠ 0) (z :: Bs)) as Hin; [|rewrite E in Hin; by apply not_elem_of_nil in Hin].
      apply list_elem_of_filter. split; [done|]. by apply last_Some_elem_of. }
  rewrite Ek. cbn [app read_mask map concat]. fold (byte_bools x). rewrite Ek', IH.
  - by rewrite <- app_assoc.
  - destruct Bs as [|z Bs]; [by left|]. right. by exists y.
Qed.

(** What the loop of CalcMaskSize finds after [T] turns. *)
Lemma mask_fold_spec l T :
  let '(m, nz) := foldl (mask_step l) (0, 0)%nat (seq 0 T) in
  (m <= T)%nat ∧ nz = nonzero_bytes (map (mask_byte l) (seq 0 m)) ∧
  (m = 0%nat ∨ mask_byte l (m - 1) ≠ 0) ∧
  (∀ b, (m <= b < T)%nat → mask_byte l b = 0).
Proof.
  induction T as [|T IH]; [simpl; split_and!; try done; [by left|lia]|].
  rewrite seq_S, foldl_app. destruct (foldl (mask_step l) (0, 0)%nat (seq 0 T)) as [m nz].
  destruct IH as (H1 & H2 & H3 & H4). cbn [foldl]. rewrite Nat.add_0_l. unfold mask_step.
  destruct (mask_byte_spec l T) as (_ & Hz & _). rewrite <- Hz.
  destruct (Z.eqb_spec (mask_byte l T) 0) as [E|E]; cbn [negb].
  - split_and!; [lia|done|done|]. intros b Hb. destruct (decide (b = T)) as [->|]; [done|]. apply H4. lia.
  - split_and!; [lia| |right; by replace (T + 1 - 1)%nat with T by lia|lia].
    subst nz. assert (seq 0 T = seq 0 m ++ seq m (T - m)) as Es by (rewrite <- seq_app; f_equal; lia).
    rewrite !Nat.add_1_r, seq_S, Es, !map_app. unfold nonzero_bytes. rewrite !filter_app, !length_app.
    cbn [map Nat.add]. rewrite (filter_cons_True _ (mask_byte l T)) by done.
    rewrite (filter_all_out _ (map (mask_byte l) (seq m (T - m)))); [simpl; lia|]. apply Forall_forall. intros x Hx. apply list_elem_of_fmap in Hx as (b & -> & Hb).
    apply elem_of_seq in Hb. rewrite H4 by lia. naive_solver.
Qed.

(** The bits of the first [m] bytes, in order. *)
Lemma mask_bools_concat l m :
  concat (map (mask_bools l) (seq 0 m)) = map (avail_at l) (seq 2 (8 * m)).
Proof.
  induction m as [|m IH]; [done|]. rewrite seq_S, map_app, concat_app, IH. cbn [map concat]. rewrite app_nil_r.
  replace (8 * S m)%nat with (8 * m + 8)%nat by lia. rewrite seq_app, map_app. f_equal.
  unfold mask_bools. cbn [Nat.add]. replace (m * 8)%nat with (8 * m)%nat by lia.
  cbn [seq map]. repeat (apply f_equal2; [f_equal; lia|]). done.
Qed.

Lemma avail_at_ge l i : (length l <= i)%nat → avail_at l i = false.
Proof. intros. unfold avail_at. by rewrite lookup_ge_None_2. Qed.

Lemma map_avail_at l n :
  (length l <= n)%nat →
  map (avail_at l) (seq 0 n) = map (λ o, negb (txout_IsNull o)) l ++ replicate (n - length l) false.
Proof.
  intros Hn. apply list_eq. intros i. change (map ?f ?l) with (f <$> l). rewrite list_lookup_fmap.
  destruct (decide (i < n)%nat).
  - rewrite lookup_seq_lt by done. cbn [fmap option_fmap option_map Nat.add]. unfold avail_at.
    destruct (l !! i) as [o|] eqn:E.
    + rewrite lookup_app_l by (rewrite length_fmap; by eapply lookup_lt_Some). by rewrite list_lookup_fmap, E.
    + apply lookup_ge_None in E. rewrite lookup_app_r by (by rewrite length_fmap). rewrite length_fmap.
      by rewrite lookup_replicate_2 by lia.
  - rewrite lookup_seq_ge by lia. rewrite lookup_app_r by (rewrite length_fmap; lia). rewrite length_fmap.
    symmetry. apply lookup_ge_None. rewrite length_replicate. lia.
Qed.

(** Trailing nulls do not matter. *)
Lemma clean_vout_app_nulls l n : clean_vout (l ++ replicate n null_txout) = clean_vout l.
Proof.
  unfold clean_vout. rewrite rev_app_distr. f_equal.
  induction n as [|n IH]; [done|].
  replace (replicate (S n) null_txout) with (replicate n null_txout ++ [null_txout])
    by (by rewrite <- replicate_cons_app).
  rewrite rev_app_distr. simpl. done.
Qed.

Lemma clean_vout_last l : clean_vout l = l ↔ ∀ o, last l = Some o → txout_IsNull o = false.
Proof.
  unfold clean_vout. destruct (snoc_cases l) as [->|(w & o & ->)]; [done|].
  rewrite rev_app_distr, last_snoc. cbn [rev app pop_nulls]. destruct (txout_IsNull o) eqn:E.
  - split; [|intros H; by rewrite (H o eq_refl) in E]. intros H. exfalso. apply (f_equal length) in H.
    assert (∀ k, (length (pop_nulls k) <= length k)%nat) as Hk
      by (intros k; induction k as [|x k IH]; simpl; [done|]; case_match; simpl; lia).
    specialize (Hk (rev w)). rewrite !length_rev, length_app in *. simpl in H. lia.
  - split; [by intros _ o' [= <-]|]. intros _. simpl. by rewrite rev_involutive.
Qed.

Lemma IsPruned_clean l : clean_vout l = l → forallb txout_IsNull l = false ↔ l ≠ [].
Proof.
  intros Hc. destruct (snoc_cases l) as [->|(w & o & ->)]; [done|].
  assert (txout_IsNull o = false) as E by (apply (proj1 (clean_vout_last _) Hc); apply last_snoc).
  rewrite forallb_app. simpl. rewrite E, andb_false_r. split; [by destruct w|done].
Qed.

(** ** Coins round trip *)

Section roundtrip.
Context (fully_valid : CPubKey → bool) (ec_decompress : CPubKey → option CPubKey).
Abbreviation f_out := (f_compressed_txout fully_valid ec_decompress).
Hypothesis Hout : FormatOk f_out.

(** An output the form can hold: spent, or with a non-negative amount. *)
Definition out_ok (o : CTxOut) : Prop := o = null_txout ∨ (txout_IsNull o = false ∧ dom f_out o).

Lemma read_outs_spec l n rest :
  Forall out_ok l →
  read_outs fully_valid ec_decompress (map (λ o, negb (txout_IsNull o)) l ++ replicate n false)
    (flat_map (λ o, if txout_IsNull o then [] else ser f_out o) l ++ rest)
  = Ok (l ++ replicate n null_txout, rest).
Proof.
  intros Hl. induction Hl as [|o l Ho Hl IH].
  - simpl. induction n as [|n IH]; [done|]. simpl. by rewrite IH.
  - cbn [map app read_outs flat_map]. destruct Ho as [->|[E Hd]].
    + change (txout_IsNull null_txout) with true. cbn [negb app rbind]. rewrite IH. done.
    + rewrite E. cbn [negb]. rewrite <- app_assoc, fmt_roundtrip by done. cbn [rbind]. by rewrite IH.
Qed.

Lemma land_low16 q k m : 0 <= k < 16 → 0 <= m < 16 → Z.land (16 * q + k) m = Z.land k m.
Proof.
  intros Hk Hm. assert (Z.land 15 m = m) as <-.
  { rewrite Z.land_comm. change 15 with (Z.ones 4). rewrite Z.land_ones by lia. apply Z.mod_small. simpl. lia. }
  rewrite !Z.land_assoc. f_equal. change 15 with (Z.ones 4). rewrite !Z.land_ones by lia.
  change (2 ^ 4) with 16. rewrite (Z.add_comm (16 * q)), (Z.mul_comm 16), Z.mod_add by lia. done.
Qed.

(** The header code carries the four flags and the mask code. *)
Lemma header_code_decode c :
  let nz := (CalcMaskSize c).2 in
  fFirst c || fSecond c || negb (nz =? 0)%nat = true → Z.of_nat nz < 2 ^ 27 →
  let nCode := header_code 16 c in
  in_uw 32 nCode ∧
  negb (Z.land nCode 1 =? 0) = fCoinBase c ∧ negb (Z.land nCode 2 =? 0) = fCoinStake c ∧
  negb (Z.land nCode 4 =? 0) = fFirst c ∧ negb (Z.land nCode 8 =? 0) = fSecond c ∧
  nCode / 16 + (if negb (Z.land nCode 12 =? 0) then 0 else 1) = Z.of_nat nz.
Proof.
  intros nz Ha Hn nCode.
  set (q := Z.of_nat nz - (if fFirst c || fSecond c then 0 else 1)).
  set (k := (if fCoinBase c then 1 else 0) + (if fCoinStake c then 2 else 0)
            + (if fFirst c then 4 else 0) + (if fSecond c then 8 else 0)).
  assert (0 <= q) as Hq.
  { unfold q. destruct (fFirst c || fSecond c); [lia|]. simpl in Ha. destruct (Nat.eqb_spec nz 0); [done|lia]. }
  assert (q < 2 ^ 27) as Hq' by (unfold q; destruct (fFirst c || fSecond c); lia).
  assert (0 <= k < 16) as Hk by (unfold k; destruct (fCoinBase c), (fCoinStake c), (fFirst c), (fSecond c); lia).
  assert (nCode = 16 * q + k) as E.
  { transitivity (u32 (16 * q + k)).
    { unfold nCode, header_code. fold nz. fold q. f_equal. unfold k. ring. }
    apply wrap_small. clearbody q k. unfold in_uw. lia. }
  clearbody nCode. subst nCode. split; [clearbody q k; unfold in_uw; lia|].
  rewrite !land_low16 by lia. replace ((16 * q + k) / 16) with q by divmod_lia.
  assert (q + (if fFirst c || fSecond c then 0 else 1) = Z.of_nat nz) as E2
    by (unfold q; destruct (fFirst c || fSecond c); lia).
  clearbody q nz. unfold k in *. clear -E2.
  destruct (fCoinBase c), (fCoinStake c), (fFirst c), (fSecond c); split_and!; try reflexivity; exact E2.
Qed.

Lemma f_varint_int_dom n : 0 <= n < 2 ^ 31 → dom f_varint_int n.
Proof. intros Hn. split; [cbn; unfold in_uw; lia|]. apply swrap_small; [lia|]. unfold in_sw. simpl. lia. Qed.

#[export] Instance f_varint_int_ok : FormatOk f_varint_int.
Proof. pose proof (f_varint_ok 32 ltac:(lia)). apply _. Qed.

(** The mask of cleaned outputs covers them all. *)
Lemma mask_covers l :
  clean_vout l = l →
  let '(m, nz) := foldl (mask_step l) (0, 0)%nat (seq 0 (mask_turns l)) in (length l <= 2 + 8 * m)%nat.
Proof.
  intros Hc. pose proof (mask_fold_spec l (mask_turns l)) as H.
  destruct (foldl _ _ _) as [m nz]. destruct H as (H1 & _ & _ & H4).
  destruct (Nat.le_gt_cases (length l) (2 + 8 * m)) as [|Hgt]; [done|]. exfalso.
  set (b := ((length l - 3) / 8)%nat).
  pose proof (Nat.div_mod (length l - 3) 8 ltac:(lia)) as Hdm. fold b in Hdm.
  pose proof (Nat.mod_upper_bound (length l - 3) 8 ltac:(lia)).
  assert (b < mask_turns l)%nat.
  { unfold mask_turns. apply Nat.div_le_lower_bound; lia. }
  assert (mask_byte l b = 0) as Hz by (apply H4; lia).
  destruct (mask_byte_spec l b) as (_ & Hnz & _). rewrite Hz in Hnz. cbn [Z.eqb negb] in Hnz.
  symmetry in Hnz.
  assert (avail_at l (2 + b * 8 + (length l - 3) mod 8) = false) as Ha.
  { apply not_true_iff_false. intros Ht. assert (existsb (λ i, avail_at l (2 + b * 8 + i)) (seq 0 8) = true); [|congruence].
    apply existsb_exists. exists ((length l - 3) mod 8)%nat. split; [apply in_seq; lia|done]. }
  replace (2 + b * 8 + (length l - 3) mod 8)%nat with (length l - 1)%nat in Ha by lia.
  destruct (snoc_cases l) as [->|(w & o & ->)]; [simpl in *; lia|].
  pose proof (proj1 (clean_vout_last _) Hc o (last_snoc _ _)) as Ho.
  unfold avail_at in Ha. rewrite length_app in Ha. simpl in Ha.
  rewrite lookup_app_r in Ha by lia. replace (length w + 1 - 1 - length w)%nat with 0%nat in Ha by lia.
  simpl in Ha. by rewrite Ho in Ha.
Qed.

Record coins_ok (c : CCoins) : Prop := {
  ok_outs : Forall out_ok (c_vout c);
  ok_clean : clean_vout (c_vout c) = c_vout c;
  ok_unspent : c_vout c ≠ [];
  ok_length : Z.of_nat (length (c_vout c)) < 2 ^ 28;
  ok_height : 0 <= c_nHeight c < 2 ^ 31;
  ok_version : 0 <= c_nVersion c < 2 ^ 31
}.

(** All of the mask at once. *)
Lemma mask_facts c rest :
  coins_ok c →
  let '(m, nz) := CalcMaskSize c in
  read_mask nz (map (mask_byte (c_vout c)) (seq 0 m) ++ rest) [fFirst c; fSecond c]
    = Ok (map (λ o, negb (txout_IsNull o)) (c_vout c) ++ replicate (2 + 8 * m - length (c_vout c)) false, rest) ∧
  Z.of_nat nz < 2 ^ 27 ∧ fFirst c || fSecond c || negb (nz =? 0)%nat = true.
Proof.
  intros [_ Hc Hne Hlen _ _]. unfold CalcMaskSize. set (l := c_vout c) in *.
  pose proof (mask_fold_spec l (mask_turns l)) as H. pose proof (mask_covers l Hc) as Hcov.
  destruct (foldl (mask_step l) (0, 0)%nat (seq 0 (mask_turns l))) as [m nz]. destruct H as (H1 & H2 & H3 & _).
  assert (nz <= m)%nat as Hnz.
  { rewrite H2. unfold nonzero_bytes. etransitivity; [apply length_filter|]. by rewrite length_map, length_seq. }
  assert (Z.of_nat (mask_turns l) < 2 ^ 27).
  { unfold mask_turns. rewrite Nat2Z.inj_div. change (Z.of_nat 8) with 8. apply Z.div_lt_upper_bound; lia. }
  split; [|split; [lia|]].
  - rewrite H2, read_mask_bytes.
    + f_equal. f_equal. rewrite map_map. erewrite map_ext; [|intros b; apply (proj1 (mask_byte_spec l b))].
      rewrite mask_bools_concat. change [fFirst c; fSecond c] with (map (avail_at l) (seq 0 2)).
      rewrite <- map_app, <- seq_app. by apply map_avail_at.
    + destruct m as [|m]; [by left|]. right. exists (mask_byte l m).
      destruct H3 as [?|H3]; [done|]. replace (S m - 1)%nat with m in H3 by lia. split; [|done].
      rewrite seq_S, map_app. apply last_snoc.
  - destruct m as [|m].
    + destruct (snoc_cases l) as [?|(w & o & E)]; [done|].
      assert (avail_at l (length w) = true) as Hav.
      { unfold avail_at. rewrite E, lookup_app_r, Nat.sub_diag by lia. simpl.
        by rewrite (proj1 (clean_vout_last _) Hc o) by (rewrite E; apply last_snoc). }
      rewrite E, length_app in Hcov. simpl in Hcov.
      destruct (length w) as [|[|k]] eqn:Ew; [by unfold fFirst; fold l; rewrite Hav
        |by unfold fSecond; fold l; rewrite Hav, orb_true_r|lia].
    + rewrite (proj2 (Nat.eqb_neq nz 0)); [by rewrite !orb_true_r|]. rewrite H2.
      destruct H3 as [?|H3]; [done|]. replace (S m - 1)%nat with m in H3 by lia.
      unfold nonzero_bytes. rewrite seq_S, map_app, filter_app, length_app. cbn [map Nat.add].
      rewrite filter_cons_True by done. simpl. lia.
Qed.

Lemma coins_roundtrip c rest :
  coins_ok c →
  ∃ b, coins_Serialize fully_valid ec_decompress c = Some b ∧
    coins_Unserialize fully_valid ec_decompress (b ++ rest) = Ok (c, rest).
Proof.
  intros Hok. unfold coins_Serialize.
  pose proof (header_code_decode c) as Hh. cbv zeta in Hh.
  pose proof (λ r, mask_facts c r Hok) as Hm.
  destruct (CalcMaskSize c) as [m nz] eqn:Em. cbn [snd] in Hh. destruct (Hm []) as (_ & Hnz & Ha).
  rewrite Ha. eexists. split; [done|]. destruct (Hh Ha Hnz) as (Hr & H1 & H2 & H4 & H8 & H12). clear Hh.
  pose proof (f_varint_ok 32 ltac:(lia)) as Hv.
  unfold coins_Unserialize. rewrite <- !app_assoc.
  rewrite fmt_roundtrip by (apply f_varint_int_dom, Hok). cbn [rbind].
  pose proof (fmt_roundtrip (f := f_varint 32) (header_code 16 c)) as Hrt. cbn [f_varint unser ser dom] in Hrt.
  rewrite Hrt by done. cbn [rbind]. rewrite H12, Nat2Z.id, H4, H8.
  destruct (Hm (flat_map (λ o, if txout_IsNull o then [] else ser f_out o) (c_vout c)
    ++ ser f_varint_int (c_nHeight c) ++ rest)) as (-> & _ & _). cbn [rbind].
  rewrite read_outs_spec by apply Hok. cbn [rbind].
  rewrite fmt_roundtrip by (apply f_varint_int_dom, Hok). cbn [rbind]. rewrite H1, H2.
  unfold Cleanup, with_vout. cbn [c_vout fCoinBase fCoinStake c_nHeight c_nVersion].
  rewrite clean_vout_app_nulls, (ok_clean c Hok). by destruct c.
Qed.

Lemma coins_size c b :
  coins_ok c → coins_Serialize fully_valid ec_decompress c = Some b → Z.of_nat (CalcMaskSize c).2 < 2 ^ 27 →
  coins_GetSerializeSize fully_valid ec_decompress c + GetSizeOfVarInt 32 (header_code 16 c)
  = Z.of_nat (length b) + GetSizeOfVarInt 32 (header_code 8 c).
Proof.
  intros Hok Hs Hnz. unfold coins_Serialize in Hs. pose proof (header_code_decode c) as Hh. cbv zeta in Hh.
  unfold coins_GetSerializeSize. destruct (CalcMaskSize c) as [m nz]. cbn [fst snd] in *.
  destruct (fFirst c || fSecond c || negb (nz =? 0)%nat) eqn:Ha; [|done]. apply (inj Some) in Hs. subst b.
  destruct (Hh eq_refl Hnz) as (Hr & _). pose proof (f_varint_ok 32 ltac:(lia)) as Hv.
  pose proof (fmt_size (f := f_varint 32) (header_code 16 c) Hr) as E16. cbn [f_varint size_of ser] in E16.
  rewrite !length_app, length_map, length_seq, E16.
  rewrite !(fmt_size (f := f_varint_int)) by (apply f_varint_int_dom, Hok).
  assert (∀ l n, Forall out_ok l → foldl (λ n o, if txout_IsNull o then n else n + size_of f_out o) n l
    = n + Z.of_nat (length (flat_map (λ o, if txout_IsNull o then [] else ser f_out o) l))) as Hf.
  { intros l n Hl. revert n. induction Hl as [|o l Ho Hl IH]; intros n; cbn [foldl flat_map]; [simpl; lia|].
    rewrite IH, length_app. destruct Ho as [->|[-> Hd]]; [simpl; lia|]. rewrite fmt_size by done. lia. }
  rewrite Hf by apply Hok. lia.
Qed.
End roundtrip.

Lemma compressed_out_ok fully_valid ec_decompress o :
  o = null_txout ∨
    (0 <= nValue o < 2 ^ 60 ∧ Z.of_nat (length (scriptPubKey o)) < 2 ^ 32 - 6 ∧ Forall is_byte (scriptPubKey o) ∧
     nRounds o = -10) →
  out_ok fully_valid ec_decompress o.
Proof.
  intros [->|(Hv & Hl & Hb & Hr)]; [by left|]. right. split.
  - unfold txout_IsNull. apply Z.eqb_neq. lia.
  - by apply compressed_txout_dom.
Qed.

(** The record the coin database keeps of a transaction reads back: coins
    with an unspent output, no spent output at the end, amounts below 2^60 and
    non-negative height and version survive Serialize and Unserialize. The size
    GetSerializeSize announces is off by exactly the difference of the lengths of
    two header codes, because it computes the code with the factor 8 where
    Serialize writes it with 16. *)
Theorem coins_database_roundtrip fully_valid ec_decompress c rest :
  (∀ x y, length x = 32%nat → length y = 32%nat → fully_valid (4 :: x ++ y) = true →
     ec_decompress ((2 + getz y 31 mod 2) :: x) = Some (4 :: x ++ y)) →
  Forall (λ o, o = null_txout ∨
    (0 <= nValue o < 2 ^ 60 ∧ Z.of_nat (length (scriptPubKey o)) < 2 ^ 32 - 6 ∧ Forall is_byte (scriptPubKey o) ∧
     nRounds o = -10)) (c_vout c) →
  Cleanup c = c → c_vout c ≠ [] → Z.of_nat (length (c_vout c)) < 2 ^ 28 →
  0 <= c_nHeight c < 2 ^ 31 → 0 <= c_nVersion c < 2 ^ 31 →
  ∃ b, coins_Serialize fully_valid ec_decompress c = Some b ∧
    coins_Unserialize fully_valid ec_decompress (b ++ rest) = Ok (c, rest) ∧
    coins_GetSerializeSize fully_valid ec_decompress c + GetSizeOfVarInt 32 (header_code 16 c)
    = Z.of_nat (length b) + GetSizeOfVarInt 32 (header_code 8 c).
Proof.
  intros Hec Ho Hc Hne Hl Hh Hv.
  pose proof (f_compressed_txout_ok fully_valid ec_decompress Hec) as Hout.
  assert (coins_ok fully_valid ec_decompress c) as Hok.
  { split; try done.
    - eapply Forall_impl; [exact Ho|]. intros o. apply compressed_out_ok.
    - by apply (f_equal c_vout) in Hc. }
  destruct (coins_roundtrip fully_valid ec_decompress Hout c rest Hok) as (b & Hs & Hu).
  exists b. split; [done|]. split; [done|]. apply (coins_size fully_valid ec_decompress Hout); [done|done|].
  pose proof (mask_facts fully_valid ec_decompress c [] Hok) as H. by destruct (CalcMaskSize c), H as (_ & ? & _).
Qed.

Definition ex_coins : CCoins := mkCoins true false (replicate 66 (new_txout 5000 [OP_DUP])) 100 1.

Lemma coins_database_roundtrip_witness :
  ∃ b, coins_Serialize ex_fully_valid ex_decompress ex_coins = Some b ∧
    coins_Unserialize ex_fully_valid ex_decompress (b ++ [7]) = Ok (ex_coins, [7]) ∧
    coins_GetSerializeSize ex_fully_valid ex_decompress ex_coins + 1 = Z.of_nat (length b).
Proof.
  destruct (coins_database_roundtrip ex_fully_valid ex_decompress ex_coins [7]) as (b & Hs & Hu & Hz).
  - exact ex_library_law.
  - apply Forall_replicate. right. split_and!; [simpl; lia|simpl; lia|simpl; lia|repeat constructor; done|reflexivity].
  - reflexivity.
  - discriminate.
  - simpl. lia.
  - simpl. lia.
  - simpl. lia.
  - exists b. split; [exact Hs|]. split; [exact Hu|].
    assert (GetSizeOfVarInt 32 (header_code 16 ex_coins) = 2) as E16 by (vm_compute; reflexivity).
    assert (GetSizeOfVarInt 32 (header_code 8 ex_coins) = 1) as E8 by (vm_compute; reflexivity).
    rewrite E16, E8 in Hz. lia.
Defined.
