(* ===== verification/CoinsView.v ===== *)
(** * coins.cpp and txdb.cpp: views on the set of coins

    The virtual interface CCoinsView is a type class; the cache is built on any
    view and is a view itself, the database is the view at the bottom. A
    GetCoins may fill caches, so it returns the new view too. [None] stands for
    a failed assertion. *)

From S2P Require Import Prelude Serialize Script Digest Hashes Interp Tx SigHash Compressor Coins.

(** ** Entries of a cache *)

Record CCoinsCacheEntry := mkEntry { e_coins : CCoins; e_flags : Z }.

Definition DIRTY : Z := 1.
Definition FRESH : Z := 2.
Definition is_dirty (e : CCoinsCacheEntry) : bool := negb (Z.land (e_flags e) DIRTY =? 0).
Definition is_fresh (e : CCoinsCacheEntry) : bool := negb (Z.land (e_flags e) FRESH =? 0).

Abbreviation CCoinsMap := (gmap hash256 CCoinsCacheEntry).

(** ** The interface *)

Class CoinsView (V : Type) := {
  GetCoins : V → hash256 → V * option CCoins;
  HaveCoins : V → hash256 → V * bool;
  GetBestBlock : V → V * hash256;
  BatchWrite : V → CCoinsMap → hash256 → option (V * bool)
}.

(** ** CCoinsViewDB *)

(** The records under 'c' and the one under 'B'; the key-value store is a map. *)
Record CCoinsViewDB := mkDB { db_coins : gmap hash256 CCoins; db_best : option hash256 }.

(** BatchWriteCoins, for the dirty entries. *)
Definition db_write_entry (old : option CCoins) (it : option CCoinsCacheEntry) : option CCoins :=
  match it with
  | Some e => if is_dirty e then if IsPruned (e_coins e) then None else Some (e_coins e) else old
  | None => old
  end.

Definition db_BatchWrite (d : CCoinsViewDB) (m : CCoinsMap) (h : hash256) : option (CCoinsViewDB * bool) :=
  Some (mkDB (merge db_write_entry (db_coins d) m) (if hash_IsNull h then db_best d else Some h), true).

#[export] Instance DB_view : CoinsView CCoinsViewDB := {
  GetCoins d txid := (d, db_coins d !! txid);
  HaveCoins d txid := (d, bool_decide (is_Some (db_coins d !! txid)));
  GetBestBlock d := (d, default null_hash (db_best d));
  BatchWrite := db_BatchWrite
}.

(** ** CCoinsViewCache *)

Record CCoinsViewCache (V : Type) := mkCache {
  base : V; hasModifier : bool; hashBlock : hash256; cacheCoins : CCoinsMap
}.
Arguments mkCache {V}.
Arguments base {V}.
Arguments hasModifier {V}.
Arguments hashBlock {V}.
Arguments cacheCoins {V}.

Definition new_cache {V} (v : V) : CCoinsViewCache V := mkCache v false null_hash ∅.

Section cache.
Context {V : Type} `{CoinsView V}.
Abbreviation Cache := (CCoinsViewCache V).

Definition with_base (c : Cache) (v : V) : Cache := mkCache v (hasModifier c) (hashBlock c) (cacheCoins c).
Definition with_cacheCoins (c : Cache) (m : CCoinsMap) : Cache := mkCache (base c) (hasModifier c) (hashBlock c) m.
Definition with_modifier (c : Cache) (b : bool) : Cache := mkCache (base c) b (hashBlock c) (cacheCoins c).

Definition FetchCoins (c : Cache) (txid : hash256) : Cache * option CCoinsCacheEntry :=
  match cacheCoins c !! txid with
  | Some e => (c, Some e)
  | None =>
      let '(v, r) := GetCoins (base c) txid in
      let c := with_base c v in
      match r with
      | None => (c, None)
      | Some tmp =>
          let e := mkEntry tmp (if IsPruned tmp then FRESH else 0) in
          (with_cacheCoins c (<[txid := e]> (cacheCoins c)), Some e)
      end
  end.

(** AccessCoins; GetCoins of the cache copies what it points to. *)
Definition AccessCoins (c : Cache) (txid : hash256) : Cache * option CCoins :=
  let '(c, r) := FetchCoins c txid in (c, e_coins <$> r).

Definition cache_HaveCoins (c : Cache) (txid : hash256) : Cache * bool :=
  let '(c, r) := FetchCoins c txid in
  (c, match r with Some e => negb (length (c_vout (e_coins e)) =? 0)%nat | None => false end).

Definition cache_GetBestBlock (c : Cache) : Cache * hash256 :=
  if hash_IsNull (hashBlock c)
  then let '(v, h) := GetBestBlock (base c) in
       (mkCache v (hasModifier c) h (cacheCoins c), h)
  else (c, hashBlock c).

Definition SetBestBlock (c : Cache) (h : hash256) : Cache :=
  mkCache (base c) (hasModifier c) h (cacheCoins c).

(** ModifyCoins: the entry is there, dirty, and its modifier is active. *)
Definition ModifyCoins (c : Cache) (txid : hash256) : option Cache :=
  if hasModifier c then None
  else
    let '(v, e) :=
      match cacheCoins c !! txid with
      | Some e => (base c, e)
      | None =>
          let '(v, r) := GetCoins (base c) txid in
          (v, match r with
              | None => mkEntry empty_coins FRESH
              | Some coins => mkEntry coins (if IsPruned coins then FRESH else 0)
              end)
      end in
    let e := mkEntry (e_coins e) (Z.lor (e_flags e) DIRTY) in
    Some (mkCache v true (hashBlock c) (<[txid := e]> (cacheCoins c))).

(** ~CCoinsModifier. *)
Definition DestroyModifier (c : Cache) (txid : hash256) : option Cache :=
  if negb (hasModifier c) then None
  else match cacheCoins c !! txid with
       | None => None
       | Some e =>
           let e := mkEntry (Cleanup (e_coins e)) (e_flags e) in
           Some (with_modifier
                   (with_cacheCoins c
                      (if is_fresh e && IsPruned (e_coins e) then delete txid (cacheCoins c)
                       else <[txid := e]> (cacheCoins c))) false)
       end.

(** A statement [ModifyCoins(txid)->f(...)]: the temporary modifier lives until
    its end. *)
Definition Modify {R} (c : Cache) (txid : hash256) (f : CCoins → CCoins * R) : option (Cache * R) :=
  match ModifyCoins c txid with
  | None => None
  | Some c =>
      match cacheCoins c !! txid with
      | None => None
      | Some e =>
          let '(coins, r) := f (e_coins e) in
          let c := with_cacheCoins c (<[txid := mkEntry coins (e_flags e)]> (cacheCoins c)) in
          match DestroyModifier c txid with
          | None => None
          | Some c => Some (c, r)
          end
      end
  end.

(** The loop of BatchWrite, an entry of the child: [None] is the failed
    assertion. The entries have different keys, so their order does not matter. *)
Definition batch_step (us : option CCoinsMap) (kv : hash256 * CCoinsCacheEntry) : option CCoinsMap :=
  match us with
  | None => None
  | Some us =>
      let '(txid, it) := kv in
      if is_dirty it
      then match us !! txid with
           | None => if negb (IsPruned (e_coins it))
                     then if is_fresh it
                          then Some (<[txid := mkEntry (e_coins it) (Z.lor DIRTY FRESH)]> us)
                          else None
                     else Some us
           | Some e => if is_fresh e && IsPruned (e_coins it)
                       then Some (delete txid us)
                       else Some (<[txid := mkEntry (e_coins it) (Z.lor (e_flags e) DIRTY)]> us)
           end
      else Some us
  end.

Definition cache_BatchWrite (c : Cache) (m : CCoinsMap) (h : hash256) : option (Cache * bool) :=
  if hasModifier c then None
  else match foldl batch_step (Some (cacheCoins c)) (map_to_list m) with
       | None => None
       | Some us => Some (mkCache (base c) false h us, true)
       end.

Definition Flush (c : Cache) : option (Cache * bool) :=
  match BatchWrite (base c) (cacheCoins c) (hashBlock c) with
  | None => None
  | Some (v, fOk) => Some (mkCache v (hasModifier c) (hashBlock c) ∅, fOk)
  end.

Definition GetCacheSize (c : Cache) : Z := u32 (Z.of_nat (size (cacheCoins c))).
End cache.

#[export] Instance cache_view {V} `{CoinsView V} : CoinsView (CCoinsViewCache V) := {
  GetCoins := AccessCoins;
  HaveCoins := cache_HaveCoins;
  GetBestBlock := cache_GetBestBlock;
  BatchWrite := cache_BatchWrite
}.

Section inputs.
Context {V : Type} `{CoinsView V}.
Abbreviation Cache := (CCoinsViewCache V).

(** [None] is the failed assertion. *)
Definition GetOutputFor (c : Cache) (input : CTxIn) : Cache * option CTxOut :=
  let '(c, r) := AccessCoins c (out_hash (prevout input)) in
  (c, match r with
      | Some coins => if IsAvailable coins (out_n (prevout input))
                      then c_vout coins !! Z.to_nat (out_n (prevout input)) else None
      | None => None
      end).

Fixpoint GetValueIn_loop (c : Cache) (ins : list CTxIn) (nResult : Z) : Cache * option Z :=
  match ins with
  | [] => (c, Some nResult)
  | i :: ins => match GetOutputFor c i with
                | (c, Some o) => GetValueIn_loop c ins (s64 (nResult + nValue o))
                | (c, None) => (c, None)
                end
  end.

Definition GetValueIn (c : Cache) (tx : CTransaction) : Cache * option Z :=
  if IsCoinBase tx then (c, Some 0) else GetValueIn_loop c (vin tx) 0.

Fixpoint HaveInputs_loop (c : Cache) (ins : list CTxIn) : Cache * bool :=
  match ins with
  | [] => (c, true)
  | i :: ins =>
      let '(c, r) := AccessCoins c (out_hash (prevout i)) in
      match r with
      | Some coins => if IsAvailable coins (out_n (prevout i)) then HaveInputs_loop c ins else (c, false)
      | None => (c, false)
      end
  end.

Definition HaveInputs (c : Cache) (tx : CTransaction) : Cache * bool :=
  if negb (IsCoinBase tx) && negb (tx_IsZerocoinSpend tx) then HaveInputs_loop c (vin tx) else (c, true).
End inputs.

(** ** What a view promises *)

(** Coins up to [operator==]: pruned coins are no coins. *)
Definition unspent (c : CCoins) : option CCoins := if IsPruned c then None else Some c.

#[export] Instance CCoins_equiv : Equiv CCoins := λ a b, unspent a = unspent b.
#[export] Instance CCoins_equivalence : Equivalence (≡@{CCoins}).
Proof. split; unfold equiv, CCoins_equiv; [intros ?|intros ???|intros ?????]; congruence. Qed.
#[export] Instance unspent_proper : Proper ((≡@{CCoins}) ==> (=)) unspent.
Proof. by intros a b E. Qed.

Lemma coins_eq_equiv a b : coins_eq a b = true ↔ a ≡ b.
Proof.
  unfold coins_eq, equiv, CCoins_equiv, unspent. destruct (IsPruned a) eqn:Ea, (IsPruned b) eqn:Eb; cbn [andb].
  - done.
  - split; [|done]. rewrite !andb_true_iff, bool_decide_eq_true. intros [_ Hv]. unfold IsPruned in *. congruence.
  - split; [|done]. rewrite !andb_true_iff, bool_decide_eq_true. intros [_ Hv]. unfold IsPruned in *. congruence.
  - rewrite !andb_true_iff, bool_decide_eq_true, !Bool.eqb_true_iff, !Z.eqb_eq.
    destruct a, b; simpl. naive_solver.
Qed.

(** The unspent coins after the dirty entries of [m] are written. *)
Definition written (m : CCoinsMap) (abs : hash256 → option CCoins) (k : hash256) : option CCoins :=
  match m !! k with
  | Some e => if is_dirty e then unspent (e_coins e) else abs k
  | None => abs k
  end.

(** What reading a view promises. *)
Class CoinsViewReads (V : Type) `{CoinsView V} := {
  (** the invariant, the unspent coins by transaction, the best block, and the
      transactions the view has an entry of its own for *)
  cv_inv : V → Prop;
  cv_abs : V → hash256 → option CCoins;
  cv_best : V → hash256;
  cv_pulled : V → hash256 → Prop;
  cv_get : ∀ v t, cv_inv v →
    let '(v', r) := GetCoins v t in
    cv_inv v' ∧ (∀ k, cv_abs v' k = cv_abs v k) ∧ cv_best v' = cv_best v ∧
    (∀ k, cv_pulled v k → cv_pulled v' k) ∧
    match r with
    | Some c => unspent c = cv_abs v t ∧ cv_pulled v' t
    | None => cv_abs v t = None
    end;
  cv_block : ∀ v, cv_inv v →
    let '(v', h) := GetBestBlock v in
    cv_inv v' ∧ (∀ k, cv_abs v' k = cv_abs v k) ∧ cv_best v' = cv_best v ∧
    (∀ k, cv_pulled v k → cv_pulled v' k) ∧ h = cv_best v
}.

(** And what writing to it does. *)
Class CoinsViewOk (V : Type) `{CoinsView V} := {
  cv_reads : CoinsViewReads V;
  cv_write : ∀ v m h, cv_inv v →
    (∀ k e, m !! k = Some e → is_dirty e = true →
       (is_fresh e = true → cv_abs v k = None) ∧ (is_fresh e = false → cv_pulled v k)) →
    ∃ v', BatchWrite v m h = Some (v', true) ∧ cv_inv v' ∧ (∀ k, cv_abs v' k = written m (cv_abs v) k) ∧
      (hash_IsNull h = false → cv_best v' = h)
}.

#[export] Existing Instance cv_reads | 20.

(** ** The database keeps the promises *)

Definition db_ok (d : CCoinsViewDB) : Prop := ∀ k c, db_coins d !! k = Some c → IsPruned c = false.

#[export] Program Instance DB_reads : CoinsViewReads CCoinsViewDB := {
  cv_inv := db_ok;
  cv_abs d k := db_coins d !! k;
  cv_best d := default null_hash (db_best d);
  cv_pulled _ _ := True
}.
Next Obligation.
  intros d t Hd. simpl. split_and!; try done. destruct (db_coins d !! t) as [c|] eqn:E; [|done].
  unfold unspent. by rewrite (Hd t c E).
Qed.
Next Obligation. intros d Hd. simpl. by split_and!. Qed.

#[export] Program Instance DB_ok : CoinsViewOk CCoinsViewDB := { cv_reads := DB_reads }.
Next Obligation.
  intros d m h Hd _. eexists. split; [done|]. cbn [db_coins db_best].
  assert (∀ k, merge db_write_entry (db_coins d) m !! k = written m (λ k, db_coins d !! k) k) as E.
  { intros k. rewrite lookup_merge. unfold written, diag_None, db_write_entry, unspent.
    destruct (db_coins d !! k), (m !! k) as [e|]; try done; destruct (is_dirty e), (IsPruned (e_coins e)); done. }
  split_and!.
  - intros k c. cbn [db_coins]. rewrite E. unfold written, unspent. intros Hk.
    repeat case_match; simplify_eq; eauto.
  - done.
  - by intros ->.
Qed.

(** ** So does a cache on a view that does *)

Lemma dirty_lor e : is_dirty (mkEntry (e_coins e) (Z.lor (e_flags e) DIRTY)) = true.
Proof.
  unfold is_dirty. cbn [e_flags]. apply negb_true_iff, Z.eqb_neq. intros E.
  apply (f_equal (λ z, Z.testbit z 0)) in E. rewrite Z.land_spec, Z.lor_spec in E.
  change (Z.testbit DIRTY 0) with true in E. rewrite orb_true_r in E. by rewrite Z.bits_0 in E.
Qed.

Lemma fresh_lor c e : is_fresh (mkEntry c (Z.lor (e_flags e) DIRTY)) = is_fresh e.
Proof.
  unfold is_fresh. cbn [e_flags]. f_equal. rewrite Z.land_lor_distr_l. change (Z.land DIRTY FRESH) with 0.
  by rewrite Z.lor_0_r.
Qed.

Lemma dirty_lor' c f : is_dirty (mkEntry c (Z.lor f DIRTY)) = true.
Proof. exact (dirty_lor (mkEntry c f)). Qed.

Section laws.
Context {V : Type} `{HV : CoinsView V, !CoinsViewReads V}.
Abbreviation Cache := (CCoinsViewCache V).

(** What an entry of a cache says of the base. *)
Definition entry_ok (v : V) (k : hash256) (e : CCoinsCacheEntry) : Prop :=
  (is_fresh e = true → cv_abs v k = None) ∧ (is_fresh e = false → cv_pulled v k) ∧
  (is_dirty e = false → unspent (e_coins e) = cv_abs v k).

Record cache_inv (c : Cache) : Prop := {
  ci_base : cv_inv (base c);
  ci_entries : ∀ k e, cacheCoins c !! k = Some e → entry_ok (base c) k e;
  ci_modifier : hasModifier c = false
}.

Definition cache_abs (c : Cache) (k : hash256) : option CCoins :=
  match cacheCoins c !! k with
  | Some e => unspent (e_coins e)
  | None => cv_abs (base c) k
  end.

Definition cache_best (c : Cache) : hash256 :=
  if hash_IsNull (hashBlock c) then cv_best (base c) else hashBlock c.

(** A base that has the same coins and has pulled more keeps entries right. *)
Lemma entry_ok_mono v v' k e :
  (∀ k, cv_abs v' k = cv_abs v k) → (∀ k, cv_pulled v k → cv_pulled v' k) →
  entry_ok v k e → entry_ok v' k e.
Proof. intros Ha Hp (H1 & H2 & H3). unfold entry_ok. rewrite Ha. eauto. Qed.

Lemma FetchCoins_spec c t :
  cache_inv c →
  let '(c', r) := FetchCoins c t in
  cache_inv c' ∧ (∀ k, cache_abs c' k = cache_abs c k) ∧ cache_best c' = cache_best c ∧
  (∀ k, is_Some (cacheCoins c !! k) → is_Some (cacheCoins c' !! k)) ∧
  r = cacheCoins c' !! t ∧
  match r with
  | Some e => unspent (e_coins e) = cache_abs c t
  | None => cache_abs c t = None
  end.
Proof.
  intros [Hb He Hm]. unfold FetchCoins, cache_abs, cache_best. destruct (cacheCoins c !! t) as [e|] eqn:Ec.
  { rewrite Ec. split_and!; done. }
  pose proof (cv_get (base c) t Hb) as Hg. destruct (GetCoins (base c) t) as [v r].
  destruct Hg as (Hi & Ha & Hbest & Hp & Hr).
  assert (∀ k e, cacheCoins c !! k = Some e → entry_ok v k e) as He'
    by (intros k e Hk; eapply entry_ok_mono; [done|done|by apply He]).
  destruct r as [tmp|]; cbn [base cacheCoins hashBlock hasModifier with_base with_cacheCoins].
  - destruct Hr as [Hu Hpt]. set (e := mkEntry tmp (if IsPruned tmp then FRESH else 0)).
    assert (entry_ok v t e) as Het.
    { unfold entry_ok, e, is_fresh, is_dirty, unspent in *. cbn [e_flags e_coins] in *. rewrite Ha, <- Hu.
      destruct (IsPruned tmp); simpl; split_and!; done. }
    split_and!.
    + split; cbn; [done| |done]. intros k e'. destruct (decide (k = t)) as [->|Hne].
      * rewrite lookup_insert_eq. by intros [= <-].
      * rewrite lookup_insert_ne by done. apply He'.
    + intros k. destruct (decide (k = t)) as [->|Hne].
      * rewrite lookup_insert_eq, Ec. done.
      * by rewrite lookup_insert_ne, Ha by done.
    + by rewrite Hbest.
    + intros k [x Hx]. destruct (decide (k = t)) as [->|Hne]; [by rewrite lookup_insert_eq|].
      rewrite lookup_insert_ne by done. eauto.
    + by rewrite lookup_insert_eq.
    + done.
  - split_and!; try done.
    + intros k. destruct (cacheCoins c !! k); [done|apply Ha].
    + by rewrite Hbest.
Qed.

(** One entry written into a cache. *)
Lemma batch_step_spec v us kv :
  let '(t, it) := kv in
  (∀ k e, us !! k = Some e → entry_ok v k e) →
  (is_dirty it = true →
     (is_fresh it = true → match us !! t with Some e => unspent (e_coins e) | None => cv_abs v t end = None) ∧
     (is_fresh it = false → is_Some (us !! t))) →
  ∃ us', batch_step (Some us) kv = Some us' ∧ (∀ k e, us' !! k = Some e → entry_ok v k e) ∧
    (∀ k, k ≠ t → us' !! k = us !! k) ∧
    match us' !! t with Some e => unspent (e_coins e) | None => cv_abs v t end
    = if is_dirty it then unspent (e_coins it)
      else match us !! t with Some e => unspent (e_coins e) | None => cv_abs v t end.
Proof.
  destruct kv as [t it]. intros He Hpre. cbn [batch_step]. destruct (is_dirty it) eqn:Hd; [|by exists us].
  destruct (Hpre eq_refl) as [Hf Hp]. destruct (us !! t) as [e|] eqn:Et.
  - destruct (He t e Et) as (E1 & E2 & E3). destruct (is_fresh e && IsPruned (e_coins it)) eqn:Efp.
    + apply andb_true_iff in Efp as [Ef Epr]. exists (delete t us). split; [done|]. split_and!.
      * intros k e'. destruct (decide (k = t)) as [->|Hne]; [by rewrite lookup_delete_eq|].
        rewrite lookup_delete_ne by done. apply He.
      * intros k Hk. by rewrite lookup_delete_ne.
      * rewrite lookup_delete_eq. unfold unspent. rewrite Epr. by apply E1.
    + eexists. split; [done|]. split_and!.
      * intros k e'. destruct (decide (k = t)) as [->|Hne].
        -- rewrite lookup_insert_eq. intros [= <-]. unfold entry_ok. rewrite fresh_lor, dirty_lor'. by split_and!.
        -- rewrite lookup_insert_ne by done. apply He.
      * intros k Hk. by rewrite lookup_insert_ne.
      * by rewrite lookup_insert_eq.
  - assert (is_fresh it = true) as Ef.
    { destruct (is_fresh it); [done|]. destruct (Hp eq_refl) as [? ?]. done. }
    destruct (IsPruned (e_coins it)) eqn:Epr; cbn [negb].
    + exists us. split_and!; try done. rewrite Et. unfold unspent. rewrite Epr. by apply Hf.
    + rewrite Ef. eexists. split; [done|]. split_and!.
      * intros k e'. destruct (decide (k = t)) as [->|Hne].
        -- rewrite lookup_insert_eq. intros [= <-]. by split_and!; [intros _; apply Hf| |].
        -- rewrite lookup_insert_ne by done. apply He.
      * intros k Hk. by rewrite lookup_insert_ne.
      * by rewrite lookup_insert_eq.
Qed.

Lemma batch_fold_spec v l us :
  NoDup l.*1 →
  (∀ k e, us !! k = Some e → entry_ok v k e) →
  (∀ t it, (t, it) ∈ l → is_dirty it = true →
     (is_fresh it = true → match us !! t with Some e => unspent (e_coins e) | None => cv_abs v t end = None) ∧
     (is_fresh it = false → is_Some (us !! t))) →
  ∃ us', foldl batch_step (Some us) l = Some us' ∧ (∀ k e, us' !! k = Some e → entry_ok v k e) ∧
    ∀ k, match us' !! k with Some e => unspent (e_coins e) | None => cv_abs v k end
    = written (list_to_map l) (λ k, match us !! k with Some e => unspent (e_coins e) | None => cv_abs v k end) k.
Proof.
  revert us. induction l as [|[t it] l IH]; intros us Hnd He Hpre.
  { exists us. split_and!; [done|done|]. intros k. unfold written. simpl. by rewrite lookup_empty. }
  cbn in Hnd. apply NoDup_cons in Hnd as [Hnin Hnd].
  destruct (batch_step_spec v us (t, it) He) as (us1 & E1 & He1 & Hk1 & Ht1); [apply Hpre; left|].
  cbn [foldl]. rewrite E1.
  destruct (IH us1 Hnd He1) as (us' & E' & He' & Ha').
  { intros t' it' Hin Hd. assert (t' ≠ t) as Hne.
    { intros ->. apply Hnin. apply list_elem_of_fmap. by exists (t, it'). }
    rewrite Hk1 by done. apply Hpre; [by right|done]. }
  exists us'. split_and!; [done|done|]. intros k. rewrite Ha'. unfold written. cbn [list_to_map].
  destruct (decide (k = t)) as [->|Hne].
  - rewrite not_elem_of_list_to_map_1 by done. cbn. rewrite lookup_insert_eq. exact Ht1.
  - cbn. rewrite lookup_insert_ne by done. by rewrite Hk1.
Qed.

Lemma cache_BatchWrite_spec c m h :
  cache_inv c →
  (∀ k e, m !! k = Some e → is_dirty e = true →
     (is_fresh e = true → cache_abs c k = None) ∧ (is_fresh e = false → is_Some (cacheCoins c !! k))) →
  ∃ c', cache_BatchWrite c m h = Some (c', true) ∧ cache_inv c' ∧
    (∀ k, cache_abs c' k = written m (cache_abs c) k) ∧ (hash_IsNull h = false → cache_best c' = h).
Proof.
  intros [Hb He Hm] Hpre. unfold cache_BatchWrite. rewrite Hm.
  destruct (batch_fold_spec (base c) (map_to_list m) (cacheCoins c)) as (us & E & He' & Ha).
  - apply NoDup_fst_map_to_list.
  - done.
  - intros t it Hin. apply elem_of_map_to_list in Hin. by apply Hpre.
  - rewrite E. eexists. split; [done|]. split_and!; [by split| |].
    + intros k. unfold cache_abs. cbn [cacheCoins base]. rewrite Ha. unfold written. by rewrite list_to_map_to_list.
    + unfold cache_best. cbn [hashBlock]. by intros ->.
Qed.
End laws.

#[export] Program Instance cache_reads {V} `{HV : CoinsView V, !CoinsViewReads V} : CoinsViewReads (CCoinsViewCache V) := {
  cv_inv := cache_inv;
  cv_abs := cache_abs;
  cv_best := cache_best;
  cv_pulled c k := is_Some (cacheCoins c !! k)
}.
Next Obligation.
  intros V HV HO c t Hc. cbn [GetCoins cache_view]. unfold AccessCoins. pose proof (FetchCoins_spec c t Hc) as H.
  destruct (FetchCoins c t) as [c' r]. destruct H as (H1 & H2 & H3 & H4 & H5 & H6). split_and!; try done.
  destruct r as [e|]; simpl; [|done]. split; [done|]. rewrite <- H5. eauto.
Qed.
Next Obligation.
  intros V HV HO c [Hb He Hm]. cbn [GetBestBlock cache_view]. unfold cache_GetBestBlock, cache_best.
  destruct (hash_IsNull (hashBlock c)) eqn:Eh; [|rewrite Eh; by split_and!].
  pose proof (cv_block (base c) Hb) as H. destruct (GetBestBlock (base c)) as [v h].
  destruct H as (H1 & H2 & H3 & H4 & ->). cbn [hashBlock base cacheCoins]. split_and!; [| | |done|done].
  - split; cbn; [done| |done]. intros k e Hk. eapply entry_ok_mono; [done|done|by apply He].
  - intros k. unfold cache_abs. cbn [cacheCoins base]. by destruct (cacheCoins c !! k).
  - rewrite H3. by case_match.
Qed.

#[export] Program Instance cache_ok {V} `{HV : CoinsView V, !CoinsViewReads V} : CoinsViewOk (CCoinsViewCache V) := {
  cv_reads := cache_reads
}.
Next Obligation. intros V HV HO c m h Hc Hpre. by apply cache_BatchWrite_spec. Qed.

Section refinement.
Context {V : Type} `{HV : CoinsView V, !CoinsViewOk V}.
Abbreviation Cache := (CCoinsViewCache V).

Lemma IsPruned_Cleanup c : IsPruned (Cleanup c) = IsPruned c.
Proof.
  unfold IsPruned, Cleanup, with_vout, clean_vout. cbn [c_vout].
  induction (c_vout c) as [|o l IH] using rev_ind; [done|].
  rewrite rev_app_distr, forallb_app. cbn [rev app pop_nulls forallb]. destruct (txout_IsNull o) eqn:E.
  - rewrite IH. simpl. by rewrite andb_true_r.
  - cbn [rev]. rewrite rev_involutive, forallb_app. simpl. by rewrite E.
Qed.

(** The entry ModifyCoins makes. *)
Lemma ModifyCoins_spec (c : Cache) t :
  cache_inv c →
  ∃ c' e, ModifyCoins c t = Some c' ∧ cacheCoins c' = <[t := e]> (cacheCoins c) ∧ hasModifier c' = true ∧
    hashBlock c' = hashBlock c ∧
    is_dirty e = true ∧ unspent (e_coins e) = cache_abs c t ∧
    (is_fresh e = true → cv_abs (base c') t = None) ∧ (is_fresh e = false → cv_pulled (base c') t) ∧
    cv_inv (base c') ∧ (∀ k, cv_abs (base c') k = cv_abs (base c) k) ∧ cv_best (base c') = cv_best (base c) ∧
    (∀ k, cv_pulled (base c) k → cv_pulled (base c') k).
Proof.
  intros [Hb He Hm]. unfold ModifyCoins, cache_abs. rewrite Hm. destruct (cacheCoins c !! t) as [e|] eqn:Et.
  - destruct (He t e Et) as (E1 & E2 & _). eexists _, _. split; [done|]. cbn [cacheCoins hasModifier hashBlock base].
    rewrite fresh_lor. split_and!; try done. apply dirty_lor.
  - pose proof (cv_get (base c) t Hb) as Hg. destruct (GetCoins (base c) t) as [v r].
    destruct Hg as (Hi & Ha & Hbest & Hp & Hr). eexists _, _. split; [done|].
    cbn [cacheCoins hasModifier hashBlock base e_coins e_flags]. split; [done|].
    rewrite fresh_lor, dirty_lor', Ha. destruct r as [coins|].
    + destruct Hr as [Hu Hpt]. cbn [e_coins e_flags]. unfold unspent, is_fresh in *. cbn [e_flags].
      split_and!; try done; destruct (IsPruned coins); try done.
    + by split_and!.
Qed.

Lemma Modify_spec {R} (c : Cache) t (f : CCoins → CCoins * R) :
  cache_inv c →
  ∃ coins c', unspent coins = cache_abs c t ∧ Modify c t f = Some (c', (f coins).2) ∧ cache_inv c' ∧
    cache_best c' = cache_best c ∧ cache_abs c' t = unspent (Cleanup (f coins).1) ∧
    (∀ k, k ≠ t → cache_abs c' k = cache_abs c k).
Proof.
  intros Hc. destruct (ModifyCoins_spec c t Hc) as
    (c1 & e & E & Em & Hm1 & Hh & Hd & Hu & Hf & Hp & Hi & Ha & Hb & Hpm).
  destruct Hc as [_ He _]. unfold Modify. rewrite E, Em, lookup_insert_eq.
  destruct (f (e_coins e)) as [coins r] eqn:Ef. exists (e_coins e). rewrite Ef. cbn [fst snd].
  unfold DestroyModifier. cbn [hasModifier with_cacheCoins cacheCoins]. rewrite Hm1. cbn [negb].
  rewrite lookup_insert_eq. cbn [e_coins e_flags].
  set (e' := mkEntry (Cleanup coins) (e_flags e)).
  assert (is_fresh e' = is_fresh e ∧ is_dirty e' = is_dirty e) as [Ef' Ed'] by done.
  eexists. split; [done|]. split; [done|].
  assert (∀ k e0, k ≠ t → cacheCoins c !! k = Some e0 → entry_ok (base c1) k e0) as He'
    by (intros k e0 _ Hk; eapply entry_ok_mono; [done|done|by apply He]).
  unfold cache_best, cache_abs. cbn [with_modifier with_cacheCoins cacheCoins base hasModifier hashBlock].
  destruct (is_fresh e' && IsPruned (Cleanup coins)) eqn:Efp.
  - apply andb_true_iff in Efp as [Efr Epr]. split_and!.
    + split; cbn; [done| |done]. intros k e0. destruct (decide (k = t)) as [->|Hne].
      * by rewrite lookup_delete_eq.
      * rewrite lookup_delete_ne, !lookup_insert_ne by done. by apply He'.
    + by rewrite Hh, Hb.
    + rewrite lookup_delete_eq. unfold unspent. rewrite Epr. apply Hf. by rewrite <- Ef'.
    + intros k Hk. rewrite lookup_delete_ne, !lookup_insert_ne by done. by rewrite Ha.
  - split_and!.
    + split; cbn; [done| |done]. intros k e0. destruct (decide (k = t)) as [->|Hne].
      * rewrite lookup_insert_eq. intros [= <-]. unfold entry_ok. rewrite Ef', Ed', Hd. by split_and!.
      * rewrite !lookup_insert_ne by done. by apply He'.
    + by rewrite Hh, Hb.
    + by rewrite lookup_insert_eq.
    + intros k Hk. rewrite !lookup_insert_ne by done. by rewrite Ha.
Qed.

Lemma Flush_spec (c : Cache) :
  cache_inv c →
  ∃ c', Flush c = Some (c', true) ∧ cache_inv c' ∧ (∀ k, cache_abs c' k = cache_abs c k) ∧
    (∀ k, cv_abs (base c') k = cache_abs c k) ∧
    (hash_IsNull (hashBlock c) = false → cv_best (base c') = hashBlock c).
Proof.
  intros [Hb He Hm]. unfold Flush.
  destruct (cv_write (base c) (cacheCoins c) (hashBlock c) Hb) as (v & E & Hi & Ha & Hbest).
  { intros k e Hk _. by destruct (He k e Hk) as (? & ? & _). }
  rewrite E. eexists. split; [done|]. cbn [base].
  assert (∀ k, cv_abs v k = cache_abs c k) as Hk.
  { intros k. rewrite Ha. unfold written, cache_abs. destruct (cacheCoins c !! k) as [e|] eqn:Ek; [|done].
    destruct (is_dirty e) eqn:Ed; [done|]. symmetry. by apply (He k e Ek). }
  split_and!; [|intros k; unfold cache_abs at 1; cbn; by rewrite lookup_empty|done|done].
  split; cbn; [done| |done]. intros k e. by rewrite lookup_empty.
Qed.

(** ** A cache behaves as a plain map *)

(** The operations of a client; a modification does not tell pruned coins from
    no coins. *)
Inductive cache_op :=
| OpGet (t : hash256)
| OpModify (t : hash256) (f : CCoins → CCoins)
| OpFlush
| OpSetBestBlock (h : hash256).

Definition op_proper (o : cache_op) : Prop :=
  match o with OpModify _ f => ∀ a b, a ≡ b → Cleanup (f a) ≡ Cleanup (f b) | _ => True end.

Definition run_op (c : Cache) (o : cache_op) : option (Cache * list (option CCoins)) :=
  match o with
  | OpGet t => let '(c, r) := AccessCoins c t in Some (c, [r ≫= unspent])
  | OpModify t f => match Modify c t (λ x, (f x, ())) with Some (c, _) => Some (c, []) | None => None end
  | OpFlush => match Flush c with Some (c, _) => Some (c, []) | None => None end
  | OpSetBestBlock h => Some (SetBestBlock c h, [])
  end.

Fixpoint run_ops (c : Cache) (ops : list cache_op) : option (Cache * list (option CCoins)) :=
  match ops with
  | [] => Some (c, [])
  | o :: ops => match run_op c o with
                | None => None
                | Some (c, out) => match run_ops c ops with
                                   | None => None
                                   | Some (c, outs) => Some (c, out ++ outs)
                                   end
                end
  end.
End refinement.

(** The same operations on a map from transactions to their unspent coins. *)
Definition map_op (m : hash256 → option CCoins) (o : cache_op) : (hash256 → option CCoins) * list (option CCoins) :=
  match o with
  | OpGet t => (m, [m t])
  | OpModify t f => (λ k, if bool_decide (k = t) then unspent (Cleanup (f (default empty_coins (m t)))) else m k, [])
  | _ => (m, [])
  end.

Fixpoint map_ops (m : hash256 → option CCoins) (ops : list cache_op)
    : (hash256 → option CCoins) * list (option CCoins) :=
  match ops with
  | [] => (m, [])
  | o :: ops => let '(m, out) := map_op m o in
                let '(m, outs) := map_ops m ops in (m, out ++ outs)
  end.

Section theorems.
Context {V : Type} `{HV : CoinsView V, !CoinsViewOk V}.
Abbreviation Cache := (CCoinsViewCache V).

Lemma unspent_default coins m : unspent coins = m → coins ≡ default empty_coins m.
Proof. intros <-. unfold equiv, CCoins_equiv, unspent. destruct (IsPruned coins) eqn:E; simpl; by rewrite ?E. Qed.

Lemma run_op_spec (c : Cache) o m :
  cache_inv c → op_proper o → (∀ k, cache_abs c k = m k) →
  ∃ c', run_op c o = Some (c', (map_op m o).2) ∧ cache_inv c' ∧ (∀ k, cache_abs c' k = (map_op m o).1 k).
Proof.
  intros Hc Hp Hm. destruct o as [t|t f| |h]; cbn [run_op map_op fst snd].
  - unfold AccessCoins. pose proof (FetchCoins_spec c t Hc) as H. destruct (FetchCoins c t) as [c' r].
    destruct H as (Hi & Ha & _ & _ & _ & Hr). exists c'. split_and!; [|done|intros; by rewrite Ha].
    rewrite <- Hm. destruct r as [e|]; simpl; [by rewrite Hr|by rewrite Hr].
  - destruct (Modify_spec c t (λ x, (f x, ())) Hc) as (coins & c' & Hu & E & Hi & _ & Ht & Hk).
    rewrite E. exists c'. split_and!; [done|done|]. intros k. case_bool_decide as Ek; [|by rewrite Hk, Hm].
    subst k. rewrite Ht. cbn [fst]. apply (Hp coins (default empty_coins (m t))). apply unspent_default. by rewrite Hu.
  - destruct (Flush_spec c Hc) as (c' & E & Hi & Ha & _). rewrite E. exists c'. split_and!; [done|done|].
    intros k. by rewrite Ha.
  - exists (SetBestBlock c h). split_and!; [done| |done]. destruct Hc. by split.
Qed.

Lemma run_ops_spec ops (c : Cache) m :
  cache_inv c → Forall op_proper ops → (∀ k, cache_abs c k = m k) →
  ∃ c', run_ops c ops = Some (c', (map_ops m ops).2) ∧ cache_inv c' ∧ (∀ k, cache_abs c' k = (map_ops m ops).1 k).
Proof.
  revert c m. induction ops as [|o ops IH]; intros c m Hc Hp Hm; [by exists c|].
  apply Forall_cons in Hp as [Ho Hp]. cbn [run_ops map_ops].
  destruct (run_op_spec c o m Hc Ho Hm) as (c1 & E1 & Hc1 & Hm1). rewrite E1.
  destruct (map_op m o) as [m1 out]. cbn [fst snd] in *.
  destruct (IH c1 m1 Hc1 Hp Hm1) as (c2 & E2 & Hc2 & Hm2). rewrite E2.
  destruct (map_ops m1 ops) as [m2 outs]. by exists c2.
Qed.
End theorems.

(** C12: A coins cache on any lawful view behaves as a plain map from
    transactions to their unspent coins: every sequence of reads, modifications
    (that treat pruned coins as no coins), flushes and best-block updates runs
    without a failed assertion, returns what the map returns, and a final Flush
    leaves exactly the map's coins in the view below, which stays lawful. *)
Theorem coins_cache_refines_map V (HV : CoinsView V) (HO : CoinsViewOk V) (c : CCoinsViewCache V) ops :
  cache_inv c → Forall op_proper ops →
  let '(m, outs) := map_ops (cache_abs c) ops in
  ∃ c' c'', run_ops c ops = Some (c', outs) ∧ cache_inv c' ∧ (∀ k, cache_abs c' k = m k) ∧
    Flush c' = Some (c'', true) ∧ cv_inv (base c'') ∧ (∀ k, cv_abs (base c'') k = m k) ∧
    (hash_IsNull (hashBlock c') = false → cv_best (base c'') = hashBlock c').
Proof.
  intros Hc Hp. destruct (run_ops_spec ops c (cache_abs c) Hc Hp ltac:(done)) as (c' & E & Hc' & Hm).
  destruct (map_ops (cache_abs c) ops) as [m outs]. cbn [fst snd] in *.
  destruct (Flush_spec c' Hc') as (c'' & Ef & [Hb _ _] & _ & Ha & Hbest).
  exists c', c''. split_and!; try done. intros k. by rewrite Ha.
Qed.

(** ** Inputs *)

(** The output a previous output refers to, if a view has it unspent. *)
Definition lookup_output (m : hash256 → option CCoins) (o : COutPoint) : option CTxOut :=
  match m (out_hash o) with
  | Some coins => if IsAvailable coins (out_n o) then c_vout coins !! Z.to_nat (out_n o) else None
  | None => None
  end.

Definition sum_outputs (m : hash256 → option CCoins) (ins : list CTxIn) : Z :=
  foldr (λ i n, match lookup_output m (prevout i) with Some o => nValue o + n | None => n end) 0 ins.

Section inputs_spec.
Context {V : Type} `{HV : CoinsView V, !CoinsViewReads V}.
Abbreviation Cache := (CCoinsViewCache V).

(** Pruned coins have nothing available, so they can stand for no coins. *)
Lemma IsAvailable_pruned coins n : IsPruned coins = true → IsAvailable coins n = false.
Proof.
  unfold IsPruned, IsAvailable. intros Hp. destruct (c_vout coins !! Z.to_nat n) as [o|] eqn:E; [|done].
  rewrite forallb_forall in Hp. rewrite (Hp o); [done|]. apply list_elem_of_In. by eapply list_elem_of_lookup_2.
Qed.

Lemma AccessCoins_output (c : Cache) o :
  cache_inv c →
  let '(c', r) := AccessCoins c (out_hash o) in
  cache_inv c' ∧ (∀ k, cache_abs c' k = cache_abs c k) ∧
  match r with
  | Some coins => if IsAvailable coins (out_n o) then c_vout coins !! Z.to_nat (out_n o) else None
  | None => None
  end = lookup_output (cache_abs c) o ∧
  match r with Some coins => IsAvailable coins (out_n o) | None => false end
  = bool_decide (is_Some (lookup_output (cache_abs c) o)).
Proof.
  intros Hc. unfold AccessCoins. pose proof (FetchCoins_spec c (out_hash o) Hc) as H.
  destruct (FetchCoins c (out_hash o)) as [c' r]. destruct H as (Hi & Ha & _ & _ & _ & Hr).
  unfold lookup_output. split; [done|]. split; [done|]. destruct r as [e|]; simpl; [|by rewrite Hr].
  rewrite <- Hr. unfold unspent. destruct (IsPruned (e_coins e)) eqn:Ep.
  - by rewrite IsAvailable_pruned.
  - unfold IsAvailable. destruct (c_vout (e_coins e) !! Z.to_nat (out_n o)) as [x|]; [|done].
    destruct (negb (txout_IsNull x) && negb (IsZerocoinMint (scriptPubKey x))); by split.
Qed.

Lemma HaveInputs_loop_spec ins (c : Cache) m :
  cache_inv c → (∀ k, cache_abs c k = m k) →
  let '(c', b) := HaveInputs_loop c ins in
  cache_inv c' ∧ (∀ k, cache_abs c' k = m k) ∧
  (b = true ↔ Forall (λ i, is_Some (lookup_output m (prevout i))) ins).
Proof.
  revert c. induction ins as [|i ins IH]; intros c Hc Hm; cbn [HaveInputs_loop].
  { split_and!; try done. }
  pose proof (AccessCoins_output c (prevout i) Hc) as H. destruct (AccessCoins c (out_hash (prevout i))) as [c1 r].
  destruct H as (Hc1 & Ha1 & _ & Hb).
  assert (lookup_output (cache_abs c) (prevout i) = lookup_output m (prevout i)) as El
    by (unfold lookup_output; by rewrite Hm). rewrite El in Hb.
  assert (∀ k, cache_abs c1 k = m k) as Hm1 by (intros; by rewrite Ha1).
  destruct r as [coins|].
  - destruct (IsAvailable coins (out_n (prevout i))); symmetry in Hb.
    + apply bool_decide_eq_true in Hb. specialize (IH c1 Hc1 Hm1). destruct (HaveInputs_loop c1 ins) as [c2 b].
      destruct IH as (H1 & H2 & H3). split_and!; [done|done|]. rewrite Forall_cons. naive_solver.
    + apply bool_decide_eq_false in Hb. split_and!; [done|done|]. rewrite Forall_cons. naive_solver.
  - symmetry in Hb. apply bool_decide_eq_false in Hb. split_and!; [done|done|]. rewrite Forall_cons. naive_solver.
Qed.

Lemma GetValueIn_loop_spec ins (c : Cache) m n :
  cache_inv c → (∀ k, cache_abs c k = m k) →
  Forall (λ i, ∃ o, lookup_output m (prevout i) = Some o ∧ 0 <= nValue o) ins →
  0 <= n → n + sum_outputs m ins < 2 ^ 63 →
  ∃ c', GetValueIn_loop c ins n = (c', Some (n + sum_outputs m ins)) ∧ cache_inv c'.
Proof.
  intros Hc Hm Hins. revert c n Hc Hm. induction Hins as [|i ins (o & Ho & Hv) Hins IH]; intros c n Hc Hm Hn Hs;
    cbn [GetValueIn_loop].
  { cbn. rewrite Z.add_0_r. by exists c. }
  assert (sum_outputs m (i :: ins) = nValue o + sum_outputs m ins) as Esum by (unfold sum_outputs; simpl; by rewrite Ho).
  rewrite Esum in *.
  assert (0 <= sum_outputs m ins) as Hs0.
  { clear -Hins. induction Hins as [|i ins (o & Ho & Hv) _ IH]; simpl; [done|]. rewrite Ho. fold (sum_outputs m ins). lia. }
  unfold GetOutputFor. pose proof (AccessCoins_output c (prevout i) Hc) as H.
  destruct (AccessCoins c (out_hash (prevout i))) as [c1 r]. destruct H as (Hc1 & Ha1 & Hr & _). rewrite Hr.
  assert (lookup_output (cache_abs c) (prevout i) = Some o) as -> by (rewrite <- Ho; unfold lookup_output; by rewrite Hm).
  rewrite swrap_small by (unfold in_sw; simpl in *; lia).
  destruct (IH c1 (n + nValue o) Hc1) as (c2 & E & Hc2); [intros; by rewrite Ha1|lia|lia|].
  exists c2. rewrite E. split; [|done]. do 2 f_equal. lia.
Qed.
End inputs_spec.

(** Checking and summing the inputs of a transaction against a cache:
    HaveInputs is true exactly if every previous output is unspent (and no
    zerocoin mint) in the map the cache stands for, whatever the cache holds; and
    then, for non-negative values with a sum below 2^63, GetValueIn is their sum
    and no assertion fails. *)
Theorem inputs_are_checked_against_the_map V (HV : CoinsView V) (HO : CoinsViewReads V) (c : CCoinsViewCache V) tx :
  cache_inv c → IsCoinBase tx = false → tx_IsZerocoinSpend tx = false →
  let m := cache_abs c in
  ((HaveInputs c tx).2 = true ↔ Forall (λ i, is_Some (lookup_output m (prevout i))) (vin tx)) ∧
  (Forall (λ i, ∃ o, lookup_output m (prevout i) = Some o ∧ 0 <= nValue o) (vin tx) →
   sum_outputs m (vin tx) < 2 ^ 63 → (GetValueIn c tx).2 = Some (sum_outputs m (vin tx))).
Proof.
  intros Hc Hcb Hz m. unfold HaveInputs, GetValueIn. rewrite Hcb, Hz. cbn [negb andb]. split.
  - pose proof (HaveInputs_loop_spec (vin tx) c m Hc ltac:(done)) as H.
    destruct (HaveInputs_loop c (vin tx)) as [c' b]. by destruct H as (_ & _ & H).
  - intros Hins Hs. destruct (GetValueIn_loop_spec (vin tx) c m 0 Hc ltac:(done) Hins ltac:(lia) ltac:(lia)) as (c' & E & _).
    by rewrite E.
Qed.

(** ** Witnesses *)

Lemma new_cache_inv {V} `{HV : CoinsView V, !CoinsViewReads V} (v : V) : cv_inv v → cache_inv (new_cache v).
Proof. intros Hv. split; [done| |done]. intros k e. cbn. by rewrite lookup_empty. Qed.

Definition ex_key : hash256 := replicate 32 7.
Definition ex_old_coins : CCoins := mkCoins false false [null_txout; new_txout 500 [OP_DUP]] 3 1.
Definition ex_db : CCoinsViewDB := mkDB {[ ex_key := ex_old_coins ]} None.

Lemma ex_db_ok : db_ok ex_db.
Proof.
  intros k c Hk. cbn in Hk. apply lookup_singleton_Some in Hk as [_ <-]. reflexivity.
Qed.

(** A cache on a cache on the database. *)
Definition ex_view : CCoinsViewCache (CCoinsViewCache CCoinsViewDB) := new_cache (new_cache ex_db).

Lemma ex_view_inv : cache_inv ex_view.
Proof. apply new_cache_inv. apply (new_cache_inv (V := CCoinsViewDB)). exact ex_db_ok. Qed.

Lemma coins_cache_refines_map_witness :
  ∃ c' c'',
    run_ops ex_view [OpGet ex_key; OpModify ex_key (λ _, FromTx ex_tx 9); OpFlush; OpGet ex_key]
    = Some (c', [Some ex_old_coins; Some (FromTx ex_tx 9)]) ∧
    Flush c' = Some (c'', true) ∧ cache_abs (base c'') ex_key = Some (FromTx ex_tx 9).
Proof.
  pose proof (coins_cache_refines_map _ _ cache_ok ex_view
    [OpGet ex_key; OpModify ex_key (λ _, FromTx ex_tx 9); OpFlush; OpGet ex_key] ex_view_inv) as H.
  destruct H as (c' & c'' & H1 & _ & _ & H4 & _ & H6 & _); [repeat constructor|].
  exists c', c''. split; [exact H1|]. split; [exact H4|]. exact (H6 ex_key).
Defined.

Lemma inputs_are_checked_against_the_map_witness :
  (HaveInputs ex_view ex_tx).2 = true ∧ (GetValueIn ex_view ex_tx).2 = Some 500.
Proof.
  destruct (inputs_are_checked_against_the_map _ _ _ ex_view ex_tx ex_view_inv eq_refl eq_refl) as [H1 H2].
  split.
  - apply H1. constructor; [|constructor]. eexists. vm_compute. reflexivity.
  - apply H2; [|vm_compute; reflexivity]. constructor; [|constructor].
    exists (new_txout 500 [OP_DUP]). split; [vm_compute; reflexivity|simpl; lia].
Defined.
