(* ===== verification/Connect.v ===== *)
(** * main.cpp: connecting and disconnecting the coins of a block

    UpdateCoins, the loop of ConnectBlock that calls it, and DisconnectBlock,
    on a coins cache. The undo data is an argument of the latter; reading it
    from disk is not modelled. [None] is a failed assertion. *)

From S2P Require Import Prelude Serialize Uint256 Params Script Digest Hashes Interp Tx SigHash Compressor Coins CoinsView.

(** The undo data of the inputs of a transaction. *)
Abbreviation CTxUndo := (list CTxInUndo).

(** [mapStakeSpent]: the stakes of recent blocks, by outpoint. *)
Abbreviation StakeSpent := (list (COutPoint * Z)).
Definition stake_erase (m : StakeSpent) (o : COutPoint) : StakeSpent := filter (λ p, p.1 ≠ o) m.

Section connect.
Context {V : Type} `{CoinsView V}.
Abbreviation Cache := (CCoinsViewCache V).

(** [->Spend(out, undo)]. *)
Definition spend_coins (out : COutPoint) (coins : CCoins) : CCoins * option CTxInUndo :=
  match Spend coins out with
  | Some (coins, undo) => (coins, Some undo)
  | None => (coins, None)
  end.

(** Mark the inputs spent; the undo entries in the order of the inputs. *)
Fixpoint spend_inputs (c : Cache) (ins : list CTxIn) : option (Cache * CTxUndo) :=
  match ins with
  | [] => Some (c, [])
  | txin :: ins =>
      match Modify c (out_hash (prevout txin)) (spend_coins (prevout txin)) with
      | Some (c, Some undo) =>
          match spend_inputs c ins with
          | Some (c, undos) => Some (c, undo :: undos)
          | None => None
          end
      | _ => None
      end
  end.

Definition UpdateCoins (c : Cache) (tx : CTransaction) (nHeight : Z) : option (Cache * CTxUndo) :=
  match (if negb (IsCoinBase tx) then spend_inputs c (vin tx) else Some (c, [])) with
  | None => None
  | Some (c, undo) =>
      match Modify c (tx_hash tx) (λ _, (FromTx tx nHeight, ())) with
      | Some (c, _) => Some (c, undo)
      | None => None
      end
  end.

(** [nFees], [nValueIn] and [nValueOut] of ConnectBlock. *)
Record Amounts := mkAmounts { nFees : Z; nValueIn : Z; nValueOut : Z }.

(** What the loop of ConnectBlock returns or throws. *)
Inductive connect_error :=
| PoSEarly | PoWEnded | OverwritesTransaction | InputsMissingOrSpent | ValueOutThrown (e : value_error).

(** The inputs of a transaction that is no coinbase, and what they are worth. *)
Definition check_inputs (c : Cache) (tx : CTransaction) (a : Amounts)
    : option (result connect_error (Cache * Amounts)) :=
  if IsCoinBase tx then Some (Ok (c, a))
  else
    let '(c, have) := HaveInputs c tx in
    if negb have then Some (Throw InputsMissingOrSpent)
    else match GetValueIn c tx with
         | (c, Some v) =>
             if negb (IsCoinStake tx)
             then match GetValueOut tx with
                  | Ok o => Some (Ok (c, mkAmounts (s64 (nFees a + (v - o))) (s64 (nValueIn a + v)) (nValueOut a)))
                  | Throw e => Some (Throw (ValueOutThrown e))
                  end
             else Some (Ok (c, mkAmounts (nFees a) (s64 (nValueIn a + v)) (nValueOut a)))
         | (_, None) => None
         end.

(** One turn of the loop. *)
Definition connect_tx (c : Cache) (tx : CTransaction) (nHeight : Z) (a : Amounts)
    : option (result connect_error (Cache * CTxUndo * Amounts)) :=
  match check_inputs c tx a with
  | None => None
  | Some (Throw e) => Some (Throw e)
  | Some (Ok (c, a)) =>
      match GetValueOut tx with
      | Throw e => Some (Throw (ValueOutThrown e))
      | Ok o => match UpdateCoins c tx nHeight with
                | None => None
                | Some (c, undo) => Some (Ok (c, undo, mkAmounts (nFees a) (nValueIn a) (s64 (nValueOut a + o))))
                end
      end
  end.

(** The loop; the undo data of the first transaction goes to [undoDummy]. *)
Fixpoint connect_txs (c : Cache) (txs : list CTransaction) (nHeight : Z) (a : Amounts)
    : option (result connect_error (Cache * list CTxUndo * Amounts)) :=
  match txs with
  | [] => Some (Ok (c, [], a))
  | tx :: txs =>
      match connect_tx c tx nHeight a with
      | None => None
      | Some (Throw e) => Some (Throw e)
      | Some (Ok (c, undo, a)) =>
          match connect_txs c txs nHeight a with
          | Some (Ok (c, undos, a)) => Some (Ok (c, undo :: undos, a))
          | r => r
          end
      end
  end.

(** Does a transaction overwrite coins that are not all spent? *)
Fixpoint overwrites (c : Cache) (txs : list CTransaction) : Cache * bool :=
  match txs with
  | [] => (c, false)
  | tx :: txs =>
      let '(c, r) := AccessCoins c (tx_hash tx) in
      match r with
      | Some coins => if negb (IsPruned coins) then (c, true) else overwrites c txs
      | None => overwrites c txs
      end
  end.

(** [mapStakeSpent.insert]: an old entry stays. *)
Definition stake_insert (m : StakeSpent) (o : COutPoint) (nHeight : Z) : StakeSpent :=
  if existsb (λ p, bool_decide (p.1 = o)) m then m else (o, nHeight) :: m.

Definition stake_add_tx (nHeight : Z) (m : StakeSpent) (tx : CTransaction) : StakeSpent :=
  if IsCoinBase tx then m else foldl (λ m i, stake_insert m (prevout i) nHeight) m (vin tx).

Definition stake_update (params : CChainParams) (m : StakeSpent) (vtx : list CTransaction) (nHeight : Z) : StakeSpent :=
  filter (λ p, nHeight - nMaxReorganizationDepth params <= p.2) (foldl (stake_add_tx nHeight) m vtx).

(** [IsProofOfStake] of a block. *)
Definition block_IsProofOfStake (vtx : list CTransaction) : bool :=
  match vtx with _ :: tx :: _ => IsCoinStake tx | _ => false end.

(** The block is its transactions, its hash and that of the previous block;
    [fIndexed] is [pindex->phashBlock != NULL]. *)
Definition ConnectBlock (params : CChainParams) (hashGenesis : hash256) (c : Cache) (vtx : list CTransaction)
    (hash hashPrev : hash256) (fIndexed : bool) (nHeight : Z) (stake : StakeSpent)
    : option (result connect_error (Cache * list CTxUndo * Amounts * StakeSpent)) :=
  let '(c, best) := cache_GetBestBlock c in
  if negb (bool_decide (hashPrev = best)) then None
  else if bool_decide (hash = hashGenesis) then Some (Ok (SetBestBlock c hash, [], mkAmounts 0 0 0, stake))
  else if (nHeight <=? nLastPOWBlock params) && block_IsProofOfStake vtx then Some (Throw PoSEarly)
  else if (nLastPOWBlock params <? nHeight) && negb (block_IsProofOfStake vtx) then Some (Throw PoWEnded)
  else
    let '(c, bad) := if negb fIndexed then overwrites c vtx else (c, false) in
    if bad then Some (Throw OverwritesTransaction)
    else match connect_txs c vtx nHeight (mkAmounts 0 0 0) with
         | Some (Ok (c, undos, a)) =>
             Some (Ok (SetBestBlock c hash, drop 1 undos, a, stake_update params stake vtx nHeight))
         | Some (Throw e) => Some (Throw e)
         | None => None
         end.

(** ** DisconnectBlock *)

(** The outputs of a transaction: are they what the block created? Then clear. *)
Definition remove_outputs (tx : CTransaction) (nHeight : Z) (outs : CCoins) : CCoins * bool :=
  let outs := ClearUnspendable outs in
  let outsBlock := FromTx tx nHeight in
  let outs := if c_nVersion outsBlock <? 0
              then mkCoins (fCoinBase outs) (fCoinStake outs) (c_vout outs) (c_nHeight outs) (c_nVersion outsBlock)
              else outs in
  (Clear outs, coins_eq outs outsBlock).

(** An input: the spent output comes back. *)
Definition restore_coins (out : COutPoint) (undo : CTxInUndo) (coins : CCoins) : CCoins * bool :=
  let '(coins, fClean) :=
    if negb (u_nHeight undo =? 0)
    then (mkCoins (u_fCoinBase undo) (fCoinStake (Clear coins)) (c_vout (Clear coins)) (u_nHeight undo) (u_nVersion undo),
          IsPruned coins)
    else (coins, negb (IsPruned coins)) in
  let fClean := fClean && negb (IsAvailable coins (out_n out)) in
  let n := Z.to_nat (out_n out) in
  let v := if (length (c_vout coins) <? n + 1)%nat
           then c_vout coins ++ replicate (n + 1 - length (c_vout coins)) null_txout
           else c_vout coins in
  (with_vout coins (<[n := u_txout undo]> v), fClean).

(** [for (unsigned int j = tx.vin.size(); j-- > 0;)]: [ins] from the last one. *)
Fixpoint restore_inputs (c : Cache) (ins : list (CTxIn * CTxInUndo)) (fClean : bool) (stake : StakeSpent)
    : option (Cache * bool * StakeSpent) :=
  match ins with
  | [] => Some (c, fClean, stake)
  | (txin, undo) :: ins =>
      let out := prevout txin in
      match Modify c (out_hash out) (restore_coins out undo) with
      | Some (c, b) => restore_inputs c ins (fClean && b) (stake_erase stake out)
      | None => None
      end
  end.

(** What DisconnectBlock can return early. *)
Inductive disconnect_error := UndoInconsistent | TxUndoInconsistent.

Definition disconnect_tx (c : Cache) (tx : CTransaction) (undo : CTxUndo) (nHeight : Z) (fClean : bool)
    (stake : StakeSpent) : option (result disconnect_error (Cache * bool * StakeSpent)) :=
  match Modify c (tx_hash tx) (remove_outputs tx nHeight) with
  | None => None
  | Some (c, b) =>
      let fClean := fClean && b in
      if negb (IsCoinBase tx)
      then if negb (length undo =? length (vin tx))%nat then Some (Throw TxUndoInconsistent)
           else match restore_inputs c (rev (zip (vin tx) undo)) fClean stake with
                | Some r => Some (Ok r)
                | None => None
                end
      else Some (Ok (c, fClean, stake))
  end.

(** [for (int i = block.vtx.size() - 1; i >= 0; i--)]: transactions with their
    undo data, from the last one. *)
Fixpoint disconnect_txs (c : Cache) (txs : list (CTransaction * CTxUndo)) (nHeight : Z) (fClean : bool)
    (stake : StakeSpent) : option (result disconnect_error (Cache * bool * StakeSpent)) :=
  match txs with
  | [] => Some (Ok (c, fClean, stake))
  | (tx, undo) :: txs =>
      match disconnect_tx c tx undo nHeight fClean stake with
      | Some (Ok (c, fClean, stake)) => disconnect_txs c txs nHeight fClean stake
      | r => r
      end
  end.

(** The block is its transactions, its hash and that of the previous block. *)
Definition DisconnectBlock (c : Cache) (vtx : list CTransaction) (vtxundo : list CTxUndo) (hash hashPrev : hash256)
    (nHeight : Z) (stake : StakeSpent) : option (result disconnect_error (Cache * bool * StakeSpent)) :=
  let '(c, best) := cache_GetBestBlock c in
  if negb (bool_decide (hash = best)) then None
  else if negb (length vtxundo + 1 =? length vtx)%nat then Some (Throw UndoInconsistent)
  else match disconnect_txs c (rev (zip vtx ([] :: vtxundo))) nHeight true stake with
       | Some (Ok (c, fClean, stake)) => Some (Ok (SetBestBlock c hashPrev, fClean, stake))
       | r => r
       end.
End connect.

(** ** Spending an output and giving it back *)

(** What is lost when the last output of a coinstake comes back. *)
Definition forget_stake (c : CCoins) : CCoins := mkCoins (fCoinBase c) false (c_vout c) (c_nHeight c) (c_nVersion c).

(** Coins as a node keeps them. *)
Record good_coins (c : CCoins) : Prop := {
  gc_clean : clean_vout (c_vout c) = c_vout c;
  gc_nulls : Forall (λ o, txout_IsNull o = true → o = null_txout) (c_vout c);
  gc_height : c_nHeight c ≠ 0
}.

Lemma clean_vout_split l :
  Forall (λ o, txout_IsNull o = true → o = null_txout) l →
  ∃ j, l = clean_vout l ++ replicate j null_txout.
Proof.
  induction l as [|o l IH] using rev_ind; intros Hl; [by exists 0%nat|].
  apply Forall_app in Hl as [Hl Ho]. rewrite Forall_singleton in Ho.
  destruct (txout_IsNull o) eqn:E.
  - destruct (IH Hl) as [j Hj]. exists (S j). rewrite (Ho eq_refl).
    change [null_txout] with (replicate 1 null_txout). rewrite clean_vout_app_nulls.
    replace (S j) with (j + 1)%nat by lia. by rewrite replicate_add, app_assoc, <- Hj.
  - exists 0%nat. rewrite app_nil_r. symmetry. apply clean_vout_last. intros o'. rewrite last_snoc. by intros [= <-].
Qed.

Lemma clean_vout_nulls l P : Forall P l → Forall P (clean_vout l).
Proof.
  rewrite !Forall_forall. intros Hl o Ho. apply Hl. revert Ho. unfold clean_vout.
  rewrite !list_elem_of_In, <- in_rev, (in_rev l).
  induction (rev l) as [|x r IH]; cbn [pop_nulls]; [done|]. destruct (txout_IsNull x); [|done]. right. auto.
Qed.

Lemma clean_vout_idemp l : clean_vout (clean_vout l) = clean_vout l.
Proof.
  apply clean_vout_last. unfold clean_vout. induction (rev l) as [|o r IH]; cbn [pop_nulls]; [done|].
  destruct (txout_IsNull o) eqn:E; [done|]. intros o'. cbn [rev]. rewrite last_snoc. by intros [= <-].
Qed.

(** The vector of outputs is what it was. *)
Lemma vout_restored l n o l' :
  clean_vout l = l → Forall (λ o, txout_IsNull o = true → o = null_txout) l →
  l !! n = Some o → clean_vout (<[n := null_txout]> l) = l' →
  <[n := o]> (l' ++ replicate (n + 1 - length l') null_txout) = l.
Proof.
  intros Hc Hn Ho Hl'. pose proof (lookup_lt_Some _ _ _ Ho) as Hlt.
  destruct (clean_vout_split (<[n := null_txout]> l)) as [j Hj].
  { apply Forall_insert; done. }
  rewrite Hl' in Hj. pose proof (f_equal length Hj) as Hlen.
  rewrite length_insert, length_app, length_replicate in Hlen.
  assert (replicate (n + 1 - length l') null_txout = replicate j null_txout) as ->.
  { f_equal. destruct j as [|j]; [lia|]. enough (length l = n + 1)%nat by lia.
    destruct (decide (n = length l - 1)%nat) as [|Hne]; [lia|]. exfalso.
    assert (last (<[n := null_txout]> l) = last l) as Hlast.
    { rewrite !last_lookup, length_insert. rewrite list_lookup_insert_ne by lia. done. }
    rewrite Hj, replicate_S_end, app_assoc, last_snoc in Hlast.
    symmetry in Hlast. by apply (proj1 (clean_vout_last l) Hc) in Hlast. }
  rewrite <- Hj, list_insert_insert_eq. by apply list_insert_id.
Qed.

Lemma Cleanup_good c : good_coins c → Cleanup c = c.
Proof. intros [H _ _]. unfold Cleanup. rewrite H. by destruct c. Qed.

Lemma clean_IsPruned c : clean_vout (c_vout c) = c_vout c → IsPruned c = (length (c_vout c) =? 0)%nat.
Proof.
  intros Hc. pose proof (IsPruned_clean _ Hc) as H. unfold IsPruned.
  destruct (c_vout c) as [|o l]; [done|]. cbn [length Nat.eqb]. by apply H.
Qed.

Lemma good_unspent c : good_coins c → c_vout c ≠ [] → unspent c = Some c.
Proof.
  intros Hg Hc. unfold unspent. rewrite (clean_IsPruned c (gc_clean _ Hg)). by destruct (c_vout c).
Qed.

(** Spend, as a statement. *)
Lemma Spend_inv c out c' u :
  Spend c out = Some (c', u) →
  ∃ o, c_vout c !! Z.to_nat (out_n out) = Some o ∧ txout_IsNull o = false ∧
    c' = with_vout c (clean_vout (<[Z.to_nat (out_n out) := null_txout]> (c_vout c))) ∧
    u = if (length (c_vout c') =? 0)%nat
        then mkUndo o (fCoinBase c) (fCoinStake c) (c_nHeight c) (c_nVersion c) else new_undo o.
Proof.
  unfold Spend. destruct (c_vout c !! Z.to_nat (out_n out)) as [o|]; [|done].
  destruct (txout_IsNull o) eqn:E; [done|]. intros [= <- <-]. by exists o.
Qed.

Lemma Spend_good c out c' u : good_coins c → Spend c out = Some (c', u) → good_coins c'.
Proof.
  intros [Hc Hn Hh] HS. destruct (Spend_inv _ _ _ _ HS) as (o & _ & _ & -> & _).
  split; cbn [with_vout c_vout c_nHeight]; [apply clean_vout_idemp| |done].
  apply clean_vout_nulls. by apply Forall_insert.
Qed.

(** The output that was spent is not available any more. *)
Lemma Spend_unavailable c out c' u :
  good_coins c → Spend c out = Some (c', u) → ∀ o, c_vout c' !! Z.to_nat (out_n out) = Some o → o = null_txout.
Proof.
  intros Hg HS x Ex. destruct (Spend_inv _ _ _ _ HS) as (o & Eo & _ & -> & _). cbn [with_vout c_vout] in Ex.
  set (n := Z.to_nat (out_n out)) in *.
  destruct (clean_vout_split (<[n := null_txout]> (c_vout c))) as [j Hj]; [apply Forall_insert; [apply Hg|done]|].
  assert ((<[n := null_txout]> (c_vout c)) !! n = Some x) as H1 by (rewrite Hj; by apply lookup_app_l_Some).
  rewrite list_lookup_insert_eq in H1 by (by eapply lookup_lt_Some). by injection H1 as <-.
Qed.

(** Coins that the spent ones may have become, up to the stake flag. *)
Definition like (a b : option CCoins) : Prop := forget_stake <$> a = forget_stake <$> b.

Lemma like_Some a c : like a (Some c) → ∃ b, a = Some b ∧ forget_stake b = forget_stake c.
Proof. unfold like. destruct a as [b|]; [|done]. simpl. intros [= ? ? ? ?]. exists b. split; [done|]. unfold forget_stake. by f_equal. Qed.

(** The end of DisconnectBlock's work on an input: room for the output, then
    the output itself. *)
Lemma refill_spend c out c' u cs :
  good_coins c → Spend c out = Some (c', u) →
  fCoinBase cs = fCoinBase c → c_vout cs = c_vout c' → c_nHeight cs = c_nHeight c → c_nVersion cs = c_nVersion c →
  let n := Z.to_nat (out_n out) in
  let z := with_vout cs (<[n := u_txout u]> (if (length (c_vout cs) <? n + 1)%nat
     then c_vout cs ++ replicate (n + 1 - length (c_vout cs)) null_txout else c_vout cs)) in
  unspent (Cleanup z) = Some z ∧ forget_stake z = forget_stake c ∧ (fCoinStake cs = fCoinStake c → z = c).
Proof.
  intros Hg HS E1 E2 E3 E4 n z. destruct (Spend_inv _ _ _ _ HS) as (o & Eo & _ & Ec & Eu).
  assert (c_vout z = c_vout c) as Ez.
  { unfold z. cbn [with_vout c_vout]. rewrite E2.
    assert (u_txout u = o) as -> by (rewrite Eu; by destruct (length (c_vout c') =? 0)%nat).
    rewrite <- (vout_restored (c_vout c) n o (c_vout c') (gc_clean _ Hg) (gc_nulls _ Hg) Eo) by (by rewrite Ec).
    f_equal. destruct (Nat.ltb_spec (length (c_vout c')) (n + 1)); [done|].
    replace (n + 1 - length (c_vout c'))%nat with 0%nat by lia. by rewrite app_nil_r. }
  assert (good_coins z) as Hgz by (split; rewrite ?Ez; [apply Hg|apply Hg|]; unfold z; cbn; rewrite E3; apply Hg).
  split; [|split].
  - rewrite (Cleanup_good z Hgz). apply good_unspent; [done|]. rewrite Ez. intros Hnil. by rewrite Hnil in Eo.
  - unfold forget_stake. rewrite Ez. unfold z. cbn. by rewrite E1, E3, E4.
  - intros E5. assert (z = mkCoins (fCoinBase z) (fCoinStake z) (c_vout z) (c_nHeight z) (c_nVersion z)) as -> by done.
    rewrite Ez. unfold z. cbn. rewrite E1, E3, E4, E5. by destruct c.
Qed.

Lemma unspent_Some c d : unspent c = Some d → d = c ∧ IsPruned c = false.
Proof. unfold unspent. destruct (IsPruned c); [done|]. by intros [= ->]. Qed.

(** The undo data gives back what Spend took, with no complaint. *)
Lemma restore_spend c out c' u y :
  good_coins c → Spend c out = Some (c', u) → like (unspent y) (unspent c') →
  let '(z, fClean) := restore_coins out u y in
  fClean = true ∧ unspent (Cleanup z) = Some z ∧ forget_stake z = forget_stake c ∧
  (fCoinStake c = false → unspent y = unspent c' → z = c).
Proof.
  intros Hg HS Hy. pose proof (Spend_good c out c' u Hg HS) as Hg'.
  pose proof (Spend_unavailable c out c' u Hg HS) as Hun.
  pose proof (λ cs, refill_spend c out c' u cs Hg HS) as Hz.
  destruct (Spend_inv _ _ _ _ HS) as (o & _ & _ & Ec & Eu).
  pose proof (clean_IsPruned c' (gc_clean _ Hg')) as Hp. unfold restore_coins.
  destruct (length (c_vout c') =? 0)%nat eqn:El; rewrite Eu in *; cbn [u_nHeight u_fCoinBase u_nVersion u_txout new_undo] in *.
  - rewrite (proj2 (Z.eqb_neq _ _) (gc_height _ Hg)). cbn [negb fCoinStake Clear empty_coins c_vout].
    apply Nat.eqb_eq, length_zero_iff_nil in El. unfold unspent in Hy. rewrite Hp in Hy.
    destruct (Hz (mkCoins (fCoinBase c) false [] (c_nHeight c) (c_nVersion c)) eq_refl (eq_sym El) eq_refl eq_refl)
      as (H1 & H2 & H3). split_and!; [|exact H1|exact H2|].
    + unfold like in Hy. destruct (IsPruned y); [|done]. unfold IsAvailable. cbn [c_vout andb]. by rewrite lookup_nil.
    + intros Hst _. apply H3. by rewrite Hst.
  - change (0 =? 0) with true. cbn [negb].
    assert (unspent c' = Some c') as Eu' by (unfold unspent; by rewrite Hp).
    rewrite Eu' in Hy. destruct (like_Some _ _ Hy) as (y' & Ey & [= F1 F2 F3 F4]).
    destruct (unspent_Some _ _ Ey) as [-> Hpy].
    destruct (Hz y) as (H1 & H2 & H3); [rewrite Ec in *; cbn in *; congruence..|]. split_and!; [|exact H1|exact H2|].
    + rewrite Hpy. cbn [negb andb]. unfold IsAvailable. rewrite F2.
      destruct (c_vout c' !! _) as [x|] eqn:Ex; [|done]. by rewrite (Hun x eq_refl).
    + rewrite Ey, Eu'. intros _ [= ->]. apply H3. by rewrite Ec.
Qed.

(** ** Adding the outputs of a transaction and taking them away *)

Definition spendable (o : CTxOut) : CTxOut := if IsUnspendable (scriptPubKey o) then null_txout else o.

Lemma FromTx_vout tx h : c_vout (FromTx tx h) = clean_vout (map spendable (vout tx)).
Proof. done. Qed.

Lemma ClearUnspendable_eq c : ClearUnspendable c = with_vout c (clean_vout (map spendable (c_vout c))).
Proof. done. Qed.

Lemma spendable_idemp o : spendable (spendable o) = spendable o.
Proof. unfold spendable at 2 3. destruct (IsUnspendable (scriptPubKey o)) eqn:E; [done|]. unfold spendable. by rewrite E. Qed.

Lemma clean_spendable l : map spendable (clean_vout (map spendable l)) = clean_vout (map spendable l).
Proof.
  assert (Forall (λ o, spendable o = o) (clean_vout (map spendable l))) as H.
  { apply clean_vout_nulls, Forall_forall. intros o Ho. apply list_elem_of_fmap in Ho as (x & -> & _).
    apply spendable_idemp. }
  induction H as [|o k Ho Hk IH]; simpl; [done|]. by rewrite Ho, IH.
Qed.

Lemma FromTx_good tx h :
  Forall (λ o, txout_IsNull o = false) (vout tx) → h ≠ 0 → good_coins (FromTx tx h).
Proof.
  intros Hv Hh. split; [apply clean_vout_idemp| |done]. rewrite FromTx_vout.
  apply clean_vout_nulls, Forall_forall. intros o Ho. apply list_elem_of_fmap in Ho as (x & -> & Hx).
  rewrite Forall_forall in Hv. unfold spendable. destruct (IsUnspendable _); [done|]. by rewrite (Hv x Hx).
Qed.

Lemma ClearUnspendable_pruned c : IsPruned c = true → IsPruned (ClearUnspendable c) = true.
Proof.
  unfold ClearUnspendable. rewrite IsPruned_Cleanup. unfold IsPruned. cbn [with_vout c_vout].
  rewrite !forallb_forall. intros H o Ho. apply in_map_iff in Ho as (x & <- & Hx).
  destruct (IsUnspendable _); [done|auto].
Qed.

(** DisconnectBlock finds the outputs the block made as it made them. *)
Lemma remove_outputs_spec tx h y :
  unspent (Cleanup (remove_outputs tx h y).1) = None ∧
  (unspent y = unspent (FromTx tx h) → (remove_outputs tx h y).2 = true).
Proof.
  split; [done|]. unfold remove_outputs. cbn [snd]. intros Hy. apply coins_eq_equiv.
  destruct (IsPruned (FromTx tx h)) eqn:Ep; unfold unspent in Hy; rewrite Ep in Hy.
  - assert (IsPruned y = true) as Hp by (by destruct (IsPruned y)). apply ClearUnspendable_pruned in Hp.
    unfold equiv, CCoins_equiv, unspent. rewrite Ep.
    destruct (c_nVersion (FromTx tx h) <? 0); [|by rewrite Hp]. unfold IsPruned in *. cbn [c_vout]. by rewrite Hp.
  - assert (y = FromTx tx h) as -> by (destruct (IsPruned y); [done|]; by injection Hy).
    assert (ClearUnspendable (FromTx tx h) = FromTx tx h) as ->.
    { rewrite ClearUnspendable_eq, FromTx_vout, clean_spendable, clean_vout_idemp. done. }
    destruct (c_nVersion (FromTx tx h) <? 0); [|done]. by destruct (FromTx tx h).
Qed.

(** ** On a cache *)

Section reading.
Context {V : Type} `{HV : CoinsView V, !CoinsViewReads V}.
Abbreviation Cache := (CCoinsViewCache V).

(** Reading fills a cache and changes nothing else. *)
Definition quiet (c c' : Cache) : Prop :=
  cache_inv c' ∧ (∀ k, cache_abs c' k = cache_abs c k) ∧ cache_best c' = cache_best c.

Lemma quiet_trans c c1 c2 : quiet c c1 → quiet c1 c2 → quiet c c2.
Proof. intros (H1 & H2 & H3) (H4 & H5 & H6). split_and!; [done|intros; by rewrite H5|by rewrite H6]. Qed.

Lemma AccessCoins_quiet (c : Cache) t : cache_inv c → quiet c (AccessCoins c t).1.
Proof.
  intros Hc. unfold AccessCoins. pose proof (FetchCoins_spec c t Hc) as H. destruct (FetchCoins c t) as [c' r].
  cbn [fst]. by destruct H as (H1 & H2 & H3 & _).
Qed.

Lemma HaveInputs_quiet (c : Cache) tx : cache_inv c → quiet c (HaveInputs c tx).1.
Proof.
  unfold HaveInputs. destruct (_ && _); [|done]. revert c.
  induction (vin tx) as [|i ins IH]; intros c Hc; cbn [HaveInputs_loop]; [done|].
  pose proof (AccessCoins_quiet c (out_hash (prevout i)) Hc) as Hq. destruct (AccessCoins c _) as [c1 r]. cbn [fst] in Hq.
  destruct r as [coins|]; [|done]. destruct (IsAvailable _ _); [|done].
  eapply quiet_trans; [done|]. apply IH, Hq.
Qed.

Lemma GetValueIn_quiet (c : Cache) tx : cache_inv c → quiet c (GetValueIn c tx).1.
Proof.
  unfold GetValueIn. destruct (IsCoinBase tx); [done|]. generalize 0. revert c.
  induction (vin tx) as [|i ins IH]; intros c n Hc; cbn [GetValueIn_loop]; [done|].
  assert (quiet c (GetOutputFor c i).1) as Hq.
  { unfold GetOutputFor. pose proof (AccessCoins_quiet c (out_hash (prevout i)) Hc). by destruct (AccessCoins c _). }
  destruct (GetOutputFor c i) as [c1 [o|]]; [|done].
  eapply quiet_trans; [done|]. apply IH, Hq.
Qed.

Lemma check_inputs_quiet (c c' : Cache) tx a a' :
  cache_inv c → check_inputs c tx a = Some (Ok (c', a')) → quiet c c'.
Proof.
  intros Hc. unfold check_inputs. destruct (IsCoinBase tx); [by intros [= <- _]|].
  pose proof (HaveInputs_quiet c tx Hc) as Hq. destruct (HaveInputs c tx) as [c1 b]. cbn [fst] in Hq.
  destruct b; [|done]. cbn [negb]. pose proof (GetValueIn_quiet c1 tx (proj1 Hq)) as Hq2.
  destruct (GetValueIn c1 tx) as [c2 [v|]]; [|done]. cbn [fst] in Hq2.
  destruct (IsCoinStake tx); cbn [negb].
  - intros [= <- _]. by eapply quiet_trans.
  - destruct (GetValueOut tx); intros [= <- _]; by eapply quiet_trans.
Qed.

Lemma GetBestBlock_quiet (c : Cache) :
  cache_inv c → quiet c (cache_GetBestBlock c).1 ∧ (cache_GetBestBlock c).2 = cache_best c.
Proof.
  intros Hc. pose proof (cv_block c Hc) as H. cbn [GetBestBlock cache_view] in H.
  destruct (cache_GetBestBlock c) as [c' h]. destruct H as (H1 & H2 & H3 & _ & H5). by split.
Qed.

Lemma overwrites_quiet txs (c : Cache) : cache_inv c → quiet c (overwrites c txs).1.
Proof.
  revert c. induction txs as [|tx txs IH]; intros c Hc; cbn [overwrites]; [done|].
  pose proof (AccessCoins_quiet c (tx_hash tx) Hc) as Hq. destruct (AccessCoins c _) as [c1 r]. cbn [fst] in Hq.
  destruct r as [coins|]; [destruct (IsPruned coins); cbn [negb]|]; [|done|];
    (eapply quiet_trans; [done|apply IH, Hq]).
Qed.
End reading.

Section undo.
Context {V : Type} `{HV : CoinsView V, !CoinsViewOk V}.
Abbreviation Cache := (CCoinsViewCache V).

(** The transactions whose coins come back exactly, and those that are known not
    to be coinstakes. *)
Variables exact nostake : hash256 → Prop.

Definition tracked (m : hash256 → option CCoins) : Prop :=
  ∀ k x, m k = Some x → good_coins x ∧ (nostake k → fCoinStake x = false).

Definition same (m m' : hash256 → option CCoins) : Prop := ∀ k, like (m k) (m' k) ∧ (exact k → m k = m' k).

Lemma same_at t (m m' : hash256 → option CCoins) :
  like (m t) (m' t) → (exact t → m t = m' t) → (∀ k, k ≠ t → like (m k) (m' k) ∧ (exact k → m k = m' k)) → same m m'.
Proof. intros H1 H2 H k. destruct (decide (k = t)) as [->|Hk]; [done|auto]. Qed.

Lemma Spend_not_pruned c out r : Spend c out = Some r → IsPruned c = false.
Proof.
  destruct r as [c' u]. intros H. destruct (Spend_inv _ _ _ _ H) as (o & E & En & _). apply not_true_iff_false.
  unfold IsPruned. rewrite forallb_forall. intros Hp. rewrite (Hp o) in En; [done|].
  apply list_elem_of_In. by eapply list_elem_of_lookup_2.
Qed.

(** An input is spent, and later given back to any cache with the same coins. *)
Lemma spend_step (c : Cache) out c1 u :
  let t := out_hash out in
  cache_inv c → tracked (cache_abs c) → (exact t → nostake t) →
  Modify c t (spend_coins out) = Some (c1, Some u) →
  cache_inv c1 ∧ tracked (cache_abs c1) ∧ cache_best c1 = cache_best c ∧
  (∀ k, cache_abs c k = None → cache_abs c1 k = None) ∧
  ∀ d : Cache, cache_inv d → same (cache_abs d) (cache_abs c1) →
  ∃ d', Modify d t (restore_coins out u) = Some (d', true) ∧ cache_inv d' ∧ cache_best d' = cache_best d ∧
    same (cache_abs d') (cache_abs c).
Proof.
  intros t Hc Ht Hen HM.
  destruct (Modify_spec c t (spend_coins out) Hc) as (coins & c1' & Hu & HM' & Hc1 & Hb1 & Hat & Hne).
  rewrite HM in HM'. injection HM' as <- Hr. unfold spend_coins in Hr, Hat.
  destruct (Spend coins out) as [[coins' u']|] eqn:HS; [|done]. cbn [fst snd] in Hr, Hat. injection Hr as <-.
  assert (cache_abs c t = Some coins) as Ec by (rewrite <- Hu; unfold unspent; by rewrite (Spend_not_pruned _ _ _ HS)).
  destruct (Ht t coins Ec) as [Hg Hst]. pose proof (Spend_good _ _ _ _ Hg HS) as Hg'.
  rewrite (Cleanup_good _ Hg') in Hat.
  split; [done|]. split; [|split; [done|split]].
  - intros k x. destruct (decide (k = t)) as [->|Hk]; [|rewrite Hne by done; apply Ht].
    rewrite Hat. intros Hx. destruct (unspent_Some _ _ Hx) as [-> _]. split; [done|].
    intros Hn. destruct (Spend_inv _ _ _ _ HS) as (o & _ & _ & -> & _). cbn. auto.
  - intros k. destruct (decide (k = t)) as [->|Hk]; [by rewrite Ec|by rewrite Hne].
  - intros d Hd Hsame. destruct (Modify_spec d t (restore_coins out u) Hd) as (y & d' & Hy & HMd & Hd' & Hbd & Hatd & Hned).
    destruct (Hsame t) as [Hl Hx]. rewrite Hat, <- Hy in Hl. rewrite Hat, <- Hy in Hx.
    pose proof (restore_spend _ _ _ _ y Hg HS Hl) as Hrs. destruct (restore_coins out u y) as [z b].
    destruct Hrs as (-> & Hz & Hf & Hex). cbn [fst snd] in *. rewrite Hz in Hatd. exists d'. split_and!; [done|done|done|].
    apply (same_at t); [rewrite Hatd, Ec..|].
    + unfold like. simpl. by rewrite Hf.
    + intros He. by rewrite Hex by auto.
    + intros k Hk. rewrite Hned by done. destruct (Hsame k) as [H1 H2]. rewrite (Hne k Hk) in H1, H2. done.
Qed.

Lemma restore_inputs_app (d : Cache) l1 l2 b st :
  restore_inputs d (l1 ++ l2) b st
  = match restore_inputs d l1 b st with
    | Some (d, b, st) => restore_inputs d l2 b st
    | None => None
    end.
Proof.
  revert d b st. induction l1 as [|[i u] l1 IH]; intros d b st; [done|]. cbn [restore_inputs app].
  destruct (Modify d _ _) as [[d1 b1]|]; [apply IH|done].
Qed.

(** The inputs of a transaction. *)
Lemma spend_inputs_undone ins (c c1 : Cache) undos :
  cache_inv c → tracked (cache_abs c) →
  Forall (λ i, exact (out_hash (prevout i)) → nostake (out_hash (prevout i))) ins →
  spend_inputs c ins = Some (c1, undos) →
  cache_inv c1 ∧ tracked (cache_abs c1) ∧ cache_best c1 = cache_best c ∧ length undos = length ins ∧
  (∀ k, cache_abs c k = None → cache_abs c1 k = None) ∧
  ∀ (d : Cache) b st, cache_inv d → same (cache_abs d) (cache_abs c1) →
  ∃ d' st', restore_inputs d (rev (zip ins undos)) b st = Some (d', b, st') ∧ cache_inv d' ∧
    cache_best d' = cache_best d ∧ same (cache_abs d') (cache_abs c).
Proof.
  revert c undos. induction ins as [|i ins IH]; intros c undos Hc Ht Hen; cbn [spend_inputs].
  { intros [= <- <-]. split_and!; try done. intros d b st Hd Hs. by exists d, st. }
  apply Forall_cons in Hen as [Hi Hen].
  destruct (Modify c _ _) as [[c0 [u|]]|] eqn:HM; [|done..].
  destruct (spend_step c (prevout i) c0 u Hc Ht Hi HM) as (Hc0 & Ht0 & Hb0 & Hn0 & Hundo).
  destruct (spend_inputs c0 ins) as [[c2 us]|] eqn:HI; [|done]. intros [= <- <-].
  destruct (IH c0 us Hc0 Ht0 Hen HI) as (Hc1 & Ht1 & Hb1 & Hlen & Hn1 & Hrest).
  split_and!; [done|done|by rewrite Hb1|by cbn; rewrite Hlen|auto|].
  intros d b st Hd Hs. destruct (Hrest d b st Hd Hs) as (d1 & st1 & Hr & Hd1 & Hbd & Hs1).
  destruct (Hundo d1 Hd1 Hs1) as (d2 & HMd & Hd2 & Hbd2 & Hs2).
  exists d2, (stake_erase st1 (prevout i)). cbn [zip zip_with rev].
  fold (zip ins us). rewrite restore_inputs_app, Hr. cbn [restore_inputs]. rewrite HMd, andb_true_r.
  split_and!; [done|done|by rewrite Hbd2|done].
Qed.

(** A transaction of the block: its inputs may be given back exactly only if
    they are no coinstakes; its outputs are real ones and its hash is new. *)
Definition tx_fits (tx : CTransaction) : Prop :=
  Forall (λ o, txout_IsNull o = false) (vout tx) ∧
  (nostake (tx_hash tx) → IsCoinStake tx = false) ∧
  (IsCoinBase tx = false → Forall (λ i, exact (out_hash (prevout i)) → nostake (out_hash (prevout i))) (vin tx)).

Lemma UpdateCoins_undone (c c1 : Cache) tx h undo :
  cache_inv c → tracked (cache_abs c) → tx_fits tx → h ≠ 0 → cache_abs c (tx_hash tx) = None →
  UpdateCoins c tx h = Some (c1, undo) →
  cache_inv c1 ∧ tracked (cache_abs c1) ∧ cache_best c1 = cache_best c ∧
  (∀ k, k ≠ tx_hash tx → cache_abs c k = None → cache_abs c1 k = None) ∧
  (IsCoinBase tx = true → undo = []) ∧
  ∀ (d : Cache) b st, cache_inv d → same (cache_abs d) (cache_abs c1) →
  ∃ d' b' st', disconnect_tx d tx undo h b st = Some (Ok (d', b', st')) ∧ cache_inv d' ∧
    cache_best d' = cache_best d ∧ same (cache_abs d') (cache_abs c) ∧ (exact (tx_hash tx) → b' = b).
Proof.
  intros Hc Ht (Hout & Hns & Hin) Hh Hnew. unfold UpdateCoins.
  set (t := tx_hash tx) in *.
  assert (∀ c0, (if negb (IsCoinBase tx) then spend_inputs c (vin tx) else Some (c, [])) = Some (c0, undo) →
    cache_inv c0 ∧ tracked (cache_abs c0) ∧ cache_best c0 = cache_best c ∧
    (IsCoinBase tx = true → undo = []) ∧ (IsCoinBase tx = false → length undo = length (vin tx)) ∧
    (∀ k, cache_abs c k = None → cache_abs c0 k = None) ∧
    ∀ (d : Cache) b st, cache_inv d → same (cache_abs d) (cache_abs c0) →
    ∃ d' st', (if negb (IsCoinBase tx) then restore_inputs d (rev (zip (vin tx) undo)) b st else Some (d, b, st))
      = Some (d', b, st') ∧ cache_inv d' ∧ cache_best d' = cache_best d ∧ same (cache_abs d') (cache_abs c)) as Hins.
  { intros c0. destruct (IsCoinBase tx); cbn [negb].
    - intros [= <- <-]. split_and!; try done. intros d b st Hd Hs. by exists d, st.
    - intros HI. destruct (spend_inputs_undone _ _ _ _ Hc Ht (Hin eq_refl) HI) as (H1 & H2 & H3 & H4 & H5 & H6).
      split_and!; done. }
  destruct (if negb (IsCoinBase tx) then _ else _) as [[c0 us]|] eqn:HI; [|done].
  destruct (Modify c0 t _) as [[c2 []]|] eqn:HM; [|done]. intros [= <- ->].
  destruct (Hins c0 eq_refl) as (Hc0 & Ht0 & Hb0 & Hcb & Hlen & Hn0 & Hrest). clear Hins HI.
  destruct (Modify_spec c0 t (λ _, (FromTx tx h, ())) Hc0) as (coins & c2' & _ & HM' & Hc2 & Hb2 & Hat & Hne).
  rewrite HM in HM'. injection HM' as <-. cbn [fst] in Hat.
  pose proof (FromTx_good tx h Hout Hh) as Hg. rewrite (Cleanup_good _ Hg) in Hat.
  split_and!; [done| |by rewrite Hb2|intros k Hk Hkn; rewrite Hne by done; auto|done|].
  - intros k x. destruct (decide (k = t)) as [->|Hk]; [|rewrite Hne by done; apply Ht0].
    rewrite Hat. intros Hx. destruct (unspent_Some _ _ Hx) as [-> _]. split; [done|apply Hns].
  - intros d b st Hd Hs. unfold disconnect_tx. fold t.
    destruct (Modify_spec d t (remove_outputs tx h) Hd) as (y & d1 & Hy & HMd & Hd1 & Hbd & Hatd & Hned).
    rewrite HMd. destruct (remove_outputs_spec tx h y) as [Hrem Htrue]. rewrite Hrem in Hatd.
    assert (same (cache_abs d1) (cache_abs c0)) as Hs1.
    { apply (same_at t); [rewrite Hatd, (Hn0 t Hnew); done..|]. intros k Hk. rewrite Hned, <- Hne by done. apply Hs. }
    destruct (Hrest d1 (b && (remove_outputs tx h y).2) st Hd1 Hs1) as (d2 & st2 & Hr & Hd2 & Hbd2 & Hs2).
    exists d2, (b && (remove_outputs tx h y).2), st2. split_and!; [|done|by rewrite Hbd2|done|].
    + destruct (IsCoinBase tx); cbn [negb] in *; [by injection Hr as -> ->|]. rewrite Hlen by done.
      rewrite Nat.eqb_refl. cbn [negb]. by rewrite Hr.
    + intros He. rewrite Htrue; [by rewrite andb_true_r|]. destruct (Hs t) as [_ Hx]. by rewrite Hy, Hx, Hat.
Qed.

Lemma disconnect_txs_app (d : Cache) l1 l2 h b st :
  disconnect_txs d (l1 ++ l2) h b st
  = match disconnect_txs d l1 h b st with
    | Some (Ok (d, b, st)) => disconnect_txs d l2 h b st
    | r => r
    end.
Proof.
  revert d b st. induction l1 as [|[tx u] l1 IH]; intros d b st; [done|]. cbn [disconnect_txs app].
  destruct (disconnect_tx d tx u h b st) as [[[[d1 b1] st1]|e]|]; [apply IH|done..].
Qed.

(** The transactions of a block. *)
Lemma connect_txs_undone txs (c c1 : Cache) h a a1 undos :
  cache_inv c → tracked (cache_abs c) → Forall tx_fits txs → h ≠ 0 → NoDup (map tx_hash txs) →
  Forall (λ tx, cache_abs c (tx_hash tx) = None) txs →
  connect_txs c txs h a = Some (Ok (c1, undos, a1)) →
  cache_inv c1 ∧ cache_best c1 = cache_best c ∧ length undos = length txs ∧
  Forall2 (λ tx u, IsCoinBase tx = true → u = []) txs undos ∧
  ∀ (d : Cache) b st, cache_inv d → same (cache_abs d) (cache_abs c1) →
  ∃ d' b' st', disconnect_txs d (rev (zip txs undos)) h b st = Some (Ok (d', b', st')) ∧ cache_inv d' ∧
    cache_best d' = cache_best d ∧ same (cache_abs d') (cache_abs c) ∧
    (Forall (λ tx, exact (tx_hash tx)) txs → b' = b).
Proof.
  revert c a undos. induction txs as [|tx txs IH]; intros c a undos Hc Ht Hfit Hh Hnd Hnew; cbn [connect_txs].
  { intros [= <- <- _]. split_and!; try done. intros d b st Hd Hs. by exists d, b, st. }
  apply Forall_cons in Hfit as [Hfit1 Hfit]. apply Forall_cons in Hnew as [Hnew1 Hnew].
  cbn [map] in Hnd. apply NoDup_cons in Hnd as [Hnin Hnd].
  unfold connect_tx. destruct (check_inputs c tx a) as [[[c0 a0]|]|] eqn:HQ; [|done..].
  destruct (check_inputs_quiet _ _ _ _ _ Hc HQ) as (Hc0 & Ha0 & Hb0).
  destruct (GetValueOut tx) as [o|]; [|done].
  destruct (UpdateCoins c0 tx h) as [[c2 u]|] eqn:HU; [|done].
  assert (tracked (cache_abs c0)) as Ht0 by (intros k x; rewrite Ha0; apply Ht).
  destruct (UpdateCoins_undone _ _ _ _ _ Hc0 Ht0 Hfit1 Hh ltac:(by rewrite Ha0) HU) as (Hc2 & Ht2 & Hb2 & Hn2 & Hcb & Hundo).
  destruct (connect_txs c2 txs h _) as [[[[c3 us] a3]|]|] eqn:HC; [|done..]. intros [= -> <- ->].
  assert (Forall (λ tx, cache_abs c2 (tx_hash tx) = None) txs) as Hnew2.
  { apply Forall_forall. intros tx' Hin. rewrite Forall_forall in Hnew. apply Hn2; [|rewrite Ha0; auto].
    intros Heq. apply Hnin. rewrite <- Heq. by apply list_elem_of_fmap_2. }
  destruct (IH c2 _ us Hc2 Ht2 Hfit Hh Hnd Hnew2 HC) as (Hc1 & Hb1 & Hlen & Hus & Hrest).
  split_and!; [done|by rewrite Hb1, Hb2|by cbn; rewrite Hlen|by constructor|].
  intros d b st Hd Hs. destruct (Hrest d b st Hd Hs) as (d1 & b1 & st1 & Hr & Hd1 & Hbd & Hs1 & He1).
  destruct (Hundo d1 b1 st1 Hd1 Hs1) as (d2 & b2 & st2 & Hr2 & Hd2 & Hbd2 & Hs2 & He2).
  exists d2, b2, st2. cbn [zip zip_with rev]. fold (zip txs us). rewrite disconnect_txs_app, Hr.
  cbn [disconnect_txs]. rewrite Hr2. split_and!; [done|done|by rewrite Hbd2| |].
  - intros k. rewrite <- Ha0. apply Hs2.
  - intros He. apply Forall_cons in He as [HeA HeB]. rewrite He2, He1; done.
Qed.
End undo.

(** ** Blocks *)

Section blocks.
Context {V : Type} `{HV : CoinsView V, !CoinsViewOk V}.
Abbreviation Cache := (CCoinsViewCache V).

Lemma SetBestBlock_inv (c : Cache) h :
  cache_inv c → cache_inv (SetBestBlock c h) ∧ (∀ k, cache_abs (SetBestBlock c h) k = cache_abs c k) ∧
  (hash_IsNull h = false → cache_best (SetBestBlock c h) = h).
Proof. intros [H1 H2 H3]. split; [by split|]. split; [done|]. intros E. unfold cache_best, SetBestBlock. cbn [hashBlock]. by rewrite E. Qed.

(** A block that connects went through the loop. *)
Lemma ConnectBlock_inv params hashGenesis (c c1 : Cache) vtx hash hashPrev fIndexed nHeight stake undos a stake1 :
  cache_inv c → hash ≠ hashGenesis →
  ConnectBlock params hashGenesis c vtx hash hashPrev fIndexed nHeight stake = Some (Ok (c1, undos, a, stake1)) →
  ∃ c0 c' us, quiet c c0 ∧ cache_best c = hashPrev ∧
    connect_txs c0 vtx nHeight (mkAmounts 0 0 0) = Some (Ok (c', us, a)) ∧ c1 = SetBestBlock c' hash ∧
    undos = drop 1 us ∧ stake1 = stake_update params stake vtx nHeight.
Proof.
  intros Hc Hg. unfold ConnectBlock. destruct (GetBestBlock_quiet c Hc) as [Hq Hb].
  destruct (cache_GetBestBlock c) as [c0 best]. cbn [fst snd] in Hq, Hb. subst best.
  case_bool_decide as E1; [|done]. cbn [negb]. rewrite bool_decide_false by done.
  destruct (_ && _); [done|]. destruct (_ && _); [done|].
  assert (quiet c (if negb fIndexed then overwrites c0 vtx else (c0, false)).1) as Hq2.
  { destruct fIndexed; [done|]. eapply quiet_trans; [done|]. apply overwrites_quiet, Hq. }
  destruct (if negb fIndexed then _ else _) as [c2 bad]. cbn [fst] in Hq2. destruct bad; [done|].
  destruct (connect_txs c2 vtx nHeight _) as [[[[c' us] a']|]|] eqn:E; [|done..].
  intros [= <- <- <- <-]. by exists c2, c', us.
Qed.
End blocks.

(** A transaction whose outputs the block spends. *)
Definition spent_in (vtx : list CTransaction) (k : hash256) : Prop :=
  ∃ tx i, tx ∈ vtx ∧ IsCoinBase tx = false ∧ i ∈ vin tx ∧ out_hash (prevout i) = k.

(** A coinstake of the chain or of the block. *)
Definition is_stake (m : hash256 → option CCoins) (vtx : list CTransaction) (k : hash256) : Prop :=
  (∃ x, m k = Some x ∧ fCoinStake x = true) ∨ (∃ tx, tx ∈ vtx ∧ tx_hash tx = k ∧ IsCoinStake tx = true).

(** What the other checks of a block give: a coinbase first, real outputs, and
    transactions that are new and different. *)
Record block_fits (m : hash256 → option CCoins) (vtx : list CTransaction) : Prop := {
  bf_coinbase : ∃ tx txs, vtx = tx :: txs ∧ IsCoinBase tx = true;
  bf_outputs : Forall (λ tx, Forall (λ o, txout_IsNull o = false) (vout tx)) vtx;
  bf_new : Forall (λ tx, m (tx_hash tx) = None) vtx;
  bf_distinct : NoDup (map tx_hash vtx)
}.

(** C9: DisconnectBlock undoes ConnectBlock. A block that connected, with the undo
    data ConnectBlock produced, is disconnected without a failed assertion or an
    error, the best block is the previous one again, and the coins of every
    transaction are what they were, exactly, except that coins of a coinstake the
    block spends may lose their stake flag; and the result is clean if the block
    spends no output of a coinstake of its own. *)
Theorem disconnect_undoes_connect V (HV : CoinsView V) (HO : CoinsViewOk V) params hashGenesis
    (c c1 : CCoinsViewCache V) vtx hash hashPrev fIndexed nHeight stake undos a stake1 :
  cache_inv c → (∀ k x, cache_abs c k = Some x → good_coins x) → block_fits (cache_abs c) vtx →
  hash ≠ hashGenesis → hash_IsNull hash = false → 0 < nHeight →
  ConnectBlock params hashGenesis c vtx hash hashPrev fIndexed nHeight stake = Some (Ok (c1, undos, a, stake1)) →
  ∃ c2 fClean stake2,
    DisconnectBlock c1 vtx undos hash hashPrev nHeight stake1 = Some (Ok (c2, fClean, stake2)) ∧
    cache_inv c2 ∧ (hash_IsNull hashPrev = false → cache_best c2 = hashPrev) ∧
    (∀ k, forget_stake <$> cache_abs c2 k = forget_stake <$> cache_abs c k) ∧
    (∀ k, ¬ (spent_in vtx k ∧ is_stake (cache_abs c) vtx k) → cache_abs c2 k = cache_abs c k) ∧
    ((∀ tx, tx ∈ vtx → IsCoinStake tx = true → ¬ spent_in vtx (tx_hash tx)) → fClean = true).
Proof.
  intros Hc Hgood [(tx0 & txs & Evtx & Hcb) Hout Hnew Hnd] Hg Hnull Hh HB.
  destruct (ConnectBlock_inv _ _ _ _ _ _ _ _ _ _ _ _ _ Hc Hg HB) as
    (c0 & c' & us & (Hc0 & Ha0 & Hb0) & Hprev & HC & -> & -> & ->).
  set (nostake := λ k, ¬ is_stake (cache_abs c) vtx k).
  set (exact := λ k, ¬ (spent_in vtx k ∧ is_stake (cache_abs c) vtx k)).
  destruct (connect_txs_undone exact nostake vtx c0 c' nHeight (mkAmounts 0 0 0) a us) as (Hc' & Hb' & Hlen & Hus & Hundo);
    [done| | |lia|done| |done|].
  { intros k x Hk. rewrite Ha0 in Hk. split; [eauto|]. intros Hn. apply not_true_iff_false. intros Hs.
    apply Hn. left. eauto. }
  { rewrite Forall_forall in *. intros tx Hin. split_and!; [by apply Hout| |].
    - intros Hn. apply not_true_iff_false. intros Hs. apply Hn. right. eauto.
    - intros Hncb. apply Forall_forall. intros i Hi He Hs. apply He. split; [|done]. by exists tx, i. }
  { rewrite Forall_forall in *. intros tx Hin. rewrite Ha0. auto. }
  destruct (SetBestBlock_inv c' hash Hc') as (Hcs & Has & _).
  destruct (Hundo (SetBestBlock c' hash) true (stake_update params stake vtx nHeight)) as
    (d & b & st & HD & Hd & _ & Hs & Hb); [done|intros k; by rewrite Has|].
  assert ([] :: drop 1 us = us) as Eus.
  { rewrite Evtx in Hus. inversion Hus as [|? u ? us' Hu Hus']; subst. by rewrite (Hu Hcb). }
  exists (SetBestBlock d hashPrev), b, st. unfold DisconnectBlock, cache_GetBestBlock.
  cbn [SetBestBlock hashBlock]. rewrite Hnull, bool_decide_true by done. cbn [negb]. rewrite Eus.
  assert (length (drop 1 us) + 1 = length vtx)%nat as El.
  { rewrite length_drop, Hlen, Evtx. simpl. lia. }
  rewrite El, Nat.eqb_refl. cbn [negb]. fold (SetBestBlock c' hash). rewrite HD.
  destruct (SetBestBlock_inv d hashPrev Hd) as (Hds & Has2 & Hbest).
  split_and!; [done|done|done| | |].
  - intros k. rewrite Has2, <- Ha0. apply Hs.
  - intros k Hk. rewrite Has2, <- Ha0. by apply Hs.
  - intros Hcl. apply Hb, Forall_forall. intros tx Hin [Hsp [(x & Hx & _)|(tx' & Hin' & Eh & Hst)]].
    + rewrite Forall_forall in Hnew. by rewrite (Hnew tx Hin) in Hx.
    + rewrite <- Eh in Hsp. by apply (Hcl tx').
Qed.

(** ** An example *)

Definition ex_prev : hash256 := replicate 32 3.
Definition ex_hash : hash256 := replicate 32 4.
Definition ex_cache_of (x : CCoins) : CCoinsViewCache CCoinsViewDB := new_cache (mkDB {[ ex_key := x ]} (Some ex_prev)).

Lemma ex_cache_inv x : IsPruned x = false → cache_inv (ex_cache_of x).
Proof.
  intros Hx. apply new_cache_inv. intros k c Hk. cbn in Hk. by apply lookup_singleton_Some in Hk as [_ <-].
Qed.

Lemma ex_cache_abs x k y : cache_abs (ex_cache_of x) k = Some y → k = ex_key ∧ y = x.
Proof.
  intros H. unfold cache_abs in H. cbn [ex_cache_of new_cache cacheCoins base] in H. rewrite lookup_empty in H.
  cbn [cv_abs DB_reads db_coins] in H. apply lookup_singleton_Some in H as [H1 H2]. by split.
Qed.

Definition ex_vtx : list CTransaction :=
  [ mkTx (replicate 32 5) 1 [new_txin null_outpoint [1] 0] [new_txout 50 [OP_DUP]] 0;
    mkTx (replicate 32 6) 1 [new_txin (mkOutPoint ex_key 1) [1] 0] [new_txout 400 [OP_DUP]; new_txout 20 [OP_RETURN]] 0 ].

Lemma ex_block_fits x : block_fits (cache_abs (ex_cache_of x)) ex_vtx.
Proof.
  split.
  - by eexists _, _.
  - repeat constructor.
  - repeat constructor.
  - repeat constructor; cbn; set_solver.
Qed.

Lemma ex_good k x : cache_abs (ex_cache_of ex_old_coins) k = Some x → good_coins x.
Proof.
  intros H. destruct (ex_cache_abs ex_old_coins k x H) as [_ ->].
  split; [reflexivity|repeat constructor; discriminate|discriminate].
Qed.

Lemma ex_hash_new : ex_hash ≠ null_hash.
Proof. intros H. apply (f_equal (hd 0)) in H. vm_compute in H. discriminate. Qed.

Definition ex_connect := ConnectBlock CMainParams null_hash (ex_cache_of ex_old_coins) ex_vtx ex_hash ex_prev true 10 [].

Lemma ex_connect_eval :
  match ex_connect with
  | Some (Ok (c1, _, a, _)) => cache_abs c1 ex_key = None ∧ a = mkAmounts 80 500 470
  | _ => False
  end.
Proof. vm_compute. split; reflexivity. Qed.

Lemma disconnect_undoes_connect_witness :
  match ex_connect with
  | Some (Ok (c1, undos, _, stake)) =>
      cache_abs c1 ex_key = None ∧
      ∃ c2 stake2, DisconnectBlock c1 ex_vtx undos ex_hash ex_prev 10 stake = Some (Ok (c2, true, stake2)) ∧
        cache_abs c2 ex_key = Some ex_old_coins
  | _ => False
  end.
Proof.
  pose proof ex_connect_eval as He. destruct ex_connect as [[[[[c1 undos] a] stake]|e]|] eqn:E; [|exact He..].
  destruct (disconnect_undoes_connect CCoinsViewDB _ DB_ok CMainParams null_hash (ex_cache_of ex_old_coins) c1 ex_vtx
    ex_hash ex_prev true 10 [] undos a stake (ex_cache_inv ex_old_coins eq_refl) ex_good (ex_block_fits ex_old_coins)
    ex_hash_new eq_refl eq_refl E)
    as (c2 & b & st2 & HD & _ & _ & _ & Hx & Hcl).
  split; [exact (proj1 He)|]. assert (b = true) as ->.
  { apply Hcl. intros tx Htx Hs. exfalso. revert Hs.
    repeat (apply elem_of_cons in Htx as [->|Htx]; [discriminate|]). by apply elem_of_nil in Htx. }
  exists c2, st2. split; [exact HD|]. rewrite Hx; [vm_compute; reflexivity|].
  intros [_ [(x & H & Hs)|(tx & Htx & _ & Hs)]]; revert Hs.
  - destruct (ex_cache_abs _ _ _ H) as [_ ->]. discriminate.
  - repeat (apply elem_of_cons in Htx as [->|Htx]; [discriminate|]). by apply elem_of_nil in Htx.
Defined.

(** The flag is lost: coins of a coinstake, all spent by the block, come back
    as plain ones. *)
Definition ex_stake_coins : CCoins := mkCoins false true [null_txout; new_txout 500 [OP_DUP]] 3 1.

Example stake_flag_is_lost :
  match ConnectBlock CMainParams null_hash (ex_cache_of ex_stake_coins) ex_vtx ex_hash ex_prev true 10 [] with
  | Some (Ok (c1, undos, _, stake)) =>
      match DisconnectBlock c1 ex_vtx undos ex_hash ex_prev 10 stake with
      | Some (Ok (c2, fClean, _)) => fClean = true ∧ cache_abs c2 ex_key = Some (forget_stake ex_stake_coins)
      | _ => False
      end
  | _ => False
  end.
Proof. vm_compute. split; reflexivity. Qed.
