(* ===== verification/Ledger.v ===== *)
(** * The set of unspent outputs, as a specification of connecting a block

    A ledger says which outputs are unspent. A transaction removes those it
    spends and adds its own; what ConnectBlock does to a coins cache, on any view,
    is shown to be exactly that. *)

From S2P Require Import Prelude Serialize Uint256 Params Script Digest Hashes Interp Tx SigHash Compressor Coins CoinsView Connect.

(** ** The specification *)

Definition ledger := hash256 → N → option CTxOut.
Definition out_key (o : COutPoint) : hash256 * N := (out_hash o, Z.to_N (out_n o)).
Definition spent_keys (tx : CTransaction) : list (hash256 * N) := map (λ i, out_key (prevout i)) (vin tx).

(** The output at an index, unless it is null. *)
Definition output_at (l : list CTxOut) (n : N) : option CTxOut :=
  match l !! N.to_nat n with Some o => if txout_IsNull o then None else Some o | None => None end.

(** Zerocoin mints are never available. *)
Definition available (u : ledger) (k : hash256 * N) : bool :=
  match u k.1 k.2 with Some o => negb (IsZerocoinMint (scriptPubKey o)) | None => false end.

Definition apply_tx (u : ledger) (tx : CTransaction) : ledger := λ k n,
  if bool_decide (k = tx_hash tx) then output_at (map spendable (vout tx)) n
  else if negb (IsCoinBase tx) && bool_decide ((k, n) ∈ spent_keys tx) then None
  else u k n.

(** [None]: an input of some transaction is not there when its turn comes. *)
Fixpoint apply_txs (u : ledger) (txs : list CTransaction) : option ledger :=
  match txs with
  | [] => Some u
  | tx :: txs => if IsCoinBase tx || forallb (available u) (spent_keys tx) then apply_txs (apply_tx u tx) txs else None
  end.

(** The ledger of a map of coins. *)
Definition ledger_of (m : hash256 → option CCoins) : ledger := λ k n,
  match m k with Some c => output_at (c_vout c) n | None => None end.

(** ** Coins and outputs *)

Lemma output_at_clean l n : output_at (clean_vout l) n = output_at l n.
Proof.
  unfold output_at. generalize (N.to_nat n). clear n. intros n. induction l as [|o l IH] using rev_ind; [done|].
  destruct (txout_IsNull o) eqn:E.
  - assert (clean_vout (l ++ [o]) = clean_vout l) as ->.
    { unfold clean_vout. rewrite rev_app_distr. cbn [rev app pop_nulls]. by rewrite E. }
    rewrite IH. destruct (decide (n < length l)%nat); [by rewrite lookup_app_l|].
    rewrite lookup_app_r, (lookup_ge_None_2 l) by lia. destruct (n - length l)%nat; simpl; [by rewrite E|done].
  - assert (clean_vout (l ++ [o]) = l ++ [o]) as ->; [|done].
    apply clean_vout_last. intros x. rewrite last_snoc. by intros [= <-].
Qed.

Lemma output_at_pruned c n : IsPruned c = true → output_at (c_vout c) n = None.
Proof.
  unfold IsPruned, output_at. rewrite forallb_forall. intros H. destruct (c_vout c !! N.to_nat n) as [o|] eqn:E; [|done].
  rewrite H; [done|]. apply list_elem_of_In. by eapply list_elem_of_lookup_2.
Qed.

Lemma output_at_unspent c n :
  match unspent c with Some c => output_at (c_vout c) n | None => None end = output_at (c_vout c) n.
Proof. unfold unspent. destruct (IsPruned c) eqn:E; [|done]. by rewrite output_at_pruned. Qed.

(** Spend removes one output, and can do so exactly if it is there. *)
Lemma spend_coins_output out c :
  is_Some (output_at (c_vout c) (Z.to_N (out_n out))) →
  ∃ u, (spend_coins out c).2 = Some u ∧
    ∀ n, output_at (c_vout (spend_coins out c).1) n
         = if decide (n = Z.to_N (out_n out)) then None else output_at (c_vout c) n.
Proof.
  unfold spend_coins, Spend. rewrite <- Z_N_nat. set (i := Z.to_N (out_n out)). intros [o Ho]. unfold output_at in Ho.
  destruct (c_vout c !! N.to_nat i) as [x|] eqn:E; [|done]. destruct (txout_IsNull x); [done|].
  eexists. split; [done|]. intros n. cbn [fst Cleanup with_vout c_vout]. rewrite output_at_clean.
  unfold output_at at 1. destruct (decide (n = i)) as [->|Hne].
  - rewrite list_lookup_insert_eq by (by eapply lookup_lt_Some). done.
  - by rewrite list_lookup_insert_ne by lia.
Qed.

(** ** The cache *)

Section ledger.
Context {V : Type} `{HV : CoinsView V, !CoinsViewOk V}.
Abbreviation Cache := (CCoinsViewCache V).
Abbreviation L c := (ledger_of (cache_abs c)).

Lemma quiet_ledger (c c' : Cache) : quiet c c' → ∀ k n, L c' k n = L c k n.
Proof. intros (_ & H & _) k n. unfold ledger_of. by rewrite H. Qed.

Lemma lookup_output_ledger (c : Cache) o :
  lookup_output (cache_abs c) o
  = (if available (L c) (out_key o) then L c (out_key o).1 (out_key o).2 else None).
Proof.
  unfold lookup_output, available, ledger_of, out_key, output_at, IsAvailable. cbn [fst snd]. rewrite Z_N_nat.
  destruct (cache_abs c (out_hash o)) as [x|]; [|done].
  destruct (c_vout x !! Z.to_nat (out_n o)) as [y|]; [|done]. by destruct (txout_IsNull y), (IsZerocoinMint _).
Qed.

Lemma lookup_output_is_Some (c : Cache) o :
  is_Some (lookup_output (cache_abs c) o) ↔ available (L c) (out_key o) = true.
Proof.
  rewrite lookup_output_ledger. unfold available.
  destruct (L c _ _) as [x|]; [destruct (negb _)|]; split; intros H; try done; by destruct H.
Qed.

Lemma Modify_ledger {R} (c : Cache) t (f : CCoins → CCoins * R) :
  cache_inv c →
  ∃ coins c', Modify c t f = Some (c', (f coins).2) ∧ cache_inv c' ∧
    (∀ n, output_at (c_vout coins) n = L c t n) ∧
    ∀ k n, L c' k n = if decide (k = t) then output_at (c_vout (f coins).1) n else L c k n.
Proof.
  intros Hc. destruct (Modify_spec c t f Hc) as (coins & c' & Hu & E & Hc' & _ & Hat & Hne).
  exists coins, c'. split_and!; [done|done| |].
  - intros n. unfold ledger_of. rewrite <- Hu. symmetry. apply output_at_unspent.
  - intros k n. unfold ledger_of. destruct (decide (k = t)) as [->|Hk]; [|by rewrite Hne].
    rewrite Hat, output_at_unspent. cbn [Cleanup with_vout c_vout]. apply output_at_clean.
Qed.

(** The inputs go, and the assertion holds. *)
Lemma spend_inputs_ledger ins (c : Cache) :
  cache_inv c → NoDup (map (λ i, out_key (prevout i)) ins) →
  Forall (λ i, is_Some (L c (out_key (prevout i)).1 (out_key (prevout i)).2)) ins →
  ∃ c' us, spend_inputs c ins = Some (c', us) ∧ cache_inv c' ∧
    ∀ k n, L c' k n = if bool_decide ((k, n) ∈ map (λ i, out_key (prevout i)) ins) then None else L c k n.
Proof.
  revert c. induction ins as [|i ins IH]; intros c Hc Hnd Hin.
  { exists c, []. split_and!; [done|done|]. intros k n. rewrite bool_decide_false by apply not_elem_of_nil. done. }
  cbn [map] in Hnd. apply NoDup_cons in Hnd as [Hni Hnd]. apply Forall_cons in Hin as [Hi Hin]. cbn [out_key fst snd] in Hi.
  destruct (Modify_ledger c (out_hash (prevout i)) (spend_coins (prevout i)) Hc) as (x & c1 & E & Hc1 & Hx & HL).
  destruct (spend_coins_output (prevout i) x) as (u & Eu & Hout); [by rewrite Hx|].
  assert (∀ k n, L c1 k n = if decide ((k, n) = out_key (prevout i)) then None else L c k n) as HL1.
  { intros k n. rewrite HL. unfold out_key. destruct (decide (k = out_hash (prevout i))) as [->|Hk];
      [|rewrite decide_False by congruence; done]. rewrite Hout.
    destruct (decide (n = _)) as [->|Hn]; [by rewrite decide_True|]. rewrite decide_False by congruence. apply Hx. }
  destruct (IH c1 Hc1 Hnd) as (c2 & us & E2 & Hc2 & HL2).
  { rewrite Forall_forall in *. intros j Hj. rewrite HL1. rewrite decide_False; [auto|].
    intros Heq. apply Hni. rewrite <- surjective_pairing in Heq. rewrite <- Heq.
    by apply (list_elem_of_fmap_2 (λ i, out_key (prevout i))). }
  exists c2, (u :: us). cbn [spend_inputs]. rewrite E, Eu, E2. split_and!; [done|done|].
  intros k n. rewrite HL2, HL1. cbn [map].
  destruct (decide ((k, n) ∈ map (λ i, out_key (prevout i)) ins)) as [Hm|Hm].
  - rewrite !bool_decide_true by set_solver. done.
  - rewrite bool_decide_false by done. destruct (decide ((k, n) = _)) as [->|Hn].
    + rewrite bool_decide_true by set_solver. done.
    + rewrite bool_decide_false by (rewrite elem_of_cons; tauto). done.
Qed.

(** All inputs of a transaction are there (a coinbase has none). *)
Definition inputs_there (u : ledger) (tx : CTransaction) : bool := IsCoinBase tx || forallb (available u) (spent_keys tx).

Lemma HaveInputs_ledger (c : Cache) tx :
  cache_inv c → IsCoinBase tx = false → tx_IsZerocoinSpend tx = false →
  (HaveInputs c tx).2 = inputs_there (L c) tx.
Proof.
  intros Hc Hcb Hz. unfold HaveInputs, inputs_there. rewrite Hcb, Hz. cbn [negb andb orb].
  pose proof (HaveInputs_loop_spec (vin tx) c (cache_abs c) Hc ltac:(done)) as H.
  destruct (HaveInputs_loop c (vin tx)) as [c' b]. destruct H as (_ & _ & H). cbn [snd].
  apply eq_true_iff_eq. rewrite H, forallb_forall, Forall_forall. unfold spent_keys. split.
  - intros Hall k Hk. apply in_map_iff in Hk as (i & <- & Hi). apply lookup_output_is_Some, Hall.
    by apply list_elem_of_In.
  - intros Hall i Hi. apply lookup_output_is_Some, Hall. apply in_map_iff. exists i. split; [done|].
    by apply list_elem_of_In.
Qed.

(** With all inputs there, no assertion of GetValueIn fails. *)
Lemma GetValueIn_loop_some ins (c : Cache) u n :
  cache_inv c → (∀ k n, L c k n = u k n) → forallb (available u) (map (λ i, out_key (prevout i)) ins) = true →
  is_Some (GetValueIn_loop c ins n).2.
Proof.
  revert c n. induction ins as [|i ins IH]; intros c n Hc Hu; cbn [GetValueIn_loop map forallb]; [eauto|].
  intros [Hi Hins]%andb_true_iff. unfold GetOutputFor. pose proof (AccessCoins_output c (prevout i) Hc) as H.
  destruct (AccessCoins c (out_hash (prevout i))) as [c1 r]. destruct H as (Hc1 & Ha1 & Hr & _). rewrite Hr.
  destruct (proj2 (lookup_output_is_Some c (prevout i))) as [o ->].
  { unfold available in *. by rewrite Hu. }
  apply IH; [done| |done]. intros k m. unfold ledger_of. rewrite Ha1. apply Hu.
Qed.

Lemma check_inputs_ledger (c : Cache) tx a :
  cache_inv c → tx_IsZerocoinSpend tx = false →
  match check_inputs c tx a with
  | Some (Ok (c', _)) => inputs_there (L c) tx = true
  | Some (Throw InputsMissingOrSpent) => inputs_there (L c) tx = false
  | Some (Throw (ValueOutThrown e)) => GetValueOut tx = Throw e
  | _ => False
  end.
Proof.
  intros Hc Hz. unfold check_inputs. destruct (IsCoinBase tx) eqn:Hcb; [unfold inputs_there; by rewrite Hcb|].
  pose proof (HaveInputs_ledger c tx Hc Hcb Hz) as Hh. pose proof (HaveInputs_quiet c tx Hc) as Hq.
  destruct (HaveInputs c tx) as [c1 b]. cbn [fst snd] in Hh, Hq. subst b.
  destruct (inputs_there (L c) tx) eqn:Hi; [|done]. cbn [negb].
  assert (is_Some (GetValueIn c1 tx).2) as [v Hv].
  { unfold GetValueIn. rewrite Hcb. apply (GetValueIn_loop_some _ _ (L c)); [apply Hq|by apply quiet_ledger|].
    unfold inputs_there in Hi. by rewrite Hcb in Hi. }
  destruct (GetValueIn c1 tx) as [c2 r]. cbn [snd] in Hv. subst r.
  destruct (IsCoinStake tx); [done|]. cbn [negb]. by destruct (GetValueOut tx).
Qed.

Lemma UpdateCoins_ledger (c : Cache) tx h u :
  cache_inv c → (∀ k n, L c k n = u k n) → inputs_there u tx = true → NoDup (spent_keys tx) →
  ∃ c' undo, UpdateCoins c tx h = Some (c', undo) ∧ cache_inv c' ∧ ∀ k n, L c' k n = apply_tx u tx k n.
Proof.
  intros Hc Hu Hi Hnd. unfold UpdateCoins.
  assert (∃ c0 us, (if negb (IsCoinBase tx) then spend_inputs c (vin tx) else Some (c, [])) = Some (c0, us) ∧ cache_inv c0 ∧
    ∀ k n, L c0 k n = if negb (IsCoinBase tx) && bool_decide ((k, n) ∈ spent_keys tx) then None else u k n)
    as (c0 & us & -> & Hc0 & HL0).
  { unfold inputs_there in Hi. destruct (IsCoinBase tx); [by exists c, []|]. cbn [negb andb orb] in *.
    destruct (spend_inputs_ledger (vin tx) c Hc Hnd) as (c0 & us & E & Hc0 & HL0).
    - rewrite forallb_forall in Hi. apply Forall_forall. intros i Hin. rewrite Hu.
      assert (available u (out_key (prevout i)) = true) as Hav.
      { apply Hi, in_map_iff. exists i. split; [done|]. by apply list_elem_of_In. }
      unfold available in Hav. destruct (u _ _); [eauto|done].
    - exists c0, us. split_and!; [done|done|]. intros k n. rewrite HL0, Hu. done. }
  destruct (Modify_ledger c0 (tx_hash tx) (λ _, (FromTx tx h, ())) Hc0) as (x & c' & E & Hc' & _ & HL).
  exists c', us. rewrite E. split_and!; [done|done|]. intros k n. rewrite HL. unfold apply_tx. cbn [fst].
  destruct (decide (k = tx_hash tx)) as [->|Hk].
  - rewrite bool_decide_true by done. rewrite FromTx_vout. apply output_at_clean.
  - rewrite bool_decide_false by done. apply HL0.
Qed.
End ledger.

(** ** The refinement *)

(** What CheckTransaction and the absence of zerocoin spends give. *)
Definition tx_plain (tx : CTransaction) : Prop := tx_IsZerocoinSpend tx = false ∧ NoDup (spent_keys tx).

(** C8: Connecting the transactions of a block to a coins cache, on any lawful view,
    is updating the set of unspent outputs: for transactions with distinct inputs
    and no zerocoin spends no assertion fails; the block is refused exactly if an
    input is missing when its transaction comes (unless a sum of outputs throws
    first), and otherwise the cache stands for the updated set: the spent outputs
    gone, the new spendable ones added, everything else as it was. *)
Theorem connect_refines_ledger V (HV : CoinsView V) (HO : CoinsViewOk V) (c : CCoinsViewCache V) txs h a u :
  cache_inv c → (∀ k n, ledger_of (cache_abs c) k n = u k n) → Forall tx_plain txs →
  match connect_txs c txs h a with
  | Some (Ok (c', _, _)) =>
      cache_inv c' ∧ ∃ u', apply_txs u txs = Some u' ∧ ∀ k n, ledger_of (cache_abs c') k n = u' k n
  | Some (Throw InputsMissingOrSpent) => apply_txs u txs = None
  | Some (Throw (ValueOutThrown e)) => ∃ tx, tx ∈ txs ∧ GetValueOut tx = Throw e
  | _ => False
  end.
Proof.
  intros Hc Hu Hp. revert c a u Hc Hu. induction Hp as [|tx txs [Hz Hnd] Hp IH]; intros c a u Hc Hu; cbn [connect_txs apply_txs].
  { split; [done|]. by exists u. }
  unfold connect_tx. pose proof (check_inputs_ledger c tx a Hc Hz) as H.
  assert (inputs_there (ledger_of (cache_abs c)) tx = inputs_there u tx) as Hiu.
  { assert (∀ k, available (ledger_of (cache_abs c)) k = available u k) as Hav
      by (intros k; unfold available; by rewrite Hu).
    clear Hnd. unfold inputs_there. f_equal. induction (spent_keys tx) as [|k l IHl]; simpl; [done|]. by rewrite Hav, IHl. }
  rewrite Hiu in H. fold (inputs_there u tx).
  destruct (check_inputs c tx a) as [[[c1 a1]|[]]|] eqn:EC; try done.
  2: by rewrite H.
  2: by exists tx; split; [left|].
  rewrite H. destruct (check_inputs_quiet _ _ _ _ _ Hc EC) as (Hc1 & Ha1 & _).
  destruct (GetValueOut tx) as [o|e] eqn:EV; [|by exists tx; split; [left|]].
  destruct (UpdateCoins_ledger c1 tx h u Hc1) as (c2 & undo & E & Hc2 & HL2); [|done|done|].
  { intros k n. unfold ledger_of. rewrite Ha1. apply Hu. }
  rewrite E. specialize (IH c2 (mkAmounts (nFees a1) (nValueIn a1) (s64 (nValueOut a1 + o))) _ Hc2 HL2).
  destruct (connect_txs c2 txs h _) as [[[[c3 us] a3]|[]]|]; try done.
  destruct IH as (tx' & Hin & Ht). exists tx'. split; [by right|done].
Qed.

Lemma ex_apply_eval :
  match apply_txs (ledger_of (cache_abs (ex_cache_of ex_old_coins))) ex_vtx with
  | Some v => v ex_key 1%N = None ∧ v (replicate 32 6) 0%N = Some (new_txout 400 [OP_DUP]) ∧
              v (replicate 32 6) 1%N = None
  | None => False
  end.
Proof. vm_compute. split_and!; reflexivity. Qed.

(** The block of the example: both of its transactions are plain. *)
Lemma connect_refines_ledger_witness :
  match connect_txs (ex_cache_of ex_old_coins) ex_vtx 10 (mkAmounts 0 0 0) with
  | Some (Ok (c', _, _)) =>
      ledger_of (cache_abs c') ex_key 1%N = None ∧
      ledger_of (cache_abs c') (replicate 32 6) 0%N = Some (new_txout 400 [OP_DUP]) ∧
      ledger_of (cache_abs c') (replicate 32 6) 1%N = None
  | _ => False
  end.
Proof.
  assert (Forall tx_plain ex_vtx) as Hp by (repeat constructor; cbn; set_solver).
  pose proof (connect_refines_ledger CCoinsViewDB _ DB_ok (ex_cache_of ex_old_coins) ex_vtx 10 (mkAmounts 0 0 0)
    (ledger_of (cache_abs (ex_cache_of ex_old_coins))) (ex_cache_inv ex_old_coins eq_refl) (λ _ _, eq_refl) Hp) as H.
  change (@cv_reads CCoinsViewDB DB_view DB_ok) with DB_reads in H.
  assert (match connect_txs (ex_cache_of ex_old_coins) ex_vtx 10 (mkAmounts 0 0 0) with Some (Ok _) => True | _ => False end)
    as Hok by (vm_compute; exact I).
  destruct (connect_txs (ex_cache_of ex_old_coins) ex_vtx 10 (mkAmounts 0 0 0)) as [[[[c' us] a']|e]|]; [|destruct Hok..].
  destruct H as (_ & u' & Hu' & HL). pose proof ex_apply_eval as He. rewrite Hu' in He.
  rewrite !HL. exact He.
Defined.
