(* ===== verification/TxCheck.v ===== *)
(** * main.cpp: the rules for a transaction

    CheckTransaction, IsFinalTx, the signature operation counts and CheckInputs.
    The network parameters, the height of the chain and the adjusted time are
    arguments; the scripts of inputs are run by VerifyScript with the checker of
    the signature file. *)

From S2P Require Import Prelude Serialize Uint256 Params Script Digest Hashes Interp Tx SigHash Compressor Coins CoinsView Connect Ledger.

Local Open Scope node_scope.

Definition MAX_BLOCK_SIZE_LEGACY : Z := 1000000.
Definition LOCKTIME_THRESHOLD : Z := 500000000.

(** ** CheckTransaction *)

Inductive tx_error :=
| VinEmpty | VoutEmpty | Oversize | OutputEmpty | OutputNegative | OutputTooLarge | TotalTooLarge
| InputsDuplicate | CoinbaseLength | PrevoutNull.

Section check.
Variable params : CChainParams.

Definition MoneyRange (nValueOut : Z) : bool := (0 <=? nValueOut) && (nValueOut <=? nMaxMoneyOut params).

Fixpoint check_outputs (tx : CTransaction) (outs : list CTxOut) (nValueOut : Z) : result tx_error unit :=
  match outs with
  | [] => Ok ()
  | o :: outs =>
      if txout_IsEmpty o && negb (IsCoinBase tx) && negb (IsCoinStake tx) then Throw OutputEmpty
      else if nValue o <? 0 then Throw OutputNegative
      else if nMaxMoneyOut params <? nValue o then Throw OutputTooLarge
      else
        let nValueOut := s64 (nValueOut + nValue o) in
        if negb (MoneyRange nValueOut) then Throw TotalTooLarge else check_outputs tx outs nValueOut
  end.

Fixpoint check_duplicates (ins : list CTxIn) (vInOutPoints : list COutPoint) : result tx_error unit :=
  match ins with
  | [] => Ok ()
  | i :: ins =>
      if bool_decide (prevout i ∈ vInOutPoints) then Throw InputsDuplicate
      else check_duplicates ins (prevout i :: vInOutPoints)
  end.

Definition check_prevouts (tx : CTransaction) : result tx_error unit :=
  if IsCoinBase tx
  then match vin tx with
       | i :: _ => let n := Z.of_nat (length (scriptSig i)) in
                   if (n <? 2) || (150 <? n) then Throw CoinbaseLength else Ok ()
       | [] => Ok ()
       end
  else if existsb (λ i, outpoint_IsNull (prevout i)) (vin tx) then Throw PrevoutNull else Ok ().

Definition CheckTransaction (tx : CTransaction) : result tx_error unit :=
  if (length (vin tx) =? 0)%nat then Throw VinEmpty
  else if (length (vout tx) =? 0)%nat then Throw VoutEmpty
  else if MAX_BLOCK_SIZE_LEGACY <? size_of f_tx tx then Throw Oversize
  else
    let! _ := check_outputs tx (vout tx) 0 in
    let! _ := check_duplicates (vin tx) [] in
    check_prevouts tx.

(** ** IsFinalTx *)

(** [height] is that of the active chain, [now] the adjusted time. *)
Definition IsFinalTx (height now : Z) (tx : CTransaction) (nBlockHeight nBlockTime : Z) : bool :=
  if nLockTime tx =? 0 then true
  else
    let nBlockHeight := if nBlockHeight =? 0 then height else nBlockHeight in
    let nBlockTime := if nBlockTime =? 0 then now else nBlockTime in
    if nLockTime tx <? (if nLockTime tx <? LOCKTIME_THRESHOLD then nBlockHeight else nBlockTime) then true
    else forallb txin_IsFinal (vin tx).

(** CheckFinalTx; the median time of the tip is an argument. *)
Definition CheckFinalTx (height now median : Z) (tx : CTransaction) (flags : Z) : bool :=
  let flags := Z.max flags 0 in
  IsFinalTx height now tx (s32 (height + 1)) (if negb (Z.land flags 2 =? 0) then median else now).

(** ** Signature operations *)

Definition GetLegacySigOpCount (tx : CTransaction) : Z :=
  let n := foldl (λ n i, u32 (n + GetSigOpCount (scriptSig i) false)) 0 (vin tx) in
  foldl (λ n o, u32 (n + GetSigOpCount (scriptPubKey o) false)) n (vout tx).

Section views.
Context {V : Type} `{CoinsView V}.
Abbreviation Cache := (CCoinsViewCache V).

Fixpoint p2sh_sigops (c : Cache) (ins : list CTxIn) (nSigOps : Z) : Cache * option Z :=
  match ins with
  | [] => (c, Some nSigOps)
  | i :: ins =>
      match GetOutputFor c i with
      | (c, None) => (c, None)
      | (c, Some prevout) =>
          p2sh_sigops c ins
            (if IsPayToScriptHash (scriptPubKey prevout)
             then u32 (nSigOps + GetSigOpCount_p2sh (scriptPubKey prevout) (scriptSig i)) else nSigOps)
      end
  end.

Definition GetP2SHSigOpCount (c : Cache) (tx : CTransaction) : Cache * option Z :=
  if IsCoinBase tx then (c, Some 0) else p2sh_sigops c (vin tx) 0.

(** ** CheckInputs *)

Inductive inputs_error :=
| InputsUnavailable | PrematureSpend | InputOutOfRange | InBelowOut | FeeNegative | FeeOutOfRange
| InputsValueOut (e : value_error) | ScriptFailed (e : ScriptError) | ScriptNonMandatory.

(** The first loop: maturity and values. [None] is a failed assertion, or an
    output read out of range. *)
Fixpoint check_values (c : Cache) (ins : list CTxIn) (nSpendHeight nValueIn : Z)
    : option (result inputs_error (Cache * Z)) :=
  match ins with
  | [] => Some (Ok (c, nValueIn))
  | i :: ins =>
      let '(c, r) := AccessCoins c (out_hash (prevout i)) in
      match r with
      | None => None
      | Some coins =>
          if (fCoinBase coins || fCoinStake coins) && (s32 (nSpendHeight - c_nHeight coins) <? nMaturity params)
          then Some (Throw PrematureSpend)
          else match c_vout coins !! Z.to_nat (out_n (prevout i)) with
               | None => None
               | Some o =>
                   let nValueIn := s64 (nValueIn + nValue o) in
                   if negb (MoneyRange (nValue o)) || negb (MoneyRange nValueIn) then Some (Throw InputOutOfRange)
                   else check_values c ins nSpendHeight nValueIn
               end
      end
  end.

(** Values in and out, for a transaction that is no coinstake. *)
Definition check_fees (tx : CTransaction) (nValueIn : Z) : result inputs_error unit :=
  if IsCoinStake tx then Ok ()
  else match GetValueOut tx with
       | Throw e => Throw (InputsValueOut e)
       | Ok out =>
           if nValueIn <? out then Throw InBelowOut
           else
             let nTxFee := s64 (nValueIn - out) in
             if nTxFee <? 0 then Throw FeeNegative
             else if negb (MoneyRange nTxFee) then Throw FeeOutOfRange else Ok ()
       end.

Definition MANDATORY_SCRIPT_VERIFY_FLAGS : Z := SCRIPT_VERIFY_P2SH.
Definition STANDARD_SCRIPT_VERIFY_FLAGS : Z :=
  Z.lor (Z.lor (Z.lor (Z.lor (Z.lor MANDATORY_SCRIPT_VERIFY_FLAGS SCRIPT_VERIFY_DERSIG) SCRIPT_VERIFY_STRICTENC)
    SCRIPT_VERIFY_MINIMALDATA) SCRIPT_VERIFY_NULLDUMMY) SCRIPT_VERIFY_DISCOURAGE_UPGRADABLE_NOPS.
Definition STANDARD_NOT_MANDATORY_VERIFY_FLAGS : Z :=
  Z.land STANDARD_SCRIPT_VERIFY_FLAGS (Z.lnot MANDATORY_SCRIPT_VERIFY_FLAGS).

Variable ecdsa_verify : CPubKey → hash256 → list Z → bool.

(** CScriptCheck::operator(); the signature cache changes no result. *)
Definition script_check (scriptPubKey : list Z) (tx : CTransaction) (nIn : nat) (flags : Z) : result ScriptError unit :=
  VerifyScript (CheckSig ecdsa_verify tx nIn) flags (scriptSig (txin_at tx nIn)) scriptPubKey.

(** The second loop, from input [nIn] on. The reason the source gives with
    [ScriptNonMandatory] is that of the second check, which succeeded. *)
Fixpoint check_scripts (c : Cache) (tx : CTransaction) (ins : list CTxIn) (nIn : nat) (flags : Z)
    : option (result inputs_error Cache) :=
  match ins with
  | [] => Some (Ok c)
  | i :: ins =>
      let '(c, r) := AccessCoins c (out_hash (prevout i)) in
      match r ≫= λ coins, c_vout coins !! Z.to_nat (out_n (prevout i)) with
      | None => None
      | Some o =>
          match script_check (scriptPubKey o) tx nIn flags with
          | Ok _ => check_scripts c tx ins (S nIn) flags
          | Throw e =>
              if negb (Z.land flags STANDARD_NOT_MANDATORY_VERIFY_FLAGS =? 0)
              then match script_check (scriptPubKey o) tx nIn
                          (Z.land flags (Z.lnot STANDARD_NOT_MANDATORY_VERIFY_FLAGS)) with
                   | Ok _ => Some (Throw ScriptNonMandatory)
                   | Throw e => Some (Throw (ScriptFailed e))
                   end
              else Some (Throw (ScriptFailed e))
          end
      end
  end.

(** [height] is the height of a block of mapBlockIndex by its hash; scripts are
    checked at once ([pvChecks] is null). *)
Definition CheckInputs (height : hash256 → option Z) (c : Cache) (tx : CTransaction) (fScriptChecks : bool) (flags : Z)
    : option (result inputs_error Cache) :=
  let '(c, have) := HaveInputs c tx in
  if negb have then Some (Throw InputsUnavailable)
  else
    let '(c, best) := cache_GetBestBlock c in
    match height best with
    | None => None
    | Some h =>
        match check_values c (vin tx) (s32 (h + 1)) 0 with
        | None => None
        | Some (Throw e) => Some (Throw e)
        | Some (Ok (c, nValueIn)) =>
            match check_fees tx nValueIn with
            | Throw e => Some (Throw e)
            | Ok _ => if fScriptChecks then check_scripts c tx (vin tx) 0 flags else Some (Ok c)
            end
        end
    end.
End views.
End check.

(** ** What CheckTransaction accepts *)

Section accepts.
Variable params : CChainParams.
Hypothesis Hmax : 0 <= nMaxMoneyOut params < 2 ^ 62.

(** An output of a transaction that passes. *)
Definition output_ok (tx : CTransaction) (o : CTxOut) : Prop :=
  0 <= nValue o <= nMaxMoneyOut params ∧ (txout_IsEmpty o = true → IsCoinBase tx = true ∨ IsCoinStake tx = true).

Lemma check_outputs_ok tx outs n :
  0 <= n <= nMaxMoneyOut params →
  check_outputs params tx outs n = Ok () ↔
  Forall (output_ok tx) outs ∧ n + sum_values outs <= nMaxMoneyOut params.
Proof.
  revert n. induction outs as [|o outs IH]; intros n Hn; cbn [check_outputs sum_values foldr].
  { split; [intros _; split; [constructor|lia]|done]. }
  fold (sum_values outs). rewrite Forall_cons. unfold output_ok at 1.
  destruct (txout_IsEmpty o && negb (IsCoinBase tx) && negb (IsCoinStake tx)) eqn:Ee.
  { split; [done|]. intros [[[_ H] _] _]. destruct (txout_IsEmpty o), (IsCoinBase tx), (IsCoinStake tx); naive_solver. }
  assert (txout_IsEmpty o = true → IsCoinBase tx = true ∨ IsCoinStake tx = true) as He
    by (destruct (txout_IsEmpty o), (IsCoinBase tx), (IsCoinStake tx); naive_solver).
  destruct (Z.ltb_spec (nValue o) 0); [split; [done|lia]|].
  destruct (Z.ltb_spec (nMaxMoneyOut params) (nValue o)); [split; [done|lia]|].
  assert (s64 (n + nValue o) = n + nValue o) as -> by (apply swrap_small; unfold in_sw; simpl; lia).
  unfold MoneyRange. destruct (Z.leb_spec (n + nValue o) (nMaxMoneyOut params)).
  - rewrite (proj2 (Z.leb_le 0 _)) by lia. cbn [negb andb]. rewrite IH by lia.
    rewrite Z.add_assoc. split; intros [Hl Hr]; (split; [|lia]); [split; [split; [lia|done]|done]|apply Hl].
  - rewrite andb_false_r. split; [done|]. intros [[_ Ho] Hs]. exfalso.
    assert (0 <= sum_values outs) by (apply sum_values_nonneg; eapply Forall_impl; [exact Ho|intros x [? _]; lia]). lia.
Qed.

Lemma check_duplicates_ok ins seen :
  check_duplicates ins seen = Ok () ↔ NoDup (map prevout ins) ∧ ∀ i, i ∈ ins → prevout i ∉ seen.
Proof.
  revert seen. induction ins as [|i ins IH]; intros seen; cbn [check_duplicates map].
  { split; [intros _; split; [constructor|intros i Hi; by apply elem_of_nil in Hi]|done]. }
  case_bool_decide as Hs.
  - split; [done|]. intros [_ H]. exfalso. apply (H i); [left|done].
  - rewrite IH, NoDup_cons. split.
    + intros [Hnd H]. split_and!; [|done|].
      * intros Hin. apply list_elem_of_fmap in Hin as (j & Hj & Hin). apply (H j Hin). rewrite Hj. left.
      * intros j [->|Hj]%elem_of_cons; [done|]. intros Hin. apply (H j Hj). by right.
    + intros [[Hni Hnd] H]. split; [done|]. intros j Hj [Heq|Hin]%elem_of_cons.
      * apply Hni. rewrite <- Heq. by apply list_elem_of_fmap_2.
      * apply (H j); [by right|done].
Qed.

Definition prevouts_ok (tx : CTransaction) : Prop :=
  (IsCoinBase tx = true → ∀ i, i ∈ vin tx → 2 <= Z.of_nat (length (scriptSig i)) <= 150) ∧
  (IsCoinBase tx = false → ∀ i, i ∈ vin tx → outpoint_IsNull (prevout i) = false).

Lemma check_prevouts_ok tx : check_prevouts tx = Ok () ↔ prevouts_ok tx.
Proof.
  unfold check_prevouts, prevouts_ok. destruct (IsCoinBase tx) eqn:Hcb.
  - unfold IsCoinBase in Hcb. destruct (vin tx) as [|i [|]]; [done| |done].
    assert ((Z.of_nat (length (scriptSig i)) <? 2) || (150 <? Z.of_nat (length (scriptSig i))) = false
      ↔ 2 <= Z.of_nat (length (scriptSig i)) <= 150) as Hb by (rewrite orb_false_iff, !Z.ltb_ge; lia).
    destruct (_ || _).
    + split; [done|]. intros [Hi _]. exfalso.
      enough (true = false) by done. by apply Hb, Hi; [|left].
    + split; [|done]. intros _. split; [|done]. intros _ j Hj.
      apply elem_of_cons in Hj as [->|Hj]; [by apply Hb|by apply elem_of_nil in Hj].
  - destruct (existsb _ (vin tx)) eqn:Ex.
    + apply existsb_exists in Ex as (i & Hi & Hn). apply list_elem_of_In in Hi.
      split; [done|]. intros [_ H]. by rewrite (H eq_refl i Hi) in Hn.
    + split; [intros _; split; [done|]|done]. intros _ i Hi. apply not_true_iff_false. intros Hn.
      apply not_true_iff_false in Ex. apply Ex, existsb_exists. exists i. split; [by apply list_elem_of_In|done].
Qed.

#[local] Opaque f_tx.

(** What CheckTransaction checks, as a proposition. *)
Record tx_accepted (tx : CTransaction) : Prop := {
  ta_vin : vin tx ≠ [];
  ta_vout : vout tx ≠ [];
  ta_size : size_of f_tx tx <= MAX_BLOCK_SIZE_LEGACY;
  ta_outputs : Forall (output_ok tx) (vout tx);
  ta_total : sum_values (vout tx) <= nMaxMoneyOut params;
  ta_distinct : NoDup (map prevout (vin tx));
  ta_prevouts : prevouts_ok tx
}.

Lemma CheckTransaction_ok tx : CheckTransaction params tx = Ok () ↔ tx_accepted tx.
Proof.
  unfold CheckTransaction. pose proof (check_outputs_ok tx (vout tx) 0 ltac:(lia)) as Ho. rewrite Z.add_0_l in Ho.
  pose proof (check_duplicates_ok (vin tx) []) as Hd. pose proof (check_prevouts_ok tx) as Hp.
  destruct (Nat.eqb_spec (length (vin tx)) 0) as [E1|E1].
  { split; [discriminate|]. intros [H _ _ _ _ _ _]. by apply length_zero_iff_nil in E1. }
  destruct (Nat.eqb_spec (length (vout tx)) 0) as [E2|E2].
  { split; [discriminate|]. intros [_ H _ _ _ _ _]. by apply length_zero_iff_nil in E2. }
  destruct (Z.ltb_spec MAX_BLOCK_SIZE_LEGACY (size_of f_tx tx)) as [E3|E3].
  { split; [discriminate|]. intros [_ _ H _ _ _ _]. lia. }
  split.
  - intros H. destruct (check_outputs params tx (vout tx) 0) as [[]|]; [|discriminate].
    destruct (check_duplicates (vin tx) []) as [[]|]; [|discriminate]. cbn [rbind] in H.
    split; [by intros E; rewrite E in E1|by intros E; rewrite E in E2|done|by apply Ho|by apply Ho|by apply Hd|by apply Hp].
  - intros [_ _ _ H4 H5 H6 H7]. rewrite (proj2 Ho (conj H4 H5)). cbn [rbind].
    rewrite (proj2 Hd); [cbn [rbind]; by apply Hp|]. split; [done|]. intros j _. apply not_elem_of_nil.
Qed.

(** The reason a transaction is refused for: the first rule that it breaks, and
    among the outputs, the first output that breaks one. *)
Definition well_shaped (tx : CTransaction) : Prop :=
  vin tx ≠ [] ∧ vout tx ≠ [] ∧ size_of f_tx tx <= MAX_BLOCK_SIZE_LEGACY.
Definition may_be_empty (tx : CTransaction) (o : CTxOut) : Prop :=
  txout_IsEmpty o = true → IsCoinBase tx = true ∨ IsCoinStake tx = true.
Definition outputs_pass (tx : CTransaction) (outs : list CTxOut) : Prop :=
  Forall (output_ok tx) outs ∧ sum_values outs <= nMaxMoneyOut params.

Inductive output_fault (tx : CTransaction) (pre : list CTxOut) (o : CTxOut) : tx_error → Prop :=
| of_empty : ¬ may_be_empty tx o → output_fault tx pre o OutputEmpty
| of_negative : may_be_empty tx o → nValue o < 0 → output_fault tx pre o OutputNegative
| of_large : may_be_empty tx o → nMaxMoneyOut params < nValue o → output_fault tx pre o OutputTooLarge
| of_total : output_ok tx o → nMaxMoneyOut params < sum_values pre + nValue o → output_fault tx pre o TotalTooLarge.

Inductive breaks_first (tx : CTransaction) : tx_error → Prop :=
| re_vin : vin tx = [] → breaks_first tx VinEmpty
| re_vout : vin tx ≠ [] → vout tx = [] → breaks_first tx VoutEmpty
| re_size : vin tx ≠ [] → vout tx ≠ [] → MAX_BLOCK_SIZE_LEGACY < size_of f_tx tx → breaks_first tx Oversize
| re_output pre o post r : well_shaped tx → vout tx = pre ++ o :: post → outputs_pass tx pre → output_fault tx pre o r → breaks_first tx r
| re_inputs : well_shaped tx → outputs_pass tx (vout tx) → ¬ NoDup (map prevout (vin tx)) → breaks_first tx InputsDuplicate
| re_coinbase i : well_shaped tx → outputs_pass tx (vout tx) → NoDup (map prevout (vin tx)) → IsCoinBase tx = true →
    head (vin tx) = Some i → ¬ 2 <= Z.of_nat (length (scriptSig i)) <= 150 → breaks_first tx CoinbaseLength
| re_prevout i : well_shaped tx → outputs_pass tx (vout tx) → NoDup (map prevout (vin tx)) → IsCoinBase tx = false →
    i ∈ vin tx → outpoint_IsNull (prevout i) = true → breaks_first tx PrevoutNull.

Lemma may_be_empty_spec tx o :
  txout_IsEmpty o && negb (IsCoinBase tx) && negb (IsCoinStake tx) = false ↔ may_be_empty tx o.
Proof. unfold may_be_empty. destruct (txout_IsEmpty o), (IsCoinBase tx), (IsCoinStake tx); naive_solver. Qed.

Lemma sum_values_app a b : sum_values (a ++ b) = sum_values a + sum_values b.
Proof. unfold sum_values. induction a as [|x a IH]; cbn in *; [lia|]. rewrite IH. lia. Qed.

Lemma outputs_pass_nonneg tx outs : outputs_pass tx outs → 0 <= sum_values outs <= nMaxMoneyOut params.
Proof. intros [H ?]. split; [|done]. apply sum_values_nonneg. eapply Forall_impl; [exact H|]. intros o [? _]. lia. Qed.

(** One output, after outputs that pass. *)
Lemma check_outputs_step tx pre o outs :
  outputs_pass tx pre →
  (outputs_pass tx (pre ++ [o]) ∧
   check_outputs params tx (o :: outs) (sum_values pre) = check_outputs params tx outs (sum_values (pre ++ [o]))) ∨
  (∃ r, check_outputs params tx (o :: outs) (sum_values pre) = Throw r ∧ ∀ r', output_fault tx pre o r' ↔ r' = r).
Proof.
  intros Hpre. pose proof (outputs_pass_nonneg _ _ Hpre) as Hn. cbn [check_outputs]. pose proof (may_be_empty_spec tx o) as Hm.
  destruct (_ && negb (IsCoinStake tx)).
  { right. assert (¬ may_be_empty tx o) by (intros H; by apply Hm in H). eexists. split; [done|]. intros r'.
    split; [by inversion 1 as [| | |[]]|intros ->; by constructor]. }
  apply proj1 in Hm. specialize (Hm eq_refl). destruct (Z.ltb_spec (nValue o) 0).
  { right. eexists. split; [done|]. intros r'. split; [|by intros ->; constructor].
    inversion 1 as [| | |[]]; subst; (done || lia). }
  destruct (Z.ltb_spec (nMaxMoneyOut params) (nValue o)).
  { right. eexists. split; [done|]. intros r'. split; [|by intros ->; constructor].
    inversion 1 as [| | |[]]; subst; (done || lia). }
  assert (output_ok tx o) as Ho by (split; [lia|done]).
  rewrite swrap_small by (done || (unfold in_sw; change (64 - 1) with 63; lia)).
  assert (sum_values (pre ++ [o]) = sum_values pre + nValue o) as Es
    by (rewrite sum_values_app; unfold sum_values at 2; cbn; lia).
  unfold MoneyRange. rewrite (proj2 (Z.leb_le 0 _)) by lia. cbn [andb].
  destruct (Z.leb_spec (sum_values pre + nValue o) (nMaxMoneyOut params)); cbn [negb].
  - left. rewrite Es. split; [|done]. split; [|lia]. apply Forall_app. split; [apply Hpre|by constructor].
  - right. eexists. split; [done|]. intros r'. split; [|by intros ->; constructor].
    inversion 1; subst; (done || lia).
Qed.

Lemma outputs_pass_prefix tx pre post : outputs_pass tx (pre ++ post) → Forall (output_ok tx) post → outputs_pass tx pre.
Proof.
  intros [H1 H2] Hp. apply Forall_app in H1 as [H1 _]. split; [done|]. rewrite sum_values_app in H2.
  assert (0 <= sum_values post); [|lia]. apply sum_values_nonneg. eapply Forall_impl; [exact Hp|]. intros o [? _]. lia.
Qed.

(** An output that fails is no prefix of outputs that pass. *)
Lemma fault_not_pass tx pre o r : output_fault tx pre o r → ¬ outputs_pass tx (pre ++ [o]).
Proof.
  intros Hf [H1 H2]. rewrite sum_values_app in H2. unfold sum_values at 2 in H2. cbn in H2.
  apply Forall_app in H1 as [_ H1]. apply Forall_cons in H1 as [[Hv He] _].
  inversion Hf; subst; (done || lia).
Qed.

Lemma check_outputs_throw tx outs : ∀ pre r,
  outputs_pass tx pre →
  check_outputs params tx outs (sum_values pre) = Throw r ↔
  ∃ mid o post, outs = mid ++ o :: post ∧ outputs_pass tx (pre ++ mid) ∧ output_fault tx (pre ++ mid) o r.
Proof.
  induction outs as [|o outs IH]; intros pre r Hpre.
  { split; [done|]. intros ([|] & ? & ? & ? & _); done. }
  destruct (check_outputs_step tx pre o outs Hpre) as [[Hp ->]|(r0 & -> & Hr)].
  - rewrite (IH _ _ Hp). split.
    + intros (mid & x & post & -> & H1 & H2). exists (o :: mid), x, post. by rewrite <- app_assoc in H1, H2.
    + intros ([|y mid] & x & post & E & H1 & H2); injection E as -> ->.
      * rewrite app_nil_r in H2. by apply fault_not_pass in H2.
      * exists mid, x, post. by rewrite <- app_assoc.
  - split.
    + intros [= ->]. exists [], o, outs. rewrite app_nil_r. split_and!; [done..|]. by apply Hr.
    + intros ([|y mid] & x & post & E & H1 & H2); injection E as -> ->.
      * rewrite app_nil_r in H2. apply Hr in H2 as ->. done.
      * exfalso. apply (fault_not_pass tx pre y r0); [by apply Hr|].
        replace (pre ++ y :: mid) with ((pre ++ [y]) ++ mid) in H1 by by rewrite <- app_assoc.
        eapply outputs_pass_prefix; [exact H1|]. destruct H1 as [H1 _]. by apply Forall_app in H1 as [_ H1].
Qed.

Lemma check_outputs_verdict tx r :
  check_outputs params tx (vout tx) 0 = Throw r ↔
  ∃ pre o post, vout tx = pre ++ o :: post ∧ outputs_pass tx pre ∧ output_fault tx pre o r.
Proof. apply (check_outputs_throw tx (vout tx) [] r). split; [constructor|unfold sum_values; cbn; lia]. Qed.

Lemma check_duplicates_throw ins : ∀ seen r, check_duplicates ins seen = Throw r → r = InputsDuplicate.
Proof. induction ins as [|i ins IH]; intros seen r; cbn [check_duplicates]; [done|]. case_bool_decide; [by intros [= <-]|apply IH]. Qed.

Lemma check_prevouts_throw tx r :
  check_prevouts tx = Throw r ↔
  (IsCoinBase tx = true ∧ r = CoinbaseLength ∧ ∃ i, head (vin tx) = Some i ∧ ¬ 2 <= Z.of_nat (length (scriptSig i)) <= 150) ∨
  (IsCoinBase tx = false ∧ r = PrevoutNull ∧ ∃ i, i ∈ vin tx ∧ outpoint_IsNull (prevout i) = true).
Proof.
  unfold check_prevouts. destruct (IsCoinBase tx).
  - destruct (vin tx) as [|i l]; [split; [done|]; intros [(_ & _ & ? & ? & _)|[]]; done|]. cbn [head].
    destruct (Z.ltb_spec (Z.of_nat (length (scriptSig i))) 2), (Z.ltb_spec 150 (Z.of_nat (length (scriptSig i)))); cbn [orb];
      (split; [try (intros [= <-]; left; split_and!; [done..|]; exists i; split; [done|lia]); done|]);
      intros [(_ & -> & j & [= <-] & Hj)|[]]; (done || lia).
  - destruct (existsb _ (vin tx)) eqn:E.
    + apply existsb_exists in E as (i & Hi & Hn). apply list_elem_of_In in Hi.
      split; [intros [= <-]; right; split_and!; [done..|by exists i]|]. intros [[]|(_ & -> & _)]; done.
    + split; [done|]. intros [[]|(_ & _ & i & Hi & Hn)]; [done|]. apply not_true_iff_false in E. destruct E.
      apply existsb_exists. exists i. split; [by apply list_elem_of_In|done].
Qed.

Lemma well_shaped_spec tx :
  well_shaped tx →
  CheckTransaction params tx = (let! _ := check_outputs params tx (vout tx) 0 in
                                let! _ := check_duplicates (vin tx) [] in check_prevouts tx).
Proof.
  intros (H1 & H2 & H3). unfold CheckTransaction. rewrite (proj2 (Z.ltb_ge _ _) H3).
  destruct (Nat.eqb_spec (length (vin tx)) 0) as [E|]; [by apply length_zero_iff_nil in E|].
  destruct (Nat.eqb_spec (length (vout tx)) 0) as [E|]; [by apply length_zero_iff_nil in E|]. done.
Qed.

Lemma outputs_pass_check tx : check_outputs params tx (vout tx) 0 = Ok () ↔ outputs_pass tx (vout tx).
Proof. pose proof (check_outputs_ok tx (vout tx) 0 ltac:(lia)) as H. by rewrite Z.add_0_l in H. Qed.

Lemma no_duplicates_check tx : check_duplicates (vin tx) [] = Ok () ↔ NoDup (map prevout (vin tx)).
Proof.
  rewrite check_duplicates_ok. split; [by intros []|]. intros H. split; [done|]. intros i _. apply not_elem_of_nil.
Qed.

Lemma CheckTransaction_breaks tx r : CheckTransaction params tx = Throw r → breaks_first tx r.
Proof.
  destruct (decide (vin tx = [])) as [E1|E1].
  { unfold CheckTransaction. rewrite E1. intros [= <-]. by constructor. }
  destruct (decide (vout tx = [])) as [E2|E2].
  { unfold CheckTransaction. rewrite E2. destruct (Nat.eqb_spec (length (vin tx)) 0) as [E|]; [by apply length_zero_iff_nil in E|].
    intros [= <-]. by constructor. }
  destruct (Z_lt_le_dec MAX_BLOCK_SIZE_LEGACY (size_of f_tx tx)) as [E3|E3].
  { unfold CheckTransaction. rewrite (proj2 (Z.ltb_lt _ _) E3).
    destruct (Nat.eqb_spec (length (vin tx)) 0) as [E|]; [by apply length_zero_iff_nil in E|].
    destruct (Nat.eqb_spec (length (vout tx)) 0) as [E|]; [by apply length_zero_iff_nil in E|].
    intros [= <-]. by constructor. }
  assert (well_shaped tx) as Hs by done. rewrite (well_shaped_spec tx Hs).
  destruct (check_outputs params tx (vout tx) 0) as [[]|e] eqn:Eo; cbn [rbind].
  2: { intros [= ->]. apply check_outputs_verdict in Eo as (pre & o & post & E & Hp & Hf). by apply (re_output tx pre o post). }
  apply outputs_pass_check in Eo. destruct (check_duplicates (vin tx) []) as [[]|e] eqn:Ed; cbn [rbind].
  2: { intros [= ->]. rewrite (check_duplicates_throw _ _ _ Ed). apply re_inputs; [done..|].
       intros H. apply no_duplicates_check in H. congruence. }
  apply no_duplicates_check in Ed.
  intros [(Hcb & -> & i & Hi & Hl)|(Hcb & -> & i & Hi & Hl)]%check_prevouts_throw;
    [by apply (re_coinbase tx i)|by apply (re_prevout tx i)].
Qed.

Lemma breaks_first_throws tx r : breaks_first tx r → CheckTransaction params tx = Throw r.
Proof.
  destruct 1 as [E|E1 E2|E1 E2 E3|pre o post r Hs E Hp Hf|Hs Hp Hd|i Hs Hp Hd Hcb Hi Hl|i Hs Hp Hd Hcb Hi Hl].
  - unfold CheckTransaction. by rewrite E.
  - unfold CheckTransaction. rewrite E2. by destruct (vin tx).
  - unfold CheckTransaction. rewrite (proj2 (Z.ltb_lt _ _) E3). by destruct (vin tx), (vout tx).
  - rewrite (well_shaped_spec tx Hs). rewrite (proj2 (check_outputs_verdict tx r)); [done|]. by exists pre, o, post.
  - rewrite (well_shaped_spec tx Hs), (proj2 (outputs_pass_check tx) Hp). cbn [rbind].
    destruct (check_duplicates (vin tx) []) as [[]|e] eqn:Ed; [by apply no_duplicates_check in Ed|].
    by rewrite (check_duplicates_throw _ _ _ Ed).
  - rewrite (well_shaped_spec tx Hs), (proj2 (outputs_pass_check tx) Hp), (proj2 (no_duplicates_check tx) Hd). cbn [rbind].
    apply check_prevouts_throw. left. split_and!; [done..|by exists i].
  - rewrite (well_shaped_spec tx Hs), (proj2 (outputs_pass_check tx) Hp), (proj2 (no_duplicates_check tx) Hd). cbn [rbind].
    apply check_prevouts_throw. right. split_and!; [done..|by exists i].
Qed.

(** What connecting a block relies on. *)
Lemma accepted_plain tx : tx_accepted tx → Forall (λ i, 0 <= out_n (prevout i)) (vin tx) → tx_plain tx.
Proof.
  intros [_ _ _ _ _ Hd [_ Hp2]] Hn. split.
  - unfold tx_IsZerocoinSpend. destruct (IsCoinBase tx) eqn:Hcb.
    + apply not_true_iff_false. intros Hz. unfold IsCoinBase, ContainsZerocoins, tx_IsZerocoinSpend in Hcb.
      destruct (vin tx) as [|i [|]]; [done| |done]. by rewrite Hz, andb_false_r in Hcb.
    + destruct (vin tx) as [|i ins] eqn:Ei; [done|]. by rewrite (Hp2 eq_refl i (list_elem_of_here _ _)).
  - unfold spent_keys. rewrite <- (map_map prevout out_key). apply NoDup_fmap_2_strong; [|done].
    intros a b Ha Hb. unfold out_key. intros [= E1 E2]. rewrite Forall_forall in Hn.
    apply list_elem_of_fmap in Ha as (x & -> & Hx). apply list_elem_of_fmap in Hb as (y & -> & Hy).
    specialize (Hn x Hx) as Hnx. specialize (Hn y Hy). destruct (prevout x), (prevout y). cbn in *. f_equal; [done|lia].
Qed.

Lemma accepted_values tx :
  tx_accepted tx →
  Forall (λ o, txout_IsNull o = false) (vout tx) ∧ GetValueOut tx = Ok (sum_values (vout tx)).
Proof.
  intros [_ _ _ Ho Hs _ _]. split; [eapply Forall_impl; [exact Ho|]; intros o [? _]; apply Z.eqb_neq; lia|].
  assert (Forall (λ o, is_s64 (nValue o)) (vout tx)) as Hb
    by (eapply Forall_impl; [exact Ho|]; intros o [? _]; unfold in_sw; simpl; lia).
  destruct (GetValueOut_loop (vout tx) 0 Hb ltac:(lia)) as [E Hv]. unfold GetValueOut.
  destruct (proj2 Hv) as [v Ev]; [split; [eapply Forall_impl; [exact Ho|]; intros o [? _]; lia|lia]|].
  rewrite Ev in *. by injection E as ->.
Qed.
End accepts.


Definition ex_spend : CTransaction :=
  mkTx (replicate 32 6) 1 [new_txin (mkOutPoint ex_key 1) [OP_1] 0] [new_txout 400 [OP_DUP]; new_txout 20 [OP_RETURN]] 0.

(** Its second output is too large, and its total is too. *)
Definition ex_greedy : CTransaction :=
  mkTx (replicate 32 6) 1 [new_txin (mkOutPoint ex_key 1) [OP_1] 0] [new_txout 400 [OP_DUP]; new_txout (2 ^ 60) [OP_RETURN]] 0.


(** ** What CheckInputs accepts *)

Section inputs_rules.
Context {V : Type} `{HV : CoinsView V, !CoinsViewReads V}.
Abbreviation Cache := (CCoinsViewCache V).
Variable params : CChainParams.
Variable ecdsa_verify : CPubKey → hash256 → list Z → bool.
Hypothesis Hmax : 0 <= nMaxMoneyOut params < 2 ^ 62.

Lemma AccessCoins_available (c : Cache) o x :
  cache_inv c → lookup_output (cache_abs c) o = Some x →
  ∃ coins c', AccessCoins c (out_hash o) = (c', Some coins) ∧ quiet c c' ∧
    cache_abs c (out_hash o) = Some coins ∧ c_vout coins !! Z.to_nat (out_n o) = Some x.
Proof.
  intros Hc Hx. pose proof (AccessCoins_quiet c (out_hash o) Hc) as Hq. unfold AccessCoins in *.
  pose proof (FetchCoins_spec c (out_hash o) Hc) as H. destruct (FetchCoins c (out_hash o)) as [c' r]. cbn [fst] in Hq.
  destruct H as (_ & _ & _ & _ & _ & Hr). unfold lookup_output in Hx.
  destruct (cache_abs c (out_hash o)) as [coins|] eqn:Ec; [|done]. destruct r as [e|]; [|done].
  destruct (unspent_Some _ _ Hr) as [-> _]. exists (e_coins e), c'. split_and!; try done.
  by destruct (IsAvailable _ _).
Qed.

Lemma inputs_are_checked (c : Cache) tx :
  cache_inv c → IsCoinBase tx = false → tx_IsZerocoinSpend tx = false →
  ((HaveInputs c tx).2 = true → Forall (λ i, is_Some (lookup_output (cache_abs c) (prevout i))) (vin tx)) ∧
  ((HaveInputs c tx).2 = false → ¬ Forall (λ i, is_Some (lookup_output (cache_abs c) (prevout i))) (vin tx)).
Proof.
  intros Hc Hcb Hz. unfold HaveInputs. rewrite Hcb, Hz. cbn [negb andb].
  pose proof (HaveInputs_loop_spec (vin tx) c (cache_abs c) Hc ltac:(done)) as H.
  destruct (HaveInputs_loop c (vin tx)) as [c' b]. cbn [snd]. destruct H as (_ & _ & H). split; [apply H|].
  intros -> Hall. by apply H in Hall.
Qed.

(** The rules for one input: maturity and the money range. *)
Definition input_rule (m : hash256 → option CCoins) (nSpendHeight : Z) (i : CTxIn) : Prop :=
  ∃ coins o, m (out_hash (prevout i)) = Some coins ∧ lookup_output m (prevout i) = Some o ∧
    (fCoinBase coins || fCoinStake coins = true → nMaturity params <= nSpendHeight - c_nHeight coins) ∧
    0 <= nValue o <= nMaxMoneyOut params.

Lemma quiet_lookup (c c' : Cache) o : quiet c c' → lookup_output (cache_abs c') o = lookup_output (cache_abs c) o.
Proof. intros (_ & H & _). unfold lookup_output. by rewrite H. Qed.

Lemma sum_outputs_nonneg m h ins : Forall (input_rule m h) ins → 0 <= sum_outputs m ins.
Proof.
  induction 1 as [|j l (x & y & _ & Hy & _ & Hv) _ IH]; [done|]. unfold sum_outputs in *. simpl. rewrite Hy. lia.
Qed.

Lemma check_values_spec ins (c : Cache) m h n :
  cache_inv c → (∀ k, cache_abs c k = m k) → Forall (λ i, is_Some (lookup_output m (prevout i))) ins →
  0 <= h < 2 ^ 31 → (∀ k x, m k = Some x → 0 <= c_nHeight x < 2 ^ 31) → 0 <= n <= nMaxMoneyOut params →
  ∃ r, check_values params c ins h n = Some r ∧
    match r with
    | Ok (c', v) => quiet c c' ∧ Forall (input_rule m h) ins ∧ v = n + sum_outputs m ins ∧ 0 <= v <= nMaxMoneyOut params
    | Throw _ => ¬ (Forall (input_rule m h) ins ∧ n + sum_outputs m ins <= nMaxMoneyOut params)
    end.
Proof.
  intros Hc Hm Hav Hh Hcs. revert c n Hc Hm. induction Hav as [|i ins [o Ho] Hav IH]; intros c n Hc Hm Hn; cbn [check_values].
  { eexists. split; [done|]. split; [done|]. split; [constructor|]. cbn. lia. }
  assert (lookup_output (cache_abs c) (prevout i) = Some o) as Hoc by (rewrite <- Ho; unfold lookup_output; by rewrite Hm).
  destruct (AccessCoins_available c (prevout i) o Hc Hoc) as (coins & c1 & E & Hq & Ec & Ex). rewrite E, Ex.
  rewrite Hm in Ec. specialize (Hcs _ _ Ec) as Hch.
  rewrite (swrap_small 32) by (unfold in_sw; simpl in *; lia).
  assert (sum_outputs m (i :: ins) = nValue o + sum_outputs m ins) as Es by (unfold sum_outputs; simpl; by rewrite Ho).
  assert (input_rule m h i ↔
    ((fCoinBase coins || fCoinStake coins) && (h - c_nHeight coins <? nMaturity params) = false ∧ MoneyRange params (nValue o) = true)) as Hrule.
  { unfold MoneyRange. rewrite andb_true_iff, !Z.leb_le. split.
    - intros (x & y & Hx & Hy & Hmat & Hv). rewrite Ec in Hx. injection Hx as <-. rewrite Ho in Hy. injection Hy as <-.
      split; [|done]. destruct (_ || _); [|done]. apply Z.ltb_ge. by apply Hmat.
    - intros [Hmat [Hv1 Hv2]]. exists coins, o. split_and!; try done. intros Hb. rewrite Hb in Hmat. by apply Z.ltb_ge in Hmat. }
  rewrite Es.
  destruct ((fCoinBase coins || fCoinStake coins) && _).
  { eexists. split; [done|]. intros [Hall _]. apply Forall_cons in Hall as [Hi _]. by apply Hrule in Hi as [? _]. }
  destruct (MoneyRange params (nValue o)) eqn:Er; cbn [negb orb].
  2: { eexists. split; [done|]. intros [Hall _]. apply Forall_cons in Hall as [Hi _]. by apply Hrule in Hi as [_ ?]. }
  assert (0 <= nValue o <= nMaxMoneyOut params) as Hv by (unfold MoneyRange in Er; rewrite andb_true_iff, !Z.leb_le in Er; lia).
  rewrite swrap_small by (unfold in_sw; simpl; lia).
  destruct (MoneyRange params (n + nValue o)) eqn:Er2; cbn [negb]; unfold MoneyRange in Er2.
  - rewrite andb_true_iff, !Z.leb_le in Er2. destruct Hq as (Hc1 & Ha1 & Hb1).
    destruct (IH c1 (n + nValue o) Hc1 ltac:(intros k; by rewrite Ha1) ltac:(lia)) as (r & Er3 & Hr). exists r.
    split; [done|]. destruct r as [[c' v]|]; rewrite Forall_cons.
    + destruct Hr as (Hq' & Hall & -> & Hv'). split; [by apply (quiet_trans c c1)|]. split; [by split; [apply Hrule|]|lia].
    + intros [[_ Hall] Hs]. apply Hr. split; [done|lia].
  - eexists. split; [done|]. intros [[_ Hall]%Forall_cons Hs].
    pose proof (sum_outputs_nonneg _ _ _ Hall). apply not_true_iff_false in Er2. apply Er2.
    rewrite andb_true_iff, !Z.leb_le. lia.
Qed.

(** The scripts of the inputs, the first of which has index [n]. *)
Definition scripts_ok (m : hash256 → option CCoins) (tx : CTransaction) (flags : Z) (n : nat) (ins : list CTxIn) : Prop :=
  ∀ j i, ins !! j = Some i → ∃ o, lookup_output m (prevout i) = Some o ∧
    script_check ecdsa_verify (scriptPubKey o) tx (n + j) flags = Ok ().

Lemma scripts_ok_cons m tx flags n i ins o :
  lookup_output m (prevout i) = Some o →
  scripts_ok m tx flags n (i :: ins) ↔
  script_check ecdsa_verify (scriptPubKey o) tx n flags = Ok () ∧ scripts_ok m tx flags (S n) ins.
Proof.
  intros Ho. split.
  - intros H. split.
    + destruct (H 0%nat i eq_refl) as (x & Hx & Hs). rewrite Ho in Hx. injection Hx as <-. by rewrite Nat.add_0_r in Hs.
    + intros j k Hk. destruct (H (S j) k Hk) as (x & Hx & Hs). exists x. split; [done|].
      by replace (S n + j)%nat with (n + S j)%nat by lia.
  - intros [H1 H2] [|j] k Hk.
    + injection Hk as <-. exists o. by rewrite Nat.add_0_r.
    + destruct (H2 j k Hk) as (x & Hx & Hs). exists x. split; [done|].
      by replace (n + S j)%nat with (S n + j)%nat by lia.
Qed.

Lemma check_scripts_spec tx flags ins (c : Cache) m n :
  cache_inv c → (∀ k, cache_abs c k = m k) → Forall (λ i, is_Some (lookup_output m (prevout i))) ins →
  ∃ r, check_scripts ecdsa_verify c tx ins n flags = Some r ∧
    match r with
    | Ok c' => quiet c c' ∧ scripts_ok m tx flags n ins
    | Throw _ => ¬ scripts_ok m tx flags n ins
    end.
Proof.
  intros Hc Hm Hav. revert c n Hc Hm. induction Hav as [|i ins [o Ho] Hav IH]; intros c n Hc Hm; cbn [check_scripts].
  { eexists. split; [done|]. split; [done|]. intros j i Hj. by rewrite lookup_nil in Hj. }
  assert (lookup_output (cache_abs c) (prevout i) = Some o) as Hoc by (rewrite <- Ho; unfold lookup_output; by rewrite Hm).
  destruct (AccessCoins_available c (prevout i) o Hc Hoc) as (coins & c1 & E & Hq & _ & Ex). rewrite E.
  cbn [mbind option_bind]. rewrite Ex. pose proof (scripts_ok_cons m tx flags n i ins o Ho) as Hcons.
  destruct (script_check ecdsa_verify (scriptPubKey o) tx n flags) as [[]|e] eqn:Es.
  - destruct Hq as (Hc1 & Ha1 & Hb1). destruct (IH c1 (S n) Hc1 ltac:(intros k; by rewrite Ha1)) as (r & Er & Hr).
    exists r. split; [done|]. destruct r as [c'|].
    + destruct Hr as [Hq' Hr]. split; [by apply (quiet_trans c c1)|]. by apply Hcons.
    + intros H. by apply Hr, Hcons.
  - assert (¬ scripts_ok m tx flags n (i :: ins)) as Hno by (intros H; apply Hcons in H as [H _]; discriminate).
    destruct (negb _); [|by eexists].
    destruct (script_check ecdsa_verify (scriptPubKey o) tx n (Z.land flags _)); by eexists.
Qed.

Lemma check_fees_spec tx v :
  Forall (λ o, is_s64 (nValue o)) (vout tx) → 0 <= v <= nMaxMoneyOut params →
  check_fees params tx v = Ok () ↔
  (IsCoinStake tx = false → ∃ out, GetValueOut tx = Ok out ∧ out <= v).
Proof.
  intros Hs Hv. unfold check_fees. destruct (IsCoinStake tx); [done|].
  pose proof (GetValueOut_loop (vout tx) 0 Hs ltac:(lia)) as [E Hiff]. fold (GetValueOut tx) in E, Hiff.
  destruct (GetValueOut tx) as [out|e]; [|split; [discriminate|intros H; by destruct (H eq_refl) as (? & [=] & _)]].
  assert (0 <= out) as H0.
  { injection E as ->. destruct (proj1 Hiff (ex_intro _ _ eq_refl)) as [Hp _]. pose proof (sum_values_nonneg _ Hp). lia. }
  destruct (Z.ltb_spec v out).
  { split; [discriminate|]. intros H'. destruct (H' eq_refl) as (out' & [= <-] & ?). lia. }
  rewrite swrap_small by (unfold in_sw; simpl; lia).
  rewrite (proj2 (Z.ltb_ge _ _)) by lia. unfold MoneyRange. rewrite !(proj2 (Z.leb_le _ _)) by lia.
  split; [|done]. intros _ _. exists out. split; [done|lia].
Qed.

(** All rules of CheckInputs, on the map of unspent coins. *)
Record inputs_accepted (m : hash256 → option CCoins) (nSpendHeight : Z) (tx : CTransaction) (fScriptChecks : bool)
    (flags : Z) : Prop := {
  ia_inputs : Forall (input_rule m nSpendHeight) (vin tx);
  ia_total : sum_outputs m (vin tx) <= nMaxMoneyOut params;
  ia_value : IsCoinStake tx = false → ∃ out, GetValueOut tx = Ok out ∧ out <= sum_outputs m (vin tx);
  ia_scripts : fScriptChecks = true → scripts_ok m tx flags 0 (vin tx)
}.
End inputs_rules.

Lemma check_inputs_spec V (HV : CoinsView V) (HO : CoinsViewReads V) params ecdsa_verify height
    (c : CCoinsViewCache V) tx fScriptChecks flags h :
  0 <= nMaxMoneyOut params < 2 ^ 62 → cache_inv c →
  IsCoinBase tx = false → tx_IsZerocoinSpend tx = false → Forall (λ o, is_s64 (nValue o)) (vout tx) →
  height (cache_best c) = Some h → 0 <= h < 2 ^ 31 - 1 →
  (∀ k x, cache_abs c k = Some x → 0 <= c_nHeight x < 2 ^ 31) →
  ∃ r, CheckInputs params ecdsa_verify height c tx fScriptChecks flags = Some r ∧
    match r with
    | Ok c' => quiet c c' ∧ inputs_accepted params ecdsa_verify (cache_abs c) (h + 1) tx fScriptChecks flags
    | Throw _ => ¬ inputs_accepted params ecdsa_verify (cache_abs c) (h + 1) tx fScriptChecks flags
    end.
Proof.
  intros Hmax Hc Hcb Hz Hs Hh Hh2 Hcs. unfold CheckInputs.
  pose proof (HaveInputs_quiet c tx Hc) as Hq.
  destruct (inputs_are_checked c tx Hc Hcb Hz) as [Hyes Hno].
  destruct (HaveInputs c tx) as [c1 b]. cbn [fst snd] in *. destruct b; cbn [negb].
  2: { eexists. split; [done|]. intros [Hall _ _ _]. apply (Hno eq_refl). eapply Forall_impl; [exact Hall|].
       intros i (x & o & _ & Ho & _). eauto. }
  specialize (Hyes eq_refl). destruct (GetBestBlock_quiet c1 (proj1 Hq)) as [Hq2 Hb2].
  destruct (cache_GetBestBlock c1) as [c2 best]. cbn [fst snd] in *. subst best.
  rewrite (proj2 (proj2 Hq)), Hh. rewrite (swrap_small 32) by (unfold in_sw; simpl; lia).
  pose proof (quiet_trans _ _ _ Hq Hq2) as (Hc2 & Ha2 & Hb2).
  destruct (check_values_spec params Hmax (vin tx) c2 (cache_abs c) (h + 1) 0 Hc2 Ha2 Hyes ltac:(lia) Hcs ltac:(lia))
    as (r & -> & Hr). destruct r as [[c3 v]|e].
  2: { eexists. split; [done|]. intros [Hall Ht _ _]. apply Hr. split; [done|]. by rewrite Z.add_0_l. }
  destruct Hr as (Hq3 & Hall & -> & Hv). rewrite Z.add_0_l in *.
  pose proof (check_fees_spec params Hmax tx _ Hs Hv) as Hf.
  destruct (check_fees params tx _) as [[]|e].
  2: { eexists. split; [done|]. intros [_ _ Hval _]. enough (Throw e = Ok ()) by done. by apply Hf. }
  pose proof (proj1 Hf eq_refl) as Hval. destruct Hq3 as (Hc3 & Ha3 & Hb3).
  assert (quiet c c3) as Hq03 by (split; [done|]; split; [intros k; by rewrite Ha3|by rewrite Hb3]).
  destruct fScriptChecks.
  - destruct (check_scripts_spec ecdsa_verify tx flags (vin tx) c3 (cache_abs c) 0 Hc3 ltac:(apply Hq03) Hyes)
      as (r & -> & Hr). exists r. split; [done|]. destruct r as [c4|].
    + destruct Hr as [Hq4 Hsc]. split; [by apply (quiet_trans c c3)|]. by split; [|lia| |].
    + intros [_ _ _ Hsc]. auto.
  - eexists. split; [done|]. split; [done|]. by split; [|lia| |].
Qed.

(** C17: CheckInputs, for a transaction that is no coinbase and no zerocoin spend,
    never fails an assertion, and accepts exactly if every input is unspent, is
    mature if it comes from a coinbase or coinstake, and is worth an amount in the
    money range, as is their sum; the outputs are not worth more (a coinstake is
    exempt); and, when scripts are checked, every input's script verifies under
    the given flags. The coins do not change. *)
Theorem check_inputs_accepts V (HV : CoinsView V) (HO : CoinsViewOk V) params ecdsa_verify height
    (c : CCoinsViewCache V) tx fScriptChecks flags h :
  0 <= nMaxMoneyOut params < 2 ^ 62 → cache_inv c →
  IsCoinBase tx = false → tx_IsZerocoinSpend tx = false → Forall (λ o, is_s64 (nValue o)) (vout tx) →
  height (cache_best c) = Some h → 0 <= h < 2 ^ 31 - 1 →
  (∀ k x, cache_abs c k = Some x → 0 <= c_nHeight x < 2 ^ 31) →
  ∃ r, CheckInputs params ecdsa_verify height c tx fScriptChecks flags = Some r ∧
    match r with
    | Ok c' => quiet c c' ∧ inputs_accepted params ecdsa_verify (cache_abs c) (h + 1) tx fScriptChecks flags
    | Throw _ => ¬ inputs_accepted params ecdsa_verify (cache_abs c) (h + 1) tx fScriptChecks flags
    end.
Proof. apply check_inputs_spec. Qed.

(** A signature check that accepts everything, and a spend of the example coins
    by an empty-looking script: the outputs are worth 420 of 500. *)
Definition ex_height (k : hash256) : option Z := if bool_decide (k = ex_prev) then Some 40 else None.

Lemma check_inputs_accepts_witness :
  ∃ c', CheckInputs CMainParams (λ _ _ _, true) ex_height (ex_cache_of ex_old_coins) ex_spend true SCRIPT_VERIFY_P2SH
        = Some (Ok c') ∧
    inputs_accepted CMainParams (λ _ _ _, true) (cache_abs (ex_cache_of ex_old_coins)) 41 ex_spend true SCRIPT_VERIFY_P2SH.
Proof.
  destruct (check_inputs_accepts CCoinsViewDB _ DB_ok CMainParams (λ _ _ _, true) ex_height (ex_cache_of ex_old_coins) ex_spend
    true SCRIPT_VERIFY_P2SH 40 ltac:(split; [discriminate|reflexivity]) (ex_cache_inv ex_old_coins eq_refl) eq_refl eq_refl
    ltac:(repeat constructor; discriminate) eq_refl ltac:(split; [discriminate|reflexivity])) as (r & E & Hr).
  - intros k x H. destruct (ex_cache_abs _ _ _ H) as [_ ->]. split; [discriminate|reflexivity].
  - assert (match CheckInputs CMainParams (λ _ _ _, true) ex_height (ex_cache_of ex_old_coins) ex_spend true SCRIPT_VERIFY_P2SH
      with Some (Ok _) => True | _ => False end) as Hok by (vm_compute; exact I).
    rewrite E in Hok. destruct r as [c'|]; [|destruct Hok]. exists c'. split; [exact E|]. exact (proj2 Hr).
Defined.
