(* ===== verification/Reward.v ===== *)
(** * main.cpp: block rewards and masternode payments

    The schedules are chains of comparisons in the source; here each is a table of
    rows (low, high, amount), searched for the first row with low < height <= high. *)

From S2P Require Import Prelude Uint256 Params.

Fixpoint table_value (unit : Z) (rows : list (Z * Z * Z)) (nHeight : Z) : Z :=
  match rows with
  | [] => 0
  | (low, high, v) :: rows =>
      if (low <? nHeight) && (nHeight <=? high) then v * unit else table_value unit rows nHeight
  end.

Definition block_values : list (Z * Z * Z) :=
  [
    (0, 43201, 15); (43201, 57601, 10); (57601, 72001, 20); (72001, 86401, 30); (86401, 100801, 40);
    (100801, 144001, 50); (144001, 273601, 55); (273601, 316801, 50); (316801, 360001, 45);
    (360001, 403201, 40); (403201, 446401, 35); (446401, 489601, 30); (489601, 532802, 25);
    (532802, 576003, 24); (576003, 662404, 23); (662404, 748805, 22); (748805, 835206, 21);
    (835206, 969127, 20); (969127, 1098728, 19); (1098728, 1228329, 18); (1228329, 1357930, 17);
    (1357930, 1487531, 16); (1487531, 1660332, 15); (1660332, 1833133, 14); (1833133, 2049134, 13);
    (2049134, 2265135, 12); (2265135, 2481136, 11); (2481136, 2697137, 10); (2697137, 2956338, 9);
    (2956338, 3215539, 8); (3215539, 3474740, 7); (3474740, 3733941, 6); (3733941, 3993142, 5);
    (3993142, 4338743, 4); (4338743, 4684344, 3); (4684344, 5029945, 2); (5029945, 5314421, 1);
    (5314421, 9999999, 0)
  ].

Definition test_block_values : list (Z * Z * Z) := [(0, 500, 15); (500, 999999, 30)].

Definition GetBlockValue (params : CChainParams) (nHeight : Z) : Z :=
  if nHeight =? 0 then 33000000 * COIN
  else match networkID params with
       | MAIN => table_value COIN block_values nHeight
       | _ => table_value COIN test_block_values nHeight
       end.

(** Amounts in half coins: [27.5 * COIN] and the like are exact in a double. *)
Definition payment_values : list (Z * Z * Z) :=
  [
    (43201, 57601, 0); (57601, 72001, 20); (72001, 86401, 30); (86401, 100801, 40); (100801, 144001, 50);
    (144001, 273601, 55); (273601, 316801, 50); (316801, 360001, 45); (360001, 403201, 40);
    (403201, 446401, 35); (446401, 489601, 30); (489601, 532802, 25); (532802, 576003, 24);
    (576003, 662404, 23); (662404, 748805, 22); (748805, 835206, 21); (835206, 969127, 20);
    (969127, 1098728, 19); (1098728, 1228329, 18); (1228329, 1357930, 17); (1357930, 1487531, 16);
    (1487531, 1660332, 15); (1660332, 1833133, 14); (1833133, 2049134, 13); (2049134, 2265135, 12);
    (2265135, 2481136, 11); (2481136, 2697137, 10); (2697137, 2956338, 9); (2956338, 3215539, 8);
    (3215539, 3474740, 7); (3474740, 3733941, 6); (3733941, 3993142, 5); (3993142, 4338743, 4);
    (4338743, 4684344, 3); (4684344, 5029945, 2); (5029945, 5314421, 1); (5314421, 9999999, 0)
  ].

Definition GetMasternodePayment (params : CChainParams) (nHeight blockValue nMasternodeCount : Z) : Z :=
  match networkID params with
  | MAIN => if (0 <=? nHeight) && (nHeight <=? 43201) then 0 else table_value (COIN / 2) payment_values nHeight
  | _ => if nHeight <? 501 then 0 else 15 * COIN
  end.

(** ** Tables *)

(** The rows of a table follow each other from [first] on. *)
Fixpoint contiguous (first : Z) (rows : list (Z * Z * Z)) : bool :=
  match rows with
  | [] => true
  | (low, high, _) :: rows => (low =? first) && (low <=? high) && contiguous high rows
  end.

(** What a table gives for the heights up to [n] in all. *)
Definition table_total (rows : list (Z * Z * Z)) (n : Z) : Z :=
  foldr (λ '(low, high, v) s, Z.max 0 (Z.min n high - low) * v + s) 0 rows.

Lemma table_value_low unit rows first h : contiguous first rows = true → h <= first → table_value unit rows h = 0.
Proof.
  revert first. induction rows as [|[[low high] v] rows IH]; intros first Hc Hh; [done|]. cbn [contiguous table_value] in *.
  rewrite !andb_true_iff, Z.eqb_eq, Z.leb_le in Hc. destruct Hc as [[-> Hlh] Hc].
  rewrite (proj2 (Z.ltb_ge _ _)) by lia. cbn [andb]. apply (IH high); [done|lia].
Qed.

Lemma table_total_low rows first n : contiguous first rows = true → n <= first → table_total rows n = 0.
Proof.
  revert first. induction rows as [|[[low high] v] rows IH]; intros first Hc Hn; [done|]. cbn [contiguous] in Hc.
  rewrite !andb_true_iff, Z.eqb_eq, Z.leb_le in Hc. destruct Hc as [[-> Hlh] Hc].
  unfold table_total in *. cbn [foldr]. rewrite (IH high) by (done || lia). rewrite Z.max_l by lia. lia.
Qed.

(** One more height adds its value. *)
Lemma table_total_step unit rows first n :
  contiguous first rows = true →
  unit * table_total rows (n + 1) = unit * table_total rows n + table_value unit rows (n + 1).
Proof.
  revert first. induction rows as [|[[low high] v] rows IH]; intros first Hc; [cbn; lia|]. cbn [contiguous] in Hc.
  rewrite !andb_true_iff, Z.eqb_eq, Z.leb_le in Hc. destruct Hc as [[-> Hlh] Hc].
  specialize (IH high Hc). cbn [table_value].
  assert (∀ m, table_total ((first, high, v) :: rows) m = Z.max 0 (Z.min m high - first) * v + table_total rows m) as E by done.
  rewrite !E, !Z.mul_add_distr_l, IH.
  destruct (Z.ltb_spec first (n + 1)), (Z.leb_spec (n + 1) high); cbn [andb].
  - rewrite (table_value_low unit rows high (n + 1)) by (done || lia).
    assert (Z.max 0 (Z.min (n + 1) high - first) = n - first + 1) as -> by lia.
    assert (Z.max 0 (Z.min n high - first) = n - first) as -> by lia. lia.
  - assert (Z.min (n + 1) high = Z.min n high) as -> by lia. lia.
  - assert (Z.max 0 (Z.min (n + 1) high - first) = 0) as -> by lia.
    assert (Z.max 0 (Z.min n high - first) = 0) as -> by lia. lia.
  - assert (Z.min (n + 1) high = Z.min n high) as -> by lia. lia.
Qed.

Lemma table_value_cases unit rows h :
  table_value unit rows h = 0 ∨
  ∃ low high v, (low, high, v) ∈ rows ∧ low < h <= high ∧ table_value unit rows h = v * unit.
Proof.
  induction rows as [|[[low high] v] rows IH]; [by left|]. cbn [table_value].
  destruct (Z.ltb_spec low h), (Z.leb_spec h high); cbn [andb];
    [right; exists low, high, v; split; [left|done]|..];
    (destruct IH as [IH|(l & u & w & Hin & Hh & E)]; [by left|right; exists l, u, w; split; [by right|done]]).
Qed.

(** ** The main network *)

(** The coins created up to a height. *)
Definition supply (params : CChainParams) (n : Z) : Z :=
  foldr (λ h s, GetBlockValue params h + s) 0 (seqZ 0 (n + 1)).

Lemma supply_step params n : 0 <= n → supply params (n + 1) = supply params n + GetBlockValue params (n + 1).
Proof.
  intros Hn. unfold supply. replace (seqZ 0 (n + 1 + 1)) with (seqZ 0 (n + 1) ++ [n + 1]).
  - generalize (seqZ 0 (n + 1)). intros l. induction l as [|x l IH]; simpl; [lia|]. rewrite IH. lia.
  - rewrite (seqZ_app 0 (n + 1) 1) by lia. by rewrite Z.add_0_l.
Qed.

Lemma supply_main n : 0 <= n → supply CMainParams n = 33000000 * COIN + COIN * table_total block_values n.
Proof.
  intros Hn. pattern n. apply natlike_ind; [reflexivity| |done]. clear n Hn. intros n Hn IH.
  unfold Z.succ. rewrite supply_step, IH by done. rewrite (table_total_step COIN block_values 0 n) by reflexivity.
  unfold GetBlockValue. rewrite (proj2 (Z.eqb_neq _ _)) by lia. cbn [networkID CMainParams]. lia.
Qed.

(** From the last row on nothing is added: the amount of that row is 0. *)
Lemma table_total_end n : 5314421 <= n → table_total block_values n = table_total block_values 9999999.
Proof.
  intros Hn. unfold table_total, block_values. cbn [foldr].
  repeat (rewrite (Z.min_r n) by lia). rewrite !Z.mul_0_r. reflexivity.
Qed.

Lemma table_total_le rows n : forallb (λ '(_, _, v), 0 <=? v) rows = true → table_total rows n <= table_total rows (Z.max n 9999999).
Proof.
  induction rows as [|[[l u] v] rows IH]; [done|]. cbn [forallb]. rewrite andb_true_iff, Z.leb_le. intros [Hv Hr].
  specialize (IH Hr). unfold table_total in *. cbn [foldr].
  assert (Z.max 0 (Z.min n u - l) <= Z.max 0 (Z.min (Z.max n 9999999) u - l)) by lia. nia.
Qed.

(** The payments, in half coins, are the rewards but for the first rows. *)
Lemma half_table h : 57601 < h → 2 * table_value (COIN / 2) payment_values h = table_value COIN (drop 2 block_values) h.
Proof.
  intros Hh. assert (payment_values = (43201, 57601, 0) :: drop 2 block_values) as -> by reflexivity.
  cbn [table_value]. rewrite (proj2 (Z.leb_gt h 57601)), andb_false_r by lia.
  induction (drop 2 block_values) as [|[[l u] v] rows IH]; [done|]. cbn [table_value].
  destruct (_ && _); [|done]. change (COIN / 2) with 50000000. change COIN with 100000000. lia.
Qed.

(** The reward schedule of the main network: the coins created up to height n
    are 33 million and the rows of the schedule passed so far, so that from height
    5314421 on there are exactly 100000015 coins, 15 more than nMaxMoneyOut, and
    never more; a reward is at most 55 coins after the first block; and the
    masternode payment is exactly half the reward from height 57602 on, and 0
    before. *)
Theorem reward_schedule :
  (∀ n, 0 <= n → supply CMainParams n = 33000000 * COIN + COIN * table_total block_values n) ∧
  (∀ n, 5314421 <= n → supply CMainParams n = nMaxMoneyOut CMainParams + 15 * COIN) ∧
  (∀ n, 0 <= n → supply CMainParams n <= nMaxMoneyOut CMainParams + 15 * COIN) ∧
  (∀ h, h ≠ 0 → 0 <= GetBlockValue CMainParams h <= 55 * COIN) ∧
  (∀ h v k, 57601 < h → 2 * GetMasternodePayment CMainParams h v k = GetBlockValue CMainParams h) ∧
  (∀ h v k, 0 <= h <= 57601 → GetMasternodePayment CMainParams h v k = 0).
Proof.
  split; [exact supply_main|]. split; [|split; [|split; [|split]]].
  - intros n Hn. rewrite supply_main by lia. rewrite table_total_end by (reflexivity || done). reflexivity.
  - intros n Hn. rewrite supply_main by lia. pose proof (table_total_le block_values n eq_refl) as H.
    replace (nMaxMoneyOut CMainParams + 15 * COIN) with (33000000 * COIN + COIN * table_total block_values 9999999) by reflexivity.
    rewrite (table_total_end (Z.max n 9999999)) in H by lia. apply Z.add_le_mono_l, Z.mul_le_mono_nonneg_l; [discriminate|exact H].
  - intros h Hh. unfold GetBlockValue. rewrite (proj2 (Z.eqb_neq _ _)) by done. cbn [networkID CMainParams].
    destruct (table_value_cases COIN block_values h) as [->|(l & u & v & Hin & _ & ->)]; [done|].
    assert (Forall (λ r, 0 <= r.2 <= 55) block_values) as Hall by (repeat constructor; discriminate).
    rewrite Forall_forall in Hall. specialize (Hall _ Hin). cbn in Hall. assert (0 < COIN) by done. nia.
  - intros h v k Hh. unfold GetMasternodePayment, GetBlockValue. cbn [networkID CMainParams].
    rewrite (proj2 (Z.leb_gt h 43201)), andb_false_r, (proj2 (Z.eqb_neq _ _)) by lia.
    rewrite half_table by done. change block_values with ((0, 43201, 15) :: (43201, 57601, 10) :: drop 2 block_values).
    cbn [table_value]. rewrite (proj2 (Z.leb_gt h 43201)), (proj2 (Z.leb_gt h 57601)), !andb_false_r by lia. done.
  - intros h v k Hh. unfold GetMasternodePayment. cbn [networkID CMainParams].
    destruct (Z.leb_spec h 43201); [by rewrite (proj2 (Z.leb_le 0 h)) by lia|]. rewrite andb_false_r.
    unfold payment_values. cbn [table_value].
    rewrite (proj2 (Z.ltb_lt 43201 h)), (proj2 (Z.leb_le h 57601)) by lia. done.
Qed.
