(* ===== verification/Merkle.v ===== *)
(** * primitives/block.cpp: Merkle trees of blocks

    BuildMerkleTree keeps all levels in one vector; the last hash of an odd level
    is paired with itself. GetMerkleBranch and CheckMerkleBranch give and check
    the path of a transaction. Only the hashes of the transactions matter here. *)

From S2P Require Import Prelude Serialize Script Digest Hashes Interp Tx.

Lemma Hash2_spec a b : Z.of_nat (length (a ++ b)) < 2 ^ 60 → Hash2 a b = fips_sha256 (fips_sha256 (a ++ b)).
Proof.
  intros Hl. pose proof (CHash256_pieces (blank 64) [a; b] eq_refl) as E. cbn [concat foldl] in E.
  rewrite app_nil_r in E. exact (E Hl).
Qed.

#[local] Opaque Hash Hash2.

(** The element of a vector that is in range. *)
Definition hash_at (v : list hash256) (i : nat) : hash256 := nth i v null_hash.

(** ** BuildMerkleTree *)

(** One turn of the inner loop: the level starts at [j] and has [nSize] hashes. *)
Definition merkle_turn (j nSize : nat) (st : list hash256 * bool) (i : nat) : list hash256 * bool :=
  let '(vMerkleTree, mutated) := st in
  let i2 := Nat.min (i + 1) (nSize - 1) in
  let left := hash_at vMerkleTree (j + i) in
  let right := hash_at vMerkleTree (j + i2) in
  (vMerkleTree ++ [Hash2 left right],
   if (i2 =? i + 1)%nat && (i2 + 1 =? nSize)%nat && bool_decide (left = right) then true else mutated).

(** [for (int i = 0; i < nSize; i += 2)]. *)
Definition merkle_level (j nSize : nat) (st : list hash256 * bool) : list hash256 * bool :=
  foldl (merkle_turn j nSize) st (map (λ k, 2 * k)%nat (seq 0 ((nSize + 1) / 2))).

(** [for (int nSize = vtx.size(); nSize > 1; nSize = (nSize + 1) / 2)]. *)
Fixpoint merkle_levels (fuel j nSize : nat) (st : list hash256 * bool) : list hash256 * bool :=
  match fuel with
  | O => st
  | S fuel =>
      if (1 <? nSize)%nat then merkle_levels fuel (j + nSize) ((nSize + 1) / 2) (merkle_level j nSize st) else st
  end.

(** The vector and [fMutated]. *)
Definition build_tree (txids : list hash256) : list hash256 * bool :=
  merkle_levels (length txids) 0 (length txids) (txids, false).

Definition BuildMerkleTree (txids : list hash256) : hash256 * bool :=
  let '(vMerkleTree, mutated) := build_tree txids in (default null_hash (last vMerkleTree), mutated).

(** ** Branches *)

Fixpoint branch_loop (fuel : nat) (vMerkleTree : list hash256) (j nSize : nat) (nIndex : Z) : list hash256 :=
  match fuel with
  | O => []
  | S fuel =>
      if (1 <? nSize)%nat
      then hash_at vMerkleTree (j + Nat.min (Z.to_nat (Z.lxor nIndex 1)) (nSize - 1))
           :: branch_loop fuel vMerkleTree (j + nSize) ((nSize + 1) / 2) (Z.shiftr nIndex 1)
      else []
  end.

Definition GetMerkleBranch (txids : list hash256) (nIndex : Z) : list hash256 :=
  branch_loop (length txids) (build_tree txids).1 0 (length txids) nIndex.

Fixpoint check_branch (hash : hash256) (vMerkleBranch : list hash256) (nIndex : Z) {struct vMerkleBranch} : hash256 :=
  match vMerkleBranch with
  | [] => hash
  | it :: branch =>
      check_branch (if negb (Z.land nIndex 1 =? 0) then Hash2 it hash else Hash2 hash it) branch (Z.shiftr nIndex 1)
  end.

Definition CheckMerkleBranch (hash : hash256) (vMerkleBranch : list hash256) (nIndex : Z) : hash256 :=
  if nIndex =? -1 then null_hash else check_branch hash vMerkleBranch nIndex.

(** ** Levels as lists *)

(** The level above, and whether its last pair is of equal hashes. *)
Fixpoint next_level (l : list hash256) : list hash256 :=
  match l with
  | a :: b :: r => Hash2 a b :: next_level r
  | [a] => [Hash2 a a]
  | [] => []
  end.

Fixpoint twins (l : list hash256) : bool :=
  match l with
  | [a; b] => bool_decide (a = b)
  | _ :: _ :: r => twins r
  | _ => false
  end.

(** All levels but the first, of a list that halves [fuel] times at most. *)
Fixpoint levels (fuel : nat) (l : list hash256) : list (list hash256) :=
  match fuel with
  | O => []
  | S fuel => if (1 <? length l)%nat then next_level l :: levels fuel (next_level l) else []
  end.

Fixpoint any_twins (fuel : nat) (l : list hash256) : bool :=
  match fuel with
  | O => false
  | S fuel => if (1 <? length l)%nat then twins l || any_twins fuel (next_level l) else false
  end.

Lemma length_next_level l : length (next_level l) = ((length l + 1) / 2)%nat.
Proof.
  induction l as [l IH] using (induction_ltof1 _ (@length _)); unfold ltof in IH.
  destruct l as [|a [|b r]]; [done|done|]. cbn [next_level length]. rewrite IH by (cbn; lia).
  replace (S (S (length r)) + 1)%nat with (length r + 1 + 1 * 2)%nat by lia. rewrite Nat.div_add by lia. lia.
Qed.

(** Induction on a list by two elements. *)
Lemma list_ind2 {A} (P : list A → Prop) :
  P [] → (∀ a, P [a]) → (∀ a b r, P r → P (a :: b :: r)) → ∀ l, P l.
Proof.
  intros H0 H1 H2. enough (∀ l, P l ∧ ∀ a, P (a :: l)) as H by (intros l; apply H).
  induction l as [|b l [IH1 IH2]]; [auto|]. split; [auto|]. intros a. by apply H2.
Qed.

Lemma half_SS n : ((S (S n) + 1) / 2 = S ((n + 1) / 2))%nat.
Proof. replace (S (S n) + 1)%nat with (n + 1 + 1 * 2)%nat by lia. rewrite Nat.div_add by lia. lia. Qed.

Lemma half_bounds n : (2 <= n → (n + 1) / 2 < n ∧ 1 <= (n + 1) / 2 ∧ n <= 2 * ((n + 1) / 2))%nat.
Proof.
  intros Hn. pose proof (Nat.div_mod (n + 1) 2 ltac:(lia)). pose proof (Nat.mod_upper_bound (n + 1) 2 ltac:(lia)). lia.
Qed.

(** The indices the inner loop visits, and what it makes of each. *)
Definition even_indices (n : nat) : list nat := map (λ k, 2 * k)%nat (seq 0 ((n + 1) / 2)).
Definition pair_hash (l : list hash256) (i : nat) : hash256 := Hash2 (hash_at l i) (hash_at l (Nat.min (i + 1) (length l - 1))).
Definition pair_twins (l : list hash256) (i : nat) : bool :=
  let i2 := Nat.min (i + 1) (length l - 1) in
  (i2 =? i + 1)%nat && (i2 + 1 =? length l)%nat && bool_decide (hash_at l i = hash_at l i2).

Lemma even_indices_SS n : even_indices (S (S n)) = 0%nat :: map (λ i, 2 + i)%nat (even_indices n).
Proof.
  unfold even_indices. rewrite half_SS. cbn [seq map]. f_equal. rewrite <- seq_shift, !map_map. apply map_ext. lia.
Qed.

Lemma even_indices_lt n i : i ∈ even_indices n → (i < n)%nat.
Proof.
  unfold even_indices. intros (k & -> & Hk)%list_elem_of_fmap. apply elem_of_seq in Hk.
  pose proof (Nat.div_mod (n + 1) 2 ltac:(lia)). lia.
Qed.

Lemma pair_shift a b r i : i ∈ even_indices (length r) →
  pair_hash (a :: b :: r) (2 + i) = pair_hash r i ∧ pair_twins (a :: b :: r) (2 + i) = pair_twins r i.
Proof.
  intros Hi%even_indices_lt. unfold pair_hash, pair_twins. cbn [length].
  replace (Nat.min (2 + i + 1) (S (S (length r)) - 1)) with (2 + Nat.min (i + 1) (length r - 1))%nat by lia.
  split; [done|]. cbn [Nat.add hash_at nth Nat.eqb]. done.
Qed.

Lemma next_level_pairs l : map (pair_hash l) (even_indices (length l)) = next_level l.
Proof.
  induction l as [|a|a b r IH] using list_ind2; [done|done|]. cbn [length]. rewrite even_indices_SS.
  cbn [map next_level]. f_equal. rewrite map_map, <- IH. apply map_ext_in. intros i Hi%list_elem_of_In.
  by apply pair_shift.
Qed.

Lemma twins_pairs l : existsb (pair_twins l) (even_indices (length l)) = twins l.
Proof.
  induction l as [|a|a b r IH] using list_ind2; [done|done|]. cbn [length]. rewrite even_indices_SS. cbn [existsb].
  assert (existsb (pair_twins (a :: b :: r)) (map (λ i, 2 + i)%nat (even_indices (length r))) = twins r) as ->.
  { rewrite <- IH. pose proof (λ i, pair_shift a b r i) as Hp. clear IH. revert Hp.
    induction (even_indices (length r)) as [|i ix IHi]; intros Hp; [done|].
    cbn [map existsb]. rewrite IHi by (intros j Hj; apply Hp; by right). f_equal. apply (Hp i). left. }
  unfold pair_twins at 1. cbn [length]. destruct r as [|c r]; [cbn; by rewrite orb_false_r|].
  cbn [length Nat.min Nat.sub Nat.add Nat.eqb andb orb twins]. done.
Qed.

(** The inner loop makes the level above, at the end of the vector. *)
Lemma merkle_level_spec v j l m :
  (∀ i, (i < length l)%nat → hash_at v (j + i) = hash_at l i) → (j + length l <= length v)%nat →
  merkle_level j (length l) (v, m) = (v ++ next_level l, m || twins l).
Proof.
  intros Hv Hlen. rewrite <- next_level_pairs, <- twins_pairs. unfold merkle_level.
  fold (even_indices (length l)). enough (∀ acc m, foldl (merkle_turn j (length l)) (v ++ acc, m) (even_indices (length l))
    = (v ++ acc ++ map (pair_hash l) (even_indices (length l)), m || existsb (pair_twins l) (even_indices (length l)))) as H.
  { specialize (H [] m). by rewrite app_nil_r in H. }
  pose proof (even_indices_lt (length l)) as Hlt. revert Hlt.
  induction (even_indices (length l)) as [|i ix IH]; intros Hlt acc m'; cbn [foldl map existsb].
  { by rewrite app_nil_r, orb_false_r. }
  unfold merkle_turn at 2. assert (i < length l)%nat as Hi by (apply Hlt; left).
  assert (∀ k, (k < length l)%nat → hash_at (v ++ acc) (j + k) = hash_at l k) as Hr
    by (intros k Hk; rewrite <- Hv by done; unfold hash_at; apply app_nth1; lia).
  rewrite !Hr by lia. rewrite <- (app_assoc v acc), IH by (intros k Hk; apply Hlt; by right).
  rewrite <- !app_assoc. cbn [app]. f_equal. unfold pair_twins at 2.
  destruct (_ && _ && _); [by rewrite orb_true_r|done].
Qed.

(** ** The whole tree *)

Fixpoint top (fuel : nat) (l : list hash256) : list hash256 :=
  match fuel with
  | O => l
  | S fuel => if (1 <? length l)%nat then top fuel (next_level l) else l
  end.

Lemma merkle_levels_spec fuel pre l m :
  merkle_levels fuel (length pre) (length l) (pre ++ l, m)
  = (pre ++ l ++ concat (levels fuel l), m || any_twins fuel l).
Proof.
  revert pre l m. induction fuel as [|fuel IH]; intros pre l m; cbn [merkle_levels levels any_twins].
  { cbn. by rewrite app_nil_r, orb_false_r. }
  destruct (1 <? length l)%nat; [|cbn; by rewrite app_nil_r, orb_false_r].
  rewrite merkle_level_spec.
  - rewrite <- length_next_level, <- length_app, IH. cbn [concat]. f_equal; [by rewrite <- !app_assoc|].
    by rewrite orb_assoc.
  - intros i Hi. unfold hash_at. rewrite app_nth2 by lia. f_equal. lia.
  - rewrite length_app. lia.
Qed.

Lemma next_level_nil l : next_level l = [] ↔ l = [].
Proof. destruct l as [|a [|b r]]; done. Qed.

Lemma last_levels fuel l : l ≠ [] → last (l ++ concat (levels fuel l)) = last (top fuel l).
Proof.
  revert l. induction fuel as [|fuel IH]; intros l Hl; cbn [levels top]; [by rewrite app_nil_r|].
  destruct (1 <? length l)%nat; [|by rewrite app_nil_r]. cbn [concat].
  assert (next_level l ≠ []) as Hn by (by rewrite next_level_nil). rewrite <- IH by done.
  rewrite last_app. destruct (last (next_level l ++ concat (levels fuel (next_level l)))) eqn:E; [done|].
  apply last_None in E. by destruct (next_level l).
Qed.

(** The fuel is enough: the top level has one hash. *)
Lemma length_top fuel l : l ≠ [] → (length l <= S fuel)%nat → length (top fuel l) = 1%nat.
Proof.
  revert l. induction fuel as [|fuel IH]; intros l Hl Hf; cbn [top].
  { destruct l as [|a [|]]; [done|done|simpl in Hf; lia]. }
  destruct (Nat.ltb_spec 1 (length l)).
  - apply IH; [by rewrite next_level_nil|]. rewrite length_next_level. pose proof (half_bounds (length l)). lia.
  - destruct l as [|a [|]]; [done|done|simpl in *; lia].
Qed.

Definition merkle_root (txids : list hash256) : hash256 := hash_at (top (length txids) txids) 0.

Lemma BuildMerkleTree_spec txids : BuildMerkleTree txids = (merkle_root txids, any_twins (length txids) txids).
Proof.
  unfold BuildMerkleTree, build_tree. pose proof (merkle_levels_spec (length txids) [] txids false) as E.
  cbn [app length orb] in E. rewrite E. f_equal. destruct txids as [|x l]; [done|].
  rewrite last_levels by done. unfold merkle_root.
  pose proof (length_top (length (x :: l)) (x :: l) ltac:(done) ltac:(lia)) as Ht.
  destruct (top _ _) as [|r [|]]; done.
Qed.

(** ** Branches *)

Lemma hash_at_next_level l k :
  (k < (length l + 1) / 2)%nat → hash_at (next_level l) k = pair_hash l (2 * k).
Proof.
  intros Hk. rewrite <- next_level_pairs. unfold even_indices. rewrite map_map. unfold hash_at.
  rewrite (nth_indep _ null_hash (pair_hash l (2 * 0)%nat)) by (rewrite length_map, length_seq; lia).
  rewrite (map_nth (λ k, pair_hash l (2 * k)%nat)), seq_nth by lia. done.
Qed.

Lemma lxor_1 z : Z.lxor z 1 = if Z.odd z then z - 1 else z + 1.
Proof.
  destruct (Z.odd z) eqn:E.
  - assert (z = 2 * (z / 2) + 1) as -> by (pose proof (Zmod_odd z) as H; rewrite E in H; pose proof (Z.div_mod z 2); lia).
    apply Z.bits_inj'. intros n Hn. rewrite Z.lxor_spec. replace (2 * (z / 2) + 1 - 1) with (2 * (z / 2)) by lia.
    destruct (Z.eq_dec n 0) as [->|Hn0]; [by rewrite Z.testbit_odd_0, Z.testbit_even_0|].
    replace n with (Z.succ (n - 1)) by lia. rewrite Z.testbit_odd_succ, Z.testbit_even_succ by lia.
    rewrite (Z.bits_above_log2 1) by (simpl; lia). by rewrite xorb_false_r.
  - assert (z = 2 * (z / 2)) as -> by (pose proof (Zmod_odd z) as H; rewrite E in H; pose proof (Z.div_mod z 2); lia).
    apply Z.bits_inj'. intros n Hn. rewrite Z.lxor_spec.
    destruct (Z.eq_dec n 0) as [->|Hn0]; [by rewrite Z.testbit_odd_0, Z.testbit_even_0|].
    replace n with (Z.succ (n - 1)) by lia. rewrite Z.testbit_odd_succ, Z.testbit_even_succ by lia.
    rewrite (Z.bits_above_log2 1) by (simpl; lia). by rewrite xorb_false_r.
Qed.

(** Following the branch of a hash leads to the root. *)
Lemma branch_spec fuel pre l i :
  (i < length l)%nat → (length l <= S fuel)%nat →
  check_branch (hash_at l i)
    (branch_loop fuel (pre ++ l ++ concat (levels fuel l)) (length pre) (length l) (Z.of_nat i)) (Z.of_nat i)
  = hash_at (top fuel l) 0.
Proof.
  revert pre l i. induction fuel as [|fuel IH]; intros pre l i Hi Hf; cbn [branch_loop levels top].
  { cbn [check_branch]. f_equal. lia. }
  destruct (Nat.ltb_spec 1 (length l)) as [Hl|Hl].
  2: { cbn [check_branch]. f_equal. lia. }
  cbn [check_branch concat]. pose proof (half_bounds (length l) ltac:(lia)).
  assert (∀ k, (k < length l)%nat →
    hash_at (pre ++ l ++ next_level l ++ concat (levels fuel (next_level l))) (length pre + k) = hash_at l k) as Hr.
  { intros k Hk. unfold hash_at. rewrite app_nth2 by lia. replace (length pre + k - length pre)%nat with k by lia.
    apply app_nth1. lia. }
  rewrite Hr by lia. rewrite Z.shiftr_div_pow2 by lia. change (2 ^ 1) with 2.
  assert (Z.of_nat i / 2 = Z.of_nat (i / 2)) as -> by (by rewrite Nat2Z.inj_div). rewrite <- length_next_level.
  assert (i / 2 < length (next_level l))%nat as Hi2.
  { rewrite length_next_level. pose proof (Nat.div_mod i 2 ltac:(lia)). pose proof (Nat.div_mod (length l + 1) 2 ltac:(lia)).
    pose proof (Nat.mod_upper_bound (length l + 1) 2 ltac:(lia)). lia. }
  specialize (IH (pre ++ l) (next_level l) (i / 2)%nat Hi2 ltac:(rewrite length_next_level; lia)).
  rewrite length_app, <- app_assoc in IH. rewrite <- IH. f_equal.
  rewrite hash_at_next_level by (rewrite <- length_next_level; done). unfold pair_hash.
  pose proof (Nat.div_mod i 2 ltac:(lia)) as Hdm. pose proof (Nat.mod_upper_bound i 2 ltac:(lia)).
  destruct (Nat.eqb_spec (i mod 2) 1) as [Hodd|Heven].
  - assert (Z.odd (Z.of_nat i) = true) as Ho by (rewrite Hdm, Hodd, Nat2Z.inj_add, Nat2Z.inj_mul, Z.odd_add, Z.odd_mul; done).
    replace (Z.land (Z.of_nat i) 1) with 1 by (change 1 with (Z.ones 1) at 2; rewrite Z.land_ones, Zmod_odd, Ho; done).
    replace (Z.lxor (Z.of_nat i) 1) with (Z.of_nat (i - 1)) by (rewrite lxor_1, Ho; lia).
    cbn [negb Z.eqb]. rewrite Nat2Z.id. f_equal; f_equal; lia.
  - assert (Z.odd (Z.of_nat i) = false) as Ho
      by (rewrite Hdm; replace (i mod 2)%nat with 0%nat by lia; rewrite Nat2Z.inj_add, Nat2Z.inj_mul, Z.odd_add, Z.odd_mul; done).
    replace (Z.land (Z.of_nat i) 1) with 0 by (change 1 with (Z.ones 1); rewrite Z.land_ones, Zmod_odd, Ho; done).
    replace (Z.lxor (Z.of_nat i) 1) with (Z.of_nat (i + 1)) by (rewrite lxor_1, Ho; lia).
    cbn [negb Z.eqb]. rewrite Nat2Z.id. f_equal; f_equal; lia.
Qed.

(** ** The root commits to the transactions *)

Fixpoint level_pairs (l : list hash256) : list (hash256 * hash256) :=
  match l with
  | a :: b :: r => (a, b) :: level_pairs r
  | [a] => [(a, a)]
  | [] => []
  end.

(** What is hashed to build a tree. *)
Fixpoint tree_pairs (fuel : nat) (l : list hash256) : list (hash256 * hash256) :=
  match fuel with
  | O => []
  | S fuel => if (1 <? length l)%nat then level_pairs l ++ tree_pairs fuel (next_level l) else []
  end.

(** No two different pairs that were hashed have the same hash. *)
Definition no_collision (ps : list (hash256 * hash256)) : Prop :=
  ∀ p q, p ∈ ps → q ∈ ps → Hash2 p.1 p.2 = Hash2 q.1 q.2 → p = q.

Lemma twins_tail a b r : twins (a :: b :: r) = false → twins r = false.
Proof. destruct r as [|c r]; [done|]. done. Qed.

Lemma next_level_inj ps l1 l2 :
  no_collision ps → level_pairs l1 ⊆ ps → level_pairs l2 ⊆ ps → twins l1 = false → twins l2 = false →
  next_level l1 = next_level l2 → l1 = l2.
Proof.
  intros Hps. revert l2. induction l1 as [|a|a b r IH] using list_ind2; intros l2 H1 H2 T1 T2 E.
  - by destruct l2 as [|c [|d r2]].
  - destruct l2 as [|c [|d r]]; [done| |]; cbn [next_level] in E.
    + injection E as E. apply (Hps (a, a) (c, c)) in E; [by simplify_eq|apply H1; left|apply H2; left].
    + injection E as E Er. symmetry in Er. apply (proj1 (next_level_nil _)) in Er. subst r.
      apply (Hps (a, a) (c, d)) in E; [|apply H1; left|apply H2; left]. simplify_eq.
      cbn in T2. by rewrite bool_decide_true in T2.
  - destruct l2 as [|c [|d r2]]; [done| |]; cbn [next_level] in E.
    + injection E as E Er. apply (proj1 (next_level_nil _)) in Er. subst r.
      apply (Hps (a, b) (c, c)) in E; [|apply H1; left|apply H2; left]. simplify_eq.
      cbn in T1. by rewrite bool_decide_true in T1.
    + injection E as E Er. apply (Hps (a, b) (c, d)) in E; [|apply H1; left|apply H2; left]. simplify_eq.
      f_equal. f_equal. apply IH; [set_solver|set_solver|by eapply twins_tail|by eapply twins_tail|done].
Qed.

(** [n] levels up. *)
Definition climb (n : nat) (l : list hash256) : list hash256 := Nat.iter n next_level l.

Lemma climb_S n l : climb (S n) l = next_level (climb n l).
Proof. done. Qed.

Lemma climb_next n l : climb n (next_level l) = climb (S n) l.
Proof. unfold climb. by rewrite <- Nat.iter_succ_r. Qed.

(** A list whose tree has [k] levels above it, the last of them the root [r]. *)
Inductive tree_root : nat → list hash256 → hash256 → Prop :=
| tree_leaf r : tree_root 0 [r] r
| tree_level k l r : (1 < length l)%nat → tree_root k (next_level l) r → tree_root (S k) l r.

Lemma tree_root_top fuel l : l ≠ [] → (length l <= S fuel)%nat → ∃ k, (k <= fuel)%nat ∧ tree_root k l (hash_at (top fuel l) 0).
Proof.
  revert l. induction fuel as [|fuel IH]; intros l Hl Hf; cbn [top].
  { destruct l as [|a [|]]; [done| |simpl in Hf; lia]. exists 0%nat. split; [done|constructor]. }
  destruct (Nat.ltb_spec 1 (length l)).
  - destruct (IH (next_level l)) as (k & Hk & Ht); [by rewrite next_level_nil| |].
    { rewrite length_next_level. pose proof (half_bounds (length l)). lia. }
    exists (S k). split; [lia|by constructor].
  - destruct l as [|a [|]]; [done| |simpl in *; lia]. exists 0%nat. split; [lia|constructor].
Qed.

(** The levels below the root are those of the tree. *)
Lemma climb_in_tree k l r n fuel :
  tree_root k l r → (n < k)%nat → (k <= fuel)%nat →
  level_pairs (climb n l) ⊆ tree_pairs fuel l ∧ (any_twins fuel l = false → twins (climb n l) = false).
Proof.
  intros Ht. revert n fuel. induction Ht as [r|k l r Hl Ht IH]; intros n fuel Hn Hf; [lia|].
  destruct fuel as [|fuel]; [lia|]. cbn [tree_pairs any_twins]. rewrite (proj2 (Nat.ltb_lt _ _)) by done.
  destruct n as [|n].
  - cbn [climb Nat.iter]. split; [set_solver|]. by intros [? _]%orb_false_iff.
  - destruct (IH n fuel) as [H1 H2]; [lia|lia|]. rewrite climb_next in H1, H2. split; [set_solver|].
    intros [_ ?]%orb_false_iff. auto.
Qed.

Lemma tree_root_climb k l r : tree_root k l r → climb k l = [r].
Proof. induction 1 as [r|k l r _ _ IH]; [done|]. by rewrite climb_next in IH. Qed.

(** Two trees with the same root: the lower one is a level of the higher one. *)
Lemma same_root ps k1 k2 l1 l2 r :
  no_collision ps →
  tree_root k1 l1 r → tree_root (k1 + k2) l2 r →
  (∀ n, (n < k1)%nat → level_pairs (climb n l1) ⊆ ps ∧ twins (climb n l1) = false) →
  (∀ n, (n < k1 + k2)%nat → level_pairs (climb n l2) ⊆ ps ∧ twins (climb n l2) = false) →
  l1 = climb k2 l2.
Proof.
  intros Hps H1 H2 P1 P2. apply tree_root_climb in H1, H2.
  enough (∀ j, (j <= k1)%nat → climb (k1 - j) l1 = climb (k1 + k2 - j) l2) as H.
  { specialize (H k1 ltac:(lia)). replace (k1 - k1)%nat with 0%nat in H by lia.
    by replace (k1 + k2 - k1)%nat with k2 in H by lia. }
  induction j as [|j IH]; intros Hj; [by rewrite !Nat.sub_0_r, H1, H2|].
  specialize (IH ltac:(lia)). replace (k1 - j)%nat with (S (k1 - S j)) in IH by lia.
  replace (k1 + k2 - j)%nat with (S (k1 + k2 - S j)) in IH by lia. rewrite !climb_S in IH.
  destruct (P1 (k1 - S j)%nat ltac:(lia)), (P2 (k1 + k2 - S j)%nat ltac:(lia)).
  by apply (next_level_inj ps) in IH.
Qed.

Lemma next_level_hashes l x : x ∈ next_level l → ∃ p, p ∈ level_pairs l ∧ x = Hash2 p.1 p.2.
Proof.
  induction l as [|a|a b r IH] using list_ind2; cbn [next_level level_pairs].
  - by intros ?%elem_of_nil.
  - intros [->|?%elem_of_nil]%elem_of_cons; [|done]. exists (a, a). split; [left|done].
  - intros [->|Hx]%elem_of_cons; [exists (a, b); split; [left|done]|].
    destruct (IH Hx) as (p & Hp & ->). exists p. split; [by right|done].
Qed.

Definition block_pairs (txids : list hash256) : list (hash256 * hash256) := tree_pairs (length txids) txids.

Lemma root_determines_txids txids1 txids2 :
  txids1 ≠ [] → txids2 ≠ [] → no_collision (block_pairs txids1 ++ block_pairs txids2) →
  (∀ x p, x ∈ txids1 ++ txids2 → p ∈ block_pairs txids1 ++ block_pairs txids2 → x ≠ Hash2 p.1 p.2) →
  (BuildMerkleTree txids1).1 = (BuildMerkleTree txids2).1 →
  (BuildMerkleTree txids1).2 = false → (BuildMerkleTree txids2).2 = false → txids1 = txids2.
Proof.
  rename txids1 into l1, txids2 into l2. intros N1 N2 Hps Hleaf. rewrite !BuildMerkleTree_spec. cbn [fst snd]. unfold merkle_root. intros Hr T1 T2.
  destruct (tree_root_top (length l1) l1 N1 ltac:(lia)) as (k1 & K1 & R1).
  destruct (tree_root_top (length l2) l2 N2 ltac:(lia)) as (k2 & K2 & R2). rewrite Hr in R1.
  assert (∀ n, (n < k1)%nat → level_pairs (climb n l1) ⊆ block_pairs l1 ++ block_pairs l2 ∧ twins (climb n l1) = false) as P1.
  { intros n Hn. destruct (climb_in_tree _ _ _ n _ R1 Hn K1) as [H H']. split; [unfold block_pairs; set_solver|auto]. }
  assert (∀ n, (n < k2)%nat → level_pairs (climb n l2) ⊆ block_pairs l1 ++ block_pairs l2 ∧ twins (climb n l2) = false) as P2.
  { intros n Hn. destruct (climb_in_tree _ _ _ n _ R2 Hn K2) as [H H']. split; [unfold block_pairs; set_solver|auto]. }
  destruct (Nat.le_ge_cases k1 k2) as [Hle|Hle].
  - replace k2 with (k1 + (k2 - k1))%nat in R2, P2 by lia. pose proof (same_root _ _ _ _ _ _ Hps R1 R2 P1 P2) as E.
    destruct (k2 - k1)%nat as [|d]; [done|]. exfalso. rewrite climb_S in E.
    destruct l1 as [|x l1]; [done|]. destruct (next_level_hashes (climb d l2) x) as (p & Hp & Hx); [rewrite <- E; left|].
    apply (Hleaf x p); [apply elem_of_app; left; left|apply (P2 d ltac:(lia)), Hp|done].
  - replace k1 with (k2 + (k1 - k2))%nat in R1, P1 by lia. pose proof (same_root _ _ _ _ _ _ Hps R2 R1 P2 P1) as E.
    destruct (k1 - k2)%nat as [|d]; [done|]. exfalso. rewrite climb_S in E.
    destruct l2 as [|x l2]; [done|]. destruct (next_level_hashes (climb d l1) x) as (p & Hp & Hx); [rewrite <- E; left|].
    apply (Hleaf x p); [apply elem_of_app; right; left|apply (P1 d ltac:(lia)), Hp|done].
Qed.

(** C16: BuildMerkleTree and the branches agree, and the root commits to the
    transactions. For every transaction of a block, CheckMerkleBranch of its hash
    and GetMerkleBranch gives the root. And two non-empty lists of transactions
    with the same root are equal if neither tree is flagged as mutated, as long
    as no two different pairs hashed in the two trees collide and no transaction
    has the hash of an inner node. *)
Theorem merkle_root_commits :
  (∀ txids i, (i < length txids)%nat →
    CheckMerkleBranch (hash_at txids i) (GetMerkleBranch txids (Z.of_nat i)) (Z.of_nat i) = (BuildMerkleTree txids).1) ∧
  (∀ txids1 txids2, txids1 ≠ [] → txids2 ≠ [] →
    no_collision (block_pairs txids1 ++ block_pairs txids2) →
    (∀ x p, x ∈ txids1 ++ txids2 → p ∈ block_pairs txids1 ++ block_pairs txids2 → x ≠ Hash2 p.1 p.2) →
    (BuildMerkleTree txids1).1 = (BuildMerkleTree txids2).1 →
    (BuildMerkleTree txids1).2 = false → (BuildMerkleTree txids2).2 = false → txids1 = txids2).
Proof.
  split.
  - intros txids i Hi. unfold CheckMerkleBranch. rewrite (proj2 (Z.eqb_neq _ _)) by lia.
    unfold GetMerkleBranch, build_tree. pose proof (merkle_levels_spec (length txids) [] txids false) as E.
    cbn [app length orb] in E. rewrite E. cbn [fst].
    pose proof (branch_spec (length txids) [] txids i Hi ltac:(lia)) as B. cbn [app length] in B. rewrite B.
    by rewrite BuildMerkleTree_spec.
  - exact root_determines_txids.
Qed.

#[local] Transparent Hash Hash2.

Definition no_collisionb (ps : list (hash256 * hash256)) : bool :=
  forallb (λ p, forallb (λ q, bool_decide (p = q) || negb (bool_decide (Hash2 p.1 p.2 = Hash2 q.1 q.2))) ps) ps.

Lemma no_collisionb_spec ps : no_collisionb ps = true → no_collision ps.
Proof.
  unfold no_collisionb. rewrite forallb_forall. intros H p q Hp%list_elem_of_In Hq%list_elem_of_In E.
  specialize (H p Hp). rewrite forallb_forall in H. specialize (H q Hq).
  apply orb_true_iff in H as [H|H]; [by apply bool_decide_eq_true in H|].
  apply negb_true_iff, bool_decide_eq_false in H. by destruct H.
Qed.

(** The example of the source's comment, with three transactions: the list with
    the last one twice has the same root, but is flagged; a list with another
    transaction has another root. *)
Definition ex_txid (k : Z) : hash256 := replicate 32 k.

Example mutated_tree :
  let '(r, m) := BuildMerkleTree (map ex_txid [1; 2; 3]) in
  let '(r', m') := BuildMerkleTree (map ex_txid [1; 2; 3; 3]) in
  bool_decide (r = r') = true ∧ m = false ∧ m' = true.
Proof. vm_compute. split_and!; reflexivity. Qed.

Lemma merkle_root_commits_witness :
  (BuildMerkleTree (map ex_txid [1; 2])).1 ≠ (BuildMerkleTree (map ex_txid [1; 3])).1 ∧
  CheckMerkleBranch (ex_txid 2) (GetMerkleBranch (map ex_txid [1; 2]) 1) 1 = (BuildMerkleTree (map ex_txid [1; 2])).1.
Proof.
  destruct merkle_root_commits as [H1 H2]. split.
  - intros E. apply H2 in E; [discriminate|discriminate|discriminate| | | |].
    + apply no_collisionb_spec. vm_compute. reflexivity.
    + intros x p Hx Hp Hxp.
      assert (forallb (λ x, forallb (λ p, negb (bool_decide (x = Hash2 p.1 p.2)))
        (block_pairs (map ex_txid [1; 2]) ++ block_pairs (map ex_txid [1; 3])))
        (map ex_txid [1; 2] ++ map ex_txid [1; 3]) = true) as Hb by (vm_compute; reflexivity).
      rewrite forallb_forall in Hb. apply list_elem_of_In in Hx, Hp. specialize (Hb x Hx).
      rewrite forallb_forall in Hb. specialize (Hb p Hp). apply negb_true_iff, bool_decide_eq_false in Hb. exact (Hb Hxp).
    + vm_compute. reflexivity.
    + vm_compute. reflexivity.
  - exact (H1 (map ex_txid [1; 2]) 1%nat ltac:(cbn; lia)).
Defined.
