(* ===== verification/PartialMerkle.v ===== *)
(** * merkleblock.h and merkleblock.cpp: partial Merkle trees

    A partial tree proves to another node which transactions of a block match a
    filter. Positions and heights are those of the source; the construction and
    the extraction pass their state along. *)

From S2P Require Import Prelude Serialize Script Digest Hashes Interp Tx Merkle.

Local Open Scope node_scope.
#[local] Opaque Hash Hash2.

Definition MAX_BLOCK_SIZE_CURRENT : Z := 2000000.

Record CPartialMerkleTree := mkPartial {
  nTransactions : Z; vBits : list bool; vHash : list hash256; p_fBad : bool
}.

(** ** The shape of the tree *)

Definition CalcTreeWidth (nTransactions : Z) (height : nat) : Z :=
  Z.shiftr (u32 (nTransactions + Z.shiftl 1 (Z.of_nat height) - 1)) (Z.of_nat height).

(** [while (CalcTreeWidth(nHeight) > 1) nHeight++]. *)
Fixpoint tree_height (fuel : nat) (nTransactions : Z) (nHeight : nat) : nat :=
  match fuel with
  | O => nHeight
  | S fuel => if 1 <? CalcTreeWidth nTransactions nHeight then tree_height fuel nTransactions (S nHeight) else nHeight
  end.

Fixpoint CalcHash (vTxid : list hash256) (height : nat) (pos : Z) : hash256 :=
  match height with
  | O => hash_at vTxid (Z.to_nat pos)
  | S height =>
      let left := CalcHash vTxid height (u32 (pos * 2)) in
      let right := if u32 (pos * 2 + 1) <? CalcTreeWidth (Z.of_nat (length vTxid)) height
                   then CalcHash vTxid height (u32 (pos * 2 + 1)) else left in
      Hash2 left right
  end.

(** ** Construction *)

(** [for (p = pos << height; p < (pos + 1) << height && p < nTransactions; p++)]. *)
Definition parent_of_match (n : Z) (height : nat) (pos : Z) (vMatch : list bool) : bool :=
  let low := u32 (Z.shiftl pos (Z.of_nat height)) in
  let high := u32 (Z.shiftl (pos + 1) (Z.of_nat height)) in
  existsb (λ p, nth (Z.to_nat p) vMatch false) (seqZ low (Z.min high n - low)).

(** The bits and hashes that are appended. *)
Fixpoint TraverseAndBuild (vTxid : list hash256) (vMatch : list bool) (height : nat) (pos : Z)
    (st : list bool * list hash256) : list bool * list hash256 :=
  let n := Z.of_nat (length vTxid) in
  let fParentOfMatch := parent_of_match n height pos vMatch in
  let st := (st.1 ++ [fParentOfMatch], st.2) in
  match height with
  | O => (st.1, st.2 ++ [CalcHash vTxid height pos])
  | S height' =>
      if negb fParentOfMatch then (st.1, st.2 ++ [CalcHash vTxid height pos])
      else
        let st := TraverseAndBuild vTxid vMatch height' (u32 (pos * 2)) st in
        if u32 (pos * 2 + 1) <? CalcTreeWidth n height'
        then TraverseAndBuild vTxid vMatch height' (u32 (pos * 2 + 1)) st
        else st
  end.

Definition new_partial (vTxid : list hash256) (vMatch : list bool) : CPartialMerkleTree :=
  let n := Z.of_nat (length vTxid) in
  let '(bits, hashes) := TraverseAndBuild vTxid vMatch (tree_height 32 n 0) 0 ([], []) in
  mkPartial n bits hashes false.

(** The default constructor. *)
Definition empty_partial : CPartialMerkleTree := mkPartial 0 [] [] true.

(** ** Extraction *)

Record extract_state := mkExtract { nBitsUsed : nat; nHashUsed : nat; fBad : bool; x_vMatch : list hash256 }.

Section extract.
Variable t : CPartialMerkleTree.

Fixpoint TraverseAndExtract (height : nat) (pos : Z) (st : extract_state) : hash256 * extract_state :=
  match vBits t !! nBitsUsed st with
  | None => (null_hash, mkExtract (nBitsUsed st) (nHashUsed st) true (x_vMatch st))
  | Some fParentOfMatch =>
      let st := mkExtract (nBitsUsed st + 1) (nHashUsed st) (fBad st) (x_vMatch st) in
      let stored :=
        match vHash t !! nHashUsed st with
        | None => (null_hash, mkExtract (nBitsUsed st) (nHashUsed st) true (x_vMatch st))
        | Some hash =>
            (hash, mkExtract (nBitsUsed st) (nHashUsed st + 1) (fBad st)
                     (if (height =? 0)%nat && fParentOfMatch then x_vMatch st ++ [hash] else x_vMatch st))
        end in
      match height with
      | O => stored
      | S height' =>
          if negb fParentOfMatch then stored
          else
            let '(lh, st) := TraverseAndExtract height' (u32 (pos * 2)) st in
            let '(rh, st) :=
              if u32 (pos * 2 + 1) <? CalcTreeWidth (nTransactions t) height'
              then TraverseAndExtract height' (u32 (pos * 2 + 1)) st else (lh, st) in
            (Hash2 lh rh, st)
      end
  end.

(** The root, and the matches; the null hash is failure. *)
Definition ExtractMatches : hash256 * list hash256 :=
  if nTransactions t =? 0 then (null_hash, [])
  else if MAX_BLOCK_SIZE_CURRENT / 60 <? nTransactions t then (null_hash, [])
  else if nTransactions t <? Z.of_nat (length (vHash t)) then (null_hash, [])
  else if (length (vBits t) <? length (vHash t))%nat then (null_hash, [])
  else
    let nHeight := tree_height 32 (nTransactions t) 0 in
    let '(hashMerkleRoot, st) := TraverseAndExtract nHeight 0 (mkExtract 0 0 (p_fBad t) []) in
    if fBad st then (null_hash, x_vMatch st)
    else if negb ((nBitsUsed st + 7) / 8 =? (length (vBits t) + 7) / 8)%nat then (null_hash, x_vMatch st)
    else if negb (nHashUsed st =? length (vHash t))%nat then (null_hash, x_vMatch st)
    else (hashMerkleRoot, x_vMatch st).
End extract.

(** ** The wire format *)

(** [vBytes[p / 8] |= vBits[p] << (p % 8)]. *)
Definition pack_byte (bits : list bool) (b : nat) : Z :=
  foldl (λ ch i, Z.lor ch (Z.shiftl (if nth (b * 8 + i) bits false then 1 else 0) (Z.of_nat i))) 0 (seq 0 8).

Definition pack_bits (bits : list bool) : list Z := map (pack_byte bits) (seq 0 ((length bits + 7) / 8)).

Definition unpack_bits (vBytes : list Z) : list bool :=
  map (λ p, negb (Z.land (nth (p / 8) vBytes 0) (Z.shiftl 1 (Z.of_nat (p mod 8))) =? 0)) (seq 0 (length vBytes * 8)).

Definition f_partial : format (Z * (list hash256 * list Z)) := f_pair (f_uint 4) (f_pair (f_vector f_hash) f_bytes).

Definition partial_Serialize (t : CPartialMerkleTree) : list Z :=
  ser f_partial (nTransactions t, (vHash t, pack_bits (vBits t))).

Definition partial_Unserialize (s : list Z) : result stream_error (CPartialMerkleTree * list Z) :=
  let! (x, s) := unser f_partial s in
  Ok (mkPartial x.1 (unpack_bits x.2.2) x.2.1 false, s).

(** ** Packed bits *)

Definition pad_bits (bits : list bool) : list bool :=
  bits ++ replicate (8 * ((length bits + 7) / 8) - length bits) false.

Lemma pack_byte_bit bits b i :
  (i < 8)%nat → negb (Z.land (pack_byte bits b) (Z.shiftl 1 (Z.of_nat i)) =? 0) = nth (b * 8 + i) bits false.
Proof.
  intros Hi. unfold pack_byte. cbn [seq foldl].
  assert (i = 0 ∨ i = 1 ∨ i = 2 ∨ i = 3 ∨ i = 4 ∨ i = 5 ∨ i = 6 ∨ i = 7)%nat as Hcases by lia. clear Hi.
  destruct Hcases as [->|[->|[->|[->|[->|[->|[->| ->]]]]]]];
    destruct (nth (b * 8 + 0) bits false), (nth (b * 8 + 1) bits false), (nth (b * 8 + 2) bits false),
      (nth (b * 8 + 3) bits false), (nth (b * 8 + 4) bits false), (nth (b * 8 + 5) bits false),
      (nth (b * 8 + 6) bits false), (nth (b * 8 + 7) bits false); reflexivity.
Qed.

Lemma pack_byte_byte bits b : is_byte (pack_byte bits b).
Proof.
  unfold pack_byte. cbn [seq foldl].
  destruct (nth (b * 8 + 0) bits false), (nth (b * 8 + 1) bits false), (nth (b * 8 + 2) bits false),
    (nth (b * 8 + 3) bits false), (nth (b * 8 + 4) bits false), (nth (b * 8 + 5) bits false),
    (nth (b * 8 + 6) bits false), (nth (b * 8 + 7) bits false); split; first [reflexivity | discriminate].
Qed.

Lemma pack_bits_bytes bits : Forall is_byte (pack_bits bits).
Proof. unfold pack_bits. apply Forall_map, Forall_true. intros. apply pack_byte_byte. Qed.

Lemma length_pad_bits bits : length (pad_bits bits) = (8 * ((length bits + 7) / 8))%nat.
Proof.
  unfold pad_bits. rewrite length_app, length_replicate.
  pose proof (Nat.div_mod (length bits + 7) 8 ltac:(lia)). pose proof (Nat.mod_upper_bound (length bits + 7) 8 ltac:(lia)). lia.
Qed.

Lemma nth_replicate_same {A} (x : A) n k : nth k (replicate n x) x = x.
Proof. revert k. induction n as [|n IH]; intros [|k]; cbn; auto. Qed.

Lemma unpack_pack bits : unpack_bits (pack_bits bits) = pad_bits bits.
Proof.
  apply (nth_ext _ _ false false).
  { rewrite length_pad_bits. unfold unpack_bits, pack_bits. rewrite !length_map, !length_seq. lia. }
  intros p Hp. unfold unpack_bits in *. rewrite length_map, length_seq in Hp.
  rewrite (nth_indep _ false (negb (Z.land (nth (0 / 8) (pack_bits bits) 0) (Z.shiftl 1 (Z.of_nat (0 mod 8))) =? 0)))
    by (rewrite length_map, length_seq; lia).
  rewrite (map_nth (λ p, negb (Z.land (nth (p / 8) (pack_bits bits) 0) (Z.shiftl 1 (Z.of_nat (p mod 8))) =? 0))).
  rewrite seq_nth by lia. rewrite Nat.add_0_l. unfold pack_bits in *. rewrite length_map, length_seq in Hp.
  pose proof (Nat.div_mod p 8 ltac:(lia)) as Hdm. pose proof (Nat.mod_upper_bound p 8 ltac:(lia)) as Hm.
  assert (p / 8 < (length bits + 7) / 8)%nat as Hq by (apply Nat.Div0.div_lt_upper_bound; lia).
  rewrite (nth_indep _ 0 (pack_byte bits 0)) by (rewrite length_map, length_seq; lia).
  rewrite map_nth, seq_nth, Nat.add_0_l, pack_byte_bit by lia.
  replace (p / 8 * 8 + p mod 8)%nat with p by lia. unfold pad_bits.
  destruct (decide (p < length bits)%nat); [by rewrite app_nth1|].
  rewrite app_nth2, nth_overflow by lia. by rewrite nth_replicate_same.
Qed.

(** ** What is selected *)

Fixpoint select (v : list hash256) (mask : list bool) : list hash256 :=
  match v, mask with
  | x :: v, b :: mask => (if b then [x] else []) ++ select v mask
  | _, _ => []
  end.

Lemma select_app v1 m1 v2 m2 :
  length v1 = length m1 → select (v1 ++ v2) (m1 ++ m2) = select v1 m1 ++ select v2 m2.
Proof.
  revert m1. induction v1 as [|x v1 IH]; intros [|b m1] Hl; [done|done|done|].
  cbn [app select]. rewrite IH by (simpl in Hl; lia). by rewrite app_assoc.
Qed.

Lemma select_none v m : existsb id m = false → select v m = [].
Proof.
  revert v. induction m as [|b m IH]; intros [|x v] H; [done..|]. cbn [existsb id] in H.
  apply orb_false_iff in H as [-> H]. cbn [select app]. auto.
Qed.

(** The numbers the loop of TraverseAndBuild runs through. *)
Lemma existsb_range m low k :
  (low + k <= length m)%nat →
  existsb (λ p, nth (Z.to_nat p) m false) (seqZ (Z.of_nat low) (Z.of_nat k)) = existsb id (take k (drop low m)).
Proof.
  revert low. induction k as [|k IH]; intros low Hl; [done|].
  rewrite seqZ_cons by lia. replace (Z.pred (Z.of_nat (S k))) with (Z.of_nat k) by lia.
  replace (Z.succ (Z.of_nat low)) with (Z.of_nat (S low)) by lia. cbn [existsb]. rewrite IH, Nat2Z.id by lia.
  destruct (lookup_lt_is_Some_2 m low ltac:(lia)) as [b Hb]. rewrite (drop_S _ _ _ Hb). cbn [take existsb].
  f_equal. unfold id. by apply nth_lookup_Some.
Qed.

(** ** Widths, as lengths of the levels *)

Section tree.
Variable vTxid : list hash256.
Let n : Z := Z.of_nat (length vTxid).

(** The bound of ExtractMatches, so that the tree has at most 16 levels. *)
Hypothesis Hn : Z.of_nat (length vTxid) <= 33333.

Definition width (h : nat) : nat := length (climb h vTxid).

Lemma width_S h : width (S h) = ((width h + 1) / 2)%nat.
Proof. unfold width. by rewrite climb_S, length_next_level. Qed.

Lemma width_div h : width h = ((length vTxid + 2 ^ h - 1) / 2 ^ h)%nat.
Proof.
  induction h as [|h IH]; [change (width 0) with (length vTxid); rewrite Nat.pow_0_r, Nat.div_1_r; lia|].
  rewrite width_S, IH. pose proof (Nat.pow_nonzero 2 h ltac:(lia)).
  rewrite Nat.pow_succ_r'. generalize dependent (2 ^ h)%nat. clear. intros k _ Hk.
  rewrite (Nat.mul_comm 2 k), <- Nat.Div0.div_div. f_equal. rewrite <- (Nat.div_add _ 1) by lia. f_equal. lia.
Qed.

(** A node is in the tree if the first transaction below it is in the block. *)
Lemma width_lt h pos : (pos < width h ↔ pos * 2 ^ h < length vTxid)%nat.
Proof.
  rewrite width_div. pose proof (Nat.pow_nonzero 2 h ltac:(lia)).
  pose proof (Nat.div_mod (length vTxid + 2 ^ h - 1) (2 ^ h) ltac:(lia)).
  pose proof (Nat.mod_upper_bound (length vTxid + 2 ^ h - 1) (2 ^ h) ltac:(lia)). split; intros; nia.
Qed.

Lemma width_le h : Z.of_nat (width h) <= 33333.
Proof.
  induction h as [|h IH]; [done|]. rewrite width_S. pose proof (Nat.div_mod (width h + 1) 2 ltac:(lia)). lia.
Qed.

Lemma pow2_small h : (h <= 17)%nat → Z.of_nat (2 ^ h) <= 131072.
Proof. intros H. rewrite Nat2Z.inj_pow. change 131072 with (Z.of_nat 2 ^ 17). apply Z.pow_le_mono_r; lia. Qed.

Lemma CalcTreeWidth_width h : (h <= 17)%nat → CalcTreeWidth n h = Z.of_nat (width h).
Proof.
  intros Hh. pose proof (pow2_small h Hh). pose proof (Nat.pow_nonzero 2 h ltac:(lia)). unfold CalcTreeWidth, n.
  assert (Z.of_nat (2 ^ h) = 2 ^ Z.of_nat h) as Hp by (by rewrite Nat2Z.inj_pow).
  rewrite Z.shiftl_1_l, Z.shiftr_div_pow2, <- Hp by lia. unfold u32, wrap.
  rewrite Z.mod_small by (change (2 ^ 32) with 4294967296; lia).
  rewrite width_div, Nat2Z.inj_div. f_equal. lia.
Qed.

Lemma u32_nat k : Z.of_nat k <= 200000 → u32 (Z.of_nat k) = Z.of_nat k.
Proof. intros. unfold u32, wrap. apply Z.mod_small. change (2 ^ 32) with 4294967296. lia. Qed.

(** The height of the tree is the number of levels above the transactions. *)
Lemma tree_height_spec k r h fuel :
  tree_root k (climb h vTxid) r → (k <= fuel)%nat → (h + k <= 17)%nat → tree_height fuel n h = (h + k)%nat.
Proof.
  intros Ht. remember (climb h vTxid) as l eqn:El. revert h fuel El.
  induction Ht as [r|k l r Hl Ht IH]; intros h fuel El Hf Hh.
  - rewrite Nat.add_0_r. destruct fuel as [|fuel]; [done|]. cbn [tree_height].
    rewrite CalcTreeWidth_width by lia. unfold width. by rewrite <- El.
  - destruct fuel as [|fuel]; [lia|]. cbn [tree_height]. rewrite CalcTreeWidth_width by lia.
    unfold width. rewrite <- El, (proj2 (Z.ltb_lt _ _)) by lia.
    rewrite (IH (S h)) by (rewrite ?climb_S, <- ?El; auto; lia). lia.
Qed.

Lemma tree_root_levels k l r h : tree_root k l r → (h < k)%nat → (1 < length (climb h l))%nat.
Proof.
  intros Ht. revert h. induction Ht as [r|k l r Hl Ht IH]; intros h Hh; [lia|]. destruct h as [|h]; [done|].
  rewrite <- climb_next. apply IH. lia.
Qed.

Lemma tree_levels_16 k r : tree_root k vTxid r → (k <= 16)%nat.
Proof.
  intros Ht. destruct (decide (k <= 16)%nat) as [|Hk]; [done|]. exfalso.
  pose proof (tree_root_levels _ _ _ 16 Ht ltac:(lia)) as H. fold (width 16) in H.
  apply width_lt in H. change (1 * 2 ^ 16)%nat with (2 ^ 16)%nat in H.
  assert (Z.of_nat (2 ^ 16) = 65536) by (rewrite Nat2Z.inj_pow; reflexivity). lia.
Qed.

(** ** Nodes *)

Lemma CalcHash_climb h pos :
  (h <= 17)%nat → (pos < width h)%nat → CalcHash vTxid h (Z.of_nat pos) = hash_at (climb h vTxid) pos.
Proof.
  revert pos. induction h as [|h IH]; intros pos Hh Hpos; cbn [CalcHash]; [by rewrite Nat2Z.id|].
  assert (2 * pos < width h)%nat as Hl by (apply width_lt; apply width_lt in Hpos; cbn [Nat.pow] in Hpos; lia).
  pose proof (width_le h). replace (Z.of_nat pos * 2) with (Z.of_nat (2 * pos)) by lia.
  replace (Z.of_nat (2 * pos) + 1) with (Z.of_nat (2 * pos + 1)) by lia.
  rewrite !u32_nat by lia. fold n. rewrite CalcTreeWidth_width, IH by lia.
  rewrite climb_S, hash_at_next_level by (rewrite <- length_next_level, <- climb_S; exact Hpos).
  unfold pair_hash. fold (width h). f_equal.
  destruct (Z.ltb_spec (Z.of_nat (2 * pos + 1)) (Z.of_nat (width h))); [rewrite IH by lia|]; f_equal; lia.
Qed.

(** All nodes are hashes of 32 bytes. *)
Lemma Hash2_ok a b : dom f_hash a → dom f_hash b → dom f_hash (Hash2 a b).
Proof.
  cbn [f_hash f_flat dom]. intros [Ha _] [Hb _]. rewrite Hash2_spec by (rewrite length_app, Ha, Hb; reflexivity).
  split; [apply length_fips_sha256|apply fips_sha256_bytes].
Qed.

Lemma next_level_ok l : Forall (dom f_hash) l → Forall (dom f_hash) (next_level l).
Proof.
  induction l as [|a|a b r IH] using list_ind2; intros H; cbn [next_level]; [done| |].
  - apply Forall_cons in H as [? _]. constructor; [by apply Hash2_ok|done].
  - apply Forall_cons in H as [? H]. apply Forall_cons in H as [? ?]. constructor; [by apply Hash2_ok|auto].
Qed.

Lemma climb_hashes h pos : Forall (dom f_hash) vTxid → (pos < width h)%nat → dom f_hash (hash_at (climb h vTxid) pos).
Proof.
  intros Hok Hpos. assert (Forall (dom f_hash) (climb h vTxid)) as Hc
    by (clear Hpos; induction h as [|h IH]; [done|rewrite climb_S; by apply next_level_ok]).
  rewrite Forall_forall in Hc. apply Hc. unfold hash_at. apply list_elem_of_In, nth_In. exact Hpos.
Qed.

(** What is below a node. *)
Definition below {A} (h pos : nat) (v : list A) : list A := take (2 ^ h) (drop (pos * 2 ^ h) v).

Lemma below_S {A} h pos (v : list A) : below (S h) pos v = below h (2 * pos) v ++ below h (2 * pos + 1) v.
Proof.
  unfold below. replace ((2 * pos + 1) * 2 ^ h)%nat with (2 * pos * 2 ^ h + 2 ^ h)%nat by lia.
  rewrite <- drop_drop, take_take_drop. rewrite Nat.pow_succ_r'. f_equal; [lia|]. f_equal. lia.
Qed.

Lemma below_none {A} h pos (v : list A) :
  length v = length vTxid → ¬ (pos < width h)%nat → below h pos v = [].
Proof. intros Hv H. rewrite width_lt in H. unfold below. by rewrite drop_ge, take_nil by lia. Qed.

Lemma length_below {A} h pos (v : list A) : length (below h pos v) = Nat.min (2 ^ h) (length v - pos * 2 ^ h).
Proof. unfold below. by rewrite length_take, length_drop. Qed.

Lemma parent_of_match_below mask h pos :
  length mask = length vTxid → (h <= 17)%nat → (pos < width h)%nat →
  parent_of_match n h (Z.of_nat pos) mask = existsb id (below h pos mask).
Proof.
  intros Hm Hh Hpos. pose proof (pow2_small h Hh). apply width_lt in Hpos.
  assert (Z.of_nat (2 ^ h) = 2 ^ Z.of_nat h) as Hp by (by rewrite Nat2Z.inj_pow).
  unfold parent_of_match. rewrite !Z.shiftl_mul_pow2, <- Hp by lia.
  replace (Z.of_nat pos + 1) with (Z.of_nat (pos + 1)) by lia. rewrite <- !Nat2Z.inj_mul, !u32_nat by lia.
  assert (Z.min (Z.of_nat ((pos + 1) * 2 ^ h)) n - Z.of_nat (pos * 2 ^ h)
    = Z.of_nat (Nat.min (2 ^ h) (length mask - pos * 2 ^ h))) as -> by (unfold n; lia).
  rewrite existsb_range by lia. unfold below. f_equal.
  destruct (Nat.min_spec (2 ^ h) (length mask - pos * 2 ^ h)) as [[? ->]|[? ->]]; [done|].
  rewrite !take_ge by (rewrite length_drop; lia). done.
Qed.

(** ** Extraction after construction *)

Section built.
Variable mask : list bool.
Hypothesis Hmask : length mask = length vTxid.

(** What a node adds to the bits and to the hashes, from which its hash and the
    matches below it are extracted again. *)
Definition node_extracts (h pos : nat) (bits : list bool) (hashes : list hash256) : Prop :=
  ∀ t b0 b1 h0 h1 bad xs,
    nTransactions t = n → vBits t = b0 ++ bits ++ b1 → vHash t = h0 ++ hashes ++ h1 →
    TraverseAndExtract t h (Z.of_nat pos) (mkExtract (length b0) (length h0) bad xs)
    = (hash_at (climb h vTxid) pos,
       mkExtract (length b0 + length bits) (length h0 + length hashes) bad
         (xs ++ select (below h pos vTxid) (below h pos mask))).

Lemma below_0 {A} pos (v : list A) x : v !! pos = Some x → below 0 pos v = [x].
Proof. intros H. unfold below. rewrite Nat.pow_0_r, Nat.mul_1_r, (drop_S _ _ _ H). done. Qed.

(** A node whose hash is stored. *)
Lemma stored_extracts h pos :
  (pos < width h)%nat → (h = 0%nat ∨ existsb id (below h pos mask) = false) →
  node_extracts h pos [existsb id (below h pos mask)] [hash_at (climb h vTxid) pos].
Proof.
  intros Hpos Hst t b0 b1 h0 h1 bad xs Ht Hb Hh. cbn [app] in Hb, Hh.
  destruct h as [|h]; cbn [TraverseAndExtract nBitsUsed nHashUsed fBad x_vMatch];
    rewrite Hb, Hh, (list_lookup_middle b0), (list_lookup_middle h0) by done.
  - clear Hst. cbn [Nat.eqb andb].
    assert (pos < length vTxid)%nat as Hp by (apply width_lt in Hpos; cbn [Nat.pow] in Hpos; lia).
    destruct (lookup_lt_is_Some_2 vTxid pos Hp) as [x Hx]. destruct (lookup_lt_is_Some_2 mask pos) as [b Hb']; [lia|].
    rewrite (below_0 _ _ _ Hx), (below_0 _ _ _ Hb'). unfold hash_at. change (climb 0 vTxid) with vTxid.
    rewrite (nth_lookup_Some _ _ _ _ Hx). cbn [existsb id select length orb]. rewrite orb_false_r.
    destruct b; cbn [app]; [done|by rewrite app_nil_r].
  - destruct Hst as [|Hst]; [done|]. rewrite Hst, (select_none _ _ Hst), app_nil_r. done.
Qed.

Lemma hash_at_parent h pos :
  (2 * pos < width h)%nat → hash_at (climb (S h) vTxid) pos = pair_hash (climb h vTxid) (2 * pos).
Proof.
  intros Hp. rewrite climb_S, hash_at_next_level; [done|]. fold (width h).
  pose proof (Nat.div_mod (width h + 1) 2 ltac:(lia)). pose proof (Nat.mod_upper_bound (width h + 1) 2 ltac:(lia)). lia.
Qed.

(** An inner node with matches below, from its children. *)
Lemma inner_extracts_both h pos bl hl br hr :
  (h <= 16)%nat → (2 * pos + 1 < width h)%nat →
  node_extracts h (2 * pos) bl hl → node_extracts h (2 * pos + 1) br hr →
  node_extracts (S h) pos (true :: bl ++ br) (hl ++ hr).
Proof.
  intros Hh Hr Hl Hrt t b0 b1 h0 h1 bad xs Ht Hb Hv. pose proof (width_le h).
  cbn [TraverseAndExtract nBitsUsed nHashUsed fBad x_vMatch negb].
  rewrite Hb. cbn [app]. rewrite (list_lookup_middle b0) by done. cbn [negb].
  replace (Z.of_nat pos * 2) with (Z.of_nat (2 * pos)) by lia.
  replace (Z.of_nat (2 * pos) + 1) with (Z.of_nat (2 * pos + 1)) by lia. rewrite !u32_nat by lia.
  replace (length b0 + 1)%nat with (length (b0 ++ [true])) by (rewrite length_app; done).
  rewrite (Hl t (b0 ++ [true]) (br ++ b1) h0 (hr ++ h1))
    by (rewrite ?Hb, ?Hv; cbn [app]; rewrite <- ?app_assoc; done).
  rewrite Ht, CalcTreeWidth_width, (proj2 (Z.ltb_lt _ _)) by lia. rewrite <- !length_app.
  rewrite (Hrt t ((b0 ++ [true]) ++ bl) b1 (h0 ++ hl) h1)
    by (rewrite ?Hb, ?Hv; cbn [app]; rewrite <- ?app_assoc; done).
  rewrite !below_S, select_app by (rewrite !length_below; lia). f_equal.
  - rewrite hash_at_parent by lia. unfold pair_hash. fold (width h). f_equal. f_equal. lia.
  - f_equal; [rewrite !length_app; cbn [length]; rewrite ?length_app; lia|rewrite !length_app; lia|by rewrite <- !app_assoc].
Qed.

Lemma inner_extracts_left h pos bl hl :
  (h <= 16)%nat → (2 * pos < width h)%nat → ¬ (2 * pos + 1 < width h)%nat →
  node_extracts h (2 * pos) bl hl → node_extracts (S h) pos (true :: bl) hl.
Proof.
  intros Hh Hp Hr Hl t b0 b1 h0 h1 bad xs Ht Hb Hv. pose proof (width_le h).
  cbn [TraverseAndExtract nBitsUsed nHashUsed fBad x_vMatch negb].
  rewrite Hb. cbn [app]. rewrite (list_lookup_middle b0) by done. cbn [negb].
  replace (Z.of_nat pos * 2) with (Z.of_nat (2 * pos)) by lia.
  replace (Z.of_nat (2 * pos) + 1) with (Z.of_nat (2 * pos + 1)) by lia. rewrite !u32_nat by lia.
  replace (length b0 + 1)%nat with (length (b0 ++ [true])) by (rewrite length_app; done).
  rewrite (Hl t (b0 ++ [true]) b1 h0 h1) by (rewrite ?Hb, ?Hv; cbn [app]; rewrite <- ?app_assoc; done).
  rewrite Ht, CalcTreeWidth_width, (proj2 (Z.ltb_ge _ _)) by lia.
  rewrite !below_S, !(below_none h (2 * pos + 1)), !app_nil_r by done. f_equal.
  - rewrite hash_at_parent by lia. unfold pair_hash. fold (width h). f_equal. f_equal. lia.
  - f_equal. cbn [length]. rewrite !length_app. cbn [length]. lia.
Qed.

Hypothesis Htxid : Forall (dom f_hash) vTxid.

Lemma pow_S_2 h : (2 <= 2 ^ S h)%nat.
Proof. rewrite Nat.pow_succ_r'. pose proof (Nat.pow_nonzero 2 h ltac:(lia)). lia. Qed.

(** What TraverseAndBuild appends for a node of the tree. *)
Lemma built_node h pos :
  (h <= 16)%nat → (pos < width h)%nat →
  ∃ bits hashes,
    (∀ st, TraverseAndBuild vTxid mask h (Z.of_nat pos) st = (st.1 ++ bits, st.2 ++ hashes)) ∧
    node_extracts h pos bits hashes ∧ (1 <= length hashes <= length bits)%nat ∧
    (length hashes <= length (below h pos vTxid))%nat ∧ (length bits < 2 ^ S h)%nat ∧ Forall (dom f_hash) hashes.
Proof.
  assert (∀ h pos, (pos < width h)%nat → Forall (dom f_hash) [hash_at (climb h vTxid) pos]
    ∧ (1 <= length (below h pos vTxid))%nat) as Hone.
  { intros h' pos' Hp. split; [constructor; [apply climb_hashes; done|done]|].
    apply width_lt in Hp. rewrite length_below. pose proof (Nat.pow_nonzero 2 h' ltac:(lia)). lia. }
  revert pos. induction h as [|h IH]; intros pos Hh Hpos; destruct (Hone _ _ Hpos) as [Hok Hlen]; cbn [TraverseAndBuild];
    fold n; rewrite parent_of_match_below, CalcHash_climb by (done || lia).
  { eexists [_], [_]. split; [done|]. split; [apply stored_extracts; auto|]. cbn [length]. pose proof (pow_S_2 0). split; [lia|]. split; [done|]. split; [lia|done]. }
  destruct (existsb id (below (S h) pos mask)) eqn:E; cbn [negb].
  2: { eexists [_], [_]. split; [done|]. split; [rewrite <- E; apply stored_extracts; auto|]. cbn [length]. pose proof (pow_S_2 (S h)). split; [lia|]. split; [done|]. split; [lia|done]. }
  assert (2 * pos < width h)%nat as Hl by (apply width_lt; apply width_lt in Hpos; cbn [Nat.pow] in Hpos; lia).
  pose proof (width_le h). replace (Z.of_nat pos * 2) with (Z.of_nat (2 * pos)) by lia.
  replace (Z.of_nat (2 * pos) + 1) with (Z.of_nat (2 * pos + 1)) by lia. rewrite !u32_nat, CalcTreeWidth_width by lia.
  destruct (IH (2 * pos)%nat ltac:(lia) Hl) as (bl & hl & Bl & Xl & Ll & Nl & Wl & Fl).
  rewrite below_S, length_app. destruct (Z.ltb_spec (Z.of_nat (2 * pos + 1)) (Z.of_nat (width h))) as [Hr|Hr].
  - destruct (IH (2 * pos + 1)%nat ltac:(lia) ltac:(lia)) as (br & hr & Br & Xr & Lr & Nr & Wr & Fr).
    exists (true :: bl ++ br), (hl ++ hr). split.
    { intros st. rewrite Bl, Br. cbn [fst snd]. by rewrite <- !app_assoc. }
    split; [apply inner_extracts_both; auto with lia|]. cbn [length]. rewrite !length_app.
    split; [lia|]. split; [lia|]. split; [rewrite Nat.pow_succ_r'; lia|by apply Forall_app].
  - exists (true :: bl), hl. split.
    { intros st. rewrite Bl. cbn [fst snd]. by rewrite <- !app_assoc. }
    split; [apply inner_extracts_left; auto with lia|]. cbn [length]. split; [lia|]. split; [lia|]. split; [rewrite Nat.pow_succ_r'; lia|done].
Qed.

(** The whole tree. *)
Lemma new_partial_extracts :
  vTxid ≠ [] →
  ∃ bits hashes k,
    new_partial vTxid mask = mkPartial n bits hashes false ∧ (k <= 16)%nat ∧ tree_height 32 n 0 = k ∧
    (1 <= length hashes <= length bits)%nat ∧ (length hashes <= length vTxid)%nat ∧ Z.of_nat (length bits) <= 131072 ∧
    Forall (dom f_hash) hashes ∧
    (∀ pad, TraverseAndExtract (mkPartial n (bits ++ pad) hashes false) k 0 (mkExtract 0 0 false [])
       = (merkle_root vTxid, mkExtract (length bits) (length hashes) false (select vTxid mask))).
Proof.
  intros Hne. destruct (tree_root_top (length vTxid) vTxid Hne ltac:(lia)) as (k & _ & Ht). fold (merkle_root vTxid) in Ht.
  pose proof (tree_levels_16 _ _ Ht) as Hk. pose proof (tree_root_climb _ _ _ Ht) as Hc.
  pose proof (tree_height_spec k _ 0 32 Ht ltac:(lia) ltac:(lia)) as Hh. cbn [Nat.add] in Hh.
  assert (width k = 1)%nat as Hw by (unfold width; by rewrite Hc).
  destruct (built_node k 0 Hk ltac:(lia)) as (bits & hashes & B & X & L & N & W & F).
  specialize (B ([], [])). change (Z.of_nat 0) with 0 in B.
  exists bits, hashes, k. unfold new_partial. fold n. rewrite Hh, B. cbn [fst snd app].
  split; [done|]. split; [done|]. split; [done|]. split; [done|].
  assert (∀ A (v : list A), length v = length vTxid → below k 0 v = v) as Hall.
  { intros A v Hv. unfold below. cbn [Nat.mul]. rewrite drop_0. apply take_ge.
    destruct (decide (2 ^ k < length vTxid)%nat) as [Hlt|]; [|lia]. exfalso.
    assert (1 < width k)%nat; [|lia]. apply width_lt. lia. }
  rewrite !Hall in N by done. split; [done|].
  split; [pose proof (pow2_small (S k) ltac:(lia)); lia|]. split; [done|]. intros pad.
  pose proof (X (mkPartial n (bits ++ pad) hashes false) [] pad [] [] false [] eq_refl eq_refl) as E.
  rewrite app_nil_r in E. specialize (E eq_refl). cbn [length Nat.add app Z.of_nat] in E. rewrite !Hall, Hc in E by done. exact E.
Qed.
End built.
End tree.

Lemma partial_tree_extracts vTxid mask rest :
  vTxid ≠ [] → Z.of_nat (length vTxid) <= MAX_BLOCK_SIZE_CURRENT / 60 → length mask = length vTxid →
  Forall (dom f_hash) vTxid →
  ∃ t, partial_Unserialize (partial_Serialize (new_partial vTxid mask) ++ rest) = Ok (t, rest) ∧
    ExtractMatches t = ((BuildMerkleTree vTxid).1, select vTxid mask).
Proof.
  intros Hne Hn Hm Hok. change (MAX_BLOCK_SIZE_CURRENT / 60) with 33333 in Hn.
  destruct (new_partial_extracts vTxid Hn mask Hm Hok Hne) as (bits & hashes & k & Enew & Hk & Hh & Hlen & Hle & Hbits & Hf & X).
  specialize (X (replicate (8 * ((length bits + 7) / 8) - length bits) false)). fold (pad_bits bits) in X.
  assert (0 < Z.of_nat (length vTxid)) as Hpos by (destruct vTxid; [done|cbn [length]; lia]).
  pose proof (Nat.div_mod (length bits + 7) 8 ltac:(lia)) as Hd. pose proof (Nat.mod_upper_bound (length bits + 7) 8 ltac:(lia)).
  exists (mkPartial (Z.of_nat (length vTxid)) (pad_bits bits) hashes false). split.
  - rewrite Enew. unfold partial_Unserialize, partial_Serialize. cbn [nTransactions vHash vBits].
    rewrite fmt_roundtrip; [cbn [rbind fst snd]; by rewrite unpack_pack|].
    cbn [f_partial f_pair f_uint f_vector f_bytes dom fst snd].
    split; [unfold in_uw; change (2 ^ (8 * Z.of_nat 4)) with 4294967296; lia|]. unfold MAX_SIZE.
    split; [split; [lia|exact Hf]|]. split; [|apply pack_bits_bytes].
    unfold pack_bits. rewrite length_map, length_seq. lia.
  - unfold ExtractMatches. cbn [nTransactions vHash vBits p_fBad]. rewrite length_pad_bits, Hh, X. cbn [fBad nBitsUsed nHashUsed x_vMatch].
    rewrite (proj2 (Z.eqb_neq _ _)) by lia. change (MAX_BLOCK_SIZE_CURRENT / 60) with 33333.
    rewrite !(proj2 (Z.ltb_ge _ _)) by lia. rewrite (proj2 (Nat.ltb_ge _ _)) by lia.
    replace ((8 * ((length bits + 7) / 8) + 7) / 8)%nat with ((length bits + 7) / 8)%nat
      by (apply (Nat.div_unique _ 8 _ 7); lia).
    rewrite !Nat.eqb_refl. cbn [negb]. by rewrite BuildMerkleTree_spec.
Qed.

(** C31: A partial tree survives its way over the wire and proves what it was made
    for. For 1 to 33333 transactions and any mask, the bytes of the tree made
    from them read back, with any bytes after them, to a tree from which
    ExtractMatches gives the root BuildMerkleTree gives the block, and exactly
    the transactions the mask selects, in order. *)
Theorem partial_tree_roundtrip vTxid mask rest :
  vTxid ≠ [] → Z.of_nat (length vTxid) <= MAX_BLOCK_SIZE_CURRENT / 60 → length mask = length vTxid →
  Forall (dom f_hash) vTxid →
  ∃ t, partial_Unserialize (partial_Serialize (new_partial vTxid mask) ++ rest) = Ok (t, rest) ∧
    ExtractMatches t = ((BuildMerkleTree vTxid).1, select vTxid mask).
Proof. apply partial_tree_extracts. Qed.

#[local] Transparent Hash Hash2.

(** The tree of five transactions that proves the second and the last; the bits
    are 1 for the root, its left half, the pair of the first two, ... *)
Example five_transactions :
  let t := new_partial (map ex_txid [1; 2; 3; 4; 5]) [false; true; false; false; true] in
  vBits t = [true; true; true; false; true; false; true; true; true] ∧ length (vHash t) = 4%nat.
Proof. vm_compute. split; reflexivity. Qed.

Lemma partial_tree_roundtrip_witness :
  ∃ t, partial_Unserialize (partial_Serialize
      (new_partial (map ex_txid [1; 2; 3; 4; 5]) [false; true; false; false; true]) ++ [7]) = Ok (t, [7]) ∧
    ExtractMatches t = ((BuildMerkleTree (map ex_txid [1; 2; 3; 4; 5])).1, map ex_txid [2; 5]).
Proof.
  apply (partial_tree_roundtrip (map ex_txid [1; 2; 3; 4; 5]) [false; true; false; false; true] [7]).
  - discriminate.
  - vm_compute. discriminate.
  - reflexivity.
  - repeat constructor; try reflexivity; try discriminate.
Defined.
