(* ===== verification/Standard.v ===== *)
(** * script/standard.cpp: templates and destinations

    Solver recognises the standard output scripts and takes their keys and hashes
    out; ExtractDestination and GetScriptForDestination go from scripts to
    addresses and back. *)

From S2P Require Import Prelude Serialize Script Digest Hashes Interp Tx SigHash.

Local Open Scope node_scope.
#[local] Opaque Hash160.

Inductive txnouttype :=
  | TX_NONSTANDARD | TX_PUBKEY | TX_PUBKEYHASH | TX_SCRIPTHASH | TX_MULTISIG | TX_NULL_DATA | TX_ZEROCOINMINT.

#[export] Instance txnouttype_eq_dec : EqDecision txnouttype.
Proof. solve_decision. Defined.

Inductive CTxDestination := CNoDestination | CKeyID (id : list Z) | CScriptID (id : list Z).

Definition script_id (script : list Z) : list Z := Hash160 script.

Definition MAX_OP_RETURN_RELAY : Z := 83.

Definition GetTxnOutputType (t : txnouttype) : list Z :=
  match t with
  | TX_NONSTANDARD => str "nonstandard"
  | TX_PUBKEY => str "pubkey"
  | TX_PUBKEYHASH => str "pubkeyhash"
  | TX_SCRIPTHASH => str "scripthash"
  | TX_MULTISIG => str "multisig"
  | TX_NULL_DATA => str "nulldata"
  | TX_ZEROCOINMINT => str "zerocoinmint"
  end.

(** ** Solver *)

(** The multimap, in the order of its keys. *)
Definition mTemplates : list (txnouttype * list Z) :=
  [(TX_PUBKEY, [OP_PUBKEY; OP_CHECKSIG]);
   (TX_PUBKEYHASH, [OP_DUP; OP_HASH160; OP_PUBKEYHASH; OP_EQUALVERIFY; OP_CHECKSIG]);
   (TX_MULTISIG, [OP_SMALLINTEGER; OP_PUBKEYS; OP_SMALLINTEGER; OP_CHECKMULTISIG])].

Definition key_sized (vch : list Z) : bool := (33 <=? length vch)%nat && (length vch <=? 65)%nat.

(** [while (vch1.size() >= 33 && vch1.size() <= 65)]: what was read last, and the
    keys. *)
Fixpoint scan_keys (fuel : nat) (op1 : getop) (vSolutions : list (list Z)) : getop * list (list Z) :=
  match fuel with
  | O => (op1, vSolutions)
  | S fuel =>
      if key_sized (op_data op1) then
        let vSolutions := vSolutions ++ [op_data op1] in
        let op1 := GetOp2 (op_rest op1) in
        if op_ok op1 then scan_keys fuel op1 vSolutions else (op1, vSolutions)
      else (op1, vSolutions)
  end.

(** The tests on one opcode of the script against one of the template, which are
    not OP_PUBKEYS: what is added to the solutions, [None] for a mismatch. *)
Definition match_op (op1 op2 : getop) : option (list (list Z)) :=
  let opcode1 := op_code op1 in
  let opcode2 := op_code op2 in
  if opcode2 =? OP_PUBKEY then if key_sized (op_data op1) then Some [op_data op1] else None
  else if opcode2 =? OP_PUBKEYHASH then if (length (op_data op1) =? 20)%nat then Some [op_data op1] else None
  else if opcode2 =? OP_SMALLINTEGER then
    if (opcode1 =? OP_0) || ((OP_1 <=? opcode1) && (opcode1 <=? OP_16)) then Some [[DecodeOP_N opcode1]] else None
  else if negb (opcode1 =? opcode2) || negb (bool_decide (op_data op1 = op_data op2)) then None
  else Some [].

(** [while (true)]: the solutions of a match, [None] for [break]. Every turn reads
    an opcode of the template. *)
Fixpoint match_template (fuel : nat) (pc1 pc2 : list Z) (vSolutions : list (list Z)) : option (list (list Z)) :=
  match fuel, pc1, pc2 with
  | O, _, _ => None
  | _, [], [] => Some vSolutions
  | S fuel, _, _ =>
      let op1 := GetOp2 pc1 in
      if negb (op_ok op1) then None
      else
        let op2 := GetOp2 pc2 in
        if negb (op_ok op2) then None
        else
          let '(op1, vSolutions, op2) :=
            if op_code op2 =? OP_PUBKEYS
            then let '(op1, vSolutions) := scan_keys (S (length pc1)) op1 vSolutions in
                 (op1, vSolutions, GetOp2 (op_rest op2))
            else (op1, vSolutions, op2) in
          if negb (op_ok op2) then None
          else match match_op op1 op2 with
               | None => None
               | Some added => match_template fuel (op_rest op1) (op_rest op2) (vSolutions ++ added)
               end
  end.

(** The result of Solver, with what it leaves in [typeRet] and [vSolutionsRet]. *)
Record solved := mkSolved { s_ok : bool; typeRet : txnouttype; vSolutionsRet : list (list Z) }.

Fixpoint scan_templates (script1 : list Z) (templates : list (txnouttype * list Z)) : solved :=
  match templates with
  | [] => mkSolved false TX_NONSTANDARD []
  | (t, script2) :: templates =>
      match match_template (S (length script2)) script1 script2 [] with
      | None => scan_templates script1 templates
      | Some sols =>
          if bool_decide (t = TX_MULTISIG) then
            let m := getz (nth 0 sols []) 0 in
            let n := getz (default [] (last sols)) 0 in
            mkSolved (negb ((m <? 1) || (n <? 1) || (n <? m) || negb (Z.of_nat (length sols) - 2 =? n))) t sols
          else mkSolved true t sols
      end
  end.

(** Called with an empty vector; [None] where an iterator is moved past the end
    of a mint script of one byte. *)
Definition Solver (scriptPubKey : list Z) : option solved :=
  if IsPayToScriptHash scriptPubKey
  then Some (mkSolved true TX_SCRIPTHASH [take 20 (drop 2 scriptPubKey)])
  else if Script.IsZerocoinMint scriptPubKey then
    if 150 <? Z.of_nat (length scriptPubKey) then Some (mkSolved false TX_ZEROCOINMINT [])
    else if (length scriptPubKey <? 2)%nat then None
    else Some (mkSolved true TX_ZEROCOINMINT [drop 2 scriptPubKey])
  else if (1 <=? length scriptPubKey)%nat && (getz scriptPubKey 0 =? OP_RETURN) && IsPushOnly (drop 1 scriptPubKey)
  then Some (mkSolved true TX_NULL_DATA [])
  else Some (scan_templates scriptPubKey mTemplates).

Definition ScriptSigArgsExpected (t : txnouttype) (vSolutions : list (list Z)) : Z :=
  match t with
  | TX_NONSTANDARD | TX_NULL_DATA | TX_ZEROCOINMINT => -1
  | TX_PUBKEY => 1
  | TX_PUBKEYHASH => 2
  | TX_MULTISIG => match vSolutions with (b :: _) :: _ => b + 1 | _ => -1 end
  | TX_SCRIPTHASH => 1
  end.

(** [fDatacarrier] is the argument -datacarrier. *)
Definition IsStandard (fDatacarrier : bool) (nMaxDatacarrierBytes : Z) (scriptPubKey : list Z) : option (bool * txnouttype) :=
  match Solver scriptPubKey with
  | None => None
  | Some (mkSolved ok whichType vSolutions) =>
      Some (if negb ok then false
            else if bool_decide (whichType = TX_MULTISIG) then
              let m := getz (nth 0 vSolutions []) 0 in
              let n := getz (default [] (last vSolutions)) 0 in
              if (n <? 1) || (3 <? n) then false else negb ((m <? 1) || (n <? m))
            else if bool_decide (whichType = TX_NULL_DATA)
                    && (negb fDatacarrier || (nMaxDatacarrierBytes <? Z.of_nat (length scriptPubKey))) then false
            else negb (bool_decide (whichType = TX_NONSTANDARD)), whichType)
  end.

(** ** Destinations *)

(** [None] inside is false; [addressRet] is then not set. *)
Definition ExtractDestination (scriptPubKey : list Z) : option (option CTxDestination) :=
  match Solver scriptPubKey with
  | None => None
  | Some (mkSolved ok whichType vSolutions) =>
      Some (if negb ok then None
            else match whichType with
                 | TX_PUBKEY =>
                     let pubKey := pubkey_Set (nth 0 vSolutions []) in
                     if negb (pubkey_IsValid pubKey) then None else Some (CKeyID (pubkey_GetID pubKey))
                 | TX_PUBKEYHASH => Some (CKeyID (nth 0 vSolutions []))
                 | TX_SCRIPTHASH => Some (CScriptID (nth 0 vSolutions []))
                 | _ => None
                 end)
  end.

(** The keys between the first and the last solution that are valid. *)
Definition multisig_addresses (vSolutions : list (list Z)) : list CTxDestination :=
  omap (λ v, let pubKey := pubkey_Set v in
             if negb (pubkey_IsValid pubKey) then None else Some (CKeyID (pubkey_GetID pubKey)))
       (take (length vSolutions - 2) (drop 1 vSolutions)).

(** The type, and what else is returned on success: the addresses and
    [nRequiredRet]. *)
Definition ExtractDestinations (scriptPubKey : list Z) : option (txnouttype * option (list CTxDestination * Z)) :=
  match Solver scriptPubKey with
  | None => None
  | Some (mkSolved ok typeRet vSolutions) =>
      if negb ok then Some (typeRet, None)
      else if bool_decide (typeRet = TX_NULL_DATA) then Some (typeRet, None)
      else if bool_decide (typeRet = TX_MULTISIG) then
        let addressRet := multisig_addresses vSolutions in
        Some (typeRet, match addressRet with [] => None | _ => Some (addressRet, getz (nth 0 vSolutions []) 0) end)
      else match ExtractDestination scriptPubKey with
           | None => None
           | Some None => Some (typeRet, None)
           | Some (Some address) => Some (typeRet, Some ([address], 1))
           end
  end.

(** CScriptVisitor: the script, and whether there is a destination. *)
Definition script_visitor (dest : CTxDestination) : list Z * bool :=
  match dest with
  | CNoDestination => ([], false)
  | CKeyID id =>
      (push_opcode (push_opcode (push_data (push_opcode (push_opcode [] OP_DUP) OP_HASH160) id) OP_EQUALVERIFY) OP_CHECKSIG, true)
  | CScriptID id => (push_opcode (push_data (push_opcode [] OP_HASH160) id) OP_EQUAL, true)
  end.

Definition GetScriptForDestination (dest : CTxDestination) : list Z := (script_visitor dest).1.

Definition GetScriptForMultisig (nRequired : Z) (keys : list CPubKey) : list Z :=
  let script := push_opcode [] (EncodeOP_N nRequired) in
  let script := foldl push_data script keys in
  push_opcode (push_opcode script (EncodeOP_N (Z.of_nat (length keys)))) OP_CHECKMULTISIG.

(** ** What the standard forms are *)

(** [p] pushes [v], in any of the encodings. *)
Definition pushes (v p : list Z) : Prop :=
  ∃ op, op <= OP_PUSHDATA4 ∧ ∀ rest, GetOp2 (p ++ rest) = mkGetOp true op v rest.

Definition key_push (key p : list Z) : Prop := pushes key p ∧ key_sized key = true.

Inductive standard_form : list Z → txnouttype → list (list Z) → Prop :=
| form_script_hash h :
    length h = 20%nat → standard_form (OP_HASH160 :: 20 :: h ++ [OP_EQUAL]) TX_SCRIPTHASH [h]
| form_zerocoin_mint a data :
    (length data <= 148)%nat → standard_form (OP_ZEROCOINMINT :: a :: data) TX_ZEROCOINMINT [data]
| form_null_data data :
    IsPushOnly data = true → standard_form (OP_RETURN :: data) TX_NULL_DATA []
| form_pubkey key p :
    key_push key p → standard_form (p ++ [OP_CHECKSIG]) TX_PUBKEY [key]
| form_pubkey_hash h p :
    pushes h p → length h = 20%nat →
    standard_form (OP_DUP :: OP_HASH160 :: p ++ [OP_EQUALVERIFY; OP_CHECKSIG]) TX_PUBKEYHASH [h]
| form_multisig m keys ps :
    1 <= m <= Z.of_nat (length keys) → (length keys <= 16)%nat → Forall2 key_push keys ps →
    standard_form (EncodeOP_N m :: concat ps ++ [EncodeOP_N (Z.of_nat (length keys)); OP_CHECKMULTISIG])
      TX_MULTISIG ([m] :: keys ++ [[Z.of_nat (length keys)]]).

(** ** Reading an opcode, backwards *)

Lemma get_operand_ok opcode nSize pc :
  op_ok (get_operand opcode nSize pc) = true →
  ∃ d r, pc = d ++ r ∧ (∀ rest, get_operand opcode nSize (d ++ rest) = mkGetOp true opcode d rest)
    ∧ get_operand opcode nSize pc = mkGetOp true opcode d r ∧ length d = Z.to_nat nSize.
Proof.
  unfold get_operand. destruct (Z.ltb_spec (Z.of_nat (length pc)) nSize); [done|]. intros _.
  exists (take (Z.to_nat nSize) pc), (drop (Z.to_nat nSize) pc).
  assert (length (take (Z.to_nat nSize) pc) = Z.to_nat nSize) as Hl by (rewrite length_take; lia).
  split; [by rewrite take_drop|]. split; [|done]. intros rest.
  rewrite (proj2 (Z.ltb_ge _ _)) by (rewrite length_app; lia).
  by rewrite take_app_length', drop_app_length'.
Qed.

(** An opcode that was read is a prefix of the script. *)
Lemma GetOp2_ok s :
  op_ok (GetOp2 s) = true →
  ∃ p o v r, s = p ++ r ∧ GetOp2 s = mkGetOp true o v r ∧ (∀ rest, GetOp2 (p ++ rest) = mkGetOp true o v rest)
    ∧ p ≠ [] ∧ (OP_PUSHDATA4 < o → p = [o] ∧ v = []) ∧ (v ≠ [] → o <= OP_PUSHDATA4) ∧ (o = 0 → p = [0] ∧ v = []).
Proof.
  destruct s as [|o s]; [done|]. cbn [GetOp2].
  destruct (Z.leb_spec o OP_PUSHDATA4) as [Ho|Ho].
  2: { intros _. exists [o], o, [], s. split_and!; try done; [intros rest; by apply GetOp2_opcode|by intros ->]. }
  destruct (Z.ltb_spec o OP_PUSHDATA1) as [H1|H1]; [|destruct (Z.eqb_spec o OP_PUSHDATA1) as [->|N1];
    [|destruct (Z.eqb_spec o OP_PUSHDATA2) as [->|N2]]].
  - intros (d & r & -> & Hall & -> & Hl)%get_operand_ok. exists (o :: d), o, d, r. split_and!; try done; try (intros; lia).
    + intros rest. cbn [app GetOp2]. by rewrite (proj2 (Z.leb_le _ _)), (proj2 (Z.ltb_lt _ _)) by done.
    + intros ->. by destruct d.
  - destruct s as [|n s]; [done|]. intros (d & r & -> & Hall & -> & Hl)%get_operand_ok.
    exists (OP_PUSHDATA1 :: n :: d), OP_PUSHDATA1, d, r. split_and!; try done; intros; lia.
  - destruct (Nat.ltb_spec (length s) 2); [done|]. intros (d & r & Hs & Hall & -> & Hl)%get_operand_ok.
    exists (OP_PUSHDATA2 :: take 2 s ++ d), OP_PUSHDATA2, d, r. split_and!; try done; try (intros; lia).
    + cbn [app]. by rewrite <- app_assoc, <- Hs, take_drop.
    + intros rest. cbn [app GetOp2]. change (OP_PUSHDATA2 <=? OP_PUSHDATA4) with true. cbv iota. cbn [Z.ltb Z.eqb].
      destruct s as [|a [|b s]]; [simpl in *; lia..|]. cbn [take app length Nat.ltb Nat.leb drop]. apply Hall.
  - destruct (Nat.ltb_spec (length s) 4); [done|]. intros (d & r & Hs & Hall & -> & Hl)%get_operand_ok.
    exists (o :: take 4 s ++ d), o, d, r. split_and!; try done; try (intros; lia).
    + cbn [app]. by rewrite <- app_assoc, <- Hs, take_drop.
    + intros rest. cbn [app GetOp2]. rewrite (proj2 (Z.leb_le _ _)), (proj2 (Z.ltb_ge _ _)) by lia.
      rewrite (proj2 (Z.eqb_neq _ _)), (proj2 (Z.eqb_neq _ _)) by done.
      destruct s as [|a [|b [|c [|e s]]]]; [simpl in *; lia..|]. cbn [take app length Nat.ltb Nat.leb drop]. apply Hall.
    + change OP_PUSHDATA1 with 76 in *. intros. lia.
Qed.

Lemma pushes_nil p v : pushes v p → p ≠ [].
Proof. intros (op & _ & H) ->. specialize (H []). discriminate H. Qed.

Lemma pushes_read v p rest : pushes v p → ∃ op, op <= OP_PUSHDATA4 ∧ GetOp2 (p ++ rest) = mkGetOp true op v rest.
Proof. intros (op & Hop & H). eauto. Qed.

Lemma key_sized_ne v : key_sized v = true → v ≠ [].
Proof. by destruct v. Qed.

(** An operand that is not empty was pushed. *)
Lemma GetOp2_pushed s :
  op_ok (GetOp2 s) = true → op_data (GetOp2 s) ≠ [] →
  ∃ p, s = p ++ op_rest (GetOp2 s) ∧ pushes (op_data (GetOp2 s)) p.
Proof.
  intros (p & o & v & r & -> & E & Hall & _ & _ & Hv & _)%GetOp2_ok Hd. rewrite E in Hd |- *. cbn in *.
  exists p. split; [done|]. exists o. auto.
Qed.

Lemma GetOp2_fail s : op_ok (GetOp2 s) = false → op_code (GetOp2 s) = OP_INVALIDOPCODE.
Proof.
  destruct s as [|o s]; [done|]. cbn [GetOp2]. unfold get_operand.
  repeat case_match; done.
Qed.

Lemma GetOp2_shorter s : op_ok (GetOp2 s) = true → (length (op_rest (GetOp2 s)) < length s)%nat.
Proof.
  intros (p & o & v & r & -> & E & _ & Hp & _)%GetOp2_ok. rewrite E, length_app. destruct p; [done|]. cbn. lia.
Qed.

(** ** One opcode of a template *)

Lemma match_step f pc1 o2 t sols :
  OP_PUSHDATA4 < o2 → o2 ≠ OP_PUBKEYS →
  match_template (S f) pc1 (o2 :: t) sols =
    if op_ok (GetOp2 pc1) then
      match match_op (GetOp2 pc1) (mkGetOp true o2 [] t) with
      | Some added => match_template f (op_rest (GetOp2 pc1)) t (sols ++ added)
      | None => None
      end
    else None.
Proof.
  intros Ho Hk. cbn [match_template]. rewrite GetOp2_opcode by done. cbn [op_ok op_code op_rest negb].
  rewrite (proj2 (Z.eqb_neq _ _)) by done. cbn [op_ok negb]. destruct pc1 as [|b pc1]; [done|].
  by destruct (op_ok (GetOp2 (b :: pc1))).
Qed.

Lemma match_end f pc1 sols res : match_template (S f) pc1 [] sols = Some res ↔ pc1 = [] ∧ res = sols.
Proof.
  destruct pc1 as [|b pc1]; cbn [match_template].
  - split; [by intros [= ->]|by intros [_ ->]].
  - destruct (op_ok (GetOp2 (b :: pc1))); cbn [negb op_ok GetOp2 op_fail]; split; [done|by intros []..|done|by intros []].
Qed.

Lemma step_exact f pc1 o t sols res :
  OP_PUSHDATA4 < o < OP_SMALLINTEGER →
  match_template (S f) pc1 (o :: t) sols = Some res ↔ ∃ r, pc1 = o :: r ∧ match_template f r t sols = Some res.
Proof.
  change OP_SMALLINTEGER with 250. intros Ho.
  rewrite match_step by (change OP_PUBKEYS with 251; lia). unfold match_op. cbn [op_code op_data].
  change OP_PUBKEY with 254. change OP_PUBKEYHASH with 253. change OP_SMALLINTEGER with 250.
  rewrite !(proj2 (Z.eqb_neq o _)) by lia. split.
  - destruct (op_ok (GetOp2 pc1)) eqn:E; [|done]. apply GetOp2_ok in E as (p & o' & v & r & -> & -> & _ & _ & Hp & _).
    cbn [op_code op_data op_rest]. destruct (Z.eqb_spec o' o) as [->|]; [|done]. destruct Hp as [-> ->]; [lia|].
    rewrite bool_decide_true by done. cbn [negb orb]. rewrite app_nil_r. eauto.
  - intros (r & -> & H). rewrite GetOp2_opcode by lia. cbn [op_ok op_code op_data op_rest].
    rewrite Z.eqb_refl, bool_decide_true by done. cbn [negb orb]. by rewrite app_nil_r.
Qed.

Lemma step_key f pc1 t sols res :
  match_template (S f) pc1 (OP_PUBKEY :: t) sols = Some res ↔
  ∃ p key r, pc1 = p ++ r ∧ key_push key p ∧ match_template f r t (sols ++ [key]) = Some res.
Proof.
  rewrite match_step by done. unfold match_op. cbn [op_code]. change (OP_PUBKEY =? OP_PUBKEY) with true. cbv iota. split.
  - destruct (op_ok (GetOp2 pc1)) eqn:E; [|done]. destruct (key_sized _) eqn:K; [|done]. intros H.
    destruct (GetOp2_pushed pc1 E (key_sized_ne _ K)) as (p & Hp & Hv). eexists p, _, _. split; [exact Hp|]. done.
  - intros (p & key & r & -> & [Hp K] & H). destruct (pushes_read _ _ r Hp) as (op & _ & ->). cbn [op_ok op_data op_rest].
    by rewrite K.
Qed.

Lemma step_key_hash f pc1 t sols res :
  match_template (S f) pc1 (OP_PUBKEYHASH :: t) sols = Some res ↔
  ∃ p h r, pc1 = p ++ r ∧ pushes h p ∧ length h = 20%nat ∧ match_template f r t (sols ++ [h]) = Some res.
Proof.
  rewrite match_step by done. unfold match_op. cbn [op_code]. change (OP_PUBKEYHASH =? OP_PUBKEY) with false.
  change (OP_PUBKEYHASH =? OP_PUBKEYHASH) with true. cbv iota. split.
  - destruct (op_ok (GetOp2 pc1)) eqn:E; [|done]. destruct (Nat.eqb_spec (length (op_data (GetOp2 pc1))) 20) as [K|]; [|done].
    intros H. destruct (GetOp2_pushed pc1 E) as (p & Hp & Hv); [by intros D; rewrite D in K|].
    eexists p, _, _. split; [exact Hp|]. done.
  - intros (p & h & r & -> & Hp & K & H). destruct (pushes_read _ _ r Hp) as (op & _ & ->). cbn [op_ok op_data op_rest].
    by rewrite K.
Qed.

Lemma GetOp2_small m rest : 0 <= m <= 16 → GetOp2 (EncodeOP_N m :: rest) = mkGetOp true (EncodeOP_N m) [] rest.
Proof.
  intros Hm. unfold EncodeOP_N. destruct (Z.eqb_spec m 0) as [->|]; [exact (GetOp2_push [] rest ltac:(simpl; lia))|]. apply GetOp2_opcode.
  change OP_1 with 81. change OP_PUSHDATA4 with 78. lia.
Qed.

Definition is_small (o : Z) : bool := (o =? OP_0) || ((OP_1 <=? o) && (o <=? OP_16)).

Lemma is_small_encode m : 0 <= m <= 16 → is_small (EncodeOP_N m) = true ∧ DecodeOP_N (EncodeOP_N m) = m.
Proof.
  intros Hm. unfold is_small, EncodeOP_N, DecodeOP_N. change OP_0 with 0. change OP_1 with 81. change OP_16 with 96.
  destruct (Z.eqb_spec m 0) as [->|]; [done|]. rewrite (proj2 (Z.eqb_neq _ 0)) by lia. cbn [orb].
  rewrite !(proj2 (Z.leb_le _ _)) by lia. split; [done|lia].
Qed.

(** A small integer that was read is one byte. *)
Lemma GetOp2_is_small s :
  op_ok (GetOp2 s) = true → is_small (op_code (GetOp2 s)) = true →
  ∃ m, 0 <= m <= 16 ∧ s = EncodeOP_N m :: op_rest (GetOp2 s) ∧ DecodeOP_N (op_code (GetOp2 s)) = m.
Proof.
  intros (p & o & v & r & -> & E & _ & _ & Hp & _ & H0)%GetOp2_ok. rewrite E. cbn [op_code op_rest].
  unfold is_small, EncodeOP_N, DecodeOP_N. change OP_0 with 0. change OP_1 with 81 in *. change OP_16 with 96.
  change OP_PUSHDATA4 with 78 in Hp.
  destruct (Z.eqb_spec o 0) as [->|No]; cbn [orb].
  - intros _. exists 0. destruct H0 as [-> _]; done.
  - rewrite andb_true_iff, !Z.leb_le. intros Ho. exists (o - 80). rewrite (proj2 (Z.eqb_neq _ _)) by lia.
    destruct Hp as [-> _]; [lia|]. split_and!; try lia. cbn [app]. f_equal. lia.
Qed.

Lemma match_small op1 o2 t :
  match_op op1 (mkGetOp o2 OP_SMALLINTEGER [] t) = if is_small (op_code op1) then Some [[DecodeOP_N (op_code op1)]] else None.
Proof. done. Qed.

Lemma step_small f pc1 t sols res :
  match_template (S f) pc1 (OP_SMALLINTEGER :: t) sols = Some res ↔
  ∃ m r, 0 <= m <= 16 ∧ pc1 = EncodeOP_N m :: r ∧ match_template f r t (sols ++ [[m]]) = Some res.
Proof.
  rewrite match_step, match_small by done. split.
  - destruct (op_ok (GetOp2 pc1)) eqn:E; [|done]. destruct (is_small _) eqn:K; [|done]. intros H.
    destruct (GetOp2_is_small pc1 E K) as (m & Hm & Hs & D). rewrite D in H. eauto.
  - intros (m & r & Hm & -> & H). rewrite GetOp2_small by done. cbn [op_ok op_code op_rest].
    destruct (is_small_encode m Hm) as [-> ->]. done.
Qed.

(** ** Keys *)

Lemma scan_keys_spec fuel pc sols :
  op_ok (GetOp2 pc) = true → (length pc < fuel)%nat →
  ∃ keys ps pc', pc = concat ps ++ pc' ∧ Forall2 key_push keys ps ∧
    scan_keys fuel (GetOp2 pc) sols = (GetOp2 pc', sols ++ keys).
Proof.
  revert pc sols. induction fuel as [|fuel IH]; intros pc sols Hok Hf; [lia|]. cbn [scan_keys].
  destruct (key_sized (op_data (GetOp2 pc))) eqn:K.
  2: { exists [], [], pc. rewrite app_nil_r. split_and!; [done|constructor|done]. }
  destruct (GetOp2_pushed pc Hok (key_sized_ne _ K)) as (p & Hp & Hv). pose proof (GetOp2_shorter pc Hok).
  destruct (op_ok (GetOp2 (op_rest (GetOp2 pc)))) eqn:E.
  - destruct (IH _ (sols ++ [op_data (GetOp2 pc)]) E ltac:(lia)) as (keys & ps & pc' & Hpc & Hks & ->).
    exists (op_data (GetOp2 pc) :: keys), (p :: ps), pc'. split_and!.
    + cbn [concat]. rewrite <- app_assoc, <- Hpc. exact Hp.
    + constructor; [split; done|done].
    + by rewrite <- app_assoc.
  - exists [op_data (GetOp2 pc)], [p], (op_rest (GetOp2 pc)). cbn [concat]. rewrite app_nil_r.
    split_and!; [exact Hp|repeat constructor; done|done].
Qed.

Lemma scan_keys_run keys ps fuel s sols :
  Forall2 key_push keys ps → (length keys < fuel)%nat → op_ok (GetOp2 s) = true → op_data (GetOp2 s) = [] →
  op_ok (GetOp2 (concat ps ++ s)) = true ∧
  scan_keys fuel (GetOp2 (concat ps ++ s)) sols = (GetOp2 s, sols ++ keys).
Proof.
  intros Hks Hf Hs Hd. revert fuel sols Hf. induction Hks as [|key p keys ps [Hp K] Hks IH]; intros [|fuel] sols Hf; try (cbn in Hf; lia).
  - cbn [concat app scan_keys]. rewrite Hd, app_nil_r. done.
  - cbn [concat]. rewrite <- app_assoc. destruct (pushes_read _ _ (concat ps ++ s) Hp) as (op & _ & ->).
    split; [done|]. cbn [scan_keys op_data op_rest]. rewrite K.
    destruct (IH fuel (sols ++ [key]) ltac:(cbn in Hf; lia)) as [-> ->]. by rewrite <- app_assoc.
Qed.

Lemma length_concat_keys keys ps : Forall2 key_push keys ps → (length keys <= length (concat ps))%nat.
Proof.
  induction 1 as [|key p keys ps [Hp _] Hks IH]; [done|]. cbn [concat length]. rewrite length_app.
  pose proof (pushes_nil _ _ Hp). destruct p; [done|]. cbn. lia.
Qed.

Lemma step_keys f pc1 t sols res :
  match_template (S f) pc1 (OP_PUBKEYS :: OP_SMALLINTEGER :: t) sols = Some res ↔
  ∃ keys ps n r, Forall2 key_push keys ps ∧ 0 <= n <= 16 ∧ pc1 = concat ps ++ EncodeOP_N n :: r ∧
    match_template f r t (sols ++ keys ++ [[n]]) = Some res.
Proof.
  assert (match_template (S f) pc1 (OP_PUBKEYS :: OP_SMALLINTEGER :: t) sols =
    if op_ok (GetOp2 pc1) then
      let '(op1, sols) := scan_keys (S (length pc1)) (GetOp2 pc1) sols in
      if is_small (op_code op1) then match_template f (op_rest op1) t (sols ++ [[DecodeOP_N (op_code op1)]]) else None
    else None) as ->.
  { cbn [match_template]. rewrite !GetOp2_opcode by done. cbn [op_ok op_code op_rest negb].
    rewrite Z.eqb_refl. destruct pc1 as [|b pc1]; [done|]. destruct (op_ok (GetOp2 (b :: pc1))); [|done]. cbn [negb].
    destruct (scan_keys _ _ _) as [op1 sols']. rewrite GetOp2_opcode by done. cbn [op_ok negb op_rest].
    rewrite match_small. by destruct (is_small (op_code op1)). }
  split.
  - destruct (op_ok (GetOp2 pc1)) eqn:E; [|done].
    destruct (scan_keys_spec (S (length pc1)) pc1 sols E ltac:(lia)) as (keys & ps & pc' & -> & Hks & ->).
    destruct (is_small (op_code (GetOp2 pc'))) eqn:K; [|done]. intros H.
    destruct (op_ok (GetOp2 pc')) eqn:E'.
    + destruct (GetOp2_is_small pc' E' K) as (n & Hn & Hs & D). rewrite D in H. rewrite Hs.
      exists keys, ps, n, (op_rest (GetOp2 pc')). rewrite app_assoc. done.
    + exfalso. assert (op_code (GetOp2 pc') = OP_INVALIDOPCODE) as Hc by (by apply GetOp2_fail). by rewrite Hc in K.
  - intros (keys & ps & n & r & Hks & Hn & -> & H). pose proof (GetOp2_small n r Hn) as G.
    pose proof (length_concat_keys _ _ Hks).
    destruct (scan_keys_run keys ps (S (length (concat ps ++ EncodeOP_N n :: r))) (EncodeOP_N n :: r) sols Hks) as [-> ->];
      [rewrite length_app; lia|by rewrite G|by rewrite G|]. rewrite G. cbn [op_code op_rest].
    destruct (is_small_encode n Hn) as [-> ->]. by rewrite <- app_assoc.
Qed.

(** ** Whole templates *)

Lemma template_pubkey s res :
  match_template 3 s [OP_PUBKEY; OP_CHECKSIG] [] = Some res ↔
  ∃ p key, s = p ++ [OP_CHECKSIG] ∧ key_push key p ∧ res = [key].
Proof.
  rewrite step_key. split.
  - intros (p & key & r & -> & Hk & (r' & -> & [-> ->]%match_end)%step_exact); [|done]. eauto.
  - intros (p & key & -> & Hk & ->). exists p, key, [OP_CHECKSIG]. split_and!; [done..|].
    apply step_exact; [done|]. eexists. split; [done|]. by apply match_end.
Qed.

Lemma template_pubkey_hash s res :
  match_template 6 s [OP_DUP; OP_HASH160; OP_PUBKEYHASH; OP_EQUALVERIFY; OP_CHECKSIG] [] = Some res ↔
  ∃ p h, s = OP_DUP :: OP_HASH160 :: p ++ [OP_EQUALVERIFY; OP_CHECKSIG] ∧ pushes h p ∧ length h = 20%nat ∧ res = [h].
Proof.
  rewrite step_exact by done. setoid_rewrite step_exact; [|done]. setoid_rewrite step_key_hash. split.
  - intros (r & -> & r2 & -> & p & h & r3 & -> & Hp & Hl & (r4 & -> & (r5 & -> & [-> ->]%match_end)%step_exact)%step_exact);
      [|done..]. eauto 10.
  - intros (p & h & -> & Hp & Hl & ->). eexists. split; [done|]. eexists. split; [done|].
    exists p, h, [OP_EQUALVERIFY; OP_CHECKSIG]. split_and!; [done..|]. apply step_exact; [done|]. eexists. split; [done|].
    apply step_exact; [done|]. eexists. split; [done|]. by apply match_end.
Qed.

Lemma template_multisig s res :
  match_template 5 s [OP_SMALLINTEGER; OP_PUBKEYS; OP_SMALLINTEGER; OP_CHECKMULTISIG] [] = Some res ↔
  ∃ m keys ps n, s = EncodeOP_N m :: concat ps ++ [EncodeOP_N n; OP_CHECKMULTISIG] ∧ 0 <= m <= 16 ∧ 0 <= n <= 16 ∧
    Forall2 key_push keys ps ∧ res = [m] :: keys ++ [[n]].
Proof.
  rewrite step_small. split.
  - intros (m & r & Hm & -> & (keys & ps & n & r2 & Hk & Hn & -> & (r3 & -> & [-> ->]%match_end)%step_exact)%step_keys); [|done].
    by exists m, keys, ps, n.
  - intros (m & keys & ps & n & -> & Hm & Hn & Hk & ->). exists m, (concat ps ++ [EncodeOP_N n; OP_CHECKMULTISIG]).
    split_and!; [lia|lia|done|]. apply step_keys. exists keys, ps, n, [OP_CHECKMULTISIG]. split_and!; [done|lia|lia|done|].
    apply step_exact; [done|]. eexists. split; [done|]. by apply match_end.
Qed.

(** The first opcode tells the templates apart. *)
Lemma pushed_head v p rest : pushes v p → ∃ b r, p ++ rest = b :: r ∧ b <= OP_PUSHDATA4.
Proof.
  intros Hp. pose proof (pushes_nil _ _ Hp) as Hne. destruct (pushes_read _ _ rest Hp) as (op & Hop & E).
  destruct p as [|b p]; [done|]. exists b, (p ++ rest). split; [done|].
  destruct (Z.leb_spec b OP_PUSHDATA4); [done|]. cbn [app] in E. rewrite GetOp2_opcode in E by done.
  injection E as <- _ _. lia.
Qed.

Lemma encode_head m : 0 <= m → EncodeOP_N m = 0 ∨ OP_1 <= EncodeOP_N m.
Proof. unfold EncodeOP_N. destruct (Z.eqb_spec m 0); [by left|right; lia]. Qed.

Lemma match_pubkey_none s : match s with b :: _ => OP_PUSHDATA4 < b | [] => True end →
  match_template 3 s [OP_PUBKEY; OP_CHECKSIG] [] = None.
Proof.
  intros Hs. destruct (match_template _ _ _ _) eqn:E; [|done]. apply template_pubkey in E as (p & key & -> & [Hp _] & _).
  destruct (pushed_head _ _ [OP_CHECKSIG] Hp) as (b & r & E & Hb). rewrite E in Hs. lia.
Qed.

Lemma match_pubkey_hash_none s : head s ≠ Some OP_DUP →
  match_template 6 s [OP_DUP; OP_HASH160; OP_PUBKEYHASH; OP_EQUALVERIFY; OP_CHECKSIG] [] = None.
Proof.
  intros Hs. destruct (match_template _ _ _ _) eqn:E; [|done].
  by apply template_pubkey_hash in E as (p & key & -> & _).
Qed.

Lemma p2sh_shape s : IsPayToScriptHash s = true ↔ ∃ h, length h = 20%nat ∧ s = OP_HASH160 :: 20 :: h ++ [OP_EQUAL].
Proof.
  unfold IsPayToScriptHash. rewrite !andb_true_iff, Nat.eqb_eq, !Z.eqb_eq. split.
  - intros [[[Hl H0] H1] H22]. destruct s as [|a [|b s]]; [done|done|]. change (a = OP_HASH160) in H0. change (b = 20) in H1. subst a b.
    exists (take 20 s). cbn in Hl. split; [rewrite length_take; lia|]. do 2 f_equal. rewrite <- (take_drop 20 s) at 1. f_equal.
    assert (length (drop 20 s) = 1%nat) as Hd by (rewrite length_drop; lia).
    destruct (drop 20 s) as [|c [|]] eqn:D; [done| |done]. f_equal.
    unfold getz in H22. change (Z.to_nat 22) with 22%nat in H22. cbn [nth] in H22.
    rewrite <- (take_drop 20 s), D, app_nth2 in H22 by (rewrite length_take; lia).
    rewrite length_take in H22. by replace (20 - min 20 (length s))%nat with 0%nat in H22 by lia.
  - intros (h & Hl & ->). unfold getz. change (Z.to_nat 22) with 22%nat. cbn [length nth Z.to_nat Pos.to_nat].
    rewrite length_app, Hl, app_nth2, Hl by lia. done.
Qed.

(** A script that none of the shortcuts takes. *)
Lemma Solver_templates s :
  IsPayToScriptHash s = false → Script.IsZerocoinMint s = false →
  (1 <=? length s)%nat && (getz s 0 =? OP_RETURN) && IsPushOnly (drop 1 s) = false →
  Solver s = Some (scan_templates s mTemplates).
Proof. intros H1 H2 H3. unfold Solver. by rewrite H1, H2, H3. Qed.

Lemma nth_last_solution m keys (n : Z) : default [] (last ([m] :: keys ++ [[n]])) = [n].
Proof. change ([m] :: keys ++ [[n]]) with (([m] :: keys) ++ [[n]]). by rewrite last_snoc. Qed.

Lemma scan_templates_ok s t sols :
  scan_templates s mTemplates = mkSolved true t sols → standard_form s t sols.
Proof.
  unfold mTemplates. cbn [scan_templates length].
  destruct (match_template 3 _ _ _) as [r|] eqn:E1.
  { rewrite bool_decide_false by done. intros [= <- <-]. apply template_pubkey in E1 as (p & key & -> & Hk & ->). by constructor. }
  destruct (match_template 6 _ _ _) as [r|] eqn:E2.
  { rewrite bool_decide_false by done. intros [= <- <-]. apply template_pubkey_hash in E2 as (p & h & -> & Hp & Hl & ->).
    by constructor. }
  destruct (match_template 5 _ _ _) as [r|] eqn:E3; [|done].
  rewrite bool_decide_true by done. apply template_multisig in E3 as (m & keys & ps & n & -> & Hm & Hn & Hk & ->).
  rewrite nth_last_solution. cbn [nth getz]. unfold getz. change (Z.to_nat 0) with 0%nat. cbn [nth length].
  rewrite length_app. cbn [length].
  destruct (Z.ltb_spec m 1), (Z.ltb_spec n 1), (Z.ltb_spec n m), (Z.eqb_spec (Z.of_nat (S (length keys + 1)) - 2) n);
    cbn [orb negb]; try discriminate. intros [= <- <-].
  assert (n = Z.of_nat (length keys)) as -> by lia. apply form_multisig; [lia|lia|done].
Qed.

Lemma Solver_sound s t sols : Solver s = Some (mkSolved true t sols) → standard_form s t sols.
Proof.
  unfold Solver. destruct (IsPayToScriptHash s) eqn:E1.
  { intros [= <- <-]. apply p2sh_shape in E1 as (h & Hl & ->). cbn [drop].
    rewrite drop_0, take_app_length' by done. by constructor. }
  destruct (Script.IsZerocoinMint s) eqn:E2.
  { destruct (Z.ltb_spec 150 (Z.of_nat (length s))); [done|]. destruct (Nat.ltb_spec (length s) 2); [done|].
    intros [= <- <-]. destruct s as [|a [|b s]]; [done|simpl in *; lia|]. cbn in E2. apply Z.eqb_eq in E2 as ->.
    cbn [drop]. rewrite drop_0. constructor. simpl in *. lia. }
  destruct (_ && _ && _) eqn:E3.
  { intros [= <- <-]. rewrite !andb_true_iff, Z.eqb_eq in E3. destruct E3 as [[H1 H2] H3].
    destruct s as [|a s]; [done|]. change (a = OP_RETURN) in H2. subst a. constructor. exact H3. }
  intros [= H]. by apply scan_templates_ok.
Qed.

(** The shortcuts are only for scripts that begin with their opcodes. *)
Lemma Solver_other b s :
  b ≠ OP_HASH160 → b ≠ OP_ZEROCOINMINT → b ≠ OP_RETURN → Solver (b :: s) = Some (scan_templates (b :: s) mTemplates).
Proof.
  intros H1 H2 H3. apply Solver_templates.
  - destruct (IsPayToScriptHash (b :: s)) eqn:E; [|done]. apply p2sh_shape in E as (h & _ & [= -> _]). done.
  - cbn. by apply Z.eqb_neq.
  - unfold getz. change (Z.to_nat 0) with 0%nat. cbn [nth]. rewrite (proj2 (Z.eqb_neq _ _) H3). by rewrite andb_false_r.
Qed.

Lemma Solver_complete s t sols : standard_form s t sols → Solver s = Some (mkSolved true t sols).
Proof.
  intros H. destruct H as [h Hl|a data Hl|data Hd|key p Hk|h p Hp Hl|m keys ps Hm Hn Hk].
  - unfold Solver. rewrite (proj2 (p2sh_shape _)) by eauto. cbn [drop]. by rewrite drop_0, take_app_length'.
  - unfold Solver. destruct (IsPayToScriptHash _) eqn:E; [by apply p2sh_shape in E as (h & _ & [=])|].
    change (Script.IsZerocoinMint (OP_ZEROCOINMINT :: a :: data)) with true. cbv iota. cbn [length].
    rewrite (proj2 (Z.ltb_ge _ _)), (proj2 (Nat.ltb_ge _ _)) by lia. cbn [drop]. by rewrite drop_0.
  - unfold Solver. destruct (IsPayToScriptHash _) eqn:E; [by apply p2sh_shape in E as (h & _ & [=])|].
    change (Script.IsZerocoinMint (OP_RETURN :: data)) with false. cbv iota. change (drop 1 (OP_RETURN :: data)) with (drop 0 data).
    rewrite drop_0, Hd. done.
  - pose proof Hk as [Hp _]. destruct (pushed_head _ _ [OP_CHECKSIG] Hp) as (b & r & E & Hb). rewrite E.
    change OP_PUSHDATA4 with 78 in Hb. rewrite Solver_other by (intros ->; done). rewrite <- E.
    unfold mTemplates. cbn [scan_templates length].
    rewrite (proj2 (template_pubkey _ [key])) by eauto.
    by rewrite bool_decide_false.
  - rewrite Solver_other by done. unfold mTemplates. cbn [scan_templates length].
    rewrite match_pubkey_none by done. rewrite (proj2 (template_pubkey_hash _ [h])) by (exists p, h; auto).
    by rewrite bool_decide_false.
  - assert (EncodeOP_N m = 80 + m) as Em by (unfold EncodeOP_N; rewrite (proj2 (Z.eqb_neq _ _)) by lia; change OP_1 with 81; lia).
    rewrite Solver_other by (rewrite Em; change OP_HASH160 with 169; change OP_ZEROCOINMINT with 193;
      change OP_RETURN with 106; lia).
    unfold mTemplates. cbn [scan_templates length]. rewrite match_pubkey_none by (rewrite Em; change OP_PUSHDATA4 with 78; lia).
    rewrite match_pubkey_hash_none by (cbn [head]; rewrite Em; change OP_DUP with 118; intros [= ?]; lia).
    rewrite (proj2 (template_multisig _ ([m] :: keys ++ [[Z.of_nat (length keys)]])))
      by (exists m, keys, ps, (Z.of_nat (length keys)); split_and!; first [done | lia]).
    rewrite bool_decide_true, nth_last_solution by done. unfold getz. change (Z.to_nat 0) with 0%nat. cbn [nth length].
    rewrite length_app. cbn [length]. rewrite !(proj2 (Z.ltb_ge _ _)) by lia. rewrite (proj2 (Z.eqb_eq _ _)) by lia. done.
Qed.

(** Solver accepts exactly the standard scripts, and gives their type and
    their keys and hashes: pay to script hash, mints of at most 150 bytes, data
    after OP_RETURN, pay to public key and to key hash, and m-of-n multisignature
    with 1 <= m <= n <= 16, whatever push encoding the keys and the hash have. It
    is undefined only on the mint script of one byte. *)
Theorem solver_accepts_standard_forms s t sols :
  (Solver s = Some (mkSolved true t sols) ↔ standard_form s t sols) ∧
  (Solver s = None ↔ s = [OP_ZEROCOINMINT]).
Proof.
  split; [split; [apply Solver_sound|apply Solver_complete]|]. split.
  - unfold Solver. destruct (IsPayToScriptHash s); [done|]. destruct (Script.IsZerocoinMint s) eqn:E; [|by destruct (_ && _ && _)].
    destruct (150 <? _); [done|]. destruct (Nat.ltb_spec (length s) 2); [|done]. intros _.
    destruct s as [|a [|]]; [done| |simpl in *; lia]. cbn in E. by apply Z.eqb_eq in E as ->.
  - by intros ->.
Qed.

(** ** Destinations and scripts *)

Lemma push_data_pushes v script :
  Z.of_nat (length v) < 2 ^ 32 → ∃ p, push_data script v = script ++ p ∧ pushes v p.
Proof.
  intros Hl. exists (push_data [] v). split.
  - unfold push_data. cbn [app]. repeat case_match; by rewrite <- ?app_assoc.
  - exists (push_op v).1. split; [|intros rest; rewrite GetOp2_push by done; done].
    unfold push_op. cbn [fst]. change OP_PUSHDATA1 with 76. change OP_PUSHDATA2 with 77. change OP_PUSHDATA4 with 78.
    repeat case_match; try lia.
Qed.

Lemma push_keys script keys :
  Forall (λ k, key_sized k = true) keys →
  ∃ ps, foldl push_data script keys = script ++ concat ps ∧ Forall2 key_push keys ps.
Proof.
  intros Hk. revert script. induction Hk as [|k keys K Hk IH]; intros script; cbn [foldl].
  { exists []. split; [by rewrite app_nil_r|constructor]. }
  assert (Z.of_nat (length k) < 2 ^ 32) as Hl.
  { unfold key_sized in K. apply andb_true_iff in K as [_ K]. apply Nat.leb_le in K.
    change (2 ^ 32) with 4294967296. lia. }
  destruct (push_data_pushes k script Hl) as (p & -> & Hp). destruct (IH (script ++ p)) as (ps & -> & Hps).
  exists (p :: ps). cbn [concat]. split; [by rewrite <- app_assoc|]. constructor; [split; done|done].
Qed.

(** A valid key is one that Set leaves as it is. *)
Definition valid_key (k : CPubKey) : Prop := pubkey_IsValid k = true ∧ pubkey_Set k = k.

Lemma valid_key_sized k : valid_key k → key_sized k = true.
Proof.
  intros [Hv Hs]. unfold pubkey_Set in Hs. destruct k as [|b k]; [done|].
  destruct (Z.eqb_spec (GetLen b) (Z.of_nat (length (b :: k)))) as [E|]; [|by rewrite andb_false_r in Hs].
  unfold GetLen in E. unfold key_sized. apply andb_true_iff. rewrite !Nat.leb_le.
  destruct (_ || _); [lia|]. destruct (_ || _); [lia|]. cbn [length] in *. lia.
Qed.

Lemma standard_script_hash id :
  length id = 20%nat → GetScriptForDestination (CScriptID id) = OP_HASH160 :: 20 :: id ++ [OP_EQUAL].
Proof.
  intros Hl. unfold GetScriptForDestination, script_visitor, push_opcode, push_data. cbn [fst]. rewrite Hl.
  change (Z.of_nat 20 <? OP_PUSHDATA1) with true. cbn [app]. done.
Qed.

Lemma multisig_addresses_keys m keys n :
  Forall valid_key keys → multisig_addresses ([m] :: keys ++ [[n]]) = map (λ k, CKeyID (pubkey_GetID k)) keys.
Proof.
  intros Hk. unfold multisig_addresses. assert (take (length ([m] :: keys ++ [[n]]) - 2) (drop 1 ([m] :: keys ++ [[n]])) = keys) as ->.
  { cbn [length drop]. rewrite drop_0, length_app. cbn [length]. by rewrite take_app_length' by lia. }
  induction Hk as [|k keys [V S] Hk IH]; [done|]. cbn [map]. rewrite <- IH.
  change (k :: keys) with ([k] ++ keys). rewrite omap_app. cbn. by rewrite S, V.
Qed.

(** addresses and scripts correspond. The script of a key or script hash
    gives back that address; a script with a script address is the script of that
    address, and one with a key address pays to a key with that hash or to that
    hash; and the destinations of an m-of-n script are the addresses of its
    keys, with the number required. *)
Theorem destination_roundtrip :
  (∀ id, length id = 20%nat →
    ExtractDestination (GetScriptForDestination (CKeyID id)) = Some (Some (CKeyID id)) ∧
    ExtractDestination (GetScriptForDestination (CScriptID id)) = Some (Some (CScriptID id))) ∧
  (∀ s id, ExtractDestination s = Some (Some (CScriptID id)) →
    length id = 20%nat ∧ s = GetScriptForDestination (CScriptID id)) ∧
  (∀ s id, ExtractDestination s = Some (Some (CKeyID id)) →
    standard_form s TX_PUBKEYHASH [id] ∨
    ∃ key, standard_form s TX_PUBKEY [key] ∧ valid_key key ∧ id = pubkey_GetID key) ∧
  (∀ s, ExtractDestination s ≠ Some (Some CNoDestination)) ∧
  (∀ m keys, 1 <= m <= Z.of_nat (length keys) → (length keys <= 16)%nat → Forall valid_key keys →
    ExtractDestinations (GetScriptForMultisig m keys)
    = Some (TX_MULTISIG, Some (map (λ k, CKeyID (pubkey_GetID k)) keys, m))).
Proof.
  assert (∀ s a, ExtractDestination s = Some (Some a) →
    match a with
    | CScriptID id => length id = 20%nat ∧ s = GetScriptForDestination (CScriptID id)
    | CKeyID id => standard_form s TX_PUBKEYHASH [id] ∨
                   ∃ key, standard_form s TX_PUBKEY [key] ∧ valid_key key ∧ id = pubkey_GetID key
    | CNoDestination => False
    end) as Hinv.
  { intros s a. unfold ExtractDestination. destruct (Solver s) as [[[] t sols]|] eqn:E; [|done..]. cbn [negb].
    apply Solver_sound in E. intros [= H]. pose proof E as E'.
    destruct E as [h Hl| | |key p Hk|h p Hp Hl| ]; cbn [nth] in H; try discriminate.
    - injection H as <-. rewrite standard_script_hash by done. done.
    - destruct (pubkey_IsValid (pubkey_Set key)) eqn:V; [|done]. injection H as <-.
      assert (pubkey_Set key = key) as Es by (unfold pubkey_Set in *; destruct (_ && _); done). rewrite Es in *.
      right. exists key. split; [done|]. split; [split; done|done].
    - injection H as <-. by left. }
  split_and!.
  - intros id Hl. split.
    + unfold GetScriptForDestination, script_visitor, push_opcode. cbn [fst app].
      destruct (push_data_pushes id [OP_DUP; OP_HASH160]) as (p & -> & Hp); [rewrite Hl; done|].
      unfold ExtractDestination. rewrite <- !app_assoc. cbn [app].
      by rewrite (Solver_complete _ _ _ (form_pubkey_hash id p Hp Hl)).
    + unfold ExtractDestination. rewrite standard_script_hash by done. by rewrite (Solver_complete _ _ _ (form_script_hash id Hl)).
  - intros s id H. exact (Hinv _ _ H).
  - intros s id H. exact (Hinv _ _ H).
  - intros s H. exact (Hinv _ _ H).
  - intros m keys Hm Hn Hk. unfold GetScriptForMultisig, push_opcode.
    destruct (push_keys ([] ++ [EncodeOP_N m]) keys) as (ps & -> & Hps).
    { eapply Forall_impl; [exact Hk|]. apply valid_key_sized. }
    rewrite <- !app_assoc. cbn [app]. unfold ExtractDestinations.
    rewrite (Solver_complete _ _ _ (form_multisig m keys ps Hm Hn Hps)). cbn [negb].
    rewrite bool_decide_false, bool_decide_true, multisig_addresses_keys by done.
    destruct keys as [|k keys]; [simpl in Hm; lia|]. done.
Qed.

(** Compressed keys; only their lengths and first bytes matter here. *)
Definition ex_key (k : Z) : CPubKey := 2 :: replicate 32 k.

Lemma destination_roundtrip_witness :
  ExtractDestination (GetScriptForDestination (CKeyID (replicate 20 7))) = Some (Some (CKeyID (replicate 20 7))) ∧
  ExtractDestinations (GetScriptForMultisig 2 [ex_key 1; ex_key 2; ex_key 3])
  = Some (TX_MULTISIG, Some (map (λ k, CKeyID (pubkey_GetID k)) [ex_key 1; ex_key 2; ex_key 3], 2)).
Proof.
  destruct destination_roundtrip as (H1 & _ & _ & _ & H5). split.
  - apply (H1 (replicate 20 7)). reflexivity.
  - apply (H5 2 [ex_key 1; ex_key 2; ex_key 3]); [cbn; lia|cbn; lia|repeat constructor].
Defined.

Example two_of_three :
  Solver (GetScriptForMultisig 2 [ex_key 1; ex_key 2; ex_key 3])
  = Some (mkSolved true TX_MULTISIG [[2]; ex_key 1; ex_key 2; ex_key 3; [3]]).
Proof. vm_compute. reflexivity. Qed.

(** A multisignature script that asks for more keys than it has is refused, but
    its type is set. *)
Example three_of_two :
  (λ r, (s_ok r, typeRet r)) <$> Solver (GetScriptForMultisig 3 [ex_key 1; ex_key 2]) = Some (false, TX_MULTISIG).
Proof. vm_compute. reflexivity. Qed.
