(* ===== verification/Base58.v ===== *)
(** * base58.cpp: base 58 and addresses

    A C string is its bytes before the terminating zero. Buffers are big-endian
    digits, as in the source; an assertion that fails is [None]. *)

From S2P Require Import Prelude StrEncodings Params Script Digest Hashes Tx Standard.

#[local] Opaque Hash Hash160.

Definition pszBase58 : list Z := str "123456789ABCDEFGHJKLMNPQRSTUVWXYZabcdefghijkmnopqrstuvwxyz".

(** ** Digits *)

(** [b = b * mul + carry] on digits of base [out], from the last one; with the
    carry that is left. *)
Definition mul_add (mul out ch : Z) (b : list Z) : Z * list Z :=
  foldr (λ it '(carry, b), let carry := carry + mul * it in (carry / out, carry mod out :: b)) (ch, []) b.

(** One character or byte, with the assertion. *)
Definition mul_add_checked (mul out : Z) (b : option (list Z)) (ch : Z) : option (list Z) :=
  match b with
  | None => None
  | Some b => let '(carry, b) := mul_add mul out ch b in if carry =? 0 then Some b else None
  end.

Fixpoint skip_zeroes (b : list Z) : list Z :=
  match b with
  | it :: r => if it =? 0 then skip_zeroes r else b
  | [] => []
  end.

(** What is skipped by the first loop, and how many. *)
Fixpoint skip_count (c : Z) (psz : list Z) (zeroes : nat) : list Z * nat :=
  match psz with
  | x :: r => if x =? c then skip_count c r (S zeroes) else (psz, zeroes)
  | [] => (psz, zeroes)
  end.

(** ** EncodeBase58 *)

Definition EncodeBase58 (vch : list Z) : option (list Z) :=
  let '(p, zeroes) := skip_count 0 vch 0 in
  match foldl (mul_add_checked 256 58) (Some (replicate (length p * 138 / 100 + 1) 0)) p with
  | None => None
  | Some b58 => Some (replicate zeroes 49 ++ map (getz pszBase58) (skip_zeroes b58))
  end.

(** ** DecodeBase58 *)

(** [strchr(pszBase58, *psz) - pszBase58]. *)
Fixpoint strchr (s : list Z) (c : Z) (i : Z) : option Z :=
  match s with
  | x :: s => if x =? c then Some i else strchr s c (i + 1)
  | [] => None
  end.

(** What the loop over the characters leaves: the buffer and the rest of the
    string, [Throw false] for a bad character and [Throw true] for the failed
    assertion. *)
Fixpoint decode_chars (psz : list Z) (b256 : list Z) : result bool (list Z * list Z) :=
  match psz with
  | c :: r =>
      if isspace c then Ok (b256, psz)
      else match strchr pszBase58 c 0 with
           | None => Throw false
           | Some ch =>
               match mul_add_checked 58 256 (Some b256) ch with
               | None => Throw true
               | Some b256 => decode_chars r b256
               end
           end
  | [] => Ok (b256, psz)
  end.

(** [None] for the failed assertion; [Some None] is false. *)
Definition DecodeBase58 (psz : list Z) : option (option (list Z)) :=
  let '(p, zeroes) := skip_count 49 (skip_spaces psz) 0 in
  match decode_chars p (replicate (length p * 733 / 1000 + 1) 0) with
  | Throw assertion => if assertion : bool then None else Some None
  | Ok (b256, rest) =>
      Some match skip_spaces rest with
           | _ :: _ => None
           | [] => Some (replicate zeroes 0 ++ skip_zeroes b256)
           end
  end.

(** The overload that returns hexadecimal. *)
Definition DecodeBase58_hex (psz : list Z) : option (list Z) :=
  (λ r, HexStr (default [] r) false) <$> DecodeBase58 psz.

(** ** Checksums *)

Definition EncodeBase58Check (vchIn : list Z) : option (list Z) :=
  EncodeBase58 (vchIn ++ take 4 (Hash vchIn)).

Definition DecodeBase58Check (psz : list Z) : option (option (list Z)) :=
  match DecodeBase58 psz with
  | None => None
  | Some None => Some None
  | Some (Some vchRet) =>
      Some (if (length vchRet <? 4)%nat then None
            else
              let body := take (length vchRet - 4) vchRet in
              if negb (bool_decide (take 4 (Hash body) = drop (length vchRet - 4) vchRet)) then None
              else Some body)
  end.

(** ** CBase58Data *)

Record CBase58Data := mkBase58Data { vchVersion : list Z; vchData : list Z }.

Definition empty_base58 : CBase58Data := mkBase58Data [] [].

Definition SetData (vchVersionIn pdata : list Z) : CBase58Data := mkBase58Data vchVersionIn pdata.

Definition SetString (psz : list Z) (nVersionBytes : nat) : option (CBase58Data * bool) :=
  match DecodeBase58Check psz with
  | None => None
  | Some rc58 =>
      let vchTemp := default [] rc58 in
      Some (if negb (bool_decide (is_Some rc58)) || (length vchTemp <? nVersionBytes)%nat then (empty_base58, false)
            else (mkBase58Data (take nVersionBytes vchTemp) (drop nVersionBytes vchTemp), true))
  end.

Definition base58_ToString (d : CBase58Data) : option (list Z) := EncodeBase58Check (vchVersion d ++ vchData d).

(** [operator<] of byte vectors. *)
Fixpoint vector_lt (a b : list Z) : bool :=
  match a, b with
  | x :: a, y :: b => (x <? y) || ((x =? y) && vector_lt a b)
  | [], _ :: _ => true
  | _, [] => false
  end.

Definition base58_CompareTo (a b : CBase58Data) : Z :=
  if vector_lt (vchVersion a) (vchVersion b) then -1
  else if vector_lt (vchVersion b) (vchVersion a) then 1
  else if vector_lt (vchData a) (vchData b) then -1
  else if vector_lt (vchData b) (vchData a) then 1
  else 0.

(** ** Addresses *)

Inductive Base58Type := PUBKEY_ADDRESS | SCRIPT_ADDRESS | SECRET_KEY | EXT_PUBLIC_KEY | EXT_SECRET_KEY | EXT_COIN_TYPE.

(** The constructor of CMainParams. *)
Definition main_prefix (type : Base58Type) : list Z :=
  match type with
  | PUBKEY_ADDRESS => [50]
  | SCRIPT_ADDRESS => [53]
  | SECRET_KEY => [178]
  | EXT_PUBLIC_KEY => [0x02; 0x2D; 0x25; 0x33]
  | EXT_SECRET_KEY => [0x02; 0x21; 0x31; 0x2B]
  | EXT_COIN_TYPE => [0x80; 0x00; 0x00; 0x77]
  end.

(** The constructor of CTestNetParams. *)
Definition test_prefix (type : Base58Type) : list Z :=
  match type with
  | PUBKEY_ADDRESS => [80]
  | SCRIPT_ADDRESS => [83]
  | SECRET_KEY => [208]
  | EXT_PUBLIC_KEY => [0x02; 0x2D; 0x25; 0x33]
  | EXT_SECRET_KEY => [0x02; 0x21; 0x31; 0x2B]
  | EXT_COIN_TYPE => [0x80; 0x00; 0x00; 0x77]
  end.

(** The regression test network keeps the prefixes of the test network, the unit
    test network those of the main network. *)
Definition Base58Prefix (network : Network) (type : Base58Type) : list Z :=
  match network with
  | MAIN | UNITTEST => main_prefix type
  | TESTNET | REGTEST => test_prefix type
  end.

Section address.
Variable network : Network.

(** [Set]: nothing is done for no destination. *)
Definition address_Set (addr : CBase58Data) (dest : CTxDestination) : CBase58Data * bool :=
  match dest with
  | CKeyID id => (SetData (Base58Prefix network PUBKEY_ADDRESS) id, true)
  | CScriptID id => (SetData (Base58Prefix network SCRIPT_ADDRESS) id, true)
  | CNoDestination => (addr, false)
  end.

Definition address_IsValid (addr : CBase58Data) : bool :=
  (length (vchData addr) =? 20)%nat &&
  (bool_decide (vchVersion addr = Base58Prefix network PUBKEY_ADDRESS)
   || bool_decide (vchVersion addr = Base58Prefix network SCRIPT_ADDRESS)).

Definition address_Get (addr : CBase58Data) : CTxDestination :=
  if negb (address_IsValid addr) then CNoDestination
  else if bool_decide (vchVersion addr = Base58Prefix network PUBKEY_ADDRESS) then CKeyID (vchData addr)
  else if bool_decide (vchVersion addr = Base58Prefix network SCRIPT_ADDRESS) then CScriptID (vchData addr)
  else CNoDestination.

Definition address_GetKeyID (addr : CBase58Data) : option (list Z) :=
  if negb (address_IsValid addr) || negb (bool_decide (vchVersion addr = Base58Prefix network PUBKEY_ADDRESS)) then None
  else Some (vchData addr).

Definition address_IsScript (addr : CBase58Data) : bool :=
  address_IsValid addr && bool_decide (vchVersion addr = Base58Prefix network SCRIPT_ADDRESS).

(** CBitcoinSecret, on the 32 bytes of a key and whether its public key is
    compressed; what GetKey passes to [CKey::Set]. *)
Definition secret_SetKey (vchSecret : list Z) (fCompressed : bool) : CBase58Data :=
  let d := SetData (Base58Prefix network SECRET_KEY) vchSecret in
  if fCompressed then mkBase58Data (vchVersion d) (vchData d ++ [1]) else d.

Definition secret_GetKey (d : CBase58Data) : list Z * bool :=
  (take 32 (vchData d), (32 <? length (vchData d))%nat && (getz (vchData d) 32 =? 1)).

Definition secret_IsValid (d : CBase58Data) : bool :=
  ((length (vchData d) =? 32)%nat || ((length (vchData d) =? 33)%nat && (getz (vchData d) 32 =? 1)))
  && bool_decide (vchVersion d = Base58Prefix network SECRET_KEY).

Definition secret_SetString (psz : list Z) : option (CBase58Data * bool) :=
  (λ '(d, ok), (d, ok && secret_IsValid d)) <$> SetString psz 1.
End address.

(** ** Numbers *)

(** The number of a list of digits, the most significant one first. *)
Definition digits_val (base : Z) (ds : list Z) : Z := foldl (λ v d, v * base + d) 0 ds.

Definition digit (base d : Z) : Prop := 0 <= d < base.

(** No leading zero. *)
Definition canonical (ds : list Z) : Prop := head ds ≠ Some 0.

Lemma foldl_val base ds v : foldl (λ v d, v * base + d) v ds = v * base ^ Z.of_nat (length ds) + digits_val base ds.
Proof.
  unfold digits_val. revert v. induction ds as [|d ds IH]; intros v; cbn [foldl length]; [simpl; lia|].
  rewrite IH, (IH (0 * base + d)). replace (Z.of_nat (S (length ds))) with (Z.of_nat (length ds) + 1) by lia.
  rewrite Z.pow_add_r by lia. lia.
Qed.

Lemma digits_val_cons base d ds : digits_val base (d :: ds) = d * base ^ Z.of_nat (length ds) + digits_val base ds.
Proof. unfold digits_val at 1. cbn [foldl]. rewrite foldl_val. lia. Qed.

Lemma digits_val_snoc base ds d : digits_val base (ds ++ [d]) = digits_val base ds * base + d.
Proof. unfold digits_val. by rewrite foldl_app. Qed.

Lemma digits_val_range base ds : 0 < base → Forall (digit base) ds → 0 <= digits_val base ds < base ^ Z.of_nat (length ds).
Proof.
  intros Hb. induction 1 as [|d ds [Hd1 Hd2] Hds IH]; [unfold digits_val; simpl; lia|]. rewrite digits_val_cons. cbn [length].
  replace (Z.of_nat (S (length ds))) with (Z.of_nat (length ds) + 1) by lia. rewrite Z.pow_add_r by lia.
  assert (0 < base ^ Z.of_nat (length ds)) by (apply Z.pow_pos_nonneg; lia). nia.
Qed.

Lemma digits_val_zeroes base n : digits_val base (replicate n 0) = 0.
Proof. induction n as [|n IH]; [done|]. cbn [replicate]. rewrite digits_val_cons, IH. lia. Qed.

(** Digits without leading zero are determined by their number. *)
Lemma digits_val_low base ds : 0 < base → Forall (digit base) ds → canonical ds → ds ≠ [] →
  base ^ (Z.of_nat (length ds) - 1) <= digits_val base ds.
Proof.
  intros Hb Hds Hc Hne. destruct ds as [|d ds]; [done|]. rewrite digits_val_cons. apply Forall_cons in Hds as [[Hd _] Hds].
  assert (d ≠ 0) by (by intros ->). pose proof (digits_val_range base ds Hb Hds). cbn [length].
  replace (Z.of_nat (S (length ds)) - 1) with (Z.of_nat (length ds)) by lia.
  assert (0 < base ^ Z.of_nat (length ds)) by (apply Z.pow_pos_nonneg; lia). nia.
Qed.

Lemma digits_same_length base ds1 ds2 :
  1 < base → Forall (digit base) ds1 → Forall (digit base) ds2 → length ds1 = length ds2 →
  digits_val base ds1 = digits_val base ds2 → ds1 = ds2.
Proof.
  intros Hb H1. revert ds2. induction H1 as [|d1 ds1 [D1 D1'] H1 IH]; intros [|d2 ds2] H2 Hl E; [done|done|done|].
  apply Forall_cons in H2 as [[D2 D2'] H2]. injection Hl as Hl. rewrite !digits_val_cons, <- Hl in E.
  pose proof (digits_val_range base ds1 ltac:(lia) H1). pose proof (digits_val_range base ds2 ltac:(lia) H2) as R2.
  rewrite <- Hl in R2. assert (d1 = d2) as -> by nia. f_equal. apply IH; [done|done|lia].
Qed.

Lemma digits_val_inj base ds1 ds2 :
  1 < base → Forall (digit base) ds1 → Forall (digit base) ds2 → canonical ds1 → canonical ds2 →
  digits_val base ds1 = digits_val base ds2 → ds1 = ds2.
Proof.
  intros Hb H1 H2 C1 C2 E.
  assert (∀ a b, Forall (digit base) a → Forall (digit base) b → canonical b → (length a < length b)%nat →
    digits_val base a < digits_val base b) as Hlt.
  { intros a b Ha Hb' Cb Hl. assert (b ≠ []) as Hne by (by intros ->; simpl in Hl; lia).
    pose proof (digits_val_low base b ltac:(lia) Hb' Cb Hne). pose proof (digits_val_range base a ltac:(lia) Ha).
    assert (base ^ Z.of_nat (length a) <= base ^ (Z.of_nat (length b) - 1)) by (apply Z.pow_le_mono_r; lia). lia. }
  destruct (Nat.lt_trichotomy (length ds1) (length ds2)) as [Hl|[Hl|Hl]].
  - specialize (Hlt _ _ H1 H2 C2 Hl). lia.
  - by apply (digits_same_length base).
  - specialize (Hlt _ _ H2 H1 C1 Hl). lia.
Qed.

(** ** The buffer *)

Lemma mul_add_spec mul out ch b :
  0 < out → 0 <= mul → 0 <= ch → Forall (digit out) b →
  let '(carry, b') := mul_add mul out ch b in
  length b' = length b ∧ Forall (digit out) b' ∧ 0 <= carry ∧
  digits_val out b * mul + ch = carry * out ^ Z.of_nat (length b) + digits_val out b'.
Proof.
  intros Ho Hm Hc. induction 1 as [|d b [Hd1 Hd2] Hb IH]; [cbn; unfold digits_val; cbn; split_and!; [done|done|lia|lia]|].
  change (mul_add mul out ch (d :: b)) with
    (let '(carry, b) := mul_add mul out ch b in
     let carry := carry + mul * d in (carry / out, carry mod out :: b)).
  destruct (mul_add mul out ch b) as [carry b']. destruct IH as (Hl & Hb' & Hcarry & E).
  cbv zeta beta iota. split_and!.
  - cbn [length]. by rewrite Hl.
  - constructor; [|done]. unfold digit. apply Z.mod_pos_bound. lia.
  - apply Z.div_pos; nia.
  - rewrite !digits_val_cons. cbn [length]. rewrite Hl. replace (Z.of_nat (S (length b))) with (Z.of_nat (length b) + 1) by lia.
    rewrite Z.pow_add_r by lia. pose proof (Z.div_mod (carry + mul * d) out ltac:(lia)). nia.
Qed.

(** A buffer that is large enough: no assertion fails. *)
Lemma mul_add_checked_spec mul out ch b :
  1 < out → 0 < mul → 0 <= ch → Forall (digit out) b → digits_val out b * mul + ch < out ^ Z.of_nat (length b) →
  ∃ b', mul_add_checked mul out (Some b) ch = Some b' ∧ length b' = length b ∧ Forall (digit out) b' ∧
    digits_val out b' = digits_val out b * mul + ch.
Proof.
  intros Ho Hm Hc Hb Hlt. unfold mul_add_checked. pose proof (mul_add_spec mul out ch b ltac:(lia) ltac:(lia) Hc Hb) as H.
  destruct (mul_add mul out ch b) as [carry b']. destruct H as (Hl & Hb' & Hcarry & E).
  pose proof (digits_val_range out b' ltac:(lia) Hb') as Hr. rewrite Hl in Hr.
  assert (carry = 0) as -> by nia. exists b'. split_and!; [done|done|done|lia].
Qed.

Lemma foldl_None mul out ds : foldl (mul_add_checked mul out) None ds = None.
Proof. by induction ds. Qed.

Lemma convert_spec mul out ds b :
  1 < out → 0 < mul → Forall (digit out) b → Forall (digit mul) ds →
  digits_val out b * mul ^ Z.of_nat (length ds) + digits_val mul ds < out ^ Z.of_nat (length b) →
  ∃ b', foldl (mul_add_checked mul out) (Some b) ds = Some b' ∧ length b' = length b ∧ Forall (digit out) b' ∧
    digits_val out b' = digits_val out b * mul ^ Z.of_nat (length ds) + digits_val mul ds.
Proof.
  intros Ho Hm Hb Hds. revert b Hb. induction Hds as [|d ds [Hd1 Hd2] Hds IH]; intros b Hb Hlt.
  { exists b. cbn [foldl length]. unfold digits_val at 3. cbn. split_and!; [done|done|done|lia]. }
  cbn [foldl]. rewrite digits_val_cons in Hlt |- *. cbn [length] in Hlt |- *.
  replace (Z.of_nat (S (length ds))) with (Z.of_nat (length ds) + 1) in Hlt |- * by lia.
  rewrite Z.pow_add_r in Hlt |- * by lia.
  pose proof (digits_val_range mul ds ltac:(lia) Hds) as Hr. pose proof (digits_val_range out b ltac:(lia) Hb) as Hrb.
  assert (0 < mul ^ Z.of_nat (length ds)) by (apply Z.pow_pos_nonneg; lia).
  destruct (mul_add_checked_spec mul out d b Ho Hm Hd1 Hb) as (b1 & -> & Hl1 & Hb1 & V1); [nia|].
  destruct (IH b1 Hb1) as (b' & -> & Hl & Hb' & V); [rewrite V1, Hl1; nia|].
  exists b'. rewrite Hl, Hl1. split_and!; [done|done|done|]. rewrite V, V1. lia.
Qed.

Lemma skip_zeroes_spec base b :
  ∃ z, b = replicate z 0 ++ skip_zeroes b ∧ canonical (skip_zeroes b) ∧ digits_val base (skip_zeroes b) = digits_val base b.
Proof.
  induction b as [|d b (z & E & C & V)]; [by exists 0%nat|]. cbn [skip_zeroes]. destruct (Z.eqb_spec d 0) as [->|Hd].
  - exists (S z). split_and!; [cbn; by f_equal|done|]. rewrite V, digits_val_cons. lia.
  - exists 0%nat. split_and!; [done|by intros [=]|done].
Qed.

(** Digits of base [mul] without leading zeroes become digits of base [out], in a
    buffer of [n] digits. *)
Lemma convert_canonical mul out n ds :
  1 < out → 1 < mul → Forall (digit mul) ds → digits_val mul ds < out ^ Z.of_nat n →
  ∃ b, foldl (mul_add_checked mul out) (Some (replicate n 0)) ds = Some b ∧
    Forall (digit out) (skip_zeroes b) ∧ canonical (skip_zeroes b) ∧ digits_val out (skip_zeroes b) = digits_val mul ds.
Proof.
  intros Ho Hm Hds Hlt. destruct (convert_spec mul out ds (replicate n 0)) as (b & E & Hl & Hb & V); [done|lia| |done| |].
  { apply Forall_replicate. unfold digit. lia. }
  { rewrite digits_val_zeroes, length_replicate. lia. }
  rewrite digits_val_zeroes in V. destruct (skip_zeroes_spec out b) as (z & Eb & C & Vb). exists b. split_and!; [done| |done|lia].
  rewrite Eb in Hb. by apply Forall_app in Hb as [_ ?].
Qed.

(** The size of the buffers is enough: [p / q] is at least the ratio of the
    logarithms of the bases. *)
Lemma buffer_enough a b p q k :
  0 < a → 1 < b → 0 < q → 0 <= p → a ^ q <= b ^ p →
  a ^ Z.of_nat k < b ^ Z.of_nat (Z.to_nat (Z.of_nat k * p / q) + 1).
Proof.
  intros Ha Hb Hq Hp Hab.
  assert (Z.of_nat (Z.to_nat (Z.of_nat k * p / q) + 1) = Z.of_nat k * p / q + 1) as ->.
  { assert (0 <= Z.of_nat k * p / q) by (apply Z.div_pos; nia).
    rewrite Nat2Z.inj_add, Z2Nat.id by done. done. }
  set (n := Z.of_nat k * p / q + 1). assert (Z.of_nat k * p < q * n) as Hn.
  { unfold n. pose proof (Z.div_mod (Z.of_nat k * p) q ltac:(lia)). pose proof (Z.mod_pos_bound (Z.of_nat k * p) q Hq). lia. }
  assert (0 <= n) by nia. apply Z.nle_gt. intros Hle.
  assert ((b ^ n) ^ q <= (a ^ Z.of_nat k) ^ q) as H1 by (apply Z.pow_le_mono_l; split; [apply Z.pow_nonneg; lia|done]).
  rewrite <- !Z.pow_mul_r in H1 by lia. rewrite (Z.mul_comm (Z.of_nat k) q), (Z.pow_mul_r a) in H1 by lia.
  assert ((a ^ q) ^ Z.of_nat k <= (b ^ p) ^ Z.of_nat k) as H2 by (apply Z.pow_le_mono_l; split; [apply Z.pow_nonneg; lia|done]).
  rewrite <- (Z.pow_mul_r b) in H2 by lia.
  assert (b ^ (p * Z.of_nat k) < b ^ (n * q)) as H3 by (apply Z.pow_lt_mono_r; nia). lia.
Qed.

Lemma encode_buffer k : 256 ^ Z.of_nat k < 58 ^ Z.of_nat (k * 138 / 100 + 1).
Proof.
  pose proof (buffer_enough 256 58 138 100 k ltac:(lia) ltac:(lia) ltac:(lia) ltac:(lia)) as H.
  replace (k * 138 / 100)%nat with (Z.to_nat (Z.of_nat k * 138 / 100)); [apply H; by vm_compute|].
  rewrite <- (Nat2Z.id (k * 138 / 100)), Nat2Z.inj_div, Nat2Z.inj_mul. done.
Qed.

Lemma decode_buffer k : 58 ^ Z.of_nat k < 256 ^ Z.of_nat (k * 733 / 1000 + 1).
Proof.
  pose proof (buffer_enough 58 256 733 1000 k ltac:(lia) ltac:(lia) ltac:(lia) ltac:(lia)) as H.
  replace (k * 733 / 1000)%nat with (Z.to_nat (Z.of_nat k * 733 / 1000)); [apply H; by vm_compute|].
  rewrite <- (Nat2Z.id (k * 733 / 1000)), Nat2Z.inj_div, Nat2Z.inj_mul. done.
Qed.

(** ** Characters *)

Lemma base58_char d :
  digit 58 d → strchr pszBase58 (getz pszBase58 d) 0 = Some d ∧ isspace (getz pszBase58 d) = false
    ∧ (getz pszBase58 d = 49 → d = 0).
Proof.
  intros Hd. pose proof (Zforall_check 58 (λ d, bool_decide (strchr pszBase58 (getz pszBase58 d) 0 = Some d)
    && negb (isspace (getz pszBase58 d)) && (negb (getz pszBase58 d =? 49) || (d =? 0)))) as H.
  specialize (H ltac:(vm_compute; reflexivity) d Hd). rewrite !andb_true_iff in H. destruct H as [[H1 H2] H3].
  apply bool_decide_eq_true in H1. apply negb_true_iff in H2. split_and!; [done|done|]. intros E.
  rewrite E in H3. cbn in H3. by apply Z.eqb_eq in H3.
Qed.

Lemma strchr_spec s c i ch : strchr s c i = Some ch → i <= ch < i + Z.of_nat (length s) ∧ getz s (ch - i) = c.
Proof.
  revert i. induction s as [|x s IH]; intros i H; [done|]. cbn [strchr length] in *. destruct (Z.eqb_spec x c) as [->|].
  - injection H as ->. split; [lia|]. unfold getz. by rewrite Z.sub_diag.
  - apply IH in H as [H1 H2]. split; [lia|]. unfold getz in *. replace (Z.to_nat (ch - i)) with (S (Z.to_nat (ch - (i + 1)))) by lia.
    exact H2.
Qed.

Definition ends_word (rest : list Z) : Prop := match rest with [] => True | c :: _ => isspace c = true end.

Lemma decode_chars_run ds rest b b' :
  Forall (digit 58) ds → ends_word rest → foldl (mul_add_checked 58 256) (Some b) ds = Some b' →
  decode_chars (map (getz pszBase58) ds ++ rest) b = Ok (b', rest).
Proof.
  intros Hds Hr. revert b. induction Hds as [|d ds Hd Hds IH]; intros b E.
  - injection E as <-. cbn [map app]. destruct rest as [|c rest]; [done|]. cbn [decode_chars ends_word] in *. by rewrite Hr.
  - cbn [map app decode_chars]. destruct (base58_char d Hd) as (-> & -> & _). cbn [foldl] in E.
    destruct (mul_add_checked 58 256 (Some b) d) as [b1|] eqn:E1; [|by rewrite foldl_None in E]. by apply IH.
Qed.

Lemma decode_chars_inv psz b :
  match decode_chars psz b with
  | Ok (b', rest) => ∃ ds, psz = map (getz pszBase58) ds ++ rest ∧ Forall (digit 58) ds ∧ ends_word rest ∧
      foldl (mul_add_checked 58 256) (Some b) ds = Some b'
  | Throw true => ∃ ds, (length ds <= length psz)%nat ∧ Forall (digit 58) ds ∧
      foldl (mul_add_checked 58 256) (Some b) ds = None
  | Throw false => True
  end.
Proof.
  revert b. induction psz as [|c r IH]; intros b; cbn [decode_chars].
  { exists []. repeat split; constructor. }
  destruct (isspace c) eqn:Ec; [exists []; cbn; split_and!; [done|constructor|done|done]|].
  destruct (strchr pszBase58 c 0) as [ch|] eqn:Es; [|done]. apply strchr_spec in Es as [Hch Hc].
  change (Z.of_nat (length pszBase58)) with 58 in Hch. rewrite Z.sub_0_r in Hc.
  assert (digit 58 ch) as Hd by (unfold digit; lia).
  destruct (mul_add_checked 58 256 (Some b) ch) as [b1|] eqn:E1.
  - specialize (IH b1). destruct (decode_chars r b1) as [[b' rest]|[]]; [| |done].
    + destruct IH as (ds & -> & Hds & Hr & E). exists (ch :: ds). cbn [map app foldl]. rewrite E1, Hc.
      split_and!; [done|by constructor|done|done].
    + destruct IH as (ds & Hl & Hds & E). exists (ch :: ds). cbn [length foldl]. rewrite E1.
      split_and!; [lia|by constructor|done].
  - exists [ch]. cbn [length foldl]. rewrite E1. split_and!; [lia|constructor; [exact Hd|constructor]|done].
Qed.

Lemma skip_count_spec c l n :
  ∃ z r, l = replicate z c ++ r ∧ head r ≠ Some c ∧ skip_count c l n = (r, (n + z)%nat).
Proof.
  revert n. induction l as [|x l IH]; intros n; cbn [skip_count].
  { exists 0%nat, []. rewrite Nat.add_0_r. done. }
  destruct (Z.eqb_spec x c) as [->|Hx].
  - destruct (IH (S n)) as (z & r & -> & Hr & ->). exists (S z), r. split_and!; [done|done|]. f_equal. lia.
  - exists 0%nat, (x :: l). rewrite Nat.add_0_r. split_and!; [done|by intros [=]|done].
Qed.

Lemma skip_count_run c z r n : head r ≠ Some c → skip_count c (replicate z c ++ r) n = (r, (n + z)%nat).
Proof.
  intros Hr. revert n. induction z as [|z IH]; intros n; cbn [replicate app skip_count].
  - rewrite Nat.add_0_r. destruct r as [|x r]; [done|]. cbn [skip_count]. destruct (Z.eqb_spec x c) as [->|]; [done|done].
  - rewrite Z.eqb_refl, IH. f_equal. lia.
Qed.

(** ** Encoding and decoding *)

Lemma skip_spaces_spec psz : ∃ w, psz = w ++ skip_spaces psz ∧ Forall (λ c, isspace c = true) w.
Proof.
  induction psz as [|c r (w & E & Hw)]; [by exists []|]. cbn [skip_spaces]. destruct (isspace c) eqn:Ec.
  - exists (c :: w). cbn. split; [by f_equal|by constructor].
  - by exists [].
Qed.

Lemma skip_spaces_app w r : Forall (λ c, isspace c = true) w → skip_spaces (w ++ r) = skip_spaces r.
Proof. induction 1 as [|c w Hc Hw IH]; [done|]. cbn [app skip_spaces]. by rewrite Hc. Qed.

Lemma byte_digit b : Forall is_byte b ↔ Forall (digit 256) b.
Proof. done. Qed.

(** The text of digits, with a one for every leading zero byte. *)
Definition text58 (zeroes : nat) (ds : list Z) : list Z := map (getz pszBase58) (replicate zeroes 0 ++ ds).

Lemma text58_split z ds : text58 z ds = replicate z 49 ++ map (getz pszBase58) ds.
Proof. unfold text58. rewrite map_app. f_equal. induction z as [|z IH]; [done|]. cbn [replicate map]. by rewrite IH. Qed.

Lemma encode_spec z r :
  Forall is_byte r → canonical r →
  ∃ ds, EncodeBase58 (replicate z 0 ++ r) = Some (text58 z ds) ∧ Forall (digit 58) ds ∧ canonical ds ∧
    digits_val 58 ds = digits_val 256 r.
Proof.
  intros Hr Hc. unfold EncodeBase58. rewrite skip_count_run by exact Hc.
  destruct (convert_canonical 256 58 (length r * 138 / 100 + 1) r) as (b & -> & Hd & Hcd & V); [lia|lia|exact Hr| |].
  { pose proof (digits_val_range 256 r ltac:(lia) Hr) as [_ H]. pose proof (encode_buffer (length r)). lia. }
  exists (skip_zeroes b). rewrite text58_split. done.
Qed.

Lemma text58_head ds rest : Forall (digit 58) ds → canonical ds → ends_word rest →
  head (map (getz pszBase58) ds ++ rest) ≠ Some 49.
Proof.
  intros Hds Hc Hr. destruct Hds as [|d ds Hd Hds]; cbn.
  - destruct rest as [|c rest]; [done|]. intros [= ->]. discriminate Hr.
  - intros [= H]. destruct (base58_char d Hd) as (_ & _ & H0). rewrite (H0 H) in Hc. by apply Hc.
Qed.

Lemma decode_spec w1 z ds w2 :
  Forall (λ c, isspace c = true) w1 → Forall (λ c, isspace c = true) w2 → Forall (digit 58) ds → canonical ds →
  ∃ r, DecodeBase58 (w1 ++ text58 z ds ++ w2) = Some (Some (replicate z 0 ++ r)) ∧ Forall is_byte r ∧ canonical r ∧
    digits_val 256 r = digits_val 58 ds.
Proof.
  intros Hw1 Hw2 Hds Hc. unfold DecodeBase58. rewrite skip_spaces_app, text58_split, <- app_assoc by done.
  assert (ends_word w2) as He by (destruct Hw2; done).
  assert (skip_spaces w2 = []) as Hw2' by (rewrite <- (app_nil_r w2); by rewrite skip_spaces_app).
  destruct (decide (z = 0%nat ∧ ds = [])) as [[-> ->]|Hne].
  { cbn [replicate map app]. rewrite Hw2'. exists []. split_and!; done. }
  assert (skip_spaces (replicate z 49 ++ map (getz pszBase58) ds ++ w2) = replicate z 49 ++ map (getz pszBase58) ds ++ w2) as ->.
  { destruct z as [|z]; [|done]. cbn [replicate app]. destruct Hds as [|d ds Hd Hds]; [by destruct Hne|].
    cbn [map app skip_spaces]. by destruct (base58_char d Hd) as (_ & -> & _). }
  rewrite skip_count_run by (by apply text58_head).
  set (n := (length (map (getz pszBase58) ds ++ w2) * 733 / 1000 + 1)%nat).
  destruct (convert_canonical 58 256 n ds) as (b & E & Hd & Hcd & V); [lia|lia|done| |].
  { pose proof (digits_val_range 58 ds ltac:(lia) Hds) as [_ H]. pose proof (decode_buffer (length ds)) as Hb.
    eapply Z.lt_trans; [exact H|]. eapply Z.lt_le_trans; [exact Hb|]. apply Z.pow_le_mono_r; [lia|].
    unfold n. rewrite length_app, length_map. apply inj_le, Nat.add_le_mono_r, Nat.Div0.div_le_mono. lia. }
  rewrite (decode_chars_run ds w2 _ b Hds He E), Hw2'. exists (skip_zeroes b). done.
Qed.

(** What is decoded is a text with spaces around it. *)
Lemma decode_inv psz :
  match DecodeBase58 psz with
  | None => False
  | Some None => True
  | Some (Some vch) => ∃ w1 z ds w2, psz = w1 ++ text58 z ds ++ w2 ∧ Forall (λ c, isspace c = true) w1 ∧
      Forall (λ c, isspace c = true) w2 ∧ Forall (digit 58) ds ∧ canonical ds ∧ Forall is_byte vch
  end.
Proof.
  destruct (skip_spaces_spec psz) as (w1 & Ew1 & Hw1). unfold DecodeBase58.
  destruct (skip_count_spec 49 (skip_spaces psz) 0) as (z & r & Er & Hr & ->).
  set (n := (length r * 733 / 1000 + 1)%nat).
  assert (∀ ds, (length ds <= length r)%nat → Forall (digit 58) ds → digits_val 58 ds < 256 ^ Z.of_nat n) as Hn.
  { intros ds Hl Hds. pose proof (digits_val_range 58 ds ltac:(lia) Hds) as [_ H]. pose proof (decode_buffer (length r)) as Hb.
    eapply Z.lt_trans; [|exact Hb]. eapply Z.lt_le_trans; [exact H|]. apply Z.pow_le_mono_r; lia. }
  pose proof (decode_chars_inv r (replicate n 0)) as H. destruct (decode_chars r (replicate n 0)) as [[b rest]|[]].
  - destruct H as (ds & Erest & Hds & He & E). destruct (skip_spaces_spec rest) as (w2 & Ew2 & Hw2).
    destruct (skip_spaces rest); [|done].
    destruct (convert_canonical 58 256 n ds) as (b' & E' & Hd & _ & _); [lia|lia|done| |].
    { apply Hn; [|done]. rewrite Erest, length_app, length_map. lia. }
    rewrite E in E'. injection E' as <-. exists w1, z, ds, w2. rewrite app_nil_r in Ew2. subst rest.
    split_and!; [|done|done|done| |].
    + rewrite Ew1, Er, Erest, text58_split. by rewrite <- !app_assoc.
    + intros Hc. destruct ds as [|d ds]; [done|]. injection Hc as ->. rewrite Erest in Hr. cbn in Hr. by apply Hr.
    + apply Forall_app. split; [|done]. apply Forall_replicate. done.
  - destruct H as (ds & Hl & Hds & E). destruct (convert_canonical 58 256 n ds) as (b' & E' & _); [lia|lia|done|by apply Hn|].
    by rewrite E in E'.
  - done.
Qed.

Lemma base58_bytes :
  (∀ vch, Forall is_byte vch → ∃ s, EncodeBase58 vch = Some s ∧
    ∀ w1 w2, Forall (λ c, isspace c = true) w1 → Forall (λ c, isspace c = true) w2 →
      DecodeBase58 (w1 ++ s ++ w2) = Some (Some vch)) ∧
  (∀ psz, DecodeBase58 psz ≠ None) ∧
  (∀ psz vch, DecodeBase58 psz = Some (Some vch) → ∃ w1 s w2, psz = w1 ++ s ++ w2 ∧
    Forall (λ c, isspace c = true) w1 ∧ Forall (λ c, isspace c = true) w2 ∧ EncodeBase58 vch = Some s).
Proof.
  assert (∀ z r ds, Forall is_byte r → canonical r → Forall (digit 58) ds → canonical ds →
    digits_val 256 r = digits_val 58 ds → EncodeBase58 (replicate z 0 ++ r) = Some (text58 z ds)) as Henc.
  { intros z r ds Hr Cr Hds Cds V. destruct (encode_spec z r Hr Cr) as (ds' & -> & Hd' & Cd' & V').
    by rewrite (digits_val_inj 58 ds' ds) by (done || lia). }
  split_and!.
  - intros vch Hv. destruct (skip_zeroes_spec 256 vch) as (z & E & C & _). rewrite E in Hv |- *.
    apply Forall_app in Hv as [_ Hv]. destruct (encode_spec z _ Hv C) as (ds & -> & Hds & Cds & V).
    exists (text58 z ds). split; [done|]. intros w1 w2 Hw1 Hw2.
    destruct (decode_spec w1 z ds w2 Hw1 Hw2 Hds Cds) as (r & -> & Hr & Cr & Vr).
    by rewrite (digits_val_inj 256 r (skip_zeroes vch)) by (done || lia).
  - intros psz H. pose proof (decode_inv psz) as Hd. by rewrite H in Hd.
  - intros psz vch H. pose proof (decode_inv psz) as Hd. rewrite H in Hd.
    destruct Hd as (w1 & z & ds & w2 & -> & Hw1 & Hw2 & Hds & Cds & _). exists w1, (text58 z ds), w2. split_and!; [done..|].
    destruct (decode_spec w1 z ds w2 Hw1 Hw2 Hds Cds) as (r & E & Hr & Cr & Vr). rewrite E in H. injection H as <-.
    by apply Henc.
Qed.

(** base 58 is a bijection. Every byte string has a text, which decodes to it
    with any white space around it; whatever decodes is, but for white space,
    the text of what it decodes to; and no assertion fails, so the buffers, of
    138/100 and 733/1000 of the length, are long enough. *)
Theorem base58_roundtrip :
  (∀ vch, Forall is_byte vch → ∃ s, EncodeBase58 vch = Some s ∧
    ∀ w1 w2, Forall (λ c, isspace c = true) w1 → Forall (λ c, isspace c = true) w2 →
      DecodeBase58 (w1 ++ s ++ w2) = Some (Some vch)) ∧
  (∀ psz, DecodeBase58 psz ≠ None) ∧
  (∀ psz vch, DecodeBase58 psz = Some (Some vch) → ∃ w1 s w2, psz = w1 ++ s ++ w2 ∧
    Forall (λ c, isspace c = true) w1 ∧ Forall (λ c, isspace c = true) w2 ∧ EncodeBase58 vch = Some s).
Proof. exact base58_bytes. Qed.

(** ** Checksums and addresses *)

Lemma checksum_bytes v : Z.of_nat (length v) < 2 ^ 60 → length (take 4 (Hash v)) = 4%nat ∧ Forall is_byte (take 4 (Hash v)).
Proof.
  intros Hl. rewrite Hash_spec by done. pose proof (length_fips_sha256 (fips_sha256 v)) as H32.
  pose proof (fips_sha256_bytes (fips_sha256 v)) as Hb. split; [rewrite length_take, H32; done|by apply Forall_take].
Qed.

Lemma check_roundtrip v :
  Forall is_byte v → Z.of_nat (length v) < 2 ^ 60 →
  ∃ s, EncodeBase58Check v = Some s ∧
    ∀ w1 w2, Forall (λ c, isspace c = true) w1 → Forall (λ c, isspace c = true) w2 →
      DecodeBase58Check (w1 ++ s ++ w2) = Some (Some v).
Proof.
  intros Hv Hl. destruct (checksum_bytes v Hl) as [H4 Hb]. destruct base58_bytes as (He & _).
  destruct (He (v ++ take 4 (Hash v))) as (s & Es & Ed); [by apply Forall_app|].
  exists s. split; [exact Es|]. intros w1 w2 Hw1 Hw2. unfold DecodeBase58Check. rewrite Ed by done.
  rewrite length_app, H4. replace (length v + 4 - 4)%nat with (length v) by lia.
  rewrite (proj2 (Nat.ltb_ge _ _)), take_app_length, drop_app_length, bool_decide_true by (done || lia). done.
Qed.

(** What passes the check is the text of what it decodes to. *)
Lemma check_inv psz v :
  DecodeBase58Check psz = Some (Some v) →
  ∃ w1 s w2, psz = w1 ++ s ++ w2 ∧ Forall (λ c, isspace c = true) w1 ∧ Forall (λ c, isspace c = true) w2 ∧
    EncodeBase58Check v = Some s.
Proof.
  unfold DecodeBase58Check. destruct (DecodeBase58 psz) as [[vch|]|] eqn:E; [|done..].
  destruct (Nat.ltb_spec (length vch) 4); [done|]. destruct (bool_decide _) eqn:B; [|done]. intros [= <-].
  apply bool_decide_eq_true in B. destruct base58_bytes as (_ & _ & Hi). destruct (Hi psz vch E) as (w1 & s & w2 & H1 & H2 & H3 & H4).
  exists w1, s, w2. split_and!; [done..|]. unfold EncodeBase58Check. rewrite B, take_drop. exact H4.
Qed.

Lemma SetString_check psz version data :
  length version = 1%nat → DecodeBase58Check psz = Some (Some (version ++ data)) →
  SetString psz 1 = Some (mkBase58Data version data, true).
Proof.
  intros Hv H. unfold SetString. rewrite H. cbn [from_option id]. rewrite bool_decide_true by eauto. cbn [negb orb].
  rewrite (proj2 (Nat.ltb_ge _ _)) by (rewrite length_app; lia).
  by rewrite take_app_length', drop_app_length'.
Qed.

Lemma SetString_inv psz addr :
  SetString psz 1 = Some (addr, true) → DecodeBase58Check psz = Some (Some (vchVersion addr ++ vchData addr)).
Proof.
  unfold SetString. destruct (DecodeBase58Check psz) as [[v|]|]; [|done..]. cbn [from_option id].
  rewrite bool_decide_true by eauto. cbn [negb orb]. destruct (length v <? 1)%nat; [done|]. intros [= <-].
  cbn [vchVersion vchData]. by rewrite take_drop.
Qed.

(** The address of a destination, as version and data. *)
Definition dest_type (dest : CTxDestination) : Base58Type :=
  match dest with CScriptID _ => SCRIPT_ADDRESS | _ => PUBKEY_ADDRESS end.

Lemma address_Get_inv network addr dest id :
  dest = CKeyID id ∨ dest = CScriptID id → address_Get network addr = dest →
  addr = mkBase58Data (Base58Prefix network (dest_type dest)) id.
Proof.
  unfold address_Get. destruct (negb _); [by intros [->| ->]|].
  destruct addr as [version data]. cbn [vchVersion vchData].
  case_bool_decide; [|case_bool_decide]; intros [->| ->] [= ->]; by subst.
Qed.

Lemma address_Get_Set network dest id :
  dest = CKeyID id ∨ dest = CScriptID id → length id = 20%nat →
  address_Get network (mkBase58Data (Base58Prefix network (dest_type dest)) id) = dest.
Proof.
  intros [->| ->] Hl; unfold address_Get, address_IsValid; cbn [vchVersion vchData]; rewrite Hl; by destruct network.
Qed.

(** addresses. The text of a key or script address of a network, with any
    white space around it, is read back to that destination; it is no address on
    a network with other prefixes; and any text that is read to a destination is,
    but for white space, the text of its address. *)
Theorem address_roundtrip network dest id :
  dest = CKeyID id ∨ dest = CScriptID id → length id = 20%nat → Forall is_byte id →
  ∃ s, base58_ToString (address_Set network empty_base58 dest).1 = Some s ∧
    (∀ w1 w2, Forall (λ c, isspace c = true) w1 → Forall (λ c, isspace c = true) w2 →
      ∃ addr, SetString (w1 ++ s ++ w2) 1 = Some (addr, true) ∧ address_Get network addr = dest ∧
        (∀ other, Base58Prefix other PUBKEY_ADDRESS ≠ Base58Prefix network PUBKEY_ADDRESS →
          address_Get other addr = CNoDestination)) ∧
    (∀ psz addr, SetString psz 1 = Some (addr, true) → address_Get network addr = dest →
      ∃ w1 w2, psz = w1 ++ s ++ w2 ∧ Forall (λ c, isspace c = true) w1 ∧ Forall (λ c, isspace c = true) w2).
Proof.
  intros Hd Hl Hb. set (p := Base58Prefix network (dest_type dest)).
  assert (length p = 1%nat ∧ Forall is_byte p) as [Hp Hpb]
    by (unfold p; destruct Hd as [->| ->], network; split; [done|by repeat constructor..]).
  destruct (check_roundtrip (p ++ id)) as (s & Es & Ed).
  { by apply Forall_app. }
  { rewrite length_app, Hp, Hl. done. }
  exists s. split; [by destruct Hd as [->| ->]|]. split.
  - intros w1 w2 Hw1 Hw2. exists (mkBase58Data p id).
    split; [by apply SetString_check; [|apply Ed]|]. split; [by apply (address_Get_Set network dest id)|].
    intros other Ho. unfold address_Get, address_IsValid, p. cbn [vchVersion vchData].
    destruct Hd as [->| ->], network, other; cbn in Ho |- *; (done || by destruct Ho) || by rewrite andb_false_r.
  - intros psz addr H Hg. apply SetString_inv in H. rewrite (address_Get_inv network addr dest id Hd Hg) in H.
    apply check_inv in H as (w1 & s' & w2 & -> & Hw1 & Hw2 & H). cbn [vchVersion vchData] in H.
    fold p in H. rewrite Es in H. injection H as <-. eauto.
Qed.

#[local] Transparent Hash Hash160.

Lemma base58_roundtrip_witness :
  (∃ s, EncodeBase58 [0; 0; 1; 2; 255] = Some s ∧ DecodeBase58 ([32; 9] ++ s ++ [10]) = Some (Some [0; 0; 1; 2; 255])) ∧
  DecodeBase58 (str "0OIl") ≠ None.
Proof.
  destruct base58_roundtrip as (H1 & H2 & _). split; [|exact (H2 (str "0OIl"))].
  destruct (H1 [0; 0; 1; 2; 255]) as (s & E & D).
  - repeat constructor; reflexivity || discriminate.
  - exists s. split; [exact E|]. apply (D [32; 9] [10]); repeat constructor.
Defined.

(** The address of the key hash of zeros starts with an M on the main network. *)
Example zero_address :
  base58_ToString (address_Set MAIN empty_base58 (CKeyID (replicate 20 0))).1
  = Some (str "M7uAERuQW2AotfyLDyewFGcLUDtAYu9v5V").
Proof. vm_compute. reflexivity. Qed.

Lemma address_roundtrip_witness :
  ∃ s, base58_ToString (address_Set MAIN empty_base58 (CKeyID (replicate 20 1))).1 = Some s ∧
    ∃ addr, SetString s 1 = Some (addr, true) ∧ address_Get MAIN addr = CKeyID (replicate 20 1) ∧
      address_Get TESTNET addr = CNoDestination.
Proof.
  destruct (address_roundtrip MAIN (CKeyID (replicate 20 1)) (replicate 20 1)) as (s & E & D & _).
  - by left.
  - reflexivity.
  - repeat constructor; reflexivity || discriminate.
  - exists s. split; [exact E|]. destruct (D [] []) as (addr & H1 & H2 & H3); [constructor|constructor|].
    exists addr. cbn [app] in H1. rewrite app_nil_r in H1. split; [exact H1|]. split; [exact H2|].
    apply H3. discriminate.
Defined.
