(* ===== verification/Bloom.v ===== *)
(** * bloom.cpp and merkleblock.cpp: bloom filters and filtered blocks

    MurmurHash3 of hash.cpp, CBloomFilter, and CMerkleBlock, which runs a filter
    over the transactions of a block. The constructor that chooses the size of a
    filter from a false positive rate computes with logarithms in floating point;
    here a filter is given by its fields. *)

From S2P Require Import Prelude Serialize Script Digest Hashes Interp Tx Merkle PartialMerkle SigHash Standard.

Local Open Scope node_scope.
#[local] Opaque Hash Hash2 Hash160.

(** ** MurmurHash3 *)

Definition ROTL32 (x r : Z) : Z := Z.lor (u32 (Z.shiftl x r)) (Z.shiftr x (32 - r)).

Definition c1 : Z := 0xcc9e2d51.
Definition c2 : Z := 0x1b873593.

(** What is done to a block before it is mixed in. *)
Definition murmur_k1 (k1 : Z) : Z := u32 (ROTL32 (u32 (k1 * c1)) 15 * c2).

Definition murmur_block (h1 : Z) (block : list Z) : Z :=
  let h1 := Z.lxor h1 (murmur_k1 (le_val block)) in
  u32 (ROTL32 h1 13 * 5 + 0xe6546b64).

(** The loop over the blocks of four bytes, and the tail. *)
Fixpoint murmur_body (nblocks : nat) (h1 : Z) (data : list Z) : Z * list Z :=
  match nblocks with
  | O => (h1, data)
  | S nblocks => murmur_body nblocks (murmur_block h1 (take 4 data)) (drop 4 data)
  end.

(** The switch, whose cases fall through. *)
Definition murmur_tail (h1 : Z) (tail : list Z) : Z :=
  let n := Z.of_nat (length tail) in
  if n =? 0 then h1
  else
    let k1 := 0 in
    let k1 := if n =? 3 then Z.lxor k1 (Z.shiftl (getz tail 2) 16) else k1 in
    let k1 := if 2 <=? n then Z.lxor k1 (Z.shiftl (getz tail 1) 8) else k1 in
    let k1 := Z.lxor k1 (getz tail 0) in
    Z.lxor h1 (murmur_k1 k1).

Definition murmur_final (h1 size : Z) : Z :=
  let h1 := Z.lxor h1 (u32 size) in
  let h1 := Z.lxor h1 (Z.shiftr h1 16) in
  let h1 := u32 (h1 * 0x85ebca6b) in
  let h1 := Z.lxor h1 (Z.shiftr h1 13) in
  let h1 := u32 (h1 * 0xc2b2ae35) in
  Z.lxor h1 (Z.shiftr h1 16).

Definition MurmurHash3 (nHashSeed : Z) (vDataToHash : list Z) : Z :=
  let '(h1, tail) := murmur_body (length vDataToHash / 4) nHashSeed vDataToHash in
  murmur_final (murmur_tail h1 tail) (Z.of_nat (length vDataToHash)).

(** ** CBloomFilter *)

Definition MAX_BLOOM_FILTER_SIZE : Z := 36000.
Definition MAX_HASH_FUNCS : Z := 50.
Definition BLOOM_UPDATE_ALL : Z := 1.
Definition BLOOM_UPDATE_P2PUBKEY_ONLY : Z := 2.
Definition BLOOM_UPDATE_MASK : Z := 3.

Record CBloomFilter := mkBloom {
  vData : list Z; isFull : bool; isEmpty : bool; nHashFuncs : Z; nTweak : Z; nFlags : Z
}.

(** The default constructor: a filter that matches everything. *)
Definition full_filter : CBloomFilter := mkBloom [] true false 0 0 0.

(** READWRITE of the four fields; the flags keep what the default constructor
    gave them. *)
Definition f_bloom_fields : format (list Z * (Z * (Z * Z))) := f_pair f_bytes (f_pair (f_uint 4) (f_pair (f_uint 4) (f_uint 1))).
Definition bloom_Serialize (f : CBloomFilter) : list Z :=
  ser f_bloom_fields (vData f, (nHashFuncs f, (nTweak f, nFlags f))).
Definition bloom_Unserialize (s : list Z) : result stream_error (CBloomFilter * list Z) :=
  let! (x, s) := unser f_bloom_fields s in
  Ok (mkBloom x.1 (isFull full_filter) (isEmpty full_filter) x.2.1 x.2.2.1 x.2.2.2, s).

Definition bloom_Hash (f : CBloomFilter) (nHashNum : Z) (vDataToHash : list Z) : Z :=
  MurmurHash3 (u32 (u32 (nHashNum * 0xFBA4C795) + nTweak f)) vDataToHash mod (Z.of_nat (length (vData f)) * 8).

(** [vData[nIndex >> 3] |= (1 << (7 & nIndex))] *)
Definition set_bit (data : list Z) (nIndex : Z) : list Z :=
  setz data (Z.shiftr nIndex 3) (Z.lor (getz data (Z.shiftr nIndex 3)) (Z.shiftl 1 (Z.land 7 nIndex))).

Definition test_bit (data : list Z) (nIndex : Z) : bool :=
  negb (Z.land (getz data (Z.shiftr nIndex 3)) (Z.shiftl 1 (Z.land 7 nIndex)) =? 0).

Definition with_data (f : CBloomFilter) (data : list Z) (full empty : bool) : CBloomFilter :=
  mkBloom data full empty (nHashFuncs f) (nTweak f) (nFlags f).

Definition bloom_insert (f : CBloomFilter) (vKey : list Z) : CBloomFilter :=
  if isFull f then f
  else with_data f (foldl (λ data i, set_bit data (bloom_Hash f i vKey)) (vData f) (seqZ 0 (nHashFuncs f))) (isFull f) false.

Definition bloom_contains (f : CBloomFilter) (vKey : list Z) : bool :=
  if isFull f then true
  else if isEmpty f then false
  else forallb (λ i, test_bit (vData f) (bloom_Hash f i vKey)) (seqZ 0 (nHashFuncs f)).

Definition insert_outpoint (f : CBloomFilter) (o : COutPoint) : CBloomFilter := bloom_insert f (ser f_outpoint o).
Definition contains_outpoint (f : CBloomFilter) (o : COutPoint) : bool := bloom_contains f (ser f_outpoint o).
Definition insert_hash (f : CBloomFilter) (h : hash256) : CBloomFilter := bloom_insert f h.
Definition contains_hash (f : CBloomFilter) (h : hash256) : bool := bloom_contains f h.

Definition bloom_clear (f : CBloomFilter) : CBloomFilter :=
  with_data f (replicate (length (vData f)) 0) false true.

Definition IsWithinSizeConstraints (f : CBloomFilter) : bool :=
  (Z.of_nat (length (vData f)) <=? MAX_BLOOM_FILTER_SIZE) && (nHashFuncs f <=? MAX_HASH_FUNCS).

Definition UpdateEmptyFull (f : CBloomFilter) : CBloomFilter :=
  with_data f (vData f) (forallb (λ b, b =? 0xff) (vData f)) (forallb (λ b, b =? 0) (vData f)).

(** ** IsRelevantAndUpdate *)

(** The loop over the data of a script: whether it stops at a match. *)
Definition script_matches (f : CBloomFilter) (script : list Z) : bool :=
  existsb (λ o, op_ok o && negb (length (op_data o) =? 0)%nat && bloom_contains f (op_data o)) (ops_of script).

(** Whether a matched output is added; Solver does not fail on a script that
    pushes data. *)
Definition update_wanted (f : CBloomFilter) (script : list Z) : bool :=
  let mode := Z.land (nFlags f) BLOOM_UPDATE_MASK in
  if mode =? BLOOM_UPDATE_ALL then true
  else if mode =? BLOOM_UPDATE_P2PUBKEY_ONLY then
    match Solver script with
    | Some (mkSolved ok type _) => ok && (bool_decide (type = TX_PUBKEY) || bool_decide (type = TX_MULTISIG))
    | None => false
    end
  else false.

Definition match_output (hash : hash256) (st : CBloomFilter * bool) (io : Z * CTxOut) : CBloomFilter * bool :=
  let '(f, fFound) := st in
  let '(i, txout) := io in
  if script_matches f (scriptPubKey txout)
  then (if update_wanted f (scriptPubKey txout) then insert_outpoint f (mkOutPoint hash i) else f, true)
  else (f, fFound).

Definition numbered {A} (l : list A) : list (Z * A) := zip (seqZ 0 (Z.of_nat (length l))) l.

Definition match_input (f : CBloomFilter) (txin : CTxIn) : bool :=
  contains_outpoint f (prevout txin) || script_matches f (scriptSig txin).

Definition IsRelevantAndUpdate (f : CBloomFilter) (tx : CTransaction) : CBloomFilter * bool :=
  if isFull f then (f, true)
  else if isEmpty f then (f, false)
  else
    let hash := tx_hash tx in
    let '(f, fFound) := foldl (match_output hash) (f, contains_hash f hash) (numbered (vout tx)) in
    (f, if fFound then true else existsb (match_input f) (vin tx)).

(** ** CMerkleBlock *)

(** The loop over the transactions. *)
Fixpoint filter_txs (f : CBloomFilter) (vtx : list CTransaction) (i : Z) : CBloomFilter * list bool * list (Z * hash256) :=
  match vtx with
  | [] => (f, [], [])
  | tx :: vtx =>
      let '(f, found) := IsRelevantAndUpdate f tx in
      let '(f, vMatch, matched) := filter_txs f vtx (i + 1) in
      (f, found :: vMatch, if found : bool then (i, tx_hash tx) :: matched else matched)
  end.

(** The filter, [txn] and [vMatchedTxn]; the header is copied. *)
Definition CMerkleBlock (f : CBloomFilter) (vtx : list CTransaction) : CBloomFilter * CPartialMerkleTree * list (Z * hash256) :=
  let '(f, vMatch, vMatchedTxn) := filter_txs f vtx 0 in
  (f, new_partial (map tx_hash vtx) vMatch, vMatchedTxn).

(** The test vectors of src/test/hash_tests.cpp. *)
Example murmur_vectors :
  MurmurHash3 0x00000000 [] = 0x00000000 ∧ MurmurHash3 0xFBA4C795 [] = 0x6a396f08 ∧
  MurmurHash3 0xffffffff [] = 0x81f16f39 ∧ MurmurHash3 0x00000000 [0] = 0x514e28b7 ∧
  MurmurHash3 0xFBA4C795 [0] = 0xea3f0b17 ∧ MurmurHash3 0x00000000 [0xff] = 0xfd6cf10d ∧
  MurmurHash3 0x00000000 [0; 0x11] = 0x16c6b7ab ∧ MurmurHash3 0x00000000 [0; 0x11; 0x22] = 0x8eb51c3d ∧
  MurmurHash3 0x00000000 [0; 0x11; 0x22; 0x33; 0x44; 0x55; 0x66] = 0xb074502c ∧
  MurmurHash3 0x00000000 [0; 0x11; 0x22; 0x33; 0x44; 0x55; 0x66; 0x77; 0x88] = 0xb4698def.
Proof. vm_compute. split_and!; reflexivity. Qed.

(** ** Bits *)

Definition in_filter (data : list Z) (i : Z) : Prop := 0 <= i < Z.of_nat (length data) * 8.

Lemma bit_index data i : in_filter data i →
  0 <= Z.shiftr i 3 < Z.of_nat (length data) ∧ 0 <= Z.land 7 i < 8 ∧ i = Z.shiftr i 3 * 8 + Z.land 7 i.
Proof.
  intros [H1 H2]. rewrite Z.land_comm. change 7 with (Z.ones 3). rewrite Z.land_ones, Z.shiftr_div_pow2 by lia.
  change (2 ^ 3) with 8. pose proof (Z.div_mod i 8 ltac:(lia)). pose proof (Z.mod_pos_bound i 8 ltac:(lia)).
  assert (0 <= i / 8) by (apply Z.div_pos; lia). lia.
Qed.

Lemma test_bit_testbit data i : in_filter data i → test_bit data i = Z.testbit (getz data (Z.shiftr i 3)) (Z.land 7 i).
Proof.
  intros Hi. destruct (bit_index data i Hi) as (_ & Hk & _). unfold test_bit. rewrite Z.shiftl_1_l, land_pow2 by lia.
  destruct (Z.testbit _ _); [|done]. rewrite (proj2 (Z.eqb_neq _ _)); [done|]. apply Z.pow_nonzero; lia.
Qed.

Lemma length_set_bit data i : length (set_bit data i) = length data.
Proof. apply length_setz. Qed.

Lemma test_set_bit data i j :
  in_filter data i → in_filter data j → test_bit (set_bit data i) j = (j =? i) || test_bit data j.
Proof.
  intros Hi Hj. assert (in_filter (set_bit data i) j) as Hj' by (unfold in_filter; by rewrite length_set_bit).
  rewrite !test_bit_testbit by done. destruct (bit_index data i Hi) as (Hi1 & Hi2 & Ei), (bit_index data j Hj) as (Hj1 & Hj2 & Ej).
  unfold set_bit. rewrite getz_setz by lia. destruct (Z.eqb_spec (Z.shiftr j 3) (Z.shiftr i 3)) as [E|E].
  - rewrite E, Z.lor_spec, Z.shiftl_1_l, Z.pow2_bits_eqb by lia. rewrite orb_comm. f_equal.
    destruct (Z.eqb_spec (Z.land 7 i) (Z.land 7 j)), (Z.eqb_spec j i); lia.
  - rewrite (proj2 (Z.eqb_neq j i)) by (intros ->; done). done.
Qed.

Lemma set_bit_bytes data i : in_filter data i → Forall is_byte data → Forall is_byte (set_bit data i).
Proof.
  intros Hi Hb. destruct (bit_index data i Hi) as (Hi1 & Hi2 & _). apply Forall_getz. rewrite length_set_bit. intros j Hj.
  unfold set_bit. rewrite getz_setz by lia. destruct (j =? _); [|by apply getz_Forall].
  pose proof (getz_Forall _ _ _ Hb Hi1) as [B1 B2]. rewrite Z.shiftl_1_l.
  apply in_uw_bits; [lia|apply Z.lor_nonneg; split; [done|apply Z.pow_nonneg; lia]|].
  intros k Hk. rewrite Z.lor_spec, Z.pow2_bits_false, (testbit_high 8) by (done || lia). done.
Qed.

Lemma foldl_set_bits n ix data :
  length data = n → Forall (λ i, 0 <= i < Z.of_nat n * 8) ix → Forall is_byte data →
  length (foldl set_bit data ix) = n ∧ Forall is_byte (foldl set_bit data ix) ∧
  ∀ j, in_filter data j → test_bit (foldl set_bit data ix) j = true ↔ j ∈ ix ∨ test_bit data j = true.
Proof.
  intros Hn Hix. revert data Hn. induction Hix as [|i ix Hi Hix IH]; intros data Hn Hb; cbn [foldl].
  { split_and!; [done|done|]. intros j _. rewrite elem_of_nil. tauto. }
  assert (in_filter data i) as Hi' by (unfold in_filter; lia).
  destruct (IH (set_bit data i)) as (H1 & H2 & H3); [by rewrite length_set_bit|by apply set_bit_bytes|].
  split_and!; [done|done|]. intros j Hj. rewrite H3 by (unfold in_filter; by rewrite length_set_bit).
  rewrite test_set_bit, orb_true_iff, Z.eqb_eq, elem_of_cons by done. tauto.
Qed.

(** ** Filters *)

(** The flags tell the truth, and there is a bit to test. *)
Record bloom_wf (f : CBloomFilter) : Prop := {
  wf_bytes : Forall is_byte (vData f);
  wf_funcs : 0 < nHashFuncs f;
  wf_size : vData f = [] → isFull f = true;
  wf_full : isFull f = true → ∀ i, in_filter (vData f) i → test_bit (vData f) i = true;
  wf_empty : isEmpty f = true → ∀ i, in_filter (vData f) i → test_bit (vData f) i = false
}.

(** The bits of a key. *)
Definition key_bits (f : CBloomFilter) (vKey : list Z) : list Z := map (λ i, bloom_Hash f i vKey) (seqZ 0 (nHashFuncs f)).

Lemma key_bits_range f vKey : vData f ≠ [] → Forall (λ i, 0 <= i < Z.of_nat (length (vData f)) * 8) (key_bits f vKey).
Proof.
  intros Hne. apply Forall_map, Forall_true. intros i. unfold bloom_Hash. apply Z.mod_pos_bound.
  destruct (vData f); [done|]. cbn [length]. lia.
Qed.

Lemma forallb_map {A B} (g : B → bool) (h : A → B) l : forallb g (map h l) = forallb (λ x, g (h x)) l.
Proof. induction l as [|x l IH]; [done|]. cbn [map forallb]. by rewrite IH. Qed.

Lemma foldl_map {A B C} (g : C → B → C) (h : A → B) l c : foldl g c (map h l) = foldl (λ c x, g c (h x)) c l.
Proof. revert c. induction l as [|x l IH]; intros c; [done|]. cbn [map foldl]. apply IH. Qed.

(** What a filter says is what its bits say. *)
Definition has (f : CBloomFilter) (vKey : list Z) : bool := isFull f || forallb (test_bit (vData f)) (key_bits f vKey).

Lemma contains_has f vKey : bloom_wf f → bloom_contains f vKey = has f vKey.
Proof.
  intros [Hb Hf Hs Hfull Hempty]. unfold bloom_contains, has. destruct (isFull f) eqn:F; [done|]. cbn [orb].
  unfold key_bits. rewrite forallb_map. destruct (isEmpty f) eqn:E; [|done].
  assert (vData f ≠ []) as Hne by (intros Hd; specialize (Hs Hd); done). symmetry.
  rewrite (seqZ_cons 0 (nHashFuncs f)) by lia. cbn [forallb].
  rewrite Hempty; [done|done|]. pose proof (key_bits_range f vKey Hne) as H. unfold key_bits in H.
  rewrite seqZ_cons in H by lia. cbn [map] in H. by apply Forall_cons in H as [H _].
Qed.

Lemma has_bits f vKey : isFull f = false → has f vKey = true ↔ ∀ i, i ∈ key_bits f vKey → test_bit (vData f) i = true.
Proof.
  intros F. unfold has. rewrite F. cbn [orb]. rewrite forallb_forall. split; intros H i Hi; apply H; by apply list_elem_of_In.
Qed.

(** A filter is above another if it has the same hash functions and all its keys. *)
Definition above (f' f : CBloomFilter) : Prop :=
  nFlags f' = nFlags f ∧ ∀ vKey, has f vKey = true → has f' vKey = true.

#[export] Instance above_preorder : PreOrder above.
Proof.
  split; [done|]. intros x y z [H1 H2] [H3 H4]. split; [congruence|auto].
Qed.

Lemma insert_spec f vKey :
  bloom_wf f → bloom_wf (bloom_insert f vKey) ∧ has (bloom_insert f vKey) vKey = true ∧ above (bloom_insert f vKey) f.
Proof.
  intros W. pose proof W as [Hb Hf Hs Hfull Hempty]. unfold bloom_insert. destruct (isFull f) eqn:F.
  { split_and!; [done|unfold has; by rewrite F|done]. }
  assert (vData f ≠ []) as Hne by (intros Hd; specialize (Hs Hd); done).
  rewrite <- (foldl_map set_bit (λ i, bloom_Hash f i vKey)). fold (key_bits f vKey).
  destruct (foldl_set_bits (length (vData f)) (key_bits f vKey) (vData f) eq_refl (key_bits_range f vKey Hne) Hb) as (L & B & T).
  set (data := foldl set_bit (vData f) (key_bits f vKey)) in *. set (f' := with_data f data false false).
  assert (∀ k, key_bits f' k = key_bits f k) as K by (intros k; unfold key_bits, bloom_Hash, f'; cbn; by rewrite L).
  assert (∀ k i, i ∈ key_bits f k → in_filter (vData f) i) as Hin.
  { intros k i Hi. pose proof (key_bits_range f k Hne) as H. rewrite Forall_forall in H. by apply H. }
  split_and!.
  - split; cbn; [done|done| |done|done]. intros Hd. rewrite Hd in L. by destruct (vData f).
  - apply (has_bits f'); [done|]. intros i Hi. rewrite K in Hi. apply T; eauto.
  - split; [done|]. intros k Hk. apply (has_bits f'); [done|]. intros i Hi. rewrite K in Hi.
    apply T; [eauto|]. right. by eapply has_bits.
Qed.

Lemma test_bit_zero data i : Forall (λ b, b = 0) data → in_filter data i → test_bit data i = false.
Proof.
  intros Hd Hi. destruct (bit_index data i Hi) as (H1 & _ & _). rewrite test_bit_testbit by done.
  by rewrite (getz_Forall _ _ _ Hd H1), Z.bits_0.
Qed.

Lemma test_bit_ff data i : Forall (λ b, b = 0xff) data → in_filter data i → test_bit data i = true.
Proof.
  intros Hd Hi. destruct (bit_index data i Hi) as (H1 & H2 & _). rewrite test_bit_testbit by done.
  rewrite (getz_Forall _ _ _ Hd H1). change 0xff with (Z.ones 8). apply Z.ones_spec_low. lia.
Qed.

Lemma update_spec f : bloom_wf f → bloom_wf (UpdateEmptyFull f) ∧ above (UpdateEmptyFull f) f.
Proof.
  intros W. pose proof W as [Hb Hf Hs Hfull Hempty]. unfold UpdateEmptyFull. split.
  - split; cbn; [done|done|by intros ->| |]; intros H i Hi; rewrite forallb_forall in H.
    + apply test_bit_ff; [|done]. apply Forall_forall. intros x Hx%list_elem_of_In. by apply Z.eqb_eq, H.
    + apply test_bit_zero; [|done]. apply Forall_forall. intros x Hx%list_elem_of_In. by apply Z.eqb_eq, H.
  - split; [done|]. intros k Hk. unfold has in Hk |- *. cbn [isFull with_data].
    destruct (forallb (λ b, b =? 255) (vData f)) eqn:E; [done|]. cbn [orb].
    destruct (isFull f) eqn:F; [|exact Hk].
    assert (vData f ≠ []) as Hne by (by intros Hd; rewrite Hd in E).
    apply forallb_forall. intros i Hi%list_elem_of_In. apply Hfull; [done|].
    pose proof (key_bits_range f k Hne) as H. rewrite Forall_forall in H. apply H. exact Hi.
Qed.

(** ** Scanning transactions *)

Lemma contains_above f f' k : bloom_wf f → bloom_wf f' → above f' f → bloom_contains f k = true → bloom_contains f' k = true.
Proof. intros W W' [_ H]. rewrite !contains_has by done. apply H. Qed.

Lemma script_matches_above f f' script :
  bloom_wf f → bloom_wf f' → above f' f → script_matches f script = true → script_matches f' script = true.
Proof.
  intros W W' A. unfold script_matches. rewrite !existsb_exists. intros (o & Ho & H). exists o. split; [done|].
  rewrite andb_true_iff in H |- *. destruct H as [H1 H2]. split; [done|]. by eapply (contains_above f).
Qed.

Lemma match_input_above f f' i :
  bloom_wf f → bloom_wf f' → above f' f → match_input f i = true → match_input f' i = true.
Proof.
  intros W W' A. unfold match_input, contains_outpoint. rewrite !orb_true_iff. intros [H|H]; [left|right].
  - by eapply (contains_above f).
  - by eapply (script_matches_above f).
Qed.

Lemma update_wanted_above f f' script : above f' f → update_wanted f' script = update_wanted f script.
Proof. intros [H _]. unfold update_wanted. by rewrite H. Qed.

Lemma match_output_spec hash f b i o f' b' :
  bloom_wf f → match_output hash (f, b) (i, o) = (f', b') →
  bloom_wf f' ∧ above f' f ∧ (b = true → b' = true) ∧
  (script_matches f (scriptPubKey o) = true → b' = true ∧
    (update_wanted f (scriptPubKey o) = true → contains_outpoint f' (mkOutPoint hash i) = true)) ∧
  (b' = true → b = true ∨ script_matches f' (scriptPubKey o) = true).
Proof.
  intros W. cbn [match_output]. destruct (script_matches f (scriptPubKey o)) eqn:M.
  - intros [= <- <-]. destruct (update_wanted f (scriptPubKey o)) eqn:U.
    + destruct (insert_spec f (ser f_outpoint (mkOutPoint hash i)) W) as (W' & H & A).
      split_and!; [done|done|done| |right; by eapply (script_matches_above f)].
      intros _. split; [done|]. intros _. unfold contains_outpoint. by rewrite contains_has.
    + split_and!; [done|done|done|done|by right].
  - intros [= <- <-]. split_and!; [done|done|done|done|by left].
Qed.

Lemma match_outputs_spec hash outs f b f' b' :
  bloom_wf f → foldl (match_output hash) (f, b) outs = (f', b') →
  bloom_wf f' ∧ above f' f ∧ (b = true → b' = true) ∧
  (∀ i o, (i, o) ∈ outs → script_matches f (scriptPubKey o) = true → b' = true ∧
    (update_wanted f (scriptPubKey o) = true → contains_outpoint f' (mkOutPoint hash i) = true)) ∧
  (b' = true → b = true ∨ ∃ i o, (i, o) ∈ outs ∧ script_matches f' (scriptPubKey o) = true).
Proof.
  revert f b. induction outs as [|[j out] outs IH]; intros f b W E.
  { injection E as <- <-. split_and!; [done|done|done|by intros ? ? ?%elem_of_nil|by left]. }
  cbn [foldl] in E. destruct (match_output hash (f, b) (j, out)) as [f1 b1] eqn:E1.
  destruct (match_output_spec hash f b j out f1 b1 W E1) as (W1 & A1 & B1 & M1 & R1).
  destruct (IH f1 b1 W1 E) as (W' & A' & B' & M' & R').
  split_and!; [done|by transitivity f1|auto| |].
  - intros i o [[= -> ->]|Hi]%elem_of_cons Ho.
    + destruct (M1 Ho) as [Hb Hu]. split; [auto|]. intros Hw. unfold contains_outpoint. by eapply (contains_above f1); [| | |apply Hu].
    + destruct (M' i o Hi) as [Hb Hu]; [by eapply (script_matches_above f)|]. split; [done|]. intros Hw. apply Hu.
      by rewrite (update_wanted_above f).
  - intros Hb. destruct (R' Hb) as [H|(i & o & Hi & H)]; [|right; exists i, o; split; [by right|done]].
    destruct (R1 H) as [?|H']; [by left|right]. exists j, out. split; [left|by eapply (script_matches_above f1)].
Qed.

(** What a filter looks for in a transaction. *)
Definition relevant (f : CBloomFilter) (tx : CTransaction) : Prop :=
  contains_hash f (tx_hash tx) = true ∨
  (∃ o, o ∈ vout tx ∧ script_matches f (scriptPubKey o) = true) ∨
  (∃ i, i ∈ vin tx ∧ match_input f i = true).

Lemma elem_of_numbered {A} (l : list A) i x : (i, x) ∈ numbered l ↔ 0 <= i ∧ l !! Z.to_nat i = Some x.
Proof.
  unfold numbered. rewrite list_elem_of_lookup. setoid_rewrite lookup_zip_Some. split.
  - intros (k & H1 & H2). apply lookup_seqZ in H1 as [-> Hk]. split; [lia|]. by rewrite Z.add_0_l, Nat2Z.id.
  - intros [Hi H]. exists (Z.to_nat i). split; [|done]. apply lookup_seqZ. apply lookup_lt_Some in H. lia.
Qed.

Lemma elem_of_numbered_ex {A} (l : list A) x : x ∈ l → ∃ i, (i, x) ∈ numbered l.
Proof.
  intros (k & Hk)%list_elem_of_lookup. exists (Z.of_nat k). apply elem_of_numbered. rewrite Nat2Z.id. split; [lia|done].
Qed.

Lemma script_matches_empty f script : isFull f = false → isEmpty f = true → script_matches f script = false.
Proof.
  intros F E. unfold script_matches. apply not_true_iff_false. rewrite existsb_exists. intros (o & _ & H).
  unfold bloom_contains in H. by rewrite F, E, andb_false_r in H.
Qed.

Lemma relevant_found f tx f' found :
  bloom_wf f → IsRelevantAndUpdate f tx = (f', found) →
  bloom_wf f' ∧ above f' f ∧ (relevant f tx → found = true) ∧ (found = true → relevant f' tx ∨ isFull f = true) ∧
  (∀ i o, 0 <= i → vout tx !! Z.to_nat i = Some o → script_matches f (scriptPubKey o) = true →
    update_wanted f (scriptPubKey o) = true → contains_outpoint f' (mkOutPoint (tx_hash tx) i) = true).
Proof.
  intros W. unfold IsRelevantAndUpdate. destruct (isFull f) eqn:F.
  { intros [= <- <-]. split_and!; [done|done|done|by right|]. intros. unfold contains_outpoint, bloom_contains. by rewrite F. }
  destruct (isEmpty f) eqn:E.
  { intros [= <- <-]. split_and!; [done|done| |done|].
    - intros [H|[(o & _ & H)|(i & _ & H)]]; [|by rewrite script_matches_empty in H|].
      + unfold contains_hash, bloom_contains in H. by rewrite F, E in H.
      + unfold match_input, contains_outpoint, bloom_contains in H. by rewrite F, E, script_matches_empty in H.
    - intros i o _ _ H. by rewrite script_matches_empty in H. }
  destruct (foldl _ _ _) as [f1 b] eqn:Ef. intros [= <- <-].
  destruct (match_outputs_spec _ _ _ _ _ _ W Ef) as (W' & A & B & M & R). split_and!; [done|done| | |].
  - intros [H|[(o & Ho & H)|(i & Hi & H)]].
    + by rewrite B.
    + destruct (elem_of_numbered_ex _ _ Ho) as (k & Hk). destruct (M k o Hk H) as [-> _]. done.
    + destruct b; [done|]. apply existsb_exists. exists i. split; [by apply list_elem_of_In|by eapply (match_input_above f)].
  - intros H. left. destruct b.
    + destruct (R eq_refl) as [H'|(i & o & Hi & H')].
      * left. by eapply (contains_above f).
      * right; left. exists o. split; [|done]. apply elem_of_numbered in Hi as [_ Hi]. by eapply list_elem_of_lookup_2.
    + apply existsb_exists in H as (i & Hi & H). right; right. exists i. split; [by apply list_elem_of_In|done].
  - intros i o Hi Ho Hm Hu. apply (M i o); [by apply elem_of_numbered|done|done].
Qed.

(** What happens to a filter after a key was inserted. *)
Inductive bloom_event := Insert (vKey : list Z) | Recompute | Scan (tx : CTransaction).

Definition bloom_step (f : CBloomFilter) (e : bloom_event) : CBloomFilter :=
  match e with
  | Insert vKey => bloom_insert f vKey
  | Recompute => UpdateEmptyFull f
  | Scan tx => (IsRelevantAndUpdate f tx).1
  end.

Lemma bloom_steps_spec f es : bloom_wf f → bloom_wf (foldl bloom_step f es) ∧ above (foldl bloom_step f es) f.
Proof.
  revert f. induction es as [|e es IH]; intros f W; [done|]. cbn [foldl].
  assert (bloom_wf (bloom_step f e) ∧ above (bloom_step f e) f) as [W1 A1].
  { destruct e as [k| |tx]; cbn [bloom_step].
    - destruct (insert_spec f k W) as (? & _ & ?). done.
    - by apply update_spec.
    - destruct (IsRelevantAndUpdate f tx) as [f' found] eqn:E. by destruct (relevant_found f tx f' found W E) as (? & ? & _). }
  destruct (IH _ W1) as [W2 A2]. split; [done|]. by transitivity (bloom_step f e).
Qed.

(** a bloom filter has no false negatives. A key that was inserted, or was
    contained before, is contained after any sequence of insertions,
    recomputations of the flags and scans of transactions. A scan reports every
    transaction whose hash, pushed data of an output or an input, or spent out
    point the filter contains, and only such for the filter it leaves; and it adds
    the matched outputs the flags ask for. *)
Theorem bloom_no_false_negatives f :
  bloom_wf f →
  (∀ k es, bloom_contains (foldl bloom_step (bloom_insert f k) es) k = true) ∧
  (∀ k es, bloom_contains f k = true → bloom_contains (foldl bloom_step f es) k = true) ∧
  (∀ tx f' found, IsRelevantAndUpdate f tx = (f', found) →
    (relevant f tx → found = true) ∧ (found = true → relevant f' tx ∨ isFull f = true) ∧
    (∀ i o, 0 <= i → vout tx !! Z.to_nat i = Some o → script_matches f (scriptPubKey o) = true →
      update_wanted f (scriptPubKey o) = true → contains_outpoint f' (mkOutPoint (tx_hash tx) i) = true)).
Proof.
  intros W. split_and!.
  - intros k es. destruct (insert_spec f k W) as (W1 & H & _). destruct (bloom_steps_spec _ es W1) as [W2 A2].
    eapply (contains_above (bloom_insert f k)); [done|done|done|]. by rewrite contains_has.
  - intros k es H. destruct (bloom_steps_spec f es W) as [W2 A2]. by eapply (contains_above f).
  - intros tx f' found E. destruct (relevant_found f tx f' found W E) as (_ & _ & ? & ? & ?). done.
Qed.

(** ** Filtered blocks *)

Lemma filter_txs_spec f vtx n f' mask matched :
  bloom_wf f → filter_txs f vtx n = (f', mask, matched) →
  length mask = length vtx ∧ map snd matched = select (map tx_hash vtx) mask ∧
  (∀ i tx, vtx !! i = Some tx → relevant f tx → (n + Z.of_nat i, tx_hash tx) ∈ matched) ∧
  (∀ i tx o k j tx' input, vtx !! i = Some tx → vout tx !! k = Some o →
    script_matches f (scriptPubKey o) = true → update_wanted f (scriptPubKey o) = true →
    (i < j)%nat → vtx !! j = Some tx' → input ∈ vin tx' → prevout input = mkOutPoint (tx_hash tx) (Z.of_nat k) →
    (n + Z.of_nat j, tx_hash tx') ∈ matched).
Proof.
  revert f n f' mask matched. induction vtx as [|tx0 vtx IH]; intros f n f' mask matched W E.
  { injection E as <- <- <-. split_and!; done. }
  cbn [filter_txs] in E. destruct (IsRelevantAndUpdate f tx0) as [f1 found] eqn:E1.
  destruct (filter_txs f1 vtx (n + 1)) as [[f2 mask2] matched2] eqn:E2. injection E as <- <- <-.
  destruct (relevant_found f tx0 f1 found W E1) as (W1 & A1 & R1 & _ & O1).
  destruct (IH f1 (n + 1) f2 mask2 matched2 W1 E2) as (L & S & R & O).
  assert (∀ x, x ∈ matched2 → x ∈ (if found then (n, tx_hash tx0) :: matched2 else matched2)) as Hin
    by (intros x Hx; destruct found; [by right|done]).
  assert (∀ tx, relevant f tx → relevant f1 tx) as Hrel.
  { intros tx [H|[(o & Ho & H)|(i & Hi & H)]]; [left|right; left; exists o|right; right; exists i].
    - by eapply (contains_above f).
    - split; [done|by eapply (script_matches_above f)].
    - split; [done|by eapply (match_input_above f)]. }
  split_and!.
  - cbn [length]. by rewrite L.
  - cbn [map select]. rewrite <- S. by destruct found.
  - intros [|i] tx Hi Hr; cbn in Hi.
    + injection Hi as ->. rewrite (R1 Hr), Z.add_0_r. left.
    + apply Hin. replace (n + Z.of_nat (Datatypes.S i)) with (n + 1 + Z.of_nat i) by lia. by apply R; [|apply Hrel].
  - intros [|i] tx o k [|j] tx' input Hi Ho Hm Hu Hij Hj Hin' Hp; cbn in Hi, Hj; try lia; apply Hin;
      replace (n + Z.of_nat (Datatypes.S j)) with (n + 1 + Z.of_nat j) by lia.
    + injection Hi as ->. apply R; [done|]. right; right. exists input. split; [done|]. unfold match_input.
      rewrite Hp, (O1 (Z.of_nat k) o); [done|lia|by rewrite Nat2Z.id|done|done].
    + eapply (O i tx o k j tx' input); try done; [by eapply (script_matches_above f)|by rewrite (update_wanted_above f)|lia].
Qed.

(** C32: a filtered block proves what its receiver asked for. For a block of 1 to
    33333 transactions and a filter, the bytes of the partial tree read back and
    give the root of the block with the hashes of vMatchedTxn, in order; these
    have every transaction that is relevant for the filter, and every later one
    that spends a matched output the flags ask to follow. *)
Theorem filtered_block_proves_matches f vtx f' t matched rest :
  bloom_wf f → vtx ≠ [] → Z.of_nat (length vtx) <= MAX_BLOCK_SIZE_CURRENT / 60 →
  Forall (λ tx, dom f_hash (tx_hash tx)) vtx → CMerkleBlock f vtx = (f', t, matched) →
  (∃ t', partial_Unserialize (partial_Serialize t ++ rest) = Ok (t', rest) ∧
    ExtractMatches t' = ((BuildMerkleTree (map tx_hash vtx)).1, map snd matched)) ∧
  (∀ i tx, vtx !! i = Some tx → relevant f tx → (Z.of_nat i, tx_hash tx) ∈ matched) ∧
  (∀ i tx o k j tx' input, vtx !! i = Some tx → vout tx !! k = Some o →
    script_matches f (scriptPubKey o) = true → update_wanted f (scriptPubKey o) = true →
    (i < j)%nat → vtx !! j = Some tx' → input ∈ vin tx' → prevout input = mkOutPoint (tx_hash tx) (Z.of_nat k) →
    (Z.of_nat j, tx_hash tx') ∈ matched).
Proof.
  intros W Hne Hl Hh. unfold CMerkleBlock. destruct (filter_txs f vtx 0) as [[f2 mask] matched2] eqn:E.
  intros [= <- <- <-]. destruct (filter_txs_spec f vtx 0 f2 mask matched2 W E) as (L & S & R & O). split_and!.
  - rewrite S. apply partial_tree_extracts.
    + by destruct vtx.
    + by rewrite length_map.
    + by rewrite length_map.
    + by apply Forall_map.
  - intros i tx Hi Hr. exact (R i tx Hi Hr).
  - intros i tx o k j tx' input H1 H2 H3 H4 H5 H6 H7 H8. exact (O i tx o k j tx' input H1 H2 H3 H4 H5 H6 H7 H8).
Qed.

#[local] Transparent Hash Hash2 Hash160.

(** A filter of 64 bits and three functions that asks for all updates; the second
    transaction spends the output of the first, which pays to the inserted key
    hash, and the third has nothing to do with it. *)
Definition ex_empty_filter : CBloomFilter := mkBloom (replicate 8 0) false true 3 5 1.
Definition ex_hash160 : list Z := replicate 20 9.
Definition ex_filter : CBloomFilter := bloom_insert ex_empty_filter ex_hash160.
Definition ex_vtx : list CTransaction :=
  [mkTx (ex_txid 1) 1 [] [mkTxOut 5 (GetScriptForDestination (CKeyID ex_hash160)) 0] 0;
   mkTx (ex_txid 2) 1 [new_txin (mkOutPoint (ex_txid 1) 0) [] 0] [] 0;
   mkTx (ex_txid 3) 1 [] [] 0].

Lemma ex_empty_filter_wf : bloom_wf ex_empty_filter.
Proof.
  split; [repeat constructor; reflexivity || discriminate|reflexivity|discriminate|discriminate|].
  intros _ i Hi. apply test_bit_zero; [repeat constructor|exact Hi].
Qed.

Lemma ex_filter_wf : bloom_wf ex_filter.
Proof. apply insert_spec, ex_empty_filter_wf. Qed.

Lemma bloom_no_false_negatives_witness :
  bloom_contains (foldl bloom_step (bloom_insert ex_empty_filter ex_hash160)
    [Insert [1; 2; 3]; Recompute; Scan (mkTx (ex_txid 3) 1 [] [] 0)]) ex_hash160 = true ∧
  (IsRelevantAndUpdate ex_filter (nth 0 ex_vtx empty_tx)).2 = true.
Proof.
  split.
  - destruct (bloom_no_false_negatives ex_empty_filter ex_empty_filter_wf) as (H & _ & _).
    exact (H ex_hash160 [Insert [1; 2; 3]; Recompute; Scan (mkTx (ex_txid 3) 1 [] [] 0)]).
  - destruct (IsRelevantAndUpdate ex_filter (nth 0 ex_vtx empty_tx)) as [f' found] eqn:E. cbn [snd].
    destruct (bloom_no_false_negatives ex_filter ex_filter_wf) as (_ & _ & H). destruct (H _ _ _ E) as (H1 & _ & _).
    apply H1. right; left. exists (mkTxOut 5 (GetScriptForDestination (CKeyID ex_hash160)) 0). split; [left|].
    vm_compute. reflexivity.
Defined.

Lemma filtered_block_proves_matches_witness :
  let '(_, t, matched) := CMerkleBlock ex_filter ex_vtx in
  (∃ t', partial_Unserialize (partial_Serialize t ++ [7]) = Ok (t', [7]) ∧
    ExtractMatches t' = ((BuildMerkleTree (map tx_hash ex_vtx)).1, map snd matched)) ∧
  (0, ex_txid 1) ∈ matched ∧ (1, ex_txid 2) ∈ matched.
Proof.
  destruct (CMerkleBlock ex_filter ex_vtx) as [[f' t] matched] eqn:E.
  destruct (filtered_block_proves_matches ex_filter ex_vtx f' t matched [7] ex_filter_wf) as (H1 & H2 & H3).
  - discriminate.
  - vm_compute. discriminate.
  - repeat constructor; reflexivity || discriminate.
  - exact E.
  - split; [exact H1|]. split.
    + apply (H2 0%nat (nth 0 ex_vtx empty_tx)); [reflexivity|].
      right; left. exists (mkTxOut 5 (GetScriptForDestination (CKeyID ex_hash160)) 0). split; [left|]. vm_compute. reflexivity.
    + apply (H3 0%nat (nth 0 ex_vtx empty_tx) (mkTxOut 5 (GetScriptForDestination (CKeyID ex_hash160)) 0) 0%nat 1%nat
        (nth 1 ex_vtx empty_tx) (new_txin (mkOutPoint (ex_txid 1) 0) [] 0));
        [reflexivity|reflexivity|vm_compute; reflexivity|vm_compute; reflexivity|lia|reflexivity|left|reflexivity].
Defined.

(** The unrelated transaction is not matched. *)
Example ex_matched : (CMerkleBlock ex_filter ex_vtx).2 = [(0, ex_txid 1); (1, ex_txid 2)].
Proof. vm_compute. reflexivity. Qed.

(** The filter of a message is full until UpdateEmptyFull is called. *)
Example bloom_wire :
  bloom_Unserialize (bloom_Serialize ex_filter ++ [1]) = Ok (mkBloom (vData ex_filter) true false 3 5 1, [1]).
Proof. vm_compute. reflexivity. Qed.
