(* ===== verification/Mempool.v ===== *)
(** * txmempool.cpp: the pool of unconfirmed transactions

    A pointer to a transaction of the pool is the key of its node in mapTx;
    following it when the node is gone is undefined, [None]. Priorities are
    floating-point numbers and are left out, with the estimator of fees; of the
    deltas of PrioritiseTransaction only the fee is kept. *)

From stdpp Require Import sorting.
From S2P Require Import Prelude Serialize Params Script Digest Hashes Interp Tx SigHash Compressor Coins CoinsView.

#[local] Opaque Hash.

#[export] Instance COutPoint_countable : Countable COutPoint.
Proof.
  refine (inj_countable' (λ o, (out_hash o, out_n o)) (λ p, mkOutPoint p.1 p.2) _). by intros [].
Defined.

(** ** Entries *)

Definition MEMPOOL_HEIGHT : Z := 0x7FFFFFFF.

Record CTxMemPoolEntry := mkPoolEntry { e_tx : CTransaction; nFee : Z; nTxSize : Z; nModSize : Z; nTime : Z; e_nHeight : Z }.

Definition new_pool_entry (tx : CTransaction) (fee time height : Z) : CTxMemPoolEntry :=
  let nTxSize := size_of f_tx tx in
  mkPoolEntry tx fee nTxSize (CalculateModifiedSize tx nTxSize) time height.

Record CInPoint := mkInPoint { ptx : hash256; in_n : Z }.

#[export] Instance CInPoint_eq_dec : EqDecision CInPoint.
Proof. solve_decision. Defined.

Record CTxMemPool := mkPool {
  fSanityCheck : bool; nTransactionsUpdated : Z; totalTxSize : Z;
  mapTx : gmap hash256 CTxMemPoolEntry; mapNextTx : gmap COutPoint CInPoint; mapDeltas : gmap hash256 Z
}.

(** The pool is a global object, so its memory is zero before the constructor
    runs, which does not set totalTxSize. *)
Definition new_pool : CTxMemPool := mkPool false 0 0 ∅ ∅ ∅.

Definition setSanityCheck (m : CTxMemPool) (b : bool) : CTxMemPool :=
  mkPool b (nTransactionsUpdated m) (totalTxSize m) (mapTx m) (mapNextTx m) (mapDeltas m).

Definition AddTransactionsUpdated (m : CTxMemPool) (n : Z) : CTxMemPool :=
  mkPool (fSanityCheck m) (u32 (nTransactionsUpdated m + n)) (totalTxSize m) (mapTx m) (mapNextTx m) (mapDeltas m).

Definition with_deltas (m : CTxMemPool) (d : gmap hash256 Z) : CTxMemPool :=
  mkPool (fSanityCheck m) (nTransactionsUpdated m) (totalTxSize m) (mapTx m) (mapNextTx m) d.

(** ** Adding *)

(** The loop over the inputs, from input [i] on. *)
Fixpoint add_next (next : gmap COutPoint CInPoint) (hash : hash256) (ins : list CTxIn) (i : Z) : gmap COutPoint CInPoint :=
  match ins with
  | [] => next
  | txin :: ins => add_next (<[prevout txin := mkInPoint hash i]> next) hash ins (i + 1)
  end.

Definition addUnchecked (m : CTxMemPool) (hash : hash256) (entry : CTxMemPoolEntry) : CTxMemPool :=
  let tx := e_tx entry in
  mkPool (fSanityCheck m) (u32 (nTransactionsUpdated m + 1)) (u64 (totalTxSize m + nTxSize entry))
    (<[hash := entry]> (mapTx m))
    (if negb (tx_IsZerocoinSpend tx) then add_next (mapNextTx m) hash (vin tx) 0 else mapNextTx m)
    (mapDeltas m).

(** ** Removing *)

(** [it->second.ptx->GetHash()]. *)
Definition ptx_hash (m : CTxMemPool) (p : CInPoint) : option hash256 := tx_hash ∘ e_tx <$> mapTx m !! ptx p.

(** The loop over the outputs of [hash]: what it appends to txToRemove. *)
Definition spenders (m : CTxMemPool) (hash : hash256) (nOut : nat) : option (list hash256) :=
  foldl (λ acc i,
    match acc with
    | None => None
    | Some l => match mapNextTx m !! mkOutPoint hash i with
                | None => Some l
                | Some p => match ptx_hash m p with None => None | Some h => Some (l ++ [h]) end
                end
    end) (Some []) (seqZ 0 (Z.of_nat nOut)).

(** One transaction that is in the pool is erased. *)
Definition erase_entry (m : CTxMemPool) (hash : hash256) (e : CTxMemPoolEntry) : CTxMemPool :=
  mkPool (fSanityCheck m) (u32 (nTransactionsUpdated m + 1)) (u64 (totalTxSize m - nTxSize e))
    (delete hash (mapTx m)) (foldl (λ next txin, delete (prevout txin) next) (mapNextTx m) (vin (e_tx e))) (mapDeltas m).

(** [while (!txToRemove.empty())]. *)
Fixpoint remove_loop (fuel : nat) (fRecursive : bool) (m : CTxMemPool) (txToRemove : list hash256) (removed : list CTransaction)
    : option (CTxMemPool * list CTransaction) :=
  match fuel, txToRemove with
  | _, [] => Some (m, removed)
  | O, _ => None
  | S fuel, hash :: txToRemove =>
      match mapTx m !! hash with
      | None => remove_loop fuel fRecursive m txToRemove removed
      | Some e =>
          match (if fRecursive then spenders m hash (length (vout (e_tx e))) else Some []) with
          | None => None
          | Some more => remove_loop fuel fRecursive (erase_entry m hash e) (txToRemove ++ more) (removed ++ [e_tx e])
          end
      end
  end.

(** Every turn takes a hash off the queue; a transaction adds at most one for
    every output, once. *)
Definition pool_outputs (m : CTxMemPool) : nat := map_fold (λ _ e n, length (vout (e_tx e)) + n)%nat 0%nat (mapTx m).
Definition remove_fuel (m : CTxMemPool) (origTx : CTransaction) : nat := (1 + length (vout origTx) + pool_outputs m)%nat.

Definition remove (m : CTxMemPool) (origTx : CTransaction) (removed : list CTransaction) (fRecursive : bool)
    : option (CTxMemPool * list CTransaction) :=
  let hash := tx_hash origTx in
  match (if fRecursive && negb (bool_decide (is_Some (mapTx m !! hash))) then spenders m hash (length (vout origTx)) else Some []) with
  | None => None
  | Some more => remove_loop (remove_fuel m origTx) fRecursive m (hash :: more) removed
  end.

(** removeConflicts, from an input on. *)
Fixpoint remove_conflicts (m : CTxMemPool) (tx : CTransaction) (ins : list CTxIn) (removed : list CTransaction)
    : option (CTxMemPool * list CTransaction) :=
  match ins with
  | [] => Some (m, removed)
  | txin :: ins =>
      match mapNextTx m !! prevout txin with
      | None => remove_conflicts m tx ins removed
      | Some p =>
          match mapTx m !! ptx p with
          | None => None
          | Some e =>
              if negb (bool_decide (tx_hash (e_tx e) = tx_hash tx)) then
                match remove m (e_tx e) removed true with
                | None => None
                | Some (m, removed) => remove_conflicts m tx ins removed
                end
              else remove_conflicts m tx ins removed
          end
      end
  end.

Definition removeConflicts (m : CTxMemPool) (tx : CTransaction) (removed : list CTransaction) : option (CTxMemPool * list CTransaction) :=
  remove_conflicts m tx (vin tx) removed.

Definition ClearPrioritisation (m : CTxMemPool) (hash : hash256) : CTxMemPool := with_deltas m (delete hash (mapDeltas m)).

(** The second loop of removeForBlock; the first one feeds the fee estimator. *)
Fixpoint removeForBlock (m : CTxMemPool) (vtx : list CTransaction) (conflicts : list CTransaction)
    : option (CTxMemPool * list CTransaction) :=
  match vtx with
  | [] => Some (m, conflicts)
  | tx :: vtx =>
      match remove m tx [] false with
      | None => None
      | Some (m, _) =>
          match removeConflicts m tx conflicts with
          | None => None
          | Some (m, conflicts) => removeForBlock (ClearPrioritisation m (tx_hash tx)) vtx conflicts
          end
      end
  end.

Definition pool_clear (m : CTxMemPool) : CTxMemPool :=
  mkPool (fSanityCheck m) (u32 (nTransactionsUpdated m + 1)) 0 ∅ ∅ (mapDeltas m).

(** ** Queries and deltas *)

Definition pool_size (m : CTxMemPool) : Z := Z.of_nat (size (mapTx m)).
Definition pool_exists (m : CTxMemPool) (hash : hash256) : bool := bool_decide (is_Some (mapTx m !! hash)).
Definition pool_lookup (m : CTxMemPool) (hash : hash256) : option CTransaction := e_tx <$> mapTx m !! hash.

Definition PrioritiseTransaction (m : CTxMemPool) (hash : hash256) (nFeeDelta : Z) : CTxMemPool :=
  with_deltas m (<[hash := s64 (default 0 (mapDeltas m !! hash) + nFeeDelta)]> (mapDeltas m)).

Definition ApplyDeltas (m : CTxMemPool) (hash : hash256) (nFeeDelta : Z) : Z :=
  match mapDeltas m !! hash with None => nFeeDelta | Some d => s64 (nFeeDelta + d) end.

(** The keys of a map in the order of the iterators. *)
Definition key_le (a b : hash256) : Prop := hash_lt b a = false.
#[export] Instance key_le_dec a b : Decision (key_le a b) := decide (hash_lt b a = false).
Definition keys_in_order {A} (m : gmap hash256 A) : list hash256 := merge_sort key_le (map fst (map_to_list m)).

Definition queryHashes (m : CTxMemPool) : list hash256 := keys_in_order (mapTx m).

(** pruneSpent: the entries of one transaction are next to each other in the
    map, in the order of their index. A failed Spend changes nothing. *)
Definition spent_indexes (m : CTxMemPool) (hashTx : hash256) : list Z :=
  merge_sort Z.le (omap (λ kv : COutPoint * CInPoint, if bool_decide (out_hash kv.1 = hashTx) then Some (out_n kv.1) else None)
    (map_to_list (mapNextTx m))).
Definition pruneSpent (m : CTxMemPool) (hashTx : hash256) (coins : CCoins) : CCoins :=
  foldl (λ c n, match Spend c (mkOutPoint hashTx n) with Some (c', _) => c' | None => c end) coins (spent_indexes m hashTx).

(** ** CTxMemPool::check, the assertions on the pool itself *)

Definition check_input (m : CTxMemPool) (h : hash256) (i : Z) (txin : CTxIn) : bool :=
  match mapTx m !! out_hash (prevout txin) with
  | Some e2 => match vout (e_tx e2) !! Z.to_nat (out_n (prevout txin)) with
               | Some o => negb (txout_IsNull o)
               | None => false
               end
  | None => true
  end && bool_decide (mapNextTx m !! prevout txin = Some (mkInPoint h i)).

Fixpoint check_entry (m : CTxMemPool) (h : hash256) (i : Z) (ins : list CTxIn) : bool :=
  match ins with
  | [] => true
  | txin :: ins => check_input m h i txin && check_entry m h (i + 1) ins
  end.

Definition check_next (m : CTxMemPool) (o : COutPoint) (p : CInPoint) : bool :=
  match mapTx m !! ptx p with
  | Some e => match vin (e_tx e) !! Z.to_nat (in_n p) with Some inp => bool_decide (o = prevout inp) | None => false end
  | None => false
  end.

Definition check_pool (m : CTxMemPool) : bool :=
  if negb (fSanityCheck m) then true
  else
    forallb (λ kv : hash256 * CTxMemPoolEntry, check_entry m kv.1 0 (vin (e_tx kv.2))) (map_to_list (mapTx m))
    && forallb (λ kv : COutPoint * CInPoint, check_next m kv.1 kv.2) (map_to_list (mapNextTx m))
    && (totalTxSize m =? u64 (map_fold (λ _ e n, nTxSize e + n) 0 (mapTx m))).

(** ** removeCoinbaseSpends *)

Section views.
Context {V : Type} `{CoinsView V}.
Variable params : CChainParams.

(** The loop over the inputs: whether the transaction is listed. [None] is the
    failed assertion. *)
Fixpoint spends_immature (m : CTxMemPool) (c : CCoinsViewCache V) (ins : list CTxIn) (nMemPoolHeight : Z)
    : option (CCoinsViewCache V * bool) :=
  match ins with
  | [] => Some (c, false)
  | txin :: ins =>
      if bool_decide (is_Some (mapTx m !! out_hash (prevout txin))) then spends_immature m c ins nMemPoolHeight
      else
        let '(c, coins) := AccessCoins c (out_hash (prevout txin)) in
        match coins with
        | None => if fSanityCheck m then None else Some (c, true)
        | Some coins =>
            if (fCoinBase coins || fCoinStake coins) && (u32 (nMemPoolHeight - c_nHeight coins) <? nMaturity params)
            then Some (c, true) else spends_immature m c ins nMemPoolHeight
        end
  end.

Definition list_immature (m : CTxMemPool) (nMemPoolHeight : Z) (acc : option (CCoinsViewCache V * list CTransaction)) (hash : hash256)
    : option (CCoinsViewCache V * list CTransaction) :=
  match acc, mapTx m !! hash with
  | Some (c, l), Some e =>
      match spends_immature m c (vin (e_tx e)) nMemPoolHeight with
      | None => None
      | Some (c, listed) => Some (c, if listed : bool then l ++ [e_tx e] else l)
      end
  | _, _ => acc
  end.

Definition remove_step (acc : option CTxMemPool) (tx : CTransaction) : option CTxMemPool :=
  match acc with None => None | Some m => fst <$> remove m tx [] true end.

Definition removeCoinbaseSpends (m : CTxMemPool) (c : CCoinsViewCache V) (nMemPoolHeight : Z)
    : option (CTxMemPool * CCoinsViewCache V) :=
  match foldl (list_immature m nMemPoolHeight) (Some (c, [])) (keys_in_order (mapTx m)) with
  | None => None
  | Some (c, transactionsToRemove) =>
      (λ m, (m, c)) <$> foldl remove_step (Some m) transactionsToRemove
  end.

(** ** CCoinsViewMemPool *)

(** A view on the pool and a base; writes go to the base. *)
Record CCoinsViewMemPool := mkPoolView { mv_base : V; mv_pool : CTxMemPool }.

Definition poolview_GetCoins (v : CCoinsViewMemPool) (txid : hash256) : CCoinsViewMemPool * option CCoins :=
  match pool_lookup (mv_pool v) txid with
  | Some tx => (v, Some (FromTx tx MEMPOOL_HEIGHT))
  | None =>
      let '(b, r) := GetCoins (mv_base v) txid in
      (mkPoolView b (mv_pool v), match r with Some coins => if IsPruned coins then None else Some coins | None => None end)
  end.

Definition poolview_HaveCoins (v : CCoinsViewMemPool) (txid : hash256) : CCoinsViewMemPool * bool :=
  if pool_exists (mv_pool v) txid then (v, true)
  else let '(b, r) := HaveCoins (mv_base v) txid in (mkPoolView b (mv_pool v), r).

#[export] Instance poolview_view : CoinsView CCoinsViewMemPool := {
  GetCoins := poolview_GetCoins;
  HaveCoins := poolview_HaveCoins;
  GetBestBlock v := let '(b, h) := GetBestBlock (mv_base v) in (mkPoolView b (mv_pool v), h);
  BatchWrite v m h := match BatchWrite (mv_base v) m h with
                      | None => None
                      | Some (b, ok) => Some (mkPoolView b (mv_pool v), ok)
                      end
}.
End views.

(** ** The invariant *)

Definition pool_bytes (m : CTxMemPool) : Z := map_fold (λ _ e n, nTxSize e + n) 0 (mapTx m).

(** The transaction has an output of this number, and it is not null. *)
Definition output_there (e : CTxMemPoolEntry) (n : Z) : Prop :=
  0 <= n ∧ ∃ o, vout (e_tx e) !! Z.to_nat n = Some o ∧ txout_IsNull o = false.

Lemma output_there_range e n : output_there e n → 0 <= n < Z.of_nat (length (vout (e_tx e))).
Proof. intros (Hn & o & Ho & _). apply lookup_lt_Some in Ho. lia. Qed.

(** What the assertions of CTxMemPool::check say of the pool itself. *)
Record pool_wf (m : CTxMemPool) : Prop := {
  pool_hash : ∀ h e, mapTx m !! h = Some e → tx_hash (e_tx e) = h;
  pool_next : ∀ h e i inp, mapTx m !! h = Some e → vin (e_tx e) !! i = Some inp →
    mapNextTx m !! prevout inp = Some (mkInPoint h (Z.of_nat i));
  pool_in : ∀ o p, mapNextTx m !! o = Some p → ∃ e i inp, mapTx m !! ptx p = Some e ∧ in_n p = Z.of_nat i ∧
    vin (e_tx e) !! i = Some inp ∧ prevout inp = o;
  pool_parent : ∀ h e inp e', mapTx m !! h = Some e → inp ∈ vin (e_tx e) → mapTx m !! out_hash (prevout inp) = Some e' →
    output_there e' (out_n (prevout inp));
  pool_total : totalTxSize m = u64 (pool_bytes m)
}.

(** [h'] spends an output of [h]. *)
Definition child (m : CTxMemPool) (h h' : hash256) : Prop :=
  ∃ n p, mapNextTx m !! mkOutPoint h n = Some p ∧ ptx p = h'.

Definition in_pool (m : CTxMemPool) (h : hash256) : Prop := is_Some (mapTx m !! h).

Lemma lookup_erase_inputs (next : gmap COutPoint CInPoint) ins o :
  foldl (λ next txin, delete (prevout txin) next) next ins !! o =
    if bool_decide (o ∈ map prevout ins) then None else next !! o.
Proof.
  revert next. induction ins as [|i ins IH]; intros next; cbn [foldl map].
  { rewrite bool_decide_false; [done|]. by intros ?%elem_of_nil. }
  rewrite IH. destruct (decide (prevout i = o)) as [<-|Hne].
  - rewrite (bool_decide_true (_ ∈ _ :: _)) by left. rewrite lookup_delete_eq. by case_bool_decide.
  - rewrite lookup_delete_ne by done.
    rewrite (bool_decide_ext (o ∈ prevout i :: map prevout ins) (o ∈ map prevout ins)); [done|].
    rewrite elem_of_cons. split; [by intros [->|?]|by right].
Qed.

Lemma erase_entry_next m h e o p :
  pool_wf m → mapTx m !! h = Some e →
  mapNextTx (erase_entry m h e) !! o = Some p ↔ mapNextTx m !! o = Some p ∧ ptx p ≠ h.
Proof.
  intros W He. cbn [erase_entry mapNextTx]. rewrite lookup_erase_inputs. case_bool_decide as Hd.
  - split; [done|]. intros [Hp Hne]. destruct Hne. apply list_elem_of_fmap in Hd as (inp & -> & (i & Hi)%list_elem_of_lookup).
    rewrite (pool_next m W h e i inp He Hi) in Hp. by injection Hp as <-.
  - split; [|tauto]. intros Hp. split; [done|]. intros Hh. destruct Hd.
    destruct (pool_in m W o p Hp) as (e' & i & inp & He' & _ & Hi & <-). rewrite Hh, He in He'. injection He' as <-.
    apply list_elem_of_fmap. exists inp. split; [done|]. by eapply list_elem_of_lookup_2.
Qed.

Lemma pool_bytes_erase m h e : mapTx m !! h = Some e → pool_bytes m = nTxSize e + pool_bytes (erase_entry m h e).
Proof. intros He. refine (map_fold_delete_L (λ _ e n, nTxSize e + n) 0 h e (mapTx m) _ He). intros. lia. Qed.

Lemma pool_outputs_erase m h e :
  mapTx m !! h = Some e → pool_outputs m = (length (vout (e_tx e)) + pool_outputs (erase_entry m h e))%nat.
Proof.
  intros He. refine (map_fold_delete_L (λ _ e n, length (vout (e_tx e)) + n)%nat 0%nat h e (mapTx m) _ He). intros. lia.
Qed.

Lemma erase_entry_wf m h e : pool_wf m → mapTx m !! h = Some e → pool_wf (erase_entry m h e).
Proof.
  intros W He. pose proof (λ o p, erase_entry_next m h e o p W He) as Hn. split.
  - intros h' e'. cbn. intros (_ & H)%lookup_delete_Some. by eapply pool_hash.
  - intros h' e' i inp. cbn [erase_entry mapTx]. intros (Hne & H)%lookup_delete_Some Hi. apply Hn.
    split; [by eapply pool_next|done].
  - intros o p (Hp & Hne)%Hn. destruct (pool_in m W o p Hp) as (e' & i & inp & He' & ? & ? & ?). exists e', i, inp.
    cbn. rewrite lookup_delete_ne by done. done.
  - intros h' e' inp e''. cbn. intros (_ & H1)%lookup_delete_Some H2 (_ & H3)%lookup_delete_Some. exact (pool_parent m W h' e' inp e'' H1 H2 H3).
  - cbn [erase_entry totalTxSize]. rewrite (pool_total m W), (pool_bytes_erase m h e He). unfold wrap.
    rewrite Zminus_mod_idemp_l. f_equal. lia.
Qed.

(** ** The queue *)

Lemma spenders_spec m h n :
  pool_wf m → ∃ l, spenders m h n = Some l ∧ (length l <= n)%nat ∧
    ∀ h', h' ∈ l ↔ ∃ i p, 0 <= i < Z.of_nat n ∧ mapNextTx m !! mkOutPoint h i = Some p ∧ ptx p = h'.
Proof.
  intros W. unfold spenders. induction n as [|n IH].
  { exists []. split_and!; [done|done|]. intros h'. rewrite elem_of_nil. split; [done|]. intros (i & p & Hi & _). lia. }
  replace (Z.of_nat (S n)) with (Z.of_nat n + 1) by lia. rewrite seqZ_app, foldl_app by lia.
  destruct IH as (l & -> & Hl & Hin). change (seqZ (0 + Z.of_nat n) 1) with [Z.of_nat 0 + (0 + Z.of_nat n)]. cbn [foldl].
  replace (Z.of_nat 0 + (0 + Z.of_nat n)) with (Z.of_nat n) by lia.
  destruct (mapNextTx m !! mkOutPoint h (Z.of_nat n)) as [p|] eqn:E.
  - destruct (pool_in m W _ p E) as (e & i & inp & He & _). unfold ptx_hash. rewrite He. cbn [fmap option_fmap option_map].
    exists (l ++ [ptx p]). assert ((tx_hash ∘ e_tx) e = ptx p) as -> by (by apply (pool_hash m W)). split_and!; [done|rewrite length_app; cbn; lia|].
    intros h'. rewrite elem_of_app, Hin, list_elem_of_singleton. split.
    + intros [(j & q & Hj & Hq)| ->]; [exists j, q; split; [lia|done]|]. exists (Z.of_nat n), p. split; [lia|done].
    + intros (j & q & Hj & Hq & <-). destruct (decide (j = Z.of_nat n)) as [->|]; [right; by simplify_eq|left].
      exists j, q. split; [lia|done].
  - exists l. split_and!; [done|lia|]. intros h'. rewrite Hin. split; intros (j & q & Hj & Hq & Hh); exists j, q; (split; [|done]); [lia|].
    destruct (decide (j = Z.of_nat n)) as [->|]; [by simplify_eq|lia].
Qed.

(** ** Removing *)

Lemma child_in_pool m h h' : pool_wf m → child m h h' → in_pool m h'.
Proof. intros W (n & p & Hp & <-). destruct (pool_in m W _ p Hp) as (e & _ & _ & He & _). by exists e. Qed.

Section removing.
Variable fRecursive : bool.
Variable m0 : CTxMemPool.
Hypothesis W0 : pool_wf m0.
Variable start : list hash256.

(** How removal goes from a transaction to the next. *)
Definition removal_step (h h' : hash256) : Prop := fRecursive = true ∧ child m0 h h'.

(** What holds between the turns of the loop, [R] being the hashes removed. *)
Record removing (m : CTxMemPool) (queue R : list hash256) : Prop := {
  rm_wf : pool_wf m;
  rm_tx : ∀ h, mapTx m !! h = if bool_decide (h ∈ R) then None else mapTx m0 !! h;
  rm_next : ∀ o p, mapNextTx m !! o = Some p ↔ mapNextTx m0 !! o = Some p ∧ ptx p ∉ R;
  rm_in : ∀ h, h ∈ R → in_pool m0 h;
  rm_nodup : NoDup R;
  rm_reach : ∀ h, h ∈ queue ++ R → ∃ s, s ∈ start ∧ rtc removal_step s h;
  rm_closed : ∀ h h', h ∈ R → removal_step h h' → h' ∈ queue ++ R;
  rm_start : ∀ s, s ∈ start → in_pool m0 s → s ∈ queue ++ R
}.

(** A hash that is not in the pool any more. *)
Lemma removing_skip m h queue R :
  mapTx m !! h = None → removing m (h :: queue) R → removing m queue R.
Proof.
  intros Hh [W Htx Hnext Hin Hnd Hreach Hclosed Hstart].
  assert (in_pool m0 h → h ∈ R) as Hgone.
  { intros [e He]. rewrite Htx in Hh. case_bool_decide; [done|]. by rewrite Hh in He. }
  split; try done.
  - intros x Hx. apply Hreach. cbn. by right.
  - intros x y Hx Hs. specialize (Hclosed x y Hx Hs). cbn in Hclosed. apply elem_of_cons in Hclosed as [->|?]; [|done].
    apply elem_of_app. right. apply Hgone. by eapply child_in_pool, Hs.
  - intros s Hs Hp. specialize (Hstart s Hs Hp). cbn in Hstart. apply elem_of_cons in Hstart as [->|?]; [|done].
    apply elem_of_app. right. by apply Hgone.
Qed.

(** A transaction that is erased, with the ones that spend its outputs. *)
Lemma removing_erase m h e queue R more :
  mapTx m !! h = Some e → removing m (h :: queue) R →
  (∀ h', h' ∈ more ↔ removal_step h h' ∧ ∃ o p, mapNextTx m !! o = Some p ∧ ptx p = h' ∧ out_hash o = h) →
  removing (erase_entry m h e) (queue ++ more) (R ++ [h]).
Proof.
  intros Hh [W Htx Hnext Hin Hnd Hreach Hclosed Hstart] Hmore.
  assert ((h ∉ R) ∧ mapTx m0 !! h = Some e) as [HR H0] by (rewrite Htx in Hh; case_bool_decide; done).
  assert (∀ x, x ∈ h :: queue ++ R → x ∈ (queue ++ more) ++ R ++ [h]) as Hsub by set_solver.
  split.
  - by apply erase_entry_wf.
  - intros x. cbn [erase_entry mapTx]. destruct (decide (x = h)) as [->|Hne].
    + rewrite lookup_delete_eq, bool_decide_true by set_solver. done.
    + rewrite lookup_delete_ne, Htx by done.
      rewrite (bool_decide_ext (x ∈ R ++ [h]) (x ∈ R)); [done|]. set_solver.
  - intros o p. rewrite erase_entry_next, Hnext by done. set_solver.
  - intros x [Hx| ->%list_elem_of_singleton]%elem_of_app; [by apply Hin|by exists e].
  - apply NoDup_app. split; [done|]. split; [|apply NoDup_singleton]. intros x Hx ->%list_elem_of_singleton. done.
  - intros x Hx. destruct (decide (x ∈ more)) as [Hm|Hm]; [|apply Hreach; set_solver].
    apply Hmore in Hm as [Hs _]. destruct (Hreach h) as (s & Hss & Hr); [left|]. exists s. split; [done|]. by eapply rtc_r.
  - intros x y [Hx| ->%list_elem_of_singleton]%elem_of_app Hs.
    + apply Hsub. by apply (Hclosed x y).
    + destruct (decide (y ∈ R)) as [HyR|HyR]; [set_solver|]. assert (y ∈ more); [|set_solver].
      apply Hmore. split; [done|]. destruct Hs as (_ & n & p & Hp & <-). exists (mkOutPoint h n), p. split_and!; [|done|done].
      by apply Hnext.
  - intros s Hs Hp. apply Hsub. by apply Hstart.
Qed.

Lemma remove_loop_spec fuel m queue R removed :
  removing m queue R → (length queue + pool_outputs m <= fuel)%nat →
  ∃ m' rs, remove_loop fuel fRecursive m queue removed = Some (m', removed ++ rs) ∧
    removing m' [] (R ++ map tx_hash rs).
Proof.
  revert m queue R removed. induction fuel as [|fuel IH]; intros m queue R removed I Hf.
  { destruct queue as [|h queue]; [|cbn in Hf; lia]. exists m, []. cbn. by rewrite !app_nil_r. }
  destruct queue as [|h queue]; [exists m, []; cbn; by rewrite !app_nil_r|]. cbn [remove_loop].
  destruct (mapTx m !! h) as [e|] eqn:Hh.
  2: { apply IH; [by eapply removing_skip|cbn in Hf; lia]. }
  assert (∃ more, (if fRecursive then spenders m h (length (vout (e_tx e))) else Some []) = Some more ∧
    (length more <= length (vout (e_tx e)))%nat ∧
    (∀ h', h' ∈ more ↔ removal_step h h' ∧ ∃ o p, mapNextTx m !! o = Some p ∧ ptx p = h' ∧ out_hash o = h)) as (more & -> & Hml & Hmore).
  { unfold removal_step. destruct fRecursive.
    - destruct (spenders_spec m h (length (vout (e_tx e))) (rm_wf _ _ _ I)) as (l & -> & Hl & Hin). exists l. split_and!; [done|done|].
      intros h'. rewrite Hin. split.
      + intros (i & p & _ & Hp & <-). pose proof (proj1 (rm_next _ _ _ I _ _) Hp) as [Hp0 _].
        split; [split; [done|by exists i, p]|by exists (mkOutPoint h i), p].
      + intros (_ & [oh i] & p & Hp & <- & <-). cbn in *. exists i, p. split; [|done].
        destruct (pool_in m (rm_wf _ _ _ I) _ p Hp) as (e' & k & inp & He' & _ & Hi & Ho).
        pose proof (pool_parent m (rm_wf _ _ _ I) (ptx p) e' inp e He') as Hpar. rewrite Ho in Hpar. apply (output_there_range e i). apply Hpar; [|done].
        by eapply list_elem_of_lookup_2.
    - exists []. split_and!; [done|cbn; lia|]. intros h'. rewrite elem_of_nil. split; [done|]. by intros ([? _] & _). }
  destruct (IH (erase_entry m h e) (queue ++ more) (R ++ [h]) (removed ++ [e_tx e])) as (m' & rs & -> & I').
  - by apply removing_erase.
  - rewrite (pool_outputs_erase m h e Hh) in Hf. rewrite length_app. cbn [length] in Hf. lia.
  - exists m', (e_tx e :: rs). rewrite <- !app_assoc in *. split; [done|]. cbn [map].
    by rewrite (pool_hash m (rm_wf _ _ _ I) h e Hh).
Qed.

(** When the queue is empty, the removed ones are those in the pool that can be
    reached. *)
Lemma removing_done m R :
  (∀ s h, s ∈ start → ¬ in_pool m0 s → removal_step s h → h ∈ start) →
  removing m [] R → ∀ h, h ∈ R ↔ in_pool m0 h ∧ ∃ s, s ∈ start ∧ rtc removal_step s h.
Proof.
  intros Hout I h. split.
  - intros Hh. split; [by apply (rm_in _ _ _ I)|]. by apply (rm_reach _ _ _ I).
  - intros [Hp (s & Hs & Hr)]. enough (∀ x, rtc removal_step s x → (in_pool m0 x → x ∈ R) ∧ (¬ in_pool m0 x → x ∈ start)) as H
      by (by apply (proj1 (H h Hr))).
    clear h Hp Hr. apply (rtc_ind_r (λ x, (in_pool m0 x → x ∈ R) ∧ (¬ in_pool m0 x → x ∈ start)) s).
    { split; [intros Hp; by apply (rm_start _ _ _ I)|done]. }
    intros x y Hr Hxy IH.
    assert (in_pool m0 y) as Hy by (by eapply child_in_pool, Hxy). split; [|done]. intros _.
    destruct (decide (x ∈ R)) as [Hx|Hx]; [by apply (rm_closed _ _ _ I x)|].
    destruct (decide (is_Some (mapTx m0 !! x))) as [Hpx|Hpx]; [by apply IH in Hpx|].
    apply (rm_start _ _ _ I); [|done]. apply (Hout x); [by apply IH|done|done].
Qed.
End removing.

(** The outputs of the transaction that the pool knows to be spent are among
    those it has. *)
Definition outputs_known (m : CTxMemPool) (tx : CTransaction) : Prop :=
  in_pool m (tx_hash tx) ∨ ∀ n p, mapNextTx m !! mkOutPoint (tx_hash tx) n = Some p → 0 <= n < Z.of_nat (length (vout tx)).

Lemma remove_spec fRecursive m tx removed :
  pool_wf m → (fRecursive = true → outputs_known m tx) →
  ∃ m' rs, remove m tx removed fRecursive = Some (m', removed ++ rs) ∧ pool_wf m' ∧ NoDup (map tx_hash rs) ∧
    (∀ h, h ∈ map tx_hash rs ↔ in_pool m h ∧ rtc (removal_step fRecursive m) (tx_hash tx) h) ∧
    (∀ h, mapTx m' !! h = if bool_decide (h ∈ map tx_hash rs) then None else mapTx m !! h) ∧
    (∀ o p, mapNextTx m' !! o = Some p ↔ mapNextTx m !! o = Some p ∧ ptx p ∉ map tx_hash rs).
Proof.
  intros W Hk. unfold remove. set (hash := tx_hash tx) in *.
  assert (∃ more, (if fRecursive && negb (bool_decide (is_Some (mapTx m !! hash))) then spenders m hash (length (vout tx)) else Some [])
    = Some more ∧ (length more <= length (vout tx))%nat ∧
    (∀ h, h ∈ more → ¬ in_pool m hash ∧ removal_step fRecursive m hash h) ∧
    (¬ in_pool m hash → ∀ h, removal_step fRecursive m hash h → h ∈ more)) as (more & -> & Hml & Hm1 & Hm2).
  { unfold removal_step. destruct fRecursive; cbn [andb].
    2: { exists []. split_and!; [done|cbn; lia|by intros h ?%elem_of_nil|by intros _ h [? _]]. }
    case_bool_decide as Hp; cbn [negb].
    { exists []. split_and!; [done|cbn; lia|by intros h ?%elem_of_nil|done]. }
    destruct (spenders_spec m hash (length (vout tx)) W) as (l & -> & Hl & Hin). exists l. split_and!; [done|done| |].
    - intros h (i & p & _ & Hpn & <-)%Hin. split; [done|]. split; [done|]. by exists i, p.
    - intros _ h (_ & i & p & Hpn & <-). apply Hin. destruct (Hk eq_refl) as [?|Hr]; [done|]. exists i, p. split; [|done].
      by apply (Hr i p). }
  destruct (remove_loop_spec fRecursive m W (hash :: more) (remove_fuel m tx) m (hash :: more) [] removed) as (m' & rs & -> & I).
  { split; try done.
    - intros o p. split; [intros ?; split; [done|by intros ?%elem_of_nil]|tauto].
    - by intros h ?%elem_of_nil.
    - constructor.
    - intros h Hh. rewrite app_nil_r in Hh. by exists h.
    - by intros h h' ?%elem_of_nil.
    - intros s Hs _. by rewrite app_nil_r. }
  { unfold remove_fuel. cbn [length]. lia. }
  exists m', rs. cbn [app] in I. split; [done|]. split_and!; [apply I|apply I| |apply I|apply I].
  intros h. rewrite (removing_done fRecursive m W (hash :: more) m' (map tx_hash rs)); [|clear h|done].
  - split; intros [Hp H]; (split; [done|]).
    + destruct H as (s & [->|Hs]%elem_of_cons & Hr); [done|]. apply Hm1 in Hs as [_ Hs]. by eapply rtc_l.
    + exists hash. split; [left|done].
  - intros s h [->|Hs]%elem_of_cons Hn Hst; [right; by apply Hm2|].
    apply Hm1 in Hs as [_ [_ Hs]]. destruct Hn. by eapply child_in_pool.
Qed.

(** ** Conflicts and blocks *)

(** [m'] is [m] without some transactions, and those of [S] at most. *)
Record shrinks (m m' : CTxMemPool) (S : hash256 → Prop) : Prop := {
  sh_wf : pool_wf m';
  sh_tx : ∀ h e, mapTx m' !! h = Some e → mapTx m !! h = Some e;
  sh_next : ∀ o p, mapNextTx m' !! o = Some p → mapNextTx m !! o = Some p;
  sh_gone : ∀ h, in_pool m h → ¬ in_pool m' h → S h
}.

Lemma shrinks_child m m' S h h' : shrinks m m' S → rtc (child m') h h' → rtc (child m) h h'.
Proof. intros H. apply rtc_subrel. intros x y (n & p & Hp & <-). exists n, p. split; [by eapply sh_next|done]. Qed.

Lemma shrinks_trans m1 m2 m3 (S1 S2 S3 : hash256 → Prop) :
  shrinks m1 m2 S1 → shrinks m2 m3 S2 → (∀ h, S1 h → S3 h) → (∀ h, in_pool m1 h → S2 h → S3 h) → shrinks m1 m3 S3.
Proof.
  intros H1 H2 HS1 HS2. split.
  - apply H2.
  - intros h e He. by eapply sh_tx, sh_tx.
  - intros o p Hp. by eapply sh_next, sh_next.
  - intros h Hin Hn. destruct (decide (is_Some (mapTx m2 !! h))) as [Hp|Hp].
    + apply HS2; [done|]. by eapply (sh_gone m2).
    + apply HS1. by eapply (sh_gone m1).
Qed.

Lemma remove_shrinks fRecursive m tx removed :
  pool_wf m → (fRecursive = true → outputs_known m tx) →
  ∃ m' rs, remove m tx removed fRecursive = Some (m', removed ++ rs) ∧
    shrinks m m' (λ h, rtc (removal_step fRecursive m) (tx_hash tx) h) ∧ ¬ in_pool m' (tx_hash tx).
Proof.
  intros W Hk. destruct (remove_spec fRecursive m tx removed W Hk) as (m' & rs & -> & W' & _ & Hrs & Htx & Hnext).
  exists m', rs. split; [done|]. split; [split|].
  - done.
  - intros h e. rewrite Htx. by case_bool_decide.
  - intros o p. by intros [? _]%Hnext.
  - intros h Hp Hn. unfold in_pool in Hn. rewrite Htx in Hn. case_bool_decide as Hd; [by apply Hrs|done].
  - unfold in_pool. rewrite Htx. case_bool_decide as Hd; [by intros []|]. intros Hp. apply Hd, Hrs. split; [done|constructor].
Qed.

Lemma removal_step_true m : ∀ h h', rtc (removal_step true m) h h' → rtc (child m) h h'.
Proof. intros h h'. apply rtc_subrel. by intros x y [_ ?]. Qed.

(** Who spends an input of the transaction, and what depends on it. *)
Definition conflicting (m : CTxMemPool) (tx : CTransaction) (ins : list CTxIn) (h : hash256) : Prop :=
  ∃ inp p, inp ∈ ins ∧ mapNextTx m !! prevout inp = Some p ∧ ptx p ≠ tx_hash tx ∧ rtc (child m) (ptx p) h.

Lemma remove_conflicts_spec m tx ins removed :
  pool_wf m →
  ∃ m' rs, remove_conflicts m tx ins removed = Some (m', removed ++ rs) ∧ shrinks m m' (conflicting m tx ins) ∧
    (∀ inp p, inp ∈ ins → mapNextTx m' !! prevout inp = Some p → ptx p = tx_hash tx).
Proof.
  revert m removed. induction ins as [|inp ins IH]; intros m removed W; cbn [remove_conflicts].
  { exists m, []. rewrite app_nil_r. split_and!; [done| |by intros ? ? ?%elem_of_nil]. split; done. }
  assert (∀ m1 removed1, pool_wf m1 → shrinks m m1 (conflicting m tx (inp :: ins)) →
    (∀ p, mapNextTx m1 !! prevout inp = Some p → ptx p = tx_hash tx) →
    ∃ m' rs, remove_conflicts m1 tx ins removed1 = Some (m', removed1 ++ rs) ∧ shrinks m m' (conflicting m tx (inp :: ins)) ∧
      (∀ i p, i ∈ inp :: ins → mapNextTx m' !! prevout i = Some p → ptx p = tx_hash tx)) as Hrest.
  { intros m1 removed1 W1 S1 H1. destruct (IH m1 removed1 W1) as (m' & rs & -> & S2 & H2). exists m', rs. split; [done|]. split.
    - eapply shrinks_trans; [exact S1|exact S2|done|]. intros h _ (i & p & Hi & Hp & Hne & Hr).
      exists i, p. split_and!; [by right|by eapply sh_next|done|by eapply shrinks_child].
    - intros i p [->|Hi]%elem_of_cons Hp; [|by eapply H2]. apply H1. by eapply sh_next. }
  destruct (mapNextTx m !! prevout inp) as [p|] eqn:Ep.
  2: { apply Hrest; [done|split; done|]. by intros p; rewrite Ep. }
  destruct (pool_in m W _ p Ep) as (e & i & inp' & He & _). rewrite He. pose proof (pool_hash m W _ _ He) as Hh. case_bool_decide as Hd; cbn [negb].
  { apply Hrest; [done|split; done|]. intros q Hq. rewrite Ep in Hq. injection Hq as <-. by rewrite <- Hh. }
  destruct (remove_shrinks true m (e_tx e) removed W) as (m1 & rs1 & -> & S1 & Hgone).
  { intros _. left. rewrite Hh. by exists e. }
  rewrite Hh in S1, Hgone. destruct (Hrest m1 (removed ++ rs1)) as (m' & rs & -> & S' & H').
  - apply S1.
  - split; [apply S1|apply S1|apply S1|]. intros h Hp Hn. exists inp, p. split_and!; [left|done|by rewrite <- Hh|].
    apply removal_step_true. by eapply sh_gone.
  - intros q Hq. pose proof (sh_next _ _ _ S1 _ _ Hq) as Hq'. rewrite Ep in Hq'. injection Hq' as <-.
    destruct Hgone. by destruct (pool_in m1 (sh_wf _ _ _ S1) _ _ Hq) as (e1 & _ & _ & He1 & _); exists e1.
  - exists m', (rs1 ++ rs). rewrite <- app_assoc. done.
Qed.

(** What a block takes out of the pool. *)
Definition taken_by_block (m : CTxMemPool) (vtx : list CTransaction) (h : hash256) : Prop :=
  ∃ tx, tx ∈ vtx ∧ (h = tx_hash tx ∨ conflicting m tx (vin tx) h).

Lemma with_deltas_wf m d : pool_wf m → pool_wf (with_deltas m d).
Proof. intros W. split; apply W. Qed.

Lemma removeForBlock_spec m vtx conflicts :
  pool_wf m →
  ∃ m' cs, removeForBlock m vtx conflicts = Some (m', conflicts ++ cs) ∧ shrinks m m' (taken_by_block m vtx) ∧
    (∀ tx, tx ∈ vtx → ¬ in_pool m' (tx_hash tx) ∧ ∀ inp, inp ∈ vin tx → mapNextTx m' !! prevout inp = None).
Proof.
  revert m conflicts. induction vtx as [|tx vtx IH]; intros m conflicts W; cbn [removeForBlock].
  { exists m, []. rewrite app_nil_r. split_and!; [done| |by intros ? ?%elem_of_nil]. split; done. }
  destruct (remove_shrinks false m tx [] W) as (m1 & rs1 & -> & S1 & G1); [done|].
  destruct (remove_conflicts_spec m1 tx (vin tx) conflicts (sh_wf _ _ _ S1)) as (m2 & rs2 & E2 & S2 & H2).
  unfold removeConflicts. rewrite E2. set (m3 := ClearPrioritisation m2 (tx_hash tx)).
  assert (shrinks m m3 (taken_by_block m (tx :: vtx))) as S3.
  { eapply (shrinks_trans m m1 m3); [exact S1| | |].
    - split; [apply with_deltas_wf, S2|exact (sh_tx _ _ _ S2)|exact (sh_next _ _ _ S2)|exact (sh_gone _ _ _ S2)].
    - intros h Hr. exists tx. split; [left|]. left. by destruct Hr as [|? ? ? [? _]].
    - intros h _ (inp & p & Hi & Hp & Hne & Hr). exists tx. split; [left|]. right.
      exists inp, p. split_and!; [done|by eapply sh_next|done|by eapply shrinks_child]. }
  destruct (IH m3 (conflicts ++ rs2) (sh_wf _ _ _ S3)) as (m' & cs & -> & S' & H').
  exists m', (rs2 ++ cs). rewrite <- app_assoc. split; [done|]. split.
  - eapply shrinks_trans; [exact S3|exact S'|done|]. intros h _ (tx' & Htx & Hh). exists tx'. split; [by right|].
    destruct Hh as [->|(inp & p & Hi & Hp & Hne & Hr)]; [by left|right].
    exists inp, p. split_and!; [done|by eapply (sh_next _ _ _ S3)|done|by eapply shrinks_child].
  - intros tx' [->|Htx]%elem_of_cons; [|by apply H'].
    assert (¬ in_pool m2 (tx_hash tx)) as G2 by (intros [e He]; apply G1; exists e; by eapply (sh_tx _ _ _ S2)).
    split.
    + intros [e He]. apply G2. exists e. apply (sh_tx _ _ _ S' _ _ He).
    + intros inp Hi. destruct (mapNextTx m' !! prevout inp) as [p|] eqn:Ep; [|done]. exfalso.
      pose proof (sh_next _ _ _ S' _ _ Ep) as Ep3. change (mapNextTx m2 !! prevout inp = Some p) in Ep3.
      pose proof (H2 inp p Hi Ep3) as Hpt. destruct (pool_in m2 (sh_wf _ _ _ S2) _ _ Ep3) as (e & _ & _ & He & _).
      apply G2. rewrite <- Hpt. by exists e.
Qed.

(** ** Adding *)

(** A transaction that fits the pool. AcceptToMemoryPool checks all of this but
    that no transaction of the pool spends the same outputs ([add_unspent]) and
    that those that spend outputs of the new one find them ([add_children]). *)
Record add_ok (m : CTxMemPool) (hash : hash256) (e : CTxMemPoolEntry) : Prop := {
  add_hash : hash = tx_hash (e_tx e);
  add_new : ¬ in_pool m hash;
  add_plain : tx_IsZerocoinSpend (e_tx e) = false;
  add_distinct : NoDup (map prevout (vin (e_tx e)));
  add_unspent : ∀ inp, inp ∈ vin (e_tx e) → mapNextTx m !! prevout inp = None;
  add_parents : ∀ inp e', inp ∈ vin (e_tx e) → mapTx m !! out_hash (prevout inp) = Some e' → output_there e' (out_n (prevout inp));
  add_children : ∀ n p, mapNextTx m !! mkOutPoint hash n = Some p → output_there e n;
  add_acyclic : ∀ inp, inp ∈ vin (e_tx e) → out_hash (prevout inp) ≠ hash
}.

Lemma lookup_add_next next hash ins i o p :
  NoDup (map prevout ins) →
  add_next next hash ins i !! o = Some p ↔
    (∃ k inp, ins !! k = Some inp ∧ prevout inp = o ∧ p = mkInPoint hash (i + Z.of_nat k)) ∨
    ((o ∉ map prevout ins) ∧ next !! o = Some p).
Proof.
  revert next i. induction ins as [|x ins IH]; intros next i Hnd; cbn [add_next map].
  { split; [intros H; right; split; [by intros ?%elem_of_nil|done]|]. by intros [(k & inp & Hk & _)|[_ H]]. }
  cbn [map] in Hnd. apply NoDup_cons in Hnd as [Hx Hnd]. rewrite IH by done. rewrite not_elem_of_cons. split.
  - intros [(k & inp & Hk & Ho & ->)|[Ho Hl]].
    + left. exists (S k), inp. split_and!; [done|done|f_equal; lia].
    + destruct (decide (prevout x = o)) as [<-|Hne].
      * rewrite lookup_insert_eq in Hl. injection Hl as <-. left. exists 0%nat, x. split_and!; [done|done|f_equal; lia].
      * rewrite lookup_insert_ne in Hl by done. right. split; [split; [by intros ->|done]|done].
  - intros [([|k] & inp & Hk & Ho & ->)|[[Hne Ho] Hl]].
    + cbn in Hk. injection Hk as ->. right. rewrite <- Ho, lookup_insert_eq. split; [done|]. do 2 f_equal. lia.
    + left. exists k, inp. split_and!; [done|done|f_equal; lia].
    + right. split; [done|]. by rewrite lookup_insert_ne.
Qed.

Lemma addUnchecked_wf m hash e : pool_wf m → add_ok m hash e → pool_wf (addUnchecked m hash e).
Proof.
  intros W A. assert (mapTx m !! hash = None) as Hnone by (apply eq_None_not_Some; apply (add_new _ _ _ A)).
  assert (∀ o p, mapNextTx (addUnchecked m hash e) !! o = Some p ↔
    (∃ k inp, vin (e_tx e) !! k = Some inp ∧ prevout inp = o ∧ p = mkInPoint hash (Z.of_nat k)) ∨
    mapNextTx m !! o = Some p) as Hn.
  { intros o p. unfold addUnchecked. cbn [mapNextTx]. rewrite (add_plain _ _ _ A). cbn [negb].
    rewrite lookup_add_next by apply A. split; [intros [?|[_ ?]]; [by left|by right]|]. intros [?|H]; [by left|right].
    split; [|done]. intros (inp & -> & Hi)%list_elem_of_fmap. by rewrite (add_unspent _ _ _ A inp Hi) in H. }
  split.
  - intros h e'. cbn [addUnchecked mapTx]. intros [[<- <-]|[_ H]]%lookup_insert_Some; [symmetry; apply A|by eapply pool_hash].
  - intros h e' i inp. cbn [addUnchecked mapTx]. intros [[<- <-]|[_ H]]%lookup_insert_Some Hi; apply Hn; [left; eauto|right].
    by eapply pool_next.
  - intros o p [(k & inp & Hk & Ho & ->)|Hp]%Hn.
    + exists e, k, inp. cbn [addUnchecked mapTx ptx in_n]. by rewrite lookup_insert_eq.
    + destruct (pool_in m W o p Hp) as (e' & i & inp & He' & Hx). exists e', i, inp. cbn [addUnchecked mapTx].
      rewrite lookup_insert_ne; [done|]. intros E. by rewrite <- E, Hnone in He'.
  - intros h e' inp e''. cbn [addUnchecked mapTx].
    intros [[<- <-]|[Hh H]]%lookup_insert_Some Hi [[Hp <-]|[_ H']]%lookup_insert_Some.
    + by destruct (add_acyclic _ _ _ A inp Hi).
    + by apply (add_parents _ _ _ A).
    + apply list_elem_of_lookup in Hi as (i & Hi). pose proof (pool_next m W h e' i inp H Hi) as Hnx.
      destruct (prevout inp) as [oh n]. cbn [out_hash out_n] in *. subst oh. by eapply add_children.
    + by eapply (pool_parent m W h).
  - cbn [addUnchecked totalTxSize]. rewrite (pool_total m W). unfold pool_bytes.
    change (mapTx (addUnchecked m hash e)) with (<[hash := e]> (mapTx m)).
    rewrite (map_fold_insert_L (λ _ e n, nTxSize e + n) 0 hash e (mapTx m)) by (done || (intros; lia)).
    unfold wrap. rewrite Zplus_mod_idemp_l. f_equal. lia.
Qed.

(** The invariant is what check asserts. *)
Lemma check_entry_all m h i ins :
  (∀ k inp, ins !! k = Some inp → check_input m h (i + Z.of_nat k) inp = true) → check_entry m h i ins = true.
Proof.
  revert i. induction ins as [|inp ins IH]; intros i H; [done|]. cbn [check_entry]. apply andb_true_iff. split.
  - rewrite <- (Z.add_0_r i). by apply (H 0%nat).
  - apply IH. intros k x Hk. replace (i + 1 + Z.of_nat k) with (i + Z.of_nat (S k)) by lia. by apply H.
Qed.

Lemma pool_wf_check m : pool_wf m → check_pool m = true.
Proof.
  intros W. unfold check_pool. destruct (negb _); [done|]. rewrite !andb_true_iff. split_and!.
  - apply forallb_forall. intros [h e] Hin%list_elem_of_In. apply elem_of_map_to_list in Hin. cbn [fst snd].
    apply check_entry_all. intros k inp Hk. unfold check_input. rewrite (pool_next m W h e k inp Hin Hk).
    rewrite bool_decide_true, andb_true_r by done. destruct (mapTx m !! out_hash (prevout inp)) as [e'|] eqn:E; [|done].
    destruct (pool_parent m W h e inp e' Hin) as (_ & o & -> & ->); [by eapply list_elem_of_lookup_2|done|done].
  - apply forallb_forall. intros [o p] Hin%list_elem_of_In. apply elem_of_map_to_list in Hin.
    change (check_next m o p = true). unfold check_next.
    destruct (pool_in m W o p Hin) as (e & i & inp & -> & -> & Hi & Ho). rewrite Nat2Z.id, Hi. by rewrite bool_decide_true.
  - apply Z.eqb_eq. apply W.
Qed.

Lemma check_entry_at m h i ins k inp :
  check_entry m h i ins = true → ins !! k = Some inp → check_input m h (i + Z.of_nat k) inp = true.
Proof.
  revert i k. induction ins as [|x ins IH]; intros i k; [done|]. cbn [check_entry]. rewrite andb_true_iff. intros [H1 H2].
  destruct k as [|k]; cbn [lookup list_lookup].
  - intros [= <-]. by rewrite Z.add_0_r.
  - intros Hk. replace (i + Z.of_nat (S k)) with (i + 1 + Z.of_nat k) by lia. by apply IH.
Qed.

(** Adding a transaction that spends what one of the pool spends makes the
    assertions of CTxMemPool::check fail. *)
Lemma conflict_fails_check pool tx entry inp :
  pool_wf pool → e_tx entry = tx → ¬ in_pool pool (tx_hash tx) → NoDup (map prevout (vin tx)) →
  tx_IsZerocoinSpend tx = false → fSanityCheck pool = true →
  inp ∈ vin tx → is_Some (mapNextTx pool !! prevout inp) →
  check_pool (addUnchecked pool (tx_hash tx) entry) = false.
Proof.
  intros W He Hnew Hnd Hz Hsane Hin [p Hp]. destruct (pool_in pool W _ _ Hp) as (e & i & inp' & Hmap & _ & Hi & Ho).
  apply not_true_iff_false. intros Hc. unfold check_pool in Hc. cbn [addUnchecked fSanityCheck] in Hc. rewrite Hsane in Hc.
  cbn [negb] in Hc. rewrite !andb_true_iff in Hc. destruct Hc as [[Hc _] _]. rewrite forallb_forall in Hc.
  assert (ptx p ≠ tx_hash tx) as Hne by (intros E; apply Hnew; exists e; by rewrite <- E).
  specialize (Hc (ptx p, e)). cbn [fst snd] in Hc.
  assert (check_entry (addUnchecked pool (tx_hash tx) entry) (ptx p) 0 (vin (e_tx e)) = true) as Hce.
  { apply Hc. apply list_elem_of_In, elem_of_map_to_list. cbn [addUnchecked mapTx]. by rewrite lookup_insert_ne. }
  pose proof (check_entry_at _ _ _ _ _ _ Hce Hi) as Hci. unfold check_input in Hci. apply andb_true_iff in Hci as [_ Hci].
  apply bool_decide_eq_true in Hci. cbn [addUnchecked mapNextTx] in Hci. rewrite He, Hz in Hci. cbn [negb] in Hci.
  apply lookup_add_next in Hci; [|done]. destruct Hci as [(k & x & _ & _ & [= E _])|[Hnin _]]; [done|].
  apply Hnin. rewrite Ho. by apply list_elem_of_fmap_2.
Qed.

(** What AcceptToMemoryPool makes sure of ([admissible_add_ok] of PoolAccept), and
    what it does not: that no transaction of the pool spends the same outputs, and
    that those that spend outputs of the new one find them. *)
Record add_checked (m : CTxMemPool) (hash : hash256) (e : CTxMemPoolEntry) : Prop := {
  ck_hash : hash = tx_hash (e_tx e);
  ck_new : ¬ in_pool m hash;
  ck_plain : tx_IsZerocoinSpend (e_tx e) = false;
  ck_distinct : NoDup (map prevout (vin (e_tx e)));
  ck_parents : ∀ inp e', inp ∈ vin (e_tx e) → mapTx m !! out_hash (prevout inp) = Some e' → output_there e' (out_n (prevout inp));
  ck_acyclic : ∀ inp, inp ∈ vin (e_tx e) → out_hash (prevout inp) ≠ hash
}.

Record fits (m : CTxMemPool) (hash : hash256) (e : CTxMemPoolEntry) : Prop := {
  ft_unspent : ∀ inp, inp ∈ vin (e_tx e) → mapNextTx m !! prevout inp = None;
  ft_children : ∀ n p, mapNextTx m !! mkOutPoint hash n = Some p → output_there e n
}.

Lemma add_ok_intro m hash e : add_checked m hash e → fits m hash e → add_ok m hash e.
Proof. intros [] []. by split. Qed.

(** If the pool is consistent with the transaction, it fits. *)
Lemma addUnchecked_fits m hash e :
  pool_wf m → add_checked m hash e → pool_wf (addUnchecked m hash e) → fits m hash e.
Proof.
  intros W A W'. assert (mapTx m !! hash = None) as Hnone by (apply eq_None_not_Some; apply (ck_new _ _ _ A)).
  assert (mapTx (addUnchecked m hash e) !! hash = Some e) as He by (cbn [addUnchecked mapTx]; by rewrite lookup_insert_eq).
  assert (∀ h e', mapTx m !! h = Some e' → mapTx (addUnchecked m hash e) !! h = Some e') as Hold.
  { intros h e' H. cbn [addUnchecked mapTx]. rewrite lookup_insert_ne; [done|]. intros ->. congruence. }
  split.
  - intros inp Hin. destruct (mapNextTx m !! prevout inp) as [p|] eqn:Hp; [|done]. exfalso.
    destruct (pool_in m W _ p Hp) as (e' & i & inp' & He' & _ & Hi & Ho). apply list_elem_of_lookup in Hin as (k & Hk).
    pose proof (pool_next _ W' _ _ _ _ (Hold _ _ He') Hi) as H1. pose proof (pool_next _ W' _ _ _ _ He Hk) as H2.
    rewrite Ho, H2 in H1. injection H1 as E _. rewrite <- E in He'. congruence.
  - intros n p Hp. destruct (pool_in m W _ p Hp) as (e' & i & inp & He' & _ & Hi & Ho).
    assert (inp ∈ vin (e_tx e')) as Hin by by eapply list_elem_of_lookup_2.
    pose proof (pool_parent _ W' _ _ inp e (Hold _ _ He') Hin) as H. rewrite Ho in H. by apply H.
Qed.

(** ** removeCoinbaseSpends does not fail *)

Definition pool_tx (m : CTxMemPool) (tx : CTransaction) : Prop := ∃ e, mapTx m !! tx_hash tx = Some e ∧ e_tx e = tx.

(** A transaction that was in the pool has the outputs that are spent. *)
Lemma pool_tx_known m m' S tx : pool_wf m → shrinks m m' S → pool_tx m tx → outputs_known m' tx.
Proof.
  intros W H (e & He & <-). right. intros n p Hp. apply (sh_next _ _ _ H) in Hp.
  destruct (pool_in m W _ p Hp) as (e' & i & inp & He' & _ & Hi & Ho). apply output_there_range.
  pose proof (pool_parent m W (ptx p) e' inp e He') as Hpar. rewrite Ho in Hpar. apply Hpar; [by eapply list_elem_of_lookup_2|done].
Qed.

Lemma remove_all_spec m l :
  pool_wf m → Forall (pool_tx m) l → ∃ m', foldl remove_step (Some m) l = Some m' ∧ shrinks m m' (λ _, True).
Proof.
  intros W Hl. enough (∀ m1, shrinks m m1 (λ _, True) → ∃ m', foldl remove_step (Some m1) l = Some m' ∧ shrinks m m' (λ _, True)) as H.
  { apply H. by split. }
  induction Hl as [|tx l Htx Hl IH]; intros m1 S1; [by exists m1|]. cbn [foldl remove_step].
  destruct (remove_shrinks true m1 tx [] (sh_wf _ _ _ S1)) as (m2 & rs & -> & S2 & _); [intros _; by eapply pool_tx_known|].
  cbn. apply IH. by eapply shrinks_trans.
Qed.

Section immature.
Context {V : Type} `{CoinsView V}.
Variable params : CChainParams.

Lemma spends_immature_total m (c : CCoinsViewCache V) ins height :
  fSanityCheck m = false → is_Some (spends_immature params m c ins height).
Proof.
  intros Hs. revert c. induction ins as [|inp ins IH]; intros c; cbn [spends_immature]; [eauto|].
  case_bool_decide; [done|]. destruct (AccessCoins c (out_hash (prevout inp))) as [c' [coins|]]; [|rewrite Hs; eauto].
  destruct (_ && _); eauto.
Qed.

Lemma list_immature_total m (c : CCoinsViewCache V) l hashes height :
  pool_wf m → fSanityCheck m = false → Forall (pool_tx m) l →
  ∃ c' l', foldl (list_immature params m height) (Some (c, l)) hashes = Some (c', l') ∧ Forall (pool_tx m) l'.
Proof.
  intros W Hs. revert c l. induction hashes as [|h hashes IH]; intros c l Hl; [by exists c, l|]. cbn [foldl list_immature].
  destruct (mapTx m !! h) as [e|] eqn:He; [|by apply IH].
  destruct (spends_immature_total m c (vin (e_tx e)) height Hs) as [[c1 listed] ->]. apply IH. destruct listed; [|done].
  apply Forall_app. split; [done|]. constructor; [|constructor]. exists e. by rewrite (pool_hash m W h e He).
Qed.

Lemma removeCoinbaseSpends_spec m (c : CCoinsViewCache V) height :
  pool_wf m → fSanityCheck m = false →
  ∃ m' c', removeCoinbaseSpends params m c height = Some (m', c') ∧ shrinks m m' (λ _, True).
Proof.
  intros W Hs. unfold removeCoinbaseSpends.
  destruct (list_immature_total m c [] (keys_in_order (mapTx m)) height W Hs) as (c' & l & -> & Hl); [constructor|].
  destruct (remove_all_spec m l W Hl) as (m' & -> & S). exists m', c'. done.
Qed.
End immature.

(** ** The properties *)


(** C33: removing a transaction takes exactly its descendants along. The loop ends
    and follows no dangling pointer; it removes, each once, the transactions of
    the pool that can be reached from it by spending outputs, whether or not it is
    in the pool itself; the others stay, and none of them spends an output of a
    removed transaction. *)
Theorem removal_takes_descendants m tx removed :
  pool_wf m → outputs_known m tx →
  ∃ m' rs, remove m tx removed true = Some (m', removed ++ rs) ∧ pool_wf m' ∧ NoDup (map tx_hash rs) ∧
    (∀ h, h ∈ map tx_hash rs ↔ in_pool m h ∧ rtc (child m) (tx_hash tx) h) ∧
    (∀ h, mapTx m' !! h = if bool_decide (h ∈ map tx_hash rs) then None else mapTx m !! h) ∧
    (∀ h e inp, mapTx m' !! h = Some e → inp ∈ vin (e_tx e) →
      out_hash (prevout inp) ≠ tx_hash tx ∧ (out_hash (prevout inp) ∉ map tx_hash rs)).
Proof.
  intros W Hk. destruct (remove_spec true m tx removed W (λ _, Hk)) as (m' & rs & -> & W' & Hnd & Hrs & Htx & Hnext).
  assert (∀ h, h ∈ map tx_hash rs ↔ in_pool m h ∧ rtc (child m) (tx_hash tx) h) as Hreach.
  { intros h. rewrite Hrs. split; intros [Hp Hr]; (split; [done|]); [by apply removal_step_true|].
    eapply rtc_subrel; [|exact Hr]. done. }
  exists m', rs. split_and!; [done..|].
  intros h e inp He Hi. pose proof Hi as (i & Hi')%list_elem_of_lookup. pose proof (pool_next m' W' h e i inp He Hi') as Hn.
  apply Hnext in Hn as [Hn Hh]. cbn [ptx] in Hh. destruct (prevout inp) as [oh n] eqn:Eo. cbn [out_hash].
  assert (child m oh h) as Hc by (by exists n, (mkInPoint h (Z.of_nat i))).
  assert (rtc (child m) (tx_hash tx) oh → False) as Hno.
  { intros Hr. apply Hh, Hreach. split; [by eapply child_in_pool|by eapply rtc_r]. }
  split; [intros ->; apply Hno; constructor|]. intros [_ Hr]%Hreach. by apply Hno.
Qed.

(** ** An example *)

(** The second transaction spends the output of the first, the third another
    one. *)
Definition ex_tx (k : Z) (spent : COutPoint) : CTransaction := mkTx [k] 1 [new_txin spent [] 0] [mkTxOut 5 [] 0] 0.
Definition ex_entry (k : Z) (spent : COutPoint) : CTxMemPoolEntry := mkPoolEntry (ex_tx k spent) 1 100 100 0 7.
Definition ex_pool : CTxMemPool :=
  addUnchecked (addUnchecked (addUnchecked new_pool [1] (ex_entry 1 (mkOutPoint [9] 0)))
    [2] (ex_entry 2 (mkOutPoint [1] 0))) [3] (ex_entry 3 (mkOutPoint [9] 1)).

Lemma ex_add m k spent :
  mapTx m !! [k] = None → mapNextTx m !! spent = None → mapNextTx m !! mkOutPoint [k] 0 = None →
  (∀ n, n ≠ 0 → mapNextTx m !! mkOutPoint [k] n = None) → out_hash spent ≠ [k] → outpoint_IsNull spent = false →
  (∀ e', mapTx m !! out_hash spent = Some e' → output_there e' (out_n spent)) → add_ok m [k] (ex_entry k spent).
Proof.
  intros H1 H2 H3 H4 H5 H6 H7. split; cbn [ex_entry e_tx ex_tx vin vout tx_hash map].
  - done.
  - by intros [e He]; rewrite H1 in He.
  - unfold tx_IsZerocoinSpend. cbn. by rewrite H6.
  - constructor; [by intros ?%elem_of_nil|constructor].
  - by intros inp ->%list_elem_of_singleton.
  - by intros inp e' ->%list_elem_of_singleton He'; apply H7.
  - intros n p Hp. destruct (decide (n = 0)) as [->|]; [by rewrite H3 in Hp|by rewrite H4 in Hp].
  - by intros inp ->%list_elem_of_singleton.
Qed.

Lemma ex_pool_wf : pool_wf ex_pool.
Proof.
  unfold ex_pool. apply addUnchecked_wf; [apply addUnchecked_wf; [apply addUnchecked_wf; [by split|]|]|].
  - apply ex_add; done.
  - apply ex_add; try done.
    + intros n Hn. cbn. by rewrite lookup_insert_ne by done.
    + intros e'. cbn. intros [= <-]. split; [done|]. by exists (mkTxOut 5 [] 0).
  - apply ex_add; try done.
    intros n Hn. cbn. by rewrite !lookup_insert_ne by done.
Qed.


(** The conflicting transaction and the one that spends it are gone. *)
Example ex_block_conflicts :
  (λ r, (map fst (map_to_list (mapTx r.1)), map tx_hash r.2)) <$> removeForBlock ex_pool [ex_tx 4 (mkOutPoint [9] 0)] []
  = Some ([[3]], [[1]; [2]]).
Proof. vm_compute. reflexivity. Qed.

Lemma removal_takes_descendants_witness :
  ∃ m' rs, remove ex_pool (ex_tx 1 (mkOutPoint [9] 0)) [] true = Some (m', rs) ∧ pool_wf m' ∧
    [2] ∈ map tx_hash rs ∧ mapTx m' !! [2] = None.
Proof.
  destruct (removal_takes_descendants ex_pool (ex_tx 1 (mkOutPoint [9] 0)) [] ex_pool_wf) as (m' & rs & E & W & _ & Hr & Ht & _).
  - left. exists (ex_entry 1 (mkOutPoint [9] 0)). reflexivity.
  - exists m', rs. split; [exact E|]. split; [exact W|].
    assert ([2] ∈ map tx_hash rs) as H2.
    { apply Hr. split; [exists (ex_entry 2 (mkOutPoint [1] 0)); reflexivity|]. apply rtc_once.
      exists 0, (mkInPoint [2] 0). split; reflexivity. }
    split; [exact H2|]. rewrite Ht, bool_decide_true; [reflexivity|exact H2].
Defined.
