(* ===== verification/Block.v ===== *)
(** * primitives/block and the checks of a block on its own (main.cpp)

    Blocks with their wire format, the block signature, CValidationState, and
    CheckBlockHeader and CheckBlock. A header and the block index hold hashes as
    [uint256] limbs, transactions and Merkle trees as bytes. The hash of a header
    is Argon2 over its 80 bytes, an argument here, as are the check of a
    signature on the curve and the payee of a block. *)

From S2P Require Import Prelude Serialize Uint256 Chain Params Pow BlockTree.
From S2P Require Import Script Digest Hashes Interp Tx SigHash Coins CoinsView TxCheck Merkle Standard.

Local Open Scope node_scope.

(** ** The wire format *)

Definition f_uint256 : format (list Z) :=
  mkFormat to_bytes
           (λ s, let! (b, s) := read_bytes 32 s in Ok (limbs_of_bytes 8 b, s))
           (λ _, 32)
           (λ pn, length pn = 8%nat ∧ Forall (in_uw 32) pn).

Definition f_header : format CBlockHeader :=
  f_struct (f_pair (f_sint 4) (f_pair f_uint256 (f_pair f_uint256 (f_pair (f_uint 4) (f_pair (f_uint 4) (f_uint 4))))))
    (λ h, (h_nVersion h, (hashPrevBlock h, (h_hashMerkleRoot h, (h_nTime h, (h_nBits h, h_nNonce h))))))
    (λ p, mkHeader p.1 p.2.1 p.2.2.1 p.2.2.2.1 p.2.2.2.2.1 p.2.2.2.2.2).

Record CBlock := mkBlock { header : CBlockHeader; vtx : list CTransaction; vchBlockSig : list Z }.

Definition vtx_IsProofOfStake (vtx : list CTransaction) : bool :=
  match vtx with _ :: t :: _ => IsCoinStake t | _ => false end.
Definition IsProofOfStake (b : CBlock) : bool := vtx_IsProofOfStake (vtx b).
Definition IsProofOfWork (b : CBlock) : bool := negb (IsProofOfStake b).

(** The signature follows the transactions of a proof-of-stake block only. *)
Definition f_block : format CBlock :=
  mkFormat
    (λ b, ser f_header (header b) ++ ser (f_vector f_tx) (vtx b)
            ++ (if IsProofOfStake b then ser f_bytes (vchBlockSig b) else []))
    (λ s, let! (h, s) := unser f_header s in
          let! (vtx, s) := unser (f_vector f_tx) s in
          if vtx_IsProofOfStake vtx
          then let! (sig, s) := unser f_bytes s in Ok (mkBlock h vtx sig, s)
          else Ok (mkBlock h vtx [], s))
    (λ b, size_of f_header (header b) + size_of (f_vector f_tx) (vtx b)
            + (if IsProofOfStake b then size_of f_bytes (vchBlockSig b) else 0))
    (λ b, dom f_header (header b) ∧ dom (f_vector f_tx) (vtx b)
            ∧ (if IsProofOfStake b then dom f_bytes (vchBlockSig b) else vchBlockSig b = [])).

(** CBlockLocator, on the wire. *)
Definition f_locator (nVersion : Z) : format (list (list Z)) :=
  mkFormat (λ v, ser (f_sint 4) nVersion ++ ser (f_vector f_uint256) v)
           (λ s, let! (_, s) := unser (f_sint 4) s in unser (f_vector f_uint256) s)
           (λ v, 4 + size_of (f_vector f_uint256) v)
           (λ v, dom (f_vector f_uint256) v).

Definition GetProofOfStake (b : CBlock) : COutPoint * Z :=
  match vtx b with
  | _ :: t :: _ =>
      if IsCoinStake t then (match vin t with i :: _ => prevout i | [] => null_outpoint end, h_nTime (header b))
      else (null_outpoint, 0)
  | _ => (null_outpoint, 0)
  end.

(** ** CValidationState *)

Inductive mode_state := MODE_VALID | MODE_INVALID | MODE_ERROR.

#[export] Instance mode_state_eq_dec : EqDecision mode_state.
Proof. solve_decision. Defined.

Record CValidationState := mkValidation {
  mode : mode_state;
  nDoS : Z;
  strRejectReason : string;
  chRejectCode : Z;
  corruptionPossible : bool
}.

Definition new_validation : CValidationState := mkValidation MODE_VALID 0 "" 0 false.

(** [DoS], whose result is the argument [ret]. *)
Definition DoS (level : Z) (code : Z) (reason : string) (corruption : bool) (st : CValidationState) : CValidationState :=
  if bool_decide (mode st = MODE_ERROR)
  then mkValidation MODE_ERROR (nDoS st) reason code corruption
  else mkValidation MODE_INVALID (s32 (nDoS st + level)) reason code corruption.

Definition Invalid (code : Z) (reason : string) (st : CValidationState) : CValidationState := DoS 0 code reason false st.

Definition Error (reason : string) (st : CValidationState) : CValidationState :=
  mkValidation MODE_ERROR (nDoS st) (if bool_decide (mode st = MODE_VALID) then reason else strRejectReason st)
    (chRejectCode st) (corruptionPossible st).

Definition IsValid (st : CValidationState) : bool := bool_decide (mode st = MODE_VALID).
Definition IsInvalid (st : CValidationState) : bool := bool_decide (mode st = MODE_INVALID).
Definition IsError (st : CValidationState) : bool := bool_decide (mode st = MODE_ERROR).

Definition REJECT_INVALID : Z := 16.
Definition REJECT_OBSOLETE : Z := 17.
Definition REJECT_CHECKPOINT : Z := 67.

(** What CheckTransaction reports. *)
Definition tx_reject (e : tx_error) : CValidationState → CValidationState :=
  match e with
  | VinEmpty => DoS 10 REJECT_INVALID "bad-txns-vin-empty" false
  | VoutEmpty => DoS 10 REJECT_INVALID "bad-txns-vout-empty" false
  | Oversize => DoS 100 REJECT_INVALID "bad-txns-oversize" false
  | OutputEmpty => DoS 100 0 "" false
  | OutputNegative => DoS 100 REJECT_INVALID "bad-txns-vout-negative" false
  | OutputTooLarge => DoS 100 REJECT_INVALID "bad-txns-vout-toolarge" false
  | TotalTooLarge => DoS 100 REJECT_INVALID "bad-txns-txouttotal-toolarge" false
  | InputsDuplicate => DoS 100 REJECT_INVALID "bad-txns-inputs-duplicate" false
  | CoinbaseLength => DoS 100 REJECT_INVALID "bad-cb-length" false
  | PrevoutNull => DoS 10 REJECT_INVALID "bad-txns-prevout-null" false
  end.

Section checks.
Variable params : CChainParams.
(** [argon2m_hash] on the 80 bytes of a header. *)
Variable argon2m_hash : list Z → list Z.

Definition GetHash (h : CBlockHeader) : list Z := argon2m_hash (ser f_header h).

(** ** The block signature *)

Section signature.
Variable ecdsa_verify : CPubKey → hash256 → list Z → bool.

(** Both branches take the first solution for a key. [None] is undefined
    behaviour in Solver. *)
Definition CheckBlockSignature (b : CBlock) : option bool :=
  if IsProofOfWork b then Some (bool_decide (vchBlockSig b = []))
  else
    match (vtx b !! 1%nat) ≫= (λ t, vout t !! 1%nat) with
    | None => None
    | Some txout =>
        match Solver (scriptPubKey txout) with
        | None => None
        | Some (mkSolved ok whichType vSolutions) =>
            if negb ok then Some false
            else if bool_decide (whichType = TX_PUBKEY) || bool_decide (whichType = TX_PUBKEYHASH)
            then
              let pubkey := pubkey_Set (nth 0 vSolutions []) in
              if negb (pubkey_IsValid pubkey) then Some false
              else if bool_decide (vchBlockSig b = []) then Some false
              else Some (VerifySignature ecdsa_verify (vchBlockSig b) pubkey (to_bytes (GetHash (header b))))
            else Some false
        end
    end.
End signature.

(** ** CheckBlock *)

Definition CheckBlockHeader (h : CBlockHeader) (st : CValidationState) (fCheckPOW : bool) : CValidationState * bool :=
  if fCheckPOW && negb (CheckProofOfWork params (GetHash h) (h_nBits h))
  then (DoS 50 REJECT_INVALID "high-hash" false st, false)
  else (st, true).

(** [for each tx: CheckTransaction(tx, state)]. *)
Fixpoint check_transactions (txs : list CTransaction) (st : CValidationState) : CValidationState * bool :=
  match txs with
  | [] => (st, true)
  | tx :: txs =>
      match CheckTransaction params tx with
      | Ok _ => check_transactions txs st
      | Throw e => (tx_reject e st, false)
      end
  end.

Definition block_sigops (vtx : list CTransaction) : Z := foldl (λ n tx, u32 (n + GetLegacySigOpCount tx)) 0 vtx.

Definition MAX_BLOCK_SIZE_CURRENT : Z := 2000000.
Definition MAX_BLOCK_SIGOPS : Z := MAX_BLOCK_SIZE_LEGACY / 50.

Section check_block.
(** GetAdjustedTime() and GetTime(). *)
Variable adjusted_time now : Z.
Variable fInitialDownload : bool.
(** IsBlockPayeeValid; [None] where it reads a transaction out of range. *)
Variable IsBlockPayeeValid : CBlock → Z → option bool.
Variable s : ChainState.

(** The height the block would have, or 0. *)
Definition payee_height (h : CBlockHeader) : Z :=
  match Tip (chainActive s) false with
  | None => 0
  | Some pindexPrev =>
      if bool_decide (phashBlock pindexPrev = hashPrevBlock h) then nHeight pindexPrev + 1
      else match mapBlockIndex s !! hashPrevBlock h with
           | Some p => nHeight p + 1
           | None => 0
           end
  end.

(** [mapRejectedBlocks] is threaded through; [insert] keeps an older entry. *)
Definition CheckBlock (rejected : gmap (list Z) Z) (b : CBlock) (st : CValidationState)
    (fCheckPOW fCheckMerkleRoot : bool) : option (gmap (list Z) Z * CValidationState * bool) :=
  let bad st := Some (rejected, st, false) in
  let '(st, ok) := CheckBlockHeader (header b) st (fCheckPOW && IsProofOfWork b) in
  if negb ok then bad (DoS 100 REJECT_INVALID "bad-header" true st)
  else if adjusted_time + (if IsProofOfStake b then 180 else 7200) <? h_nTime (header b)
  then bad (Invalid REJECT_INVALID "time-too-new" st)
  else
    let '(hashMerkleRoot2, mutated) := BuildMerkleTree (map tx_hash (vtx b)) in
    if fCheckMerkleRoot && negb (bool_decide (to_bytes (h_hashMerkleRoot (header b)) = hashMerkleRoot2))
    then bad (DoS 100 REJECT_INVALID "bad-txnmrklroot" true st)
    else if fCheckMerkleRoot && mutated
    then bad (DoS 100 REJECT_INVALID "bad-txns-duplicate" true st)
    else if (length (vtx b) =? 0)%nat || (MAX_BLOCK_SIZE_CURRENT <? Z.of_nat (length (vtx b)))
         || (MAX_BLOCK_SIZE_CURRENT <? size_of f_block b)
    then bad (DoS 100 REJECT_INVALID "bad-blk-length" false st)
    else if negb (match vtx b with t :: _ => IsCoinBase t | [] => false end)
    then bad (DoS 100 REJECT_INVALID "bad-cb-missing" false st)
    else if existsb IsCoinBase (drop 1 (vtx b))
    then bad (DoS 100 REJECT_INVALID "bad-cb-multiple" false st)
    else if IsProofOfStake b
         && negb (match vtx b with t :: _ => match vout t with [o] => txout_IsEmpty o | _ => false end | [] => false end)
    then bad (DoS 100 0 "" false st)
    else if IsProofOfStake b && negb (match vtx b with _ :: t :: _ => IsCoinStake t | _ => false end)
    then bad (DoS 100 0 "" false st)
    else if IsProofOfStake b && existsb IsCoinStake (drop 2 (vtx b))
    then bad (DoS 100 0 "" false st)
    else
      let nHeight := payee_height (header b) in
      match (if negb (nHeight =? 0) && negb fInitialDownload then IsBlockPayeeValid b nHeight else Some true) with
      | None => None
      | Some false =>
          let hash := GetHash (header b) in
          Some (if rejected !! hash is Some _ then rejected else <[hash := now]> rejected,
                DoS 0 REJECT_INVALID "bad-cb-payee" false st, false)
      | Some true =>
          let '(st, ok) := check_transactions (vtx b) st in
          if negb ok then bad st
          else if MAX_BLOCK_SIGOPS <? block_sigops (vtx b)
          then bad (DoS 100 REJECT_INVALID "bad-blk-sigops" true st)
          else Some (rejected, st, true)
      end.
End check_block.
End checks.

(** ** The wire format *)

#[local] Opaque Hash Hash2 Hash160.

Lemma to_bytes_of_limbs n b :
  length b = (4 * n)%nat → Forall is_byte b →
  to_bytes (limbs_of_bytes n b) = b ∧ length (limbs_of_bytes n b) = n ∧ Forall (in_uw 32) (limbs_of_bytes n b).
Proof.
  revert b. induction n as [|n IH]; intros b Hl Hb; cbn [limbs_of_bytes].
  { destruct b; [|done]. split_and!; [done|done|constructor]. }
  destruct (IH (drop 4 b)) as (E & El & Hf); [rewrite length_drop; lia|by apply Forall_drop|].
  assert (length (take 4 b) = 4%nat) as H4 by (rewrite length_take; lia).
  split_and!; [|by rewrite <- El at 2|].
  - change (to_bytes (le_val (take 4 b) :: limbs_of_bytes n (drop 4 b)))
      with (le_bytes 4 (le_val (take 4 b)) ++ to_bytes (limbs_of_bytes n (drop 4 b))).
    rewrite E. rewrite <- H4 at 1. rewrite le_bytes_le_val by (by apply Forall_take). apply take_drop.
  - constructor; [|done]. pose proof (le_val_range (take 4 b) ltac:(by apply Forall_take)) as H. rewrite H4 in H. exact H.
Qed.

#[export] Instance f_uint256_ok : FormatOk f_uint256.
Proof.
  split; cbn [f_uint256 unser ser size_of dom]; intros x.
  - intros rest [Hl Hx]. rewrite read_bytes_app by (rewrite length_to_bytes, Hl; done). cbn [rbind].
    rewrite <- Hl. by rewrite limbs_of_to_bytes.
  - intros [Hl Hx]. by rewrite length_to_bytes, Hl.
  - intros _. apply to_bytes_byte.
Qed.

#[export] Instance f_uint256_canonical : FormatCanonical f_uint256.
Proof.
  intros s x rest Hs H. cbn [f_uint256 unser] in H.
  apply rbind_Ok in H as ([b r] & [-> Hl]%read_bytes_inv & E).
  apply Forall_app in Hs as [Hb _]. destruct (to_bytes_of_limbs 8 b Hl Hb) as (Eb & El & Hf).
  set (l := limbs_of_bytes 8 b) in *. clearbody l. injection E as <- <-.
  cbn [ser dom f_uint256]. by rewrite Eb.
Qed.

#[export] Instance f_header_ok : FormatOk f_header := _.
#[export] Instance f_header_canonical : FormatCanonical f_header.
Proof. apply f_struct_canonical; [apply _|by intros [? [? [? [? [? ?]]]]]]. Qed.

#[local] Opaque f_header f_tx f_bytes.

#[export] Instance f_block_ok : FormatOk f_block.
Proof.
  split; cbn [f_block unser ser size_of dom]; intros [h txs sig] *; unfold IsProofOfStake; cbn [header vtx vchBlockSig].
  - intros (Hh & Hv & Hs). rewrite <- app_assoc, fmt_roundtrip by done. cbn [rbind].
    rewrite <- app_assoc, (fmt_roundtrip (f := f_vector f_tx)) by done. cbn [rbind].
    destruct (vtx_IsProofOfStake txs); [rewrite fmt_roundtrip by done; done|by rewrite Hs].
  - intros (Hh & Hv & Hs). rewrite (fmt_size _ Hh), (fmt_size _ Hv), !length_app.
    destruct (vtx_IsProofOfStake txs); [rewrite (fmt_size _ Hs)|cbn [length]]; lia.
  - intros (Hh & Hv & Hs). rewrite !Forall_app. split_and!; [by apply fmt_bytes..|].
    destruct (vtx_IsProofOfStake txs); [by apply fmt_bytes|constructor].
Qed.

#[export] Instance f_block_canonical : FormatCanonical f_block.
Proof.
  intros s [h txs sig] rest Hs H. cbn [f_block unser ser dom] in *. unfold IsProofOfStake. cbn [header vtx vchBlockSig].
  apply rbind_Ok in H as ([h' s1] & [-> Hh]%fmt_canonical & H); [|done]. apply Forall_app in Hs as [_ Hs].
  apply rbind_Ok in H as ([v' s2] & [-> Hv]%fmt_canonical & H); [|done]. apply Forall_app in Hs as [_ Hs].
  destruct (vtx_IsProofOfStake v') eqn:E.
  - apply rbind_Ok in H as ([g s3] & [-> Hg]%fmt_canonical & [= <- <- <- <-]); [|done].
    rewrite E, <- !app_assoc. done.
  - injection H as <- <- <- <-. rewrite E, app_nil_r, <- app_assoc. done.
Qed.

#[export] Instance f_locator_ok v : in_sw 32 v → FormatOk (f_locator v).
Proof.
  intros Hv. assert (dom (f_sint 4) v) as Hd by exact Hv.
  split; cbn [f_locator unser ser size_of dom]; intros x.
  - intros rest Hx. rewrite <- app_assoc, fmt_roundtrip by done. cbn [rbind]. by apply fmt_roundtrip.
  - intros Hx. rewrite (fmt_size _ Hx), length_app, <- (Nat2Z.id (length (ser (f_sint 4) v))).
    rewrite <- (fmt_size _ Hd). cbn. lia.
  - intros Hx. apply Forall_app. split; by apply fmt_bytes.
Qed.

#[local] Transparent f_header.
Lemma length_header h : dom f_header h → length (ser f_header h) = 80%nat.
Proof. intros H. apply Nat2Z.inj. rewrite <- (fmt_size _ H). done. Qed.
#[local] Opaque f_header.

(** The wire format of blocks is canonical: a block within the size limits
    reads back from its bytes, whether it carries a signature or not; whatever
    bytes are read as a block are the bytes that block is written as, so the
    bytes cannot be changed without changing the block; GetSerializeSize is their
    number; a block of proof of work that was read has no signature; and the
    hash is taken over exactly 80 bytes. *)
Theorem block_wire_format_is_canonical s b rest :
  Forall is_byte s →
  (dom f_block b → unser f_block (ser f_block b ++ rest) = Ok (b, rest)) ∧
  (unser f_block s = Ok (b, rest) →
   s = ser f_block b ++ rest ∧ dom f_block b ∧ size_of f_block b = Z.of_nat (length (ser f_block b)) ∧
   length (ser f_header (header b)) = 80%nat ∧ (IsProofOfWork b = true → vchBlockSig b = [])).
Proof.
  intros Hs. split; [apply fmt_roundtrip|].
  intros H. destruct (fmt_canonical _ _ _ Hs H) as [E D]. pose proof D as (Dh & _ & Dsig).
  split_and!; [done|done|by apply fmt_size|by apply length_header|].
  unfold IsProofOfWork. intros Hw. by destruct (IsProofOfStake b).
Qed.

(** ** The block signature *)

Lemma short_key_invalid k : length k = 20%nat → pubkey_Set k = [].
Proof.
  intros Hl. unfold pubkey_Set. destruct k as [|b k]; [done|]. rewrite Hl. unfold GetLen.
  by destruct ((b =? 2) || (b =? 3)), ((b =? 4) || (b =? 6) || (b =? 7)).
Qed.

Lemma standard_pubkey_hash_length s t sols : standard_form s t sols → t = TX_PUBKEYHASH → ∃ h, sols = [h] ∧ length h = 20%nat.
Proof. destruct 1; try done. intros _. by eexists. Qed.

Lemma standard_pubkey_sole s t sols : standard_form s t sols → t = TX_PUBKEY → ∃ k, sols = [k].
Proof. destruct 1; try done. intros _. by eexists. Qed.

Section block_signature.
Variable argon2m_hash : list Z → list Z.
Variable ecdsa_verify : CPubKey → hash256 → list Z → bool.

(** The output of the coinstake that carries the key. *)
Definition stake_output (b : CBlock) : option CTxOut := (vtx b !! 1%nat) ≫= (λ t, vout t !! 1%nat).

Lemma stake_output_there b : IsProofOfStake b = true → ∃ o, stake_output b = Some o.
Proof.
  unfold IsProofOfStake, stake_output. destruct (vtx b) as [|t0 [|t r]]; [done..|]. cbn.
  unfold IsCoinStake. destruct (vin t) as [|i l]; [done|]. destruct (vout t) as [|o [|o' l']]; [done..|]. intros _. by exists o'.
Qed.

(** C36: A block signature is accepted exactly if the block is of proof of work
    and has none, or it is of proof of stake, the second output of its coinstake
    pays to a public key that is valid, and the signature is not empty and signs
    the hash of the header under that key. In particular a coinstake that pays
    to the hash of a key is always refused: the hash is taken for a key, and 20
    bytes are never one. *)
Theorem block_signature_accepts b :
  (CheckBlockSignature argon2m_hash ecdsa_verify b = Some true ↔
     (IsProofOfStake b = false ∧ vchBlockSig b = []) ∨
     (IsProofOfStake b = true ∧ ∃ o key, stake_output b = Some o ∧
        standard_form (scriptPubKey o) TX_PUBKEY [key] ∧ pubkey_Set key <> [] ∧ vchBlockSig b <> [] ∧
        ecdsa_verify (pubkey_Set key) (to_bytes (GetHash argon2m_hash (header b))) (vchBlockSig b) = true)) ∧
  (∀ o h, IsProofOfStake b = true → stake_output b = Some o → standard_form (scriptPubKey o) TX_PUBKEYHASH [h] →
     CheckBlockSignature argon2m_hash ecdsa_verify b = Some false).
Proof.
  assert (∀ k, pubkey_IsValid k = true ↔ k <> []) as Hvalid by (intros [|z k]; cbn; split; try done; intros; lia).
  unfold CheckBlockSignature, IsProofOfWork. split.
  - destruct (IsProofOfStake b) eqn:Epos; cbn [negb].
    2: { split; [intros [= H%bool_decide_eq_true]; by left|]. intros [[_ ->]|[? _]]; [by rewrite bool_decide_true|done]. }
    destruct (stake_output_there b Epos) as (o & Eo). unfold stake_output in Eo. rewrite Eo. split.
    + intros H. right. split; [done|]. exists o.
      destruct (Solver (scriptPubKey o)) as [[ok t sols]|] eqn:Es; [|done]. destruct ok; cbn [negb] in H; [|done].
      apply Solver_sound in Es. case_bool_decide as Hp; cbn [orb] in H.
      * destruct (standard_pubkey_sole _ _ _ Es Hp) as (k & ->). cbn [nth] in H. exists k. subst t.
        destruct (pubkey_IsValid (pubkey_Set k)) eqn:Ek; [|done]. cbn [negb] in H.
        case_bool_decide as Hs; [done|]. unfold VerifySignature in H. rewrite Ek in H. cbn [negb] in H.
        injection H as H. split_and!; [done|done|by apply Hvalid|done|done].
      * case_bool_decide as Hh; [|done]. destruct (standard_pubkey_hash_length _ _ _ Es Hh) as (k & -> & Hl).
        cbn [nth] in H. by rewrite (short_key_invalid k Hl) in H.
    + intros [[? _]|(_ & o' & k & Eo' & Hf & Hk & Hs & Hv)]; [done|].
      unfold stake_output in Eo'. rewrite Eo in Eo'. injection Eo' as <-.
      rewrite (Solver_complete _ _ _ Hf). cbn [negb nth]. rewrite bool_decide_true by done. cbn [orb].
      rewrite (proj2 (Hvalid _) Hk). cbn [negb]. rewrite bool_decide_false by done.
      unfold VerifySignature. by rewrite (proj2 (Hvalid _) Hk), Hv.
  - intros o h -> Eo Hf. cbn [negb]. unfold stake_output in Eo. rewrite Eo, (Solver_complete _ _ _ Hf). cbn [negb nth].
    rewrite (bool_decide_true (TX_PUBKEYHASH = TX_PUBKEYHASH)) by done. rewrite orb_true_r.
    destruct (standard_pubkey_hash_length _ _ _ Hf eq_refl) as (h' & [= <-] & Hl). by rewrite (short_key_invalid h Hl).
Qed.
End block_signature.

(** ** CheckBlock *)

Section check_block_rules.
Variable params : CChainParams.
Hypothesis Hmax : 0 <= nMaxMoneyOut params < 2 ^ 62.
Variable argon2m_hash : list Z → list Z.
Variable adjusted_time now : Z.
Variable fInitialDownload : bool.
Variable IsBlockPayeeValid : CBlock → Z → option bool.
Variable s : ChainState.

Definition txids (b : CBlock) : list hash256 := map tx_hash (vtx b).

(** The work of the header. *)
Definition header_rule (b : CBlock) : Prop :=
  IsProofOfStake b = false → CheckProofOfWork params (GetHash argon2m_hash (header b)) (h_nBits (header b)) = true.
Definition time_rule (b : CBlock) : Prop :=
  h_nTime (header b) <= adjusted_time + (if IsProofOfStake b then 180 else 7200).
(** The header commits to the transactions. *)
Definition merkle_rule (b : CBlock) : Prop :=
  BuildMerkleTree (txids b) = (to_bytes (h_hashMerkleRoot (header b)), false).
(** The size, and where coinbases and coinstakes are. *)
Definition shape_rule (b : CBlock) : Prop :=
  Z.of_nat (length (vtx b)) <= MAX_BLOCK_SIZE_CURRENT ∧ size_of f_block b <= MAX_BLOCK_SIZE_CURRENT ∧
  ∃ cb rest, vtx b = cb :: rest ∧ IsCoinBase cb = true ∧ Forall (λ t, IsCoinBase t = false) rest ∧
    (IsProofOfStake b = true →
       (∃ o, vout cb = [o] ∧ txout_IsEmpty o = true) ∧ Forall (λ t, IsCoinStake t = false) (drop 1 rest)).
Definition payee_known (b : CBlock) : option bool :=
  if negb (payee_height s (header b) =? 0) && negb fInitialDownload
  then IsBlockPayeeValid b (payee_height s (header b)) else Some true.
Definition txs_rule (b : CBlock) : Prop := Forall (tx_accepted params) (vtx b).
Definition sigops_rule (b : CBlock) : Prop := block_sigops (vtx b) <= MAX_BLOCK_SIGOPS.

Abbreviation check := (CheckBlock params argon2m_hash adjusted_time now fInitialDownload IsBlockPayeeValid s).

Lemma existsb_Forall {A} (f : A → bool) l : existsb f l = false ↔ Forall (λ x, f x = false) l.
Proof.
  induction l as [|x l IH]; cbn; [by split; [constructor|]|]. by rewrite orb_false_iff, IH, Forall_cons.
Qed.

Lemma tx_reject_mode e st : mode (tx_reject e st) <> MODE_VALID ∧ corruptionPossible (tx_reject e st) = false.
Proof. destruct e; cbn; unfold DoS; case_bool_decide; done. Qed.

Lemma check_transactions_spec txs st :
  (check_transactions params txs st = (st, true) ∧ Forall (tx_accepted params) txs) ∨
  (∃ e, check_transactions params txs st = (tx_reject e st, false) ∧ ¬ Forall (tx_accepted params) txs).
Proof.
  induction txs as [|tx txs IH]; cbn [check_transactions]; [left; split; [done|constructor]|].
  destruct (CheckTransaction params tx) as [[]|e] eqn:E.
  - apply (CheckTransaction_ok params Hmax) in E. destruct IH as [[-> H]|(e & -> & H)]; [left|right; exists e];
      (split; [done|]); [by constructor|]. intros [_ ?]%Forall_cons. tauto.
  - right. exists e. split; [done|]. intros [H _]%Forall_cons.
    apply (CheckTransaction_ok params Hmax) in H. congruence.
Qed.

Lemma header_check b st :
  (CheckBlockHeader params argon2m_hash (header b) st (true && IsProofOfWork b) = (st, true) ∧ header_rule b) ∨
  (CheckBlockHeader params argon2m_hash (header b) st (true && IsProofOfWork b)
     = (DoS 50 REJECT_INVALID "high-hash" false st, false) ∧ ¬ header_rule b).
Proof.
  unfold CheckBlockHeader, header_rule, IsProofOfWork. destruct (IsProofOfStake b); cbn; [by left|].
  destruct (CheckProofOfWork _ _ _); cbn; [by left|right; split; [done|]; intros H; by specialize (H eq_refl)].
Qed.

(** The tests between the Merkle root and the payee. *)
Definition shape_ok (b : CBlock) : bool :=
  negb ((length (vtx b) =? 0)%nat || (MAX_BLOCK_SIZE_CURRENT <? Z.of_nat (length (vtx b)))
        || (MAX_BLOCK_SIZE_CURRENT <? size_of f_block b))
  && match vtx b with t :: _ => IsCoinBase t | [] => false end
  && negb (existsb IsCoinBase (drop 1 (vtx b)))
  && negb (IsProofOfStake b
           && negb (match vtx b with t :: _ => match vout t with [o] => txout_IsEmpty o | _ => false end | [] => false end))
  && negb (IsProofOfStake b && existsb IsCoinStake (drop 2 (vtx b))).

#[local] Opaque f_block IsCoinBase IsCoinStake txout_IsEmpty.

Lemma shape_ok_spec b : shape_ok b = true ↔ shape_rule b.
Proof.
  unfold shape_ok, shape_rule. destruct (vtx b) as [|cb rest].
  { cbn. split; [done|]. by intros (_ & _ & ? & ? & ? & _). }
  cbn [length Nat.eqb drop]. rewrite !andb_true_iff, !negb_true_iff, !orb_false_iff, !Z.ltb_ge, existsb_Forall. split.
  - intros [[[[[[_ ?] ?] ?] ?] Ho] Hf]. split_and!; [done..|]. exists cb, rest. split_and!; [done..|].
    intros Hp. rewrite Hp in Ho, Hf. cbn [andb] in Ho, Hf. rewrite negb_false_iff in Ho.
    destruct (vout cb) as [|o [|]]; [done| |done]. split; [by exists o|]. by apply existsb_Forall.
  - intros (? & ? & cb' & rest' & [= <- <-] & ? & ? & H). split_and!; try done.
    + destruct (IsProofOfStake b); [|done]. destruct (H eq_refl) as [(o & -> & ->) _]. done.
    + destruct (IsProofOfStake b); [|done]. destruct (H eq_refl) as [_ Hf]. by apply existsb_Forall in Hf.
Qed.

(** A rejection, with the corruption flag. *)
Definition refused (r : option (gmap (list Z) Z * CValidationState * bool)) (rejected' : gmap (list Z) Z) (corrupt : bool) : Prop :=
  ∃ st, r = Some (rejected', st, false) ∧ mode st = MODE_INVALID ∧ corruptionPossible st = corrupt.

(** CheckBlock stops at the first rule that fails, in this order. *)
Inductive verdict (rejected : gmap (list Z) Z) (b : CBlock) (r : option (gmap (list Z) Z * CValidationState * bool)) : Prop :=
| bad_header : ¬ header_rule b → refused r rejected true → verdict rejected b r
| bad_time : header_rule b → ¬ time_rule b → refused r rejected false → verdict rejected b r
| bad_merkle : header_rule b → time_rule b → ¬ merkle_rule b → refused r rejected true → verdict rejected b r
| bad_shape : header_rule b → time_rule b → merkle_rule b → ¬ shape_rule b → refused r rejected false → verdict rejected b r
| bad_payee : header_rule b → time_rule b → merkle_rule b → shape_rule b → payee_known b = Some false →
    (∃ rejected', refused r rejected' false) → verdict rejected b r
| no_payee : header_rule b → time_rule b → merkle_rule b → shape_rule b → payee_known b = None → r = None → verdict rejected b r
| bad_txs : header_rule b → time_rule b → merkle_rule b → shape_rule b → payee_known b = Some true →
    ¬ txs_rule b → refused r rejected false → verdict rejected b r
| bad_sigops : header_rule b → time_rule b → merkle_rule b → shape_rule b → payee_known b = Some true →
    txs_rule b → ¬ sigops_rule b → refused r rejected true → verdict rejected b r
| all_good : header_rule b → time_rule b → merkle_rule b → shape_rule b → payee_known b = Some true →
    txs_rule b → sigops_rule b → r = Some (rejected, new_validation, true) → verdict rejected b r.

Ltac next_test E := match goal with |- verdict _ _ (if ?c then _ else _) => destruct c eqn:E end.

Lemma check_block_verdict rejected b : verdict rejected b (check rejected b new_validation true true).
Proof.
  unfold CheckBlock. destruct (header_check b new_validation) as [[-> Hh]|[-> Hh]]; cbn [negb].
  2: { apply bad_header; [done|]. eexists. done. }
  destruct (Z.ltb_spec (adjusted_time + (if IsProofOfStake b then 180 else 7200)) (h_nTime (header b))) as [Ht|Ht].
  { apply bad_time; [done|unfold time_rule; lia|eexists; done]. }
  destruct (BuildMerkleTree (map tx_hash (vtx b))) as [root mutated] eqn:Em.
  destruct (decide (merkle_rule b)) as [Hm|Hm].
  2: { apply bad_merkle; [done..|]. unfold merkle_rule, txids in Hm. rewrite Em in Hm. case_bool_decide as Hr; cbn [negb andb].
       - destruct mutated; [eexists; done|]. by rewrite Hr in Hm.
       - eexists. done. }
  pose proof Hm as Hm'. unfold merkle_rule, txids in Hm'. rewrite Em in Hm'. injection Hm' as -> ->.
  rewrite bool_decide_true by done. cbn [negb andb].
  assert (∀ st, mode st = MODE_INVALID → corruptionPossible st = false → shape_ok b = false →
            verdict rejected b (Some (rejected, st, false))) as Hbad.
  { intros st ? ? Hs. apply bad_shape; [done..| |by exists st]. by rewrite <- shape_ok_spec, Hs. }
  next_test E1; [apply Hbad; [done..|]; unfold shape_ok; by rewrite E1|].
  next_test E2; [apply Hbad; [done..|]; unfold shape_ok; apply negb_true_iff in E2; by rewrite E1, E2|].
  next_test E3;
    [apply Hbad; [done..|]; unfold shape_ok; apply negb_false_iff in E2; by rewrite E1, E2, E3|].
  next_test E4;
    [apply Hbad; [done..|]; unfold shape_ok; apply negb_false_iff in E2; by rewrite E1, E2, E3, E4|].
  next_test E5.
  { exfalso. unfold IsProofOfStake, vtx_IsProofOfStake in E5. destruct (vtx b) as [|? [|t ?]]; [done..|].
    by destruct (IsCoinStake t). }
  next_test E6;
    [apply Hbad; [done..|]; unfold shape_ok; apply negb_false_iff in E2; by rewrite E1, E2, E3, E4, E6|].
  assert (shape_rule b) as Hs.
  { apply shape_ok_spec. unfold shape_ok. apply negb_false_iff in E2. by rewrite E1, E2, E3, E4, E6. }
  clear Hbad E1 E2 E3 E4 E5 E6. fold (payee_known b). destruct (payee_known b) as [[|]|] eqn:Ep.
  - destruct (check_transactions_spec (vtx b) new_validation) as [[-> Hx]|(e & -> & Hx)]; cbn [negb].
    + destruct (Z.ltb_spec MAX_BLOCK_SIGOPS (block_sigops (vtx b))) as [Hg|Hg].
      * apply bad_sigops; [done..|unfold sigops_rule; lia|eexists; done].
      * by apply all_good.
    + apply bad_txs; [done..|]. destruct (tx_reject_mode e new_validation) as [H1 H2]. exists (tx_reject e new_validation).
      split_and!; [done| |done]. by destruct e.
  - apply bad_payee; [done..|]. by do 2 eexists.
  - by apply no_payee.
Qed.
End check_block_rules.

(** C18: CheckBlock on a fresh state returns true exactly for the blocks whose
    header has the claimed work, that are not too far in the future, whose header
    commits to the transactions without the known mutation, that have the right
    size and one coinbase at the start, with an empty output and one coinstake
    next if of proof of stake, that pay who they must, whose transactions are
    well formed, and that have at most 20000 signature operations; it then leaves
    the state and mapRejectedBlocks alone. Otherwise the state is invalid, and
    it is flagged as possibly corrupted exactly if the work or the commitment is
    at fault, or the signature operations alone; mapRejectedBlocks changes only
    for a wrong payee. It reads out of range only if IsBlockPayeeValid does. *)
Theorem check_block_accepts params argon2m_hash adjusted_time now fIBD payee s rejected b :
  0 <= nMaxMoneyOut params < 2 ^ 62 →
  let r := CheckBlock params argon2m_hash adjusted_time now fIBD payee s rejected b new_validation true true in
  let outer := time_rule adjusted_time b ∧ merkle_rule b ∧ shape_rule b in
  (r = Some (rejected, new_validation, true) ↔
     header_rule params argon2m_hash b ∧ outer ∧ payee_known fIBD payee s b = Some true ∧ txs_rule params b ∧ sigops_rule b) ∧
  (∀ r' st, r = Some (r', st, true) → r' = rejected ∧ st = new_validation) ∧
  (∀ r' st, r = Some (r', st, false) →
     mode st = MODE_INVALID ∧
     (corruptionPossible st = true ↔
        ¬ header_rule params argon2m_hash b ∨ (time_rule adjusted_time b ∧ ¬ merkle_rule b) ∨
        (outer ∧ payee_known fIBD payee s b = Some true ∧ txs_rule params b ∧ ¬ sigops_rule b)) ∧
     (r' <> rejected → payee_known fIBD payee s b = Some false)) ∧
  (r = None ↔ header_rule params argon2m_hash b ∧ outer ∧ payee_known fIBD payee s b = None).
Proof.
  intros Hmax. cbn zeta. set (r := CheckBlock _ _ _ _ _ _ _ _ _ _ _ _).
  pose proof (check_block_verdict params Hmax argon2m_hash adjusted_time now fIBD payee s rejected b) as V. fold r in V.
  destruct V as [H1 (st & -> & Hm & Hc)|H1 H2 (st & -> & Hm & Hc)|H1 H2 H3 (st & -> & Hm & Hc)
    |H1 H2 H3 H4 (st & -> & Hm & Hc)|H1 H2 H3 H4 H5 (r' & st & -> & Hm & Hc)|H1 H2 H3 H4 H5 ->
    |H1 H2 H3 H4 H5 H6 (st & -> & Hm & Hc)|H1 H2 H3 H4 H5 H6 H7 (st & -> & Hm & Hc)|H1 H2 H3 H4 H5 H6 H7 ->];
    (split; [|split; [|split]]).
  all: try (intros ? ? E; try discriminate E; injection E as <- <-; done).
  all: try (split; [intros E; (discriminate E || tauto)|intros E; exfalso; intuition congruence]).
  all: try (split; [tauto|done]).
  all: intros ? ? E; try discriminate E; injection E as <- <-; rewrite ?Hc;
       (split; [done|split; [intuition congruence|intuition congruence]]).
Qed.

(** The header commits to the block: two blocks with the same header that
    CheckBlock accepts, at whatever times and on whatever chains, have the same
    transactions, unless two pairs hashed in their Merkle trees collide or a
    transaction has the hash of an inner node. *)
Theorem header_commits_to_transactions params argon2m_hash t1 n1 i1 payee1 s1 r1 b1 t2 n2 i2 payee2 s2 r2 b2 st1 st2 :
  0 <= nMaxMoneyOut params < 2 ^ 62 →
  CheckBlock params argon2m_hash t1 n1 i1 payee1 s1 r1 b1 new_validation true true = Some (r1, st1, true) →
  CheckBlock params argon2m_hash t2 n2 i2 payee2 s2 r2 b2 new_validation true true = Some (r2, st2, true) →
  header b1 = header b2 →
  no_collision (block_pairs (txids b1) ++ block_pairs (txids b2)) →
  (∀ x p, x ∈ txids b1 ++ txids b2 → p ∈ block_pairs (txids b1) ++ block_pairs (txids b2) → x <> Hash2 p.1 p.2) →
  txids b1 = txids b2.
Proof.
  intros Hmax E1 E2 Hh Hps Hleaf.
  assert (∀ t n i payee s r b st,
    CheckBlock params argon2m_hash t n i payee s r b new_validation true true = Some (r, st, true) →
    merkle_rule b ∧ txids b <> []) as Hacc.
  { intros t n i payee s r b st E.
    destruct (check_block_verdict params Hmax argon2m_hash t n i payee s r b) as
      [_ (? & ? & _)|_ _ (? & ? & _)|_ _ _ (? & ? & _)|_ _ _ _ (? & ? & _)|_ _ _ _ _ (? & ? & ? & _)|_ _ _ _ _ ?
      |_ _ _ _ _ _ (? & ? & _)|_ _ _ _ _ _ _ (? & ? & _)|_ _ ? (_ & _ & cb & rest & Ev & _) _ _ _ _]; try congruence.
    split; [done|]. unfold txids. by rewrite Ev. }
  destruct (Hacc _ _ _ _ _ _ _ _ E1) as [M1 N1], (Hacc _ _ _ _ _ _ _ _ E2) as [M2 N2].
  unfold merkle_rule in M1, M2. rewrite Hh in M1. apply root_determines_txids; try done; by rewrite ?M1, ?M2.
Qed.

#[local] Transparent Hash Hash2 Hash160 f_block f_header f_tx f_bytes IsCoinBase IsCoinStake txout_IsEmpty.

(** ** Concrete blocks *)

Definition ex_coinbase (k : Z) : CTransaction :=
  of_mutable (mkMutable 1 [new_txin (mkOutPoint null_hash 4294967295) [1; k] 4294967295] [new_txout 50 [OP_DUP]] 0).

Definition ex_block (k : Z) : CBlock :=
  mkBlock (mkHeader 3 (uint256 100) (limbs_of_bytes 8 (tx_hash (ex_coinbase k))) 1000 545259519 0) [ex_coinbase k] [].

Definition ex_argon (bytes : list Z) : list Z := uint256 1.
Definition ex_check (b : CBlock) : option (gmap (list Z) Z * CValidationState * bool) :=
  CheckBlock CRegTestParams ex_argon 1000 1000 false (λ _ _, Some true) ex_base ∅ b new_validation true true.

(** One of proof of stake: the second output of the coinstake is [script]. *)
Definition ex_stake_block (script sig : list Z) : CBlock :=
  mkBlock (mkHeader 3 (uint256 100) (uint256 0) 1000 545259519 0)
    [ex_coinbase 7;
     of_mutable (mkMutable 1 [new_txin (mkOutPoint (replicate 32 9) 0) [] 4294967295]
                   [new_txout 0 []; new_txout 60 script] 0)] sig.

Definition ex_pubkey : CPubKey := 2 :: replicate 32 5.

Example ex_check_runs :
  ex_check (ex_block 7) = Some (∅, new_validation, true) ∧
  ex_check (mkBlock (header (ex_block 7)) [ex_coinbase 8] [])
    = Some (∅, mkValidation MODE_INVALID 100 "bad-txnmrklroot" REJECT_INVALID true, false) ∧
  ex_check (mkBlock (header (ex_block 7)) [] [])
    = Some (∅, mkValidation MODE_INVALID 100 "bad-txnmrklroot" REJECT_INVALID true, false).
Proof. vm_compute. split_and!; reflexivity. Qed.

Lemma bytes_bool l : forallb (λ x, (0 <=? x) && (x <? 256)) l = true → Forall is_byte l.
Proof.
  rewrite forallb_forall, Forall_forall. intros H x Hx%list_elem_of_In%H. unfold is_byte. lia.
Qed.

Definition ex_signed : CBlock := ex_stake_block [OP_DUP] [1; 2; 3].

Lemma block_wire_format_is_canonical_witness :
  dom f_block ex_signed ∧ unser f_block (ser f_block ex_signed ++ [7]) = Ok (ex_signed, [7]) ∧
  size_of f_block ex_signed = Z.of_nat (length (ser f_block ex_signed)).
Proof.
  assert (Forall is_byte (ser f_block ex_signed)) as Hb by (apply bytes_bool; vm_compute; reflexivity).
  destruct (block_wire_format_is_canonical _ ex_signed [] Hb) as [_ H].
  destruct H as (_ & Hd & Hs & _); [vm_compute; reflexivity|]. split; [exact Hd|]. split; [|exact Hs].
  destruct (block_wire_format_is_canonical _ ex_signed [7] Hb) as [H _]. exact (H Hd).
Defined.

Lemma check_block_accepts_witness :
  txs_rule CRegTestParams (ex_block 7) ∧ sigops_rule (ex_block 7) ∧
  (∃ st, ex_check (mkBlock (header (ex_block 7)) [ex_coinbase 8] []) = Some (∅, st, false) ∧ corruptionPossible st = true).
Proof.
  assert (0 <= nMaxMoneyOut CRegTestParams < 2 ^ 62) as Hmax by (split; [discriminate|reflexivity]).
  destruct (check_block_accepts CRegTestParams ex_argon 1000 1000 false (λ _ _, Some true) ex_base ∅ (ex_block 7) Hmax)
    as [[H _] _].
  destruct H as (_ & _ & _ & Ht & Hs); [vm_compute; reflexivity|]. split; [exact Ht|]. split; [exact Hs|].
  eexists. split; vm_compute; reflexivity.
Defined.

Lemma header_commits_to_transactions_witness : txids (ex_block 7) = txids (mkBlock (header (ex_block 7)) [ex_coinbase 7] [1]).
Proof.
  apply (header_commits_to_transactions CRegTestParams ex_argon 1000 1000 false (λ _ _, Some true) ex_base ∅ (ex_block 7)
           2000 2000 true (λ _ _, Some false) initial ∅ (mkBlock (header (ex_block 7)) [ex_coinbase 7] [1])
           new_validation new_validation).
  - split; [discriminate|reflexivity].
  - vm_compute. reflexivity.
  - vm_compute. reflexivity.
  - reflexivity.
  - apply no_collisionb_spec. vm_compute. reflexivity.
  - assert (block_pairs (txids (ex_block 7)) ++ block_pairs (txids (mkBlock (header (ex_block 7)) [ex_coinbase 7] [1])) = []) as ->
      by (vm_compute; reflexivity).
    intros x p _ Hp. by apply elem_of_nil in Hp.
Defined.

(** Paying the staked output to a key hash, as wallets do, gives a block no
    signature can make valid. *)
Example key_hash_stake_is_refused :
  CheckBlockSignature ex_argon (λ _ _ _, true)
    (ex_stake_block ([OP_DUP; OP_HASH160; 20] ++ replicate 20 5 ++ [OP_EQUALVERIFY; OP_CHECKSIG]) [1; 2; 3]) = Some false ∧
  CheckBlockSignature ex_argon (λ _ _ _, true)
    (ex_stake_block (33 :: ex_pubkey ++ [OP_CHECKSIG]) [1; 2; 3]) = Some true.
Proof. vm_compute. split; reflexivity. Qed.
