(* ===== verification/BlockFiles.v ===== *)
(** * main.cpp: where blocks and undo data go on disk

    CBlockFileInfo, FindBlockPos and FindUndoPos. Opening the files and reserving
    space in them ahead of time are I/O; whether there is space on the disk is an
    argument, asked with the number of bytes. *)

From stdpp Require Import sorting.
From S2P Require Import Prelude Serialize Chain BlockTree.

Local Open Scope node_scope.

Definition MAX_BLOCKFILE_SIZE : Z := 0x8000000.
Definition BLOCKFILE_CHUNK_SIZE : Z := 0x1000000.
Definition UNDOFILE_CHUNK_SIZE : Z := 0x100000.

Record CBlockFileInfo := mkFileInfo {
  nBlocks : Z; nSize : Z; nUndoSize : Z; nHeightFirst : Z; nHeightLast : Z; nTimeFirst : Z; nTimeLast : Z
}.

Definition null_file : CBlockFileInfo := mkFileInfo 0 0 0 0 0 0 0.

Definition f_file_info : format CBlockFileInfo :=
  f_struct
    (f_pair (f_varint 32) (f_pair (f_varint 32) (f_pair (f_varint 32) (f_pair (f_varint 32) (f_pair (f_varint 32)
       (f_pair (f_varint 64) (f_varint 64)))))))
    (λ i, (nBlocks i, (nSize i, (nUndoSize i, (nHeightFirst i, (nHeightLast i, (nTimeFirst i, nTimeLast i)))))))
    (λ p, mkFileInfo p.1 p.2.1 p.2.2.1 p.2.2.2.1 p.2.2.2.2.1 p.2.2.2.2.2.1 p.2.2.2.2.2.2).

(** [AddBlock], which leaves the size alone. *)
Definition AddBlock (i : CBlockFileInfo) (nHeightIn nTimeIn : Z) : CBlockFileInfo :=
  mkFileInfo (u32 (nBlocks i + 1)) (nSize i) (nUndoSize i)
    (if (nBlocks i =? 0) || (nHeightIn <? nHeightFirst i) then nHeightIn else nHeightFirst i)
    (if nHeightLast i <? nHeightIn then nHeightIn else nHeightLast i)
    (if (nBlocks i =? 0) || (nTimeIn <? nTimeFirst i) then nTimeIn else nTimeFirst i)
    (if nTimeLast i <? nTimeIn then nTimeIn else nTimeLast i).

Definition set_size (n : Z) (i : CBlockFileInfo) : CBlockFileInfo :=
  mkFileInfo (nBlocks i) n (nUndoSize i) (nHeightFirst i) (nHeightLast i) (nTimeFirst i) (nTimeLast i).
Definition set_undo_size (n : Z) (i : CBlockFileInfo) : CBlockFileInfo :=
  mkFileInfo (nBlocks i) (nSize i) n (nHeightFirst i) (nHeightLast i) (nTimeFirst i) (nTimeLast i).

Record CDiskBlockPos := mkPos { pos_file : Z; pos_n : Z }.

(** [vinfoBlockFile], [nLastBlockFile] and [setDirtyFileInfo]. *)
Record BlockFiles := mkFiles {
  vinfoBlockFile : list CBlockFileInfo;
  nLastBlockFile : nat;
  setDirtyFileInfo : gset nat
}.

(** [if (v.size() <= nFile) v.resize(nFile + 1)]. *)
Definition grow (v : list CBlockFileInfo) (nFile : nat) : list CBlockFileInfo :=
  if (length v <=? nFile)%nat then v ++ replicate (nFile + 1 - length v) null_file else v.

Definition file_at (v : list CBlockFileInfo) (n : nat) : CBlockFileInfo := nth n v null_file.

(** The [while] loop over the files that are full. *)
Fixpoint find_file (fuel : nat) (v : list CBlockFileInfo) (nFile : nat) (nAddSize : Z)
  : result stop (list CBlockFileInfo * nat) :=
  if MAX_BLOCKFILE_SIZE <=? u32 (nSize (file_at v nFile) + nAddSize)
  then match fuel with
       | O => Throw OutOfFuel
       | S fuel => find_file fuel (grow v (nFile + 1)) (nFile + 1) nAddSize
       end
  else Ok (v, nFile).

Section disk.
(** CheckDiskSpace. *)
Variable disk_space : Z → bool.

(** Whether the next chunks can be reserved: [nPos] is where the data starts and
    [nNewSize] the size with it. *)
Definition reserve (chunk nPos nNewSize : Z) : bool :=
  let nOldChunks := u32 (nPos + chunk - 1) / chunk in
  let nNewChunks := u32 (nNewSize + chunk - 1) / chunk in
  if nOldChunks <? nNewChunks then disk_space (u32 (u32 (nNewChunks * chunk) - nPos)) else true.

(** The files, the position and whether the disk had space. *)
Definition FindBlockPos (s : BlockFiles) (pos : CDiskBlockPos) (nAddSize nHeight nTime : Z) (fKnown : bool)
  : result stop (BlockFiles * CDiskBlockPos * bool) :=
  let nFile := if fKnown then Z.to_nat (pos_file pos) else nLastBlockFile s in
  let v := grow (vinfoBlockFile s) nFile in
  let! r := (if fKnown then Ok (v, nFile) else find_file (S (length v)) v nFile nAddSize) in
  let '(v, nFile) := r in
  let pos := if fKnown then pos else mkPos (Z.of_nat nFile) (nSize (file_at v nFile)) in
  let info := AddBlock (file_at v nFile) nHeight nTime in
  let info := set_size (if fKnown then Z.max (u32 (pos_n pos + nAddSize)) (nSize info)
                        else u32 (nSize info + nAddSize)) info in
  let v := <[nFile := info]> v in
  if negb fKnown && negb (reserve BLOCKFILE_CHUNK_SIZE (pos_n pos) (nSize info))
  then Ok (mkFiles v nFile (setDirtyFileInfo s), pos, false)
  else Ok (mkFiles v nFile ({[nFile]} ∪ setDirtyFileInfo s), pos, true).

(** [vinfoBlockFile[nFile]] must be in range. *)
Definition FindUndoPos (s : BlockFiles) (nFile : nat) (nAddSize : Z) : result stop (BlockFiles * CDiskBlockPos * bool) :=
  match vinfoBlockFile s !! nFile with
  | None => Throw (Crash Chain.OutOfRange)
  | Some info =>
      let pos := mkPos (Z.of_nat nFile) (nUndoSize info) in
      let nNewSize := u32 (nUndoSize info + nAddSize) in
      let s := mkFiles (<[nFile := set_undo_size nNewSize info]> (vinfoBlockFile s)) (nLastBlockFile s)
                 ({[nFile]} ∪ setDirtyFileInfo s) in
      Ok (s, pos, reserve UNDOFILE_CHUNK_SIZE (pos_n pos) nNewSize)
  end.
End disk.

(** ** The files *)

Lemma file_at_grow v n k : file_at (grow v n) k = file_at v k.
Proof.
  unfold grow, file_at. destruct (length v <=? n)%nat; [|done].
  destruct (Nat.lt_ge_cases k (length v)); [by rewrite app_nth1|]. rewrite app_nth2 by done.
  rewrite (nth_overflow v) by done. destruct (Nat.lt_ge_cases (k - length v) (n + 1 - length v)).
  - rewrite nth_lookup, lookup_replicate_2 by lia. done.
  - by rewrite nth_overflow by (rewrite length_replicate; lia).
Qed.

Lemma length_grow v n : (n < length (grow v n))%nat ∧ (length v <= length (grow v n))%nat.
Proof.
  unfold grow. destruct (Nat.leb_spec (length v) n); [rewrite length_app, length_replicate|]; lia.
Qed.

Lemma file_at_insert v n k i : (n < length v)%nat → file_at (<[n := i]> v) k = if decide (k = n) then i else file_at v k.
Proof.
  intros Hn. unfold file_at. rewrite !nth_lookup. case_decide as E.
  - subst. by rewrite list_lookup_insert_eq.
  - by rewrite list_lookup_insert_ne.
Qed.

(** Sizes are within the limit; what is past the end is empty. *)
Definition files_ok (v : list CBlockFileInfo) : Prop := ∀ k, 0 <= nSize (file_at v k) <= MAX_BLOCKFILE_SIZE.

Lemma find_file_spec add fuel : ∀ v n,
  files_ok v → 0 <= add < MAX_BLOCKFILE_SIZE → (n < length v)%nat → (length v <= n + fuel)%nat →
  ∃ v' m, find_file fuel v n add = Ok (v', m) ∧ (n <= m < length v')%nat ∧
    (∀ k, file_at v' k = file_at v k) ∧ nSize (file_at v m) + add < MAX_BLOCKFILE_SIZE ∧
    ∀ k, (n <= k < m)%nat → MAX_BLOCKFILE_SIZE <= nSize (file_at v k) + add.
Proof.
  induction fuel as [|fuel IH]; intros v n Hv Ha Hn Hf; [lia|]. cbn [find_file].
  pose proof (Hv n) as Hvn. unfold MAX_BLOCKFILE_SIZE in *.
  rewrite wrap_small by (unfold in_uw; lia). destruct (Z.leb_spec 0x8000000 (nSize (file_at v n) + add)) as [H|H].
  2: { exists v, n. split_and!; try done; try lia; intros k ?; lia. }
  destruct (Nat.eq_dec (n + 1)%nat (length v)) as [E|E].
  - (* the next file is new, and empty *)
    assert (nSize (file_at (grow v (n + 1)) (n + 1)) = 0) as E0.
    { rewrite file_at_grow. unfold file_at. by rewrite nth_overflow by lia. }
    exists (grow v (n + 1)), (n + 1)%nat. pose proof (length_grow v (n + 1)) as [L _]. split_and!; try lia.
    + destruct fuel as [|fuel]; cbn [find_file]; unfold MAX_BLOCKFILE_SIZE; rewrite E0, wrap_small by (unfold in_uw; lia);
        destruct (Z.leb_spec 0x8000000 (0 + add)); (done || lia).
    + apply file_at_grow.
    + rewrite file_at_grow in E0. rewrite E0. lia.
    + intros k Hk. assert (k = n) as -> by lia. lia.
  - assert (grow v (n + 1) = v) as ->.
    { unfold grow. by rewrite (proj2 (Nat.leb_gt _ _)) by lia. }
    destruct (IH v (n + 1)%nat) as (v' & m & -> & Hm & Hsame & Hroom & Hfull); [done|lia|lia|lia|].
    exists v', m. split_and!; try done; try lia.
    intros k Hk. destruct (Nat.eq_dec k n) as [->|]; [lia|]. apply Hfull. lia.
Qed.

Section positions.
Variable disk_space : Z → bool.

Lemma FindBlockPos_spec s pos add h t :
  files_ok (vinfoBlockFile s) → 0 <= add < MAX_BLOCKFILE_SIZE →
  ∃ s' m ok, FindBlockPos disk_space s pos add h t false
      = Ok (s', mkPos (Z.of_nat m) (nSize (file_at (vinfoBlockFile s) m)), ok) ∧
    files_ok (vinfoBlockFile s') ∧ nLastBlockFile s' = m ∧ (nLastBlockFile s <= m)%nat ∧
    nSize (file_at (vinfoBlockFile s) m) + add < MAX_BLOCKFILE_SIZE ∧
    (∀ k, nSize (file_at (vinfoBlockFile s') k)
          = nSize (file_at (vinfoBlockFile s) k) + (if decide (k = m) then add else 0)) ∧
    (∀ k, nUndoSize (file_at (vinfoBlockFile s') k) = nUndoSize (file_at (vinfoBlockFile s) k)).
Proof.
  intros Hv Ha. unfold FindBlockPos. set (n := nLastBlockFile s).
  pose proof (length_grow (vinfoBlockFile s) n) as [L _].
  destruct (find_file_spec add (S (length (grow (vinfoBlockFile s) n))) (grow (vinfoBlockFile s) n) n)
    as (v' & m & -> & Hm & Hsame & Hroom & Hfull); [|done|done|lia|].
  { intros k. rewrite file_at_grow. apply Hv. }
  cbn [rbind]. assert (∀ k, file_at v' k = file_at (vinfoBlockFile s) k) as Hs'.
  { intros k. by rewrite Hsame, file_at_grow. }
  rewrite !Hs'. rewrite file_at_grow in Hroom. set (info := set_size _ _).
  pose proof (Hv m) as Hvm.
  assert (nSize info = nSize (file_at (vinfoBlockFile s) m) + add ∧ nUndoSize info = nUndoSize (file_at (vinfoBlockFile s) m)) as [E1 E2].
  { split; [|done]. cbn. apply wrap_small. unfold in_uw, MAX_BLOCKFILE_SIZE in *. lia. }
  assert (∀ k, file_at (<[m := info]> v') k = if decide (k = m) then info else file_at (vinfoBlockFile s) k) as Hi.
  { intros k. rewrite file_at_insert by lia. case_decide; [done|apply Hs']. }
  assert (∀ d, ∃ s', mkFiles (<[m := info]> v') m d = s' ∧ files_ok (vinfoBlockFile s') ∧ nLastBlockFile s' = m ∧
    (∀ k, nSize (file_at (vinfoBlockFile s') k)
          = nSize (file_at (vinfoBlockFile s) k) + (if decide (k = m) then add else 0)) ∧
    (∀ k, nUndoSize (file_at (vinfoBlockFile s') k) = nUndoSize (file_at (vinfoBlockFile s) k))) as H.
  { intros d. eexists. split; [done|]. cbn [vinfoBlockFile nLastBlockFile]. split_and!; [|done| |].
    - intros k. rewrite Hi. case_decide; [|apply Hv]. rewrite E1. lia.
    - intros k. rewrite Hi. case_decide as Ek; [by rewrite E1, Ek|lia].
    - intros k. rewrite Hi. case_decide as Ek; [by rewrite E2, Ek|done]. }
  destruct (negb false && negb _).
  - destruct (H (setDirtyFileInfo s)) as (s' & E & H1 & H2 & H3 & H4). exists s', m, false. rewrite E.
    split_and!; (done || lia).
  - destruct (H ({[m]} ∪ setDirtyFileInfo s)) as (s' & E & H1 & H2 & H3 & H4). exists s', m, true. rewrite E.
    split_and!; (done || lia).
Qed.

(** Blocks of the given sizes, heights and times stored one after the other: the
    positions with the sizes. *)
Fixpoint store_all (s : BlockFiles) (reqs : list (Z * Z * Z)) : result stop (BlockFiles * list (CDiskBlockPos * Z)) :=
  match reqs with
  | [] => Ok (s, [])
  | (add, h, t) :: reqs =>
      let! r := FindBlockPos disk_space s (mkPos (-1) 0) add h t false in
      let '(s, pos, _) := r in
      let! r := store_all s reqs in
      let '(s, l) := r in Ok (s, (pos, add) :: l)
  end.

(** Two ranges of bytes that share one. *)
Definition overlap (a b : CDiskBlockPos * Z) : Prop :=
  pos_file a.1 = pos_file b.1 ∧ pos_n a.1 < pos_n b.1 + b.2 ∧ pos_n b.1 < pos_n a.1 + a.2.

Lemma store_all_spec reqs : ∀ s,
  files_ok (vinfoBlockFile s) → Forall (λ r, 0 <= r.1.1 < MAX_BLOCKFILE_SIZE) reqs →
  ∃ s' l, store_all s reqs = Ok (s', l) ∧ files_ok (vinfoBlockFile s') ∧ length l = length reqs ∧
    Forall (λ p, ∃ f, pos_file p.1 = Z.of_nat f ∧ (nLastBlockFile s <= f)%nat ∧
              nSize (file_at (vinfoBlockFile s) f) <= pos_n p.1 ∧ pos_n p.1 + p.2 < MAX_BLOCKFILE_SIZE) l ∧
    ForallOrdPairs (λ a b, ¬ overlap a b) l ∧ StronglySorted (λ a b, pos_file a.1 <= pos_file b.1) l.
Proof.
  induction reqs as [|[[add h] t] reqs IH]; intros s Hv Hr; cbn [store_all].
  { exists s, []. split_and!; (done || constructor). }
  apply Forall_cons in Hr as [Ha Hr]. cbn [fst] in Ha.
  destruct (FindBlockPos_spec s (mkPos (-1) 0) add h t Hv Ha) as (s1 & m & ok & -> & Hv1 & El & Hm & Hroom & Hsize & _).
  cbn [rbind]. destruct (IH s1 Hv1 Hr) as (s2 & l & -> & Hv2 & Hl & Hin & Hdis & Hsort). cbn [rbind].
  set (p := (mkPos _ _, add)). exists s2, (p :: l).
  assert (∀ q, q ∈ l → ∃ f, pos_file q.1 = Z.of_nat f ∧ (m <= f)%nat ∧
            nSize (file_at (vinfoBlockFile s) f) + (if decide (f = m) then add else 0) <= pos_n q.1 ∧
            pos_n q.1 + q.2 < MAX_BLOCKFILE_SIZE) as Hq.
  { intros q Hq. rewrite Forall_forall in Hin. destruct (Hin q Hq) as (f & Ef & Hf & Hp & Hmax).
    exists f. rewrite <- Hsize. split_and!; (done || lia). }
  split_and!; [done|done|by cbn; f_equal| | |].
  - constructor; [exists m; split_and!; cbn; (done || lia)|]. apply Forall_forall. intros q Hql.
    destruct (Hq q Hql) as (f & Ef & Hf & Hp & Hmax). exists f. split_and!; try (done || lia). case_decide; lia.
  - constructor; [|done]. apply Forall_forall. intros q Hql (Ho1 & Ho2 & Ho3).
    destruct (Hq q Hql) as (f & Ef & Hf & Hp & Hmax). rewrite Ef in Ho1. cbn in Ho1, Ho3.
    assert (f = m) as -> by lia. rewrite decide_True in Hp by done. lia.
  - constructor; [done|]. apply Forall_forall. intros q Hql. destruct (Hq q Hql) as (f & -> & Hf & _). cbn. lia.
Qed.
End positions.

(** C19: However many blocks of less than 128 MiB are stored one after the other,
    FindBlockPos always ends with a position, whatever the disk says; no two
    blocks share a byte, no file grows to 128 MiB, and the files are filled in
    order. Undo data placed by FindUndoPos starts where that of the file ended,
    so it never overwrites any either, as long as the undo file stays below
    4 GiB. *)
Theorem block_positions_never_overlap disk_space s reqs :
  files_ok (vinfoBlockFile s) → Forall (λ r, 0 <= r.1.1 < MAX_BLOCKFILE_SIZE) reqs →
  (∃ s' l, store_all disk_space s reqs = Ok (s', l) ∧ map snd l = map (λ r, r.1.1) reqs ∧ files_ok (vinfoBlockFile s') ∧
     ForallOrdPairs (λ a b, ¬ overlap a b) l ∧ StronglySorted (λ a b, pos_file a.1 <= pos_file b.1) l ∧
     Forall (λ p, 0 <= pos_n p.1 ∧ pos_n p.1 + p.2 < MAX_BLOCKFILE_SIZE) l) ∧
  (∀ f add info, vinfoBlockFile s !! f = Some info → 0 <= nUndoSize info → 0 <= add → nUndoSize info + add < 2 ^ 32 →
     ∃ s' ok, FindUndoPos disk_space s f add = Ok (s', mkPos (Z.of_nat f) (nUndoSize info), ok) ∧
       nUndoSize (file_at (vinfoBlockFile s') f) = nUndoSize info + add ∧
       (∀ k, k <> f → file_at (vinfoBlockFile s') k = file_at (vinfoBlockFile s) k) ∧
       (∀ k, nSize (file_at (vinfoBlockFile s') k) = nSize (file_at (vinfoBlockFile s) k))).
Proof.
  intros Hv Hr. split.
  - destruct (store_all_spec disk_space reqs s Hv Hr) as (s' & l & E & Hv' & Hl & Hin & Hdis & Hsort).
    exists s', l. split_and!; [done| |done..|].
    + clear Hin Hdis Hsort Hv'. revert s s' l Hv Hl E. induction reqs as [|[[add h] t] reqs IH]; intros s s' l Hv Hl E.
      { by injection E as <- <-. }
      apply Forall_cons in Hr as [Ha Hr]. cbn [store_all] in E.
      apply rbind_Ok in E as ([[s1 pos] ok] & E1 & E). apply rbind_Ok in E as ([s2 l'] & E2 & E). injection E as <- <-.
      cbn [map]. f_equal. destruct (FindBlockPos_spec disk_space s (mkPos (-1) 0) add h t Hv Ha)
        as (s1' & m & ok' & E1' & Hv1 & _). rewrite E1 in E1'. injection E1' as -> _ _.
      apply (IH Hr s1' s2 l' Hv1); [by injection Hl|done].
    + eapply Forall_impl; [exact Hin|]. intros p (f & _ & _ & H1 & H2). pose proof (Hv f). lia.
  - intros f add info Hf Hu Ha Hsum. unfold FindUndoPos. rewrite Hf. do 2 eexists. split; [done|].
    cbn [vinfoBlockFile]. assert (f < length (vinfoBlockFile s))%nat as Hl by by eapply lookup_lt_Some.
    assert (file_at (vinfoBlockFile s) f = info) as Hi by (unfold file_at; by rewrite nth_lookup, Hf).
    split_and!.
    + rewrite file_at_insert, decide_True by done. apply wrap_small. unfold in_uw. lia.
    + intros k Hk. by rewrite file_at_insert, decide_False.
    + intros k. rewrite file_at_insert by done. case_decide; [by subst|done].
Qed.

(** Two blocks fill up a file, the third goes to the next one. *)
Definition ex_files : BlockFiles := mkFiles [mkFileInfo 1 100000000 50 0 0 0 0] 0 ∅.

Lemma block_positions_never_overlap_witness :
  (∃ s' l, store_all (λ _, true) ex_files [(30000000, 1, 1); (9000000, 2, 2); (1000, 3, 3)] = Ok (s', l) ∧
     ForallOrdPairs (λ a b, ¬ overlap a b) l) ∧
  match store_all (λ _, true) ex_files [(30000000, 1, 1); (9000000, 2, 2); (1000, 3, 3)] with
  | Ok (_, l) => map fst l = [mkPos 0 100000000; mkPos 1 0; mkPos 1 9000000]
  | Throw _ => False
  end.
Proof.
  split; [|vm_compute; reflexivity].
  destruct (block_positions_never_overlap (λ _, true) ex_files [(30000000, 1, 1); (9000000, 2, 2); (1000, 3, 3)])
    as [(s' & l & E & _ & _ & H & _) _].
  - intros k. destruct k as [|[|k]]; vm_compute; split; discriminate.
  - repeat (constructor; [cbn; unfold MAX_BLOCKFILE_SIZE; lia|]). constructor.
  - exists s', l. split; [exact E|exact H].
Defined.

(** The records of the database read back. *)
Lemma file_info_roundtrip i rest :
  dom f_file_info i → unser f_file_info (ser f_file_info i ++ rest) = Ok (i, rest).
Proof. apply fmt_roundtrip. Qed.
