(* ===== verification/Accept.v ===== *)
(** * main.cpp and checkpoints.cpp: accepting headers and blocks

    Checkpoints, CheckWork, ContextualCheckBlockHeader, ContextualCheckBlock,
    AcceptBlockHeader, AcceptBlock and ProcessNewBlock, on the block tree of
    [BlockTree], the files of [BlockFiles] and the checks of [Block]. The clocks,
    the disk, the kernel of kernel.cpp, the payee of a block and what connecting a
    block decides come from a record of oracles. *)

From Stdlib Require Import SpecFloat.
From S2P Require Import Doubles Prelude Serialize Uint256 Chain Params Pow BlockTree Activation.
From S2P Require Import Script Digest Hashes Interp Tx SigHash Coins CoinsView Connect TxCheck Merkle Standard Block BlockFiles.

Local Open Scope node_scope.

(** ** Checkpoints *)

(** [mapCheckpoints], in the order of the heights. *)
Definition MapCheckpoints := list (Z * list Z).

Definition hash_of_text (t : string) : list Z := SetHex 8 (str t).

Definition mapCheckpoints : MapCheckpoints :=
  [(0, hash_of_text "0x00000e44bca505863831d65cf302884eaf6eed296dc59088e89324bccf5d9dca");
   (5, hash_of_text "0x000000c286816d11a56d750f7a060860cc915d7153bd86766fa77a3d7a2b01dc");
   (10, hash_of_text "0x000007e0ba8c10fca3dd32a453f1c92c834f91e9e424e9ef4f70568c108e56fe");
   (15, hash_of_text "0x00000430b1e322298082e63175fafa7bccd907e3c2c0a860011184e92181e8f1")].
Definition mapCheckpointsTestnet : MapCheckpoints :=
  [(0, hash_of_text "0x00000c525f441a49600a90513841553fd0e09a2d5eacd3f67649bd7609ee338a")].
Definition mapCheckpointsRegtest : MapCheckpoints :=
  [(0, hash_of_text "0x0000000000000000000000000000000000000000000000000000000000000000")].

Definition Checkpoints (n : Network) : MapCheckpoints :=
  match n with
  | MAIN | UNITTEST => mapCheckpoints
  | TESTNET => mapCheckpointsTestnet
  | REGTEST => mapCheckpointsRegtest
  end.

(** Checkpoints::CheckBlock. *)
Definition CheckCheckpoint (fEnabled : bool) (cps : MapCheckpoints) (nHeight : Z) (hash : list Z) (fMatchesCheckpoint : bool) : bool :=
  if negb fEnabled then true
  else match find (λ c, c.1 =? nHeight) cps with
       | None => negb fMatchesCheckpoint
       | Some c => bool_decide (hash = c.2)
       end.

Definition GetTotalBlocksEstimate (fEnabled : bool) (cps : MapCheckpoints) : Z :=
  if negb fEnabled then 0 else match last cps with Some c => c.1 | None => 0 end.

Definition GetLastCheckpoint (fEnabled : bool) (cps : MapCheckpoints) (m : gmap (list Z) CBlockIndex) : option CBlockIndex :=
  if negb fEnabled then None else head (omap (λ c, m !! c.2) (rev cps)).

(** ** The claimed work *)

Definition repeat_double (f : spec_float → spec_float) (n : Z) (x : spec_float) : spec_float := Nat.iter (Z.to_nat n) f x.

(** The loops run [29 - nShift] and [nShift - 29] times. *)
Definition ConvertBitsToDouble (nBits : Z) : spec_float :=
  let nShift := Z.land (Z.shiftr nBits 24) 255 in
  let dDiff := f64_div (f64 65535) (f64 (Z.land nBits 16777215)) in
  let dDiff := repeat_double (λ d, f64_mul d (f64 256)) (29 - nShift) dDiff in
  repeat_double (λ d, f64_div d (f64 256)) (nShift - 29) dDiff.

(** [abs(n1 - n2) > n1 * 0.5] *)
Definition too_far (n1 n2 : spec_float) : bool :=
  SFltb (f64_mul n1 (f64_div (f64 1) (f64 2))) (SFabs (f64_sub n1 n2)).

(** ** The oracles *)

Record Oracles := mkOracles {
  (** GetTime(), GetAdjustedTime() and IsInitialBlockDownload(). *)
  now : Z;
  adjusted_time : Z;
  initial_download : ChainState → bool;
  (** IsBlockPayeeValid; [None] where it reads out of range. *)
  payee_valid : ChainState → CBlock → Z → option bool;
  (** CheckProofOfStake, with the hash of the stake. *)
  stake_kernel : ChainState → CBlock → option (list Z);
  (** ComputeNextStakeModifier and GetStakeModifierChecksum: the modifier,
      whether it is new, and the checksum. *)
  stake_modifier : ChainState → CBlockHeader → Z * bool * Z;
  (** The transactions ReadBlockFromDisk finds, none where it fails. *)
  read_block : CBlockIndex → list CTransaction;
  (** CheckDiskSpace and WriteBlockToDisk. *)
  disk_space : Z → bool;
  write_block : CDiskBlockPos → CBlock → bool;
  (** What connecting and disconnecting blocks come to. *)
  activation : Environment
}.

(** The part of the node these functions change. *)
Record Node := mkNode {
  chain : ActivationState;
  mapRejectedBlocks : gmap (list Z) Z;
  mapProofOfStake : gmap (list Z) (list Z);
  files : BlockFiles
}.

Definition with_chainstate (n : Node) (s : ChainState) : Node :=
  mkNode (mkActivation s (calls (chain n))) (mapRejectedBlocks n) (mapProofOfStake n) (files n).
Definition with_rejected (n : Node) (r : gmap (list Z) Z) : Node := mkNode (chain n) r (mapProofOfStake n) (files n).
Definition with_files (n : Node) (f : BlockFiles) : Node := mkNode (chain n) (mapRejectedBlocks n) (mapProofOfStake n) f.

Section accept.
Context {V : Type} `{CoinsView V}.
Variable address : list Z → Z.
Variable params : CChainParams.
(** [-maxreorg], [Params().HashGenesisBlock()], and the checkpoints. *)
Variable nMaxReorgDepth : Z.
Variable hashGenesisBlock : list Z.
Variable fEnabled : bool.
Variable cps : MapCheckpoints.
Variable argon2m_hash : list Z → list Z.
Variable ecdsa_verify : CPubKey → hash256 → list Z → bool.
Variable o : Oracles.
Variable fuel : nat.

Abbreviation state n := (tree (chain n)).
Abbreviation hash_of b := (GetHash argon2m_hash (header b)).

(** The errors of the work computations are uint_error exceptions. *)
Definition CheckWork (n : Node) (b : CBlock) (pindexPrev : option CBlockIndex) : result stop (Node * bool) :=
  match pindexPrev with
  | None => Ok (n, false)
  | Some _ =>
      let! nBitsRequired := of_pow (GetNextWorkRequired params pindexPrev) in
      if Block.IsProofOfWork b
      then Ok (n, negb (too_far (ConvertBitsToDouble (h_nBits (header b))) (ConvertBitsToDouble nBitsRequired)))
      else if negb (h_nBits (header b) =? nBitsRequired) then Ok (n, false)
      else match stake_kernel o (state n) b with
           | None => Ok (n, false)
           | Some hashProofOfStake =>
               let m := mapProofOfStake n in
               let m := if m !! hash_of b is Some _ then m else <[hash_of b := hashProofOfStake]> m in
               Ok (mkNode (chain n) (mapRejectedBlocks n) m (files n), true)
           end
  end.

Definition ContextualCheckBlockHeader (s : ChainState) (h : CBlockHeader) (st : CValidationState)
    (pindexPrev : option CBlockIndex) : result stop (CValidationState * bool) :=
  let hash := GetHash argon2m_hash h in
  if bool_decide (hash = hashGenesisBlock) then Ok (st, true)
  else match pindexPrev with
  | None => Throw (Crash AssertionFailed)
  | Some prev =>
      let nHeight := nHeight prev + 1 in
      if nMaxReorgDepth <=? Height (chainActive s) - nHeight then Ok (DoS 1 0 "" false st, false)
      else if h_nTime h <=? GetMedianTimePast prev then Ok (Invalid REJECT_INVALID "time-too-old" st, false)
      else if negb (CheckCheckpoint fEnabled cps nHeight hash false)
      then Ok (DoS 100 REJECT_CHECKPOINT "checkpoint mismatch" false st, false)
      else if match GetLastCheckpoint fEnabled cps (mapBlockIndex s) with
              | Some pcheckpoint => nHeight <? Chain.nHeight pcheckpoint
              | None => false
              end then Ok (DoS 0 0 "" false st, false)
      else
        let outdated := IsSuperMajority (nToCheckBlockUpgradeMajority params) in
        if (h_nVersion h <? 2) && outdated 2 pindexPrev (nRejectBlockOutdatedMajority params)
        then Ok (Invalid REJECT_OBSOLETE "bad-version" st, false)
        else if (h_nVersion h <? 3) && outdated 3 pindexPrev (nRejectBlockOutdatedMajority params)
        then Ok (Invalid REJECT_OBSOLETE "bad-version" st, false)
        else Ok (st, true)
  end.

(** [block.vtx[0].vin[0]] must be there. *)
Definition ContextualCheckBlock (s : ChainState) (b : CBlock) (st : CValidationState) (pindexPrev : option CBlockIndex)
  : result stop (CValidationState * bool) :=
  let nHeight := match pindexPrev with None => 0 | Some p => nHeight p + 1 end in
  if negb (forallb (λ tx, IsFinalTx (Height (chainActive s)) (adjusted_time o) tx nHeight (h_nTime (header b))) (vtx b))
  then Ok (DoS 10 REJECT_INVALID "bad-txns-nonfinal" false st, false)
  else if (2 <=? h_nVersion (header b))
       && IsSuperMajority (nToCheckBlockUpgradeMajority params) 2 pindexPrev (nEnforceBlockUpgradeMajority params)
  then match head (vtx b) ≫= (λ t, head (vin t)) with
       | None => Throw (Crash OutOfRange)
       | Some i =>
           let expect := push_int64 [] nHeight in
           if bool_decide (take (length expect) (scriptSig i) = expect) then Ok (st, true)
           else Ok (DoS 100 REJECT_INVALID "bad-cb-height" false st, false)
       end
  else Ok (st, true).

(** ** AcceptBlockHeader *)

(** What AddToBlockIndex reads of the block and of kernel.cpp; [operator[]] adds
    an entry of [mapProofOfStake] that is missing. *)
Definition stake_data (n : Node) (b : CBlock) : StakeData :=
  let '(modifier, fGenerated, checksum) := stake_modifier o (state n) (header b) in
  mkStakeData modifier fGenerated checksum (default (uint256 0) (mapProofOfStake n !! hash_of b)).

Definition touch_proof (n : Node) (b : CBlock) : Node :=
  if Block.IsProofOfStake b && bool_decide (mapProofOfStake n !! hash_of b = None)
     && bool_decide (mapBlockIndex (state n) !! hashPrevBlock (header b) <> None)
  then mkNode (chain n) (mapRejectedBlocks n) (<[hash_of b := uint256 0]> (mapProofOfStake n)) (files n)
  else n.

Definition stake_of (b : CBlock) : option (list Z * Z) :=
  if Block.IsProofOfStake b
  then Some (out_hash (fst (GetProofOfStake b)), out_n (fst (GetProofOfStake b))) else None.

(** The node, the state, [*ppindex] and the result. The branch that reconsiders
    an invalid predecessor tests [pindex], which is null there. *)
Definition AcceptBlockHeader (n : Node) (b : CBlock) (st : CValidationState)
  : result stop (Node * CValidationState * option CBlockIndex * bool) :=
  let s := state n in
  let hash := hash_of b in
  match mapBlockIndex s !! hash with
  | Some pindex =>
      if has (status s pindex) BLOCK_FAILED_MASK
      then Ok (n, Invalid 0 "duplicate" st, Some pindex, false)
      else Ok (n, st, Some pindex, true)
  | None =>
      let '(st, ok) := CheckBlockHeader params argon2m_hash (header b) st false in
      if negb ok then Ok (n, st, None, false)
      else
        let prev := if bool_decide (hash = hashGenesisBlock) then None
                    else mapBlockIndex s !! hashPrevBlock (header b) in
        if negb (bool_decide (hash = hashGenesisBlock)) && bool_decide (prev = None)
        then Ok (n, DoS 0 0 "bad-prevblk" false st, None, false)
        else if match prev with Some q => has (status s q) BLOCK_FAILED_MASK | None => false end
        then Ok (n, DoS 100 REJECT_INVALID "bad-prevblk" false st, None, false)
        else
          let! r := ContextualCheckBlockHeader s (header b) st prev in
          let '(st, ok) := r in
          if negb ok then Ok (n, st, None, false)
          else
            let! r := AddToBlockIndex s hash (header b) (stake_of b) (stake_data n b) in
            let '(s, p) := r in
            Ok (with_chainstate (touch_proof n b) s, st, Some p, true)
  end.

(** ** AcceptBlock *)

(** The loop over the blocks of a fork, from [pindexPrev] down to the active
    chain: whether one of them spends an input of the coinstake. [Contains]
    dereferences its argument before it is compared with null. *)
Fixpoint fork_spends (s : ChainState) (stakeIns : list COutPoint) (path : list CBlockIndex) : result stop bool :=
  match path with
  | [] => Throw (Crash NullDereference)
  | last :: path =>
      if Contains (chainActive s) last then Ok false
      else if existsb (λ t, existsb (λ i, bool_decide (prevout i ∈ stakeIns)) (vin t)) (read_block o last)
      then Ok true
      else fork_spends s stakeIns path
  end.

(** The checks of a proof-of-stake block on its inputs. *)
Definition stake_checks (s : ChainState) (pcoinsTip : V) (mapStakeSpent : StakeSpent) (b : CBlock)
    (pindexPrev : option CBlockIndex) : result stop bool :=
  match vtx b, pindexPrev with
  | _ :: t :: _, Some prev =>
      let spent_late i := match find (λ e, bool_decide (e.1 = prevout i)) mapStakeSpent with
                          | None => false
                          | Some e => negb (e.2 <? nHeight prev)
                          end in
      if negb (snd (HaveInputs (new_cache pcoinsTip) t)) && negb (forallb spent_late (vin t)) then Ok false
      else if Contains (chainActive s) prev then Ok true
      else let! spends := fork_spends s (map prevout (vin t)) (ancestry prev) in Ok (negb spends)
  | _, _ => Throw (Crash NullDereference)
  end.

Definition mark_failed (s : ChainState) (p : CBlockIndex) : ChainState :=
  with_dirty (or_status s p BLOCK_FAILED_VALID) p.

(** Writing the block and linking it; [dbp] is where it already is. *)
Definition store_block (n : Node) (b : CBlock) (st : CValidationState) (pindex : CBlockIndex) (dbp : option CDiskBlockPos)
  : result stop (Node * CValidationState * bool) :=
  let nBlockSize := u32 (Serialize.size_of f_block b) in
  let blockPos := default (mkPos (-1) 0) dbp in
  let! r := FindBlockPos (disk_space o) (files n) blockPos (u32 (nBlockSize + 8)) (nHeight pindex) (h_nTime (header b))
              (bool_decide (dbp <> None)) in
  let '(f, blockPos, ok) := r in
  let n := with_files n f in
  if negb ok then Ok (n, Error "out of disk space" st, false)
  else if bool_decide (dbp = None) && negb (write_block o blockPos b)
  then Ok (n, Error "Failed to write block" st, false)
  else
    let nPos := if bool_decide (dbp = None) then u32 (pos_n blockPos + 8) else pos_n blockPos in
    let! s := ReceivedBlockTransactions address (state n) (Z.of_nat (length (vtx b))) pindex (pos_file blockPos, nPos) in
    Ok (with_chainstate n s, st, true).

(** The checks of a block with a header that is accepted and data that is new. *)
Definition check_and_store (n : Node) (pcoinsTip : V) (mapStakeSpent : StakeSpent) (b : CBlock) (st : CValidationState)
    (dbp : option CDiskBlockPos) (fAlreadyCheckedBlock : bool) (pindexPrev : option CBlockIndex) (pindex : CBlockIndex)
  : result stop (Node * CValidationState * bool) :=
  let! r := (if fAlreadyCheckedBlock then Ok (mapRejectedBlocks n, st, true)
             else match CheckBlock params argon2m_hash (adjusted_time o) (now o) (initial_download o (state n))
                          (payee_valid o (state n)) (state n) (mapRejectedBlocks n) b st true true with
                  | None => Throw (Crash OutOfRange)
                  | Some r => Ok r
                  end) in
  let '(rejected, st, ok) := r in
  let n := with_rejected n rejected in
  let! r := (if ok then ContextualCheckBlock (state n) b st (pprev pindex) else Ok (st, false)) in
  let '(st, ok) := r in
  if negb ok
  then Ok (if Block.IsInvalid st && negb (corruptionPossible st)
           then with_chainstate n (mark_failed (state n) pindex) else n, st, false)
  else
    let! ok := (if Block.IsProofOfStake b then stake_checks (state n) pcoinsTip mapStakeSpent b pindexPrev
                else Ok true) in
    if negb ok then Ok (n, st, false) else store_block n b st pindex dbp.

(** What follows the checks of the predecessor. *)
Definition accept_new (n : Node) (pcoinsTip : V) (mapStakeSpent : StakeSpent) (b : CBlock) (st : CValidationState)
    (dbp : option CDiskBlockPos) (fAlreadyCheckedBlock genesis : bool) (pindexPrev : option CBlockIndex)
  : result stop (Node * CValidationState * option CBlockIndex * bool) :=
  let! r := (if genesis then Ok (n, true) else CheckWork n b pindexPrev) in
  let '(n, ok) := r in
  if negb ok then Ok (n, st, None, false)
  else
    let! r := AcceptBlockHeader n b st in
    let '(n, st, p, ok) := r in
    match p with
    | Some pindex =>
        if negb ok then Ok (n, st, p, false)
        else if has (status (state n) pindex) BLOCK_HAVE_DATA then Ok (n, st, p, true)
        else let! r := check_and_store n pcoinsTip mapStakeSpent b st dbp fAlreadyCheckedBlock pindexPrev pindex in
             let '(n, st, ok) := r in Ok (n, st, p, ok)
    | None => Ok (n, st, None, false)
    end.

Definition AcceptBlock (n : Node) (pcoinsTip : V) (mapStakeSpent : StakeSpent) (b : CBlock) (st : CValidationState)
    (dbp : option CDiskBlockPos) (fAlreadyCheckedBlock : bool)
  : result stop (Node * CValidationState * option CBlockIndex * bool) :=
  let genesis := bool_decide (hash_of b = hashGenesisBlock) in
  let pindexPrev := if genesis then None else mapBlockIndex (state n) !! hashPrevBlock (header b) in
  if negb genesis && bool_decide (pindexPrev = None)
  then Ok (n, DoS 0 0 "bad-prevblk" false st, None, false)
  else
  match pindexPrev with
  | Some prev =>
      if has (status (state n) prev) BLOCK_FAILED_MASK
      then
        if CheckCheckpoint fEnabled cps (nHeight prev) (hashPrevBlock (header b)) true
        then
          let! s := ReconsiderBlock address (state n) prev in
          let! r := ActivateBestChain address hashGenesisBlock (activation o) fuel (mkActivation s (calls (chain n))) in
          Ok (mkNode (fst r) (mapRejectedBlocks n) (mapProofOfStake n) (files n), st, None, true)
        else Ok (n, DoS 100 REJECT_INVALID "bad-prevblk" false st, None, false)
      else accept_new n pcoinsTip mapStakeSpent b st dbp fAlreadyCheckedBlock genesis pindexPrev
  | None => accept_new n pcoinsTip mapStakeSpent b st dbp fAlreadyCheckedBlock genesis pindexPrev
  end.

(** ** ProcessNewBlock *)

(** [from_peer] tells whether [pfrom] is not null. What follows the activation,
    on masternodes, budgets and the wallet, is not modelled. *)
Definition ProcessNewBlock (n : Node) (pcoinsTip : V) (mapStakeSpent : StakeSpent) (b : CBlock) (st : CValidationState)
    (from_peer : bool) (dbp : option CDiskBlockPos) : result stop (Node * CValidationState * bool) :=
  match CheckBlock params argon2m_hash (adjusted_time o) (now o) (initial_download o (state n))
          (payee_valid o (state n)) (state n) (mapRejectedBlocks n) b st true true with
  | None => Throw (Crash OutOfRange)
  | Some (rejected, st, checked) =>
      let n := with_rejected n rejected in
      match CheckBlockSignature argon2m_hash ecdsa_verify b with
      | None => Throw (Crash OutOfRange)
      | Some false => Ok (n, st, false)
      | Some true =>
          if EqualTo (hashPrevBlock (header b)) 0 then Ok (n, st, false)
          else if negb (bool_decide (hash_of b = hashGenesisBlock)) && from_peer
                  && bool_decide (mapBlockIndex (state n) !! hashPrevBlock (header b) = None)
          then Ok (n, st, false)
          else if negb checked then Ok (n, st, false)
          else
            let! r := AcceptBlock n pcoinsTip mapStakeSpent b st dbp checked in
            let '(n, st, _, ok) := r in
            if negb ok then Ok (n, st, false)
            else
              let! r := ActivateBestChain address hashGenesisBlock (activation o) fuel (chain n) in
              Ok (mkNode (fst r) (mapRejectedBlocks n) (mapProofOfStake n) (files n), st, snd r)
      end
  end.
End accept.

(** ** The required work always has a value *)

(** What the parameters of every network satisfy. *)
Record sane_params (params : CChainParams) : Prop := {
  sp_limit : ∃ L, repr 8 (bnProofOfWorkLimit params) L;
  sp_spacing : 0 < nTargetSpacing params;
  sp_small : 24 * nTargetSpacing params < 2 ^ 64;
  sp_interval : 0 < (Z.quot (nTargetTimespan params) (nTargetSpacing params) + 1) * nTargetSpacing params < 2 ^ 64;
  sp_money : 0 <= nMaxMoneyOut params < 2 ^ 62
}.

Lemma Params_sane n : sane_params (Params n).
Proof.
  assert (∃ L, repr 8 (bnProofOfWorkLimit (Params n)) L) as H.
  { destruct n; (exists (2 ^ 236 - 1); apply reprb_repr; by vm_compute) || (exists (2 ^ 255 - 1); apply reprb_repr; by vm_compute). }
  destruct n; split; try done; split; by vm_compute.
Qed.

Definition dgw_good (st : DGW) (k : Z) : Prop :=
  CountBlocks st = k ∧ (∃ x, repr 8 (PastDifficultyAverage st) x) ∧ (∃ y, repr 8 (PastDifficultyAveragePrev st) y).

Lemma DGW_step_total st b k :
  dgw_good st k → 0 <= k < 2 ^ 32 → is_u32 (nBits b) → ∃ st', DGW_step st b = Ok st' ∧ dgw_good st' (k + 1).
Proof.
  intros (Hk & [x Hx] & [y Hy]) Hkr Hb. unfold DGW_step, dgw_good. rewrite Hk.
  destruct (SetCompact_target (nBits b) Hb) as (t & -> & Ht). cbn [fst].
  destruct (k + 1 <=? PastBlocksMin) eqn:E; cbn [rbind].
  2: { eexists. split; [done|]. cbn. eauto. }
  destruct (k + 1 =? 1); cbn [rbind]; [eexists; split; [done|]; cbn; eauto|].
  pose proof (op_add_repr _ _ _ _ _ (op_mul32_repr _ _ _ (u32 (k + 1)) Hy) Ht) as Hsum.
  apply Z.leb_le in E. unfold PastBlocksMin in E.
  rewrite (wrap_small 64) by (unfold in_uw; lia).
  destruct (op_div_repr 8 _ _ _ _ ltac:(lia) Hsum (uint256_repr (k + 1 + 1) ltac:(unfold in_uw; lia)) ltac:(lia))
    as (q & -> & Hq). cbn [of_div rbind fst snd]. eexists. split; [done|]. cbn. eauto.
Qed.

Lemma DGW_loop_total bs : ∀ i st,
  dgw_good st (i - 1) → 1 <= i <= 25 → Forall (λ b, is_u32 (nBits b)) bs →
  ∃ st' k, DGW_loop i st bs = Ok st' ∧ dgw_good st' k ∧ i - 1 <= k <= 24 ∧
    (i = 1 → match bs with b :: _ => 0 < nHeight b → 1 <= k | [] => True end).
Proof.
  induction bs as [|b bs IH]; intros i st Hst Hi Hb; cbn [DGW_loop].
  { exists st, (i - 1). split_and!; (done || lia). }
  apply Forall_cons in Hb as [Hb Hbs].
  destruct (Z.leb_spec (nHeight b) 0). { exists st, (i - 1). split_and!; (done || lia). }
  unfold PastBlocksMax. destruct (Z.ltb_spec 24 i). { exists st, (i - 1). split_and!; (done || lia). }
  cbn [andb Z.ltb Z.compare]. destruct (DGW_step_total st b (i - 1) Hst) as (st1 & -> & H1); [lia|done|]. cbn [rbind].
  destruct (IH (i + 1) st1) as (st' & k & -> & Hk & Hr & _); [by replace (i + 1 - 1) with (i - 1 + 1) by lia|lia|done|].
  exists st', k. split_and!; try done; lia.
Qed.

Lemma GetNextWorkRequired_total params p :
  sane_params params → wf_index p → (∀ a, a ∈ ancestry p → is_u32 (nBits a)) →
  ∃ c, GetNextWorkRequired params (Some p) = Ok c.
Proof.
  intros [[L HL] HS HS64 HI _] Hp Hb. unfold GetNextWorkRequired.
  destruct ((nHeight p =? 0) || (nHeight p <? PastBlocksMin)) eqn:E.
  { eexists. by apply compact256_repr. }
  apply orb_false_iff in E as [E0%Z.eqb_neq E24%Z.ltb_ge]. unfold PastBlocksMin in E24.
  rewrite (proj2 (Z.eqb_neq (nHeight p) 0)) by lia.
  destruct (nLastPOWBlock params <? nHeight p).
  - inversion Hp as [? _ _ H0|? q Hq]; subst; [lia|]. rewrite Hq. cbn [rbind]. eexists.
    apply PoSRetarget_repr; [apply Hb, ancestry_self|done].
  - destruct (DGW_loop_total (ancestry p) 1 DGW_start) as (st & k & E & (Hk & [x Hx] & _) & Hr & H1).
    { split; [done|]. split; eexists; by apply uint256_repr. }
    { lia. }
    { by apply Forall_forall. }
    unfold blocks_from. rewrite E. cbn [rbind]. specialize (H1 eq_refl). rewrite ancestry_unfold in H1.
    specialize (H1 ltac:(lia)). unfold DGWRetarget. rewrite Hk.
    set (t := if _ * 3 <? _ then _ else _). clearbody t.
    pose proof (op_mul32_repr _ _ _ (u32 t) Hx) as Hm.
    assert (0 < k * nTargetSpacing params < 2 ^ 64) as Hd by nia.
    rewrite (wrap_small 64) by (unfold in_uw; lia).
    destruct (op_div_repr 8 _ _ _ _ ltac:(lia) Hm (uint256_repr (k * nTargetSpacing params) ltac:(unfold in_uw; lia)) ltac:(lia))
      as (q & -> & Hq). cbn [of_div rbind]. destruct (op_gt q _); eexists; by apply compact256_repr.
Qed.

(** ** The node keeps its invariant *)

Section accepts.
Variable address : list Z → Z.
Hypothesis address_inj : ∀ h h', address h = address h' → h = h'.
Variable hashGenesisBlock : list Z.

(** The block tree with the tip [t] and the bound [b]; the headers have 32-bit
    difficulties and were checked; and the genesis block is known. *)
Record node_ok (s : ChainState) (t b : CBlockIndex) : Prop := {
  no_tree : tree_ok address s t b;
  no_bits : ∀ x, known s x → is_u32 (nBits x);
  no_level : ∀ x, known s x → BLOCK_VALID_TREE <= Z.land (status s x) BLOCK_VALID_MASK;
  no_genesis : ∃ g, mapBlockIndex s !! hashGenesisBlock = Some g ∧ pprev g = None
}.

Lemma link_index_bits s hash h stake kernel p : link_index s hash h stake kernel = Ok p → nBits p = h_nBits h.
Proof.
  unfold link_index. destruct (mapBlockIndex s !! hashPrevBlock h) as [prev|].
  - intros H. apply rbind_Ok in H as (skip & _ & H). apply rbind_Ok in H as (trust & _ & H).
    apply rbind_Ok in H as (proof & _ & [= <-]). done.
  - intros H. by apply rbind_Ok in H as (proof & _ & [= <-]).
Qed.

Lemma add_node_ok s t b hash h stake kernel prev :
  node_ok s t b → mapBlockIndex s !! hash = None → mapBlockIndex s !! hashPrevBlock h = Some prev →
  valid_bits (h_nBits h) → work prev + expected_work (h_nBits h) < 2 ^ 256 →
  ∃ s' p, AddToBlockIndex s hash h stake kernel = Ok (s', p) ∧ node_ok s' t b ∧ known s' p ∧
    phashBlock p = hash ∧ pprev p = Some prev ∧ stored s' p = false ∧ failed s' p = false ∧
    (∀ x, known s x → known s' x ∧ status s' x = status s x) ∧
    (∀ x, known s' x → ∃ y, known s y ∧ total_tx s' x = total_tx s y).
Proof.
  intros [Hok Hb Hl (g & Hg & Hgp)] Hnew Hprev Hbits Hroom. pose proof (to_index _ _ _ _ Hok) as Hi.
  destruct (add_spec address s t b hash h stake kernel prev Hok Hnew Hprev Hbits Hroom)
    as (s' & p & E & Hok' & Hkp & Hph & Hpp & _ & Hst & Hfl & Hsame).
  destruct (link_index_spec s hash h stake kernel prev Hi Hprev Hbits Hroom) as (p' & El & Hph' & Hpp' & _).
  assert (known s prev) as Hkprev by (unfold known; by rewrite (io_hash _ Hi _ _ Hprev)).
  assert (∀ x, known s x → phashBlock x <> hash) as Hne.
  { intros x Hx Ex. unfold known in Hx. rewrite Ex in Hx. congruence. }
  destruct (add_fields s hash h stake kernel p' Hnew Hph' El) as
    (s'' & E' & Em & _ & _ & _ & Hstat & Htx0 & _ & _ & Ho).
  { intros q Hq. rewrite Hpp' in Hq. injection Hq as <-. by apply Hne. }
  rewrite E in E'. injection E' as <- <-.
  assert (∀ x, known s' x → x = p ∨ known s x) as Hcase.
  { intros x Hx. unfold known in Hx. rewrite Em in Hx. destruct (decide (phashBlock x = hash)) as [Ex|Ex].
    - rewrite Ex, lookup_insert_eq in Hx. injection Hx as <-. by left.
    - rewrite lookup_insert_ne in Hx by done. by right. }
  assert (∀ x, known s x → total_tx s' x = total_tx s x) as Htot.
  { intros x Hx. unfold total_tx.
    assert (∀ a, a ∈ ancestry x → nTx (idx s' a) = nTx (idx s a)) as Ha.
    { intros a Ha. apply Ho, Hne. by apply (known_ancestor s x a Hi Hx Ha). }
    revert Ha. induction (ancestry x) as [|a l IH]; intros Ha; [done|]. cbn [foldr].
    rewrite (Ha a) by set_solver. f_equal. apply IH. intros; apply Ha; set_solver. }
  exists s', p. split_and!; try done.
  - constructor; [done| | |].
    + intros x [->|Hx]%Hcase; [|by apply Hb]. rewrite (link_index_bits _ _ _ _ _ _ El). apply Hbits.
    + intros x [->|Hx]%Hcase; [rewrite Hstat; done|]. destruct (Hsame x Hx) as [_ ->]. by apply Hl.
    + exists g. split; [|done]. rewrite Em, lookup_insert_ne; [done|]. intros ->. congruence.
  - intros x [->|Hx]%Hcase.
    + exists prev. split; [done|]. rewrite total_tx_unfold, Htx0, Hpp. by rewrite Htot.
    + exists x. split; [done|]. by apply Htot.
Qed.

Lemma unstored_outside s t b p :
  tree_ok address s t b → known s p → stored s p = false → (p ∉ ancestry t) ∧ (p ∉ ancestry b).
Proof.
  intros [Hi Hd Hc] Hp Hst. destruct (co_tip _ _ _ _ Hc) as [Ht [Htx _]]. destruct (co_bound _ _ _ _ Hc) as (Hb & [Hbx _] & _).
  split; intros Hin.
  - by rewrite (do_linked _ Hd t Ht Htx p Hin) in Hst.
  - by rewrite (do_linked _ Hd b Hb Hbx p Hin) in Hst.
Qed.

(** A block that fails its checks before it is stored. *)
Lemma mark_node_ok s t b p :
  node_ok s t b → known s p → stored s p = false →
  node_ok (mark_failed s p) t b ∧ mapBlockIndex (mark_failed s p) = mapBlockIndex s ∧
  (∀ x, stored (mark_failed s p) x = stored s x) ∧
  (∀ x, failed (mark_failed s p) x = failed s x || bool_decide (phashBlock p = phashBlock x)).
Proof.
  intros [Hok Hb Hl Hg] Hp Hst. destruct (unstored_outside s t b p Hok Hp Hst) as [Ht Hbb].
  assert (same_data s (or_status s p BLOCK_FAILED_VALID)) as Hsd
    by (apply same_data_or_status; unfold BLOCK_FAILED_VALID; set_solver).
  assert (∀ x, failed (mark_failed s p) x = failed s x || bool_decide (phashBlock p = phashBlock x)) as Hf.
  { intros x. change (failed (or_status s p BLOCK_FAILED_VALID) x = failed s x || bool_decide (phashBlock p = phashBlock x)).
    rewrite failed_or_status. by rewrite andb_true_r. }
  split_and!; [|done| |done].
  - constructor; [|done| |done].
    + apply (pruned_ok address (λ a, a = p) s); [|by intros a Ha ->..|done].
      apply pruned_dirty, pruned_mark; [set_solver| |done]. exists p. split; [apply ancestry_self|by right].
    + intros x Hx. change (BLOCK_VALID_TREE <= Z.land (status (or_status s p BLOCK_FAILED_VALID) x) BLOCK_VALID_MASK).
      specialize (Hl x Hx). pose proof (sd_level _ _ Hsd x) as H. lia.
  - intros x. apply (sd_stored _ _ Hsd).
Qed.

(** Linking blocks changes no status. *)
Lemma link_queue_status fuel : ∀ s queue s',
  link_queue address fuel s queue = Ok s' → mapBlockIndex s' = mapBlockIndex s ∧ ∀ x, status s' x = status s x.
Proof.
  induction fuel as [|fuel IH]; intros s queue s'; destruct queue as [|p queue]; cbn [link_queue];
    try (by intros [= <-]); try done.
  destruct (link_block address s p) as [s1 range] eqn:E. intros H.
  apply IH in H as [-> H]. unfold link_block in E. injection E as <- _.
  split.
  - by destruct (as_good_as_tip address _ p).
  - intros x. rewrite H. set (s1 := update_idx s p _).
    assert (status s1 x = status s x) as E1 by (unfold status, s1; by apply (idx_update_field nStatus)).
    rewrite <- E1. by destruct (as_good_as_tip address _ p).
Qed.

Lemma received_status s v p pos s' :
  ReceivedBlockTransactions address s v p pos = Ok s' →
  ∀ x, status s' x = (if bool_decide (phashBlock x = phashBlock p)
                      then fst (RaiseValidity (Z.lor (status s p) BLOCK_HAVE_DATA) BLOCK_VALID_TRANSACTIONS)
                      else status s x).
Proof.
  intros H x. unfold ReceivedBlockTransactions in H. set (s1 := with_dirty _ p) in H.
  assert (status s1 x = (if bool_decide (phashBlock x = phashBlock p)
            then fst (RaiseValidity (Z.lor (status s p) BLOCK_HAVE_DATA) BLOCK_VALID_TRANSACTIONS) else status s x)) as E1.
  { unfold s1. change (status (with_dirty ?a p) x) with (status a x). unfold status. case_bool_decide as E.
    - unfold update_idx, idx. cbn [index_data with_data]. rewrite E, lookup_insert_eq. done.
    - by rewrite idx_update_ne. }
  rewrite <- E1. clearbody s1. clear E1.
  destruct (pprev p) as [q|]; [destruct (negb _); [|destruct (Chain.IsValid _ _)]|].
  - by apply (link_queue_status _ _ _ _ H).
  - by injection H as <-.
  - by injection H as <-.
  - by apply (link_queue_status _ _ _ _ H).
Qed.

Lemma received_node_ok s t b p v pos :
  node_ok s t b → known s p → stored s p = false → failed s p = false → 0 < v < 2 ^ 32 →
  (∀ x, known s x → total_tx s x + v < 2 ^ 32) → (∀ q, pprev p = Some q → failed s q = false) →
  ∃ s', ReceivedBlockTransactions address s v p pos = Ok s' ∧ node_ok s' t b ∧
    mapBlockIndex s' = mapBlockIndex s ∧
    (∀ x, stored s' x = stored s x || bool_decide (phashBlock x = phashBlock p)) ∧ (∀ x, failed s' x = failed s x).
Proof.
  intros [Hok Hb Hl Hg] Hp Hst Hf Hv Hroom Hprev. pose proof (to_index _ _ _ _ Hok) as Hi.
  destruct (received_spec address address_inj s t b p v pos Hok Hp Hst Hf Hv Hroom) as (s' & E & Hok' & Em & Hst' & Hf').
  { intros q Hq. pose proof (Hprev q Hq) as Hq'. unfold failed in Hq'. rewrite IsValid_spec, Hq'. cbn. apply Z.leb_le, Hl. by apply (io_prev _ Hi p q). }
  pose proof (received_status s v p pos s' E) as Hs. exists s'. split_and!; try done.
  - constructor; [done| | |by rewrite Em].
    + intros x Hx. apply Hb. by apply (known_ext _ _ x Em).
    + intros x Hx%(known_ext _ _ x Em). rewrite Hs. case_bool_decide; [|by apply Hl].
      rewrite level_RaiseValidity by (unfold BLOCK_VALID_TRANSACTIONS; lia).
      rewrite level_lor by done. specialize (Hl p Hp). destruct (has _ _); [done|lia].
  - intros x. unfold stored in *. rewrite Hs in Hst' |- *. rewrite bool_decide_true in Hst' by done.
    case_bool_decide; [by rewrite Hst', orb_true_r|by rewrite orb_false_r].
Qed.
End accepts.

(** ** AcceptBlock *)

Section accept_block.
Context {V : Type} `{CoinsView V}.
Variable address : list Z → Z.
Hypothesis address_inj : ∀ h h', address h = address h' → h = h'.
Variable params : CChainParams.
Hypothesis params_sane : sane_params params.
Variable nMaxReorgDepth : Z.
Variable hashGenesisBlock : list Z.
Variable fEnabled : bool.
Variable cps : MapCheckpoints.
Variable argon2m_hash : list Z → list Z.
Variable o : Oracles.
Variable fuel : nat.

Abbreviation state n := (tree (chain n)).
Abbreviation hash_of b := (GetHash argon2m_hash (header b)).
Abbreviation ok := (node_ok address hashGenesisBlock).

(** What the node relies on for a block: it was read from bytes, its difficulty is
    a positive target, the work and the transactions of its chain still fit, a
    block known by its hash has the predecessor it names, and the payee is found
    without reading out of range. *)
Record acceptable (n : Node) (b : CBlock) : Prop := {
  ac_dom : dom f_block b;
  ac_bits : valid_bits (h_nBits (header b));
  ac_work : ∀ prev, mapBlockIndex (state n) !! hashPrevBlock (header b) = Some prev →
    work prev + expected_work (h_nBits (header b)) < 2 ^ 256;
  ac_count : ∀ x, known (state n) x → total_tx (state n) x + Z.of_nat (length (vtx b)) < 2 ^ 32;
  ac_name : ∀ p, mapBlockIndex (state n) !! hash_of b = Some p → hash_of b <> hashGenesisBlock →
    pprev p = mapBlockIndex (state n) !! hashPrevBlock (header b);
  ac_payee : ∀ s h, payee_valid o s b h <> None
}.

(** The predecessor of the block is marked as invalid and a checkpoint vouches for
    it: AcceptBlock then reconsiders it. *)
Record vouched (n : Node) (b : CBlock) (q : CBlockIndex) : Prop := {
  vo_block : hash_of b <> hashGenesisBlock;
  vo_prev : mapBlockIndex (state n) !! hashPrevBlock (header b) = Some q;
  vo_failed : failed (state n) q = true;
  vo_checkpoint : CheckCheckpoint fEnabled cps (nHeight q) (hashPrevBlock (header b)) true = true
}.

Lemma ContextualCheckBlockHeader_total s h st prev :
  ∃ st' r, ContextualCheckBlockHeader params nMaxReorgDepth hashGenesisBlock fEnabled cps argon2m_hash s h st (Some prev)
           = Ok (st', r) ∧ (r = true → st' = st).
Proof. unfold ContextualCheckBlockHeader. repeat (case_match || case_bool_decide); eauto; do 2 eexists; (split; [done|]); done. Qed.

Lemma header_spec n b st t bb :
  ok (state n) t bb → acceptable n b →
  ∃ n' st' px r, AcceptBlockHeader params nMaxReorgDepth hashGenesisBlock fEnabled cps argon2m_hash o n b st
      = Ok (n', st', px, r) ∧
    (r = false → n' = n) ∧
    (r = true → st' = st ∧ ok (state n') t bb ∧ files n' = files n ∧ mapRejectedBlocks n' = mapRejectedBlocks n ∧
       (∀ x, known (state n) x → known (state n') x ∧ status (state n') x = status (state n) x) ∧
       (∀ x, known (state n') x → ∃ y, known (state n) y ∧ total_tx (state n') x = total_tx (state n) y) ∧
       ∃ p, px = Some p ∧ known (state n') p ∧ phashBlock p = hash_of b ∧ failed (state n') p = false ∧
         (n' = n ∨ stored (state n') p = false) ∧
         (hash_of b <> hashGenesisBlock → pprev p = mapBlockIndex (state n) !! hashPrevBlock (header b))).
Proof.
  intros Hn Hb. pose proof (no_tree _ _ _ _ _ Hn) as Hok. pose proof (to_index _ _ _ _ Hok) as Hi.
  unfold AcceptBlockHeader. destruct (mapBlockIndex (state n) !! hash_of b) as [p|] eqn:Ep.
  - assert (phashBlock p = hash_of b) as Eph by by apply (io_hash _ Hi).
    fold (failed (state n) p). destruct (failed (state n) p) eqn:Ef; do 4 eexists; (split; [done|]); (split; [done|]); [done|].
    intros _. split_and!; try done; [by intros x Hx; exists x|]. exists p. split_and!; try done.
    + unfold known. by rewrite Eph.
    + by left.
    + by apply (ac_name _ _ Hb).
  - cbn [CheckBlockHeader andb negb]. destruct (no_genesis _ _ _ _ _ Hn) as (g & Hg & _).
    assert (hash_of b <> hashGenesisBlock) as Hng by congruence. rewrite bool_decide_false by done. cbn [negb andb].
    destruct (mapBlockIndex (state n) !! hashPrevBlock (header b)) as [prev|] eqn:Epv.
    2: { rewrite bool_decide_true by done. do 4 eexists. split; [done|]. done. }
    rewrite bool_decide_false by done. fold (failed (state n) prev).
    destruct (failed (state n) prev) eqn:Ef; [do 4 eexists; split; [done|]; done|].
    destruct (ContextualCheckBlockHeader_total (state n) (header b) st prev) as (st' & r & -> & Hr). cbn [rbind].
    destruct r; cbn [negb]; [|do 4 eexists; split; [done|]; done]. rewrite (Hr eq_refl).
    destruct (add_node_ok address address_inj hashGenesisBlock (state n) t bb (hash_of b) (header b)
      (stake_of b) (stake_data argon2m_hash o n b) prev Hn Ep Epv (ac_bits _ _ Hb) (ac_work _ _ Hb prev Epv))
      as (s' & p & -> & Hn' & Hkp & Hph & Hpp & Hst & Hfl & Hsame & Htot).
    cbn [rbind]. do 4 eexists. split; [done|]. split; [done|]. intros _.
    assert (files (touch_proof argon2m_hash n b) = files n ∧
            mapRejectedBlocks (touch_proof argon2m_hash n b) = mapRejectedBlocks n) as [E1 E2]
      by (unfold touch_proof; by destruct (_ && _)).
    split_and!; try done. exists p. split_and!; try done. by right.
Qed.

Lemma fork_spends_total s t b ins p : tree_ok address s t b → known s p → ∃ r, fork_spends o s ins (ancestry p) = Ok r.
Proof.
  intros [Hi _ Hc] Hp. destruct (co_tip _ _ _ _ Hc) as [Ht _].
  destruct (common_ancestor s p t Hi Hp Ht) as (g & Hgp & Hgt).
  assert (Contains (chainActive s) g = true) as Hg.
  { rewrite (co_chain _ _ _ _ Hc). apply (Contains_known s); [done..| |done]. by apply (known_ancestor s p g Hi Hp). }
  revert Hgp. generalize (ancestry p). intros l. induction l as [|x l IH]; intros Hin; [by apply elem_of_nil in Hin|].
  cbn [fork_spends]. destruct (Contains (chainActive s) x) eqn:E; [by eexists|].
  apply elem_of_cons in Hin as [->|Hin]; [congruence|]. destruct (existsb _ _); [by eexists|by apply IH].
Qed.

Lemma CheckWork_total n b t bb prev :
  ok (state n) t bb → known (state n) prev →
  ∃ n' r, CheckWork params argon2m_hash o n b (Some prev) = Ok (n', r) ∧
    chain n' = chain n ∧ files n' = files n ∧ mapRejectedBlocks n' = mapRejectedBlocks n.
Proof.
  intros Hn Hp. pose proof (to_index _ _ _ _ (no_tree _ _ _ _ _ Hn)) as Hi. unfold CheckWork.
  destruct (GetNextWorkRequired_total params prev params_sane (io_wf _ Hi prev Hp)) as (c & ->).
  { intros a Ha. apply (no_bits _ _ _ _ _ Hn). by apply (known_ancestor _ prev a Hi Hp). }
  cbn [of_pow rbind]. destruct (Block.IsProofOfWork b); [do 2 eexists; split; [done|]; done|].
  destruct (negb _); [do 2 eexists; split; [done|]; done|].
  destruct (stake_kernel o (state n) b); do 2 eexists; (split; [done|]); done.
Qed.

Lemma shape_length b : shape_rule b → 0 < Z.of_nat (length (vtx b)) < 2 ^ 32.
Proof. intros (H1 & _ & cb & rest & E & _). unfold MAX_BLOCK_SIZE_CURRENT in H1. rewrite E in *. cbn [length] in *. lia. Qed.

Lemma store_block_spec n b t bb st p dbp :
  ok (state n) t bb → dom f_block b → shape_rule b → known (state n) p → stored (state n) p = false →
  failed (state n) p = false →
  (∀ x, known (state n) x → total_tx (state n) x + Z.of_nat (length (vtx b)) < 2 ^ 32) →
  (∀ q, pprev p = Some q → failed (state n) q = false) → files_ok (vinfoBlockFile (files n)) →
  ∃ n' st' r, store_block address o n b st p dbp = Ok (n', st', r) ∧ ok (state n') t bb ∧
    mapBlockIndex (state n') = mapBlockIndex (state n) ∧ (∀ x, failed (state n') x = failed (state n) x) ∧
    (∀ x, stored (state n') x = stored (state n) x || (r && bool_decide (phashBlock x = phashBlock p))) ∧
    (dbp = None → files_ok (vinfoBlockFile (files n'))).
Proof.
  intros Hn Hd Hs Hp Hst Hf Hcount Hprev Hfiles. pose proof (shape_length b Hs) as Hlen.
  unfold store_block. set (add := u32 (u32 (Serialize.size_of f_block b) + 8)).
  assert (0 <= add < MAX_BLOCKFILE_SIZE) as Hadd.
  { destruct Hs as (_ & Hsz & _). pose proof (fmt_size _ Hd) as E. unfold MAX_BLOCK_SIZE_CURRENT in Hsz.
    unfold add. rewrite (wrap_small 32 (Serialize.size_of f_block b)) by (unfold in_uw; lia).
    rewrite wrap_small by (unfold in_uw; lia). unfold MAX_BLOCKFILE_SIZE. lia. }
  assert (∃ f pos k, FindBlockPos (disk_space o) (files n) (default (mkPos (-1) 0) dbp) add (nHeight p) (h_nTime (header b))
            (bool_decide (dbp <> None)) = Ok (f, pos, k) ∧ (dbp = None → files_ok (vinfoBlockFile f))) as (f & pos & k & -> & Hf').
  { destruct dbp as [d|]; cbn [default].
    - rewrite bool_decide_true by done. unfold FindBlockPos. cbn [rbind negb andb]. do 3 eexists. split; [done|]. done.
    - rewrite bool_decide_false by (intros ?; done).
      destruct (FindBlockPos_spec (disk_space o) (files n) (mkPos (-1) 0) add (nHeight p) (h_nTime (header b)) Hfiles Hadd)
        as (f & m & k & E & Hv & _). rewrite E. do 3 eexists. split; [done|]. by intros _. }
  cbn [rbind]. assert (∀ x (r : bool), stored (state n) x = stored (state n) x || (false && r)) as Hsame
    by (intros; cbn; by rewrite orb_false_r).
  destruct k; cbn [negb].
  2: { do 3 eexists. split; [done|]. split_and!; done. }
  destruct (_ && _).
  { do 3 eexists. split; [done|]. split_and!; done. }
  set (where_ := (pos_file pos, _)).
  destruct (received_node_ok address address_inj hashGenesisBlock (state n) t bb p (Z.of_nat (length (vtx b))) where_
    Hn Hp Hst Hf Hlen Hcount Hprev) as (s' & E & Hn' & Em & Hst' & Hfl').
  cbn [with_files chain tree]. rewrite E. cbn [rbind]. do 3 eexists. split; [done|]. split_and!; try done.
Qed.

(** What AcceptBlock does to the node: the invariant stays, no other block fails
    or is stored, and if it returns true the block is stored and not failed. *)
Record accepted_into (n n' : Node) (b : CBlock) (px : option CBlockIndex) (r : bool) (dbp : option CDiskBlockPos)
    (t bb : CBlockIndex) : Prop := {
  ar_ok : ok (state n') t bb;
  ar_known : ∀ x, known (state n) x → known (state n') x;
  ar_failed : ∀ x, known (state n) x → phashBlock x <> hash_of b → failed (state n') x = failed (state n) x;
  ar_stored : ∀ x, known (state n) x →
    stored (state n') x = stored (state n) x ∨ (r = true ∧ phashBlock x = hash_of b);
  ar_true : r = true → ∃ p, px = Some p ∧ known (state n') p ∧ phashBlock p = hash_of b ∧
    stored (state n') p = true ∧ failed (state n') p = false;
  ar_files : dbp = None → files_ok (vinfoBlockFile (files n'))
}.

Lemma accepted_refl n n' b px dbp t bb :
  ok (state n) t bb → files_ok (vinfoBlockFile (files n)) → chain n' = chain n → files n' = files n →
  accepted_into n n' b px false dbp t bb.
Proof. intros Hn Hf Ec Ef. split; rewrite ?Ec, ?Ef; auto; done. Qed.

(** A later step, from a node that only knows one more header. *)
Lemma accepted_step n n1 n' b px r dbp t bb :
  (∀ x, known (state n) x → known (state n1) x ∧ status (state n1) x = status (state n) x) →
  accepted_into n1 n' b px r dbp t bb → accepted_into n n' b px r dbp t bb.
Proof.
  intros Hs [H1 H2 H3 H4 H5 H6]. split; try done.
  - intros x Hx. by apply H2, Hs.
  - intros x Hx Hne. destruct (Hs x Hx) as [Hk E]. rewrite (H3 x Hk Hne). unfold failed. by rewrite E.
  - intros x Hx. destruct (Hs x Hx) as [Hk E]. destruct (H4 x Hk) as [->|]; [|by right]. left. unfold stored. by rewrite E.
Qed.

Lemma acceptable_chain n n' b : chain n' = chain n → acceptable n b → acceptable n' b.
Proof. intros E [H1 H2 H3 H4 H5 H6]. split; rewrite ?E; done. Qed.

Lemma IsCoinBase_input t : IsCoinBase t = true → ∃ i, head (vin t) = Some i.
Proof. unfold IsCoinBase. destruct (vin t) as [|i [|]]; [done| |done]. intros _. by exists i. Qed.

Lemma ContextualCheckBlock_total s b st prev :
  shape_rule b → ∃ st' r, ContextualCheckBlock params o s b st prev = Ok (st', r).
Proof.
  intros (_ & _ & cb & rest & E & Hcb & _). destruct (IsCoinBase_input cb Hcb) as (i & Hi).
  unfold ContextualCheckBlock. destruct (negb _); [by eauto|]. destruct (_ && _); [|by eauto].
  rewrite E. cbn [head mbind option_bind]. rewrite Hi. case_bool_decide; eauto.
Qed.

Lemma check_step n b (checked : bool) :
  (checked = true → shape_rule b) → (∀ s h, payee_valid o s b h <> None) →
  ∃ rej st' k, (if checked then Ok (mapRejectedBlocks n, new_validation, true)
                else match CheckBlock params argon2m_hash (adjusted_time o) (now o) (initial_download o (state n))
                             (payee_valid o (state n)) (state n) (mapRejectedBlocks n) b new_validation true true with
                     | None => Throw (Crash OutOfRange)
                     | Some r => Ok r
                     end) = Ok (rej, st', k) ∧ (k = true → shape_rule b).
Proof.
  intros Hs Hp. destruct checked; [do 3 eexists; split; [done|]; by intros _; apply Hs|].
  destruct (check_block_verdict params (sp_money _ params_sane) argon2m_hash (adjusted_time o) (now o)
    (initial_download o (state n)) (payee_valid o (state n)) (state n) (mapRejectedBlocks n) b)
    as [_ (? & -> & _)|_ _ (? & -> & _)|_ _ _ (? & -> & _)|_ _ _ _ (? & -> & _)|_ _ _ _ _ (? & ? & -> & _)|_ _ _ _ Hn ->
       |_ _ _ _ _ _ (? & -> & _)|_ _ _ _ _ _ _ (? & -> & _)|_ _ _ Hshape _ _ _ ->];
    try (do 3 eexists; split; [done|]; done).
  exfalso. unfold payee_known in Hn. destruct (_ && _); [|done]. by apply Hp in Hn.
Qed.

Lemma stake_checks_total s t bb pcoinsTip spent b prev :
  tree_ok address s t bb → known s prev → Block.IsProofOfStake b = true →
  ∃ r, stake_checks (V := V) o s pcoinsTip spent b (Some prev) = Ok r.
Proof.
  intros Hok Hp Hpos. unfold stake_checks. unfold Block.IsProofOfStake, vtx_IsProofOfStake in Hpos.
  destruct (vtx b) as [|? [|tx ?]]; [done..|]. destruct (_ && _); [by eexists|].
  destruct (Contains _ _); [by eexists|].
  destruct (fork_spends_total s t bb (map prevout (vin tx)) prev Hok Hp) as (r & ->). by eexists.
Qed.

Lemma check_and_store_spec n pcoinsTip spent b dbp checked prev p t bb :
  ok (state n) t bb → dom f_block b → files_ok (vinfoBlockFile (files n)) → (checked = true → shape_rule b) →
  (∀ s h, payee_valid o s b h <> None) →
  known (state n) p → phashBlock p = hash_of b → stored (state n) p = false → failed (state n) p = false →
  (∀ x, known (state n) x → total_tx (state n) x + Z.of_nat (length (vtx b)) < 2 ^ 32) →
  pprev p = Some prev → failed (state n) prev = false →
  ∃ n' st' r, check_and_store (V := V) address params argon2m_hash o n pcoinsTip spent b new_validation dbp checked (Some prev) p
      = Ok (n', st', r) ∧ accepted_into n n' b (Some p) r dbp t bb.
Proof.
  intros Hn Hd Hfiles Hchecked Hpayee Hp Hph Hst Hf Hcount Hpp Hfp. unfold check_and_store.
  pose proof (to_index _ _ _ _ (no_tree _ _ _ _ _ Hn)) as Hi.
  destruct (check_step n b checked Hchecked Hpayee) as (rej & st1 & k & -> & Hshape). cbn [rbind].
  assert (∃ st2 k2, (if k then ContextualCheckBlock params o (state (with_rejected n rej)) b st1 (pprev p) else Ok (st1, false))
                    = Ok (st2, k2) ∧ (k2 = true → k = true)) as (st2 & k2 & -> & Hk2).
  { destruct k; [|do 2 eexists; split; [done|]; done].
    destruct (ContextualCheckBlock_total (state (with_rejected n rej)) b st1 (pprev p) (Hshape eq_refl)) as (st2 & k2 & ->).
    do 2 eexists. split; [done|]. done. }
  cbn [rbind]. destruct k2; cbn [negb].
  2: { destruct (Block.IsInvalid st2 && negb (corruptionPossible st2)); do 3 eexists; (split; [done|]).
       2: by apply accepted_refl.
       destruct (mark_node_ok address address_inj hashGenesisBlock (state n) t bb p Hn Hp Hst) as (Hn' & Em & Hst' & Hf').
       split; cbn [with_chainstate chain tree with_rejected files]; try done.
       - intros x Hx Hne. rewrite Hf', bool_decide_false, orb_false_r; [done|]. congruence.
       - intros x _. left. apply Hst'. }
  specialize (Hshape (Hk2 eq_refl)).
  assert (∃ r, (if Block.IsProofOfStake b then stake_checks (V := V) o (state (with_rejected n rej)) pcoinsTip spent b (Some prev)
                else Ok true) = Ok r) as ([|] & ->).
  { destruct (Block.IsProofOfStake b) eqn:Epos; [|by eexists].
    apply (stake_checks_total _ t bb); [apply (no_tree _ _ _ _ _ Hn)|by apply (io_prev _ Hi p prev)|done]. }
  2: { cbn [rbind negb]. do 3 eexists. split; [done|]. by apply accepted_refl. }
  cbn [rbind negb].
  destruct (store_block_spec (with_rejected n rej) b t bb st2 p dbp Hn Hd Hshape Hp Hst Hf Hcount)
    as (n' & st' & r & -> & Hn' & Em & Hf' & Hst' & Hfiles'); [by intros q Hq; rewrite Hpp in Hq; injection Hq as <-|done|].
  exists n', st', r. split; [done|]. cbn [with_rejected chain tree files] in *. split; try done.
  - intros x Hx. by apply (known_ext (state n)).
  - intros x Hx. rewrite Hst'. destruct r; cbn [andb]; [|left; by rewrite orb_false_r].
    case_bool_decide as E; [right|left; by rewrite orb_false_r]. split; [done|]. congruence.
  - intros ->. exists p. split_and!; try done; [by apply (known_ext (state n))| |by rewrite Hf'].
    rewrite Hst', bool_decide_true by done. apply orb_true_r.
Qed.

Lemma root_stored s t bb g : tree_ok address s t bb → known s g → pprev g = None → stored s g = true.
Proof.
  intros [Hi Hd Hc] Hg Hroot. destruct (co_tip _ _ _ _ Hc) as [Ht [Htx _]].
  assert (∀ p, wf_index p → ∃ r, r ∈ ancestry p ∧ pprev r = None) as Hex.
  { induction 1 as [p Hp _ _|p q Hq _ (r & Hr & Hn) _ _]; [exists p; split; [apply ancestry_self|done]|].
    exists r. split; [|done]. rewrite ancestry_unfold, Hq. by right. }
  destruct (Hex t (io_wf _ Hi t Ht)) as (r & Hr & Hn).
  rewrite (io_root _ Hi g r Hg (proj1 (known_ancestor s t r Hi Ht Hr)) Hroot Hn). by apply (do_linked _ Hd t Ht Htx).
Qed.

Lemma accept_new_spec n pcoinsTip spent b dbp checked t bb pindexPrev :
  ok (state n) t bb → acceptable n b → files_ok (vinfoBlockFile (files n)) → (checked = true → shape_rule b) →
  pindexPrev = (if bool_decide (hash_of b = hashGenesisBlock) then None
                else mapBlockIndex (state n) !! hashPrevBlock (header b)) →
  (hash_of b <> hashGenesisBlock → ∃ q, pindexPrev = Some q ∧ failed (state n) q = false) →
  ∃ n' st' px r, accept_new (V := V) address params nMaxReorgDepth hashGenesisBlock fEnabled cps argon2m_hash o
      n pcoinsTip spent b new_validation dbp checked (bool_decide (hash_of b = hashGenesisBlock)) pindexPrev
      = Ok (n', st', px, r) ∧ accepted_into n n' b px r dbp t bb.
Proof.
  intros Hn Hb Hfiles Hchecked Eprev Hprev. pose proof (no_tree _ _ _ _ _ Hn) as Hok.
  pose proof (to_index _ _ _ _ Hok) as Hi. unfold accept_new.
  assert (∃ n0 k, (if bool_decide (hash_of b = hashGenesisBlock) then Ok (n, true)
                   else CheckWork params argon2m_hash o n b pindexPrev) = Ok (n0, k) ∧ chain n0 = chain n ∧ files n0 = files n)
    as (n0 & k & -> & Ec & Ef).
  { case_bool_decide as Eg; [by do 2 eexists|]. destruct (Hprev Eg) as (q & -> & _).
    destruct (CheckWork_total n b t bb q Hn) as (n0 & k & -> & Ec & Ef & _); [|by exists n0, k].
    unfold known. symmetry in Eprev. by rewrite (io_hash _ Hi _ _ Eprev). }
  cbn [rbind]. destruct k; cbn [negb]; [|do 4 eexists; split; [done|]; by apply accepted_refl].
  assert (state n0 = state n) as Es by by rewrite Ec.
  destruct (header_spec n0 b new_validation t bb) as (n1 & st1 & px & k & -> & Hbad & Hgood);
    [by rewrite Es|by apply (acceptable_chain n)|].
  cbn [rbind]. destruct k.
  2: { rewrite (Hbad eq_refl). destruct px as [p|]; cbn [negb]; do 4 eexists; (split; [done|]); by apply accepted_refl. }
  destruct (Hgood eq_refl) as (-> & Hn1 & Ef1 & _ & Hsame & Htot & p & -> & Hp & Hph & Hf & Hwas & Hpp). rewrite Es in *.
  cbn [negb]. fold (stored (state n1) p). destruct (stored (state n1) p) eqn:Hst.
  - do 4 eexists. split; [done|]. apply (accepted_step n n1); [done|]. split; try done; [by intros; left| |by rewrite Ef1, Ef].
    intros _. by exists p.
  - assert (hash_of b <> hashGenesisBlock) as Hng.
    { intros E. destruct (no_genesis _ _ _ _ _ Hn1) as (g & Hg & Hroot).
      pose proof (to_index _ _ _ _ (no_tree _ _ _ _ _ Hn1)) as Hi1.
      assert (p = g) as ->. { unfold known in Hp. rewrite Hph, E in Hp. congruence. }
      by rewrite (root_stored (state n1) t bb g (no_tree _ _ _ _ _ Hn1) Hp Hroot) in Hst. }
    destruct (Hprev Hng) as (q & Eq & Hfq). specialize (Hpp Hng). rewrite bool_decide_false in Eprev by done.
    rewrite <- Eprev, Eq in Hpp.
    assert (known (state n) q) as Hkq by (symmetry in Eprev; rewrite Eq in Eprev; unfold known; by rewrite (io_hash _ Hi _ _ Eprev)).
    destruct (check_and_store_spec n1 pcoinsTip spent b dbp checked q p t bb) as (n' & st' & r & E & Hacc);
      [done|apply (ac_dom _ _ Hb)|by rewrite Ef1, Ef|done|apply (ac_payee _ _ Hb)|done..| |done| |].
    + intros x Hx. destruct (Htot x Hx) as (y & Hy & ->). by apply (ac_count _ _ Hb).
    + destruct (Hsame q Hkq) as [_ E]. unfold failed. by rewrite E.
    + rewrite Eq, E. cbn [rbind]. do 4 eexists. split; [done|]. by apply (accepted_step n n1).
Qed.
End accept_block.

(** With a predecessor that no checkpoint brings back. *)
Lemma AcceptBlock_spec {V : Type} `{CoinsView V} address params nMaxReorgDepth hashGenesisBlock fEnabled cps
    argon2m_hash o n (pcoinsTip : V) mapStakeSpent b dbp fAlreadyCheckedBlock t bb :
  (∀ h h', address h = address h' → h = h') → sane_params params →
  node_ok address hashGenesisBlock (tree (chain n)) t bb →
  acceptable hashGenesisBlock argon2m_hash o n b →
  files_ok (vinfoBlockFile (files n)) → (fAlreadyCheckedBlock = true → shape_rule b) →
  (∀ q, ¬ vouched hashGenesisBlock fEnabled cps argon2m_hash n b q) →
  ∃ n' st' px r,
    (∀ fuel, AcceptBlock address params nMaxReorgDepth hashGenesisBlock fEnabled cps argon2m_hash o fuel
       n pcoinsTip mapStakeSpent b new_validation dbp fAlreadyCheckedBlock = Ok (n', st', px, r)) ∧
    accepted_into address hashGenesisBlock argon2m_hash n n' b px r dbp t bb.
Proof.
  intros Hinj Hparams Hn Hb Hfiles Hchecked Hvo. unfold AcceptBlock.
  set (prev := if bool_decide (GetHash argon2m_hash (header b) = hashGenesisBlock) then None else _).
  destruct (negb _ && _) eqn:E1; [do 4 eexists; split; [done|]; by apply accepted_refl|].
  assert (∀ q, prev = Some q → GetHash argon2m_hash (header b) <> hashGenesisBlock ∧
            mapBlockIndex (tree (chain n)) !! hashPrevBlock (header b) = Some q) as Hq.
  { intros q. unfold prev. by case_bool_decide. }
  assert ((∀ q, prev = Some q → failed (tree (chain n)) q = false) → ∃ n' st' px r,
    accept_new address params nMaxReorgDepth hashGenesisBlock fEnabled cps argon2m_hash o n pcoinsTip mapStakeSpent b
      new_validation dbp fAlreadyCheckedBlock (bool_decide (GetHash argon2m_hash (header b) = hashGenesisBlock)) prev
      = Ok (n', st', px, r) ∧ accepted_into address hashGenesisBlock argon2m_hash n n' b px r dbp t bb) as Hnew.
  { intros Hf. apply (accept_new_spec address Hinj params Hparams); try done. intros Hng.
    destruct prev as [q|]; [exists q; split; [done|by apply Hf]|]. by rewrite bool_decide_false in E1. }
  destruct prev as [q|] eqn:Eprev.
  - fold (failed (tree (chain n)) q). destruct (failed (tree (chain n)) q) eqn:Ef.
    + destruct (Hq q eq_refl) as [Hng Hpq].
      destruct (CheckCheckpoint fEnabled cps (nHeight q) (hashPrevBlock (header b)) true) eqn:Ec; [by destruct (Hvo q)|].
      do 4 eexists. split; [done|]. by apply accepted_refl.
    + destruct Hnew as (n' & st' & px & r & E & Hacc); [by intros q' [= <-]|]. exists n', st', px, r. by split.
  - destruct Hnew as (n' & st' & px & r & E & Hacc); [done|]. exists n', st', px, r. by split.
Qed.

(** What the activation needs to end after the predecessor [q] is reconsidered,
    and the bound it ends within. *)
Record reconsiderable (address : list Z → Z) (o : Oracles) (n : Node) (q t bb : CBlockIndex) : Prop := {
  rc_steady : steady (activation o);
  rc_tried : tried (activation o) t bb;
  rc_worse : ∀ a, a ∈ ancestry q → a <> q → failed (tree (chain n)) a = true →
    CBlockIndexWorkComparator address (tree (chain n)) a bb = true
}.

(** What AcceptBlock does to the node instead of accepting a block whose
    predecessor [q] is brought back by a checkpoint. *)
Record reconsidered_into address hashGenesisBlock (n n' : Node) (q t' bb' : CBlockIndex) : Prop := {
  ri_ok : node_ok address hashGenesisBlock (tree (chain n')) t' bb';
  ri_tip : Tip (chainActive (tree (chain n'))) false = Some t';
  ri_index : mapBlockIndex (tree (chain n')) = mapBlockIndex (tree (chain n));
  ri_stored : ∀ x, stored (tree (chain n')) x = stored (tree (chain n)) x;
  ri_failed : ∀ x, known (tree (chain n)) x → failed (tree (chain n)) x = true →
    failed (tree (chain n')) x = true ∨ q ∈ ancestry x ∨ x ∈ ancestry q;
  ri_files : files n' = files n
}.

Lemma node_ok_steps address genesis s s' t b t' b' :
  node_ok address genesis s t b → mapBlockIndex s' = mapBlockIndex s →
  (∀ x, Z.land (status s x) BLOCK_VALID_MASK <= Z.land (status s' x) BLOCK_VALID_MASK) →
  tree_ok address s' t' b' → node_ok address genesis s' t' b'.
Proof.
  intros [_ Hb Hl Hg] Em Hs Hok. split; [done| | |by rewrite Em].
  - intros x Hx%(known_ext _ _ x Em). by apply Hb.
  - intros x Hx%(known_ext _ _ x Em). etransitivity; [|apply Hs]. by apply Hl.
Qed.

Lemma AcceptBlock_reconsiders {V : Type} `{CoinsView V} address params nMaxReorgDepth hashGenesisBlock fEnabled cps
    argon2m_hash o n (pcoinsTip : V) mapStakeSpent b st dbp fAlreadyCheckedBlock t bb q :
  (∀ h h', address h = address h' → h = h') →
  node_ok address hashGenesisBlock (tree (chain n)) t bb →
  vouched hashGenesisBlock fEnabled cps argon2m_hash n b q → reconsiderable address o n q t bb →
  ∃ N, ∀ fuel, (N <= fuel)%nat → ∃ n' t' bb',
    AcceptBlock address params nMaxReorgDepth hashGenesisBlock fEnabled cps argon2m_hash o fuel
       n pcoinsTip mapStakeSpent b st dbp fAlreadyCheckedBlock = Ok (n', st, None, true) ∧
    reconsidered_into address hashGenesisBlock n n' q t' bb' ∧ tried (activation o) t' bb'.
Proof.
  intros Hinj Hn [Hng Hq Hf Hc] [Hst Htr Hw]. unfold AcceptBlock. rewrite (bool_decide_false _ Hng), Hq.
  pose proof (no_tree _ _ _ _ _ Hn) as Hok. pose proof (to_index _ _ _ _ Hok) as Hi.
  assert (known (tree (chain n)) q) as Hkq by (unfold known; by rewrite (io_hash _ Hi _ _ Hq)).
  destruct (reconsider_spec address Hinj (tree (chain n)) t bb q Hok Hkq Hw) as (s1 & Er & Hok1 & Hsd & Hfail).
  exists (S (measure address s1 t)). intros fuel Hfuel. cbn [negb andb].
  rewrite bool_decide_false by done. fold (failed (tree (chain n)) q). rewrite Hf, Hc, Er. cbn [rbind].
  destruct (ActivateBestChain_spec address Hinj hashGenesisBlock (activation o) fuel s1 (calls (chain n)) t bb Hst Hok1 Htr)
    as (s2 & c2 & r2 & t2 & b2 & -> & Hok2 & Htr2 & Hs & _); [lia|].
  cbn [rbind fst]. do 3 eexists. split; [done|]. split; [|exact Htr2]. split; cbn [chain tree files]; [| | | | |done].
  - apply (node_ok_steps _ _ (tree (chain n)) s2 t bb); [done|by rewrite (st_index _ _ Hs); apply Hsd| |done].
    intros x. etransitivity; [apply (sd_level _ _ Hsd)|apply (st_level _ _ Hs)].
  - pose proof (to_chain _ _ _ _ Hok2) as Hc2. apply (Tip_known s2); [apply Hok2|apply (co_tip _ _ _ _ Hc2)|apply Hc2].
  - rewrite (st_index _ _ Hs). apply Hsd.
  - intros x. rewrite (st_stored _ _ Hs). apply (sd_stored _ _ Hsd).
  - intros x Hx Hfx. destruct (failed s1 x) eqn:E1; [left; by apply (st_failed _ _ Hs)|].
    apply (Hfail x Hx) in E1 as [|]; [congruence|by right].
Qed.


Lemma vouched_or_not hashGenesisBlock fEnabled cps argon2m_hash n b :
  (∃ q, vouched hashGenesisBlock fEnabled cps argon2m_hash n b q) ∨
  (∀ q, ¬ vouched hashGenesisBlock fEnabled cps argon2m_hash n b q).
Proof.
  destruct (decide (GetHash argon2m_hash (header b) = hashGenesisBlock)); [by right; intros q []|].
  destruct (mapBlockIndex (tree (chain n)) !! hashPrevBlock (header b)) as [q|] eqn:Eq; [|right; intros q []; congruence].
  destruct (failed (tree (chain n)) q) eqn:Ef; [|right; intros q' []; congruence].
  destruct (CheckCheckpoint fEnabled cps (nHeight q) (hashPrevBlock (header b)) true) eqn:Ec; [left; by exists q|].
  right. intros q' []. congruence.
Qed.

(** The block is known and its data stored. *)
Definition held argon2m_hash (n : Node) (b : CBlock) : Prop :=
  ∃ p, known (tree (chain n)) p ∧ phashBlock p = GetHash argon2m_hash (header b) ∧ stored (tree (chain n)) p = true.

(** The checks of ProcessNewBlock before AcceptBlock: either it stops there, or
    the rules hold and CheckBlock left the given state. *)
Lemma ProcessNewBlock_checks {V : Type} `{CoinsView V} address params nMaxReorgDepth hashGenesisBlock fEnabled cps
    argon2m_hash ecdsa_verify o n (pcoinsTip : V) mapStakeSpent b from_peer dbp :
  sane_params params → (∀ s h, payee_valid o s b h <> None) → CheckBlockSignature argon2m_hash ecdsa_verify b <> None →
  (∃ n' st', (∀ fuel, ProcessNewBlock address params nMaxReorgDepth hashGenesisBlock fEnabled cps argon2m_hash ecdsa_verify o fuel
      n pcoinsTip mapStakeSpent b new_validation from_peer dbp = Ok (n', st', false)) ∧ chain n' = chain n) ∨
  (header_rule params argon2m_hash b ∧ merkle_rule b ∧ shape_rule b ∧ CheckBlockSignature argon2m_hash ecdsa_verify b = Some true ∧
   ∀ fuel, ProcessNewBlock address params nMaxReorgDepth hashGenesisBlock fEnabled cps argon2m_hash ecdsa_verify o fuel
      n pcoinsTip mapStakeSpent b new_validation from_peer dbp
    = (let! r := AcceptBlock address params nMaxReorgDepth hashGenesisBlock fEnabled cps argon2m_hash o fuel
                   (with_rejected n (mapRejectedBlocks n)) pcoinsTip mapStakeSpent b new_validation dbp true in
       let '(n, st, _, ok) := r in
       if negb ok then Ok (n, st, false)
       else let! r := ActivateBestChain address hashGenesisBlock (activation o) fuel (chain n) in
            Ok (mkNode (fst r) (mapRejectedBlocks n) (mapProofOfStake n) (files n), st, snd r))).
Proof.
  intros Hparams Hpay Hsig. unfold ProcessNewBlock.
  pose proof (check_block_verdict params (sp_money _ Hparams) argon2m_hash (adjusted_time o) (now o)
    (initial_download o (tree (chain n))) (payee_valid o (tree (chain n))) (tree (chain n)) (mapRejectedBlocks n) b) as Hcheck.
  set (r := CheckBlock _ _ _ _ _ _ _ _ _ _ _ _) in *.
  assert ((∃ rej st, r = Some (rej, st, false)) ∨
          (r = Some (mapRejectedBlocks n, new_validation, true) ∧ header_rule params argon2m_hash b ∧ merkle_rule b ∧ shape_rule b))
    as [(rej & st & E)|(E & Hhead & Hmerkle & Hshape)].
  { destruct Hcheck as [_ (? & -> & _)|_ _ (? & -> & _)|_ _ _ (? & -> & _)|_ _ _ _ (? & -> & _)|_ _ _ _ _ (? & ? & -> & _)
      |_ _ _ _ Hpayee ->|_ _ _ _ _ _ (? & -> & _)|_ _ _ _ _ _ _ (? & -> & _)|? ? ? ? _ _ _ ->]; eauto.
    exfalso. unfold payee_known in Hpayee. destruct (_ && _); [|done]. by apply Hpay in Hpayee. }
  - left. rewrite E. destruct (CheckBlockSignature argon2m_hash ecdsa_verify b) as [[|]|]; [| |done].
    + destruct (EqualTo _ 0); [by do 2 eexists|]. destruct (_ && _); by do 2 eexists.
    + by do 2 eexists.
  - rewrite E. destruct (CheckBlockSignature argon2m_hash ecdsa_verify b) as [[|]|]; [|by left; do 2 eexists|done].
    destruct (EqualTo _ 0); [by left; do 2 eexists|]. destruct (_ && _); [by left; do 2 eexists|].
    by right.
Qed.

(** The activation that ends ProcessNewBlock. *)
Lemma activate_spec address hashGenesisBlock o fuel n (st : CValidationState) t b :
  (∀ h h', address h = address h' → h = h') → steady (activation o) →
  tree_ok address (tree (chain n)) t b → tried (activation o) t b →
  (S (size_of (tree (chain n))) * S (size_of (tree (chain n))) <= fuel)%nat →
  ∃ n' r, (let! r := ActivateBestChain address hashGenesisBlock (activation o) fuel (chain n) in
           Ok (mkNode (fst r) (mapRejectedBlocks n) (mapProofOfStake n) (files n), st, snd r)) = Ok (n', st, r) ∧
    steps (tree (chain n)) (tree (chain n')) ∧
    (r = true → ∃ t', tree_ok address (tree (chain n')) t' t' ∧ Tip (chainActive (tree (chain n'))) false = Some t' ∧
       ∀ x, known (tree (chain n')) x → solid (tree (chain n')) x →
         CBlockIndexWorkComparator address (tree (chain n')) t' x = false) ∧
    (r = false → env_error (activation o)).
Proof.
  intros Hinj Hst Hok Htr Hfuel. pose proof (measure_bound address (tree (chain n)) t).
  destruct (ActivateBestChain_spec address Hinj hashGenesisBlock (activation o) fuel (tree (chain n)) (calls (chain n)) t b
    Hst Hok Htr) as (s2 & c2 & r2 & t2 & b2 & E & _ & _ & Hs & Hend); [lia|].
  destruct (chain n) as [s1 c1]. cbn [tree calls] in *. rewrite E. cbn [rbind fst snd]. do 2 eexists. split; [done|]. cbn [chain tree]. split_and!; [done| |by intros ->].
  intros ->. destruct Hend as [Hok2 Hbest]. exists t2. split_and!; [done| |done].
  pose proof (to_chain _ _ _ _ Hok2) as Hc2. apply (Tip_known s2); [apply Hok2|apply (co_tip _ _ _ _ Hc2)|apply Hc2].
Qed.


(** ** A block on the genesis block *)

#[local] Transparent f_block.

Definition ex_new_block : CBlock :=
  Eval vm_compute in
    mkBlock (mkHeader 3 (uint256 100) (limbs_of_bytes 8 (tx_hash (ex_coinbase 7))) 1060 545259519 0) [ex_coinbase 7] [].

Definition ex_oracles : Oracles :=
  mkOracles 2000 2000 (λ _, false) (λ _ _ _, Some true) (λ _ _, None) (λ _ _, (0, false, 0)) (λ _, []) (λ _, true)
    (λ _ _, true) ex_env.

Definition ex_node : Node := mkNode (mkActivation ex_base 0) ∅ ∅ ex_files.

Lemma known_forallb s (f : CBlockIndex → bool) : index_ok s → forallb f (all_blocks s) = true → ∀ x, known s x → f x = true.
Proof. intros Hi H x Hx. rewrite forallb_forall in H. apply H, list_elem_of_In. by apply elem_of_all_blocks. Qed.

Lemma ex_node_ok_of s n :
  tree_ok ex_address s ex_g ex_g →
  forallb (λ x, (0 <=? nBits x) && (nBits x <? 2 ^ 32)) (all_blocks s) = true →
  forallb (λ x, BLOCK_VALID_TREE <=? Z.land (status s x) BLOCK_VALID_MASK) (all_blocks s) = true →
  mapBlockIndex s !! uint256 100 = Some ex_g → tree (chain n) = s → node_ok ex_address (uint256 100) (tree (chain n)) ex_g ex_g.
Proof.
  intros Hok Hb Hl Hg ->. pose proof (to_index _ _ _ _ Hok) as Hi. split; [done| | |by exists ex_g].
  - intros x Hx. pose proof (known_forallb s _ Hi Hb x Hx) as H. cbn beta in H. unfold in_uw. lia.
  - intros x Hx. apply Z.leb_le. exact (known_forallb s _ Hi Hl x Hx).
Qed.

Lemma ex_node_ok : node_ok ex_address (uint256 100) (tree (chain ex_node)) ex_g ex_g.
Proof. apply (ex_node_ok_of ex_base); [exact ex_base_ok|by vm_compute..|reflexivity]. Qed.

Lemma ex_files_ok : files_ok (vinfoBlockFile ex_files).
Proof. intros k. destruct k as [|[|k]]; vm_compute; split; discriminate. Qed.

Lemma ex_acceptable : acceptable (uint256 100) ex_argon ex_oracles ex_node ex_new_block.
Proof.
  pose proof (to_index _ _ _ _ ex_base_ok) as Hi.
  assert (mapBlockIndex (tree (chain ex_node)) !! hashPrevBlock (header ex_new_block) = Some ex_g) as Eg by by vm_compute.
  assert (mapBlockIndex (tree (chain ex_node)) !! GetHash ex_argon (header ex_new_block) = None) as En by by vm_compute.
  split.
  - assert (Forall is_byte (ser f_block ex_new_block)) as Hb by (apply bytes_bool; vm_compute; reflexivity).
    apply (fmt_canonical (f := f_block) (ser f_block ex_new_block) ex_new_block [] Hb). vm_compute. reflexivity.
  - exact ex_bits.
  - intros prev Hp. rewrite Eg in Hp. injection Hp as <-. by vm_compute.
  - intros x Hx. pose proof (total_tx_below_spec ex_base 100 Hi ltac:(by vm_compute) x Hx) as H. cbn [vtx ex_new_block length].
    change (tree (chain ex_node)) with ex_base. lia.
  - intros p Hp. by rewrite En in Hp.
  - intros s h. discriminate.
Qed.

Lemma ex_not_vouched q : ¬ vouched (uint256 100) true mapCheckpointsRegtest ex_argon ex_node ex_new_block q.
Proof.
  intros [_ Hq Hf _]. assert (mapBlockIndex (tree (chain ex_node)) !! hashPrevBlock (header ex_new_block) = Some ex_g) as E by by vm_compute.
  rewrite E in Hq. injection Hq as <-. by vm_compute in Hf.
Qed.

(** A block on a checkpointed block that was invalidated: the predecessor is
    reconsidered and AcceptBlock returns true, but the block itself is neither
    linked nor stored. *)
Definition ex_invalid_tree : ChainState :=
  Eval vm_compute in fst (ok_or (initial, false) (InvalidateBlock ex_address ex_tree4 ex_a [true])).
Definition ex_child : CBlock :=
  mkBlock (mkHeader 3 (uint256 101) (uint256 0) 1060 545259519 0) [ex_coinbase 7] [].
Definition ex_invalid_node : Node := mkNode (mkActivation ex_invalid_tree 0) ∅ ∅ ex_files.

Example reconsidered_block_is_dropped :
  match AcceptBlock ex_address CRegTestParams 100 (uint256 100) true [(1, uint256 101)] ex_argon ex_oracles 20
     ex_invalid_node ex_db [] ex_child new_validation None false with
  | Ok (n', _, px, r) => r = true ∧ px = None ∧ mapBlockIndex (tree (chain n')) !! GetHash ex_argon (header ex_child) = None
  | Throw _ => False
  end.
Proof. vm_compute. split_and!; reflexivity. Qed.

Lemma ex_env_steady : steady ex_env.
Proof. intros n p corrupt. discriminate. Qed.

Lemma ex_invalid_node_ok : node_ok ex_address (uint256 100) (tree (chain ex_invalid_node)) ex_g ex_g.
Proof.
  destruct (invalidate_spec ex_address ex_address_inj ex_tree4 ex_g ex_g ex_a ex_g [true] ex_tree4_ok) as (s' & E & Hok & _);
    [by vm_compute..|by repeat constructor|by vm_compute; lia|].
  assert (InvalidateBlock ex_address ex_tree4 ex_a [true] = Ok (ex_invalid_tree, true)) as E' by (by vm_compute).
  rewrite E' in E. injection E as <-. apply (ex_node_ok_of ex_invalid_tree); [exact Hok|by vm_compute..|reflexivity].
Qed.

Lemma ex_child_acceptable : acceptable (uint256 100) ex_argon ex_oracles ex_invalid_node ex_child.
Proof.
  pose proof (to_index _ _ _ _ (no_tree _ _ _ _ _ ex_invalid_node_ok)) as Hi.
  assert (mapBlockIndex (tree (chain ex_invalid_node)) !! hashPrevBlock (header ex_child) = Some ex_a) as Ea by by vm_compute.
  assert (mapBlockIndex (tree (chain ex_invalid_node)) !! GetHash ex_argon (header ex_child) = None) as En by by vm_compute.
  split.
  - assert (Forall is_byte (ser f_block ex_child)) as Hb by (apply bytes_bool; vm_compute; reflexivity).
    apply (fmt_canonical (f := f_block) (ser f_block ex_child) ex_child [] Hb). vm_compute. reflexivity.
  - exact ex_bits.
  - intros prev Hp. rewrite Ea in Hp. injection Hp as <-. by vm_compute.
  - intros x Hx. pose proof (total_tx_below_spec ex_invalid_tree 100 Hi ltac:(by vm_compute) x Hx) as H. cbn [vtx ex_child length].
    change (tree (chain ex_invalid_node)) with ex_invalid_tree. lia.
  - intros p Hp. by rewrite En in Hp.
  - intros s h. discriminate.
Qed.

Lemma ex_vouched : vouched (uint256 100) true [(1, uint256 101)] ex_argon ex_invalid_node ex_child ex_a.
Proof. by split; vm_compute. Qed.

Lemma ex_reconsiderable : reconsiderable ex_address ex_oracles ex_invalid_node ex_a ex_g ex_g.
Proof.
  split; [exact ex_env_steady|exact (ex_tried ex_env)|].
  assert (ancestry ex_a = [ex_a; ex_g]) as -> by reflexivity.
  intros a [->|[->|[]%elem_of_nil]%elem_of_cons]%elem_of_cons Hne Hf; [done|]. by vm_compute in Hf.
Qed.



(** The claimed work may be a third less than required, not half, and not twice
    as much; a mantissa of zero, whose difficulty is infinite, passes. *)
Example work_tolerance :
  too_far (ConvertBitsToDouble 0x1d00ffff) (ConvertBitsToDouble 0x1d00ffff) = false ∧
  too_far (ConvertBitsToDouble 0x1d017ffe) (ConvertBitsToDouble 0x1d00ffff) = false ∧
  too_far (ConvertBitsToDouble 0x1d01fffe) (ConvertBitsToDouble 0x1d00ffff) = true ∧
  too_far (ConvertBitsToDouble 0x1d007fff) (ConvertBitsToDouble 0x1d00ffff) = true ∧
  too_far (ConvertBitsToDouble 0x1d000000) (ConvertBitsToDouble 0x1d00ffff) = false.
Proof. vm_compute. split_and!; reflexivity. Qed.

(** The required work itself is always close enough, at every exponent. *)
Example required_work_is_accepted :
  forallb (λ e, negb (too_far (ConvertBitsToDouble (e * 2 ^ 24 + 65535)) (ConvertBitsToDouble (e * 2 ^ 24 + 65535))))
    (map Z.of_nat (seq 0 256)) = true.
Proof. vm_compute. reflexivity. Qed.
