(* ===== verification/Numbers.v ===== *)
(** * Numbers as text: utilstrencodings and utilmoneystr

    Parsing of integers through the C library's [strtol] (on a platform with a
    64-bit [long]) and [strtoll], their printing through [%d], amounts of money
    with eight decimals, and the wrapping of paragraphs. A [std::string] is a
    list of bytes; a C string stops at its first NUL. *)

From S2P Require Import Prelude StrEncodings Params.

(** ** The C library *)

Definition isdigit (c : Z) : bool := (48 <=? c) && (c <=? 57).

(** [c_str()]: the bytes before the first NUL. *)
Fixpoint c_str (s : list Z) : list Z :=
  match s with
  | [] => []
  | c :: r => if c =? 0 then [] else c :: c_str r
  end.

(** The digits at the head of a string, and the rest. *)
Fixpoint span_digits (s : list Z) : list Z * list Z :=
  match s with
  | c :: r => if isdigit c then let '(ds, rest) := span_digits r in (c :: ds, rest) else ([], s)
  | [] => ([], [])
  end.

(** The number a string of decimal digits stands for. *)
Definition dec_val (ds : list Z) : Z := foldl (λ n c, 10 * n + (c - 48)) 0 ds.

Definition LONG_MAX : Z := 9223372036854775807.
Definition LONG_MIN : Z := - 9223372036854775808.

(** [strtol] and [strtoll] in base ten: the value, the text after it ([endp],
    the whole text if there is no number), and whether [errno] is [ERANGE]. *)
Definition strtol (s : list Z) : Z * list Z * bool :=
  let p := skip_spaces s in
  let '(neg, q) := match p with
                   | c :: r => if c =? 45 then (true, r) else if c =? 43 then (false, r) else (false, p)
                   | [] => (false, p)
                   end in
  let '(ds, rest) := span_digits q in
  match ds with
  | [] => (0, s, false)
  | _ => let v := if neg : bool then - dec_val ds else dec_val ds in
         if LONG_MAX <? v then (LONG_MAX, rest, true)
         else if v <? LONG_MIN then (LONG_MIN, rest, true)
         else (v, rest, false)
  end.

(** The decimal digits of a number; [log2 z + 1] digits are enough. *)
Fixpoint put_digits (fuel : nat) (z : Z) (acc : list Z) : list Z :=
  match fuel with
  | O => acc
  | S fuel => let acc := (48 + z mod 10) :: acc in
              if z / 10 =? 0 then acc else put_digits fuel (z / 10) acc
  end.

Definition put_dec (z : Z) : list Z := put_digits (S (Z.to_nat (Z.log2 z))) z [].
(** [%d]. *)
Definition put_d (z : Z) : list Z := if z <? 0 then 45 :: put_dec (- z) else put_dec z.
(** [%0nd]. *)
Definition put_0d (n : nat) (z : Z) : list Z :=
  if z <? 0 then 45 :: replicate (n - 1 - length (put_dec (- z))) 48 ++ put_dec (- z)
  else replicate (n - length (put_dec z)) 48 ++ put_dec z.

(** ** utilstrencodings *)

Definition ParsePrechecks (s : list Z) : bool :=
  match s with
  | [] => false
  | c :: _ =>
      if isspace c || isspace (List.last s 0) then false
      else (length s =? length (c_str s))%nat
  end.

(** The flag returned, and what is stored through [out]. *)
Definition ParseInt (s32 : Z → Z) (lo hi : Z) (s : list Z) : bool * option Z :=
  if ParsePrechecks s
  then let '(n, endp, errno) := strtol (c_str s) in
       (match endp with [] => true | _ => false end && negb errno && (lo <=? n) && (n <=? hi), Some (s32 n))
  else (false, None).

Definition ParseInt32 : list Z → bool * option Z := ParseInt s32 (- 2147483648) 2147483647.
Definition ParseInt64 : list Z → bool * option Z := ParseInt s64 LONG_MIN LONG_MAX.

Definition i64tostr (n : Z) : list Z := put_d n.
Definition itostr (n : Z) : list Z := put_d n.
Definition atoi64 (s : list Z) : Z := (strtol (c_str s)).1.1.

(** [find_first_not_of(' ', ptr)] and [find_first_of(' ', ptr)], on the rest of
    the text. *)
Fixpoint skip_blanks (s : list Z) : list Z :=
  match s with
  | c :: r => if c =? 32 then skip_blanks r else s
  | [] => []
  end.

Fixpoint span_word (s : list Z) : list Z * list Z :=
  match s with
  | c :: r => if c =? 32 then ([], s) else let '(w, rest) := span_word r in (c :: w, rest)
  | [] => ([], [])
  end.

(** The loop over [ptr]: each turn takes a word; the text is the fuel. *)
Fixpoint FormatParagraph_loop (fuel : nat) (width indent col : Z) (s out : list Z) : list Z :=
  match fuel with
  | O => out
  | S fuel =>
      match skip_blanks s with
      | [] => out
      | p =>
          let '(w, rest) := span_word p in
          let len := Z.of_nat (length w) in
          let '(out, col) :=
            if 0 <? col
            then if width <? col + len
                 then (out ++ 10 :: replicate (Z.to_nat indent) 32, 0)
                 else (out ++ [32], col)
            else (out, col) in
          FormatParagraph_loop fuel width indent (col + len + 1) rest (out ++ w)
      end
  end.

Definition FormatParagraph (s : list Z) (width indent : Z) : list Z :=
  FormatParagraph_loop (S (length s)) width indent 0 s [].

(** ** utilmoneystr *)

(** The trimming loop: [nTrim] at the end, for [i] counted from the last
    character of the string. *)
Fixpoint trim_zeros (fuel : nat) (s : list Z) (i : Z) : nat :=
  match fuel with
  | O => O
  | S fuel => if (getz s i =? 48) && isdigit (getz s (i - 2)) then S (trim_zeros fuel s (i - 1)) else O
  end.

(** [-n] wraps around for the smallest [int64_t]. *)
Definition FormatMoney (n : Z) (fPlus : bool) : list Z :=
  let n_abs := if 0 <? n then n else s64 (- n) in
  let quotient := Z.quot n_abs COIN in
  let remainder := Z.rem n_abs COIN in
  let s := put_d quotient ++ 46 :: put_0d 8 remainder in
  let nTrim := trim_zeros (length s) s (Z.of_nat (length s) - 1) in
  let s := take (length s - nTrim) s in
  if n <? 0 then 45 :: s else if fPlus && (0 <? n) then 43 :: s else s.

(** The digits after the point: at most while [nMult > 0]. *)
Fixpoint ParseMoney_units (p : list Z) (nUnits nMult : Z) : Z * list Z :=
  match p with
  | c :: r => if isdigit c && (0 <? nMult)
              then ParseMoney_units r (nUnits + nMult * (c - 48)) (Z.quot nMult 10)
              else (nUnits, p)
  | [] => (nUnits, [])
  end.

(** The main loop: the whole part, the units, and the text it stops at. *)
Fixpoint ParseMoney_loop (p strWhole : list Z) : option (list Z * Z * list Z) :=
  match p with
  | [] => Some (strWhole, 0, [])
  | c :: r =>
      if c =? 46 then let '(nUnits, p) := ParseMoney_units r 0 (CENT * 10) in Some (strWhole, nUnits, p)
      else if isspace c then Some (strWhole, 0, p)
      else if isdigit c then ParseMoney_loop r (strWhole ++ [c])
      else None
  end.

Definition ParseMoney (s : list Z) : option Z :=
  match ParseMoney_loop (skip_spaces (c_str s)) [] with
  | None => None
  | Some (strWhole, nUnits, p) =>
      if negb (forallb isspace p) then None
      else if 10 <? Z.of_nat (length strWhole) then None
      else if (nUnits <? 0) || (COIN <? nUnits) then None
      else Some (atoi64 strWhole * COIN + nUnits)
  end.

Example money_tests :
  map (λ n, FormatMoney n false) [0; 1234567890000; 1; 10; 100000000; -100000000]
  = map str ["0.00"; "12345.6789"; "0.00000001"; "0.0000001"; "1.00"; "-1.00"]%string.
Proof. vm_compute. reflexivity. Qed.

Example parse_money_tests :
  map (λ s, ParseMoney (str s)) ["0.0"; "12345.6789"; " 1 "; "92233720368.54775808"; "-1"; "0.123456789"; "."]%string
  = [Some 0; Some 1234567890000; Some 100000000; None; None; None; Some 0].
Proof. vm_compute. reflexivity. Qed.

Example parse_int_tests :
  map (λ s, ParseInt32 (str s)) ["1234"; "01234"; "-2147483648"; "2147483648"; " 1"; "0x1"; "+7"; "-32482348723847471234"]%string
  = [(true, Some 1234); (true, Some 1234); (true, Some (-2147483648)); (false, Some (-2147483648));
     (false, None); (false, Some 0); (true, Some 7); (false, Some 0)].
Proof. vm_compute. reflexivity. Qed.

Example paragraph_test :
  FormatParagraph (str "a list  of words") 6 2 = str "a list" ++ 10 :: str "  of" ++ 10 :: str "  words".
Proof. vm_compute. reflexivity. Qed.

(** ** Digits *)

Abbreviation digits := (Forall (λ c, isdigit c = true)).

Lemma isdigit_spec c : isdigit c = true ↔ 48 <= c <= 57.
Proof. unfold isdigit. rewrite andb_true_iff, !Z.leb_le. lia. Qed.

Lemma dec_val_cons c ds : dec_val (c :: ds) = (c - 48) * 10 ^ Z.of_nat (length ds) + dec_val ds.
Proof.
  unfold dec_val. assert (G : ∀ l n, foldl (λ n c, 10 * n + (c - 48)) n l
    = n * 10 ^ Z.of_nat (length l) + foldl (λ n c, 10 * n + (c - 48)) 0 l).
  { induction l as [|x l IH]; intros n; cbn [foldl length]; [cbn; lia|].
    rewrite IH, (IH (10 * 0 + (x - 48))), Nat2Z.inj_succ, Z.pow_succ_r by lia. ring. }
  cbn [foldl]. rewrite G. f_equal.
Qed.

Lemma dec_val_app a b : dec_val (a ++ b) = dec_val a * 10 ^ Z.of_nat (length b) + dec_val b.
Proof.
  induction a as [|c a IH]; [change (dec_val []) with 0; cbn [app]; lia|].
  rewrite <- app_comm_cons, !dec_val_cons, IH, length_app, Nat2Z.inj_add, Z.pow_add_r by lia. ring.
Qed.

Lemma dec_val_zeros n : dec_val (replicate n 48) = 0.
Proof. induction n as [|n IH]; [done|]. cbn [replicate]. rewrite dec_val_cons, IH. lia. Qed.

Lemma dec_val_range ds : digits ds → 0 <= dec_val ds < 10 ^ Z.of_nat (length ds).
Proof.
  induction 1 as [|c ds Hc _ IH]; [done|]. apply isdigit_spec in Hc.
  rewrite dec_val_cons. cbn [length]. rewrite Nat2Z.inj_succ, Z.pow_succ_r by lia. nia.
Qed.

Lemma put_digits_spec fuel z acc : 0 <= z < 10 ^ Z.of_nat fuel → (0 < fuel)%nat →
  ∃ ds, put_digits fuel z acc = ds ++ acc ∧ digits ds ∧ dec_val ds = z ∧ ds ≠ [] ∧
        (length ds = 1%nat ∨ 10 ^ (Z.of_nat (length ds) - 1) <= z).
Proof.
  revert z acc. induction fuel as [|fuel IH]; intros z acc Hz Hf; [lia|]. cbn [put_digits].
  assert (Hd : isdigit (48 + z mod 10) = true) by (apply isdigit_spec; divmod_lia).
  rewrite Nat2Z.inj_succ, Z.pow_succ_r in Hz by lia.
  destruct (Z.eqb_spec (z / 10) 0) as [E|E].
  - exists [48 + z mod 10]. split; [done|]. split; [by constructor|]. split; [|split; [done|by left]].
    cbn. divmod_lia.
  - destruct (IH (z / 10) ((48 + z mod 10) :: acc)) as (ds & -> & D & V & N & L).
    { divmod_lia. } { destruct fuel; [cbn in Hz; divmod_lia|lia]. }
    exists (ds ++ [48 + z mod 10]). rewrite <- (assoc_L app). split; [done|].
    split; [apply Forall_app; split; [done|by constructor]|].
    split; [rewrite dec_val_app, V; cbn; divmod_lia|].
    split; [by destruct ds|]. right. rewrite length_app. cbn [length].
    destruct L as [L|L]; [rewrite L; cbn; divmod_lia|].
    assert (0 < length ds)%nat by (destruct ds; cbn; [done|lia]).
    replace (Z.of_nat (length ds + 1) - 1) with (Z.succ (Z.of_nat (length ds) - 1)) by lia.
    rewrite Z.pow_succ_r by lia. divmod_lia.
Qed.

Lemma put_dec_spec z : 0 <= z →
  digits (put_dec z) ∧ dec_val (put_dec z) = z ∧ put_dec z ≠ [] ∧
  (length (put_dec z) = 1%nat ∨ 10 ^ (Z.of_nat (length (put_dec z)) - 1) <= z).
Proof.
  intros Hz. unfold put_dec.
  destruct (put_digits_spec (S (Z.to_nat (Z.log2 z))) z []) as (ds & -> & H); [|lia|by rewrite app_nil_r].
  split; [done|]. rewrite Nat2Z.inj_succ, Z2Nat.id by apply Z.log2_nonneg.
  destruct (Z.eq_dec z 0) as [->|]; [done|]. pose proof (Z.log2_spec z ltac:(lia)).
  pose proof (Z.log2_nonneg z).
  assert (2 ^ Z.succ (Z.log2 z) <= 10 ^ Z.succ (Z.log2 z)) by (apply Z.pow_le_mono_l; lia). lia.
Qed.

(** The number of digits of a number below a power of ten. *)
Lemma length_put_dec z k : 0 < k → 0 <= z < 10 ^ k → Z.of_nat (length (put_dec z)) <= k.
Proof.
  intros Hk Hz. destruct (put_dec_spec z ltac:(lia)) as (_ & _ & _ & [L|L]); [lia|].
  destruct (Z.le_gt_cases (Z.of_nat (length (put_dec z))) k) as [|G]; [done|].
  pose proof (Z.pow_le_mono_r 10 k (Z.of_nat (length (put_dec z)) - 1) ltac:(lia) ltac:(lia)). lia.
Qed.

Lemma length_put_dec_ge z k : 0 <= k → 10 ^ k <= z → k < Z.of_nat (length (put_dec z)).
Proof.
  intros Hk Hz. pose proof (Z.pow_pos_nonneg 10 k). destruct (put_dec_spec z ltac:(lia)) as (D & V & _).
  pose proof (dec_val_range _ D) as R. rewrite V in R.
  destruct (Z.le_gt_cases (Z.of_nat (length (put_dec z))) k) as [G|]; [|lia].
  pose proof (Z.pow_le_mono_r 10 _ _ ltac:(lia) G). lia.
Qed.

Lemma span_digits_app ds rest : digits ds → isdigit (hd 0 rest) = false → span_digits (ds ++ rest) = (ds, rest).
Proof.
  intros D Hr. induction D as [|c ds Hc _ IH]; cbn; [|by rewrite Hc, IH].
  destruct rest as [|c r]; [done|]. cbn in *. by rewrite Hr.
Qed.

Lemma span_digits_spec s : let '(ds, rest) := span_digits s in
  s = ds ++ rest ∧ digits ds ∧ isdigit (hd 0 rest) = false.
Proof.
  induction s as [|c r IH]; cbn; [done|]. destruct (isdigit c) eqn:E; [|done].
  destruct (span_digits r) as [ds rest]. destruct IH as (-> & D & H). repeat split; [|done]. by constructor.
Qed.

Lemma digit_facts c : isdigit c = true → isspace c = false ∧ c <> 0 ∧ c <> 45 ∧ c <> 43 ∧ c <> 46.
Proof. intros H%isdigit_spec. unfold isspace. repeat split; try lia. Qed.

(** Reading the digits back. *)
Lemma strtol_digits ds rest : digits ds → ds ≠ [] → isdigit (hd 0 rest) = false → dec_val ds <= LONG_MAX →
  strtol (ds ++ rest) = (dec_val ds, rest, false).
Proof.
  intros D N Hr Hv. unfold strtol. destruct ds as [|c ds]; [done|].
  destruct (digit_facts c) as (Hs & _ & ? & ? & _); [by inversion D|].
  rewrite <- app_comm_cons, skip_spaces_id, app_comm_cons by done.
  rewrite <- app_comm_cons at 1. rewrite (proj2 (Z.eqb_neq _ _)), (proj2 (Z.eqb_neq c 43)) by done.
  rewrite app_comm_cons, span_digits_app by done.
  pose proof (dec_val_range _ D). destruct (Z.ltb_spec LONG_MAX (dec_val (c :: ds))); [lia|].
  destruct (Z.ltb_spec (dec_val (c :: ds)) LONG_MIN); [unfold LONG_MIN in *; lia|done].
Qed.

Lemma c_str_id s : Forall (λ c, c <> 0) s → c_str s = s.
Proof. induction 1 as [|c s H _ IH]; cbn; [done|]. by rewrite (proj2 (Z.eqb_neq _ _)), IH. Qed.

Lemma c_str_full s : length s = length (c_str s) → c_str s = s.
Proof.
  induction s as [|c s IH]; cbn; [done|]. destruct (c =? 0); cbn; [done|]. intros [= E]. by rewrite IH.
Qed.

(** ** Parsing integers *)

(** [s] is an optionally signed decimal number that stands for [n]. *)
Definition is_int (s : list Z) (n : Z) : Prop :=
  ∃ ds, digits ds ∧ ds ≠ [] ∧ ((s = ds ∨ s = 43 :: ds) ∧ n = dec_val ds ∨ s = 45 :: ds ∧ n = - dec_val ds).

(** What [strtol] reads on a text that does not start with a blank. *)
Lemma strtol_inv c s n endp : isspace c = false → strtol (c :: s) = (n, endp, false) → endp = [] → is_int (c :: s) n.
Proof.
  intros Hc H ->. unfold strtol in H. rewrite skip_spaces_id in H by done.
  assert (G : ∀ (neg : bool) q, (let '(ds, rest) := span_digits q in
      match ds with
      | [] => (0, c :: s, false)
      | _ => let v := if neg then - dec_val ds else dec_val ds in
             if LONG_MAX <? v then (LONG_MAX, rest, true)
             else if v <? LONG_MIN then (LONG_MIN, rest, true) else (v, rest, false)
      end) = (n, [], false) →
    digits q ∧ q ≠ [] ∧ n = if neg then - dec_val q else dec_val q).
  { intros neg q E. pose proof (span_digits_spec q) as Hq. destruct (span_digits q) as [ds rest].
    destruct Hq as (-> & D & _). destruct ds as [|d ds]; [done|]. cbn zeta in E.
    repeat case_match; simplify_eq; rewrite app_nil_r; done. }
  destruct (Z.eqb_spec c 45) as [->|]; [|destruct (Z.eqb_spec c 43) as [->|]];
    [apply (G true s) in H as (D & N & ->)|apply (G false s) in H as (D & N & ->)|apply (G false (c :: s)) in H as (D & N & ->)].
  - exists s. split; [done|]. split; [done|]. by right.
  - exists s. split; [done|]. split; [done|]. left. by split; [right|].
  - exists (c :: s). split; [done|]. split; [done|]. left. by split; [left|].
Qed.

Lemma strtol_is_int s n : is_int s n → LONG_MIN <= n <= LONG_MAX → strtol s = (n, [], false).
Proof.
  intros (ds & D & N & H) Hn. unfold LONG_MAX, LONG_MIN in Hn. pose proof (dec_val_range _ D) as R.
  destruct H as [[[-> | ->] ->] | [-> ->]].
  - rewrite <- (app_nil_r ds) at 1. apply strtol_digits; done || (unfold LONG_MAX; lia).
  - unfold strtol. rewrite skip_spaces_id by done. cbn [Z.eqb Pos.eqb].
    rewrite <- (app_nil_r ds) at 1. rewrite span_digits_app by done. destruct ds; [done|]. cbn zeta.
    unfold LONG_MAX, LONG_MIN. repeat case_match; simplify_eq; try done; lia.
  - unfold strtol. rewrite skip_spaces_id by done. cbn [Z.eqb Pos.eqb].
    rewrite <- (app_nil_r ds) at 1. rewrite span_digits_app by done. destruct ds; [done|]. cbn zeta.
    unfold LONG_MAX, LONG_MIN. repeat case_match; simplify_eq; try done; lia.
Qed.

Lemma is_int_prechecks s n : is_int s n → ParsePrechecks s = true ∧ c_str s = s.
Proof.
  intros (ds & D & N & H).
  assert (C : c_str s = s).
  { apply c_str_id. destruct H as [[[-> | ->] _] | [-> _]]; [|constructor; [done|]..];
      (eapply Forall_impl; [exact D|]; intros c Hc; apply (digit_facts c Hc)). }
  split; [|done]. unfold ParsePrechecks.
  assert (L : isspace (List.last s 0) = false).
  { destruct (exists_last N) as (l & x & ->). apply Forall_app in D as [_ D].
    assert (E : List.last s 0 = x).
    { destruct H as [[[-> | ->] _] | [-> _]]; rewrite ?app_comm_cons; apply List.last_last. }
    rewrite E. apply digit_facts. by inversion D. }
  rewrite L, C, Nat.eqb_refl. destruct H as [[[-> | ->] _] | [-> _]]; try done.
  destruct ds as [|c ds]; [done|]. inversion D as [|?? Hc]. by rewrite (proj1 (digit_facts c Hc)).
Qed.

Lemma ParseInt_spec conv lo hi s n :
  LONG_MIN <= lo → hi <= LONG_MAX → (∀ z, lo <= z <= hi → conv z = z) →
  ParseInt conv lo hi s = (true, Some n) ↔ is_int s n ∧ lo <= n <= hi.
Proof.
  intros Hlo Hhi Hconv. unfold ParseInt. split.
  - destruct (ParsePrechecks s) eqn:P; [|done]. unfold ParsePrechecks in P. destruct s as [|c s]; [done|].
    destruct (isspace c) eqn:Hc; [done|]. cbn [orb] in P. destruct (isspace (List.last _ _)); [done|].
    apply Nat.eqb_eq, c_str_full in P. rewrite P.
    destruct (strtol (c :: s)) as [[v endp] errno] eqn:E. intros [= F <-].
    destruct errno; [by rewrite !andb_false_r in F|]. destruct endp as [|? ?]; [|done].
    cbn [andb negb] in F. apply andb_prop in F as [F1%Z.leb_le F2%Z.leb_le].
    rewrite Hconv by done. split; [|done]. by apply strtol_inv with (endp := []).
  - intros [H Hn]. destruct (is_int_prechecks _ _ H) as [-> ->].
    rewrite (strtol_is_int s n) by (done || lia). cbn [andb negb].
    rewrite (proj2 (Z.leb_le _ _)), (proj2 (Z.leb_le n hi)), Hconv by lia. done.
Qed.

(** Printing gives a number the parser reads. *)
Lemma put_d_is_int n : is_int (put_d n) n.
Proof.
  unfold put_d. destruct (Z.ltb_spec n 0).
  - destruct (put_dec_spec (- n)) as (D & V & N & _); [lia|]. exists (put_dec (- n)).
    split; [done|]. split; [done|]. right. rewrite V. split; [done|lia].
  - destruct (put_dec_spec n) as (D & V & N & _); [lia|]. exists (put_dec n).
    split; [done|]. split; [done|]. left. rewrite V. by split; [left|].
Qed.

Lemma s32_id z : - 2147483648 <= z <= 2147483647 → s32 z = z.
Proof. intros. apply swrap_small; [done|]. unfold in_sw. lia. Qed.

Lemma s64_id z : LONG_MIN <= z <= LONG_MAX → s64 z = z.
Proof. unfold LONG_MIN, LONG_MAX. intros. apply swrap_small; [done|]. unfold in_sw. lia. Qed.

(** ** Amounts of money *)

Lemma ParseMoney_units_digits ds u e : digits ds → -1 <= e → Z.of_nat (length ds) <= e + 1 →
  ParseMoney_units ds u (10 ^ e) = (u + dec_val ds * 10 ^ (e + 1 - Z.of_nat (length ds)), []).
Proof.
  intros D. revert u e. induction D as [|c ds Hc _ IH]; intros u e He Hl; cbn [ParseMoney_units length] in *.
  { f_equal. change (dec_val []) with 0. lia. }
  rewrite Hc. destruct (Z.ltb_spec 0 (10 ^ e)) as [|G];
    [|pose proof (Z.pow_pos_nonneg 10 e ltac:(lia) ltac:(lia)); lia]. cbn [andb].
  replace (Z.quot (10 ^ e) 10) with (10 ^ (e - 1)).
  - rewrite IH by lia. f_equal. rewrite dec_val_cons.
    replace (e - 1 + 1 - Z.of_nat (length ds)) with (e + 1 - Z.of_nat (S (length ds))) by lia.
    replace (10 ^ e) with (10 ^ Z.of_nat (length ds) * 10 ^ (e + 1 - Z.of_nat (S (length ds)))); [ring|].
    rewrite <- Z.pow_add_r by lia. f_equal. lia.
  - destruct (Z.eq_dec e 0) as [->|]; [done|]. rewrite Z.quot_div_nonneg by (try apply Z.pow_nonneg; lia).
    replace e with (Z.succ (e - 1)) at 2 by lia. rewrite Z.pow_succ_r by lia.
    rewrite Z.mul_comm, Z.div_mul; lia.
Qed.

Lemma ParseMoney_loop_whole ds rest acc : digits ds →
  ParseMoney_loop (ds ++ 46 :: rest) acc
  = let '(u, p) := ParseMoney_units rest 0 (CENT * 10) in Some (acc ++ ds, u, p).
Proof.
  intros D. revert acc. induction D as [|c ds Hc _ IH]; intros acc; cbn [app ParseMoney_loop].
  - cbn [Z.eqb Pos.eqb]. by rewrite app_nil_r.
  - destruct (digit_facts c Hc) as (-> & _ & _ & _ & N).
    rewrite (proj2 (Z.eqb_neq _ _) N), Hc, IH, <- (assoc_L app). done.
Qed.

(** The trimming loop stops two places after the point. *)
Lemma trim_zeros_spec fuel s i q :
  isdigit (getz s q) = false → q + 2 <= i →
  q + 2 <= i - Z.of_nat (trim_zeros fuel s i)
  ∧ ∀ j, i - Z.of_nat (trim_zeros fuel s i) < j <= i → getz s j = 48.
Proof.
  intros Hq. revert i. induction fuel as [|fuel IH]; intros i Hi; cbn [trim_zeros]; [split; [lia|intros; lia]|].
  destruct (Z.eqb_spec (getz s i) 48) as [E|]; [|cbn; split; [lia|intros; lia]].
  destruct (isdigit (getz s (i - 2))) eqn:D; [|cbn; split; [lia|intros; lia]]. cbn [andb].
  assert (i - 2 <> q) by (intros F; rewrite F in D; congruence).
  destruct (IH (i - 1)) as [H1 H2]; [lia|]. split; [lia|].
  intros j Hj. destruct (Z.eq_dec j i) as [->|]; [done|]. apply H2. lia.
Qed.

Lemma getz_app_right a b i : 0 <= i → getz (a ++ b) (Z.of_nat (length a) + i) = getz b i.
Proof. intros. unfold getz. rewrite app_nth2 by lia. f_equal. lia. Qed.

(** A list whose last [n] entries are zeros. *)
Lemma drop_zeros (l : list Z) n :
  (n <= length l)%nat → (∀ j, Z.of_nat (length l - n) <= j < Z.of_nat (length l) → getz l j = 48) →
  drop (length l - n) l = replicate n 48.
Proof.
  intros Hn H. apply list_eq. intros i. rewrite lookup_drop.
  destruct (decide (i < n)%nat) as [L|G].
  - rewrite lookup_replicate_2 by done. specialize (H (Z.of_nat (length l - n + i)) ltac:(lia)).
    unfold getz in H. rewrite Nat2Z.id in H.
    destruct (l !! (length l - n + i)%nat) as [x|] eqn:E.
    + by rewrite (nth_lookup_Some _ _ _ _ E) in H; subst.
    + apply lookup_ge_None in E. lia.
  - rewrite lookup_ge_None_2 by lia. symmetry. apply lookup_ge_None_2. rewrite length_replicate. lia.
Qed.

(** The text of an amount that is not negative: the whole part, and at least
    two of its eight decimals, the trailing zeros left out. *)
Lemma FormatMoney_text n : 0 <= n <= LONG_MAX → ∃ f k,
  FormatMoney n false = put_dec (n / COIN) ++ 46 :: f ∧ digits f ∧ dec_val (f ++ replicate k 48) = n mod COIN
  ∧ (length f + k = 8)%nat ∧ (2 <= length f)%nat.
Proof.
  intros Hn. unfold FormatMoney.
  assert (A : (if 0 <? n then n else s64 (- n)) = n).
  { destruct (Z.ltb_spec 0 n); [done|]. assert (n = 0) as -> by lia. done. }
  rewrite A. destruct (Z.ltb_spec n 0); [lia|]. cbn [andb].
  rewrite Z.quot_div_nonneg, Z.rem_mod_nonneg by (unfold COIN; lia).
  assert (Hr : 0 <= n mod COIN < 10 ^ 8) by (unfold COIN; divmod_lia).
  assert (Hq : 0 <= n / COIN) by (unfold COIN; divmod_lia).
  destruct (put_dec_spec (n mod COIN)) as (D & V & N & _); [lia|].
  pose proof (length_put_dec (n mod COIN) 8 ltac:(lia) Hr) as L.
  unfold put_d, put_0d. destruct (Z.ltb_spec (n / COIN) 0); [lia|]. destruct (Z.ltb_spec (n mod COIN) 0); [lia|].
  set (Q := put_dec (n / COIN)). set (R := replicate (8 - length (put_dec (n mod COIN))) 48 ++ put_dec (n mod COIN)).
  assert (LR : length R = 8%nat) by (unfold R; rewrite length_app, length_replicate; lia).
  assert (VR : dec_val R = n mod COIN) by (unfold R; rewrite dec_val_app, dec_val_zeros, V; lia).
  assert (DR : digits R) by (apply Forall_app; split; [by apply Forall_replicate|done]).
  set (s := Q ++ 46 :: R). assert (Ls : length s = (length Q + 9)%nat) by (unfold s; rewrite length_app; cbn [length]; rewrite LR; lia).
  destruct (trim_zeros_spec (length s) s (Z.of_nat (length s) - 1) (Z.of_nat (length Q))) as [T1 T2]; [|lia|].
  { unfold s. rewrite <- (Z.add_0_r (Z.of_nat (length Q))), getz_app_right by lia. done. }
  set (k := trim_zeros _ _ _) in *. exists (take (8 - k) R), k.
  assert (Hk : (k <= 6)%nat) by lia.
  assert (Z8 : drop (8 - k) R = replicate k 48).
  { rewrite <- LR at 1. apply drop_zeros; [lia|]. intros j Hj. rewrite LR in Hj.
    rewrite <- (T2 (Z.of_nat (length (Q ++ [46])) + j)) by (rewrite length_app; cbn [length]; lia).
    unfold s. replace (Q ++ 46 :: R) with ((Q ++ [46]) ++ R) by (by rewrite <- (assoc_L app)).
    rewrite getz_app_right by lia. done. }
  split; [|split; [by apply Forall_take|split; [|split; [rewrite length_take; lia|rewrite length_take; lia]]]].
  - replace (length s - k)%nat with (length Q + S (8 - k))%nat by lia. unfold s. by rewrite take_app_add.
  - by rewrite <- Z8, take_drop.
Qed.

Lemma ParseMoney_text ds f k : digits ds → ds ≠ [] → digits f → (length f + k = 8)%nat →
  ParseMoney (ds ++ 46 :: f)
  = if 10 <? Z.of_nat (length ds) then None else Some (dec_val ds * COIN + dec_val (f ++ replicate k 48)).
Proof.
  intros D N Df L. unfold ParseMoney.
  assert (F : Forall (λ c, c <> 0) (ds ++ 46 :: f)).
  { apply Forall_app; split; [|constructor; [done|]]; eapply Forall_impl; eauto; cbn; intros c Hc; apply (digit_facts c Hc). }
  rewrite c_str_id by done. destruct ds as [|c ds']; [done|]. set (ds := c :: ds') in *.
  assert (Hc : isdigit c = true) by (inversion D; done).
  assert (S0 : skip_spaces (ds ++ 46 :: f) = ds ++ 46 :: f).
  { unfold ds. rewrite <- app_comm_cons. apply skip_spaces_id, digit_facts, Hc. }
  rewrite S0, ParseMoney_loop_whole by done.
  change (CENT * 10) with (10 ^ 7). rewrite ParseMoney_units_digits by (done || lia). cbn [app forallb negb].
  rewrite dec_val_app, dec_val_zeros, length_replicate.
  replace (7 + 1 - Z.of_nat (length f)) with (Z.of_nat k) by lia.
  rewrite !Z.add_0_r, Z.add_0_l. destruct (Z.ltb_spec 10 (Z.of_nat (length ds))) as [|G]; [done|].
  pose proof (dec_val_range _ Df) as R.
  assert (U : 0 <= dec_val f * 10 ^ Z.of_nat k < COIN).
  { change COIN with (10 ^ 8). replace 8 with (Z.of_nat (length f) + Z.of_nat k) by lia.
    rewrite Z.pow_add_r by lia. pose proof (Z.pow_pos_nonneg 10 (Z.of_nat k)). nia. }
  destruct (Z.ltb_spec (dec_val f * 10 ^ Z.of_nat k) 0); [lia|].
  destruct (Z.ltb_spec COIN (dec_val f * 10 ^ Z.of_nat k)); [lia|]. cbn [orb]. do 3 f_equal.
  unfold atoi64. rewrite c_str_id, <- (app_nil_r ds), strtol_digits; rewrite ?app_nil_r; try done.
  - pose proof (dec_val_range _ D).
    pose proof (Z.pow_le_mono_r 10 _ _ ltac:(lia) G). unfold LONG_MAX. lia.
  - by apply Forall_app in F as [? _].
Qed.

(** ** Theorems *)

(** the integer parsers accept exactly the optionally signed decimal numbers
    within the range of the type (nothing padded, hexadecimal or with a NUL in
    it), with their value, and read back everything that is printed. *)
Theorem integer_parsers_are_exact s n :
  (ParseInt32 s = (true, Some n) ↔ is_int s n ∧ in_sw 32 n)
  ∧ (ParseInt64 s = (true, Some n) ↔ is_int s n ∧ in_sw 64 n)
  ∧ (in_sw 32 n → ParseInt32 (itostr n) = (true, Some n))
  ∧ (in_sw 64 n → ParseInt64 (i64tostr n) = (true, Some n)).
Proof.
  assert (P32 : ∀ s, ParseInt32 s = (true, Some n) ↔ is_int s n ∧ in_sw 32 n).
  { intros t. unfold ParseInt32. rewrite ParseInt_spec by (done || apply s32_id). unfold in_sw. cbn. split; intros [? ?]; (split; [done|lia]). }
  assert (P64 : ∀ s, ParseInt64 s = (true, Some n) ↔ is_int s n ∧ in_sw 64 n).
  { intros t. unfold ParseInt64. rewrite ParseInt_spec by (done || apply s64_id).
    unfold LONG_MIN, LONG_MAX, in_sw. cbn. split; intros [? ?]; (split; [done|lia]). }
  split; [apply P32|]. split; [apply P64|]. split; intros H; [apply P32|apply P64]; (split; [apply put_d_is_int|done]).
Qed.

(** an amount below ten thousand million coins is printed in a form that
    ParseMoney reads back exactly; larger amounts, whose whole part has more
    digits than ParseMoney takes, and negative ones print as text it refuses. *)
Theorem money_roundtrip n :
  in_sw 64 n → ParseMoney (FormatMoney n false) = if (0 <=? n) && (n <? 10 ^ 10 * COIN) then Some n else None.
Proof.
  intros Hn. unfold in_sw in Hn. cbn in Hn. destruct (Z.leb_spec 0 n) as [H0|H0]; cbn [andb].
  - destruct (FormatMoney_text n) as (f & k & -> & D & V & L & _); [unfold LONG_MAX; lia|].
    assert (0 <= n / COIN) by (unfold COIN; divmod_lia).
    destruct (put_dec_spec (n / COIN)) as (Dq & Vq & Nq & _); [done|].
    rewrite ParseMoney_text with (k := k), Vq, V by done.
    destruct (Z.ltb_spec n (10 ^ 10 * COIN)) as [G|G].
    + pose proof (length_put_dec (n / COIN) 10 ltac:(lia)).
      destruct (Z.ltb_spec 10 (Z.of_nat (length (put_dec (n / COIN))))) as [X|X];
        [unfold COIN in *; divmod_lia|]. f_equal. pose proof (Z.div_mod n COIN). unfold COIN in *. lia.
    + pose proof (length_put_dec_ge (n / COIN) 10 ltac:(lia)).
      destruct (Z.ltb_spec 10 (Z.of_nat (length (put_dec (n / COIN))))); [done|].
      unfold COIN in *. divmod_lia.
  - unfold FormatMoney. rewrite (proj2 (Z.ltb_lt n 0)) by lia. done.
Qed.

Lemma money_roundtrip_witness :
  in_sw 64 1234567890000 ∧ ParseMoney (FormatMoney 1234567890000 false) = Some 1234567890000.
Proof. split; [unfold in_sw; lia|]. exact (money_roundtrip 1234567890000 ltac:(unfold in_sw; lia)). Defined.
