(* ===== verification/NetAddr.v ===== *)
(** * Network addresses: CNetAddr, CService (netbase) and CAddress (protocol)

    The sixteen bytes of an address as a list, in network byte order; the
    classes of addresses, the groups of an address, reachability, text, order
    and wire format. The printing of a numeric host by the operating system
    ([getnameinfo]) is an argument. *)

From S2P Require Import Prelude Serialize StrEncodings Numbers Hashes.

Local Open Scope node_scope.

(** ** CNetAddr *)

Abbreviation CNetAddr := (list Z).

(** The sixteen bytes of an address. *)
Definition ok_ip (ip : CNetAddr) : Prop := length ip = 16%nat ∧ Forall is_byte ip.

Definition NET_UNROUTABLE : Z := 0.
Definition NET_IPV4 : Z := 1.
Definition NET_IPV6 : Z := 2.
Definition NET_TOR : Z := 3.
Definition NET_MAX : Z := 4.

Definition pchIPv4 : list Z := [0; 0; 0; 0; 0; 0; 0; 0; 0; 0; 255; 255].
Definition pchOnionCat : list Z := [253; 135; 216; 126; 235; 67].

(** [memcmp(ip, pch, sizeof(pch)) == 0]. *)
Fixpoint has_prefix (ip pch : list Z) {struct pch} : bool :=
  match pch, ip with
  | [], _ => true
  | y :: pch, x :: ip => (x =? y) && has_prefix ip pch
  | _, [] => false
  end.

Definition Init : CNetAddr := replicate 16 0.

(** The addresses SetRaw makes of an [in_addr] and an [in6_addr]. *)
Definition SetRaw (network : Z) (ip_in : list Z) : option CNetAddr :=
  if network =? NET_IPV4 then Some (pchIPv4 ++ take 4 ip_in)
  else if network =? NET_IPV6 then Some (take 16 ip_in)
  else None.

Definition SetSpecial (strName : list Z) : option CNetAddr :=
  if (6 <? length strName)%nat && bool_decide (drop (length strName - 6) strName = str ".onion")
  then let vchAddr := (DecodeBase32 (c_str (take (length strName - 6) strName))).1 in
       if (length vchAddr =? 10)%nat then Some (pchOnionCat ++ vchAddr) else None
  else None.

Definition GetByte (ip : CNetAddr) (n : Z) : Z := getz ip (15 - n).

Definition IsIPv4 (ip : CNetAddr) : bool := has_prefix ip pchIPv4.
Definition IsTor (ip : CNetAddr) : bool := has_prefix ip pchOnionCat.
Definition IsIPv6 (ip : CNetAddr) : bool := negb (IsIPv4 ip) && negb (IsTor ip).

Definition IsRFC1918 (ip : CNetAddr) : bool :=
  IsIPv4 ip && ((GetByte ip 3 =? 10) || ((GetByte ip 3 =? 192) && (GetByte ip 2 =? 168))
                || ((GetByte ip 3 =? 172) && ((16 <=? GetByte ip 2) && (GetByte ip 2 <=? 31)))).
Definition IsRFC2544 (ip : CNetAddr) : bool :=
  IsIPv4 ip && (GetByte ip 3 =? 198) && ((GetByte ip 2 =? 18) || (GetByte ip 2 =? 19)).
Definition IsRFC3927 (ip : CNetAddr) : bool :=
  IsIPv4 ip && ((GetByte ip 3 =? 169) && (GetByte ip 2 =? 254)).
Definition IsRFC6598 (ip : CNetAddr) : bool :=
  IsIPv4 ip && (GetByte ip 3 =? 100) && (64 <=? GetByte ip 2) && (GetByte ip 2 <=? 127).
Definition IsRFC5737 (ip : CNetAddr) : bool :=
  IsIPv4 ip && (((GetByte ip 3 =? 192) && (GetByte ip 2 =? 0) && (GetByte ip 1 =? 2))
                || ((GetByte ip 3 =? 198) && (GetByte ip 2 =? 51) && (GetByte ip 1 =? 100))
                || ((GetByte ip 3 =? 203) && (GetByte ip 2 =? 0) && (GetByte ip 1 =? 113))).
Definition IsRFC3849 (ip : CNetAddr) : bool :=
  (GetByte ip 15 =? 32) && (GetByte ip 14 =? 1) && (GetByte ip 13 =? 13) && (GetByte ip 12 =? 184).
Definition IsRFC3964 (ip : CNetAddr) : bool := (GetByte ip 15 =? 32) && (GetByte ip 14 =? 2).
Definition IsRFC6052 (ip : CNetAddr) : bool := has_prefix ip [0; 100; 255; 155; 0; 0; 0; 0; 0; 0; 0; 0].
Definition IsRFC4380 (ip : CNetAddr) : bool :=
  (GetByte ip 15 =? 32) && (GetByte ip 14 =? 1) && (GetByte ip 13 =? 0) && (GetByte ip 12 =? 0).
Definition IsRFC4862 (ip : CNetAddr) : bool := has_prefix ip [254; 128; 0; 0; 0; 0; 0; 0].
Definition IsRFC4193 (ip : CNetAddr) : bool := Z.land (GetByte ip 15) 254 =? 252.
Definition IsRFC6145 (ip : CNetAddr) : bool := has_prefix ip [0; 0; 0; 0; 0; 0; 0; 0; 255; 255; 0; 0].
Definition IsRFC4843 (ip : CNetAddr) : bool :=
  (GetByte ip 15 =? 32) && (GetByte ip 14 =? 1) && (GetByte ip 13 =? 0) && (Z.land (GetByte ip 12) 240 =? 16).

Definition IsLocal (ip : CNetAddr) : bool :=
  (IsIPv4 ip && ((GetByte ip 3 =? 127) || (GetByte ip 3 =? 0)))
  || has_prefix ip [0; 0; 0; 0; 0; 0; 0; 0; 0; 0; 0; 0; 0; 0; 0; 1].
Definition IsMulticast (ip : CNetAddr) : bool :=
  (IsIPv4 ip && (Z.land (GetByte ip 3) 240 =? 224)) || (GetByte ip 15 =? 255).

Definition IsValid (ip : CNetAddr) : bool :=
  if has_prefix ip (drop 3 pchIPv4) then false
  else if has_prefix ip (replicate 16 0) then false
  else if IsRFC3849 ip then false
  else if IsIPv4 ip && has_prefix (drop 12 ip) [255; 255; 255; 255] then false
  else if IsIPv4 ip && has_prefix (drop 12 ip) [0; 0; 0; 0] then false
  else true.

Definition IsRoutable (ip : CNetAddr) : bool :=
  IsValid ip && negb (IsRFC1918 ip || IsRFC2544 ip || IsRFC3927 ip || IsRFC4862 ip || IsRFC6598 ip || IsRFC5737 ip
                      || (IsRFC4193 ip && negb (IsTor ip)) || IsRFC4843 ip || IsLocal ip).

Definition GetNetwork (ip : CNetAddr) : Z :=
  if negb (IsRoutable ip) then NET_UNROUTABLE
  else if IsIPv4 ip then NET_IPV4
  else if IsTor ip then NET_TOR
  else NET_IPV6.

(** [memcmp(a, b, 16) < 0]: bytes compare as unsigned. *)
Fixpoint memcmp_lt (a b : list Z) : bool :=
  match a, b with
  | x :: a, y :: b => if x =? y then memcmp_lt a b else x <? y
  | _, _ => false
  end.

Definition addr_eq (a b : CNetAddr) : bool := bool_decide (a = b).
Definition addr_lt (a b : CNetAddr) : bool := memcmp_lt a b.

Definition GetInAddr (ip : CNetAddr) : option (list Z) := if negb (IsIPv4 ip) then None else Some (drop 12 ip).
Definition GetIn6Addr (ip : CNetAddr) : list Z := ip.

(** The while loop of GetGroup: [nBits / 8] whole bytes from [nStartByte] on, and
    the bits left over. *)
Fixpoint group_bytes (fuel : nat) (ip : CNetAddr) (nStartByte nBits : Z) : list Z :=
  match fuel with
  | O => []
  | S fuel =>
      if 8 <=? nBits then GetByte ip (15 - nStartByte) :: group_bytes fuel ip (nStartByte + 1) (nBits - 8)
      else if 0 <? nBits then [u8 (Z.lor (GetByte ip (15 - nStartByte)) (Z.shiftl 1 nBits - 1))]
      else []
  end.

(** At most 36 bits: five bytes. *)
Definition GetGroup (ip : CNetAddr) : list Z :=
  let group nClass nStartByte nBits := nClass :: group_bytes 6 ip nStartByte nBits in
  if negb (IsRoutable ip) then group NET_UNROUTABLE 0 0
  else if IsIPv4 ip || IsRFC6145 ip || IsRFC6052 ip then group NET_IPV4 12 16
  else if IsRFC3964 ip then group NET_IPV4 2 16
  else if IsRFC4380 ip then [NET_IPV4; Z.lxor (GetByte ip 3) 255; Z.lxor (GetByte ip 2) 255]
  else if IsTor ip then group NET_TOR 6 4
  else if (GetByte ip 15 =? 32) && (GetByte ip 14 =? 1) && (GetByte ip 13 =? 4) && (GetByte ip 12 =? 112)
  then group NET_IPV6 0 36
  else group NET_IPV6 0 32.

(** The first eight bytes of the hash. *)
Definition GetHash (ip : CNetAddr) : Z := le_val (take 8 (Hash ip)).

Definition NET_UNKNOWN : Z := NET_MAX + 0.
Definition NET_TEREDO : Z := NET_MAX + 1.

Definition GetExtNetwork (addr : option CNetAddr) : Z :=
  match addr with
  | None => NET_UNKNOWN
  | Some a => if IsRFC4380 a then NET_TEREDO else GetNetwork a
  end.

Inductive Reachability :=
  REACH_UNREACHABLE | REACH_DEFAULT | REACH_TEREDO | REACH_IPV6_WEAK | REACH_IPV4 | REACH_IPV6_STRONG | REACH_PRIVATE.

Definition GetReachabilityFrom (ip : CNetAddr) (paddrPartner : option CNetAddr) : Reachability :=
  if negb (IsRoutable ip) then REACH_UNREACHABLE
  else
    let ourNet := GetExtNetwork (Some ip) in
    let theirNet := GetExtNetwork paddrPartner in
    let fTunnel := IsRFC3964 ip || IsRFC6052 ip || IsRFC6145 ip in
    if theirNet =? NET_IPV4 then
      if ourNet =? NET_IPV4 then REACH_IPV4 else REACH_DEFAULT
    else if theirNet =? NET_IPV6 then
      if ourNet =? NET_TEREDO then REACH_TEREDO
      else if ourNet =? NET_IPV4 then REACH_IPV4
      else if ourNet =? NET_IPV6 then if fTunnel then REACH_IPV6_WEAK else REACH_IPV6_STRONG
      else REACH_DEFAULT
    else if theirNet =? NET_TOR then
      if ourNet =? NET_IPV4 then REACH_IPV4
      else if ourNet =? NET_TOR then REACH_PRIVATE
      else REACH_DEFAULT
    else if theirNet =? NET_TEREDO then
      if ourNet =? NET_TEREDO then REACH_TEREDO
      else if ourNet =? NET_IPV6 then REACH_IPV6_WEAK
      else if ourNet =? NET_IPV4 then REACH_IPV4
      else REACH_DEFAULT
    else
      if ourNet =? NET_TEREDO then REACH_TEREDO
      else if ourNet =? NET_IPV6 then REACH_IPV6_WEAK
      else if ourNet =? NET_IPV4 then REACH_IPV4
      else if ourNet =? NET_TOR then REACH_PRIVATE
      else REACH_DEFAULT.

(** ** CService *)

Record CService := mkService { s_ip : CNetAddr; s_port : Z }.

#[export] Instance CService_eq_dec : EqDecision CService.
Proof. solve_decision. Defined.

Definition service_eq (a b : CService) : bool := addr_eq (s_ip a) (s_ip b) && (s_port a =? s_port b).
Definition service_lt (a b : CService) : bool :=
  addr_lt (s_ip a) (s_ip b) || (addr_eq (s_ip a) (s_ip b) && (s_port a <? s_port b)).

Definition GetKey (s : CService) : list Z := s_ip s ++ [Z.quot (s_port s) 256; Z.land (s_port s) 255].

(** A socket address of the operating system, with the port in host order. *)
Inductive sockaddr :=
| AF_INET (sin_addr : list Z) (sin_port : Z)
| AF_INET6 (sin6_addr : list Z) (sin6_port : Z)
| AF_OTHER.

Definition GetSockAddr (s : CService) (addrlen : Z) : option (sockaddr * Z) :=
  if IsIPv4 (s_ip s) then
    if addrlen <? 16 then None
    else match GetInAddr (s_ip s) with Some a => Some (AF_INET a (s_port s), 16) | None => None end
  else if IsIPv6 (s_ip s) then
    if addrlen <? 28 then None else Some (AF_INET6 (GetIn6Addr (s_ip s)) (s_port s), 28)
  else None.

Definition SetSockAddr (paddr : sockaddr) : option CService :=
  match paddr with
  | AF_INET a p => match SetRaw NET_IPV4 a with Some ip => Some (mkService ip p) | None => None end
  | AF_INET6 a p => match SetRaw NET_IPV6 a with Some ip => Some (mkService ip p) | None => None end
  | AF_OTHER => None
  end.

(** *** Text *)

Fixpoint put_hex_digits (fuel : nat) (z : Z) (acc : list Z) : list Z :=
  match fuel with
  | O => acc
  | S fuel => let acc := getz hexmap (z mod 16) :: acc in
              if z / 16 =? 0 then acc else put_hex_digits fuel (z / 16) acc
  end.
(** [%x] of a number of at most sixteen bits. *)
Definition put_x (z : Z) : list Z := put_hex_digits 4 z [].

Fixpoint join (sep : Z) (l : list (list Z)) : list Z :=
  match l with
  | [] => []
  | [x] => x
  | x :: r => x ++ sep :: join sep r
  end.

(** [GetByte(2k + 1) << 8 | GetByte(2k)]. *)
Definition group16 (ip : CNetAddr) (k : Z) : Z :=
  Z.lor (Z.shiftl (GetByte ip (2 * k + 1)) 8) (GetByte ip (2 * k)).

Definition ToStringIP (getnameinfo : sockaddr → option (list Z)) (ip : CNetAddr) : list Z :=
  if IsTor ip then EncodeBase32 (take 10 (drop 6 ip)) ++ str ".onion"
  else match (match GetSockAddr (mkService ip 0) 128 with
              | Some (a, _) => getnameinfo a
              | None => None
              end) with
       | Some name => name
       | None =>
           if IsIPv4 ip then join 46 (map (λ n, put_dec (GetByte ip n)) [3; 2; 1; 0])
           else join 58 (map (λ k, put_x (group16 ip k)) [7; 6; 5; 4; 3; 2; 1; 0])
       end.

Definition ToStringPort (s : CService) : list Z := put_dec (s_port s).

Definition ToStringIPPort (getnameinfo : sockaddr → option (list Z)) (s : CService) : list Z :=
  if IsIPv4 (s_ip s) || IsTor (s_ip s)
  then ToStringIP getnameinfo (s_ip s) ++ 58 :: ToStringPort s
  else 91 :: ToStringIP getnameinfo (s_ip s) ++ 93 :: 58 :: ToStringPort s.

(** *** Wire format *)

Definition f_addr : format CNetAddr := f_flat 16.

(** [htons] on a little-endian host. *)
Definition htons (p : Z) : Z := Z.lor (Z.shiftl (Z.land p 255) 8) (Z.shiftr p 8).

Definition f_port : format Z :=
  mkFormat (λ p, le_bytes 2 (htons p))
           (λ s, let! (b, s) := read_bytes 2 s in Ok (htons (le_val b), s))
           (λ _, 2) (in_uw 16).

Definition f_service : format CService :=
  f_struct (f_pair f_addr f_port) (λ s, (s_ip s, s_port s)) (λ p, mkService p.1 p.2).

(** ** CAddress *)

Record CAddress := mkAddress { a_srv : CService; nServices : Z; a_nTime : Z; nLastTry : Z }.

Definition NODE_NETWORK : Z := 1.
Definition SER_NETWORK : Z := 1.
Definition SER_DISK : Z := 2.
Definition SER_GETHASH : Z := 4.
Definition CADDR_TIME_VERSION : Z := 31402.

(** CAddress::Init and the constructors. *)
Definition CAddress_of (ipIn : CService) (nServicesIn : Z) : CAddress := mkAddress ipIn nServicesIn 100000000 0.
Definition CAddress_empty : CAddress := CAddress_of (mkService Init 0) NODE_NETWORK.

Definition addr_disk (nType : Z) : bool := negb (Z.land nType SER_DISK =? 0).
Definition addr_time (nType nVersion : Z) : bool :=
  addr_disk nType || ((CADDR_TIME_VERSION <=? nVersion) && (Z.land nType SER_GETHASH =? 0)).

(** On disk the version is written too, and the one read back only decides on
    the time, which is always on disk. *)
Definition f_address (nType nVersion : Z) : format CAddress :=
  mkFormat
    (λ a, (if addr_disk nType then ser (f_sint 4) nVersion else [])
            ++ (if addr_time nType nVersion then ser (f_uint 4) (a_nTime a) else [])
            ++ ser (f_uint 8) (nServices a) ++ ser f_service (a_srv a))
    (λ s, let! (v, s) := (if addr_disk nType then unser (f_sint 4) s else Ok (nVersion, s)) in
          let! (t, s) := (if addr_time nType v then unser (f_uint 4) s else Ok (100000000, s)) in
          let! (n, s) := unser (f_uint 8) s in
          let! (srv, s) := unser f_service s in Ok (mkAddress srv n t 0, s))
    (λ a, (if addr_disk nType then 4 else 0) + (if addr_time nType nVersion then 4 else 0)
            + 8 + size_of f_service (a_srv a))
    (λ a, in_sw 32 nVersion ∧ (if addr_time nType nVersion then in_uw 32 (a_nTime a) else a_nTime a = 100000000)
            ∧ in_uw 64 (nServices a) ∧ dom f_service (a_srv a) ∧ nLastTry a = 0).

(** ** Examples *)

(** The address of [a.b.c.d]. *)
Definition ipv4 (a b c d : Z) : CNetAddr := pchIPv4 ++ [a; b; c; d].
(** The address of eight groups of sixteen bits. *)
Definition ipv6 (gs : list Z) : CNetAddr := concat (map (λ g, [Z.shiftr g 8; Z.land g 255]) gs).

Definition onion_example : CNetAddr := ipv6 [0xFD87; 0xD87E; 0xEB43; 0xEDB1; 0x8E4; 0x3588; 0xE546; 0x35CA].

Example network_tests :
  map GetNetwork [ipv4 127 0 0 1; ipv6 [0; 0; 0; 0; 0; 0; 0; 1]; ipv4 8 8 8 8; ipv6 [0x2001; 0; 0; 0; 0; 0; 0; 0x8888]; onion_example]
  = [NET_UNROUTABLE; NET_UNROUTABLE; NET_IPV4; NET_IPV6; NET_TOR].
Proof. vm_compute. reflexivity. Qed.

Example property_tests :
  forallb id [IsIPv4 (ipv4 127 0 0 1); IsIPv6 (ipv6 [0; 0; 0; 0; 0; 0; 0; 1]); IsRFC1918 (ipv4 10 0 0 1);
    IsRFC1918 (ipv4 192 168 1 1); IsRFC1918 (ipv4 172 31 255 255); IsRFC3849 (ipv6 [0x2001; 0x0DB8; 0; 0; 0; 0; 0; 0]);
    IsRFC3927 (ipv4 169 254 1 1); IsRFC3964 (ipv6 [0x2002; 0; 0; 0; 0; 0; 0; 1]);
    IsRFC4193 (ipv6 [0xFC00; 0; 0; 0; 0; 0; 0; 0]); IsRFC4380 (ipv6 [0x2001; 0; 0; 0; 0; 0; 0; 2]);
    IsRFC4843 (ipv6 [0x2001; 0x10; 0; 0; 0; 0; 0; 0]); IsRFC4862 (ipv6 [0xFE80; 0; 0; 0; 0; 0; 0; 0]);
    IsRFC6052 (ipv6 [0x64; 0xFF9B; 0; 0; 0; 0; 0; 0]); IsTor onion_example; IsLocal (ipv4 127 0 0 1);
    IsRoutable (ipv4 8 8 8 8); IsRoutable (ipv6 [0x2001; 0; 0; 0; 0; 0; 0; 1]); IsValid (ipv4 127 0 0 1)] = true.
Proof. vm_compute. reflexivity. Qed.

Example onioncat_test :
  SetSpecial (str "5wyqrzbvrdsumnok.onion") = Some onion_example
  ∧ ToStringIP (λ _, None) onion_example = str "5wyqrzbvrdsumnok.onion".
Proof. vm_compute. split; reflexivity. Qed.

Example text_tests :
  ToStringIPPort (λ _, None) (mkService (ipv4 127 0 0 1) 52000) = str "127.0.0.1:52000"
  ∧ ToStringIPPort (λ _, None) (mkService (ipv6 [1; 2; 3; 4; 5; 6; 7; 0xFEDC]) 8333) = str "[1:2:3:4:5:6:7:fedc]:8333".
Proof. vm_compute. split; reflexivity. Qed.

(** ** Classes of addresses *)

Lemma has_prefix_spec ip pch : has_prefix ip pch = true ↔ ∃ r, ip = pch ++ r.
Proof.
  revert ip. induction pch as [|y pch IH]; intros ip; cbn; [split; [by exists ip|by destruct ip]|].
  destruct ip as [|x ip]; [split; [done|by intros [? ?]]|].
  cbn. rewrite andb_true_iff, Z.eqb_eq, IH. split; [by intros [-> [r ->]]; exists r|].
  intros [r E]. injection E as -> ->. eauto.
Qed.

Lemma has_prefix_app pch r : has_prefix (pch ++ r) pch = true.
Proof. apply has_prefix_spec. by exists r. Qed.

Lemma onion_cat_facts r :
  IsTor (pchOnionCat ++ r) = true ∧ IsIPv4 (pchOnionCat ++ r) = false ∧ IsIPv6 (pchOnionCat ++ r) = false.
Proof. repeat split; reflexivity. Qed.

(** An IPv6 address that stands for the IPv4 address [a.b.c.d]: the translated
    and the well-known prefix, 6to4, and Teredo, which hides it. *)
Inductive tunnelled (a b c d : Z) : CNetAddr → Prop :=
| siit : tunnelled a b c d ([0; 0; 0; 0; 0; 0; 0; 0; 255; 255; 0; 0] ++ [a; b; c; d])
| well_known : tunnelled a b c d ([0; 100; 255; 155; 0; 0; 0; 0; 0; 0; 0; 0] ++ [a; b; c; d])
| sixtofour r : length r = 10%nat → tunnelled a b c d ([32; 2; a; b; c; d] ++ r)
| teredo r : length r = 8%nat →
    tunnelled a b c d ([32; 1; 0; 0] ++ r ++ map (λ x, Z.lxor x 255) [a; b; c; d]).

Lemma GetGroup_routable_ipv4 a b c d : IsRoutable (ipv4 a b c d) = true → GetGroup (ipv4 a b c d) = [NET_IPV4; a; b].
Proof. intros H. unfold GetGroup. rewrite H. done. Qed.

Lemma length_8_inv {A} (r : list A) : length r = 8%nat → ∃ x0 x1 x2 x3 x4 x5 x6 x7, r = [x0; x1; x2; x3; x4; x5; x6; x7].
Proof. intros H. do 8 (destruct r as [|? r]; [done|]). destruct r; [|done]. repeat eexists. Qed.

Lemma length_10_inv {A} (r : list A) : length r = 10%nat → ∃ x0 x1 r', r = x0 :: x1 :: r' ∧ length r' = 8%nat.
Proof. intros H. do 2 (destruct r as [|? r]; [done|]). repeat eexists. by injection H. Qed.

Lemma tunnelled_group a b c d ip : tunnelled a b c d ip → IsRoutable ip = true ∧ GetGroup ip = [NET_IPV4; a; b].
Proof.
  intros [| |r H|r H].
  - split; reflexivity.
  - split; reflexivity.
  - apply length_10_inv in H as (x0 & x1 & r' & -> & H).
    apply length_8_inv in H as (? & ? & ? & ? & ? & ? & ? & ? & ->). split; reflexivity.
  - apply length_8_inv in H as (? & ? & ? & ? & ? & ? & ? & ? & ->). split; [reflexivity|].
    transitivity [NET_IPV4; Z.lxor (Z.lxor a 255) 255; Z.lxor (Z.lxor b 255) 255]; [reflexivity|].
    by rewrite !Z.lxor_assoc, Z.lxor_nilpotent, !Z.lxor_0_r.
Qed.

Lemma GetGroup_class ip :
  (IsRoutable ip = false → GetGroup ip = [NET_UNROUTABLE])
  ∧ (GetNetwork ip = NET_IPV4 → ∃ x y, GetGroup ip = [NET_IPV4; x; y])
  ∧ (GetNetwork ip = NET_TOR → ∃ x, GetGroup ip = [NET_TOR; x])
  ∧ (GetNetwork ip = NET_IPV6 → ∃ g, GetGroup ip = NET_IPV4 :: g ∨ GetGroup ip = NET_IPV6 :: g).
Proof.
  unfold GetGroup, GetNetwork. destruct (IsRoutable ip) eqn:R; cbn [negb]; [|by repeat split].
  destruct (IsIPv4 ip) eqn:I4; cbn [orb]; [repeat split; try done; by eexists _, _|].
  destruct (IsTor ip) eqn:T.
  - assert (E : IsRFC6145 ip || IsRFC6052 ip = false ∧ IsRFC3964 ip = false ∧ IsRFC4380 ip = false).
    { apply has_prefix_spec in T as [r ->]. done. }
    destruct E as (-> & -> & ->). repeat split; try done. by eexists.
  - repeat split; try done. intros _. repeat case_match; eexists; (left; done) || (right; done).
Qed.

(** *** Onion names *)

(** The base 32 of ten bytes: sixteen characters, none a NUL. *)
Lemma EncodeBase32_ten b : Forall is_byte b → length b = 10%nat →
  length (EncodeBase32 b) = 16%nat ∧ Forall (λ c, c <> 0) (EncodeBase32 b).
Proof.
  intros Hb L. pose proof (EncodeBase32_synced b Hb) as S. unfold EncodeBase32.
  assert (E : ∃ l o, foldl EncodeBase32_step (0, 0, []) b = (0, l, o) ∧ length o = 16%nat).
  { apply length_10_inv in L as (? & ? & r & -> & L).
    apply length_8_inv in L as (? & ? & ? & ? & ? & ? & ? & ? & ->). cbn. by eexists _, _. }
  destruct E as (l & o & E & Lo). rewrite E in S |- *. cbn [Z.eqb negb]. split; [done|].
  destruct S as (ds & _ & _ & _ & _ & -> & Hd & _). rewrite Forall_map. eapply Forall_impl; [exact Hd|].
  intros i Hi. assert (F : Forall (λ c, c <> 0) pbase32) by (vm_compute; repeat constructor; lia).
  cbn beta. apply (getz_Forall (λ c, c <> 0)); [done|]. unfold in_uw in Hi. vm_compute length. lia.
Qed.

Lemma onion_roundtrip getnameinfo ip : ok_ip ip → IsTor ip = true →
  SetSpecial (ToStringIP getnameinfo ip) = Some ip.
Proof.
  intros [L B] T. unfold ToStringIP. rewrite T. apply has_prefix_spec in T as [r ->].
  rewrite length_app in L. cbn [length pchOnionCat] in L.
  apply Forall_app in B as [_ B]. change (drop 6 (pchOnionCat ++ r)) with (drop 0 r).
  rewrite drop_0, take_ge by lia. destruct (EncodeBase32_ten r B ltac:(lia)) as [L16 N].
  unfold SetSpecial. rewrite length_app, L16. cbn [length str String.list_ascii_of_string map Nat.add Nat.sub Nat.ltb Nat.leb].
  rewrite <- L16, take_app_length, drop_app_length, bool_decide_true by done. cbn [andb].
  rewrite c_str_id, base32_roundtrip by done. cbn [fst].
  rewrite (proj2 (Nat.eqb_eq _ _)) by lia. done.
Qed.

(** ** The order of addresses *)

Lemma memcmp_lt_irrefl a : memcmp_lt a a = false.
Proof. induction a as [|x a IH]; cbn; [done|]. by rewrite Z.eqb_refl. Qed.

Lemma memcmp_lt_trans a b c : memcmp_lt a b = true → memcmp_lt b c = true → memcmp_lt a c = true.
Proof.
  revert b c. induction a as [|x a IH]; intros [|y b] [|z c]; cbn; try done.
  destruct (Z.eqb_spec x y), (Z.eqb_spec y z), (Z.eqb_spec x z); subst; try done; rewrite ?Z.ltb_lt; eauto; lia.
Qed.

Lemma memcmp_lt_total a b : length a = length b → memcmp_lt a b = true ∨ a = b ∨ memcmp_lt b a = true.
Proof.
  revert b. induction a as [|x a IH]; intros [|y b]; cbn; try done; [auto|]. intros [= L].
  rewrite (Z.eqb_sym y x). destruct (Z.eqb_spec x y) as [->|N].
  - destruct (IH b L) as [?|[->|?]]; auto.
  - rewrite !Z.ltb_lt. lia.
Qed.

Lemma service_lt_irrefl a : service_lt a a = false.
Proof. unfold service_lt, addr_lt. rewrite memcmp_lt_irrefl, Z.ltb_irrefl. by rewrite andb_false_r. Qed.

Lemma service_lt_spec a b : service_lt a b = true ↔
  memcmp_lt (s_ip a) (s_ip b) = true ∨ (s_ip a = s_ip b ∧ s_port a < s_port b).
Proof.
  unfold service_lt, addr_lt, addr_eq. rewrite orb_true_iff, andb_true_iff, bool_decide_eq_true, Z.ltb_lt. done.
Qed.

Lemma service_lt_trans a b c : service_lt a b = true → service_lt b c = true → service_lt a c = true.
Proof.
  rewrite !service_lt_spec. intros [H1|[E1 H1]] [H2|[E2 H2]].
  - left. eauto using memcmp_lt_trans.
  - left. by rewrite <- E2.
  - left. by rewrite E1.
  - right. split; [congruence|lia].
Qed.

Lemma GetKey_inj a b : length (s_ip a) = length (s_ip b) → in_uw 16 (s_port a) → in_uw 16 (s_port b) →
  GetKey a = GetKey b → a = b.
Proof.
  destruct a as [ia pa], b as [ib pb]. unfold GetKey, in_uw. cbn. intros L Ha Hb E.
  apply app_inj_1 in E as [-> E]; [|done]. injection E as E1 E2. rewrite !land_ff in E2.
  rewrite !Z.quot_div_nonneg in E1 by lia. f_equal. divmod_lia.
Qed.

(** ** Wire formats *)

Lemma htons_spec p : in_uw 16 p → in_uw 16 (htons p) ∧ htons (htons p) = p.
Proof.
  intros Hp. unfold htons, in_uw in *. cbn in Hp.
  assert (E : ∀ p, 0 <= p < 65536 → Z.lor (Z.shiftl (Z.land p 255) 8) (Z.shiftr p 8) = (p mod 256) * 256 + p / 256).
  { intros q Hq. rewrite land_ff, shiftl_mul, shiftr_div by lia. change (2 ^ 8) with 256.
    rewrite lor_add with (n := 8); [done| | |]; change (2 ^ 8) with 256; divmod_lia. }
  rewrite (E p), (E (p mod 256 * 256 + p / 256)) by divmod_lia. cbn. split; divmod_lia.
Qed.

#[export] Instance f_port_ok : FormatOk f_port.
Proof.
  split; cbn [f_port unser ser size_of dom].
  - intros x rest Hx. destruct (htons_spec x Hx) as [R E]. rewrite read_bytes_app by apply length_le_bytes.
    cbn [rbind]. by rewrite le_val_le_bytes_small, E.
  - intros x _. by rewrite length_le_bytes.
  - intros x _. apply le_bytes_byte.
Qed.

#[export] Instance f_port_canonical : FormatCanonical f_port.
Proof.
  intros s x rest Hs H. cbn in H. unser_inv.
  match goal with H : Forall is_byte ?b, L : length ?b = 2%nat |- _ =>
    pose proof (le_val_range b H) as R; pose proof (le_bytes_le_val b H) as E; rewrite L in *;
    destruct (htons_spec (le_val b)) as [R2 E2]; [exact R|] end.
  cbn [f_port ser dom]. rewrite E2, E. done.
Qed.

#[export] Instance f_service_ok : FormatOk f_service := _.

#[export] Instance f_service_canonical : FormatCanonical f_service.
Proof. apply f_struct_canonical; [apply _|]. by intros [? ?]. Qed.

#[export] Instance f_address_ok nType nVersion : FormatOk (f_address nType nVersion).
Proof.
  split; cbn [f_address unser ser size_of dom].
  - intros [srv n t l] rest (V & T & N & S & Hl). cbn [a_srv nServices a_nTime nLastTry] in *. subst l.
    rewrite <- !(assoc_L app).
    destruct (addr_disk nType) eqn:D.
    + rewrite fmt_roundtrip by done. cbn [rbind]. unfold addr_time in *. rewrite D in *. cbn [orb] in *.
      rewrite fmt_roundtrip by done. cbn [rbind]. rewrite fmt_roundtrip by done. cbn [rbind].
      by rewrite fmt_roundtrip.
    + cbn [app rbind]. destruct (addr_time nType nVersion).
      * rewrite fmt_roundtrip by done. cbn [rbind]. rewrite fmt_roundtrip by done. cbn [rbind]. by rewrite fmt_roundtrip.
      * cbn [app rbind]. rewrite fmt_roundtrip by done. cbn [rbind]. rewrite fmt_roundtrip by done. cbn [rbind]. by subst.
  - intros [srv n t l] (V & T & N & S & Hl). cbn [a_srv nServices a_nTime nLastTry] in *. subst l.
    rewrite (fmt_size srv) by done. rewrite !length_app.
    destruct (addr_disk nType), (addr_time nType nVersion); cbn [length f_uint f_sint ser]; rewrite ?length_le_bytes; lia.
  - intros [srv n t l] (V & T & N & S & Hl). cbn [a_srv nServices a_nTime nLastTry] in *. subst l.
    apply Forall_app. split; [destruct (addr_disk nType); [by apply fmt_bytes|done]|].
    apply Forall_app. split; [destruct (addr_time nType nVersion); [by apply fmt_bytes|done]|].
    apply Forall_app. split; by apply fmt_bytes.
Qed.

(** Reading an address in the network format gives one that writes back the
    bytes read; on disk the version written is not kept. *)
Lemma f_address_canonical nType nVersion s a rest :
  in_sw 32 nVersion → addr_disk nType = false → Forall is_byte s →
  unser (f_address nType nVersion) s = Ok (a, rest) →
  s = ser (f_address nType nVersion) a ++ rest ∧ dom (f_address nType nVersion) a.
Proof.
  intros V D Hs H. cbn [f_address unser ser dom] in *. rewrite D in *. cbn [rbind app] in *.
  destruct (addr_time nType nVersion).
  - apply rbind_Ok in H as ([t s1] & H1 & H). apply fmt_canonical in H1 as [-> Dt]; [|done].
    apply Forall_app in Hs as [_ Hs].
    apply rbind_Ok in H as ([n s2] & H1 & H). apply fmt_canonical in H1 as [-> Dn]; [|done].
    apply Forall_app in Hs as [_ Hs].
    apply rbind_Ok in H as ([srv s3] & H1 & H). apply fmt_canonical in H1 as [-> Ds]; [|done].
    injection H as [= <- <-]. rewrite <- !(assoc_L app). done.
  - cbn [rbind] in H.
    apply rbind_Ok in H as ([n s2] & H1 & H). apply fmt_canonical in H1 as [-> Dn]; [|done].
    apply Forall_app in Hs as [_ Hs].
    apply rbind_Ok in H as ([srv s3] & H1 & H). apply fmt_canonical in H1 as [-> Ds]; [|done].
    injection H as [= <- <-]. rewrite <- !(assoc_L app). done.
Qed.

(** ** Theorem *)

(** C37: an IPv6 address that carries the IPv4 address a.b.c.d (translated,
    well-known prefix, 6to4, or Teredo) is routable and belongs to the /16 group
    of that IPv4 address, so a peer gains no new group by tunnelling. *)
Theorem tunnelled_address_groups a b c d ip :
  tunnelled a b c d ip →
  IsRoutable ip = true ∧ GetGroup ip = [NET_IPV4; a; b]
  ∧ (IsRoutable (ipv4 a b c d) = true → GetGroup ip = GetGroup (ipv4 a b c d)).
Proof.
  intros T. destruct (tunnelled_group _ _ _ _ _ T) as [R G]. split; [done|]. split; [done|].
  intros Rv. by rewrite GetGroup_routable_ipv4.
Qed.

Lemma tunnelled_address_groups_witness :
  let ip := [32; 1; 0; 0; 1; 2; 3; 4; 5; 6; 7; 8; 247; 247; 247; 247] in
  tunnelled 8 8 8 8 ip ∧ GetGroup ip = GetGroup (ipv4 8 8 8 8).
Proof.
  assert (T : tunnelled 8 8 8 8 [32; 1; 0; 0; 1; 2; 3; 4; 5; 6; 7; 8; 247; 247; 247; 247])
    by exact (teredo 8 8 8 8 [1; 2; 3; 4; 5; 6; 7; 8] eq_refl).
  split; [exact T|]. apply (tunnelled_address_groups 8 8 8 8 _ T). reflexivity.
Defined.
