(* ===== verification/Netbase.v ===== *)
(** * Names, subnets, proxies and SOCKS 5 (netbase)

    Host names with a port, look-ups, subnets with their masks, the table of
    proxies, and the SOCKS 5 handshake as a function of what the socket does. The
    resolver of the operating system ([getaddrinfo]) is an argument. *)

From S2P Require Import Prelude StrEncodings Numbers NetAddr.

(** ** Names *)

Definition ParseNetwork (net : list Z) : Z :=
  let net := map tolower net in
  if bool_decide (net = str "ipv4") then NET_IPV4
  else if bool_decide (net = str "ipv6") then NET_IPV6
  else if bool_decide (net = str "tor") || bool_decide (net = str "onion") then NET_TOR
  else NET_UNROUTABLE.

Definition GetNetworkName (net : Z) : list Z :=
  if net =? NET_IPV4 then str "ipv4"
  else if net =? NET_IPV6 then str "ipv6"
  else if net =? NET_TOR then str "onion"
  else [].

(** [find_last_of], as a position. *)
Fixpoint find_last (c : Z) (s : list Z) : option nat :=
  match s with
  | [] => None
  | x :: r => match find_last c r with
              | Some i => Some (S i)
              | None => if x =? c then Some O else None
              end
  end.

(** [in.substr(1, in.size() - 2)] of a bracketed text. *)
Definition bracketed (s : list Z) : bool := (hd 0 s =? 91) && (List.last s 0 =? 93).
Definition unbracket (s : list Z) : list Z := if bracketed s then take (length s - 2) (drop 1 s) else s.

Definition SplitHostPort (s : list Z) (portOut : Z) : Z * list Z :=
  let '(s, portOut) :=
    match find_last 58 s with
    | None => (s, portOut)
    | Some colon =>
        let fBracketed := (hd 0 s =? 91) && (getz s (Z.of_nat colon - 1) =? 93) in
        let fMultiColon := match find_last 58 (take colon s) with Some _ => true | None => false end in
        if (colon =? 0)%nat || fBracketed || negb fMultiColon then
          match ParseInt32 (drop (colon + 1) s) with
          | (true, Some n) => if (0 <? n) && (n <? 65536) then (take colon s, n) else (s, portOut)
          | _ => (s, portOut)
          end
        else (s, portOut)
    end in
  (portOut, unbracket s).

Section Resolver.

(** The answer of [getaddrinfo] for a name, with or without a query of the
    network: the list of socket addresses, or an error. *)
Variable getaddrinfo : list Z → bool → option (list sockaddr).

Fixpoint LookupIntern_loop (aiTrav : list sockaddr) (vIP : list CNetAddr) (nMaxSolutions : nat) : list CNetAddr :=
  match aiTrav with
  | [] => vIP
  | ai :: rest =>
      if (nMaxSolutions =? 0)%nat || (length vIP <? nMaxSolutions)%nat
      then let vIP := match SetSockAddr ai with Some s => vIP ++ [s_ip s] | None => vIP end in
           LookupIntern_loop rest vIP nMaxSolutions
      else vIP
  end.

(** The addresses found; the call returns false if there are none. *)
Definition LookupIntern (pszName : list Z) (nMaxSolutions : nat) (fAllowLookup : bool) : list CNetAddr :=
  match SetSpecial pszName with
  | Some addr => [addr]
  | None =>
      match getaddrinfo pszName fAllowLookup with
      | None => []
      | Some aiRes => LookupIntern_loop aiRes [] nMaxSolutions
      end
  end.

Definition LookupHost (pszName : list Z) (nMaxSolutions : nat) (fAllowLookup : bool) : list CNetAddr :=
  match pszName with
  | [] => []
  | _ => LookupIntern (unbracket pszName) nMaxSolutions fAllowLookup
  end.

(** A port that does not fit is cut to sixteen bits by the constructor. *)
Definition Lookup_all (pszName : list Z) (portDefault : Z) (fAllowLookup : bool) (nMaxSolutions : nat) : list CService :=
  match pszName with
  | [] => []
  | _ => let '(port, hostname) := SplitHostPort pszName portDefault in
         map (λ ip, mkService ip (u16 port)) (LookupIntern hostname nMaxSolutions fAllowLookup)
  end.

Definition Lookup (pszName : list Z) (portDefault : Z) (fAllowLookup : bool) : option CService :=
  head (Lookup_all pszName portDefault fAllowLookup 1).
Definition LookupNumeric (pszName : list Z) (portDefault : Z) : option CService := Lookup pszName portDefault false.

(** The constructors of CNetAddr and CService from text. *)
Definition CNetAddr_of_text (strIp : list Z) (fAllowLookup : bool) : CNetAddr :=
  default Init (head (LookupHost (c_str strIp) 1 fAllowLookup)).
Definition CService_of_text (strIpPort : list Z) (portDefault : Z) (fAllowLookup : bool) : CService :=
  default (mkService Init 0) (Lookup (c_str strIpPort) portDefault fAllowLookup).

(** ** Subnets *)

Record CSubNet := mkSubNet { network : CNetAddr; netmask : list Z; valid : bool }.

(** [netmask[n >> 3] &= ~(1 << (7 - (n & 7)))]. *)
Definition clear_bit (mask : list Z) (n : Z) : list Z :=
  setz mask (Z.shiftr n 3) (Z.land (getz mask (Z.shiftr n 3)) (Z.lnot (Z.shiftl 1 (7 - Z.land n 7)))).

(** Clear bits [n..127]. *)
Definition clear_bits (mask : list Z) (n : Z) : list Z := foldl clear_bit mask (seqZ n (128 - n)).

Definition mask_and (ip mask : list Z) : list Z := zip_with Z.land ip mask.

(** A default CSubNet. *)
Definition CSubNet_empty : CSubNet := mkSubNet Init (replicate 16 0) false.

(** The netmask of a text after the slash, for a network address. *)
Definition parse_netmask (net : CNetAddr) (strNetmask : list Z) : list Z * bool :=
  let full := replicate 16 255 in
  let astartofs := if IsIPv4 net then 12%nat else 0%nat in
  match ParseInt32 strNetmask with
  | (true, Some n) =>
      if (0 <=? n) && (n <=? 128 - Z.of_nat astartofs * 8)
      then (clear_bits full (n + Z.of_nat astartofs * 8), true)
      else (full, false)
  | _ =>
      match LookupHost (c_str strNetmask) 1 false with
      | m :: _ => (take astartofs full ++ drop astartofs m, true)
      | [] => (full, false)
      end
  end.

Definition CSubNet_of_text (strSubnet : list Z) (fAllowLookup : bool) : CSubNet :=
  let slash := find_last 47 strSubnet in
  let strAddress := match slash with Some i => take i strSubnet | None => strSubnet end in
  let '(net, (mask, ok)) :=
    match LookupHost (c_str strAddress) 1 fAllowLookup with
    | net :: _ =>
        (net, match slash with
              | Some i => parse_netmask net (drop (i + 1) strSubnet)
              | None => (replicate 16 255, true)
              end)
    | [] => (Init, (replicate 16 255, false))
    end in
  mkSubNet (mask_and net mask) mask ok.

End Resolver.

Definition Match (s : CSubNet) (addr : CNetAddr) : bool :=
  if negb (valid s) || negb (IsValid addr) then false
  else bool_decide (mask_and addr (netmask s) = network s).

Definition SubNet_ToString (getnameinfo : sockaddr → option (list Z)) (s : CSubNet) : list Z :=
  ToStringIP getnameinfo (network s) ++ 47 ::
  (if IsIPv4 (network s)
   then join 46 (map (λ i, put_dec (getz (netmask s) i)) [12; 13; 14; 15])
   else join 58 (map (λ i, put_x (Z.lor (Z.shiftl (getz (netmask s) (2 * i)) 8) (getz (netmask s) (2 * i + 1)))) (seqZ 0 8))).

(** ** Proxies *)

Record proxyType := mkProxy { proxy : CService; randomize_credentials : bool }.
Definition proxy_IsValid (p : proxyType) : bool := IsValid (s_ip (proxy p)).
Definition no_proxy : proxyType := mkProxy (mkService Init 0) false.

(** The globals proxyInfo, by network, and nameProxy. *)
Record proxies := mkProxies { proxyInfo : list proxyType; nameProxy : proxyType }.
Definition init_proxies : proxies := mkProxies (replicate 4 no_proxy) no_proxy.

(** The assertion on the network is the precondition of the caller. *)
Definition SetProxy (st : proxies) (net : Z) (addrProxy : proxyType) : proxies * bool :=
  if negb (proxy_IsValid addrProxy) then (st, false)
  else (mkProxies (<[Z.to_nat net := addrProxy]> (proxyInfo st)) (nameProxy st), true).
Definition GetProxy (st : proxies) (net : Z) : option proxyType :=
  let p := nth (Z.to_nat net) (proxyInfo st) no_proxy in
  if negb (proxy_IsValid p) then None else Some p.
Definition SetNameProxy (st : proxies) (addrProxy : proxyType) : proxies * bool :=
  if negb (proxy_IsValid addrProxy) then (st, false)
  else (mkProxies (proxyInfo st) addrProxy, true).
Definition GetNameProxy (st : proxies) : option proxyType :=
  if negb (proxy_IsValid (nameProxy st)) then None else Some (nameProxy st).
Definition HaveNameProxy (st : proxies) : bool := proxy_IsValid (nameProxy st).
Definition IsProxy (st : proxies) (addr : CNetAddr) : bool :=
  existsb (λ p, addr_eq addr (s_ip (proxy p))) (proxyInfo st).

Definition MillisToTimeval (nTimeout : Z) : Z * Z := (Z.quot nTimeout 1000, Z.rem nTimeout 1000 * 1000).

(** ** Subnets match a prefix of bits *)

(** Bit [i] of an address, the first one the most significant. *)
Definition addr_bit (ip : list Z) (i : Z) : bool := Z.testbit (getz ip (i / 8)) (7 - i mod 8).

Lemma length_clear_bit m n : length (clear_bit m n) = length m.
Proof. apply length_setz. Qed.

Lemma clear_bit_bits m n i : length m = 16%nat → 0 <= n < 128 → 0 <= i < 128 →
  addr_bit (clear_bit m n) i = addr_bit m i && negb (i =? n).
Proof.
  intros L Hn Hi. unfold addr_bit, clear_bit. rewrite shiftr_div by lia. change (2 ^ 3) with 8.
  rewrite getz_setz by divmod_lia. replace (Z.land n 7) with (n mod 8) by (symmetry; apply (Z.land_ones n 3); lia).
  destruct (Z.eqb_spec (i / 8) (n / 8)) as [E|E].
  - rewrite <- E, Z.land_spec. f_equal. rewrite Z.lnot_spec, Z.shiftl_1_l, Z.pow2_bits_eqb by divmod_lia.
    f_equal. destruct (Z.eqb_spec i n) as [->|N]; [by rewrite Z.eqb_refl|]. apply Z.eqb_neq. divmod_lia.
  - destruct (Z.eqb_spec i n) as [->|N]; [done|]. by rewrite andb_true_r.
Qed.

Lemma clear_bits_bits m n i : length m = 16%nat → 0 <= n <= 128 → 0 <= i < 128 →
  addr_bit (clear_bits m n) i = addr_bit m i && (i <? n) ∧ length (clear_bits m n) = 16%nat.
Proof.
  intros L Hn Hi. unfold clear_bits.
  assert (G : ∀ k m, length m = 16%nat → n + Z.of_nat k <= 128 →
    addr_bit (foldl clear_bit m (seqZ n (Z.of_nat k))) i = addr_bit m i && negb ((n <=? i) && (i <? n + Z.of_nat k))
    ∧ length (foldl clear_bit m (seqZ n (Z.of_nat k))) = 16%nat).
  { induction k as [|k IH]; intros mm Lm Hk.
    - rewrite seqZ_nil by lia. cbn [foldl]. split; [|done].
      destruct (Z.leb_spec n i), (Z.ltb_spec i (n + Z.of_nat 0)); try lia; by destruct (addr_bit mm i).
    - rewrite seqZ_S, foldl_app. rewrite Nat2Z.inj_succ in *. cbn [foldl].
      destruct (IH mm Lm) as [B L']; [lia|]. rewrite length_clear_bit. split; [|done].
      rewrite clear_bit_bits, B by lia.
      destruct (Z.leb_spec n i), (Z.ltb_spec i (n + Z.of_nat k)), (Z.ltb_spec i (n + Z.succ (Z.of_nat k))),
        (Z.eqb_spec i (n + Z.of_nat k)); try lia; by destruct (addr_bit mm i). }
  destruct (G (Z.to_nat (128 - n)) m L) as [B L']; [lia|]. rewrite Z2Nat.id in B, L' by lia.
  split; [|done]. rewrite B. f_equal.
  destruct (Z.leb_spec n i), (Z.ltb_spec i (n + (128 - n))), (Z.ltb_spec i n); try lia; done.
Qed.

Lemma full_mask_bits i : 0 <= i < 128 → addr_bit (replicate 16 255) i = true.
Proof.
  intros Hi. unfold addr_bit. rewrite getz_replicate by (cbn; divmod_lia).
  assert (0 <= 7 - i mod 8 < 8) as H by divmod_lia. revert H. generalize (7 - i mod 8). intros k Hk.
  assert (k = 0 ∨ k = 1 ∨ k = 2 ∨ k = 3 ∨ k = 4 ∨ k = 5 ∨ k = 6 ∨ k = 7) as C by lia.
  by repeat destruct C as [->|C]; subst.
Qed.

Lemma getz_zip_land a m i : length a = length m → 0 <= i < Z.of_nat (length a) →
  getz (mask_and a m) i = Z.land (getz a i) (getz m i).
Proof.
  intros L Hi. unfold getz, mask_and. rewrite !nth_lookup, lookup_zip_with.
  destruct (lookup_lt_is_Some_2 a (Z.to_nat i)) as [x ->]; [lia|].
  destruct (lookup_lt_is_Some_2 m (Z.to_nat i)) as [y ->]; [lia|]. done.
Qed.

Lemma mask_and_bits a m i : length a = 16%nat → length m = 16%nat → 0 <= i < 128 →
  addr_bit (mask_and a m) i = addr_bit a i && addr_bit m i.
Proof. intros La Lm Hi. unfold addr_bit. rewrite getz_zip_land by (rewrite ?La; divmod_lia). apply Z.land_spec. Qed.

Lemma mask_and_ok a m : ok_ip a → length m = 16%nat → ok_ip (mask_and a m).
Proof.
  intros [La Ba] Lm. split; [unfold mask_and; rewrite length_zip_with; lia|].
  apply Forall_lookup. intros i x E. unfold mask_and in E. rewrite lookup_zip_with in E.
  destruct (a !! i) as [y|] eqn:Ea; [|done]. destruct (m !! i) as [z|]; [|done]. cbn in E. injection E as <-.
  pose proof (proj1 (Forall_lookup _ _) Ba i y Ea) as Hy.
  unfold in_uw in Hy. apply in_uw_bits; [lia|apply Z.land_nonneg; lia|].
  intros j Hj. by rewrite Z.land_spec, (testbit_high 8) by (done || lia).
Qed.

Lemma byte_ext x y : is_byte x → is_byte y → (∀ k, 0 <= k < 8 → Z.testbit x k = Z.testbit y k) → x = y.
Proof.
  intros Hx Hy H. apply Z.bits_inj'. intros k Hk. destruct (Z.lt_ge_cases k 8) as [L|G]; [apply H; lia|].
  by rewrite !(testbit_high 8) by (done || lia).
Qed.

Lemma ip_bits_ext a b : ok_ip a → ok_ip b → (∀ i, 0 <= i < 128 → addr_bit a i = addr_bit b i) ↔ a = b.
Proof.
  intros [La Ba] [Lb Bb]. split; [|by intros ->]. intros H. apply list_eq_same_length with 16%nat; [done..|].
  intros i x y Hi Ex Ey. pose proof (proj1 (Forall_lookup _ _) Ba i x Ex) as Hx.
  pose proof (proj1 (Forall_lookup _ _) Bb i y Ey) as Hy. apply byte_ext; [done..|]. intros k Hk.
  specialize (H (8 * Z.of_nat i + (7 - k)) ltac:(lia)). unfold addr_bit in H.
  replace ((8 * Z.of_nat i + (7 - k)) / 8) with (Z.of_nat i) in H by divmod_lia.
  replace (7 - (8 * Z.of_nat i + (7 - k)) mod 8) with k in H by divmod_lia.
  unfold getz in H. rewrite !Nat2Z.id in H. by rewrite (nth_lookup_Some _ _ _ _ Ex), (nth_lookup_Some _ _ _ _ Ey) in H.
Qed.

Lemma masks_agree a b m : ok_ip a → ok_ip b → length m = 16%nat →
  mask_and a m = mask_and b m ↔ ∀ i, 0 <= i < 128 → addr_bit m i = true → addr_bit a i = addr_bit b i.
Proof.
  intros Ha Hb Lm. rewrite <- ip_bits_ext by (by apply mask_and_ok). destruct Ha as [La _], Hb as [Lb _].
  split; intros H i Hi.
  - intros M. specialize (H i Hi). rewrite !mask_and_bits, M, !andb_true_r in H by done. done.
  - rewrite !mask_and_bits by done. destruct (addr_bit m i) eqn:M; [by rewrite H|by rewrite !andb_false_r].
Qed.

Lemma find_last_None c b : c ∉ b → find_last c b = None.
Proof.
  induction b as [|x b IH]; cbn; [done|]. intros H. rewrite IH by set_solver.
  destruct (Z.eqb_spec x c); [set_solver|done].
Qed.

Lemma find_last_app c a b : c ∉ b → find_last c (a ++ c :: b) = Some (length a).
Proof.
  intros H. induction a as [|x a IH]; cbn; [by rewrite find_last_None, Z.eqb_refl|]. by rewrite IH.
Qed.

Lemma put_d_no_slash n : 47 ∉ put_d n.
Proof.
  assert (D : ∀ z, 0 <= z → 47 ∉ put_dec z).
  { intros z Hz E. destruct (put_dec_spec z Hz) as (D & _). rewrite Forall_forall in D. by specialize (D _ E). }
  unfold put_d. destruct (Z.ltb_spec n 0); [|by apply D]. rewrite not_elem_of_cons. split; [lia|]. apply D. lia.
Qed.

Section Subnets.

Context (getaddrinfo : list Z → bool → option (list sockaddr)).

(** The bits the mask keeps for a number after the slash. *)
Definition prefix_bits (net : CNetAddr) (n : Z) : Z := (if IsIPv4 net then 96 else 0) + n.

Lemma CSubNet_of_prefix host net r n allow :
  LookupHost getaddrinfo (c_str host) 1 allow = net :: r → in_sw 32 n →
  let mask := (if (0 <=? n) && (prefix_bits net n <=? 128) then clear_bits (replicate 16 255) (prefix_bits net n)
               else replicate 16 255) in
  CSubNet_of_text getaddrinfo (host ++ 47 :: put_d n) allow
  = mkSubNet (mask_and net mask) mask ((0 <=? n) && (prefix_bits net n <=? 128)).
Proof.
  intros HL Hn. unfold CSubNet_of_text. rewrite find_last_app, take_app_length, HL by apply put_d_no_slash.
  replace (drop (length host + 1) (host ++ 47 :: put_d n)) with (put_d n)
    by (rewrite drop_app_add; done).
  unfold parse_netmask. destruct (integer_parsers_are_exact (put_d n) n) as (P & _).
  rewrite (proj2 P) by (split; [apply put_d_is_int|done]). unfold prefix_bits.
  destruct (IsIPv4 net).
  - change (Z.of_nat 12 * 8) with 96. rewrite (Z.add_comm n 96).
    destruct (Z.leb_spec 0 n), (Z.leb_spec n (128 - 96)), (Z.leb_spec (96 + n) 128); try lia; reflexivity.
  - change (Z.of_nat 0 * 8) with 0. rewrite (Z.add_comm n 0).
    destruct (Z.leb_spec 0 n), (Z.leb_spec n (128 - 0)), (Z.leb_spec (0 + n) 128); try lia; reflexivity.
Qed.

(** C39: the subnet of the text "host/n" is valid exactly when n is a length of a
    prefix of the address host stands for (32 bits at most for IPv4), and then it
    matches exactly the valid addresses that share the first n bits (with the
    96 bits of the IPv4 mapping before them); an invalid subnet matches none. *)
Theorem subnet_matches_prefix host net r n allow :
  LookupHost getaddrinfo (c_str host) 1 allow = net :: r → ok_ip net → in_sw 32 n →
  let s := CSubNet_of_text getaddrinfo (host ++ 47 :: put_d n) allow in
  (valid s = true ↔ 0 <= n ∧ prefix_bits net n <= 128)
  ∧ ∀ addr, ok_ip addr →
      (Match s addr = true ↔
       valid s = true ∧ IsValid addr = true ∧ ∀ i, 0 <= i < prefix_bits net n → addr_bit addr i = addr_bit net i).
Proof.
  intros HL Hnet Hn. cbn zeta. rewrite (CSubNet_of_prefix _ _ _ _ _ HL Hn).
  set (ok := (0 <=? n) && (prefix_bits net n <=? 128)). cbn [valid netmask network].
  assert (Hok : ok = true ↔ 0 <= n ∧ prefix_bits net n <= 128) by (unfold ok; rewrite andb_true_iff, !Z.leb_le; done).
  split; [done|]. intros addr Ha. unfold Match. cbn [valid netmask network].
  destruct ok eqn:E; cbn [negb orb]; [|split; [done|by intros [? _]]].
  destruct (IsValid addr); cbn [negb]; [|split; [done|by intros (_ & ? & _)]].
  destruct (proj1 Hok eq_refl) as [H0 H1]. assert (P0 : 0 <= prefix_bits net n) by (unfold prefix_bits; destruct (IsIPv4 net); lia).
  assert (B : ∀ i, 0 <= i < 128 → addr_bit (clear_bits (replicate 16 255) (prefix_bits net n)) i = (i <? prefix_bits net n)).
  { intros i Hi. destruct (clear_bits_bits (replicate 16 255) (prefix_bits net n) i) as [-> _]; [done|lia|done|].
    by rewrite full_mask_bits. }
  destruct (clear_bits_bits (replicate 16 255) (prefix_bits net n) 0) as [_ L]; [done|lia|lia|].
  rewrite bool_decide_eq_true, masks_agree by done. split.
  - intros H. split; [done|]. split; [done|]. intros i Hi. apply H; [lia|]. rewrite B by lia. apply Z.ltb_lt. lia.
  - intros (_ & _ & H) i Hi M. rewrite B in M by done. apply H. apply Z.ltb_lt in M. lia.
Qed.

End Subnets.


(** *** Examples *)

Fixpoint split_on (c : Z) (s acc : list Z) : list (list Z) :=
  match s with
  | [] => [acc]
  | x :: r => if x =? c then acc :: split_on c r [] else split_on c r (acc ++ [x])
  end.

(** A resolver that knows dotted quads. *)
Definition dotted_quad (name : list Z) (allow : bool) : option (list sockaddr) :=
  match map ParseInt32 (split_on 46 name []) with
  | [(true, Some a); (true, Some b); (true, Some c); (true, Some d)] =>
      if forallb (λ x, (0 <=? x) && (x <=? 255)) [a; b; c; d] then Some [AF_INET [a; b; c; d] 0] else None
  | _ => None
  end.

Definition subnet (s : string) : CSubNet := CSubNet_of_text dotted_quad (str s) false.

Example subnet_tests :
  subnet "1.2.3.0/24" = subnet "1.2.3.0/255.255.255.0"
  ∧ map (λ p : string * CNetAddr, Match (subnet p.1) p.2)
      [("1.2.3.0/24", ipv4 1 2 3 4); ("1.2.2.0/24", ipv4 1 2 3 4); ("1.2.3.4", ipv4 1 2 3 4); ("1.2.3.4/32", ipv4 5 6 7 8);
       ("192.168.0.20/29", ipv4 192 168 0 18); ("1.2.2.20/26", ipv4 1 2 2 63); ("0.0.0.0/0", ipv6 [1; 2; 3; 4; 5; 6; 7; 8]);
       ("bloop", ipv4 1 2 3 4)]%string
    = [true; false; true; false; true; true; false; false]
  ∧ map (λ s, valid (subnet s)) ["1.2.3.0/0"; "1.2.3.0/-1"; "1.2.3.0/32"; "1.2.3.0/33"; "fuzzy"]%string
    = [true; false; true; false; false].
Proof. vm_compute. repeat split; reflexivity. Qed.

Example split_tests :
  map (λ s, SplitHostPort (str s) (-1))
    ["www.bitcoin.org"; "www.bitcoin.org:80"; "[www.bitcoin.org]:80"; "::ffff:127.0.0.1"; "[::]:52000"; "::52000"; ":52000"; "[]:52000"; ""]%string
  = map (λ p : Z * string, (p.1, str p.2))
    [(-1, "www.bitcoin.org"); (80, "www.bitcoin.org"); (80, "www.bitcoin.org"); (-1, "::ffff:127.0.0.1"); (52000, "::");
     (-1, "::52000"); (52000, ""); (52000, ""); (-1, "")]%string.
Proof. vm_compute. reflexivity. Qed.

Lemma subnet_matches_prefix_witness :
  Match (CSubNet_of_text dotted_quad (str "192.168.0.20" ++ 47 :: put_d 29) false) (ipv4 192 168 0 18) = true.
Proof.
  assert (Hnet : ok_ip (ipv4 192 168 0 20)) by (split; [done|repeat constructor; done]).
  apply (subnet_matches_prefix dotted_quad (str "192.168.0.20") (ipv4 192 168 0 20) [] 29 false);
    [vm_compute; reflexivity|exact Hnet|unfold in_sw; lia|split; [done|repeat constructor; done]|].
  split; [vm_compute; reflexivity|]. split; [vm_compute; reflexivity|]. intros i Hi.
  assert (F : forallb (λ i, eqb (addr_bit (ipv4 192 168 0 18) i) (addr_bit (ipv4 192 168 0 20) i)) (seqZ 0 125) = true)
    by (vm_compute; reflexivity).
  apply eqb_prop. change 125 with (prefix_bits (ipv4 192 168 0 20) 29) in F. exact (Zforall_check _ _ F i Hi).
Defined.

(** ** SOCKS 5 *)

(** What a call of [recv] meets: bytes (at least one; what does not fit stays for
    the next call), the end of the connection, no data yet (with whether the
    socket can be selected on, and whether the select succeeds), or an error. *)
Inductive recv_event :=
| Data (b : list Z)
| Disconnected
| WouldBlock (selectable selected : bool)
| RecvFailure.

(** What a call of [send] got onto the wire, and what InterruptibleRecv stored. *)
Inductive exchange := Wrote (b : list Z) | Read (b : list Z).

(** A socket: the events to come, each with the time at which it is over; the
    clock; the results of the sends to come; what has been exchanged; whether it
    has been closed; and how much has been stored from the start of pchRet3, an
    array of 256 bytes. *)
Record socket := mkSocket {
  events : list (recv_event * Z);
  clock : Z;
  sends : list Z;
  trace : list exchange;
  closed : bool;
  pchRet3_stored : Z
}.

(** The flag, the bytes stored, the events left and the time. Without events the
    wait ends at the time limit. *)
Fixpoint recv_loop (evs : list (recv_event * Z)) (len now endTime : Z) (acc : list Z)
  : bool * list Z * list (recv_event * Z) * Z :=
  if (0 <? len) && (now <? endTime) then
    match evs with
    | [] => (false, acc, [], endTime)
    | (Data [], t) :: evs => (false, acc, evs, t)
    | (Data b, t) :: evs =>
        if Z.of_nat (length b) <=? len
        then recv_loop evs (len - Z.of_nat (length b)) t endTime (acc ++ b)
        else (true, acc ++ take (Z.to_nat len) b, (Data (drop (Z.to_nat len) b), t) :: evs, t)
    | (Disconnected, t) :: evs => (false, acc, evs, t)
    | (WouldBlock selectable selected, t) :: evs =>
        if negb selectable then (false, acc, evs, t)
        else if negb selected then (false, acc, evs, t)
        else recv_loop evs len t endTime acc
    | (RecvFailure, t) :: evs => (false, acc, evs, t)
    end
  else (len =? 0, acc, evs, now).

Definition InterruptibleRecv (st : socket) (len timeout : Z) : bool * list Z * socket :=
  let '(ok, data, evs, now) := recv_loop (events st) len (clock st) (clock st + timeout) [] in
  (ok, data, mkSocket evs now (sends st) (trace st ++ [Read data]) (closed st) (pchRet3_stored st)).

(** A call of [send] and the check of its result: as many bytes of [b] as it
    returns have gone out, none if it fails with -1. *)
Definition send_all (st : socket) (b : list Z) : bool * socket :=
  let ret := hd (-1) (sends st) in
  (ret =? Z.of_nat (length b),
   mkSocket (events st) (clock st) (tl (sends st)) (trace st ++ [Wrote (take (Z.to_nat ret) b)]) (closed st) (pchRet3_stored st)).

Definition CloseSocket (st : socket) : socket :=
  mkSocket (events st) (clock st) (sends st) (trace st) true (pchRet3_stored st).

Definition stored (st : socket) (n : Z) : socket :=
  mkSocket (events st) (clock st) (sends st) (trace st) (closed st) (Z.max (pchRet3_stored st) n).

Record ProxyCredentials := mkCredentials { username : list Z; password : list Z }.

Definition SOCKS5_RECV_TIMEOUT : Z := 20000.

Definition vSocks5Init (auth : option ProxyCredentials) : list Z :=
  match auth with Some _ => [5; 2; 0; 2] | None => [5; 1; 0] end.
Definition vAuth (a : ProxyCredentials) : list Z :=
  [1] ++ [u8 (Z.of_nat (length (username a)))] ++ username a ++ [u8 (Z.of_nat (length (password a)))] ++ password a.
Definition vSocks5 (strDest : list Z) (port : Z) : list Z :=
  [5; 1; 0; 3] ++ [u8 (Z.of_nat (length strDest))] ++ strDest ++ [Z.land (Z.shiftr port 8) 255; Z.land port 255].

(** The error exits that close the socket. *)
Definition socks_error (st : socket) : bool * socket := (false, CloseSocket st).

(** After the method [m] of the proxy's answer: the password exchange. The result
    is the socket to go on with, or what Socks5 returns. *)
Definition Socks5_auth (auth : option ProxyCredentials) (m : Z) (st : socket) : socket + (bool * socket) :=
  match auth with
  | Some a =>
      if m =? 2 then
        if (255 <? Z.of_nat (length (username a))) || (255 <? Z.of_nat (length (password a))) then inr (false, st)
        else
          let '(ok, st) := send_all st (vAuth a) in
          if negb ok then inr (socks_error st)
          else
            let '(ok, pchRetA, st) := InterruptibleRecv st 2 SOCKS5_RECV_TIMEOUT in
            if negb ok then inr (socks_error st)
            else if negb (getz pchRetA 0 =? 1) || negb (getz pchRetA 1 =? 0) then inr (socks_error st)
            else inl st
      else if m =? 0 then inl st
      else inr (socks_error st)
  | None => if m =? 0 then inl st else inr (socks_error st)
  end.

(** The bound address of the reply: an IPv4 or IPv6 address, or a name after its
    length, which is read from a [char] and passed on as a [size_t]. *)
Definition Socks5_bound (atyp : Z) (st : socket) : option (bool * socket) :=
  let read (st : socket) (n : Z) :=
    let '(ok, data, st) := InterruptibleRecv st n SOCKS5_RECV_TIMEOUT in
    (ok, data, stored st (Z.of_nat (length data))) in
  if atyp =? 1 then let '(ok, _, st) := read st 4 in Some (ok, st)
  else if atyp =? 4 then let '(ok, _, st) := read st 16 in Some (ok, st)
  else if atyp =? 3 then
    let '(ok, pchRet3, st) := read st 1 in
    if negb ok then Some (false, st)
    else let nRecv := swrap 8 (getz pchRet3 0) in
         let '(ok, _, st) := read st (u64 nRecv) in Some (ok, st)
  else None.

Definition Socks5 (strDest : list Z) (port : Z) (auth : option ProxyCredentials) (st : socket) : bool * socket :=
  if 255 <? Z.of_nat (length strDest) then socks_error st
  else
    let '(ok, st) := send_all st (vSocks5Init auth) in
    if negb ok then socks_error st
    else
      let '(ok, pchRet1, st) := InterruptibleRecv st 2 SOCKS5_RECV_TIMEOUT in
      if negb ok then socks_error st
      else if negb (getz pchRet1 0 =? 5) then socks_error st
      else
        match Socks5_auth auth (getz pchRet1 1) st with
        | inr r => r
        | inl st =>
            let '(ok, st) := send_all st (vSocks5 strDest port) in
            if negb ok then socks_error st
            else
              let '(ok, pchRet2, st) := InterruptibleRecv st 4 SOCKS5_RECV_TIMEOUT in
              if negb ok then socks_error st
              else if negb (getz pchRet2 0 =? 5) then socks_error st
              else if negb (getz pchRet2 1 =? 0) then socks_error st
              else if negb (getz pchRet2 2 =? 0) then socks_error st
              else
                match Socks5_bound (getz pchRet2 3) st with
                | None => socks_error st
                | Some (ok, st) =>
                    if negb ok then socks_error st
                    else
                      let '(ok, data, st) := InterruptibleRecv st 2 SOCKS5_RECV_TIMEOUT in
                      let st := stored st (Z.of_nat (length data)) in
                      if negb ok then socks_error st else (true, st)
                end
        end.

(** *** What is read *)

(** The bytes that are still to come. *)
Definition stream (evs : list (recv_event * Z)) : list Z :=
  concat (map (λ e : recv_event * Z, match e.1 with Data b => b | _ => [] end) evs).

(** The bytes of a run of reads, in order, come from the stream; a successful read
    has all the bytes asked for, and none stores more. *)
Lemma recv_loop_spec evs : ∀ len now e acc ok data evs' now',
  0 <= len → recv_loop evs len now e acc = (ok, data, evs', now') →
  ∃ d, data = acc ++ d ∧ stream evs = d ++ stream evs' ∧ Z.of_nat (length d) <= len ∧ (ok = true → Z.of_nat (length d) = len).
Proof.
  assert (∀ evs (len : Z) ok (data acc : list Z) evs', 0 <= len → data = acc → stream evs = stream evs' → (ok = true → len = 0) →
    ∃ d, data = acc ++ d ∧ stream evs = d ++ stream evs' ∧ Z.of_nat (length d) <= len ∧ (ok = true → Z.of_nat (length d) = len)) as Stop.
  { intros evs0 len ok data acc evs0' Hl -> E H. exists []. rewrite app_nil_r. split_and!; [done|done|done|].
    intros Ho. rewrite (H Ho). done. }
  induction evs as [|[ev t] evs IH]; intros len now e acc ok data evs' now' Hl; cbn [recv_loop].
  - destruct (_ && _); intros [= <- <- <- <-]; apply Stop; try done. intros H. by apply Z.eqb_eq in H.
  - destruct (_ && _); [|intros [= <- <- <- <-]; apply Stop; try done; intros H; by apply Z.eqb_eq in H].
    destruct ev as [[|x b]| |? ?|]; try (intros [= <- <- <- <-]; by apply Stop).
    + destruct (Z.leb_spec (Z.of_nat (length (x :: b))) len) as [L|G].
      * intros E. apply IH in E as (d & -> & Es & Hd & Ho); [|lia]. exists ((x :: b) ++ d).
        rewrite <- app_assoc. split_and!; [done| |rewrite length_app; lia|intros H; specialize (Ho H); rewrite length_app; lia].
        change (stream ((Data (x :: b), t) :: evs)) with ((x :: b) ++ stream evs). by rewrite Es, <- app_assoc.
      * intros [= <- <- <- <-]. exists (take (Z.to_nat len) (x :: b)). split_and!; [done| |rewrite length_take; lia|].
        -- change (stream ((Data ?b, t) :: evs)) with (b ++ stream evs). by rewrite app_assoc, take_drop.
        -- intros _. rewrite length_take. lia.
    + destruct (negb _); [intros [= <- <- <- <-]; by apply Stop|]. destruct (negb _); [intros [= <- <- <- <-]; by apply Stop|].
      intros E. by apply IH in E.
Qed.

(** How a step leaves the socket: the trace grew by [tr], whose reads are the bytes
    that are gone from the stream, and nothing else but the results of sends and
    pchRet3 moved. *)
Definition reads (tr : list exchange) : list Z := concat (map (λ x, match x with Read b => b | Wrote _ => [] end) tr).
Definition writes (tr : list exchange) : list (list Z) := omap (λ x, match x with Wrote b => Some b | Read _ => None end) tr.

Definition goes (st st' : socket) (tr : list exchange) : Prop :=
  trace st' = trace st ++ tr ∧ closed st' = closed st ∧ stream (events st) = reads tr ++ stream (events st').

Lemma reads_app a b : reads (a ++ b) = reads a ++ reads b.
Proof. unfold reads. by rewrite map_app, concat_app. Qed.

Lemma goes_trans st1 st2 st3 a b : goes st1 st2 a → goes st2 st3 b → goes st1 st3 (a ++ b).
Proof.
  intros (T1 & C1 & S1) (T2 & C2 & S2). split_and!; [by rewrite T2, T1, app_assoc|congruence|].
  by rewrite reads_app, <- app_assoc, <- S2.
Qed.

Lemma goes_stored st st' tr n : goes st st' tr → goes st (stored st' n) tr.
Proof. done. Qed.

Lemma InterruptibleRecv_spec st len t ok data st' :
  0 <= len → InterruptibleRecv st len t = (ok, data, st') →
  goes st st' [Read data] ∧ pchRet3_stored st' = pchRet3_stored st ∧
  Z.of_nat (length data) <= len ∧ (ok = true → Z.of_nat (length data) = len).
Proof.
  intros Hl. unfold InterruptibleRecv. destruct (recv_loop _ _ _ _ _) as [[[ok0 d0] evs'] now'] eqn:E. intros [= <- <- <-].
  apply recv_loop_spec in E as (d & -> & Es & Hd & Ho); [|done]. split_and!; [|done..]. split_and!; [done..|].
  cbn. by rewrite app_nil_r.
Qed.

Lemma send_all_spec st b ok st' :
  send_all st b = (ok, st') → pchRet3_stored st' = pchRet3_stored st ∧ (ok = true → goes st st' [Wrote b]).
Proof.
  unfold send_all. intros [= <- <-]. split; [done|]. intros ->%Z.eqb_eq. split_and!; [|done..]. cbn.
  by rewrite Nat2Z.id, firstn_all.
Qed.

(** *** The conversation *)

Definition too_long (auth : option ProxyCredentials) : Prop :=
  ∃ a, auth = Some a ∧ (255 < Z.of_nat (length (username a)) ∨ 255 < Z.of_nat (length (password a))).

(** What follows the method the proxy chose: nothing, or the password message of
    RFC 1929 and its acceptance. *)
Definition auth_part (auth : option ProxyCredentials) (m : Z) (tr : list exchange) : Prop :=
  (m = 0 ∧ tr = []) ∨
  ∃ a, m = 2 ∧ auth = Some a ∧ ¬ too_long auth ∧ tr = [Wrote (vAuth a); Read [1; 0]].

(** The bound address of a reply of the type [atyp]. *)
Inductive bound_part (atyp : Z) : list exchange → Prop :=
| bound_ipv4 b : atyp = 1 → Z.of_nat (length b) = 4 → bound_part atyp [Read b]
| bound_ipv6 b : atyp = 4 → Z.of_nat (length b) = 16 → bound_part atyp [Read b]
| bound_name n b : atyp = 3 → Z.of_nat (length b) = u64 (swrap 8 n) → bound_part atyp [Read [n]; Read b].

(** RFC 1928: the greeting and the method the proxy chose, the password exchange,
    the request and the reply, which grants it. *)
Inductive conversation (strDest : list Z) (port : Z) (auth : option ProxyCredentials) : list exchange → Prop :=
| conv m tr_auth atyp tr_bound p :
    auth_part auth m tr_auth → bound_part atyp tr_bound → length p = 2%nat →
    conversation strDest port auth
      ([Wrote (vSocks5Init auth); Read [5; m]] ++ tr_auth
       ++ [Wrote (vSocks5 strDest port); Read [5; 0; 0; atyp]] ++ tr_bound ++ [Read p]).

(** pchRet3 is overrun only by a name whose length byte is a negative [char]. *)
Definition overrun (st st' : socket) : Prop :=
  pchRet3_stored st' <= Z.max (pchRet3_stored st) 127 ∨
  ∃ before n after, stream (events st) = before ++ [5; 0; 0; 3; n] ++ after ∧ swrap 8 n < 0.

Lemma Socks5_auth_spec auth m st :
  match Socks5_auth auth m st with
  | inl st' => ∃ tr, auth_part auth m tr ∧ goes st st' tr ∧ pchRet3_stored st' = pchRet3_stored st
  | inr (r, st') => r = false ∧ (closed st' = true ∨ too_long auth) ∧ pchRet3_stored st' = pchRet3_stored st
  end.
Proof.
  assert (goes st st []) as Hnil by (split_and!; [by rewrite app_nil_r|done..]).
  unfold Socks5_auth, auth_part, too_long. destruct auth as [a|].
  - destruct (Z.eqb_spec m 2) as [->|].
    + destruct (Z.ltb_spec 255 (Z.of_nat (length (username a)))), (Z.ltb_spec 255 (Z.of_nat (length (password a))));
        cbn [orb]; try (split_and!; [done|right; eauto|done]).
      destruct (send_all st (vAuth a)) as [ok st1] eqn:E. apply send_all_spec in E as [P1 G1].
      destruct ok; cbn [negb]; [|split_and!; [done|by left|done]]. specialize (G1 eq_refl).
      destruct (InterruptibleRecv _ _ _) as [[ok d] st2] eqn:R. apply InterruptibleRecv_spec in R as (G2 & P2 & _ & L); [|done].
      destruct ok; cbn [negb]; [|split_and!; [done|by left|cbn; congruence]]. specialize (L eq_refl).
      destruct d as [|x [|y [|]]]; cbn in L; try lia.
      change (getz [x; y] 0) with x. change (getz [x; y] 1) with y.
      destruct (Z.eqb_spec x 1) as [->|], (Z.eqb_spec y 0) as [->|]; cbn [negb orb];
        try (split_and!; [done|by left|cbn; congruence]).
      exists [Wrote (vAuth a); Read [1; 0]]. split_and!; [|by apply (goes_trans st st1 st2 [_] [_])|congruence].
      right. exists a. split_and!; [done..| |done]. intros (a' & [= <-] & ?). lia.
    + destruct (Z.eqb_spec m 0) as [->|]; [|split_and!; [done|by left|done]]. exists []. split_and!; [by left|done|done].
  - destruct (Z.eqb_spec m 0) as [->|]; [|split_and!; [done|by left|done]]. exists []. split_and!; [by left|done|done].
Qed.

Lemma Socks5_bound_spec atyp st ok st' :
  Socks5_bound atyp st = Some (ok, st') →
  ∃ tr, goes st st' tr ∧ (ok = true → bound_part atyp tr) ∧
    (pchRet3_stored st' <= Z.max (pchRet3_stored st) 127 ∨
     atyp = 3 ∧ ∃ n rest, reads tr = n :: rest ∧ swrap 8 n < 0).
Proof.
  unfold Socks5_bound.
  assert (∀ n ok d st1, 0 <= n <= 127 → InterruptibleRecv st n SOCKS5_RECV_TIMEOUT = (ok, d, st1) →
    goes st (stored st1 (Z.of_nat (length d))) [Read d] ∧ (ok = true → Z.of_nat (length d) = n) ∧
    pchRet3_stored (stored st1 (Z.of_nat (length d))) <= Z.max (pchRet3_stored st) 127) as R1.
  { intros n ok' d st1 Hn R. apply InterruptibleRecv_spec in R as (G & P & L & Ho); [|lia]. split_and!; [done..|].
    cbn. rewrite P. lia. }
  destruct (Z.eqb_spec atyp 1) as [E1|E1]; [|destruct (Z.eqb_spec atyp 4) as [E4|E4]; [|destruct (Z.eqb_spec atyp 3) as [->|E3]; [|done]]].
  - destruct (InterruptibleRecv st 4 _) as [[ok1 d] st1] eqn:R. apply R1 in R as (G & Ho & P); [|lia]. intros [= <- <-].
    exists [Read d]. split_and!; [done|intros H; by apply bound_ipv4, Ho|by left].
  - destruct (InterruptibleRecv st 16 _) as [[ok1 d] st1] eqn:R. apply R1 in R as (G & Ho & P); [|lia]. intros [= <- <-].
    exists [Read d]. split_and!; [done|intros H; by apply bound_ipv6, Ho|by left].
  - destruct (InterruptibleRecv st 1 _) as [[ok1 d] st1] eqn:R. apply R1 in R as (G & Ho & P); [|lia].
    set (st1' := stored st1 (Z.of_nat (length d))) in *. destruct ok1; cbn [negb].
    2: { intros [= <- <-]. exists [Read d]. split_and!; [done|done|by left]. }
    specialize (Ho eq_refl). destruct d as [|n [|]]; cbn in Ho; try lia. change (getz [n] 0) with n.
    destruct (InterruptibleRecv st1' (u64 (swrap 8 n)) _) as [[ok2 b] st2] eqn:R.
    apply InterruptibleRecv_spec in R as (G2 & P2 & L2 & Ho2); [|apply wrap_range; lia]. intros [= <- <-].
    exists [Read [n]; Read b]. split_and!.
    + apply goes_stored. by apply (goes_trans st st1' st2 [_] [_]).
    + intros H. by apply bound_name, Ho2.
    + destruct (Z.ltb_spec (swrap 8 n) 0); [right; split; [done|]; by exists n, (b ++ [])|]. left.
      pose proof (swrap_range 8 n ltac:(lia)) as [_ Hr]. change (2 ^ (8 - 1)) with 128 in Hr.
      rewrite wrap_small in L2 by (unfold in_uw; lia). cbn [pchRet3_stored stored]. rewrite P2. lia.
Qed.

Lemma Socks5_spec strDest port auth st r st' :
  Socks5 strDest port auth st = (r, st') →
  overrun st st' ∧
  if r then Z.of_nat (length strDest) <= 255 ∧ ∃ tr, conversation strDest port auth tr ∧ goes st st' tr
  else closed st' = true ∨ too_long auth.
Proof.
  assert (∀ st1, pchRet3_stored st1 = pchRet3_stored st → overrun st st1) as Hsame by (intros st1 E; left; lia).
  unfold Socks5. destruct (Z.ltb_spec 255 (Z.of_nat (length strDest))); [intros [= <- <-]; split; [by apply Hsame|by left]|].
  destruct (send_all st _) as [ok1 st1] eqn:E1. apply send_all_spec in E1 as [P1 G1].
  destruct ok1; cbn [negb]; [|intros [= <- <-]; split; [by apply Hsame|by left]]. specialize (G1 eq_refl).
  destruct (InterruptibleRecv _ 2 _) as [[ok2 d2] st2] eqn:R2. apply InterruptibleRecv_spec in R2 as (G2 & P2 & _ & L2); [|done].
  destruct ok2; cbn [negb]; [|intros [= <- <-]; split; [apply Hsame; cbn; lia|by left]]. specialize (L2 eq_refl).
  destruct d2 as [|v [|m [|]]]; cbn in L2; try lia. change (getz [v; m] 0) with v. change (getz [v; m] 1) with m.
  destruct (Z.eqb_spec v 5) as [->|]; cbn [negb]; [|intros [= <- <-]; split; [apply Hsame; cbn; lia|by left]].
  pose proof (Socks5_auth_spec auth m st2) as A.
  destruct (Socks5_auth auth m st2) as [st3|[r3 st3]].
  2: { intros [= <- <-]. destruct A as (-> & A & P3). split; [apply Hsame; lia|done]. }
  destruct A as (ta & Ha & G3 & P3).
  destruct (send_all st3 _) as [ok4 st4] eqn:E4. apply send_all_spec in E4 as [P4 G4].
  destruct ok4; cbn [negb]; [|intros [= <- <-]; split; [apply Hsame; cbn; lia|by left]]. specialize (G4 eq_refl).
  destruct (InterruptibleRecv _ 4 _) as [[ok5 d5] st5] eqn:R5. apply InterruptibleRecv_spec in R5 as (G5 & P5 & _ & L5); [|done].
  destruct ok5; cbn [negb]; [|intros [= <- <-]; split; [apply Hsame; cbn; lia|by left]]. specialize (L5 eq_refl).
  destruct d5 as [|a [|b [|c [|atyp [|]]]]]; cbn in L5; try lia. set (d := [a; b; c; atyp]) in *.
  change (getz d 0) with a. change (getz d 1) with b. change (getz d 2) with c. change (getz d 3) with atyp. subst d.
  destruct (Z.eqb_spec a 5) as [->|]; cbn [negb]; [|intros [= <- <-]; split; [apply Hsame; cbn; lia|by left]].
  destruct (Z.eqb_spec b 0) as [->|]; cbn [negb]; [|intros [= <- <-]; split; [apply Hsame; cbn; lia|by left]].
  destruct (Z.eqb_spec c 0) as [->|]; cbn [negb]; [|intros [= <- <-]; split; [apply Hsame; cbn; lia|by left]].
  pose proof (goes_trans _ _ _ _ _ (goes_trans _ _ _ _ _ (goes_trans _ _ _ _ _ (goes_trans _ _ _ _ _ G1 G2) G3) G4) G5) as G.
  destruct (Socks5_bound atyp st5) as [[ok6 st6]|] eqn:B; [|intros [= <- <-]; split; [apply Hsame; cbn; lia|by left]].
  apply Socks5_bound_spec in B as (tb & G6 & Hb & P6).
  assert (overrun st st6) as O6.
  { destruct P6 as [P6|(-> & n & rest & Hn & Hneg)]; [left; rewrite P5, P4, P3, P2, P1 in P6; done|]. right.
    destruct G as (_ & _ & S5). destruct G6 as (_ & _ & S6). rewrite S6, Hn, (reads_app _ [Read _]), <- app_assoc in S5.
    eexists _, n, (rest ++ stream (events st6)). split; [exact S5|done]. }
  destruct ok6; cbn [negb]; [|intros [= <- <-]; split; [done|by left]]. specialize (Hb eq_refl).
  destruct (InterruptibleRecv st6 2 _) as [[ok7 p] st7] eqn:R7. apply InterruptibleRecv_spec in R7 as (G7 & P7 & L7 & Ho7); [|done].
  assert (overrun st (stored st7 (Z.of_nat (length p)))) as O7.
  { destruct O6 as [O6|O6]; [left; cbn; rewrite P7; lia|by right]. }
  destruct ok7; cbn [negb]; [|intros [= <- <-]; split; [done|by left]]. specialize (Ho7 eq_refl).
  intros [= <- <-]. split; [done|]. split; [done|]. eexists. split; [apply (conv _ _ _ m ta atyp tb p); [done..|lia]|].
  apply goes_stored. pose proof (goes_trans _ _ _ _ _ (goes_trans _ _ _ _ _ G G6) G7) as Gall.
  replace ([Wrote (vSocks5Init auth); Read [5; m]] ++ ta ++ [Wrote (vSocks5 strDest port); Read [5; 0; 0; atyp]] ++ tb ++ [Read p])
    with (((((([Wrote (vSocks5Init auth)] ++ [Read [5; m]]) ++ ta) ++ [Wrote (vSocks5 strDest port)]) ++ [Read [5; 0; 0; atyp]]) ++ tb)
          ++ [Read p]) by (rewrite <- !app_assoc; done).
  exact Gall.
Qed.

(** *** A proxy that grants the request *)

(** Nothing but bytes comes, and the clock stands still. *)
Record ready (st : socket) (rets s : list Z) : Prop := {
  rd_prompt : Forall (λ e, ∃ x b, e = (Data (x :: b), clock st)) (events st);
  rd_sends : sends st = rets;
  rd_stream : stream (events st) = s
}.

Lemma recv_loop_ready t e evs : t < e → ∀ want rest acc,
  Forall (λ ev, ∃ x b, ev = (Data (x :: b), t)) evs → stream evs = want ++ rest →
  ∃ evs', recv_loop evs (Z.of_nat (length want)) t e acc = (true, acc ++ want, evs', t) ∧
    Forall (λ ev, ∃ x b, ev = (Data (x :: b), t)) evs' ∧ stream evs' = rest.
Proof.
  intros Ht. induction evs as [|ev evs IH]; intros want rest acc Hp Hs.
  { destruct want; [|done]. cbn. rewrite app_nil_r. by exists []. }
  destruct want as [|w want].
  { exists (ev :: evs). cbn [recv_loop length]. rewrite app_nil_r. done. }
  apply Forall_cons in Hp as [(x & b & ->) Hp]. change (stream ((Data (x :: b), t) :: evs)) with ((x :: b) ++ stream evs) in Hs.
  set (v := w :: want) in *. assert (0 < Z.of_nat (length v)) as Hv by (cbn; lia). cbn [recv_loop].
  rewrite (proj2 (Z.ltb_lt _ _) Hv), (proj2 (Z.ltb_lt _ _) Ht). cbn [andb].
  destruct (Z.leb_spec (Z.of_nat (length (x :: b))) (Z.of_nat (length v))) as [L|L].
  - assert (v = (x :: b) ++ drop (length (x :: b)) v) as Ev.
    { rewrite <- (take_drop (length (x :: b)) v) at 1. f_equal. apply (f_equal (take (length (x :: b)))) in Hs.
      rewrite take_app_length, take_app_le in Hs by lia. done. }
    destruct (IH (drop (length (x :: b)) v) rest (acc ++ x :: b) Hp) as (evs' & E & H1 & H2).
    { rewrite Ev, <- app_assoc in Hs. by apply app_inv_head in Hs. }
    exists evs'. split_and!; [|done|done]. rewrite Ev at 1. rewrite length_app.
    replace (Z.of_nat (length (x :: b) + length (drop (length (x :: b)) v)) - Z.of_nat (length (x :: b)))
      with (Z.of_nat (length (drop (length (x :: b)) v))) by lia.
    rewrite E. rewrite Ev at 2. by rewrite <- app_assoc.
  - assert (take (length v) (x :: b) = v) as Ev.
    { apply (f_equal (take (length v))) in Hs. rewrite take_app_length, take_app_le in Hs by lia. done. }
    eexists. rewrite Nat2Z.id, Ev. split; [done|]. split.
    + constructor; [|done]. destruct (drop (length v) (x :: b)) as [|y l] eqn:Ed; [|by exists y, l].
      apply (f_equal length) in Ed. rewrite length_drop in Ed. cbn [length] in *. lia.
    + change (stream ((Data ?l, t) :: evs)) with (l ++ stream evs).
      rewrite <- (take_drop (length v) (x :: b)), Ev, <- app_assoc in Hs. by apply app_inv_head in Hs.
Qed.

Lemma recv_ready st rets want rest n :
  ready st rets (want ++ rest) → Z.of_nat (length want) = n →
  ∃ st', InterruptibleRecv st n SOCKS5_RECV_TIMEOUT = (true, want, st') ∧ ready st' rets rest.
Proof.
  intros [Hp Hr Hs] <-. unfold InterruptibleRecv.
  destruct (recv_loop_ready (clock st) (clock st + SOCKS5_RECV_TIMEOUT) (events st) ltac:(unfold SOCKS5_RECV_TIMEOUT; lia) want rest [] Hp Hs)
    as (evs' & -> & H1 & H2).
  eexists. split; [done|]. by split.
Qed.

Lemma send_ready st rets s b :
  ready st (Z.of_nat (length b) :: rets) s → ∃ st', send_all st b = (true, st') ∧ ready st' rets s.
Proof.
  intros [Hp Hr Hs]. unfold send_all. rewrite Hr. cbn [hd tl]. rewrite Z.eqb_refl. eexists. split; [done|]. by split.
Qed.

Lemma Socks5_auth_ready auth m tr st rets s :
  auth_part auth m tr → ready st (map (λ b, Z.of_nat (length b)) (writes tr) ++ rets) (reads tr ++ s) →
  ∃ st', Socks5_auth auth m st = inl st' ∧ ready st' rets s.
Proof.
  intros [[-> ->]|(a & -> & -> & Hl & ->)] H.
  - exists st. split; [|exact H]. by destruct auth.
  - cbn in H. unfold Socks5_auth. cbn [Z.eqb Pos.eqb].
    destruct (Z.ltb_spec 255 (Z.of_nat (length (username a)))); [destruct Hl; exists a; auto|].
    destruct (Z.ltb_spec 255 (Z.of_nat (length (password a)))); [destruct Hl; exists a; auto|]. cbn [orb].
    destruct (send_ready st rets (1 :: 0 :: s) (vAuth a) H) as (st1 & -> & Hr1). cbn [negb].
    destruct (recv_ready st1 rets [1; 0] s 2 Hr1 eq_refl) as (st2 & -> & H2). cbn [negb]. by exists st2.
Qed.

Lemma stored_ready st rets s n : ready st rets s → ready (stored st n) rets s.
Proof. by intros [? ? ?]. Qed.

Lemma Socks5_bound_ready atyp tr st rets s :
  bound_part atyp tr → ready st rets (reads tr ++ s) → ∃ st', Socks5_bound atyp st = Some (true, st') ∧ ready st' rets s.
Proof.
  unfold Socks5_bound. destruct 1 as [b -> L|b -> L|n b -> L]; unfold reads; cbn [map concat]; rewrite ?app_nil_r; intros H.
  - cbn [Z.eqb Pos.eqb]. destruct (recv_ready st rets b s _ H L) as (st1 & -> & H1). eexists. split; [done|]. by apply stored_ready.
  - cbn [Z.eqb Pos.eqb]. destruct (recv_ready st rets b s _ H L) as (st1 & -> & H1). eexists. split; [done|]. by apply stored_ready.
  - cbn [Z.eqb Pos.eqb]. rewrite <- app_assoc in H. destruct (recv_ready st rets [n] (b ++ s) 1 H eq_refl) as (st1 & -> & H1).
    cbn [negb]. change (getz [n] 0) with n. apply (stored_ready _ _ _ (Z.of_nat (length [n]))) in H1.
    destruct (recv_ready _ rets b s _ H1 L) as (st2 & -> & H2). eexists. split; [done|]. by apply stored_ready.
Qed.

Lemma Socks5_ready strDest port auth tr st rets s :
  Z.of_nat (length strDest) <= 255 → conversation strDest port auth tr →
  ready st (map (λ b, Z.of_nat (length b)) (writes tr) ++ rets) (reads tr ++ s) →
  ∃ st', Socks5 strDest port auth st = (true, st').
Proof.
  intros Hd [m ta atyp tb p Ha Hb Hp] H. rewrite !reads_app in H.
  assert (∀ a b : list exchange, writes (a ++ b) = writes a ++ writes b) as Hw by (intros; apply omap_app).
  rewrite !Hw, !map_app in H. assert (writes (tb ++ [Read p]) = []) as Htb by by inversion Hb.
  assert (writes tb = []) as Htb' by by inversion Hb.
  rewrite Htb' in H. cbn [writes omap list_omap map app] in H. rewrite <- !app_assoc in H. cbn [app] in H.
  unfold Socks5. destruct (Z.ltb_spec 255 (Z.of_nat (length strDest))); [lia|].
  destruct (send_ready _ _ _ _ H) as (st1 & -> & H1). cbn [negb].
  destruct (recv_ready st1 _ [5; m] _ 2 H1 eq_refl) as (st2 & -> & H2). cbn [negb]. change (getz [5; m] 0) with 5. change (getz [5; m] 1) with m.
  cbn [Z.eqb Pos.eqb negb]. destruct (Socks5_auth_ready auth m ta st2 _ _ Ha H2) as (st3 & -> & H3).
  destruct (send_ready _ _ _ _ H3) as (st4 & -> & H4). cbn [negb].
  destruct (recv_ready st4 _ [5; 0; 0; atyp] _ 4 H4 eq_refl) as (st5 & -> & H5). cbn [negb].
  change (getz [5; 0; 0; atyp] 0) with 5. change (getz [5; 0; 0; atyp] 1) with 0. change (getz [5; 0; 0; atyp] 2) with 0.
  change (getz [5; 0; 0; atyp] 3) with atyp. cbn [Z.eqb Pos.eqb negb].
  destruct (Socks5_bound_ready atyp tb st5 _ _ Hb H5) as (st6 & -> & H6). cbn [negb].
  unfold reads in H6. cbn [map concat] in H6. rewrite app_nil_r in H6.
  destruct (recv_ready st6 _ p s 2 H6 ltac:(by rewrite Hp)) as (st7 & -> & _). cbn [negb]. by eexists.
Qed.

(** C38: the SOCKS 5 handshake, whatever the sends return and the reads meet. If it
    succeeds, the socket is open, the destination has at most 255 bytes, and a
    conversation of RFC 1928 has taken place on it, in this order: every byte of
    the greeting was sent; a reply of version 5 named a method; the password
    message was sent whole and accepted exactly if that method was 2 (and there
    are credentials that fit), else it was 0; the request for the destination was
    sent whole; and a reply granted it, with an address of its type and a port,
    all read to the end. The bytes read are the next ones that came. If it fails,
    the socket has been closed, unless the credentials are too long to encode. It
    does succeed when the sends take everything and a proxy answers so without
    delay. At most 127 bytes are put into pchRet3, an array of 256, except where
    the proxy gives its address as a name with a length byte of 128 or more: that
    is a negative [char], and the read that follows it is not bounded by the
    array. *)
Theorem socks5_handshake strDest port auth st r st' :
  Socks5 strDest port auth st = (r, st') →
  (r = true →
     Z.of_nat (length strDest) <= 255 ∧ closed st' = closed st ∧
     ∃ tr, conversation strDest port auth tr ∧ trace st' = trace st ++ tr ∧
       stream (events st) = reads tr ++ stream (events st')) ∧
  (r = false → closed st' = true ∨ too_long auth) ∧
  (∀ tr rets rest,
     Z.of_nat (length strDest) <= 255 → conversation strDest port auth tr →
     Forall (λ e, ∃ x b, e = (Data (x :: b), clock st)) (events st) →
     sends st = map (λ b, Z.of_nat (length b)) (writes tr) ++ rets → stream (events st) = reads tr ++ rest → r = true) ∧
  (pchRet3_stored st' <= Z.max (pchRet3_stored st) 127 ∨
   ∃ before n after, stream (events st) = before ++ [5; 0; 0; 3; n] ++ after ∧ swrap 8 n < 0).
Proof.
  intros E. destruct (Socks5_spec _ _ _ _ _ _ E) as [Ho Hr]. split_and!; [| | |exact Ho].
  - intros ->. destruct Hr as (Hd & tr & Hc & Ht & Hcl & Hs). split_and!; [done..|]. by exists tr.
  - by intros ->.
  - intros tr rets rest Hd Hc Hp Hs Hst.
    destruct (Socks5_ready strDest port auth tr st rets rest Hd Hc) as (st1 & E1); [by split|]. congruence.
Qed.

Definition socket_of (chunks : list (list Z)) : socket :=
  mkSocket (map (λ b, (Data b, 0)) chunks) 0 [3; 14] [] false 0.
Definition ex_chunks : list (list Z) := [[5]; [0; 5; 0; 0]; [1; 10; 0; 0; 1; 31; 144]].

Lemma socks5_handshake_witness :
  ∃ st', Socks5 (str "host.on") 8333 None (socket_of ex_chunks) = (true, st') ∧ closed st' = false ∧
    trace st' = [Wrote [5; 1; 0]; Read [5; 0]; Wrote ([5; 1; 0; 3; 7] ++ str "host.on" ++ [32; 141]); Read [5; 0; 0; 1];
                 Read [10; 0; 0; 1]; Read [31; 144]] ∧
    pchRet3_stored st' <= 127 ∧
    (∃ tr, conversation (str "host.on") 8333 None tr ∧ trace st' = tr).
Proof.
  eexists. split; [vm_compute; reflexivity|]. split; [reflexivity|]. split; [reflexivity|]. split; [vm_compute; discriminate|].
  destruct (socks5_handshake (str "host.on") 8333 None (socket_of ex_chunks) true _ ltac:(vm_compute; reflexivity)) as (H & _).
  destruct (H eq_refl) as (_ & _ & tr & Hc & Ht & _). exists tr. split; [exact Hc|exact Ht].
Defined.

(** A send that takes less than it was given ends the handshake. *)
Example short_send_fails :
  let '(ok, st) := Socks5 (str "host.on") 8333 None (mkSocket (events (socket_of ex_chunks)) 0 [3; 13] [] false 0) in
  (ok, closed st) = (false, true).
Proof. vm_compute. reflexivity. Qed.

(** A proxy that answers with a name of 200 bytes: [char] makes the length
    negative, [size_t] makes it huge, and the 300 bytes that follow are all
    stored into the array of 256. *)
Example proxy_overruns_the_reply_buffer :
  let '(ok, st) := Socks5 (str "host.on") 8333 None
    (socket_of [[5; 0]; [5; 0; 0; 3; 200]; replicate 300 65]) in
  (ok, pchRet3_stored st) = (false, 300).
Proof. vm_compute. reflexivity. Qed.
