(* ===== verification/Protocol.v ===== *)
(** * Message headers and inventory (protocol), and the bounded containers

    CMessageHeader with its wire format and validity, CInv, and the containers
    mruset and limitedmap that bound what a node remembers of its peers. A hash is
    its 32 bytes. *)

From stdpp Require Import gmap sorting.
From S2P Require Import Prelude Serialize Params Numbers.

Local Open Scope node_scope.

(** ** Message headers *)

Definition MESSAGE_START_SIZE : nat := 4.
Definition COMMAND_SIZE : nat := 12.
Definition MESSAGE_SIZE_OFFSET : nat := 16.
Definition CHECKSUM_OFFSET : nat := 20.
Definition HEADER_SIZE : nat := 24.

(** [Params().MessageStart()], by network: the constructors set it in turn. *)
Definition MessageStart (network : Network) : list Z :=
  match network with
  | MAIN | UNITTEST => [0xef; 0x11; 0xee; 0x3a]
  | TESTNET => [0xf3; 0xfe; 0xef; 0x3f]
  | REGTEST => [0xa1; 0xcf; 0x7e; 0xac]
  end.

Record CMessageHeader := mkMsgHeader {
  pchMessageStart : list Z;
  pchCommand : list Z;
  nMessageSize : Z;
  nChecksum : Z
}.

(** [strncpy] into an array of zeros. *)
Definition strncpy (n : nat) (s : list Z) : list Z :=
  let s := take n (c_str s) in s ++ replicate (n - length s) 0.

Definition MessageHeader_of (start : list Z) (pszCommand : list Z) (nMessageSizeIn : Z) : CMessageHeader :=
  mkMsgHeader start (strncpy COMMAND_SIZE pszCommand) nMessageSizeIn 0.

Definition GetCommand (h : CMessageHeader) : list Z := c_str (pchCommand h).

(** The loop over the command: printable, and nothing but zeros after a zero. A
    [char] is signed. *)
Fixpoint command_ok (p : list Z) : bool :=
  match p with
  | [] => true
  | c :: p =>
      if c =? 0 then forallb (Z.eqb 0) p
      else if (swrap 8 c <? 32) || (126 <? swrap 8 c) then false
      else command_ok p
  end.

Definition header_IsValid (start : list Z) (h : CMessageHeader) : bool :=
  if negb (bool_decide (pchMessageStart h = start)) then false
  else if negb (command_ok (pchCommand h)) then false
  else negb (MAX_SIZE <? nMessageSize h).

Definition f_msg_header : format CMessageHeader :=
  f_struct (f_pair (f_flat 4) (f_pair (f_flat 12) (f_pair (f_uint 4) (f_uint 4))))
    (λ h, (pchMessageStart h, (pchCommand h, (nMessageSize h, nChecksum h))))
    (λ p, mkMsgHeader p.1 p.2.1 p.2.2.1 p.2.2.2).

(** ** Inventory *)

Record CInv := mkInv { inv_type : Z; inv_hash : list Z }.

#[export] Instance CInv_eq_dec : EqDecision CInv.
Proof. solve_decision. Defined.

#[export] Instance CInv_countable : Countable CInv.
Proof. refine (inj_countable' (λ i, (inv_type i, inv_hash i)) (λ p, mkInv p.1 p.2) _). by intros []. Defined.

Definition MSG_TX : Z := 1.
Definition MSG_BLOCK : Z := 2.
Definition MSG_DSTX : Z := 16.

Definition ppszTypeName : list (list Z) :=
  map str ["ERROR"; "tx"; "block"; "filtered block"; "tx lock request"; "tx lock vote"; "spork"; "mn winner";
           "mn scan error"; "mn budget vote"; "mn budget proposal"; "mn budget finalized"; "mn budget finalized vote";
           "mn quorum"; "mn announce"; "mn ping"; "dstx"]%string.

(** The type of a name: the position in the table, from 1 on; an unknown name
    leaves the member unset. *)
Definition type_of_name (strType : list Z) : option Z :=
  match list_find (λ n, n = strType) (drop 1 ppszTypeName) with
  | Some (i, _) => Some (Z.of_nat i + 1)
  | None => None
  end.

Definition inv_lt (a b : CInv) : bool :=
  (inv_type a <? inv_type b) || ((inv_type a =? inv_type b) && (le_val (inv_hash a) <? le_val (inv_hash b))).

Definition IsKnownType (i : CInv) : bool := (1 <=? inv_type i) && (inv_type i <? Z.of_nat (length ppszTypeName)).
Definition IsMasterNodeType (i : CInv) : bool := 6 <=? inv_type i.

(** [ppszTypeName[type]]: [None] is a read outside of the table, which the check
    of IsKnownType only logs. *)
Definition inv_GetCommand (i : CInv) : option (list Z) :=
  if inv_type i <? 0 then None else ppszTypeName !! Z.to_nat (inv_type i).

Definition f_inv : format CInv :=
  f_struct (f_pair (f_sint 4) (f_flat 32)) (λ i, (inv_type i, inv_hash i)) (λ p, mkInv p.1 p.2).

#[export] Instance f_msg_header_ok : FormatOk f_msg_header := _.

#[export] Instance f_msg_header_canonical : FormatCanonical f_msg_header.
Proof. apply f_struct_canonical; [apply _|]. by intros [? [? [? ?]]]. Qed.

#[export] Instance f_inv_ok : FormatOk f_inv := _.

#[export] Instance f_inv_canonical : FormatCanonical f_inv.
Proof. apply f_struct_canonical; [apply _|]. by intros [? ?]. Qed.

(** The command is read for the known types, for type 0, and out of the table for
    all the others. *)
Lemma inv_GetCommand_known i : inv_GetCommand i = None ↔ IsKnownType i = false ∧ inv_type i <> 0.
Proof.
  unfold inv_GetCommand, IsKnownType. change (length ppszTypeName) with 17%nat.
  rewrite andb_false_iff, Z.leb_gt, Z.ltb_ge. destruct (Z.ltb_spec (inv_type i) 0); [split; [lia|done]|].
  rewrite lookup_ge_None. change (length ppszTypeName) with 17%nat. lia.
Qed.

(** An inventory entry with a type no node knows, as any peer can send it. *)
Example unknown_inventory_reads_out_of_bounds :
  inv_GetCommand (mkInv 17 (replicate 32 0)) = None ∧ inv_GetCommand (mkInv (-1) (replicate 32 0)) = None.
Proof. vm_compute. split; reflexivity. Qed.

Lemma type_names_roundtrip i : IsKnownType i = true → inv_GetCommand i ≫= type_of_name = Some (inv_type i).
Proof.
  unfold IsKnownType, inv_GetCommand. change (length ppszTypeName) with 17%nat. rewrite andb_true_iff, Z.leb_le, Z.ltb_lt.
  intros H. destruct (Z.ltb_spec (inv_type i) 0); [lia|]. generalize dependent (inv_type i). intros t H _.
  assert (F : forallb (λ t, bool_decide (ppszTypeName !! Z.to_nat (1 + t) ≫= type_of_name = Some (1 + t))) (seqZ 0 16) = true)
    by (vm_compute; reflexivity).
  pose proof (Zforall_check _ _ F (t - 1) ltac:(lia)) as E. apply bool_decide_eq_true in E.
  by replace (1 + (t - 1)) with t in E by lia.
Qed.

(** ** mruset *)

Section Mruset.

Context {T : Type} `{Countable T}.

Record mruset := mkMruset { m_set : gset T; m_queue : list T; m_max : nat }.

Definition new_mruset (nMaxSizeIn : nat) : mruset := mkMruset ∅ [] nMaxSizeIn.

Definition mru_clear (s : mruset) : mruset := mkMruset ∅ [] (m_max s).
Definition mru_count (s : mruset) (k : T) : bool := bool_decide (k ∈ m_set s).

Definition mru_insert (s : mruset) (x : T) : mruset * bool :=
  if bool_decide (x ∈ m_set s) then (s, false)
  else
    let set := {[x]} ∪ m_set s in
    let '(set, queue) :=
      match m_queue s with
      | front :: rest =>
          if negb (m_max s =? 0)%nat && (length (m_queue s) =? m_max s)%nat
          then (set ∖ {[front]}, rest) else (set, m_queue s)
      | [] => (set, [])
      end in
    (mkMruset set (queue ++ [x]) (m_max s), true).

(** [max_size(s)]: the while loop drops the front until [n] are left. *)
Definition mru_max_size (s : mruset) (n : nat) : mruset :=
  if (n =? 0)%nat then mkMruset (m_set s) (m_queue s) 0
  else let k := (length (m_queue s) - n)%nat in
       mkMruset (m_set s ∖ list_to_set (take k (m_queue s))) (drop k (m_queue s)) n.

(** The set is the elements of the queue, which are distinct and no more than
    the bound. *)
Record mru_ok (s : mruset) : Prop := {
  mru_same : m_set s = list_to_set (m_queue s);
  mru_nodup : NoDup (m_queue s);
  mru_bound : m_max s = 0%nat ∨ (length (m_queue s) <= m_max s)%nat
}.

Lemma new_mruset_ok n : mru_ok (new_mruset n).
Proof. split; cbn; [done|constructor|lia]. Qed.

(** Inserting keeps the most recent elements: the queue of what has been
    inserted, cut at the front. *)
Lemma mru_insert_spec s x : mru_ok s → let '(s', new) := mru_insert s x in
  mru_ok s' ∧ x ∈ m_set s' ∧ (new = true ↔ x ∉ m_set s) ∧ m_max s' = m_max s
  ∧ (new = true → m_queue s' = drop (if (m_max s =? 0)%nat then 0 else length (m_queue s) + 1 - m_max s) (m_queue s ++ [x])).
Proof.
  intros [E N B]. unfold mru_insert. case_bool_decide as D; [split; [done|]; split; [done|]; split; done|].
  assert (Dq : x ∉ m_queue s) by (intros F; apply D; rewrite E; set_solver).
  destruct (m_queue s) as [|front rest] eqn:Q.
  - cbn. split; [split; cbn|]. { rewrite E. set_solver. } { apply NoDup_singleton. } { lia. }
    split; [set_solver|]. split; [done|]. split; [done|]. intros _.
    destruct (m_max s) as [|[|m]]; done.
  - set (full := negb (m_max s =? 0)%nat && _). destruct full eqn:F.
    + apply andb_prop in F as [F1 F2%Nat.eqb_eq]. apply negb_true_iff, Nat.eqb_neq in F1.
      apply NoDup_cons in N as [N1 N2]. split; [split; cbn|].
      * rewrite E, list_to_set_app_L. cbn. rewrite not_elem_of_cons in Dq. apply set_eq. intros y.
        rewrite elem_of_difference, !elem_of_union, elem_of_list_to_set, !elem_of_singleton, elem_of_empty.
        destruct (decide (y = front)) as [->|]; [|set_solver]. split; [by intros [_ []]|intros [?|[->|[]]]; [done|]]. tauto.
      * apply NoDup_app. split; [done|]. split; [|apply NoDup_singleton]. set_solver.
      * right. rewrite length_app. cbn in *. lia.
      * split; [|split; [done|split; [done|]]].
        { cbn. rewrite not_elem_of_cons in Dq. set_solver. }
        intros _. rewrite (proj2 (Nat.eqb_neq _ _) F1). cbn [length] in *.
        replace (S (length rest) + 1 - m_max s)%nat with 1%nat by lia. done.
    + split; [split; cbn|].
      * rewrite E, list_to_set_app_L. cbn. set_solver.
      * rewrite app_comm_cons. apply NoDup_app. split; [done|]. split; [set_solver|apply NoDup_singleton].
      * destruct (m_max s =? 0)%nat eqn:Z; [left; by apply Nat.eqb_eq|]. right. unfold full in F. cbn [negb andb] in F. apply Nat.eqb_neq in F, Z.
        rewrite length_app. cbn in *. lia.
      * split; [set_solver|]. split; [done|]. split; [done|]. intros _. cbn [m_queue].
        destruct (m_max s =? 0)%nat eqn:Z; [done|]. unfold full in F. cbn [negb andb] in F. apply Nat.eqb_neq in F, Z.
        replace (length (front :: rest) + 1 - m_max s)%nat with 0%nat by lia. done.
Qed.

Lemma mru_max_size_ok s n : mru_ok s → mru_ok (mru_max_size s n).
Proof.
  intros [E N B]. unfold mru_max_size. destruct (Nat.eqb_spec n 0) as [->|Hn]; [split; cbn; auto|].
  set (k := (length (m_queue s) - n)%nat). split; cbn.
  - rewrite E. rewrite <- (take_drop k (m_queue s)) at 1. rewrite list_to_set_app_L.
    rewrite <- (take_drop k (m_queue s)) in N. apply NoDup_app in N as (_ & N & _). set_solver.
  - rewrite <- (take_drop k (m_queue s)) in N. by apply NoDup_app in N as (_ & _ & N).
  - right. rewrite length_drop. lia.
Qed.

End Mruset.

Arguments mruset T {_ _}.

(** ** limitedmap *)

Section Limitedmap.

Context {K : Type} `{Countable K}.

(** The multimap [rmap] as the list of its entries, in order. *)
Record limitedmap := mkLimited { lm_map : gmap K Z; lm_rmap : list (Z * K); lm_max : nat }.

Definition new_limitedmap (nMaxSizeIn : nat) : limitedmap := mkLimited ∅ [] nMaxSizeIn.

Definition lm_find (m : limitedmap) (k : K) : option Z := lm_map m !! k.

(** A new entry goes behind those with an equal key. *)
Fixpoint multimap_insert (v : Z) (k : K) (r : list (Z * K)) : list (Z * K) :=
  match r with
  | [] => [(v, k)]
  | (w, k') :: r' => if v <? w then (v, k) :: r else (w, k') :: multimap_insert v k r'
  end.

(** The first entry with this key and this target, taken out. *)
Fixpoint multimap_erase (v : Z) (k : K) (r : list (Z * K)) : option (list (Z * K)) :=
  match r with
  | [] => None
  | (w, k') :: r' => if (w =? v) && bool_decide (k' = k) then Some r'
                     else match multimap_erase v k r' with Some r' => Some ((w, k') :: r') | None => None end
  end.

(** [None]: the first entry of an empty multimap is used. *)
Definition lm_insert (m : limitedmap) (k : K) (v : Z) : option limitedmap :=
  match lm_map m !! k with
  | Some _ => Some m
  | None =>
      let map := <[k := v]> (lm_map m) in
      if negb (lm_max m =? 0)%nat && (size map =? lm_max m)%nat then
        match lm_rmap m with
        | [] => None
        | (_, k0) :: r => Some (mkLimited (delete k0 map) (multimap_insert v k r) (lm_max m))
        end
      else Some (mkLimited map (multimap_insert v k (lm_rmap m)) (lm_max m))
  end.

(** [None] is the assertion that is not to be reached. *)
Definition lm_erase (m : limitedmap) (k : K) : option limitedmap :=
  match lm_map m !! k with
  | None => Some m
  | Some v => match multimap_erase v k (lm_rmap m) with
              | Some r => Some (mkLimited (delete k (lm_map m)) r (lm_max m))
              | None => None
              end
  end.

Definition lm_update (m : limitedmap) (k : K) (v : Z) : option limitedmap :=
  match lm_map m !! k with
  | None => Some m
  | Some w => match multimap_erase w k (lm_rmap m) with
              | Some r => Some (mkLimited (<[k := v]> (lm_map m)) (multimap_insert v k r) (lm_max m))
              | None => None
              end
  end.

(** The loop takes the entries with the lowest values away. *)
Definition lm_max_size (m : limitedmap) (s : nat) : limitedmap :=
  if (s =? 0)%nat then mkLimited (lm_map m) (lm_rmap m) 0
  else let k := (size (lm_map m) - s)%nat in
       mkLimited (foldl (λ map p, delete p.2 map) (lm_map m) (take k (lm_rmap m))) (drop k (lm_rmap m)) s.

Definition by_value (p q : Z * K) : Prop := p.1 <= q.1.

Definition entries (m : gmap K Z) : list (Z * K) := (λ p, (p.2, p.1)) <$> map_to_list m.

(** The multimap is the map turned round, in the order of the values. *)
Record lm_ok (m : limitedmap) : Prop := {
  lm_perm : lm_rmap m ≡ₚ entries (lm_map m);
  lm_sorted : Sorted by_value (lm_rmap m);
  lm_room : lm_max m = 0%nat ∨ (size (lm_map m) < lm_max m)%nat
}.

Lemma entries_insert m k v : m !! k = None → entries (<[k := v]> m) ≡ₚ (v, k) :: entries m.
Proof. intros E. unfold entries. by rewrite map_to_list_insert. Qed.

Lemma entries_delete m k v : m !! k = Some v → entries m ≡ₚ (v, k) :: entries (delete k m).
Proof. intros E. unfold entries. by rewrite <- (map_to_list_delete m k v E). Qed.

Lemma elem_of_entries m k v : (v, k) ∈ entries m ↔ m !! k = Some v.
Proof.
  unfold entries. rewrite list_elem_of_fmap. split.
  - intros ([k' v'] & [= -> ->] & E). by apply elem_of_map_to_list.
  - intros E. exists (k, v). split; [done|]. by apply elem_of_map_to_list.
Qed.

Lemma length_entries m : length (entries m) = size m.
Proof. unfold entries. by rewrite length_fmap, length_map_to_list. Qed.

Lemma multimap_insert_perm v k r : multimap_insert v k r ≡ₚ (v, k) :: r.
Proof.
  induction r as [|[w k'] r IH]; cbn; [done|]. destruct (v <? w); [done|]. rewrite IH. apply Permutation_swap.
Qed.

Lemma multimap_insert_sorted v k r : Sorted by_value r → Sorted by_value (multimap_insert v k r).
Proof.
  induction 1 as [|[w k'] r S IH Hd]; cbn; [repeat constructor|].
  destruct (Z.ltb_spec v w).
  - constructor; [by constructor|]. constructor. unfold by_value. cbn. lia.
  - constructor; [done|]. destruct r as [|[w2 k2] r]; cbn in *; [constructor; unfold by_value; cbn; lia|].
    destruct (v <? w2); constructor; unfold by_value in *; cbn; [lia|]. inversion Hd. unfold by_value in *. cbn in *. lia.
Qed.

Lemma multimap_erase_spec v k r : (v, k) ∈ r → ∃ r', multimap_erase v k r = Some r' ∧ r ≡ₚ (v, k) :: r'
  ∧ (Sorted by_value r → Sorted by_value r').
Proof.
  induction r as [|[w k'] r IH]; [by intros ?%not_elem_of_nil|]. intros E. cbn.
  destruct (Z.eqb_spec w v) as [->|N]; cbn [andb].
  - case_bool_decide as D; [subst; exists r; split; [done|]; split; [done|]; by inversion 1|].
    apply elem_of_cons in E as [[= ->]|E]; [done|]. destruct (IH E) as (r' & -> & P & S).
    exists ((v, k') :: r'). split; [done|]. split; [rewrite P; apply Permutation_swap|].
    inversion 1 as [|?? S1 H1]; subst. constructor; [auto|].
    apply Sorted_StronglySorted in S1 as SS; [|intros ???; unfold by_value; lia].
    destruct r' as [|y r']; constructor. assert (Hy : y ∈ r) by (rewrite P; set_solver).
    apply (Sorted_StronglySorted) in H0 as SS2; [|intros ???; unfold by_value; lia].
    inversion SS2 as [|?? _ F]; subst. rewrite Forall_forall in F. by apply F.
  - apply elem_of_cons in E as [[= -> ->]|E]; [done|]. destruct (IH E) as (r' & -> & P & S).
    exists ((w, k') :: r'). split; [done|]. split; [rewrite P; apply Permutation_swap|].
    intros SS. inversion SS as [|?? S1 H1]; subst. constructor; [auto|].
    destruct r' as [|y r']; constructor. assert (Hy : y ∈ r) by (rewrite P; set_solver).
    apply (Sorted_StronglySorted) in SS as SS2; [|intros ???; unfold by_value; lia].
    inversion SS2 as [|?? _ F]; subst. rewrite Forall_forall in F. by apply F.
Qed.

Lemma new_limitedmap_ok n : lm_ok (new_limitedmap n).
Proof. split; cbn; [done|constructor|]. rewrite map_size_empty. lia. Qed.

(** What an insertion does, with room for two entries: an entry that is there
    stays; otherwise it is added, and if the map would reach the bound, an entry
    with the lowest value of those before it goes. *)
Lemma lm_insert_spec m k v : lm_ok m → lm_max m <> 1%nat → ∃ m', lm_insert m k v = Some m' ∧ lm_ok m' ∧ lm_max m' = lm_max m ∧
  match lm_find m k with
  | Some _ => m' = m
  | None =>
      if negb (lm_max m =? 0)%nat && (size (lm_map m) + 1 =? lm_max m)%nat
      then ∃ k0 v0, lm_find m k0 = Some v0 ∧ (∀ k1 v1, lm_find m k1 = Some v1 → v0 <= v1)
                    ∧ lm_map m' = <[k := v]> (delete k0 (lm_map m))
      else lm_map m' = <[k := v]> (lm_map m)
  end.
Proof.
  intros [P S R] M1. unfold lm_insert, lm_find. destruct (lm_map m !! k) as [w|] eqn:E; [by exists m|].
  rewrite map_size_insert_None by done. rewrite Nat.add_comm. cbn [Nat.add].
  destruct (negb _ && _) eqn:F.
  - apply andb_prop in F as [F1%negb_true_iff%Nat.eqb_neq F2%Nat.eqb_eq].
    pose proof (Permutation_length P) as L. rewrite length_entries in L.
    destruct (lm_rmap m) as [|[v0 k0] r] eqn:Q; [cbn in L; lia|].
    assert (E0 : lm_map m !! k0 = Some v0) by (apply elem_of_entries; rewrite <- P; set_solver).
    assert (Nk : k0 <> k) by congruence.
    eexists. split; [done|]. split; [split; cbn|].
    + rewrite delete_insert_ne, entries_insert, multimap_insert_perm by (done || by rewrite lookup_delete_ne).
      f_equiv. apply (Permutation_cons_inv (a := (v0, k0))). rewrite P. by apply entries_delete.
    + apply multimap_insert_sorted. by inversion S.
    + right. rewrite delete_insert_ne by done. rewrite map_size_insert_None by (by rewrite lookup_delete_ne).
      rewrite map_size_delete, E0. lia.
    + split; [done|]. exists k0, v0. split; [done|]. split; [|by apply delete_insert_ne].
      intros k1 v1 E1. apply elem_of_entries in E1. rewrite <- P in E1.
      apply Sorted_StronglySorted in S; [|intros ???; unfold by_value; lia].
      inversion S as [|?? _ F]; subst. apply elem_of_cons in E1 as [[= -> ->]|E1]; [lia|].
      rewrite Forall_forall in F. apply (F _ E1).
  - eexists. split; [done|]. split; [split; cbn|by split].
    + by rewrite entries_insert, multimap_insert_perm, P.
    + by apply multimap_insert_sorted.
    + rewrite map_size_insert_None by done. destruct R as [R|R]; [by left|].
      destruct (Nat.eqb_spec (lm_max m) 0); [by left|]. cbn [negb andb] in F. apply Nat.eqb_neq in F. lia.
Qed.

Lemma lm_erase_spec m k : lm_ok m → ∃ m', lm_erase m k = Some m' ∧ lm_ok m' ∧ lm_map m' = delete k (lm_map m).
Proof.
  intros [P S R]. unfold lm_erase. destruct (lm_map m !! k) as [v|] eqn:E.
  - destruct (multimap_erase_spec v k (lm_rmap m)) as (r & -> & Pr & Sr).
    { rewrite P. by apply elem_of_entries. }
    eexists. split; [done|]. split; [split; cbn|done].
    + apply (Permutation_cons_inv (a := (v, k))). rewrite <- Pr, P. by apply entries_delete.
    + auto.
    + rewrite map_size_delete, E. lia.
  - exists m. split; [done|]. split; [done|]. by rewrite delete_id.
Qed.

Lemma lm_update_spec m k v : lm_ok m → ∃ m', lm_update m k v = Some m' ∧ lm_ok m'
  ∧ lm_map m' = match lm_find m k with Some _ => <[k := v]> (lm_map m) | None => lm_map m end.
Proof.
  intros [P S R]. unfold lm_update, lm_find. destruct (lm_map m !! k) as [w|] eqn:E; [|by exists m].
  destruct (multimap_erase_spec w k (lm_rmap m)) as (r & -> & Pr & Sr).
  { rewrite P. by apply elem_of_entries. }
  eexists. split; [done|]. split; [split; cbn|done].
  - rewrite multimap_insert_perm, <- insert_delete_eq, entries_insert by apply lookup_delete_eq. f_equiv.
    apply (Permutation_cons_inv (a := (w, k))). rewrite <- Pr, P. by apply entries_delete.
  - apply multimap_insert_sorted. auto.
  - by rewrite map_size_insert_Some by (rewrite E; eauto).
Qed.

End Limitedmap.

Arguments limitedmap K {_ _}.

(** With a bound of one the first insertion uses the first entry of the empty
    multimap; and a map with a bound of three keeps two entries. *)
Example limitedmap_bound :
  lm_insert (new_limitedmap (K := Z) 1) 7 5 = None
  ∧ (let m := default (new_limitedmap 0) in
     map_to_list (lm_map (m (lm_insert (m (lm_insert (m (lm_insert (new_limitedmap (K := Z) 3) 1 10)) 2 20)) 3 5))) = [(3, 5); (2, 20)]).
Proof. vm_compute. split; reflexivity. Qed.

(** The bounded map of requests, with a bound other than one, stays consistent
    under insertions, updates and erasures: no operation reaches its assertion or the first entry of an
    empty index, the index stays the map turned round in the order of the values,
    and an insertion at the bound costs an entry with the lowest value (the map
    holds one entry less than the bound). *)
Theorem limitedmap_stays_consistent {K} `{Countable K} (m : limitedmap K) k v :
  lm_ok m → lm_max m <> 1%nat →
  (∃ m', lm_erase m k = Some m' ∧ lm_ok m' ∧ lm_map m' = delete k (lm_map m))
  ∧ (∃ m', lm_update m k v = Some m' ∧ lm_ok m'
           ∧ lm_map m' = match lm_find m k with Some _ => <[k := v]> (lm_map m) | None => lm_map m end)
  ∧ ∃ m', lm_insert m k v = Some m' ∧ lm_ok m' ∧
      match lm_find m k with
      | Some _ => m' = m
      | None =>
          if negb (lm_max m =? 0)%nat && (size (lm_map m) + 1 =? lm_max m)%nat
          then ∃ k0 v0, lm_find m k0 = Some v0 ∧ (∀ k1 v1, lm_find m k1 = Some v1 → v0 <= v1)
                        ∧ lm_map m' = <[k := v]> (delete k0 (lm_map m))
          else lm_map m' = <[k := v]> (lm_map m)
      end.
Proof.
  intros Hm M1. split; [by apply lm_erase_spec|]. split; [by apply lm_update_spec|].
  destruct (lm_insert_spec m k v Hm M1) as (m' & E & Hm' & _ & S). by exists m'.
Qed.

Lemma limitedmap_stays_consistent_witness :
  let m := new_limitedmap (K := Z) 5 in
  lm_ok m ∧ ∃ m', lm_insert m 1 2 = Some m' ∧ lm_ok m' ∧ lm_map m' = {[1 := 2]}.
Proof.
  split; [apply new_limitedmap_ok|].
  destruct (limitedmap_stays_consistent (new_limitedmap (K := Z) 5) 1 2 (new_limitedmap_ok 5) ltac:(done))
    as (_ & _ & m' & E & Hm & _).
  exists m'. split; [exact E|]. split; [exact Hm|]. vm_compute in E. injection E as <-. reflexivity.
Defined.
