(* ===== verification/Messages.v ===== *)
(** * The message layer of a connection (net, and ProcessMessages of main.cpp)

    Messages are framed into a queue of buffers, which the socket takes in pieces
    of any size; the receiver is fed pieces of any size, rebuilds the messages,
    and hands the valid ones on. The kernel's answers to [send] are arguments, and
    so is what a handler does with a message; the options that drop or fuzz
    messages for testing and the byte counters are left out. *)

From S2P Require Import Prelude Serialize Params Digest Hashes Numbers Protocol.

Local Open Scope node_scope.

(** ** Receiving *)

Definition MAX_PROTOCOL_MESSAGE_LENGTH : Z := 2 * 1024 * 1024.

Record CNetMessage := mkNetMessage {
  in_data : bool;
  hdrbuf : list Z;
  nHdrPos : nat;
  hdr : CMessageHeader;
  vRecv : list Z;
  nDataPos : nat
}.

Definition msg_size (m : CNetMessage) : nat := Z.to_nat (nMessageSize (hdr m)).

(** The constructor; the header starts as that of an empty CMessageHeader. *)
Definition new_message (start : list Z) : CNetMessage :=
  mkNetMessage false (replicate 24 0) 0 (mkMsgHeader start (replicate 12 0) (u32 (-1)) 0) [] 0.

Definition complete (m : CNetMessage) : bool :=
  if negb (in_data m) then false else (msg_size m =? nDataPos m)%nat.

(** The bytes handled, [None] for -1. Reading the header empties its buffer. *)
Definition readHeader (m : CNetMessage) (pch : list Z) : option nat * CNetMessage :=
  let nCopy := Nat.min (24 - nHdrPos m) (length pch) in
  let buf := Digest.memcpy (hdrbuf m) (nHdrPos m) (take nCopy pch) in
  let pos := (nHdrPos m + nCopy)%nat in
  if (pos <? 24)%nat then (Some nCopy, mkNetMessage (in_data m) buf pos (hdr m) (vRecv m) (nDataPos m))
  else
    match unser f_msg_header buf with
    | Throw _ => (None, mkNetMessage (in_data m) buf pos (hdr m) (vRecv m) (nDataPos m))
    | Ok (h, _) =>
        let m' d := mkNetMessage d [] pos h (vRecv m) (nDataPos m) in
        if MAX_SIZE <? nMessageSize h then (None, m' (in_data m)) else (Some nCopy, m' true)
    end.

Definition readData (m : CNetMessage) (pch : list Z) : option nat * CNetMessage :=
  let nCopy := Nat.min (msg_size m - nDataPos m) (length pch) in
  let buf :=
    if (length (vRecv m) <? nDataPos m + nCopy)%nat
    then let n := Nat.min (msg_size m) (nDataPos m + nCopy + Z.to_nat 262144) in
         vRecv m ++ replicate (n - length (vRecv m)) 0
    else vRecv m in
  (Some nCopy,
   mkNetMessage (in_data m) (hdrbuf m) (nHdrPos m) (hdr m) (Digest.memcpy buf (nDataPos m) (take nCopy pch))
     (nDataPos m + nCopy)).

(** The queue with a message to go on with at its end. *)
Definition open_message (start : list Z) (vRecvMsg : list CNetMessage) : list CNetMessage * CNetMessage :=
  match last vRecvMsg with
  | Some m => if complete m then (vRecvMsg, new_message start) else (removelast vRecvMsg, m)
  | None => (vRecvMsg, new_message start)
  end.

(** The loop over the bytes; each turn handles at least one. *)
Fixpoint ReceiveMsgBytes_loop (fuel : nat) (start : list Z) (vRecvMsg : list CNetMessage) (pch : list Z)
  : bool * list CNetMessage :=
  match pch, fuel with
  | [], _ | _, O => (true, vRecvMsg)
  | _, S fuel =>
      let '(before, msg) := open_message start vRecvMsg in
      let '(handled, msg) := if negb (in_data msg) then readHeader msg pch else readData msg pch in
      match handled with
      | None => (false, before ++ [msg])
      | Some n =>
          if in_data msg && (MAX_PROTOCOL_MESSAGE_LENGTH <? nMessageSize (hdr msg)) then (false, before ++ [msg])
          else ReceiveMsgBytes_loop fuel start (before ++ [msg]) (drop n pch)
      end
  end.

Definition ReceiveMsgBytes (start : list Z) (vRecvMsg : list CNetMessage) (pch : list Z) : bool * list CNetMessage :=
  ReceiveMsgBytes_loop (length pch) start vRecvMsg pch.

(** The socket thread: pieces as they arrive, until one is refused and the
    connection is shut. *)
Fixpoint receive_all (start : list Z) (vRecvMsg : list CNetMessage) (pieces : list (list Z)) : bool * list CNetMessage :=
  match pieces with
  | [] => (true, vRecvMsg)
  | pch :: pieces =>
      let '(ok, v) := ReceiveMsgBytes start vRecvMsg pch in
      if ok then receive_all start v pieces else (false, v)
  end.

(** ** Sending *)

Record send_state := mkSend { vSendMsg : list (list Z); nSendOffset : nat; nSendSize : Z }.

Definition new_send : send_state := mkSend [] 0 0.

(** SocketSendData: for each call of [send] the number of bytes the kernel has
    room for; without room, or after an error, nothing more is sent. *)
Fixpoint send_loop (queue : list (list Z)) (offset : nat) (size : Z) (room : list nat) : send_state * list Z :=
  match queue with
  | [] => (mkSend [] offset size, [])
  | data :: rest =>
      match room with
      | [] | O :: _ => (mkSend queue offset size, [])
      | n :: room =>
          let nBytes := Nat.min n (length data - offset) in
          let offset' := (offset + nBytes)%nat in
          let bytes := take nBytes (drop offset data) in
          if (offset' =? length data)%nat
          then let '(st, out) := send_loop rest 0 (size - Z.of_nat (length data)) room in (st, bytes ++ out)
          else (mkSend queue offset' size, bytes)
      end
  end.

Definition SocketSendData (st : send_state) (room : list nat) : send_state * list Z :=
  send_loop (vSendMsg st) (nSendOffset st) (nSendSize st) room.

(** BeginMessage and the fields of the message. *)
Definition BeginMessage (start pszCommand : list Z) : list Z := ser f_msg_header (MessageHeader_of start pszCommand 0).

(** EndMessage: the size and the checksum are written into the buffer, which
    joins the queue; an empty queue is sent from at once. *)
Definition EndMessage (st : send_state) (ssSend : list Z) (room : list nat) : send_state * list Z :=
  match ssSend with
  | [] => (st, [])
  | _ =>
      let nSize := Z.of_nat (length ssSend - HEADER_SIZE) in
      let ssSend := Digest.memcpy ssSend MESSAGE_SIZE_OFFSET (le_bytes 4 nSize) in
      let hash := Hash (drop HEADER_SIZE ssSend) in
      let ssSend := Digest.memcpy ssSend CHECKSUM_OFFSET (take 4 hash) in
      let st' := mkSend (vSendMsg st ++ [ssSend]) (nSendOffset st) (nSendSize st + Z.of_nat (length ssSend)) in
      match vSendMsg st with
      | [] => SocketSendData st' room
      | _ => (st', [])
      end
  end.

(** PushMessage with the serialized arguments of the message. *)
Definition PushMessage (start : list Z) (st : send_state) (pszCommand payload : list Z) (room : list nat) : send_state * list Z :=
  EndMessage st (BeginMessage start pszCommand ++ payload) room.

(** ** Processing *)

(** The loop of ProcessMessages: at most one message is handled, the bad ones
    before it are dropped; [inr false] stops at a wrong start. What is left of the
    queue, the message to handle if there is one, and [fOk]. *)
Fixpoint ProcessMessages_loop (start : list Z) (vRecvMsg : list CNetMessage)
  : list CNetMessage * option (list Z * list Z) * bool :=
  match vRecvMsg with
  | [] => ([], None, true)
  | msg :: rest =>
      if negb (complete msg) then (vRecvMsg, None, true)
      else if negb (bool_decide (pchMessageStart (hdr msg) = start)) then (rest, None, false)
      else if negb (header_IsValid start (hdr msg)) then ProcessMessages_loop start rest
      else
        let data := take (msg_size msg) (vRecv msg) in
        if negb (le_val (take 4 (Hash data)) =? nChecksum (hdr msg)) then ProcessMessages_loop start rest
        else (rest, Some (GetCommand (hdr msg), vRecv msg), true)
  end.

(** The calls of ProcessMessages until nothing is left to handle: the messages in
    the order they are handled. *)
Fixpoint handled (fuel : nat) (start : list Z) (vRecvMsg : list CNetMessage) : list (list Z * list Z) :=
  match fuel with
  | O => []
  | S fuel =>
      match ProcessMessages_loop start vRecvMsg with
      | (rest, Some m, _) => m :: handled fuel start rest
      | _ => []
      end
  end.

Definition handled_messages (start : list Z) (vRecvMsg : list CNetMessage) : list (list Z * list Z) :=
  handled (length vRecvMsg) start vRecvMsg.

(** ** The messages of a stream of bytes *)

(** What there is of a message: part of a header, or the header and the data so
    far. *)
Definition view : Type := list Z + (CMessageHeader * list Z).

Definition view_of (m : CNetMessage) : view :=
  if in_data m then inr (hdr m, take (nDataPos m) (vRecv m)) else inl (take (nHdrPos m) (hdrbuf m)).

(** The bytes of a message so far. *)
Definition msg_bytes (m : CNetMessage) : list Z :=
  if in_data m then ser f_msg_header (hdr m) ++ take (nDataPos m) (vRecv m) else take (nHdrPos m) (hdrbuf m).

Definition stream (v : list CNetMessage) : list Z := concat (map msg_bytes v).

(** The reference: cut the stream at the sizes its headers give; [None] when a
    header gives a size above the limit. *)
Fixpoint frames_fuel (fuel : nat) (bs : list Z) : option (list view) :=
  match fuel, bs with
  | _, [] => Some []
  | O, _ => Some []
  | S fuel, _ =>
      if (length bs <? 24)%nat then Some [inl bs]
      else match unser f_msg_header bs with
           | Throw _ => None
           | Ok (h, data) =>
               if MAX_PROTOCOL_MESSAGE_LENGTH <? nMessageSize h then None
               else let n := Z.to_nat (nMessageSize h) in
                    if (length data <? n)%nat then Some [inr (h, data)]
                    else match frames_fuel fuel (drop n data) with
                         | Some l => Some (inr (h, take n data) :: l)
                         | None => None
                         end
           end
  end.

Definition frames (bs : list Z) : option (list view) := frames_fuel (length bs) bs.

Lemma length_ser_header h : dom f_msg_header h → length (ser f_msg_header h) = 24%nat.
Proof.
  intros D. pose proof (fmt_size h D) as E. destruct D as [((D1 & _) & (D2 & _) & _) _]. cbn in D1, D2.
  assert (S : size_of f_msg_header h = 24) by (cbn; lia). lia.
Qed.

(** 24 bytes are a header, and one only. *)
Lemma header_bytes bs : Forall is_byte bs → length bs = 24%nat →
  ∃ h, bs = ser f_msg_header h ∧ dom f_msg_header h ∧ ∀ rest, unser f_msg_header (bs ++ rest) = Ok (h, rest).
Proof.
  intros B L.
  assert (E : ∃ h r, unser f_msg_header bs = Ok (h, r)).
  { cbn [f_msg_header f_struct f_pair unser f_flat f_uint]. unfold read_bytes.
    destruct (Nat.ltb_spec (length bs) 4); [lia|]. cbn [rbind]. rewrite length_drop.
    destruct (Nat.ltb_spec (length bs - 4) 12); [lia|]. cbn [rbind]. rewrite !length_drop.
    destruct (Nat.ltb_spec (length bs - 4 - 12) 4); [lia|]. cbn [rbind]. rewrite !length_drop.
    destruct (Nat.ltb_spec (length bs - 4 - 12 - 4) 4); [lia|]. cbn [rbind]. eauto. }
  destruct E as (h & r & E). destruct (fmt_canonical bs h r B E) as [-> D].
  rewrite length_app, length_ser_header in L by done. assert (r = []) as -> by (apply length_zero_iff_nil; lia).
  exists h. rewrite app_nil_r. split; [done|]. split; [done|]. intros rest. by apply fmt_roundtrip.
Qed.

(** Fuel that covers the bytes is enough. *)
Lemma frames_fuel_enough f g bs : (length bs <= f)%nat → (length bs <= g)%nat → frames_fuel f bs = frames_fuel g bs.
Proof.
  revert g bs. induction f as [|f IH]; intros g bs Hf Hg.
  { destruct bs; [by destruct g|cbn in Hf; lia]. }
  destruct bs as [|b bs]; [by destruct g|]. destruct g as [|g]; [cbn in Hg; lia|]. cbn [frames_fuel].
  destruct (Nat.ltb_spec (length (b :: bs)) 24); [done|].
  destruct (unser f_msg_header (b :: bs)) as [[h data]|] eqn:E; [|done].
  case_match; [done|]. case_match; [done|].
  assert (L : (length data < length (b :: bs))%nat).
  { cbn [f_msg_header f_struct f_pair unser f_flat f_uint] in E. unser_inv.
    simplify_eq. rewrite !length_app. lia. }
  rewrite (IH g); [done|rewrite length_drop; lia..].
Qed.

(** ** The receiver against the reference *)

(** A message in the queue: part of a header, or the data so far in a buffer that
    is no longer than the message. *)
Definition msg_ok (m : CNetMessage) : Prop :=
  if in_data m
  then dom f_msg_header (hdr m) ∧ nMessageSize (hdr m) <= MAX_PROTOCOL_MESSAGE_LENGTH
       ∧ (nDataPos m <= length (vRecv m) <= msg_size m)%nat
  else length (hdrbuf m) = 24%nat ∧ (nHdrPos m < 24)%nat ∧ nDataPos m = 0%nat ∧ vRecv m = [].

(** The queue: whole messages, and then one at most that has begun. *)
Definition begun (m : CNetMessage) : Prop := in_data m = true ∨ (0 < nHdrPos m)%nat.

Inductive queue_ok : list CNetMessage → Prop :=
| queue_nil : queue_ok []
| queue_last m : msg_ok m → begun m → complete m = false → queue_ok [m]
| queue_cons m v : msg_ok m → complete m = true → queue_ok v → queue_ok (m :: v).

Lemma complete_spec m : complete m = true → in_data m = true ∧ msg_size m = nDataPos m.
Proof. unfold complete. destruct (in_data m); [|done]. by intros ?%Nat.eqb_eq. Qed.

Lemma frames_nil : frames [] = Some [].
Proof. done. Qed.

Lemma frames_cons bs : bs ≠ [] → frames bs =
  if (length bs <? 24)%nat then Some [inl bs]
  else match unser f_msg_header bs with
       | Throw _ => None
       | Ok (h, data) =>
           if MAX_PROTOCOL_MESSAGE_LENGTH <? nMessageSize h then None
           else let n := Z.to_nat (nMessageSize h) in
                if (length data <? n)%nat then Some [inr (h, data)]
                else match frames (drop n data) with
                     | Some l => Some (inr (h, take n data) :: l)
                     | None => None
                     end
       end.
Proof.
  intros N. unfold frames at 1. destruct bs as [|b bs]; [done|]. cbn [frames_fuel length].
  destruct (Nat.ltb_spec (S (length bs)) 24); [done|].
  destruct (unser f_msg_header (b :: bs)) as [[h data]|] eqn:E; [|done].
  case_match; [done|]. case_match; [done|]. unfold frames.
  rewrite (frames_fuel_enough (length bs) (length (drop (Z.to_nat (nMessageSize h)) data))); [done| |lia].
  assert (L : (length data < length (b :: bs))%nat).
  { cbn [f_msg_header f_struct f_pair unser f_flat f_uint] in E. unser_inv. simplify_eq. rewrite !length_app. lia. }
  rewrite length_drop. cbn in L. lia.
Qed.

(** A header in front of a stream. *)
Lemma frames_header h rest : dom f_msg_header h →
  frames (ser f_msg_header h ++ rest) =
  if MAX_PROTOCOL_MESSAGE_LENGTH <? nMessageSize h then None
  else if (length rest <? Z.to_nat (nMessageSize h))%nat then Some [inr (h, rest)]
  else match frames (drop (Z.to_nat (nMessageSize h)) rest) with
       | Some l => Some (inr (h, take (Z.to_nat (nMessageSize h)) rest) :: l)
       | None => None
       end.
Proof.
  intros D. pose proof (length_ser_header h D) as L. rewrite frames_cons.
  - destruct (Nat.ltb_spec (length (ser f_msg_header h ++ rest)) 24) as [F|_]; [rewrite length_app in F; lia|].
    by rewrite fmt_roundtrip.
  - destruct (ser f_msg_header h); [done|]. done.
Qed.

Lemma frames_complete m rest : msg_ok m → complete m = true →
  frames (msg_bytes m ++ rest) = match frames rest with Some l => Some (view_of m :: l) | None => None end.
Proof.
  intros Hm C. apply complete_spec in C as [I S]. unfold msg_ok, msg_bytes, view_of in *. rewrite I in *.
  destruct Hm as (D & Hs & Hl). rewrite <- (assoc_L app), frames_header by done.
  destruct (Z.ltb_spec MAX_PROTOCOL_MESSAGE_LENGTH (nMessageSize (hdr m))); [lia|].
  unfold msg_size in *. assert (L : length (take (nDataPos m) (vRecv m)) = Z.to_nat (nMessageSize (hdr m)))
    by (rewrite length_take; lia).
  destruct (Nat.ltb_spec (length (take (nDataPos m) (vRecv m) ++ rest)) (Z.to_nat (nMessageSize (hdr m)))) as [F|_];
    [rewrite length_app in F; lia|].
  by rewrite <- L, take_app_length, drop_app_length.
Qed.

(** A queue is the frames of its bytes. *)
Lemma frames_stream v : queue_ok v → frames (stream v) = Some (map view_of v).
Proof.
  induction 1 as [|m Hm B C|m v Hm C _ IH]; [done| |].
  - unfold stream. cbn [map concat]. rewrite app_nil_r. unfold msg_ok, msg_bytes, view_of, complete, begun in *.
    destruct (in_data m) eqn:I; cbn [negb] in C.
    + destruct Hm as (D & Hs & Hl). rewrite frames_header by done.
      destruct (Z.ltb_spec MAX_PROTOCOL_MESSAGE_LENGTH (nMessageSize (hdr m))); [lia|].
      apply Nat.eqb_neq in C. unfold msg_size in *. rewrite length_take.
      destruct (Nat.ltb_spec (nDataPos m `min` length (vRecv m)) (Z.to_nat (nMessageSize (hdr m)))); [done|lia].
    + destruct Hm as (Lb & Hp & _). destruct B as [B|B]; [done|]. rewrite frames_cons.
      * rewrite length_take. destruct (Nat.ltb_spec (nHdrPos m `min` length (hdrbuf m)) 24); [done|lia].
      * intros F. apply (f_equal length) in F. rewrite length_take in F. cbn in F. lia.
  - unfold stream. cbn [map concat]. change (concat (map msg_bytes v)) with (stream v).
    by rewrite frames_complete, IH.
Qed.

(** The queue before the message that is open. *)
Inductive whole : list CNetMessage → Prop :=
| whole_nil : whole []
| whole_cons m v : msg_ok m → complete m = true → whole v → whole (m :: v).

Lemma whole_app_queue a b : whole a → queue_ok b → queue_ok (a ++ b).
Proof. induction 1; cbn; [done|]. intros. constructor; auto. Qed.

Lemma frames_whole a rest : whole a →
  frames (stream a ++ rest) = match frames rest with Some l => Some (map view_of a ++ l) | None => None end.
Proof.
  induction 1 as [|m v Hm C _ IH].
  { change (stream [] ++ rest) with rest. by destruct (frames rest). }
  unfold stream in *. cbn [map concat]. rewrite <- (assoc_L app), frames_complete, IH by done. by destruct (frames rest).
Qed.

Lemma new_message_ok start : msg_ok (new_message start).
Proof. unfold msg_ok. cbn. repeat split; lia || done. Qed.

Lemma open_message_spec start v : queue_ok v →
  let '(before, m) := open_message start v in
  whole before ∧ msg_ok m ∧ complete m = false ∧ stream v = stream before ++ msg_bytes m.
Proof.
  unfold open_message. induction 1 as [|m Hm B C|m v Hm C Hv IH].
  - cbn [last]. split; [constructor|]. split; [apply new_message_ok|]. done.
  - cbn [last]. rewrite C. split; [constructor|]. split; [done|]. split; [done|]. unfold stream. cbn. by rewrite app_nil_r.
  - destruct (last v) as [l|] eqn:E.
    + assert (last (m :: v) = Some l) as -> by (rewrite last_cons, E; done).
      destruct (complete l); destruct IH as (W & Hm' & C' & S).
      * split; [by constructor|]. split; [done|]. split; [done|]. unfold stream in *. cbn [map concat].
        by rewrite <- (assoc_L app), <- S.
      * assert (removelast (m :: v) = m :: removelast v) as -> by (destruct v; [done|done]).
        split; [by constructor|]. split; [done|]. split; [done|]. unfold stream in *. cbn [map concat].
        by rewrite <- (assoc_L app), <- S.
    + apply last_None in E as ->. cbn [last]. rewrite C. split; [constructor; [done..|constructor]|].
      split; [apply new_message_ok|]. split; [done|]. unfold stream. cbn. by rewrite !app_nil_r.
Qed.

Lemma length_copy buf off d : (off + length d <= length buf)%nat → length (Digest.memcpy buf off d) = length buf.
Proof. apply (length_memcpy 2). lia. Qed.

Lemma take_copy buf off d : (off + length d <= length buf)%nat → take (off + length d) (Digest.memcpy buf off d) = take off buf ++ d.
Proof. apply (take_memcpy 2). lia. Qed.

(** One turn of the loop, on a message that is not complete. *)
Lemma turn_spec m pch : msg_ok m → complete m = false → pch ≠ [] → Forall is_byte pch →
  (in_data m = false → Forall is_byte (take (nHdrPos m) (hdrbuf m))) →
  let '(handled, m') := if negb (in_data m) then readHeader m pch else readData m pch in
  (∃ n, handled = Some n ∧ (0 < n)%nat ∧ msg_bytes m' = msg_bytes m ++ take n pch ∧ (in_data m = true → in_data m' = true)
        ∧ ((in_data m' = true ∧ MAX_PROTOCOL_MESSAGE_LENGTH < nMessageSize (hdr m') ∧ frames (msg_bytes m ++ pch) = None)
           ∨ (nMessageSize (hdr m') <= MAX_PROTOCOL_MESSAGE_LENGTH ∨ in_data m' = false) ∧ msg_ok m' ∧ begun m'))
  ∨ handled = None ∧ frames (msg_bytes m ++ pch) = None.
Proof.
  intros Hm C Np Bp Bh. unfold msg_ok, complete, msg_bytes in *. destruct (in_data m) eqn:I; cbn [negb] in *.
  - destruct Hm as (D & Hs & Hl). apply Nat.eqb_neq in C. unfold readData. rewrite I. left.
    set (n := Nat.min (msg_size m - nDataPos m) (length pch)).
    assert (Lp : (0 < length pch)%nat) by (destruct pch; cbn; [done|lia]).
    eexists. split; [done|]. split; [lia|]. cbn [in_data hdr nDataPos vRecv hdrbuf nHdrPos].
    set (buf := if (length (vRecv m) <? nDataPos m + n)%nat then _ else _).
    assert (Lb : (nDataPos m + n <= length buf <= msg_size m)%nat
                 ∧ take (nDataPos m) buf = take (nDataPos m) (vRecv m)).
    { unfold buf. destruct (Nat.ltb_spec (length (vRecv m)) (nDataPos m + n)).
      - rewrite length_app, length_replicate, take_app_le by lia. split; [lia|done].
      - split; [lia|done]. }
    destruct Lb as [Lb Tb]. assert (Ln : length (take n pch) = n) by (rewrite length_take; lia).
    split.
    + rewrite <- (assoc_L app). f_equal. rewrite <- Ln at 1. rewrite take_copy, Tb by lia. done.
    + split; [done|]. right. split; [by left|]. unfold msg_size in *. cbn [hdr]. rewrite length_copy by lia.
      split; [split; [done|split; [done|lia]]|]. by left.
  - destruct Hm as (Lb & Hp & D0 & V0). unfold readHeader. rewrite I, D0, V0.
    set (n := Nat.min (24 - nHdrPos m) (length pch)).
    assert (Lp : (0 < length pch)%nat) by (destruct pch; cbn; [done|lia]).
    assert (Ln : length (take n pch) = n) by (rewrite length_take; lia).
    assert (Tk : take (nHdrPos m + n) (Digest.memcpy (hdrbuf m) (nHdrPos m) (take n pch)) = take (nHdrPos m) (hdrbuf m) ++ take n pch).
    { rewrite <- Ln at 1. apply take_copy. lia. }
    assert (Lm : length (Digest.memcpy (hdrbuf m) (nHdrPos m) (take n pch)) = 24%nat) by (rewrite length_copy; lia).
    destruct (Nat.ltb_spec (nHdrPos m + n) 24) as [P|P].
    + left. eexists. split; [done|]. split; [lia|]. cbn [in_data hdr nDataPos vRecv hdrbuf nHdrPos].
      split; [done|]. split; [done|]. right. split; [by right|]. split; [done|]. right. cbn. lia.
    + assert (E24 : (nHdrPos m + n)%nat = 24%nat) by lia. rewrite E24 in *. rewrite (take_ge _ 24) in Tk by lia.
      rewrite Tk. destruct (header_bytes (take (nHdrPos m) (hdrbuf m) ++ take n pch)) as (h & Eh & D & U).
      { apply Forall_app. split; [by apply Bh|by apply Forall_take]. }
      { rewrite length_app, Ln, length_take. lia. }
      pose proof (U []) as U0. rewrite app_nil_r in U0. rewrite U0.
      assert (F : frames (take (nHdrPos m) (hdrbuf m) ++ pch)
                  = frames (ser f_msg_header h ++ drop n pch)).
      { rewrite <- Eh, <- (assoc_L app), take_drop. done. }
      rewrite F, frames_header by done. destruct (Z.ltb_spec MAX_SIZE (nMessageSize h)).
      * right. split; [done|]. unfold MAX_SIZE, MAX_PROTOCOL_MESSAGE_LENGTH in *.
        destruct (Z.ltb_spec (2 * 1024 * 1024) (nMessageSize h)); [done|lia].
      * left. eexists. split; [done|]. split; [lia|]. cbn [in_data hdr nDataPos vRecv hdrbuf nHdrPos].
        split; [by rewrite take_0, app_nil_r, <- Eh|]. split; [done|].
        destruct (Z.ltb_spec MAX_PROTOCOL_MESSAGE_LENGTH (nMessageSize h)); [by left|].
        right. split; [by left|]. split; [split; [done|split; [done|cbn; lia]]|by left].
Qed.

(** The bytes of a queue, header parts included. *)
Definition queue_bytes (v : list CNetMessage) : Prop :=
  Forall (λ m, in_data m = false → Forall is_byte (take (nHdrPos m) (hdrbuf m))) v.

Lemma queue_of_open before m : whole before → msg_ok m → begun m → queue_ok (before ++ [m]).
Proof.
  intros W Hm B. apply whole_app_queue; [done|]. destruct (complete m) eqn:C.
  - apply queue_cons; [done..|constructor].
  - by apply queue_last.
Qed.

Lemma stream_app a b : stream (a ++ b) = stream a ++ stream b.
Proof. unfold stream. by rewrite map_app, concat_app. Qed.

Lemma stream_one m : stream [m] = msg_bytes m.
Proof. unfold stream. cbn. apply app_nil_r. Qed.

Lemma queue_bytes_open start v : queue_bytes v → let '(before, m) := open_message start v in
  queue_bytes before ∧ (in_data m = false → Forall is_byte (take (nHdrPos m) (hdrbuf m))).
Proof.
  intros Q. unfold open_message. destruct (last v) as [l|] eqn:E; [|split; [done|]; intros; constructor].
  destruct (complete l); [split; [done|]; intros; constructor|].
  assert (v ≠ []) by (by destruct v). unfold queue_bytes in Q. rewrite (app_removelast_last l) in Q by done.
  apply Forall_app in Q as [Q1 Q2]. split; [done|]. apply Forall_inv in Q2.
  assert (List.last v l = l) as El.
  { destruct (exists_last H) as (w & x & ->). rewrite List.last_last. rewrite last_snoc in E. by injection E. }
  by rewrite El in Q2.
Qed.

Lemma receive_loop_spec fuel start v pch :
  (length pch <= fuel)%nat → queue_ok v → queue_bytes v → Forall is_byte pch →
  match frames (stream v ++ pch) with
  | None => ∃ v', ReceiveMsgBytes_loop fuel start v pch = (false, v')
  | Some l => ∃ v', ReceiveMsgBytes_loop fuel start v pch = (true, v') ∧ queue_ok v' ∧ queue_bytes v'
                    ∧ stream v' = stream v ++ pch ∧ map view_of v' = l
  end.
Proof.
  revert v pch. induction fuel as [|fuel IH]; intros v pch Hf Hv Qb Bp.
  { destruct pch; [|cbn in Hf; lia]. rewrite app_nil_r, frames_stream by done. by exists v. }
  destruct pch as [|b pch']; [rewrite app_nil_r, frames_stream by done; by exists v|].
  set (pch := b :: pch') in *. assert (Np : pch ≠ []) by done.
  assert (Step : ReceiveMsgBytes_loop (S fuel) start v pch =
    let '(before, msg) := open_message start v in
    let '(handled, msg) := if negb (in_data msg) then readHeader msg pch else readData msg pch in
    match handled with
    | None => (false, before ++ [msg])
    | Some n => if in_data msg && (MAX_PROTOCOL_MESSAGE_LENGTH <? nMessageSize (hdr msg)) then (false, before ++ [msg])
                else ReceiveMsgBytes_loop fuel start (before ++ [msg]) (drop n pch)
    end) by done.
  rewrite Step. clear Step. pose proof (open_message_spec start v Hv) as O.
  pose proof (queue_bytes_open start v Qb) as Qo. destruct (open_message start v) as [before m].
  destruct O as (W & Hm & C & S). destruct Qo as [Qo1 Qo2].
  pose proof (turn_spec m pch Hm C Np Bp Qo2) as T.
  destruct (if negb (in_data m) then _ else _) as [handled m'].
  rewrite S, <- (assoc_L app), (frames_whole before) by done.
  destruct T as [(n & -> & Hn & Mb & Md & [(I & G & F)|(G & Hm' & B)])|[-> F]].
  - rewrite F, I, (proj2 (Z.ltb_lt _ _) G). cbn [andb]. eauto.
  - assert (E : in_data m' && (MAX_PROTOCOL_MESSAGE_LENGTH <? nMessageSize (hdr m')) = false).
    { destruct G as [G| ->]; [|done]. rewrite (proj2 (Z.ltb_ge _ _) G). apply andb_false_r. }
    rewrite E. specialize (IH (before ++ [m']) (drop n pch)).
    assert (Sb : stream (before ++ [m']) ++ drop n pch = stream before ++ msg_bytes m ++ pch).
    { rewrite stream_app, stream_one, Mb, <- !(assoc_L app), take_drop. done. }
    rewrite Sb, frames_whole in IH by done.
    apply IH.
    + rewrite length_drop. lia.
    + by apply queue_of_open.
    + apply Forall_app. split; [done|]. constructor; [|done]. intros I'.
      assert (Mt : msg_bytes m' = take (nHdrPos m') (hdrbuf m')) by (unfold msg_bytes; by rewrite I').
      rewrite <- Mt, Mb. apply Forall_app. split; [|by apply Forall_take].
      unfold msg_bytes. destruct (in_data m) eqn:I; [|by apply Qo2].
      rewrite Md in I' by done. done.
    + by apply Forall_drop.
  - rewrite F. eauto.
Qed.

(** A stream that is refused stays so. *)
Lemma frames_refused bs rest : frames bs = None → frames (bs ++ rest) = None.
Proof.
  remember (length bs) as n eqn:En. revert bs En. induction (lt_wf n) as [n _ IH]. intros bs -> F.
  destruct (decide (bs = [])) as [->|N]; [done|]. rewrite frames_cons in F by done.
  rewrite frames_cons by (by destruct bs). destruct (Nat.ltb_spec (length bs) 24) as [|L]; [done|].
  destruct (Nat.ltb_spec (length (bs ++ rest)) 24) as [L'|_]; [rewrite length_app in L'; lia|].
  destruct (unser f_msg_header bs) as [[h data]|] eqn:E.
  - assert (E2 : unser f_msg_header (bs ++ rest) = Ok (h, data ++ rest) ∧ (length data < length bs)%nat).
    { cbn [f_msg_header f_struct f_pair unser f_flat f_uint] in *. unser_inv. simplify_eq.
      rewrite <- !(assoc_L app), !read_bytes_app by done. cbn [rbind].
      rewrite !read_bytes_app by done. cbn [rbind]. rewrite !read_bytes_app by done. cbn [rbind].
      rewrite !read_bytes_app by done. cbn [rbind]. split; [done|]. rewrite !length_app. lia. }
    destruct E2 as [-> Ld]. destruct (MAX_PROTOCOL_MESSAGE_LENGTH <? nMessageSize h); [done|]. cbn zeta in F |- *.
    destruct (Nat.ltb_spec (length data) (Z.to_nat (nMessageSize h))) as [|Lh]; [done|].
    destruct (Nat.ltb_spec (length (data ++ rest)) (Z.to_nat (nMessageSize h))) as [L'|_]; [rewrite length_app in L'; lia|].
    rewrite drop_app_le by lia. destruct (frames (drop (Z.to_nat (nMessageSize h)) data)) eqn:G; [done|].
    rewrite (IH (length (drop (Z.to_nat (nMessageSize h)) data))); [done| |done|done]. rewrite length_drop. lia.
  - exfalso. cbn [f_msg_header f_struct f_pair unser f_flat f_uint] in E. unfold read_bytes in E.
    destruct (Nat.ltb_spec (length bs) 4); [lia|]. cbn [rbind] in E. rewrite length_drop in E.
    destruct (Nat.ltb_spec (length bs - 4) 12); [lia|]. cbn [rbind] in E. rewrite !length_drop in E.
    destruct (Nat.ltb_spec (length bs - 4 - 12) 4); [lia|]. cbn [rbind] in E. rewrite !length_drop in E.
    destruct (Nat.ltb_spec (length bs - 4 - 12 - 4) 4); [lia|]. done.
Qed.

Lemma receive_all_spec start v pieces :
  queue_ok v → queue_bytes v → Forall is_byte (concat pieces) →
  match frames (stream v ++ concat pieces) with
  | None => ∃ v', receive_all start v pieces = (false, v')
  | Some l => ∃ v', receive_all start v pieces = (true, v') ∧ queue_ok v'
                    ∧ stream v' = stream v ++ concat pieces ∧ map view_of v' = l
  end.
Proof.
  revert v. induction pieces as [|pch pieces IH]; intros v Hv Qb B; cbn [concat receive_all].
  { rewrite app_nil_r, frames_stream by done. by exists v. }
  apply Forall_app in B as [B1 B2]. unfold ReceiveMsgBytes.
  pose proof (receive_loop_spec (length pch) start v pch ltac:(lia) Hv Qb B1) as R.
  destruct (frames (stream v ++ pch)) as [l|] eqn:F.
  - destruct R as (v' & -> & Hv' & Qb' & S & _). specialize (IH v' Hv' Qb' B2).
    by rewrite S, <- (assoc_L app) in IH.
  - destruct R as (v' & ->). rewrite (assoc_L app), (frames_refused _ _ F). eauto.
Qed.

(** ** The sender *)

(** The bytes of a message: its header and its payload. *)
Definition framed (start : list Z) (m : list Z * list Z) : list Z :=
  ser f_msg_header (mkMsgHeader start (strncpy COMMAND_SIZE m.1) (Z.of_nat (length m.2)) (le_val (take 4 (Hash m.2)))) ++ m.2.

(** A printable command of at most twelve bytes and a payload of at most the
    limit. *)
Definition sendable (m : list Z * list Z) : Prop :=
  Forall (λ c, 32 <= c <= 126) m.1 ∧ (length m.1 <= 12)%nat
  ∧ Forall is_byte m.2 ∧ Z.of_nat (length m.2) <= MAX_PROTOCOL_MESSAGE_LENGTH.

Definition ok_start (start : list Z) : Prop := length start = 4%nat ∧ Forall is_byte start.

Lemma copy_middle n a b c d : length a = n → length b = length d → Digest.memcpy (a ++ b ++ c) n d = a ++ d ++ c.
Proof.
  intros <- L. unfold Digest.memcpy. rewrite take_app_length, drop_app_add, <- L, drop_app_length. done.
Qed.

Lemma length_strncpy n s : length (strncpy n s) = n.
Proof. unfold strncpy. rewrite length_app, length_replicate, length_take. lia. Qed.

Lemma strncpy_command s : Forall (λ c, 32 <= c <= 126) s → (length s <= 12)%nat →
  strncpy COMMAND_SIZE s = s ++ replicate (12 - length s) 0.
Proof.
  intros P L. unfold strncpy, COMMAND_SIZE. rewrite c_str_id, take_ge by (lia || (eapply Forall_impl; [exact P|]; cbn; lia)).
  done.
Qed.

Lemma c_str_zeros s n : Forall (λ c, 32 <= c <= 126) s → c_str (s ++ replicate n 0) = s.
Proof.
  induction 1 as [|c s Hc _ IH]; cbn; [by destruct n|]. rewrite (proj2 (Z.eqb_neq c 0)), IH by lia. done.
Qed.

Lemma command_ok_zeros s n : Forall (λ c, 32 <= c <= 126) s → command_ok (s ++ replicate n 0) = true.
Proof.
  induction 1 as [|c s Hc _ IH]; cbn.
  - destruct n as [|n]; [done|]. cbn. induction n; [done|]. done.
  - rewrite (proj2 (Z.eqb_neq c 0)) by lia. rewrite swrap_small by (unfold in_sw; lia).
    rewrite (proj2 (Z.ltb_ge c 32)), (proj2 (Z.ltb_ge 126 c)) by lia. done.
Qed.

#[local] Opaque Hash.

Lemma Hash_bytes m : Z.of_nat (length m) < 2 ^ 60 → length (Hash m) = 32%nat ∧ Forall is_byte (Hash m).
Proof. intros L. rewrite Hash_spec by done. split; [apply length_fips_sha256|apply fips_sha256_bytes]. Qed.

Lemma checksum_are_bytes m : Z.of_nat (length m) <= MAX_PROTOCOL_MESSAGE_LENGTH →
  is_u32 (le_val (take 4 (Hash m))) ∧ le_bytes 4 (le_val (take 4 (Hash m))) = take 4 (Hash m) ∧ length (take 4 (Hash m)) = 4%nat.
Proof.
  intros L. destruct (Hash_bytes m) as [Lh Bh]; [unfold MAX_PROTOCOL_MESSAGE_LENGTH in L; lia|].
  assert (L4 : length (take 4 (Hash m)) = 4%nat) by (rewrite length_take; lia).
  assert (B4 : Forall is_byte (take 4 (Hash m))) by (by apply Forall_take).
  split; [|split; [|done]].
  - pose proof (le_val_range _ B4) as R. rewrite L4 in R. exact R.
  - rewrite <- L4 at 1. by apply le_bytes_le_val.
Qed.

Lemma framed_header_dom start m : ok_start start → sendable m →
  dom f_msg_header (mkMsgHeader start (strncpy COMMAND_SIZE m.1) (Z.of_nat (length m.2)) (le_val (take 4 (Hash m.2)))).
Proof.
  intros [Ls Bs] (P & Lc & Bp & Lp). destruct (checksum_are_bytes m.2 Lp) as (U & _). unfold MAX_PROTOCOL_MESSAGE_LENGTH in Lp.
  assert (Z12 : length (strncpy COMMAND_SIZE m.1) = 12%nat ∧ Forall is_byte (strncpy COMMAND_SIZE m.1)).
  { split; [apply length_strncpy|]. rewrite strncpy_command by done. apply Forall_app. split; [|by apply Forall_replicate].
    eapply Forall_impl; [exact P|]. unfold in_uw. cbn. lia. }
  destruct Z12 as [Z1 Z2]. revert Z1 Z2 U. generalize (strncpy COMMAND_SIZE m.1), (le_val (take 4 (Hash m.2))).
  intros z ck Z1 Z2 U. unfold in_uw in U. cbn in U. repeat split; cbn; try done; lia.
Qed.

(** What EndMessage puts into the queue. *)
Lemma EndMessage_frame start st cmd payload room : ok_start start → sendable (cmd, payload) →
  EndMessage st (BeginMessage start cmd ++ payload) room
  = let st' := mkSend (vSendMsg st ++ [framed start (cmd, payload)]) (nSendOffset st)
                 (nSendSize st + Z.of_nat (length (framed start (cmd, payload)))) in
    match vSendMsg st with [] => SocketSendData st' room | _ => (st', []) end.
Proof.
  intros [Ls Bs] (P & Lc & Bp & Lp). cbn [fst snd] in *.
  set (sc := start ++ strncpy COMMAND_SIZE cmd).
  assert (Lsc : length sc = 16%nat) by (unfold sc; rewrite length_app, length_strncpy, Ls; done).
  assert (E0 : BeginMessage start cmd ++ payload = sc ++ le_bytes 4 0 ++ (le_bytes 4 0 ++ payload)).
  { unfold BeginMessage, MessageHeader_of, sc. cbn [f_msg_header f_struct f_pair ser f_flat f_uint fst snd pchMessageStart
      pchCommand nMessageSize nChecksum]. by rewrite <- !(assoc_L app). }
  assert (L0 : length (BeginMessage start cmd ++ payload) = (24 + length payload)%nat)
    by (rewrite E0, !length_app, Lsc, !length_le_bytes; lia).
  unfold EndMessage. destruct (BeginMessage start cmd ++ payload) as [|x y] eqn:E; [cbn in L0; lia|].
  rewrite <- E in *. clear x y E. rewrite L0. unfold HEADER_SIZE, MESSAGE_SIZE_OFFSET, CHECKSUM_OFFSET.
  replace (24 + length payload - 24)%nat with (length payload) by lia.
  rewrite E0, copy_middle by (done || by rewrite !length_le_bytes).
  set (sz := le_bytes 4 (Z.of_nat (length payload))).
  assert (L20 : length (sc ++ sz) = 20%nat) by (unfold sz; rewrite length_app, Lsc, length_le_bytes; done).
  assert (D24 : drop 24 (sc ++ sz ++ le_bytes 4 0 ++ payload) = payload).
  { rewrite !(assoc_L app). apply drop_app_length'. rewrite length_app, L20, length_le_bytes. done. }
  rewrite D24, (assoc_L app sc sz).
  destruct (checksum_are_bytes payload Lp) as (_ & C & L4).
  rewrite copy_middle by (done || by rewrite length_le_bytes, L4).
  assert (F : (sc ++ sz) ++ take 4 (Hash payload) ++ payload = framed start (cmd, payload)).
  { unfold framed, sc, sz. cbn [f_msg_header f_struct f_pair ser f_flat f_uint fst snd pchMessageStart
      pchCommand nMessageSize nChecksum]. by rewrite C, <- !(assoc_L app). }
  by rewrite F.
Qed.

(** The queue of the sender: its sizes add up, and no message is sent in full. *)
Record send_ok (st : send_state) : Prop := {
  send_size : nSendSize st = Z.of_nat (length (concat (vSendMsg st)));
  send_offset : match vSendMsg st with [] => nSendOffset st = 0%nat | m :: _ => (nSendOffset st < length m)%nat end;
  send_nonempty : Forall (λ m, m ≠ []) (vSendMsg st)
}.

Definition pending (st : send_state) : list Z := drop (nSendOffset st) (concat (vSendMsg st)).

Lemma new_send_ok : send_ok new_send.
Proof. split; cbn; done. Qed.

(** Whatever room the kernel has: the bytes it takes are the next ones. *)
Lemma send_loop_spec queue offset size room :
  send_ok (mkSend queue offset size) →
  let '(st', out) := send_loop queue offset size room in
  send_ok st' ∧ out ++ pending st' = drop offset (concat queue).
Proof.
  revert offset size room. induction queue as [|data rest IH]; intros offset size room Hst; cbn [send_loop].
  { split; [done|]. done. }
  destruct Hst as [Sz O N]. cbn [vSendMsg nSendOffset nSendSize concat] in *. rewrite length_app in Sz.
  apply Forall_cons in N as [N1 N2].
  assert (Stay : send_ok (mkSend (data :: rest) offset size)).
  { split; cbn [vSendMsg nSendOffset nSendSize concat]; [by rewrite length_app|done|by constructor]. }
  destruct room as [|[|n] room]; [split; done|split; done|].
  set (nBytes := Nat.min (S n) (length data - offset)).
  destruct (Nat.eqb_spec (offset + nBytes) (length data)) as [E|E].
  - assert (Hst' : send_ok (mkSend rest 0 (size - Z.of_nat (length data)))).
    { split; cbn; [lia| |done]. destruct rest as [|m r]; [done|]. apply Forall_inv in N2. destruct m; [done|cbn; lia]. }
    specialize (IH 0%nat (size - Z.of_nat (length data)) room Hst').
    destruct (send_loop rest 0 (size - Z.of_nat (length data)) room) as [st' out]. destruct IH as [H1 H2].
    split; [done|]. rewrite <- (assoc_L app), H2, drop_0, drop_app_le by lia.
    f_equal. apply take_ge. rewrite length_drop. lia.
  - split.
    + split; cbn [vSendMsg nSendOffset nSendSize concat]; [by rewrite length_app|lia|by constructor].
    + unfold pending. cbn [vSendMsg nSendOffset concat]. rewrite !drop_app_le by lia.
      rewrite (assoc_L app), <- drop_drop, take_drop. done.
Qed.

(** What happens at the sender: a message is pushed, or the socket is ready. *)
Inductive send_op := Push (m : list Z * list Z) (room : list nat) | Ready (room : list nat).

Definition send_step (start : list Z) (acc : send_state * list Z) (o : send_op) : send_state * list Z :=
  let '(st, out) := acc in
  let '(st, bytes) := match o with
                      | Push m room => PushMessage start st m.1 m.2 room
                      | Ready room => SocketSendData st room
                      end in (st, out ++ bytes).

Definition send_run (start : list Z) (ops : list send_op) : send_state * list Z :=
  foldl (send_step start) (new_send, []) ops.

Definition pushed (ops : list send_op) : list (list Z * list Z) :=
  omap (λ o, match o with Push m _ => Some m | Ready _ => None end) ops.

Lemma send_run_spec start ops : ok_start start → Forall sendable (pushed ops) →
  let '(st, out) := send_run start ops in
  send_ok st ∧ out ++ pending st = concat (map (framed start) (pushed ops)).
Proof.
  intros Hs. unfold send_run.
  induction ops as [|o ops IH] using rev_ind; intros F; [split; [apply new_send_ok|done]|].
  rewrite foldl_app. cbn [foldl]. unfold pushed in *. rewrite omap_app in *. apply Forall_app in F as [F1 F2].
  specialize (IH F1). destruct (foldl (send_step start) (new_send, []) ops) as [st out]. destruct IH as [Hst HO].
  rewrite map_app, concat_app, <- HO. cbn [send_step]. destruct o as [m room|room]; cbn [omap list_omap map concat].
  - apply Forall_inv in F2. destruct m as [cmd payload]. cbn [fst snd]. unfold PushMessage.
    rewrite EndMessage_frame by done. cbn zeta. rewrite app_nil_r.
    assert (Lf : (24 <= length (framed start (cmd, payload)))%nat).
    { unfold framed. rewrite length_app, length_ser_header by (by apply framed_header_dom). lia. }
    destruct Hst as [S O N].
    assert (Hst' : send_ok (mkSend (vSendMsg st ++ [framed start (cmd, payload)]) (nSendOffset st)
                 (nSendSize st + Z.of_nat (length (framed start (cmd, payload)))))).
    { split; cbn [vSendMsg nSendOffset nSendSize].
      - rewrite concat_app, length_app. cbn [concat]. rewrite app_nil_r. lia.
      - destruct (vSendMsg st) as [|m0 r]; [cbn [app]; lia|done].
      - apply Forall_app. split; [done|]. constructor; [|done]. by intros Z; rewrite Z in Lf; cbn in Lf; lia. }
    assert (Pd : pending st ++ framed start (cmd, payload)
                 = drop (nSendOffset st) (concat (vSendMsg st ++ [framed start (cmd, payload)]))).
    { rewrite concat_app. cbn [concat]. rewrite app_nil_r. unfold pending. rewrite drop_app_le; [done|].
      destruct (vSendMsg st); cbn [concat]; [cbn; lia|rewrite length_app; lia]. }
    destruct (vSendMsg st) as [|m0 r] eqn:E.
    + unfold SocketSendData. cbn [vSendMsg nSendOffset nSendSize].
      pose proof (send_loop_spec _ _ _ room Hst') as L.
      destruct (send_loop _ _ _ room) as [st' bytes]. destruct L as [H1 H2]. split; [done|].
      by rewrite <- !(assoc_L app), H2, Pd.
    + split; [done|]. rewrite app_nil_r, <- (assoc_L app). f_equal. by rewrite Pd.
  - rewrite app_nil_r. unfold SocketSendData.
    pose proof (send_loop_spec (vSendMsg st) (nSendOffset st) (nSendSize st) room) as L.
    destruct st as [q o s]. cbn [vSendMsg nSendOffset nSendSize] in *. specialize (L Hst).
    destruct (send_loop q o s room) as [st' bytes]. destruct L as [H1 H2]. split; [done|].
    by rewrite <- (assoc_L app), H2.
Qed.

(** ** From the sender to the handler *)

(** A whole message as it was framed passes the checks. *)
Lemma framed_message_handled start m msg v : ok_start start → sendable m → msg_ok msg → complete msg = true →
  msg_bytes msg = framed start m → ProcessMessages_loop start (msg :: v) = (v, Some m, true).
Proof.
  intros Hs Hm Ho C E. pose proof (framed_header_dom start m Hs Hm) as D.
  cbn [ProcessMessages_loop]. rewrite C. cbn [negb]. apply complete_spec in C as [I S].
  unfold msg_ok, msg_bytes in *. rewrite I in *. destruct Ho as (Dh & _ & Hl). unfold framed in E.
  set (h := mkMsgHeader start _ _ _) in *.
  assert (H0 : hdr msg = h ∧ take (nDataPos msg) (vRecv msg) = m.2).
  { apply app_inj_1 in E as [Eh Ed]; [|by rewrite !length_ser_header]. split; [|done].
    pose proof (fmt_roundtrip (hdr msg) [] Dh) as R1. pose proof (fmt_roundtrip h [] D) as R2.
    rewrite Eh, R2 in R1. by injection R1. }
  destruct H0 as [-> Ed]. rewrite take_ge in Ed by lia.
  rewrite S, (take_ge (vRecv msg)) by lia. rewrite Ed. destruct Hm as (P & Lc & Bp & Lp).
  unfold h. cbn [pchMessageStart nChecksum]. rewrite bool_decide_true by done. cbn [negb].
  unfold header_IsValid. cbn [pchMessageStart pchCommand nMessageSize]. rewrite bool_decide_true by done. cbn [negb].
  rewrite strncpy_command, command_ok_zeros by done. cbn [negb].
  rewrite (proj2 (Z.ltb_ge MAX_SIZE (Z.of_nat (length m.2)))) by (unfold MAX_SIZE, MAX_PROTOCOL_MESSAGE_LENGTH in *; lia).
  cbn [negb]. rewrite Z.eqb_refl. cbn [negb]. unfold GetCommand. cbn [pchCommand].
  rewrite c_str_zeros by done. by destruct m.
Qed.

(** How many of the messages are whole within the first [len] bytes. *)
Definition whole_within (start : list Z) (ms : list (list Z * list Z)) (len n : nat) : Prop :=
  (n <= length ms)%nat
  ∧ (length (concat (map (framed start) (take n ms))) <= len)%nat
  ∧ ((n < length ms)%nat → (len < length (concat (map (framed start) (take (S n) ms))))%nat).

Lemma length_framed start m : ok_start start → sendable m → length (framed start m) = (24 + length m.2)%nat.
Proof. intros Hs Hm. unfold framed. by rewrite length_app, length_ser_header by (by apply framed_header_dom). Qed.

Lemma handled_prefix start ms v rest : ok_start start → Forall sendable ms → queue_ok v →
  stream v ++ rest = concat (map (framed start) ms) →
  ∃ n, handled_messages start v = take n ms ∧ whole_within start ms (length (stream v)) n.
Proof.
  intros Hs. revert v. induction ms as [|m ms IH]; intros v F Hv E.
  - exists 0%nat. cbn in E. apply app_eq_nil in E as [E _]. rewrite E. cbn. split; [|split; [done|split; [done|cbn; lia]]].
    destruct Hv as [|m Hm B C|m v Hm C Hv]; [done| |].
    + unfold handled_messages. cbn. by rewrite C.
    + exfalso. apply (f_equal length) in E. unfold stream in E. cbn [map concat] in E. rewrite length_app in E.
      apply complete_spec in C as [I _]. unfold msg_ok, msg_bytes in *. rewrite I in *.
      destruct Hm as (D & _). rewrite length_app, length_ser_header in E by done. cbn in E. lia.
  - apply Forall_cons in F as [Hm F]. cbn [map concat] in E. pose proof (length_framed start m Hs Hm) as Lf.
    destruct Hv as [|msg Ho B C|msg v Ho C Hv].
    + exists 0%nat. split; [done|]. split; [cbn; lia|]. split; [cbn; lia|]. intros _. cbn [take map concat].
      rewrite length_app. cbn [stream map concat length]. lia.
    + exists 0%nat. unfold handled_messages. cbn [length handled ProcessMessages_loop]. rewrite C. cbn [negb].
      split; [done|]. split; [cbn; lia|]. split; [cbn; lia|]. intros _. cbn [take map concat].
      rewrite app_nil_r, Lf. rewrite stream_one in *.
      unfold msg_ok, msg_bytes, complete in *. destruct (in_data msg) eqn:I; cbn [negb] in C.
      * destruct Ho as (D & Hsz & Hl). apply Nat.eqb_neq in C. rewrite <- !(assoc_L app) in E. unfold framed in E.
        rewrite <- (assoc_L app) in E.
        apply app_inj_1 in E as [Eh _]; [|by rewrite !length_ser_header by (done || by apply framed_header_dom)].
        pose proof (fmt_roundtrip (hdr msg) [] D) as R1.
        pose proof (fmt_roundtrip _ [] (framed_header_dom start m Hs Hm)) as R2. rewrite Eh, R2 in R1.
        injection R1 as R1. unfold msg_size in *. rewrite <- R1 in *. cbn [nMessageSize] in *. rewrite Nat2Z.id in *.
        rewrite length_app, length_ser_header, length_take by exact D. lia.
      * destruct Ho as (Lb & Hp & _). rewrite length_take. lia.
    + assert (Ls : length (stream (msg :: v)) = (length (msg_bytes msg) + length (stream v))%nat).
      { unfold stream. cbn [map concat]. apply length_app. }
      assert (Eb : msg_bytes msg = framed start m ∧ stream v ++ rest = concat (map (framed start) ms)).
      { unfold stream in E. cbn [map concat] in E. rewrite <- (assoc_L app) in E.
        apply complete_spec in C as [I S]. unfold msg_ok, msg_bytes in *. rewrite I in *. destruct Ho as (D & Hsz & Hl).
        unfold framed in E. rewrite <- !(assoc_L app) in E.
        apply app_inj_1 in E as [Eh E]; [|by rewrite !length_ser_header by (done || by apply framed_header_dom)].
        pose proof (fmt_roundtrip (hdr msg) [] D) as R1.
        pose proof (fmt_roundtrip _ [] (framed_header_dom start m Hs Hm)) as R2. rewrite Eh, R2 in R1.
        injection R1 as R1. assert (Sz : msg_size msg = length m.2) by (unfold msg_size; rewrite <- R1; cbn; lia).
        apply app_inj_1 in E as [Ed E]; [|rewrite length_take; lia]. split; [|done]. unfold framed. by rewrite Eh, Ed. }
      destruct Eb as [Eb Ev]. destruct (IH v F Hv Ev) as (n & Hn & (W1 & W2 & W3)). exists (S n).
      unfold handled_messages in *. cbn [length handled]. rewrite (framed_message_handled start m) by done.
      cbn [take]. rewrite Hn. split; [done|]. rewrite Ls, Eb, Lf. split; [cbn; lia|].
      split; [cbn [take map concat]; rewrite length_app, Lf; lia|].
      intros L. specialize (W3 ltac:(cbn in L; lia)). cbn [take map concat] in *. rewrite length_app, Lf. lia.
Qed.

Lemma whole_within_all start ms len n : whole_within start ms len n →
  len = length (concat (map (framed start) ms)) → n = length ms.
Proof.
  intros (W1 & W2 & W3) ->. destruct (Nat.eq_dec n (length ms)) as [|N]; [done|].
  specialize (W3 ltac:(lia)). rewrite <- (take_drop (S n) ms) in W3 at 1.
  rewrite map_app, concat_app, length_app in W3. lia.
Qed.

(** C10: whatever pieces the kernel takes from the sender, and whatever pieces
    arrive at the receiver, the handler is given exactly the messages that were
    pushed and are whole in what has arrived: in order, each once, with the command
    and payload they were pushed with; and when everything has been sent and has
    arrived, all of them. The connection is never shut. *)
Theorem messages_are_delivered start ops pieces :
  ok_start start → Forall sendable (pushed ops) →
  let '(st, out) := send_run start ops in
  concat pieces `prefix_of` out →
  ∃ v n, receive_all start [] pieces = (true, v)
         ∧ handled_messages start v = take n (pushed ops)
         ∧ whole_within start (pushed ops) (length (concat pieces)) n
         ∧ (concat pieces = out → pending st = [] → n = length (pushed ops)).
Proof.
  intros Hs F. pose proof (send_run_spec start ops Hs F) as R. destruct (send_run start ops) as [st out].
  destruct R as [_ R]. intros [more ->].
  assert (B : Forall is_byte (concat pieces)).
  { assert (Bc : Forall is_byte (concat (map (framed start) (pushed ops)))).
    { apply Forall_concat, Forall_map. eapply Forall_impl; [exact F|]. intros m Hm. unfold framed.
      apply Forall_app. split; [by apply fmt_bytes, framed_header_dom|apply Hm]. }
    rewrite <- R in Bc. by apply Forall_app in Bc as [[? _]%Forall_app _]. }
  rewrite <- (assoc_L app) in R.
  assert (G : ∀ ms bs rest, Forall sendable ms → bs ++ rest = concat (map (framed start) ms) → frames bs <> None).
  { intros ms bs rest Fm E N. apply (frames_refused _ rest) in N. rewrite E in N. clear E.
    induction Fm as [|m ms Hm _ IH]; [done|]. cbn [map concat] in N. unfold framed in N at 1.
    rewrite <- (assoc_L app), frames_header in N by (by apply framed_header_dom). cbn [nMessageSize] in N.
    destruct Hm as (_ & _ & _ & Lp). rewrite (proj2 (Z.ltb_ge _ _) Lp), Nat2Z.id in N.
    destruct (length (m.2 ++ _) <? length m.2)%nat; [done|]. rewrite drop_app_length in N.
    destruct (frames (concat (map (framed start) ms))); [done|by apply IH]. }
  pose proof (receive_all_spec start [] pieces queue_nil (Forall_nil_2 _) B) as A.
  change (stream []) with (@nil Z) in A. cbn [app] in A.
  destruct (frames (concat pieces)) as [l|] eqn:Fr; [|by destruct (G _ _ _ F R)].
  destruct A as (v & E & Hv & Sv & _). rewrite <- Sv in R.
  destruct (handled_prefix start (pushed ops) v _ Hs F Hv R) as (n & Hn & W). rewrite Sv in W.
  exists v, n. split; [done|]. split; [done|]. split; [done|]. intros Eo Ep.
  apply (whole_within_all start (pushed ops) _ n W). rewrite <- R, Sv, Ep, app_nil_r.
  rewrite <- Eo at 1. done.
Qed.

#[local] Transparent Hash.

Definition example_ops : list send_op :=
  [Push (str "ping", [1; 2; 3; 4; 5; 6; 7; 8]) [10%nat]; Push (str "verack", []) []; Ready [100%nat; 4%nat]; Ready [60%nat]].

Definition example_out : list Z := Eval vm_compute in (send_run (MessageStart REGTEST) example_ops).2.

Lemma example_run : send_run (MessageStart REGTEST) example_ops = (new_send, example_out).
Proof. vm_compute. reflexivity. Qed.

Lemma example_sendable : Forall sendable (pushed example_ops).
Proof.
  assert (G : ∀ m, forallb (λ c, (32 <=? c) && (c <=? 126)) m.1 && forallb (λ b, (0 <=? b) && (b <? 256)) m.2
    && (length m.1 <=? 12)%nat && (Z.of_nat (length m.2) <=? MAX_PROTOCOL_MESSAGE_LENGTH) = true → sendable m).
  { intros m. rewrite !andb_true_iff, Nat.leb_le, Z.leb_le, !forallb_forall. intros [[[P B] L] S].
    split; [|split; [done|split; [|done]]]; apply Forall_forall; intros c Hc.
    - apply list_elem_of_In, P in Hc. lia.
    - apply list_elem_of_In, B in Hc. unfold in_uw. cbn. lia. }
  repeat (apply Forall_cons_2; [apply G; vm_compute; reflexivity|]). apply Forall_nil_2.
Qed.

Lemma messages_are_delivered_witness :
  ∃ v, receive_all (MessageStart REGTEST) [] [take 3 example_out; take 25 (drop 3 example_out); drop 28 example_out] = (true, v)
       ∧ handled_messages (MessageStart REGTEST) v = [(str "ping", [1; 2; 3; 4; 5; 6; 7; 8]); (str "verack", [])].
Proof.
  assert (Hs : ok_start (MessageStart REGTEST)) by (split; [done|repeat (apply Forall_cons_2; [unfold in_uw; cbn; lia|]); apply Forall_nil_2]).
  pose proof (messages_are_delivered (MessageStart REGTEST) example_ops
    [take 3 example_out; take 25 (drop 3 example_out); drop 28 example_out] Hs example_sendable) as D.
  rewrite example_run in D. destruct D as (v & n & R & H & _ & A).
  { exists []. vm_compute. reflexivity. }
  exists v. split; [exact R|]. rewrite H, A by (vm_compute; reflexivity). reflexivity.
Defined.
