(* ===== verification/AddrMan.v ===== *)
(** * The address manager (addrman)

    The tables of peer addresses: entries by number, the index by address, the
    random order, and the "tried" and "new" buckets, where a position that holds
    -1 in the array is absent from the map. Random numbers and the time are
    arguments; an assertion that fails is [None]. The power function of the C
    library in GetChance is an argument. *)

From S2P Require Import Prelude Serialize Doubles Hashes NetAddr.

(** ** Entries *)

Record CAddrInfo := mkInfo {
  i_addr : CAddress;
  i_source : CNetAddr;
  nLastSuccess : Z;
  nAttempts : Z;
  nRefCount : Z;
  fInTried : bool;
  nRandomPos : Z
}.

Definition info_ip (i : CAddrInfo) : CNetAddr := s_ip (a_srv (i_addr i)).

(** The constructor. *)
Definition new_info (addrIn : CAddress) (addrSource : CNetAddr) : CAddrInfo :=
  mkInfo (mkAddress (a_srv addrIn) (nServices addrIn) (a_nTime addrIn) 0) addrSource 0 0 0 false (-1).

Definition ADDRMAN_TRIED_BUCKET_COUNT : Z := 256.
Definition ADDRMAN_NEW_BUCKET_COUNT : Z := 1024.
Definition ADDRMAN_BUCKET_SIZE : Z := 64.
Definition ADDRMAN_TRIED_BUCKETS_PER_GROUP : Z := 8.
Definition ADDRMAN_NEW_BUCKETS_PER_SOURCE_GROUP : Z := 64.
Definition ADDRMAN_NEW_BUCKETS_PER_ADDRESS : Z := 8.
Definition ADDRMAN_HORIZON_DAYS : Z := 30.
Definition ADDRMAN_RETRIES : Z := 3.
Definition ADDRMAN_MAX_FAILURES : Z := 10.
Definition ADDRMAN_MIN_FAIL_DAYS : Z := 7.
Definition ADDRMAN_GETADDR_MAX_PCT : Z := 23.
Definition ADDRMAN_GETADDR_MAX : Z := 2500.

(** [(CHashWriter(SER_GETHASH, 0) << ...).GetHash().GetLow64()]. *)
Definition low64 (bytes : list Z) : Z := le_val (take 8 (Hash bytes)).

Definition GetTriedBucket (nKey : list Z) (a : CService) : Z :=
  let hash1 := low64 (nKey ++ ser f_bytes (GetKey a)) in
  let hash2 := low64 (nKey ++ ser f_bytes (GetGroup (s_ip a)) ++ le_bytes 8 (hash1 mod ADDRMAN_TRIED_BUCKETS_PER_GROUP)) in
  hash2 mod ADDRMAN_TRIED_BUCKET_COUNT.

Definition GetNewBucket (nKey : list Z) (a : CService) (src : CNetAddr) : Z :=
  let vchSourceGroupKey := GetGroup src in
  let hash1 := low64 (nKey ++ ser f_bytes (GetGroup (s_ip a)) ++ ser f_bytes vchSourceGroupKey) in
  let hash2 := low64 (nKey ++ ser f_bytes vchSourceGroupKey ++ le_bytes 8 (hash1 mod ADDRMAN_NEW_BUCKETS_PER_SOURCE_GROUP)) in
  hash2 mod ADDRMAN_NEW_BUCKET_COUNT.

Definition GetBucketPosition (nKey : list Z) (a : CService) (fNew : bool) (nBucket : Z) : Z :=
  let hash1 := low64 (nKey ++ [if fNew then 78 else 75] ++ le_bytes 4 nBucket ++ ser f_bytes (GetKey a)) in
  hash1 mod ADDRMAN_BUCKET_SIZE.

Definition IsTerrible (i : CAddrInfo) (nNow : Z) : bool :=
  let nLastTry := nLastTry (i_addr i) in
  let nTime := a_nTime (i_addr i) in
  if negb (nLastTry =? 0) && (nNow - 60 <=? nLastTry) then false
  else if nNow + 10 * 60 <? nTime then true
  else if (nTime =? 0) || (ADDRMAN_HORIZON_DAYS * 24 * 60 * 60 <? nNow - nTime) then true
  else if (nLastSuccess i =? 0) && (ADDRMAN_RETRIES <=? nAttempts i) then true
  else if (ADDRMAN_MIN_FAIL_DAYS * 24 * 60 * 60 <? nNow - nLastSuccess i) && (ADDRMAN_MAX_FAILURES <=? nAttempts i) then true
  else false.

(** [pow] of a double and an integer. *)
Definition GetChance (pow : spec_float → Z → spec_float) (i : CAddrInfo) (nNow : Z) : spec_float :=
  let fChance := f64 1 in
  let nSinceLastTry := Z.max 0 (nNow - nLastTry (i_addr i)) in
  let fChance := if nSinceLastTry <? 60 * 10 then f64_mul fChance (f64_lit 1 100) else fChance in
  f64_mul fChance (pow (f64_lit 66 100) (Z.min (nAttempts i) 8)).

(** ** The manager *)

(** [nIdCount], [nTried] and [nNew] are ints; [Create] writes out the wrap-around
    of the first, the other two never exceed the number of slots. *)
Record CAddrMan := mkAddrMan {
  nKey : list Z;
  nIdCount : Z;
  mapInfo : gmap Z CAddrInfo;
  mapAddr : gmap CNetAddr Z;
  vRandom : list Z;
  nTried : Z;
  vvTried : gmap (Z * Z) Z;
  nNew : Z;
  vvNew : gmap (Z * Z) Z
}.

(** *** Updates of one member *)

Definition set_info (m : CAddrMan) (nId : Z) (i : CAddrInfo) : CAddrMan :=
  mkAddrMan (nKey m) (nIdCount m) (<[nId := i]> (mapInfo m)) (mapAddr m) (vRandom m) (nTried m) (vvTried m) (nNew m) (vvNew m).
Definition set_random (m : CAddrMan) (r : list Z) : CAddrMan :=
  mkAddrMan (nKey m) (nIdCount m) (mapInfo m) (mapAddr m) r (nTried m) (vvTried m) (nNew m) (vvNew m).
Definition set_tried (m : CAddrMan) (n : Z) (v : gmap (Z * Z) Z) : CAddrMan :=
  mkAddrMan (nKey m) (nIdCount m) (mapInfo m) (mapAddr m) (vRandom m) n v (nNew m) (vvNew m).
Definition set_new (m : CAddrMan) (n : Z) (v : gmap (Z * Z) Z) : CAddrMan :=
  mkAddrMan (nKey m) (nIdCount m) (mapInfo m) (mapAddr m) (vRandom m) (nTried m) (vvTried m) n v.

Definition with_addr (i : CAddrInfo) (a : CAddress) : CAddrInfo :=
  mkInfo a (i_source i) (nLastSuccess i) (nAttempts i) (nRefCount i) (fInTried i) (nRandomPos i).
Definition with_refs (i : CAddrInfo) (n : Z) : CAddrInfo :=
  mkInfo (i_addr i) (i_source i) (nLastSuccess i) (nAttempts i) n (fInTried i) (nRandomPos i).
Definition with_tried (i : CAddrInfo) (b : bool) : CAddrInfo :=
  mkInfo (i_addr i) (i_source i) (nLastSuccess i) (nAttempts i) (nRefCount i) b (nRandomPos i).
Definition with_pos (i : CAddrInfo) (p : Z) : CAddrInfo :=
  mkInfo (i_addr i) (i_source i) (nLastSuccess i) (nAttempts i) (nRefCount i) (fInTried i) p.

(** The buckets of an entry. *)
Definition tried_bucket (m : CAddrMan) (i : CAddrInfo) : Z := GetTriedBucket (nKey m) (a_srv (i_addr i)).
Definition tried_slot (m : CAddrMan) (i : CAddrInfo) : Z * Z :=
  (tried_bucket m i, GetBucketPosition (nKey m) (a_srv (i_addr i)) false (tried_bucket m i)).
Definition new_slot (m : CAddrMan) (i : CAddrInfo) (nBucket : Z) : Z * Z :=
  (nBucket, GetBucketPosition (nKey m) (a_srv (i_addr i)) true nBucket).

(** *** Operations *)

(** Clear and the constructor, with the random key: the entries and the index by
    address are left alone. *)
Definition Clear (m : CAddrMan) (randHash : list Z) : CAddrMan :=
  mkAddrMan randHash 0 (mapInfo m) (mapAddr m) [] 0 ∅ 0 ∅.
Definition new_manager (randHash : list Z) : CAddrMan := Clear (mkAddrMan [] 0 ∅ ∅ [] 0 ∅ 0 ∅) randHash.

Definition size (m : CAddrMan) : Z := Z.of_nat (length (vRandom m)).

Definition Find (m : CAddrMan) (addr : CNetAddr) : option (Z * CAddrInfo) :=
  match mapAddr m !! addr with
  | None => None
  | Some nId => match mapInfo m !! nId with Some i => Some (nId, i) | None => None end
  end.

Definition Create (m : CAddrMan) (addr : CAddress) (addrSource : CNetAddr) : CAddrMan * Z :=
  let nId := nIdCount m in
  let i := with_pos (new_info addr addrSource) (Z.of_nat (length (vRandom m))) in
  (mkAddrMan (nKey m) (s32 (nIdCount m + 1)) (<[nId := i]> (mapInfo m)) (<[s_ip (a_srv addr) := nId]> (mapAddr m))
     (vRandom m ++ [nId]) (nTried m) (vvTried m) (nNew m) (vvNew m), nId).

Definition SwapRandom (m : CAddrMan) (nRndPos1 nRndPos2 : Z) : option CAddrMan :=
  if nRndPos1 =? nRndPos2 then Some m
  else if negb ((nRndPos1 <? size m) && (nRndPos2 <? size m)) then None
  else
    let nId1 := getz (vRandom m) nRndPos1 in
    let nId2 := getz (vRandom m) nRndPos2 in
    match mapInfo m !! nId1, mapInfo m !! nId2 with
    | Some i1, Some i2 =>
        let m := set_info m nId1 (with_pos i1 nRndPos2) in
        let i2 := default i2 (mapInfo m !! nId2) in
        let m := set_info m nId2 (with_pos i2 nRndPos1) in
        Some (set_random m (setz (setz (vRandom m) nRndPos1 nId2) nRndPos2 nId1))
    | _, _ => None
    end.

Definition Delete (m : CAddrMan) (nId : Z) : option CAddrMan :=
  match mapInfo m !! nId with
  | None => None
  | Some info =>
      if fInTried info then None
      else if negb (nRefCount info =? 0) then None
      else
        match SwapRandom m (u32 (nRandomPos info)) (u32 (size m - 1)) with
        | None => None
        | Some m =>
            Some (mkAddrMan (nKey m) (nIdCount m) (delete nId (mapInfo m)) (delete (info_ip info) (mapAddr m))
                    (removelast (vRandom m)) (nTried m) (vvTried m) (nNew m - 1) (vvNew m))
        end
  end.

Definition ClearNew (m : CAddrMan) (slot : Z * Z) : option CAddrMan :=
  match vvNew m !! slot with
  | None => Some m
  | Some nIdDelete =>
      match mapInfo m !! nIdDelete with
      | None => None
      | Some infoDelete =>
          if negb (0 <? nRefCount infoDelete) then None
          else
            let infoDelete := with_refs infoDelete (nRefCount infoDelete - 1) in
            let m := set_info m nIdDelete infoDelete in
            let m := set_new m (nNew m) (delete slot (vvNew m)) in
            if nRefCount infoDelete =? 0 then Delete m nIdDelete else Some m
      end
  end.

(** One turn of the loop of MakeTried over the new buckets. *)
Definition leave_bucket (nId : Z) (m : CAddrMan) (bucket : Z) : CAddrMan :=
  match mapInfo m !! nId with
  | None => m
  | Some info =>
      let slot := new_slot m info bucket in
      if bool_decide (vvNew m !! slot = Some nId)
      then set_info (set_new m (nNew m) (delete slot (vvNew m))) nId (with_refs info (nRefCount info - 1))
      else m
  end.

(** The entry [nId] joins a tried slot that is empty. *)
Definition enter_tried (m : CAddrMan) (nId : Z) (slot : Z * Z) : option CAddrMan :=
  match mapInfo m !! nId with
  | None => None
  | Some info =>
      let m := set_tried m (nTried m + 1) (<[slot := nId]> (vvTried m)) in
      Some (set_info m nId (with_tried info true))
  end.

(** The entry in a tried slot goes back to a new bucket. *)
Definition evict (m : CAddrMan) (slot : Z * Z) : option CAddrMan :=
  match vvTried m !! slot with
  | None => Some m
  | Some nIdEvict =>
      match mapInfo m !! nIdEvict with
      | None => None
      | Some infoOld =>
          let m := set_info m nIdEvict (with_tried infoOld false) in
          let m := set_tried m (nTried m - 1) (delete slot (vvTried m)) in
          let uslot := new_slot m infoOld (GetNewBucket (nKey m) (a_srv (i_addr infoOld)) (i_source infoOld)) in
          match ClearNew m uslot with
          | None => None
          | Some m =>
              match vvNew m !! uslot, mapInfo m !! nIdEvict with
              | None, Some infoOld =>
                  let m := set_info m nIdEvict (with_refs infoOld 1) in
                  Some (set_new m (nNew m + 1) (<[uslot := nIdEvict]> (vvNew m)))
              | _, _ => None
              end
          end
      end
  end.

(** MakeTried behind that loop. *)
Definition join_tried (m : CAddrMan) (nId : Z) : option CAddrMan :=
  let m := set_new m (nNew m - 1) (vvNew m) in
  match mapInfo m !! nId with
  | None => None
  | Some info =>
      if negb (nRefCount info =? 0) then None
      else
        let slot := tried_slot m info in
        match evict m slot with
        | None => None
        | Some m => match vvTried m !! slot with
                    | Some _ => None
                    | None => enter_tried m nId slot
                    end
        end
  end.

Definition MakeTried (m : CAddrMan) (nId : Z) : option CAddrMan :=
  join_tried (foldl (leave_bucket nId) m (seqZ 0 ADDRMAN_NEW_BUCKET_COUNT)) nId.

(** The new buckets from a random one on: the first the entry is in. *)
Definition find_bucket (m : CAddrMan) (nId : Z) (info : CAddrInfo) (nRnd : Z) : option Z :=
  find (λ nB, bool_decide (vvNew m !! new_slot m info nB = Some nId))
    (map (λ n, (n + nRnd) mod ADDRMAN_NEW_BUCKET_COUNT) (seqZ 0 ADDRMAN_NEW_BUCKET_COUNT)).

Definition Good_ (m : CAddrMan) (addr : CService) (nTime nRnd : Z) : option CAddrMan :=
  match Find m (s_ip addr) with
  | None => Some m
  | Some (nId, info) =>
      if negb (service_eq (a_srv (i_addr info)) addr) then Some m
      else
        let a := i_addr info in
        let info := mkInfo (mkAddress (a_srv a) (nServices a) (a_nTime a) nTime) (i_source info) nTime 0
                      (nRefCount info) (fInTried info) (nRandomPos info) in
        let m := set_info m nId info in
        if fInTried info then Some m
        else match find_bucket m nId info nRnd with
             | None => Some m
             | Some _ => MakeTried m nId
             end
  end.

Definition Attempt_ (m : CAddrMan) (addr : CService) (nTime : Z) : CAddrMan :=
  match Find m (s_ip addr) with
  | None => m
  | Some (nId, info) =>
      if negb (service_eq (a_srv (i_addr info)) addr) then m
      else let a := i_addr info in
           set_info m nId (mkInfo (mkAddress (a_srv a) (nServices a) (a_nTime a) nTime) (i_source info) (nLastSuccess info)
                             (s32 (nAttempts info + 1)) (nRefCount info) (fInTried info) (nRandomPos info))
  end.

Definition Connected_ (m : CAddrMan) (addr : CService) (nTime : Z) : CAddrMan :=
  match Find m (s_ip addr) with
  | None => m
  | Some (nId, info) =>
      if negb (service_eq (a_srv (i_addr info)) addr) then m
      else let a := i_addr info in
           if 20 * 60 <? nTime - a_nTime a
           then set_info m nId (with_addr info (mkAddress (a_srv a) (nServices a) (u32 nTime) (nLastTry a)))
           else m
  end.

(** The first half of Add_ for an entry that is there: the time and services, and
    whether to go on. [rnd] is GetRandInt(2^nRefCount). *)
Definition Add_known (m : CAddrMan) (nId : Z) (info : CAddrInfo) (addr : CAddress) (nTimePenalty now rnd : Z) : CAddrMan * bool :=
  let a := i_addr info in
  let fCurrentlyOnline := now - a_nTime addr <? 24 * 60 * 60 in
  let nUpdateInterval := if fCurrentlyOnline then 60 * 60 else 24 * 60 * 60 in
  let nTime :=
    if negb (a_nTime addr =? 0) && ((a_nTime a =? 0) || (a_nTime a <? a_nTime addr - nUpdateInterval - nTimePenalty))
    then u32 (Z.max 0 (a_nTime addr - nTimePenalty)) else a_nTime a in
  let info := with_addr info (mkAddress (a_srv a) (Z.lor (nServices a) (nServices addr)) nTime (nLastTry a)) in
  let m := set_info m nId info in
  if (a_nTime addr =? 0) || (negb (nTime =? 0) && (a_nTime addr <=? nTime)) then (m, false)
  else if fInTried info then (m, false)
  else if nRefCount info =? ADDRMAN_NEW_BUCKETS_PER_ADDRESS then (m, false)
  else
    let nFactor := 2 ^ nRefCount info in
    if (1 <? nFactor) && negb (rnd =? 0) then (m, false) else (m, true).

(** The second half: the place in a new bucket. *)
Definition Add_place (m : CAddrMan) (nId : Z) (src : CNetAddr) (now : Z) : option CAddrMan :=
  match mapInfo m !! nId with
  | None => None
  | Some pinfo =>
      let slot := new_slot m pinfo (GetNewBucket (nKey m) (a_srv (i_addr pinfo)) src) in
      if bool_decide (vvNew m !! slot = Some nId) then Some m
      else
        let '(m, fInsert) :=
          match vvNew m !! slot with
          | None => (m, true)
          | Some e =>
              let '(m, infoExisting) :=
                match mapInfo m !! e with
                | Some i => (m, i)
                | None => (set_info m e (new_info CAddress_empty Init), new_info CAddress_empty Init)
                end in
              (m, IsTerrible infoExisting now || ((1 <? nRefCount infoExisting) && (nRefCount pinfo =? 0)))
          end in
        if fInsert then
          match ClearNew m slot with
          | None => None
          | Some m =>
              match mapInfo m !! nId with
              | None => None
              | Some pinfo =>
                  let m := set_info m nId (with_refs pinfo (nRefCount pinfo + 1)) in
                  Some (set_new m (nNew m) (<[slot := nId]> (vvNew m)))
              end
          end
        else if nRefCount pinfo =? 0 then Delete m nId else Some m
  end.

Definition Add_ (m : CAddrMan) (addr : CAddress) (src : CNetAddr) (nTimePenalty now rnd : Z) : option (CAddrMan * bool) :=
  if negb (IsRoutable (s_ip (a_srv addr))) then Some (m, false)
  else
    match Find m (s_ip (a_srv addr)) with
    | Some (nId, info) =>
        let '(m, go_on) := Add_known m nId info addr nTimePenalty now rnd in
        if negb go_on then Some (m, false)
        else match Add_place m nId src now with Some m => Some (m, false) | None => None end
    | None =>
        let '(m, nId) := Create m addr src in
        match mapInfo m !! nId with
        | None => None
        | Some i =>
            let a := i_addr i in
            let m := set_info m nId (with_addr i (mkAddress (a_srv a) (nServices a) (u32 (Z.max 0 (a_nTime a - nTimePenalty))) (nLastTry a))) in
            let m := set_new m (nNew m + 1) (vvNew m) in
            match Add_place m nId src now with Some m => Some (m, true) | None => None end
        end
    end.

(** Select_: [first] is GetRandInt(2), and each turn of the loop takes a bucket, a
    position and a number below 2^30. [None] when the random numbers run out. *)
Fixpoint Select_loop (pow : spec_float → Z → spec_float) (m : CAddrMan) (table : gmap (Z * Z) Z) (now : Z)
    (rnds : list (Z * Z * Z)) (fChanceFactor : spec_float) : option CAddrInfo :=
  match rnds with
  | [] => None
  | (nBucket, nPos, r) :: rnds =>
      match table !! (nBucket, nPos) with
      | None => Select_loop pow m table now rnds fChanceFactor
      | Some nId =>
          match mapInfo m !! nId with
          | None => None
          | Some info =>
              if SFltb (f64 r) (f64_mul (f64_mul fChanceFactor (GetChance pow info now)) (f64 (2 ^ 30)))
              then Some info
              else Select_loop pow m table now rnds (f64_mul fChanceFactor (f64_lit 12 10))
          end
      end
  end.

Definition Select_ (pow : spec_float → Z → spec_float) (m : CAddrMan) (now first : Z) (rnds : list (Z * Z * Z)) : option CAddress :=
  if size m =? 0 then Some CAddress_empty
  else
    let table := if (0 <? nTried m) && ((nNew m =? 0) || (first =? 0)) then vvTried m else vvNew m in
    match Select_loop pow m table now rnds (f64 1) with Some i => Some (i_addr i) | None => None end.

(** GetAddr_: the loop over [n], with GetRandInt(vRandom.size() - n) at each turn. *)
Fixpoint GetAddr_loop (m : CAddrMan) (now : Z) (nNodes : Z) (n : Z) (rnds : list Z) (vAddr : list CAddress)
  : option (CAddrMan * list CAddress) :=
  match rnds with
  | [] => Some (m, vAddr)
  | r :: rnds =>
      if negb (n <? size m) then Some (m, vAddr)
      else if nNodes <=? Z.of_nat (length vAddr) then Some (m, vAddr)
      else
        match SwapRandom m n (r + n) with
        | None => None
        | Some m =>
            match mapInfo m !! getz (vRandom m) n with
            | None => None
            | Some ai => GetAddr_loop m now nNodes (n + 1) rnds (if IsTerrible ai now then vAddr else vAddr ++ [i_addr ai])
            end
        end
  end.

Definition GetAddr_ (m : CAddrMan) (now : Z) (rnds : list Z) : option (CAddrMan * list CAddress) :=
  let nNodes := ADDRMAN_GETADDR_MAX_PCT * size m / 100 in
  let nNodes := if ADDRMAN_GETADDR_MAX <? nNodes then ADDRMAN_GETADDR_MAX else nNodes in
  GetAddr_loop m now nNodes 0 rnds [].

#[local] Opaque low64 GetTriedBucket GetBucketPosition GetNewBucket.

(** ** Counting in a map *)

Section Counting.

Context {K A : Type} `{Countable K}.

Definition count (f : A → bool) (m : gmap K A) : Z := Z.of_nat (base.size (filter (λ p, f p.2 = true) m)).

Lemma count_empty f : count f ∅ = 0.
Proof. unfold count. by rewrite map_filter_empty, map_size_empty. Qed.

Lemma count_insert f m k x : m !! k = None → count f (<[k := x]> m) = count f m + (if f x then 1 else 0).
Proof.
  intros E. unfold count. destruct (f x) eqn:F.
  - rewrite map_filter_insert_True by done. rewrite map_size_insert_None; [lia|].
    apply map_lookup_filter_None. left. done.
  - rewrite map_filter_insert_False by (cbn; by rewrite F). rewrite delete_id by done. lia.
Qed.

Lemma count_delete f m k x : m !! k = Some x → count f (delete k m) = count f m - (if f x then 1 else 0).
Proof.
  intros E. rewrite <- (insert_delete_id m k x E) at 2. rewrite count_insert by apply lookup_delete_eq. lia.
Qed.

Lemma count_update f m k x y : m !! k = Some x →
  count f (<[k := y]> m) = count f m - (if f x then 1 else 0) + (if f y then 1 else 0).
Proof.
  intros E. rewrite <- insert_delete_eq, count_insert by apply lookup_delete_eq. by rewrite (count_delete f m k x).
Qed.

Lemma count_nonneg f m : 0 <= count f m.
Proof. unfold count. lia. Qed.

Lemma count_pos f m k x : m !! k = Some x → f x = true → 0 < count f m.
Proof. intros E F. pose proof (count_delete f m k x E) as D. rewrite F in D. pose proof (count_nonneg f (delete k m)). lia. Qed.

Lemma count_zero f m : count f m = 0 → ∀ k x, m !! k = Some x → f x = false.
Proof. intros Z k x E. destruct (f x) eqn:F; [|done]. pose proof (count_pos f m k x E F). lia. Qed.

End Counting.

(** The slots of the new table that hold an entry. *)
Definition refs (v : gmap (Z * Z) Z) (nId : Z) : Z := count (Z.eqb nId) v.

(** ** The invariant *)

(** What Check_ checks of the tables, for a manager where the entries [P] may
    still be without a reference. *)
Record wf (P : gset Z) (m : CAddrMan) : Prop := {
  w_info nId i : mapInfo m !! nId = Some i →
    0 <= nId < nIdCount m ∧ mapAddr m !! info_ip i = Some nId
    ∧ 0 <= nRandomPos i ∧ vRandom m !! Z.to_nat (nRandomPos i) = Some nId
    ∧ nRefCount i = refs (vvNew m) nId
    ∧ (if fInTried i then nRefCount i = 0 ∧ vvTried m !! tried_slot m i = Some nId
       else nRefCount i <= ADDRMAN_NEW_BUCKETS_PER_ADDRESS ∧ (nRefCount i = 0 → nId ∈ P));
  w_addr ip nId : mapAddr m !! ip = Some nId → ∃ i, mapInfo m !! nId = Some i ∧ info_ip i = ip;
  w_random k nId : vRandom m !! k = Some nId → ∃ i, mapInfo m !! nId = Some i ∧ nRandomPos i = Z.of_nat k;
  w_new s nId : vvNew m !! s = Some nId →
    0 <= s.1 < ADDRMAN_NEW_BUCKET_COUNT ∧ ∃ i, mapInfo m !! nId = Some i ∧ fInTried i = false ∧ s = new_slot m i s.1;
  w_tried s nId : vvTried m !! s = Some nId → ∃ i, mapInfo m !! nId = Some i ∧ fInTried i = true ∧ s = tried_slot m i;
  w_count : 0 <= nIdCount m
}.

(** The counters, off by [dt] and [dn]. *)
Definition counted (m : CAddrMan) (dt dn : Z) : Prop :=
  nTried m = count fInTried (mapInfo m) + dt ∧ nNew m = count (λ i, negb (fInTried i)) (mapInfo m) + dn.

(** The tables are consistent. *)
Definition consistent (m : CAddrMan) : Prop := wf ∅ m ∧ counted m 0 0.

Lemma new_manager_consistent randHash : consistent (new_manager randHash).
Proof.
  split; [|split; cbn; by rewrite count_empty]. split; cbn; try (intros; by rewrite ?lookup_empty, ?lookup_nil in *); lia.
Qed.

(** Clearing a manager that is in use does not give a consistent one. *)
Lemma Clear_keeps_entries m randHash : consistent m → mapInfo m <> ∅ → ~ consistent (Clear m randHash).
Proof.
  intros [W _] N [W' _]. apply map_choose in N as (nId & i & E).
  destruct (w_info _ _ W' nId i E) as (B & _). cbn in B. lia.
Qed.

(** *** Weakening *)

Lemma wf_weaken P Q m : wf P m → P ⊆ Q → wf Q m.
Proof.
  intros [H1 H2 H3 H4 H5 H6] S. split; try done. intros nId i E. destruct (H1 nId i E) as (? & ? & ? & ? & ? & T).
  repeat (split; [done|]). destruct (fInTried i); [done|]. split; [by apply T|]. intros Z. apply S. by apply T.
Qed.

Lemma wf_drop P m nId : wf P m → (∀ i, mapInfo m !! nId = Some i → nRefCount i <> 0 ∨ fInTried i = true) → wf (P ∖ {[nId]}) m.
Proof.
  intros [H1 H2 H3 H4 H5 H6] D. split; try done. intros k i E. destruct (H1 k i E) as (? & ? & ? & ? & ? & T).
  repeat (split; [done|]). destruct (fInTried i) eqn:F; [done|]. split; [by apply T|]. intros Z.
  apply elem_of_difference. split; [by apply T|]. intros ->%elem_of_singleton.
  destruct (D i E) as [?|?]; congruence.
Qed.

(** *** One entry changed in place *)

(** The fields of an entry that the tables depend on. *)
Definition same_place (i j : CAddrInfo) : Prop :=
  a_srv (i_addr i) = a_srv (i_addr j) ∧ nRandomPos i = nRandomPos j ∧ nRefCount i = nRefCount j ∧ fInTried i = fInTried j.

Lemma new_slot_ext m m' i j b : nKey m = nKey m' → a_srv (i_addr i) = a_srv (i_addr j) → new_slot m i b = new_slot m' j b.
Proof. unfold new_slot. by intros -> ->. Qed.

Lemma tried_slot_ext m m' i j : nKey m = nKey m' → a_srv (i_addr i) = a_srv (i_addr j) → tried_slot m i = tried_slot m' j.
Proof. unfold tried_slot, tried_bucket. by intros -> ->. Qed.

Lemma info_ip_ext i j : a_srv (i_addr i) = a_srv (i_addr j) → info_ip i = info_ip j.
Proof. unfold info_ip. by intros ->. Qed.

(** Looks a key up in a map with one entry changed. *)
Ltac lookup_cases :=
  repeat match goal with
  | H : context [<[?k := _]> _ !! ?j] |- _ =>
      destruct (decide (k = j)) as [->|];
      [rewrite lookup_insert_eq in H; injection H as <-|rewrite lookup_insert_ne in H by done]
  end.

Lemma wf_update P m nId i j : wf P m → mapInfo m !! nId = Some i → same_place j i → wf P (set_info m nId j).
Proof.
  intros [H1 H2 H3 H4 H5 H6] E (Sa & Sp & Sr & St). split; cbn; try done.
  - intros k x Ex. lookup_cases; [|by apply H1]. destruct (H1 k i E) as (? & ? & ? & ? & ? & T).
    rewrite (info_ip_ext _ _ Sa), Sp, Sr, St, (tried_slot_ext (set_info m k j) m j i) by done. done.
  - intros ip k Ea. destruct (H2 ip k Ea) as (x & Ex & <-). destruct (decide (nId = k)) as [->|].
    + exists j. rewrite lookup_insert_eq. split; [done|]. rewrite E in Ex. injection Ex as <-. by apply info_ip_ext.
    + exists x. by rewrite lookup_insert_ne.
  - intros k id Er. destruct (H3 k id Er) as (x & Ex & Hx). destruct (decide (nId = id)) as [->|].
    + exists j. rewrite lookup_insert_eq. split; [done|]. rewrite E in Ex. injection Ex as <-. congruence.
    + exists x. by rewrite lookup_insert_ne.
  - intros s id En. destruct (H4 s id En) as (B & x & Ex & F & Es). split; [done|]. destruct (decide (nId = id)) as [->|].
    + exists j. rewrite lookup_insert_eq. rewrite E in Ex. injection Ex as <-. split; [done|]. split; [congruence|].
      rewrite Es at 1. by apply new_slot_ext.
    + exists x. by rewrite lookup_insert_ne.
  - intros s id En. destruct (H5 s id En) as (x & Ex & F & Es). destruct (decide (nId = id)) as [->|].
    + exists j. rewrite lookup_insert_eq. rewrite E in Ex. injection Ex as <-. split; [done|]. split; [congruence|].
      rewrite Es at 1. by apply tried_slot_ext.
    + exists x. by rewrite lookup_insert_ne.
Qed.

Lemma counted_update m nId i j dt dn : mapInfo m !! nId = Some i → fInTried j = fInTried i → counted m dt dn → counted (set_info m nId j) dt dn.
Proof. intros E F [C1 C2]. split; cbn; rewrite (count_update _ _ _ _ _ E), F; lia. Qed.

(** *** References *)

Lemma refs_insert v s x id : v !! s = None → refs (<[s := x]> v) id = refs v id + (if id =? x then 1 else 0).
Proof. apply (count_insert (Z.eqb id)). Qed.

Lemma refs_delete v s x id : v !! s = Some x → refs (delete s v) id = refs v id - (if id =? x then 1 else 0).
Proof. apply (count_delete (Z.eqb id)). Qed.

Lemma refs_zero v id s : refs v id = 0 → v !! s <> Some id.
Proof. intros Z E. pose proof (count_zero _ _ Z s id E) as F. by rewrite Z.eqb_refl in F. Qed.

Lemma refs_pos v id s : v !! s = Some id → 0 < refs v id.
Proof. intros E. by apply (count_pos _ _ s id); [|apply Z.eqb_refl]. Qed.

(** The entry of a number, in a map where the entry [id] has changed from [i]. *)
Ltac changed_entry E :=
  match goal with
  | Ex : mapInfo _ !! ?k = Some ?x |- ∃ _, <[?id := _]> _ !! ?k = Some _ ∧ _ =>
      destruct (decide (id = k)) as [->|];
      [rewrite E in Ex; injection Ex as <-; eexists; rewrite lookup_insert_eq; split; [reflexivity|]
      |exists x; by rewrite lookup_insert_ne]
  end.

(** A reference goes away. *)
Lemma wf_unref P m s id i n : wf P m → vvNew m !! s = Some id → mapInfo m !! id = Some i →
  wf ({[id]} ∪ P) (set_new (set_info m id (with_refs i (nRefCount i - 1))) n (delete s (vvNew m))).
Proof.
  intros [H1 H2 H3 H4 H5 H6] Es E. destruct (H4 s id Es) as (_ & x & Ex & F & _). rewrite E in Ex. injection Ex as <-.
  split; cbn; try done.
  - intros k x Ex. rewrite (refs_delete _ _ _ _ Es). lookup_cases.
    + destruct (H1 k i E) as (? & ? & ? & ? & R & T). cbn. rewrite F, Z.eqb_refl in *.
      repeat (split; [done|]). split; [lia|]. split; [lia|]. set_solver.
    + destruct (H1 k x Ex) as (? & ? & ? & ? & R & T). rewrite (proj2 (Z.eqb_neq k id)) by done.
      repeat (split; [done|]). split; [lia|]. destruct (fInTried x); [done|]. split; [by apply T|]. set_solver.
  - intros ip k Ea. destruct (H2 ip k Ea) as (x & Ex & <-). by changed_entry E.
  - intros k id' Er. destruct (H3 k id' Er) as (x & Ex & Hx). by changed_entry E.
  - intros s' id' En. apply lookup_delete_Some in En as [_ En]. destruct (H4 s' id' En) as (B & x & Ex & Fx & Ex').
    split; [done|]. by changed_entry E.
  - intros s' id' En. destruct (H5 s' id' En) as (x & Ex & Fx & Ex'). changed_entry E; congruence.
Qed.

(** A reference is added. *)
Lemma wf_ref P m id i b n : wf P m → mapInfo m !! id = Some i → fInTried i = false →
  nRefCount i < ADDRMAN_NEW_BUCKETS_PER_ADDRESS → 0 <= b < ADDRMAN_NEW_BUCKET_COUNT → vvNew m !! new_slot m i b = None →
  wf (P ∖ {[id]}) (set_new (set_info m id (with_refs i (nRefCount i + 1))) n (<[new_slot m i b := id]> (vvNew m))).
Proof.
  intros [H1 H2 H3 H4 H5 H6] E F L B Es. split; cbn; try done.
  - intros k x Ex. rewrite (refs_insert _ _ _ _ Es). lookup_cases.
    + destruct (H1 k i E) as (? & ? & ? & ? & R & T). cbn. rewrite F, Z.eqb_refl in *.
      repeat (split; [done|]). split; [lia|]. split; [lia|]. pose proof (count_nonneg (Z.eqb k) (vvNew m)). unfold refs in R. lia.
    + destruct (H1 k x Ex) as (? & ? & ? & ? & R & T). rewrite (proj2 (Z.eqb_neq k id)) by done.
      repeat (split; [done|]). split; [lia|]. destruct (fInTried x); [done|]. split; [by apply T|]. set_solver.
  - intros ip k Ea. destruct (H2 ip k Ea) as (x & Ex & <-). by changed_entry E.
  - intros k id' Er. destruct (H3 k id' Er) as (x & Ex & Hx). by changed_entry E.
  - intros s' id' En. destruct (decide (new_slot m i b = s')) as [<-|N].
    + rewrite lookup_insert_eq in En. injection En as <-. split; [done|]. eexists. rewrite lookup_insert_eq. split; [done|]. by split.
    + rewrite lookup_insert_ne in En by done. destruct (H4 s' id' En) as (B' & x & Ex & Fx & Ex').
      split; [done|]. by changed_entry E.
  - intros s' id' En. destruct (H5 s' id' En) as (x & Ex & Fx & Ex'). changed_entry E; congruence.
Qed.

(** An entry leaves the tried table. *)
Lemma wf_untry P m s id i n : wf P m → vvTried m !! s = Some id → mapInfo m !! id = Some i →
  wf ({[id]} ∪ P) (set_tried (set_info m id (with_tried i false)) n (delete s (vvTried m))).
Proof.
  intros [H1 H2 H3 H4 H5 H6] Es E. destruct (H5 s id Es) as (x & Ex & F & Hs). rewrite E in Ex. injection Ex as <-.
  split; cbn; try done.
  - intros k x Ex. lookup_cases.
    + destruct (H1 k i E) as (? & ? & ? & ? & R & T). cbn. rewrite F in T. destruct T as [T0 T].
      repeat (split; [done|]). rewrite T0. split; [unfold ADDRMAN_NEW_BUCKETS_PER_ADDRESS; lia|]. set_solver.
    + destruct (H1 k x Ex) as (? & ? & ? & ? & R & T). repeat (split; [done|]).
      destruct (fInTried x) eqn:Fx.
      * split; [by apply T|]. rewrite lookup_delete_ne; [by apply T|]. intros Eq.
        assert (vvTried m !! s = Some k) by (rewrite Eq; apply T). congruence.
      * split; [by apply T|]. set_solver.
  - intros ip k Ea. destruct (H2 ip k Ea) as (x & Ex & <-). by changed_entry E.
  - intros k id' Er. destruct (H3 k id' Er) as (x & Ex & Hx). by changed_entry E.
  - intros s' id' En. destruct (H4 s' id' En) as (B' & x & Ex & Fx & Ex').
    split; [done|]. changed_entry E; congruence.
  - intros s' id' En. apply lookup_delete_Some in En as [N En]. destruct (H5 s' id' En) as (x & Ex & Fx & Ex').
    changed_entry E; congruence.
Qed.

(** An entry without references enters the tried table. *)
Lemma wf_try P m id i n : wf P m → mapInfo m !! id = Some i → fInTried i = false → nRefCount i = 0 →
  vvTried m !! tried_slot m i = None →
  wf (P ∖ {[id]}) (set_info (set_tried m n (<[tried_slot m i := id]> (vvTried m))) id (with_tried i true)).
Proof.
  intros [H1 H2 H3 H4 H5 H6] E F Z Es. split; cbn; try done.
  - intros k x Ex. lookup_cases.
    + destruct (H1 k i E) as (? & ? & ? & ? & R & T). cbn. repeat (split; [done|]).
      change (<[tried_slot m i := k]> (vvTried m) !! tried_slot m i = Some k). by rewrite lookup_insert_eq.
    + destruct (H1 k x Ex) as (? & ? & ? & ? & R & T). repeat (split; [done|]).
      destruct (fInTried x) eqn:Fx.
      * split; [by apply T|]. change (<[tried_slot m i := id]> (vvTried m) !! tried_slot m x = Some k).
        rewrite lookup_insert_ne; [by apply T|]. intros Eq. destruct T as [_ T]. rewrite Eq in Es. congruence.
      * split; [by apply T|]. set_solver.
  - intros ip k Ea. destruct (H2 ip k Ea) as (x & Ex & <-). by changed_entry E.
  - intros k id' Er. destruct (H3 k id' Er) as (x & Ex & Hx). by changed_entry E.
  - intros s' id' En. destruct (H4 s' id' En) as (B' & x & Ex & Fx & Ex').
    split; [done|]. destruct (decide (id = id')) as [->|].
    + exfalso. rewrite E in Ex. injection Ex as <-. destruct (H1 id' i E) as (_ & _ & _ & _ & R & _).
      rewrite Z in R. symmetry in R. by apply (refs_zero _ _ s' R).
    + exists x. by rewrite lookup_insert_ne.
  - intros s' id' En. destruct (decide (tried_slot m i = s')) as [<-|N].
    + rewrite lookup_insert_eq in En. injection En as <-. eexists. rewrite lookup_insert_eq. split; [done|]. by split.
    + rewrite lookup_insert_ne in En by done. destruct (H5 s' id' En) as (x & Ex & Fx & Ex').
      changed_entry E; congruence.
Qed.

(** *** The random order *)

Definition no_pos (i : CAddrInfo) : CAddrInfo := with_pos i 0.

(** The same tables, up to the random order. *)
Definition reordered (m m' : CAddrMan) : Prop :=
  nKey m' = nKey m ∧ nIdCount m' = nIdCount m ∧ mapAddr m' = mapAddr m ∧ nTried m' = nTried m ∧ vvTried m' = vvTried m
  ∧ nNew m' = nNew m ∧ vvNew m' = vvNew m ∧ no_pos <$> mapInfo m' = no_pos <$> mapInfo m
  ∧ length (vRandom m') = length (vRandom m).

Lemma count_fmap {K A B} `{Countable K} (f : B → bool) (g : A → B) (m : gmap K A) : count f (g <$> m) = count (λ x, f (g x)) m.
Proof. unfold count. rewrite map_filter_fmap, map_size_fmap. done. Qed.

Lemma reordered_count f m m' : (∀ i, f (no_pos i) = f i) → reordered m m' → count f (mapInfo m') = count f (mapInfo m).
Proof.
  intros F R. assert (G : ∀ mp : gmap Z CAddrInfo, count f mp = count f (no_pos <$> mp)).
  { intros mp. rewrite count_fmap. unfold count. do 2 f_equal. apply map_filter_ext. intros k x _. cbn. by rewrite F. }
  destruct R as (_ & _ & _ & _ & _ & _ & _ & R & _). by rewrite (G (mapInfo m')), (G (mapInfo m)), R.
Qed.

Lemma reordered_entry m m' nId i : reordered m m' → mapInfo m !! nId = Some i →
  ∃ i', mapInfo m' !! nId = Some i' ∧ no_pos i' = no_pos i.
Proof.
  intros (_ & _ & _ & _ & _ & _ & _ & R & _) E. apply (f_equal (.!! nId)) in R. rewrite !lookup_fmap, E in R. cbn in R.
  destruct (mapInfo m' !! nId) as [i'|]; [|done]. injection R as R. exists i'. split; [done|]. unfold no_pos, with_pos. congruence.
Qed.

Lemma reordered_refl m : reordered m m.
Proof. by repeat split. Qed.

Lemma wf_random_pos P m nId i : wf P m → mapInfo m !! nId = Some i → 0 <= nRandomPos i < size m.
Proof.
  intros W E. destruct (w_info _ _ W _ _ E) as (_ & _ & H0 & L & _). apply lookup_lt_Some in L. unfold size. lia.
Qed.

Lemma getz_lookup (l : list Z) (i : Z) : 0 <= i < Z.of_nat (length l) → l !! Z.to_nat i = Some (getz l i).
Proof.
  intros H. unfold getz. destruct (lookup_lt_is_Some_2 l (Z.to_nat i)) as [x E]; [lia|].
  by rewrite (nth_lookup_Some _ _ _ _ E).
Qed.

Lemma SwapRandom_spec P m p1 p2 : wf P m → 0 <= p1 < size m → 0 <= p2 < size m →
  ∃ m', SwapRandom m p1 p2 = Some m' ∧ wf P m' ∧ reordered m m'
        ∧ vRandom m' !! Z.to_nat p2 = vRandom m !! Z.to_nat p1.
Proof.
  intros W H1 H2. unfold SwapRandom. destruct (Z.eqb_spec p1 p2) as [->|N].
  { exists m. split; [done|]. split; [done|]. split; [apply reordered_refl|done]. }
  rewrite (proj2 (Z.ltb_lt _ _)), (proj2 (Z.ltb_lt p2 _)) by lia. cbn [andb negb].
  pose proof (getz_lookup (vRandom m) p1 H1) as L1. pose proof (getz_lookup (vRandom m) p2 H2) as L2.
  set (id1 := getz (vRandom m) p1) in *. set (id2 := getz (vRandom m) p2) in *.
  destruct (w_random _ _ W _ _ L1) as (i1 & E1 & P1). destruct (w_random _ _ W _ _ L2) as (i2 & E2 & P2).
  rewrite E1, E2. assert (Nid : id1 <> id2).
  { intros Eq. rewrite Eq in E1. rewrite E1 in E2. injection E2 as <-. lia. }
  cbn [mapInfo set_info]. rewrite lookup_insert_ne by done. rewrite E2. cbn [default from_option id].
  eexists. split; [reflexivity|]. cbn [vRandom set_random set_info].
  set (mi := <[id2 := with_pos i2 p1]> (<[id1 := with_pos i1 p2]> (mapInfo m))).
  assert (Mi : ∀ k, mi !! k = if decide (k = id2) then Some (with_pos i2 p1) else
                              if decide (k = id1) then Some (with_pos i1 p2) else mapInfo m !! k).
  { intros k. unfold mi. destruct (decide (k = id2)) as [->|]; [by rewrite lookup_insert_eq|].
    rewrite lookup_insert_ne by done. destruct (decide (k = id1)) as [->|]; [by rewrite lookup_insert_eq|].
    by rewrite lookup_insert_ne. }
  set (vr := setz (setz (vRandom m) p1 id2) p2 id1).
  unfold size in *.
  assert (Vr : ∀ k, vr !! k = if decide (k = Z.to_nat p2) then Some id1 else
                              if decide (k = Z.to_nat p1) then Some id2 else vRandom m !! k).
  { intros k. unfold vr, setz. destruct (decide (k = Z.to_nat p2)) as [->|].
    { rewrite list_lookup_insert_eq; [done|]. rewrite length_insert. lia. }
    rewrite list_lookup_insert_ne by done. destruct (decide (k = Z.to_nat p1)) as [->|].
    { rewrite list_lookup_insert_eq; [done|]. lia. }
    by rewrite list_lookup_insert_ne. }
  assert (Rn : reordered m (set_random (set_info (set_info m id1 (with_pos i1 p2)) id2 (with_pos i2 p1)) vr)).
  { repeat split; cbn; [|unfold vr; by rewrite !length_setz]. apply map_eq. intros k. rewrite !lookup_fmap. fold mi. rewrite Mi.
    destruct (decide (k = id2)) as [->|]; [by rewrite E2|]. by destruct (decide (k = id1)) as [->|]; [rewrite E1|]. }
  split; [|split; [done|rewrite Vr; by rewrite decide_True, L1]].
  assert (Keep : ∀ k i, mapInfo m !! k = Some i → ∃ i', mi !! k = Some i' ∧ no_pos i' = no_pos i).
  { intros k i E. by apply (reordered_entry m _ k i Rn). }
  destruct W as [W1 W2 W3 W4 W5 W6]. split; cbn; fold mi; try done.
  - intros k x Ex. rewrite Mi in Ex.
    assert (G : ∃ y, mapInfo m !! k = Some y ∧ no_pos x = no_pos y
                     ∧ 0 <= nRandomPos x ∧ vr !! Z.to_nat (nRandomPos x) = Some k).
    { destruct (decide (k = id2)) as [->|].
      - injection Ex as <-. exists i2. split; [done|]. split; [done|]. cbn. split; [lia|].
        rewrite Vr. rewrite decide_False by lia. by rewrite decide_True.
      - destruct (decide (k = id1)) as [->|].
        + injection Ex as <-. exists i1. split; [done|]. split; [done|]. cbn. split; [lia|].
          rewrite Vr. by rewrite decide_True.
        + exists x. split; [done|]. split; [done|]. destruct (W1 k x Ex) as (_ & _ & R0 & Rl & _). split; [done|].
          rewrite Vr. rewrite !decide_False; [done| |]; intros Eq; rewrite Eq in Rl; congruence. }
    destruct G as (y & Ey & Eq & R0 & Rl). destruct (W1 k y Ey) as (? & ? & _ & _ & ? & T).
    assert (F : info_ip x = info_ip y ∧ nRefCount x = nRefCount y ∧ fInTried x = fInTried y
                ∧ a_srv (i_addr x) = a_srv (i_addr y)).
    { unfold no_pos, with_pos in Eq. injection Eq as Ea _ _ _ -> ->. unfold info_ip. by rewrite Ea. }
    destruct F as (-> & -> & -> & Sa). rewrite (tried_slot_ext _ m x y) by done. done.
  - intros ip k Ea. destruct (W2 ip k Ea) as (x & Ex & <-). destruct (Keep k x Ex) as (x' & Ex' & Eq). exists x'.
    split; [done|]. unfold no_pos, with_pos in Eq. injection Eq as Ea' _ _ _ _ _. unfold info_ip. by rewrite Ea'.
  - intros k id Er. rewrite Vr in Er. destruct (decide (k = Z.to_nat p2)) as [->|].
    { injection Er as <-. exists (with_pos i1 p2). rewrite Mi, decide_False, decide_True by done. split; [done|]. cbn. lia. }
    destruct (decide (k = Z.to_nat p1)) as [->|].
    { injection Er as <-. exists (with_pos i2 p1). rewrite Mi, decide_True by done. split; [done|]. cbn. lia. }
    destruct (W3 k id Er) as (x & Ex & Px). exists x. split; [|done]. rewrite Mi.
    rewrite !decide_False; [done| |]; intros ->; [rewrite E1 in Ex|rewrite E2 in Ex]; injection Ex as <-; lia.
  - intros s id En. destruct (W4 s id En) as (B & x & Ex & F & Es). split; [done|]. destruct (Keep id x Ex) as (x' & Ex' & Eq).
    exists x'. unfold no_pos, with_pos in Eq. injection Eq as Ea' _ _ _ _ Ef. split; [done|]. split; [congruence|].
    rewrite Es at 1. apply new_slot_ext; [done|]. by rewrite Ea'.
  - intros s id En. destruct (W5 s id En) as (x & Ex & F & Es). destruct (Keep id x Ex) as (x' & Ex' & Eq).
    exists x'. unfold no_pos, with_pos in Eq. injection Eq as Ea' _ _ _ _ Ef. split; [done|]. split; [congruence|].
    rewrite Es at 1. apply tried_slot_ext; [done|]. by rewrite Ea'.
Qed.

(** *** The size of the tables *)

Lemma list_to_set_size {A} `{Countable A} (l : list A) : (base.size (list_to_set l : gset A) <= length l)%nat.
Proof.
  induction l as [|x l IH]; cbn [list_to_set length]; [by rewrite size_empty|].
  rewrite size_union_alt. pose proof (subseteq_size (list_to_set l ∖ {[x]} : gset A) (list_to_set l) ltac:(set_solver)).
  rewrite size_singleton. lia.
Qed.

(** A map on slots within [n] buckets of 64. *)
Lemma slots_bound (v : gmap (Z * Z) Z) n : 0 <= n →
  (∀ s id, v !! s = Some id → 0 <= s.1 < n ∧ 0 <= s.2 < ADDRMAN_BUCKET_SIZE) → Z.of_nat (base.size v) <= n * ADDRMAN_BUCKET_SIZE.
Proof.
  intros Hn B. rewrite <- (size_dom (D := gset (Z * Z))).
  assert (S : base.dom v ⊆ (list_to_set (list_prod (seqZ 0 n) (seqZ 0 ADDRMAN_BUCKET_SIZE)) : gset (Z * Z))).
  { intros [b p] E. apply elem_of_dom in E as [id E]. destruct (B _ _ E) as [B1 B2]. cbn in B1, B2.
    apply elem_of_list_to_set, list_elem_of_In, in_prod; apply list_elem_of_In, elem_of_seqZ; lia. }
  apply subseteq_size in S. pose proof (list_to_set_size (list_prod (seqZ 0 n) (seqZ 0 ADDRMAN_BUCKET_SIZE))) as L.
  rewrite length_prod, !length_seqZ in L. unfold ADDRMAN_BUCKET_SIZE in *. lia.
Qed.

#[local] Transparent GetTriedBucket GetBucketPosition GetNewBucket.

Lemma GetTriedBucket_range k a : 0 <= GetTriedBucket k a < ADDRMAN_TRIED_BUCKET_COUNT.
Proof. apply Z.mod_pos_bound. unfold ADDRMAN_TRIED_BUCKET_COUNT. lia. Qed.

Lemma GetNewBucket_range k a s : 0 <= GetNewBucket k a s < ADDRMAN_NEW_BUCKET_COUNT.
Proof. apply Z.mod_pos_bound. unfold ADDRMAN_NEW_BUCKET_COUNT. lia. Qed.

Lemma GetBucketPosition_range k a b n : 0 <= GetBucketPosition k a b n < ADDRMAN_BUCKET_SIZE.
Proof. apply Z.mod_pos_bound. unfold ADDRMAN_BUCKET_SIZE. lia. Qed.

#[local] Opaque GetTriedBucket GetBucketPosition GetNewBucket.

Lemma wf_random_NoDup P m : wf P m → NoDup (vRandom m).
Proof.
  intros W. apply NoDup_alt. intros j k id Ej Ek.
  destruct (w_random _ _ W _ _ Ej) as (i1 & E1 & P1). destruct (w_random _ _ W _ _ Ek) as (i2 & E2 & P2).
  rewrite E1 in E2. injection E2 as <-. lia.
Qed.

(** Every entry has a slot of its own, or is one of [P]. *)
Lemma wf_size P m : wf P m → size m <= 81920 + Z.of_nat (base.size P).
Proof.
  intros W. unfold size.
  set (l1 := (map_to_list (vvNew m)).*2). set (l2 := (map_to_list (vvTried m)).*2).
  assert (S : list_to_set (vRandom m) ⊆ (list_to_set (l1 ++ l2) ∪ P : gset Z)).
  { intros id E. apply elem_of_list_to_set, list_elem_of_lookup in E as [k E].
    destruct (w_random _ _ W _ _ E) as (i & Ei & _). destruct (w_info _ _ W _ _ Ei) as (_ & _ & _ & _ & R & T).
    destruct (fInTried i).
    - apply elem_of_union_l, elem_of_list_to_set, elem_of_app. right. apply list_elem_of_fmap.
      exists (tried_slot m i, id). split; [done|]. apply elem_of_map_to_list. apply T.
    - destruct (Z.eq_dec (nRefCount i) 0) as [Z|N]; [apply elem_of_union_r; by apply T|].
      assert (X : ∃ s, vvNew m !! s = Some id).
      { unfold refs, count in R. destruct (decide (filter (λ p, Z.eqb id p.2 = true) (vvNew m) = ∅)) as [F|F].
        - rewrite F, map_size_empty in R. lia.
        - apply map_choose in F as (s & x & F). apply map_lookup_filter_Some in F as [F1 F2]. cbn in F2.
          apply Z.eqb_eq in F2 as <-. by exists s. }
      destruct X as [s X]. apply elem_of_union_l, elem_of_list_to_set, elem_of_app. left. apply list_elem_of_fmap.
      exists (s, id). split; [done|]. by apply elem_of_map_to_list. }
  apply subseteq_size in S. rewrite size_list_to_set in S by (by apply (wf_random_NoDup P)).
  rewrite size_union_alt in S.
  pose proof (subseteq_size (P ∖ list_to_set (l1 ++ l2)) P ltac:(set_solver)) as S1.
  pose proof (list_to_set_size (l1 ++ l2)) as L.
  assert (Ll : length (l1 ++ l2) = (base.size (vvNew m) + base.size (vvTried m))%nat)
    by (unfold l1, l2; by rewrite length_app, !length_fmap, !length_map_to_list).
  assert (B1 : Z.of_nat (base.size (vvNew m)) <= 1024 * 64).
  { apply (slots_bound _ ADDRMAN_NEW_BUCKET_COUNT); [done|]. intros s id E. destruct (w_new _ _ W _ _ E) as (B & i & _ & _ & Es).
    split; [done|]. rewrite Es. cbn. apply GetBucketPosition_range. }
  assert (B2 : Z.of_nat (base.size (vvTried m)) <= 256 * 64).
  { apply (slots_bound _ ADDRMAN_TRIED_BUCKET_COUNT); [done|]. intros s id E. destruct (w_tried _ _ W _ _ E) as (i & _ & _ & Es).
    rewrite Es. split; [apply GetTriedBucket_range|apply GetBucketPosition_range]. }
  lia.
Qed.

(** *** The identifiers *)

(** Only Create counts identifiers. *)
Lemma SwapRandom_count m p1 p2 m' : SwapRandom m p1 p2 = Some m' → nIdCount m' = nIdCount m.
Proof. unfold SwapRandom. repeat case_match; intros [= <-]; done. Qed.

Lemma Delete_count m id m' : Delete m id = Some m' → nIdCount m' = nIdCount m.
Proof.
  unfold Delete. repeat case_match; try done. intros [= <-]. cbn. by eapply SwapRandom_count.
Qed.

Lemma ClearNew_count m slot m' : ClearNew m slot = Some m' → nIdCount m' = nIdCount m.
Proof.
  unfold ClearNew. repeat case_match; try done; [|by intros [= <-]..]. by intros ->%Delete_count.
Qed.

Lemma evict_count m slot m' : evict m slot = Some m' → nIdCount m' = nIdCount m.
Proof.
  unfold evict. repeat case_match; try done; [|by intros [= <-]]. intros [= <-]. cbn.
  match goal with H : ClearNew _ _ = Some _ |- _ => apply ClearNew_count in H end. done.
Qed.

Lemma MakeTried_count m id m' : MakeTried m id = Some m' → nIdCount m' = nIdCount m.
Proof.
  unfold MakeTried. generalize (seqZ 0 ADDRMAN_NEW_BUCKET_COUNT). intros buckets.
  assert (nIdCount (foldl (leave_bucket id) m buckets) = nIdCount m) as <-.
  - induction buckets as [|b l IH] using rev_ind; [done|]. rewrite foldl_snoc, <- IH. unfold leave_bucket.
    by repeat case_match.
  - unfold join_tried, enter_tried. repeat case_match; try done. intros [= <-]. cbn.
    match goal with H : evict _ _ = Some _ |- _ => apply evict_count in H end. done.
Qed.

Lemma Good_count m addr t rnd m' : Good_ m addr t rnd = Some m' → nIdCount m' = nIdCount m.
Proof.
  unfold Good_. destruct (Find m (s_ip addr)) as [[id i]|]; [|by intros [= <-]].
  destruct (negb _); [by intros [= <-]|]. destruct (fInTried _); [by intros [= <-]|].
  destruct (find_bucket _ _ _ _); [|by intros [= <-]]. by intros ->%MakeTried_count.
Qed.

Lemma Add_place_count m id src now m' : Add_place m id src now = Some m' → nIdCount m' = nIdCount m.
Proof.
  unfold Add_place. destruct (mapInfo m !! id) as [i|]; [|done]. case_bool_decide; [by intros [= <-]|].
  set (slot := new_slot m i _).
  set (r := match vvNew m !! slot with None => _ | Some e => _ end).
  assert (nIdCount r.1 = nIdCount m) as <-.
  { unfold r. destruct (vvNew m !! slot) as [e|]; [|done]. by destruct (mapInfo m !! e). }
  destruct r as [m1 ins]. cbn [fst].
  destruct ins.
  - destruct (ClearNew m1 _) as [m2|] eqn:E; [|done]. apply ClearNew_count in E as <-. destruct (mapInfo m2 !! id); [by intros [= <-]|done].
  - case_match; [apply Delete_count|by intros [= <-]].
Qed.

(** An addition counts at most one. *)
Lemma Add_count m addr src pen now rnd m' r :
  Add_ m addr src pen now rnd = Some (m', r) → nIdCount m' = nIdCount m ∨ nIdCount m' = s32 (nIdCount m + 1).
Proof.
  unfold Add_. destruct (negb _); [intros [= <- <-]; by left|]. destruct (Find m _) as [[id i]|].
  - unfold Add_known. set (t := if _ && _ then _ else _). clearbody t. left.
    repeat case_match; intros; simplify_eq; try done;
      match goal with H : Add_place _ _ _ _ = Some _ |- _ => apply Add_place_count in H end; done.
  - cbn [Create]. repeat case_match; try done. intros [= <- <-]. right.
    match goal with H : Add_place _ _ _ _ = Some _ |- _ => apply Add_place_count in H end. done.
Qed.

Lemma GetAddr_count rnds : ∀ m now nNodes n v m' v',
  GetAddr_loop m now nNodes n rnds v = Some (m', v') → nIdCount m' = nIdCount m.
Proof.
  induction rnds as [|r rnds IH]; intros m now nNodes n v m' v'; cbn [GetAddr_loop]; [by intros [= <- <-]|].
  destruct (negb _); [by intros [= <- <-]|]. destruct (_ <=? _); [by intros [= <- <-]|].
  destruct (SwapRandom m n (r + n)) as [m1|] eqn:E; [|done]. destruct (mapInfo m1 !! _); [|done].
  intros ->%IH. by eapply SwapRandom_count.
Qed.

(** *** Deleting and creating *)

(** What an operation on other entries keeps of the entry [i]. *)
Definition kept (i : CAddrInfo) (m : CAddrMan) (nId : Z) : Prop := ∃ i', mapInfo m !! nId = Some i' ∧ no_pos i' = no_pos i.

Lemma Delete_spec P m id i dt dn : wf P m → (base.size P <= 10)%nat → mapInfo m !! id = Some i →
  fInTried i = false → nRefCount i = 0 → counted m dt dn →
  ∃ m', Delete m id = Some m' ∧ wf (P ∖ {[id]}) m' ∧ counted m' dt dn ∧ nKey m' = nKey m ∧ nIdCount m' = nIdCount m
        ∧ vvTried m' = vvTried m ∧ vvNew m' = vvNew m ∧ ∀ k j, k <> id → mapInfo m !! k = Some j → kept j m' k.
Proof.
  intros W SP E F R C. unfold Delete. rewrite E, F, R. cbn [Z.eqb negb].
  pose proof (wf_size P m W) as Sz. pose proof (wf_random_pos P m id i W E) as Hp.
  unfold u32, wrap. rewrite !Z.mod_small by lia.
  destruct (SwapRandom_spec P m (nRandomPos i) (size m - 1) W Hp ltac:(lia)) as (m1 & -> & W1 & Rn & L).
  destruct (w_info _ _ W _ _ E) as (_ & _ & _ & L0 & R0 & _). rewrite L0 in L.
  destruct (reordered_entry m m1 id i Rn E) as (i1 & E1 & N1).
  assert (Fi : fInTried i1 = false ∧ nRefCount i1 = 0 ∧ info_ip i1 = info_ip i).
  { unfold no_pos, with_pos in N1. injection N1 as Ea _ _ _ -> ->. unfold info_ip. by rewrite Ea. }
  destruct Fi as (F1 & R1 & Ip).
  pose proof (reordered_count fInTried m m1 ltac:(done) Rn) as C1.
  pose proof (reordered_count (λ i, negb (fInTried i)) m m1 ltac:(done) Rn) as C2.
  destruct Rn as (Rk & Ri & Ra & Rt & Rvt & Rnn & Rvn & Rm & Rl).
  unfold size in *. set (len := length (vRandom m)) in *.
  assert (Vr : vRandom m1 = removelast (vRandom m1) ++ [id]).
  { assert (N : vRandom m1 ≠ []) by (intros Eq; rewrite Eq in Rl; cbn in Rl; lia).
    rewrite (app_removelast_last id N) at 1. f_equal. f_equal.
    destruct (exists_last N) as (l & x & Ex). rewrite Ex in L |- *. rewrite List.last_last.
    rewrite Ex, length_app in Rl. cbn in Rl. rewrite lookup_app_r in L by lia.
    replace (Z.to_nat (Z.of_nat len - 1) - length l)%nat with 0%nat in L by lia. cbn in L. by injection L. }
  assert (Ll : length (removelast (vRandom m1)) = (len - 1)%nat).
  { rewrite Vr, length_app in Rl. cbn in Rl. lia. }
  eexists. split; [done|]. split; [|split; [|repeat split; try done]].
  - rewrite <- Ip. destruct W1 as [V1 V2 V3 V4 V5 V6]. split; cbn; try done.
    + intros k x Ex. apply lookup_delete_Some in Ex as [Nk Ex]. destruct (V1 k x Ex) as (? & A & P0 & Pl & Rx & T).
      split; [done|]. split; [|split; [done|split; [|split; [done|]]]].
      * rewrite lookup_delete_ne; [done|]. intros Eq. destruct (V1 id i1 E1) as (_ & A1 & _). rewrite Eq in A1. congruence.
      * rewrite Vr in Pl. destruct (Nat.lt_ge_cases (Z.to_nat (nRandomPos x)) (len - 1)) as [Lt|Ge].
        -- by rewrite lookup_app_l in Pl by lia.
        -- rewrite lookup_app_r in Pl by lia. apply list_lookup_singleton_Some in Pl as [_ ?]. congruence.
      * change (if fInTried x then nRefCount x = 0 ∧ vvTried m1 !! tried_slot m1 x = Some k
                else nRefCount x <= ADDRMAN_NEW_BUCKETS_PER_ADDRESS ∧ (nRefCount x = 0 → k ∈ P ∖ {[id]})).
        destruct (fInTried x); [done|]. split; [by apply T|]. intros Z. apply T in Z. set_solver.
    + intros ip k Ea. apply lookup_delete_Some in Ea as [Na Ea]. destruct (V2 ip k Ea) as (x & Ex & Ei). exists x.
      split; [|done]. rewrite lookup_delete_ne; [done|]. intros <-. rewrite E1 in Ex. injection Ex as <-. done.
    + intros k id' Er. destruct (Nat.lt_ge_cases k (len - 1)) as [Lt|Ge];
        [|rewrite lookup_ge_None_2 in Er by lia; done].
      assert (Er' : vRandom m1 !! k = Some id') by (rewrite Vr, lookup_app_l by lia; done).
      destruct (V3 k id' Er') as (x & Ex & Px). exists x. split; [|done]. rewrite lookup_delete_ne; [done|]. intros <-.
      assert (El : vRandom m1 !! (len - 1)%nat = Some id)
        by (rewrite Vr, lookup_app_r by lia; rewrite Ll, Nat.sub_diag; done).
      destruct (V3 _ _ El) as (y & Ey & Py). rewrite E1 in Ex, Ey. injection Ex as <-. injection Ey as <-. lia.
    + intros s id' En. destruct (V4 s id' En) as (B & x & Ex & Fx & Es). split; [done|]. exists x. split; [|done].
      rewrite lookup_delete_ne; [done|]. intros <-. destruct (V1 id i1 E1) as (_ & _ & _ & _ & Rx & _).
      rewrite R1 in Rx. symmetry in Rx. by apply (refs_zero _ _ s Rx).
    + intros s id' En. destruct (V5 s id' En) as (x & Ex & Fx & Es). exists x. split; [|done].
      rewrite lookup_delete_ne; [done|]. intros <-. congruence.
  - destruct C as [Ct Cn]. split; cbn.
    + rewrite (count_delete _ _ _ _ E1), F1, C1. lia.
    + rewrite (count_delete _ _ _ _ E1), F1, C2. cbn. lia.
  - intros k j Nk Ek. unfold kept. cbn. rewrite lookup_delete_ne by done.
    apply (f_equal (.!! k)) in Rm. rewrite !lookup_fmap, Ek in Rm. cbn in Rm.
    destruct (mapInfo m1 !! k) as [j'|]; [|done]. injection Rm as Rm. exists j'. split; [done|].
    unfold no_pos, with_pos. congruence.
Qed.

Lemma refs_none v id : (∀ s, v !! s <> Some id) → refs v id = 0.
Proof.
  intros N. unfold refs, count. replace (filter (λ p, Z.eqb id p.2 = true) v) with (∅ : gmap (Z * Z) Z); [done|].
  symmetry. apply map_empty. intros s. apply map_lookup_filter_None. right. intros x E F. cbn in F.
  apply Z.eqb_eq in F as <-. by apply (N s).
Qed.

Lemma Find_spec P m ip : wf P m →
  match Find m ip with
  | Some (nId, i) => mapInfo m !! nId = Some i ∧ info_ip i = ip
  | None => mapAddr m !! ip = None
  end.
Proof.
  intros W. unfold Find. destruct (mapAddr m !! ip) as [id|] eqn:E; [|done].
  destruct (w_addr _ _ W _ _ E) as (i & Ei & Ip). by rewrite Ei.
Qed.

Lemma Create_spec P m addr src dt dn : wf P m → nIdCount m + 1 < 2 ^ 31 →
  mapAddr m !! s_ip (a_srv addr) = None → counted m dt dn →
  let '(m', nId) := Create m addr src in
  nId = nIdCount m ∧ wf ({[nId]} ∪ P) m' ∧ counted m' dt (dn - 1) ∧ nKey m' = nKey m
  ∧ vvTried m' = vvTried m ∧ vvNew m' = vvNew m
  ∧ mapInfo m' !! nId = Some (with_pos (new_info addr src) (size m)).
Proof.
  intros W Room Na C. unfold Create. set (id := nIdCount m). set (i := with_pos _ _).
  destruct W as [W1 W2 W3 W4 W5 W6].
  rewrite swrap_small by (done || (unfold in_sw; change (32 - 1) with 31; lia)).
  assert (Ni : mapInfo m !! id = None).
  { destruct (mapInfo m !! id) as [x|] eqn:E; [|done]. destruct (W1 _ _ E) as (B & _). unfold id in B. lia. }
  assert (Nn : refs (vvNew m) id = 0).
  { apply refs_none. intros s E. destruct (W4 _ _ E) as (_ & x & Ex & _). congruence. }
  split; [done|]. split; [|split; [|repeat (split; [done|]); cbn; by rewrite lookup_insert_eq]].
  - split; cbn; fold id; try lia.
    + intros k x Ex. destruct (decide (id = k)) as [<-|N].
      * rewrite lookup_insert_eq in Ex. injection Ex as <-. split; [lia|]. cbn. rewrite lookup_insert_eq.
        split; [done|]. split; [lia|]. rewrite Nat2Z.id, lookup_app_r, Nat.sub_diag by lia.
        split; [done|]. split; [lia|]. split; [unfold ADDRMAN_NEW_BUCKETS_PER_ADDRESS; lia|]. set_solver.
      * rewrite lookup_insert_ne in Ex by done. destruct (W1 k x Ex) as (? & A & ? & L & ? & T). split; [lia|].
        split; [|split; [done|split; [by rewrite lookup_app_l by (by apply lookup_lt_Some in L)|split; [done|]]]].
        { rewrite lookup_insert_ne; [done|]. intros Eq. rewrite Eq in Na. congruence. }
        destruct (fInTried x); [done|]. split; [by apply T|]. set_solver.
    + intros ip k Ea. destruct (decide (s_ip (a_srv addr) = ip)) as [<-|N].
      * rewrite lookup_insert_eq in Ea. injection Ea as <-. exists i. by rewrite lookup_insert_eq.
      * rewrite lookup_insert_ne in Ea by done. destruct (W2 ip k Ea) as (x & Ex & Ip). exists x. split; [|done].
        rewrite lookup_insert_ne; [done|]. intros <-. congruence.
    + intros k id' Er. destruct (Nat.lt_ge_cases k (length (vRandom m))) as [L|G].
      * rewrite lookup_app_l in Er by done. destruct (W3 k id' Er) as (x & Ex & Px). exists x. split; [|done].
        rewrite lookup_insert_ne; [done|]. intros <-. congruence.
      * rewrite lookup_app_r in Er by done. apply list_lookup_singleton_Some in Er as [Ek <-].
        exists i. rewrite lookup_insert_eq. split; [done|]. cbn. lia.
    + intros s id' En. destruct (W4 s id' En) as (B & x & Ex & H). split; [done|]. exists x. split; [|done].
      rewrite lookup_insert_ne; [done|]. intros <-. congruence.
    + intros s id' En. destruct (W5 s id' En) as (x & Ex & H). exists x. split; [|done].
      rewrite lookup_insert_ne; [done|]. intros <-. congruence.
  - destruct C as [C1 C2]. split; cbn; rewrite (count_insert _ _ _ _ Ni); cbn; lia.
Qed.

Lemma kept_set m k j i k' : mapInfo m !! k = Some j → k <> k' → kept j (set_info m k' i) k.
Proof. intros E N. exists j. cbn. by rewrite lookup_insert_ne. Qed.

Lemma size_insert (P : gset Z) x n : (base.size P <= n)%nat → (base.size ({[x]} ∪ P) <= S n)%nat.
Proof.
  intros H. rewrite size_union_alt, size_singleton. pose proof (subseteq_size (P ∖ {[x]}) P ltac:(set_solver)). lia.
Qed.

Lemma ClearNew_spec P m slot dt dn : wf P m → (base.size P <= 9)%nat → counted m dt dn →
  ∃ m', ClearNew m slot = Some m' ∧ wf P m' ∧ counted m' dt dn ∧ nKey m' = nKey m ∧ nIdCount m' = nIdCount m
        ∧ vvTried m' = vvTried m ∧ vvNew m' = delete slot (vvNew m)
        ∧ ∀ k j, vvNew m !! slot <> Some k → mapInfo m !! k = Some j → kept j m' k.
Proof.
  intros W SP C. unfold ClearNew. destruct (vvNew m !! slot) as [id|] eqn:Es.
  2:{ exists m. split; [done|]. split; [done|]. split; [done|]. repeat (split; [done|]).
      split; [by rewrite delete_id|]. intros k j _ E. by exists j. }
  destruct (w_new _ _ W _ _ Es) as (_ & i & E & F & _). rewrite E.
  destruct (w_info _ _ W _ _ E) as (_ & _ & _ & _ & R & T). pose proof (refs_pos _ _ _ Es) as Rp.
  rewrite (proj2 (Z.ltb_lt 0 (nRefCount i))) by lia. cbn [negb]. cbn [nRefCount with_refs].
  pose proof (wf_unref P m slot id i (nNew m) W Es E) as W1.
  assert (C1 : counted (set_new (set_info m id (with_refs i (nRefCount i - 1))) (nNew m) (delete slot (vvNew m))) dt dn)
    by (apply (counted_update m id i (with_refs i (nRefCount i - 1)) dt dn E eq_refl C)).
  cbn [nNew vvNew set_info] in *.
  set (m1 := set_new (set_info m id (with_refs i (nRefCount i - 1))) (nNew m) (delete slot (vvNew m))) in *.
  assert (E1 : mapInfo m1 !! id = Some (with_refs i (nRefCount i - 1))) by (cbn; by rewrite lookup_insert_eq).
  assert (K1 : ∀ k j, Some id <> Some k → mapInfo m !! k = Some j → mapInfo m1 !! k = Some j).
  { intros k j Nk Ek. cbn. rewrite lookup_insert_ne; [done|congruence]. }
  destruct (Z.eqb_spec (nRefCount i - 1) 0) as [Z0|N0].
  - destruct (Delete_spec ({[id]} ∪ P) m1 id (with_refs i (nRefCount i - 1)) dt dn W1) as
      (m2 & D & W2 & C2 & Hk & Hi & Ht & Hn & K); [by apply size_insert|done|done|done|done|].
    exists m2. split; [done|]. split; [eapply wf_weaken; [exact W2|set_solver]|]. split; [done|].
    split; [by rewrite Hk|]. split; [by rewrite Hi|]. split; [by rewrite Ht|]. split; [by rewrite Hn|].
    intros k j Nk Ek. apply K; [congruence|]. by apply K1.
  - exists m1. split; [done|]. split.
    + eapply wf_weaken; [apply (wf_drop _ _ id W1)|set_solver]. intros x Ex. rewrite E1 in Ex. injection Ex as <-. by left.
    + split; [done|]. repeat (split; [done|]). intros k j Nk Ek. exists j. split; [by apply K1|done].
Qed.

(** *** Moving to the tried table *)

Lemma wf_set_new P m n : wf P m → wf P (set_new m n (vvNew m)).
Proof. intros [H1 H2 H3 H4 H5 H6]. by split. Qed.

(** The loop over the new buckets takes all references of the entry away, and
    nothing else. *)
Lemma leave_buckets_spec P m id i dt dn : wf P m → mapInfo m !! id = Some i → fInTried i = false → counted m dt dn →
  let m' := foldl (leave_bucket id) m (seqZ 0 ADDRMAN_NEW_BUCKET_COUNT) in
  wf ({[id]} ∪ P) m' ∧ counted m' dt dn ∧ nKey m' = nKey m ∧ vvTried m' = vvTried m
  ∧ ∃ i', mapInfo m' !! id = Some i' ∧ a_srv (i_addr i') = a_srv (i_addr i) ∧ fInTried i' = false ∧ nRefCount i' = 0.
Proof.
  intros W E F C. cbn zeta.
  pose (I := λ (b : Z) (m' : CAddrMan), wf ({[id]} ∪ P) m' ∧ counted m' dt dn ∧ nKey m' = nKey m ∧ vvTried m' = vvTried m
    ∧ ∃ i', mapInfo m' !! id = Some i' ∧ a_srv (i_addr i') = a_srv (i_addr i) ∧ fInTried i' = false
            ∧ ∀ c, 0 <= c < b → vvNew m' !! new_slot m i c <> Some id).
  assert (G : I ADDRMAN_NEW_BUCKET_COUNT (foldl (leave_bucket id) m (seqZ 0 ADDRMAN_NEW_BUCKET_COUNT))).
  { apply foldl_seqZ_inv; [done| |].
    - split; [eapply wf_weaken; [exact W|set_solver]|]. split; [done|]. split; [done|]. split; [done|].
      exists i. repeat (split; [done|]). lia.
    - intros b m' Hb (W' & C' & K' & T' & i' & E' & S' & F' & N'). unfold leave_bucket. rewrite E'.
      rewrite (new_slot_ext m' m i' i) by done. case_bool_decide as D.
      + split; [|split; [|split; [done|split; [done|]]]].
        * apply (wf_unref _ _ _ _ _ (nNew m') W' D) in E' as W2. eapply wf_weaken; [exact W2|set_solver].
        * apply (counted_update m' id i' (with_refs i' (nRefCount i' - 1)) dt dn E' eq_refl C').
        * eexists. cbn. rewrite lookup_insert_eq. split; [reflexivity|]. split; [done|]. split; [done|].
          intros c Hc. destruct (decide (c = b)) as [->|].
          -- by rewrite lookup_delete_eq.
          -- rewrite lookup_delete_ne; [apply N'; lia|]. unfold new_slot. congruence.
      + split; [done|]. split; [done|]. split; [done|]. split; [done|]. exists i'. repeat (split; [done|]).
        intros c Hc. destruct (decide (c = b)) as [->|]; [done|]. apply N'. lia. }
  destruct G as (W' & C' & K' & T' & i' & E' & S' & F' & N'). repeat (split; [done|]). exists i'.
  repeat (split; [done|]). destruct (w_info _ _ W' _ _ E') as (_ & _ & _ & _ & -> & _). apply refs_none.
  intros s Es. destruct (w_new _ _ W' _ _ Es) as (B & x & Ex & _ & Sl). rewrite E' in Ex. injection Ex as <-.
  rewrite (new_slot_ext _ m i' i) in Sl by done. rewrite Sl in Es. by apply (N' s.1 B).
Qed.

Lemma evict_spec Q m slot dt dn : wf Q m → (base.size Q <= 8)%nat → counted m dt dn →
  ∃ m', evict m slot = Some m' ∧ wf Q m' ∧ counted m' dt dn ∧ nKey m' = nKey m ∧ vvTried m' = delete slot (vvTried m)
        ∧ ∀ k j, mapInfo m !! k = Some j → fInTried j = false → nRefCount j = 0 → kept j m' k.
Proof.
  intros W SQ C. unfold evict. destruct (vvTried m !! slot) as [id|] eqn:Es.
  2:{ exists m. split; [done|]. split; [done|]. split; [done|]. split; [done|]. split; [by rewrite delete_id|].
      intros k j E _ _. by exists j. }
  destruct (w_tried _ _ W _ _ Es) as (i & E & F & _). rewrite E.
  destruct (w_info _ _ W _ _ E) as (_ & _ & _ & _ & R & T). rewrite F in T. destruct T as [T0 _].
  pose proof (wf_untry Q m slot id i (nTried m - 1) W Es E) as W1. cbn [nTried vvTried set_info].
  set (m1 := set_tried (set_info m id (with_tried i false)) (nTried m - 1) (delete slot (vvTried m))) in *.
  assert (C1 : counted m1 dt (dn - 1)).
  { destruct C as [Ct Cn]. split; cbn; rewrite (count_update _ _ _ _ _ E), F; cbn; lia. }
  set (b := GetNewBucket _ _ _). rewrite (new_slot_ext m1 m i i) by done. set (uslot := new_slot m i b).
  destruct (ClearNew_spec _ m1 uslot dt (dn - 1) W1 (size_insert _ _ 8 SQ) C1)
    as (m2 & -> & W2 & C2 & K2 & _ & T2 & V2 & Kp2).
  assert (E1 : mapInfo m1 !! id = Some (with_tried i false)) by (cbn; by rewrite lookup_insert_eq).
  assert (Nr : ∀ s, vvNew m !! s <> Some id) by (intros s; apply refs_zero; congruence).
  destruct (Kp2 id (with_tried i false)) as (i2 & E2 & N2); [apply Nr|done|].
  rewrite V2, lookup_delete_eq, E2. assert (F2 : fInTried i2 = false ∧ nRefCount i2 = 0 ∧ a_srv (i_addr i2) = a_srv (i_addr i)).
  { unfold no_pos, with_pos, with_tried in N2. injection N2 as Ea _ _ _ -> ->. by rewrite Ea. }
  destruct F2 as (F2 & R2 & S2).
  assert (U2 : new_slot m2 i2 b = uslot) by (apply new_slot_ext; [by rewrite K2|done]).
  assert (Hb : 0 <= b < ADDRMAN_NEW_BUCKET_COUNT) by apply GetNewBucket_range.
  pose proof (wf_ref _ m2 id i2 b (nNew m2 + 1) W2 E2 F2 ltac:(rewrite R2; done) Hb
                ltac:(rewrite U2, V2; apply lookup_delete_eq)) as W3.
  rewrite U2, R2, V2 in W3. cbn [nNew vvNew set_info]. rewrite V2.
  eexists. split; [done|]. split; [eapply wf_weaken; [exact W3|set_solver]|]. split; [|split; [cbn; by rewrite K2|split; [cbn; by rewrite T2|]]].
  - destruct C2 as [Ct Cn]. split; cbn; rewrite (count_update _ _ _ _ _ E2), F2; cbn; rewrite ?F2; cbn; lia.
  - intros k j Ek Fj Rj. destruct (decide (k = id)) as [->|Nk]; [congruence|].
    destruct (Kp2 k j) as (j' & Ej & Nj).
    + cbn. apply refs_zero. destruct (w_info _ _ W _ _ Ek) as (_ & _ & _ & _ & Rk & _). congruence.
    + cbn. by rewrite lookup_insert_ne.
    + exists j'. cbn. by rewrite lookup_insert_ne.
Qed.

Lemma join_tried_spec P m1 id i1 dt dn : wf ({[id]} ∪ P) m1 → (base.size P <= 7)%nat → mapInfo m1 !! id = Some i1 →
  fInTried i1 = false → nRefCount i1 = 0 → counted m1 dt dn →
  ∃ m', join_tried m1 id = Some m' ∧ wf P m' ∧ counted m' dt dn ∧ nKey m' = nKey m1
        ∧ ∃ i', mapInfo m' !! id = Some i' ∧ fInTried i' = true ∧ a_srv (i_addr i') = a_srv (i_addr i1)
                ∧ vvTried m' !! tried_slot m1 i1 = Some id.
Proof.
  intros W1 SP E1 F1 R1 C1. unfold join_tried.
  apply (wf_set_new _ _ (nNew m1 - 1)) in W1 as W1'. set (m1' := set_new m1 (nNew m1 - 1) (vvNew m1)) in *.
  assert (C1' : counted m1' dt (dn - 1)) by (destruct C1; split; cbn; lia).
  assert (E1' : mapInfo m1' !! id = Some i1) by done. rewrite E1', R1. cbn [Z.eqb negb].
  rewrite (tried_slot_ext m1' m1 i1 i1) by done. set (slot := tried_slot m1 i1).
  destruct (evict_spec ({[id]} ∪ P) m1' slot dt (dn - 1) W1' (size_insert _ _ 7 SP) C1')
    as (m2 & -> & W2 & C2 & K2 & T2 & Kp2).
  rewrite T2, lookup_delete_eq. destruct (Kp2 id i1 E1' F1 R1) as (i2 & E2 & N2).
  assert (F2 : fInTried i2 = false ∧ nRefCount i2 = 0 ∧ a_srv (i_addr i2) = a_srv (i_addr i1)).
  { unfold no_pos, with_pos in N2. injection N2 as Ea _ _ _ -> ->. by rewrite Ea. }
  destruct F2 as (F2 & R2 & S2). unfold enter_tried. rewrite E2.
  assert (Sl : tried_slot m2 i2 = slot) by (apply tried_slot_ext; [by rewrite K2|done]).
  pose proof (wf_try _ m2 id i2 (nTried m2 + 1) W2 E2 F2 R2 ltac:(rewrite Sl, T2; apply lookup_delete_eq)) as W3.
  rewrite Sl in W3. eexists. split; [done|]. split; [eapply wf_weaken; [exact W3|set_solver]|].
  split; [|split; [cbn; by rewrite K2|]].
  - destruct C2 as [Ct Cn]. split; cbn; rewrite (count_update _ _ _ _ _ E2), F2; cbn; lia.
  - eexists. cbn. rewrite !lookup_insert_eq. done.
Qed.

Lemma MakeTried_spec P m id i dt dn : wf P m → (base.size P <= 7)%nat → mapInfo m !! id = Some i → fInTried i = false →
  counted m dt dn →
  ∃ m', MakeTried m id = Some m' ∧ wf P m' ∧ counted m' dt dn ∧ nKey m' = nKey m
        ∧ ∃ i', mapInfo m' !! id = Some i' ∧ fInTried i' = true ∧ a_srv (i_addr i') = a_srv (i_addr i)
                ∧ vvTried m' !! tried_slot m i = Some id.
Proof.
  intros W SP E F C. unfold MakeTried. pose proof (leave_buckets_spec P m id i dt dn W E F C) as L. cbn zeta in L.
  revert L. generalize (foldl (leave_bucket id) m (seqZ 0 ADDRMAN_NEW_BUCKET_COUNT)).
  intros m1 (W1 & C1 & K1 & T1 & i1 & E1 & S1 & F1 & R1).
  destruct (join_tried_spec P m1 id i1 dt dn W1 SP E1 F1 R1 C1) as (m' & J & W' & C' & K' & i' & E' & F' & S' & T').
  exists m'. split; [done|]. split; [done|]. split; [done|]. split; [congruence|]. exists i'.
  split; [done|]. split; [done|]. split; [congruence|]. by rewrite <- (tried_slot_ext m1 m i1 i).
Qed.

(** ** The operations keep the tables consistent *)

Lemma consistent_update m nId i j : consistent m → mapInfo m !! nId = Some i → same_place j i → consistent (set_info m nId j).
Proof.
  intros [W C] E S. split; [by apply (wf_update ∅ m nId i j)|]. apply (counted_update m nId i j); [done|apply S|done].
Qed.

Lemma Attempt_spec m addr t : consistent m → consistent (Attempt_ m addr t).
Proof.
  intros Hm. unfold Attempt_. pose proof (Find_spec ∅ m (s_ip addr) (proj1 Hm)) as F.
  destruct (Find m (s_ip addr)) as [[id i]|]; [|done]. destruct F as [E _].
  destruct (negb _); [done|]. by apply (consistent_update m id i).
Qed.

Lemma Connected_spec m addr t : consistent m → consistent (Connected_ m addr t).
Proof.
  intros Hm. unfold Connected_. pose proof (Find_spec ∅ m (s_ip addr) (proj1 Hm)) as F.
  destruct (Find m (s_ip addr)) as [[id i]|]; [|done]. destruct F as [E _].
  destruct (negb _); [done|]. destruct (_ <? _); [|done]. by apply (consistent_update m id i).
Qed.

(** An entry that is not tried is in some new bucket, which the search finds
    wherever it starts. *)
Lemma find_bucket_some m id i nRnd : consistent m → mapInfo m !! id = Some i → fInTried i = false →
  find_bucket m id i nRnd <> None.
Proof.
  intros [W _] E F Hn. destruct (w_info _ _ W _ _ E) as (_ & _ & _ & _ & R & T). rewrite F in T. destruct T as [_ T].
  assert (N : refs (vvNew m) id <> 0) by (intros Z; rewrite Z in R; by apply T in R; apply not_elem_of_empty in R).
  apply N, refs_none. intros s Es. destruct (w_new _ _ W _ _ Es) as (B & x & Ex & _ & Sl).
  rewrite E in Ex. injection Ex as <-. unfold find_bucket in Hn.
  pose proof (List.find_none _ _ Hn s.1) as D. cbn beta in D. rewrite <- Sl, bool_decide_true in D by done.
  discriminate D. apply in_map_iff. exists ((s.1 - nRnd) mod ADDRMAN_NEW_BUCKET_COUNT). split.
  - rewrite Zplus_mod_idemp_l. replace (s.1 - nRnd + nRnd) with (s.1) by lia. by apply Z.mod_small.
  - apply list_elem_of_In, elem_of_seqZ. pose proof (Z.mod_pos_bound (s.1 - nRnd) ADDRMAN_NEW_BUCKET_COUNT). 
    unfold ADDRMAN_NEW_BUCKET_COUNT in *. lia.
Qed.

Lemma service_eq_spec a b : service_eq a b = true ↔ a = b.
Proof.
  destruct a as [ia pa], b as [ib pb]. unfold service_eq, addr_eq. cbn. rewrite andb_true_iff, bool_decide_eq_true, Z.eqb_eq.
  split; [by intros [-> ->]|by intros [= -> ->]].
Qed.

(** A good address that is known is in the tried table afterwards. *)
Lemma Good_spec m addr t nRnd : consistent m → ∃ m', Good_ m addr t nRnd = Some m' ∧ consistent m' ∧
  match Find m (s_ip addr) with
  | Some (id, i) =>
      a_srv (i_addr i) = addr → ∃ i', mapInfo m' !! id = Some i' ∧ fInTried i' = true ∧ a_srv (i_addr i') = addr
                                     ∧ vvTried m' !! tried_slot m i = Some id
  | None => m' = m
  end.
Proof.
  intros Hm. unfold Good_. pose proof (Find_spec ∅ m (s_ip addr) (proj1 Hm)) as F.
  destruct (Find m (s_ip addr)) as [[id i]|]; [|by exists m]. destruct F as [E _].
  destruct (service_eq (a_srv (i_addr i)) addr) eqn:S; cbn [negb].
  2:{ exists m. split; [done|]. split; [done|]. intros Sa. apply service_eq_spec in Sa. congruence. }
  apply service_eq_spec in S. set (j := mkInfo _ _ _ _ _ _ _).
  assert (Hm1 : consistent (set_info m id j)) by (by apply (consistent_update m id i)).
  assert (E1 : mapInfo (set_info m id j) !! id = Some j) by (cbn; by rewrite lookup_insert_eq).
  assert (Sl : tried_slot (set_info m id j) j = tried_slot m i) by (by apply tried_slot_ext).
  destruct (fInTried j) eqn:Fj.
  - exists (set_info m id j). split; [done|]. split; [done|]. intros _. exists j. split; [done|]. split; [done|]. split; [done|].
    destruct (w_info _ _ (proj1 Hm1) _ _ E1) as (_ & _ & _ & _ & _ & T). rewrite Fj in T. rewrite <- Sl. apply T.
  - destruct (find_bucket (set_info m id j) id j nRnd) eqn:FB; [|by apply find_bucket_some in FB].
    destruct (MakeTried_spec ∅ _ id j 0 0 (proj1 Hm1) ltac:(rewrite size_empty; lia) E1 Fj (proj2 Hm1))
      as (m' & -> & W' & C' & _ & i' & E' & F' & S' & T').
    exists m'. split; [done|]. split; [done|]. intros _. exists i'. split; [done|]. split; [done|]. split; [rewrite S'; exact S|].
    by rewrite <- Sl.
Qed.

Lemma Add_known_spec m id i addr pen now rnd : consistent m → mapInfo m !! id = Some i →
  let '(m', go_on) := Add_known m id i addr pen now rnd in
  consistent m' ∧ ∃ i', mapInfo m' !! id = Some i' ∧ same_place i' i
    ∧ (go_on = true → fInTried i' = false ∧ nRefCount i' < ADDRMAN_NEW_BUCKETS_PER_ADDRESS).
Proof.
  intros Hm E. unfold Add_known. set (t := if _ && _ then _ else _). clearbody t. set (j := with_addr i _).
  assert (Hm1 : consistent (set_info m id j)) by (by apply (consistent_update m id i)).
  assert (E1 : mapInfo (set_info m id j) !! id = Some j) by (cbn; by rewrite lookup_insert_eq).
  assert (G : ∀ b : bool, (b = true → fInTried j = false ∧ nRefCount j < ADDRMAN_NEW_BUCKETS_PER_ADDRESS) →
    consistent (set_info m id j) ∧ ∃ i', mapInfo (set_info m id j) !! id = Some i' ∧ same_place i' i
    ∧ (b = true → fInTried i' = false ∧ nRefCount i' < ADDRMAN_NEW_BUCKETS_PER_ADDRESS)).
  { intros b Hb. split; [done|]. exists j. split; [done|]. by split. }
  destruct ((a_nTime addr =? 0) || _); [by apply G|]. destruct (fInTried j) eqn:F; [by apply G|].
  destruct (Z.eqb_spec (nRefCount j) ADDRMAN_NEW_BUCKETS_PER_ADDRESS); [by apply G|].
  destruct (_ && _); [by apply G|]. apply G. intros _. split; [done|].
  destruct (w_info _ _ (proj1 Hm1) _ _ E1) as (_ & _ & _ & _ & _ & T). rewrite F in T. lia.
Qed.

Lemma Add_place_spec P m id i src now : wf P m → P ⊆ {[id]} → counted m 0 0 → mapInfo m !! id = Some i →
  fInTried i = false → nRefCount i < ADDRMAN_NEW_BUCKETS_PER_ADDRESS →
  ∃ m', Add_place m id src now = Some m' ∧ consistent m'.
Proof.
  intros W SP C E F L. unfold Add_place. rewrite E.
  assert (Psize : (base.size P <= 9)%nat) by (apply subseteq_size in SP; rewrite size_singleton in SP; lia).
  assert (Pid : P ∖ {[id]} ⊆ ∅) by set_solver.
  set (b := GetNewBucket _ _ _). set (slot := new_slot m i b).
  assert (Hb : 0 <= b < ADDRMAN_NEW_BUCKET_COUNT) by apply GetNewBucket_range.
  destruct (w_info _ _ W _ _ E) as (_ & _ & _ & _ & R & T).
  assert (Stay : nRefCount i <> 0 → consistent m).
  { intros N. split; [|done]. eapply wf_weaken; [apply (wf_drop _ _ id W)|done]. intros x Ex. rewrite E in Ex.
    injection Ex as <-. by left. }
  case_bool_decide as D.
  { exists m. split; [done|]. apply Stay. rewrite R. pose proof (refs_pos _ _ _ D). lia. }
  assert (Ins : ∃ m', match ClearNew m slot with
      | None => None
      | Some m => match mapInfo m !! id with
          | None => None
          | Some pinfo => Some (set_new (set_info m id (with_refs pinfo (nRefCount pinfo + 1)))
                                  (nNew (set_info m id (with_refs pinfo (nRefCount pinfo + 1))))
                                  (<[slot := id]> (vvNew (set_info m id (with_refs pinfo (nRefCount pinfo + 1))))))
          end
      end = Some m' ∧ consistent m').
  { destruct (ClearNew_spec P m slot 0 0 W Psize C) as (m1 & -> & W1 & C1 & K1 & _ & _ & V1 & Kp).
    destruct (Kp id i D E) as (i1 & E1 & N1). rewrite E1.
    assert (F1 : fInTried i1 = false ∧ nRefCount i1 = nRefCount i ∧ a_srv (i_addr i1) = a_srv (i_addr i)).
    { unfold no_pos, with_pos in N1. injection N1 as Ea _ _ _ -> ->. by rewrite Ea. }
    destruct F1 as (F1 & R1 & S1). assert (U1 : new_slot m1 i1 b = slot) by (by apply new_slot_ext).
    pose proof (wf_ref P m1 id i1 b (nNew m1) W1 E1 F1 ltac:(by rewrite R1) Hb ltac:(rewrite U1, V1; apply lookup_delete_eq)) as W2.
    rewrite U1 in W2. eexists. split; [done|]. split; [by eapply wf_weaken|].
    apply (counted_update m1 id i1 (with_refs i1 (nRefCount i1 + 1)) 0 0 E1 eq_refl C1). }
  assert (Out : ∃ m', (if nRefCount i =? 0 then Delete m id else Some m) = Some m' ∧ consistent m').
  { destruct (Z.eqb_spec (nRefCount i) 0) as [Z|N]; [|exists m; split; [done|by apply Stay]].
    destruct (Delete_spec P m id i 0 0 W ltac:(lia) E F Z C) as (m1 & -> & W1 & C1 & _).
    exists m1. split; [done|]. split; [by eapply wf_weaken|done]. }
  destruct (vvNew m !! slot) as [e|] eqn:Es; [|exact Ins].
  destruct (w_new _ _ W _ _ Es) as (_ & x & Ex & _). rewrite Ex.
  destruct (_ || _); [exact Ins|exact Out].
Qed.

(** The lookup of the manager before, after an address was added. *)
Lemma Add_spec m addr src pen now rnd : consistent m → nIdCount m + 1 < 2 ^ 31 → ∃ m' r, Add_ m addr src pen now rnd = Some (m', r) ∧ consistent m'
  ∧ (r = true ↔ IsRoutable (s_ip (a_srv addr)) = true ∧ Find m (s_ip (a_srv addr)) = None).
Proof.
  intros Hm Room. unfold Add_. destruct (IsRoutable _); cbn [negb]; [|exists m, false; split; [done|]; split; [done|]; by split; [|intros [? _]]].
  pose proof (Find_spec ∅ m (s_ip (a_srv addr)) (proj1 Hm)) as F.
  destruct (Find m (s_ip (a_srv addr))) as [[id i]|].
  - destruct F as [E _]. pose proof (Add_known_spec m id i addr pen now rnd Hm E) as K.
    destruct (Add_known m id i addr pen now rnd) as [m1 go_on]. destruct K as (Hm1 & i1 & E1 & _ & G).
    destruct go_on; cbn [negb]; [|exists m1, false; split; [done|]; split; [done|]; by split; [|intros [_ ?]]].
    destruct (G eq_refl) as [F1 R1].
    destruct (Add_place_spec ∅ m1 id i1 src now (proj1 Hm1) ltac:(set_solver) (proj2 Hm1) E1 F1 R1) as (m2 & -> & Hm2).
    exists m2, false. split; [done|]. split; [done|]. by split; [|intros [_ ?]].
  - pose proof (Create_spec ∅ m addr src 0 0 (proj1 Hm) Room F (proj2 Hm)) as Cr.
    destruct (Create m addr src) as [m1 id]. destruct Cr as (_ & W1 & C1 & _ & _ & _ & E1). rewrite E1.
    set (i1 := with_pos (new_info addr src) (size m)) in *. set (j := with_addr i1 _).
    pose proof (wf_update _ m1 id i1 j W1 E1 ltac:(by repeat split)) as W2.
    pose proof (counted_update m1 id i1 j 0 (0 - 1) E1 eq_refl C1) as C2.
    set (m2 := set_info m1 id j) in *.
    destruct (Add_place_spec ({[id]} ∪ ∅) (set_new m2 (nNew m2 + 1) (vvNew m2)) id j src now) as (m3 & -> & Hm3).
    + by apply wf_set_new.
    + set_solver.
    + destruct C2. split; cbn in *; lia.
    + cbn. by rewrite lookup_insert_eq.
    + done.
    + done.
    + exists m3, true. split; [done|]. split; [done|]. done.
Qed.

Lemma SwapRandom_consistent m p1 p2 : consistent m → 0 <= p1 < size m → 0 <= p2 < size m →
  ∃ m', SwapRandom m p1 p2 = Some m' ∧ consistent m' ∧ size m' = size m.
Proof.
  intros [W C] H1 H2. destruct (SwapRandom_spec ∅ m p1 p2 W H1 H2) as (m' & E & W' & R & _). exists m'.
  split; [done|]. pose proof (reordered_count fInTried m m' ltac:(done) R) as C1.
  pose proof (reordered_count (λ i, negb (fInTried i)) m m' ltac:(done) R) as C2.
  destruct R as (_ & _ & _ & Rt & _ & Rn & _ & _ & Rl). split; [|unfold size; congruence].
  split; [done|]. destruct C as [Ct Cn]. split; lia.
Qed.

(** The random numbers of a call of GetAddr_. *)
Definition rnds_ok (m : CAddrMan) (n : Z) (rnds : list Z) : Prop :=
  ∀ k r, rnds !! k = Some r → 0 <= r ∧ (n + Z.of_nat k < size m → r < size m - (n + Z.of_nat k)).

Lemma GetAddr_loop_spec m now nNodes n rnds v : consistent m → 0 <= n → rnds_ok m n rnds →
  ∃ m' v', GetAddr_loop m now nNodes n rnds v = Some (m', v') ∧ consistent m'.
Proof.
  revert m n v. induction rnds as [|r rnds IH]; intros m n v Hm Hn Hr; cbn [GetAddr_loop]; [eauto|].
  destruct (Z.ltb_spec n (size m)) as [L|]; cbn [negb]; [|eauto]. destruct (_ <=? _); [eauto|].
  destruct (Hr 0%nat r eq_refl) as [R0 R1]. specialize (R1 ltac:(lia)).
  destruct (SwapRandom_consistent m n (r + n) Hm ltac:(lia) ltac:(lia)) as (m1 & -> & Hm1 & Sz).
  pose proof (getz_lookup (vRandom m1) n ltac:(unfold size in *; lia)) as Lk.
  destruct (w_random _ _ (proj1 Hm1) _ _ Lk) as (i & -> & _). apply IH; [done|lia|].
  intros k r' E. destruct (Hr (S k) r' E) as [B1 B2]. split; [done|]. rewrite Sz. intros. specialize (B2 ltac:(lia)). lia.
Qed.

(** Select_ only gives addresses of the tables, and does not stop before its
    random numbers do. *)
Lemma Select_loop_spec pow m table now rnds f i :
  Select_loop pow m table now rnds f = Some i → ∃ s nId, table !! s = Some nId ∧ mapInfo m !! nId = Some i.
Proof.
  revert f. induction rnds as [|[[b p] r] rnds IH]; intros f; cbn [Select_loop]; [done|].
  destruct (table !! (b, p)) as [id|] eqn:T; [|apply IH]. destruct (mapInfo m !! id) as [x|] eqn:E; [|done].
  destruct (SFltb _ _); [|apply IH]. intros [= ->]. eauto.
Qed.

Lemma Select_spec pow m now first rnds a : consistent m → Select_ pow m now first rnds = Some a → 0 < size m →
  ∃ nId i, mapInfo m !! nId = Some i ∧ a = i_addr i
           ∧ fInTried i = (0 <? nTried m) && ((nNew m =? 0) || (first =? 0)).
Proof.
  intros [W _] S Sz. unfold Select_ in S. rewrite (proj2 (Z.eqb_neq (size m) 0)) in S by lia.
  destruct (Select_loop _ _ _ _ _ _) as [i|] eqn:L; [|done]. injection S as <-.
  apply Select_loop_spec in L as (s & id & T & E). exists id, i. split; [done|]. split; [done|].
  destruct (_ && _); [destruct (w_tried _ _ W _ _ T) as (x & Ex & F & _)|destruct (w_new _ _ W _ _ T) as (_ & x & Ex & F & _)];
    rewrite E in Ex; injection Ex as <-; done.
Qed.

(** ** Histories *)

Inductive am_op :=
| OpAdd (addr : CAddress) (src : CNetAddr) (nTimePenalty now rnd : Z)
| OpGood (addr : CService) (nTime rnd : Z)
| OpAttempt (addr : CService) (nTime : Z)
| OpConnected (addr : CService) (nTime : Z)
| OpGetAddr (now : Z) (rnds : list Z).

(** [None]: an assertion failed. *)
Definition apply_op (m : CAddrMan) (o : am_op) : option CAddrMan :=
  match o with
  | OpAdd addr src pen now rnd => fst <$> Add_ m addr src pen now rnd
  | OpGood addr t rnd => Good_ m addr t rnd
  | OpAttempt addr t => Some (Attempt_ m addr t)
  | OpConnected addr t => Some (Connected_ m addr t)
  | OpGetAddr now rnds => fst <$> GetAddr_ m now rnds
  end.

Definition op_ok (m : CAddrMan) (o : am_op) : Prop :=
  match o with OpGetAddr _ rnds => rnds_ok m 0 rnds | _ => True end.

Definition additions (o : am_op) : nat := match o with OpAdd _ _ _ _ _ => 1 | _ => 0 end.

(** The histories, with the number of their additions. *)
Inductive reachable (randHash : list Z) : nat → CAddrMan → Prop :=
| reach_new : reachable randHash 0 (new_manager randHash)
| reach_op n m o m' : reachable randHash n m → op_ok m o → apply_op m o = Some m' → reachable randHash (additions o + n) m'.

Lemma apply_op_consistent m o : consistent m → nIdCount m + 1 < 2 ^ 31 → op_ok m o → ∃ m', apply_op m o = Some m' ∧ consistent m'.
Proof.
  intros Hm Room Ho. destruct o as [addr src pen now rnd|addr t rnd|addr t|addr t|now rnds]; cbn.
  - destruct (Add_spec m addr src pen now rnd Hm Room) as (m' & r & -> & Hm' & _). by exists m'.
  - destruct (Good_spec m addr t rnd Hm) as (m' & -> & Hm' & _). by exists m'.
  - eexists. split; [done|]. by apply Attempt_spec.
  - eexists. split; [done|]. by apply Connected_spec.
  - unfold GetAddr_. destruct (GetAddr_loop_spec m now (if ADDRMAN_GETADDR_MAX <? ADDRMAN_GETADDR_MAX_PCT * size m / 100
      then ADDRMAN_GETADDR_MAX else ADDRMAN_GETADDR_MAX_PCT * size m / 100) 0 rnds [] Hm ltac:(lia) Ho) as (m' & v & -> & Hm').
    by exists m'.
Qed.

Lemma apply_op_count m o m' : apply_op m o = Some m' →
  nIdCount m' = nIdCount m ∨ additions o = 1%nat ∧ nIdCount m' = s32 (nIdCount m + 1).
Proof.
  destruct o as [addr src pen now rnd|addr t rnd|addr t|addr t|now rnds]; cbn.
  - destruct (Add_ m addr src pen now rnd) as [[m1 r]|] eqn:E; [|done]. intros [= <-].
    apply Add_count in E as [?|?]; [by left|by right].
  - intros H%Good_count. by left.
  - intros [= <-]. left. unfold Attempt_. by repeat case_match.
  - intros [= <-]. left. unfold Connected_. by repeat case_match.
  - destruct (GetAddr_ m now rnds) as [[m1 v]|] eqn:E; [|done]. intros [= <-]. left. by apply GetAddr_count in E.
Qed.

Lemma reachable_consistent randHash n m :
  reachable randHash n m → Z.of_nat n + 1 < 2 ^ 31 → consistent m ∧ nIdCount m <= Z.of_nat n.
Proof.
  induction 1 as [|n m o m' _ IH Ho E]; intros Hn; [split; [apply new_manager_consistent|done]|].
  destruct IH as [Hm Hc]; [lia|]. destruct (apply_op_consistent m o Hm ltac:(lia) Ho) as (m1 & E1 & Hm1).
  rewrite E in E1. injection E1 as <-. split; [done|]. pose proof (w_count _ _ (proj1 Hm)).
  apply apply_op_count in E as [->|[-> ->]]; [lia|].
  rewrite swrap_small by (done || (unfold in_sw; change (32 - 1) with 31; lia)). lia.
Qed.

(** C11: in every history of adding, confirming, trying and listing addresses from
    a fresh manager with fewer than 2^31 - 1 additions, the tables stay consistent
    as Check_ means it: the index by address and the random order list every
    entry exactly once, an entry that has been tried is in its tried slot and has
    no references, any other has from one to eight and that many slots hold it,
    and both counters are right. There are at most 81920 entries, and no
    assertion fails in whatever comes next. (The bound is that of nIdCount, an int
    that Create counts up at each new address and nothing counts down: with one
    addition more it wraps around, as in identifiers_wrap.) *)
Theorem address_tables_stay_consistent randHash n m :
  reachable randHash n m → Z.of_nat n < 2 ^ 31 - 1 →
  consistent m ∧ size m <= 81920 ∧ ∀ o, op_ok m o → ∃ m', apply_op m o = Some m' ∧ consistent m'.
Proof.
  intros R Hn. destruct (reachable_consistent randHash n m R ltac:(lia)) as [Hm Hc].
  split; [done|]. split; [pose proof (wf_size ∅ m (proj1 Hm)) as S; rewrite size_empty in S; lia|].
  intros o Ho. apply apply_op_consistent; [done|lia|done].
Qed.

(** confirming an address the manager knows moves it, whatever the random
    start, into the tried slot that its key and address determine, and whatever was
    there back to a new bucket; the search for its new bucket never fails. *)
Theorem good_address_is_tried m addr nTime nRnd nId i :
  consistent m → Find m (s_ip addr) = Some (nId, i) → a_srv (i_addr i) = addr →
  ∃ m' i', Good_ m addr nTime nRnd = Some m' ∧ consistent m'
           ∧ mapInfo m' !! nId = Some i' ∧ fInTried i' = true ∧ a_srv (i_addr i') = addr
           ∧ vvTried m' !! tried_slot m i = Some nId.
Proof.
  intros Hm F S. destruct (Good_spec m addr nTime nRnd Hm) as (m' & E & Hm' & G). rewrite F in G.
  destruct (G S) as (i' & Ei & Fi & Si & T). by exists m', i'.
Qed.

Definition example_addr : CAddress := mkAddress (mkService (ipv4 8 8 8 8) 52000) 1 1600000000 0.

Lemma address_tables_stay_consistent_witness :
  ∃ m, reachable (replicate 32 7) 1 m
       ∧ ∃ m', apply_op m (OpGood (a_srv example_addr) 1600000100 5) = Some m'.
Proof.
  destruct (Add_spec _ example_addr (ipv4 9 9 9 9) 0 1600000000 0 (new_manager_consistent (replicate 32 7)) eq_refl)
    as (m & r & E & _).
  assert (R : reachable (replicate 32 7) 1 m).
  { eapply (reach_op _ 0 _ (OpAdd example_addr (ipv4 9 9 9 9) 0 1600000000 0)); [apply reach_new|exact I|].
    cbn [apply_op]. rewrite E. reflexivity. }
  exists m. split; [exact R|].
  destruct (address_tables_stay_consistent (replicate 32 7) 1 m R) as (_ & _ & P); [reflexivity|].
  destruct (P (OpGood (a_srv example_addr) 1600000100 5) I) as (m' & E' & _). exists m'. exact E'.
Defined.

(** The identifier after the largest one is negative. *)
Example identifiers_wrap :
  nIdCount (fst (Create (mkAddrMan [] (2 ^ 31 - 1) ∅ ∅ [] 0 ∅ 0 ∅) example_addr (ipv4 9 9 9 9))) = - 2 ^ 31.
Proof. vm_compute. reflexivity. Qed.

#[local] Transparent low64 GetTriedBucket GetBucketPosition GetNewBucket.

Definition example_manager : CAddrMan := Eval vm_compute in
  default (new_manager []) (fst <$> Add_ (new_manager (replicate 32 7)) example_addr (ipv4 9 9 9 9) 0 1600000000 0).

Lemma example_added : Add_ (new_manager (replicate 32 7)) example_addr (ipv4 9 9 9 9) 0 1600000000 0 = Some (example_manager, true).
Proof. vm_compute. reflexivity. Qed.

Lemma good_address_is_tried_witness :
  ∃ m', Good_ example_manager (a_srv example_addr) 1600000100 5 = Some m' ∧ consistent m'.
Proof.
  destruct (Add_spec _ example_addr (ipv4 9 9 9 9) 0 1600000000 0 (new_manager_consistent (replicate 32 7)) eq_refl)
    as (m & r & E & Hm & _).
  rewrite example_added in E. injection E as <- <-.
  destruct (Find example_manager (ipv4 8 8 8 8)) as [[id i]|] eqn:F; [|vm_compute in F; discriminate F].
  assert (S : a_srv (i_addr i) = a_srv example_addr) by (vm_compute in F; injection F as <- <-; reflexivity).
  destruct (good_address_is_tried example_manager (a_srv example_addr) 1600000100 5 id i Hm F S) as (m' & i' & E & Hm' & _).
  exists m'. split; [exact E|exact Hm'].
Defined.
