(* ===== verification/Kernel.v ===== *)
(** * kernel.h and kernel.cpp: the proof-of-stake kernel

    The stake modifier: the blocks of the last selection interval that give it
    their entropy bits, and the modifier a coin is hashed with; the kernel hash and
    its target, searched by the wallet and checked by every node; the checksum of
    the modifiers. The block index and the active chain are arguments, as are the
    transactions and blocks read from disk. Logging is left out. *)

From stdpp Require Import sorting.
From S2P Require Import Prelude Serialize Uint256 Chain Params Digest Hashes.
From S2P Require Import BlockTree Script Interp Tx SigHash Coins CoinsView TxCheck Block.

Local Open Scope node_scope.

(** ** The selection interval *)

Definition MODIFIER_INTERVAL : Z := 60.
Definition MODIFIER_INTERVAL_TESTNET : Z := 60.
Definition MODIFIER_INTERVAL_RATIO : Z := 3.

Definition getIntervalVersion (fTestNet : bool) : Z :=
  if fTestNet then MODIFIER_INTERVAL_TESTNET else MODIFIER_INTERVAL.

(** The global [fTestNet], which nothing sets. *)
Definition fTestNet : bool := false.

(** For a section from 0 to 63, which is asserted. *)
Definition GetStakeModifierSelectionIntervalSection (nSection : Z) : Z :=
  getIntervalVersion fTestNet * 63 / (63 + (63 - nSection) * (MODIFIER_INTERVAL_RATIO - 1)).

Definition sections : list Z := map Z.of_nat (seq 0 64).

Definition GetStakeModifierSelectionInterval : Z :=
  foldl (λ n s, n + GetStakeModifierSelectionIntervalSection s) 0 sections.

Definition GetWeight (params : CChainParams) (nIntervalBeginning nIntervalEnd : Z) : Z :=
  s64 (nIntervalEnd - nIntervalBeginning - nStakeMinAge params).

(** ** The last modifier *)

(** The modifier and its time; [None] where no block down to the first one has
    generated a modifier. *)
Fixpoint GetLastStakeModifier (pindex : CBlockIndex) : option (Z * Z) :=
  match pprev pindex with
  | Some q =>
      if GeneratedStakeModifier pindex then Some (nStakeModifier pindex, GetBlockTime pindex)
      else GetLastStakeModifier q
  | None =>
      if GeneratedStakeModifier pindex then Some (nStakeModifier pindex, GetBlockTime pindex)
      else None
  end.

(** ** The selection of blocks *)

(** [operator<] of [pair<int64_t, uint256>]. *)
Definition candidate_lt (a b : Z * list Z) : bool :=
  (a.1 <? b.1) || (negb (b.1 <? a.1) && op_lt a.2 b.2).
Definition candidate_le (a b : Z * list Z) : Prop := candidate_lt b a = false.
#[export] Instance candidate_le_dec a b : Decision (candidate_le a b) := decide (candidate_lt b a = false).

Section modifier.
Variable params : CChainParams.
Variable mapBlockIndex : gmap (list Z) CBlockIndex.

Definition selection_hash (fModifierV2 : bool) (nStakeModifierPrev : Z) (pindex : CBlockIndex) : list Z :=
  let hashProof :=
    if fModifierV2 then GetBlockHash pindex
    else if Chain.IsProofOfStake pindex then uint256 0 else GetBlockHash pindex in
  let hashSelection := limbs_of_bytes 8 (Hash (to_bytes hashProof ++ le_bytes 8 nStakeModifierPrev)) in
  if Chain.IsProofOfStake pindex then op_shr hashSelection 32 else hashSelection.

(** The loop, with [fModifierV2] once it is known ([fFirstRun] is false then)
    and the best block with its hash once one is selected. *)
Fixpoint select_loop (vSortedByTimestamp : list (Z * list Z)) (mapSelectedBlocks : gset (list Z))
    (nSelectionIntervalStop nStakeModifierPrev : Z) (fModifierV2 : option bool)
    (best : option (list Z * CBlockIndex)) : option (option (list Z * CBlockIndex)) :=
  match vSortedByTimestamp with
  | [] => Some best
  | item :: rest =>
      match mapBlockIndex !! item.2 with
      | None => None
      | Some pindex =>
          if (if best is Some _ then true else false) && (nSelectionIntervalStop <? GetBlockTime pindex)
          then Some best
          else
            let v2 := default (nModifierUpdateBlock params <=? nHeight pindex) fModifierV2 in
            if bool_decide (GetBlockHash pindex ∈ mapSelectedBlocks)
            then select_loop rest mapSelectedBlocks nSelectionIntervalStop nStakeModifierPrev (Some v2) best
            else
              let hashSelection := selection_hash v2 nStakeModifierPrev pindex in
              let best :=
                match best with
                | Some (hashBest, _) => if op_lt hashSelection hashBest then Some (hashSelection, pindex) else best
                | None => Some (hashSelection, pindex)
                end in
              select_loop rest mapSelectedBlocks nSelectionIntervalStop nStakeModifierPrev (Some v2) best
      end
  end.

(** The selected block; [None] is the result false. *)
Definition SelectBlockFromCandidates (vSortedByTimestamp : list (Z * list Z)) (mapSelectedBlocks : gset (list Z))
    (nSelectionIntervalStop nStakeModifierPrev : Z) : option CBlockIndex :=
  match select_loop vSortedByTimestamp mapSelectedBlocks nSelectionIntervalStop nStakeModifierPrev None None with
  | Some (Some (_, pindex)) => Some pindex
  | _ => None
  end.

(** The blocks from [pindex] down that are not older than the start, the newest first. *)
Fixpoint candidates_loop (pindex : CBlockIndex) (nSelectionIntervalStart : Z) : list (Z * list Z) :=
  if nSelectionIntervalStart <=? GetBlockTime pindex
  then (GetBlockTime pindex, GetBlockHash pindex) ::
         match pprev pindex with
         | Some q => candidates_loop q nSelectionIntervalStart
         | None => []
         end
  else [].

Definition sort_candidates (v : list (Z * list Z)) : list (Z * list Z) := merge_sort candidate_le (rev v).

(** The rounds left to do; the new modifier with the blocks selected, [None]
    where a round selects none. *)
Fixpoint rounds_loop (rounds : list Z) (vSortedByTimestamp : list (Z * list Z)) (nStakeModifier : Z)
    (nStakeModifierNew nSelectionIntervalStop : Z) (mapSelectedBlocks : gset (list Z)) : option Z :=
  match rounds with
  | [] => Some nStakeModifierNew
  | nRound :: rounds =>
      let stop := nSelectionIntervalStop + GetStakeModifierSelectionIntervalSection nRound in
      match SelectBlockFromCandidates vSortedByTimestamp mapSelectedBlocks stop nStakeModifier with
      | None => None
      | Some pindex =>
          rounds_loop rounds vSortedByTimestamp nStakeModifier
            (Z.lor nStakeModifierNew (u64 (Z.shiftl (GetStakeEntropyBit pindex) nRound))) stop
            ({[GetBlockHash pindex]} ∪ mapSelectedBlocks)
      end
  end.

(** The address of the string literal "stakemodifier" in the running program. *)
Variable stakemodifier_literal : Z.

(** Whether it succeeds, [nStakeModifier] and [fGeneratedStakeModifier]. *)
Definition ComputeNextStakeModifier (pindexPrev : option CBlockIndex) : bool * Z * bool :=
  match pindexPrev with
  | None => (true, 0, true)
  | Some pindexPrev =>
      if nHeight pindexPrev =? 0 then (true, u64 stakemodifier_literal, true)
      else
        match GetLastStakeModifier pindexPrev with
        | None => (false, 0, false)
        | Some (nStakeModifier, nModifierTime) =>
            let interval := getIntervalVersion fTestNet in
            if GetBlockTime pindexPrev / interval <=? nModifierTime / interval then (true, nStakeModifier, false)
            else
              let start := (GetBlockTime pindexPrev / interval) * interval - GetStakeModifierSelectionInterval in
              let v := sort_candidates (candidates_loop pindexPrev start) in
              match rounds_loop (take (length v) sections) v nStakeModifier 0 start ∅ with
              | Some new => (true, new, true)
              | None => (false, nStakeModifier, false)
              end
        end
  end.
End modifier.

(** ** The modifier of a kernel *)

Record KernelModifier := mkKernelModifier {
  km_nStakeModifier : Z;
  km_nStakeModifierHeight : Z;
  km_nStakeModifierTime : Z
}.

(** The loop: [pindexNext] follows [pindex] in the chain. *)
Fixpoint kernel_loop (fuel : nat) (c : CChain) (until : Z) (pindex : CBlockIndex)
    (pindexNext : option CBlockIndex) (m : KernelModifier) : result stop KernelModifier :=
  match fuel with
  | O => Throw OutOfFuel
  | S fuel =>
      if km_nStakeModifierTime m <? until
      then
        match pindexNext with
        | None => if negb (km_nStakeModifier m =? 0) then Ok m else Throw (Crash NullDereference)
        | Some next =>
            let m :=
              if GeneratedStakeModifier next
              then mkKernelModifier (nStakeModifier next) (nHeight next) (GetBlockTime next) else m in
            kernel_loop fuel c until next (chain_at c (nHeight next + 1)) m
        end
      else Ok (mkKernelModifier (nStakeModifier pindex) (km_nStakeModifierHeight m) (km_nStakeModifierTime m))
  end.

(** [Ok None] is the result false, for a block that is not indexed. *)
Definition GetKernelStakeModifier (mapBlockIndex : gmap (list Z) CBlockIndex) (chainActive : CChain)
    (hashBlockFrom : list Z) : result stop (option KernelModifier) :=
  match mapBlockIndex !! hashBlockFrom with
  | None => Ok None
  | Some pindexFrom =>
      let m := mkKernelModifier 0 (nHeight pindexFrom) (GetBlockTime pindexFrom) in
      let until := GetBlockTime pindexFrom + GetStakeModifierSelectionInterval in
      let! m := kernel_loop (length (vChain chainActive) + 2) chainActive until pindexFrom
                  (chain_at chainActive (nHeight pindexFrom + 1)) m in
      Ok (Some m)
  end.

(** ** The kernel hash *)

Definition stakeHash (nTimeTx : Z) (ss : list Z) (prevoutIndex : Z) (prevoutHash : hash256) (nTimeBlockFrom : Z)
    : list Z :=
  limbs_of_bytes 8
    (Hash (ss ++ le_bytes 4 nTimeBlockFrom ++ le_bytes 4 prevoutIndex ++ prevoutHash ++ le_bytes 4 nTimeTx)).

Definition stakeTargetHit (hashProofOfStake : list Z) (nValueIn : Z) (bnTargetPerCoinDay : list Z) : result stop bool :=
  let! bnCoinDayWeight := of_uint (op_div (uint256 (u64 nValueIn)) (uint256 100)) in
  Ok (op_lt hashProofOfStake (op_mul bnCoinDayWeight bnTargetPerCoinDay)).

Record StakeCheck := mkStakeCheck {
  sc_ok : bool;
  sc_nTimeTx : Z;
  sc_hashProofOfStake : list Z
}.

(** The search from iteration [i] on, with [n] iterations to go; [moved i] tells
    that the height of the active chain changed before the iteration. *)
Fixpoint search_loop (n : nat) (i : Z) (moved : Z → bool) (hash_at : Z → list Z)
    (hit : list Z → result stop bool) (nTimeTx nHashDrift : Z) (hashProofOfStake : list Z)
    : result stop StakeCheck :=
  match n with
  | O => Ok (mkStakeCheck false nTimeTx hashProofOfStake)
  | S n =>
      if moved i then Ok (mkStakeCheck false nTimeTx hashProofOfStake)
      else
        let nTryTime := u32 (nTimeTx + nHashDrift - i) in
        let hashProofOfStake := hash_at nTryTime in
        let! ok := hit hashProofOfStake in
        if ok then Ok (mkStakeCheck true nTryTime hashProofOfStake)
        else search_loop n (i + 1) moved hash_at hit nTimeTx nHashDrift hashProofOfStake
  end.

Section kernel.
Variable params : CChainParams.
Variable mapBlockIndex : gmap (list Z) CBlockIndex.
Variable chainActive : CChain.
Variable argon2m_hash : list Z → list Z.
Variable ecdsa_verify : CPubKey → hash256 → list Z → bool.

Definition CheckStakeKernelHash (nBits : Z) (blockFrom : CBlockHeader) (txPrev : CTransaction) (prevout : COutPoint)
    (nTimeTx nHashDrift : Z) (fCheck : bool) (moved : Z → bool) (hashProofOfStake : list Z)
    : result stop StakeCheck :=
  match vout txPrev !! Z.to_nat (out_n prevout) with
  | None => Throw (Crash OutOfRange)
  | Some out =>
      let nTimeBlockFrom := h_nTime blockFrom in
      let refused := mkStakeCheck false nTimeTx hashProofOfStake in
      if nTimeTx <? nTimeBlockFrom then Ok refused
      else if nTimeTx <? u32 (nTimeBlockFrom + nStakeMinAge params) then Ok refused
      else
        let bnTargetPerCoinDay := (SetCompact nBits).1.1 in
        let! r := GetKernelStakeModifier mapBlockIndex chainActive (Block.GetHash argon2m_hash blockFrom) in
        match r with
        | None => Ok refused
        | Some m =>
            let ss := le_bytes 8 (km_nStakeModifier m) in
            let hash_at t := stakeHash t ss (out_n prevout) (out_hash prevout) nTimeBlockFrom in
            let hit h := stakeTargetHit h (nValue out) bnTargetPerCoinDay in
            if fCheck
            then let! ok := hit (hash_at nTimeTx) in Ok (mkStakeCheck ok nTimeTx (hash_at nTimeTx))
            else search_loop (Z.to_nat nHashDrift) 0 moved hash_at hit nTimeTx nHashDrift hashProofOfStake
        end
  end.

(** GetTransaction, with the hash of the block of the transaction, and
    ReadBlockFromDisk. *)
Variable GetTransaction : hash256 → option (CTransaction * list Z).
Variable ReadBlockFromDisk : CBlockIndex → option CBlockHeader.

(** [Ok None] is the result false. *)
Definition CheckProofOfStake (block : CBlock) : result stop (option (list Z)) :=
  match vtx block with
  | _ :: tx :: _ =>
      if negb (IsCoinStake tx) then Ok None
      else
        match vin tx with
        | [] => Throw (Crash OutOfRange)
        | txin :: _ =>
            match GetTransaction (out_hash (prevout txin)) with
            | None => Ok None
            | Some (txPrev, hashBlock) =>
                match vout txPrev !! Z.to_nat (out_n (prevout txin)) with
                | None => Throw (Crash OutOfRange)
                | Some out =>
                    match script_check ecdsa_verify (scriptPubKey out) tx 0 STANDARD_SCRIPT_VERIFY_FLAGS,
                          ReadBlockFromDisk <$> mapBlockIndex !! hashBlock with
                    | Ok _, Some (Some blockprev) =>
                        let! r := CheckStakeKernelHash (h_nBits (header block)) blockprev txPrev (prevout txin)
                                    (h_nTime (header block)) 0 true (λ _, false) (uint256 0) in
                        Ok (if sc_ok r then Some (sc_hashProofOfStake r) else None)
                    | _, _ => Ok None
                    end
                end
            end
        end
  | _ => Throw (Crash OutOfRange)
  end.
End kernel.

Definition CheckCoinStakeTimestamp (nTimeBlock nTimeTx : Z) : bool := nTimeBlock =? nTimeTx.

(** ** The checksum of the modifiers *)

Definition GetStakeModifierChecksum (hashGenesisBlock : list Z) (pindex : CBlockIndex) : result ub Z :=
  if (if pprev pindex is Some _ then true else false) || op_eq (GetBlockHash pindex) hashGenesisBlock
  then
    let previous := match pprev pindex with Some q => le_bytes 4 (nStakeModifierChecksum q) | None => [] end in
    let hashChecksum :=
      limbs_of_bytes 8
        (Hash (previous ++ le_bytes 4 (nFlags pindex) ++ to_bytes (hashProofOfStake pindex)
                 ++ le_bytes 8 (nStakeModifier pindex))) in
    Ok (u32 (Get64 (op_shr hashChecksum (256 - 32)) 0))
  else Throw AssertionFailed.

Definition mapStakeModifierCheckpoints : gmap Z Z := {[0 := 0xfd11f4e7]}.

Definition CheckStakeModifierCheckpoints (nHeight nStakeModifierChecksum : Z) : bool :=
  if fTestNet then true
  else match mapStakeModifierCheckpoints !! nHeight with
       | Some c => nStakeModifierChecksum =? c
       | None => true
       end.

(** ** Comparisons *)

Lemma compare_loop_le_trans a b c :
  length a = length b → length b = length c →
  0 <= compare_loop a b → 0 <= compare_loop b c → 0 <= compare_loop a c.
Proof.
  revert b c. induction a as [|x a IH]; intros [|y b] [|z c]; try done. cbn. intros [= H1] [= H2].
  specialize (IH b c H1 H2).
  destruct (Z.ltb_spec x y), (Z.ltb_spec y x), (Z.ltb_spec y z), (Z.ltb_spec z y),
    (Z.ltb_spec x z), (Z.ltb_spec z x); lia.
Qed.

(** [op_lt a b = false] reads "b is at most a". *)
Lemma op_le_trans a b c :
  length a = length b → length b = length c → op_lt a b = false → op_lt b c = false → op_lt a c = false.
Proof.
  unfold op_lt, CompareTo. rewrite !Z.ltb_ge. intros ? ? ? ?.
  apply (compare_loop_le_trans _ (rev b)); rewrite ?length_rev; assumption.
Qed.

Lemma compare_loop_antisym a b : compare_loop b a = - compare_loop a b.
Proof.
  revert b. induction a as [|x a IH]; intros [|y b]; [done..|]. cbn.
  destruct (Z.ltb_spec x y), (Z.ltb_spec y x); try lia. apply IH.
Qed.

Lemma op_lt_asym a b : op_lt a b = true → op_lt b a = false.
Proof.
  unfold op_lt, CompareTo. rewrite (compare_loop_antisym (rev a)). rewrite Z.ltb_lt, Z.ltb_ge. lia.
Qed.

Lemma op_lt_irrefl a : op_lt a a = false.
Proof.
  unfold op_lt, CompareTo. rewrite Z.ltb_ge. pose proof (compare_loop_antisym (rev a) (rev a)). lia.
Qed.

#[export] Instance candidate_le_total : Total candidate_le.
Proof.
  intros a b. unfold candidate_le, candidate_lt. destruct (op_lt b.2 a.2) eqn:E.
  - apply op_lt_asym in E. rewrite E.
    destruct (Z.ltb_spec a.1 b.1), (Z.ltb_spec b.1 a.1); cbn; first [by left|by right|lia].
  - destruct (Z.ltb_spec a.1 b.1), (Z.ltb_spec b.1 a.1); cbn; first [by left|by right|lia].
Qed.

Lemma candidate_le_time a b : candidate_le a b → a.1 <= b.1.
Proof.
  unfold candidate_le, candidate_lt. rewrite orb_false_iff, Z.ltb_ge. tauto.
Qed.

Lemma length_limbs_of_bytes n bs : length (limbs_of_bytes n bs) = n.
Proof. revert bs. induction n as [|n IH]; intros bs; [done|]. cbn. by rewrite IH. Qed.

Lemma length_op_shr a shift : length (op_shr a shift) = length a.
Proof.
  unfold op_shr. assert (∀ l pn, length (foldl (shr_step a (shift / 32) (shift mod 32)) pn l) = length pn) as H.
  { induction l as [|i l IH]; intros pn; [done|]. cbn. rewrite IH. unfold shr_step, setz.
    repeat case_match; by rewrite ?length_insert. }
  by rewrite H, length_replicate.
Qed.

#[local] Opaque Hash.

Lemma length_selection_hash v2 m p : length (selection_hash v2 m p) = 8%nat.
Proof. unfold selection_hash. case_match; rewrite ?length_op_shr; apply length_limbs_of_bytes. Qed.

(** ** One selection *)

Definition tag (b : CBlockIndex) : Z * list Z := (GetBlockTime b, GetBlockHash b).
Definition hashes (bs : list CBlockIndex) : gset (list Z) := list_to_set (map GetBlockHash bs).
Definition oldest_first (bs : list CBlockIndex) : Prop := StronglySorted (λ a b, GetBlockTime a <= GetBlockTime b) bs.

(** The block a round must choose among [bs], once [chosen] are taken: of those not
    later than [stop] one with the lowest selection hash, and failing any the
    earliest one. *)
Record best_choice (key : CBlockIndex → list Z) (bs : list CBlockIndex) (stop : Z) (chosen : list CBlockIndex)
    (c : CBlockIndex) : Prop := {
  choice_candidate : c ∈ bs;
  choice_new : GetBlockHash c ∉ hashes chosen;
  choice_best :
    (GetBlockTime c <= stop ∧
     ∀ q, q ∈ bs → GetBlockHash q ∉ hashes chosen → GetBlockTime q <= stop → op_lt (key q) (key c) = false) ∨
    (stop < GetBlockTime c ∧
     ∀ q, q ∈ bs → GetBlockHash q ∉ hashes chosen → GetBlockTime c <= GetBlockTime q)
}.

Definition indexed (m : gmap (list Z) CBlockIndex) (bs : list CBlockIndex) : Prop :=
  Forall (λ b, m !! GetBlockHash b = Some b) bs.

Section selection.
Context (params : CChainParams) (m : gmap (list Z) CBlockIndex) (prev : Z) (v2 : bool) (stop : Z).
Context (chosen : list CBlockIndex).

Abbreviation key := (selection_hash v2 prev).
Abbreviation new q := (GetBlockHash q ∉ hashes chosen).
Abbreviation run bs best := (select_loop params m (map tag bs) (hashes chosen) stop prev (Some v2) best).

Lemma select_from bs c :
  indexed m bs → oldest_first bs →
  ∃ c', run bs (Some (key c, c)) = Some (Some (key c', c')) ∧
    (c' = c ∨ c' ∈ bs ∧ new c' ∧ GetBlockTime c' <= stop) ∧ op_lt (key c) (key c') = false ∧
    ∀ q, q ∈ bs → new q → GetBlockTime q <= stop → op_lt (key q) (key c') = false.
Proof.
  intros Hi Hs. revert c. induction bs as [|x bs IH]; intros c.
  { exists c. split; [done|]. split; [by left|]. split; [apply op_lt_irrefl|]. set_solver. }
  apply Forall_cons in Hi as [Hx Hi]. apply StronglySorted_inv in Hs as [Hs Hfrom].
  specialize (IH Hi Hs). cbn [map select_loop tag snd]. rewrite Hx. cbn [andb].
  destruct (Z.ltb_spec stop (GetBlockTime x)) as [Hlate|Hin].
  { exists c. split; [done|]. split; [by left|]. split; [apply op_lt_irrefl|].
    intros q [->|Hq]%elem_of_cons _ Ht; [lia|]. rewrite Forall_forall in Hfrom. specialize (Hfrom q Hq). lia. }
  cbn [default id]. case_bool_decide as Hsel.
  { destruct (IH c) as (c' & E & Hc & Hle & Hall). exists c'. split; [done|]. split; [set_solver|].
    split; [done|]. intros q [->|Hq]%elem_of_cons Hq' Ht; [done|]. by apply Hall. }
  set (c1 := if op_lt (key x) (key c) then x else c).
  destruct (IH c1) as (c' & E & Hc & Hle & Hall). exists c'.
  split; [revert E; unfold c1; by destruct (op_lt (key x) (key c))|].
  assert (op_lt (key x) (key c1) = false ∧ op_lt (key c) (key c1) = false) as [H1 H2].
  { subst c1. destruct (op_lt (key x) (key c)) eqn:Elt; (split; [|]);
      first [exact (op_lt_irrefl _)|exact (op_lt_asym _ _ Elt)|exact Elt|reflexivity]. }
  assert (∀ q, op_lt (key q) (key c1) = false → op_lt (key q) (key c') = false) as Htrans.
  { intros q Hq. eapply op_le_trans, Hle; [..|exact Hq]; by rewrite !length_selection_hash. }
  split; [|split; [by apply Htrans|]].
  - destruct Hc as [->|(? & ? & ?)]; [|right; set_solver].
    subst c1. destruct (op_lt (key x) (key c)); [right|by left]. split; [apply list_elem_of_here|done].
  - intros q [->|Hq]%elem_of_cons Hq' Ht; [by apply Htrans|by apply Hall].
Qed.

Lemma select_first bs :
  indexed m bs → oldest_first bs → (∃ q, q ∈ bs ∧ new q) →
  ∃ c, run bs None = Some (Some (key c, c)) ∧ best_choice key bs stop chosen c.
Proof.
  intros Hi Hs (q0 & Hq0 & Hnew0). induction bs as [|x bs IH]; [set_solver|].
  apply Forall_cons in Hi as [Hx Hi]. apply StronglySorted_inv in Hs as [Hs Hfrom].
  cbn [map select_loop tag snd]. rewrite Hx. cbn [andb default id]. case_bool_decide as Hsel.
  { destruct IH as (c & E & [Hc Hn Hb]); [done..|set_solver|]. exists c. split; [done|].
    split; [set_solver|done|]. destruct Hb as [[? Hb]|[? Hb]]; [left|right]; (split; [done|]);
      intros q [->|Hq]%elem_of_cons; naive_solver. }
  destruct (select_from bs x Hi Hs) as (c & E & Hc & Hle & Hall). exists c. split; [done|].
  rewrite Forall_forall in Hfrom.
  assert (c ∈ x :: bs ∧ new c) as [Hin Hn] by (destruct Hc as [->|(? & ? & ?)]; split; set_solver).
  split; [done..|]. destruct (Z.le_gt_cases (GetBlockTime c) stop) as [Ht|Ht]; [left|right]; (split; [lia|]).
  - intros q [->|Hq]%elem_of_cons Hq' Hqt; [done|by apply Hall].
  - destruct Hc as [->|(? & ? & ?)]; [|lia]. intros q [->|Hq]%elem_of_cons _; [lia|]. by apply Hfrom.
Qed.
End selection.

(** ** The rounds *)

(** The number with the given bits, the lowest first. *)
Fixpoint bits_value (bits : list Z) : Z :=
  match bits with
  | [] => 0
  | b :: bits => b + 2 * bits_value bits
  end.

(** The end of the interval of round [i], counted from 0. *)
Definition round_stop (start : Z) (i : nat) : Z :=
  foldl (λ n s, n + GetStakeModifierSelectionIntervalSection s) start (map Z.of_nat (seq 0 (S i))).

Lemma GetStakeEntropyBit_range p : 0 <= GetStakeEntropyBit p <= 1.
Proof. unfold GetStakeEntropyBit. rewrite (Z.land_ones _ 1) by lia. pose proof (Z.mod_pos_bound (Get64 (phashBlock p) 0) (2 ^ 1) ltac:(lia)). lia. Qed.

Lemma add_entropy_bit acc b r :
  0 <= r < 64 → 0 <= acc < 2 ^ r → 0 <= b <= 1 →
  Z.lor acc (u64 (Z.shiftl b r)) = acc + 2 ^ r * b ∧ 0 <= acc + 2 ^ r * b < 2 ^ (r + 1).
Proof.
  intros Hr Hacc Hb. rewrite shiftl_mul by lia.
  pose proof (Z.pow_pos_nonneg 2 r ltac:(lia) ltac:(lia)) as Hp.
  pose proof (Z.pow_lt_mono_r 2 r 64 ltac:(lia) ltac:(lia) ltac:(lia)) as H64.
  rewrite Z.pow_add_r, Z.pow_1_r by lia. rewrite wrap_small by (unfold in_uw; nia).
  split; [|nia]. rewrite Z.lor_comm, (lor_add _ _ r); [lia..|].
  by rewrite Z.mod_mul by lia.
Qed.

Lemma hashes_snoc chosen c : {[GetBlockHash c]} ∪ hashes chosen = hashes (chosen ++ [c]).
Proof. apply leibniz_equiv. unfold hashes. rewrite map_app, list_to_set_app. cbn. set_solver. Qed.

Lemma unchosen_remains bs chosen :
  NoDup (map GetBlockHash bs) → (length chosen < length bs)%nat →
  ∃ q, q ∈ bs ∧ GetBlockHash q ∉ hashes chosen.
Proof.
  intros Hnd Hlen.
  destruct (decide (Exists (λ q, GetBlockHash q ∉ hashes chosen) bs)) as [H|H].
  { apply Exists_exists in H as (q & ? & ?). by exists q. }
  exfalso. apply not_Exists_Forall in H; [|apply _]. rewrite Forall_forall in H.
  assert (map GetBlockHash bs ⊆+ map GetBlockHash chosen) as Hs.
  { apply NoDup_submseteq; [done|]. intros h (q & -> & Hq)%list_elem_of_fmap.
    specialize (H q Hq). apply dec_stable in H. by apply elem_of_list_to_set in H. }
  apply submseteq_length in Hs. rewrite !length_map in Hs. lia.
Qed.

Section rounds.
Context (params : CChainParams) (m : gmap (list Z) CBlockIndex) (prev : Z) (bs : list CBlockIndex) (b0 : CBlockIndex).
Hypothesis first_block : head bs = Some b0.
Hypothesis bs_indexed : indexed m bs.
Hypothesis bs_sorted : oldest_first bs.
Hypothesis bs_distinct : NoDup (map GetBlockHash bs).

Abbreviation key := (selection_hash (nModifierUpdateBlock params <=? nHeight b0) prev).

Lemma select_spec stop chosen :
  (length chosen < length bs)%nat →
  ∃ c, SelectBlockFromCandidates params m (map tag bs) (hashes chosen) stop prev = Some c ∧
    best_choice key bs stop chosen c.
Proof.
  intros Hlen. pose proof (unchosen_remains bs chosen bs_distinct Hlen) as Hex.
  destruct (select_first params m prev (nModifierUpdateBlock params <=? nHeight b0) stop chosen bs)
    as (c & E & Hc); [done..|].
  exists c. split; [|done]. unfold SelectBlockFromCandidates.
  clear -E first_block bs_indexed. destruct bs as [|x r]; [done|]. injection first_block as ->.
  apply Forall_cons in bs_indexed as [Hx _]. revert E. cbn [map select_loop tag snd]. rewrite Hx.
  cbn [andb default id]. by intros ->.
Qed.

Lemma rounds_spec n r acc stop chosen :
  (r + n <= 64)%nat → length chosen = r → (r + n <= length bs)%nat →
  NoDup (map GetBlockHash chosen) → 0 <= acc < 2 ^ Z.of_nat r →
  ∃ cs,
    rounds_loop params m (map Z.of_nat (seq r n)) (map tag bs) prev acc stop (hashes chosen) =
      Some (acc + 2 ^ Z.of_nat r * bits_value (map GetStakeEntropyBit cs)) ∧
    length cs = n ∧ NoDup (map GetBlockHash (chosen ++ cs)) ∧
    ∀ i c, cs !! i = Some c →
      best_choice key bs
        (foldl (λ n s, n + GetStakeModifierSelectionIntervalSection s) stop (map Z.of_nat (seq r (S i))))
        (chosen ++ take i cs) c.
Proof.
  revert r acc stop chosen. induction n as [|n IH]; intros r acc stop chosen Hr Hlen Hbs Hnd Hacc.
  { exists []. cbn. rewrite app_nil_r. split; [f_equal; lia|]. done. }
  cbn [seq map rounds_loop].
  set (stop' := stop + GetStakeModifierSelectionIntervalSection (Z.of_nat r)).
  destruct (select_spec stop' chosen) as (c & -> & Hc); [lia|].
  destruct (add_entropy_bit acc (GetStakeEntropyBit c) (Z.of_nat r)) as [-> Hacc'];
    [lia|done|apply GetStakeEntropyBit_range|].
  rewrite hashes_snoc.
  destruct (IH (S r) (acc + 2 ^ Z.of_nat r * GetStakeEntropyBit c) stop' (chosen ++ [c]))
    as (cs & E & Hl & Hnd' & Hbest).
  - lia.
  - rewrite length_app. cbn. lia.
  - lia.
  - rewrite map_app. cbn. apply NoDup_app. split; [done|]. split; [|apply NoDup_singleton].
    intros h Hh ->%list_elem_of_singleton. apply (choice_new _ _ _ _ _ Hc). by apply elem_of_list_to_set.
  - by rewrite Nat2Z.inj_succ.
  - exists (c :: cs). rewrite E. split.
    { f_equal. cbn [map bits_value]. rewrite Nat2Z.inj_succ, Z.pow_succ_r by lia. lia. }
    split; [cbn; lia|]. rewrite <- app_assoc in Hnd'. split; [done|].
    intros [|i] c' Hi; cbn [lookup list_lookup] in Hi.
    + injection Hi as <-. cbn. by rewrite app_nil_r.
    + specialize (Hbest i c' Hi). rewrite <- app_assoc in Hbest. done.
Qed.
End rounds.

(** ** The next modifier *)

(** The blocks at the top of an ancestry that are not older than [start]. *)
Fixpoint interval_blocks (start : Z) (bs : list CBlockIndex) : list CBlockIndex :=
  match bs with
  | b :: bs => if start <=? GetBlockTime b then b :: interval_blocks start bs else []
  | [] => []
  end.

Definition interval_start (p : CBlockIndex) : Z :=
  (GetBlockTime p / MODIFIER_INTERVAL) * MODIFIER_INTERVAL - GetStakeModifierSelectionInterval.

Lemma candidates_loop_spec p start : candidates_loop p start = map tag (interval_blocks start (ancestry p)).
Proof.
  induction p as [p IH _] using CBlockIndex_tree_ind. rewrite ancestry_unfold.
  destruct p as [? pp ? ? ? ? ? ? ? ? ? ? ? ? ? ? ?]. cbn [candidates_loop interval_blocks pprev] in *.
  case_match; [|done]. cbn [map]. f_equal. destruct pp as [q|]; [by apply IH|done].
Qed.

Lemma interval_blocks_sub start bs : interval_blocks start bs `sublist_of` bs.
Proof.
  induction bs as [|b bs IH]; cbn; [constructor|]. case_match; [by constructor|]. apply sublist_nil_l.
Qed.

Lemma GetLastStakeModifier_spec p :
  GetLastStakeModifier p = (λ b, (nStakeModifier b, GetBlockTime b)) <$> List.find GeneratedStakeModifier (ancestry p).
Proof.
  induction p as [p IH _] using CBlockIndex_tree_ind. rewrite ancestry_unfold. cbn [List.find].
  destruct p as [? pp ? ? ? ? ? ? ? ? ? ? ? ? ? ? ?]. cbn [GetLastStakeModifier pprev] in *.
  destruct pp as [q|]; case_match; try done. by apply IH.
Qed.

Lemma sort_candidates_spec bs :
  ∃ bs', sort_candidates (map tag bs) = map tag bs' ∧ bs' ≡ₚ bs ∧ oldest_first bs'.
Proof.
  unfold sort_candidates. set (v := merge_sort _ _).
  assert (v ≡ₚ map tag bs) as Hv.
  { unfold v. rewrite merge_sort_Permutation. by rewrite <- Permutation_rev. }
  destruct (Permutation_map_inv tag bs Hv) as (bs' & E & Hp). exists bs'. split; [done|]. split; [done|].
  assert (StronglySorted (λ a b : Z * list Z, a.1 <= b.1) v) as Hs.
  { apply Sorted_StronglySorted; [intros a b c; lia|].
    assert (Sorted candidate_le v) as H by (apply Sorted_merge_sort, _). clear -H.
    induction H as [|x l Hl IH Hd]; constructor; [done|].
    destruct Hd; constructor. by apply candidate_le_time. }
  rewrite E in Hs. clear -Hs. unfold oldest_first. induction bs' as [|b bs IH]; cbn in Hs; [constructor|].
  apply StronglySorted_inv in Hs as [Hs Hf]. constructor; [by apply IH|]. rewrite Forall_map in Hf. done.
Qed.

#[local] Opaque Z.div.

Section next_modifier.
Context (params : CChainParams) (m : gmap (list Z) CBlockIndex) (literal : Z).

(** What AddToBlockIndex establishes: every block but the first has the modifier
    computed from its predecessor, and is marked if the modifier is new. *)
Inductive kernel_index : CBlockIndex → Prop :=
| kernel_first p : pprev p = None → nHeight p = 0 → kernel_index p
| kernel_next p q ok :
    pprev p = Some q → kernel_index q → nHeight p = nHeight q + 1 →
    ComputeNextStakeModifier params m literal (Some q) = (ok, nStakeModifier p, GeneratedStakeModifier p) →
    kernel_index p.

Lemma kernel_height p : kernel_index p → 0 <= nHeight p.
Proof. induction 1; lia. Qed.

Lemma last_modifier_exists p :
  kernel_index p → 0 < nHeight p → ∃ b, List.find GeneratedStakeModifier (ancestry p) = Some b.
Proof.
  induction 1 as [p _ H0|p q ok Hprev Hq IH Hh Hc]; [lia|]. intros _.
  rewrite ancestry_unfold, Hprev. cbn [List.find].
  destruct (GeneratedStakeModifier p) eqn:Hg; [by eexists|].
  apply IH. pose proof (kernel_height q Hq). cut (nHeight q ≠ 0); [lia|]. intros H0.
  revert Hc. cbn [ComputeNextStakeModifier]. by rewrite H0.
Qed.

Lemma kernel_descends p a : kernel_index p → a ∈ ancestry p → nHeight a <= nHeight p.
Proof.
  induction 1 as [p Hp H0|p q ok Hprev Hq IH Hh _]; rewrite ancestry_unfold, ?Hp, ?Hprev, elem_of_cons.
  - intros [->|H]; [lia|set_solver].
  - intros [->|H]; [lia|]. specialize (IH H). lia.
Qed.

Lemma ancestry_distinct p :
  kernel_index p → indexed m (ancestry p) → NoDup (map GetBlockHash (ancestry p)).
Proof.
  induction 1 as [p Hp H0|p q ok Hprev Hq IH Hh _]; rewrite ancestry_unfold, ?Hp, ?Hprev; intros Hi.
  - apply NoDup_singleton.
  - apply Forall_cons in Hi as [Hp Hi]. cbn [map]. constructor; [|by apply IH].
    intros (a & Heq & Ha)%list_elem_of_fmap. unfold indexed in Hi. rewrite Forall_forall in Hi.
    specialize (Hi a Ha). rewrite <- Heq, Hp in Hi. injection Hi as ->.
    pose proof (kernel_descends q a Hq Ha). lia.
Qed.

Lemma sections_take n : (n <= 64)%nat → take n sections = map Z.of_nat (seq 0 n).
Proof. intros H. unfold sections. rewrite <- fmap_take, take_seq by lia. by rewrite Nat.min_l by lia. Qed.

(** The blocks that give the modifier after [p] its bits, for the modifier [prev]. *)
Definition selected_blocks (prev : Z) (p : CBlockIndex) (bs chosen : list CBlockIndex) : Prop :=
  bs ≡ₚ interval_blocks (interval_start p) (ancestry p) ∧ oldest_first bs ∧
  length chosen = Nat.min 64 (length bs) ∧ NoDup (map GetBlockHash chosen) ∧
  ∀ b0 i c, head bs = Some b0 → chosen !! i = Some c →
    best_choice (selection_hash (nModifierUpdateBlock params <=? nHeight b0) prev) bs
      (round_stop (interval_start p) i) (take i chosen) c.

Lemma next_modifier p last :
  kernel_index p → 0 < nHeight p → indexed m (ancestry p) →
  List.find GeneratedStakeModifier (ancestry p) = Some last →
  ComputeNextStakeModifier params m literal (Some p) =
    if GetBlockTime p / MODIFIER_INTERVAL <=? GetBlockTime last / MODIFIER_INTERVAL
    then (true, nStakeModifier last, false)
    else match rounds_loop params m
                 (take (length (sort_candidates (candidates_loop p (interval_start p)))) sections)
                 (sort_candidates (candidates_loop p (interval_start p))) (nStakeModifier last) 0
                 (interval_start p) ∅ with
         | Some new => (true, new, true)
         | None => (false, nStakeModifier last, false)
         end.
Proof.
  intros Hk Hh Hi E. cbn [ComputeNextStakeModifier]. destruct (Z.eqb_spec (nHeight p) 0); [lia|].
  rewrite GetLastStakeModifier_spec, E. reflexivity.
Qed.

Lemma rounds_of_interval p prev :
  kernel_index p → indexed m (ancestry p) →
  ∃ bs chosen, selected_blocks prev p bs chosen ∧
    rounds_loop params m (take (length (sort_candidates (candidates_loop p (interval_start p)))) sections)
      (sort_candidates (candidates_loop p (interval_start p))) prev 0 (interval_start p) ∅ =
    Some (bits_value (map GetStakeEntropyBit chosen)).
Proof.
  intros Hk Hi. set (start := interval_start p). rewrite candidates_loop_spec.
  set (window := interval_blocks start (ancestry p)).
  assert (window `sublist_of` ancestry p) as Hsub by apply interval_blocks_sub.
  destruct (sort_candidates_spec window) as (bs & -> & Hp & Hs). rewrite length_map.
  assert (indexed m bs) as Hib.
  { unfold indexed in *. rewrite Hp. rewrite Forall_forall in Hi |- *. intros b Hb. apply Hi.
    by eapply elem_of_sublist. }
  assert (NoDup (map GetBlockHash bs)) as Hnd.
  { rewrite Hp. eapply sublist_NoDup; [by apply ancestry_distinct|]. by apply fmap_sublist. }
  assert (take (length bs) sections = map Z.of_nat (seq 0 (Nat.min 64 (length bs)))) as ->.
  { rewrite <- (sections_take (Nat.min 64 (length bs))) by lia.
    destruct (Nat.le_gt_cases (length bs) 64); [by rewrite Nat.min_r by lia|].
    rewrite Nat.min_l by lia. rewrite !take_ge; [done|cbn; lia..]. }
  destruct bs as [|b0 r] eqn:Ebs.
  { exists [], []. split; [|done]. split_and!; [done..|]. intros. done. }
  rewrite <- Ebs in *.
  destruct (rounds_spec params m prev bs b0) with (n := Nat.min 64 (length bs)) (r := 0%nat) (acc := 0)
    (stop := start) (chosen := @nil CBlockIndex) as (cs & E & Hl & Hnd' & Hbest);
    [by rewrite Ebs|done|done|done|lia|done|lia|constructor|cbn; lia|].
  exists bs, cs. split; [split_and!; try done|].
  - intros b0' i c Hb0. rewrite Ebs in Hb0. injection Hb0 as <-. apply Hbest.
  - unfold hashes in E. cbn in E. cbn. rewrite E. f_equal. lia.
Qed.
End next_modifier.

(** ** The modifier of a kernel *)

Definition modifier_of (b : CBlockIndex) : KernelModifier :=
  mkKernelModifier (nStakeModifier b) (nHeight b) (GetBlockTime b).

(** The blocks of the chain ending in [t] above a height. *)
Definition successors (t : CBlockIndex) (h : Z) : list CBlockIndex := drop (Z.to_nat (h + 1)) (rev (ancestry t)).

Definition late_generator (until : Z) (b : CBlockIndex) : bool :=
  GeneratedStakeModifier b && (until <=? GetBlockTime b).

Definition last_generated (m : KernelModifier) (bs : list CBlockIndex) : KernelModifier :=
  foldl (λ m b, if GeneratedStakeModifier b then modifier_of b else m) m bs.

Lemma kernel_loop_spec c until bs fuel p m :
  (∀ j b, bs !! j = Some b → chain_at c (nHeight b + 1) = bs !! S j) →
  (length bs < fuel)%nat → km_nStakeModifierTime m < until →
  kernel_loop fuel c until p (head bs) m =
    match List.find (late_generator until) bs with
    | Some b => Ok (modifier_of b)
    | None =>
        let m := last_generated m bs in
        if km_nStakeModifier m =? 0 then Throw (Crash NullDereference) else Ok m
    end.
Proof.
  revert fuel p m. induction bs as [|b bs IH]; intros fuel p m Hc Hf Ht;
    (destruct fuel as [|fuel]; [cbn in Hf; lia|]); cbn [kernel_loop head];
    (destruct (Z.ltb_spec (km_nStakeModifierTime m) until); [|lia]).
  { cbn. by destruct (_ =? 0). }
  rewrite (Hc 0%nat b eq_refl). cbn [lookup list_lookup].
  replace (bs !! 0%nat) with (head bs) by (by destruct bs).
  cbn [List.find last_generated foldl]. unfold late_generator at 1.
  assert (∀ j b', bs !! j = Some b' → chain_at c (nHeight b' + 1) = bs !! S j) as Hc'
    by (intros j; apply (Hc (S j))).
  cbn [length] in Hf.
  destruct (GeneratedStakeModifier b); cbn [andb]; [|apply IH; done || lia].
  destruct (Z.leb_spec until (GetBlockTime b)) as [Hlate|Hearly]; [|apply IH; cbn; done || lia].
  destruct fuel as [|fuel]; [lia|]. cbn [kernel_loop km_nStakeModifierTime].
  destruct (Z.ltb_spec (GetBlockTime b) until); [lia|]. done.
Qed.

Lemma last_generated_spec m bs :
  last_generated m bs =
    match last (filter (λ b, GeneratedStakeModifier b) bs) with Some b => modifier_of b | None => m end.
Proof.
  revert m. induction bs as [|b bs IH]; intros m; [done|]. cbn [last_generated foldl].
  rewrite filter_cons. fold (last_generated (if GeneratedStakeModifier b then modifier_of b else m) bs). rewrite IH.
  case_decide as Hb; destruct (GeneratedStakeModifier b); try done.
  rewrite last_cons. by destruct (last _).
Qed.

Lemma find_app {A} (f : A → bool) l l' x : List.find f l = Some x → List.find f (l ++ l') = Some x.
Proof. induction l as [|y l IH]; [done|]. cbn. by destruct (f y). Qed.

Lemma chain_lookup t h :
  wf_index t → 0 <= h → chain_at (chain_of t) h = rev (ancestry t) !! Z.to_nat h.
Proof.
  intros Ht Hh. rewrite chain_at_of by done. destruct (Z.leb_spec 0 h); [|lia].
  destruct (Z.leb_spec h (nHeight t)); cbn [andb]; [by rewrite ancestry_lookup by (done || lia)|].
  symmetry. apply lookup_ge_None. rewrite length_rev. pose proof (length_ancestry t Ht). lia.
Qed.

Lemma successors_lookup t h j :
  successors t h !! j = rev (ancestry t) !! (Z.to_nat (h + 1) + j)%nat.
Proof. apply lookup_drop. Qed.

Lemma successors_chain t h j b :
  wf_index t → 0 <= h → successors t h !! j = Some b →
  nHeight b = h + 1 + Z.of_nat j ∧ chain_at (chain_of t) (nHeight b + 1) = successors t h !! S j.
Proof.
  intros Ht Hh E. rewrite successors_lookup in E.
  pose proof (lookup_lt_Some _ _ _ E) as Hlt. rewrite length_rev in Hlt. pose proof (length_ancestry t Ht).
  replace (Z.to_nat (h + 1) + j)%nat with (Z.to_nat (h + 1 + Z.of_nat j)) in E by lia.
  rewrite ancestry_lookup in E by (done || lia). apply ancestor_height in E. split; [done|].
  rewrite chain_lookup, successors_lookup by (done || lia). f_equal. lia.
Qed.

Lemma length_successors t h : wf_index t → 0 <= h → (length (successors t h) <= length (vChain (chain_of t)))%nat.
Proof.
  intros Ht Hh. unfold successors. rewrite length_drop, length_rev. cbn. rewrite length_map, length_rev. lia.
Qed.

Lemma successors_extend t t' h :
  wf_index t' → t ∈ ancestry t' → ∃ more, successors t' h = successors t h ++ more.
Proof.
  intros Hwf Ht. assert (∃ more, rev (ancestry t') = rev (ancestry t) ++ more) as [more E].
  { clear h. induction Hwf as [p Hp _ _|p q Hp Hq IH _ _]; rewrite (ancestry_unfold p), Hp in Ht.
    - apply list_elem_of_singleton in Ht as ->. exists []. by rewrite app_nil_r.
    - apply elem_of_cons in Ht as [->|Ht]; [exists []; by rewrite app_nil_r|].
      destruct (IH Ht) as [more E]. exists (more ++ [p]).
      rewrite (ancestry_unfold p), Hp. cbn [rev]. by rewrite E, <- app_assoc. }
  unfold successors. rewrite E, drop_app. by eexists.
Qed.

Lemma selection_interval : GetStakeModifierSelectionInterval = 2087.
Proof. by vm_compute. Qed.

#[local] Opaque GetStakeModifierSelectionInterval.

Lemma kernel_modifier_spec m t from :
  wf_index t → m !! GetBlockHash from = Some from → 0 <= nHeight from →
  GetKernelStakeModifier m (chain_of t) (GetBlockHash from) =
    match List.find (late_generator (GetBlockTime from + GetStakeModifierSelectionInterval))
            (successors t (nHeight from)) with
    | Some b => Ok (Some (modifier_of b))
    | None =>
        let r := last_generated (mkKernelModifier 0 (nHeight from) (GetBlockTime from)) (successors t (nHeight from)) in
        if km_nStakeModifier r =? 0 then Throw (Crash NullDereference) else Ok (Some r)
    end.
Proof.
  intros Ht Hm Hh. unfold GetKernelStakeModifier. rewrite Hm.
  assert (chain_at (chain_of t) (nHeight from + 1) = head (successors t (nHeight from))) as ->.
  { rewrite chain_lookup by (done || lia). pose proof (successors_lookup t (nHeight from) 0) as E.
    rewrite Nat.add_0_r in E. rewrite <- E. by destruct (successors _ _). }
  rewrite kernel_loop_spec.
  - case_match; [done|]. cbn zeta. by case_match.
  - intros j b Hb. by apply (successors_chain t (nHeight from) j b).
  - pose proof (length_successors t (nHeight from) Ht Hh). lia.
  - cbn [km_nStakeModifierTime]. rewrite selection_interval. lia.
Qed.

(** ** The search for a kernel *)

Lemma stakeTargetHit_total h v target :
  ∃ b, stakeTargetHit h v target = Ok b.
Proof.
  unfold stakeTargetHit.
  destruct (op_div_repr 8 (uint256 (u64 v)) (uint256 100) (u64 v) 100) as (q & -> & _);
    [lia|apply uint256_repr, wrap_range; lia|apply uint256_repr; split; lia|lia|].
  by eexists.
Qed.

(** The hash meets the target if it is below the product of the target of a coin
    and the hundredth of the value, as a number of 256 bits. *)
Lemma stakeTargetHit_spec h v target x y :
  repr 8 h x → repr 8 target y →
  stakeTargetHit h v target = Ok (x <? (u64 v / 100 * y) mod 2 ^ 256).
Proof.
  intros Hx Hy. unfold stakeTargetHit.
  destruct (op_div_repr 8 (uint256 (u64 v)) (uint256 100) (u64 v) 100) as (q & -> & Hq);
    [lia|apply uint256_repr, wrap_range; lia|apply uint256_repr; split; lia|lia|].
  cbn [of_uint rbind]. f_equal.
  pose proof (op_mul_repr 8 q target _ _ Hq Hy) as Hm.
  unfold op_lt. rewrite (CompareTo_repr 8 _ _ _ _ Hx Hm). change (modulus 8) with (2 ^ 256).
  set (z := _ mod 2 ^ 256). destruct (Z.ltb_spec x z), (Z.ltb_spec (Z.sgn (x - z)) 0); lia.
Qed.

Section search.
Context (moved : Z → bool) (hash_at : Z → list Z) (hit : list Z → result stop bool) (t drift : Z) (h0 : list Z).
Hypothesis hit_total : ∀ h, ∃ b, hit h = Ok b.
Hypothesis no_overflow : 0 <= t ∧ 0 <= drift ∧ t + drift < 2 ^ 32.

(** The times are tried from the latest down. *)
Lemma search_loop_spec n i h :
  0 <= i → i + Z.of_nat n = drift →
  ∃ r, search_loop n i moved hash_at hit t drift h = Ok r ∧
    (sc_ok r = true →
       t < sc_nTimeTx r <= t + drift - i ∧ sc_hashProofOfStake r = hash_at (sc_nTimeTx r) ∧
       hit (hash_at (sc_nTimeTx r)) = Ok true ∧
       ∀ u, sc_nTimeTx r < u <= t + drift - i → hit (hash_at u) = Ok false) ∧
    (sc_ok r = false → sc_nTimeTx r = t ∧
       ((∀ u, t < u <= t + drift - i → hit (hash_at u) = Ok false) ∨ ∃ j, i <= j < drift ∧ moved j = true)).
Proof.
  revert i h. induction n as [|n IH]; intros i h Hi Hn; cbn [search_loop].
  { eexists. split; [done|]. cbn. split; [done|]. intros _. split; [done|]. left. intros u Hu. lia. }
  destruct (moved i) eqn:Hm.
  { eexists. split; [done|]. cbn. split; [done|]. intros _. split; [done|]. right. exists i. split; [lia|done]. }
  rewrite (wrap_small 32 (t + drift - i)) by (unfold in_uw; lia). cbn zeta.
  destruct (hit_total (hash_at (t + drift - i))) as [[] Hb]; rewrite Hb; cbn [rbind].
  { eexists. split; [done|]. cbn. split; [|done]. intros _. split_and!; try done; lia. }
  destruct (IH (i + 1) (hash_at (t + drift - i))) as (r & -> & Hok & Hno); [lia..|].
  exists r. split; [done|]. split.
  - intros H. destruct (Hok H) as (? & ? & ? & Hlater). split_and!; try done; try lia.
    intros u Hu. destruct (decide (u = t + drift - i)) as [->|]; [done|]. apply Hlater. lia.
  - intros H. destruct (Hno H) as (Et & Hcase). split; [exact Et|].
    destruct Hcase as [Hnone|(j & ? & ?)]; [left|right].
    + intros u Hu. destruct (decide (u = t + drift - i)) as [->|]; [done|]. apply Hnone. lia.
    + exists j. split; [lia|done].
Qed.
End search.

(** ** The modifier depends on the ancestors only *)

Section independence.
Context (params : CChainParams) (m m' : gmap (list Z) CBlockIndex).

Lemma rounds_independent rounds v prev acc stop sel :
  Forall (λ item, m !! item.2 = m' !! item.2) v →
  rounds_loop params m rounds v prev acc stop sel = rounds_loop params m' rounds v prev acc stop sel.
Proof.
  intros Hv. revert acc stop sel. induction rounds as [|r rounds IH]; intros acc stop sel; [done|].
  cbn [rounds_loop]. unfold SelectBlockFromCandidates.
  assert (∀ sel stop v2 best,
    select_loop params m v sel stop prev v2 best = select_loop params m' v sel stop prev v2 best) as ->.
  { clear IH. induction Hv as [|item v Hi Hv IH]; intros sel' stop' v2 best; [done|].
    cbn [select_loop]. rewrite Hi. destruct (m' !! item.2); [|done].
    destruct (_ && _); [done|]. case_bool_decide; apply IH. }
  destruct (select_loop _ _ _ _ _ _ _ _) as [[[h c]|]|]; [apply IH|done..].
Qed.

Lemma modifier_independent literal p :
  indexed m (ancestry p) → indexed m' (ancestry p) →
  ComputeNextStakeModifier params m literal (Some p) = ComputeNextStakeModifier params m' literal (Some p).
Proof.
  intros Hm Hm'. cbn [ComputeNextStakeModifier]. case_match; [done|]. case_match; [|done]. case_match. case_match; [done|].
  rewrite rounds_independent; [done|]. rewrite candidates_loop_spec.
  destruct (sort_candidates_spec (interval_blocks
    (GetBlockTime p / getIntervalVersion fTestNet * getIntervalVersion fTestNet - GetStakeModifierSelectionInterval)
    (ancestry p))) as (bs & -> & Hp & _).
  rewrite Forall_map, Hp. rewrite Forall_forall. intros b Hb. cbn.
  assert (b ∈ ancestry p) as Hin by (eapply elem_of_sublist; [exact Hb|apply interval_blocks_sub]).
  unfold indexed in *. rewrite Forall_forall in Hm, Hm'. by rewrite (Hm b Hin), (Hm' b Hin).
Qed.
End independence.

(** ** The index AddToBlockIndex links *)

Lemma linked_generated flags bit (g : bool) :
  (flags = 0 ∨ flags = BLOCK_PROOF_OF_STAKE) →
  negb (Z.land (if g then Z.lor (SetStakeEntropyBit flags bit) BLOCK_STAKE_MODIFIER else SetStakeEntropyBit flags bit)
          BLOCK_STAKE_MODIFIER =? 0) = g.
Proof.
  intros Hf. unfold SetStakeEntropyBit. destruct (1 <? bit), (bit =? 0), g, Hf as [->| ->]; reflexivity.
Qed.

Lemma link_keeps_kernel params m literal s hash block stake k p prev :
  link_index s hash block stake k = Ok p →
  BlockTree.mapBlockIndex s !! hashPrevBlock block = Some prev → kernel_index params m literal prev →
  (ComputeNextStakeModifier params m literal (Some prev)).1.2 = k_nStakeModifier k →
  (ComputeNextStakeModifier params m literal (Some prev)).2 = k_fGenerated k →
  kernel_index params m literal p.
Proof.
  unfold link_index. intros Hl Hprev Hk Hmod Hgen. rewrite Hprev in Hl.
  destruct (ComputeNextStakeModifier params m literal (Some prev)) as [[ok new] g] eqn:Ec.
  cbn [fst snd] in Hmod, Hgen. subst new g.
  repeat (apply rbind_Ok in Hl as (? & _ & Hl)). injection Hl as <-.
  eapply (kernel_next _ _ _ _ prev ok); [done|done|done|]. rewrite Ec. f_equal.
  unfold GeneratedStakeModifier, new_index. cbn [nFlags]. symmetry. apply linked_generated.
  destruct stake; auto.
Qed.

(** ** Properties *)

(** C21: The next stake modifier is computed from the ancestors of the last block
    alone and never fails: within one modifier interval the last modifier stays;
    later, its bits are the entropy bits of distinct blocks of the selection
    interval, as many as there are up to 64, where round by round the block chosen
    has the lowest selection hash, under the last modifier, among the blocks left
    whose time the round has reached, and is the earliest one left if there is no
    such block. AddToBlockIndex keeps every index in the state this starts from. *)
Theorem stake_modifier_is_selected_entropy params m literal p :
  kernel_index params m literal p → 0 < nHeight p → indexed m (ancestry p) →
  (∃ last, List.find GeneratedStakeModifier (ancestry p) = Some last ∧
     if GetBlockTime p / MODIFIER_INTERVAL <=? GetBlockTime last / MODIFIER_INTERVAL
     then ComputeNextStakeModifier params m literal (Some p) = (true, nStakeModifier last, false)
     else ∃ bs chosen, selected_blocks params (nStakeModifier last) p bs chosen ∧
            ComputeNextStakeModifier params m literal (Some p) =
              (true, bits_value (map GetStakeEntropyBit chosen), true)) ∧
  (∀ m', indexed m' (ancestry p) →
     ComputeNextStakeModifier params m' literal (Some p) = ComputeNextStakeModifier params m literal (Some p)) ∧
  (∀ s hash block stake k p',
     link_index s hash block stake k = Ok p' →
     BlockTree.mapBlockIndex s !! hashPrevBlock block = Some p →
     (ComputeNextStakeModifier params m literal (Some p)).1.2 = k_nStakeModifier k →
     (ComputeNextStakeModifier params m literal (Some p)).2 = k_fGenerated k →
     kernel_index params m literal p').
Proof.
  intros Hk Hh Hi. split_and!.
  - destruct (last_modifier_exists params m literal p Hk Hh) as [last E]. exists last. split; [done|].
    rewrite (next_modifier params m literal p last) by done. case_match; [done|].
    destruct (rounds_of_interval params m literal p (nStakeModifier last) Hk Hi) as (bs & chosen & Hsel & ->).
    by exists bs, chosen.
  - intros m' Hi'. by apply modifier_independent.
  - intros s hash block stake k p' Hl Hprev Hm Hg. by eapply link_keeps_kernel.
Qed.

(** C23: The modifier a kernel is hashed with. It is the first one that a block of
    the chain above the coin's block generated a selection interval or more after
    that block, and then no longer chain changes it. Before that it is the last
    modifier generated above the coin's block; and where none is, or its value is
    zero, the loop runs off the end of the chain and dereferences null. The loop
    always ends. *)
Theorem kernel_modifier_settles m t from :
  wf_index t → m !! GetBlockHash from = Some from → 0 <= nHeight from →
  let until := GetBlockTime from + GetStakeModifierSelectionInterval in
  let r := GetKernelStakeModifier m (chain_of t) (GetBlockHash from) in
  match List.find (late_generator until) (successors t (nHeight from)) with
  | Some b =>
      r = Ok (Some (modifier_of b)) ∧
      ∀ t', wf_index t' → t ∈ ancestry t' → GetKernelStakeModifier m (chain_of t') (GetBlockHash from) = r
  | None =>
      match last (filter (λ b, GeneratedStakeModifier b) (successors t (nHeight from))) with
      | Some b => r = if nStakeModifier b =? 0 then Throw (Crash NullDereference) else Ok (Some (modifier_of b))
      | None => r = Throw (Crash NullDereference)
      end
  end.
Proof.
  intros Ht Hm Hh until r. unfold r. rewrite kernel_modifier_spec by done. fold until.
  destruct (List.find _ _) as [b|] eqn:Ef.
  - split; [done|]. intros t' Ht' Hin. rewrite kernel_modifier_spec by done. fold until.
    destruct (successors_extend t t' (nHeight from) Ht' Hin) as [more ->].
    by rewrite (find_app _ _ _ _ Ef).
  - cbn zeta. generalize (successors t (nHeight from)). intros bs. clear Ef r.
    rewrite last_generated_spec. by destruct (last _).
Qed.

Section stake.
Context (params : CChainParams) (m : gmap (list Z) CBlockIndex) (c : CChain) (argon2m_hash : list Z → list Z).

Abbreviation check := (CheckStakeKernelHash params m c argon2m_hash).

(** Where the search succeeds, checking a later time gives what the hash and the
    target say of it. *)
Lemma check_after_search nBits blockFrom txPrev prevout t drift moved h0 r :
  0 <= t → 0 <= drift → t + drift < 2 ^ 32 →
  check nBits blockFrom txPrev prevout t drift false moved h0 = Ok r → sc_ok r = true →
  t < sc_nTimeTx r <= t + drift ∧
  (∀ d mv h, check nBits blockFrom txPrev prevout (sc_nTimeTx r) d true mv h =
     Ok (mkStakeCheck true (sc_nTimeTx r) (sc_hashProofOfStake r))) ∧
  (∀ u d mv h, sc_nTimeTx r < u <= t + drift →
     ∃ hu, check nBits blockFrom txPrev prevout u d true mv h = Ok (mkStakeCheck false u hu)).
Proof.
  intros Ht Hd Hr. unfold CheckStakeKernelHash.
  destruct (vout txPrev !! _) as [out|]; [|done]. cbn zeta.
  destruct (Z.ltb_spec t (h_nTime blockFrom)) as [|Hfrom]; [by intros [= <-]|].
  destruct (Z.ltb_spec t (u32 (h_nTime blockFrom + nStakeMinAge params))) as [|Hage]; [by intros [= <-]|].
  destruct (GetKernelStakeModifier _ _ _) as [[km|]|e]; [|by intros [= <-]|done]. cbn [rbind].
  set (hash_at u := stakeHash u _ _ _ _). set (hit h := stakeTargetHit h _ _). intros Hs Hok.
  destruct (search_loop_spec moved hash_at hit t drift (λ h, stakeTargetHit_total _ _ _) ltac:(lia)
              (Z.to_nat drift) 0 h0 ltac:(lia) ltac:(lia)) as (r' & E & Hfound & _).
  assert (r' = r) as -> by congruence. destruct (Hfound Hok) as (Hrange & Hhash & Hhit & Hlater).
  split; [lia|]. split.
  - intros d mv h. destruct (Z.ltb_spec (sc_nTimeTx r) (h_nTime blockFrom)); [lia|].
    destruct (Z.ltb_spec (sc_nTimeTx r) (u32 (h_nTime blockFrom + nStakeMinAge params))); [lia|].
    unfold hit, hash_at in Hhit, Hhash. by rewrite Hhit, Hhash.
  - intros u d mv h Hu. exists (hash_at u). destruct (Z.ltb_spec u (h_nTime blockFrom)); [lia|].
    destruct (Z.ltb_spec u (u32 (h_nTime blockFrom + nStakeMinAge params))); [lia|].
    specialize (Hlater u ltac:(lia)). unfold hit, hash_at in Hlater |- *. by rewrite Hlater.
Qed.

(** C22: A kernel the wallet finds is accepted by every node with the same chain:
    the time found is after the one the search started from and at most the drift
    later, and CheckProofOfStake accepts, with the hash found, each block of that
    time and difficulty whose coinstake spends the same coin with a valid
    signature, given that the node finds the transaction and the block of the
    coin. The search finds the latest such time. *)
Theorem found_stake_is_accepted ecdsa_verify GetTransaction ReadBlockFromDisk
    nBits blockFrom txPrev txin t drift moved h0 r :
  0 <= t → 0 <= drift → t + drift < 2 ^ 32 →
  check nBits blockFrom txPrev (prevout txin) t drift false moved h0 = Ok r → sc_ok r = true →
  t < sc_nTimeTx r <= t + drift ∧
  (∀ u d mv h, sc_nTimeTx r < u <= t + drift →
     ∃ hu, check nBits blockFrom txPrev (prevout txin) u d true mv h = Ok (mkStakeCheck false u hu)) ∧
  (∀ block coinbase tx rest ins out pindex,
     vtx block = coinbase :: tx :: rest → IsCoinStake tx = true → vin tx = txin :: ins →
     h_nBits (header block) = nBits → h_nTime (header block) = sc_nTimeTx r →
     GetTransaction (out_hash (prevout txin)) = Some (txPrev, Block.GetHash argon2m_hash blockFrom) →
     vout txPrev !! Z.to_nat (out_n (prevout txin)) = Some out →
     script_check ecdsa_verify (scriptPubKey out) tx 0 STANDARD_SCRIPT_VERIFY_FLAGS = Ok () →
     m !! Block.GetHash argon2m_hash blockFrom = Some pindex → ReadBlockFromDisk pindex = Some blockFrom →
     CheckProofOfStake params m c argon2m_hash ecdsa_verify GetTransaction ReadBlockFromDisk block =
       Ok (Some (sc_hashProofOfStake r))).
Proof.
  intros Ht Hd Hr Hs Hok.
  destruct (check_after_search nBits blockFrom txPrev (prevout txin) t drift moved h0 r Ht Hd Hr Hs Hok)
    as (Hrange & Hcheck & Hlater).
  split; [done|]. split; [done|].
  intros block coinbase tx rest ins out pindex Hvtx Hcs Hvin Hbits Htime Hget Hout Hscript Hm Hread.
  unfold CheckProofOfStake. rewrite Hvtx, Hcs, Hvin, Hget, Hout, Hscript, Hm. cbn [negb fmap option_fmap option_map].
  rewrite Hread, Hbits, Htime, Hcheck. done.
Qed.
End stake.

(** ** Examples *)

#[local] Transparent Hash Z.div GetStakeModifierSelectionInterval.

(** The checkpoint of the first block is the checksum of a block that has no
    proof-of-stake hash and a new modifier of zero. *)
Example first_checkpoint_matches :
  rbind (GetStakeModifierChecksum (uint256 5)
           (mkBlockIndex (uint256 5) None None 0 (uint256 0) (uint256 0) BLOCK_STAKE_MODIFIER 0 0
              BlockTree.null_outpoint 0 (uint256 0) 1 (uint256 0) 1 1 1))
    (λ c, Ok (CheckStakeModifierCheckpoints 0 c)) = Ok true.
Proof. by vm_compute. Qed.

(** With the easiest target, 2^236, a stake of 2^20 hundreds never hits: the
    product is zero modulo 2^256. A smaller one does. *)
Example large_stakes_wrap_around :
  stakeTargetHit (uint256 1) (100 * 2 ^ 20) (op_shl (uint256 1) 236) = Ok false ∧
  stakeTargetHit (uint256 1) (100 * 2 ^ 19) (op_shl (uint256 1) 236) = Ok true.
Proof. by vm_compute. Qed.

Definition ex_index (q : option CBlockIndex) (skip : option CBlockIndex) (hash time flags modifier : Z) : CBlockIndex :=
  mkBlockIndex (uint256 hash) q skip (match q with Some q => nHeight q + 1 | None => 0 end) (uint256 0) (uint256 0)
    flags modifier 0 BlockTree.null_outpoint 0 (uint256 0) 1 (uint256 0) time 0 0.

Definition ex_k0 := ex_index None None 100 1000 0 0.
Definition ex_k1 := ex_index (Some ex_k0) (Some ex_k0) 101 1010 4 77.
Definition ex_k2 := ex_index (Some ex_k1) (Some ex_k0) 103 1100 1 77.
Definition ex_k3 := ex_index (Some ex_k2) (Some ex_k1) 105 4000 4 99.
Definition ex_kmap : gmap (list Z) CBlockIndex :=
  list_to_map (map (λ b, (phashBlock b, b)) [ex_k0; ex_k1; ex_k2; ex_k3]).

Lemma ex_kernel : kernel_index CMainParams ex_kmap 77 ex_k2.
Proof.
  eapply (kernel_next _ _ _ _ ex_k1 true); [done| |done|by vm_compute].
  eapply (kernel_next _ _ _ _ ex_k0 true); [done| |done|by vm_compute].
  by apply kernel_first.
Qed.

Lemma ex_kindexed : indexed ex_kmap (ancestry ex_k2).
Proof. repeat (constructor; [by vm_compute|]). constructor. Qed.

Lemma ex_kwf : wf_index ex_k3.
Proof.
  eapply (wf_child _ ex_k2); [done| |done|done]. eapply (wf_child _ ex_k1); [done| |done|done].
  eapply (wf_child _ ex_k0); [done| |done|done]. by constructor.
Qed.

Lemma stake_modifier_is_selected_entropy_witness :
  ∃ chosen, length chosen = 3%nat ∧
    ComputeNextStakeModifier CMainParams ex_kmap 77 (Some ex_k2) =
      (true, bits_value (map GetStakeEntropyBit chosen), true).
Proof.
  destruct (stake_modifier_is_selected_entropy CMainParams ex_kmap 77 ex_k2 ex_kernel eq_refl ex_kindexed)
    as [(last & E & H) _].
  injection E as <-. destruct H as (bs & chosen & (Hp & _ & Hl & _) & E).
  exists chosen. split; [|done]. rewrite Hl, Hp. by vm_compute.
Defined.

Lemma kernel_modifier_settles_witness :
  GetKernelStakeModifier ex_kmap (chain_of ex_k3) (GetBlockHash ex_k1) = Ok (Some (modifier_of ex_k3)) ∧
  GetKernelStakeModifier ex_kmap (chain_of ex_k3) (GetBlockHash ex_k3) = Throw (Crash NullDereference).
Proof.
  split.
  - pose proof (kernel_modifier_settles ex_kmap ex_k3 ex_k1 ex_kwf ltac:(by vm_compute) ltac:(by vm_compute)) as H.
    exact (proj1 H).
  - exact (kernel_modifier_settles ex_kmap ex_k3 ex_k3 ex_kwf ltac:(by vm_compute) ltac:(by vm_compute)).
Defined.

Definition ex_argon (_ : list Z) : list Z := uint256 101.
Definition ex_from : CBlockHeader := mkHeader 1 (uint256 100) (uint256 0) 1010 0 0.
Definition ex_coin : COutPoint := mkOutPoint (replicate 32 7) 0.
Definition ex_paid : CTransaction := mkTx (out_hash ex_coin) 1 [] [new_txout 100 [OP_1]] 0.
Definition ex_coinstake : CTransaction :=
  mkTx (replicate 32 8) 1 [new_txin ex_coin [] 4294967295] [new_txout 0 []; new_txout 100 [OP_1]] 0.
(** A target of about 2^255. *)
Definition ex_bits : Z := 0x207fffff.

Definition ex_search : result stop StakeCheck :=
  CheckStakeKernelHash CMainParams ex_kmap (chain_of ex_k3) ex_argon ex_bits ex_from ex_paid ex_coin
    5000 10 false (λ _, false) (uint256 0).

Definition ex_staked (time : Z) : CBlock :=
  mkBlock (mkHeader 4 (uint256 105) (uint256 0) time ex_bits 0) [mkTx (replicate 32 9) 1 [] [] 0; ex_coinstake] [].

Lemma found_stake_is_accepted_witness :
  match ex_search with
  | Ok r =>
      sc_ok r = true ∧ 5000 < sc_nTimeTx r <= 5010 ∧
      CheckProofOfStake CMainParams ex_kmap (chain_of ex_k3) ex_argon (λ _ _ _, true)
        (λ _, Some (ex_paid, uint256 101)) (λ _, Some ex_from) (ex_staked (sc_nTimeTx r)) =
      Ok (Some (sc_hashProofOfStake r))
  | Throw _ => False
  end.
Proof.
  destruct ex_search as [r|e] eqn:E; [|by vm_compute in E].
  assert (sc_ok r = true) as Hok.
  { transitivity (match ex_search with Ok r => sc_ok r | Throw _ => false end); [by rewrite E|by vm_compute]. }
  destruct (found_stake_is_accepted CMainParams ex_kmap (chain_of ex_k3) ex_argon (λ _ _ _, true)
              (λ _, Some (ex_paid, uint256 101)) (λ _, Some ex_from) ex_bits ex_from ex_paid
              (new_txin ex_coin [] 4294967295) 5000 10 (λ _, false) (uint256 0) r
              ltac:(lia) ltac:(lia) ltac:(lia) E Hok) as (Hr & _ & Hacc).
  split; [done|]. split; [done|].
  refine (Hacc (ex_staked (sc_nTimeTx r)) _ ex_coinstake [] [] (new_txout 100 [OP_1]) ex_k1 _ _ _ _ _ _ _ _ _ _);
    by vm_compute.
Defined.
