(* ===== verification/PoolAccept.v ===== *)
(** * main.cpp: standard transactions and the door of the memory pool

    IsStandardTx, AreInputsStandard and AcceptToMemoryPool. The transaction is
    judged against a cache on the pool and the coins of the tip, which is cut off
    from both (SetBackend to an empty view) once the inputs are read. Left out:
    priorities, which are floating-point numbers that no decision here reads, and
    the notification of the wallets; the arguments fLimitFree and ignoreFees
    change nothing. *)

From S2P Require Import Prelude Serialize Params Script Digest Hashes Interp Tx SigHash Coins CoinsView.
From S2P Require Import Connect TxCheck Standard Mempool.

Local Open Scope node_scope.

(** ** CCoinsView itself, the empty view *)

#[export] Instance dummy_view : CoinsView unit := {
  GetCoins v _ := (v, None);
  HaveCoins v _ := (v, false);
  GetBestBlock v := (v, null_hash);
  BatchWrite v _ _ := Some (v, false)
}.

Definition SetBackend {V W} (c : CCoinsViewCache V) (v : W) : CCoinsViewCache W :=
  mkCache v (hasModifier c) (hashBlock c) (cacheCoins c).

(** ** IsStandardTx *)

Definition MAX_STANDARD_TX_SIZE : Z := 100000.
Definition MAX_P2SH_SIGOPS : Z := 15.
(** The constants inside AcceptToMemoryPool. *)
Definition MAX_BLOCK_SIGOPS : Z := 1000000 / 50.
Definition MAX_TX_SIGOPS : Z := MAX_BLOCK_SIGOPS / 5.

(** The settings of the node's policy. *)
Record Policy := mkPolicy {
  minRelayTxFee : Z;
  fIsBareMultisigStd : bool;
  fDatacarrier : bool;
  nMaxDatacarrierBytes : Z
}.

Inductive standard_reason :=
| RVersion | RNonFinal | RTxSize | RScriptSigSize | RScriptSigNotPushOnly | RScriptPubKey | RBareMultisig | RDust
| RMultiOpReturn.

Section standard.
Variable policy : Policy.

Fixpoint standard_inputs (ins : list CTxIn) : result standard_reason unit :=
  match ins with
  | [] => Ok ()
  | txin :: ins =>
      if 1650 <? Z.of_nat (length (scriptSig txin)) then Throw RScriptSigSize
      else if negb (IsPushOnly (scriptSig txin)) then Throw RScriptSigNotPushOnly
      else standard_inputs ins
  end.

(** The number of data outputs; [None] is undefined behaviour in Solver. *)
Fixpoint standard_outputs (outs : list CTxOut) (nDataOut : Z) : option (result standard_reason Z) :=
  match outs with
  | [] => Some (Ok nDataOut)
  | txout :: outs =>
      match IsStandard (fDatacarrier policy) (nMaxDatacarrierBytes policy) (scriptPubKey txout) with
      | None => None
      | Some (false, _) => Some (Throw RScriptPubKey)
      | Some (true, whichType) =>
          if bool_decide (whichType = TX_NULL_DATA) then standard_outputs outs (u32 (nDataOut + 1))
          else if bool_decide (whichType = TX_MULTISIG) && negb (fIsBareMultisigStd policy) then Some (Throw RBareMultisig)
          else if IsDust txout (minRelayTxFee policy) then Some (Throw RDust)
          else standard_outputs outs nDataOut
      end
  end.

(** [height] is that of the active chain, [now] the adjusted time. *)
Definition IsStandardTx (height now : Z) (tx : CTransaction) : option (result standard_reason unit) :=
  if (CURRENT_VERSION <? Tx.nVersion tx) || (Tx.nVersion tx <? 1) then Some (Throw RVersion)
  else if negb (IsFinalTx height now tx (s32 (height + 1)) 0) then Some (Throw RNonFinal)
  else if MAX_STANDARD_TX_SIZE <=? size_of f_tx tx then Some (Throw RTxSize)
  else match standard_inputs (vin tx) with
       | Throw e => Some (Throw e)
       | Ok _ =>
           match standard_outputs (vout tx) 0 with
           | None => None
           | Some (Throw e) => Some (Throw e)
           | Some (Ok nDataOut) => Some (if 1 <? nDataOut then Throw RMultiOpReturn else Ok ())
           end
       end.
End standard.

(** ** AreInputsStandard *)

(** What one input comes to: refused, in order, or the end of the loop with a result. *)
Inductive input_verdict := Refused | InOrder | Decided (b : bool).

(** BaseSignatureChecker::CheckSig. *)
Definition no_checker (_ _ _ : list Z) : bool := false.

(** For the script of the output the input spends. *)
Definition input_standard (prevScript scriptSig : list Z) : option input_verdict :=
  match Solver prevScript with
  | None => None
  | Some (mkSolved false _ _) => Some Refused
  | Some (mkSolved true whichType vSolutions) =>
      let nArgsExpected := ScriptSigArgsExpected whichType vSolutions in
      if nArgsExpected <? 0 then Some Refused
      else match EvalScript no_checker 0 [] scriptSig with
           | Throw _ => Some Refused
           | Ok stack =>
               let compare n := Some (if Z.of_nat (length stack) =? n then InOrder else Refused) in
               if negb (bool_decide (whichType = TX_SCRIPTHASH)) then compare nArgsExpected
               else match stack with
                    | [] => Some Refused
                    | subscript :: _ =>
                        match Solver subscript with
                        | None => None
                        | Some (mkSolved false _ _) =>
                            Some (Decided (GetSigOpCount subscript true <=? MAX_P2SH_SIGOPS))
                        | Some (mkSolved true whichType2 vSolutions2) =>
                            let tmpExpected := ScriptSigArgsExpected whichType2 vSolutions2 in
                            if tmpExpected <? 0 then Some Refused else compare (nArgsExpected + tmpExpected)
                        end
                    end
           end
  end.

Section inputs.
Context {V : Type} `{CoinsView V}.

(** [None] is a failed assertion, or undefined behaviour in Solver. *)
Fixpoint inputs_standard (c : CCoinsViewCache V) (ins : list CTxIn) : CCoinsViewCache V * option bool :=
  match ins with
  | [] => (c, Some true)
  | i :: ins =>
      match GetOutputFor c i with
      | (c, None) => (c, None)
      | (c, Some prev) =>
          match input_standard (scriptPubKey prev) (scriptSig i) with
          | None => (c, None)
          | Some Refused => (c, Some false)
          | Some (Decided b) => (c, Some b)
          | Some InOrder => inputs_standard c ins
          end
      end
  end.

Definition AreInputsStandard (c : CCoinsViewCache V) (tx : CTransaction) : CCoinsViewCache V * option bool :=
  if IsCoinBase tx then (c, Some true) else inputs_standard c (vin tx).

(** The loop that tells missing inputs from spent ones. *)
Fixpoint have_parents (c : CCoinsViewCache V) (ins : list CTxIn) : CCoinsViewCache V * bool :=
  match ins with
  | [] => (c, true)
  | i :: ins =>
      let '(c, have) := cache_HaveCoins c (out_hash (prevout i)) in
      if have then have_parents c ins else (c, false)
  end.
End inputs.

(** ** AcceptToMemoryPool *)

Inductive admission_error :=
| TxInvalid (e : tx_error) | LooseCoinbase | LooseCoinstake | NonStandard (e : standard_reason) | AlreadyInPool
| AlreadyKnown | MissingInputs | InputsSpent | NonStandardInputs | TooManySigops | ValueOut (e : value_error)
| InsaneFee | InputsFailed (e : inputs_error) | MandatoryFailed (e : inputs_error).

(** GetMinRelayFee *)
Definition GetMinRelayFee (tx : CTransaction) (nBytes : Z) (fAllowFree : bool) : Z := 0.

Section accept.
Context {V : Type} `{CoinsView V}.
Variable params : CChainParams.
Variable policy : Policy.
Variable ecdsa_verify : CPubKey → hash256 → list Z → bool.
(** The heights of blocks by hash, the height of the active chain, the adjusted
    time and GetTime. *)
Variable height_of : hash256 → option Z.
Variable height now time : Z.

(** The checks that need no coins. [None] is undefined behaviour. *)
Definition precheck (pool : CTxMemPool) (tx : CTransaction) : option (result admission_error unit) :=
  match CheckTransaction params tx with
  | Throw e => Some (Throw (TxInvalid e))
  | Ok _ =>
      if IsCoinBase tx then Some (Throw LooseCoinbase)
      else if IsCoinStake tx then Some (Throw LooseCoinstake)
      else match (if fRequireStandard params then IsStandardTx policy height now tx else Some (Ok ())) with
           | None => None
           | Some (Throw e) => Some (Throw (NonStandard e))
           | Some (Ok _) => Some (if pool_exists pool (tx_hash tx) then Throw AlreadyInPool else Ok ())
           end
  end.

(** The inner scope: the inputs are read through the pool and the coins of the
    tip, whose caches they may fill; the view with its new backend, and the value
    of the inputs. *)
Definition gather_inputs (pool : CTxMemPool) (pcoinsTip : V) (tx : CTransaction)
    : V * option (result admission_error (CCoinsViewCache unit * Z)) :=
  let view := new_cache (mkPoolView pcoinsTip pool) in
  let '(view, known) := cache_HaveCoins view (tx_hash tx) in
  if known : bool then (mv_base (base view), Some (Throw AlreadyKnown))
  else
    let '(view, have) := have_parents view (vin tx) in
    if negb have then (mv_base (base view), Some (Throw MissingInputs))
    else
      let '(view, available) := HaveInputs view tx in
      if negb available then (mv_base (base view), Some (Throw InputsSpent))
      else
        let '(view, _) := cache_GetBestBlock view in
        let '(view, r) := GetValueIn view tx in
        (mv_base (base view),
         match r with
         | None => None
         | Some nValueIn => Some (Ok (SetBackend view (), nValueIn))
         end).

(** The rest, on the view cut off from the pool: the entry to add. *)
Definition judge_inputs (view : CCoinsViewCache unit) (nValueIn : Z) (tx : CTransaction) (fRejectInsaneFee : bool)
    : option (result admission_error CTxMemPoolEntry) :=
  let '(view, standard) := if fRequireStandard params then AreInputsStandard view tx else (view, Some true) in
  match standard with
  | None => None
  | Some false => Some (Throw NonStandardInputs)
  | Some true =>
      let '(view, p2sh) := GetP2SHSigOpCount view tx in
      match p2sh with
      | None => None
      | Some p2sh =>
          if MAX_TX_SIGOPS <? u32 (GetLegacySigOpCount tx + p2sh) then Some (Throw TooManySigops)
          else match GetValueOut tx with
               | Throw e => Some (Throw (ValueOut e))
               | Ok nValueOut =>
                   let nFees := s64 (nValueIn - nValueOut) in
                   let entry := new_pool_entry tx nFees time height in
                   if fRejectInsaneFee && (s64 (GetFee (minRelayTxFee policy) (nTxSize entry) * 10000) <? nFees)
                   then Some (Throw InsaneFee)
                   else match CheckInputs params ecdsa_verify height_of view tx true STANDARD_SCRIPT_VERIFY_FLAGS with
                        | None => None
                        | Some (Throw e) => Some (Throw (InputsFailed e))
                        | Some (Ok view) =>
                            match CheckInputs params ecdsa_verify height_of view tx true MANDATORY_SCRIPT_VERIFY_FLAGS with
                            | None => None
                            | Some (Throw e) => Some (Throw (MandatoryFailed e))
                            | Some (Ok _) => Some (Ok entry)
                            end
                        end
               end
      end
  end.

(** The coins of the tip, whose caches may have grown, and the new pool.
    *pfMissingInputs is set with [MissingInputs] alone. *)
Definition AcceptToMemoryPool (pool : CTxMemPool) (pcoinsTip : V) (tx : CTransaction) (fRejectInsaneFee : bool)
    : V * option (result admission_error CTxMemPool) :=
  match precheck pool tx with
  | None => (pcoinsTip, None)
  | Some (Throw e) => (pcoinsTip, Some (Throw e))
  | Some (Ok _) =>
      let '(pcoinsTip, gathered) := gather_inputs pool pcoinsTip tx in
      (pcoinsTip,
       match gathered with
       | None => None
       | Some (Throw e) => Some (Throw e)
       | Some (Ok (view, nValueIn)) =>
           match judge_inputs view nValueIn tx fRejectInsaneFee with
           | None => None
           | Some (Throw e) => Some (Throw e)
           | Some (Ok entry) => Some (Ok (addUnchecked pool (tx_hash tx) entry))
           end
       end)
  end.
End accept.

(** ** The view on the pool and a lawful view is lawful to read *)

(** The unspent coins of pool and base. *)
Definition pool_coins (pool : CTxMemPool) (m : hash256 → option CCoins) (k : hash256) : option CCoins :=
  match pool_lookup pool k with
  | Some tx => unspent (FromTx tx MEMPOOL_HEIGHT)
  | None => m k
  end.

#[export] Program Instance poolview_reads {V} `{HV : CoinsView V, !CoinsViewReads V}
    : CoinsViewReads (CCoinsViewMemPool (V := V)) := {
  cv_inv v := cv_inv (mv_base v);
  cv_abs v := pool_coins (mv_pool v) (cv_abs (mv_base v));
  cv_best v := cv_best (mv_base v);
  cv_pulled _ _ := True
}.
Next Obligation.
  intros V HV HO [b pool] t Hb. cbn [GetCoins poolview_view mv_base mv_pool] in *. unfold poolview_GetCoins.
  cbn [mv_pool mv_base]. destruct (pool_lookup pool t) as [tx|] eqn:E.
  { split_and!; try done. unfold pool_coins. cbn. by rewrite E. }
  pose proof (cv_get b t Hb) as H. destruct (GetCoins b t) as [b' r]. destruct H as (H1 & H2 & H3 & H4 & H5).
  cbn [mv_base mv_pool]. split_and!; try done.
  - intros k. unfold pool_coins. by destruct (pool_lookup pool k).
  - unfold pool_coins. destruct r as [c|]; [|by rewrite E]. destruct H5 as [H5 _]. rewrite <- H5.
    unfold unspent. destruct (IsPruned c) eqn:Ep; rewrite E; [done|]. split; [|done]. by rewrite Ep.
Qed.
Next Obligation.
  intros V HV HO [b pool] Hb. cbn [GetBestBlock poolview_view mv_base mv_pool] in *.
  pose proof (cv_block b Hb) as H. destruct (GetBestBlock b) as [b' h]. destruct H as (H1 & H2 & H3 & H4 & ->).
  cbn [mv_base mv_pool]. split_and!; try done. intros k. unfold pool_coins. by destruct (pool_lookup pool k).
Qed.

(** ** Caches that hold all the inputs *)

Definition loaded {V} (c : CCoinsViewCache V) (ins : list CTxIn) : Prop :=
  Forall (λ i, is_Some (cacheCoins c !! out_hash (prevout i))) ins.

(** The cache cut off, and a result of the cut-off cache put back. *)
Abbreviation detach c := (SetBackend c ()).

Definition cached_output (m : CCoinsMap) (o : COutPoint) : option CTxOut :=
  match m !! out_hash o with
  | Some e => if IsAvailable (e_coins e) (out_n o) then c_vout (e_coins e) !! Z.to_nat (out_n o) else None
  | None => None
  end.

Lemma AccessCoins_loaded {V} `{HV : CoinsView V} (c : CCoinsViewCache V) t e : cacheCoins c !! t = Some e → AccessCoins c t = (c, Some (e_coins e)).
Proof. intros E. unfold AccessCoins, FetchCoins. by rewrite E. Qed.

Lemma GetOutputFor_loaded {V} `{HV : CoinsView V} (c : CCoinsViewCache V) i :
  is_Some (cacheCoins c !! out_hash (prevout i)) →
  GetOutputFor c i = (c, cached_output (cacheCoins c) (prevout i)).
Proof.
  intros [e E]. unfold GetOutputFor, cached_output. rewrite (AccessCoins_loaded c _ e E), E. done.
Qed.

Lemma HaveInputs_loaded {V} `{HV : CoinsView V} (c : CCoinsViewCache V) tx :
  loaded c (vin tx) → HaveInputs c tx = (c, (HaveInputs (detach c) tx).2).
Proof.
  unfold HaveInputs. destruct (_ && _); [|done]. induction 1 as [|i ins [e E] Hl IH]; [done|].
  cbn [HaveInputs_loop]. rewrite (AccessCoins_loaded c _ e E).
  unfold AccessCoins, FetchCoins at 1. cbn [SetBackend cacheCoins]. rewrite E. cbn [fmap option_fmap option_map].
  destruct (IsAvailable _ _); [exact IH|done].
Qed.

Lemma GetValueIn_loop_loaded {V} `{HV : CoinsView V} (c : CCoinsViewCache V) ins n :
  loaded c ins →
  GetValueIn_loop c ins n =
    (c, foldl (λ r i, match r, cached_output (cacheCoins c) (prevout i) with
                      | Some n, Some o => Some (s64 (n + nValue o)) | _, _ => None end) (Some n) ins).
Proof.
  intros Hl. revert n. induction Hl as [|i ins Hi Hl IH]; intros n; [done|]. cbn [GetValueIn_loop foldl].
  rewrite GetOutputFor_loaded by done. destruct (cached_output _ _) as [o|]; [apply IH|].
  f_equal. clear. induction ins as [|i ins IH]; [done|]. cbn. exact IH.
Qed.

Lemma p2sh_sigops_loaded {V} `{HV : CoinsView V} (c : CCoinsViewCache V) ins n :
  loaded c ins → p2sh_sigops c ins n = (c, (p2sh_sigops (detach c) ins n).2).
Proof.
  intros Hl. revert n. induction Hl as [|i ins Hi Hl IH]; intros n; [done|]. cbn [p2sh_sigops].
  rewrite (GetOutputFor_loaded c i Hi), (GetOutputFor_loaded (detach c) i Hi). cbn [SetBackend cacheCoins].
  destruct (cached_output _ _) as [o|]; [apply IH|done].
Qed.

Lemma inputs_standard_loaded {V} `{HV : CoinsView V} (c : CCoinsViewCache V) ins :
  loaded c ins → inputs_standard c ins = (c, (inputs_standard (detach c) ins).2).
Proof.
  induction 1 as [|i ins Hi Hl IH]; [done|]. cbn [inputs_standard].
  rewrite (GetOutputFor_loaded c i Hi), (GetOutputFor_loaded (detach c) i Hi). cbn [SetBackend cacheCoins].
  destruct (cached_output _ _) as [o|]; [|done].
  destruct (input_standard _ _) as [[]|]; [done|exact IH|done|done].
Qed.

(** A result of the cut-off cache, with the state of another one. *)
Definition restate {V E A} (c : CCoinsViewCache V) (r : option (result E (CCoinsViewCache unit * A)))
    : option (result E (CCoinsViewCache V * A)) :=
  match r with Some (Ok (_, a)) => Some (Ok (c, a)) | Some (Throw e) => Some (Throw e) | None => None end.

Lemma check_values_loaded {V} `{HV : CoinsView V} params (c : CCoinsViewCache V) ins h n :
  loaded c ins → check_values params c ins h n = restate c (check_values params (detach c) ins h n).
Proof.
  intros Hl. revert n. induction Hl as [|i ins [e E] Hl IH]; intros n; [done|]. cbn [check_values].
  rewrite (AccessCoins_loaded c _ e E), (AccessCoins_loaded (detach c) _ e E).
  destruct (_ && _); [done|]. destruct (c_vout (e_coins e) !! _) as [o|]; [|done].
  destruct (_ || _); [done|]. apply IH.
Qed.

Lemma check_scripts_loaded {V} `{HV : CoinsView V} ecdsa_verify (c : CCoinsViewCache V) tx ins n flags :
  loaded c ins →
  check_scripts ecdsa_verify c tx ins n flags =
    match check_scripts ecdsa_verify (detach c) tx ins n flags with
    | Some (Ok _) => Some (Ok c) | Some (Throw e) => Some (Throw e) | None => None end.
Proof.
  intros Hl. revert n. induction Hl as [|i ins [e E] Hl IH]; intros n; [done|]. cbn [check_scripts].
  rewrite (AccessCoins_loaded c _ e E), (AccessCoins_loaded (detach c) _ e E). cbn [mbind option_bind].
  destruct (c_vout (e_coins e) !! _) as [o|]; [|done].
  destruct (script_check _ _ _ _ _) as [|err]; [apply IH|]. destruct (negb _); [|done].
  by destruct (script_check _ _ _ _ _).
Qed.

Lemma CheckInputs_loaded {V} `{HV : CoinsView V} params ecdsa_verify height_of (c : CCoinsViewCache V) tx fScriptChecks flags :
  loaded c (vin tx) → hash_IsNull (hashBlock c) = false →
  CheckInputs params ecdsa_verify height_of c tx fScriptChecks flags =
    match CheckInputs params ecdsa_verify height_of (detach c) tx fScriptChecks flags with
    | Some (Ok _) => Some (Ok c) | Some (Throw e) => Some (Throw e) | None => None end.
Proof.
  intros Hl Hb. unfold CheckInputs. rewrite (HaveInputs_loaded c tx Hl).
  pose proof (surjective_pairing (HaveInputs (detach c) tx)) as E.
  assert ((HaveInputs (detach c) tx).1 = detach c) as E1.
  { unfold HaveInputs. destruct (_ && _); [|done]. clear E Hb. induction Hl as [|i ins [e Ei] Hl IH]; [done|].
    cbn [HaveInputs_loop]. rewrite (AccessCoins_loaded (detach c) _ e Ei). destruct (IsAvailable _ _); [exact IH|done]. }
  rewrite E1 in E. rewrite E. destruct (HaveInputs (detach c) tx).2; [|done]. cbn [negb].
  unfold cache_GetBestBlock. cbn [SetBackend hashBlock]. rewrite Hb.
  destruct (height_of (hashBlock c)); [|done].
  rewrite (check_values_loaded params c) by done.
  pose proof (check_values_loaded params (detach c) (vin tx)) as Ed. unfold restate in *.
  specialize (Ed (s32 (z + 1)) 0 Hl).
  destruct (check_values params (detach c) (vin tx) _ 0) as [[[c' v]|e]|] eqn:Ev; [|done..].
  cbn [SetBackend] in Ed.
  change (mkCache () (hasModifier (detach c)) (hashBlock (detach c)) (cacheCoins (detach c))) with (detach c) in Ed.
  change (SetBackend (detach c) ()) with (detach c) in *. rewrite Ev in Ed. injection Ed as ->.
  destruct (check_fees params tx v); [|done]. destruct fScriptChecks; [|done].
  rewrite (check_scripts_loaded ecdsa_verify c) by done. by destruct (check_scripts _ _ _ _ _ _) as [[]|].
Qed.

(** ** Gathering the inputs *)

Lemma inputs_accepted_ext params ecdsa_verify (m m' : hash256 → option CCoins) h tx fScriptChecks flags :
  (∀ k, m k = m' k) →
  inputs_accepted params ecdsa_verify m h tx fScriptChecks flags ↔
  inputs_accepted params ecdsa_verify m' h tx fScriptChecks flags.
Proof.
  enough (∀ m m' : hash256 → option CCoins, (∀ k, m k = m' k) →
    inputs_accepted params ecdsa_verify m h tx fScriptChecks flags →
    inputs_accepted params ecdsa_verify m' h tx fScriptChecks flags) as H.
  { intros E. by split; apply H. }
  clear m m'. intros m m' E [H1 H2 H3 H4].
  assert (∀ o, lookup_output m o = lookup_output m' o) as El by (intros o; unfold lookup_output; by rewrite E).
  assert (sum_outputs m (vin tx) = sum_outputs m' (vin tx)) as Es.
  { clear -El. unfold sum_outputs. induction (vin tx) as [|i ins IH]; [done|]. cbn [foldr]. rewrite El, IH. reflexivity. }
  split; [|by rewrite <- Es|by rewrite <- Es|].
  - eapply Forall_impl; [exact H1|]. intros i (c & o & ? & ? & ? & ?). exists c, o. rewrite <- El, <- E. done.
  - intros Hs j i Hj. destruct (H4 Hs j i Hj) as (o & Ho & Hsc). exists o. rewrite <- El. by split.
Qed.

Lemma FromTx_pruned tx h : IsPruned (FromTx tx h) = true → c_vout (FromTx tx h) = [].
Proof.
  rewrite clean_IsPruned by (rewrite FromTx_vout; apply clean_vout_idemp). intros E. apply Nat.eqb_eq in E.
  by apply length_zero_iff_nil.
Qed.

Lemma unpruned_vout c : IsPruned c = false → negb (length (c_vout c) =? 0)%nat = true.
Proof. unfold IsPruned. by destruct (c_vout c). Qed.

Section gather.
Context {V : Type} `{HV : CoinsView V, !CoinsViewReads V}.
Abbreviation PoolView := (CCoinsViewMemPool (V := V)).
Abbreviation Cache := (CCoinsViewCache PoolView).

(** Reading through the view leaves the coins of pool and base alone. *)
Definition same_coins (v v' : PoolView) : Prop :=
  mv_pool v' = mv_pool v ∧ cv_inv (mv_base v') ∧
  (∀ k, cv_abs (mv_base v') k = cv_abs (mv_base v) k) ∧ cv_best (mv_base v') = cv_best (mv_base v).

Lemma same_coins_trans v1 v2 v3 : same_coins v1 v2 → same_coins v2 v3 → same_coins v1 v3.
Proof. intros (A1&A2&A3&A4) (B1&B2&B3&B4). split_and!; [congruence|done| |congruence]. intros k. by rewrite B3. Qed.

Record grows (c c' : Cache) : Prop := {
  grows_quiet : quiet c c';
  grows_cached : ∀ k, is_Some (cacheCoins c !! k) → is_Some (cacheCoins c' !! k);
  grows_base : same_coins (base c) (base c')
}.

Lemma grows_refl c : cache_inv c → grows c c.
Proof. intros Hc. split; [by split_and!|done|]. destruct Hc as [Hb _ _]. by split_and!. Qed.

Lemma grows_trans c1 c2 c3 : grows c1 c2 → grows c2 c3 → grows c1 c3.
Proof.
  intros [Q1 M1 B1] [Q2 M2 B2]. split; [by eapply quiet_trans|by auto|by eapply same_coins_trans].
Qed.

Lemma FetchCoins_grows (c : Cache) t :
  cache_inv c →
  grows c (FetchCoins c t).1 ∧ (FetchCoins c t).2 = cacheCoins (FetchCoins c t).1 !! t ∧
  match (FetchCoins c t).2 with
  | Some e => unspent (e_coins e) = cache_abs c t ∧ (cacheCoins c !! t = None → IsPruned (e_coins e) = true → c_vout (e_coins e) = [])
  | None => cache_abs c t = None
  end.
Proof.
  intros Hc. pose proof (FetchCoins_spec c t Hc) as H.
  assert (same_coins (base c) (base (FetchCoins c t).1) ∧
    match (FetchCoins c t).2 with
    | Some e => cacheCoins c !! t = None → IsPruned (e_coins e) = true → c_vout (e_coins e) = [] | None => True end) as [HB HP].
  { destruct Hc as [Hb _ _]. unfold FetchCoins. destruct (cacheCoins c !! t) as [e|]; [by split_and!|].
    destruct (base c) as [b pool] eqn:Eb. cbn [GetCoins poolview_view]. unfold poolview_GetCoins. cbn [mv_pool mv_base].
    destruct (pool_lookup pool t) as [tx|]; cbn [fst snd base with_base with_cacheCoins e_coins].
    { split; [by split_and!|]. intros _. apply FromTx_pruned. }
    cbn in Hb. pose proof (cv_get b t Hb) as Hg. destruct (GetCoins b t) as [b' r]. destruct Hg as (Hg1&Hg2&Hg3&_&_).
    destruct r as [x|]; [|by split_and!]. destruct (IsPruned x) eqn:Ex; [by split_and!|].
    cbn. split; [by split_and!|]. by rewrite Ex. }
  destruct (FetchCoins c t) as [c' r]. destruct H as (H1 & H2 & H3 & H4 & H5 & H6). cbn [fst snd] in *.
  split; [by split|]. split; [done|]. destruct r; [by split|done].
Qed.

Lemma HaveCoins_grows (c : Cache) t :
  cache_inv c →
  grows c (cache_HaveCoins c t).1 ∧
  (is_Some (cache_abs c t) → (cache_HaveCoins c t).2 = true) ∧
  (cacheCoins c !! t = None → (cache_HaveCoins c t).2 = true → is_Some (cache_abs c t)).
Proof.
  intros Hc. unfold cache_HaveCoins. destruct (FetchCoins_grows c t Hc) as (Hg & _ & Hr).
  destruct (FetchCoins c t) as [c' r]. cbn [fst snd] in *. split; [done|].
  destruct r as [e|]; [|rewrite Hr; split; [by intros []|done]]. destruct Hr as [Hu Hp]. rewrite <- Hu.
  unfold unspent. destruct (IsPruned (e_coins e)) eqn:Ep; split; try (by intros []).
  - intros Hn Hl. by rewrite (Hp Hn eq_refl) in Hl.
  - intros _. by apply unpruned_vout.
Qed.

Lemma have_parents_grows ins (c : Cache) :
  cache_inv c →
  grows c (have_parents c ins).1 ∧
  (Forall (λ i, is_Some (lookup_output (cache_abs c) (prevout i))) ins → (have_parents c ins).2 = true).
Proof.
  revert c. induction ins as [|i ins IH]; intros c Hc; cbn [have_parents]; [by split; [apply grows_refl|]|].
  destruct (HaveCoins_grows c (out_hash (prevout i)) Hc) as (Hg & Hyes & _).
  destruct (cache_HaveCoins c (out_hash (prevout i))) as [c1 b]. cbn [fst snd] in *.
  pose proof (grows_quiet _ _ Hg) as Hq. destruct b.
  - destruct (IH c1 (proj1 Hq)) as [Hg' Hall]. split; [by eapply grows_trans|].
    intros [_ H]%Forall_cons. apply Hall. eapply Forall_impl; [exact H|]. intros j. by rewrite (quiet_lookup _ _ _ Hq).
  - split; [done|]. intros [[o Ho] _]%Forall_cons. enough (false = true) by done. apply Hyes.
    unfold lookup_output in Ho. by destruct (cache_abs c _).
Qed.

Lemma HaveInputs_grows (c : Cache) tx :
  cache_inv c → IsCoinBase tx = false → tx_IsZerocoinSpend tx = false →
  grows c (HaveInputs c tx).1 ∧ ((HaveInputs c tx).2 = true → loaded (HaveInputs c tx).1 (vin tx)).
Proof.
  intros Hc Hcb Hz. unfold HaveInputs. rewrite Hcb, Hz. cbn [negb andb]. revert c Hc.
  induction (vin tx) as [|i ins IH]; intros c Hc; cbn [HaveInputs_loop]; [split; [by apply grows_refl|constructor]|].
  unfold AccessCoins. destruct (FetchCoins_grows c (out_hash (prevout i)) Hc) as (Hg & He & _).
  destruct (FetchCoins c (out_hash (prevout i))) as [c1 r]. cbn [fst snd] in *.
  destruct r as [e|]; [|done]. cbn [fmap option_fmap option_map].
  destruct (IsAvailable (e_coins e) _); [|done].
  destruct (IH c1 (proj1 (grows_quiet _ _ Hg))) as [Hg' Hall]. split; [by eapply grows_trans|].
  intros Hb. constructor; [|by apply Hall]. apply (grows_cached _ _ Hg'). by exists e.
Qed.

Lemma BestBlock_grows (c : Cache) :
  cache_inv c → hash_IsNull (cache_best c) = false →
  grows c (cache_GetBestBlock c).1 ∧ hash_IsNull (hashBlock (cache_GetBestBlock c).1) = false ∧
  cacheCoins (cache_GetBestBlock c).1 = cacheCoins c.
Proof.
  intros Hc Hn. destruct (GetBestBlock_quiet c Hc) as [Hq Hb].
  unfold cache_GetBestBlock, cache_best in *. destruct (hash_IsNull (hashBlock c)) eqn:Eh.
  2: { split; [by apply grows_refl|done]. }
  destruct Hc as [Hi _ _]. destruct (base c) as [b pool] eqn:Eb. cbn in Hi.
  cbn [GetBestBlock poolview_view mv_base mv_pool] in *.
  pose proof (cv_block b Hi) as H. destruct (GetBestBlock b) as [b' h]. destruct H as (H1 & H2 & H3 & _ & ->).
  cbn [fst snd hashBlock cacheCoins base] in *. split; [|by split]. split; [done|done|]. cbn [base]. rewrite Eb. by split_and!.
Qed.

Lemma foldl_values_none (m : CCoinsMap) ins :
  foldl (λ r i, match r, cached_output m (prevout i) with
                | Some n, Some o => Some (s64 (n + nValue o)) | _, _ => None end) None ins = None.
Proof. by induction ins. Qed.

(** The sum GetValueIn returns, whatever the values. *)
Definition value_in (m : hash256 → option CCoins) (ins : list CTxIn) : Z :=
  foldl (λ n i, match lookup_output m (prevout i) with Some o => s64 (n + nValue o) | None => n end) 0 ins.

Lemma cached_output_lookup (c : Cache) o :
  cache_inv c → is_Some (cacheCoins c !! out_hash o) → cached_output (cacheCoins c) o = lookup_output (cache_abs c) o.
Proof.
  intros Hc [e E]. pose proof (AccessCoins_output c o Hc) as H.
  rewrite (AccessCoins_loaded c _ e E) in H. destruct H as (_ & _ & H & _). unfold cached_output. by rewrite E.
Qed.

Lemma GetValueIn_value (c : Cache) tx :
  cache_inv c → IsCoinBase tx = false → loaded c (vin tx) →
  Forall (λ i, is_Some (lookup_output (cache_abs c) (prevout i))) (vin tx) →
  GetValueIn c tx = (c, Some (value_in (cache_abs c) (vin tx))).
Proof.
  intros Hc Hcb Hl Ha. unfold GetValueIn. rewrite Hcb, GetValueIn_loop_loaded by done. f_equal.
  unfold value_in. generalize 0. induction Hl as [|i ins Hi Hl IH]; intros n; [done|].
  apply Forall_cons in Ha as [[o Ho] Ha]. cbn [foldl]. rewrite cached_output_lookup, Ho by done. by apply IH.
Qed.

Definition gathered (pool : CTxMemPool) (tip : V) (tx : CTransaction) (view : Cache) : Prop :=
  cache_inv view ∧ (∀ k, cache_abs view k = pool_coins pool (cv_abs tip) k) ∧ cache_best view = cv_best tip ∧
  hash_IsNull (hashBlock view) = false ∧ loaded view (vin tx).

Lemma gather_spec pool (tip : V) tx :
  cv_inv tip → hash_IsNull (cv_best tip) = false → IsCoinBase tx = false → tx_IsZerocoinSpend tx = false →
  let m := pool_coins pool (cv_abs tip) in
  let '(tip', r) := gather_inputs pool tip tx in
  (cv_inv tip' ∧ (∀ k, cv_abs tip' k = cv_abs tip k) ∧ cv_best tip' = cv_best tip) ∧
  match r with
  | None => False
  | Some (Throw _) => ¬ (m (tx_hash tx) = None ∧ Forall (λ i, is_Some (lookup_output m (prevout i))) (vin tx))
  | Some (Ok (view', v)) =>
      m (tx_hash tx) = None ∧ Forall (λ i, is_Some (lookup_output m (prevout i))) (vin tx) ∧
      v = value_in m (vin tx) ∧ ∃ view, view' = detach view ∧ gathered pool tip tx view
  end.
Proof.
  intros Ht Hbest Hcb Hz m. unfold gather_inputs. set (v0 := mkPoolView tip pool).
  assert (cache_inv (new_cache v0)) as Hc0 by (apply new_cache_inv; exact Ht).
  assert (∀ k, cache_abs (new_cache v0) k = m k) as Ha0 by (intros k; unfold cache_abs; cbn; by rewrite lookup_empty).
  assert (cache_best (new_cache v0) = cv_best tip) as Hb0 by done.
  assert (∀ c, grows (new_cache v0) c →
    cv_inv (mv_base (base c)) ∧ (∀ k, cv_abs (mv_base (base c)) k = cv_abs tip k) ∧ cv_best (mv_base (base c)) = cv_best tip) as Hend.
  { intros c [_ _ (_ & H1 & H2 & H3)]. by split_and!. }
  destruct (HaveCoins_grows (new_cache v0) (tx_hash tx) Hc0) as (Hg1 & Hk1 & Hk2). rewrite Ha0 in Hk1, Hk2.
  destruct (cache_HaveCoins (new_cache v0) (tx_hash tx)) as [c1 known]. cbn [fst snd] in *.
  pose proof (grows_quiet _ _ Hg1) as Q1. destruct known.
  { split; [by apply Hend|]. intros [Hn _]. destruct Hk2 as [x Hx]; [apply lookup_empty|done|]. congruence. }
  destruct (have_parents_grows (vin tx) c1 (proj1 Q1)) as (Hg2 & Hp).
  destruct (have_parents c1 (vin tx)) as [c2 have]. cbn [fst snd] in *.
  assert (∀ c i, quiet (new_cache v0) c → lookup_output (cache_abs c) (prevout i) = lookup_output m (prevout i)) as Hlook.
  { intros c i Hq. rewrite (quiet_lookup _ _ _ Hq). unfold lookup_output. by rewrite Ha0. }
  pose proof (grows_trans _ _ _ Hg1 Hg2) as Hg02. pose proof (grows_quiet _ _ Hg02) as Q2. destruct have; cbn [negb].
  2: { split; [by apply Hend|]. intros [_ Hall]. enough (false = true) by done. apply Hp.
       eapply Forall_impl; [exact Hall|]. intros i. by rewrite Hlook. }
  destruct (HaveInputs_grows c2 tx (proj1 Q2) Hcb Hz) as (Hg3 & Hload).
  destruct (inputs_are_checked c2 tx (proj1 Q2) Hcb Hz) as [Hyes Hno].
  destruct (HaveInputs c2 tx) as [c3 available]. cbn [fst snd] in *.
  pose proof (grows_trans _ _ _ Hg02 Hg3) as Hg03. pose proof (grows_quiet _ _ Hg03) as Q3. destruct available; cbn [negb].
  2: { split; [by apply Hend|]. intros [_ Hall]. apply (Hno eq_refl).
       eapply Forall_impl; [exact Hall|]. intros i. by rewrite Hlook. }
  destruct (BestBlock_grows c3 (proj1 Q3)) as (Hg4 & Hnn & Hcc); [by rewrite (proj2 (proj2 Q3))|].
  destruct (cache_GetBestBlock c3) as [c4 h]. cbn [fst snd] in *.
  pose proof (grows_trans _ _ _ Hg03 Hg4) as Hg04. pose proof (grows_quiet _ _ Hg04) as Q4.
  assert (loaded c4 (vin tx)) as Hl4 by (unfold loaded; rewrite Hcc; by apply Hload).
  assert (Forall (λ i, is_Some (lookup_output m (prevout i))) (vin tx)) as Hall.
  { eapply Forall_impl; [exact (Hyes eq_refl)|]. cbn beta. intros i. by rewrite (Hlook c2 i Q2). }
  assert (Forall (λ i, is_Some (lookup_output (cache_abs c4) (prevout i))) (vin tx)) as Hall4.
  { eapply Forall_impl; [exact Hall|]. cbn beta. intros i. by rewrite (Hlook c4 i Q4). }
  rewrite (GetValueIn_value c4 tx (proj1 Q4) Hcb Hl4 Hall4).
  split; [by apply Hend|]. split.
  { destruct (m (tx_hash tx)) eqn:E; [|done]. enough (false = true) by done. by apply Hk1. }
  split; [done|]. split.
  { unfold value_in. generalize 0. clear -Hlook Q4. induction (vin tx) as [|i ins IH]; intros n; [done|].
    cbn [foldl]. by rewrite (Hlook c4 i Q4), IH. }
  exists c4. split; [done|]. split_and!; [apply Q4| |by rewrite (proj2 (proj2 Q4))|done|done].
  intros k. by rewrite (proj1 (proj2 Q4)), Ha0.
Qed.
End gather.

(** ** Judging them *)

(** AreInputsStandard on the map of unspent coins: each input is in order, up to
    one that pays to a script hash whose script is not of a known form, which ends
    the loop. *)
Inductive inputs_in_order (m : hash256 → option CCoins) : list CTxIn → Prop :=
| order_end : inputs_in_order m []
| order_next i ins o :
    lookup_output m (prevout i) = Some o → input_standard (scriptPubKey o) (scriptSig i) = Some InOrder →
    inputs_in_order m ins → inputs_in_order m (i :: ins)
| order_last i ins o :
    lookup_output m (prevout i) = Some o → input_standard (scriptPubKey o) (scriptSig i) = Some (Decided true) →
    inputs_in_order m (i :: ins).

(** Solver is undefined on the script of an output the transaction spends, or on
    the script pushed for its hash. *)
Definition undefined_input (m : hash256 → option CCoins) (tx : CTransaction) : Prop :=
  ∃ i o, i ∈ vin tx ∧ lookup_output m (prevout i) = Some o ∧ input_standard (scriptPubKey o) (scriptSig i) = None.

Definition p2sh_count (m : hash256 → option CCoins) (ins : list CTxIn) : Z :=
  foldl (λ n i, match lookup_output m (prevout i) with
                | Some o => if IsPayToScriptHash (scriptPubKey o)
                            then u32 (n + GetSigOpCount_p2sh (scriptPubKey o) (scriptSig i)) else n
                | None => n
                end) 0 ins.

Section judge.
Context {V : Type} `{HV : CoinsView V, !CoinsViewReads V}.
Context (params : CChainParams) (policy : Policy) (ecdsa_verify : CPubKey → hash256 → list Z → bool).
Context (height_of : hash256 → option Z) (height now time : Z) (h : Z).
Context (pool : CTxMemPool) (tip : V) (tx : CTransaction) (fRejectInsaneFee : bool).
Hypothesis Hmax : 0 <= nMaxMoneyOut params < 2 ^ 62.
Hypothesis best_height : height_of (cv_best tip) = Some h ∧ 0 <= h < 2 ^ 31 - 1.
Hypothesis tip_heights : ∀ k x, cv_abs tip k = Some x → 0 <= c_nHeight x < 2 ^ 31.
Hypothesis not_coinbase : IsCoinBase tx = false.
Hypothesis not_zerospend : tx_IsZerocoinSpend tx = false.
Hypothesis values : Forall (λ o, is_s64 (nValue o)) (vout tx).

Abbreviation m := (pool_coins pool (cv_abs tip)).

Lemma pool_heights k x : m k = Some x → 0 <= c_nHeight x < 2 ^ 31.
Proof.
  unfold pool_coins. destruct (pool_lookup pool k) as [t|]; [|apply tip_heights].
  unfold unspent. destruct (IsPruned _); [done|]. intros [= <-]. by vm_compute.
Qed.

Section view.
Context (view : CCoinsViewCache (CCoinsViewMemPool (V := V))).
Hypothesis view_gathered : gathered pool tip tx view.
Hypothesis inputs_there : Forall (λ i, is_Some (lookup_output m (prevout i))) (vin tx).

Lemma cached_is_lookup i :
  i ∈ vin tx → cached_output (cacheCoins view) (prevout i) = lookup_output m (prevout i).
Proof.
  intros Hi. destruct view_gathered as (Hc & Ha & _ & _ & Hl). unfold loaded in Hl. rewrite Forall_forall in Hl.
  rewrite cached_output_lookup by (done || by apply Hl). unfold lookup_output. by rewrite Ha.
Qed.

Lemma view_inputs_standard ins :
  ins ⊆ vin tx →
  ∃ r, inputs_standard (detach view) ins = (detach view, r) ∧
    match r with
    | Some true => inputs_in_order m ins
    | Some false => ¬ inputs_in_order m ins
    | None => undefined_input m tx
    end.
Proof.
  destruct view_gathered as (_ & _ & _ & _ & Hl). unfold loaded in Hl. rewrite Forall_forall in Hl, inputs_there.
  induction ins as [|i ins IH]; intros Hsub; cbn [inputs_standard]; [eexists; split; [done|constructor]|].
  assert (i ∈ vin tx) as Hi by (apply Hsub, list_elem_of_here).
  rewrite (GetOutputFor_loaded (detach view) i (Hl i Hi)). cbn [SetBackend cacheCoins]. rewrite cached_is_lookup by done.
  destruct (inputs_there i Hi) as [o Ho]. rewrite Ho.
  destruct (input_standard (scriptPubKey o) (scriptSig i)) as [[| |b]|] eqn:Ev.
  - eexists. split; [done|]. inversion 1; simplify_eq; congruence.
  - assert (ins ⊆ vin tx) as Hs by (intros j Hj; by apply Hsub, list_elem_of_further).
    destruct (IH Hs) as (r & -> & Hr). exists r. split; [done|].
    destruct r as [[]|]; [by eapply order_next| |done]. intros H. inversion H; simplify_eq; done || congruence.
  - eexists. split; [done|]. destruct b; [by eapply order_last|]. inversion 1; simplify_eq; congruence.
  - eexists. split; [done|]. by exists i, o.
Qed.

Lemma view_p2sh : GetP2SHSigOpCount (detach view) tx = (detach view, Some (p2sh_count m (vin tx))).
Proof.
  unfold GetP2SHSigOpCount, p2sh_count. rewrite not_coinbase. generalize 0.
  destruct view_gathered as (_ & _ & _ & _ & Hl). unfold loaded in Hl. rewrite Forall_forall in Hl, inputs_there.
  assert (∀ i, i ∈ vin tx → ∃ o, lookup_output m (prevout i) = Some o ∧
    GetOutputFor (detach view) i = (detach view, Some o)) as H.
  { intros i Hi. destruct (inputs_there i Hi) as [o Ho]. exists o. split; [done|].
    rewrite (GetOutputFor_loaded (detach view) i (Hl i Hi)). cbn [SetBackend cacheCoins]. by rewrite cached_is_lookup, Ho by done. }
  clear Hl inputs_there. induction (vin tx) as [|i ins IH]; intros n; [done|]. cbn [p2sh_sigops foldl].
  destruct (H i) as (o & -> & ->); [apply list_elem_of_here|]. apply IH. intros j Hj. by apply H, list_elem_of_further.
Qed.

Lemma view_check_inputs flags :
  ∃ r, CheckInputs params ecdsa_verify height_of (detach view) tx true flags = Some r ∧
    match r with
    | Ok c' => c' = detach view ∧ inputs_accepted params ecdsa_verify m (h + 1) tx true flags
    | Throw _ => ¬ inputs_accepted params ecdsa_verify m (h + 1) tx true flags
    end.
Proof.
  destruct view_gathered as (Hc & Ha & Hb & Hn & Hl).
  destruct (check_inputs_spec _ _ _ params ecdsa_verify height_of view tx true flags h Hmax Hc not_coinbase
    not_zerospend values) as (r & E & Hr).
  { rewrite Hb. apply best_height. } { apply best_height. }
  { intros k x. rewrite Ha. apply pool_heights. }
  pose proof (CheckInputs_loaded params ecdsa_verify height_of view tx true flags Hl Hn) as E1. rewrite E in E1.
  pose proof (CheckInputs_loaded params ecdsa_verify height_of (detach view) tx true flags Hl Hn) as E2.
  change (detach (detach view)) with (detach view) in E2.
  assert (∀ m', (∀ k, m' k = m k) → inputs_accepted params ecdsa_verify m' (h + 1) tx true flags ↔
    inputs_accepted params ecdsa_verify m (h + 1) tx true flags) as Hext.
  { intros m' Hm'. apply inputs_accepted_ext. intros k. by rewrite Hm'. }
  destruct (CheckInputs params ecdsa_verify height_of (detach view) tx true flags) as [[c'|e]|]; [| |done].
  - injection E1 as ->. injection E2 as ->. eexists. split; [done|]. split; [done|]. apply (Hext _ Ha), Hr.
  - injection E1 as ->. eexists. split; [done|]. intros H. by apply Hr, (Hext _ Ha).
Qed.
End view.

(** What the last part of AcceptToMemoryPool demands, for inputs worth [v]. *)
Record judged (v : Z) : Prop := {
  jd_standard : fRequireStandard params = true → inputs_in_order m (vin tx);
  jd_sigops : u32 (GetLegacySigOpCount tx + p2sh_count m (vin tx)) <= MAX_TX_SIGOPS;
  jd_fee : fRejectInsaneFee = true →
    s64 (v - sum_values (vout tx)) <= s64 (GetFee (minRelayTxFee policy) (size_of f_tx tx) * 10000);
  jd_inputs : inputs_accepted params ecdsa_verify m (h + 1) tx true STANDARD_SCRIPT_VERIFY_FLAGS;
  jd_mandatory : inputs_accepted params ecdsa_verify m (h + 1) tx true MANDATORY_SCRIPT_VERIFY_FLAGS
}.

Lemma judge_spec view v :
  gathered pool tip tx view → Forall (λ i, is_Some (lookup_output m (prevout i))) (vin tx) →
  GetValueOut tx = Ok (sum_values (vout tx)) →
  match judge_inputs params policy ecdsa_verify height_of height time (detach view) v tx fRejectInsaneFee with
  | None => fRequireStandard params = true ∧ undefined_input m tx
  | Some (Ok entry) => entry = new_pool_entry tx (s64 (v - sum_values (vout tx))) time height ∧ judged v
  | Some (Throw _) => ¬ judged v
  end.
Proof.
  intros Hg Hin Hout. unfold judge_inputs.
  assert (∃ r, (if fRequireStandard params then AreInputsStandard (detach view) tx else (detach view, Some true)) = (detach view, r) ∧
    match r with
    | Some true => fRequireStandard params = true → inputs_in_order m (vin tx)
    | Some false => ¬ (fRequireStandard params = true → inputs_in_order m (vin tx))
    | None => fRequireStandard params = true ∧ undefined_input m tx
    end) as (r & -> & Hr).
  { destruct (fRequireStandard params); [|by exists (Some true)]. unfold AreInputsStandard. rewrite not_coinbase.
    destruct (view_inputs_standard view Hg Hin (vin tx)) as (r & -> & Hr); [done|]. exists r. split; [done|].
    destruct r as [[]|]; [done| |done]. intros H. by apply Hr, H. }
  destruct r as [[]|]; [|intros [J _ _ _ _]; by apply Hr|done].
  rewrite (view_p2sh view Hg Hin). destruct (Z.ltb_spec MAX_TX_SIGOPS (u32 (GetLegacySigOpCount tx + p2sh_count m (vin tx)))) as [|Hs].
  { intros [_ J _ _ _]. lia. }
  rewrite Hout. cbn [nTxSize new_pool_entry].
  destruct fRejectInsaneFee eqn:Ef; cbn [andb];
    [destruct (Z.ltb_spec (s64 (GetFee (minRelayTxFee policy) (size_of f_tx tx) * 10000)) (s64 (v - sum_values (vout tx)))) as [|Hfee];
      [intros [_ _ J _ _]; specialize (J Ef); lia|]|];
    (destruct (view_check_inputs view Hg STANDARD_SCRIPT_VERIFY_FLAGS) as ([c'|e] & -> & H1);
       [|intros [_ _ _ J _]; done]);
    destruct H1 as [-> H1];
    (destruct (view_check_inputs view Hg MANDATORY_SCRIPT_VERIFY_FLAGS) as ([c'|e] & -> & H2);
       [|intros [_ _ _ _ J]; done]);
    destruct H2 as [_ H2]; (split; [done|]); (split; [done|done| |done|done]); rewrite Ef; done.
Qed.
End judge.

(** ** What is admitted *)

Definition undefined_output (tx : CTransaction) : Prop := ∃ o, o ∈ vout tx ∧ Solver (scriptPubKey o) = None.

Lemma standard_outputs_undefined policy outs n :
  standard_outputs policy outs n = None → ∃ o, o ∈ outs ∧ Solver (scriptPubKey o) = None.
Proof.
  revert n. induction outs as [|o outs IH]; intros n; [done|]. cbn [standard_outputs]. unfold IsStandard.
  destruct (Solver (scriptPubKey o)) as [[ok t sols]|] eqn:Es.
  2: { intros _. exists o. split; [apply list_elem_of_here|done]. }
  assert (∀ n, standard_outputs policy outs n = None → ∃ o', o' ∈ o :: outs ∧ Solver (scriptPubKey o') = None) as Hrest.
  { intros k Hk. destruct (IH k Hk) as (o' & ? & ?). exists o'. split; [by apply list_elem_of_further|done]. }
  cbn beta iota.
  destruct (if negb ok then false else _); [|done]. repeat (case_match; try done); apply Hrest.
Qed.

Lemma IsStandardTx_undefined policy height now tx : IsStandardTx policy height now tx = None → undefined_output tx.
Proof.
  unfold IsStandardTx. repeat (case_match; try done). intros _. eapply standard_outputs_undefined. eassumption.
Qed.

Lemma value_in_sum (m : hash256 → option CCoins) ins :
  Forall (λ i, ∃ o, lookup_output m (prevout i) = Some o ∧ 0 <= nValue o) ins →
  sum_outputs m ins < 2 ^ 63 → value_in m ins = sum_outputs m ins.
Proof.
  intros Hall Hlt. unfold value_in. rewrite <- (Z.add_0_l (sum_outputs m ins)) in Hlt |- *.
  enough (∀ n, 0 <= n → n + sum_outputs m ins < 2 ^ 63 →
    foldl (λ n i, match lookup_output m (prevout i) with Some o => s64 (n + nValue o) | None => n end) n ins =
      n + sum_outputs m ins) as H by (by apply H).
  clear Hlt. induction Hall as [|i ins (o & Ho & Hv) Hall IH]; intros n Hn Hlt; cbn [foldl].
  { unfold sum_outputs. cbn. lia. }
  assert (sum_outputs m (i :: ins) = nValue o + sum_outputs m ins) as E by (unfold sum_outputs; cbn [foldr]; by rewrite Ho).
  assert (0 <= sum_outputs m ins) as Hs.
  { clear -Hall. induction Hall as [|i ins (o & Ho & Hv) _ IH]; [done|]. unfold sum_outputs in *. cbn [foldr]. rewrite Ho. lia. }
  rewrite E in *. rewrite Ho, swrap_small by (unfold in_sw; lia). rewrite IH by lia. lia.
Qed.

(** The rules of AcceptToMemoryPool, on the unspent coins of pool and tip. *)
Section rules.
Context (params : CChainParams) (policy : Policy) (ecdsa_verify : CPubKey → hash256 → list Z → bool).
Context (height now h : Z) (pool : CTxMemPool) (m : hash256 → option CCoins) (tx : CTransaction) (fRejectInsaneFee : bool).

Definition fee : Z := sum_outputs m (vin tx) - sum_values (vout tx).

Record admissible : Prop := {
  am_tx : tx_accepted params tx;
  am_coinbase : IsCoinBase tx = false;
  am_coinstake : IsCoinStake tx = false;
  am_standard : fRequireStandard params = true → IsStandardTx policy height now tx = Some (Ok ());
  am_pool : pool_exists pool (tx_hash tx) = false;
  am_new : m (tx_hash tx) = None;
  am_order : fRequireStandard params = true → inputs_in_order m (vin tx);
  am_sigops : u32 (GetLegacySigOpCount tx + p2sh_count m (vin tx)) <= MAX_TX_SIGOPS;
  am_fee : fRejectInsaneFee = true → fee <= s64 (GetFee (minRelayTxFee policy) (size_of f_tx tx) * 10000);
  am_inputs : inputs_accepted params ecdsa_verify m (h + 1) tx true STANDARD_SCRIPT_VERIFY_FLAGS;
  am_mandatory : inputs_accepted params ecdsa_verify m (h + 1) tx true MANDATORY_SCRIPT_VERIFY_FLAGS
}.
End rules.

(** ** The pool after an admission *)

Section admission.
Context {V : Type} `{HV : CoinsView V, !CoinsViewReads V}.
Context (params : CChainParams) (policy : Policy) (ecdsa_verify : CPubKey → hash256 → list Z → bool).
Context (height_of : hash256 → option Z) (height now time : Z) (h : Z).
Context (pool : CTxMemPool) (tip : V) (tx : CTransaction) (fRejectInsaneFee : bool).
Hypothesis Hmax : 0 <= nMaxMoneyOut params < 2 ^ 62.
Hypothesis best_known : hash_IsNull (cv_best tip) = false.
Hypothesis best_height : height_of (cv_best tip) = Some h ∧ 0 <= h < 2 ^ 31 - 1.
Hypothesis tip_heights : ∀ k x, cv_abs tip k = Some x → 0 <= c_nHeight x < 2 ^ 31.
Hypothesis tip_lawful : cv_inv tip.
Hypothesis indexes : Forall (λ i, 0 <= out_n (prevout i)) (vin tx).

Abbreviation m := (pool_coins pool (cv_abs tip)).
Abbreviation rules := (admissible params policy ecdsa_verify height now h pool m tx fRejectInsaneFee).

Lemma precheck_spec :
  match precheck params policy height now pool tx with
  | None => fRequireStandard params = true ∧ undefined_output tx
  | Some (Throw _) => ¬ rules
  | Some (Ok _) =>
      tx_accepted params tx ∧ IsCoinBase tx = false ∧ IsCoinStake tx = false ∧
      (fRequireStandard params = true → IsStandardTx policy height now tx = Some (Ok ())) ∧
      pool_exists pool (tx_hash tx) = false
  end.
Proof.
  unfold precheck. pose proof (CheckTransaction_ok params Hmax tx) as Hct.
  destruct (CheckTransaction params tx) as [[]|e]; [|intros [J _ _ _ _ _ _ _ _ _ _]; by apply Hct in J].
  destruct (IsCoinBase tx) eqn:Hcb; [by intros [_ J _ _ _ _ _ _ _ _ _]; rewrite Hcb in J|].
  destruct (IsCoinStake tx) eqn:Hcs; [by intros [_ _ J _ _ _ _ _ _ _ _]; rewrite Hcs in J|].
  assert (∃ r, (if fRequireStandard params then IsStandardTx policy height now tx else Some (Ok ())) = r ∧
    match r with
    | None => fRequireStandard params = true ∧ undefined_output tx
    | Some (Throw _) => ¬ (fRequireStandard params = true → IsStandardTx policy height now tx = Some (Ok ()))
    | Some (Ok _) => fRequireStandard params = true → IsStandardTx policy height now tx = Some (Ok ())
    end) as (r & -> & Hr).
  { destruct (fRequireStandard params); [|by eexists]. eexists. split; [done|].
    destruct (IsStandardTx policy height now tx) as [[[]|e]|] eqn:E; [done| |by split; [|eapply IsStandardTx_undefined]].
    intros H. by specialize (H eq_refl). }
  destruct r as [[[]|e]|]; [|by intros [_ _ _ J _ _ _ _ _ _ _]|done].
  destruct (pool_exists pool (tx_hash tx)) eqn:Hp; [by intros [_ _ _ _ J _ _ _ _ _ _]; rewrite Hp in J|].
  split_and!; [by apply Hct|done..].
Qed.

Lemma inputs_fee flags :
  inputs_accepted params ecdsa_verify m (h + 1) tx true flags → IsCoinStake tx = false →
  GetValueOut tx = Ok (sum_values (vout tx)) → 0 <= sum_values (vout tx) →
  value_in m (vin tx) = sum_outputs m (vin tx) ∧ 0 <= fee m tx <= nMaxMoneyOut params.
Proof.
  intros [H1 H2 H3 _] Hcs Hout H0. split.
  - apply value_in_sum; [|lia]. eapply Forall_impl; [exact H1|]. intros i (x & o & _ & Ho & _ & Hv). exists o. split; [done|lia].
  - destruct (H3 Hcs) as (out & Eo & Hle). rewrite Hout in Eo. injection Eo as <-. unfold fee. lia.
Qed.

Lemma admission_spec :
  let '(tip', r) := AcceptToMemoryPool params policy ecdsa_verify height_of height now time pool tip tx fRejectInsaneFee in
  (cv_inv tip' ∧ (∀ k, cv_abs tip' k = cv_abs tip k) ∧ cv_best tip' = cv_best tip) ∧
  match r with
  | None => fRequireStandard params = true ∧ (undefined_output tx ∨ undefined_input m tx)
  | Some (Throw _) => ¬ rules
  | Some (Ok pool') =>
      rules ∧ 0 <= fee m tx <= nMaxMoneyOut params ∧
      pool' = addUnchecked pool (tx_hash tx) (new_pool_entry tx (fee m tx) time height)
  end.
Proof.
  unfold AcceptToMemoryPool. pose proof precheck_spec as Hp.
  destruct (precheck params policy height now pool tx) as [[[]|e]|]; [|split; [by split_and!|done]|].
  2: { split; [by split_and!|]. destruct Hp as [? ?]. split; [done|by left]. }
  destruct Hp as (Htx & Hcb & Hcs & Hst & Hex).
  destruct (accepted_plain params tx Htx indexes) as [Hz _].
  destruct (accepted_values params Hmax tx Htx) as [_ Hout].
  pose proof (ta_outputs _ _ Htx) as Hos.
  assert (Forall (λ o, is_s64 (nValue o)) (vout tx)) as Hs64
    by (eapply Forall_impl; [exact Hos|]; intros o [? _]; unfold in_sw; simpl; lia).
  assert (0 <= sum_values (vout tx)) as Hs0
    by (apply sum_values_nonneg; eapply Forall_impl; [exact Hos|]; intros o [? _]; lia).
  pose proof (gather_spec pool tip tx tip_lawful best_known Hcb Hz) as Hg. cbn zeta in Hg.
  destruct (gather_inputs pool tip tx) as [tip' r]. destruct Hg as [Hsame Hr]. split; [done|].
  destruct r as [[[view v]|e]|]; [| |done].
  2: { intros [_ _ _ _ _ Hnew _ _ _ [Hin _ _ _] _]. apply Hr. split; [done|]. eapply Forall_impl; [exact Hin|].
       intros i (x & o & _ & Ho & _). by exists o. }
  destruct Hr as (Hnew & Hin & -> & view0 & -> & Hgat).
  pose proof (judge_spec params policy ecdsa_verify height_of height time h pool tip tx fRejectInsaneFee Hmax best_height
    tip_heights Hcb Hz Hs64 view0 (value_in m (vin tx)) Hgat Hin Hout) as Hj.
  assert (∀ flags, inputs_accepted params ecdsa_verify m (h + 1) tx true flags →
    value_in m (vin tx) = sum_outputs m (vin tx) ∧ 0 <= fee m tx <= nMaxMoneyOut params ∧
    s64 (value_in m (vin tx) - sum_values (vout tx)) = fee m tx) as Hfee.
  { intros flags Hf. destruct (inputs_fee flags Hf Hcs Hout Hs0) as [E Hb]. split_and!; [done|lia|lia|]. rewrite E.
    apply swrap_small; [lia|]. unfold fee, in_sw in *. lia. }
  destruct (judge_inputs _ _ _ _ _ _ _ _ _ _) as [[entry|e]|].
  - destruct Hj as [-> [J1 J2 J3 J4 J5]]. destruct (Hfee _ J4) as (_ & Hb & E). rewrite E in *. by split.
  - intros [_ _ _ _ _ _ K1 K2 K3 K4 K5]. destruct (Hfee _ K4) as (_ & _ & E). apply Hj. split; [done..| |done|done].
    by rewrite E.
  - split; [apply Hj|right; apply Hj].
Qed.
End admission.

(** ** The pool stays consistent, unless its transactions conflict *)

Lemma clean_vout_lookup l n o : clean_vout l !! n = Some o → l !! n = Some o.
Proof.
  unfold clean_vout. intros H. assert (∃ k, rev l = k ++ pop_nulls (rev l)) as [k E].
  { generalize (rev l). clear. induction l as [|x l [k IH]]; [by exists []|]. cbn [pop_nulls].
    destruct (txout_IsNull x); [|by exists []]. exists (x :: k). cbn. by rewrite <- IH. }
  apply (f_equal (@rev CTxOut)) in E. rewrite rev_involutive, rev_app_distr in E. rewrite E.
  by apply lookup_app_l_Some.
Qed.

Lemma pool_output_there pool m o x e :
  mapTx pool !! out_hash o = Some e → 0 <= out_n o → lookup_output (pool_coins pool m) o = Some x →
  output_there e (out_n o).
Proof.
  intros He Hn H. split; [done|]. unfold lookup_output, pool_coins, pool_lookup in H. rewrite He in H.
  cbn [fmap option_fmap option_map] in H. unfold unspent in H. destruct (IsPruned _); [done|].
  unfold IsAvailable in H. rewrite FromTx_vout in H.
  destruct (clean_vout _ !! _) as [y|] eqn:E; [|done]. destruct (negb (txout_IsNull y) && _) eqn:Ea; [|done].
  apply andb_true_iff in Ea as [Ea _]. apply negb_true_iff in Ea. apply clean_vout_lookup in E.
  apply list_lookup_fmap_Some in E as (z & Hz1 & Hz2). simplify_eq. exists z. split; [done|].
  unfold spendable in Ea. by destruct (IsUnspendable (scriptPubKey z)).
Qed.

Lemma admissible_add_ok params policy ecdsa_verify height now h pool m tx insane entry :
  admissible params policy ecdsa_verify height now h pool (pool_coins pool m) tx insane →
  Forall (λ i, 0 <= out_n (prevout i)) (vin tx) → e_tx entry = tx →
  (∀ inp, inp ∈ vin tx → mapNextTx pool !! prevout inp = None) →
  (∀ n p, mapNextTx pool !! mkOutPoint (tx_hash tx) n = Some p → output_there entry n) →
  add_ok pool (tx_hash tx) entry.
Proof.
  intros A Hn He Hfree Hch. destruct (accepted_plain params tx (am_tx _ _ _ _ _ _ _ _ _ _ A) Hn) as [Hz _].
  pose proof (ia_inputs _ _ _ _ _ _ _ (am_inputs _ _ _ _ _ _ _ _ _ _ A)) as Hin. rewrite Forall_forall in Hin, Hn.
  split; rewrite ?He; try done.
  - intros [e Hx]. pose proof (am_pool _ _ _ _ _ _ _ _ _ _ A) as Hp. unfold pool_exists in Hp.
    apply bool_decide_eq_false in Hp. by apply Hp; exists e.
  - apply (ta_distinct _ _ (am_tx _ _ _ _ _ _ _ _ _ _ A)).
  - intros inp e' Hi He'. destruct (Hin inp Hi) as (x & o & _ & Ho & _). eapply pool_output_there; [done|by apply Hn|done].
  - intros inp Hi E. destruct (Hin inp Hi) as (x & o & _ & Ho & _). unfold lookup_output in Ho.
    rewrite E, (am_new _ _ _ _ _ _ _ _ _ _ A) in Ho. done.
Qed.

(** C2: AcceptToMemoryPool on a pool and any lawful view of the coins of the tip.
    It leaves those coins as they are; it admits exactly the transactions that
    meet its rules (valid on their own, neither coinbase nor coinstake, standard
    where the network demands it, unknown, in order, with few signature operations
    and no insane fee, and with inputs that CheckInputs accepts under the standard
    and the mandatory flags, judged on the unspent coins of pool and tip), with
    their fee, which is an amount of money; no assertion fails, and nothing is
    undefined except where Solver is, on a script of the transaction or of an
    output it spends. A pool that is consistent stays so if the transaction spends
    nothing the pool already spends; but this is not among the rules, and
    admitting one that does makes the pool fail its own check. *)
Theorem memory_pool_admission V (HV : CoinsView V) (HO : CoinsViewReads V) params policy ecdsa_verify
    height_of height now time h pool (tip : V) tx fRejectInsaneFee :
  0 <= nMaxMoneyOut params < 2 ^ 62 →
  cv_inv tip → hash_IsNull (cv_best tip) = false → height_of (cv_best tip) = Some h ∧ 0 <= h < 2 ^ 31 - 1 →
  (∀ k x, cv_abs tip k = Some x → 0 <= c_nHeight x < 2 ^ 31) →
  Forall (λ i, 0 <= out_n (prevout i)) (vin tx) →
  let m := pool_coins pool (cv_abs tip) in
  let rules := admissible params policy ecdsa_verify height now h pool m tx fRejectInsaneFee in
  let '(tip', r) := AcceptToMemoryPool params policy ecdsa_verify height_of height now time pool tip tx fRejectInsaneFee in
  (cv_inv tip' ∧ (∀ k, cv_abs tip' k = cv_abs tip k) ∧ cv_best tip' = cv_best tip) ∧
  match r with
  | None => fRequireStandard params = true ∧ (undefined_output tx ∨ undefined_input m tx)
  | Some (Throw _) => ¬ rules
  | Some (Ok pool') =>
      let entry := new_pool_entry tx (fee m tx) time height in
      rules ∧ 0 <= fee m tx <= nMaxMoneyOut params ∧ pool' = addUnchecked pool (tx_hash tx) entry ∧
      (pool_wf pool →
       ((∀ inp, inp ∈ vin tx → mapNextTx pool !! prevout inp = None) →
        (∀ n p, mapNextTx pool !! mkOutPoint (tx_hash tx) n = Some p → output_there entry n) → pool_wf pool') ∧
       ((∃ inp, inp ∈ vin tx ∧ is_Some (mapNextTx pool !! prevout inp)) → fSanityCheck pool = true →
        check_pool pool' = false))
  end.
Proof.
  intros Hmax Ht Hb Hh Hcs Hn m rules.
  pose proof (admission_spec params policy ecdsa_verify height_of height now time h pool tip tx fRejectInsaneFee
    Hmax Hb Hh Hcs Ht Hn) as H. fold m rules in H.
  destruct (AcceptToMemoryPool _ _ _ _ _ _ _ _ _ _ _) as [tip' r]. destruct H as [Hsame Hr]. split; [done|].
  destruct r as [[pool'|e]|]; [|done..]. destruct Hr as (A & Hfee & ->). split; [done|]. split; [done|]. split; [done|].
  intros W. split.
  - intros Hfree Hch. apply addUnchecked_wf; [done|]. by eapply admissible_add_ok.
  - intros (inp & Hi & Hx) Hsane.
    destruct (accepted_plain params tx (am_tx _ _ _ _ _ _ _ _ _ _ A) Hn) as [Hz _].
    eapply conflict_fails_check; try done; [|apply (ta_distinct _ _ (am_tx _ _ _ _ _ _ _ _ _ _ A))].
    intros [e He]. pose proof (am_pool _ _ _ _ _ _ _ _ _ _ A) as Hp. apply bool_decide_eq_false in Hp. by apply Hp; exists e.
Qed.

(** ** Two spends of one coin *)

Definition ex_pubkey : list Z := 2 :: replicate 32 5.
Definition ex_lock : list Z := 33 :: ex_pubkey ++ [OP_CHECKSIG].
(** A well-formed signature, which the checker of the example accepts. *)
Definition ex_sig : list Z := [48; 6; 2; 1; 1; 2; 1; 1; 1].
Definition ex_tip : CCoinsViewDB :=
  mkDB {[ replicate 32 7 := mkCoins false false [new_txout 100000 ex_lock] 3 1 ]} (Some (replicate 32 3)).
Definition ex_pays (k value : Z) : CTransaction :=
  mkTx (replicate 32 k) 1 [new_txin (mkOutPoint (replicate 32 7) 0) (9 :: ex_sig) 4294967295] [new_txout value ex_lock] 0.
Definition ex_policy : Policy := mkPolicy 10000 true true 83.
Definition ex_accept (pool : CTxMemPool) (tx : CTransaction) : CCoinsViewDB * option (result admission_error CTxMemPool) :=
  AcceptToMemoryPool CMainParams ex_policy (λ _ _ _, true) (λ _, Some 40) 40 1000 2000 pool ex_tip tx false.
Definition ex_empty : CTxMemPool := setSanityCheck new_pool true.

Lemma ex_tip_heights k x : cv_abs ex_tip k = Some x → 0 <= c_nHeight x < 2 ^ 31.
Proof. intros H. cbn in H. apply lookup_singleton_Some in H as [_ <-]. cbn. lia. Qed.

Lemma ex_tip_ok : cv_inv ex_tip.
Proof. intros k c H. cbn in H. by apply lookup_singleton_Some in H as [_ <-]. Qed.

Lemma ex_accept_spec pool tx :
  Forall (λ i, 0 <= out_n (prevout i)) (vin tx) →
  let m := pool_coins pool (cv_abs ex_tip) in
  match (ex_accept pool tx).2 with
  | Some (Ok pool') => pool' = addUnchecked pool (tx_hash tx) (new_pool_entry tx (fee m tx) 2000 40)
  | _ => True
  end.
Proof.
  intros Hn. pose proof (admission_spec CMainParams ex_policy (λ _ _ _, true) (λ _, Some 40) 40 1000 2000 40 pool
    ex_tip tx false ltac:(split; [discriminate|reflexivity]) eq_refl ltac:(split; [reflexivity|lia]) ex_tip_heights ex_tip_ok Hn) as H.
  unfold ex_accept. destruct (AcceptToMemoryPool _ _ _ _ _ _ _ _ _ _ _) as [t r]. destruct H as [_ H]. cbn [snd].
  destruct r as [[p|]|]; [apply H|done..].
Qed.

Definition ex_pool1 : CTxMemPool := addUnchecked ex_empty (replicate 32 1) (new_pool_entry (ex_pays 1 60000) 40000 2000 40).
Definition ex_pool2 : CTxMemPool := addUnchecked ex_pool1 (replicate 32 2) (new_pool_entry (ex_pays 2 50000) 50000 2000 40).

Lemma ex_pays_indexes k v : Forall (λ i, 0 <= out_n (prevout i)) (vin (ex_pays k v)).
Proof. repeat constructor; discriminate. Qed.

(** The pool takes a payment, stays consistent, then takes another payment with
    the same coin, and fails its check. *)
Lemma memory_pool_admission_witness :
  (ex_accept ex_empty (ex_pays 1 60000)).2 = Some (Ok ex_pool1) ∧ pool_wf ex_pool1 ∧
  (ex_accept ex_pool1 (ex_pays 2 50000)).2 = Some (Ok ex_pool2) ∧ check_pool ex_pool2 = false.
Proof.
  assert (∀ pool tx, match (ex_accept pool tx).2 with Some (Ok _) => true | _ => false end = true →
    ∃ p, (ex_accept pool tx).2 = Some (Ok p)) as Hok.
  { intros pool tx. destruct (ex_accept pool tx).2 as [[p|]|]; [by exists p|done..]. }
  pose proof (λ pool tx Hn, memory_pool_admission _ _ DB_reads CMainParams ex_policy (λ _ _ _, true) (λ _, Some 40) 40 1000
    2000 40 pool ex_tip tx false ltac:(split; [discriminate|reflexivity]) ex_tip_ok eq_refl
    ltac:(split; [reflexivity|lia]) ex_tip_heights Hn) as H.
  assert (pool_wf ex_empty) as W0 by (split; intros *; cbn; by rewrite ?lookup_empty).
  destruct (Hok ex_empty (ex_pays 1 60000)) as [p1 E1]; [by vm_compute|].
  pose proof (H ex_empty (ex_pays 1 60000) (ex_pays_indexes _ _)) as H1. unfold ex_accept in E1 |- *.
  destruct (AcceptToMemoryPool _ _ _ _ _ _ _ ex_empty _ _ _) as [t1 r1]. cbn [snd] in E1 |- *. subst r1.
  destruct H1 as (_ & _ & _ & Hp1 & HW1).
  assert (p1 = ex_pool1) as -> by (rewrite Hp1; vm_compute; reflexivity).
  assert (pool_wf ex_pool1) as W1.
  { apply (proj1 (HW1 W0)); intros *; cbn; by rewrite lookup_empty. }
  destruct (Hok ex_pool1 (ex_pays 2 50000)) as [p2 E2]; [by vm_compute|].
  pose proof (H ex_pool1 (ex_pays 2 50000) (ex_pays_indexes _ _)) as H2. unfold ex_accept in E2 |- *.
  destruct (AcceptToMemoryPool _ _ _ _ _ _ _ ex_pool1 _ _ _) as [t2 r2]. cbn [snd] in E2 |- *. subst r2.
  destruct H2 as (_ & _ & _ & Hp2 & HW2).
  assert (p2 = ex_pool2) as -> by (rewrite Hp2; vm_compute; reflexivity).
  split; [done|]. split; [done|]. split; [done|].
  apply (proj2 (HW2 W1)); [|done].
  exists (new_txin (mkOutPoint (replicate 32 7) 0) (9 :: ex_sig) 4294967295).
  split; [apply list_elem_of_here|]. vm_compute. by eexists.
Defined.
