(* ===== verification/Orphans.v ===== *)
(** * main.cpp: orphan transactions and the handler of "tx"

    Transactions whose inputs are not known yet, indexed by the transactions they
    wait for, and what ProcessMessage does with a "tx" message: it offers the
    transaction to the memory pool, then every orphan that waited for it, and so
    on. The pool is any type with an [Admission]; AcceptToMemoryPool ([PoolAccept])
    is one. Left out: mempool.check, which asserts and changes nothing, and the
    masternode signature of "dstx". *)

From stdpp Require Import sorting.
From S2P Require Import Prelude Serialize Params Script Digest Hashes Interp Tx SigHash Coins CoinsView.
From S2P Require Import Connect TxCheck Standard Mempool Block PoolAccept.

Local Open Scope node_scope.

(** ** mapOrphanTransactions and mapOrphanTransactionsByPrev *)

Record COrphanTx := mkOrphan { o_tx : CTransaction; fromPeer : Z }.

Record Orphans := mkOrphans {
  mapOrphanTransactions : gmap hash256 COrphanTx;
  mapOrphanTransactionsByPrev : gmap hash256 (gset hash256)
}.

Definition no_orphans : Orphans := mkOrphans ∅ ∅.

(** The keys of a std::map or the elements of a std::set, in the order of uint256. *)
Definition in_order (l : list hash256) : list hash256 := merge_sort key_le l.
Definition orphan_keys (s : Orphans) : list hash256 := in_order (map_to_list (mapOrphanTransactions s)).*1.

Definition spend_hashes (tx : CTransaction) : list hash256 := map (λ i, out_hash (prevout i)) (vin tx).

Definition add_prev (hash : hash256) (by_prev : gmap hash256 (gset hash256)) (txin : CTxIn) : gmap hash256 (gset hash256) :=
  let p := out_hash (prevout txin) in <[p := {[hash]} ∪ default ∅ (by_prev !! p)]> by_prev.

Definition AddOrphanTx (s : Orphans) (tx : CTransaction) (peer : Z) : Orphans * bool :=
  let hash := tx_hash tx in
  if bool_decide (is_Some (mapOrphanTransactions s !! hash)) then (s, false)
  else if 5000 <? u32 (size_of f_tx tx) then (s, false)
  else (mkOrphans (<[hash := mkOrphan tx peer]> (mapOrphanTransactions s))
          (foldl (add_prev hash) (mapOrphanTransactionsByPrev s) (vin tx)), true).

Definition erase_prev (hash : hash256) (by_prev : gmap hash256 (gset hash256)) (txin : CTxIn) : gmap hash256 (gset hash256) :=
  let p := out_hash (prevout txin) in
  match by_prev !! p with
  | None => by_prev
  | Some spenders =>
      let spenders := spenders ∖ {[hash]} in
      if decide (spenders = ∅) then delete p by_prev else <[p := spenders]> by_prev
  end.

Definition EraseOrphanTx (s : Orphans) (hash : hash256) : Orphans :=
  match mapOrphanTransactions s !! hash with
  | None => s
  | Some o =>
      mkOrphans (delete hash (mapOrphanTransactions s))
        (foldl (erase_prev hash) (mapOrphanTransactionsByPrev s) (vin (o_tx o)))
  end.

(** One turn of the loop of EraseOrphansFor, with nErased. *)
Definition erase_if_from (peer : Z) (r : Orphans * Z) (key : hash256) : Orphans * Z :=
  match mapOrphanTransactions r.1 !! key with
  | Some o => if fromPeer o =? peer then (EraseOrphanTx r.1 (tx_hash (o_tx o)), r.2 + 1) else r
  | None => r
  end.

Definition EraseOrphansFor (s : Orphans) (peer : Z) : Orphans * Z := foldl (erase_if_from peer) (s, 0) (orphan_keys s).

(** The first key that is not less than [hash]. *)
Definition lower_bound (s : Orphans) (hash : hash256) : option hash256 :=
  head (filter (λ k, hash_lt k hash = false) (orphan_keys s)).

(** [random] are the results of GetRandHash; the orphans left, and nEvicted. *)
Fixpoint limit_loop (fuel : nat) (s : Orphans) (nMaxOrphans : Z) (random : list hash256) (nEvicted : Z)
    : option (Orphans * Z) :=
  if Z.of_nat (size (mapOrphanTransactions s)) <=? nMaxOrphans then Some (s, nEvicted)
  else
    match fuel with
    | O => None
    | S fuel =>
        let randomhash := default null_hash (head random) in
        match (match lower_bound s randomhash with Some k => Some k | None => head (orphan_keys s) end) with
        | None => None
        | Some k => limit_loop fuel (EraseOrphanTx s k) nMaxOrphans (tail random) (u32 (nEvicted + 1))
        end
    end.

Definition LimitOrphanTxSize (s : Orphans) (nMaxOrphans : Z) (random : list hash256) : option (Orphans * Z) :=
  limit_loop (size (mapOrphanTransactions s)) s nMaxOrphans random 0.

(** ** What the pool says *)

(** Accepted; *pfMissingInputs; refused, with the state of the validation; or
    undefined behaviour or an exception. *)
Inductive verdict := Accepted | Missing | NotAccepted (state : CValidationState) | Stopped.

Class Admission (P : Type) := {
  offer : P → CTransaction → P * verdict;
  in_pool_already : P → hash256 → bool
}.

(** What the handler relies on. *)
Class AdmissionOk (P : Type) `{Admission P} := {
  adm_enters : ∀ p tx p', offer p tx = (p', Accepted) → in_pool_already p' (tx_hash tx) = true;
  adm_new : ∀ p tx p', offer p tx = (p', Accepted) → in_pool_already p (tx_hash tx) = false;
  adm_stays : ∀ p tx p' r h, offer p tx = (p', r) → in_pool_already p h = true → in_pool_already p' h = true
}.

(** ** The handler of "tx" *)

Section relay.
Context {P : Type} `{Admission P}.

(** The locals of the handler, the pool, and what it told others: the
    transactions relayed and the calls of Misbehaving. *)
Record Resolution := mkResolution {
  r_pool : P;
  vWorkQueue : list hash256;
  vEraseQueue : list hash256;
  setMisbehaving : gset Z;
  r_relayed : list hash256;
  r_misbehaving : list (Z * Z)
}.

(** One orphan that waited for the transaction at hand. [None] is [Stopped], or
    an orphan that is in the index only, for which operator[] makes up an entry. *)
Definition consider_orphan (orphans : Orphans) (r : option Resolution) (orphanHash : hash256) : option Resolution :=
  match r with
  | None => None
  | Some r =>
      match mapOrphanTransactions orphans !! orphanHash with
      | None => None
      | Some o =>
          if bool_decide (fromPeer o ∈ setMisbehaving r) then Some r
          else
            let '(pool, v) := offer (r_pool r) (o_tx o) in
            match v with
            | Accepted =>
                Some (mkResolution pool (vWorkQueue r ++ [orphanHash]) (vEraseQueue r ++ [orphanHash])
                        (setMisbehaving r) (r_relayed r ++ [tx_hash (o_tx o)]) (r_misbehaving r))
            | Missing =>
                Some (mkResolution pool (vWorkQueue r) (vEraseQueue r) (setMisbehaving r) (r_relayed r) (r_misbehaving r))
            | NotAccepted stateDummy =>
                let punished := IsInvalid stateDummy && (0 <? nDoS stateDummy) in
                Some (mkResolution pool (vWorkQueue r) (vEraseQueue r ++ [orphanHash])
                        (if punished then {[fromPeer o]} ∪ setMisbehaving r else setMisbehaving r) (r_relayed r)
                        (if punished then r_misbehaving r ++ [(fromPeer o, nDoS stateDummy)] else r_misbehaving r))
            | Stopped => None
            end
      end
  end.

(** The loop over vWorkQueue, from place [i]. *)
Fixpoint resolve_orphans (fuel : nat) (orphans : Orphans) (i : nat) (r : Resolution) : option Resolution :=
  match vWorkQueue r !! i with
  | None => Some r
  | Some hash =>
      match fuel with
      | O => None
      | S fuel =>
          match mapOrphanTransactionsByPrev orphans !! hash with
          | None => resolve_orphans fuel orphans (S i) r
          | Some waiting =>
              match foldl (consider_orphan orphans) (Some r) (in_order (elements waiting)) with
              | None => None
              | Some r => resolve_orphans fuel orphans (S i) r
              end
          end
      end
  end.

(** What the message led to; the "reject" sent back is that of [h_state]. *)
Record Handled := mkHandled {
  h_pool : P;
  h_orphans : Orphans;
  h_relayed : list hash256;
  h_misbehaving : list (Z * Z);
  h_state : CValidationState
}.

(** [pfrom] is the peer, [maxorphantx] the setting -maxorphantx. *)
Definition handle_tx (pool : P) (orphans : Orphans) (pfrom : Z) (fWhitelisted : bool) (maxorphantx : Z)
    (random : list hash256) (tx : CTransaction) : option Handled :=
  let '(pool, v) := offer pool tx in
  match v with
  | Stopped => None
  | Accepted =>
      let r := mkResolution pool [tx_hash tx] [] ∅ [tx_hash tx] [] in
      match resolve_orphans (S (size (mapOrphanTransactions orphans))) orphans 0 r with
      | None => None
      | Some r =>
          Some (mkHandled (r_pool r) (foldl EraseOrphanTx orphans (vEraseQueue r)) (r_relayed r) (r_misbehaving r)
                  new_validation)
      end
  | Missing =>
      let nMaxOrphanTx := u32 (Z.max 0 maxorphantx) in
      match LimitOrphanTxSize (AddOrphanTx orphans tx pfrom).1 nMaxOrphanTx random with
      | None => None
      | Some (orphans, _) => Some (mkHandled pool orphans [] [] new_validation)
      end
  | NotAccepted state =>
      Some (mkHandled pool orphans (if fWhitelisted then [tx_hash tx] else [])
              (if IsInvalid state && (0 <? nDoS state) then [(pfrom, nDoS state)] else []) state)
  end.
End relay.
Arguments Resolution : clear implicits.
Arguments Handled : clear implicits.

(** ** The pool of the node *)

Definition REJECT_DUPLICATE : Z := 18.
Definition REJECT_NONSTANDARD : Z := 64.

Definition ScriptErrorString (serror : ScriptError) : string :=
  match serror with
  | SCRIPT_ERR_EVAL_FALSE => "Script evaluated without error but finished with a false/empty top stack element"
  | SCRIPT_ERR_VERIFY => "Script failed an OP_VERIFY operation"
  | SCRIPT_ERR_EQUALVERIFY => "Script failed an OP_EQUALVERIFY operation"
  | SCRIPT_ERR_CHECKMULTISIGVERIFY => "Script failed an OP_CHECKMULTISIGVERIFY operation"
  | SCRIPT_ERR_CHECKSIGVERIFY => "Script failed an OP_CHECKSIGVERIFY operation"
  | SCRIPT_ERR_NUMEQUALVERIFY => "Script failed an OP_NUMEQUALVERIFY operation"
  | SCRIPT_ERR_SCRIPT_SIZE => "Script is too big"
  | SCRIPT_ERR_PUSH_SIZE => "Push value size limit exceeded"
  | SCRIPT_ERR_OP_COUNT => "Operation limit exceeded"
  | SCRIPT_ERR_STACK_SIZE => "Stack size limit exceeded"
  | SCRIPT_ERR_SIG_COUNT => "Signature count negative or greater than pubkey count"
  | SCRIPT_ERR_PUBKEY_COUNT => "Pubkey count negative or limit exceeded"
  | SCRIPT_ERR_BAD_OPCODE => "Opcode missing or not understood"
  | SCRIPT_ERR_DISABLED_OPCODE => "Attempted to use a disabled opcode"
  | SCRIPT_ERR_INVALID_STACK_OPERATION => "Operation not valid with the current stack size"
  | SCRIPT_ERR_INVALID_ALTSTACK_OPERATION => "Operation not valid with the current altstack size"
  | SCRIPT_ERR_OP_RETURN => "OP_RETURN was encountered"
  | SCRIPT_ERR_UNBALANCED_CONDITIONAL => "Invalid OP_IF construction"
  | SCRIPT_ERR_SIG_HASHTYPE => "Signature hash type missing or not understood"
  | SCRIPT_ERR_SIG_DER => "Non-canonical DER signature"
  | SCRIPT_ERR_MINIMALDATA => "Data push larger than necessary"
  | SCRIPT_ERR_SIG_PUSHONLY => "Only non-push operators allowed in signatures"
  | SCRIPT_ERR_SIG_HIGH_S => "Non-canonical signature: S value is unnecessarily high"
  | SCRIPT_ERR_SIG_NULLDUMMY => "Dummy CHECKMULTISIG argument must be zero"
  | SCRIPT_ERR_DISCOURAGE_UPGRADABLE_NOPS => "NOPx reserved for soft-fork upgrades"
  | SCRIPT_ERR_PUBKEYTYPE => "Public key is neither compressed or uncompressed"
  | SCRIPT_ERR_UNKNOWN_ERROR => "unknown error"
  end.

(** The reason IsStandardTx returns. *)
Definition standard_reason_text (e : standard_reason) : string :=
  match e with
  | RVersion => "version"
  | RNonFinal => "non-final"
  | RTxSize => "tx-size"
  | RScriptSigSize => "scriptsig-size"
  | RScriptSigNotPushOnly => "scriptsig-not-pushonly"
  | RScriptPubKey => "scriptpubkey"
  | RBareMultisig => "bare-multisig"
  | RDust => "dust"
  | RMultiOpReturn => "multi-op-return"
  end.

(** What CheckInputs does to the state of the validation; [None] is the exception
    of GetValueOut. *)
Definition inputs_reject (e : inputs_error) (st : CValidationState) : option CValidationState :=
  match e with
  | InputsUnavailable => Some (Invalid 0 "" st)
  | PrematureSpend => Some (Invalid REJECT_INVALID "bad-txns-premature-spend-of-coinbase" st)
  | InputOutOfRange => Some (DoS 100 REJECT_INVALID "bad-txns-inputvalues-outofrange" false st)
  | InBelowOut => Some (DoS 100 REJECT_INVALID "bad-txns-in-belowout" false st)
  | FeeNegative => Some (DoS 100 REJECT_INVALID "bad-txns-fee-negative" false st)
  | FeeOutOfRange => Some (DoS 100 REJECT_INVALID "bad-txns-fee-outofrange" false st)
  | InputsValueOut _ => None
  | ScriptFailed e =>
      Some (DoS 100 REJECT_INVALID ("mandatory-script-verify-flag-failed (" ++ ScriptErrorString e ++ ")") false st)
  (* the text is that of the second check, which passed *)
  | ScriptNonMandatory => Some (Invalid REJECT_NONSTANDARD "non-mandatory-script-verify-flag (No error)" st)
  end.

(** What AcceptToMemoryPool tells its caller, which gave it a fresh state. *)
Definition admission_verdict (e : admission_error) : verdict :=
  let st := new_validation in
  let of_inputs e := match inputs_reject e st with Some st => NotAccepted st | None => Stopped end in
  match e with
  | TxInvalid e => NotAccepted (tx_reject e st)
  | LooseCoinbase => NotAccepted (DoS 100 REJECT_INVALID "coinbase" false st)
  | LooseCoinstake => NotAccepted (DoS 100 REJECT_INVALID "coinstake" false st)
  | NonStandard e => NotAccepted (DoS 0 REJECT_NONSTANDARD (standard_reason_text e) false st)
  | AlreadyInPool | AlreadyKnown | NonStandardInputs | InsaneFee => NotAccepted st
  | MissingInputs => Missing
  | InputsSpent => NotAccepted (Invalid REJECT_DUPLICATE "bad-txns-inputs-spent" st)
  | TooManySigops => NotAccepted (DoS 0 REJECT_NONSTANDARD "bad-txns-too-many-sigops" false st)
  | ValueOut _ => Stopped
  | InputsFailed e | MandatoryFailed e => of_inputs e
  end.

(** ** The index is exact *)

Record orphans_wf (s : Orphans) : Prop := {
  ow_hash : ∀ h o, mapOrphanTransactions s !! h = Some o → tx_hash (o_tx o) = h;
  ow_index : ∀ p h, h ∈ default ∅ (mapOrphanTransactionsByPrev s !! p) ↔
    ∃ o, mapOrphanTransactions s !! h = Some o ∧ p ∈ spend_hashes (o_tx o);
  ow_nonempty : ∀ p, mapOrphanTransactionsByPrev s !! p <> Some ∅
}.

Lemma elem_of_in_order l h : h ∈ in_order l ↔ h ∈ l.
Proof. unfold in_order. by rewrite merge_sort_Permutation. Qed.

Lemma elem_of_orphan_keys s h : h ∈ orphan_keys s ↔ is_Some (mapOrphanTransactions s !! h).
Proof.
  unfold orphan_keys. rewrite elem_of_in_order, list_elem_of_fmap. split.
  - intros ([k o] & -> & Hk). apply elem_of_map_to_list in Hk. by exists o.
  - intros [o Ho]. exists (h, o). by rewrite elem_of_map_to_list.
Qed.

Lemma NoDup_orphan_keys s : NoDup (orphan_keys s).
Proof. unfold orphan_keys, in_order. rewrite merge_sort_Permutation. apply NoDup_fst_map_to_list. Qed.

Lemma add_prev_spec hash ins by_prev :
  (∀ p, by_prev !! p <> Some ∅) →
  (∀ p, foldl (add_prev hash) by_prev ins !! p <> Some ∅) ∧
  ∀ p h, h ∈ default ∅ (foldl (add_prev hash) by_prev ins !! p) ↔
    h ∈ default ∅ (by_prev !! p) ∨ (h = hash ∧ p ∈ map (λ i, out_hash (prevout i)) ins).
Proof.
  revert by_prev. induction ins as [|i ins IH]; intros by_prev Hne; cbn [foldl map].
  { split; [done|]. intros p h. rewrite elem_of_nil. naive_solver. }
  destruct (IH (add_prev hash by_prev i)) as [H1 H2].
  - intros p. unfold add_prev. destruct (decide (p = out_hash (prevout i))) as [->|Hp].
    + rewrite lookup_insert_eq. intros [= E]. set_solver.
    + by rewrite lookup_insert_ne.
  - split; [done|]. intros p h. rewrite H2, elem_of_cons. unfold add_prev.
    destruct (decide (p = out_hash (prevout i))) as [->|Hp].
    + rewrite lookup_insert_eq. cbn [default id]. set_solver.
    + rewrite lookup_insert_ne by done. naive_solver.
Qed.

Lemma erase_prev_spec hash ins by_prev :
  (∀ p, by_prev !! p <> Some ∅) →
  (∀ p, foldl (erase_prev hash) by_prev ins !! p <> Some ∅) ∧
  ∀ p h, h ∈ default ∅ (foldl (erase_prev hash) by_prev ins !! p) ↔
    h ∈ default ∅ (by_prev !! p) ∧ ¬ (h = hash ∧ p ∈ map (λ i, out_hash (prevout i)) ins).
Proof.
  revert by_prev. induction ins as [|i ins IH]; intros by_prev Hne; cbn [foldl map].
  { split; [done|]. intros p h. rewrite elem_of_nil. naive_solver. }
  assert (∀ p, default ∅ (erase_prev hash by_prev i !! p) =
    if decide (p = out_hash (prevout i)) then default ∅ (by_prev !! p) ∖ {[hash]} else default ∅ (by_prev !! p)) as Hd.
  { intros p. unfold erase_prev. destruct (decide (p = out_hash (prevout i))) as [->|Hp].
    - destruct (by_prev !! out_hash (prevout i)) as [m|] eqn:E; [|rewrite E; cbn [default id]; set_solver].
      case_decide as Hm; [by rewrite lookup_delete_eq; cbn [default id]; rewrite Hm|].
      by rewrite lookup_insert_eq.
    - destruct (by_prev !! out_hash (prevout i)) as [m|]; [|done].
      case_decide; [by rewrite lookup_delete_ne|by rewrite lookup_insert_ne]. }
  destruct (IH (erase_prev hash by_prev i)) as [H1 H2].
  - intros p. unfold erase_prev. destruct (by_prev !! out_hash (prevout i)) as [m|] eqn:E; [|done].
    destruct (decide (p = out_hash (prevout i))) as [->|Hp].
    + case_decide; [by rewrite lookup_delete_eq|]. rewrite lookup_insert_eq. by intros [= Em].
    + case_decide; [by rewrite lookup_delete_ne|by rewrite lookup_insert_ne].
  - split; [done|]. intros p h. rewrite H2, Hd, elem_of_cons.
    destruct (decide (p = out_hash (prevout i))) as [->|Hp]; set_solver.
Qed.

(** ** The operations *)

Lemma no_orphans_wf : orphans_wf no_orphans.
Proof.
  split; cbn; [by intros *; rewrite lookup_empty| |by intros *; rewrite lookup_empty].
  intros p h. rewrite !lookup_empty. cbn [default]. set_solver.
Qed.

Lemma AddOrphanTx_spec s tx peer :
  orphans_wf s →
  let '(s', added) := AddOrphanTx s tx peer in
  orphans_wf s' ∧
  added = bool_decide (mapOrphanTransactions s !! tx_hash tx = None) && (u32 (size_of f_tx tx) <=? 5000) ∧
  mapOrphanTransactions s' =
    if added then <[tx_hash tx := mkOrphan tx peer]> (mapOrphanTransactions s) else mapOrphanTransactions s.
Proof.
  intros W. unfold AddOrphanTx. destruct (mapOrphanTransactions s !! tx_hash tx) as [o|] eqn:E.
  { rewrite bool_decide_eq_true_2 by (by exists o). split; [done|]. by rewrite bool_decide_eq_false_2. }
  rewrite bool_decide_eq_false_2 by (by intros [? ?]). rewrite (bool_decide_eq_true_2 (None = None)) by done.
  destruct (Z.ltb_spec 5000 (u32 (size_of f_tx tx))), (Z.leb_spec (u32 (size_of f_tx tx)) 5000); try lia; [done|].
  split; [|done]. destruct (add_prev_spec (tx_hash tx) (vin tx) _ (ow_nonempty s W)) as [H1 H2].
  split; cbn [mapOrphanTransactions mapOrphanTransactionsByPrev]; [| |done].
  - intros h o. destruct (decide (h = tx_hash tx)) as [->|Hh].
    + rewrite lookup_insert_eq. by intros [= <-].
    + rewrite lookup_insert_ne by done. apply (ow_hash s W).
  - intros p h. rewrite H2, (ow_index s W p h). destruct (decide (h = tx_hash tx)) as [->|Hh].
    + rewrite lookup_insert_eq, E. split.
      * intros [(? & ? & ?)|[_ Hp]]; [done|]. by eexists.
      * intros (o & [= <-] & Hp). by right.
    + rewrite lookup_insert_ne by done. naive_solver.
Qed.

Lemma EraseOrphanTx_spec s hash :
  orphans_wf s →
  orphans_wf (EraseOrphanTx s hash) ∧ mapOrphanTransactions (EraseOrphanTx s hash) = delete hash (mapOrphanTransactions s).
Proof.
  intros W. unfold EraseOrphanTx. destruct (mapOrphanTransactions s !! hash) as [o|] eqn:E.
  2: { split; [done|]. by rewrite delete_id. }
  split; [|done]. destruct (erase_prev_spec hash (vin (o_tx o)) _ (ow_nonempty s W)) as [H1 H2].
  split; cbn [mapOrphanTransactions mapOrphanTransactionsByPrev]; [| |done].
  - intros h o' [_ Ho]%lookup_delete_Some. by apply (ow_hash s W).
  - intros p h. rewrite H2, (ow_index s W p h). destruct (decide (h = hash)) as [->|Hh].
    + rewrite lookup_delete_eq, E. split; [|by intros (? & ? & ?)]. intros [(o' & [= <-] & Hp) Hn]. by destruct Hn.
    + rewrite lookup_delete_ne by done. naive_solver.
Qed.

Lemma erase_queue_spec s queue :
  orphans_wf s →
  let s' := foldl EraseOrphanTx s queue in
  orphans_wf s' ∧ ∀ h, mapOrphanTransactions s' !! h =
    if decide (h ∈ queue) then None else mapOrphanTransactions s !! h.
Proof.
  revert s. induction queue as [|k queue IH]; intros s W; cbn [foldl].
  { split; [done|]. intros h. case_decide; [set_solver|done]. }
  destruct (EraseOrphanTx_spec s k W) as [W' E]. destruct (IH _ W') as [IW IE]. split; [done|].
  intros h. rewrite IE, E. destruct (decide (h = k)) as [->|Hh].
  - rewrite lookup_delete_eq, (decide_True (P := k ∈ k :: queue)) by set_solver. by case_decide.
  - rewrite lookup_delete_ne by done. repeat case_decide; set_solver.
Qed.

Lemma erase_if_from_spec peer r k :
  orphans_wf r.1 →
  let r' := erase_if_from peer r k in
  orphans_wf r'.1 ∧
  (∀ h, mapOrphanTransactions r'.1 !! h =
    match mapOrphanTransactions r.1 !! h with
    | Some o => if decide (h = k ∧ fromPeer o = peer) then None else Some o
    | None => None
    end) ∧
  Z.of_nat (size (mapOrphanTransactions r.1)) + r.2 = Z.of_nat (size (mapOrphanTransactions r'.1)) + r'.2.
Proof.
  intros W. cbn zeta. unfold erase_if_from.
  assert (∀ P : hash256 → COrphanTx → Prop, (∀ h o, mapOrphanTransactions r.1 !! h = Some o → ¬ P h o) →
    ∀ (D : ∀ h o, Decision (P h o)) h, mapOrphanTransactions r.1 !! h =
    match mapOrphanTransactions r.1 !! h with Some o => if decide (P h o) then None else Some o | None => None end) as Hsame.
  { intros P HP D h. destruct (mapOrphanTransactions r.1 !! h) as [o|] eqn:E; [|done]. rewrite decide_False; [done|by eapply HP]. }
  destruct (mapOrphanTransactions r.1 !! k) as [o|] eqn:E.
  2: { split; [done|]. split; [|done]. apply Hsame. intros h o Ho [-> _]. congruence. }
  destruct (Z.eqb_spec (fromPeer o) peer) as [Hp|Hp].
  2: { split; [done|]. split; [|done]. apply Hsame. intros h o' Ho [-> Hp']. congruence. }
  rewrite (ow_hash _ W k o E). destruct (EraseOrphanTx_spec r.1 k W) as [W1 E1]. cbn [fst snd]. split; [done|].
  rewrite E1. split.
  - intros h. destruct (decide (h = k)) as [->|Hh].
    + by rewrite lookup_delete_eq, E, decide_True.
    + rewrite lookup_delete_ne by done. destruct (mapOrphanTransactions r.1 !! h); [|done].
      by rewrite decide_False by naive_solver.
  - rewrite map_size_delete_Some by (by exists o). assert (size (mapOrphanTransactions r.1) ≠ 0%nat); [|lia].
    apply map_size_non_empty_iff. intros H0. by rewrite H0, lookup_empty in E.
Qed.

Lemma EraseOrphansFor_spec s peer :
  orphans_wf s →
  let '(s', nErased) := EraseOrphansFor s peer in
  orphans_wf s' ∧ mapOrphanTransactions s' = filter (λ '(_, o), fromPeer o <> peer) (mapOrphanTransactions s) ∧
  Z.of_nat (size (mapOrphanTransactions s)) = Z.of_nat (size (mapOrphanTransactions s')) + nErased.
Proof.
  intros W. unfold EraseOrphansFor.
  assert (∀ keys r, orphans_wf r.1 →
    let r' := foldl (erase_if_from peer) r keys in
    orphans_wf r'.1 ∧
    (∀ h, mapOrphanTransactions r'.1 !! h =
      match mapOrphanTransactions r.1 !! h with
      | Some o => if decide (h ∈ keys ∧ fromPeer o = peer) then None else Some o
      | None => None
      end) ∧
    Z.of_nat (size (mapOrphanTransactions r.1)) + r.2 = Z.of_nat (size (mapOrphanTransactions r'.1)) + r'.2) as H.
  { intros keys. induction keys as [|k keys IH]; intros r Wr; cbn [foldl].
    { split; [done|]. split; [|done]. intros h. destruct (_ !! h); [|done]. case_decide; [set_solver|done]. }
    destruct (erase_if_from_spec peer r k Wr) as (W1 & E1 & C1). destruct (IH _ W1) as (IW & IE & IC).
    split; [done|]. split; [|lia]. intros h. rewrite IE, E1.
    destruct (mapOrphanTransactions r.1 !! h) as [o|]; [|done]. repeat case_decide; set_solver. }
  specialize (H (orphan_keys s) (s, 0) W).
  destruct (foldl _ _ _) as [s' n]. cbn [fst snd] in H. destruct H as (H1 & H2 & H3).
  split; [done|]. split; [|lia]. apply map_eq. intros h. rewrite H2, map_lookup_filter.
  destruct (mapOrphanTransactions s !! h) as [o|] eqn:E; [|done]. cbn.
  assert (h ∈ orphan_keys s) by (apply elem_of_orphan_keys; by exists o).
  destruct (decide (h ∈ orphan_keys s ∧ fromPeer o = peer)) as [[_ ?]|]; case_guard; naive_solver.
Qed.

Lemma limit_pick s hash :
  mapOrphanTransactions s <> ∅ →
  ∃ k, (match lower_bound s hash with Some k => Some k | None => head (orphan_keys s) end) = Some k ∧
    is_Some (mapOrphanTransactions s !! k).
Proof.
  intros Hne. assert (∀ l, l ⊆ orphan_keys s → ∀ k, head l = Some k → is_Some (mapOrphanTransactions s !! k)) as Hin.
  { intros [|x l] Hl k [= <-]. apply elem_of_orphan_keys, Hl, list_elem_of_here. }
  unfold lower_bound. destruct (head (filter _ _)) as [k|] eqn:E.
  - exists k. split; [done|]. eapply Hin; [|exact E]. intros x Hx. by apply list_elem_of_filter in Hx as [_ ?].
  - destruct (head (orphan_keys s)) as [k|] eqn:Ek; [exists k; split; [done|by eapply Hin]|].
    destruct Hne. apply map_eq. intros h. rewrite lookup_empty. destruct (mapOrphanTransactions s !! h) as [o|] eqn:Eh; [|done].
    assert (h ∈ orphan_keys s) as Hh by (apply elem_of_orphan_keys; by exists o).
    destruct (orphan_keys s); [by apply elem_of_nil in Hh|done].
Qed.

Lemma limit_loop_spec fuel s nMax random n :
  orphans_wf s → 0 <= nMax → (size (mapOrphanTransactions s) <= fuel)%nat →
  ∃ s' n', limit_loop fuel s nMax random n = Some (s', n') ∧ orphans_wf s' ∧
    mapOrphanTransactions s' ⊆ mapOrphanTransactions s ∧
    Z.of_nat (size (mapOrphanTransactions s')) = Z.min (Z.of_nat (size (mapOrphanTransactions s))) nMax.
Proof.
  intros W Hm. revert s random n W. induction fuel as [|fuel IH]; intros s random n W Hf; cbn [limit_loop];
    (destruct (Z.leb_spec (Z.of_nat (size (mapOrphanTransactions s))) nMax); [exists s, n; split_and!; [done..|lia]|]); [lia|].
  destruct (limit_pick s (default null_hash (head random))) as (k & -> & [o Ho]); [by intros E; rewrite E, map_size_empty in *; lia|].
  destruct (EraseOrphanTx_spec s k W) as [W' E].
  assert (size (mapOrphanTransactions (EraseOrphanTx s k)) = pred (size (mapOrphanTransactions s))) as Hs
    by (rewrite E; apply map_size_delete_Some; by exists o).
  destruct (IH (EraseOrphanTx s k) (tail random) (u32 (n + 1)) W' ltac:(lia)) as (s' & n' & -> & W'' & Hsub & Hsize).
  exists s', n'. split_and!; [done|done| |lia]. etrans; [exact Hsub|]. rewrite E. apply delete_subseteq.
Qed.

(** ** The work queue *)

(** The pools an [offer] can lead to. *)
Inductive reached {P} `{Admission P} (p : P) : P → Prop :=
| reach_refl : reached p p
| reach_step q tx q' v : reached p q → offer q tx = (q', v) → reached p q'.

Section resolve.
Context {P : Type} `{HA : Admission P, !AdmissionOk P}.
Context (orphans : Orphans) (pool : P) (tx : CTransaction).
Hypothesis wf : orphans_wf orphans.

Abbreviation orphan h := (mapOrphanTransactions orphans !! h).

(** The orphan [h] waits for a transaction of hash [w]. *)
Definition waits_for (h w : hash256) : Prop := ∃ o, orphan h = Some o ∧ w ∈ spend_hashes (o_tx o).

Definition pool_stops : Prop := ∃ p tx p', offer p tx = (p', Stopped).

Record resolving (r : Resolution P) : Prop := {
  rs_work : ∃ l, vWorkQueue r = tx_hash tx :: l ∧ l ⊆ vEraseQueue r;
  rs_erase : ∀ h, h ∈ vEraseQueue r → is_Some (orphan h);
  rs_nodup : NoDup (vWorkQueue r);
  rs_in : ∀ h, h ∈ vWorkQueue r → in_pool_already (r_pool r) h = true;
  rs_relayed : r_relayed r = vWorkQueue r;
  rs_set : ∀ n, n ∈ setMisbehaving r ↔ n ∈ (r_misbehaving r).*1;
  rs_reached : reached pool (r_pool r)
}.

(** The orphan [h] has been dealt with: it goes, or its peer misbehaved, or it
    still misses inputs. *)
Definition settled (erase : list hash256) (punished : gset Z) (h : hash256) : Prop :=
  h ∈ erase ∨ ∃ o, orphan h = Some o ∧
    (fromPeer o ∈ punished ∨ ∃ p p', reached pool p ∧ offer p (o_tx o) = (p', Missing)).

Record grown (r r' : Resolution P) : Prop := {
  gw_work : vWorkQueue r `prefix_of` vWorkQueue r';
  gw_erase : vEraseQueue r ⊆ vEraseQueue r';
  gw_set : setMisbehaving r ⊆ setMisbehaving r'
}.

#[export] Instance grown_preorder : PreOrder grown.
Proof.
  split; [done|]. intros r1 r2 r3 [A1 A2 A3] [B1 B2 B3]. split; by etrans.
Qed.

Lemma settled_grown r r' h :
  grown r r' → settled (vEraseQueue r) (setMisbehaving r) h → settled (vEraseQueue r') (setMisbehaving r') h.
Proof.
  intros [_ He Hs] [H|(o & Ho & [H|H])]; [left; by apply He|right; exists o..]; (split; [done|]); [left; by apply Hs|by right].
Qed.

(** What follows one [offer], for any of the four verdicts. *)
Lemma resolving_admit r q o v :
  resolving r → offer (r_pool r) (o_tx o) = (q, v) →
  reached pool q ∧ (∀ h, h ∈ vWorkQueue r → in_pool_already q h = true).
Proof.
  intros R E. split; [eapply reach_step; [apply (rs_reached r R)|exact E]|].
  intros h Hh. eapply adm_stays; [exact E|by apply (rs_in r R)].
Qed.

Lemma consider_orphan_spec r h :
  resolving r → is_Some (orphan h) →
  match consider_orphan orphans (Some r) h with
  | None => pool_stops
  | Some r' => resolving r' ∧ grown r r' ∧ settled (vEraseQueue r') (setMisbehaving r') h
  end.
Proof.
  intros R [o Ho]. cbn [consider_orphan]. rewrite Ho. case_bool_decide as Hm.
  { split; [done|]. split; [done|]. right. exists o. split; [done|]. by left. }
  destruct (offer (r_pool r) (o_tx o)) as [q v] eqn:E.
  pose proof (resolving_admit r q o v R E) as [Hq Hin]. pose proof (ow_hash _ wf h o Ho) as Hh.
  destruct R as [(l & Hw & Hl) Her Hnd Hold Hrel Hset Hre].
  destruct v as [| |st|]; [| | |by exists (r_pool r), (o_tx o), q].
  - pose proof (adm_enters _ _ _ E) as Hnew. pose proof (adm_new _ _ _ E) as Hfresh. rewrite Hh in Hnew, Hfresh.
    split; [split|split; [split|]]; cbn; try done.
    + exists (l ++ [h]). rewrite Hw. split; [done|]. set_solver.
    + intros k [Hk|Hk%list_elem_of_singleton]%elem_of_app; [by apply Her|subst; by exists o].
    + apply NoDup_app. split; [done|]. split; [|apply NoDup_singleton].
      intros k Hk Hk'%list_elem_of_singleton. subst. rewrite Hold in Hfresh; done.
    + intros k [Hk|Hk%list_elem_of_singleton]%elem_of_app; [by apply Hin|by subst].
    + by rewrite Hrel, Hh.
    + by apply prefix_app_r.
    + set_solver.
    + left. set_solver.
  - split; [split|split; [split|]]; cbn; try done; [by exists l|].
    right. exists o. split; [done|]. right. by exists (r_pool r), q.
  - split; [split|split; [split|]]; cbn; try done.
    + exists l. split; [done|]. set_solver.
    + intros k [Hk|Hk%list_elem_of_singleton]%elem_of_app; [by apply Her|subst; by exists o].
    + intros n. destruct (_ && _); [|apply Hset]. rewrite fmap_app. pose proof (Hset n). set_solver.
    + set_solver.
    + destruct (_ && _); set_solver.
    + left. set_solver.
Qed.

Lemma consider_orphans_spec hs r :
  resolving r → (∀ h, h ∈ hs → is_Some (orphan h)) →
  match foldl (consider_orphan orphans) (Some r) hs with
  | None => pool_stops
  | Some r' => resolving r' ∧ grown r r' ∧ ∀ h, h ∈ hs → settled (vEraseQueue r') (setMisbehaving r') h
  end.
Proof.
  revert r. induction hs as [|h hs IH]; intros r R Hhs; cbn [foldl]; [split; [done|]; split; [done|set_solver]|].
  pose proof (consider_orphan_spec r h R (Hhs h ltac:(set_solver))) as Hc. cbn [consider_orphan] in Hc |- *.
  destruct (match orphan h with None => None | Some o => _ end) as [r1|].
  - destruct Hc as (R1 & G1 & S1). specialize (IH r1 R1 ltac:(set_solver)).
    destruct (foldl _ _ hs) as [r2|]; [|done]. destruct IH as (R2 & G2 & S2). split; [done|]. split; [by etrans|].
    intros k [->|Hk]%elem_of_cons; [by eapply settled_grown|by apply S2].
  - assert (∀ l, foldl (consider_orphan orphans) None l = None) as ->; [|done]. by induction l.
Qed.

Lemma work_bound r : resolving r → (length (vWorkQueue r) <= S (size (mapOrphanTransactions orphans)))%nat.
Proof.
  intros [(l & Hw & Hl) Her Hnd _ _ _ _]. rewrite Hw in *. apply NoDup_cons in Hnd as [_ Hnd]. cbn [length].
  rewrite <- length_map_to_list, <- (length_fmap fst (map_to_list _)). apply le_n_S.
  apply submseteq_length, NoDup_submseteq; [done|]. intros h Hh.
  destruct (Her h (Hl h Hh)) as [o Ho]. apply list_elem_of_fmap. exists (h, o). by rewrite elem_of_map_to_list.
Qed.

Lemma resolve_orphans_spec fuel i r :
  resolving r → (S (size (mapOrphanTransactions orphans)) <= fuel + i)%nat →
  (∀ j w h, (j < i)%nat → vWorkQueue r !! j = Some w → waits_for h w → settled (vEraseQueue r) (setMisbehaving r) h) →
  match resolve_orphans fuel orphans i r with
  | None => pool_stops
  | Some r' => resolving r' ∧
      ∀ w h, w ∈ vWorkQueue r' → waits_for h w → settled (vEraseQueue r') (setMisbehaving r') h
  end.
Proof.
  revert i r. induction fuel as [|fuel IH]; intros i r R Hf Hdone; cbn [resolve_orphans];
    (destruct (vWorkQueue r !! i) as [w|] eqn:Ei;
      [|split; [done|]; intros v h [j Hj]%list_elem_of_lookup Hv; apply lookup_ge_None in Ei; apply (Hdone j v h);
        [apply lookup_lt_Some in Hj; lia|done..]]).
  { pose proof (work_bound r R). apply lookup_lt_Some in Ei. lia. }
  destruct (mapOrphanTransactionsByPrev orphans !! w) as [waiting|] eqn:Ew.
  - pose proof (consider_orphans_spec (in_order (elements waiting)) r R) as Hc.
    destruct (foldl _ _ _) as [r1|]; [|apply Hc].
    2: { intros h Hh. apply elem_of_in_order, elem_of_elements in Hh.
         destruct (proj1 (ow_index _ wf w h)) as (o & Ho & _); [by rewrite Ew|by exists o]. }
    destruct Hc as (R1 & G1 & S1).
    { intros h Hh. apply elem_of_in_order, elem_of_elements in Hh.
      destruct (proj1 (ow_index _ wf w h)) as (o & Ho & _); [by rewrite Ew|by exists o]. }
    apply IH; [done|lia|]. intros j v h Hj Hv Hwait.
    destruct (decide (j = i)) as [->|Hji].
    + apply S1, elem_of_in_order, elem_of_elements. assert (v = w) as ->.
      { pose proof (prefix_lookup_Some _ _ _ _ Ei (gw_work _ _ G1)). congruence. }
      destruct Hwait as (o & Ho & Hp). pose proof (proj2 (ow_index _ wf w h) ltac:(by exists o)) as Hin. by rewrite Ew in Hin.
    + eapply settled_grown; [exact G1|]. apply (Hdone j v h); [lia| |done].
      pose proof (lookup_lt_Some _ _ _ Ei). destruct (lookup_lt_is_Some_2 (vWorkQueue r) j) as [u Hu]; [lia|].
      pose proof (prefix_lookup_Some _ _ _ _ Hu (gw_work _ _ G1)). congruence.
  - apply IH; [done|lia|]. intros j v h Hj Hv Hwait. destruct (decide (j = i)) as [->|]; [|apply (Hdone j v h); (done || lia)].
    simplify_eq. destruct Hwait as (o & Ho & Hp).
    pose proof (proj2 (ow_index _ wf w h) ltac:(by exists o)) as Hin. rewrite Ew in Hin. by apply elem_of_empty in Hin.
Qed.
End resolve.

(** ** AcceptToMemoryPool is an admission *)

(** The memory pool and the coins of the tip. *)
Record NodePool (V : Type) := mkNodePool { np_pool : CTxMemPool; np_tip : V }.
Arguments mkNodePool {V}.
Arguments np_pool {V}.
Arguments np_tip {V}.

Section node.
Context {V : Type} `{CoinsView V}.
Context (params : CChainParams) (policy : Policy) (ecdsa_verify : CPubKey → hash256 → list Z → bool).
Context (height_of : hash256 → option Z) (height now time : Z).

Definition node_admit (p : NodePool V) (tx : CTransaction) : NodePool V * verdict :=
  let '(tip, r) := AcceptToMemoryPool params policy ecdsa_verify height_of height now time (np_pool p) (np_tip p) tx false in
  match r with
  | None => (mkNodePool (np_pool p) tip, Stopped)
  | Some (Ok pool) => (mkNodePool pool tip, Accepted)
  | Some (Throw e) => (mkNodePool (np_pool p) tip, admission_verdict e)
  end.

Definition node_admission : Admission (NodePool V) :=
  {| offer := node_admit; in_pool_already p h := pool_exists (np_pool p) h |}.

Lemma pool_exists_true m h : pool_exists m h = true ↔ is_Some (mapTx m !! h).
Proof. unfold pool_exists. apply bool_decide_eq_true. Qed.

Lemma exists_addUnchecked m h e k :
  pool_exists (addUnchecked m h e) k = bool_decide (k = h) || pool_exists m k.
Proof.
  apply eq_true_iff_eq. rewrite orb_true_iff, bool_decide_eq_true, !pool_exists_true.
  assert (mapTx (addUnchecked m h e) = <[h := e]> (mapTx m)) as ->.
  { unfold addUnchecked. repeat case_match; done. }
  destruct (decide (k = h)) as [->|Hk].
  - rewrite lookup_insert_eq. split; [by left|by eexists].
  - rewrite lookup_insert_ne by done. naive_solver.
Qed.

Lemma admission_verdict_refuses e : admission_verdict e <> Accepted.
Proof. destruct e as [| | | | | | | | | | | |e|e]; try done; cbn; by destruct (inputs_reject e _). Qed.

Lemma accepted_enters pool tip tx insane tip' pool' :
  AcceptToMemoryPool params policy ecdsa_verify height_of height now time pool tip tx insane = (tip', Some (Ok pool')) →
  pool_exists pool (tx_hash tx) = false ∧ ∃ e, pool' = addUnchecked pool (tx_hash tx) e.
Proof.
  unfold AcceptToMemoryPool, precheck. intros E. repeat case_match; simplify_eq; split; (done || by eexists).
Qed.

Lemma node_admission_ok : @AdmissionOk (NodePool V) node_admission.
Proof.
  assert (∀ p tx p' v, node_admit p tx = (p', v) →
    (v = Accepted ∧ pool_exists (np_pool p) (tx_hash tx) = false ∧ ∃ e, np_pool p' = addUnchecked (np_pool p) (tx_hash tx) e) ∨
    (v <> Accepted ∧ np_pool p' = np_pool p)) as Hcase.
  { intros p tx p' v. unfold node_admit.
    destruct (AcceptToMemoryPool _ _ _ _ _ _ _ _ _ _ _) as [tip r] eqn:E.
    destruct r as [[pool|e]|]; intros [= <- <-]; [left|right..]; cbn [np_pool]; [|by split; [apply admission_verdict_refuses|]|done].
    split; [done|]. by eapply accepted_enters. }
  split; cbn [offer in_pool_already node_admission].
  - intros p tx p' E. destruct (Hcase _ _ _ _ E) as [(_ & _ & e & ->)|[? _]]; [|done].
    rewrite exists_addUnchecked. by rewrite bool_decide_eq_true_2.
  - intros p tx p' E. by destruct (Hcase _ _ _ _ E) as [(_ & ? & _)|[? _]].
  - intros p tx p' v h E Hh. destruct (Hcase _ _ _ _ E) as [(_ & _ & e & ->)|[_ ->]]; [|done].
    rewrite exists_addUnchecked, Hh. apply orb_true_r.
Qed.
End node.

(** ** The message is dealt with *)

(** C5: the handler of "tx" over any pool with the laws of [Admission], from an
    exact index of orphans. It always ends, except where the pool itself stops,
    and leaves an exact index. If the pool takes the transaction, what is relayed
    is the transaction and the orphans taken with it, each once; they are in the
    pool, and these orphans are gone; an orphan that waits for a relayed
    transaction and stays either still misses inputs or came from a peer that
    misbehaved. If inputs are missing, the transaction is kept with the other
    orphans, at most as many as -maxorphantx says. If it is refused, the orphans
    stay as they are, and the sender is punished as the verdict says. *)
Theorem transaction_messages_resolve_orphans P (HA : Admission P) (HO : AdmissionOk P) pool orphans pfrom fWhitelisted
    maxorphantx random tx :
  orphans_wf orphans →
  match handle_tx pool orphans pfrom fWhitelisted maxorphantx random tx with
  | None => pool_stops
  | Some h =>
      orphans_wf (h_orphans h) ∧ reached pool (h_pool h) ∧
      match (offer pool tx).2 with
      | Accepted =>
          (∃ l, h_relayed h = tx_hash tx :: l ∧ NoDup (tx_hash tx :: l) ∧
            ∀ k, k ∈ l → is_Some (mapOrphanTransactions orphans !! k) ∧ mapOrphanTransactions (h_orphans h) !! k = None) ∧
          (∀ w, w ∈ h_relayed h → in_pool_already (h_pool h) w = true) ∧
          mapOrphanTransactions (h_orphans h) ⊆ mapOrphanTransactions orphans ∧
          ∀ k o w, mapOrphanTransactions (h_orphans h) !! k = Some o → w ∈ spend_hashes (o_tx o) → w ∈ h_relayed h →
            fromPeer o ∈ (h_misbehaving h).*1 ∨ ∃ p p', reached pool p ∧ offer p (o_tx o) = (p', Missing)
      | Missing =>
          h_relayed h = [] ∧ h_misbehaving h = [] ∧
          Z.of_nat (size (mapOrphanTransactions (h_orphans h))) <= u32 (Z.max 0 maxorphantx) ∧
          mapOrphanTransactions (h_orphans h) ⊆ mapOrphanTransactions (AddOrphanTx orphans tx pfrom).1
      | NotAccepted st =>
          h_orphans h = orphans ∧ h_relayed h = (if fWhitelisted then [tx_hash tx] else []) ∧
          h_misbehaving h = (if IsInvalid st && (0 <? nDoS st) then [(pfrom, nDoS st)] else [])
      | Stopped => False
      end
  end.
Proof.
  intros W. unfold handle_tx. destruct (offer pool tx) as [q v] eqn:E.
  assert (reached pool q) as Hq by (eapply reach_step; [apply reach_refl|exact E]).
  destruct v as [| |st|]; [| |by split_and!|by exists pool, tx, q].
  - set (r := mkResolution q [tx_hash tx] [] ∅ [tx_hash tx] []).
    assert (resolving orphans pool tx r) as R.
    { split; cbn; [by exists []|set_solver|apply NoDup_singleton| |done|set_solver|done].
      intros h ->%list_elem_of_singleton. by eapply adm_enters. }
    pose proof (resolve_orphans_spec orphans pool tx W (S (size (mapOrphanTransactions orphans))) 0 r R ltac:(rewrite Nat.add_0_r; done)
      ltac:(intros; lia)) as Hr.
    destruct (resolve_orphans _ orphans 0 r) as [r'|]; [|done]. destruct Hr as [[(l & Hw & Hl) Her Hnd Hin Hrel Hset Hre] Hset'].
    destruct (erase_queue_spec orphans (vEraseQueue r') W) as [W' HE]. cbn [h_orphans h_pool h_relayed h_misbehaving snd].
    split; [done|]. split; [done|]. rewrite Hrel. split; [|split; [done|split]].
    + exists l. rewrite Hw in *. split_and!; [done..|]. intros k Hk. rewrite HE, decide_True by (by apply Hl). by split; [apply Her, Hl|].
    + apply map_subseteq_spec. intros k o. rewrite HE. by case_decide.
    + intros k o w Ho Hs Hwr. rewrite HE in Ho. case_decide as Hk; [done|].
      destruct (Hset' w k Hwr) as [?|(o' & Ho' & Hc)]; [by exists o|done|]. simplify_eq.
      destruct Hc as [Hc|Hc]; [left; by apply Hset|by right].
  - destruct (AddOrphanTx orphans tx pfrom) as [o1 added] eqn:Ea. cbn [fst].
    pose proof (AddOrphanTx_spec orphans tx pfrom W) as Hadd. rewrite Ea in Hadd. destruct Hadd as (W1 & _ & _).
    pose proof (wrap_range 32 (Z.max 0 maxorphantx) ltac:(discriminate)) as [H0 _].
    destruct (limit_loop_spec _ o1 _ random 0 W1 H0 (Nat.le_refl _)) as (s' & n' & El & W2 & Hsub & Hs).
    unfold LimitOrphanTxSize. rewrite El. cbn [h_orphans h_pool h_relayed h_misbehaving snd]. split_and!; try done. lia.
Qed.

(** ** A child before its parent *)

Definition ex_child : CTransaction :=
  mkTx (replicate 32 2) 1 [new_txin (mkOutPoint (replicate 32 1) 0) (9 :: ex_sig) 4294967295] [new_txout 40000 ex_lock] 0.

Definition ex_node : Admission (NodePool CCoinsViewDB) :=
  node_admission CMainParams ex_policy (λ _ _ _, true) (λ _, Some 40) 40 1000 2000.

Definition ex_handle (p : NodePool CCoinsViewDB) (orphans : Orphans) (tx : CTransaction) : option (Handled (NodePool CCoinsViewDB)) :=
  @handle_tx _ ex_node p orphans 5 false 100 [] tx.

Definition ex_orphaned : Orphans :=
  mkOrphans {[ replicate 32 2 := mkOrphan ex_child 5 ]} {[ replicate 32 1 := {[ replicate 32 2 ]} ]}.

Definition ex_start : NodePool CCoinsViewDB := mkNodePool ex_empty ex_tip.
Definition ex_second : option (Handled (NodePool CCoinsViewDB)) := ex_handle ex_start ex_orphaned (ex_pays 1 60000).

(** The child arrives and waits; the parent arrives, and both are relayed. *)
Lemma transaction_messages_resolve_orphans_witness :
  option_map h_orphans (ex_handle ex_start no_orphans ex_child) = Some ex_orphaned ∧ orphans_wf ex_orphaned ∧
  ∃ h, ex_second = Some h ∧ h_relayed h = [replicate 32 1; replicate 32 2] ∧
    (@in_pool_already _ ex_node) (h_pool h) (replicate 32 2) = true ∧
    mapOrphanTransactions (h_orphans h) !! replicate 32 2 = None.
Proof.
  pose proof (λ o tx, transaction_messages_resolve_orphans _ ex_node
    (node_admission_ok CMainParams ex_policy (λ _ _ _, true) (λ _, Some 40) 40 1000 2000) ex_start o 5 false 100 [] tx) as H.
  assert (option_map h_orphans (ex_handle ex_start no_orphans ex_child) = Some ex_orphaned) as E1 by (vm_compute; reflexivity).
  split; [exact E1|]. pose proof (H no_orphans ex_child no_orphans_wf) as H1. unfold ex_handle in E1.
  destruct (handle_tx ex_start no_orphans 5 false 100 [] ex_child) as [h1|]; [|discriminate E1].
  cbn [option_map] in E1. injection E1 as E1. destruct H1 as (W1 & _). rewrite E1 in W1. split; [exact W1|].
  pose proof (H ex_orphaned (ex_pays 1 60000) W1) as H2.
  assert (option_map h_relayed ex_second = Some [replicate 32 1; replicate 32 2]) as E2 by (vm_compute; reflexivity).
  assert ((@offer _ ex_node ex_start (ex_pays 1 60000)).2 = Accepted) as Ea by (vm_compute; reflexivity).
  unfold ex_second, ex_handle in *. rewrite Ea in H2.
  destruct (handle_tx ex_start ex_orphaned 5 false 100 [] (ex_pays 1 60000)) as [h2|]; [|discriminate E2].
  cbn [option_map] in E2. injection E2 as E2. exists h2. split; [reflexivity|]. split; [exact E2|].
  destruct H2 as (_ & _ & (l & El & _ & Hl) & Hin & _). split.
  - apply Hin. rewrite E2. apply list_elem_of_further, list_elem_of_here.
  - apply Hl. rewrite E2 in El. injection El as <-. apply list_elem_of_here.
Defined.
