(* ===== verification/Peers.v ===== *)
(** * main.cpp: what the node knows of its peers, and the download of blocks

    CNodeState and the functions on it: peers that come and go, misbehaviour, the
    blocks a peer has announced, the blocks asked from it (mapBlocksInFlight with
    its iterators into the lists of the peers), the choice of the blocks to ask
    for next (FindNextBlocksToDownload), and the parts of SendMessages that start
    the synchronisation, give up slow peers and ask for blocks. *)

From S2P Require Import Prelude Uint256 Chain Params BlockTree Hashes Tx NetAddr Orphans.

Local Open Scope node_scope.

(** ** The state *)

Record QueuedBlock := mkQueued {
  q_hash : list Z;
  q_pindex : option CBlockIndex;
  q_nTime : Z;
  nValidatedQueuedBefore : Z;
  fValidatedHeaders : bool
}.

Record CBlockReject := mkBlockReject { br_chRejectCode : Z; br_strRejectReason : list Z; br_hashBlock : list Z }.

(** An element of the std::list vBlocksInFlight has a number of its own, which is
    what an iterator to it holds. The name of the peer, for logs, is left out. *)
Record CNodeState := mkNodeState {
  ns_address : CService;
  fCurrentlyConnected : bool;
  nMisbehavior : Z;
  fShouldBan : bool;
  rejects : list CBlockReject;
  pindexBestKnownBlock : option CBlockIndex;
  hashLastUnknownBlock : list Z;
  pindexLastCommonBlock : option CBlockIndex;
  fSyncStarted : bool;
  nStallingSince : Z;
  vBlocksInFlight : list (Z * QueuedBlock);
  nBlocksInFlight : Z;
  fPreferredDownload : bool
}.

Definition new_node_state (address : CService) : CNodeState :=
  mkNodeState address false 0 false [] None (uint256 0) None false 0 [] 0 false.

Definition set_address (v : CService) (st : CNodeState) : CNodeState :=
  mkNodeState v (fCurrentlyConnected st) (nMisbehavior st) (fShouldBan st) (rejects st) (pindexBestKnownBlock st)
    (hashLastUnknownBlock st) (pindexLastCommonBlock st) (fSyncStarted st) (nStallingSince st) (vBlocksInFlight st)
    (nBlocksInFlight st) (fPreferredDownload st).
Definition set_connected (v : bool) (st : CNodeState) : CNodeState :=
  mkNodeState (ns_address st) v (nMisbehavior st) (fShouldBan st) (rejects st) (pindexBestKnownBlock st)
    (hashLastUnknownBlock st) (pindexLastCommonBlock st) (fSyncStarted st) (nStallingSince st) (vBlocksInFlight st)
    (nBlocksInFlight st) (fPreferredDownload st).
Definition set_misbehavior (n : Z) (ban : bool) (st : CNodeState) : CNodeState :=
  mkNodeState (ns_address st) (fCurrentlyConnected st) n ban (rejects st) (pindexBestKnownBlock st)
    (hashLastUnknownBlock st) (pindexLastCommonBlock st) (fSyncStarted st) (nStallingSince st) (vBlocksInFlight st)
    (nBlocksInFlight st) (fPreferredDownload st).
Definition set_known (best : option CBlockIndex) (unknown : list Z) (st : CNodeState) : CNodeState :=
  mkNodeState (ns_address st) (fCurrentlyConnected st) (nMisbehavior st) (fShouldBan st) (rejects st) best
    unknown (pindexLastCommonBlock st) (fSyncStarted st) (nStallingSince st) (vBlocksInFlight st)
    (nBlocksInFlight st) (fPreferredDownload st).
Definition set_common (p : option CBlockIndex) (st : CNodeState) : CNodeState :=
  mkNodeState (ns_address st) (fCurrentlyConnected st) (nMisbehavior st) (fShouldBan st) (rejects st)
    (pindexBestKnownBlock st) (hashLastUnknownBlock st) p (fSyncStarted st) (nStallingSince st) (vBlocksInFlight st)
    (nBlocksInFlight st) (fPreferredDownload st).
Definition set_sync (v : bool) (st : CNodeState) : CNodeState :=
  mkNodeState (ns_address st) (fCurrentlyConnected st) (nMisbehavior st) (fShouldBan st) (rejects st)
    (pindexBestKnownBlock st) (hashLastUnknownBlock st) (pindexLastCommonBlock st) v (nStallingSince st)
    (vBlocksInFlight st) (nBlocksInFlight st) (fPreferredDownload st).
Definition set_flight (stalling : Z) (l : list (Z * QueuedBlock)) (n : Z) (st : CNodeState) : CNodeState :=
  mkNodeState (ns_address st) (fCurrentlyConnected st) (nMisbehavior st) (fShouldBan st) (rejects st)
    (pindexBestKnownBlock st) (hashLastUnknownBlock st) (pindexLastCommonBlock st) (fSyncStarted st) stalling l n
    (fPreferredDownload st).
Definition set_preferred (v : bool) (st : CNodeState) : CNodeState :=
  mkNodeState (ns_address st) (fCurrentlyConnected st) (nMisbehavior st) (fShouldBan st) (rejects st)
    (pindexBestKnownBlock st) (hashLastUnknownBlock st) (pindexLastCommonBlock st) (fSyncStarted st) (nStallingSince st)
    (vBlocksInFlight st) (nBlocksInFlight st) v.

(** The globals; [next_element] numbers the elements of the lists. *)
Record Peers := mkPeers {
  mapNodeState : gmap Z CNodeState;
  mapBlocksInFlight : gmap (list Z) (Z * Z);
  nQueuedValidatedHeaders : Z;
  nSyncStarted : Z;
  nPreferredDownload : Z;
  next_element : Z
}.

Definition no_peers : Peers := mkPeers ∅ ∅ 0 0 0 0.

Definition State (s : Peers) (pnode : Z) : option CNodeState := mapNodeState s !! pnode.
Definition set_state (s : Peers) (pnode : Z) (st : CNodeState) : Peers :=
  mkPeers (<[pnode := st]> (mapNodeState s)) (mapBlocksInFlight s) (nQueuedValidatedHeaders s) (nSyncStarted s)
    (nPreferredDownload s) (next_element s).

(** [*State(pnode)] *)
Definition deref_state (s : Peers) (pnode : Z) : result ub CNodeState :=
  match State s pnode with Some st => Ok st | None => Throw NullDereference end.
(** With [assert(state != NULL)]. *)
Definition assert_state (s : Peers) (pnode : Z) : result ub CNodeState :=
  match State s pnode with Some st => Ok st | None => Throw AssertionFailed end.

(** ** Peers come and go *)

(** The flags of a CNode that matter here. *)
Record NodeFlags := mkFlags { fInbound : bool; fWhitelisted : bool; fOneShot : bool; fClient : bool }.

Definition UpdatePreferredDownload (s : Peers) (node : NodeFlags) (pnode : Z) : result ub Peers :=
  let! st := deref_state s pnode in
  let n := s32 (nPreferredDownload s - Z.b2z (fPreferredDownload st)) in
  let preferred := (negb (fInbound node) || fWhitelisted node) && negb (fOneShot node) && negb (fClient node) in
  let s := set_state s pnode (set_preferred preferred st) in
  Ok (mkPeers (mapNodeState s) (mapBlocksInFlight s) (nQueuedValidatedHeaders s) (nSyncStarted s)
        (s32 (n + Z.b2z preferred)) (next_element s)).

Definition InitializeNode (s : Peers) (nodeid : Z) (addr : CService) : Peers :=
  set_state s nodeid (set_address addr (default (new_node_state addr) (State s nodeid))).

(** The address to hand to AddressCurrentlyConnected, if any, comes last. *)
Definition FinalizeNode (s : Peers) (orphans : Orphans) (nodeid : Z) : result ub (Peers * Orphans * option CService) :=
  let! st := deref_state s nodeid in
  let sync := if fSyncStarted st then s32 (nSyncStarted s - 1) else nSyncStarted s in
  let connected := if (nMisbehavior st =? 0) && fCurrentlyConnected st then Some (ns_address st) else None in
  let flight := foldl (λ m e, delete (q_hash e.2) m) (mapBlocksInFlight s) (vBlocksInFlight st) in
  Ok (mkPeers (delete nodeid (mapNodeState s)) flight (nQueuedValidatedHeaders s) sync
        (s32 (nPreferredDownload s - Z.b2z (fPreferredDownload st))) (next_element s),
      (EraseOrphansFor orphans nodeid).1, connected).

(** [banscore] is the setting -banscore. *)
Definition Misbehaving (banscore : Z) (s : Peers) (pnode howmuch : Z) : Peers :=
  if howmuch =? 0 then s
  else match State s pnode with
       | None => s
       | Some st =>
           let n := s32 (nMisbehavior st + howmuch) in
           let ban := (banscore <=? n) && (s32 (n - howmuch) <? banscore) in
           set_state s pnode (set_misbehavior n (if ban then true else fShouldBan st) st)
       end.

(** ** Blocks in flight *)

(** [*it], for an iterator into [l]; past the end or erased, it is undefined. *)
Definition deref_element (l : list (Z * QueuedBlock)) (it : Z) : result ub QueuedBlock :=
  match head (filter (λ e, e.1 = it) l) with Some e => Ok e.2 | None => Throw OutOfRange end.

Definition MarkBlockAsReceived (s : Peers) (hash : list Z) : result ub Peers :=
  match mapBlocksInFlight s !! hash with
  | None => Ok s
  | Some (pnode, it) =>
      let! st := deref_state s pnode in
      let! q := deref_element (vBlocksInFlight st) it in
      let s := set_state s pnode
                 (set_flight 0 (filter (λ e, e.1 <> it) (vBlocksInFlight st)) (s32 (nBlocksInFlight st - 1)) st) in
      Ok (mkPeers (mapNodeState s) (delete hash (mapBlocksInFlight s))
            (s32 (nQueuedValidatedHeaders s - Z.b2z (fValidatedHeaders q))) (nSyncStarted s) (nPreferredDownload s)
            (next_element s))
  end.

(** [nTimeMicros] is GetTimeMicros(). *)
Definition MarkBlockAsInFlight (nTimeMicros : Z) (s : Peers) (nodeid : Z) (hash : list Z) (pindex : option CBlockIndex)
    : result ub Peers :=
  let! _ := assert_state s nodeid in
  let! s := MarkBlockAsReceived s hash in
  let! st := deref_state s nodeid in
  let validated := if pindex is Some _ then true else false in
  let newentry := mkQueued hash pindex nTimeMicros (nQueuedValidatedHeaders s) validated in
  let it := next_element s in
  let s := set_state s nodeid
             (set_flight (nStallingSince st) (vBlocksInFlight st ++ [(it, newentry)]) (s32 (nBlocksInFlight st + 1)) st) in
  Ok (mkPeers (mapNodeState s) (<[hash := (nodeid, it)]> (mapBlocksInFlight s))
        (s32 (nQueuedValidatedHeaders s + Z.b2z validated)) (nSyncStarted s) (nPreferredDownload s) (it + 1)).

(** ** What a peer has announced *)

(** A block as good as the best one known of the peer. *)
Definition better_known (best : option CBlockIndex) (p : CBlockIndex) : bool :=
  match best with None => true | Some b => op_ge (nChainWork p) (nChainWork b) end.

Definition ProcessBlockAvailability (t : ChainState) (s : Peers) (nodeid : Z) : result ub Peers :=
  let! st := assert_state s nodeid in
  if bool_decide (hashLastUnknownBlock st = uint256 0) then Ok s
  else match mapBlockIndex t !! hashLastUnknownBlock st with
       | None => Ok s
       | Some p =>
           if op_gt (nChainWork p) (uint256 0)
           then Ok (set_state s nodeid
                      (set_known (if better_known (pindexBestKnownBlock st) p then Some p else pindexBestKnownBlock st)
                         (uint256 0) st))
           else Ok s
       end.

Definition UpdateBlockAvailability (t : ChainState) (s : Peers) (nodeid : Z) (hash : list Z) : result ub Peers :=
  let! _ := assert_state s nodeid in
  let! s := ProcessBlockAvailability t s nodeid in
  let! st := deref_state s nodeid in
  match mapBlockIndex t !! hash with
  | Some p =>
      if op_gt (nChainWork p) (uint256 0)
      then Ok (set_state s nodeid
                 (set_known (if better_known (pindexBestKnownBlock st) p then Some p else pindexBestKnownBlock st)
                    (hashLastUnknownBlock st) st))
      else Ok (set_state s nodeid (set_known (pindexBestKnownBlock st) hash st))
  | None => Ok (set_state s nodeid (set_known (pindexBestKnownBlock st) hash st))
  end.

(** ** FindNextBlocksToDownload *)

Definition BLOCK_DOWNLOAD_WINDOW : Z := 1024.

(** [*p] *)
Definition deref {A} (p : option A) : result ub A :=
  match p with Some a => Ok a | None => Throw NullDereference end.

(** vToFetch: the [n] blocks that end with [p]. *)
Fixpoint blocks_to (n : nat) (p : CBlockIndex) (vToFetch : list CBlockIndex) : result ub (list CBlockIndex) :=
  match n with
  | O => Ok vToFetch
  | S O => Ok (p :: vToFetch)
  | S n => let! q := deref (pprev p) in blocks_to n q (p :: vToFetch)
  end.

(** What the walk over the blocks changes: pindexLastCommonBlock, vBlocks,
    waitingfor and nodeStaller. *)
Record Search := mkSearch {
  s_common : CBlockIndex;
  s_blocks : list CBlockIndex;
  s_waitingfor : Z;
  s_staller : Z
}.

Section find_next.
Variable t : ChainState.
Variable in_flight : gmap (list Z) (Z * Z).
Variable nodeid count nWindowEnd : Z.

(** One block: what is new, and whether the function returns. *)
Definition visit (r : Search) (pindex : CBlockIndex) : Search * bool :=
  if negb (Chain.IsValid (status t pindex) BLOCK_VALID_TREE) then (r, true)
  else if has (status t pindex) BLOCK_HAVE_DATA
  then (if nChainTx (idx t pindex) =? 0 then r
        else mkSearch pindex (s_blocks r) (s_waitingfor r) (s_staller r), false)
  else match in_flight !! phashBlock pindex with
       | None =>
           if nWindowEnd <? nHeight pindex
           then (if (Z.of_nat (length (s_blocks r)) =? 0) && negb (s_waitingfor r =? nodeid)
                 then mkSearch (s_common r) (s_blocks r) (s_waitingfor r) (s_waitingfor r) else r, true)
           else
             let blocks := s_blocks r ++ [pindex] in
             (mkSearch (s_common r) blocks (s_waitingfor r) (s_staller r), Z.of_nat (length blocks) =? count)
       | Some (peer, _) =>
           (if s_waitingfor r =? -1 then mkSearch (s_common r) (s_blocks r) peer (s_staller r) else r, false)
       end.

Fixpoint visit_all (r : Search) (vToFetch : list CBlockIndex) : Search * bool :=
  match vToFetch with
  | [] => (r, false)
  | pindex :: vToFetch =>
      let '(r, returns) := visit r pindex in
      if returns then (r, true) else visit_all r vToFetch
  end.

Fixpoint fetch_loop (fuel : nat) (best : CBlockIndex) (nMaxHeight : Z) (pindexWalk : CBlockIndex) (r : Search)
    : result stop Search :=
  if nMaxHeight <=? nHeight pindexWalk then Ok r
  else
    match fuel with
    | O => Throw OutOfFuel
    | S fuel =>
        let nToFetch := Z.min (s32 (nMaxHeight - nHeight pindexWalk))
                          (Z.max (s32 (u64 (count - Z.of_nat (length (s_blocks r))))) 128) in
        let! walk := of_ub (GetAncestor best (s32 (nHeight pindexWalk + nToFetch))) in
        let! pindexWalk := of_ub (deref walk) in
        let! vToFetch := of_ub (blocks_to (Z.to_nat nToFetch) pindexWalk []) in
        let '(r, returns) := visit_all r vToFetch in
        if returns then Ok r else fetch_loop fuel best nMaxHeight pindexWalk r
    end.
End find_next.

(** The peers, vBlocks and nodeStaller. *)
Definition FindNextBlocksToDownload (t : ChainState) (s : Peers) (nodeid count : Z) (vBlocks : list CBlockIndex)
    (nodeStaller : Z) : result stop (Peers * list CBlockIndex * Z) :=
  if count =? 0 then Ok (s, vBlocks, nodeStaller)
  else
    let! _ := of_ub (assert_state s nodeid) in
    let! s := of_ub (ProcessBlockAvailability t s nodeid) in
    let! st := of_ub (deref_state s nodeid) in
    match pindexBestKnownBlock st with
    | None => Ok (s, vBlocks, nodeStaller)
    | Some best =>
        let! tip := of_ub (deref (Tip (chainActive t) false)) in
        if op_lt (nChainWork best) (nChainWork tip) then Ok (s, vBlocks, nodeStaller)
        else
          let! start := of_ub (deref (match pindexLastCommonBlock st with
                                      | Some p => Some p
                                      | None => chain_at (chainActive t) (Z.min (nHeight best) (Height (chainActive t)))
                                      end)) in
          let! common := of_ub (LastCommonAncestor start best) in
          if (match common with Some c => ptr_eq c best | None => false end) then Ok (set_state s nodeid (set_common common st), vBlocks, nodeStaller)
          else
            let! common := of_ub (deref common) in
            let nWindowEnd := s32 (u32 (nHeight common + BLOCK_DOWNLOAD_WINDOW)) in
            let nMaxHeight := Z.min (nHeight best) (s32 (nWindowEnd + 1)) in
            let! r := fetch_loop t (mapBlocksInFlight s) nodeid count nWindowEnd
                        (Z.to_nat (nMaxHeight - nHeight common)) best nMaxHeight common
                        (mkSearch common vBlocks (-1) nodeStaller) in
            Ok (set_state s nodeid (set_common (Some (s_common r)) st), s_blocks r, s_staller r)
    end.

(** ** SendMessages: synchronisation, slow peers, getdata *)

Definition MAX_BLOCKS_IN_TRANSIT_PER_PEER : Z := 256.
Definition BLOCK_STALLING_TIMEOUT : Z := 2.

(** The peers, [pindexBestHeader], whether "getblocks" is sent, fDisconnect, and
    the blocks of vGetData. *)
Record Sent := mkSent {
  sn_peers : Peers;
  sn_best_header : option CBlockIndex;
  sn_getblocks : bool;
  sn_disconnect : bool;
  sn_getdata : list (list Z)
}.

Section send.
Variable params : CChainParams.
(** GetTimeMicros() when a block is asked for. *)
Variable asked_at : list Z → Z.
Variable t : ChainState.
Variable nodeid : Z.
Variable pto : NodeFlags.
(** nNow is GetTimeMicros(). *)
Variable GetAdjustedTime nNow : Z.

Definition wants_blocks (s : Peers) (st : CNodeState) : bool :=
  fPreferredDownload st || ((nPreferredDownload s =? 0) && negb (fClient pto) && negb (fOneShot pto)).

(** Whether the synchronisation starts with this peer. *)
Definition start_sync (s : Peers) (best_header : option CBlockIndex) (fReindex : bool) : result ub (Peers * bool) :=
  let! st := deref_state s nodeid in
  if negb (fSyncStarted st) && negb (fClient pto) && wants_blocks s st && negb fReindex then
    let! close :=
      (if nSyncStarted s =? 0 then Ok true
       else let! p := deref best_header in Ok (GetAdjustedTime - 6 * 60 * 60 <? GetBlockTime p)) in
    if close : bool then
      let s := set_state s nodeid (set_sync true st) in
      Ok (mkPeers (mapNodeState s) (mapBlocksInFlight s) (nQueuedValidatedHeaders s) (s32 (nSyncStarted s + 1))
            (nPreferredDownload s) (next_element s), true)
    else Ok (s, false)
  else Ok (s, false).

(** The two reasons to give the peer up. *)
Definition too_slow (st : CNodeState) : bool :=
  (negb (nStallingSince st =? 0) && (nStallingSince st <? s64 (nNow - 1000000 * BLOCK_STALLING_TIMEOUT)))
  || match vBlocksInFlight st with
     | [] => false
     | (_, q) :: _ =>
         q_nTime q <? s64 (nNow - s64 (500000 * nTargetSpacing params * s32 (4 + nValidatedQueuedBefore q)))
     end.

Fixpoint request_all (s : Peers) (vToDownload : list CBlockIndex) : result ub Peers :=
  match vToDownload with
  | [] => Ok s
  | pindex :: vToDownload =>
      let hash := phashBlock pindex in
      let! s := MarkBlockAsInFlight (asked_at hash) s nodeid hash (Some pindex) in
      request_all s vToDownload
  end.

(** The peer that stalls us is given two seconds from now. *)
Definition note_staller (s : Peers) (staller : Z) : result ub Peers :=
  let! st := deref_state s nodeid in
  if (nBlocksInFlight st =? 0) && negb (staller =? -1) then
    let! other := deref_state s staller in
    if nStallingSince other =? 0
    then Ok (set_state s staller (set_flight nNow (vBlocksInFlight other) (nBlocksInFlight other) other))
    else Ok s
  else Ok s.

Definition SendMessages (s : Peers) (fDisconnect fReindex : bool) : result stop Sent :=
  let best_header := match pindexBestHeader t with Some p => Some p | None => Tip (chainActive t) false end in
  let! st := of_ub (deref_state s nodeid) in
  let fFetch := wants_blocks s st in
  let! (s, getblocks) := of_ub (start_sync s best_header fReindex) in
  let! st := of_ub (deref_state s nodeid) in
  let fDisconnect := fDisconnect || too_slow st in
  if negb fDisconnect && negb (fClient pto) && fFetch && (nBlocksInFlight st <? MAX_BLOCKS_IN_TRANSIT_PER_PEER) then
    let count := u32 (MAX_BLOCKS_IN_TRANSIT_PER_PEER - nBlocksInFlight st) in
    let! r := FindNextBlocksToDownload t s nodeid count [] (-1) in
    let '(s, vToDownload, staller) := r in
    let! s := of_ub (request_all s vToDownload) in
    let! s := of_ub (note_staller s staller) in
    Ok (mkSent s best_header getblocks fDisconnect (map phashBlock vToDownload))
  else Ok (mkSent s best_header getblocks fDisconnect []).
End send.

(** ** What can happen *)

Inductive PeerEvent :=
| Connects (nodeid : Z) (addr : CService)
| TellsVersion (nodeid : Z) (node : NodeFlags)
| TellsVerack (nodeid : Z)
| Disconnects (nodeid : Z)
| Misbehaves (nodeid howmuch : Z)
| BlockArrives (hash : list Z)
| Announces (nodeid : Z) (hash : list Z)
| TreeChanges (t : ChainState)
| Sends (nodeid : Z) (pto : NodeFlags) (GetAdjustedTime nNow : Z) (fDisconnect fReindex : bool).

(** The block index, the peers and the orphans. *)
Record PeerWorld := mkWorld { w_tree : ChainState; w_peers : Peers; w_orphans : Orphans }.

Section world.
Variable params : CChainParams.
Variable banscore : Z.
Variable asked_at : list Z → Z.

Definition peer_step (w : PeerWorld) (e : PeerEvent) : result stop PeerWorld :=
  let '(mkWorld t s o) := w in
  match e with
  | Connects nodeid addr => Ok (mkWorld t (InitializeNode s nodeid addr) o)
  | TellsVersion nodeid node => let! s := of_ub (UpdatePreferredDownload s node nodeid) in Ok (mkWorld t s o)
  | TellsVerack nodeid =>
      let! st := of_ub (deref_state s nodeid) in Ok (mkWorld t (set_state s nodeid (set_connected true st)) o)
  | Disconnects nodeid => let! (s, o, _) := of_ub (FinalizeNode s o nodeid) in Ok (mkWorld t s o)
  | Misbehaves nodeid howmuch => Ok (mkWorld t (Misbehaving banscore s nodeid howmuch) o)
  | BlockArrives hash => let! s := of_ub (MarkBlockAsReceived s hash) in Ok (mkWorld t s o)
  | Announces nodeid hash => let! s := of_ub (UpdateBlockAvailability t s nodeid hash) in Ok (mkWorld t s o)
  | TreeChanges t => Ok (mkWorld t s o)
  | Sends nodeid pto adjusted nNow fDisconnect fReindex =>
      let! sent := SendMessages params asked_at t nodeid pto adjusted nNow s fDisconnect fReindex in
      Ok (mkWorld (with_best_header t (sn_best_header sent)) (sn_peers sent) o)
  end.

Fixpoint peer_run (w : PeerWorld) (es : list PeerEvent) : result stop PeerWorld :=
  match es with
  | [] => Ok w
  | e :: es => let! w := peer_step w e in peer_run w es
  end.
End world.

(** ** The walk over the blocks of a peer *)

(** The blocks of the branch of [best] at the heights above [lo], up to [hi]. *)
Definition branch (best : CBlockIndex) (lo hi : Z) : list CBlockIndex :=
  take (Z.to_nat (hi - lo)) (drop (Z.to_nat (lo + 1)) (rev (ancestry best))).

Lemma ancestry_of_ancestor p h a :
  wf_index p → ancestor p h = Some a → rev (ancestry a) = take (S (Z.to_nat h)) (rev (ancestry p)).
Proof.
  induction 1 as [p Hprev Hs Hh|p q Hprev Hq IH Hh Hs]; intros Ha; rewrite ancestor_unfold, Hprev in Ha.
  - destruct (Z.eqb_spec (nHeight p) h) as [He|]; [|done]. injection Ha as <-.
    rewrite (ancestry_unfold p), Hprev. cbn. by rewrite take_nil.
  - pose proof (length_ancestry q Hq) as HL. pose proof (wf_height q Hq).
    destruct (Z.eqb_spec (nHeight p) h) as [He|].
    + injection Ha as <-. rewrite take_ge; [done|]. rewrite length_rev, (ancestry_unfold p), Hprev. cbn [length]. lia.
    + rewrite IH by done. rewrite (ancestry_unfold p), Hprev. cbn [rev].
      pose proof (ancestor_height q h a Ha). destruct (decide (h <= nHeight q)).
      * rewrite take_app_le; [done|]. rewrite length_rev. destruct (ancestor_exists q h Hq) as (b & Hb & _ & Hw); [|lia].
        simplify_eq. pose proof (ancestry_wf q a Hq). split; [|done].
        assert (wf_index a) as Hwa; [|pose proof (wf_height a Hwa); lia].
        apply (ancestry_wf q); [done|]. apply elem_of_ancestry; [done|congruence].
      * rewrite ancestor_above in Ha by (done || lia). done.
Qed.

Lemma blocks_to_step n p acc : blocks_to (S (S n)) p acc = let! q := deref (pprev p) in blocks_to (S n) q (p :: acc).
Proof. reflexivity. Qed.

Lemma blocks_to_spec n p acc :
  wf_index p → (0 < n)%nat → (n <= length (ancestry p))%nat →
  blocks_to n p acc = Ok (drop (length (ancestry p) - n) (rev (ancestry p)) ++ acc).
Proof.
  intros Hp. revert n acc. induction Hp as [p Hprev Hs Hh|p q Hprev Hq IH Hh Hs]; intros n acc Hn Hle;
    rewrite (ancestry_unfold p), Hprev in *; cbn [length rev] in *; (destruct n as [|[|n]]; [lia| |]).
  - done.
  - lia.
  - replace (S (length (ancestry q)) - 1)%nat with (length (rev (ancestry q))) by (rewrite length_rev; lia).
    by rewrite drop_app_length.
  - rewrite blocks_to_step, Hprev. cbn [deref rbind]. rewrite IH by lia. rewrite drop_app_le by (rewrite length_rev; lia).
    rewrite <- app_assoc. by replace (S (length (ancestry q)) - S (S n))%nat with (length (ancestry q) - S n)%nat by lia.
Qed.

Lemma length_branch best lo hi :
  wf_index best → -1 <= lo → lo <= hi <= nHeight best → length (branch best lo hi) = Z.to_nat (hi - lo).
Proof.
  intros Hw Hlo Hhi. pose proof (length_ancestry best Hw). unfold branch.
  rewrite length_take, length_drop, length_rev. lia.
Qed.

Lemma branch_app best lo mid hi :
  wf_index best → -1 <= lo → lo <= mid → mid <= hi → branch best lo hi = branch best lo mid ++ branch best mid hi.
Proof.
  intros Hw Hlo H1 H2. unfold branch. set (l := rev (ancestry best)).
  replace (Z.to_nat (hi - lo)) with (Z.to_nat (mid - lo) + Z.to_nat (hi - mid))%nat by lia.
  rewrite <- take_take_drop, drop_drop. do 3 f_equal. lia.
Qed.

Lemma branch_lookup best lo hi k p :
  wf_index best → -1 <= lo → hi <= nHeight best → branch best lo hi !! k = Some p →
  nHeight p = lo + 1 + Z.of_nat k ∧ p ∈ ancestry best ∧ nHeight p <= hi.
Proof.
  intros Hw Hlo Hhi [Hk Hl]%lookup_take_Some. rewrite lookup_drop in Hk.
  replace (Z.to_nat (lo + 1) + k)%nat with (Z.to_nat (lo + 1 + Z.of_nat k)) in Hk by lia.
  rewrite ancestry_lookup in Hk by (done || lia). pose proof (ancestor_height _ _ _ Hk) as Hh.
  split; [done|]. split; [|lia]. apply elem_of_ancestry; [done|congruence].
Qed.

(** The batch of one turn. *)
Lemma fetch_batch best lo n :
  wf_index best → -1 <= lo → 0 < n → lo + n <= nHeight best →
  ∃ w, GetAncestor best (lo + n) = Ok (Some w) ∧ nHeight w = lo + n ∧ wf_index w ∧ ancestor best (lo + n) = Some w ∧
    blocks_to (Z.to_nat n) w [] = Ok (branch best lo (lo + n)).
Proof.
  intros Hw Hlo Hn Hle. destruct (GetAncestor_cut best (lo + n) Hw ltac:(lia)) as (w & E & Ha & Hh & Hww & _).
  pose proof (length_ancestry w Hww). exists w. split_and!; [done..|].
  rewrite blocks_to_spec by (done || lia). rewrite app_nil_r, (ancestry_of_ancestor best (lo + n)) by done.
  unfold branch. rewrite take_drop_commute. f_equal. f_equal; [lia|]. f_equal. lia.
Qed.

(** ** One pass in place of the batches *)

Section walk.
Context (t : ChainState) (in_flight : gmap (list Z) (Z * Z)) (nodeid count nWindowEnd : Z).

Abbreviation walk_over := (visit_all t in_flight nodeid count nWindowEnd).

Lemma visit_all_app r l l' :
  walk_over r (l ++ l') = (if (walk_over r l).2 then walk_over r l else walk_over (walk_over r l).1 l').
Proof.
  revert r. induction l as [|p l IH]; intros r; cbn [app visit_all]; [done|].
  destruct (visit _ _ _ _ _ r p) as [r' []]; [done|]. apply IH.
Qed.

Lemma fetch_loop_spec fuel best nMaxHeight walk r :
  wf_index best → wf_index walk → nMaxHeight <= nHeight best → nMaxHeight < 2 ^ 31 → nHeight walk <= nMaxHeight →
  (Z.to_nat (nMaxHeight - nHeight walk) <= fuel)%nat →
  fetch_loop t in_flight nodeid count nWindowEnd fuel best nMaxHeight walk r
    = Ok (walk_over r (branch best (nHeight walk) nMaxHeight)).1.
Proof.
  intros Hb. revert walk r. induction fuel as [|fuel IH]; intros walk r Hw Hle Hlt Hwle Hf; cbn [fetch_loop];
    pose proof (wf_height walk Hw) as H0; (destruct (Z.leb_spec nMaxHeight (nHeight walk)) as [|Hgo];
      [unfold branch; by replace (Z.to_nat (nMaxHeight - nHeight walk)) with 0%nat by lia|]); [lia|].
  cbn zeta. rewrite !(swrap_small 32 (nMaxHeight - nHeight walk)) by (unfold in_sw; lia).
  set (m := Z.max _ 128). assert (128 <= m) as Hm by (unfold m; lia). clearbody m.
  set (n := Z.min (nMaxHeight - nHeight walk) m). assert (0 < n) as Hn by lia.
  assert (nHeight walk + n <= nMaxHeight) as Hnm by lia.
  rewrite !(swrap_small 32 (nHeight walk + n)) by (unfold in_sw; lia).
  destruct (fetch_batch best (nHeight walk) n Hb ltac:(lia) Hn ltac:(lia)) as (w & -> & Hwh & Hww & _ & Hfetch).
  cbn [of_ub deref rbind]. rewrite Hfetch. cbn [of_ub rbind].
  rewrite (branch_app best (nHeight walk) (nHeight walk + n) nMaxHeight) by (done || lia).
  rewrite visit_all_app. destruct (walk_over r (branch best (nHeight walk) (nHeight walk + n))) as [r' []]; cbn [fst snd]; [done|].
  rewrite IH by (done || lia). by rewrite Hwh.
Qed.

(** ** What the pass finds *)

(** The blocks up to the first one that is not valid. *)
Fixpoint valid_prefix (l : list CBlockIndex) : list CBlockIndex :=
  match l with
  | [] => []
  | p :: l => if Chain.IsValid (status t p) BLOCK_VALID_TREE then p :: valid_prefix l else []
  end.

(** Not stored, and asked from no peer. *)
Definition missing (p : CBlockIndex) : Prop := stored t p = false ∧ in_flight !! phashBlock p = None.
#[export] Instance missing_dec p : Decision (missing p).
Proof. unfold missing. apply _. Defined.

(** Missing, and inside the window. *)
Definition wanted (p : CBlockIndex) : Prop := missing p ∧ nHeight p <= nWindowEnd.
#[export] Instance wanted_dec p : Decision (wanted p).
Proof. unfold wanted. apply _. Defined.

(** Stored, with all its ancestors. *)
Definition connected (p : CBlockIndex) : Prop := stored t p = true ∧ chain_tx t p <> 0.
#[export] Instance connected_dec p : Decision (connected p).
Proof. unfold connected. apply _. Defined.

(** The peer asked for [p]. *)
Definition asked (p : CBlockIndex) : option Z :=
  if stored t p then None else fst <$> in_flight !! phashBlock p.

(** waitingfor after the blocks [l]. *)
Definition waiting (w : Z) (l : list CBlockIndex) : Z :=
  foldl (λ w p, match asked p with Some peer => if w =? -1 then peer else w | None => w end) w l.

(** What [walk_over] has found, when it has looked at [seen]. *)
Record found (r r' : Search) (seen : list CBlockIndex) : Prop := {
  fo_blocks : s_blocks r' = s_blocks r ++ filter wanted seen;
  fo_common : s_common r' = default (s_common r) (last (filter connected seen));
  fo_staller : s_staller r' =
    if bool_decide (s_blocks r' = []) && bool_decide (Exists missing seen) && negb (waiting (s_waitingfor r) seen =? nodeid)
    then waiting (s_waitingfor r) seen else s_staller r
}.

Lemma waiting_set w l : w <> -1 → waiting w l = w.
Proof.
  intros Hw. unfold waiting. induction l as [|p l IH]; cbn; [done|]. destruct (asked p); [|done].
  by destruct (Z.eqb_spec w (-1)).
Qed.

Lemma found_refl r : found r r [].
Proof.
  split; [by rewrite app_nil_r|done|]. rewrite (bool_decide_eq_false_2 (Exists _ _)) by (intros H; inversion H).
  by rewrite andb_false_r.
Qed.

(** A block that adds nothing but, maybe, the peer waited for or a common block. *)
Lemma found_pass r r1 r' p seen :
  (¬ missing p) → s_blocks r1 = s_blocks r → s_staller r1 = s_staller r →
  s_common r1 = (if decide (connected p) then p else s_common r) →
  s_waitingfor r1 = waiting (s_waitingfor r) [p] →
  found r1 r' seen → found r r' (p :: seen).
Proof.
  intros Hm Eb Es Ec Ew [F1 F2 F3]. split.
  - rewrite F1, Eb, filter_cons_False; [done|]. by intros [? _].
  - rewrite F2, Ec. destruct (decide (connected p)); [rewrite filter_cons_True by done|by rewrite filter_cons_False].
    rewrite last_cons. by destruct (last (filter connected seen)).
  - rewrite F3, Es, Ew. rewrite (bool_decide_ext _ _ (Exists_cons _ _ _)).
    assert (∀ w, waiting (waiting w [p]) seen = waiting w (p :: seen)) as -> by done.
    destruct (decide (Exists missing seen)).
    + by rewrite (bool_decide_eq_true_2 (Exists missing seen)), (bool_decide_eq_true_2 (_ ∨ _)) by auto.
    + by rewrite (bool_decide_eq_false_2 (Exists missing seen)), (bool_decide_eq_false_2 (_ ∨ _)) by tauto.
Qed.

Lemma visit_all_spec r l :
  (∀ l1 p l2, l = l1 ++ p :: l2 → nWindowEnd < nHeight p → l2 = []) →
  Z.of_nat (length (s_blocks r)) < count →
  let r' := (walk_over r l).1 in
  ∃ seen, seen `prefix_of` valid_prefix l ∧ found r r' seen ∧
    (Z.of_nat (length (s_blocks r')) = count ∨ (Z.of_nat (length (s_blocks r')) < count ∧ seen = valid_prefix l)).
Proof.
  revert r. induction l as [|p l IH]; intros r Hend Hcount; cbn [visit_all valid_prefix].
  { exists []. split; [done|]. split; [apply found_refl|]. by right. }
  assert (∀ l1 q l2, l = l1 ++ q :: l2 → nWindowEnd < nHeight q → l2 = []) as Hend'
    by (intros l1 q l2 ->; by apply (Hend (p :: l1) q)).
  unfold visit. destruct (Chain.IsValid (status t p) BLOCK_VALID_TREE); cbn [negb].
  2: { exists []. split; [done|]. split; [apply found_refl|]. by right. }
  assert (∀ r1, s_blocks r1 = s_blocks r → s_staller r1 = s_staller r → ¬ missing p →
    s_common r1 = (if decide (connected p) then p else s_common r) → s_waitingfor r1 = waiting (s_waitingfor r) [p] →
    ∃ seen, seen `prefix_of` p :: valid_prefix l ∧ found r (walk_over r1 l).1 seen ∧
      (Z.of_nat (length (s_blocks (walk_over r1 l).1)) = count ∨
       (Z.of_nat (length (s_blocks (walk_over r1 l).1)) < count ∧ seen = p :: valid_prefix l))) as Hpass.
  { intros r1 E1 E2 E3 E4 E5. destruct (IH r1 Hend' ltac:(by rewrite E1)) as (seen & Hp & Hf & Hc).
    exists (p :: seen). split; [by apply prefix_cons|]. split; [by apply (found_pass r r1)|].
    destruct Hc as [?|[? ->]]; [by left|by right]. }
  change (has (status t p) BLOCK_HAVE_DATA) with (stored t p).
  destruct (stored t p) eqn:Est.
  { destruct (Z.eqb_spec (nChainTx (idx t p)) 0) as [E0|E0]; cbn [fst snd]; apply Hpass; try done; cbn.
    - by intros [? _]; congruence.
    - rewrite decide_False; [done|]. by intros [_ ?].
    - unfold asked. by rewrite Est.
    - by intros [? _]; congruence.
    - by rewrite decide_True.
    - unfold asked. by rewrite Est. }
  destruct (in_flight !! phashBlock p) as [[peer it]|] eqn:Ef.
  { apply Hpass; try done; [by destruct (_ =? -1)|by destruct (_ =? -1)|by intros [_ ?]; congruence| |].
    - rewrite decide_False by (intros [? _]; congruence). by destruct (_ =? -1).
    - cbn. unfold asked. rewrite Est, Ef. cbn. by destruct (_ =? -1). }
  assert (missing p) as Hmiss by done.
  assert (¬ connected p) as Hncon by (intros [? _]; congruence).
  destruct (Z.ltb_spec nWindowEnd (nHeight p)) as [Hout|Hin].
  - assert (l = []) as -> by (apply (Hend [] p l); done). cbn [fst valid_prefix]. exists [p].
    assert (filter wanted [p] = []) as Ew by (rewrite filter_cons_False; [done|]; intros [_ ?]; lia).
    assert (waiting (s_waitingfor r) [p] = s_waitingfor r) as Ewait by (cbn; unfold asked; by rewrite Est, Ef).
    split; [done|]. split; [|right; split; [by destruct (_ && _)|done]].
    split; [by destruct (_ && _); rewrite Ew, app_nil_r|rewrite filter_cons_False by done; by destruct (_ && _)|].
    rewrite Ewait, (bool_decide_eq_true_2 (Exists missing [p])) by (by constructor). rewrite andb_true_r.
    assert ((Z.of_nat (length (s_blocks r)) =? 0) = bool_decide (s_blocks r = [])) as ->.
    { destruct (s_blocks r); cbn [length]; [done|]. rewrite bool_decide_eq_false_2 by done. by apply Z.eqb_neq. }
    destruct (bool_decide (s_blocks r = [])) eqn:Eb; cbn [andb].
    + destruct (negb _); cbn [s_blocks s_staller]; by rewrite Eb.
    + by rewrite Eb.
  - assert (wanted p) as Hw by done. set (r1 := mkSearch _ (s_blocks r ++ [p]) _ _).
    assert (∀ r' seen, s_blocks r' <> [] → found r1 r' seen → found r r' (p :: seen)) as Hadd.
    { intros r' seen Hne [F1 F2 F3]. rewrite bool_decide_eq_false_2 in F3 by done. cbn [andb] in F3. split.
      - rewrite F1, filter_cons_True by done. cbn. by rewrite <- app_assoc.
      - by rewrite F2, filter_cons_False.
      - rewrite bool_decide_eq_false_2 by done. by rewrite F3. }
    destruct (Z.eqb_spec (Z.of_nat (length (s_blocks r ++ [p]))) count) as [Hc|Hc]; cbn [fst].
    + exists [p]. split; [apply prefix_cons, prefix_nil|]. split; [|by left].
      apply Hadd; [cbn; by destruct (s_blocks r)|apply found_refl].
    + rewrite length_app in Hc. cbn [length] in Hc.
      destruct (IH r1 Hend') as (seen & Hp & Hf & Hs); [cbn; rewrite length_app; cbn [length]; lia|].
      exists (p :: seen). split; [by apply prefix_cons|]. split.
      * apply Hadd; [|done]. rewrite (fo_blocks _ _ _ Hf). cbn. by destruct (s_blocks r).
      * destruct Hs as [?|[? ->]]; [by left|by right].
Qed.
End walk.

(** ** FindNextBlocksToDownload *)

(** The block index as the download meets it: heights are far from the end of int. *)
Record good_tree (t : ChainState) (tip : CBlockIndex) : Prop := {
  gt_index : index_ok t;
  gt_chain : chainActive t = chain_of tip;
  gt_tip : known t tip;
  gt_height : ∀ p, known t p → nHeight p < 2 ^ 30
}.

Lemma genesis_of p : wf_index p → ∃ g, g ∈ ancestry p ∧ pprev g = None.
Proof.
  induction 1 as [p Hprev _ _|p q Hprev _ (g & Hg & Hn) _ _].
  - exists p. split; [apply ancestry_self|done].
  - exists g. split; [|done]. by apply (ancestry_prev p q).
Qed.

Lemma common_block t tip p q :
  good_tree t tip → known t p → known t q →
  ∃ x, LastCommonAncestor p q = Ok (Some x) ∧ highest_common (Some x) p q ∧ known t x.
Proof.
  intros G Hp Hq. pose proof (gt_index _ _ G) as Hi.
  destruct (fork_points_are_highest_common (all_blocks t) q p) as [(r & E & Hr) _];
    [by apply all_blocks_one_object|by apply (io_wf _ Hi)|by apply ancestry_known|by apply (io_wf _ Hi)|by apply ancestry_known|].
  destruct r as [x|].
  - exists x. split_and!; [done..|]. eapply known_ancestor; [done|exact Hp|apply Hr].
  - destruct (genesis_of p (io_wf _ Hi p Hp)) as (g & Hg & Hgn), (genesis_of q (io_wf _ Hi q Hq)) as (g' & Hg' & Hgn').
    destruct (Hr g Hg). assert (g = g') as ->; [|done].
    apply (io_root _ Hi); [by apply (known_ancestor t p)|by apply (known_ancestor t q)|done|done].
Qed.

Lemma set_state_same s nodeid st : State s nodeid = Some st → set_state s nodeid st = s.
Proof. unfold State, set_state. intros E. rewrite insert_id by done. by destruct s. Qed.

Lemma State_set_state s n m st : State (set_state s n st) m = if decide (m = n) then Some st else State s m.
Proof.
  unfold State, set_state. cbn. destruct (decide (m = n)) as [->|]; [by rewrite lookup_insert_eq|by rewrite lookup_insert_ne].
Qed.

Lemma ProcessBlockAvailability_spec t s nodeid st :
  State s nodeid = Some st →
  ∃ st', ProcessBlockAvailability t s nodeid = Ok (set_state s nodeid st') ∧
    (st' = st ∨ ∃ p, mapBlockIndex t !! hashLastUnknownBlock st = Some p ∧
      st' = set_known (if better_known (pindexBestKnownBlock st) p then Some p else pindexBestKnownBlock st) (uint256 0) st).
Proof.
  intros E. pose proof (set_state_same s nodeid st E) as Hid. unfold ProcessBlockAvailability, assert_state. rewrite E.
  cbn [rbind]. case_bool_decide; [exists st; rewrite Hid; by split; [|left]|].
  destruct (mapBlockIndex t !! _) as [p|] eqn:Ep; [|exists st; rewrite Hid; by split; [|left]].
  destruct (op_gt _ _); [|exists st; rewrite Hid; by split; [|left]].
  eexists. split; [done|]. right. by exists p.
Qed.

(** Where the search for the common block starts. *)
Definition search_start (t : ChainState) (st : CNodeState) (best : CBlockIndex) : option CBlockIndex :=
  match pindexLastCommonBlock st with
  | Some p => Some p
  | None => chain_at (chainActive t) (Z.min (nHeight best) (Height (chainActive t)))
  end.

Lemma search_start_spec t tip st best :
  good_tree t tip → known t best → (∀ p, pindexLastCommonBlock st = Some p → known t p) →
  ∃ p, search_start t st best = Some p ∧ known t p.
Proof.
  intros G Hb Hc. unfold search_start. destruct (pindexLastCommonBlock st) as [p|]; [exists p; by split; [|apply Hc]|].
  pose proof (gt_index _ _ G) as Hi. pose proof (io_wf _ Hi tip (gt_tip _ _ G)) as Hw.
  pose proof (wf_height best (io_wf _ Hi best Hb)). pose proof (wf_height tip Hw).
  rewrite (gt_chain _ _ G), Height_chain_of, chain_at_of by done.
  set (h := Z.min (nHeight best) (nHeight tip)). assert (0 <= h <= nHeight tip) as Hh by lia.
  destruct (Z.leb_spec 0 h), (Z.leb_spec h (nHeight tip)); try lia. cbn [andb].
  destruct (ancestor_exists tip h Hw Hh) as (a & Ha & Hah & _). exists a. split; [done|].
  eapply known_ancestor; [done|apply (gt_tip _ _ G)|]. apply elem_of_ancestry; [done|congruence].
Qed.

Lemma filter_take_prefix (P : CBlockIndex → Prop) `{∀ x, Decision (P x)} seen l n :
  seen `prefix_of` l → length (filter P seen) = n ∨ (length (filter P seen) < n)%nat ∧ seen = l →
  filter P seen = take n (filter P l).
Proof.
  intros [k ->] [Hl|[Hl E]]; rewrite filter_app.
  - by rewrite take_app_length'.
  - rewrite <- filter_app, <- E. by rewrite take_ge by lia.
Qed.

(** What the function finds on the branch of [best] above [common]. *)
Record next_blocks (t : ChainState) (flight : gmap (list Z) (Z * Z)) (nodeid count : Z) (best common : CBlockIndex)
    (staller : Z) (vBlocks : list CBlockIndex) (common' : CBlockIndex) (staller' : Z) : Prop := {
  nb_branch := branch best (nHeight common) (Z.min (nHeight best) (nHeight common + BLOCK_DOWNLOAD_WINDOW + 1));
  nb_path := valid_prefix t nb_branch;
  nb_blocks : vBlocks = take (Z.to_nat count) (filter (wanted t flight (nHeight common + BLOCK_DOWNLOAD_WINDOW)) nb_path);
  nb_common : ∃ seen, seen `prefix_of` nb_path ∧ vBlocks = filter (wanted t flight (nHeight common + BLOCK_DOWNLOAD_WINDOW)) seen ∧
    (length vBlocks = Z.to_nat count ∨ seen = nb_path) ∧ common' = default common (last (filter (connected t) seen));
  nb_staller : let w := waiting t flight (-1) nb_path in
    staller' = if bool_decide (vBlocks = []) && bool_decide (Exists (missing t flight) nb_path) && negb (w =? nodeid) then w else staller
}.

Lemma walk_spec t tip flight nodeid count best common staller :
  good_tree t tip → 0 < count → known t best → common ∈ ancestry best →
  let nWindowEnd := s32 (u32 (nHeight common + BLOCK_DOWNLOAD_WINDOW)) in
  let nMaxHeight := Z.min (nHeight best) (s32 (nWindowEnd + 1)) in
  ∃ r, fetch_loop t flight nodeid count nWindowEnd (Z.to_nat (nMaxHeight - nHeight common)) best nMaxHeight common
         (mkSearch common [] (-1) staller) = Ok r ∧
    next_blocks t flight nodeid count best common staller (s_blocks r) (s_common r) (s_staller r).
Proof.
  intros G Hcount Hb Hin. pose proof (gt_index _ _ G) as Hi. pose proof (io_wf _ Hi best Hb) as Hw.
  destruct (ancestry_wf best common Hw Hin) as [Hwc Hhc]. pose proof (gt_height _ _ G best Hb) as Hhb.
  cbn zeta. unfold BLOCK_DOWNLOAD_WINDOW. rewrite wrap_small by (unfold in_uw; lia). rewrite (swrap_small 32 (nHeight common + 1024)) by (unfold in_sw; lia).
  rewrite swrap_small by (unfold in_sw; lia).
  set (hi := Z.min (nHeight best) (nHeight common + 1024 + 1)).
  rewrite fetch_loop_spec by (done || lia). eexists. split; [done|].
  set (l := branch best (nHeight common) hi).
  assert (∀ l1 p l2, l = l1 ++ p :: l2 → nHeight common + 1024 < nHeight p → l2 = []) as Hend.
  { intros l1 p l2 El Hp. destruct l2 as [|q l2]; [done|]. exfalso.
    pose proof (branch_lookup best (nHeight common) hi (length l1) p Hw ltac:(lia) ltac:(lia)
      ltac:(fold l; rewrite El; by apply list_lookup_middle)) as (H1 & _).
    pose proof (branch_lookup best (nHeight common) hi (S (length l1)) q Hw ltac:(lia) ltac:(lia)
      ltac:(fold l; rewrite El, lookup_app_r by lia; by replace (S (length l1) - length l1)%nat with 1%nat by lia)) as (H2 & _ & H3).
    lia. }
  destruct (visit_all_spec t flight nodeid count (nHeight common + 1024) (mkSearch common [] (-1) staller) l Hend
    ltac:(done)) as (seen & Hp & [F1 F2 F3] & Hs).
  cbn [s_blocks s_common s_waitingfor s_staller app] in F1, F2, F3.
  set (r := (visit_all _ _ _ _ _ _ l).1) in *.
  split; cbn zeta; unfold BLOCK_DOWNLOAD_WINDOW; fold hi l.
  - rewrite F1 in Hs |- *. apply filter_take_prefix; [done|]. destruct Hs as [Hs|[Hs E]]; [left|right; split]; (done || lia).
  - exists seen. split; [done|]. split; [done|]. split; [|done]. destruct Hs as [Hs|[Hs E]]; [left|right]; (done || lia).
  - rewrite F3. destruct (bool_decide (s_blocks r = [])) eqn:E; [|done]. apply bool_decide_eq_true in E.
    destruct Hs as [Hs|[_ ->]]; [rewrite E in Hs; cbn in Hs; lia|done].
Qed.

(** The pointers of a peer lead to known blocks. *)
Definition node_known (t : ChainState) (st : CNodeState) : Prop :=
  (∀ p, pindexBestKnownBlock st = Some p → known t p) ∧ (∀ p, pindexLastCommonBlock st = Some p → known t p).

Lemma refreshed_known t st st' p :
  index_ok t → node_known t st → mapBlockIndex t !! hashLastUnknownBlock st = Some p →
  st' = set_known (if better_known (pindexBestKnownBlock st) p then Some p else pindexBestKnownBlock st) (uint256 0) st →
  node_known t st'.
Proof.
  intros Hi [H1 H2] Hp ->. split; cbn; [|done]. destruct (better_known _ p); [|done].
  intros q [= <-]. unfold known. by rewrite (io_hash _ Hi _ _ Hp).
Qed.

Lemma set_common_same st : set_common (pindexLastCommonBlock st) st = st.
Proof. by destruct st. Qed.

(** Nothing is found on an empty branch. *)
Lemma next_blocks_none t flight nodeid count best staller :
  wf_index best → next_blocks t flight nodeid count best best staller [] best staller.
Proof.
  intros Hw. pose proof (wf_height best Hw). split; cbn zeta.
  all: assert (branch best (nHeight best) (Z.min (nHeight best) (nHeight best + BLOCK_DOWNLOAD_WINDOW + 1)) = []) as ->
    by (unfold branch, BLOCK_DOWNLOAD_WINDOW;
        by replace (Z.to_nat (Z.min (nHeight best) (nHeight best + 1024 + 1) - nHeight best)) with 0%nat by lia).
  - cbn [valid_prefix filter list_filter]. by rewrite take_nil.
  - exists []. split; [done|]. split; [done|]. by split; [right|].
  - rewrite (bool_decide_eq_false_2 (Exists _ _)) by (intros E; inversion E). by rewrite andb_false_r.
Qed.

Lemma work_compare t p q : index_ok t → known t p → known t q → op_lt (nChainWork p) (nChainWork q) = (work p <? work q).
Proof. intros Hi Hp Hq. by apply (compare_ops_repr 8); apply (io_work _ Hi). Qed.

(** The answer of FindNextBlocksToDownload for a peer in state [st]. *)
Definition download_answer (t : ChainState) (tip : CBlockIndex) (flight : gmap (list Z) (Z * Z)) (nodeid count : Z)
    (staller : Z) (st : CNodeState) (common' : option CBlockIndex) (vBlocks : list CBlockIndex) (staller' : Z) : Prop :=
  match pindexBestKnownBlock st with
  | Some best =>
      if work tip <=? work best then
        ∃ start common c, search_start t st best = Some start ∧ highest_common (Some common) start best ∧
          common' = Some c ∧ next_blocks t flight nodeid count best common staller vBlocks c staller'
      else common' = pindexLastCommonBlock st ∧ vBlocks = [] ∧ staller' = staller
  | None => common' = pindexLastCommonBlock st ∧ vBlocks = [] ∧ staller' = staller
  end.

Lemma FindNextBlocksToDownload_spec t tip s nodeid count staller st :
  good_tree t tip → 0 < count → State s nodeid = Some st → node_known t st →
  ∃ st1, ProcessBlockAvailability t s nodeid = Ok (set_state s nodeid st1) ∧ node_known t st1 ∧
    (st1 = st ∨ ∃ b h, st1 = set_known b h st) ∧
    ∃ common' vBlocks staller',
      FindNextBlocksToDownload t s nodeid count [] staller
        = Ok (set_state s nodeid (set_common common' st1), vBlocks, staller') ∧
      download_answer t tip (mapBlocksInFlight s) nodeid count staller st1 common' vBlocks staller'.
Proof.
  intros G Hcount Est Hk. pose proof (gt_index _ _ G) as Hi.
  destruct (ProcessBlockAvailability_spec t s nodeid st Est) as (st1 & Ep & Hst1).
  assert (node_known t st1) as Hk1.
  { destruct Hst1 as [->|(p & Hp & E)]; [done|by eapply refreshed_known]. }
  exists st1. split; [done|]. split; [done|]. split.
  { destruct Hst1 as [->|(p & _ & ->)]; [by left|right; by eexists _, _]. }
  unfold FindNextBlocksToDownload, assert_state, download_answer. destruct (Z.eqb_spec count 0); [lia|]. rewrite Est, Ep.
  cbn [of_ub rbind]. unfold deref_state. rewrite State_set_state, decide_True by done. cbn [of_ub rbind].
  assert (∀ v w, set_state (set_state s nodeid v) nodeid w = set_state s nodeid w) as Htwice
    by (intros v w; unfold set_state; cbn; by rewrite insert_insert_eq).
  destruct (pindexBestKnownBlock st1) as [best|] eqn:Eb.
  2: { exists (pindexLastCommonBlock st1), [], staller. by rewrite set_common_same. }
  pose proof (proj1 Hk1 best Eb) as Hb. pose proof (gt_tip _ _ G) as Ht.
  rewrite (gt_chain _ _ G), Tip_chain_of by (by apply (io_wf _ Hi)). cbn [of_ub deref rbind].
  rewrite (work_compare t best tip Hi Hb Ht). destruct (Z.ltb_spec (work best) (work tip)), (Z.leb_spec (work tip) (work best)); try lia.
  { exists (pindexLastCommonBlock st1), [], staller. by rewrite set_common_same. }
  destruct (search_start_spec t tip st1 best G Hb (proj2 Hk1)) as (start & Es & Hs).
  pose proof Es as Es'. unfold search_start in Es'. rewrite (gt_chain _ _ G) in Es'. rewrite Es'. cbn [deref of_ub rbind].
  destruct (common_block t tip start best G Hs Hb) as (common & -> & Hc & Hkc). cbn [of_ub rbind].
  destruct (ptr_eq common best) eqn:Ec.
  - assert (common = best) as ->.
    { apply (ptr_eq_spec (all_blocks t)); [by apply all_blocks_one_object|by apply elem_of_all_blocks|by apply elem_of_all_blocks|done]. }
    exists (Some best), [], staller. rewrite Htwice. split; [done|]. exists start, best, best. split_and!; try done.
    by apply next_blocks_none, (io_wf _ Hi).
  - destruct (walk_spec t tip (mapBlocksInFlight s) nodeid count best common staller G Hcount Hb ltac:(apply Hc)) as (r & Er & Hr).
    cbn [deref of_ub rbind]. cbn zeta in Er. cbn [mapBlocksInFlight set_state]. rewrite Er. cbn [rbind]. rewrite Htwice.
    exists (Some (s_common r)), (s_blocks r), (s_staller r). split; [done|]. by exists start, common, (s_common r).
Qed.

(** ** Consistency of the counters, lists and iterators *)

(** A sum over the peers. *)
Definition total (f : CNodeState → Z) (m : gmap Z CNodeState) : Z := map_fold (λ _ st n, f st + n) 0 m.

Lemma total_delete f m k st : m !! k = Some st → total f m = f st + total f (delete k m).
Proof. intros E. unfold total. apply (map_fold_delete_L (λ _ st n, f st + n)); [intros; lia|done]. Qed.

Lemma total_insert f m k st : total f (<[k := st]> m) = f st + total f (delete k m).
Proof. rewrite (total_delete f _ k st) by apply lookup_insert_eq. by rewrite delete_insert_eq. Qed.

Lemma total_empty f : total f ∅ = 0.
Proof. apply map_fold_empty. Qed.

Lemma total_missing f m k : m !! k = None → total f (delete k m) = total f m.
Proof. intros E. by rewrite delete_id. Qed.

(** The blocks in flight from a peer whose header was valid when asked for. *)
Definition validated (st : CNodeState) : Z := Z.of_nat (length (filter (λ e, fValidatedHeaders e.2 = true) (vBlocksInFlight st))).

(** mapBlocksInFlight and the lists of the peers point at each other. *)
Record flight_ok (nodes : gmap Z CNodeState) (flight : gmap (list Z) (Z * Z)) (next : Z) : Prop := {
  fl_element : ∀ h n it, flight !! h = Some (n, it) → ∃ st q, nodes !! n = Some st ∧ (it, q) ∈ vBlocksInFlight st ∧ q_hash q = h;
  fl_entry : ∀ n st it q, nodes !! n = Some st → (it, q) ∈ vBlocksInFlight st → flight !! q_hash q = Some (n, it);
  fl_distinct : ∀ n st, nodes !! n = Some st → NoDup (vBlocksInFlight st).*1 ∧ Forall (λ e, e.1 < next) (vBlocksInFlight st);
  fl_count : ∀ n st, nodes !! n = Some st → nBlocksInFlight st = Z.of_nat (length (vBlocksInFlight st))
}.

(** [lost] counts the validated blocks that were in flight from peers that left. *)
Record peers_ok (lost : Z) (s : Peers) : Prop := {
  po_flight : flight_ok (mapNodeState s) (mapBlocksInFlight s) (next_element s);
  po_limit : ∀ n st, mapNodeState s !! n = Some st → nBlocksInFlight st <= MAX_BLOCKS_IN_TRANSIT_PER_PEER;
  po_queued : nQueuedValidatedHeaders s = s32 (total validated (mapNodeState s) + lost);
  po_sync : nSyncStarted s = s32 (total (λ st, Z.b2z (fSyncStarted st)) (mapNodeState s));
  po_preferred : nPreferredDownload s = s32 (total (λ st, Z.b2z (fPreferredDownload st)) (mapNodeState s))
}.

Lemma s32_add a b : s32 (s32 a + b) = s32 (a + b).
Proof. by apply swrap_add_l. Qed.

Lemma s32_replace a b r : s32 (s32 (a + r) - a + b) = s32 (b + r).
Proof. rewrite <- Z.add_opp_r, <- Z.add_assoc, s32_add. f_equal. lia. Qed.

(** Changes that leave the lists alone. *)
Lemma flight_ok_same_list nodes flight next n st st' :
  flight_ok nodes flight next → nodes !! n = Some st → vBlocksInFlight st' = vBlocksInFlight st →
  nBlocksInFlight st' = nBlocksInFlight st → flight_ok (<[n := st']> nodes) flight next.
Proof.
  intros [F1 F2 F3 F4] E El En. split.
  - intros h m it Hm. destruct (F1 h m it Hm) as (su & q & Es & Hq & Hh). destruct (decide (m = n)) as [->|Hmn].
    + exists st', q. rewrite lookup_insert_eq, El. by simplify_eq.
    + exists su, q. by rewrite lookup_insert_ne.
  - intros m su it q [[<- <-]|[_ Hm]]%lookup_insert_Some Hq; [rewrite El in Hq|]; by eapply F2.
  - intros m su [[<- <-]|[_ Hm]]%lookup_insert_Some; [rewrite El|]; by eapply F3.
  - intros m su [[<- <-]|[_ Hm]]%lookup_insert_Some; [rewrite El, En|]; by eapply F4.
Qed.

Lemma flight_ok_new nodes flight next n st' :
  flight_ok nodes flight next → nodes !! n = None → vBlocksInFlight st' = [] → nBlocksInFlight st' = 0 →
  flight_ok (<[n := st']> nodes) flight next.
Proof.
  intros [F1 F2 F3 F4] E El En. split.
  - intros h m it Hm. destruct (F1 h m it Hm) as (su & q & Es & Hq & Hh). exists su, q.
    rewrite lookup_insert_ne by (intros <-; congruence). done.
  - intros m su it q [[<- <-]|[_ Hm]]%lookup_insert_Some Hq; [rewrite El in Hq; by apply elem_of_nil in Hq|by eapply F2].
  - intros m su [[<- <-]|[_ Hm]]%lookup_insert_Some; [rewrite El; split; constructor|by eapply F3].
  - intros m su [[<- <-]|[_ Hm]]%lookup_insert_Some; [by rewrite El|by eapply F4].
Qed.

(** One peer replaced by a state with the same list: the sums follow. *)
Lemma peers_ok_update lost s n st st' sync preferred :
  peers_ok lost s → State s n = Some st → vBlocksInFlight st' = vBlocksInFlight st → nBlocksInFlight st' = nBlocksInFlight st →
  sync = s32 (nSyncStarted s - Z.b2z (fSyncStarted st) + Z.b2z (fSyncStarted st')) →
  preferred = s32 (nPreferredDownload s - Z.b2z (fPreferredDownload st) + Z.b2z (fPreferredDownload st')) →
  peers_ok lost (mkPeers (<[n := st']> (mapNodeState s)) (mapBlocksInFlight s) (nQueuedValidatedHeaders s) sync preferred
                   (next_element s)).
Proof.
  intros [P1 P2 P3 P4 P5] E El En -> ->. unfold State in E.
  split; cbn [mapNodeState mapBlocksInFlight nQueuedValidatedHeaders nSyncStarted nPreferredDownload next_element].
  - by eapply flight_ok_same_list.
  - intros m su [[<- <-]|[_ Hm]]%lookup_insert_Some; [rewrite En|]; by eapply P2.
  - rewrite P3, total_insert, (total_delete _ _ n st E). unfold validated at 1 3. by rewrite El.
  - rewrite P4, total_insert, (total_delete _ _ n st E). apply s32_replace.
  - rewrite P5, total_insert, (total_delete _ _ n st E). apply s32_replace.
Qed.

(** ** Each operation keeps the peers consistent *)

Lemma deref_element_spec l it q : NoDup l.*1 → (it, q) ∈ l → deref_element l it = Ok q.
Proof.
  intros Hnd Hin. unfold deref_element. induction l as [|[i x] l IH]; [by apply elem_of_nil in Hin|].
  cbn in Hnd. apply NoDup_cons in Hnd as [Hi Hnd]. destruct (decide (i = it)) as [->|Hne].
  - rewrite filter_cons_True by done. cbn. apply elem_of_cons in Hin as [[= ->]|Hin]; [done|].
    destruct Hi. by apply (list_elem_of_fmap_2 fst) in Hin.
  - rewrite filter_cons_False by done. apply IH; [done|]. by apply elem_of_cons in Hin as [[= <-]|].
Qed.

(** Taking an element out of a list. *)
Lemma erase_element (l : list (Z * QueuedBlock)) it q :
  NoDup l.*1 → (it, q) ∈ l →
  let l' := filter (λ e, e.1 <> it) l in
  Z.of_nat (length l) = Z.of_nat (length l') + 1 ∧
  Z.of_nat (length (filter (λ e, fValidatedHeaders e.2 = true) l))
    = Z.of_nat (length (filter (λ e, fValidatedHeaders e.2 = true) l')) + Z.b2z (fValidatedHeaders q).
Proof.
  intros Hnd Hin. induction l as [|[i x] l IH]; [by apply elem_of_nil in Hin|].
  cbn in Hnd. apply NoDup_cons in Hnd as [Hi Hnd]. destruct (decide (i = it)) as [->|Hne].
  - rewrite filter_cons_False by (by intros []). assert (filter (λ e, e.1 <> it) l = l) as E.
    { clear -Hi. induction l as [|[j y] l IH]; [done|]. cbn in Hi. apply not_elem_of_cons in Hi as [Hj Hi].
      rewrite filter_cons_True by (cbn; congruence). by rewrite IH. }
    cbn zeta. rewrite E. apply elem_of_cons in Hin as [[= ->]|Hin].
    + cbn [length]. split; [lia|]. destruct (fValidatedHeaders x) eqn:Ex.
      * rewrite filter_cons_True by done. cbn [length Z.b2z]. lia.
      * rewrite filter_cons_False by (cbn; congruence). cbn [Z.b2z]. lia.
    + destruct Hi. by apply (list_elem_of_fmap_2 fst) in Hin.
  - cbn zeta. rewrite (filter_cons_True (λ e : Z * QueuedBlock, e.1 <> it)) by done.
    apply elem_of_cons in Hin as [[= <-]|Hin]; [done|]. destruct (IH Hnd Hin) as [H1 H2]. cbn [length]. split; [lia|].
    destruct (decide (fValidatedHeaders x = true)); [rewrite !filter_cons_True by done|rewrite !filter_cons_False by done];
      cbn [length]; lia.
Qed.

Lemma flight_ok_erase nodes flight next hash n it st st' :
  flight_ok nodes flight next → flight !! hash = Some (n, it) → nodes !! n = Some st →
  vBlocksInFlight st' = filter (λ e, e.1 <> it) (vBlocksInFlight st) → nBlocksInFlight st' = nBlocksInFlight st - 1 →
  flight_ok (<[n := st']> nodes) (delete hash flight) next.
Proof.
  intros [F1 F2 F3 F4] Ef E El En. destruct (F1 hash n it Ef) as (su & q & Es & Hq & Hh).
  rewrite E in Es. injection Es as <-. subst hash.
  destruct (F3 n st E) as [Hnd Hlt]. split.
  - intros h m i [Hhq Hm]%lookup_delete_Some. destruct (F1 h m i Hm) as (sv & q' & Ev & Hq' & <-).
    destruct (decide (m = n)) as [->|Hmn]; [|exists sv, q'; by rewrite lookup_insert_ne].
    exists st', q'. rewrite lookup_insert_eq, El. simplify_eq. split; [done|]. split; [|done]. apply list_elem_of_filter.
    split; [|done]. cbn. intros ->. apply Hhq. f_equal. pose proof (deref_element_spec _ _ _ Hnd Hq).
    pose proof (deref_element_spec _ _ _ Hnd Hq'). congruence.
  - intros m sv i q' [[<- <-]|[Hmn Hm]]%lookup_insert_Some Hq'.
    + rewrite El in Hq'. apply list_elem_of_filter in Hq' as [Hi Hq']. cbn in Hi. pose proof (F2 n st i q' E Hq') as Hf.
      rewrite lookup_delete_ne; [done|]. intros Eh. rewrite <- Eh in Hf. congruence.
    + pose proof (F2 m sv i q' Hm Hq') as Hf. rewrite lookup_delete_ne; [done|]. intros Eh. rewrite <- Eh in Hf. congruence.
  - intros m sv [[<- <-]|[_ Hm]]%lookup_insert_Some; [|by eapply F3]. rewrite El. split.
    + eapply sublist_NoDup; [exact Hnd|]. apply fmap_sublist, sublist_filter.
    + rewrite Forall_forall in Hlt |- *. intros e [_ He]%list_elem_of_filter. by apply Hlt.
  - intros m sv [[<- <-]|[_ Hm]]%lookup_insert_Some; [|by eapply F4]. rewrite En, El, (F4 n st E).
    pose proof (proj1 (erase_element _ _ _ Hnd Hq)). lia.
Qed.

(** From [s] to [s'] the same peers, who know the same blocks, with at most [k]
    more blocks in flight from [nodeid]. *)
Definition follows (nodeid k : Z) (s s' : Peers) : Prop :=
  ∀ n, option_Forall2 (λ st st', nBlocksInFlight st' <= nBlocksInFlight st + (if decide (n = nodeid) then k else 0) ∧
    pindexBestKnownBlock st' = pindexBestKnownBlock st ∧ pindexLastCommonBlock st' = pindexLastCommonBlock st)
    (State s n) (State s' n).

Lemma follows_refl nodeid s : follows nodeid 0 s s.
Proof. intros n. destruct (State s n); constructor. split_and!; try done. repeat case_decide; lia. Qed.

Lemma follows_trans nodeid k1 k2 s1 s2 s3 :
  follows nodeid k1 s1 s2 → follows nodeid k2 s2 s3 → follows nodeid (k1 + k2) s1 s3.
Proof.
  intros H1 H2 n. specialize (H1 n). specialize (H2 n). destruct H1 as [a b (A1 & A2 & A3)|]; inversion H2 as [? c (B1 & B2 & B3)|]; subst;
    constructor. split_and!; [repeat case_decide; lia|congruence..].
Qed.

Lemma follows_insert nodeid k s s' n st st' :
  State s n = Some st → mapNodeState s' = <[n := st']> (mapNodeState s) → 0 <= k →
  nBlocksInFlight st' <= nBlocksInFlight st + (if decide (n = nodeid) then k else 0) →
  pindexBestKnownBlock st' = pindexBestKnownBlock st → pindexLastCommonBlock st' = pindexLastCommonBlock st →
  follows nodeid k s s'.
Proof.
  intros E E' Hk H1 H2 H3 m. unfold State in *. rewrite E'. destruct (decide (m = n)) as [->|Hm].
  - rewrite lookup_insert_eq, E. by constructor.
  - rewrite lookup_insert_ne by done. destruct (_ !! m); constructor. split_and!; try done. repeat case_decide; lia.
Qed.

Lemma follows_some nodeid k s s' n st :
  follows nodeid k s s' → State s n = Some st → ∃ st', State s' n = Some st' ∧
    nBlocksInFlight st' <= nBlocksInFlight st + (if decide (n = nodeid) then k else 0) ∧
    pindexBestKnownBlock st' = pindexBestKnownBlock st ∧ pindexLastCommonBlock st' = pindexLastCommonBlock st.
Proof. intros H E. specialize (H n). rewrite E in H. inversion H as [? c Hc|]; subst. by exists c. Qed.

Lemma MarkBlockAsReceived_ok lost s hash :
  peers_ok lost s →
  ∃ s', MarkBlockAsReceived s hash = Ok s' ∧ peers_ok lost s' ∧ mapBlocksInFlight s' = delete hash (mapBlocksInFlight s) ∧
    next_element s' = next_element s ∧ ∀ nodeid, follows nodeid 0 s s'.
Proof.
  intros [P1 P2 P3 P4 P5]. unfold MarkBlockAsReceived. destruct (mapBlocksInFlight s !! hash) as [[n it]|] eqn:E.
  2: { exists s. rewrite delete_id by done. split_and!; try done. intros nodeid. apply follows_refl. }
  destruct (fl_element _ _ _ P1 hash n it E) as (st & q & Es & Hq & Hh). destruct (fl_distinct _ _ _ P1 n st Es) as [Hnd _].
  pose proof (fl_count _ _ _ P1 n st Es) as Hc. pose proof (P2 n st Es) as Hl. unfold MAX_BLOCKS_IN_TRANSIT_PER_PEER in Hl.
  unfold deref_state, State. rewrite Es. cbn [rbind]. rewrite (deref_element_spec _ _ _ Hnd Hq). cbn [rbind].
  destruct (erase_element _ _ _ Hnd Hq) as [Hlen Hval].
  rewrite (swrap_small 32 (nBlocksInFlight st - 1)) by (unfold in_sw; lia).
  set (st' := set_flight 0 _ (nBlocksInFlight st - 1) st). eexists. split; [done|].
  split; [split|]; cbn [mapNodeState mapBlocksInFlight nQueuedValidatedHeaders nSyncStarted nPreferredDownload next_element set_state].
  - by apply (flight_ok_erase _ _ _ hash n it st).
  - intros m su [[<- <-]|[_ Hm]]%lookup_insert_Some; [cbn; unfold MAX_BLOCKS_IN_TRANSIT_PER_PEER; lia|by eapply P2].
  - rewrite P3, total_insert, (total_delete _ _ n st Es). unfold validated at 1 3. cbn [st' set_flight vBlocksInFlight].
    rewrite Hval. rewrite <- Z.add_opp_r, s32_add. f_equal. lia.
  - by rewrite P4, total_insert, (total_delete _ _ n st Es).
  - by rewrite P5, total_insert, (total_delete _ _ n st Es).
  - split; [done|]. split; [done|]. intros nodeid. eapply follows_insert; [exact Es|done|done| |done|done].
    cbn. repeat case_decide; lia.
Qed.

Lemma MarkBlockAsInFlight_ok lost micros s nodeid hash pindex st :
  peers_ok lost s → State s nodeid = Some st → nBlocksInFlight st < MAX_BLOCKS_IN_TRANSIT_PER_PEER →
  ∃ s', MarkBlockAsInFlight micros s nodeid hash pindex = Ok s' ∧ peers_ok lost s' ∧
    mapBlocksInFlight s' = <[hash := (nodeid, next_element s)]> (mapBlocksInFlight s) ∧ follows nodeid 1 s s'.
Proof.
  intros P Es Hlt. unfold MarkBlockAsInFlight, assert_state. rewrite Es. cbn [rbind].
  destruct (MarkBlockAsReceived_ok lost s hash P) as (s1 & -> & [P1 P2 P3 P4 P5] & Ef & En & Hst). cbn [rbind].
  destruct (follows_some _ _ _ _ _ _ (Hst nodeid) Es) as (st1 & Es1 & Hle & _). rewrite decide_True in Hle by done. unfold deref_state. rewrite Es1. cbn [rbind].
  unfold State in Es1. pose proof (fl_count _ _ _ P1 nodeid st1 Es1) as Hc. unfold MAX_BLOCKS_IN_TRANSIT_PER_PEER in Hlt.
  rewrite (swrap_small 32 (nBlocksInFlight st1 + 1)) by (unfold in_sw; lia).
  set (q := mkQueued _ _ _ _ _). set (st2 := set_flight (nStallingSince st1) _ _ st1). eexists. split; [done|].
  destruct (fl_distinct _ _ _ P1 nodeid st1 Es1) as [Hnd Hfresh].
  split; [split|]; cbn [mapNodeState mapBlocksInFlight nQueuedValidatedHeaders nSyncStarted nPreferredDownload next_element set_state].
  - split.
    + intros h n it [[<- [= <- <-]]|[Hh Hm]]%lookup_insert_Some.
      * exists st2, q. rewrite lookup_insert_eq. split; [done|]. split; [|done]. cbn. set_solver.
      * destruct (fl_element _ _ _ P1 h n it Hm) as (su & q' & Eu & Hq' & Hq). destruct (decide (n = nodeid)) as [->|Hn].
        -- exists st2, q'. rewrite lookup_insert_eq. simplify_eq. split; [done|]. split; [|done]. cbn. set_solver.
        -- exists su, q'. by rewrite lookup_insert_ne.
    + assert (∀ n su it q', mapNodeState s1 !! n = Some su → (it, q') ∈ vBlocksInFlight su →
        <[hash := (nodeid, next_element s1)]> (mapBlocksInFlight s1) !! q_hash q' = Some (n, it)) as Hold.
      { intros n su it q' Hm Hq'. pose proof (fl_entry _ _ _ P1 n su it q' Hm Hq') as Hf.
        rewrite lookup_insert_ne; [done|]. intros E. rewrite <- E, Ef, lookup_delete_eq in Hf. done. }
      intros n su it q' [[<- <-]|[_ Hm]]%lookup_insert_Some Hq'; [|by eapply Hold]. cbn in Hq'.
      apply elem_of_app in Hq' as [Hq'|Hq'%list_elem_of_singleton]; [by eapply Hold|]. injection Hq' as -> ->.
      by rewrite lookup_insert_eq.
    + intros n su [[<- <-]|[_ Hm]]%lookup_insert_Some.
      * cbn [st2 set_flight vBlocksInFlight]. rewrite fmap_app, Forall_app, Forall_singleton. cbn. split.
        -- apply NoDup_app. split; [done|]. split; [|apply NoDup_singleton]. intros i Hi Hi'%list_elem_of_singleton. subst.
           apply list_elem_of_fmap in Hi as ([i x] & Ei & Hx). rewrite Forall_forall in Hfresh. specialize (Hfresh _ Hx). cbn in *. lia.
        -- split; [|lia]. eapply Forall_impl; [exact Hfresh|]. intros e He. cbn in He. lia.
      * destruct (fl_distinct _ _ _ P1 n su Hm) as [Hn Hf]. split; [done|]. eapply Forall_impl; [exact Hf|]. intros e He. cbn in *. lia.
    + intros n su [[<- <-]|[_ Hm]]%lookup_insert_Some; [|by eapply fl_count]. cbn. rewrite length_app. cbn. lia.
  - intros n su [[<- <-]|[_ Hm]]%lookup_insert_Some; [cbn; unfold MAX_BLOCKS_IN_TRANSIT_PER_PEER; lia|by eapply P2].
  - rewrite P3, total_insert, (total_delete _ _ nodeid st1 Es1). unfold validated at 1 3. cbn [st2 set_flight vBlocksInFlight].
    rewrite filter_app, length_app, s32_add. f_equal. destruct pindex; [rewrite filter_cons_True by done|rewrite filter_cons_False by done]; cbn; lia.
  - by rewrite P4, total_insert, (total_delete _ _ nodeid st1 Es1).
  - by rewrite P5, total_insert, (total_delete _ _ nodeid st1 Es1).
  - split; [by rewrite Ef, insert_delete_eq, En|]. apply (follows_trans nodeid 0 1 s s1); [apply Hst|].
    eapply follows_insert; [exact Es1|done|done| |done|done]. rewrite decide_True by done. cbn. lia.
Qed.

(** ** SendMessages and the histories of the peers *)

(** Every pointer a peer's state holds is to a known block. *)
Definition pointers_ok (t : ChainState) (s : Peers) : Prop := ∀ n st, State s n = Some st → node_known t st.

Lemma follows_pointers t nodeid k s s' : follows nodeid k s s' → pointers_ok t s → pointers_ok t s'.
Proof.
  intros H P n st' E. specialize (H n). rewrite E in H. inversion H as [st ? (_ & H1 & H2) Es|]; subst.
  destruct (P n st ltac:(done)) as [K1 K2]. split; intros p; [rewrite H1|rewrite H2]; auto.
Qed.

Lemma peers_ok_set lost s n st st' :
  peers_ok lost s → State s n = Some st → vBlocksInFlight st' = vBlocksInFlight st → nBlocksInFlight st' = nBlocksInFlight st →
  fSyncStarted st' = fSyncStarted st → fPreferredDownload st' = fPreferredDownload st →
  peers_ok lost (set_state s n st').
Proof.
  intros P E E1 E2 E3 E4. apply (peers_ok_update lost s n st st'); try done.
  - rewrite E3, (po_sync _ _ P), (total_delete _ _ n st E). by rewrite s32_replace.
  - rewrite E4, (po_preferred _ _ P), (total_delete _ _ n st E). by rewrite s32_replace.
Qed.

Lemma pointers_set t s n st' : pointers_ok t s → node_known t st' → pointers_ok t (set_state s n st').
Proof. intros P H m st. rewrite State_set_state. destruct (decide (m = n)); [intros [= <-]; done|apply P]. Qed.

Lemma start_sync_ok lost nodeid pto adjusted s best_header reindex st :
  peers_ok lost s → State s nodeid = Some st → is_Some best_header →
  ∃ s' sent, start_sync nodeid pto adjusted s best_header reindex = Ok (s', sent) ∧ peers_ok lost s' ∧ follows nodeid 0 s s'.
Proof.
  intros P E [h ->]. unfold start_sync, deref_state. rewrite E. cbn [rbind deref].
  assert (∀ b : bool, ∃ s' (sent : bool), (Ok (s, b) : result ub _) = Ok (s', sent) ∧ peers_ok lost s' ∧ follows nodeid 0 s s') as Hsame
    by (intros b; exists s, b; split_and!; try done; apply follows_refl).
  destruct (negb (fSyncStarted st)) eqn:Ef; cbn [andb]; [|apply Hsame]. apply negb_true_iff in Ef.
  destruct (_ && _ && _); [|apply Hsame].
  assert (∀ b : bool, ∃ s' (sent : bool), (if b then let s := set_state s nodeid (set_sync true st) in
      Ok (mkPeers (mapNodeState s) (mapBlocksInFlight s) (nQueuedValidatedHeaders s) (s32 (nSyncStarted s + 1))
            (nPreferredDownload s) (next_element s), true) else Ok (s, false) : result ub _) = Ok (s', sent) ∧ peers_ok lost s' ∧
    follows nodeid 0 s s') as Hset.
  { intros []; [|apply Hsame]. eexists _, true. split; [done|]. split.
    - apply (peers_ok_update lost s nodeid st); try done; cbn.
      + rewrite Ef. f_equal. cbn. lia.
      + rewrite (po_preferred _ _ P), (total_delete _ _ nodeid st E). by rewrite s32_replace.
    - eapply follows_insert; [exact E|done|done| |done|done]. cbn. repeat case_decide; lia. }
  destruct (nSyncStarted s =? 0); [apply (Hset true)|apply Hset].
Qed.

Lemma request_all_ok lost asked_at nodeid blocks s st :
  peers_ok lost s → State s nodeid = Some st →
  nBlocksInFlight st + Z.of_nat (length blocks) <= MAX_BLOCKS_IN_TRANSIT_PER_PEER →
  ∃ s', request_all asked_at nodeid s blocks = Ok s' ∧ peers_ok lost s' ∧ follows nodeid (Z.of_nat (length blocks)) s s' ∧
    ∀ h, is_Some (mapBlocksInFlight s' !! h) ↔ is_Some (mapBlocksInFlight s !! h) ∨ h ∈ map phashBlock blocks.
Proof.
  revert s st. induction blocks as [|p blocks IH]; intros s st P E Hle; cbn [request_all length map].
  { exists s. split_and!; [done..|apply follows_refl|]. intros h. rewrite elem_of_nil. tauto. }
  cbn [length] in Hle.
  destruct (MarkBlockAsInFlight_ok lost (asked_at (phashBlock p)) s nodeid (phashBlock p) (Some p) st P E ltac:(lia))
    as (s1 & -> & P1 & Ef & Hf). cbn [rbind].
  destruct (follows_some _ _ _ _ _ _ Hf E) as (st1 & E1 & Hn & _). rewrite decide_True in Hn by done.
  destruct (IH s1 st1 P1 E1 ltac:(lia)) as (s' & -> & P' & Hf' & Hd). exists s'. split; [done|]. split; [done|]. split.
  - replace (Z.of_nat (S (length blocks))) with (1 + Z.of_nat (length blocks)) by lia. by eapply follows_trans.
  - intros h. rewrite Hd, Ef, elem_of_cons. destruct (decide (phashBlock p = h)) as [<-|Hh].
    + rewrite lookup_insert_eq. split; [intros _; right; by left|intros _; left; by eexists].
    + rewrite lookup_insert_ne by done. split; [intros [?|?]; auto|]. intros [?|[->|?]]; auto. done.
Qed.

(** Whoever is waited for is a peer. *)
Lemma waiting_peer t nodes flight next l w :
  flight_ok nodes flight next → w = -1 ∨ is_Some (nodes !! w) →
  waiting t flight w l = -1 ∨ is_Some (nodes !! waiting t flight w l).
Proof.
  intros F. revert w. induction l as [|p l IH]; intros w Hw; [done|]. unfold waiting. cbn [foldl]. apply IH.
  unfold asked. destruct (stored t p); [done|]. destruct (flight !! phashBlock p) as [[n it]|] eqn:E; cbn; [|done].
  destruct (w =? -1); [|done]. right. destruct (fl_element _ _ _ F _ _ _ E) as (st & q & Es & _). by exists st.
Qed.

Lemma valid_prefix_subseteq t l : valid_prefix t l ⊆ l.
Proof. induction l as [|y l IH]; cbn; [set_solver|]. destruct (Chain.IsValid _ _); set_solver. Qed.

Lemma download_answer_bounds t tip flight nodeid count st common' blocks staller' nodes next :
  good_tree t tip → node_known t st → flight_ok nodes flight next →
  download_answer t tip flight nodeid count (-1) st common' blocks staller' →
  Z.of_nat (length blocks) <= Z.max 0 count ∧ (staller' = -1 ∨ is_Some (nodes !! staller')) ∧
  (∀ p, common' = Some p → known t p).
Proof.
  intros G Hk F. pose proof (gt_index _ _ G) as Hi. unfold download_answer.
  destruct (pindexBestKnownBlock st) as [best|] eqn:Eb.
  2: { intros (-> & -> & ->). split; [cbn; lia|]. split; [by left|apply Hk]. }
  destruct (work tip <=? work best).
  2: { intros (-> & -> & ->). split; [cbn; lia|]. split; [by left|apply Hk]. }
  intros (start & common & c & _ & Hc & -> & [path0 path Hb Hcom Hst]). split_and!.
  - rewrite Hb. pose proof (length_take_le (filter (wanted t flight (nHeight common + BLOCK_DOWNLOAD_WINDOW)) path) (Z.to_nat count)).
    rewrite length_take. lia.
  - cbn zeta in Hst. pose proof (waiting_peer t nodes flight next path (-1) F ltac:(by left)) as Hw.
    destruct (_ && _) in Hst; [|left; done]. by rewrite Hst.
  - intros p [= <-]. destruct Hcom as (seen & Hp & _ & _ & ->). pose proof (proj1 Hk best Eb) as Hbest.
    pose proof (known_ancestor t best common Hi Hbest ltac:(apply Hc)) as [Hkc _].
    destruct (last (filter (connected t) seen)) as [x|] eqn:El; [|done]. cbn [default id].
    apply last_Some_elem_of, list_elem_of_filter in El as [_ El].
    assert (x ∈ path0) as Hx.
    { eapply valid_prefix_subseteq, elem_of_prefix; [exact El|exact Hp]. }
    apply list_elem_of_lookup in Hx as [k Hx]. pose proof (io_wf _ Hi best Hbest) as Hw.
    destruct (ancestry_wf best common Hw ltac:(apply Hc)) as [_ ?].
    apply (branch_lookup best) in Hx as (_ & Hx & _); [|done|lia|lia]. by apply (known_ancestor t best x).
Qed.

Lemma SendMessages_ok lost params asked_at t tip s nodeid pto adjusted nNow fDisconnect fReindex :
  good_tree t tip → peers_ok lost s → pointers_ok t s → is_Some (State s nodeid) →
  ∃ sent, SendMessages params asked_at t nodeid pto adjusted nNow s fDisconnect fReindex = Ok sent ∧
    peers_ok lost (sn_peers sent) ∧ pointers_ok t (sn_peers sent).
Proof.
  intros G P K [st E]. unfold SendMessages. rewrite (gt_chain _ _ G).
  rewrite Tip_chain_of by (apply (io_wf _ (gt_index _ _ G)), (gt_tip _ _ G)).
  set (best_header := match pindexBestHeader t with Some p => Some p | None => Some tip end).
  assert (is_Some best_header) as Hbest by (unfold best_header; destruct (pindexBestHeader t); by eexists).
  unfold deref_state. rewrite E. cbn [of_ub rbind].
  destruct (start_sync_ok lost nodeid pto adjusted s best_header fReindex st P E Hbest) as (s1 & getblocks & -> & P1 & F1).
  cbn [of_ub rbind]. destruct (follows_some _ _ _ _ _ _ F1 E) as (st1 & E1 & _). rewrite E1. cbn [of_ub rbind].
  pose proof (follows_pointers t nodeid 0 s s1 F1 K) as K1.
  destruct (_ && _ && _ && _) eqn:Ego; [|eexists; split; [done|by split]].
  apply andb_true_iff in Ego as [_ Hn%Z.ltb_lt]. unfold MAX_BLOCKS_IN_TRANSIT_PER_PEER in *.
  pose proof (fl_count _ _ _ (po_flight _ _ P1) nodeid st1 E1) as Hc.
  rewrite (wrap_small 32) by (unfold in_uw; lia).
  destruct (FindNextBlocksToDownload_spec t tip s1 nodeid (256 - nBlocksInFlight st1) (-1) st1 G ltac:(lia) E1 (K1 nodeid st1 E1))
    as (st2 & _ & K2 & Hst2 & common' & blocks & staller & -> & Ha). cbn [rbind].
  destruct (download_answer_bounds t tip _ _ _ _ _ _ _ (mapNodeState s1) (next_element s1) G K2 (po_flight _ _ P1) Ha) as (Hlen & Hstall & Hcom).
  set (st3 := set_common common' st2). set (s2 := set_state s1 nodeid st3).
  assert (vBlocksInFlight st3 = vBlocksInFlight st1 ∧ nBlocksInFlight st3 = nBlocksInFlight st1 ∧
    fSyncStarted st3 = fSyncStarted st1 ∧ fPreferredDownload st3 = fPreferredDownload st1) as (V1 & V2 & V3 & V4)
    by (destruct Hst2 as [->|(b & h & ->)]; done).
  assert (peers_ok lost s2) as P2 by (by apply (peers_ok_set lost s1 nodeid st1)).
  assert (pointers_ok t s2) as K3 by (apply pointers_set; [done|]; split; [apply K2|done]).
  assert (State s2 nodeid = Some st3) as E2 by (unfold s2; by rewrite State_set_state, decide_True).
  destruct (request_all_ok lost asked_at nodeid blocks s2 st3 P2 E2) as (s3 & -> & P3 & F3 & _);
    [unfold MAX_BLOCKS_IN_TRANSIT_PER_PEER; lia|]. cbn [of_ub rbind].
  pose proof (follows_pointers t nodeid _ s2 s3 F3 K3) as K4.
  destruct (follows_some _ _ _ _ _ _ F3 E2) as (st4 & E4 & _). unfold note_staller, deref_state. rewrite E4. cbn [of_ub rbind].
  destruct (_ && negb (staller =? -1)) eqn:Es; [|eexists; split; [done|by split]].
  apply andb_true_iff in Es as [_ Es]. apply negb_true_iff, Z.eqb_neq in Es. destruct Hstall as [?|[su Hsu]]; [done|].
  assert (is_Some (State s2 staller)) as [su2 Hsu2].
  { unfold s2. rewrite State_set_state. case_decide; [by eexists|by exists su]. }
  destruct (follows_some _ _ _ _ _ _ F3 Hsu2) as (su3 & Hsu3 & _). rewrite Hsu3. cbn [of_ub rbind].
  destruct (nStallingSince su3 =? 0); (eexists; split; [done|]); cbn [sn_peers]; [|by split].
  split; [by apply (peers_ok_set lost s3 staller su3)|]. apply pointers_set; [done|]. destruct (K4 staller su3 Hsu3). by split.
Qed.

(** What a peer's callbacks rely on: they run between InitializeNode and
    FinalizeNode; blocks are never removed from the index. *)
Definition allowed (w : PeerWorld) (e : PeerEvent) : Prop :=
  match e with
  | TellsVersion n _ | TellsVerack n | Disconnects n | Announces n _ | Sends n _ _ _ _ _ => is_Some (State (w_peers w) n)
  | TreeChanges t => (∃ tip, good_tree t tip) ∧ ∀ p, known (w_tree w) p → known t p
  | Connects _ _ | Misbehaves _ _ | BlockArrives _ => True
  end.

(** The validated blocks in flight from a peer that leaves. *)
Definition left_behind (w : PeerWorld) (e : PeerEvent) : Z :=
  match e with
  | Disconnects n => match State (w_peers w) n with Some st => validated st | None => 0 end
  | _ => 0
  end.

Record world_ok (lost : Z) (w : PeerWorld) : Prop := {
  wo_tree : ∃ tip, good_tree (w_tree w) tip;
  wo_peers : peers_ok lost (w_peers w);
  wo_pointers : pointers_ok (w_tree w) (w_peers w);
  wo_orphans : orphans_wf (w_orphans w)
}.

Lemma erase_flight_lookup (l : list (Z * QueuedBlock)) (flight : gmap (list Z) (Z * Z)) h :
  foldl (λ m e, delete (q_hash e.2) m) flight l !! h =
    if decide (h ∈ map (λ e, q_hash e.2) l) then None else flight !! h.
Proof.
  revert flight. induction l as [|e l IH]; intros flight; cbn [foldl map].
  { by rewrite decide_False by (by apply not_elem_of_nil). }
  rewrite IH. destruct (decide (h ∈ map _ l)); [by rewrite decide_True by set_solver|].
  destruct (decide (h = q_hash e.2)) as [->|Hh].
  - by rewrite lookup_delete_eq, decide_True by set_solver.
  - rewrite lookup_delete_ne by done. by rewrite decide_False by set_solver.
Qed.

Lemma FinalizeNode_ok lost s orphans n st :
  peers_ok lost s → orphans_wf orphans → State s n = Some st →
  ∃ s' o' addr, FinalizeNode s orphans n = Ok (s', o', addr) ∧ peers_ok (lost + validated st) s' ∧ orphans_wf o' ∧
    mapNodeState s' = delete n (mapNodeState s).
Proof.
  intros [[F1 F2 F3 F4] P2 P3 P4 P5] W E. unfold FinalizeNode, deref_state. rewrite E. cbn [rbind]. unfold State in E.
  eexists _, _, _. split; [done|]. split; [|split; [|done]].
  2: { pose proof (EraseOrphansFor_spec orphans n W) as H. destruct (EraseOrphansFor orphans n). apply H. }
  assert (∀ h m it, foldl (λ m e, delete (q_hash e.2) m) (mapBlocksInFlight s) (vBlocksInFlight st) !! h = Some (m, it) →
    mapBlocksInFlight s !! h = Some (m, it) ∧ m <> n) as Hback.
  { intros h m it. rewrite erase_flight_lookup. case_decide as Hh; [done|]. intros Hm. split; [done|]. intros ->.
    destruct (F1 h n it Hm) as (su & q & Es & Hq & <-). rewrite E in Es. injection Es as <-. apply Hh.
    change (q_hash q) with ((λ e : Z * QueuedBlock, q_hash e.2) (it, q)). by apply list_elem_of_fmap_2. }
  split; cbn [mapNodeState mapBlocksInFlight nQueuedValidatedHeaders nSyncStarted nPreferredDownload next_element].
  - split.
    + intros h m it Hm. destruct (Hback h m it Hm) as [Hm' Hn]. destruct (F1 h m it Hm') as (su & q & Es & Hq & Hh).
      exists su, q. by rewrite lookup_delete_ne.
    + intros m su it q [Hn Hm]%lookup_delete_Some Hq. pose proof (F2 m su it q Hm Hq) as Hf. rewrite erase_flight_lookup.
      rewrite decide_False; [done|]. intros ([it' q'] & Hh & Hq')%list_elem_of_fmap. cbn in Hh.
      pose proof (F2 n st it' q' E Hq') as Hf'. rewrite <- Hh in Hf'. congruence.
    + intros m su [_ Hm]%lookup_delete_Some. by eapply F3.
    + intros m su [_ Hm]%lookup_delete_Some. by eapply F4.
  - intros m su [_ Hm]%lookup_delete_Some. by eapply P2.
  - rewrite P3, (total_delete _ _ n st E). f_equal. lia.
  - rewrite P4, (total_delete _ _ n st E). destruct (fSyncStarted st); cbn [Z.b2z]; [|f_equal; lia].
    rewrite <- (Z.add_0_r (_ - 1)). rewrite (s32_replace 1 0). f_equal; lia.
  - rewrite P5, (total_delete _ _ n st E). rewrite <- (Z.add_0_r (_ - _)), s32_replace. f_equal; lia.
Qed.

Lemma UpdateBlockAvailability_ok lost t s n hash st :
  index_ok t → peers_ok lost s → pointers_ok t s → State s n = Some st →
  ∃ s', UpdateBlockAvailability t s n hash = Ok s' ∧ peers_ok lost s' ∧ pointers_ok t s'.
Proof.
  intros Hi P K E. unfold UpdateBlockAvailability, assert_state. rewrite E. cbn [rbind].
  destruct (ProcessBlockAvailability_spec t s n st E) as (st1 & -> & H1). cbn [rbind].
  assert (node_known t st1) as K1.
  { destruct H1 as [->|(p & Hp & H1)]; [by apply (K n)|]. eapply refreshed_known; [done|by apply (K n)|done|done]. }
  assert (peers_ok lost (set_state s n st1)) as P1.
  { destruct H1 as [->|(p & Hp & ->)]; by apply (peers_ok_set lost s n st). }
  unfold deref_state. rewrite State_set_state, decide_True by done. cbn [rbind].
  assert (∀ b h, node_known t (set_known b h st1) → ∃ s', (Ok (set_state (set_state s n st1) n (set_known b h st1)) : result ub _) = Ok s' ∧
    peers_ok lost s' ∧ pointers_ok t s') as Hset.
  { intros b h Hb. eexists. split; [done|]. split.
    - apply (peers_ok_set lost (set_state s n st1) n st1); try done. by rewrite State_set_state, decide_True.
    - apply pointers_set; [|done]. by apply pointers_set. }
  destruct (mapBlockIndex t !! hash) as [p|] eqn:Ep; [destruct (op_gt _ _)|]; apply Hset; (split; cbn; [|apply K1]);
    [|apply K1..]. destruct (better_known _ p); [|apply K1]. intros q [= <-]. unfold known. by rewrite (io_hash _ Hi _ _ Ep).
Qed.

Lemma good_tree_header t tip h : good_tree t tip → good_tree (with_best_header t h) tip.
Proof. intros [[I1 I2 I3 I4 I5] G2 G3 G4]. by split. Qed.

Lemma Connects_ok lost t s n addr :
  peers_ok lost s → pointers_ok t s → peers_ok lost (InitializeNode s n addr) ∧ pointers_ok t (InitializeNode s n addr).
Proof.
  intros P K. unfold InitializeNode. destruct (State s n) as [st|] eqn:E; cbn [default id].
  - split; [by apply (peers_ok_set lost s n st)|]. apply pointers_set; [done|]. apply (K n st E).
  - split; [|by apply pointers_set]. destruct P as [P1 P2 P3 P4 P5]. unfold State in E.
    split; cbn [set_state mapNodeState mapBlocksInFlight nQueuedValidatedHeaders nSyncStarted nPreferredDownload next_element].
    + by apply flight_ok_new.
    + intros m su [[<- <-]|[_ Hm]]%lookup_insert_Some; [cbn; unfold MAX_BLOCKS_IN_TRANSIT_PER_PEER; lia|by eapply P2].
    + by rewrite total_insert, total_missing.
    + by rewrite total_insert, total_missing.
    + by rewrite total_insert, total_missing.
Qed.

Section history.
Context (params : CChainParams) (banscore : Z) (asked_at : list Z → Z).

Abbreviation step := (peer_step params banscore asked_at).
Abbreviation run := (peer_run params banscore asked_at).

Lemma peer_step_ok lost w e :
  world_ok lost w → allowed w e → ∃ w', step w e = Ok w' ∧ world_ok (lost + left_behind w e) w'.
Proof.
  intros [[tip G] P K W] A. destruct w as [t s o]. cbn [w_tree w_peers w_orphans] in *.
  destruct e as [n addr|n node|n|n|n howmuch|hash|n hash|t'|n pto adjusted nNow disc reindex];
    cbn [allowed w_peers w_tree] in A; cbn [peer_step left_behind w_peers]; rewrite ?Z.add_0_r.
  - destruct (Connects_ok lost t s n addr P K) as [P' K']. eexists. split; [done|]. by split; [exists tip|..].
  - destruct A as [st E]. unfold UpdatePreferredDownload, deref_state. rewrite E. cbn [of_ub rbind]. eexists. split; [done|].
    set (preferred := (_ || _) && _ && _). split; cbn [w_tree w_peers w_orphans]; [by exists tip| | |done].
    + apply (peers_ok_update lost s n st (set_preferred preferred st)); try done.
      * cbn [set_state nSyncStarted]. rewrite (po_sync _ _ P), (total_delete _ _ n st E). by rewrite s32_replace.
      * cbn. by rewrite s32_add.
    + apply (pointers_set t s n (set_preferred preferred st)); [done|]. apply (K n st E).
  - destruct A as [st E]. unfold deref_state. rewrite E. cbn [of_ub rbind]. eexists. split; [done|].
    split; cbn [w_tree w_peers w_orphans]; [by exists tip|by apply (peers_ok_set lost s n st)| |done].
    apply pointers_set; [done|]. apply (K n st E).
  - destruct A as [st E]. rewrite E. destruct (FinalizeNode_ok lost s o n st P W E) as (s' & o' & addr & -> & P' & W' & Em).
    cbn [of_ub rbind]. eexists. split; [done|]. split; cbn [w_tree w_peers w_orphans]; [by exists tip|done| |done].
    intros m su Hm. unfold State in Hm. rewrite Em in Hm. apply lookup_delete_Some in Hm as [_ Hm]. by apply (K m).
  - eexists. split; [done|]. unfold Misbehaving. destruct (howmuch =? 0); [by split; [exists tip|..]|].
    destruct (State s n) as [st|] eqn:E; [|by split; [exists tip|..]].
    split; cbn [w_tree w_peers w_orphans]; [by exists tip|by apply (peers_ok_set lost s n st)| |done].
    apply pointers_set; [done|]. apply (K n st E).
  - destruct (MarkBlockAsReceived_ok lost s hash P) as (s' & -> & P' & _ & _ & F). cbn [of_ub rbind]. eexists. split; [done|].
    split; [by exists tip|done|by eapply follows_pointers; [apply (F 0)|]|done].
  - destruct A as [st E]. destruct (UpdateBlockAvailability_ok lost t s n hash st (gt_index _ _ G) P K E) as (s' & -> & P' & K').
    cbn [of_ub rbind]. eexists. split; [done|]. by split; [exists tip|..].
  - destruct A as [[tip' G'] Hsub]. eexists. split; [done|]. split; [by exists tip'|done| |done].
    intros m su Hm. destruct (K m su Hm). split; intros p Hp; apply Hsub; auto.
  - destruct (SendMessages_ok lost params asked_at t tip s n pto adjusted nNow disc reindex G P K A) as (sent & -> & P' & K').
    cbn [rbind]. eexists. split; [done|]. split; [exists tip; by apply good_tree_header|done|done|done].
Qed.

(** Every event is allowed when it comes. *)
Fixpoint allowed_run (w : PeerWorld) (es : list PeerEvent) : Prop :=
  match es with
  | [] => True
  | e :: es => allowed w e ∧ ∀ w', step w e = Ok w' → allowed_run w' es
  end.

Fixpoint left_behind_by (w : PeerWorld) (es : list PeerEvent) : Z :=
  match es with
  | [] => 0
  | e :: es => left_behind w e + match step w e with Ok w' => left_behind_by w' es | Throw _ => 0 end
  end.

Lemma peer_run_ok lost w es :
  world_ok lost w → allowed_run w es → ∃ w', run w es = Ok w' ∧ world_ok (lost + left_behind_by w es) w'.
Proof.
  revert lost w. induction es as [|e es IH]; intros lost w Hw Ha; cbn [peer_run left_behind_by].
  { exists w. by rewrite Z.add_0_r. }
  destruct Ha as [Ha Hes]. destruct (peer_step_ok lost w e Hw Ha) as (w1 & E & Hw1). rewrite E. cbn [rbind].
  destruct (IH _ w1 Hw1 (Hes w1 E)) as (w' & E' & Hw'). exists w'. by rewrite Z.add_assoc.
Qed.
End history.

(** C4: in every history in which the callbacks of a peer run while it is there
    and the block index only grows, nothing the code does to its peers is
    undefined and no assertion fails. mapBlocksInFlight and the lists of the peers
    point at each other, no iterator dangles, no peer has more than 256 blocks in
    flight, its counter is the length of its list, the numbers of synchronising
    and of preferred peers are right, the pointers of the peers lead to known
    blocks, and the index of orphans is exact. The exception is
    nQueuedValidatedHeaders: what was in flight from peers that left stays
    counted, even when no peer is left. *)
Theorem peer_bookkeeping_stays_exact params banscore asked_at lost w es :
  world_ok lost w → allowed_run params banscore asked_at w es →
  ∃ w', peer_run params banscore asked_at w es = Ok w' ∧
    let lost' := lost + left_behind_by params banscore asked_at w es in
    world_ok lost' w' ∧
    (mapNodeState (w_peers w') = ∅ → mapBlocksInFlight (w_peers w') = ∅ ∧ nQueuedValidatedHeaders (w_peers w') = s32 lost').
Proof.
  intros Hw Ha. destruct (peer_run_ok params banscore asked_at lost w es Hw Ha) as (w' & E & Hw'). exists w'. split; [done|].
  cbn zeta. split; [done|]. intros He. destruct (wo_peers _ _ Hw') as [P1 P2 P3 P4 P5]. split.
  - apply map_eq. intros h. rewrite lookup_empty. destruct (mapBlocksInFlight (w_peers w') !! h) as [[n it]|] eqn:Eh; [|done].
    destruct (fl_element _ _ _ P1 h n it Eh) as (st & q & Es & _). by rewrite He, lookup_empty in Es.
  - by rewrite P3, He, total_empty.
Qed.

(** C3: FindNextBlocksToDownload, for a peer whose pointers lead to known blocks.
    If the peer's best block has less work than the tip, it asks for nothing.
    Otherwise the blocks it returns are, of the blocks of the peer's branch above
    the last block in common, up to the first invalid one, the first [count] that
    are neither stored nor in flight and lie within 1024 blocks of the common one;
    the batches in which the code reads the branch make no difference. The last
    common block moves to the last connected block passed on the way; the peer
    that stalls is the first one that was asked for a block of the branch, if
    there is nothing to ask for and the block after the window is missing. *)
Theorem next_blocks_to_download t tip s nodeid count staller st :
  good_tree t tip → 0 < count → State s nodeid = Some st → node_known t st →
  ∃ st1 common' vBlocks staller',
    ProcessBlockAvailability t s nodeid = Ok (set_state s nodeid st1) ∧
    FindNextBlocksToDownload t s nodeid count [] staller
      = Ok (set_state s nodeid (set_common common' st1), vBlocks, staller') ∧
    download_answer t tip (mapBlocksInFlight s) nodeid count staller st1 common' vBlocks staller' ∧
    Z.of_nat (length vBlocks) <= count ∧
    ∀ b, b ∈ vBlocks → ∃ best, pindexBestKnownBlock st1 = Some best ∧ b ∈ ancestry best ∧ stored t b = false ∧
      mapBlocksInFlight s !! phashBlock b = None.
Proof.
  intros G Hc E K. destruct (FindNextBlocksToDownload_spec t tip s nodeid count staller st G Hc E K)
    as (st1 & Ep & K1 & _ & common' & vBlocks & staller' & Ef & Ha).
  exists st1, common', vBlocks, staller'. split; [done|]. split; [done|]. split; [done|].
  unfold download_answer in Ha. destruct (pindexBestKnownBlock st1) as [best|] eqn:Eb.
  2: { destruct Ha as (_ & -> & _). split; [cbn; lia|]. by intros b ?%elem_of_nil. }
  destruct (work tip <=? work best); [|destruct Ha as (_ & -> & _); split; [cbn; lia|]; by intros b ?%elem_of_nil].
  destruct Ha as (start & common & c & _ & Hcom & _ & [path0 path Hb _ _]). subst vBlocks. split.
  - rewrite length_take. lia.
  - intros b Hb%list_elem_of_lookup. destruct Hb as [k [Hb _]%lookup_take_Some]. apply list_elem_of_lookup_2 in Hb.
    apply list_elem_of_filter in Hb as [[[Hb1 Hb2] _] Hb]. exists best. split; [done|]. split; [|done].
    apply valid_prefix_subseteq, list_elem_of_lookup in Hb as [j Hb].
    pose proof (io_wf _ (gt_index _ _ G) best (proj1 K1 best Eb)) as Hw.
    destruct (ancestry_wf best common Hw ltac:(apply Hcom)) as [_ ?].
    by apply (branch_lookup best) in Hb as (_ & ? & _); [|done|lia|lia].
Qed.

(** ** A peer that leaves in the middle of the download *)

Lemma ex_tree2_good : good_tree ex_tree2 ex_g.
Proof.
  destruct ex_tree2_ok as [[Hi _ Hc] _]. split; [done|apply (co_chain _ _ _ _ Hc)|apply (co_tip _ _ _ _ Hc)|].
  intros p Hp. apply elem_of_all_blocks in Hp; [|done].
  assert (forallb (λ p, nHeight p <? 2 ^ 30) (all_blocks ex_tree2) = true) as H by (vm_compute; reflexivity).
  apply list_elem_of_In in Hp. rewrite forallb_forall in H. specialize (H p Hp). apply Z.ltb_lt in H. exact H.
Qed.

Definition ex_flags : NodeFlags := mkFlags false false false false.
Definition ex_world : PeerWorld := mkWorld ex_tree2 no_peers no_orphans.
Definition ex_peer_events : list PeerEvent :=
  [Connects 7 (mkService [] 0); TellsVersion 7 ex_flags; Announces 7 (uint256 102); Sends 7 ex_flags 5000 1000000 false false].

Lemma no_peers_ok : peers_ok 0 no_peers.
Proof.
  split; cbn [no_peers mapNodeState mapBlocksInFlight nQueuedValidatedHeaders nSyncStarted nPreferredDownload next_element];
    rewrite ?total_empty; [|by intros n st H; rewrite lookup_empty in H|done..].
  split; intros *; by rewrite lookup_empty.
Qed.

Lemma ex_world_ok : world_ok 0 ex_world.
Proof.
  split; cbn [ex_world w_tree w_peers w_orphans]; [exists ex_g; apply ex_tree2_good|apply no_peers_ok| |apply no_orphans_wf].
  intros n st H. unfold State in H. cbn [no_peers mapNodeState] in H. by rewrite lookup_empty in H.
Qed.

(** [allowed_run], decided for histories in which the index stays. *)
Definition allowed_b (w : PeerWorld) (e : PeerEvent) : bool :=
  match e with
  | TellsVersion n _ | TellsVerack n | Disconnects n | Announces n _ | Sends n _ _ _ _ _ => bool_decide (is_Some (State (w_peers w) n))
  | TreeChanges _ => false
  | Connects _ _ | Misbehaves _ _ | BlockArrives _ => true
  end.

Fixpoint allowed_run_b (w : PeerWorld) (es : list PeerEvent) : bool :=
  match es with
  | [] => true
  | e :: es => allowed_b w e && match peer_step CMainParams 100 (λ _, 0) w e with Ok w' => allowed_run_b w' es | Throw _ => true end
  end.

Lemma allowed_run_b_sound w es : allowed_run_b w es = true → allowed_run CMainParams 100 (λ _, 0) w es.
Proof.
  revert w. induction es as [|e es IH]; intros w; cbn [allowed_run_b allowed_run]; [done|].
  intros [Ha Hs]%andb_true_iff. split; [destruct e; cbn in *; try done; by apply bool_decide_eq_true in Ha|].
  intros w' E. rewrite E in Hs. by apply IH.
Qed.

Definition ex_world1 : PeerWorld :=
  match peer_run CMainParams 100 (λ _, 0) ex_world ex_peer_events with Ok w => w | Throw _ => ex_world end.

(** Both blocks are asked for; then the peer leaves, and two remain counted. *)
Lemma peer_bookkeeping_stays_exact_witness :
  mapBlocksInFlight (w_peers ex_world1) !! uint256 101 = Some (7, 0) ∧
  mapBlocksInFlight (w_peers ex_world1) !! uint256 102 = Some (7, 1) ∧
  ∃ w', peer_run CMainParams 100 (λ _, 0) ex_world1 [Disconnects 7] = Ok w' ∧
    mapNodeState (w_peers w') = ∅ ∧ mapBlocksInFlight (w_peers w') = ∅ ∧ nQueuedValidatedHeaders (w_peers w') = 2.
Proof.
  split; [vm_compute; reflexivity|]. split; [vm_compute; reflexivity|].
  assert (allowed_run_b ex_world ex_peer_events = true) as A by (vm_compute; reflexivity).
  destruct (peer_bookkeeping_stays_exact CMainParams 100 (λ _, 0) 0 ex_world ex_peer_events ex_world_ok
    (allowed_run_b_sound _ _ A)) as (w & E & Hw & _).
  assert (w = ex_world1) as -> by (unfold ex_world1; rewrite E; reflexivity).
  assert (allowed_run_b ex_world1 [Disconnects 7] = true) as A1 by (vm_compute; reflexivity).
  destruct (peer_bookkeeping_stays_exact CMainParams 100 (λ _, 0) _ ex_world1 [Disconnects 7] Hw
    (allowed_run_b_sound _ _ A1)) as (w' & E' & _ & Hempty).
  exists w'. split; [exact E'|].
  assert (mapNodeState (w_peers w') = ∅) as H0.
  { assert (match peer_run CMainParams 100 (λ _, 0) ex_world1 [Disconnects 7] with Ok w => bool_decide (mapNodeState (w_peers w) = ∅) | Throw _ => false end = true)
      as H by (vm_compute; reflexivity).
    rewrite E' in H. by apply bool_decide_eq_true in H. }
  split; [exact H0|]. destruct (Hempty H0) as [H1 H2]. split; [exact H1|]. rewrite H2. vm_compute. reflexivity.
Defined.

(** The same peer, before it is asked. *)
Definition ex_announced : PeerWorld :=
  match peer_run CMainParams 100 (λ _, 0) ex_world (take 3 ex_peer_events) with Ok w => w | Throw _ => ex_world end.

Lemma next_blocks_to_download_witness :
  ∃ st st1 common' staller',
    State (w_peers ex_announced) 7 = Some st ∧
    FindNextBlocksToDownload ex_tree2 (w_peers ex_announced) 7 256 [] (-1)
      = Ok (set_state (w_peers ex_announced) 7 (set_common common' st1), [ex_a; ex_p], staller') ∧
    ∀ b, b ∈ [ex_a; ex_p] → ∃ best, pindexBestKnownBlock st1 = Some best ∧ b ∈ ancestry best ∧ stored ex_tree2 b = false ∧
      mapBlocksInFlight (w_peers ex_announced) !! phashBlock b = None.
Proof.
  assert (allowed_run_b ex_world (take 3 ex_peer_events) = true) as A by (vm_compute; reflexivity).
  destruct (peer_run_ok CMainParams 100 (λ _, 0) 0 ex_world (take 3 ex_peer_events) ex_world_ok (allowed_run_b_sound _ _ A))
    as (w & E & [_ _ K _]).
  assert (w = ex_announced ∧ w_tree w = ex_tree2) as [-> Et].
  { split; [unfold ex_announced; rewrite E; reflexivity|].
    assert (match peer_run CMainParams 100 (λ _, 0) ex_world (take 3 ex_peer_events) with Ok w => Some (w_tree w) | Throw _ => None end = Some ex_tree2)
      as H by (cbn [take ex_peer_events]; vm_compute; reflexivity).
    rewrite E in H. by injection H. }
  rewrite Et in K. destruct (State (w_peers ex_announced) 7) as [st|] eqn:Es.
  2: { assert (bool_decide (State (w_peers ex_announced) 7 = None) = false) as H by (vm_compute; reflexivity).
       by rewrite Es in H. }
  destruct (next_blocks_to_download ex_tree2 ex_g (w_peers ex_announced) 7 256 (-1) st ex_tree2_good eq_refl Es (K 7 st Es))
    as (st1 & common' & vBlocks & staller' & _ & Ef & _ & _ & Hb).
  assert (match FindNextBlocksToDownload ex_tree2 (w_peers ex_announced) 7 256 [] (-1) with Ok (_, l, _) => Some l | Throw _ => None end
    = Some [ex_a; ex_p]) as H by (vm_compute; reflexivity).
  rewrite Ef in H. injection H as ->. exists st, st1, common', staller'. split; [reflexivity|]. split; [exact Ef|exact Hb].
Defined.
