(* ===== verification/Spork.v ===== *)
(** * spork.cpp, spork.h: settings that the holder of a key broadcasts

    A spork is a number that everybody sees change at once: the node keeps the
    newest message that was signed for each of a few identifiers, in memory and in
    a database, and passes it on. Recovering a key from a signature, Argon2 and
    signing are parameters. The messages of obfuscation.cpp that the masternode
    network signs are verified here too. *)

From stdpp Require Import sorting.
From S2P Require Import Prelude Serialize StrEncodings Numbers Hashes Tx SigHash Params.

(** ** Signed messages (CObfuScationSigner, CPubKey::RecoverCompact) *)

Definition strMessageMagic : list Z := str "DarkNet Signed Message:" ++ [10].

(** What CHashWriter hashes for [ss << strMessageMagic << strMessage]. *)
Definition message_hash (strMessage : list Z) : hash256 :=
  Hash (ser f_bytes strMessageMagic ++ ser f_bytes strMessage).

Section signer.
(** secp256k1_ecdsa_recover_compact: the serialized key that the 64 bytes of a
    signature give, compressed or not, with a recovery id. *)
Variable recover_compact : hash256 → list Z → bool → Z → option CPubKey.

Definition RecoverCompact (hash : hash256) (vchSig : list Z) : option CPubKey :=
  if negb (Z.of_nat (length vchSig) =? 65) then None
  else
    let recid := Z.land (getz vchSig 0 - 27) 3 in
    let fComp := negb (Z.land (getz vchSig 0 - 27) 4 =? 0) in
    recover_compact hash (drop 1 vchSig) fComp recid.

Definition VerifyMessage (pubkey : CPubKey) (vchSig strMessage : list Z) : bool :=
  match RecoverCompact (message_hash strMessage) vchSig with
  | None => false
  | Some pubkey2 => bool_decide (pubkey_GetID pubkey2 = pubkey_GetID pubkey)
  end.
End signer.

(** ** The sporks *)

Definition SPORK_START : Z := 10001.
Definition SPORK_END : Z := 10015.
Definition SPORK_5_MAX_VALUE : Z := 10004.
Definition SPORK_7_MASTERNODE_SCANNING : Z := 10006.
Definition SPORK_8_MASTERNODE_PAYMENT_ENFORCEMENT : Z := 10007.
Definition SPORK_9_MASTERNODE_BUDGET_ENFORCEMENT : Z := 10008.
Definition SPORK_10_MASTERNODE_PAY_UPDATED_NODES : Z := 10009.
Definition SPORK_13_ENABLE_SUPERBLOCKS : Z := 10012.
Definition SPORK_15_NEW_PROTOCOL_ENFORCEMENT_2 : Z := 10014.

(** The value of a spork nobody has sent; -1 for an unknown one. *)
Definition spork_default (nSporkID : Z) : Z :=
  if nSporkID =? SPORK_5_MAX_VALUE then 1000
  else if nSporkID =? SPORK_7_MASTERNODE_SCANNING then 978307200
  else if nSporkID =? SPORK_8_MASTERNODE_PAYMENT_ENFORCEMENT then 4070908800
  else if nSporkID =? SPORK_9_MASTERNODE_BUDGET_ENFORCEMENT then 4070908800
  else if nSporkID =? SPORK_10_MASTERNODE_PAY_UPDATED_NODES then 4070908800
  else if nSporkID =? SPORK_13_ENABLE_SUPERBLOCKS then 4070908800
  else if nSporkID =? SPORK_15_NEW_PROTOCOL_ENFORCEMENT_2 then 4070908800
  else -1.

Definition spork_names : list (Z * string) :=
  [(SPORK_5_MAX_VALUE, "SPORK_5_MAX_VALUE"%string);
   (SPORK_7_MASTERNODE_SCANNING, "SPORK_7_MASTERNODE_SCANNING"%string);
   (SPORK_8_MASTERNODE_PAYMENT_ENFORCEMENT, "SPORK_8_MASTERNODE_PAYMENT_ENFORCEMENT"%string);
   (SPORK_9_MASTERNODE_BUDGET_ENFORCEMENT, "SPORK_9_MASTERNODE_BUDGET_ENFORCEMENT"%string);
   (SPORK_10_MASTERNODE_PAY_UPDATED_NODES, "SPORK_10_MASTERNODE_PAY_UPDATED_NODES"%string);
   (SPORK_13_ENABLE_SUPERBLOCKS, "SPORK_13_ENABLE_SUPERBLOCKS"%string);
   (SPORK_15_NEW_PROTOCOL_ENFORCEMENT_2, "SPORK_15_NEW_PROTOCOL_ENFORCEMENT_2"%string)].

Definition GetSporkNameByID (id : Z) : string :=
  match find (λ p, id =? p.1) spork_names with
  | Some p => p.2
  | None => "Unknown"%string
  end.

Definition GetSporkIDByName (strName : string) : Z :=
  match find (λ p, String.eqb strName p.2) spork_names with
  | Some p => p.1
  | None => -1
  end.

Definition spork_known (id : Z) : bool := negb (String.eqb (GetSporkNameByID id) "Unknown").

(** ** CSporkMessage *)

Record CSporkMessage := mkSpork { nSporkID : Z; spork_value : Z; nTimeSigned : Z; spork_sig : list Z }.

#[export] Instance CSporkMessage_eq_dec : EqDecision CSporkMessage.
Proof. solve_decision. Defined.

Definition f_spork : format CSporkMessage :=
  f_struct (f_pair (f_sint 4) (f_pair (f_sint 8) (f_pair (f_sint 8) f_bytes)))
    (λ m, (nSporkID m, (spork_value m, (nTimeSigned m, spork_sig m))))
    (λ p, mkSpork p.1 p.2.1 p.2.2.1 p.2.2.2).

(** [BEGIN(nSporkID)] to [END(nTimeSigned)]: four bytes of padding come after the
    identifier, and nothing sets them. *)
Definition spork_memory (padding : list Z) (m : CSporkMessage) : list Z :=
  le_bytes 4 (u32 (nSporkID m)) ++ padding ++ le_bytes 8 (u64 (spork_value m)) ++ le_bytes 8 (u64 (nTimeSigned m)).

Definition spork_GetHash (argon2m_hash : list Z → hash256) (padding : list Z) (m : CSporkMessage) : hash256 :=
  argon2m_hash (spork_memory padding m).

Definition spork_text (m : CSporkMessage) : list Z :=
  put_d (nSporkID m) ++ put_d (spork_value m) ++ put_d (nTimeSigned m).

(** CTestNetParams and CRegTestParams inherit what they do not set. *)
Definition strSporkKey (network : Network) : list Z :=
  match network with
  | MAIN | UNITTEST =>
      str "04b86d4321e8aa926be7d366057ba41dbad32fdc7e5efa78d284ffc9d45ea63c796d58dc2f9050d9c83006bc7bce31d79f7bc84a59a4472718e245dccfe763b435"
  | TESTNET | REGTEST => str "02ddae409575fcea44f0429b213965ca41091534c9944ad8302ca45d43f53bf4c6"
  end.

Definition strSporkKeyOld : list Z :=
  str "0421783d5f8b38c2f71f10a7e8a4c5df39bfe1d3ca10dd17e5fc76ff5b523ab21e89ae0276aae967d0d7f26c3f34136acdc0a2f41bab19cc262658703f38a3da55".

(** ** The state: the two maps, and the database *)

Record Sporks := mkSporks {
  mapSporks : gmap hash256 CSporkMessage;
  mapSporksActive : gmap Z CSporkMessage;
  spork_db : gmap Z CSporkMessage
}.

Definition no_sporks : Sporks := mkSporks ∅ ∅ ∅.

Definition set_spork (hash : hash256) (m : CSporkMessage) (s : Sporks) : Sporks :=
  mkSporks (<[hash := m]> (mapSporks s)) (<[nSporkID m := m]> (mapSporksActive s)) (spork_db s).

Definition WriteSpork (s : Sporks) (nSporkId : Z) (spork : CSporkMessage) : Sporks :=
  mkSporks (mapSporks s) (mapSporksActive s) (<[nSporkId := spork]> (spork_db s)).

Definition GetSporkValue (s : Sporks) (nSporkID : Z) : Z :=
  match mapSporksActive s !! nSporkID with
  | Some m => spork_value m
  | None => spork_default nSporkID
  end.

(** [time] is GetTime(). *)
Definition IsSporkActive (s : Sporks) (time nSporkID : Z) : bool :=
  let r := GetSporkValue s nSporkID in
  if r =? -1 then false else r <? time.

(** version.h, and main.cpp's ActiveProtocol. *)
Definition MIN_PEER_PROTO_VERSION_BEFORE_ENFORCEMENT : Z := 70912.
Definition MIN_PEER_PROTO_VERSION_AFTER_ENFORCEMENT : Z := 70913.

Definition IsTestnet (network : Network) : bool :=
  match network with TESTNET => true | _ => false end.

Definition ActiveProtocol (network : Network) (s : Sporks) (time : Z) : Z :=
  if IsTestnet network then 70914
  else if IsSporkActive s time SPORK_15_NEW_PROTOCOL_ENFORCEMENT_2 then MIN_PEER_PROTO_VERSION_AFTER_ENFORCEMENT
  else MIN_PEER_PROTO_VERSION_BEFORE_ENFORCEMENT.

(** ** CSporkManager and ProcessSpork *)

(** What a call reads of the node: -litemode, whether there is a tip, GetTime()
    and GetAdjustedTime(), and the padding of the message object. *)
Record SporkEnv := mkSporkEnv {
  fLiteMode : bool;
  has_tip : bool;
  time : Z;
  adjusted : Z;
  padding : list Z
}.

(** What ProcessSpork does besides: the score of the sender, the inventory passed
    on, the messages sent back. *)
Record SporkReply := mkSporkReply { punished : Z; relayed : list hash256; pushed : list CSporkMessage }.
Definition no_reply : SporkReply := mkSporkReply 0 [] [].

(** The order in which a std::map of sporks is walked. *)
Definition id_le (p q : Z * CSporkMessage) : Prop := p.1 <= q.1.
#[export] Instance id_le_dec p q : Decision (id_le p q) := decide (p.1 <= q.1).

Section manager.
Variable network : Network.
Variable argon2m_hash : list Z → hash256.
Variable recover_compact : hash256 → list Z → bool → Z → option CPubKey.

Definition CheckSignature (adjusted : Z) (spork : CSporkMessage) (fCheckSigner : bool) : bool :=
  let strMessage := spork_text spork in
  let pubkeynew := pubkey_Set (ParseHex (strSporkKey network)) in
  let pubkeyold := pubkey_Set (ParseHex strSporkKeyOld) in
  let verify pubkey := VerifyMessage recover_compact pubkey (spork_sig spork) strMessage in
  if fCheckSigner && negb (verify pubkeynew) then false
  else if adjusted <? nRejectOldSporkKey (Params network) then verify pubkeynew || verify pubkeyold
  else verify pubkeynew.

(** The body of [strCommand == "spork"]. *)
Definition process_spork (e : SporkEnv) (s : Sporks) (spork : CSporkMessage) : Sporks * SporkReply :=
  if negb (has_tip e) then (s, no_reply)
  else if negb (spork_known (nSporkID spork)) then (s, no_reply)
  else
    let hash := spork_GetHash argon2m_hash (padding e) spork in
    if (match mapSporksActive s !! nSporkID spork with
        | Some m => nTimeSigned spork <=? nTimeSigned m
        | None => false
        end) then (s, no_reply)
    else if (nEnforceNewSporkKey (Params network) <=? nTimeSigned spork) && negb (CheckSignature (adjusted e) spork true)
    then (s, mkSporkReply 100 [] [])
    else if negb (CheckSignature (adjusted e) spork false) then (s, mkSporkReply 100 [] [])
    else (WriteSpork (set_spork hash spork s) (nSporkID spork) spork, mkSporkReply 0 [hash] []).

(** The message is the rest of the stream; a stream that does not hold a spork
    throws. *)
Definition ProcessSpork (e : SporkEnv) (s : Sporks) (strCommand vRecv : list Z) : result stream_error (Sporks * SporkReply) :=
  if fLiteMode e then Ok (s, no_reply)
  else if bool_decide (strCommand = str "spork") then
    match unser f_spork vRecv with
    | Throw err => Throw err
    | Ok (spork, _) => Ok (process_spork e s spork)
    end
  else if bool_decide (strCommand = str "getsporks") then
    Ok (s, mkSporkReply 0 [] (merge_sort id_le (map_to_list (mapSporksActive s))).*2)
  else Ok (s, no_reply).

(** [ids] are the numbers from SPORK_START to SPORK_END; the objects that the
    database fills have their own padding. *)
Definition load_spork (padding : Z → list Z) (s : Sporks) (i : Z) : Sporks :=
  if negb (spork_known i) then s
  else match spork_db s !! i with
       | None => s
       | Some spork => set_spork (spork_GetHash argon2m_hash (padding i) spork) spork s
       end.

Definition LoadSporksFromDB (padding : Z → list Z) (s : Sporks) : Sporks :=
  foldl (load_spork padding) s (map (λ k, SPORK_START + Z.of_nat k) (seq 0 (Z.to_nat (SPORK_END - SPORK_START + 1)))).

(** A node that stops keeps its database. *)
Definition restart (padding : Z → list Z) (s : Sporks) : Sporks := LoadSporksFromDB padding (mkSporks ∅ ∅ (spork_db s)).

(** SetKey reads a private key, SignCompact signs a hash with it. *)
Variable CKey : Type.
Variable set_key : list Z → option (CKey * CPubKey).
Variable sign_compact : CKey → hash256 → option (list Z).

Definition Sign (strMasterPrivKey : list Z) (spork : CSporkMessage) : CSporkMessage * bool :=
  let strMessage := spork_text spork in
  match set_key strMasterPrivKey with
  | None => (spork, false)
  | Some (key2, pubkey2) =>
      match sign_compact key2 (message_hash strMessage) with
      | None => (spork, false)
      | Some vchSig =>
          (mkSpork (nSporkID spork) (spork_value spork) (nTimeSigned spork) vchSig,
           VerifyMessage recover_compact pubkey2 vchSig strMessage)
      end
  end.

Definition UpdateSpork (e : SporkEnv) (strMasterPrivKey : list Z) (s : Sporks) (nSporkID nValue : Z) : Sporks * bool :=
  let '(msg, signed) := Sign strMasterPrivKey (mkSpork nSporkID nValue (time e) []) in
  if signed then (set_spork (spork_GetHash argon2m_hash (padding e) msg) msg s, true) else (s, false).
End manager.

(** ** Names and identifiers *)

Lemma spork_names_roundtrip id name :
  In (id, name) spork_names ↔ GetSporkNameByID id = name ∧ GetSporkIDByName name = id ∧ name ≠ "Unknown"%string.
Proof.
  split.
  - intros H. cbn in H. by destruct_or?; simplify_eq.
  - intros (E & <- & Hn). unfold GetSporkNameByID in E. revert E. generalize (GetSporkIDByName name). intros id E.
    destruct (find _ _) as [[i n]|] eqn:F; [|by simplify_eq]. apply find_some in F as [F Ei]. cbn in *.
    apply Z.eqb_eq in Ei. by simplify_eq.
Qed.

Lemma spork_known_range id : spork_known id = true → SPORK_START <= id <= SPORK_END.
Proof.
  unfold spork_known, GetSporkNameByID. destruct (find _ _) as [[i n]|] eqn:F; [|done]. intros _.
  apply find_some in F as [F Ei]. cbn in *. apply Z.eqb_eq in Ei. subst.
  unfold SPORK_START, SPORK_END. by destruct_or?; simplify_eq.
Qed.

#[export] Instance f_spork_ok : FormatOk f_spork := _.

(** ** The database *)

Section database.
Variable argon2m_hash : list Z → hash256.

Lemma load_spork_active pad s i :
  (∀ m, spork_db s !! i = Some m → nSporkID m = i) →
  mapSporksActive (load_spork argon2m_hash pad s i) =
    match spork_db s !! i with
    | Some m => if spork_known i then <[i := m]> (mapSporksActive s) else mapSporksActive s
    | None => mapSporksActive s
    end ∧ spork_db (load_spork argon2m_hash pad s i) = spork_db s.
Proof.
  intros H. unfold load_spork. destruct (spork_known i), (spork_db s !! i) as [m|] eqn:E; cbn; try done.
  by rewrite (H m).
Qed.

Lemma load_all_active pad ids s :
  (∀ i m, spork_db s !! i = Some m → nSporkID m = i ∧ spork_known i = true) →
  spork_db (foldl (load_spork argon2m_hash pad) s ids) = spork_db s ∧
  ∀ i, mapSporksActive (foldl (load_spork argon2m_hash pad) s ids) !! i =
       if bool_decide (i ∈ ids) then match spork_db s !! i with Some m => Some m | None => mapSporksActive s !! i end
       else mapSporksActive s !! i.
Proof.
  revert s. induction ids as [|j ids IH]; intros s Hs; [done|]. cbn [foldl].
  destruct (load_spork_active pad s j) as [Ea Ed]; [intros m Hm; by apply Hs|].
  destruct (IH (load_spork argon2m_hash pad s j)) as [IHd IHa]; [by rewrite Ed|]. rewrite IHd, Ed. split; [done|].
  intros i. rewrite IHa, Ed, Ea. destruct (decide (i = j)) as [->|Hij].
  - rewrite (bool_decide_eq_true_2 (j ∈ j :: ids)) by (apply elem_of_cons; by left).
    destruct (spork_db s !! j) as [m|] eqn:E; [|by case_bool_decide].
    destruct (Hs j m E) as [_ ->]. rewrite lookup_insert_eq. by case_bool_decide.
  - rewrite (bool_decide_ext (i ∈ j :: ids) (i ∈ ids)) by (rewrite elem_of_cons; tauto).
    assert (match spork_db s !! j with
            | Some m => if spork_known j then <[j := m]> (mapSporksActive s) else mapSporksActive s
            | None => mapSporksActive s
            end !! i = mapSporksActive s !! i) as ->; [|done].
    destruct (spork_db s !! j) as [m|]; [|done]. destruct (spork_known j); [|done]. by rewrite lookup_insert_ne.
Qed.

Lemma restart_active pad s :
  spork_db s = mapSporksActive s →
  (∀ i m, spork_db s !! i = Some m → nSporkID m = i ∧ spork_known i = true) →
  mapSporksActive (restart argon2m_hash pad s) = mapSporksActive s.
Proof.
  intros Hd Hs. apply map_eq. intros i. unfold restart, LoadSporksFromDB.
  destruct (load_all_active pad (map (λ k, SPORK_START + Z.of_nat k) (seq 0 (Z.to_nat (SPORK_END - SPORK_START + 1))))
              (mkSporks ∅ ∅ (spork_db s)) Hs) as [_ ->]. cbn [mapSporksActive spork_db].
  rewrite lookup_empty, Hd. case_bool_decide as Hi; [by destruct (mapSporksActive s !! i)|].
  destruct (mapSporksActive s !! i) as [m|] eqn:E; [|done]. destruct Hi. rewrite <- Hd in E. destruct (Hs i m E) as [_ K%spork_known_range].
  apply list_elem_of_fmap. exists (Z.to_nat (i - SPORK_START)). rewrite elem_of_seq. unfold SPORK_START, SPORK_END in *. lia.
Qed.
End database.

(** ** The newest signed message rules *)

Section history.
Variable network : Network.
Variable argon2m_hash : list Z → hash256.
Variable recover_compact : hash256 → list Z → bool → Z → option CPubKey.

(** A message as it arrives: what the node is like then, and the message. *)
Definition delivery : Type := SporkEnv * CSporkMessage.

(** The node takes the message if it has none that is at least as new. *)
Definition genuine (d : delivery) : bool :=
  has_tip d.1 && spork_known (nSporkID d.2)
  && (if nEnforceNewSporkKey (Params network) <=? nTimeSigned d.2 then CheckSignature network recover_compact (adjusted d.1) d.2 true
      else true)
  && CheckSignature network recover_compact (adjusted d.1) d.2 false.

Definition deliver (s : Sporks) (d : delivery) : Sporks := (process_spork network argon2m_hash recover_compact d.1 s d.2).1.
Definition deliver_all (s : Sporks) (ds : list delivery) : Sporks := foldl deliver s ds.

Definition newer (s : Sporks) (m : CSporkMessage) : bool :=
  match mapSporksActive s !! nSporkID m with
  | Some m' => nTimeSigned m' <? nTimeSigned m
  | None => true
  end.

Lemma deliver_taken s d :
  deliver s d = if genuine d && newer s d.2
                then WriteSpork (set_spork (spork_GetHash argon2m_hash (padding d.1) d.2) d.2 s) (nSporkID d.2) d.2
                else s.
Proof.
  unfold deliver, process_spork, genuine, newer. destruct (has_tip d.1), (spork_known _); cbn [negb andb]; try done.
  destruct (mapSporksActive s !! _) as [m|]; [rewrite Z.ltb_antisym; destruct (_ <=? nTimeSigned m)|].
  all: destruct (_ <=? nTimeSigned d.2), (CheckSignature network recover_compact (adjusted d.1) d.2 true),
    (CheckSignature network recover_compact (adjusted d.1) d.2 false); done.
Qed.

(** [m] came in [ds], all genuine messages for its spork before it are older, and
    those after it are not newer. *)
Definition first_newest (ds : list delivery) (id : Z) (m : CSporkMessage) : Prop :=
  ∃ before e after, ds = before ++ (e, m) :: after ∧ genuine (e, m) = true ∧ nSporkID m = id ∧
    (∀ d, d ∈ before → genuine d = true → nSporkID d.2 = id → nTimeSigned d.2 < nTimeSigned m) ∧
    (∀ d, d ∈ after → genuine d = true → nSporkID d.2 = id → nTimeSigned d.2 <= nTimeSigned m).

Definition genuine_messages (ds : list delivery) : list CSporkMessage := (filter (λ d, genuine d = true) ds).*2.

Lemma elem_of_genuine_messages ds m : m ∈ genuine_messages ds ↔ ∃ e, (e, m) ∈ ds ∧ genuine (e, m) = true.
Proof.
  unfold genuine_messages. rewrite list_elem_of_fmap. split.
  - intros ([e m'] & -> & [G H]%list_elem_of_filter). by exists e.
  - intros (e & H & G). exists (e, m). by rewrite list_elem_of_filter.
Qed.

Definition absent (ds : list delivery) (id : Z) : Prop := ∀ d, d ∈ ds → genuine d = true → nSporkID d.2 ≠ id.

(** What a history leaves in the maps. *)
Record follows_newest (ds : list delivery) (s : Sporks) : Prop := {
  newest_active : ∀ id m, mapSporksActive s !! id = Some m → first_newest ds id m;
  newest_absent : ∀ id, mapSporksActive s !! id = None → absent ds id;
  newest_stored : spork_db s = mapSporksActive s
}.

Lemma first_newest_snoc_other ds id m d :
  first_newest ds id m → (genuine d = true → nSporkID d.2 = id → nTimeSigned d.2 <= nTimeSigned m) → first_newest (ds ++ [d]) id m.
Proof.
  intros (b & e & a & -> & G & I & Hb & Ha) Hd. exists b, e, (a ++ [d]). rewrite <- app_assoc. split_and!; try done.
  intros d' [?| ->%list_elem_of_singleton]%elem_of_app; [by apply Ha|done].
Qed.

Lemma first_newest_bound ds id m d :
  first_newest ds id m → d ∈ ds → genuine d = true → nSporkID d.2 = id → nTimeSigned d.2 <= nTimeSigned m.
Proof.
  intros (b & e & a & -> & G & I & Hb & Ha) Hd Gd Id.
  apply elem_of_app in Hd as [Hd|[->|Hd]%elem_of_cons]; [by apply Z.lt_le_incl, Hb|done|by apply Ha].
Qed.

Lemma deliver_follows ds s d : follows_newest ds s → follows_newest (ds ++ [d]) (deliver s d).
Proof.
  intros [A N D]. rewrite deliver_taken. destruct (genuine d && newer s d.2) eqn:E.
  - apply andb_true_iff in E as [G Hnew]. split; cbn.
    + intros id m. rewrite lookup_insert_Some. intros [[<- <-]|[Hid Hm]].
      * exists ds, d.1, []. rewrite <- surjective_pairing. split_and!; try done; [|by intros ? ?%elem_of_nil].
        intros d' Hd' G' I'. unfold newer in Hnew. destruct (mapSporksActive s !! nSporkID d.2) as [m|] eqn:Em.
        -- pose proof (first_newest_bound _ _ _ _ (A _ _ Em) Hd' G' I'). lia.
        -- by destruct (N _ Em d').
      * apply first_newest_snoc_other; [by apply A|]. intros _ ?. by subst.
    + intros id [Hm Hid]%lookup_insert_None d' [Hd'| ->%list_elem_of_singleton]%elem_of_app G'; [by apply (N id)|done].
    + by rewrite D.
  - split; [| |done].
    + intros id m Hm. apply first_newest_snoc_other; [by apply A|]. intros G I. rewrite G in E. cbn in E. unfold newer in E.
      rewrite I, Hm in E. lia.
    + intros id Hm d' [Hd'| ->%list_elem_of_singleton]%elem_of_app G'; [by apply (N id)|].
      intros I. rewrite G' in E. cbn in E. unfold newer in E. by rewrite I, Hm in E.
Qed.

Lemma deliver_all_follows ds : follows_newest ds (deliver_all no_sporks ds).
Proof.
  induction ds as [|d ds IH] using rev_ind.
  - split; cbn; [by intros id m ?%lookup_empty_Some|by intros id _ d ?%elem_of_nil|done].
  - unfold deliver_all. rewrite foldl_app. cbn. by apply deliver_follows.
Qed.

(** The messages for a spork of the greatest time. *)
Lemma newest_of ds id m :
  follows_newest ds (deliver_all no_sporks ds) → mapSporksActive (deliver_all no_sporks ds) !! id = Some m →
  (∃ e, (e, m) ∈ ds ∧ genuine (e, m) = true) ∧ nSporkID m = id ∧
  ∀ d, d ∈ ds → genuine d = true → nSporkID d.2 = id → nTimeSigned d.2 <= nTimeSigned m.
Proof.
  intros [A _ _] Hm. pose proof (A _ _ Hm) as H. split_and!.
  - destruct H as (b & e & a & -> & G & I & _). exists e. split; [|done]. rewrite elem_of_app, elem_of_cons. auto.
  - by destruct H as (b & e & a & -> & G & I & _).
  - intros d. by apply (first_newest_bound ds).
Qed.

(** Two nodes that were sent the same genuine messages, whatever else they were
    sent, in whatever order. *)
Lemma same_messages_same_active ds ds' :
  (∀ m, m ∈ genuine_messages ds ↔ m ∈ genuine_messages ds') →
  (∀ m m', m ∈ genuine_messages ds → m' ∈ genuine_messages ds → nSporkID m = nSporkID m' → nTimeSigned m = nTimeSigned m' → m = m') →
  mapSporksActive (deliver_all no_sporks ds') = mapSporksActive (deliver_all no_sporks ds).
Proof.
  intros Hsame Hone. apply map_eq. intros id. pose proof (deliver_all_follows ds) as F. pose proof (deliver_all_follows ds') as F'.
  destruct (mapSporksActive (deliver_all no_sporks ds) !! id) as [m|] eqn:E,
    (mapSporksActive (deliver_all no_sporks ds') !! id) as [m'|] eqn:E'; [| | |done].
  - destruct (newest_of _ _ _ F E) as (He%elem_of_genuine_messages & I & M).
    destruct (newest_of _ _ _ F' E') as (He'%elem_of_genuine_messages & I' & M').
    pose proof (proj2 (Hsame m') He') as H1. pose proof (proj1 (Hsame m) He) as H2.
    apply elem_of_genuine_messages in H1 as Hx1. destruct Hx1 as (e1 & Hin1 & G1).
    apply elem_of_genuine_messages in H2 as Hx2. destruct Hx2 as (e2 & Hin2 & G2).
    f_equal. pose proof (M _ Hin1 G1 I'). pose proof (M' _ Hin2 G2 I). cbn [snd] in *.
    apply (Hone m' m); first [assumption|congruence|lia].
  - destruct (newest_of _ _ _ F E) as (He%elem_of_genuine_messages & I & _).
    apply Hsame, elem_of_genuine_messages in He as (e & He & G). by destruct (newest_absent _ _ F' _ E' _ He G).
  - destruct (newest_of _ _ _ F' E') as (He%elem_of_genuine_messages & I & _).
    apply Hsame, elem_of_genuine_messages in He as (e & He & G). by destruct (newest_absent _ _ F _ E _ He G).
Qed.

Lemma stored_known ds i m : spork_db (deliver_all no_sporks ds) !! i = Some m → nSporkID m = i ∧ spork_known i = true.
Proof.
  pose proof (deliver_all_follows ds) as F. rewrite (newest_stored _ _ F). intros Hm.
  destruct (newest_of _ _ _ F Hm) as ((e & _ & G) & I & _). split; [done|]. subst.
  unfold genuine in G. by apply andb_true_iff in G as [[[_ ?]%andb_true_iff _]%andb_true_iff _].
Qed.
End history.

(** A node that starts without sporks and is sent any messages, forged,
    unknown, repeated or late ones among them. The spork it uses of an identifier
    is the first genuine message of the greatest signing time, the default if none
    came; stopping and loading the database changes no value; and a node that was
    sent the same genuine messages, in another order and at other times, has the
    same values, provided no two of them carry the same identifier and time. *)
Theorem sporks_agree network argon2m_hash recover_compact pad ds ds' :
  let sent := genuine_messages network recover_compact ds in
  (∀ m, m ∈ sent ↔ m ∈ genuine_messages network recover_compact ds') →
  (∀ m m', m ∈ sent → m' ∈ sent → nSporkID m = nSporkID m' → nTimeSigned m = nTimeSigned m' → m = m') →
  let s := deliver_all network argon2m_hash recover_compact no_sporks ds in
  let s' := deliver_all network argon2m_hash recover_compact no_sporks ds' in
  (∀ id, match mapSporksActive s !! id with
         | Some m => first_newest network recover_compact ds id m
         | None => absent network recover_compact ds id ∧ GetSporkValue s id = spork_default id
         end) ∧
  (∀ id, GetSporkValue s' id = GetSporkValue s id) ∧
  (∀ id, GetSporkValue (restart argon2m_hash pad s) id = GetSporkValue s id).
Proof.
  intros sent Hsame Hone s s'. pose proof (deliver_all_follows network argon2m_hash recover_compact ds) as F.
  split_and!; intros id.
  - unfold GetSporkValue. destruct (mapSporksActive s !! id) as [m|] eqn:E; [by apply (newest_active _ _ _ _ F)|].
    split; [by apply (newest_absent _ _ _ _ F)|done].
  - unfold GetSporkValue. assert (mapSporksActive s' = mapSporksActive s) as ->; [by apply (same_messages_same_active network argon2m_hash recover_compact ds ds')|done].
  - unfold GetSporkValue. rewrite restart_active; [done|by apply (newest_stored _ _ _ _ F)|].
    apply stored_known.
Qed.

(** What the holder of the key sets on its own node is not written to the database:
    the next start falls back to what the network sent before. *)
Lemma updated_spork_is_not_stored argon2m_hash recover_compact CKey set_key sign_compact pad e key s id value s' :
  UpdateSpork argon2m_hash recover_compact CKey set_key sign_compact e key s id value = (s', true) →
  (∃ m, mapSporksActive s' !! id = Some m ∧ spork_value m = value) ∧
  restart argon2m_hash pad s' = restart argon2m_hash pad s.
Proof.
  unfold UpdateSpork, Sign. destruct (set_key key) as [[k p]|]; [|done].
  destruct (sign_compact _ _) as [sig|]; [|done]. destruct (VerifyMessage _ _ _ _); [|done].
  intros [= <-]. split; [|done]. cbn. eexists. rewrite lookup_insert_eq. done.
Qed.

(** ** A node in use *)

(** The signatures of the example: those that begin with one are of the new key,
    the others of the old one. *)
Definition ex_recover (_ : hash256) (vchSig : list Z) (_ : bool) (_ : Z) : option CPubKey :=
  Some (pubkey_Set (ParseHex (if getz vchSig 0 =? 1 then strSporkKey MAIN else strSporkKeyOld))).
Definition ex_signed (new : bool) (id value time : Z) : CSporkMessage :=
  mkSpork id value time (31 :: (if new then 1 else 2) :: replicate 63 0).
Definition ex_spork_env (now : Z) : SporkEnv := mkSporkEnv false true now now [0; 0; 0; 0].
(** The budget is enforced, then not; a message of the old key that comes after it
    was given up is refused. *)
Definition ex_enforce : CSporkMessage := ex_signed true SPORK_9_MASTERNODE_BUDGET_ENFORCEMENT 1600000000 1600000100.
Definition ex_relax : CSporkMessage := ex_signed true SPORK_9_MASTERNODE_BUDGET_ENFORCEMENT 4070908800 1600000200.
Definition ex_old : CSporkMessage := ex_signed false SPORK_9_MASTERNODE_BUDGET_ENFORCEMENT 1 1600000300.
Definition ex_deliveries : list delivery :=
  [(ex_spork_env 1600000150, ex_enforce); (ex_spork_env 1600000250, ex_relax); (ex_spork_env 1600000350, ex_old)].
Definition ex_other : list delivery :=
  [(ex_spork_env 1600000400, ex_relax); (ex_spork_env 1600000401, ex_enforce); (ex_spork_env 1600000402, ex_relax)].

Lemma sporks_agree_witness :
  let s := deliver_all MAIN Hash ex_recover no_sporks ex_deliveries in
  let s' := deliver_all MAIN Hash ex_recover no_sporks ex_other in
  mapSporksActive s !! SPORK_9_MASTERNODE_BUDGET_ENFORCEMENT = Some ex_relax ∧
  GetSporkValue s' SPORK_9_MASTERNODE_BUDGET_ENFORCEMENT = GetSporkValue s SPORK_9_MASTERNODE_BUDGET_ENFORCEMENT ∧
  GetSporkValue (restart Hash (λ _, []) s) SPORK_9_MASTERNODE_BUDGET_ENFORCEMENT = GetSporkValue s SPORK_9_MASTERNODE_BUDGET_ENFORCEMENT.
Proof.
  assert (genuine_messages MAIN ex_recover ex_deliveries = [ex_enforce; ex_relax]) as G by (vm_compute; reflexivity).
  assert (genuine_messages MAIN ex_recover ex_other = [ex_relax; ex_enforce; ex_relax]) as G' by (vm_compute; reflexivity).
  destruct (sporks_agree MAIN Hash ex_recover (λ _, []) ex_deliveries ex_other) as (_ & A & B).
  - intros m. rewrite G, G', !elem_of_cons, elem_of_nil. tauto.
  - intros m m'. rewrite G. intros H H'. set_unfold in H. set_unfold in H'. by destruct_or?; subst.
  - intros s s'. split_and!; [vm_compute; reflexivity|apply A|apply B].
Defined.
