(* ===== verification/Payments.v ===== *)
(** * masternode-payments.h, masternode-payments.cpp: who is paid with a block

    Masternodes vote for the payee of a block some blocks ahead; a node counts the
    votes, demands of a block that it pays a payee with six of them, and pays the
    one with the most when it makes a block. The list of masternodes is an argument
    here: [MasternodeView] is what the payments ask of it ([Masternodes] has the
    list itself). *)

From stdpp Require Import sorting.
From S2P Require Import Prelude Serialize StrEncodings Numbers Uint256 Chain Params Reward Hashes Script Standard Tx SigHash Spork.

#[local] Open Scope node_scope.

(** ** The text of a script (script.cpp) *)

Definition op_names : list (Z * string) :=
  [(OP_0, "0"); (OP_PUSHDATA1, "OP_PUSHDATA1"); (OP_PUSHDATA2, "OP_PUSHDATA2"); (OP_PUSHDATA4, "OP_PUSHDATA4");
   (OP_1NEGATE, "-1"); (OP_RESERVED, "OP_RESERVED"); (OP_1, "1"); (OP_2, "2"); (OP_3, "3"); (OP_4, "4");
   (OP_5, "5"); (OP_6, "6"); (OP_7, "7"); (OP_8, "8"); (OP_9, "9"); (OP_10, "10"); (OP_11, "11"); (OP_12, "12");
   (OP_13, "13"); (OP_14, "14"); (OP_15, "15"); (OP_16, "16"); (OP_NOP, "OP_NOP"); (OP_VER, "OP_VER");
   (OP_IF, "OP_IF"); (OP_NOTIF, "OP_NOTIF"); (OP_VERIF, "OP_VERIF"); (OP_VERNOTIF, "OP_VERNOTIF");
   (OP_ELSE, "OP_ELSE"); (OP_ENDIF, "OP_ENDIF"); (OP_VERIFY, "OP_VERIFY"); (OP_RETURN, "OP_RETURN");
   (OP_TOALTSTACK, "OP_TOALTSTACK"); (OP_FROMALTSTACK, "OP_FROMALTSTACK"); (OP_2DROP, "OP_2DROP");
   (OP_2DUP, "OP_2DUP"); (OP_3DUP, "OP_3DUP"); (OP_2OVER, "OP_2OVER"); (OP_2ROT, "OP_2ROT");
   (OP_2SWAP, "OP_2SWAP"); (OP_IFDUP, "OP_IFDUP"); (OP_DEPTH, "OP_DEPTH"); (OP_DROP, "OP_DROP");
   (OP_DUP, "OP_DUP"); (OP_NIP, "OP_NIP"); (OP_OVER, "OP_OVER"); (OP_PICK, "OP_PICK"); (OP_ROLL, "OP_ROLL");
   (OP_ROT, "OP_ROT"); (OP_SWAP, "OP_SWAP"); (OP_TUCK, "OP_TUCK"); (OP_CAT, "OP_CAT"); (OP_SUBSTR, "OP_SUBSTR");
   (OP_LEFT, "OP_LEFT"); (OP_RIGHT, "OP_RIGHT"); (OP_SIZE, "OP_SIZE"); (OP_INVERT, "OP_INVERT");
   (OP_AND, "OP_AND"); (OP_OR, "OP_OR"); (OP_XOR, "OP_XOR"); (OP_EQUAL, "OP_EQUAL");
   (OP_EQUALVERIFY, "OP_EQUALVERIFY"); (OP_RESERVED1, "OP_RESERVED1"); (OP_RESERVED2, "OP_RESERVED2");
   (OP_1ADD, "OP_1ADD"); (OP_1SUB, "OP_1SUB"); (OP_2MUL, "OP_2MUL"); (OP_2DIV, "OP_2DIV");
   (OP_NEGATE, "OP_NEGATE"); (OP_ABS, "OP_ABS"); (OP_NOT, "OP_NOT"); (OP_0NOTEQUAL, "OP_0NOTEQUAL");
   (OP_ADD, "OP_ADD"); (OP_SUB, "OP_SUB"); (OP_MUL, "OP_MUL"); (OP_DIV, "OP_DIV"); (OP_MOD, "OP_MOD");
   (OP_LSHIFT, "OP_LSHIFT"); (OP_RSHIFT, "OP_RSHIFT"); (OP_BOOLAND, "OP_BOOLAND"); (OP_BOOLOR, "OP_BOOLOR");
   (OP_NUMEQUAL, "OP_NUMEQUAL"); (OP_NUMEQUALVERIFY, "OP_NUMEQUALVERIFY"); (OP_NUMNOTEQUAL, "OP_NUMNOTEQUAL");
   (OP_LESSTHAN, "OP_LESSTHAN"); (OP_GREATERTHAN, "OP_GREATERTHAN"); (OP_LESSTHANOREQUAL, "OP_LESSTHANOREQUAL");
   (OP_GREATERTHANOREQUAL, "OP_GREATERTHANOREQUAL"); (OP_MIN, "OP_MIN"); (OP_MAX, "OP_MAX");
   (OP_WITHIN, "OP_WITHIN"); (OP_RIPEMD160, "OP_RIPEMD160"); (OP_SHA1, "OP_SHA1"); (OP_SHA256, "OP_SHA256");
   (OP_HASH160, "OP_HASH160"); (OP_HASH256, "OP_HASH256"); (OP_CODESEPARATOR, "OP_CODESEPARATOR");
   (OP_CHECKSIG, "OP_CHECKSIG"); (OP_CHECKSIGVERIFY, "OP_CHECKSIGVERIFY");
   (OP_CHECKMULTISIG, "OP_CHECKMULTISIG"); (OP_CHECKMULTISIGVERIFY, "OP_CHECKMULTISIGVERIFY");
   (OP_NOP1, "OP_NOP1"); (OP_NOP2, "OP_NOP2"); (OP_NOP3, "OP_NOP3"); (OP_NOP4, "OP_NOP4"); (OP_NOP5, "OP_NOP5");
   (OP_NOP6, "OP_NOP6"); (OP_NOP7, "OP_NOP7"); (OP_NOP8, "OP_NOP8"); (OP_NOP9, "OP_NOP9");
   (OP_NOP10, "OP_NOP10"); (OP_ZEROCOINMINT, "OP_ZEROCOINMINT"); (OP_ZEROCOINSPEND, "OP_ZEROCOINSPEND");
   (OP_INVALIDOPCODE, "OP_INVALIDOPCODE")]%string.

Definition GetOpName (opcode : Z) : list Z :=
  match find (λ p, p.1 =? opcode) op_names with
  | Some p => str p.2
  | None => str "OP_UNKNOWN"
  end.

(** The vector has at most four bytes, so CScriptNum does not throw. *)
Definition ValueString (vch : list Z) : list Z :=
  if Z.of_nat (length vch) <=? 4
  then match CScriptNum vch false with
       | Ok n => put_d (getint n)
       | Throw _ => []
       end
  else HexStr vch false.

(** The text of what [GetOp] gives, the text so far being [s]. *)
Fixpoint script_text (ops : list getop) (s : list Z) : list Z :=
  match ops with
  | [] => s
  | o :: ops =>
      let s := match s with [] => s | _ => s ++ [32] end in
      if negb (op_ok o) then s ++ str "[error]"
      else if op_code o <=? OP_PUSHDATA4 then script_text ops (s ++ ValueString (op_data o))
      else let s := s ++ GetOpName (op_code o) in
           if op_code o =? OP_ZEROCOINSPEND then s else script_text ops s
  end.

Definition script_ToString (script : list Z) : list Z := script_text (ops_of script) [].

Definition ToStringShort (o : COutPoint) : list Z :=
  take 64 (HexStr (rev (out_hash o)) false) ++ 45 :: put_dec (out_n o).

(** ** masternode.cpp: the hash of a block by its height *)

(** The loop, from [BlockReading] on. *)
Fixpoint block_ago (nBlocksAgo : Z) (BlockReading : CBlockIndex) (n : Z) : option hash256 :=
  if 0 <? nHeight BlockReading then
    if nBlocksAgo <=? n then Some (GetBlockHash BlockReading)
    else match pprev BlockReading with
         | None => None
         | Some p => block_ago nBlocksAgo p (n + 1)
         end
  else None.

(** GetBlockHash(hash, nBlockHeight) with mapCacheBlockHashes, which it fills. *)
Definition GetBlockHash_at (tip : option CBlockIndex) (cache : gmap Z hash256) (nBlockHeight : Z)
    : result ub (gmap Z hash256 * option hash256) :=
  match tip with
  | None => Ok (cache, None)
  | Some tip =>
      let nBlockHeight := if nBlockHeight =? 0 then nHeight tip else nBlockHeight in
      match cache !! nBlockHeight with
      | Some hash => Ok (cache, Some hash)
      | None =>
          if (nHeight tip =? 0) || (nHeight tip + 1 <? nBlockHeight) then Ok (cache, None)
          else
            let nBlocksAgo := if 0 <? nBlockHeight then nHeight tip + 1 - nBlockHeight else 0 in
            if nBlocksAgo <? 0 then Throw AssertionFailed
            else match block_ago nBlocksAgo tip 0 with
                 | None => Ok (cache, None)
                 | Some hash => Ok (<[nBlockHeight := hash]> cache, Some hash)
                 end
      end
  end.

(** ** The votes for the payee of one block *)

Definition MNPAYMENTS_SIGNATURES_REQUIRED : Z := 6.
Definition MNPAYMENTS_SIGNATURES_TOTAL : Z := 10.

Record CMasternodePayee := mkPayee { payee_script : list Z; nVotes : Z }.
Record CMasternodeBlockPayees := mkBlockPayees { bp_height : Z; vecPayments : list CMasternodePayee }.

Fixpoint add_payee (payeeIn : list Z) (nIncrement : Z) (l : list CMasternodePayee) : list CMasternodePayee :=
  match l with
  | [] => [mkPayee payeeIn nIncrement]
  | p :: l =>
      if bool_decide (payee_script p = payeeIn) then mkPayee (payee_script p) (s32 (nVotes p + nIncrement)) :: l
      else p :: add_payee payeeIn nIncrement l
  end.

Definition AddPayee (b : CMasternodeBlockPayees) (payeeIn : list Z) (nIncrement : Z) : CMasternodeBlockPayees :=
  mkBlockPayees (bp_height b) (add_payee payeeIn nIncrement (vecPayments b)).

(** The payee so far and its votes. *)
Definition more_votes (r : list Z * Z) (p : CMasternodePayee) : list Z * Z :=
  if r.2 <? nVotes p then (payee_script p, nVotes p) else r.

(** The payee that is passed in stays if no one has votes. *)
Definition GetPayee (b : CMasternodeBlockPayees) (payee : list Z) : list Z * bool :=
  let '(payee, votes) := foldl more_votes (payee, -1) (vecPayments b) in
  (payee, -1 <? votes).

Definition HasPayeeWithVotes (b : CMasternodeBlockPayees) (payee : list Z) (nVotesReq : Z) : bool :=
  existsb (λ p, (nVotesReq <=? nVotes p) && bool_decide (payee_script p = payee)) (vecPayments b).

(** What the payments ask of the list of masternodes and of the protocol: the
    entry of an output, the number of masternodes in three countings, the rank of
    an output at a height among those of a protocol version, the masternode that
    wins without votes. *)
Record MnEntry := mkMnEntry { mn_pubkey : CPubKey; mn_protocol : Z }.
Record MasternodeView := mkMasternodeView {
  mn_Find : COutPoint → option MnEntry;
  mn_size : Z;
  mn_stable_size : Z;
  mn_CountEnabled : Z → Z;
  mn_GetMasternodeRank : COutPoint → Z → Z → Z;
  mn_GetCurrentMasterNode : option CPubKey
}.

Section payees.
Variable params : CChainParams.
Variable mn : MasternodeView.
Variable sporks : Sporks.
Variable time : Z.

Definition max_votes (nMaxSignatures : Z) (p : CMasternodePayee) : Z :=
  if (nMaxSignatures <=? nVotes p) && (MNPAYMENTS_SIGNATURES_REQUIRED <=? nVotes p) then nVotes p else nMaxSignatures.

Definition pays (required : Z) (vout : list CTxOut) (p : CMasternodePayee) : bool :=
  existsb (λ out, bool_decide (payee_script p = scriptPubKey out) && (required <=? nValue out)) vout.

Definition payees_IsTransactionValid (b : CMasternodeBlockPayees) (txNew : CTransaction) : bool :=
  let nReward := GetBlockValue params (bp_height b) in
  let nMasternode_Drift_Count :=
    (if IsSporkActive sporks time SPORK_8_MASTERNODE_PAYMENT_ENFORCEMENT then mn_stable_size mn else mn_size mn)
    + nMasternodeCountDrift params in
  let requiredMasternodePayment := GetMasternodePayment params (bp_height b) nReward nMasternode_Drift_Count in
  let nMaxSignatures := foldl max_votes 0 (vecPayments b) in
  if nMaxSignatures <? MNPAYMENTS_SIGNATURES_REQUIRED then true
  else existsb (λ p, pays requiredMasternodePayment (vout txNew) p && (MNPAYMENTS_SIGNATURES_REQUIRED <=? nVotes p)) (vecPayments b).
End payees.

(** ** CMasternodePaymentWinner *)

Record CMasternodePaymentWinner := mkWinner {
  vinMasternode : CTxIn;
  win_height : Z;
  win_payee : list Z;
  win_sig : list Z
}.

#[export] Instance CMasternodePaymentWinner_eq_dec : EqDecision CMasternodePaymentWinner.
Proof. solve_decision. Defined.

Definition f_winner : format CMasternodePaymentWinner :=
  f_struct (f_pair f_txin (f_pair (f_sint 4) (f_pair f_bytes f_bytes)))
    (λ w, (vinMasternode w, (win_height w, (win_payee w, win_sig w))))
    (λ p, mkWinner p.1 p.2.1 p.2.2.1 p.2.2.2).

Definition winner_GetHash (w : CMasternodePaymentWinner) : hash256 :=
  Hash (ser f_bytes (win_payee w) ++ le_bytes 4 (u32 (win_height w)) ++ ser f_outpoint (prevout (vinMasternode w))).

Definition winner_text (w : CMasternodePaymentWinner) : list Z :=
  ToStringShort (prevout (vinMasternode w)) ++ put_d (win_height w) ++ script_ToString (win_payee w).

(** [outMasternode.hash + outMasternode.n]. *)
Definition vote_key (o : COutPoint) : hash256 := to_bytes (op_add (limbs_of_bytes 8 (out_hash o)) (of_u64 8 (out_n o))).

(** ** CMasternodePayments *)

Record CMasternodePayments := mkPayments {
  mapMasternodePayeeVotes : gmap hash256 CMasternodePaymentWinner;
  mapMasternodeBlocks : gmap Z CMasternodeBlockPayees;
  mapMasternodesLastVote : gmap hash256 Z;
  nLastBlockHeight : Z;
  mapCacheBlockHashes : gmap Z hash256
}.

Definition no_payments : CMasternodePayments := mkPayments ∅ ∅ ∅ 0 ∅.

Definition set_votes (votes : gmap hash256 CMasternodePaymentWinner) (blocks : gmap Z CMasternodeBlockPayees)
    (s : CMasternodePayments) : CMasternodePayments :=
  mkPayments votes blocks (mapMasternodesLastVote s) (nLastBlockHeight s) (mapCacheBlockHashes s).
Definition set_cache (cache : gmap Z hash256) (s : CMasternodePayments) : CMasternodePayments :=
  mkPayments (mapMasternodePayeeVotes s) (mapMasternodeBlocks s) (mapMasternodesLastVote s) (nLastBlockHeight s) cache.
Definition set_last_vote (m : gmap hash256 Z) (s : CMasternodePayments) : CMasternodePayments :=
  mkPayments (mapMasternodePayeeVotes s) (mapMasternodeBlocks s) m (nLastBlockHeight s) (mapCacheBlockHashes s).
Definition set_last_height (h : Z) (s : CMasternodePayments) : CMasternodePayments :=
  mkPayments (mapMasternodePayeeVotes s) (mapMasternodeBlocks s) (mapMasternodesLastVote s) h (mapCacheBlockHashes s).

Definition Clear (s : CMasternodePayments) : CMasternodePayments := set_votes ∅ ∅ s.

(** Whether the masternode may vote for the height, and what is written down. *)
Definition CanVote (s : CMasternodePayments) (outMasternode : COutPoint) (nBlockHeight : Z) : CMasternodePayments * bool :=
  if bool_decide (mapMasternodesLastVote s !! vote_key outMasternode = Some nBlockHeight) then (s, false)
  else (set_last_vote (<[vote_key outMasternode := nBlockHeight]> (mapMasternodesLastVote s)) s, true).

Definition GetBlockPayee (s : CMasternodePayments) (nBlockHeight : Z) (payee : list Z) : list Z * bool :=
  match mapMasternodeBlocks s !! nBlockHeight with
  | Some b => GetPayee b payee
  | None => (payee, false)
  end.

(** Both maps are changed under their locks; the vote is counted after. *)
Definition AddWinningMasternode (tip : option CBlockIndex) (s : CMasternodePayments) (winnerIn : CMasternodePaymentWinner)
    : result ub (CMasternodePayments * bool) :=
  let! (cache, blockHash) := GetBlockHash_at tip (mapCacheBlockHashes s) (win_height winnerIn - 100) in
  let s := set_cache cache s in
  match blockHash with
  | None => Ok (s, false)
  | Some _ =>
      if bool_decide (is_Some (mapMasternodePayeeVotes s !! winner_GetHash winnerIn)) then Ok (s, false)
      else
        let block := default (mkBlockPayees (win_height winnerIn) []) (mapMasternodeBlocks s !! win_height winnerIn) in
        Ok (set_votes (<[winner_GetHash winnerIn := winnerIn]> (mapMasternodePayeeVotes s))
              (<[win_height winnerIn := AddPayee block (win_payee winnerIn) 1]> (mapMasternodeBlocks s)) s, true)
  end.

Definition payments_IsTransactionValid (params : CChainParams) (mn : MasternodeView) (sporks : Sporks) (time : Z)
    (s : CMasternodePayments) (txNew : CTransaction) (nBlockHeight : Z) : bool :=
  match mapMasternodeBlocks s !! nBlockHeight with
  | Some b => payees_IsTransactionValid params mn sporks time b txNew
  | None => true
  end.

(** [int(mnodeman.size() * 1.25)] is exact. *)
Definition payment_limit (mn : MasternodeView) : Z := Z.max (Z.quot (5 * mn_size mn) 4) 1000.

Definition clean_step (nHeight nLimit : Z) (s : CMasternodePayments) (it : hash256 * CMasternodePaymentWinner) : CMasternodePayments :=
  if nLimit <? nHeight - win_height it.2
  then set_votes (delete it.1 (mapMasternodePayeeVotes s)) (delete (win_height it.2) (mapMasternodeBlocks s)) s
  else s.

Definition CleanPaymentList (tip : option CBlockIndex) (mn : MasternodeView) (s : CMasternodePayments) : CMasternodePayments :=
  match tip with
  | None => s
  | Some tip => foldl (clean_step (nHeight tip) (payment_limit mn)) s (map_to_list (mapMasternodePayeeVotes s))
  end.

Definition GetOldestBlock (s : CMasternodePayments) : Z :=
  foldl (λ n h, if h <? n then h else n) 2147483647 (map_to_list (mapMasternodeBlocks s)).*1.
Definition GetNewestBlock (s : CMasternodePayments) : Z :=
  foldl (λ n h, if n <? h then h else n) 0 (map_to_list (mapMasternodeBlocks s)).*1.

(** The heights from the tip to eight ahead. *)
Definition IsScheduled (tip : option CBlockIndex) (s : CMasternodePayments) (mnpayee : list Z) (nNotBlockHeight : Z) : bool :=
  match tip with
  | None => false
  | Some tip =>
      existsb (λ h, negb (h =? nNotBlockHeight)
                    && match mapMasternodeBlocks s !! h with
                       | Some b => let '(payee, found) := GetPayee b [] in found && bool_decide (mnpayee = payee)
                       | None => false
                       end)
        (map (λ k, nHeight tip + Z.of_nat k) (seq 0 9))
  end.

(** ** Votes from the network *)

(** What the handlers read of the node. *)
Record PayEnv := mkPayEnv {
  pe_network : Network;
  pe_lite : bool;
  pe_chain_synced : bool;
  pe_synced : bool;
  pe_tip : option CBlockIndex;
  pe_sporks : Sporks;
  pe_time : Z;
  pe_view : MasternodeView
}.

(** What they do besides: the score of the sender, the masternodes asked for, the
    inventory passed on to all and the one told to masternodeSync. *)
Record PayReply := mkPayReply {
  pr_punished : Z;
  pr_asked : list COutPoint;
  pr_relayed : list hash256;
  pr_added : list hash256
}.
Definition silent : PayReply := mkPayReply 0 [] [] [].

Definition active_protocol (e : PayEnv) : Z := ActiveProtocol (pe_network e) (pe_sporks e) (pe_time e).

Definition GetMinMasternodePaymentsProto (e : PayEnv) : Z :=
  if IsSporkActive (pe_sporks e) (pe_time e) SPORK_10_MASTERNODE_PAY_UPDATED_NODES then active_protocol e
  else MIN_PEER_PROTO_VERSION_BEFORE_ENFORCEMENT.

Section messages.
Variable recover_compact : hash256 → list Z → bool → Z → option CPubKey.

(** Whether the vote may count, and whether the masternode is asked for. *)
Definition winner_IsValid (e : PayEnv) (w : CMasternodePaymentWinner) : bool * bool :=
  match mn_Find (pe_view e) (prevout (vinMasternode w)) with
  | None => (false, true)
  | Some pmn =>
      if mn_protocol pmn <? active_protocol e then (false, false)
      else
        let n := mn_GetMasternodeRank (pe_view e) (prevout (vinMasternode w)) (win_height w - 100) (active_protocol e) in
        (negb (MNPAYMENTS_SIGNATURES_TOTAL <? n), false)
  end.

Definition winner_SignatureValid (e : PayEnv) (w : CMasternodePaymentWinner) : bool :=
  match mn_Find (pe_view e) (prevout (vinMasternode w)) with
  | Some pmn => VerifyMessage recover_compact (mn_pubkey pmn) (win_sig w) (winner_text w)
  | None => false
  end.

(** [nHeight - (mnodeman.CountEnabled() * 1.25)], as an int. *)
Definition first_block (e : PayEnv) (nHeight : Z) : Z := Z.quot (4 * nHeight - 5 * mn_CountEnabled (pe_view e) (-1)) 4.

(** The body of [strCommand == "mnw"]. *)
Definition handle_mnw (e : PayEnv) (nVersion : Z) (s : CMasternodePayments) (winner : CMasternodePaymentWinner)
    : result ub (CMasternodePayments * PayReply) :=
  if nVersion <? active_protocol e then Ok (s, silent)
  else match pe_tip e with
  | None => Ok (s, silent)
  | Some tip =>
      let hash := winner_GetHash winner in
      if bool_decide (is_Some (mapMasternodePayeeVotes s !! hash)) then Ok (s, mkPayReply 0 [] [] [hash])
      else if (win_height winner <? first_block e (nHeight tip)) || (nHeight tip + 20 <? win_height winner) then Ok (s, silent)
      else
        let outpoint := prevout (vinMasternode winner) in
        let '(valid, ask) := winner_IsValid e winner in
        if negb valid then Ok (s, mkPayReply 0 (if ask then [outpoint] else []) [] [])
        else
          let '(s, can) := CanVote s outpoint (win_height winner) in
          if negb can then Ok (s, silent)
          else if negb (winner_SignatureValid e winner)
          then Ok (s, mkPayReply (if pe_synced e then 20 else 0) [outpoint] [] [])
          else
            let! (s, added) := AddWinningMasternode (pe_tip e) s winner in
            Ok (s, if added : bool then mkPayReply 0 [] [hash] [hash] else silent)
  end.

(** The votes that Sync announces to a peer that asked for [nCountNeeded]. *)
Definition sync_votes (e : PayEnv) (s : CMasternodePayments) (nCountNeeded : Z) : list hash256 :=
  match pe_tip e with
  | None => []
  | Some tip =>
      let nCount := Z.quot (5 * mn_CountEnabled (pe_view e) (-1)) 4 in
      let nCountNeeded := if nCount <? nCountNeeded then nCount else nCountNeeded in
      map (λ it, winner_GetHash it.2)
        (filter (λ it, (nHeight tip - nCountNeeded <=? win_height it.2) && (win_height it.2 <=? nHeight tip + 20) = true)
           (map_to_list (mapMasternodePayeeVotes s)))
  end.

(** [fulfilled] is [HasFulfilledRequest("mnget")]; what comes back is the score,
    and the votes if the request is answered. *)
Definition handle_mnget (e : PayEnv) (s : CMasternodePayments) (fulfilled : bool) (nCountNeeded : Z) : Z * option (list hash256) :=
  if match pe_network e with MAIN => fulfilled | _ => false end then (20, None)
  else (0, Some (sync_votes e s nCountNeeded)).

(** ** The vote of a masternode *)

Variable CKey : Type.
Variable sign_compact : CKey → hash256 → option (list Z).

Definition winner_Sign (key : CKey) (pubkey : CPubKey) (w : CMasternodePaymentWinner) : CMasternodePaymentWinner * bool :=
  match sign_compact key (message_hash (winner_text w)) with
  | None => (w, false)
  | Some vchSig =>
      (mkWinner (vinMasternode w) (win_height w) (win_payee w) vchSig, VerifyMessage recover_compact pubkey vchSig (winner_text w))
  end.

(** [masternode] is activeMasternode.vin with the key pair of
    strMasterNodePrivKey, if it is one ([fMasterNode]) and its key can be read;
    [budget_block] is IsBudgetPaymentBlock(nBlockHeight), [next] the collateral key
    of GetNextMasternodeInQueueForPayment(nBlockHeight). The result: whether a vote
    was passed on. *)
Definition ProcessBlock (e : PayEnv) (vin : CTxIn) (fMasterNode : bool) (keys : option (CKey * CPubKey)) (budget_block : bool)
    (next : option CPubKey) (s : CMasternodePayments) (nBlockHeight : Z) : result ub (CMasternodePayments * option hash256) :=
  if negb fMasterNode then Ok (s, None)
  else
    let n := mn_GetMasternodeRank (pe_view e) (prevout vin) (nBlockHeight - 100) (active_protocol e) in
    if n =? -1 then Ok (s, None)
    else if MNPAYMENTS_SIGNATURES_TOTAL <? n then Ok (s, None)
    else if nBlockHeight <=? nLastBlockHeight s then Ok (s, None)
    else
      let newWinner :=
        if budget_block then mkWinner vin 0 [] []
        else match next with
             | Some pubkey => mkWinner vin nBlockHeight (GetScriptForDestination (CKeyID (pubkey_GetID pubkey))) []
             | None => mkWinner vin 0 [] []
             end in
      match keys with
      | None => Ok (s, None)
      | Some (keyMasternode, pubKeyMasternode) =>
          let '(newWinner, signed) := winner_Sign keyMasternode pubKeyMasternode newWinner in
          if negb signed then Ok (s, None)
          else
            let! (s, added) := AddWinningMasternode (pe_tip e) s newWinner in
            Ok (if added : bool then (set_last_height nBlockHeight s, Some (winner_GetHash newWinner)) else (s, None))
      end.
End messages.

(** ** The payment in a new block *)

(** The outputs that a block template ends up with: [n] of them kept, then the
    payment; the output before it pays for it in a proof-of-stake block. *)
Definition take_from_last (vout : list CTxOut) (amount : Z) : option (list CTxOut) :=
  match last vout with
  | None => None
  | Some out => Some (removelast vout ++ [mkTxOut (s64 (nValue out - amount)) (scriptPubKey out) (nRounds out)])
  end.

(** CMasternodePayments::FillBlockPayee. [None]: an output before the first one is
    written. The other outputs of a proof-of-work coinbase are cut off. *)
Definition payments_FillBlockPayee (params : CChainParams) (mn : MasternodeView) (s : CMasternodePayments)
    (tip : option CBlockIndex) (vout : list CTxOut) (fProofOfStake : bool) : option (list CTxOut) :=
  match tip with
  | None => Some vout
  | Some tip =>
      let '(payee, hasPayment) :=
        match GetBlockPayee s (nHeight tip + 1) [] with
        | (payee, true) => (payee, true)
        | (payee, false) =>
            match mn_GetCurrentMasterNode mn with
            | Some pubkey => (GetScriptForDestination (CKeyID (pubkey_GetID pubkey)), true)
            | None => (payee, false)
            end
        end in
      let hasPayment := if nHeight tip <? nLastPOWBlock params then false else hasPayment in
      let blockValue := GetBlockValue params (nHeight tip) in
      let masternodePayment := GetMasternodePayment params (nHeight tip) blockValue 0 in
      if negb hasPayment then Some vout
      else if fProofOfStake then
        match take_from_last vout masternodePayment with
        | None => None
        | Some vout => Some (vout ++ [new_txout masternodePayment payee])
        end
      else
        let first := default null_txout (vout !! 0%nat) in
        let second := default null_txout (vout !! 1%nat) in
        Some [mkTxOut (s64 (blockValue - masternodePayment)) (scriptPubKey first) (nRounds first);
              mkTxOut masternodePayment payee (nRounds second)]
  end.

(** ** Block hashes by height *)

Lemma GetBlockHash_at_total tip cache h : ∃ cache' r, GetBlockHash_at tip cache h = Ok (cache', r).
Proof.
  unfold GetBlockHash_at. destruct tip as [tip|]; [|by eexists _, _].
  set (h' := if h =? 0 then nHeight tip else h). destruct (cache !! h'); [by eexists _, _|].
  destruct ((nHeight tip =? 0) || (nHeight tip + 1 <? h')) eqn:E; [by eexists _, _|].
  destruct (if 0 <? h' then nHeight tip + 1 - h' else 0) as [|k|k] eqn:Ek; [| |exfalso; destruct (0 <? h') eqn:?; lia].
  all: change (_ <? 0) with false; cbv iota; destruct (block_ago _ _ _); by eexists _, _.
Qed.

(** ** Counting votes *)

(** The stored votes for a payee at a height. *)
Definition votes_for (votes : gmap hash256 CMasternodePaymentWinner) (h : Z) (payee : list Z) : Z :=
  Z.of_nat (size (filter (λ it, win_height it.2 = h ∧ win_payee it.2 = payee) votes)).

(** What the lists of payees say about the votes that are stored. *)
Record counted (s : CMasternodePayments) : Prop := {
  cn_hash : ∀ k w, mapMasternodePayeeVotes s !! k = Some w → k = winner_GetHash w;
  cn_height : ∀ h b, mapMasternodeBlocks s !! h = Some b → bp_height b = h;
  cn_distinct : ∀ h b, mapMasternodeBlocks s !! h = Some b → NoDup (map payee_script (vecPayments b));
  cn_votes : ∀ h b p, mapMasternodeBlocks s !! h = Some b → p ∈ vecPayments b →
    nVotes p = s32 (votes_for (mapMasternodePayeeVotes s) h (payee_script p)) ∧
    0 < votes_for (mapMasternodePayeeVotes s) h (payee_script p);
  cn_listed : ∀ k w, mapMasternodePayeeVotes s !! k = Some w →
    ∃ b p, mapMasternodeBlocks s !! win_height w = Some b ∧ p ∈ vecPayments b ∧ payee_script p = win_payee w
}.

Lemma votes_for_insert votes k w h payee :
  votes !! k = None →
  votes_for (<[k := w]> votes) h payee
  = votes_for votes h payee + (if decide (win_height w = h ∧ win_payee w = payee) then 1 else 0).
Proof.
  intros Hk. unfold votes_for. rewrite map_filter_insert. cbn [snd].
  case_decide as D; cbn.
  - rewrite map_size_insert_None; [lia|]. apply map_lookup_filter_None. by left.
  - rewrite delete_id by done. lia.
Qed.

(** Removing votes of other heights changes no count. *)
Lemma votes_for_keep votes votes' h payee :
  (∀ k w, win_height w = h → (votes !! k = Some w ↔ votes' !! k = Some w)) →
  votes_for votes h payee = votes_for votes' h payee.
Proof.
  intros H. unfold votes_for. do 2 f_equal. apply map_eq. intros k. apply option_eq. intros w.
  rewrite !map_lookup_filter_Some. cbn. naive_solver.
Qed.

Lemma elem_of_add_payee p payee n l :
  NoDup (map payee_script l) →
  p ∈ add_payee payee n l ↔
  (p ∈ l ∧ payee_script p ≠ payee) ∨
  (payee_script p = payee ∧ ((∃ v, mkPayee payee v ∈ l ∧ nVotes p = s32 (v + n)) ∨ ((payee ∉ map payee_script l) ∧ nVotes p = n))).
Proof.
  induction l as [|q l IH]; intros ND; cbn [add_payee map].
  - rewrite list_elem_of_singleton, elem_of_nil. split.
    + intros ->. right. split; [done|]. right. split; [apply not_elem_of_nil|done].
    + intros [[[] _]|[<- [(v & []%elem_of_nil & _)|[_ <-]]]]. by destruct p.
  - cbn [map] in ND. apply NoDup_cons in ND as [Hq ND]. destruct q as [sq vq]. cbn [payee_script nVotes] in *.
    case_bool_decide as E; [subst payee|].
    + rewrite !elem_of_cons. split.
      * intros [->|Hp]; [right; split; [done|]; left; exists vq; split; [by apply elem_of_cons; left|done]|].
        left. split; [auto|]. intros E. apply Hq. apply list_elem_of_fmap. by exists p.
      * intros [[[->|Hp] Hn]|[E [(v & Hv & Hn)|[Hn _]]]]; [done|by right| |by destruct Hn; left].
        apply elem_of_cons in Hv as [Hv|Hv].
        -- left. destruct p. cbn in *. by simplify_eq.
        -- exfalso. apply Hq. apply list_elem_of_fmap. by exists (mkPayee sq v).
    + rewrite !elem_of_cons, (IH ND). clear IH. split.
      * intros [->|[[? ?]|[? [(v & ? & ?)|[? ?]]]]]; [left; auto|left; auto| |].
        -- right. split; [done|]. left. exists v. rewrite elem_of_cons. auto.
        -- right. split; [done|]. right. split; [|done]. by intros [?|?].
      * intros [[[->|?] ?]|[? [(v & Hv & Hn)|[Hl ?]]]]; auto.
        -- right. right. split; [done|]. left. exists v. apply elem_of_cons in Hv as [Hv|Hv]; [by simplify_eq|done].
        -- right. right. split; [done|]. right. split; [tauto|done].
Qed.

Lemma add_payee_scripts payee n l :
  NoDup (map payee_script l) →
  NoDup (map payee_script (add_payee payee n l)) ∧
  ∀ x, x ∈ map payee_script (add_payee payee n l) ↔ x = payee ∨ x ∈ map payee_script l.
Proof.
  induction l as [|q l IH]; intros ND; cbn [add_payee map].
  - split; [apply NoDup_singleton|]. intros x. rewrite list_elem_of_singleton, elem_of_nil. tauto.
  - cbn [map] in ND. apply NoDup_cons in ND as [Hq ND]. case_bool_decide as E; cbn [map payee_script].
    + split; [by constructor|]. intros x. rewrite !elem_of_cons, E. tauto.
    + destruct (IH ND) as [ND' S]. split; [constructor; [|done]|].
      * rewrite S. intros [?|?]; [congruence|done].
      * intros x. rewrite !elem_of_cons, S. tauto.
Qed.

Lemma counted_same s s' :
  mapMasternodePayeeVotes s' = mapMasternodePayeeVotes s → mapMasternodeBlocks s' = mapMasternodeBlocks s → counted s → counted s'.
Proof. intros E1 E2 [H1 H2 H3 H4 H5]. split; rewrite ?E1, ?E2; done. Qed.

Lemma no_payments_counted : counted no_payments.
Proof. split; cbn; intros *; by rewrite lookup_empty. Qed.

Lemma votes_for_none s h payee :
  counted s → (∀ b, mapMasternodeBlocks s !! h = Some b → payee ∉ map payee_script (vecPayments b)) →
  votes_for (mapMasternodePayeeVotes s) h payee = 0.
Proof.
  intros C Hn. unfold votes_for. rewrite (proj2 (map_size_empty_iff _)); [done|]. apply map_empty_filter.
  intros k w Hk [Hh Hp]. cbn in *. destruct (cn_listed _ C _ _ Hk) as (b & p & Hb & Hin & Ep). rewrite Hh in Hb.
  apply (Hn b Hb). rewrite <- Hp, <- Ep. apply list_elem_of_fmap. by exists p.
Qed.

Lemma AddWinningMasternode_ok tip s w :
  counted s →
  ∃ s' b, AddWinningMasternode tip s w = Ok (s', b) ∧ counted s' ∧
    mapMasternodePayeeVotes s' = (if b : bool then <[winner_GetHash w := w]> (mapMasternodePayeeVotes s) else mapMasternodePayeeVotes s).
Proof.
  intros C. unfold AddWinningMasternode. destruct (GetBlockHash_at_total tip (mapCacheBlockHashes s) (win_height w - 100)) as (cache & r & ->).
  cbn [rbind]. destruct r as [hash|]; [|eexists _, _; split; [done|]; split; [by apply (counted_same s)|done]].
  case_bool_decide as Hseen; [eexists _, _; split; [done|]; split; [by apply (counted_same s)|done]|].
  eexists _, _; split; [done|]; split; [|done]. cbn in Hseen. apply eq_None_not_Some in Hseen.
  set (block := default (mkBlockPayees (win_height w) []) (mapMasternodeBlocks s !! win_height w)).
  assert (bp_height block = win_height w ∧ NoDup (map payee_script (vecPayments block)) ∧
          ∀ p, p ∈ vecPayments block → ∃ b, mapMasternodeBlocks s !! win_height w = Some b ∧ p ∈ vecPayments b) as (Bh & Bd & Bp).
  { unfold block. destruct (mapMasternodeBlocks s !! win_height w) as [b|] eqn:E; cbn.
    - split_and!; [by apply (cn_height _ C)|by apply (cn_distinct _ C _ _ E)|by eauto].
    - split_and!; [done|constructor|]. by intros p ?%elem_of_nil. }
  assert (∀ h payee, votes_for (<[winner_GetHash w := w]> (mapMasternodePayeeVotes s)) h payee
    = votes_for (mapMasternodePayeeVotes s) h payee + (if decide (win_height w = h ∧ win_payee w = payee) then 1 else 0)) as Hv
    by (intros; by apply votes_for_insert).
  split; cbn [set_votes set_cache mapMasternodePayeeVotes mapMasternodeBlocks].
  - intros k x [[<- <-]|[_ Hx]]%lookup_insert_Some; [done|by apply (cn_hash _ C)].
  - intros h b [[<- <-]|[_ Hb]]%lookup_insert_Some; [done|by apply (cn_height _ C)].
  - intros h b [[<- <-]|[_ Hb]]%lookup_insert_Some; [by apply add_payee_scripts|by apply (cn_distinct _ C h)].
  - intros h b p [[<- <-]|[Hne Hb]]%lookup_insert_Some Hp; rewrite Hv.
    + cbn in Hp. apply elem_of_add_payee in Hp as [[Hp Hn]|[E [(v & Hp & Hn)|[Hp Hn]]]]; [| | |done].
      * destruct (Bp _ Hp) as (b & Hb & Hin). destruct (cn_votes _ C _ _ _ Hb Hin). rewrite decide_False by (intros [? ?]; congruence). rewrite Z.add_0_r. done.
      * rewrite decide_True by done. destruct (Bp _ Hp) as (b & Hb & Hin). destruct (cn_votes _ C _ _ _ Hb Hin) as [Ev Pv].
        cbn in Ev, Pv. rewrite Hn, E, Ev. split; [by apply swrap_add_l|lia].
      * rewrite decide_True by done. rewrite E, votes_for_none; [by rewrite Hn|done|].
        intros b Hb. unfold block in Hp. rewrite Hb in Hp. done.
    + rewrite decide_False by (intros [? ?]; congruence). rewrite Z.add_0_r. by apply (cn_votes _ C _ b).
  - intros k x [[<- <-]|[Hne Hx]]%lookup_insert_Some.
    + destruct (add_payee_scripts (win_payee w) 1 _ Bd) as [_ S]. pose proof (proj2 (S (win_payee w)) (or_introl eq_refl)) as (p & Ep & Hp)%list_elem_of_fmap.
      exists (AddPayee block (win_payee w) 1), p. rewrite lookup_insert_eq. done.
    + destruct (cn_listed _ C _ _ Hx) as (b & p & Hb & Hp & E). destruct (decide (win_height x = win_height w)) as [Eh|Eh].
      * rewrite Eh, lookup_insert_eq. destruct (add_payee_scripts (win_payee w) 1 _ Bd) as [_ S].
        assert (win_payee x ∈ map payee_script (add_payee (win_payee w) 1 (vecPayments block))) as (q & Eq & Hq)%list_elem_of_fmap.
        { apply S. right. unfold block. rewrite <- Eh, Hb. cbn. rewrite <- E. apply list_elem_of_fmap. by exists p. }
        by exists (AddPayee block (win_payee w) 1), q.
      * rewrite lookup_insert_ne by done. by exists b, p.
Qed.

(** ** Cleaning *)

Lemma clean_steps nHeight nLimit l s :
  let old w := nLimit < nHeight - win_height w in
  let s' := foldl (clean_step nHeight nLimit) s l in
  (∀ k w, mapMasternodePayeeVotes s' !! k = Some w ↔
     mapMasternodePayeeVotes s !! k = Some w ∧ ¬ ∃ it, it ∈ l ∧ it.1 = k ∧ old it.2) ∧
  (∀ h b, mapMasternodeBlocks s' !! h = Some b ↔
     mapMasternodeBlocks s !! h = Some b ∧ ¬ ∃ it, it ∈ l ∧ win_height it.2 = h ∧ old it.2).
Proof.
  intros old. revert s. induction l as [|it l IH]; intros s; cbn [foldl].
  - split; intros; split; try tauto; intros H; (split; [done|]); by intros (it & ?%elem_of_nil & _).
  - destruct (IH (clean_step nHeight nLimit s it)) as [IHv IHb]. clear IH.
    assert (∀ (P : hash256 * CMasternodePaymentWinner → Prop), (∃ x, x ∈ it :: l ∧ P x) ↔ P it ∨ ∃ x, x ∈ l ∧ P x) as Hc.
    { intros P. split; [intros (x & [->|Hx]%elem_of_cons & HP); eauto|].
      intros [HP|(x & Hx & HP)]; [exists it|exists x]; (split; [apply elem_of_cons; auto|done]). }
    split; [intros k w; rewrite IHv|intros h b; rewrite IHb]; rewrite Hc; clear Hc IHv IHb; unfold clean_step.
    + destruct (nLimit <? nHeight - win_height it.2) eqn:O; cbn.
      * rewrite lookup_delete_Some. assert (old it.2) by (unfold old; lia). tauto.
      * assert (¬ old it.2) by (unfold old; lia). tauto.
    + destruct (nLimit <? nHeight - win_height it.2) eqn:O; cbn.
      * rewrite lookup_delete_Some. assert (old it.2) by (unfold old; lia). tauto.
      * assert (¬ old it.2) by (unfold old; lia). tauto.
Qed.

(** CleanPaymentList removes the votes for blocks more than the limit below the
    tip, and the lists of these blocks. *)
Lemma CleanPaymentList_spec tip mn s :
  counted s →
  let old h := ∃ t, tip = Some t ∧ payment_limit mn < nHeight t - h in
  let s' := CleanPaymentList tip mn s in
  counted s' ∧
  (∀ k w, mapMasternodePayeeVotes s' !! k = Some w ↔ mapMasternodePayeeVotes s !! k = Some w ∧ ¬ old (win_height w)).
Proof.
  intros C old. unfold CleanPaymentList. destruct tip as [t|].
  2: { split; [done|]. intros k w. split; [|tauto]. intros H. split; [done|]. by intros (t & ? & _). }
  destruct (clean_steps (nHeight t) (payment_limit mn) (map_to_list (mapMasternodePayeeVotes s)) s) as [Sv Sb].
  set (s' := foldl _ s _) in *. cbn zeta in *.
  assert (∀ h, old h ↔ payment_limit mn < nHeight t - h) as Ho.
  { intros h. unfold old. split; [intros (? & [= ->] & ?); done|by eauto]. }
  assert (∀ k w, mapMasternodePayeeVotes s' !! k = Some w ↔ mapMasternodePayeeVotes s !! k = Some w ∧ ¬ old (win_height w)) as Hv.
  { intros k w. rewrite Sv, Ho. split; intros [Hk Hn]; (split; [done|]).
    - intros O. apply Hn. exists (k, w). by rewrite elem_of_map_to_list.
    - intros ([k' w'] & Hin & E & O). cbn in *. subst. apply elem_of_map_to_list in Hin. simplify_eq. done. }
  split; [|done].
  assert (∀ k w b, mapMasternodePayeeVotes s !! k = Some w → mapMasternodeBlocks s' !! win_height w = Some b → ¬ old (win_height w)) as Hb.
  { intros k w b Hk Hb O. apply Sb in Hb as [_ Hn]. apply Hn. exists (k, w). rewrite elem_of_map_to_list. by rewrite <- Ho. }
  assert (∀ h b payee, mapMasternodeBlocks s' !! h = Some b →
            votes_for (mapMasternodePayeeVotes s') h payee = votes_for (mapMasternodePayeeVotes s) h payee) as Hc.
  { intros h b payee H. apply votes_for_keep. intros k w <-. rewrite Hv. split; [tauto|]. intros Hk. split; [done|]. by eapply Hb. }
  split.
  - intros k w [Hk _]%Hv. by apply (cn_hash _ C).
  - intros h b [H _]%Sb. by apply (cn_height _ C).
  - intros h b [H _]%Sb. by apply (cn_distinct _ C h).
  - intros h b p H Hp. rewrite (Hc h b) by done. apply Sb in H as [H _]. by apply (cn_votes _ C h b).
  - intros k w [Hk Hn]%Hv. destruct (cn_listed _ C _ _ Hk) as (b & p & Hb' & Hp & E). exists b, p. split_and!; try done.
    apply Sb. split; [done|]. intros ([k' w'] & _ & Eh & O). cbn in *. apply Hn, Ho. by rewrite <- Eh.
Qed.

(** ** Histories *)

Section history.
Variable recover_compact : hash256 → list Z → bool → Z → option CPubKey.
Variable CKey : Type.
Variable sign_compact : CKey → hash256 → option (list Z).

Inductive pay_event :=
| EvVote (e : PayEnv) (nVersion : Z) (w : CMasternodePaymentWinner)
| EvOwn (e : PayEnv) (vin : CTxIn) (fMasterNode : bool) (keys : option (CKey * CPubKey)) (budget_block : bool)
    (next : option CPubKey) (nBlockHeight : Z)
| EvClean (e : PayEnv)
| EvClear.

Definition pay_step (s : CMasternodePayments) (ev : pay_event) : result ub CMasternodePayments :=
  match ev with
  | EvVote e nVersion w =>
      let! (s, _) := handle_mnw recover_compact e nVersion s w in Ok s
  | EvOwn e vin fMasterNode keys budget_block next nBlockHeight =>
      let! (s, _) := ProcessBlock recover_compact CKey sign_compact e vin fMasterNode keys budget_block next s nBlockHeight in Ok s
  | EvClean e => Ok (CleanPaymentList (pe_tip e) (pe_view e) s)
  | EvClear => Ok (Clear s)
  end.

Fixpoint pay_run (s : CMasternodePayments) (es : list pay_event) : result ub CMasternodePayments :=
  match es with
  | [] => Ok s
  | ev :: es => let! s := pay_step s ev in pay_run s es
  end.

(** A vote that came from the network, or one of the node's own. *)
Definition vouched (ev : pay_event) (w : CMasternodePaymentWinner) : Prop :=
  match ev with
  | EvVote e _ w' =>
      w' = w ∧ ∃ tip pmn, pe_tip e = Some tip ∧ mn_Find (pe_view e) (prevout (vinMasternode w)) = Some pmn ∧
        active_protocol e <= mn_protocol pmn ∧
        mn_GetMasternodeRank (pe_view e) (prevout (vinMasternode w)) (win_height w - 100) (active_protocol e)
          <= MNPAYMENTS_SIGNATURES_TOTAL ∧
        VerifyMessage recover_compact (mn_pubkey pmn) (win_sig w) (winner_text w) = true ∧
        first_block e (nHeight tip) <= win_height w <= nHeight tip + 20
  | EvOwn e vin fMasterNode keys _ _ _ =>
      fMasterNode = true ∧ vinMasternode w = vin ∧ ∃ key pubkey, keys = Some (key, pubkey) ∧
        VerifyMessage recover_compact pubkey (win_sig w) (winner_text w) = true
  | EvClean _ | EvClear => False
  end.

Lemma Clear_counted s : counted (Clear s).
Proof. split; cbn; intros *; by rewrite lookup_empty. Qed.

Lemma CanVote_same s o h s' b :
  CanVote s o h = (s', b) →
  mapMasternodePayeeVotes s' = mapMasternodePayeeVotes s ∧ mapMasternodeBlocks s' = mapMasternodeBlocks s.
Proof. unfold CanVote. case_bool_decide; by intros [= <- <-]. Qed.

Lemma pay_step_ok s ev :
  counted s →
  ∃ s', pay_step s ev = Ok s' ∧ counted s' ∧
    ∀ k w, mapMasternodePayeeVotes s' !! k = Some w → mapMasternodePayeeVotes s !! k = Some w ∨ vouched ev w.
Proof.
  intros C. destruct ev as [e nVersion w|e vin fMasterNode keys budget_block next h|e|]; cbn [pay_step].
  - unfold handle_mnw. destruct (nVersion <? active_protocol e); [by eauto|].
    destruct (pe_tip e) as [tip|] eqn:Et; [|by eauto]. case_bool_decide; [by eauto|].
    destruct ((win_height w <? first_block e (nHeight tip)) || (nHeight tip + 20 <? win_height w)) eqn:Er; [by eauto|].
    apply orb_false_iff in Er as [Er1 Er2]. destruct (winner_IsValid e w) as [valid ask] eqn:Ev. destruct valid; cbn [negb]; [|by eauto].
    destruct (CanVote s _ _) as [s1 can] eqn:Ec. destruct (CanVote_same _ _ _ _ _ Ec) as [Sv Sb].
    assert (counted s1) as C1 by by apply (counted_same s).
    destruct can; cbn [negb]; [|exists s1; rewrite Sv; by eauto].
    destruct (winner_SignatureValid recover_compact e w) eqn:Es; cbn [negb]; [|exists s1; rewrite Sv; by eauto].
    destruct (AddWinningMasternode_ok (Some tip) s1 w C1) as (s2 & b & -> & C2 & E2). cbn [rbind]. exists s2. split; [done|]. split; [done|].
    intros k x. rewrite E2, Sv. destruct b; [|by auto]. intros [[<- <-]|[_ ?]]%lookup_insert_Some; [|by left]. right. cbn.
    split; [done|]. unfold winner_IsValid in Ev. unfold winner_SignatureValid in Es.
    destruct (mn_Find (pe_view e) _) as [pmn|] eqn:Ef; [|done]. exists tip, pmn. destruct (mn_protocol pmn <? active_protocol e) eqn:Ep; [done|].
    injection Ev as Hr _. apply negb_true_iff in Hr. split_and!; try done; lia.
  - unfold ProcessBlock. destruct fMasterNode; cbn [negb]; [|by eauto].
    set (n := mn_GetMasternodeRank _ _ _ _). destruct (n =? -1); [by eauto|].
    destruct (MNPAYMENTS_SIGNATURES_TOTAL <? n); [by eauto|]. destruct (h <=? nLastBlockHeight s); [by eauto|].
    set (w := if budget_block then _ else _). destruct keys as [[key pubkey]|]; [|by eauto].
    destruct (winner_Sign _ _ _ key pubkey w) as [w' signed] eqn:Ew. destruct signed; cbn [negb]; [|by eauto].
    destruct (AddWinningMasternode_ok (pe_tip e) s w' C) as (s2 & b & -> & C2 & E2). cbn [rbind].
    assert (vouched (EvOwn e vin true (Some (key, pubkey)) budget_block next h) w') as Hvouch.
    { unfold winner_Sign in Ew. destruct (sign_compact key _) as [sig|]; [|done]. injection Ew as <- Hs. cbn. split; [done|].
      split; [by unfold w; destruct budget_block, next|]. exists key, pubkey. split; [done|]. exact Hs. }
    destruct b; cbn [rbind].
    + eexists. split; [done|]. split; [by apply (counted_same s2)|]. cbn. rewrite E2.
      intros k x [[<- <-]|[_ ?]]%lookup_insert_Some; [by right|by left].
    + exists s2. rewrite E2. by eauto.
  - eexists. split; [done|]. destruct (CleanPaymentList_spec (pe_tip e) (pe_view e) s C) as [C' Hv]. split; [done|].
    intros k w [? _]%Hv. by left.
  - eexists. split; [done|]. split; [apply Clear_counted|]. cbn. intros k w. by rewrite lookup_empty.
Qed.

Lemma pay_run_ok s es :
  counted s →
  ∃ s', pay_run s es = Ok s' ∧ counted s' ∧
    ∀ k w, mapMasternodePayeeVotes s' !! k = Some w → mapMasternodePayeeVotes s !! k = Some w ∨ ∃ ev, ev ∈ es ∧ vouched ev w.
Proof.
  revert s. induction es as [|ev es IH]; intros s C; cbn [pay_run]; [by eauto|].
  destruct (pay_step_ok s ev C) as (s1 & -> & C1 & H1). cbn [rbind]. destruct (IH s1 C1) as (s2 & -> & C2 & H2).
  exists s2. split; [done|]. split; [done|]. intros k w Hk. destruct (H2 k w Hk) as [Hk1|(ev' & Hin & Hv)].
  - destruct (H1 k w Hk1) as [?|?]; [by left|]. right. exists ev. by rewrite elem_of_cons; auto.
  - right. exists ev'. rewrite elem_of_cons. auto.
Qed.
End history.

(** ** What the votes demand *)

Lemma more_votes_max l r0 :
  let r := foldl more_votes r0 l in
  (∀ q, q ∈ l → nVotes q <= r.2) ∧ r0.2 <= r.2 ∧ (r = r0 ∨ ∃ p, p ∈ l ∧ r = (payee_script p, nVotes p)).
Proof.
  revert r0. induction l as [|p l IH]; intros r0; cbn [foldl].
  - split_and!; [by intros q ?%elem_of_nil|lia|by left].
  - destruct (IH (more_votes r0 p)) as (Hq & Hle & Hr). set (r := foldl more_votes _ l) in *. cbn zeta in *.
    assert (nVotes p <= (more_votes r0 p).2 ∧ r0.2 <= (more_votes r0 p).2 ∧
            (more_votes r0 p = r0 ∨ more_votes r0 p = (payee_script p, nVotes p))) as (B1 & B2 & B3).
    { unfold more_votes. destruct (r0.2 <? nVotes p) eqn:E; cbn; split_and!; auto; lia. }
    split_and!; [|lia|].
    + intros q [->|Hin]%elem_of_cons; [lia|by apply Hq].
    + destruct Hr as [->|(q & Hin & ->)]; [|right; exists q; rewrite elem_of_cons; by auto].
      destruct B3 as [->| ->]; [by left|]. right. exists p. rewrite elem_of_cons. by auto.
Qed.

Lemma max_votes_required l m :
  MNPAYMENTS_SIGNATURES_REQUIRED <= foldl max_votes m l ↔
  MNPAYMENTS_SIGNATURES_REQUIRED <= m ∨ ∃ p, p ∈ l ∧ MNPAYMENTS_SIGNATURES_REQUIRED <= nVotes p.
Proof.
  revert m. induction l as [|p l IH]; intros m; cbn [foldl].
  - split; [by left|]. intros [?|(p & ?%elem_of_nil & _)]; done.
  - rewrite IH. unfold max_votes. split.
    + intros [H|(q & Hq & H)]; [|right; exists q; rewrite elem_of_cons; by auto].
      destruct ((m <=? nVotes p) && (MNPAYMENTS_SIGNATURES_REQUIRED <=? nVotes p)) eqn:E; [|by left].
      right. exists p. rewrite elem_of_cons. split; [by left|lia].
    + intros [H|(q & [->|Hq]%elem_of_cons & H)]; [left|left|right; by exists q].
      * destruct ((m <=? nVotes p) && _) eqn:E; lia.
      * destruct ((m <=? nVotes p) && _) eqn:E; lia.
Qed.

(** What a masternode gets in a block; the number of masternodes plays no part. *)
Definition masternode_payment (params : CChainParams) (h : Z) : Z := GetMasternodePayment params h (GetBlockValue params h) 0.

Lemma GetMasternodePayment_count params h v v' n n' : GetMasternodePayment params h v n = GetMasternodePayment params h v' n'.
Proof. done. Qed.

Definition paid (vout : list CTxOut) (payee : list Z) (amount : Z) : Prop :=
  ∃ out, out ∈ vout ∧ scriptPubKey out = payee ∧ amount <= nValue out.

Lemma pays_iff required vout p : pays required vout p = true ↔ paid vout (payee_script p) required.
Proof.
  unfold pays, paid. rewrite existsb_exists. split.
  - intros (out & Hin%list_elem_of_In & [E%bool_decide_eq_true V]%andb_true_iff). exists out. split_and!; [done|done|lia].
  - intros (out & Hin%list_elem_of_In & E & V). exists out. split; [done|]. rewrite bool_decide_true by done. cbn. lia.
Qed.

Lemma payees_IsTransactionValid_iff params mn sporks time b tx :
  payees_IsTransactionValid params mn sporks time b tx = true ↔
  (∀ p, p ∈ vecPayments b → nVotes p < MNPAYMENTS_SIGNATURES_REQUIRED) ∨
  ∃ p, p ∈ vecPayments b ∧ MNPAYMENTS_SIGNATURES_REQUIRED <= nVotes p ∧
       paid (vout tx) (payee_script p) (masternode_payment params (bp_height b)).
Proof.
  unfold payees_IsTransactionValid. pose proof (max_votes_required (vecPayments b) 0) as M.
  destruct (foldl max_votes 0 (vecPayments b) <? MNPAYMENTS_SIGNATURES_REQUIRED) eqn:E.
  - split; [intros _|done]. left. intros p Hp.
    destruct (Z.lt_ge_cases (nVotes p) MNPAYMENTS_SIGNATURES_REQUIRED); [done|].
    assert (MNPAYMENTS_SIGNATURES_REQUIRED <= foldl max_votes 0 (vecPayments b)) by (apply M; eauto). lia.
  - rewrite existsb_exists. split.
    + intros (p & Hin%list_elem_of_In & [P%pays_iff V]%andb_true_iff). right. exists p. split_and!; [done|lia|done].
    + intros [H|(p & Hin & V & P)].
      * apply Z.ltb_ge, M in E as [E|(p & Hp & V)]; [done|]. specialize (H p Hp). lia.
      * exists p. split; [by apply list_elem_of_In|]. apply andb_true_iff. split; [by apply pays_iff|lia].
Qed.

(** The votes for a payee fit in an int. *)
Definition few_votes (s : CMasternodePayments) : Prop := Z.of_nat (size (mapMasternodePayeeVotes s)) < 2 ^ 31.

Lemma votes_for_le s h payee : votes_for (mapMasternodePayeeVotes s) h payee <= Z.of_nat (size (mapMasternodePayeeVotes s)).
Proof. unfold votes_for. apply inj_le, map_size_filter. Qed.

Lemma counted_votes s h b p :
  counted s → few_votes s → mapMasternodeBlocks s !! h = Some b → p ∈ vecPayments b →
  nVotes p = votes_for (mapMasternodePayeeVotes s) h (payee_script p) ∧ 0 < nVotes p.
Proof.
  intros C F Hb Hp. destruct (cn_votes _ C _ _ _ Hb Hp) as [E P]. pose proof (votes_for_le s h (payee_script p)).
  unfold few_votes in F. rewrite swrap_small in E by (unfold in_sw; lia). lia.
Qed.

(** Whom the votes for a block elect: nobody voted, or the payee has the most. *)
Definition elected (votes : gmap hash256 CMasternodePaymentWinner) (h : Z) (r : list Z * bool) : Prop :=
  match r with
  | (payee, true) => 0 < votes_for votes h payee ∧ ∀ payee', votes_for votes h payee' <= votes_for votes h payee
  | (_, false) => ∀ payee', votes_for votes h payee' = 0
  end.

Lemma votes_for_listed s h b payee :
  counted s → mapMasternodeBlocks s !! h = Some b → 0 < votes_for (mapMasternodePayeeVotes s) h payee →
  ∃ p, p ∈ vecPayments b ∧ payee_script p = payee.
Proof.
  intros C Hb Hv. destruct (decide (payee ∈ map payee_script (vecPayments b))) as [(p & -> & Hp)%list_elem_of_fmap|Hn]; [by exists p|].
  rewrite votes_for_none in Hv; [lia|done|]. intros b' Hb'. by simplify_eq.
Qed.

Lemma GetBlockPayee_elected s h payee0 : counted s → few_votes s → elected (mapMasternodePayeeVotes s) h (GetBlockPayee s h payee0).
Proof.
  intros C F. unfold GetBlockPayee. destruct (mapMasternodeBlocks s !! h) as [b|] eqn:Hb.
  2: { intros payee'. apply votes_for_none; [done|]. by rewrite Hb. }
  unfold GetPayee. destruct (more_votes_max (vecPayments b) (payee0, -1)) as (M & _ & R).
  destruct (foldl more_votes (payee0, -1) (vecPayments b)) as [payee v]. cbn [snd] in *. destruct R as [[= -> ->]|(p & Hp & [= -> ->])].
  - cbn. intros payee'. apply votes_for_none; [done|]. intros b' Hb' (p & _ & Hp)%list_elem_of_fmap. simplify_eq.
    destruct (counted_votes _ _ _ _ C F Hb Hp). specialize (M p Hp). lia.
  - destruct (counted_votes _ _ _ _ C F Hb Hp) as [E P]. rewrite (proj2 (Z.ltb_lt _ _)) by lia. cbn. split; [lia|].
    intros payee'. destruct (Z.lt_ge_cases 0 (votes_for (mapMasternodePayeeVotes s) h payee')) as [Hv|]; [|lia].
    destruct (votes_for_listed _ _ _ _ C Hb Hv) as (q & Hq & <-). destruct (counted_votes _ _ _ _ C F Hb Hq) as [<- _]. rewrite <- E. by apply M.
Qed.

(** What a transaction must pay at a height. *)
Definition payment_demanded (params : CChainParams) (votes : gmap hash256 CMasternodePaymentWinner) (h : Z) (vout : list CTxOut) : Prop :=
  (∃ payee, MNPAYMENTS_SIGNATURES_REQUIRED <= votes_for votes h payee) →
  ∃ payee, MNPAYMENTS_SIGNATURES_REQUIRED <= votes_for votes h payee ∧ paid vout payee (masternode_payment params h).

Lemma payments_IsTransactionValid_iff params mn sporks time s tx h :
  counted s → few_votes s →
  payments_IsTransactionValid params mn sporks time s tx h = true ↔ payment_demanded params (mapMasternodePayeeVotes s) h (vout tx).
Proof.
  intros C F. unfold payments_IsTransactionValid, payment_demanded. destruct (mapMasternodeBlocks s !! h) as [b|] eqn:Hb.
  2: { split; [intros _ (payee & H)|done]. rewrite votes_for_none in H; [done|done|]. by rewrite Hb. }
  rewrite payees_IsTransactionValid_iff, (cn_height _ C _ _ Hb). split.
  - intros [H|(p & Hp & V & P)] (payee & Hv).
    + destruct (votes_for_listed s h b payee C Hb) as (p & Hp & <-); [unfold MNPAYMENTS_SIGNATURES_REQUIRED in *; lia|].
      destruct (counted_votes _ _ _ _ C F Hb Hp) as [E _]. specialize (H p Hp). lia.
    + exists (payee_script p). destruct (counted_votes _ _ _ _ C F Hb Hp) as [<- _]. done.
  - intros H. destruct (decide (Exists (λ p, MNPAYMENTS_SIGNATURES_REQUIRED <= nVotes p) (vecPayments b))) as [(p & Hp & V)%Exists_exists|Hn].
    + right. destruct H as (payee & Hv & P).
      { exists (payee_script p). by destruct (counted_votes _ _ _ _ C F Hb Hp) as [<- _]. }
      destruct (votes_for_listed s h b payee C Hb) as (q & Hq & <-); [unfold MNPAYMENTS_SIGNATURES_REQUIRED in *; lia|].
      exists q. destruct (counted_votes _ _ _ _ C F Hb Hq) as [-> _]. done.
    + left. intros p Hp. destruct (Z.lt_ge_cases (nVotes p) MNPAYMENTS_SIGNATURES_REQUIRED); [done|]. destruct Hn. apply Exists_exists. eauto.
Qed.
(** C40: after any history of votes from the network, votes of the node itself,
    cleaning and clearing. No assertion fails. Each stored vote was signed, by a
    masternode of the list that is recent enough and not ranked below the tenth,
    for a block within the range of the tip then, or by the node itself. The counts
    of each block are the numbers of votes stored for it. Hence, while fewer than
    2^31 votes are stored (few_votes: a count is an int), GetBlockPayee gives
    a payee with the most votes, and nobody only if nobody voted; and a transaction
    is valid for a height exactly if it pays a payee with six votes at least what
    the schedule says, or no payee has six. *)
Theorem payment_votes_are_counted recover_compact CKey sign_compact es :
  ∃ s, pay_run recover_compact CKey sign_compact no_payments es = Ok s ∧ counted s ∧
    (∀ k w, mapMasternodePayeeVotes s !! k = Some w → ∃ ev, ev ∈ es ∧ vouched recover_compact CKey ev w) ∧
    (few_votes s → ∀ h payee0, elected (mapMasternodePayeeVotes s) h (GetBlockPayee s h payee0)) ∧
    (few_votes s → ∀ params mn sporks time tx h,
       payments_IsTransactionValid params mn sporks time s tx h = true ↔ payment_demanded params (mapMasternodePayeeVotes s) h (vout tx)).
Proof.
  destruct (pay_run_ok recover_compact CKey sign_compact no_payments es no_payments_counted) as (s & E & C & H).
  exists s. split_and!; try done.
  - intros k w Hk. destruct (H k w Hk) as [Hk0|?]; [|done]. cbn in Hk0. by rewrite lookup_empty in Hk0.
  - intros F h payee0. by apply GetBlockPayee_elected.
  - intros F params mn sporks time tx h. by apply payments_IsTransactionValid_iff.
Qed.

(** ** What goes wrong *)

(** The rank -1, of a masternode that is not among the ranked ones, is below ten:
    its votes count. *)
Lemma unranked_masternode_may_vote e w pmn :
  mn_Find (pe_view e) (prevout (vinMasternode w)) = Some pmn → active_protocol e <= mn_protocol pmn →
  mn_GetMasternodeRank (pe_view e) (prevout (vinMasternode w)) (win_height w - 100) (active_protocol e) = -1 →
  winner_IsValid e w = (true, false).
Proof.
  intros F P R. unfold winner_IsValid. rewrite F, R. by rewrite (proj2 (Z.ltb_ge _ _)) by done.
Qed.

(** A vote with a wrong signature, which anybody can send, uses up the vote of the
    masternode it names: the real vote for that height is not taken after it. *)
Lemma forged_vote_blocks_the_real_one recover_compact e nVersion s forged s1 r w :
  handle_mnw recover_compact e nVersion s forged = Ok (s1, r) →
  (winner_IsValid e forged).1 = true → winner_SignatureValid recover_compact e forged = false → pr_asked r ≠ [] →
  prevout (vinMasternode w) = prevout (vinMasternode forged) → win_height w = win_height forged →
  ∃ r', handle_mnw recover_compact e nVersion s1 w = Ok (s1, r').
Proof.
  unfold handle_mnw. destruct (nVersion <? active_protocol e); [by intros [= <- <-]|].
  destruct (pe_tip e) as [tip|]; [|by intros [= <- <-]]. case_bool_decide as Hnew; [by intros [= <- <-]|].
  intros H V S A Eo Eh. rewrite Eh. destruct (_ || _); [by simplify_eq|]. destruct (winner_IsValid e forged) as [valid ask]. cbn in V. subst.
  cbn [negb] in H. destruct (CanVote s _ _) as [s2 can] eqn:Ec. destruct can; cbn [negb] in H; [|by simplify_eq].
  rewrite S in H. cbn [negb] in H. simplify_eq. case_bool_decide; [by eexists|].
  destruct (winner_IsValid e w) as [valid ask']. destruct valid; cbn [negb]; [|by eexists]. rewrite Eo.
  assert (CanVote s1 (prevout (vinMasternode forged)) (win_height forged) = (s1, false)) as ->; [|by eexists].
  unfold CanVote in *. case_bool_decide; [by simplify_eq|]. simplify_eq. rewrite bool_decide_true; [done|]. cbn. by rewrite lookup_insert_eq.
Qed.

(** What is signed does not determine the payee. *)
Example signed_text_is_ambiguous : script_ToString [OP_1] = script_ToString [1; 1].
Proof. vm_compute. reflexivity. Qed.

(** ** A vote in progress *)

Definition ex_mn_key : CPubKey := 2 :: replicate 32 7.
Definition ex_recover_mn (_ : hash256) (_ : list Z) (_ : bool) (_ : Z) : option CPubKey := Some ex_mn_key.
Definition ex_view : MasternodeView :=
  mkMasternodeView (λ o, if out_n o <? 10 then Some (mkMnEntry ex_mn_key 70913) else None) 10 10 (λ _, 10) (λ o _ _, out_n o + 1)
    (Some ex_mn_key).
Definition ex_pay_env (tip : CBlockIndex) : PayEnv := mkPayEnv MAIN false true true (Some tip) no_sporks 1600000000 ex_view.
Definition ex_vote (n height : Z) (payee : list Z) (sig : list Z) : CMasternodePaymentWinner :=
  mkWinner (new_txin (mkOutPoint (replicate 32 9) n) [] 0) height payee sig.
Definition ex_sig : list Z := 31 :: replicate 64 0.
Definition ex_payee_a : list Z := GetScriptForDestination (CKeyID (replicate 20 1)).
Definition ex_payee_b : list Z := GetScriptForDestination (CKeyID (replicate 20 2)).
Definition ex_ballot : list (Z * list Z) :=
  [(0, ex_payee_b); (1, ex_payee_a); (2, ex_payee_a); (3, ex_payee_a); (4, ex_payee_a); (5, ex_payee_a); (6, ex_payee_a)].
Definition ex_votes : list (pay_event unit) :=
  map (λ v, EvVote unit (ex_pay_env ex4) 70913 (ex_vote v.1 6 v.2 ex_sig)) ex_ballot.
Definition ex_pays_to (payee : list Z) : CTransaction := mkTx [] 1 [] [new_txout 0 payee] 0.

Lemma payment_votes_are_counted_witness :
  ∃ s, pay_run ex_recover_mn unit (λ _ _, None) no_payments ex_votes = Ok s ∧
    GetBlockPayee s 6 [] = (ex_payee_a, true) ∧ votes_for (mapMasternodePayeeVotes s) 6 ex_payee_a = 6 ∧
    elected (mapMasternodePayeeVotes s) 6 (ex_payee_a, true) ∧
    payments_IsTransactionValid CMainParams ex_view no_sporks 0 s (ex_pays_to ex_payee_b) 6 = false ∧
    payment_demanded CMainParams (mapMasternodePayeeVotes s) 6 [new_txout 0 ex_payee_a].
Proof.
  destruct (payment_votes_are_counted ex_recover_mn unit (λ _ _, None) ex_votes) as (s & E & _ & _ & G & V).
  assert (match pay_run ex_recover_mn unit (λ _ _, None) no_payments ex_votes with
          | Ok s => bool_decide (GetBlockPayee s 6 [] = (ex_payee_a, true)) && (size (mapMasternodePayeeVotes s) =? 7)%nat
                    && (votes_for (mapMasternodePayeeVotes s) 6 ex_payee_a =? 6)
                    && negb (payments_IsTransactionValid CMainParams ex_view no_sporks 0 s (ex_pays_to ex_payee_b) 6)
                    && payments_IsTransactionValid CMainParams ex_view no_sporks 0 s (ex_pays_to ex_payee_a) 6
          | Throw _ => false
          end = true) as R by (vm_compute; reflexivity).
  rewrite E in R. apply andb_true_iff in R as [[[[P%bool_decide_eq_true S%Nat.eqb_eq]%andb_true_iff N%Z.eqb_eq]%andb_true_iff B]%andb_true_iff A].
  assert (few_votes s) as F by (unfold few_votes; by rewrite S).
  exists s. split_and!; [done|done|done|rewrite <- P; by apply G|by apply negb_true_iff|].
  apply (V F CMainParams ex_view no_sporks 0 (ex_pays_to ex_payee_a) 6). done.
Defined.

(** One masternode votes for three payees of block 6 by voting for block 7 in
    between. *)
Definition ex_twice : list (pay_event unit) :=
  map (λ v, EvVote unit (ex_pay_env ex4) 70913 (ex_vote 0 v.1 v.2 ex_sig)) [(6, ex_payee_a); (7, ex_payee_a); (6, ex_payee_b)].

Example a_masternode_votes_twice :
  match pay_run ex_recover_mn unit (λ _ _, None) no_payments ex_twice with
  | Ok s => (votes_for (mapMasternodePayeeVotes s) 6 ex_payee_a, votes_for (mapMasternodePayeeVotes s) 6 ex_payee_b) = (1, 1)
  | Throw _ => False
  end.
Proof. vm_compute. reflexivity. Qed.

(** A masternode that has nobody to propose, in the blocks of a budget among
    others, votes for an empty script at height 0. *)
Example budget_blocks_make_empty_votes :
  match ProcessBlock ex_recover_mn unit (λ _ _, Some ex_sig) (ex_pay_env ex4) (new_txin (mkOutPoint (replicate 32 9) 0) [] 0) true
          (Some (tt, ex_mn_key)) true (Some ex_mn_key) no_payments 6 with
  | Ok (s, relayed) => (size (mapMasternodePayeeVotes s), votes_for (mapMasternodePayeeVotes s) 0 [], bool_decide (is_Some relayed)) = (1%nat, 1, true)
  | Throw _ => False
  end.
Proof. vm_compute. reflexivity. Qed.

(** The hash of block 3 that was asked for before a reorganisation is given after
    it, too: two nodes can rank masternodes by different blocks. *)
Example cached_block_hash_outlives_the_block :
  match GetBlockHash_at (Some ex4) ∅ 4 with
  | Ok (cache, r) =>
      (r, option_map snd (match GetBlockHash_at (Some ey3) cache 4 with Ok x => Some x | Throw _ => None end),
       option_map snd (match GetBlockHash_at (Some ey3) ∅ 4 with Ok x => Some x | Throw _ => None end))
      = (Some (GetBlockHash ex3), Some (Some (GetBlockHash ex3)), Some (Some (GetBlockHash ey3)))
  | Throw _ => False
  end.
Proof. vm_compute. reflexivity. Qed.
