(* ===== verification/Budget.v ===== *)
(** * masternode-budget.h, masternode-budget.cpp: proposals, votes and superblocks

    Anybody can propose a payment, for a fee; masternodes vote on proposals and on
    finalized budgets, the lists of payments that the first blocks of a month make.
    The collateral of a proposal is looked up in the chain through [BudgetEnv]; the
    list of masternodes is the [MasternodeView] of [Payments]. *)

From stdpp Require Import sorting.
From S2P Require Import Prelude Serialize StrEncodings Numbers Uint256 Chain Params Reward Hashes Script Tx SigHash Spork Payments.

(** ** The environment *)

Record BudgetEnv := mkBudgetEnv {
  be_pay : PayEnv;
  be_chain : CChain;
  be_index : gmap (list Z) CBlockIndex;
  (** GetTransaction, with the hash of the block or zero, and the confirmations
      that SwiftTX lends. *)
  be_GetTransaction : hash256 → option (CTransaction * hash256);
  be_GetIXConfirmations : hash256 → Z
}.

Definition be_params (e : BudgetEnv) : CChainParams := Params (pe_network (be_pay e)).
Definition be_tip (e : BudgetEnv) : option CBlockIndex := pe_tip (be_pay e).
Definition be_time (e : BudgetEnv) : Z := pe_time (be_pay e).
(** [mnodeman.CountEnabled(ActiveProtocol())]. *)
Definition enabled (e : BudgetEnv) : Z := mn_CountEnabled (pe_view (be_pay e)) (active_protocol (be_pay e)).

Definition PROPOSAL_FEE_TX : Z := 50 * COIN.
Definition BUDGET_VOTE_UPDATE_MIN : Z := 60 * 60.
Definition VOTE_ABSTAIN : Z := 0.
Definition VOTE_YES : Z := 1.
Definition VOTE_NO : Z := 2.

Definition GetBudgetPaymentCycleBlocks (network : Network) : Z :=
  match network with MAIN => 43200 | _ => 144 end.

(** ** The collateral of a proposal *)

(** The confirmations of a transaction, and the time of its block if that is in the
    chain. *)
Definition confirmations (e : BudgetEnv) (txid nBlockHash : hash256) : Z * option Z :=
  let conf := be_GetIXConfirmations e txid in
  if hash_IsNull nBlockHash then (conf, None)
  else match be_index e !! nBlockHash with
       | None => (conf, None)
       | Some pindex =>
           if Contains (be_chain e) pindex then (conf + (Height (be_chain e) - nHeight pindex + 1), Some (nTime pindex))
           else (conf, None)
       end.

(** The result, [nConf], and [nTime] if it is set. *)
Definition IsBudgetCollateralValid (e : BudgetEnv) (nTxCollateralHash nExpectedHash : hash256) : bool * Z * option Z :=
  match be_GetTransaction e nTxCollateralHash with
  | None => (false, 0, None)
  | Some (txCollateral, nBlockHash) =>
      if (length (vout txCollateral) <? 1)%nat then (false, 0, None)
      else if negb (nLockTime txCollateral =? 0) then (false, 0, None)
      else
        let findScript := push_data (push_opcode [] OP_RETURN) nExpectedHash in
        if existsb (λ o, negb (IsNormalPaymentScript (scriptPubKey o)) && negb (IsUnspendable (scriptPubKey o))) (vout txCollateral)
        then (false, 0, None)
        else if negb (existsb (λ o, bool_decide (scriptPubKey o = findScript) && (PROPOSAL_FEE_TX <=? nValue o)) (vout txCollateral))
        then (false, 0, None)
        else
          let '(conf, nTime) := confirmations e nTxCollateralHash nBlockHash in
          (nBudget_Fee_Confirmations (be_params e) <=? conf, conf, nTime)
  end.

(** ** Votes *)

Record CBudgetVote := mkVote {
  bv_vin : CTxIn; nProposalHash : hash256; nVote : Z; bv_time : Z; bv_sig : list Z; bv_valid : bool; bv_synced : bool
}.
Record CFinalizedBudgetVote := mkFinalVote {
  fv_vin : CTxIn; nBudgetHash : hash256; fv_time : Z; fv_sig : list Z; fv_valid : bool; fv_synced : bool
}.

Definition f_vote : format CBudgetVote :=
  f_struct (f_pair f_txin (f_pair f_hash (f_pair (f_sint 4) (f_pair (f_sint 8) f_bytes))))
    (λ v, (bv_vin v, (nProposalHash v, (nVote v, (bv_time v, bv_sig v)))))
    (λ p, mkVote p.1 p.2.1 p.2.2.1 p.2.2.2.1 p.2.2.2.2 true false).
Definition f_final_vote : format CFinalizedBudgetVote :=
  f_struct (f_pair f_txin (f_pair f_hash (f_pair (f_sint 8) f_bytes)))
    (λ v, (fv_vin v, (nBudgetHash v, (fv_time v, fv_sig v))))
    (λ p, mkFinalVote p.1 p.2.1 p.2.2.1 p.2.2.2 true false).

Definition vote_GetHash (v : CBudgetVote) : hash256 :=
  Hash (ser f_txin (bv_vin v) ++ nProposalHash v ++ le_bytes 4 (u32 (nVote v)) ++ le_bytes 8 (u64 (bv_time v))).
Definition final_vote_GetHash (v : CFinalizedBudgetVote) : hash256 :=
  Hash (ser f_txin (fv_vin v) ++ nBudgetHash v ++ le_bytes 8 (u64 (fv_time v))).

(** uint256::ToString. *)
Definition hash_ToString (h : hash256) : list Z := HexStr (rev h) false.

Definition vote_text (v : CBudgetVote) : list Z :=
  ToStringShort (prevout (bv_vin v)) ++ hash_ToString (nProposalHash v) ++ put_d (nVote v) ++ put_d (bv_time v).
Definition final_vote_text (v : CFinalizedBudgetVote) : list Z :=
  ToStringShort (prevout (fv_vin v)) ++ hash_ToString (nBudgetHash v) ++ put_d (fv_time v).

Section signatures.
Variable recover_compact : hash256 → list Z → bool → Z → option CPubKey.

Definition text_signed (e : BudgetEnv) (vin : CTxIn) (vchSig text : list Z) (fSignatureCheck : bool) : bool :=
  match mn_Find (pe_view (be_pay e)) (prevout vin) with
  | None => false
  | Some pmn => if negb fSignatureCheck then true else VerifyMessage recover_compact (mn_pubkey pmn) vchSig text
  end.

Definition vote_SignatureValid (e : BudgetEnv) (v : CBudgetVote) : bool → bool :=
  text_signed e (bv_vin v) (bv_sig v) (vote_text v).
Definition final_vote_SignatureValid (e : BudgetEnv) (v : CFinalizedBudgetVote) : bool → bool :=
  text_signed e (fv_vin v) (fv_sig v) (final_vote_text v).
End signatures.

(** AddOrUpdateVote, the same text in both classes: [hash] is the hash of the
    outpoint of the masternode, [now] is GetTime(). *)
Inductive vote_error := VoteOlder | VoteTooSoon | VoteTooFarAhead.

Definition AddOrUpdateVote {V} (time_of : V → Z) (now : Z) (hash : hash256) (vote : V) (mapVotes : gmap hash256 V)
    : result vote_error (gmap hash256 V) :=
  match (match mapVotes !! hash with
         | Some old =>
             if time_of vote <? time_of old then Some VoteOlder
             else if s64 (time_of vote - time_of old) <? BUDGET_VOTE_UPDATE_MIN then Some VoteTooSoon
             else None
         | None => None
         end) with
  | Some err => Throw err
  | None => if now + 60 * 60 <? time_of vote then Throw VoteTooFarAhead else Ok (<[hash := vote]> mapVotes)
  end.

(** ** CBudgetProposal *)

Record CBudgetProposal := mkProposal {
  nAlloted : Z;
  pr_valid : bool;
  strProposalName : list Z;
  strURL : list Z;
  pr_start : Z;
  pr_end : Z;
  pr_amount : Z;
  pr_address : list Z;
  pr_time : Z;
  pr_fee : hash256;
  pr_votes : gmap hash256 CBudgetVote
}.

Definition set_alloted (n : Z) (p : CBudgetProposal) : CBudgetProposal :=
  mkProposal n (pr_valid p) (strProposalName p) (strURL p) (pr_start p) (pr_end p) (pr_amount p) (pr_address p) (pr_time p) (pr_fee p) (pr_votes p).
Definition set_proposal_valid (b : bool) (p : CBudgetProposal) : CBudgetProposal :=
  mkProposal (nAlloted p) b (strProposalName p) (strURL p) (pr_start p) (pr_end p) (pr_amount p) (pr_address p) (pr_time p) (pr_fee p) (pr_votes p).
Definition set_proposal_time (t : Z) (p : CBudgetProposal) : CBudgetProposal :=
  mkProposal (nAlloted p) (pr_valid p) (strProposalName p) (strURL p) (pr_start p) (pr_end p) (pr_amount p) (pr_address p) t (pr_fee p) (pr_votes p).
Definition set_proposal_votes (v : gmap hash256 CBudgetVote) (p : CBudgetProposal) : CBudgetProposal :=
  mkProposal (nAlloted p) (pr_valid p) (strProposalName p) (strURL p) (pr_start p) (pr_end p) (pr_amount p) (pr_address p) (pr_time p) (pr_fee p) v.

Definition proposal_GetHash (p : CBudgetProposal) : hash256 :=
  Hash (ser f_bytes (strProposalName p) ++ ser f_bytes (strURL p) ++ le_bytes 4 (u32 (pr_start p)) ++ le_bytes 4 (u32 (pr_end p))
        ++ le_bytes 8 (u64 (pr_amount p)) ++ ser f_bytes (pr_address p)).

(** What a proposal message holds; the constructor leaves the allotment unset. *)
Definition f_proposal (nAlloted : Z) : format CBudgetProposal :=
  f_struct (f_pair (f_limited 20) (f_pair (f_limited 64) (f_pair (f_sint 8) (f_pair (f_sint 4) (f_pair (f_sint 4)
             (f_pair (f_sint 8) (f_pair f_bytes f_hash)))))))
    (λ p, (strProposalName p, (strURL p, (pr_time p, (pr_start p, (pr_end p, (pr_amount p, (pr_address p, pr_fee p))))))))
    (λ q, mkProposal nAlloted true q.1 q.2.1 q.2.2.2.1 q.2.2.2.2.1 q.2.2.2.2.2.1 q.2.2.2.2.2.2.1 q.2.2.1 q.2.2.2.2.2.2.2 ∅).

Definition count_votes (n : Z) (p : CBudgetProposal) : Z :=
  Z.of_nat (size (filter (λ it, nVote it.2 = n ∧ bv_valid it.2 = true) (pr_votes p))).
Definition GetYeas : CBudgetProposal → Z := count_votes VOTE_YES.
Definition GetNays : CBudgetProposal → Z := count_votes VOTE_NO.
Definition GetAbstains : CBudgetProposal → Z := count_votes VOTE_ABSTAIN.

(** Integer division and remainder round towards zero. *)
Definition GetBlockStartCycle (network : Network) (p : CBudgetProposal) : Z :=
  pr_start p - Z.rem (pr_start p) (GetBudgetPaymentCycleBlocks network).
Definition GetBlockEndCycle (p : CBudgetProposal) : Z := pr_end p.
Definition GetTotalPaymentCount (network : Network) (p : CBudgetProposal) : Z :=
  Z.quot (s32 (GetBlockEndCycle p - GetBlockStartCycle network p)) (GetBudgetPaymentCycleBlocks network).
Definition GetBlockCurrentCycle (network : Network) (tip : option CBlockIndex) (p : CBudgetProposal) : Z :=
  match tip with
  | None => -1
  | Some t => if GetBlockEndCycle p <=? nHeight t then -1
              else nHeight t - Z.rem (nHeight t) (GetBudgetPaymentCycleBlocks network)
  end.
Definition GetRemainingPaymentCount (network : Network) (tip : option CBlockIndex) (p : CBudgetProposal) : Z :=
  Z.min (Z.quot (s32 (GetBlockEndCycle p - GetBlockCurrentCycle network tip p)) (GetBudgetPaymentCycleBlocks network) - 1)
    (GetTotalPaymentCount network p).

Definition IsEstablished (network : Network) (time : Z) (p : CBudgetProposal) : bool :=
  match network with
  | MAIN => pr_time p <? time - 60 * 60 * 24
  | _ => pr_time p <? time - 60 * 5
  end.

(** CBudgetManager::GetTotalBudget. *)
Definition budget_subsidy (params : CChainParams) (h : Z) : Z :=
  if (h <=? nLastPOWBlock params) && (151200 <=? h) then 50 * COIN
  else if (h <=? 302399) && (nLastPOWBlock params <? h) then 50 * COIN
  else if (h <=? 345599) && (302400 <=? h) then 45 * COIN
  else if (h <=? 388799) && (345600 <=? h) then 40 * COIN
  else if (h <=? 431999) && (388800 <=? h) then 35 * COIN
  else if (h <=? 475199) && (432000 <=? h) then 30 * COIN
  else if (h <=? 518399) && (475200 <=? h) then 25 * COIN
  else if (h <=? 561599) && (518400 <=? h) then 20 * COIN
  else if (h <=? 604799) && (561600 <=? h) then 15 * COIN
  else if (h <=? 647999) && (604800 <=? h) then 10 * COIN
  else if 648000 <=? h then 5 * COIN
  else 0 * COIN.

Definition GetTotalBudget (e : BudgetEnv) (h : Z) : Z :=
  match be_tip e with
  | None => 0
  | Some _ =>
      match pe_network (be_pay e) with
      | TESTNET => (500 * COIN / 100) * 10 * 146
      | _ => if h <=? 172800 then 648000 * COIN
             else (budget_subsidy (be_params e) h / 100) * 10 * 1440 * 30
      end
  end.

Inductive proposal_error :=
| ActiveRemoval | InvalidProposal | EndBeforeStart | InvalidAmount | InvalidPaymentAddress | InvalidCollateral
| MultisigNotSupported | PaymentMoreThanMax | InvalidBlockEnd.

(** The error or none; the check of the collateral sets [nTime]. *)
Definition proposal_IsValid (e : BudgetEnv) (fCheckCollateral : bool) (p : CBudgetProposal) : CBudgetProposal * option proposal_error :=
  let network := pe_network (be_pay e) in
  if Z.quot (enabled e) 10 <? GetNays p - GetYeas p then (p, Some ActiveRemoval)
  else if pr_start p <? 0 then (p, Some InvalidProposal)
  else if pr_end p <? pr_start p then (p, Some EndBeforeStart)
  else if pr_amount p <? 10 * COIN then (p, Some InvalidAmount)
  else if bool_decide (pr_address p = []) then (p, Some InvalidPaymentAddress)
  else
    let '(valid, _, nTime) := if fCheckCollateral then IsBudgetCollateralValid e (pr_fee p) (proposal_GetHash p) else (true, 0, None) in
    let p := match nTime with Some t => set_proposal_time t p | None => p end in
    if negb valid then (p, Some InvalidCollateral)
    else if IsPayToScriptHash (pr_address p) then (p, Some MultisigNotSupported)
    else if GetTotalBudget e (pr_start p) <? pr_amount p then (p, Some PaymentMoreThanMax)
    else match be_tip e with
         | None => (p, None)
         | Some tip =>
             let nProposalEnd := s32 (pr_start p + GetBudgetPaymentCycleBlocks network * GetTotalPaymentCount network p) in
             (p, if nProposalEnd <? nHeight tip then Some InvalidBlockEnd else None)
         end.

Definition proposal_CleanAndRemove (recover_compact : hash256 → list Z → bool → Z → option CPubKey) (e : BudgetEnv)
    (fSignatureCheck : bool) (p : CBudgetProposal) : CBudgetProposal :=
  set_proposal_votes
    ((λ v, mkVote (bv_vin v) (nProposalHash v) (nVote v) (bv_time v) (bv_sig v)
             (vote_SignatureValid recover_compact e v fSignatureCheck) (bv_synced v)) <$> pr_votes p) p.

(** ** CFinalizedBudget *)

Record CTxBudgetPayment := mkBudgetPayment { pay_proposal : hash256; pay_payee : list Z; pay_amount : Z }.

#[export] Instance CTxBudgetPayment_eq_dec : EqDecision CTxBudgetPayment.
Proof. solve_decision. Defined.

Definition f_budget_payment : format CTxBudgetPayment :=
  f_struct (f_pair f_bytes (f_pair (f_sint 8) f_hash))
    (λ p, (pay_payee p, (pay_amount p, pay_proposal p))) (λ q, mkBudgetPayment q.2.2 q.1 q.2.1).

Record CFinalizedBudget := mkFinalized {
  fAutoChecked : bool;
  fb_valid : bool;
  strBudgetName : list Z;
  fb_start : Z;
  vecBudgetPayments : list CTxBudgetPayment;
  fb_votes : gmap hash256 CFinalizedBudgetVote;
  fb_fee : hash256;
  fb_time : Z
}.

Definition set_finalized_valid (b : bool) (f : CFinalizedBudget) : CFinalizedBudget :=
  mkFinalized (fAutoChecked f) b (strBudgetName f) (fb_start f) (vecBudgetPayments f) (fb_votes f) (fb_fee f) (fb_time f).
Definition set_finalized_time (t : Z) (f : CFinalizedBudget) : CFinalizedBudget :=
  mkFinalized (fAutoChecked f) (fb_valid f) (strBudgetName f) (fb_start f) (vecBudgetPayments f) (fb_votes f) (fb_fee f) t.
Definition set_finalized_votes (v : gmap hash256 CFinalizedBudgetVote) (f : CFinalizedBudget) : CFinalizedBudget :=
  mkFinalized (fAutoChecked f) (fb_valid f) (strBudgetName f) (fb_start f) (vecBudgetPayments f) v (fb_fee f) (fb_time f).

Definition finalized_GetHash (f : CFinalizedBudget) : hash256 :=
  Hash (ser f_bytes (strBudgetName f) ++ le_bytes 4 (u32 (fb_start f)) ++ ser (f_vector f_budget_payment) (vecBudgetPayments f)).

(** The message; the constructor leaves [nTime] unset. *)
Definition f_finalized (nTime : Z) : format CFinalizedBudget :=
  f_struct (f_pair (f_limited 20) (f_pair (f_sint 4) (f_pair (f_vector f_budget_payment) f_hash)))
    (λ f, (strBudgetName f, (fb_start f, (vecBudgetPayments f, fb_fee f))))
    (λ q, mkFinalized false true q.1 q.2.1 q.2.2.1 ∅ q.2.2.2 nTime).

Definition GetBlockStart (f : CFinalizedBudget) : Z := fb_start f.
(** [(int)(size() - 1)] is -1 for no payments. *)
Definition GetBlockEnd (f : CFinalizedBudget) : Z := s32 (fb_start f + (Z.of_nat (length (vecBudgetPayments f)) - 1)).
Definition GetVoteCount (f : CFinalizedBudget) : Z := Z.of_nat (size (fb_votes f)).

Definition GetTotalPayout (f : CFinalizedBudget) : Z := foldl (λ ret p, s64 (ret + pay_amount p)) 0 (vecBudgetPayments f).

Definition GetBudgetPaymentByBlock (f : CFinalizedBudget) (nBlockHeight : Z) : option CTxBudgetPayment :=
  let i := s32 (nBlockHeight - GetBlockStart f) in
  if i <? 0 then None
  else if Z.of_nat (length (vecBudgetPayments f)) - 1 <? i then None
  else vecBudgetPayments f !! Z.to_nat i.

Definition GetPayeeAndAmount (f : CFinalizedBudget) (nBlockHeight : Z) : option (list Z * Z) :=
  option_map (λ p, (pay_payee p, pay_amount p)) (GetBudgetPaymentByBlock f nBlockHeight).

Inductive finalized_error :=
| InvalidBlockStart | InvalidPaymentsEnd | TooManyPayments | InvalidBudgetName | BlockStartZero | FeeTxZero
| InvalidPayout | InvalidFinalCollateral.

Definition finalized_IsValid (e : BudgetEnv) (fCheckCollateral : bool) (f : CFinalizedBudget) : CFinalizedBudget * option finalized_error :=
  if negb (Z.rem (fb_start f) (GetBudgetPaymentCycleBlocks (pe_network (be_pay e))) =? 0) then (f, Some InvalidBlockStart)
  else if 100 <? GetBlockEnd f - fb_start f then (f, Some InvalidPaymentsEnd)
  else if 100 <? Z.of_nat (length (vecBudgetPayments f)) then (f, Some TooManyPayments)
  else if bool_decide (strBudgetName f = []) then (f, Some InvalidBudgetName)
  else if fb_start f =? 0 then (f, Some BlockStartZero)
  else if hash_IsNull (fb_fee f) then (f, Some FeeTxZero)
  else if GetTotalBudget e (fb_start f) <? GetTotalPayout f then (f, Some InvalidPayout)
  else if fCheckCollateral then
    let '(valid, _, nTime) := IsBudgetCollateralValid e (fb_fee f) (finalized_GetHash f) in
    let f := match nTime with Some t => set_finalized_time t f | None => f end in
    (f, if valid : bool then None else Some InvalidFinalCollateral)
  else (f, None).

Definition finalized_IsTransactionValid (f : CFinalizedBudget) (txNew : CTransaction) (nBlockHeight : Z) : bool :=
  match GetBudgetPaymentByBlock f nBlockHeight with
  | None => false
  | Some p => existsb (λ out, bool_decide (pay_payee p = scriptPubKey out) && (pay_amount p =? nValue out)) (vout txNew)
  end.

Definition finalized_CleanAndRemove (recover_compact : hash256 → list Z → bool → Z → option CPubKey) (e : BudgetEnv)
    (fSignatureCheck : bool) (f : CFinalizedBudget) : CFinalizedBudget :=
  set_finalized_votes
    ((λ v, mkFinalVote (fv_vin v) (nBudgetHash v) (fv_time v) (fv_sig v)
             (final_vote_SignatureValid recover_compact e v fSignatureCheck) (fv_synced v)) <$> fb_votes f) f.

(** ** CBudgetManager *)

Record CBudgetManager := mkBudget {
  mapProposals : gmap hash256 CBudgetProposal;
  mapFinalizedBudgets : gmap hash256 CFinalizedBudget;
  mapSeenMasternodeBudgetProposals : gmap hash256 CBudgetProposal;
  mapSeenMasternodeBudgetVotes : gmap hash256 CBudgetVote;
  mapOrphanMasternodeBudgetVotes : gmap hash256 CBudgetVote;
  mapSeenFinalizedBudgets : gmap hash256 CFinalizedBudget;
  mapSeenFinalizedBudgetVotes : gmap hash256 CFinalizedBudgetVote;
  mapOrphanFinalizedBudgetVotes : gmap hash256 CFinalizedBudgetVote;
  askedForSourceProposalOrBudget : gmap hash256 Z;
  vecImmatureBudgetProposals : list CBudgetProposal;
  vecImmatureFinalizedBudgets : list CFinalizedBudget
}.

Definition no_budget : CBudgetManager := mkBudget ∅ ∅ ∅ ∅ ∅ ∅ ∅ ∅ ∅ [] [].

Definition set_proposals (m : gmap hash256 CBudgetProposal) (s : CBudgetManager) : CBudgetManager :=
  mkBudget m (mapFinalizedBudgets s) (mapSeenMasternodeBudgetProposals s) (mapSeenMasternodeBudgetVotes s)
    (mapOrphanMasternodeBudgetVotes s) (mapSeenFinalizedBudgets s) (mapSeenFinalizedBudgetVotes s)
    (mapOrphanFinalizedBudgetVotes s) (askedForSourceProposalOrBudget s) (vecImmatureBudgetProposals s) (vecImmatureFinalizedBudgets s).
Definition set_finalized (m : gmap hash256 CFinalizedBudget) (s : CBudgetManager) : CBudgetManager :=
  mkBudget (mapProposals s) m (mapSeenMasternodeBudgetProposals s) (mapSeenMasternodeBudgetVotes s)
    (mapOrphanMasternodeBudgetVotes s) (mapSeenFinalizedBudgets s) (mapSeenFinalizedBudgetVotes s)
    (mapOrphanFinalizedBudgetVotes s) (askedForSourceProposalOrBudget s) (vecImmatureBudgetProposals s) (vecImmatureFinalizedBudgets s).
Definition set_seen (p : gmap hash256 CBudgetProposal) (v : gmap hash256 CBudgetVote) (f : gmap hash256 CFinalizedBudget)
    (fv : gmap hash256 CFinalizedBudgetVote) (s : CBudgetManager) : CBudgetManager :=
  mkBudget (mapProposals s) (mapFinalizedBudgets s) p v (mapOrphanMasternodeBudgetVotes s) f fv
    (mapOrphanFinalizedBudgetVotes s) (askedForSourceProposalOrBudget s) (vecImmatureBudgetProposals s) (vecImmatureFinalizedBudgets s).
Definition set_orphan_votes (v : gmap hash256 CBudgetVote) (fv : gmap hash256 CFinalizedBudgetVote) (asked : gmap hash256 Z)
    (s : CBudgetManager) : CBudgetManager :=
  mkBudget (mapProposals s) (mapFinalizedBudgets s) (mapSeenMasternodeBudgetProposals s) (mapSeenMasternodeBudgetVotes s)
    v (mapSeenFinalizedBudgets s) (mapSeenFinalizedBudgetVotes s) fv asked (vecImmatureBudgetProposals s) (vecImmatureFinalizedBudgets s).
Definition set_immature (p : list CBudgetProposal) (f : list CFinalizedBudget) (s : CBudgetManager) : CBudgetManager :=
  mkBudget (mapProposals s) (mapFinalizedBudgets s) (mapSeenMasternodeBudgetProposals s) (mapSeenMasternodeBudgetVotes s)
    (mapOrphanMasternodeBudgetVotes s) (mapSeenFinalizedBudgets s) (mapSeenFinalizedBudgetVotes s)
    (mapOrphanFinalizedBudgetVotes s) (askedForSourceProposalOrBudget s) p f.

Definition ClearSeen (s : CBudgetManager) : CBudgetManager := set_seen ∅ ∅ ∅ ∅ s.

Definition AddProposal (e : BudgetEnv) (s : CBudgetManager) (budgetProposal : CBudgetProposal) : CBudgetManager * bool :=
  let '(p, err) := proposal_IsValid e true budgetProposal in
  match err with
  | Some _ => (s, false)
  | None =>
      if bool_decide (is_Some (mapProposals s !! proposal_GetHash p)) then (s, false)
      else (set_proposals (<[proposal_GetHash p := set_proposal_valid true p]> (mapProposals s)) s, true)
  end.

(** The copy in the map has [fValid] set and has not been checked for a vote. *)
Definition AddFinalizedBudget (e : BudgetEnv) (s : CBudgetManager) (finalizedBudget : CFinalizedBudget) : CBudgetManager * bool :=
  let '(f, err) := finalized_IsValid e true finalizedBudget in
  match err with
  | Some _ => (s, false)
  | None =>
      if bool_decide (is_Some (mapFinalizedBudgets s !! finalized_GetHash f)) then (s, false)
      else (set_finalized (<[finalized_GetHash f :=
              mkFinalized false true (strBudgetName f) (fb_start f) (vecBudgetPayments f) (fb_votes f) (fb_fee f) (fb_time f)]>
              (mapFinalizedBudgets s)) s, true)
  end.

(** The vote is for a proposal or a budget that is there, or it waits for it; a
    vote from a peer ([from_peer]) makes the node ask for the proposal, once. The
    bools: whether the vote was taken, and whether "mnvs" is sent. *)
Definition UpdateProposal (e : BudgetEnv) (s : CBudgetManager) (vote : CBudgetVote) (from_peer : bool) : CBudgetManager * bool * bool :=
  match mapProposals s !! nProposalHash vote with
  | None =>
      if negb from_peer || negb (pe_synced (be_pay e)) then (s, false, false)
      else
        let orphans := <[nProposalHash vote := vote]> (mapOrphanMasternodeBudgetVotes s) in
        match askedForSourceProposalOrBudget s !! nProposalHash vote with
        | Some _ => (set_orphan_votes orphans (mapOrphanFinalizedBudgetVotes s) (askedForSourceProposalOrBudget s) s, false, false)
        | None => (set_orphan_votes orphans (mapOrphanFinalizedBudgetVotes s)
                     (<[nProposalHash vote := be_time e]> (askedForSourceProposalOrBudget s)) s, false, true)
        end
  | Some p =>
      match AddOrUpdateVote bv_time (be_time e) (outpoint_GetHash (prevout (bv_vin vote))) vote (pr_votes p) with
      | Throw _ => (s, false, false)
      | Ok votes => (set_proposals (<[nProposalHash vote := set_proposal_votes votes p]> (mapProposals s)) s, true, false)
      end
  end.

Definition UpdateFinalizedBudget (e : BudgetEnv) (s : CBudgetManager) (vote : CFinalizedBudgetVote) (from_peer : bool)
    : CBudgetManager * bool * bool :=
  match mapFinalizedBudgets s !! nBudgetHash vote with
  | None =>
      if negb from_peer || negb (pe_synced (be_pay e)) then (s, false, false)
      else
        let orphans := <[nBudgetHash vote := vote]> (mapOrphanFinalizedBudgetVotes s) in
        match askedForSourceProposalOrBudget s !! nBudgetHash vote with
        | Some _ => (set_orphan_votes (mapOrphanMasternodeBudgetVotes s) orphans (askedForSourceProposalOrBudget s) s, false, false)
        | None => (set_orphan_votes (mapOrphanMasternodeBudgetVotes s) orphans
                     (<[nBudgetHash vote := be_time e]> (askedForSourceProposalOrBudget s)) s, false, true)
        end
  | Some f =>
      match AddOrUpdateVote fv_time (be_time e) (outpoint_GetHash (prevout (fv_vin vote))) vote (fb_votes f) with
      | Throw _ => (s, false, false)
      | Ok votes => (set_finalized (<[nBudgetHash vote := set_finalized_votes votes f]> (mapFinalizedBudgets s)) s, true, false)
      end
  end.

(** Each waiting vote is tried; those that are taken wait no longer. *)
Definition try_orphan_vote (e : BudgetEnv) (s : CBudgetManager) (it : hash256 * CBudgetVote) : CBudgetManager :=
  let '(s, ok, _) := UpdateProposal e s it.2 false in
  if ok : bool then set_orphan_votes (delete it.1 (mapOrphanMasternodeBudgetVotes s)) (mapOrphanFinalizedBudgetVotes s)
                      (askedForSourceProposalOrBudget s) s
  else s.
Definition try_orphan_final_vote (e : BudgetEnv) (s : CBudgetManager) (it : hash256 * CFinalizedBudgetVote) : CBudgetManager :=
  let '(s, ok, _) := UpdateFinalizedBudget e s it.2 false in
  if ok : bool then set_orphan_votes (mapOrphanMasternodeBudgetVotes s) (delete it.1 (mapOrphanFinalizedBudgetVotes s))
                      (askedForSourceProposalOrBudget s) s
  else s.
Definition CheckOrphanVotes (e : BudgetEnv) (s : CBudgetManager) : CBudgetManager :=
  let s := foldl (try_orphan_vote e) s (map_to_list (mapOrphanMasternodeBudgetVotes s)) in
  foldl (try_orphan_final_vote e) s (map_to_list (mapOrphanFinalizedBudgetVotes s)).

(** ** The budget of the next month *)

(** [sortProposalsByVotes]: more votes first, then the greater collateral. *)
Definition votes_before (a b : hash256 * CBudgetProposal * Z) : bool :=
  if negb (a.2 =? b.2) then b.2 <? a.2 else le_val (pr_fee b.1.2) <? le_val (pr_fee a.1.2).

Definition net_votes (p : CBudgetProposal) : Z := GetYeas p - GetNays p.

Section budget.
Variable recover_compact : hash256 → list Z → bool → Z → option CPubKey.
(** std::sort with [votes_before]. *)
Variable std_sort : list (hash256 * CBudgetProposal * Z) → list (hash256 * CBudgetProposal * Z).

Definition next_block_start (e : BudgetEnv) (tip : CBlockIndex) : Z :=
  nHeight tip - Z.rem (nHeight tip) (GetBudgetPaymentCycleBlocks (pe_network (be_pay e))) + GetBudgetPaymentCycleBlocks (pe_network (be_pay e)).

(** Check 1 of GetBudget. *)
Definition qualifies (e : BudgetEnv) (nBlockStart nBlockEnd : Z) (p : CBudgetProposal) : bool :=
  pr_valid p && (pr_start p <=? nBlockStart) && (nBlockEnd <=? pr_end p) && (Z.quot (enabled e) 10 <? net_votes p)
  && IsEstablished (pe_network (be_pay e)) (be_time e) p.

(** One proposal: the map, the amount allocated so far and the proposals taken. *)
Definition allot (e : BudgetEnv) (nBlockStart nBlockEnd nTotalBudget : Z) (r : gmap hash256 CBudgetProposal * Z * list hash256)
    (it : hash256 * CBudgetProposal * Z) : gmap hash256 CBudgetProposal * Z * list hash256 :=
  let '(m, nBudgetAllocated, ret) := r in
  let '(k, p, _) := it in
  if qualifies e nBlockStart nBlockEnd p then
    if s64 (pr_amount p + nBudgetAllocated) <=? nTotalBudget
    then (<[k := set_alloted (pr_amount p) p]> m, s64 (nBudgetAllocated + pr_amount p), ret ++ [k])
    else (<[k := set_alloted 0 p]> m, nBudgetAllocated, ret)
  else (m, nBudgetAllocated, ret).

(** The proposals taken, as the keys of the map, which the allotments change. *)
Definition GetBudget (e : BudgetEnv) (s : CBudgetManager) : CBudgetManager * list hash256 :=
  let cleaned := proposal_CleanAndRemove recover_compact e false <$> mapProposals s in
  let sorted := std_sort (map (λ it, (it.1, it.2, net_votes it.2)) (map_to_list cleaned)) in
  match be_tip e with
  | None => (set_proposals cleaned s, [])
  | Some tip =>
      let nBlockStart := next_block_start e tip in
      let nBlockEnd := nBlockStart + GetBudgetPaymentCycleBlocks (pe_network (be_pay e)) - 1 in
      let nTotalBudget := GetTotalBudget e nBlockStart in
      let '(m, _, ret) := foldl (allot e nBlockStart nBlockEnd nTotalBudget) (cleaned, 0, []) sorted in
      (set_proposals m s, ret)
  end.

(** The payments that SubmitFinalBudget proposes. *)
Definition budget_payments (s : CBudgetManager) (ret : list hash256) : list CTxBudgetPayment :=
  omap (λ k, option_map (λ p, mkBudgetPayment (proposal_GetHash p) (pr_address p) (nAlloted p)) (mapProposals s !! k)) ret.

(** The comparison of CFinalizedBudget::AutoCheck with the budget the node sees. *)
Definition payment_matches (pay : CTxBudgetPayment) (p : CBudgetProposal) : bool :=
  bool_decide (pay_proposal pay = proposal_GetHash p) && bool_decide (script_ToString (pay_payee pay) = script_ToString (pr_address p))
  && (pay_amount pay =? pr_amount p).
Definition budget_matches (e : BudgetEnv) (s : CBudgetManager) (f : CFinalizedBudget) : bool :=
  let '(s, ret) := GetBudget e s in
  let proposals := omap (λ k, mapProposals s !! k) ret in
  negb (length proposals =? 0)%nat && (length proposals =? length (vecBudgetPayments f))%nat
  && forallb (λ q, payment_matches q.1 q.2) (zip (vecBudgetPayments f) proposals).
End budget.

(** ** Superblocks *)

Definition covers (nBlockHeight : Z) (f : CFinalizedBudget) : bool :=
  (GetBlockStart f <=? nBlockHeight) && (nBlockHeight <=? GetBlockEnd f).

(** The loop "Grab The Highest Count", in the order of the map. *)
Definition highest_step (nBlockHeight : Z) (nHighestCount : Z) (f : CFinalizedBudget) : Z :=
  if (nHighestCount <? GetVoteCount f) && covers nBlockHeight f then GetVoteCount f else nHighestCount.

Definition hash_le (p q : hash256 * CFinalizedBudget) : Prop := le_val p.1 <= le_val q.1.
#[export] Instance hash_le_dec p q : Decision (hash_le p q) := decide (le_val p.1 <= le_val q.1).
Definition budgets_in_order (s : CBudgetManager) : list CFinalizedBudget :=
  (merge_sort hash_le (map_to_list (mapFinalizedBudgets s))).*2.

Definition IsBudgetPaymentBlock (e : BudgetEnv) (s : CBudgetManager) (nBlockHeight : Z) : bool :=
  let nFivePercent := Z.quot (enabled e) 20 in
  nFivePercent <? foldl (highest_step nBlockHeight) (-1) (budgets_in_order s).

Definition budget_IsTransactionValid (e : BudgetEnv) (s : CBudgetManager) (txNew : CTransaction) (nBlockHeight : Z) : bool :=
  let nFivePercent := Z.quot (enabled e) 20 in
  let nHighestCount := foldl (highest_step nBlockHeight) 0 (budgets_in_order s) in
  if nHighestCount <? nFivePercent then false
  else existsb (λ f, (nHighestCount - Z.quot (enabled e) 10 <? GetVoteCount f) && covers nBlockHeight f
                     && finalized_IsTransactionValid f txNew nBlockHeight)
         (budgets_in_order s).

(** The payee, the amount and the count so far. *)
Definition fill_step (nBlockHeight : Z) (r : list Z * Z * Z) (f : CFinalizedBudget) : list Z * Z * Z :=
  let '(payee, nAmount, nHighestCount) := r in
  if (nHighestCount <? GetVoteCount f) && covers nBlockHeight f then
    match GetPayeeAndAmount f nBlockHeight with
    | Some (payee, nAmount) => (payee, nAmount, GetVoteCount f)
    | None => r
    end
  else r.

(** CBudgetManager::FillBlockPayee. [None]: a coinbase without outputs is written
    to. *)
Definition budget_FillBlockPayee (params : CChainParams) (s : CBudgetManager) (tip : option CBlockIndex) (vout : list CTxOut)
    (fProofOfStake : bool) : option (list CTxOut) :=
  match tip with
  | None => Some vout
  | Some tip =>
      let '(payee, nAmount, nHighestCount) := foldl (fill_step (nHeight tip + 1)) ([], 0, 0) (budgets_in_order s) in
      let blockValue := GetBlockValue params (nHeight tip) in
      if fProofOfStake then
        if 0 <? nHighestCount then Some (vout ++ [new_txout nAmount payee]) else Some vout
      else match vout with
           | [] => None
           | first :: rest =>
               let first := mkTxOut blockValue (scriptPubKey first) (nRounds first) in
               if 0 <? nHighestCount
               then Some [first; mkTxOut nAmount payee (nRounds (default null_txout (rest !! 0%nat)))]
               else Some (first :: rest)
           end
  end.

(** ** Messages *)

(** The score of the sender, the masternodes asked for, the inventory passed on
    and told to masternodeSync, and whether the proposal of a vote is asked for. *)
Record BudgetReply := mkBudgetReply {
  br_punished : Z; br_asked : list COutPoint; br_relayed : list hash256; br_added : list hash256; br_mnvs : bool
}.
Definition quiet : BudgetReply := mkBudgetReply 0 [] [] [] false.

Section handlers.
Variable recover_compact : hash256 → list Z → bool → Z → option CPubKey.

Definition handle_mprop (e : BudgetEnv) (s : CBudgetManager) (p : CBudgetProposal) : CBudgetManager * BudgetReply :=
  let hash := proposal_GetHash p in
  match mapSeenMasternodeBudgetProposals s !! hash with
  | Some _ => (s, mkBudgetReply 0 [] [] [hash] false)
  | None =>
      let '(valid, nConf, nTime) := IsBudgetCollateralValid e (pr_fee p) hash in
      let p := match nTime with Some t => set_proposal_time t p | None => p end in
      if negb valid then
        (if 1 <=? nConf then set_immature (vecImmatureBudgetProposals s ++ [p]) (vecImmatureFinalizedBudgets s) s else s, quiet)
      else
        let s := set_seen (<[hash := p]> (mapSeenMasternodeBudgetProposals s)) (mapSeenMasternodeBudgetVotes s)
                   (mapSeenFinalizedBudgets s) (mapSeenFinalizedBudgetVotes s) s in
        let '(p, err) := proposal_IsValid e true p in
        match err with
        | Some _ => (s, quiet)
        | None =>
            let '(s, added) := AddProposal e s p in
            (CheckOrphanVotes e s, mkBudgetReply 0 [] (if added : bool then [hash] else []) [hash] false)
        end
  end.

Definition handle_mvote (e : BudgetEnv) (s : CBudgetManager) (vote : CBudgetVote) : CBudgetManager * BudgetReply :=
  let hash := vote_GetHash vote in
  match mapSeenMasternodeBudgetVotes s !! hash with
  | Some _ => (s, mkBudgetReply 0 [] [] [hash] false)
  | None =>
      match mn_Find (pe_view (be_pay e)) (prevout (bv_vin vote)) with
      | None => (s, mkBudgetReply 0 [prevout (bv_vin vote)] [] [] false)
      | Some _ =>
          let s := set_seen (mapSeenMasternodeBudgetProposals s) (<[hash := vote]> (mapSeenMasternodeBudgetVotes s))
                     (mapSeenFinalizedBudgets s) (mapSeenFinalizedBudgetVotes s) s in
          if negb (vote_SignatureValid recover_compact e vote true)
          then (s, mkBudgetReply (if pe_synced (be_pay e) then 20 else 0) [prevout (bv_vin vote)] [] [] false)
          else
            let '(s, ok, mnvs) := UpdateProposal e s vote true in
            (s, if ok : bool then mkBudgetReply 0 [] [hash] [hash] mnvs else mkBudgetReply 0 [] [] [] mnvs)
      end
  end.

Definition handle_fbs (e : BudgetEnv) (s : CBudgetManager) (f : CFinalizedBudget) : CBudgetManager * BudgetReply :=
  let hash := finalized_GetHash f in
  match mapSeenFinalizedBudgets s !! hash with
  | Some _ => (s, mkBudgetReply 0 [] [] [hash] false)
  | None =>
      let '(valid, nConf, nTime) := IsBudgetCollateralValid e (fb_fee f) hash in
      let f := match nTime with Some t => set_finalized_time t f | None => f end in
      if negb valid then
        (if 1 <=? nConf then set_immature (vecImmatureBudgetProposals s) (vecImmatureFinalizedBudgets s ++ [f]) s else s, quiet)
      else
        let s := set_seen (mapSeenMasternodeBudgetProposals s) (mapSeenMasternodeBudgetVotes s)
                   (<[hash := f]> (mapSeenFinalizedBudgets s)) (mapSeenFinalizedBudgetVotes s) s in
        let '(f, err) := finalized_IsValid e true f in
        match err with
        | Some _ => (s, quiet)
        | None =>
            let '(s, added) := AddFinalizedBudget e s f in
            (CheckOrphanVotes e s, mkBudgetReply 0 [] (if added : bool then [hash] else []) [hash] false)
        end
  end.

Definition handle_fbvote (e : BudgetEnv) (s : CBudgetManager) (vote : CFinalizedBudgetVote) : CBudgetManager * BudgetReply :=
  let hash := final_vote_GetHash vote in
  match mapSeenFinalizedBudgetVotes s !! hash with
  | Some _ => (s, mkBudgetReply 0 [] [] [hash] false)
  | None =>
      match mn_Find (pe_view (be_pay e)) (prevout (fv_vin vote)) with
      | None => (s, mkBudgetReply 0 [prevout (fv_vin vote)] [] [] false)
      | Some _ =>
          let s := set_seen (mapSeenMasternodeBudgetProposals s) (mapSeenMasternodeBudgetVotes s)
                     (mapSeenFinalizedBudgets s) (<[hash := vote]> (mapSeenFinalizedBudgetVotes s)) s in
          if negb (final_vote_SignatureValid recover_compact e vote true)
          then (s, mkBudgetReply (if pe_synced (be_pay e) then 20 else 0) [prevout (fv_vin vote)] [] [] false)
          else
            let '(s, ok, mnvs) := UpdateFinalizedBudget e s vote true in
            (s, if ok : bool then mkBudgetReply 0 [] [hash] [hash] mnvs else mkBudgetReply 0 [] [] [] mnvs)
      end
  end.

(** CheckAndRemove and the cleaning of votes that NewBlock makes, where the node
    is not a masternode (AutoCheck does nothing then). *)
Definition CheckAndRemove (e : BudgetEnv) (s : CBudgetManager) : CBudgetManager :=
  let check_finalized f := let '(f, err) := finalized_IsValid e true f in set_finalized_valid (bool_decide (err = None)) f in
  let check_proposal p := let '(p, err) := proposal_IsValid e true p in set_proposal_valid (bool_decide (err = None)) p in
  set_proposals (check_proposal <$> mapProposals s) (set_finalized (check_finalized <$> mapFinalizedBudgets s) s).

Definition clean_votes (e : BudgetEnv) (s : CBudgetManager) : CBudgetManager :=
  set_proposals (proposal_CleanAndRemove recover_compact e false <$> mapProposals s)
    (set_finalized (finalized_CleanAndRemove recover_compact e false <$> mapFinalizedBudgets s) s).

(** The proposals that wait for confirmations, one by one. *)
Definition mature_proposal (e : BudgetEnv) (r : CBudgetManager * list CBudgetProposal * list hash256) (p : CBudgetProposal)
    : CBudgetManager * list CBudgetProposal * list hash256 :=
  let '(s, kept, relayed) := r in
  let '(valid, _, nTime) := IsBudgetCollateralValid e (pr_fee p) (proposal_GetHash p) in
  let p := match nTime with Some t => set_proposal_time t p | None => p end in
  if negb valid then (s, kept ++ [p], relayed)
  else
    let '(p, err) := proposal_IsValid e true p in
    match err with
    | Some _ => (s, kept, relayed)
    | None => let '(s, added) := AddProposal e s p in (s, kept, if added : bool then relayed ++ [proposal_GetHash p] else relayed)
    end.
Definition mature_budget (e : BudgetEnv) (r : CBudgetManager * list CFinalizedBudget * list hash256) (f : CFinalizedBudget)
    : CBudgetManager * list CFinalizedBudget * list hash256 :=
  let '(s, kept, relayed) := r in
  let '(valid, _, nTime) := IsBudgetCollateralValid e (fb_fee f) (finalized_GetHash f) in
  let f := match nTime with Some t => set_finalized_time t f | None => f end in
  if negb valid then (s, kept ++ [f], relayed)
  else
    let '(f, err) := finalized_IsValid e true f in
    match err with
    | Some _ => (s, kept, relayed)
    | None => let '(s, added) := AddFinalizedBudget e s f in (s, kept, if added : bool then relayed ++ [finalized_GetHash f] else relayed)
    end.

(** What NewBlock does every fourteenth block, after the exchange with the peers:
    [now] is GetTime(). *)
Definition budget_NewBlock (e : BudgetEnv) (s : CBudgetManager) : CBudgetManager * list hash256 :=
  let s := CheckAndRemove e s in
  let asked := filter (λ it, be_time e - 60 * 60 * 24 < it.2) (askedForSourceProposalOrBudget s) in
  let s := set_orphan_votes (mapOrphanMasternodeBudgetVotes s) (mapOrphanFinalizedBudgetVotes s) asked s in
  let s := clean_votes e s in
  let '(s, kept, relayed) := foldl (mature_proposal e) (s, [], []) (vecImmatureBudgetProposals s) in
  let s := set_immature kept (vecImmatureFinalizedBudgets s) s in
  let '(s, kept_f, relayed_f) := foldl (mature_budget e) (s, [], []) (vecImmatureFinalizedBudgets s) in
  (set_immature (vecImmatureBudgetProposals s) kept_f s, relayed ++ relayed_f).
End handlers.

(** ** Superblocks: the highest count *)

Lemma highest_spec h l n0 :
  let n := foldl (highest_step h) n0 l in
  n0 <= n ∧ (∀ f, f ∈ l → covers h f = true → GetVoteCount f <= n) ∧
  (n = n0 ∨ ∃ f, f ∈ l ∧ covers h f = true ∧ GetVoteCount f = n).
Proof.
  revert n0. induction l as [|f l IH]; intros n0; cbn [foldl].
  - split_and!; [lia|by intros f ?%elem_of_nil|by left].
  - destruct (IH (highest_step h n0 f)) as (B & M & E). set (n := foldl _ _ l) in *. cbn zeta in *.
    assert (n0 <= highest_step h n0 f ∧ (covers h f = true → GetVoteCount f <= highest_step h n0 f) ∧
            (highest_step h n0 f = n0 ∨ covers h f = true ∧ GetVoteCount f = highest_step h n0 f)) as (B1 & B2 & B3).
    { unfold highest_step. destruct (n0 <? GetVoteCount f) eqn:L, (covers h f); cbn [andb]; (split_and!; [lia|intros; lia || done|auto]). }
    split_and!; [lia| |].
    + intros g [->|Hg]%elem_of_cons C; [specialize (B2 C); lia|by apply M].
    + destruct E as [E|(g & Hg & C & E)]; [|right; exists g; rewrite elem_of_cons; by auto].
      rewrite E. destruct B3 as [->|[C ?]]; [by left|]. right. exists f. rewrite elem_of_cons. by auto.
Qed.

Lemma GetVoteCount_nonneg f : 0 <= GetVoteCount f.
Proof. unfold GetVoteCount. lia. Qed.

(** The two starting values, -1 and 0, make no difference where it matters. *)
Lemma highest_start h l : 0 <= foldl (highest_step h) (-1) l → foldl (highest_step h) 0 l = foldl (highest_step h) (-1) l.
Proof.
  intros H. destruct (highest_spec h l 0) as (B & M & E), (highest_spec h l (-1)) as (B' & M' & E'). cbn zeta in *.
  destruct E' as [E'|(f & Hf & C & E')]; [lia|]. specialize (M f Hf C).
  destruct E as [E|(g & Hg & Cg & Eg)]; [lia|]. specialize (M' g Hg Cg). lia.
Qed.

Lemma highest_is_vote h l n0 : n0 < foldl (highest_step h) n0 l → ∃ f, f ∈ l ∧ covers h f = true ∧ GetVoteCount f = foldl (highest_step h) n0 l.
Proof. intros H. destruct (highest_spec h l n0) as (_ & _ & [E|?]); [lia|done]. Qed.

Lemma elem_of_budgets s f : f ∈ budgets_in_order s ↔ ∃ k, mapFinalizedBudgets s !! k = Some f.
Proof.
  unfold budgets_in_order. rewrite list_elem_of_fmap. split.
  - intros ([k g] & -> & H). rewrite merge_sort_Permutation, elem_of_map_to_list in H. by exists k.
  - intros (k & H). exists (k, f). by rewrite merge_sort_Permutation, elem_of_map_to_list.
Qed.

(** The numbers of a budget are ints, and so is the length of its list; the least
    int is the start of no cycle. *)
Definition budget_ints (f : CFinalizedBudget) : Prop :=
  - 2 ^ 31 < fb_start f < 2 ^ 31 ∧ Z.of_nat (length (vecBudgetPayments f)) < 2 ^ 31.

Lemma covered_payment h f :
  budget_ints f → is_s32 h → covers h f = true →
  ∃ p, GetBudgetPaymentByBlock f h = Some p ∧ vecBudgetPayments f !! Z.to_nat (h - fb_start f) = Some p.
Proof.
  intros [Hs Hl] Hh C. unfold covers, GetBlockEnd, GetBlockStart in C. apply andb_true_iff in C as [C1 C2].
  unfold is_s32, in_sw in *. change (2 ^ (32 - 1)) with (2 ^ 31) in *.
  assert (h - fb_start f <= Z.of_nat (length (vecBudgetPayments f)) - 1) as Hi.
  { destruct (Z.lt_ge_cases (fb_start f + (Z.of_nat (length (vecBudgetPayments f)) - 1)) (2 ^ 31)).
    - rewrite swrap_small in C2 by (unfold in_sw; lia). lia.
    - unfold swrap in C2. change (2 ^ (32 - 1)) with (2 ^ 31) in C2.
      rewrite (Z.mod_eq _ (2 ^ 32)) in C2 by lia.
      replace ((fb_start f + (Z.of_nat (length (vecBudgetPayments f)) - 1) + 2 ^ 31) / 2 ^ 32) with 1 in C2; [lia|].
      apply (Z.div_unique _ _ _ (fb_start f + (Z.of_nat (length (vecBudgetPayments f)) - 1) + 2 ^ 31 - 2 ^ 32)); lia. }
  unfold GetBudgetPaymentByBlock, GetBlockStart. rewrite swrap_small by (unfold in_sw; lia).
  rewrite (proj2 (Z.ltb_ge _ _)) by lia. rewrite (proj2 (Z.ltb_ge _ _)) by lia.
  destruct (vecBudgetPayments f !! Z.to_nat (h - fb_start f)) as [p|] eqn:E; [by exists p|].
  apply lookup_ge_None_1 in E. lia.
Qed.

(** The budget that FillBlockPayee pays has the highest count. *)
Lemma fill_spec h l payee0 amount0 n0 :
  (∀ f, f ∈ l → budget_ints f) → is_s32 h →
  let r := foldl (fill_step h) (payee0, amount0, n0) l in
  r.2 = foldl (highest_step h) n0 l ∧
  (r = (payee0, amount0, n0) ∨ ∃ f, f ∈ l ∧ covers h f = true ∧ GetVoteCount f = r.2 ∧ GetPayeeAndAmount f h = Some r.1).
Proof.
  intros Hl Hh. revert payee0 amount0 n0. induction l as [|f l IH]; intros payee0 amount0 n0; cbn [foldl]; [by auto|].
  specialize (IH (λ g Hg, Hl g (list_elem_of_further _ _ _ Hg))).
  destruct ((n0 <? GetVoteCount f) && covers h f) eqn:E.
  - destruct (covered_payment h f) as (p & Ep & _); [by apply Hl, list_elem_of_here|done|by apply andb_true_iff in E as []|].
    assert (GetPayeeAndAmount f h = Some (pay_payee p, pay_amount p)) as Ef by (unfold GetPayeeAndAmount; by rewrite Ep).
    assert (fill_step h (payee0, amount0, n0) f = (pay_payee p, pay_amount p, GetVoteCount f)) as ->
      by (unfold fill_step; by rewrite E, Ef).
    assert (highest_step h n0 f = GetVoteCount f) as -> by (unfold highest_step; by rewrite E).
    destruct (IH (pay_payee p) (pay_amount p) (GetVoteCount f)) as [I1 I2]. cbn zeta. split; [done|]. right.
    destruct I2 as [->|(g & Hg & ?)]; [|exists g; rewrite elem_of_cons; by auto].
    exists f. rewrite elem_of_cons. apply andb_true_iff in E as []. by auto.
  - assert (fill_step h (payee0, amount0, n0) f = (payee0, amount0, n0)) as -> by (unfold fill_step; by rewrite E).
    assert (highest_step h n0 f = n0) as -> by (unfold highest_step; by rewrite E).
    destruct (IH payee0 amount0 n0) as [I1 [I2|(g & Hg & ?)]]; (split; [done|]); [by left|].
    right. exists g. rewrite elem_of_cons. by auto.
Qed.

(** ** What a superblock must pay *)

Definition pays_exactly (vout : list CTxOut) (payee : list Z) (amount : Z) : Prop :=
  ∃ out, out ∈ vout ∧ scriptPubKey out = payee ∧ nValue out = amount.

Lemma finalized_IsTransactionValid_iff f tx h :
  finalized_IsTransactionValid f tx h = true ↔
  ∃ payee amount, GetPayeeAndAmount f h = Some (payee, amount) ∧ pays_exactly (vout tx) payee amount.
Proof.
  unfold finalized_IsTransactionValid, GetPayeeAndAmount. destruct (GetBudgetPaymentByBlock f h) as [p|]; cbn [option_map].
  2: { split; [done|]. by intros (? & ? & ? & _). }
  rewrite existsb_exists. split.
  - intros (out & Hin%list_elem_of_In & [E%bool_decide_eq_true V]%andb_true_iff).
    exists (pay_payee p), (pay_amount p). split; [done|]. exists out. split_and!; [done|done|lia].
  - intros (payee & amount & [= <- <-] & out & Hin & E & V). exists out. split; [by apply list_elem_of_In|].
    rewrite bool_decide_true by done. cbn. lia.
Qed.

(** The most votes that a budget for the height has. *)
Definition most_votes (s : CBudgetManager) (h n : Z) : Prop :=
  (∀ k f, mapFinalizedBudgets s !! k = Some f → covers h f = true → GetVoteCount f <= n) ∧
  ∃ k f, mapFinalizedBudgets s !! k = Some f ∧ covers h f = true ∧ GetVoteCount f = n.

Lemma most_votes_highest s h n : most_votes s h n ↔ foldl (highest_step h) (-1) (budgets_in_order s) = n ∧ 0 <= n.
Proof.
  destruct (highest_spec h (budgets_in_order s) (-1)) as (B & M & E). set (m := foldl _ _ _) in *. cbn zeta in *. split.
  - intros [U (k & f & Hk & C & <-)]. pose proof (GetVoteCount_nonneg f). split; [|done].
    assert (GetVoteCount f <= m) by (apply M; [apply elem_of_budgets; by exists k|done]).
    destruct E as [E|(g & (kg & Hg)%elem_of_budgets & Cg & Eg)]; [lia|]. specialize (U kg g Hg Cg). lia.
  - intros [<- P]. destruct E as [E|(g & (kg & Hg)%elem_of_budgets & Cg & Eg)]; [lia|]. split; [|by exists kg, g].
    intros k f Hk C. apply M; [apply elem_of_budgets; by exists k|done].
Qed.

Lemma IsBudgetPaymentBlock_iff e s h :
  0 <= enabled e → IsBudgetPaymentBlock e s h = true ↔ ∃ n, most_votes s h n ∧ Z.quot (enabled e) 20 < n.
Proof.
  intros He. pose proof (Z.quot_pos (enabled e) 20 He ltac:(lia)). unfold IsBudgetPaymentBlock. split.
  - intros L. eexists. split; [apply most_votes_highest; split; [done|lia]|lia].
  - intros (n & [<- P]%most_votes_highest & L). lia.
Qed.

Lemma budget_IsTransactionValid_iff e s tx h n :
  most_votes s h n →
  budget_IsTransactionValid e s tx h = true ↔
  Z.quot (enabled e) 20 <= n ∧
  ∃ k f payee amount, mapFinalizedBudgets s !! k = Some f ∧ covers h f = true ∧ n - Z.quot (enabled e) 10 < GetVoteCount f ∧
    GetPayeeAndAmount f h = Some (payee, amount) ∧ pays_exactly (vout tx) payee amount.
Proof.
  intros [E P]%most_votes_highest. unfold budget_IsTransactionValid. rewrite highest_start by (rewrite E; lia). rewrite E.
  destruct (n <? Z.quot (enabled e) 20) eqn:L; [split; [done|lia]|]. rewrite existsb_exists. split.
  - intros (f & (k & Hk)%list_elem_of_In%elem_of_budgets & [[V C]%andb_true_iff T]%andb_true_iff). split; [lia|].
    apply finalized_IsTransactionValid_iff in T as (payee & amount & ? & ?). exists k, f, payee, amount. split_and!; try done. lia.
  - intros (_ & k & f & payee & amount & Hk & C & V & Ep & Hp). exists f. split; [apply list_elem_of_In, elem_of_budgets; by exists k|].
    rewrite C, (proj2 (finalized_IsTransactionValid_iff f tx h)) by eauto. apply andb_true_iff. split; [|done]. apply andb_true_iff. split; [lia|done].
Qed.

(** Fewer than ten masternodes: no block is valid where a budget is to be paid. *)
Lemma small_networks_reject_superblocks e s tx h :
  0 <= enabled e < 10 → budget_IsTransactionValid e s tx h = false.
Proof.
  intros He. unfold budget_IsTransactionValid. rewrite (Z.quot_small (enabled e) 10) by lia.
  destruct (_ <? _); [done|]. apply not_true_iff_false. rewrite existsb_exists.
  intros (f & Hf%list_elem_of_In & [[V C]%andb_true_iff _]%andb_true_iff).
  destruct (highest_spec h (budgets_in_order s) 0) as (_ & M & _). cbn zeta in M. specialize (M f Hf C). lia.
Qed.

(** ** The budget is shared out greedily *)

Section greedy.
Variable e : BudgetEnv.
Variables nBlockStart nBlockEnd total : Z.

Definition spent (l : list (hash256 * CBudgetProposal)) : Z := foldr (λ it n, pr_amount it.2 + n) 0 l.

(** The proposals that are paid, of those in [l], when [a] is spent already. *)
Fixpoint take_budget (a : Z) (l : list (hash256 * CBudgetProposal)) : list (hash256 * CBudgetProposal) :=
  match l with
  | [] => []
  | it :: l =>
      if qualifies e nBlockStart nBlockEnd it.2 && (a + pr_amount it.2 <=? total)
      then it :: take_budget (a + pr_amount it.2) l
      else take_budget a l
  end.

Lemma spent_app l1 l2 : spent (l1 ++ l2) = spent l1 + spent l2.
Proof. induction l1 as [|it l1 IH]; cbn; [done|]. fold (spent (l1 ++ l2)). rewrite IH. unfold spent. lia. Qed.

Lemma take_budget_app a l1 l2 : take_budget a (l1 ++ l2) = take_budget a l1 ++ take_budget (a + spent (take_budget a l1)) l2.
Proof.
  revert a. induction l1 as [|it l1 IH]; intros a; cbn [take_budget app].
  - cbn. by rewrite Z.add_0_r.
  - destruct (_ && _); rewrite IH; [|done]. cbn [app]. do 3 f_equal. cbn. fold (spent (take_budget (a + pr_amount it.2) l1)). lia.
Qed.

Lemma take_budget_sublist a l : take_budget a l `sublist_of` l.
Proof. revert a. induction l as [|it l IH]; intros a; cbn; [done|]. destruct (_ && _); by constructor. Qed.

Lemma take_budget_qualifies a l it : it ∈ take_budget a l → qualifies e nBlockStart nBlockEnd it.2 = true.
Proof.
  revert a. induction l as [|x l IH]; intros a; cbn [take_budget]; [by intros ?%elem_of_nil|].
  destruct (qualifies e nBlockStart nBlockEnd x.2 && _) eqn:E; [|by apply IH].
  intros [->|?]%elem_of_cons; [by apply andb_true_iff in E as []|by eapply IH].
Qed.

Lemma take_budget_within a l : a <= total → a + spent (take_budget a l) <= total.
Proof.
  revert a. induction l as [|it l IH]; intros a Ha; cbn [take_budget].
  - cbn. lia.
  - destruct (_ && _) eqn:E; [|by apply IH]. apply andb_true_iff in E as [_ E]. cbn. fold (spent (take_budget (a + pr_amount it.2) l)).
    specialize (IH (a + pr_amount it.2)). lia.
Qed.

(** A qualified proposal is left out only because of those before it. *)
Lemma take_budget_left_out a l1 it l2 :
  qualifies e nBlockStart nBlockEnd it.2 = true → it ∉ take_budget a (l1 ++ it :: l2) →
  total < a + spent (take_budget a l1) + pr_amount it.2.
Proof.
  intros Q. rewrite take_budget_app. cbn [take_budget]. rewrite Q. cbn [andb]. intros Hn.
  destruct (_ <=? total) eqn:E; [|lia]. destruct Hn. apply elem_of_app. right. apply list_elem_of_here.
Qed.

(** What the loop does to the map. *)
Definition alloted (taken : list (hash256 * CBudgetProposal)) (k : hash256) (p : CBudgetProposal) : CBudgetProposal :=
  if qualifies e nBlockStart nBlockEnd p then set_alloted (if bool_decide (k ∈ taken.*1) then pr_amount p else 0) p else p.

Lemma allot_loop l m a ret :
  NoDup (map (λ it, it.1.1) l) → 0 <= a <= total → total < 2 ^ 62 → Forall (λ it, 0 <= pr_amount it.1.2 < 2 ^ 62) l →
  (∀ it, it ∈ l → m !! it.1.1 = Some it.1.2) →
  let taken := take_budget a (map fst l) in
  let r := foldl (allot e nBlockStart nBlockEnd total) (m, a, ret) l in
  r.1.2 = a + spent taken ∧ r.2 = ret ++ taken.*1 ∧
  ∀ k, r.1.1 !! k = if bool_decide (k ∈ map (λ it, it.1.1) l) then option_map (alloted taken k) (m !! k) else m !! k.
Proof.
  revert m a ret. induction l as [|[[k p] v] l IH]; intros m a ret ND Ha Ht Hp Hm; cbn [map foldl take_budget fst].
  - cbn. rewrite app_nil_r. split_and!; [lia|done|done].
  - cbn [map fst] in ND. apply NoDup_cons in ND as [Hk ND]. apply Forall_cons in Hp as [Hpk Hp]. cbn [fst snd] in *.
    assert (m !! k = Some p) as Hmk by apply (Hm (k, p, v)), list_elem_of_here.
    assert (∀ x it, it ∈ l → <[k := x]> m !! it.1.1 = Some it.1.2) as Hm'.
    { intros x it Hit. rewrite lookup_insert_ne; [apply Hm; by apply list_elem_of_further|].
      intros ->. apply Hk, list_elem_of_fmap. by exists it. }
    assert (allot e nBlockStart nBlockEnd total (m, a, ret) (k, p, v) =
      if qualifies e nBlockStart nBlockEnd p then
        if a + pr_amount p <=? total then (<[k := set_alloted (pr_amount p) p]> m, a + pr_amount p, ret ++ [k])
        else (<[k := set_alloted 0 p]> m, a, ret)
      else (m, a, ret)) as ->.
    { unfold allot. rewrite (Z.add_comm (pr_amount p) a), swrap_small by (unfold in_sw; change (64 - 1) with 63; lia). done. }
    destruct (qualifies e nBlockStart nBlockEnd p) eqn:Q; cbn [andb].
    + destruct (a + pr_amount p <=? total) eqn:L; cbn [fst snd].
      * destruct (IH (<[k := set_alloted (pr_amount p) p]> m) (a + pr_amount p) (ret ++ [k])) as (I1 & I2 & I3); try done; [lia|by apply Hm'|].
        cbn zeta. rewrite I1, I2. split; [cbn; fold (spent (take_budget (a + pr_amount p) (map fst l))); lia|].
        split; [by rewrite <- app_assoc|]. intros j. rewrite I3. destruct (decide (j = k)) as [->|Hj].
        -- rewrite bool_decide_false by done. rewrite (bool_decide_true (k ∈ k :: _)) by apply list_elem_of_here.
           rewrite lookup_insert_eq, Hmk. cbn [option_map]. unfold alloted. rewrite Q. rewrite bool_decide_true; [done|]. apply list_elem_of_here.
        -- rewrite lookup_insert_ne by done. rewrite (bool_decide_ext (j ∈ k :: _) (j ∈ map (λ it, it.1.1) l)) by (rewrite elem_of_cons; tauto).
           case_bool_decide; [|done]. destruct (m !! j) as [q|]; [|done]. cbn [option_map]. unfold alloted. cbn [fmap list_fmap fst].
           rewrite (bool_decide_ext (j ∈ k :: _) (j ∈ (take_budget (a + pr_amount p) (map fst l)).*1)) by (rewrite elem_of_cons; tauto). done.
      * destruct (IH (<[k := set_alloted 0 p]> m) a ret) as (I1 & I2 & I3); try done; [by apply Hm'|].
        cbn zeta. rewrite I1, I2. split_and!; [done|done|]. intros j. rewrite I3. destruct (decide (j = k)) as [->|Hj].
        -- rewrite bool_decide_false by done. rewrite (bool_decide_true (k ∈ k :: _)) by apply list_elem_of_here.
           rewrite lookup_insert_eq, Hmk. cbn [option_map]. unfold alloted. rewrite Q. rewrite bool_decide_false; [done|].
           intros (it & -> & Hit)%list_elem_of_fmap. apply Hk.
           apply (sublist_subseteq _ _ (take_budget_sublist a (map fst l))) in Hit. apply list_elem_of_fmap in Hit as (y & -> & Hy).
           apply list_elem_of_fmap. by exists y.
        -- rewrite lookup_insert_ne by done. rewrite (bool_decide_ext (j ∈ k :: _) (j ∈ map (λ it, it.1.1) l)) by (rewrite elem_of_cons; tauto).
           done.
    + destruct (IH m a ret) as (I1 & I2 & I3); try done; [intros it Hit; apply Hm; by apply list_elem_of_further|].
      cbn zeta. rewrite I1, I2. split_and!; [done|done|]. intros j. rewrite I3. destruct (decide (j = k)) as [->|Hj].
      * rewrite bool_decide_false by done. rewrite (bool_decide_true (k ∈ k :: _)) by apply list_elem_of_here.
        rewrite Hmk. cbn [option_map]. unfold alloted. by rewrite Q.
      * rewrite (bool_decide_ext (j ∈ k :: _) (j ∈ map (λ it, it.1.1) l)) by (rewrite elem_of_cons; tauto). done.
Qed.
End greedy.

Lemma GetTotalBudget_range e h : 0 <= GetTotalBudget e h <= 648000 * COIN.
Proof.
  unfold GetTotalBudget. destruct (be_tip e); [|unfold COIN; lia].
  assert (0 <= budget_subsidy (be_params e) h <= 50 * COIN) as B.
  { unfold budget_subsidy, COIN. repeat (destruct (_ && _); [lia|]). destruct (648000 <=? h); lia. }
  assert (0 <= budget_subsidy (be_params e) h / 100 <= 50 * COIN / 100) by (split; [apply Z.div_pos|apply Z.div_le_mono]; lia).
  change (50 * COIN / 100) with 50000000 in *. change (648000 * COIN) with 64800000000000 in *.
  destruct (pe_network (be_pay e)); try (destruct (h <=? 172800)); change (500 * COIN / 100) with 500000000; lia.
Qed.

Lemma map_fst_triples (m : gmap hash256 CBudgetProposal) :
  map fst (map (λ it, (it.1, it.2, net_votes it.2)) (map_to_list m)) = map_to_list m.
Proof. rewrite map_map. rewrite <- (map_id (map_to_list m)) at 2. apply map_ext. by intros []. Qed.

(** The proposals that a call of GetBudget looks at, best first. *)
Record budget_order (m : gmap hash256 CBudgetProposal) (l : list (hash256 * CBudgetProposal)) : Prop := {
  bo_all : l ≡ₚ map_to_list m;
  bo_sorted : StronglySorted (λ a b, net_votes b.2 <= net_votes a.2) l
}.

(** GetBudget, for proposals with amounts that fit and a std::sort that sorts.
    In an order in which more votes come first, it goes through the proposals and
    takes each one that qualifies and still fits in the budget of the next month.
    The payments never add up to more than that budget. A qualified proposal is
    left out, and allotted nothing, only if the taken ones before it leave less than
    its amount. What is taken is allotted in full; the others keep what they had. *)
Theorem budget_is_shared_by_votes recover_compact std_sort e s tip :
  (∀ l, std_sort l ≡ₚ l) → (∀ l, StronglySorted (λ a b, votes_before b a = false) (std_sort l)) →
  be_tip e = Some tip →
  let start := next_block_start e tip in
  let stop := start + GetBudgetPaymentCycleBlocks (pe_network (be_pay e)) - 1 in
  let total := GetTotalBudget e start in
  (∀ k p, mapProposals s !! k = Some p → 0 <= pr_amount p < 2 ^ 62) →
  let m := proposal_CleanAndRemove recover_compact e false <$> mapProposals s in
  let '(s', ret) := GetBudget recover_compact std_sort e s in
  ∃ l, budget_order m l ∧ ret = (take_budget e start stop total 0 l).*1 ∧ NoDup ret ∧
    spent (take_budget e start stop total 0 l) <= total ∧
    (∀ before k p after, l = before ++ (k, p) :: after → qualifies e start stop p = true → k ∉ ret →
       total < spent (take_budget e start stop total 0 before) + pr_amount p) ∧
    ∀ k, mapProposals s' !! k = option_map (alloted e start stop (take_budget e start stop total 0 l) k) (m !! k).
Proof.
  intros Hperm Hsorted Ht start stop total Ham m.
  assert (0 <= total <= 648000 * COIN) as Htot by apply GetTotalBudget_range. change (648000 * COIN) with 64800000000000 in Htot. unfold GetBudget. rewrite Ht. fold m. fold start. fold stop. fold total.
  set (q := std_sort _). pose proof (Hperm (map (λ it, (it.1, it.2, net_votes it.2)) (map_to_list m))) as P. fold q in P.
  set (l := map fst q). assert (l ≡ₚ map_to_list m) as Pl by (unfold l; rewrite P; by rewrite map_fst_triples).
  assert (NoDup l.*1) as ND by (rewrite Pl; apply NoDup_fst_map_to_list).
  assert (∀ it, it ∈ q → m !! it.1.1 = Some it.1.2 ∧ it.2 = net_votes it.1.2) as Hq.
  { intros it Hit. rewrite P in Hit. apply list_elem_of_fmap in Hit as ([k p] & -> & Hin). by apply elem_of_map_to_list in Hin. }
  assert (∀ k p, m !! k = Some p → 0 <= pr_amount p < 2 ^ 62) as Hm.
  { intros k p. unfold m. rewrite lookup_fmap_Some. intros (p0 & <- & Hp). exact (Ham k p0 Hp). }
  destruct (allot_loop e start stop total q m 0 []) as (_ & R2 & R3).
  - assert (map (λ it, it.1.1) q = l.*1) as -> by (unfold l; symmetry; apply map_map). done.
  - lia.
  - lia.
  - apply Forall_forall. intros it Hit. apply (Hm it.1.1). by apply Hq.
  - intros it Hit. by apply Hq.
  - fold l in R2, R3. destruct (foldl (allot e start stop total) (m, 0, []) q) as [[m' a'] ret]. cbn in R2, R3. subst ret.
    exists l. split_and!.
    + split; [done|]. unfold l. pose proof (Hsorted (map (λ it, (it.1, it.2, net_votes it.2)) (map_to_list m))) as S. fold q in S.
      clear - S Hq. induction S as [|x q' S IH F]; cbn; [constructor|]. constructor.
      * apply IH. intros it Hit. apply Hq. by apply list_elem_of_further.
      * apply Forall_forall. intros y (z & -> & Hz)%list_elem_of_fmap. rewrite Forall_forall in F. specialize (F z Hz).
        destruct (Hq x) as [_ Ex]; [apply list_elem_of_here|]. destruct (Hq z) as [_ Ez]; [by apply list_elem_of_further|].
        unfold votes_before in F. destruct (z.2 =? x.2) eqn:E; cbn in F; lia.
    + done.
    + eapply sublist_NoDup; [exact ND|]. apply fmap_sublist, take_budget_sublist.
    + pose proof (take_budget_within e start stop total 0 l ltac:(lia)). lia.
    + intros before k p after E Q Hn. rewrite <- (Z.add_0_l (spent _)).
      apply (take_budget_left_out e start stop total 0 before (k, p) after Q). rewrite <- E. intros H. apply Hn.
      apply list_elem_of_fmap. by exists (k, p).
    + intros k. cbn [mapProposals set_proposals]. rewrite R3. case_bool_decide as H; [done|].
      destruct (m !! k) as [p|] eqn:E; [|done]. destruct H. apply list_elem_of_fmap.
      assert ((k, p) ∈ l) as ([[k' p'] v] & Ex & Hx)%list_elem_of_fmap by (by rewrite Pl, elem_of_map_to_list).
      cbn in Ex. injection Ex as -> ->. by exists (k', p', v).
Qed.
